(* ===== verification/_CoqProject ===== *)
-Q . S2P
Prelude.v
Probe.v
CString.v
CFloat.v
Dict.v
DictTheory.v
DictSpec.v
DictGet.v
DictGetSpec.v
JsonString.v
JsonStringSpec.v
Json.v
JsonTheory.v
JsonRef.v
JsonSpec.v
PtrStore.v
EventBus.v
EventBusTheory.v
EventBusSpec.v
EventMsg.v
EventMsgSpec.v
LogQueue.v
Chain.v
RrList.v
RingBuffer.v
Acl.v
AclSpec.v
ConfigText.v
Config.v
ConfigRef.v
ConfigTheory.v
ConfigSave.v
ConfigRound.v
ConfigLayout.v
ConfigSaveTheory.v
ConfigServers.v
ConfigSections.v
ConfigSpec.v
ConfigStore.v
ConfigLive.v
ConfigStoreSpec.v
Logger.v
LoggerRate.v
LoggerSpec.v
Eeprom.v
EepromSpec.v
Socks.v
SocksSpec.v
Util.v
UtilSpec.v
TuiText.v
TuiTextSpec.v
TuiWindow.v
TuiWindowSpec.v
TuiDraw.v
TuiDrawSpec.v
TuiInput.v
TuiCompletion.v
TuiInputSpec.v
TuiCompletionSpec.v
TuiKeys.v
TuiKeysSpec.v
Serial.v
SerialSpec.v
Scheduler.v
Subproc.v
Maidenhead.v
Transport.v
FileIo.v
Module.v
Process.v
Profile.v
TuiTerm.v
TuiTermSpec.v
ChatTime.v
TermKey.v
TermCsi.v
TermName.v
TermTrie.v
TermInput.v
