(* ===== verification/Prelude.v ===== *)
(** * A verified model of librustyaxe

    librustyaxe is the C support library of the rustyrig programs.  This
    development models the parts everything else in it stands on, as executable
    definitions that follow the C code, and proves what they compute, when they
    stop and what they leave alone.

    ** The program and its parts

    - dict.c: the dictionary, an open-addressing hash table of typed values.
      Configuration, JSON, events and messages all travel in it.
    - json.c: JSON text to and from a dictionary, nested documents flattened to
      dotted paths.
    - event-bus.c: named events with text, binary and message listeners, kept in
      a dictionary; tokens cancel a registration, domains name the loops that
      callbacks are handed to; one lock guards the registry, and a condition
      variable lets a module wait until its callbacks have returned.  A build with
      USE_PROFILING counts what happens and logs a report.
    - config.c, with the path helpers of util.file.c, cfg.modules.c and
      cfg.serial.c: configuration files, read into a dictionary with includes and
      section callbacks and written back; the live configuration, its typed
      settings and the callbacks of a reload.
    - log-queue.c: the queue between threads that log and the one that writes.
    - list.c and ringbuffer.c: linked structures on the heap.
    - acl.c: ordered access rules on addresses, users and groups.
    - logger.c: log lines with filters, subscribers and rate limits, written
      directly or through the queue.
    - eeprom.c: typed fields in an EEPROM image with a checksum.  socks.c: the
      client side of a SOCKS tunnel.  util.string.c, util.time.c, util.math.c:
      escaping, durations, numbers.
    - The terminal interface: irc.format.c and tui.theme.c turn IRC codes and
      style tags into terminal sequences; tui.window.c keeps the windows and
      their scrollback; tui.c draws; tui.keys.c edits the input line, keeps the
      history and the hotkeys and handles keys; tui.completion.c completes words.
    - The host: io.serial.c opens serial lines and pseudo-terminals and makes NMEA
      sentences; subproc.c starts child processes with the descriptors asked for;
      scheduler.c, daemon.c, privileges.c, posix.c, util.file.c and io.c wrap system
      calls;
      module.c loads shared objects.
    - maidenhead.c converts locators; transport.c and transport.mongoose.c are the
      connections that drivers share.

    ** Files

    - [Prelude]: strings as lists of bytes, machine integers at their width
      ([u32], [u64], [i32], [i64]), allocation outcomes, tactics, hints and
      lemmas shared by the components.
    - [Probe]: the probe sequence of [dict_lookup] as a recurrence, and that it
      reaches every slot.
    - [CString], [CFloat]: the functions of the C library that the program
      calls and whose results it depends on (strtoll, strtoull, strtod, printf
      conversions, strcasecmp), on finite strings and IEEE doubles.
    - [Dict]: dict.c up to [dict_diff]: table, hashing, store, resize, delete,
      enumerate, merge, clone.  [DictTheory]: the table invariant, the map a
      table stands for ([dict_map]) and one lemma per operation.  [DictSpec]:
      the theorems.
    - [DictGet], [DictGetSpec]: the typed readers ([dict_get_int] and so on),
      reading of text as numbers, and expansion of [${name}] references.
    - [JsonString], [JsonStringSpec]: escaping, unescaping, the token scanner.
      [Json]: the parser and the printer with its string builder.
      [JsonTheory]: totality.  [JsonRef]: documents as trees, their reference
      reading, and agreement of the parser with it.  [JsonSpec]: the theorems.
    - [PtrStore]: the class of what the event bus calls of the dictionary, the
      class of laws it relies on, and the proof that the dictionary obeys them.
    - [EventBus]: event-bus.c over any [PtrStore].  [EventBusTheory]: the
      abstract registry and the simulation of each operation by it.
      [EventBusSpec]: the theorems about registration, emission, tokens, domains.
    - [EventMsg]: message delivery and draining as a transition system, one
      step per critical section.  [EventMsgSpec]: its invariant and theorems.
    - [LogQueue]: log-queue.c, one step per critical section.
    - [Chain]: lists linked on a heap.  [RrList]: list.c;
      [RingBuffer]: ringbuffer.c.  An access to a node that is
      not allocated is an error of the model.
    - [Acl], [AclSpec]: acl.c over a class of what it relies on of [inet_pton].
    - [ConfigText]: the scanner of [cfg_load_depth], line by line; [Config]: the
      loader, over classes for files, glob patterns and section callbacks.
      [ConfigRef]: what a file says, by rules of its own, as the sequence of its
      assignments, and that every file says one thing; [ConfigTheory]: the loader
      follows it, with any callbacks that obey the class [HandlerLaws].
      [ConfigSections]: the callbacks of [[modules]] and [[serial]], which do.
    - [ConfigSave]: [cfg_save_values] and what it calls, over a class of file
      operations.  [ConfigRound]: a wrapped value is one logical line again;
      [ConfigLayout]: files of headers and settings; [ConfigSaveTheory],
      [ConfigServers]: the saved text has that form.  [ConfigSpec]: the theorems
      about files.
    - [ConfigStore]: the live dictionaries, typed settings, reload events,
      replacement; [ConfigLive]: start-up and reload; [ConfigStoreSpec]: their
      theorems.
    - [Logger], [LoggerRate], [LoggerSpec]: logger.c over a class for the clock
      and pattern matching, its rate limiter as the limit of each message alone.
    - [Eeprom], [EepromSpec]: eeprom.c over a class for its generated layout.
      [Socks], [SocksSpec]: socks.c as a machine that is given received bytes.
      [Util], [UtilSpec]: the utilities.
    - [TuiText], [TuiTextSpec]: formatting of text.  [TuiWindow],
      [TuiWindowSpec]: windows, one function per operation, and the invariant of
      the list.  [TuiDraw], [TuiDrawSpec]: what is written for the scrollback,
      the top line, the input line and status texts.  [TuiInput],
      [TuiInputSpec]: the edits of the input line as moves of memory, refined
      to two texts around the cursor; history and hotkeys.  [TuiCompletion],
      [TuiCompletionSpec]: completion.  [TuiKeys], [TuiKeysSpec]: one turn of
      the key loop, over a class for the application's callbacks.  [TuiTerm],
      [TuiTermSpec]: start-up, shutdown and redraw requests, on the state of the
      terminal and of the process that outlives the interface.
    - [TermKey]: decoded keys, UTF-8, the buffer of waiting bytes (termkey.c).
      [TermCsi]: the driver of control sequences (tui.driver-csi.c).  [TermTrie]: the
      driver of the sequences of terminfo (tui.driver-ti.c) over a class for the
      terminal's description.  [TermName]: the names of keys, printed, read and
      compared (termkey.c).  [TermInput]: the drivers together, and the loop from the
      bytes read to the keys that [TuiKeys] handles.
    - [Profile]: the profiling build of the event bus, over the same
      interface as the bus.  [ChatTime]: the time stamps of util.time.c over a class
      for the time zone.
    - [Serial], [SerialSpec]: io.serial.c over a class for the terminal
      calls.  [Scheduler]: scheduler.c over a class for the scheduling calls.
      [Subproc]: subproc.c on a table of descriptors.
      [Maidenhead]: maidenhead.c in the arithmetic of [double].
      [Transport]: the connection and the WebSocket driver.
      [FileIo]: util.file.c and io.c.  [Module]: module.c over a class for the
      dynamic linker.  [Process]: daemon.c, privileges.c and posix.c.

    Definitions carry the names of the C functions.  A function that changes an
    object through a pointer takes the state and returns the new one; a pointer
    that may be NULL is an [option]; loops that are not structural have fuel or
    are bounded by the length of the text.  [None] at the outermost level means
    that the C code does not return, which the theorems on totality exclude, or
    exhibit where it happens.

    ** What is shown

    - Dictionary: for any sequence of stores and at most five deletions the
      table represents exactly the map the operations describe
      ([dict_trace_refines_map]), also when allocations fail
      ([dict_store_inserts]); a lookup of an absent key returns if and only if
      an empty slot is left ([dict_lookup_terminates_iff_null]), and six
      deletions can remove the last one ([dict_six_deletions_hang]), since
      tombstones are never purged while the size stays the same; reading and
      enumerating follow the map; a difference holds the keys that differ and, merged,
      makes one dictionary the other ([dict_diff_patches]).
    - Readers: every conversion stays in the range of its type and is exact
      where the value fits, for each stored type, text included.
    - JSON: escaping and unescaping are inverse and safe; the parser terminates
      on every text, computes the reference reading of every document and
      refuses what the reference refuses; printing a dictionary and parsing it
      back returns every scalar, but for floating-point numbers and keys with a dot
      ([dict_json_roundtrip]).  After a failed reallocation the string builder
      writes outside its block.
    - Event bus: any run of subscriptions and at most five cancellations, the limit
      of the dictionary, has exactly the effect of the abstract registry, nothing
      leaks, and emission delivers what the registry says, in order
      ([bus_trace_refines], [emit_delivers]); a token
      undoes its registration, unless another listener shares its callback and
      user pointer ([token_roundtrip], [token_drops_twin]); a domain cannot go
      away while it is used; cancelling and draining a message token guarantees
      in every interleaving that its callback neither runs nor will run, and the
      drain itself always comes to its end.
    - Profiling changes no delivery ([profiling_transparent]); the report lists the
      events by their one ranking ([report_ranks]); the summary adds up the entries
      ([summary_totals]).
    - Configuration: every file has one reading by rules, and loading returns and
      computes its assignments, those of its includes and those of the registered
      section callbacks, in order ([cfg_load_reads_file]); what a save writes loads
      back as the saved dictionary, for keys and values the format can carry
      ([cfg_save_reload]), while sections with names of equal length are mixed up
      ([cfg_save_mixes_sections]) and folds lose blanks
      ([cfg_save_fold_loses_blank]); typed settings are checked and stored, and
      truth values and integers read back ([cfg_set_value_typed]); a reload tells
      exactly the callbacks of what changed ([cfg_apply_new_notifies]).
    - Queue, list, ring buffer: under every interleaving the queue is a bounded
      FIFO that accounts for what it drops; list operations are safe and are those
      of a sequence; the ring keeps the latest items and frees the others, except
      for the degenerate sizes of [ring_degenerate_sizes].
    - Access rules: a rule applies exactly when its prefix covers the address bit
      by bit and its principal is known ([acl_match_exact]); a decision reached
      early stays ([acl_decision_final]); mapped addresses decide like their
      IPv4 forms.
    - Logging through the queue writes what direct logging writes of messages cut to
      the size of a record ([log_async_equals_direct]); the rate limiter treats each message as if it
      were alone ([rate_limiter_refines]).
    - The EEPROM checksum detects every change of up to four consecutive bytes
      ([eeprom_checksum_guards]); a SOCKS tunnel opens exactly on the replies of
      the protocol ([socks_tunnel_opens]); escaping and durations are undone by
      their readers, within the bounds stated.
    - Terminal: every operation keeps the windows in order ([windows_stay_ok]);
      which window is in use after one is closed, found again by its title
      ([close_keeps_focus]); the log area is the slice of the scrollback asked for
      where every row that is counted is drawn, and what it is otherwise
      ([log_area_shows_slice]); how far paging reaches ([page_up_reach]).  Edits stay
      in the input buffer and do what their keys say ([line_edits_refine]); a typed line reaches the
      application, from the bytes of the terminal on ([typed_bytes_submitted]); keys that
      stay within memory keep the state in order, and they do without formatting
      characters, completions and closed windows ([keys_keep_order]); text passes no escape
      sequence but those of its tags, unless it has an IRC code
      ([tui_colorize_string_safe]); hotkeys are a finite map ([hotkeys_refine_map]).  Three
      accesses outside memory are exhibited: completion with text after the
      cursor ([completion_replaces_word]), drawing many formatting characters
      ([input_line_overflow]), and a command that closes its window
      ([typed_bytes_submitted]).  Whenever the interface is shut down the terminal,
      the flags of standard input and the handler of SIGWINCH are those from before
      it was started, also if that failed in part ([terminal_restored]); requests
      while redraws are deferred draw once ([flush_draws_once]).
    - Decoding: UTF-8 is read as it is written, and nothing else is read as a character
      ([utf8_roundtrip]); the trie of the terminal's sequences is the list of them
      ([terminfo_is_list]); cursor and function keys with modifiers are decoded
      exactly, in both forms of their sequences ([cursor_keys_decode]), unknown
      sequences are skipped whole and can be asked for
      ([unknown_sequence_skipped]), and the loop over the keys ends
      ([keys_come_to_an_end]).  A key's printed name is read back as the key
      ([key_name_roundtrip]), but a buffer that is too short is written past its end
      ([put_texts_bounds]).  Sequences with an initial byte, with more than sixteen
      parameters or without one leave arrays or read what is not set; reports lose bits
      ([report_values]); the raw mode the interface asks for breaks letters of UTF-8
      ([letters_misread]).
    - Host: settings of a serial line are read back from the line as they were set
      ([serial_settings_read_back]); an NMEA sentence that is produced is valid and
      carries position, time and date exactly ([nmea_sentence_exact]); a child
      process has the descriptors that were asked for and no others, and the parent
      keeps none of the pipes' other ends ([spawned_descriptors],
      [pipes_no_leak]); no signal goes to a number that the child no longer has
      ([signals_reach_own_child]); scheduling policies that are applied are the
      ones read back ([sched_applied_is_queried]); a process goes on only with its
      number in a locked pid file ([daemonize_outcome]).
    - A transport's callback sees the events in order and none after the end
      ([transport_events_ordered]); a square of a locator resolves to a point
      inside it ([square_resolves]).  The stamp of a chat line is that of its second
      ([live_stamp]), but for one that an older line was stamped in ([stale_stamp]).

    ** Bounds

    The probe loop has as much fuel as visits every slot, so running out of it
    is the same as not returning ([Probe]).  Table sizes stay at most 2^30 and the
    bus below 2^28 operations, far from the wrap-around of [int] in the C code;
    nesting of JSON is limited by the code itself (JSON_MAX_DEPTH).  A run of the
    delivery system has fewer than 2^32 callbacks at a time, the width of
    [executing].  The ring buffer has seen fewer than 2^64 items.  A file is read
    with its length as fuel, since every line takes a byte of it; the includes
    recurse on the levels left below the limit of the code, four.  The loader is
    followed up to 2^28 assignments, the bound of the dictionary, and a saved
    dictionary has fewer than 4096 entries, so that the lines of its servers stay
    below that.  Text loops have the length of the text as fuel; drawing a message
    has the rows still to skip and to draw, one of which every turn takes.  The
    scroll offset of a window is not bounded to the width of [int], which only
    2^31 rows printed to a scrolled window that is never drawn would reach.

    ** What is not modelled

    Logging calls outside logger.c, time stamps of dictionary entries
    that nothing reads, the release of memory except where a block is freed while
    something could still reach it (lists and ring buffers free their nodes on a
    heap), the Windows branches, and structured views of the terminal interface;
    the build of termkey.c with unibilium; the glib main loop and its wrapper reactor.glib.c stay outside, and so do the trigonometric
    functions of the C library and what [sscanf] reads with [%lf], which are
    parameters of [Maidenhead].  [xmalloc] and its kin end the process when memory runs
    out, so only the plain [malloc] and [realloc] calls of dict.c, json.c and the report of
    event-bus.c can fail. *)

From Stdlib Require Export ZArith Lia Bool Ascii.
From Stdlib Require Import String.
From stdpp Require Export base tactics option numbers strings gmap.
From stdpp Require Export list.

#[local] Open Scope Z_scope.

(** ** C strings

    A C string is the list of its bytes before the terminating NUL.  A byte is
    an [ascii], so it is in range by construction. *)
Abbreviation bstr := (list ascii).

(** [B "text"] is the string literal of the source. *)
Definition B (s : string) : bstr := list_ascii_of_string s.
Arguments B _%_string.

(** The value of a byte as an [unsigned char]. *)
Definition code (c : ascii) : Z := Z.of_N (N_of_ascii c).

(** The byte with a given value, truncated to eight bits as a store to a [char] is. *)
Definition chr (z : Z) : ascii := ascii_of_N (Z.to_N (z mod 256)).

Definition NUL : ascii := chr 0.

(** A string the C code can hold: no NUL inside. *)
Definition nonul (s : bstr) : Prop := NUL ∉ s.

(** Equality of strings as [strcmp(a, b) == 0] decides it. *)
Definition streq (a b : bstr) : bool := bool_decide (a = b).

(** ** Machine integers *)
Definition u32 (z : Z) : Z := z mod 2 ^ 32.
Definition u64 (z : Z) : Z := z mod 2 ^ 64.

(** Conversion to a signed [n]-bit integer (two's complement, as the
    compilers the project builds with define it). *)
Definition swrap (n z : Z) : Z := (z + 2 ^ (n - 1)) mod 2 ^ n - 2 ^ (n - 1).
Definition i32 (z : Z) : Z := swrap 32 z.
Definition i64 (z : Z) : Z := swrap 64 z.

Definition INT_MIN : Z := - 2 ^ 31.
Definition INT_MAX : Z := 2 ^ 31 - 1.
Definition UINT_MAX : Z := 2 ^ 32 - 1.
(** [long] has 64 bits on the hosts the project targets (LP64). *)
Definition LONG_MIN : Z := - 2 ^ 63.
Definition LONG_MAX : Z := 2 ^ 63 - 1.
Definition ULONG_MAX : Z := 2 ^ 64 - 1.
Definition LLONG_MIN : Z := - 2 ^ 63.
Definition LLONG_MAX : Z := 2 ^ 63 - 1.
Definition ULLONG_MAX : Z := 2 ^ 64 - 1.

(** ** Allocation

    The outcomes of the allocations a call makes, in order; when the list is
    used up every further allocation succeeds. *)
Abbreviation allocs := (list bool).

Definition alloc (o : allocs) : bool * allocs :=
  match o with
  | [] => (true, [])
  | b :: o => (b, o)
  end.

(** ** Shared lemmas *)
Create HintDb axe discriminated.
Create Rewrite HintDb axe_rw.

Lemma code_range c : 0 <= code c < 256.
Proof.
  unfold code. pose proof (N_ascii_bounded c). lia.
Qed.

Lemma chr_code c : chr (code c) = c.
Proof.
  unfold chr. pose proof (code_range c) as H. rewrite Z.mod_small by lia.
  unfold code. rewrite N2Z.id. apply ascii_N_embedding.
Qed.

Lemma code_chr z : code (chr z) = z mod 256.
Proof.
  unfold chr, code. pose proof (Z.mod_pos_bound z 256 ltac:(lia)).
  rewrite N_ascii_embedding; lia.
Qed.

Lemma code_inj a b : code a = code b -> a = b.
Proof. intros H. rewrite <- (chr_code a), <- (chr_code b). by rewrite H. Qed.

Lemma streq_true a b : streq a b = true <-> a = b.
Proof. unfold streq. apply bool_decide_eq_true. Qed.

Lemma streq_refl a : streq a a = true.
Proof. by apply streq_true. Qed.

Lemma streq_false a b : streq a b = false <-> a <> b.
Proof. unfold streq. apply bool_decide_eq_false. Qed.

Lemma u32_range z : 0 <= u32 z < 2 ^ 32.
Proof. apply Z.mod_pos_bound. lia. Qed.

Lemma u32_small z : 0 <= z < 2 ^ 32 -> u32 z = z.
Proof. apply Z.mod_small. Qed.

Lemma u64_small z : 0 <= z < 2 ^ 64 -> u64 z = z.
Proof. apply Z.mod_small. Qed.

(** A number below a power of two has no bit at or above the exponent. *)
Lemma below_pow2 a n : 0 <= n -> 0 <= a -> (a < 2 ^ n <-> forall i, n <= i -> Z.testbit a i = false).
Proof.
  intros Hn Ha. split.
  - intros Hlt i Hi. destruct (decide (a = 0)) as [-> | Hne]; [apply Z.testbit_0_l |].
    apply Z.bits_above_log2; [lia |]. apply Z.log2_lt_pow2; [lia |].
    eapply Z.lt_le_trans; [exact Hlt |]. apply Z.pow_le_mono_r; lia.
  - intros Hbits. destruct (decide (a = 0)) as [-> | Hne]; [lia |].
    apply Z.log2_lt_pow2; [lia |]. apply Z.lt_nge. intros Hle.
    specialize (Hbits _ Hle). rewrite Z.bit_log2 in Hbits by lia. done.
Qed.

Lemma lxor_range n a b : 0 <= n -> 0 <= a < 2 ^ n -> 0 <= b < 2 ^ n -> 0 <= Z.lxor a b < 2 ^ n.
Proof.
  intros Hn Ha Hb. assert (0 <= Z.lxor a b) by (apply Z.lxor_nonneg; lia). split; [done |].
  apply below_pow2; [done.. |]. intros i Hi. rewrite Z.lxor_spec.
  rewrite (proj1 (below_pow2 a n Hn ltac:(lia)) ltac:(lia) i Hi).
  by rewrite (proj1 (below_pow2 b n Hn ltac:(lia)) ltac:(lia) i Hi).
Qed.

Lemma shiftr_range n a k : 0 <= k -> 0 <= a < 2 ^ n -> 0 <= Z.shiftr a k < 2 ^ n.
Proof.
  intros Hk Ha. rewrite Z.shiftr_div_pow2 by done.
  assert (0 < 2 ^ k) by (apply Z.pow_pos_nonneg; lia).
  split; [apply Z.div_pos; lia |].
  eapply Z.le_lt_trans; [| apply Ha]. apply Z.div_le_upper_bound; nia.
Qed.

(** Masking with [size - 1] for a power-of-two size is reduction modulo the size. *)
Lemma land_pow2 a k : 0 <= k -> Z.land a (2 ^ k - 1) = a mod 2 ^ k.
Proof.
  intros Hk. replace (2 ^ k - 1) with (Z.ones k) by (rewrite Z.ones_equiv; lia).
  by apply Z.land_ones.
Qed.

#[export] Hint Resolve code_range u32_range streq_refl : axe.
#[export] Hint Rewrite chr_code streq_refl : axe_rw.
