(* ===== verification/Probe.v ===== *)
(** * The probe sequence of the dictionary (dict.c, [dict_lookup])

    [dict_lookup] visits the slots [i], [5*i + perturb + 1], ... of a table
    whose size is a power of two, shifting the perturbation right by five bits
    at each step.  This file proves that the sequence visits every slot: once
    the 32-bit perturbation is used up (seven steps), [i -> 5*i + 1] is a
    single cycle modulo any power of two. *)

From S2P Require Import Prelude.

#[local] Open Scope Z_scope.

Definition PERTURB_SHIFT : Z := 5.

(** One iteration of the probe loop: [i = (i << 2) + i + perturb + 1] in
    [unsigned] arithmetic, then [i &= size - 1]. *)
Definition probe_next (size i perturb : Z) : Z :=
  Z.land (u32 (Z.shiftl i 2 + i + perturb + 1)) (size - 1).

(** The [n]-th slot visited for a hash, and the perturbation used to leave it. *)
Fixpoint probe_pos (size h : Z) (n : nat) : Z :=
  match n with
  | O => Z.land h (size - 1)
  | S n => probe_next size (probe_pos size h n) (Z.shiftr h (PERTURB_SHIFT * Z.of_nat n))
  end.

(** [1 + 5 + ... + 5^(n-1)]. *)
Fixpoint sum5 (n : nat) : Z :=
  match n with
  | O => 0
  | S n => 5 ^ Z.of_nat n + sum5 n
  end.

Lemma sum5_pow n : 4 * sum5 n = 5 ^ Z.of_nat n - 1.
Proof.
  induction n as [| n IH]; [done |].
  rewrite Nat2Z.inj_succ, Z.pow_succ_r by lia. cbn [sum5]. lia.
Qed.

Lemma sum5_add a b : sum5 (a + b) = sum5 a + 5 ^ Z.of_nat a * sum5 b.
Proof.
  pose proof (sum5_pow a). pose proof (sum5_pow b). pose proof (sum5_pow (a + b)) as H1.
  rewrite Nat2Z.inj_add, Z.pow_add_r in H1 by lia. nia.
Qed.

Lemma pow5_odd n : exists q, 5 ^ Z.of_nat n = 4 * q + 1.
Proof. exists (sum5 n). pose proof (sum5_pow n). lia. Qed.

Lemma sum5_parity n : Z.even (sum5 n) = Nat.even n.
Proof.
  induction n as [| n IH]; [done |]. cbn [sum5].
  rewrite Z.even_add, IH, Nat.even_succ, <- Nat.negb_even.
  destruct (pow5_odd n) as [q ->].
  replace (Z.even (4 * q + 1)) with false; [by destruct (Nat.even n) |].
  replace (4 * q + 1) with (1 + 2 * (2 * q)) by lia.
  by rewrite Z.even_add_mul_2.
Qed.


Lemma odd_coprime_pow2 a k : 0 <= k -> Z.odd a = true -> Z.gcd (2 ^ k) a = 1.
Proof.
  intros Hk Hodd. apply Z.coprime_pow_l; [done |]. apply Zodd_bool_iff, Zodd_ex in Hodd as [q ->].
  apply Z.bezout_1_gcd. exists (- q), 1. lia.
Qed.

(** [2^k] divides [sum5 j] only if it divides [j]. *)
Lemma sum5_divide k j : (2 ^ Z.of_nat k | sum5 j) -> (2 ^ Z.of_nat k | Z.of_nat j).
Proof.
  revert j. induction k as [| k IH]; intros j Hdiv; [apply Z.divide_1_l |].
  rewrite Nat2Z.inj_succ, Z.pow_succ_r in * by lia.
  assert (Hev : Nat.even j = true).
  { rewrite <- sum5_parity. apply Z.even_spec. destruct Hdiv as [q Hq].
    exists (q * 2 ^ Z.of_nat k). lia. }
  apply Nat.even_spec in Hev as [i ->].
  assert (Hs : sum5 (2 * i) = 2 * (sum5 i * (2 * sum5 i + 1))).
  { replace (2 * i)%nat with (i + i)%nat by lia. rewrite sum5_add.
    pose proof (sum5_pow i). nia. }
  rewrite Hs in Hdiv. apply Z.mul_divide_cancel_l in Hdiv; [| lia].
  rewrite Nat2Z.inj_mul. apply Z.mul_divide_mono_l, IH.
  rewrite Z.mul_comm in Hdiv.
  rewrite Z.mul_comm in Hdiv. eapply Z.gauss; [rewrite Z.mul_comm; exact Hdiv |].
  apply odd_coprime_pow2; [lia |]. by rewrite Z.add_comm, Z.odd_add_mul_2.
Qed.

(** The unperturbed iteration, [i -> 5*i + 1] modulo [2^k], in closed form. *)
Definition step5 (k x : Z) (n : nat) : Z := (5 ^ Z.of_nat n * x + sum5 n) mod 2 ^ k.

Lemma step5_succ k x n : 0 <= k -> (5 * step5 k x n + 1) mod 2 ^ k = step5 k x (S n).
Proof.
  intros Hk. unfold step5. rewrite <- Z.add_mod_idemp_l, Z.mul_mod_idemp_r, Z.add_mod_idemp_l by
    (apply Z.pow_nonzero; lia).
  f_equal. pose proof (sum5_pow n). cbn [sum5]. rewrite Nat2Z.inj_succ, Z.pow_succ_r by lia. lia.
Qed.

Lemma step5_inj (k : nat) x a b :
  (a < b)%nat -> Z.of_nat b < 2 ^ Z.of_nat k -> step5 (Z.of_nat k) x a <> step5 (Z.of_nat k) x b.
Proof.
  intros Hab Hb Heq. unfold step5 in Heq.
  assert (Hp : 0 < 2 ^ Z.of_nat k) by (apply Z.pow_pos_nonneg; lia).
  set (j := (b - a)%nat). replace b with (a + j)%nat in Heq by lia.
  assert (Hd : (2 ^ Z.of_nat k | 5 ^ Z.of_nat a * (4 * x + 1) * sum5 j)).
  { apply Z.mod_divide; [lia |].
    replace (5 ^ Z.of_nat a * (4 * x + 1) * sum5 j)
      with (5 ^ Z.of_nat (a + j) * x + sum5 (a + j) - (5 ^ Z.of_nat a * x + sum5 a)).
    - rewrite Zminus_mod, Heq, Z.sub_diag. apply Z.mod_0_l. lia.
    - rewrite sum5_add, Nat2Z.inj_add, Z.pow_add_r by lia. pose proof (sum5_pow j). nia. }
  apply Z.gauss in Hd.
  - apply sum5_divide, Z.divide_pos_le in Hd; lia.
  - apply odd_coprime_pow2; [lia |]. destruct (pow5_odd a) as [q ->].
    replace ((4 * q + 1) * (4 * x + 1)) with (1 + 2 * (8 * q * x + 2 * q + 2 * x)) by lia.
    by rewrite Z.odd_add_mul_2.
Qed.

(** The unperturbed iteration visits every residue within [2^k] steps. *)
Lemma step5_surj (k : nat) x t :
  0 <= t < 2 ^ Z.of_nat k -> exists n, Z.of_nat n < 2 ^ Z.of_nat k /\ step5 (Z.of_nat k) x n = t.
Proof.
  intros Ht. set (N := Z.to_nat (2 ^ Z.of_nat k)).
  assert (Hp : 0 < 2 ^ Z.of_nat k) by (apply Z.pow_pos_nonneg; lia).
  assert (HN : Z.of_nat N = 2 ^ Z.of_nat k) by (unfold N; lia).
  set (xs := step5 (Z.of_nat k) x <$> seq 0 N).
  assert (Hnd : List.NoDup xs).
  { apply NoDup_ListNoDup, NoDup_fmap_2_strong; [| apply NoDup_seq].
    intros a b Ha Hb Heq. apply elem_of_seq in Ha, Hb.
    destruct (Nat.lt_trichotomy a b) as [Hl | [-> | Hl]]; [| done |]; exfalso.
    - eapply (step5_inj k x a b); [done | lia | done].
    - eapply (step5_inj k x b a); [done | lia | done]. }
  assert (Hincl : incl xs (seqZ 0 (2 ^ Z.of_nat k))).
  { intros y Hy. apply list_elem_of_In, list_elem_of_fmap in Hy as [n [-> Hn]].
    apply list_elem_of_In, elem_of_seqZ. unfold step5.
    pose proof (Z.mod_pos_bound (5 ^ Z.of_nat n * x + sum5 n) (2 ^ Z.of_nat k) Hp). lia. }
  apply List.NoDup_length_incl in Hincl; [| done |].
  2:{ unfold xs. rewrite length_fmap, length_seq, length_seqZ. lia. }
  assert (Hin : List.In t xs) by (apply Hincl, list_elem_of_In, elem_of_seqZ; lia).
  apply list_elem_of_In, list_elem_of_fmap in Hin as [n [-> Hn]]. apply elem_of_seq in Hn.
  exists n. split; [lia | done].
Qed.

Section positions.
Context (k : nat) (h : Z).
Hypothesis Hk : (k <= 31)%nat.
Hypothesis Hh : 0 <= h < 2 ^ 32.

Abbreviation size := (2 ^ Z.of_nat k).

Lemma probe_next_mod i perturb : probe_next size i perturb = (5 * i + perturb + 1) mod size.
Proof.
  unfold probe_next, u32. rewrite land_pow2, Z.shiftl_mul_pow2 by lia.
  replace (i * 2 ^ 2 + i + perturb + 1) with (5 * i + perturb + 1) by lia.
  rewrite Z.mod_mod_divide; [done |].
  exists (2 ^ (32 - Z.of_nat k)). rewrite <- Z.pow_add_r by lia. f_equal. lia.
Qed.

Lemma probe_pos_range n : 0 <= probe_pos size h n < size.
Proof.
  assert (0 < size) by (apply Z.pow_pos_nonneg; lia).
  destruct n as [| n]; cbn [probe_pos].
  - rewrite land_pow2 by lia. apply Z.mod_pos_bound. done.
  - rewrite probe_next_mod. apply Z.mod_pos_bound. done.
Qed.

Lemma perturb_spent n : (7 <= n)%nat -> Z.shiftr h (PERTURB_SHIFT * Z.of_nat n) = 0.
Proof.
  intros Hn. rewrite Z.shiftr_div_pow2 by (unfold PERTURB_SHIFT; lia).
  apply Z.div_small. split; [lia |]. eapply Z.lt_le_trans; [apply Hh |].
  apply Z.pow_le_mono_r; unfold PERTURB_SHIFT; lia.
Qed.

Lemma probe_pos_spent n : (7 <= n)%nat -> probe_pos size h (S n) = (5 * probe_pos size h n + 1) mod size.
Proof.
  intros Hn. change (probe_pos size h (S n))
    with (probe_next size (probe_pos size h n) (Z.shiftr h (PERTURB_SHIFT * Z.of_nat n))).
  by rewrite perturb_spent, probe_next_mod, Z.add_0_r.
Qed.

Lemma probe_pos_step5 m n :
  (7 <= m)%nat -> probe_pos size h (m + n) = step5 (Z.of_nat k) (probe_pos size h m) n.
Proof.
  intros Hm. induction n as [| n IH].
  - unfold step5. cbn [sum5]. rewrite Z.mul_1_l, Z.add_0_r, Nat.add_0_r, Z.mod_small; [done |].
    apply probe_pos_range.
  - rewrite Nat.add_succ_r, probe_pos_spent, IH by lia. apply step5_succ. lia.
Qed.

(** Every slot of the table is visited within [7 + size] steps. *)
Lemma probe_covers t :
  0 <= t < size -> exists n, (n < 7 + Z.to_nat size)%nat /\ probe_pos size h n = t.
Proof.
  intros Ht. destruct (step5_surj k (probe_pos size h 7) t Ht) as [n [Hn Heq]].
  exists (7 + n)%nat. split; [clear Heq; lia |]. by rewrite probe_pos_step5.
Qed.

End positions.
