(* ===== verification/CString.v ===== *)
(** * The C library functions the program leans on: strings and integers

    <ctype.h> in the C locale, the comparison functions of <strings.h>, the
    [strtol] family of <stdlib.h> in base 10, and the decimal conversions of
    [printf].  Nothing here is code of the project. *)

From S2P Require Import Prelude.

#[local] Open Scope Z_scope.

(** ** <ctype.h> *)
Definition isspace (c : ascii) : bool := (code c =? 32) || ((9 <=? code c) && (code c <=? 13)).
Definition isdigit (c : ascii) : bool := (48 <=? code c) && (code c <=? 57).
Definition isupper (c : ascii) : bool := (65 <=? code c) && (code c <=? 90).
Definition islower (c : ascii) : bool := (97 <=? code c) && (code c <=? 122).
Definition isalpha (c : ascii) : bool := isupper c || islower c.
Definition isalnum (c : ascii) : bool := isalpha c || isdigit c.
Definition isprint (c : ascii) : bool := (32 <=? code c) && (code c <=? 126).
Definition tolower (c : ascii) : ascii := if isupper c then chr (code c + 32) else c.
Definition toupper (c : ascii) : ascii := if islower c then chr (code c - 32) else c.

(** ** <strings.h>, <string.h> *)

(** [strcmp]: the difference of the first bytes that differ. *)
Fixpoint strcmp (a b : bstr) : Z :=
  match a, b with
  | [], [] => 0
  | [], d :: _ => - code d
  | c :: _, [] => code c
  | c :: a, d :: b => if code c =? code d then strcmp a b else code c - code d
  end.

(** [strcasecmp(a, b) == 0] *)
Definition strcaseeq (a b : bstr) : bool := streq (map tolower a) (map tolower b).

(** [strncasecmp(a, b, n) == 0] *)
Definition strncaseeq (a b : bstr) (n : nat) : bool := strcaseeq (take n a) (take n b).

(** [strncmp(a, b, n) == 0] *)
Definition strneq (a b : bstr) (n : nat) : bool := streq (take n a) (take n b).

(** [strchr]: the text from the first occurrence of [c] on. *)
Fixpoint strchr (s : bstr) (c : ascii) : option bstr :=
  match s with
  | [] => None
  | x :: s' => if bool_decide (x = c) then Some s else strchr s' c
  end.

(** The text before the first occurrence of [c], and after it. *)
Fixpoint split_at (s : bstr) (c : ascii) : option (bstr * bstr) :=
  match s with
  | [] => None
  | x :: s' =>
      if bool_decide (x = c) then Some ([], s')
      else '(a, b) ← split_at s' c; Some (x :: a, b)
  end.

(** What [strlcpy(dst, s, n)] leaves in [dst]. *)
Definition strlcpy (s : bstr) (n : nat) : bstr := take (n - 1) s.

Fixpoint skip_space (s : bstr) : bstr :=
  match s with
  | c :: s' => if isspace c then skip_space s' else s
  | [] => []
  end.

(** ** [strtoll] and [strtoull], base 10 *)
Definition digit_val (c : ascii) : Z := code c - 48.

(** The value of the leading digits after [acc], whether there are any, and the rest. *)
Fixpoint scan_digits (acc : Z) (any : bool) (s : bstr) : Z * bool * bstr :=
  match s with
  | c :: s' => if isdigit c then scan_digits (10 * acc + digit_val c) true s' else (acc, any, s)
  | [] => (acc, any, s)
  end.

(** The optional sign: whether it is a minus, and the rest. *)
Definition scan_sign (s : bstr) : bool * bstr :=
  match s with
  | c :: s' =>
      if bool_decide (c = "-"%char) then (true, s')
      else if bool_decide (c = "+"%char) then (false, s') else (false, s)
  | [] => (false, s)
  end.

Record strto := Strto { st_value : Z; st_end : bstr; st_erange : bool }.

(** The end pointer is the whole input when there is no number. *)
Definition strtoll (s : bstr) : strto :=
  let '(neg, s1) := scan_sign (skip_space s) in
  let '(n, any, rest) := scan_digits 0 false s1 in
  if negb any then Strto 0 s false
  else
    let v := if neg : bool then - n else n in
    if v <? LLONG_MIN then Strto LLONG_MIN rest true
    else if LLONG_MAX <? v then Strto LLONG_MAX rest true
    else Strto v rest false.

(** [strtoull] accepts a minus sign and negates in unsigned arithmetic. *)
Definition strtoull (s : bstr) : strto :=
  let '(neg, s1) := scan_sign (skip_space s) in
  let '(n, any, rest) := scan_digits 0 false s1 in
  if negb any then Strto 0 s false
  else if ULLONG_MAX <? n then Strto ULLONG_MAX rest true
  else Strto (if neg : bool then u64 (- n) else n) rest false.

(** [atoi], which is [(int)strtol(s, NULL, 10)] on an LP64 host. *)
Definition atoi (s : bstr) : Z := i32 (st_value (strtoll s)).

(** ** Decimal printing: [%d], [%ld], [%lld], [%u], [%lu], [%llu] *)
Definition digit_char (d : Z) : ascii := chr (48 + d).

Fixpoint print_digits (fuel : nat) (n : Z) (acc : bstr) : bstr :=
  match fuel with
  | O => acc
  | S fuel =>
      let acc := digit_char (n mod 10) :: acc in
      if n <? 10 then acc else print_digits fuel (n / 10) acc
  end.

(** One digit more than the binary logarithm is enough fuel. *)
Definition print_nat (n : Z) : bstr := print_digits (S (Z.to_nat (Z.log2 n))) n [].

Definition print_dec (z : Z) : bstr := if z <? 0 then "-"%char :: print_nat (- z) else print_nat z.

(** ** Hexadecimal printing: [%x], and zero padding as in [%04x] *)
Definition hex_char (d : Z) : ascii := if d <? 10 then chr (48 + d) else chr (87 + d).

Fixpoint print_hex_digits (fuel : nat) (n : Z) (acc : bstr) : bstr :=
  match fuel with
  | O => acc
  | S fuel =>
      let acc := hex_char (n mod 16) :: acc in
      if n <? 16 then acc else print_hex_digits fuel (n / 16) acc
  end.

Definition print_hex (n : Z) : bstr := print_hex_digits (S (Z.to_nat (Z.log2 n))) n [].

(** Padding with zeros to [n] digits. *)
Definition pad_left (n : nat) (s : bstr) : bstr := replicate (n - length s) "0"%char ++ s.

(** ** Lemmas *)

Lemma digit_char_digit d : 0 <= d < 10 -> isdigit (digit_char d) = true /\ digit_val (digit_char d) = d.
Proof.
  intros Hd. unfold isdigit, digit_val, digit_char. rewrite code_chr, Z.mod_small by lia. lia.
Qed.

Lemma print_digits_S n fuel acc :
  print_digits (S fuel) n acc =
  if n <? 10 then digit_char (n mod 10) :: acc else print_digits fuel (n / 10) (digit_char (n mod 10) :: acc).
Proof. done. Qed.

Lemma print_digits_app fuel n acc : print_digits fuel n acc = print_digits fuel n [] ++ acc.
Proof.
  revert n acc. induction fuel as [| fuel IH]; intros n acc; [done |].
  rewrite !print_digits_S. case_match; [done |]. rewrite IH, (IH _ [_]), <- app_assoc. done.
Qed.

(** A number below [10 ^ w] has at most [w] digits. *)
Lemma print_digits_width fuel n w :
  0 <= n < 10 ^ Z.of_nat w -> (0 < w)%nat -> (length (print_digits fuel n []) <= w)%nat.
Proof.
  revert n w. induction fuel as [| fuel IH]; intros n w Hn Hw; [cbn; lia |]. rewrite print_digits_S.
  destruct (Z.ltb_spec n 10) as [Hl | Hl]; [cbn; lia |]. rewrite print_digits_app, length_app. cbn [length].
  destruct w as [| w]; [lia |]. rewrite Nat2Z.inj_succ, Z.pow_succ_r in Hn by lia.
  destruct w as [| w]; [cbn in Hn; lia |].
  pose proof (IH (n / 10) (S w) ltac:(split; [apply Z.div_pos; lia | apply Z.div_lt_upper_bound; lia]) ltac:(lia)). lia.
Qed.

Lemma scan_digits_app a any s c t :
  Forall (fun c => isdigit c = true) s -> isdigit c = true ->
  scan_digits a any (s ++ c :: t) =
  let '(n, _, _) := scan_digits a any s in scan_digits (10 * n + digit_val c) true t.
Proof.
  intros Hs Hc. revert a any. induction Hs as [| x s Hx Hs IH]; intros a any; cbn [app scan_digits].
  - by rewrite Hc.
  - rewrite Hx. apply IH.
Qed.

Lemma print_digits_spec fuel n :
  0 <= n < 2 ^ Z.of_nat fuel -> (0 < fuel)%nat ->
  Forall (fun c => isdigit c = true) (print_digits fuel n []) /\
  scan_digits 0 false (print_digits fuel n []) = (n, true, []).
Proof.
  revert n. induction fuel as [| fuel IH]; intros n Hn Hf; [lia |]. rewrite print_digits_S.
  pose proof (Z.mod_pos_bound n 10 ltac:(lia)) as Hmod.
  destruct (digit_char_digit (n mod 10) Hmod) as [Hd Hv].
  destruct (Z.ltb_spec n 10) as [Hlt | Hge].
  { split; [by repeat constructor |]. cbn [scan_digits]. rewrite Hd, Hv, Z.mod_small by lia. done. }
  rewrite Nat2Z.inj_succ, Z.pow_succ_r in Hn by lia.
  destruct (IH (n / 10)) as [Hall Hscan].
  { split; [apply Z.div_pos; lia |]. apply Z.div_lt_upper_bound; lia. }
  { destruct fuel; [cbn in Hn; lia | lia]. }
  rewrite print_digits_app. split; [apply Forall_app; split; [done | by repeat constructor] |].
  rewrite scan_digits_app, Hscan, Hv by done. cbn [scan_digits]. do 2 f_equal.
  pose proof (Z.div_mod n 10 ltac:(lia)). lia.
Qed.

Lemma print_nat_spec n :
  0 <= n ->
  Forall (fun c => isdigit c = true) (print_nat n) /\ scan_digits 0 false (print_nat n) = (n, true, []).
Proof.
  intros Hn. apply print_digits_spec; [| lia]. split; [done |].
  rewrite Nat2Z.inj_succ, Z2Nat.id by apply Z.log2_nonneg.
  destruct (decide (n = 0)) as [-> | Hne]; [apply Z.pow_pos_nonneg; [lia | apply Z.le_le_succ_r, Z.log2_nonneg] |].
  apply Z.log2_spec. lia.
Qed.

(** Digits continue with whatever follows them, up to the first other character. *)
Lemma scan_digits_stop a any s t :
  Forall (fun c => isdigit c = true) s -> (forall c t', t = c :: t' -> isdigit c = false) ->
  scan_digits a any (s ++ t) =
  let '(n, any, _) := scan_digits a any s in (n, any, t).
Proof.
  intros Hs Ht. revert a any. induction Hs as [| x s Hx Hs IH]; intros a any; cbn [app scan_digits].
  - destruct t as [| c t']; [done |]. cbn [scan_digits]. by rewrite (Ht c t').
  - rewrite Hx. apply IH.
Qed.

Lemma isdigit_not c : isdigit c = true -> isspace c = false /\ c <> "-"%char /\ c <> "+"%char.
Proof.
  unfold isdigit, isspace. intros H. split_and!; [lia | by intros -> | by intros ->].
Qed.

Lemma print_nat_cons n : 0 <= n -> exists c s, print_nat n = c :: s /\ isdigit c = true.
Proof.
  intros Hn. destruct (print_nat_spec n Hn) as [Hall Hscan].
  destruct (print_nat n) as [| c s]; [done |]. inversion Hall. eauto.
Qed.

Lemma scan_sign_print z :
  scan_sign (skip_space (print_dec z)) = (z <? 0, print_nat (Z.abs z)).
Proof.
  unfold print_dec. destruct (Z.ltb_spec z 0) as [Hneg | Hpos].
  - cbn. by rewrite Z.abs_neq by lia.
  - destruct (print_nat_cons z Hpos) as (c & s & Heq & Hc). rewrite Z.abs_eq, Heq by lia.
    destruct (isdigit_not c Hc) as (Hs & Hm & Hp). cbn [skip_space]. rewrite Hs. cbn [scan_sign].
    by rewrite !bool_decide_false.
Qed.

(** Printing and reading back, out of range included. *)
Lemma strtoll_print_all z :
  strtoll (print_dec z) =
  if z <? LLONG_MIN then Strto LLONG_MIN [] true
  else if LLONG_MAX <? z then Strto LLONG_MAX [] true else Strto z [] false.
Proof.
  unfold strtoll. rewrite scan_sign_print.
  rewrite (proj2 (print_nat_spec (Z.abs z) ltac:(lia))). cbn [negb].
  by replace (if z <? 0 then - Z.abs z else Z.abs z) with z by (destruct (Z.ltb_spec z 0); lia).
Qed.

Lemma strtoll_print z : LLONG_MIN <= z <= LLONG_MAX -> strtoll (print_dec z) = Strto z [] false.
Proof.
  intros Hz. rewrite strtoll_print_all. by rewrite (proj2 (Z.ltb_ge _ _)), (proj2 (Z.ltb_ge _ _)) by lia.
Qed.

Lemma strtoull_print_all z :
  Z.abs z <= ULLONG_MAX -> strtoull (print_dec z) = Strto (u64 z) [] false.
Proof.
  intros Hz. unfold strtoull. rewrite scan_sign_print.
  rewrite (proj2 (print_nat_spec (Z.abs z) ltac:(lia))). cbn [negb].
  rewrite (proj2 (Z.ltb_ge ULLONG_MAX _)) by lia. f_equal. unfold ULLONG_MAX in Hz.
  destruct (Z.ltb_spec z 0); [f_equal; lia |]. rewrite u64_small by lia. lia.
Qed.

Lemma strtoull_print z : 0 <= z <= ULLONG_MAX -> strtoull (print_dec z) = Strto z [] false.
Proof.
  intros Hz. rewrite strtoull_print_all by lia. rewrite u64_small; [done | unfold ULLONG_MAX in Hz; lia].
Qed.

Lemma print_dec_cons z : exists c s, print_dec z = c :: s.
Proof.
  unfold print_dec. destruct (Z.ltb_spec z 0); [eauto |]. destruct (print_nat_cons z) as (c & s & -> & _); eauto.
Qed.

Lemma strtoll_range s : LLONG_MIN <= st_value (strtoll s) <= LLONG_MAX.
Proof.
  unfold strtoll. destruct (scan_sign _) as [neg s1]. destruct (scan_digits _ _ _) as [[n any] rest].
  destruct any; cbn [negb]; [| cbn; unfold LLONG_MIN, LLONG_MAX; lia].
  destruct (Z.ltb_spec (if neg then - n else n) LLONG_MIN); cbn; [unfold LLONG_MIN, LLONG_MAX in *; lia |].
  destruct (Z.ltb_spec LLONG_MAX (if neg then - n else n)); cbn; unfold LLONG_MIN, LLONG_MAX in *; lia.
Qed.

Lemma scan_digits_nonneg a any s : 0 <= a -> 0 <= (scan_digits a any s).1.1.
Proof.
  revert a any. induction s as [| c s IH]; intros a any Ha; cbn [scan_digits]; [done |].
  destruct (isdigit c) eqn:Hc; [| done]. apply IH. unfold digit_val. unfold isdigit in Hc. lia.
Qed.

Lemma strtoull_range s : 0 <= st_value (strtoull s) <= ULLONG_MAX.
Proof.
  unfold strtoull. destruct (scan_sign _) as [neg s1].
  pose proof (scan_digits_nonneg 0 false s1 ltac:(lia)) as Hn.
  destruct (scan_digits 0 false s1) as [[n any] rest]. cbn in Hn.
  destruct any; cbn [negb]; [| cbn; unfold ULLONG_MAX; lia].
  destruct (Z.ltb_spec ULLONG_MAX n); cbn; [unfold ULLONG_MAX; lia |]. destruct neg; [| lia].
  unfold u64. pose proof (Z.mod_pos_bound (- n) (2 ^ 64)). unfold ULLONG_MAX. lia.
Qed.

#[export] Hint Rewrite strtoll_print strtoull_print : axe_rw.

Lemma skip_space_blank s : Forall (fun c => isspace c = true) s -> skip_space s = [].
Proof. induction 1 as [| c s Hc _ IH]; cbn; [done |]. by rewrite Hc. Qed.

Lemma split_at_none (s : bstr) (c : ascii) : c ∉ s -> split_at s c = None.
Proof.
  induction s as [| d s IH]; cbn [split_at]; intros Hn; [done |]. apply not_elem_of_cons in Hn as [Hd Hs].
  rewrite bool_decide_eq_false_2 by congruence. by rewrite (IH Hs).
Qed.
