(* ===== verification/CFloat.v ===== *)
(** * The C library functions the program leans on: floating point

    [double] and [float] are the IEEE formats of [SpecFloat] (binary64 and
    binary32); conversions round to nearest even.  [strtod] follows the C
    standard's grammar (decimal, hexadecimal, infinities, NaN) with a correctly
    rounded result, and [%g] prints a correctly rounded decimal, as the GNU
    library does.  Nothing here is code of the project. *)

From S2P Require Import Prelude CString.
From Stdlib Require Export SpecFloat.

#[local] Open Scope Z_scope.

Definition round64 (s : bool) (m : Z) (e : Z) : spec_float := binary_normalize 53 1024 (if s then - m else m) e s.
Definition round32 (s : bool) (m : Z) (e : Z) : spec_float := binary_normalize 24 128 (if s then - m else m) e s.

(** Integer to [double]. *)
Definition f64_of_Z (z : Z) : spec_float := binary_normalize 53 1024 z 0 false.

(** [float] to [double], which is exact, and [double] to [float]. *)
Definition f64_of_f32 (f : spec_float) : spec_float :=
  match f with S754_finite s m e => round64 s (Zpos m) e | _ => f end.
Definition f32_of_f64 (f : spec_float) : spec_float :=
  match f with S754_finite s m e => round32 s (Zpos m) e | _ => f end.

Definition isfinite (f : spec_float) : bool :=
  match f with S754_zero _ | S754_finite _ _ _ => true | _ => false end.

(** Conversion of a finite value to an integer type that can hold it: truncation. *)
Definition trunc (f : spec_float) : Z :=
  match f with
  | S754_finite s m e =>
      let a := if e <? 0 then Z.shiftr (Zpos m) (- e) else Z.shiftl (Zpos m) e in
      if s then - a else a
  | _ => 0
  end.

(** [f != 0.0] *)
Definition nonzero (f : spec_float) : bool :=
  match f with S754_zero _ => false | _ => true end.

(** The largest finite [float], as a [double]. *)
Definition FLT_MAX : spec_float := round64 false (2 ^ 24 - 1) 104.

(** The smallest normal [double] is 2^-1022. *)
Definition below_dbl_min (f : spec_float) : bool :=
  match f with
  | S754_zero _ => true
  | S754_finite _ m e => Z.log2 (Zpos m) + e <? -1022
  | _ => false
  end.

(** ** [strtod] *)

(** [num / den], positive, correctly rounded; and whether the result underflows. *)
Definition div64 (s : bool) (num den : positive) : spec_float * bool :=
  let '(q, e, l) := SFdiv_core_binary 53 1024 (Zpos num) 0 (Zpos den) 0 in
  let r := binary_round_aux 53 1024 s q e l in
  let exact :=
    match r with
    | S754_finite _ m e =>
        if e <? 0 then Zpos m * Zpos den =? Zpos num * 2 ^ (- e) else Zpos m * 2 ^ e * Zpos den =? Zpos num
    | _ => false
    end in
  (r, below_dbl_min r && negb exact).

Definition is_inf (f : spec_float) : bool := match f with S754_infinity _ => true | _ => false end.

(** A mantissa of [nd] digits at most scaled by a power of ten, with the
    [ERANGE] flag.  Exponents that put the value far outside the format are
    decided without computing the power. *)
Definition dec64 (s : bool) (m : Z) (nd : Z) (e : Z) : spec_float * bool :=
  match m with
  | Zpos p =>
      if 400 <? e then (S754_infinity s, true)
      else if e + nd <? -400 then (S754_zero s, true)
      else if e <? 0 then div64 s p (Z.to_pos (10 ^ (- e)))
      else let r := round64 s (m * 10 ^ e) 0 in (r, is_inf r)
  | _ => (S754_zero s, false)
  end.

Definition hex64 (s : bool) (m : Z) (nd : Z) (e : Z) : spec_float * bool :=
  match m with
  | Zpos p =>
      if 1100 <? e then (S754_infinity s, true)
      else if e + 4 * nd <? -1200 then (S754_zero s, true)
      else if e <? 0 then div64 s p (Z.to_pos (2 ^ (- e)))
      else let r := round64 s (m * 2 ^ e) 0 in (r, is_inf r)
  | _ => (S754_zero s, false)
  end.

Definition hex_digit (c : ascii) : option Z :=
  if isdigit c then Some (code c - 48)
  else if (97 <=? code c) && (code c <=? 102) then Some (code c - 87)
  else if (65 <=? code c) && (code c <=? 70) then Some (code c - 55)
  else None.

Definition dec_digit (c : ascii) : option Z := if isdigit c then Some (code c - 48) else None.

(** Digits in a base: value, count and rest. *)
Fixpoint digits (dig : ascii -> option Z) (base acc n : Z) (s : bstr) : Z * Z * bstr :=
  match s with
  | c :: s' =>
      match dig c with
      | Some d => digits dig base (base * acc + d) (n + 1) s'
      | None => (acc, n, s)
      end
  | [] => (acc, n, s)
  end.

(** Digits, an optional point, digits: mantissa, number of digits after the
    point, number of digits, rest. *)
Definition fixed_point (dig : ascii -> option Z) (base : Z) (s : bstr) : Z * Z * Z * bstr :=
  let '(m, n, s1) := digits dig base 0 0 s in
  match s1 with
  | c :: s2 =>
      if bool_decide (c = "."%char) then
        let '(m', n', s3) := digits dig base m 0 s2 in
        if n + n' =? 0 then (0, 0, 0, s) else (m', n', n + n', s3)
      else (m, 0, n, s1)
  | [] => (m, 0, n, s1)
  end.

(** An optional exponent after one of two letters. *)
Definition exponent (a b : ascii) (s : bstr) : Z * bstr :=
  match s with
  | c :: s1 =>
      if bool_decide (c = a) || bool_decide (c = b) then
        let '(neg, s2) := scan_sign s1 in
        let '(e, n, s3) := digits dec_digit 10 0 0 s2 in
        if n =? 0 then (0, s) else (if neg : bool then - e else e, s3)
      else (0, s)
  | [] => (0, s)
  end.

Record strtod_result := Strtod { sd_value : spec_float; sd_end : bstr; sd_erange : bool }.

Definition is_hex_prefix (s : bstr) : bool :=
  match s with
  | z :: x :: s' =>
      bool_decide (z = "0"%char) && (bool_decide (x = "x"%char) || bool_decide (x = "X"%char)) &&
      (let '(_, _, n, _) := fixed_point hex_digit 16 s' in 0 <? n)
  | _ => false
  end.

Definition is_nchar (c : ascii) : bool := isalnum c || bool_decide (c = "_"%char).

(** The rest after [nan] and an optional parenthesised sequence. *)
Definition after_nan (s : bstr) : bstr :=
  match s with
  | c :: s1 =>
      if bool_decide (c = "("%char) then
        match split_at s1 ")"%char with
        | Some (w, rest) => if forallb is_nchar w then rest else s
        | None => s
        end
      else s
  | [] => s
  end.

Definition strtod (s : bstr) : strtod_result :=
  let '(neg, s1) := scan_sign (skip_space s) in
  if strncaseeq s1 (B "infinity") 8 then Strtod (S754_infinity neg) (drop 8 s1) false
  else if strncaseeq s1 (B "inf") 3 then Strtod (S754_infinity neg) (drop 3 s1) false
  else if strncaseeq s1 (B "nan") 3 then Strtod S754_nan (after_nan (drop 3 s1)) false
  else if is_hex_prefix s1 then
    let '(m, frac, n, s2) := fixed_point hex_digit 16 (drop 2 s1) in
    let '(e, s3) := exponent "p"%char "P"%char s2 in
    let '(r, erange) := hex64 neg m n (e - 4 * frac) in Strtod r s3 erange
  else
    let '(m, frac, n, s2) := fixed_point dec_digit 10 s1 in
    if n =? 0 then Strtod (S754_zero false) s false
    else
      let '(e, s3) := exponent "e"%char "E"%char s2 in
      let '(r, erange) := dec64 neg m n (e - frac) in Strtod r s3 erange.

(** ** [%.<prec>g] *)

(** Round half to even. *)
Definition div_round (n d : Z) : Z :=
  let q := n / d in
  let r := n mod d in
  if 2 * r <? d then q
  else if d <? 2 * r then q + 1
  else if Z.even q then q else q + 1.

(** The decimal exponent [x] with [10^x <= num/den < 10^(x+1)], near an estimate. *)
Fixpoint fix_exp10 (fuel : nat) (num den x : Z) : Z :=
  match fuel with
  | O => x
  | S fuel =>
      let lo := if x <? 0 then num * 10 ^ (- x) <? den else num <? den * 10 ^ x in
      let hi := if x + 1 <? 0 then den <=? num * 10 ^ (- (x + 1)) else den * 10 ^ (x + 1) <=? num in
      if lo then fix_exp10 fuel num den (x - 1)
      else if hi then fix_exp10 fuel num den (x + 1)
      else x
  end.

(** [prec] significant digits and the decimal exponent of [num/den > 0]. *)
Definition sig_digits (prec num den : Z) : Z * Z :=
  let x := fix_exp10 700 num den 0 in
  let k := x - (prec - 1) in
  let r := if k <? 0 then div_round (num * 10 ^ (- k)) den else div_round num (den * 10 ^ k) in
  if r =? 10 ^ prec then (r / 10, x + 1) else (r, x).

Fixpoint strip_zeros_rev (s : bstr) : bstr :=
  match s with
  | c :: s' => if bool_decide (c = "0"%char) then strip_zeros_rev s' else s
  | [] => []
  end.

(** Integer part, fraction without trailing zeros, and the point between them if any. *)
Definition with_fraction (int frac : bstr) : bstr :=
  match rev (strip_zeros_rev (rev frac)) with
  | [] => int
  | f => int ++ "."%char :: f
  end.

Definition print_exp (x : Z) : bstr :=
  "e"%char :: (if x <? 0 then "-"%char else "+"%char) :: pad_left 2 (print_nat (Z.abs x)).

Definition print_g_abs (prec : Z) (num den : Z) : bstr :=
  let '(r, x) := sig_digits prec num den in
  let ds := print_nat r in
  if (x <? -4) || (prec <=? x) then with_fraction (take 1 ds) (drop 1 ds) ++ print_exp x
  else if x <? 0 then with_fraction (B "0") (replicate (Z.to_nat (- x - 1)) "0"%char ++ ds)
  else with_fraction (take (Z.to_nat (x + 1)) ds) (drop (Z.to_nat (x + 1)) ds).

Definition print_g (prec : Z) (f : spec_float) : bstr :=
  let sign (s : bool) t := if s then "-"%char :: t else t in
  match f with
  | S754_zero s => sign s (B "0")
  | S754_infinity s => sign s (B "inf")
  | S754_nan => B "nan"
  | S754_finite s m e =>
      sign s (if e <? 0 then print_g_abs prec (Zpos m) (2 ^ (- e)) else print_g_abs prec (Zpos m * 2 ^ e) 1)
  end.

(** [%.<prec>f] *)
Definition print_fixed (prec : Z) (f : spec_float) : bstr :=
  let digits m den :=
    let r := div_round (m * 10 ^ prec) den in
    print_nat (r / 10 ^ prec) ++
    (if prec =? 0 then [] else B "." ++ pad_left (Z.to_nat prec) (print_nat (r mod 10 ^ prec))) in
  let sign (s : bool) t := if s then "-"%char :: t else t in
  match f with
  | S754_zero s => sign s (digits 0 1)
  | S754_finite s m e => sign s (if e <? 0 then digits (Zpos m) (2 ^ (- e)) else digits (Zpos m * 2 ^ e) 1)
  | S754_infinity s => sign s (B "inf")
  | S754_nan => B "nan"
  end.

(** ** Lemmas: comparison and truncation of [double]s *)

Abbreviation valid64 := (valid_binary 53 1024).

(** The value of a finite [double] in units of 2^-1074. *)
Definition units (f : spec_float) : Z :=
  match f with
  | S754_finite s m e => let a := Zpos m * 2 ^ (e + 1074) in if s then - a else a
  | _ => 0
  end.

Lemma digits2_pos_log2 m : Zpos (digits2_pos m) = Z.log2 (Zpos m) + 1.
Proof.
  induction m as [m IH | m IH |]; cbn [digits2_pos]; [| | done].
  - rewrite Pos2Z.inj_succ, IH, (Pos2Z.inj_xI m), Z.log2_succ_double by lia. lia.
  - rewrite Pos2Z.inj_succ, IH, (Pos2Z.inj_xO m), Z.log2_double by lia. lia.
Qed.

(** Canonical mantissas: 53 bits, or fewer at the smallest exponent. *)
Lemma valid64_bounds s m e :
  valid64 (S754_finite s m e) = true ->
  -1074 <= e /\ Zpos m < 2 ^ 53 /\ (-1074 < e -> 2 ^ 52 <= Zpos m).
Proof.
  cbn. unfold bounded, canonical_mantissa, fexp, emin. intros [Hc%Z.eqb_eq Hb]%andb_true_iff.
  rewrite digits2_pos_log2 in Hc.
  destruct (Z.log2_spec (Zpos m) ltac:(lia)) as [Hlo Hhi].
  split_and!; [lia | |].
  - eapply Z.lt_le_trans; [exact Hhi |]. apply Z.pow_le_mono_r; lia.
  - intros He. eapply Z.le_trans; [| exact Hlo]. apply Z.pow_le_mono_r; lia.
Qed.

Lemma units_smaller_exp m1 e1 m2 e2 :
  -1074 <= e1 < e2 -> m1 < 2 ^ 53 -> 2 ^ 52 <= m2 -> m1 * 2 ^ (e1 + 1074) < m2 * 2 ^ (e2 + 1074).
Proof.
  intros He H1 H2. assert (0 < 2 ^ (e1 + 1074)) by (apply Z.pow_pos_nonneg; lia).
  apply Z.lt_le_trans with (2 ^ 53 * 2 ^ (e1 + 1074)); [nia |].
  replace (2 ^ 53 * 2 ^ (e1 + 1074)) with (2 ^ 52 * 2 ^ (e1 + 1074 + 1)).
  2:{ rewrite Z.pow_add_r by lia. lia. }
  assert (2 ^ (e1 + 1074 + 1) <= 2 ^ (e2 + 1074)) by (apply Z.pow_le_mono_r; lia). nia.
Qed.

(** Magnitudes compare by exponent, then by mantissa. *)
Lemma units_compare m1 e1 m2 e2 :
  valid64 (S754_finite false m1 e1) = true -> valid64 (S754_finite false m2 e2) = true ->
  (match e1 ?= e2 with Lt => Lt | Gt => Gt | Eq => Pos.compare_cont Eq m1 m2 end) =
  (Zpos m1 * 2 ^ (e1 + 1074) ?= Zpos m2 * 2 ^ (e2 + 1074)).
Proof.
  intros (Hl1 & Hu1 & Hn1)%valid64_bounds (Hl2 & Hu2 & Hn2)%valid64_bounds. symmetry.
  destruct (Z.compare_spec e1 e2) as [-> | Hlt | Hgt].
  - change (Pos.compare_cont Eq m1 m2) with (Zpos m1 ?= Zpos m2).
    assert (0 < 2 ^ (e2 + 1074)) by (apply Z.pow_pos_nonneg; lia).
    destruct (Z.compare_spec (Zpos m1) (Zpos m2)); [apply Z.compare_eq_iff; nia | apply Z.compare_lt_iff; nia |
      apply Z.compare_gt_iff; nia].
  - apply Z.compare_lt_iff, units_smaller_exp; lia.
  - apply Z.compare_gt_iff, units_smaller_exp; lia.
Qed.

Lemma units_pos m e : -1074 <= e -> 0 < Zpos m * 2 ^ (e + 1074).
Proof. intros He. apply Z.mul_pos_pos; [lia |]. apply Z.pow_pos_nonneg; lia. Qed.

Lemma SFcompare_units x y :
  valid64 x = true -> valid64 y = true -> isfinite x = true -> isfinite y = true ->
  SFcompare x y = Some (units x ?= units y).
Proof.
  intros Hx Hy Hfx Hfy.
  destruct x as [sx | | | sx mx ex]; [| done | done |]; destruct y as [sy | | | sy my ey]; try done; cbn [SFcompare units].
  - pose proof (proj1 (valid64_bounds _ _ _ Hy)). pose proof (units_pos my ey ltac:(lia)).
    f_equal. symmetry. destruct sy; [apply Z.compare_gt_iff | apply Z.compare_lt_iff]; lia.
  - pose proof (proj1 (valid64_bounds _ _ _ Hx)). pose proof (units_pos mx ex ltac:(lia)).
    f_equal. symmetry. destruct sx; [apply Z.compare_lt_iff | apply Z.compare_gt_iff]; lia.
  - pose proof (proj1 (valid64_bounds _ _ _ Hx)). pose proof (units_pos mx ex ltac:(lia)).
    pose proof (proj1 (valid64_bounds _ _ _ Hy)). pose proof (units_pos my ey ltac:(lia)).
    f_equal. pose proof (units_compare mx ex my ey Hx Hy) as Hc. destruct sx, sy.
    + rewrite Z.compare_opp, (Z.compare_antisym (Zpos mx * _)), <- Hc.
      by destruct (ex ?= ey).
    + symmetry. apply Z.compare_lt_iff. lia.
    + symmetry. apply Z.compare_gt_iff. lia.
    + done.
Qed.

Lemma trunc_units f : valid64 f = true -> trunc f = Z.quot (units f) (2 ^ 1074).
Proof.
  intros Hv. destruct f as [| | | s m e]; try (cbn; by rewrite Z.quot_0_l).
  destruct (valid64_bounds _ _ _ Hv) as (Hl & _). cbn [trunc units].
  assert (Ha : (if e <? 0 then Z.shiftr (Zpos m) (- e) else Z.shiftl (Zpos m) e) =
    Z.quot (Zpos m * 2 ^ (e + 1074)) (2 ^ 1074)).
  { assert (Hpos : 0 < 2 ^ 1074) by (apply Z.pow_pos_nonneg; lia).
    pose proof (units_pos m e ltac:(lia)). rewrite Z.quot_div_nonneg by lia.
    destruct (Z.ltb_spec e 0).
    - rewrite Z.shiftr_div_pow2 by lia. replace 1074 with (- e + (e + 1074)) at 2 by lia.
      rewrite (Z.pow_add_r 2 (- e)) by lia. by rewrite Z.div_mul_cancel_r by (apply Z.pow_nonzero; lia).
    - rewrite Z.shiftl_mul_pow2, Z.pow_add_r, Z.mul_assoc, Z.div_mul by lia. done. }
  rewrite Ha. destruct s; [| done]. by rewrite Z.quot_opp_l by (apply Z.pow_nonzero; lia).
Qed.

(** A finite [double] between two integers truncates to an integer between them. *)
Lemma trunc_between f lo hi :
  valid64 f = true -> isfinite f = true ->
  (units lo <= units f -> Z.quot (units lo) (2 ^ 1074) <= trunc f) /\
  (units f <= units hi -> trunc f <= Z.quot (units hi) (2 ^ 1074)).
Proof.
  intros Hv Hf. rewrite trunc_units by done.
  split; intros; apply Z.quot_le_mono; try done; apply Z.pow_pos_nonneg; lia.
Qed.

Lemma SFleb_units x y :
  valid64 x = true -> valid64 y = true -> isfinite x = true -> isfinite y = true ->
  SFleb x y = true -> units x <= units y.
Proof.
  intros Hx Hy Hfx Hfy. unfold SFleb. rewrite SFcompare_units by done.
  destruct (Z.compare_spec (units x) (units y)); try done; lia.
Qed.

Lemma SFltb_units x y :
  valid64 x = true -> valid64 y = true -> isfinite x = true -> isfinite y = true ->
  SFltb x y = true -> units x < units y.
Proof.
  intros Hx Hy Hfx Hfy. unfold SFltb. rewrite SFcompare_units by done.
  by destruct (Z.compare_spec (units x) (units y)).
Qed.
