(* ===== verification/Dict.v ===== *)
(** * The dictionary (dict.c, dict.h): data and operations

    Open addressing with perturbed probing, tombstones and resizing, for values
    of the fifteen types of [val_type_t].  The operations follow dict.c line by
    line; DictTheory.v proves them correct. *)

From S2P Require Import Prelude Probe.
From Stdlib Require Import SpecFloat.

#[local] Open Scope Z_scope.

(** ** Data *)

(** [val_type_t] and the member of [dict_value_t] it selects, as one tagged
    union.  A string pointer may be NULL; [float] and [double] values are IEEE
    numbers; a [void *] is its address; [VBool] keeps the [int] it is stored as. *)
Inductive value :=
| VEnd
| VNull
| VStr (s : option bstr)
| VInt (i : Z)
| VUint (ui : Z)
| VLong (l : Z)
| VUlong (ul : Z)
| VLlong (ll : Z)
| VUllong (ull : Z)
| VFloat (f : spec_float)
| VBool (i : Z)
| VDouble (d : spec_float)
| VFloatP (f : spec_float)
| VDoubleP (d : spec_float)
| VChar (c : Z)
| VPtr (p : Z).

Inductive val_type :=
| VAL_END | VAL_NULL | VAL_STR | VAL_INT | VAL_UINT | VAL_LONG | VAL_ULONG | VAL_LLONG
| VAL_ULLONG | VAL_FLOAT | VAL_BOOL | VAL_DOUBLE | VAL_FLOATP | VAL_DOUBLEP | VAL_CHAR | VAL_PTR.

Definition type_of (v : value) : val_type :=
  match v with
  | VEnd => VAL_END | VNull => VAL_NULL | VStr _ => VAL_STR | VInt _ => VAL_INT
  | VUint _ => VAL_UINT | VLong _ => VAL_LONG | VUlong _ => VAL_ULONG | VLlong _ => VAL_LLONG
  | VUllong _ => VAL_ULLONG | VFloat _ => VAL_FLOAT | VBool _ => VAL_BOOL
  | VDouble _ => VAL_DOUBLE | VFloatP _ => VAL_FLOATP | VDoubleP _ => VAL_DOUBLEP
  | VChar _ => VAL_CHAR | VPtr _ => VAL_PTR
  end.

(** The [key] pointer of a slot: NULL, the tombstone [DUMMY_PTR], or an owned
    copy of a key. *)
Inductive keyptr :=
| KNULL
| DUMMY_PTR
| KStr (s : bstr).

Record keypair := Keypair { kp_key : keyptr; kp_val : value; kp_hash : Z }.

Record dict := Dict { fill : Z; used : Z; size : Z; table : list keypair }.

#[export] Instance spec_float_eq_dec : EqDecision spec_float.
Proof. solve_decision. Defined.
#[export] Instance value_eq_dec : EqDecision value.
Proof. solve_decision. Defined.
#[export] Instance val_type_eq_dec : EqDecision val_type.
Proof. solve_decision. Defined.
#[export] Instance keyptr_eq_dec : EqDecision keyptr.
Proof. solve_decision. Defined.

(** A slot as [calloc] leaves it. *)
Definition zero_kp : keypair := Keypair KNULL VEnd 0.
#[export] Instance keypair_inhabited : Inhabited keypair := populate zero_kp.

Definition is_live (kp : keypair) : bool :=
  match kp_key kp with KStr _ => true | _ => false end.

Definition slot_at (d : dict) (i : Z) : keypair := table d !!! Z.to_nat i.

Definition DICT_MIN_SZ : Z := 8.
Definition DICT_BIGSZ : Z := 64000.

(** ** Hashing *)

(** [(unsigned)key[i]] for a plain [char], which is signed on the hosts the
    project builds for. *)
Definition schar (c : ascii) : Z := swrap 8 (code c).

Definition dict_hash_dobbs (key : bstr) : Z :=
  let hash :=
    fold_left (fun hash c =>
      let hash := u32 (hash + u32 (schar c)) in
      let hash := u32 (hash + Z.shiftl hash 10) in
      Z.lxor hash (Z.shiftr hash 6)) key 0 in
  let hash := u32 (hash + Z.shiftl hash 3) in
  let hash := Z.lxor hash (Z.shiftr hash 11) in
  u32 (hash + Z.shiftl hash 15).

Definition murmur_m : Z := 0x5bd1e995.
Definition murmur_seed : Z := 0x0badcafe.

(** [memcpy(&k, data, 4)] on a little-endian host. *)
Definition le32 (a b c d : ascii) : Z :=
  code a + Z.shiftl (code b) 8 + Z.shiftl (code c) 16 + Z.shiftl (code d) 24.

Definition murmur_word (h k : Z) : Z :=
  let k := u32 (k * murmur_m) in
  let k := Z.lxor k (Z.shiftr k 24) in
  let k := u32 (k * murmur_m) in
  Z.lxor (u32 (h * murmur_m)) k.

(** The [while (len >= 4)] loop: the hash so far and the bytes left. *)
Fixpoint murmur_body (h : Z) (data : bstr) : Z * bstr :=
  match data with
  | a :: b :: c :: d :: rest => murmur_body (murmur_word h (le32 a b c d)) rest
  | _ => (h, data)
  end.

(** The fall-through [switch (len)]. *)
Definition murmur_tail (h : Z) (data : bstr) : Z :=
  match data with
  | [a] => u32 (Z.lxor h (code a) * murmur_m)
  | [a; b] => u32 (Z.lxor (Z.lxor h (Z.shiftl (code b) 8)) (code a) * murmur_m)
  | [a; b; c] =>
      u32 (Z.lxor (Z.lxor (Z.lxor h (Z.shiftl (code c) 16)) (Z.shiftl (code b) 8)) (code a) * murmur_m)
  | _ => h
  end.

Definition dict_hash_murmur (key : bstr) : Z :=
  let h := Z.lxor murmur_seed (u32 (Z.of_nat (length key))) in
  let '(h, data) := murmur_body h key in
  let h := murmur_tail h data in
  let h := Z.lxor h (Z.shiftr h 13) in
  let h := u32 (h * murmur_m) in
  Z.lxor h (Z.shiftr h 15).

(** [#define dict_hash dict_hash_murmur] *)
Definition dict_hash : bstr -> Z := dict_hash_murmur.

(** ** Lookup

    [alias] is the index of the slot whose stored key pointer is the [key]
    argument itself, when the caller passes a borrowed key ([ep->key == key]).
    [None] as a result means that the C loop does not terminate. *)
Definition same_key (alias : option Z) (ep : keypair) (i : Z) (key : bstr) (hash : Z) : bool :=
  bool_decide (alias = Some i) ||
  match kp_key ep with
  | KStr s => (kp_hash ep =? hash) && streq s key
  | _ => false
  end.

Fixpoint dict_probe (fuel : nat) (d : dict) (alias : option Z) (key : bstr)
    (hash i perturb : Z) (freeslot : option Z) : option Z :=
  match fuel with
  | O => None
  | S fuel =>
      let i := probe_next (size d) i perturb in
      let ep := slot_at d i in
      match kp_key ep with
      | KNULL => Some (default i freeslot)
      | DUMMY_PTR =>
          let freeslot := match freeslot with None => Some i | Some _ => freeslot end in
          dict_probe fuel d alias key hash i (Z.shiftr perturb PERTURB_SHIFT) freeslot
      | KStr _ =>
          if same_key alias ep i key hash then Some i
          else dict_probe fuel d alias key hash i (Z.shiftr perturb PERTURB_SHIFT) freeslot
      end
  end.

Definition dict_lookup_fuel (fuel : nat) (d : dict) (alias : option Z) (key : bstr) (hash : Z) : option Z :=
  let i := Z.land hash (size d - 1) in
  let ep := slot_at d i in
  match kp_key ep with
  | KNULL => Some i
  | DUMMY_PTR => dict_probe fuel d alias key hash i hash (Some i)
  | KStr _ =>
      if same_key alias ep i key hash then Some i
      else dict_probe fuel d alias key hash i hash None
  end.

(** The seven steps that use up a 32-bit perturbation, then one full cycle. *)
Definition probe_fuel (d : dict) : nat := 7 + Z.to_nat (size d).

Definition dict_lookup (d : dict) (alias : option Z) (key : bstr) (hash : Z) : option Z :=
  dict_lookup_fuel (probe_fuel d) d alias key hash.

(** ** Storing *)

Definition set_slot (d : dict) (i : Z) (kp : keypair) : dict :=
  Dict (fill d) (used d) (size d) (<[Z.to_nat i := kp]> (table d)).

(** The commit of [dict_store]: replace the slot and adjust the counters. *)
Definition dict_commit (d : dict) (slot : Z) (key : bstr) (hash : Z) (val : value) : dict :=
  let d :=
    match kp_key (slot_at d slot) with
    | KStr _ => Dict (fill d) (u32 (used d - 1)) (size d) (table d)
    | DUMMY_PTR => Dict (u32 (fill d - 1)) (used d) (size d) (table d)
    | KNULL => d
    end in
  let d := set_slot d slot (Keypair (KStr key) val hash) in
  Dict (u32 (fill d + 1)) (u32 (used d + 1)) (size d) (table d).

(** [dict_add_p]: the reinsertion [dict_resize] uses; no copy is made. *)
Definition dict_add_p (d : dict) (src : keypair) : option (Z * dict) :=
  match kp_key src with
  | KStr key =>
      let hash := dict_hash key in
      slot ← dict_lookup d None key hash;
      let d := set_slot d slot (Keypair (KStr key) (kp_val src) hash) in
      Some (0, Dict (u32 (fill d + 1)) (u32 (used d + 1)) (size d) (table d))
  | _ => Some (-1, d)
  end.

(** [while (newsize <= factor * d->used) newsize *= 2], in [unsigned]
    arithmetic.  After 32 doublings the size is 0 and the loop spins, so 33
    iterations decide it. *)
Fixpoint grow_size (fuel : nat) (newsize factor used : Z) : option Z :=
  match fuel with
  | O => None
  | S fuel =>
      if newsize <=? u32 (factor * used) then grow_size fuel (u32 (newsize * 2)) factor used
      else Some newsize
  end.

(** The reinsertion loop: [None] on divergence, [(false, d)] if an insertion
    reports failure. *)
Fixpoint reinsert (kps : list keypair) (d : dict) : option (bool * dict) :=
  match kps with
  | [] => Some (true, d)
  | kp :: kps =>
      if is_live kp then
        '(rc, d) ← dict_add_p d kp;
        if rc =? 0 then reinsert kps d else Some (false, d)
      else reinsert kps d
  end.

Definition count_if (f : keypair -> bool) (kps : list keypair) : Z :=
  Z.of_nat (length (base.filter (fun kp => f kp = true) kps)).

Definition is_null (kp : keypair) : bool :=
  match kp_key kp with KNULL => true | _ => false end.

Definition dict_resize (o : allocs) (d : dict) : option (Z * dict * allocs) :=
  let factor := if size d >? DICT_BIGSZ then 2 else 4 in
  newsize ← grow_size 33 (size d) factor (used d);
  if newsize =? size d then Some (0, d, o)
  else
    let '(ok, o) := alloc o in
    if negb ok then Some (-1, d, o)
    else
      '(ok, d') ← reinsert (table d) (Dict 0 0 newsize (replicate (Z.to_nat newsize) zero_kp));
      if ok : bool then Some (0, d', o)
      else
        (* the old table is put back and the counters recomputed from it *)
        Some (-1, Dict (count_if (fun kp => negb (is_null kp)) (table d))
                       (count_if is_live (table d)) (size d) (table d), o).

Definition dict_store (o : allocs) (d : dict) (key : option bstr) (val : option value)
  : option (Z * dict * allocs) :=
  match key, val with
  | Some key, Some val =>
      let hash := dict_hash key in
      slot ← dict_lookup d None key hash;
      let '(ok, o) := alloc o in                       (* newkey = strdup(key) *)
      if negb ok then Some (-1, d, o)
      else
        let '(ok, o) := match val with VStr (Some _) => alloc o | _ => (true, o) end in
        if negb ok then Some (-1, d, o)
        else if negb (is_live (slot_at d slot)) && (u32 (3 * u32 (fill d + 1)) >=? u32 (size d * 2)) then
          '(rc, d, o) ← dict_resize o d;
          if negb (rc =? 0) then Some (-1, d, o)
          else
            slot ← dict_lookup d None key hash;
            Some (0, dict_commit d slot key hash val, o)
        else Some (0, dict_commit d slot key hash val, o)
  | _, _ => Some (-1, d, o)
  end.

Definition dict_add (o : allocs) (d : dict) (key : option bstr) (val : option bstr) :=
  dict_store o d key (Some (VStr val)).
Definition dict_add_null (o : allocs) (d : dict) (key : option bstr) :=
  dict_store o d key (Some VNull).
Definition dict_add_char (o : allocs) (d : dict) (key : option bstr) (val : Z) :=
  dict_store o d key (Some (VChar val)).
Definition dict_add_bool (o : allocs) (d : dict) (key : option bstr) (val : bool) :=
  dict_store o d key (Some (VBool (if val then 1 else 0))).
Definition dict_add_int (o : allocs) (d : dict) (key : option bstr) (val : Z) :=
  dict_store o d key (Some (VInt val)).
Definition dict_add_uint (o : allocs) (d : dict) (key : option bstr) (val : Z) :=
  dict_store o d key (Some (VUint val)).
Definition dict_add_long (o : allocs) (d : dict) (key : option bstr) (val : Z) :=
  dict_store o d key (Some (VLong val)).
Definition dict_add_ulong (o : allocs) (d : dict) (key : option bstr) (val : Z) :=
  dict_store o d key (Some (VUlong val)).
Definition dict_add_llong (o : allocs) (d : dict) (key : option bstr) (val : Z) :=
  dict_store o d key (Some (VLlong val)).
Definition dict_add_ullong (o : allocs) (d : dict) (key : option bstr) (val : Z) :=
  dict_store o d key (Some (VUllong val)).
Definition dict_add_float (o : allocs) (d : dict) (key : option bstr) (val : spec_float) :=
  dict_store o d key (Some (VFloat val)).
Definition dict_add_double (o : allocs) (d : dict) (key : option bstr) (val : spec_float) :=
  dict_store o d key (Some (VDouble val)).
Definition dict_add_ptr (o : allocs) (d : dict) (key : option bstr) (val : Z) :=
  dict_store o d key (Some (VPtr val)).

(** ** Construction, access, deletion *)

Definition empty_dict : dict := Dict 0 0 DICT_MIN_SZ (replicate (Z.to_nat DICT_MIN_SZ) zero_kp).

Definition dict_new (o : allocs) : option dict * allocs :=
  let '(ok, o) := alloc o in
  if negb ok then (None, o)
  else
    let '(ok, o) := alloc o in
    if negb ok then (None, o) else (Some empty_dict, o).

(** [dict_get_kp]: the live slot of a key, or the reason there is none.  The
    outer option is termination. *)
Definition dict_get_kp (d : option dict) (key : option bstr) : option (option keypair) :=
  match d, key with
  | Some d, Some key =>
      i ← dict_lookup d None key (dict_hash key);
      let kp := slot_at d i in
      Some (if is_live kp then Some kp else None)
  | _, _ => Some None
  end.

Definition dict_get (d : option dict) (key : option bstr) (def : option bstr) : option (option bstr) :=
  match d, key with
  | Some d, Some key =>
      i ← dict_lookup d None key (dict_hash key);
      let kp := slot_at d i in
      match kp_key kp, kp_val kp with
      | KStr _, VStr s => Some s
      | _, _ => Some def
      end
  | _, _ => Some def
  end.

Definition dict_get_type (d : option dict) (key : option bstr) : option val_type :=
  match d, key with
  | Some d, Some key =>
      i ← dict_lookup d None key (dict_hash key);
      let kp := slot_at d i in
      Some (if is_live kp then type_of (kp_val kp) else VAL_END)
  | _, _ => Some VAL_END
  end.

Definition dict_get_ptr (d : option dict) (key : option bstr) (def : Z) : option Z :=
  kp ← dict_get_kp d key;
  Some match kp with
  | Some (Keypair _ (VPtr p) _) => p
  | _ => def
  end.

(** [dict_free_value] leaves a NULL pointer of type [VAL_NULL] behind. *)
Definition dict_free_value (kp : keypair) : keypair := Keypair (kp_key kp) VNull (kp_hash kp).

Definition dict_del (d : dict) (key : option bstr) : option (Z * dict) :=
  match key with
  | None => Some (-1, d)
  | Some key =>
      i ← dict_lookup d None key (dict_hash key);
      let kp := slot_at d i in
      if negb (is_live kp) then Some (-1, d)
      else
        let kp := Keypair DUMMY_PTR (kp_val kp) (kp_hash kp) in
        let d := set_slot d i (dict_free_value kp) in
        Some (0, Dict (fill d) (u32 (used d - 1)) (size d) (table d))
  end.

(** ** Enumeration *)

(** The scan over NULL and deleted slots. *)
Fixpoint enum_skip (fuel : nat) (d : dict) (rank : Z) : Z :=
  match fuel with
  | O => rank
  | S fuel =>
      if (rank <? i32 (size d)) && negb (is_live (slot_at d rank)) then enum_skip fuel d (rank + 1)
      else rank
  end.

(** Next rank, and the key and value stored through the out parameters. *)
Definition dict_enumerate_typed (d : option dict) (rank : Z) : Z * option (bstr * value) :=
  match d with
  | None => (-1, None)
  | Some d =>
      if rank <? 0 then (-1, None)
      else
        let rank := enum_skip (Z.to_nat (size d)) d rank in
        if i32 (size d) <=? rank then (-1, None)
        else
          match slot_at d rank with
          | Keypair (KStr k) v _ => (rank + 1, Some (k, v))
          | _ => (-1, None)
          end
  end.

(** The string-only variant: a value of another type is reported as NULL. *)
Definition dict_enumerate (d : option dict) (rank : Z) : Z * option (bstr * option bstr) :=
  match d with
  | None => (-1, None)
  | Some d =>
      if rank <? 0 then (-1, None)
      else
        let rank := enum_skip (Z.to_nat (size d)) d rank in
        if i32 (size d) <=? rank then (-1, None)
        else
          match slot_at d rank with
          | Keypair (KStr k) (VStr s) _ => (rank + 1, Some (k, s))
          | Keypair (KStr k) _ _ => (rank + 1, Some (k, None))
          | _ => (-1, None)
          end
  end.

(** [while ((rank = dict_enumerate_typed(d, rank, ...)) >= 0) body], for a body
    that may leave the loop ([false]) or diverge ([None]). *)
Fixpoint enum_loop {S : Type} (fuel : nat) (d : dict) (rank : Z)
    (body : bstr -> value -> S -> option (bool * S)) (s : S) : option (bool * S) :=
  match fuel with
  | O => None
  | Datatypes.S fuel =>
      match dict_enumerate_typed (Some d) rank with
      | (rank, Some (k, v)) =>
          '(go, s) ← body k v s;
          if go : bool then enum_loop fuel d rank body s else Some (false, s)
      | (_, None) => Some (true, s)
      end
  end.

Definition enum_all {S : Type} (d : dict) (body : bstr -> value -> S -> option (bool * S)) (s : S) :=
  enum_loop (Datatypes.S (length (table d))) d 0 body s.

(** ** Merge, clone and difference *)

Definition dict_copy_entry (o : allocs) (dst : dict) (key : bstr) (val : value) : option (Z * dict * allocs) :=
  dict_store o dst (Some key) (Some val).

Definition merge_body (k : bstr) (v : value) (s : dict * allocs) : option (bool * (dict * allocs)) :=
  let '(dst, o) := s in
  '(rc, dst, o) ← dict_copy_entry o dst k v;
  Some (rc =? 0, (dst, o)).

Definition dict_merge (o : allocs) (dst : dict) (src : option dict) : option (Z * dict * allocs) :=
  match src with
  | None => Some (-1, dst, o)
  | Some src =>
      '(ok, s) ← enum_all src merge_body (dst, o);
      Some (if ok : bool then 0 else -1, s.1, s.2)
  end.

Definition dict_clone (o : allocs) (source : option dict) : option (option dict * allocs) :=
  match source with
  | None => Some (None, o)
  | Some source =>
      match dict_new o with
      | (None, o) => Some (None, o)
      | (Some copy, o) =>
          '(rc, copy, o) ← dict_merge o copy (Some source);
          Some (if rc =? 0 then Some copy else None, o)
      end
  end.

Definition dict_merge_new (o : allocs) (a b : option dict) : option (option dict * allocs) :=
  match a, b with
  | Some a, Some b =>
      match dict_new o with
      | (None, o) => Some (None, o)
      | (Some merged, o) =>
          '(rc, merged, o) ← dict_merge o merged (Some a);
          if negb (rc =? 0) then Some (None, o)
          else
            '(rc, merged, o) ← dict_merge o merged (Some b);
            Some (if rc =? 0 then Some merged else None, o)
      end
  | _, _ => Some (None, o)
  end.

Definition dict_values_equal (a b : value) : bool :=
  match a, b with
  | VNull, VNull => true
  | VStr a, VStr b => bool_decide (a = b)
  | VInt a, VInt b | VUint a, VUint b | VLong a, VLong b | VUlong a, VUlong b
  | VLlong a, VLlong b | VUllong a, VUllong b | VChar a, VChar b | VPtr a, VPtr b => a =? b
  | VFloat a, VFloat b | VDouble a, VDouble b => SFeqb a b
  | VBool a, VBool b => Bool.eqb (negb (a =? 0)) (negb (b =? 0))
  | _, _ => false
  end.

Definition dict_find_entry (d : dict) (key : bstr) : option (option keypair) :=
  dict_get_kp (Some d) (Some key).

(** The first loop of [dict_diff]: entries of [b] that [a] lacks or holds with
    another type or value. *)
Definition diff_changed (a : dict) (k : bstr) (v : value) (s : dict * allocs) : option (bool * (dict * allocs)) :=
  let '(diff, o) := s in
  old ← dict_find_entry a k;
  let same := match old with Some kp => dict_values_equal (kp_val kp) v | None => false end in
  if same then Some (true, (diff, o))
  else
    '(rc, diff, o) ← dict_copy_entry o diff k v;
    Some (rc =? 0, (diff, o)).

(** The second loop: keys of [a] that [b] lacks become [VAL_NULL] markers. *)
Definition diff_removed (b : dict) (k : bstr) (v : value) (s : dict * allocs) : option (bool * (dict * allocs)) :=
  let '(diff, o) := s in
  found ← dict_find_entry b k;
  match found with
  | Some _ => Some (true, (diff, o))
  | None =>
      '(rc, diff, o) ← dict_add_null o diff (Some k);
      Some (rc =? 0, (diff, o))
  end.

Definition dict_diff (o : allocs) (a b : option dict) : option (option dict * allocs) :=
  match a, b with
  | Some a, Some b =>
      match dict_new o with
      | (None, o) => Some (None, o)
      | (Some diff, o) =>
          '(ok, (diff, o)) ← enum_all b (diff_changed a) (diff, o);
          if negb ok then Some (None, o)
          else
            '(ok, (diff, o)) ← enum_all a (diff_removed b) (diff, o);
            Some (if ok : bool then Some diff else None, o)
      end
  | _, _ => Some (None, o)
  end.
