(* ===== verification/DictTheory.v ===== *)
(** * Correctness of the dictionary

    [dict_map] is the abstract finite map a table stands for; the lemmas of
    this file show that every operation of Dict.v implements the corresponding
    map operation, and under which condition the probe loop terminates. *)

From S2P Require Import Prelude Probe Dict.

#[local] Open Scope Z_scope.

(** ** Abstraction and invariant *)

Definition slot_entry (kp : keypair) : option (bstr * value) :=
  match kp with Keypair (KStr s) v _ => Some (s, v) | _ => None end.

Definition tab_entries (tab : list keypair) : list (bstr * value) := omap slot_entry tab.
Definition dict_entries (d : dict) : list (bstr * value) := tab_entries (table d).
Definition tab_map (tab : list keypair) : gmap bstr value := list_to_map (tab_entries tab).
Definition dict_map (d : dict) : gmap bstr value := tab_map (table d).

Definition nonnull (kp : keypair) : bool := negb (is_null kp).
Definition live_count (tab : list keypair) : Z := count_if is_live tab.
Definition occupied (tab : list keypair) : Z := count_if nonnull tab.
(** The number of deleted slots. *)
Definition tombs (tab : list keypair) : Z := occupied tab - live_count tab.

(** Slot [i] is reached by the probe sequence of [h] before any NULL slot. *)
Definition on_path (sz : Z) (tab : list keypair) (h i : Z) : Prop :=
  exists n, probe_pos sz h n = i /\
    forall m, (m < n)%nat -> nonnull (tab !!! Z.to_nat (probe_pos sz h m)) = true.

Definition absent (tab : list keypair) (key : bstr) : Prop :=
  forall j v h, tab !! j <> Some (Keypair (KStr key) v h).

Record tab_ok (sz : Z) (tab : list keypair) : Prop := {
  ok_size : exists k : nat, (3 <= k <= 30)%nat /\ sz = 2 ^ Z.of_nat k;
  ok_length : Z.of_nat (length tab) = sz;
  ok_path : forall i s v h, tab !! i = Some (Keypair (KStr s) v h) ->
    h = dict_hash s /\ on_path sz tab h (Z.of_nat i);
  ok_unique : forall i j s v v' h h', tab !! i = Some (Keypair (KStr s) v h) ->
    tab !! j = Some (Keypair (KStr s) v' h') -> i = j
}.

(** The representation invariant.  [fill] is only an upper bound of the number
    of occupied slots: [dict_store] counts a replacement as a new slot. *)
Record dict_wf (d : dict) : Prop := {
  wf_tab : tab_ok (size d) (table d);
  wf_used : used d = live_count (table d);
  wf_fill : occupied (table d) <= fill d < 2 ^ 32
}.

(** Termination of the probe loop needs a NULL slot. *)
Definition has_null (tab : list keypair) : Prop :=
  exists i kp, tab !! i = Some kp /\ is_null kp = true.

Definition no_tomb (tab : list keypair) : Prop :=
  forall i kp, tab !! i = Some kp -> kp_key kp <> DUMMY_PTR.

(** Counters far from the 32-bit limits. *)
Definition in_range (d : dict) : Prop := fill d < 2 ^ 30 /\ used d < 2 ^ 28.

(** ** Counting *)

Lemma count_if_nil f : count_if f [] = 0.
Proof. done. Qed.

Lemma count_if_cons f kp l : count_if f (kp :: l) = (if f kp then 1 else 0) + count_if f l.
Proof. unfold count_if. rewrite filter_cons. destruct (f kp); case_decide; cbn [length]; lia || done. Qed.

Lemma count_if_app f l1 l2 : count_if f (l1 ++ l2) = count_if f l1 + count_if f l2.
Proof. unfold count_if. rewrite filter_app, length_app. lia. Qed.

Lemma count_if_bounds f l : 0 <= count_if f l <= Z.of_nat (length l).
Proof.
  induction l as [| kp l IH]; [done |]. rewrite count_if_cons. cbn [length].
  destruct (f kp); lia.
Qed.

Lemma count_if_insert f l i kp x :
  l !! i = Some kp ->
  count_if f (<[i := x]> l) = count_if f l - (if f kp then 1 else 0) + (if f x then 1 else 0).
Proof.
  intros Hi. rewrite <- (take_drop_middle l i kp Hi) at 2.
  rewrite insert_take_drop by eauto using lookup_lt_Some.
  rewrite !count_if_app, !count_if_cons. lia.
Qed.

Lemma count_if_member (f : keypair -> bool) (l : list keypair) (i : nat) (kp : keypair) : l !! i = Some kp -> (if f kp then 1 else 0) <= count_if f l.
Proof.
  intros Hi. rewrite <- (take_drop_middle l i kp Hi), count_if_app, count_if_cons.
  pose proof (count_if_bounds f (take i l)). pose proof (count_if_bounds f (drop (S i) l)). lia.
Qed.

Lemma count_if_le f g l :
  (forall kp, kp ∈ l -> f kp = true -> g kp = true) -> count_if f l <= count_if g l.
Proof.
  induction l as [| kp l IH]; intros Hfg; [done |]. rewrite !count_if_cons.
  assert (count_if f l <= count_if g l) by (apply IH; set_solver).
  pose proof (Hfg kp ltac:(set_solver)). destruct (f kp), (g kp); naive_solver lia.
Qed.

Lemma count_if_full f l : count_if f l < Z.of_nat (length l) -> exists i kp, l !! i = Some kp /\ f kp = false.
Proof.
  induction l as [| kp l IH]; intros Hlt; [done |]. rewrite count_if_cons in Hlt.
  cbn [length] in Hlt. destruct (f kp) eqn:Hf.
  - destruct IH as (i & kp' & Hi & Hkp'); [lia |]. by exists (S i), kp'.
  - by exists 0%nat, kp.
Qed.

Lemma live_nonnull kp : is_live kp = true -> nonnull kp = true.
Proof. unfold is_live, nonnull, is_null. by destruct (kp_key kp). Qed.

Lemma live_le_occupied tab : live_count tab <= occupied tab.
Proof. apply count_if_le. eauto using live_nonnull. Qed.

Lemma no_tomb_occupied tab : no_tomb tab -> occupied tab = live_count tab.
Proof.
  intros Hnt. apply Z.le_antisymm; [| apply live_le_occupied].
  apply count_if_le. intros kp [i Hi]%list_elem_of_lookup Hnn.
  specialize (Hnt i kp Hi). unfold nonnull, is_null, is_live in *. by destruct (kp_key kp).
Qed.

Lemma occupied_has_null tab : occupied tab < Z.of_nat (length tab) -> has_null tab.
Proof.
  intros (i & kp & Hi & Hn)%count_if_full. exists i, kp. split; [done |].
  by apply negb_false_iff.
Qed.

Lemma has_null_occupied tab : has_null tab -> occupied tab < Z.of_nat (length tab).
Proof.
  intros (i & kp & Hi & Hn). rewrite <- (take_drop_middle tab i kp Hi).
  unfold occupied. rewrite count_if_app, count_if_cons, length_app. cbn [length].
  unfold nonnull at 2. rewrite Hn. cbn [negb].
  pose proof (count_if_bounds nonnull (take i tab)).
  pose proof (count_if_bounds nonnull (drop (S i) tab)). lia.
Qed.

(** ** The map of a table *)

Lemma slot_entry_Some kp s v : slot_entry kp = Some (s, v) <-> exists h, kp = Keypair (KStr s) v h.
Proof. split; [| by intros [h ->]]. destruct kp as [[] v0 h0]; cbn; [done.. |]. intros [= -> ->]. eauto. Qed.

Lemma elem_of_entries tab s v :
  (s, v) ∈ tab_entries tab <-> exists i h, tab !! i = Some (Keypair (KStr s) v h).
Proof.
  unfold tab_entries. rewrite list_elem_of_omap. split.
  - intros (kp & [i Hi]%list_elem_of_lookup & [h ->]%slot_entry_Some). eauto.
  - intros (i & h & Hi). exists (Keypair (KStr s) v h). split; [| done].
    by apply list_elem_of_lookup_2 in Hi.
Qed.

Lemma entries_NoDup tab :
  (forall i j s v v' h h', tab !! i = Some (Keypair (KStr s) v h) ->
     tab !! j = Some (Keypair (KStr s) v' h') -> i = j) ->
  NoDup (tab_entries tab).*1.
Proof.
  induction tab as [| kp tab IH]; intros Hu; [constructor |].
  assert (Htl : NoDup (tab_entries tab).*1).
  { apply IH. intros i j s v v' h h' Hi Hj. apply Nat.succ_inj. by eapply (Hu (S i) (S j)). }
  unfold tab_entries in *. cbn. destruct (slot_entry kp) as [[s v] |] eqn:He; [| done].
  cbn. constructor; [| done]. intros ([s' v'] & Heq & Hin)%list_elem_of_fmap. cbn in Heq. subst s'.
  apply elem_of_entries in Hin as (i & h & Hi). apply slot_entry_Some in He as [h' ->].
  by specialize (Hu 0%nat (S i) s v v' h' h eq_refl Hi).
Qed.

Section table_map.
Context (sz : Z) (tab : list keypair) (Hok : tab_ok sz tab).

Lemma tab_map_lookup s v : tab_map tab !! s = Some v <-> exists i h, tab !! i = Some (Keypair (KStr s) v h).
Proof.
  rewrite <- elem_of_entries. symmetry. apply elem_of_list_to_map, entries_NoDup, Hok.
Qed.

Lemma tab_map_absent s : tab_map tab !! s = None <-> absent tab s.
Proof.
  rewrite eq_None_not_Some. split.
  - intros Hn j v h Hj. apply Hn. exists v. apply tab_map_lookup. eauto.
  - intros Ha [v (i & h & Hi)%tab_map_lookup]. by eapply Ha.
Qed.

Lemma tab_map_size : Z.of_nat (base.size (tab_map tab)) = live_count tab.
Proof.
  unfold tab_map. rewrite map_size_list_to_map by apply entries_NoDup, Hok.
  clear Hok. induction tab as [| kp l IH]; [done |].
  unfold live_count, tab_entries in *. rewrite count_if_cons. cbn.
  destruct kp as [[]]; cbn; lia.
Qed.
End table_map.

(** ** Hashes are 32-bit values *)

Lemma murmur_body_range h data : 0 <= h < 2 ^ 32 -> 0 <= (murmur_body h data).1 < 2 ^ 32.
Proof.
  remember (length data) as n eqn:Hn. revert h data Hn.
  induction n as [n IH] using lt_wf_ind. intros h data Hn Hh.
  destruct data as [| a [| b [| c [| d rest]]]]; cbn [murmur_body fst]; try done.
  apply (IH (length rest)); [cbn in Hn; lia | done |]. unfold murmur_word.
  assert (Hk : forall k, 0 <= Z.lxor (u32 k) (Z.shiftr (u32 k) 24) < 2 ^ 32).
  { intros k. apply lxor_range; [lia | auto with axe |]. apply shiftr_range; [lia | auto with axe]. }
  apply lxor_range; [lia | auto with axe..].
Qed.

Lemma murmur_tail_range h data : 0 <= h < 2 ^ 32 -> 0 <= murmur_tail h data < 2 ^ 32.
Proof. intros Hh. unfold murmur_tail. repeat case_match; auto with axe. Qed.

Lemma dict_hash_range key : 0 <= dict_hash key < 2 ^ 32.
Proof.
  unfold dict_hash, dict_hash_murmur.
  assert (Hs : 0 <= Z.lxor murmur_seed (u32 (Z.of_nat (length key))) < 2 ^ 32).
  { apply lxor_range; [lia | unfold murmur_seed; lia | auto with axe]. }
  pose proof (murmur_body_range _ key Hs) as Hb. destruct (murmur_body _ key) as [h data].
  cbn [fst] in Hb. apply lxor_range; auto with axe; [lia |]. apply shiftr_range; auto with axe. lia.
Qed.
#[export] Hint Resolve dict_hash_range : axe.

(** ** The probe loop *)

Lemma least_nat (P : nat -> bool) n :
  P n = true -> exists m, (m <= n)%nat /\ P m = true /\ forall k, (k < m)%nat -> P k = false.
Proof.
  assert (Hall : forall n, (exists m, (m <= n)%nat /\ P m = true /\ forall k, (k < m)%nat -> P k = false) \/
    forall k, (k <= n)%nat -> P k = false).
  { intros n'. induction n' as [| n' [(m & Hm & Hres) | IH]].
    - destruct (P 0%nat) eqn:H0; [left; exists 0%nat | right; intros k Hk].
      + split; [lia |]. split; [done | lia].
      + by replace k with 0%nat by lia.
    - left. exists m. split; [lia | done].
    - destruct (P (S n')) eqn:HS; [left; exists (S n') | right; intros k Hk].
      + split; [lia |]. split; [done |]. intros k Hk. apply IH. lia.
      + destruct (decide (k = S n')) as [-> |]; [done | apply IH; lia]. }
  intros Hn. destruct (Hall n) as [Hex | Hno]; [done |]. by rewrite Hno in Hn.
Qed.

Lemma same_key_spec ep i key h :
  same_key None ep i key h = true <-> exists v, ep = Keypair (KStr key) v h.
Proof.
  unfold same_key. rewrite bool_decide_false, orb_false_l by done.
  destruct ep as [[] v h']; cbn; split; try naive_solver.
  - intros [Heq%Z.eqb_eq Hs%streq_true]%andb_true_iff. subst. eauto.
  - intros [v' [= -> -> ->]]. by rewrite Z.eqb_refl, streq_refl.
Qed.

Section lookup.
Context (d : dict) (key : bstr).
Hypothesis Hok : tab_ok (size d) (table d).

Abbreviation h := (dict_hash key).
Abbreviation pos := (probe_pos (size d) h).
Abbreviation at_ n := (table d !!! Z.to_nat (pos n)).

Lemma pos_range n : 0 <= pos n < size d.
Proof.
  destruct (ok_size _ _ Hok) as (k & Hk & ->). apply probe_pos_range. lia.
Qed.

Lemma at_lookup n : table d !! Z.to_nat (pos n) = Some (at_ n).
Proof.
  apply list_lookup_lookup_total_lt. pose proof (pos_range n). pose proof (ok_length _ _ Hok). lia.
Qed.

(** The first NULL slot of the probe sequence, within the fuel of [dict_lookup]. *)
Lemma first_null :
  has_null (table d) ->
  exists N, (N < probe_fuel d)%nat /\ nonnull (at_ N) = false /\
    forall m, (m < N)%nat -> nonnull (at_ m) = true.
Proof.
  intros (i & kp & Hi & Hn). pose proof (ok_length _ _ Hok) as Hl.
  destruct (ok_size _ _ Hok) as (k & Hk & Hsz).
  assert (Hir : 0 <= Z.of_nat i < 2 ^ Z.of_nat k).
  { apply lookup_lt_Some in Hi. lia. }
  destruct (probe_covers k h ltac:(lia) (dict_hash_range key) (Z.of_nat i) Hir) as (n & Hnf & Hpos).
  destruct (least_nat (fun n => is_null (at_ n)) n) as (N & HN & Hnull & Hmin).
  { rewrite Hsz, Hpos, Nat2Z.id. apply list_lookup_alt in Hi as [_ ->]. done. }
  exists N. unfold nonnull. rewrite Hnull. split_and!; [unfold probe_fuel; rewrite Hsz; lia | done |].
  intros m Hm. by rewrite Hmin.
Qed.

(** The two outcomes of a scan of the positions after [n] up to [N]: the key is
    found, or it is missing and the first free slot is the result. *)
Definition found_after (n N : nat) (i : Z) : Prop :=
  exists m v, (n < m <= N)%nat /\ pos m = i /\ at_ m = Keypair (KStr key) v h.

Definition missed_after (n N : nat) (fs : option Z) (i : Z) : Prop :=
  (forall m v, (n < m <= N)%nat -> at_ m <> Keypair (KStr key) v h) /\
  (fs = Some i \/ exists m, (n < m <= N)%nat /\ pos m = i /\ is_live (at_ m) = false).

Lemma found_after_weaken n N i : found_after (S n) N i -> found_after n N i.
Proof. intros (m & v & Hm & Hres). exists m, v. split; [lia | done]. Qed.

Lemma missed_after_weaken n N fs fs' i :
  (n < N)%nat -> missed_after (S n) N fs' i -> (forall v, at_ (S n) <> Keypair (KStr key) v h) ->
  (fs' = fs \/ fs' = Some (pos (S n)) /\ is_live (at_ (S n)) = false) ->
  missed_after n N fs i.
Proof.
  intros Hn [Hno Hfs'] Hhere Hfs. split.
  - intros m v Hm. destruct (decide (m = S n)) as [-> |]; [apply Hhere | apply Hno; lia].
  - destruct Hfs' as [-> | (m & Hm & Hres)]; [| right; exists m; split; [lia | done]].
    destruct Hfs as [<- | [[= ->] Hl]]; [by left |]. right. exists (S n). split_and!; auto; lia.
Qed.

Lemma probe_run N fuel n fs :
  nonnull (at_ N) = false -> (forall m, (m < N)%nat -> nonnull (at_ m) = true) ->
  (n < N)%nat -> (N - n <= fuel)%nat ->
  exists i, dict_probe fuel d None key h (pos n) (Z.shiftr h (PERTURB_SHIFT * Z.of_nat n)) fs = Some i /\
    (found_after n N i \/ missed_after n N fs i).
Proof.
  intros HN Hmin. revert n fs. induction fuel as [| fuel IH]; intros n fs Hn Hfuel; [lia |].
  cbn [dict_probe].
  change (probe_next (size d) (pos n) (Z.shiftr h (PERTURB_SHIFT * Z.of_nat n))) with (pos (S n)).
  unfold slot_at.
  assert (Hsh : Z.shiftr (Z.shiftr h (PERTURB_SHIFT * Z.of_nat n)) PERTURB_SHIFT
                = Z.shiftr h (PERTURB_SHIFT * Z.of_nat (S n))).
  { rewrite Z.shiftr_shiftr by (unfold PERTURB_SHIFT; lia). f_equal. lia. }
  assert (Hlast : kp_key (at_ (S n)) <> KNULL -> (S n < N)%nat).
  { intros Hk. destruct (decide (S n = N)) as [<- |]; [| lia].
    unfold nonnull, is_null in HN. by destruct (kp_key (at_ (S n))). }
  rewrite Hsh. destruct (kp_key (at_ (S n))) as [| | s] eqn:Hk.
  - exists (default (pos (S n)) fs). split; [done |]. right.
    assert (N = S n) as ->.
    { destruct (decide (S n < N)%nat) as [Hlt |]; [| lia]. specialize (Hmin _ Hlt).
      unfold nonnull, is_null in Hmin. by rewrite Hk in Hmin. }
    split; [intros m v Hm; replace m with (S n) by lia; intros Heq; by rewrite Heq in Hk |].
    destruct fs as [j |]; [by left | right]. exists (S n). unfold is_live. rewrite Hk.
    split_and!; auto; lia.
  - destruct (IH (S n) (match fs with None => Some (pos (S n)) | Some _ => fs end))
      as (i & Hi & [Hf | Hm]); [by apply Hlast | lia | |]; exists i; (split; [done |]).
    + left. by apply found_after_weaken.
    + right. eapply missed_after_weaken; [done | exact Hm | intros v Heq; by rewrite Heq in Hk |].
      destruct fs; [by left | right]. unfold is_live. by rewrite Hk.
  - destruct (same_key None (at_ (S n)) (pos (S n)) key h) eqn:Hsame.
    + apply same_key_spec in Hsame as [v Hv]. exists (pos (S n)). split; [done |]. left.
      exists (S n), v. split; [lia | done].
    + destruct (IH (S n) fs) as (i & Hi & [Hf | Hm]); [by apply Hlast | lia | |]; exists i; (split; [done |]).
      * left. by apply found_after_weaken.
      * right. eapply missed_after_weaken; [done | exact Hm | | by left]. intros v Heq.
        apply not_true_iff_false in Hsame. apply Hsame, same_key_spec. eauto.
Qed.

(** What a terminating lookup returns. *)
Inductive lookup_result (i : Z) : Prop :=
| lookup_hit v : table d !! Z.to_nat i = Some (Keypair (KStr key) v h) -> lookup_result i
| lookup_miss kp : table d !! Z.to_nat i = Some kp -> is_live kp = false ->
    on_path (size d) (table d) h i -> absent (table d) key -> lookup_result i.

(** A key that the positions up to the first NULL slot do not hold is absent. *)
Lemma missed_absent N :
  nonnull (at_ N) = false ->
  (forall m v, (m <= N)%nat -> at_ m <> Keypair (KStr key) v h) -> absent (table d) key.
Proof.
  intros HN Hno j v h' Hj. destruct (ok_path _ _ Hok _ _ _ _ Hj) as [-> (n & Hn & Hpath)].
  destruct (decide (n <= N)%nat) as [Hle | Hgt].
  - apply (Hno n v Hle). rewrite Hn, Nat2Z.id. by apply list_lookup_total_correct.
  - specialize (Hpath N ltac:(lia)). by rewrite HN in Hpath.
Qed.

Lemma miss_result N m :
  (m <= N)%nat -> (forall m, (m < N)%nat -> nonnull (at_ m) = true) ->
  is_live (at_ m) = false -> absent (table d) key -> lookup_result (pos m).
Proof.
  intros Hm Hmin Hl Ha. eapply lookup_miss; [apply at_lookup | done | | done].
  exists m. split; [done |]. intros m' Hm'. apply Hmin. lia.
Qed.

(** With a NULL slot in the table the lookup terminates and is correct. *)
Lemma dict_lookup_spec :
  has_null (table d) ->
  exists i, dict_lookup d None key h = Some i /\ 0 <= i < size d /\ lookup_result i.
Proof.
  intros (N & HN & Hnull & Hmin)%first_null. unfold dict_lookup, dict_lookup_fuel.
  change (Z.land h (size d - 1)) with (pos 0). unfold slot_at.
  assert (Hhome : kp_key (at_ 0) <> KNULL -> (0 < N)%nat).
  { intros Hk. destruct N; [| lia]. unfold nonnull, is_null in Hnull. by destruct (kp_key (at_ 0)). }
  assert (Hrun : forall fs, (0 < N)%nat -> (forall v, at_ 0 <> Keypair (KStr key) v h) ->
    (fs = None \/ fs = Some (pos 0) /\ is_live (at_ 0) = false) ->
    exists i, dict_probe (probe_fuel d) d None key h (pos 0) h fs = Some i /\ 0 <= i < size d /\ lookup_result i).
  { intros fs HN0 Hhere Hfs. destruct (probe_run N (probe_fuel d) 0 fs) as (i & Hi & Hres); [done..| lia |].
    rewrite Z.mul_0_r, Z.shiftr_0_r in Hi. exists i. split; [done |].
    destruct Hres as [(m & v & Hm & <- & Hat) | [Hno Hres]].
    { split; [apply pos_range |]. eapply lookup_hit. rewrite at_lookup. by rewrite Hat. }
    assert (Ha : absent (table d) key).
    { apply (missed_absent N Hnull). intros [| m] v Hm; [apply Hhere | apply Hno; lia]. }
    destruct Hres as [-> | (m & Hm & <- & Hl)].
    - destruct Hfs as [| [[= ->] Hl]]; [done |]. split; [apply (pos_range 0) |].
      apply (miss_result N 0); [lia | done..].
    - split; [apply pos_range |]. apply (miss_result N); [lia | done..]. }
  destruct (kp_key (at_ 0)) as [| | s] eqn:Hk.
  - assert (N = 0%nat) as ->.
    { destruct N; [done |]. specialize (Hmin 0%nat ltac:(lia)). unfold nonnull, is_null in Hmin.
      by rewrite Hk in Hmin. }
    exists (pos 0). split; [done |]. split; [apply pos_range |].
    apply (miss_result 0); [lia | done | unfold is_live; by rewrite Hk |].
    apply (missed_absent 0 Hnull). intros m v Hm Heq. replace m with 0%nat in Heq by lia.
    by rewrite Heq in Hk.
  - apply Hrun; [by apply Hhome | intros v Heq; by rewrite Heq in Hk |]. right.
    unfold is_live. by rewrite Hk.
  - destruct (same_key None (at_ 0) (pos 0) key h) eqn:Hsame.
    + apply same_key_spec in Hsame as [v Hv]. exists (pos 0). split; [done |].
      split; [apply pos_range |]. eapply lookup_hit. rewrite at_lookup. by rewrite Hv.
    + apply Hrun; [by apply Hhome | | by left]. intros v Heq.
      apply not_true_iff_false in Hsame. apply Hsame, same_key_spec. eauto.
Qed.

(** Without a NULL slot the lookup of an absent key never leaves the loop,
    whatever the number of iterations. *)
Lemma dict_lookup_diverges fuel :
  ~ has_null (table d) -> absent (table d) key -> dict_lookup_fuel fuel d None key h = None.
Proof.
  intros Hfull Ha.
  assert (Hnn : forall n, kp_key (at_ n) <> KNULL).
  { intros n Hk. apply Hfull. exists (Z.to_nat (pos n)), (at_ n). split; [apply at_lookup |].
    unfold is_null. by rewrite Hk. }
  assert (Hnk : forall n, same_key None (at_ n) (pos n) key h = false).
  { intros n. apply not_true_iff_false. intros [v Hv]%same_key_spec.
    apply (Ha (Z.to_nat (pos n)) v h). rewrite at_lookup. by rewrite Hv. }
  assert (Hloop : forall n fs, dict_probe fuel d None key h (pos n)
                    (Z.shiftr h (PERTURB_SHIFT * Z.of_nat n)) fs = None).
  { induction fuel as [| f IH]; intros n fs; [done |]. cbn [dict_probe].
    change (probe_next (size d) (pos n) (Z.shiftr h (PERTURB_SHIFT * Z.of_nat n))) with (pos (S n)).
    rewrite Z.shiftr_shiftr by (unfold PERTURB_SHIFT; lia).
    replace (PERTURB_SHIFT * Z.of_nat n + PERTURB_SHIFT) with (PERTURB_SHIFT * Z.of_nat (S n)) by lia.
    unfold slot_at. specialize (Hnn (S n)). specialize (Hnk (S n)).
    destruct (kp_key (at_ (S n))); [done | apply IH | rewrite Hnk; apply IH]. }
  specialize (Hloop 0%nat). rewrite Z.mul_0_r, Z.shiftr_0_r in Hloop.
  unfold dict_lookup_fuel. change (Z.land h (size d - 1)) with (pos 0). unfold slot_at.
  specialize (Hnn 0%nat). specialize (Hnk 0%nat).
  destruct (kp_key (at_ 0)); [done | apply Hloop | rewrite Hnk; apply Hloop].
Qed.

End lookup.

(** ** Replacing one slot *)

Lemma lookup_insert_cases {A} (l : list A) i j x y :
  <[i := x]> l !! j = Some y -> (j = i /\ y = x) \/ (j <> i /\ l !! j = Some y).
Proof. intros [(-> & <- & _) | [Hne Hj]]%list_lookup_insert_Some; auto. Qed.

Lemma nonnull_insert (tab : list keypair) (i j : nat) (x : keypair) :
  nonnull x = true -> nonnull (tab !!! j) = true -> nonnull (<[i := x]> tab !!! j) = true.
Proof.
  intros Hx Hj. rewrite list_lookup_total_alt in *.
  destruct (decide (i = j)) as [-> |]; [| by rewrite list_lookup_insert_ne].
  destruct (decide (j < length tab)%nat).
  - by rewrite list_lookup_insert_eq.
  - by rewrite list_insert_ge by lia.
Qed.

Lemma on_path_insert sz tab h i j x :
  nonnull x = true -> on_path sz tab h j -> on_path sz (<[i := x]> tab) h j.
Proof.
  intros Hx (n & Hn & Hpath). exists n. split; [done |]. intros m Hm.
  apply nonnull_insert; auto.
Qed.

Section set_slot.
Context (sz : Z) (tab : list keypair) (i : nat) (kp x : keypair).
Hypothesis Hok : tab_ok sz tab.
Hypothesis Hi : tab !! i = Some kp.

Lemma tab_ok_set :
  nonnull x = true ->
  (forall s v h, x = Keypair (KStr s) v h -> h = dict_hash s /\ on_path sz tab h (Z.of_nat i) /\
     forall j v' h', tab !! j = Some (Keypair (KStr s) v' h') -> j = i) ->
  tab_ok sz (<[i := x]> tab).
Proof.
  intros Hx Hnew. split.
  - apply Hok.
  - rewrite length_insert. apply Hok.
  - intros j s v h [[-> Heq] | [Hne Hj]]%lookup_insert_cases.
    + destruct (Hnew s v h (eq_sym Heq)) as (? & ? & _). auto using on_path_insert.
    + destruct (ok_path _ _ Hok _ _ _ _ Hj). auto using on_path_insert.
  - intros j1 j2 s v v' h h' [[-> H1] | [Hne1 H1]]%lookup_insert_cases
      [[-> H2] | [Hne2 H2]]%lookup_insert_cases; [done | | |].
    + destruct (Hnew s v h (eq_sym H1)) as (_ & _ & Hu). by destruct (Hne2 (Hu _ _ _ H2)).
    + destruct (Hnew s v' h' (eq_sym H2)) as (_ & _ & Hu). by destruct (Hne1 (Hu _ _ _ H1)).
    + by eapply (ok_unique _ _ Hok).
Qed.

Lemma lookup_set j y :
  <[i := x]> tab !! j = Some y <-> (j = i /\ y = x) \/ (j <> i /\ tab !! j = Some y).
Proof.
  split; [apply lookup_insert_cases |]. intros [[-> ->] | [Hne Hj]].
  - apply list_lookup_insert_eq. by eapply lookup_lt_Some.
  - by rewrite list_lookup_insert_ne.
Qed.

Lemma tab_map_set_live s v h :
  x = Keypair (KStr s) v h -> tab_ok sz (<[i := x]> tab) ->
  (is_live kp = false \/ exists v0 h0, kp = Keypair (KStr s) v0 h0) ->
  tab_map (<[i := x]> tab) = <[s := v]> (tab_map tab).
Proof.
  intros Hx Hok' Hold. apply map_eq. intros k. apply option_eq. intros w.
  rewrite (tab_map_lookup sz) by done. rewrite lookup_insert_Some, (tab_map_lookup sz) by done.
  setoid_rewrite lookup_set. rewrite Hx. split.
  - intros (j & h' & [[-> [= -> -> ->]] | [Hne Hj]]); [by left |]. right. split; [| by eauto].
    intros <-. apply Hne. eapply (ok_unique _ _ Hok'); [| rewrite lookup_set; left; done].
    rewrite lookup_set. by right.
  - intros [[<- ->] | [Hne (j & h' & Hj)]]; [by exists i, h; left |]. exists j, h'. right.
    split; [| done]. intros ->. rewrite Hi in Hj. injection Hj as ->.
    by destruct Hold as [| (v0 & h0 & [=])].
Qed.

Lemma tab_map_set_dead s v h :
  kp = Keypair (KStr s) v h -> is_live x = false -> tab_ok sz (<[i := x]> tab) ->
  tab_map (<[i := x]> tab) = delete s (tab_map tab).
Proof.
  intros Hkp Hx Hok'. apply map_eq. intros k. apply option_eq. intros w.
  rewrite (tab_map_lookup sz) by done. rewrite lookup_delete_Some, (tab_map_lookup sz) by done.
  setoid_rewrite lookup_set. split.
  - intros (j & h' & [[-> <-] | [Hne Hj]]); [done |]. split; [| by eauto].
    intros <-. apply Hne. rewrite Hkp in Hi. by eapply (ok_unique _ _ Hok).
  - intros [Hne (j & h' & Hj)]. exists j, h'. right. split; [| done]. intros ->.
    rewrite Hi, Hkp in Hj. injection Hj as -> -> ->. done.
Qed.

End set_slot.

(** ** The commit of a store *)

Lemma lookup_result_set d key i v :
  tab_ok (size d) (table d) -> 0 <= i -> lookup_result d key i ->
  let x := Keypair (KStr key) v (dict_hash key) in
  tab_ok (size d) (<[Z.to_nat i := x]> (table d)) /\
  tab_map (<[Z.to_nat i := x]> (table d)) = <[key := v]> (tab_map (table d)).
Proof.
  intros Hok Hi Hres x.
  assert (Hset : exists kp, table d !! Z.to_nat i = Some kp /\ on_path (size d) (table d) (dict_hash key) i /\
    (forall j v' h', table d !! j = Some (Keypair (KStr key) v' h') -> j = Z.to_nat i) /\
    (is_live kp = false \/ exists v0 h0, kp = Keypair (KStr key) v0 h0)).
  { destruct Hres as [v0 Hhit | kp Hkp Hl Hpath Ha].
    - exists (Keypair (KStr key) v0 (dict_hash key)). split; [done |]. split_and!; [| | by eauto].
      + destruct (ok_path _ _ Hok _ _ _ _ Hhit) as [_ Hp]. by rewrite Z2Nat.id in Hp.
      + intros j v' h' Hj. by eapply (ok_unique _ _ Hok).
    - exists kp. split_and!; auto. intros j v' h' Hj. by destruct (Ha j v' h'). }
  destruct Hset as (kp & Hkp & Hpath & Huniq & Hold).
  assert (Hok' : tab_ok (size d) (<[Z.to_nat i := x]> (table d))).
  { apply tab_ok_set; [done | done |]. intros s v1 h [= <- <- <-].
    rewrite Z2Nat.id by done. auto. }
  split; [done |]. by eapply tab_map_set_live.
Qed.

Lemma dict_commit_spec d key i v :
  dict_wf d -> 0 <= i -> lookup_result d key i -> fill d + 1 < 2 ^ 32 ->
  let d' := dict_commit d i key (dict_hash key) v in
  dict_wf d' /\ dict_map d' = <[key := v]> (dict_map d) /\ size d' = size d /\
  table d' = <[Z.to_nat i := Keypair (KStr key) v (dict_hash key)]> (table d) /\
  fill d' <= fill d + 1 /\
  occupied (table d') <= occupied (table d) + (if is_live (slot_at d i) then 0 else 1) /\
  tombs (table d') <= tombs (table d).
Proof.
  intros [Hok Hused Hfill] Hi Hres Hrange d'.
  destruct (lookup_result_set d key i v Hok Hi Hres) as [Hok' Hmap].
  pose proof (live_le_occupied (table d)) as Hle.
  pose proof (count_if_bounds is_live (table d)) as Hlive. fold (live_count (table d)) in Hlive.
  set (x := Keypair (KStr key) v (dict_hash key)) in *.
  assert (Hkp : exists kp, table d !! Z.to_nat i = Some kp) by (destruct Hres; eauto).
  destruct Hkp as [kp Hkp].
  assert (Hslot : slot_at d i = kp) by (by apply list_lookup_total_correct).
  pose proof (count_if_insert is_live _ _ _ x Hkp) as Hl'.
  pose proof (count_if_insert nonnull _ _ _ x Hkp) as Ho'.
  fold (live_count (<[Z.to_nat i := x]> (table d))) in Hl'. fold (live_count (table d)) in Hl'.
  fold (occupied (<[Z.to_nat i := x]> (table d))) in Ho'. fold (occupied (table d)) in Ho'.
  pose proof (count_if_member is_live _ _ _ Hkp) as Hpos.
  pose proof (count_if_member nonnull _ _ _ Hkp) as Hpos'.
  fold (live_count (table d)) in Hpos. fold (occupied (table d)) in Hpos'.
  assert (Htab : table d' = <[Z.to_nat i := x]> (table d)).
  { unfold d', dict_commit. rewrite Hslot. by destruct (kp_key kp). }
  assert (Hsz : size d' = size d).
  { unfold d', dict_commit. rewrite Hslot. by destruct (kp_key kp). }
  assert (Hcnt : used d' = live_count (table d') /\ occupied (table d') <= fill d' <= fill d + 1).
  { rewrite Htab. unfold d', dict_commit. rewrite Hslot. unfold is_live, nonnull, is_null in *.
    cbn in Hl', Ho'.
    destruct (kp_key kp); cbn in *; rewrite ?(u32_small (used d - 1)), ?(u32_small (fill d - 1)) by lia;
      rewrite !u32_small by lia; lia. }
  split; [split; [by rewrite Hsz, Htab | lia | lia] |].
  split; [unfold dict_map; by rewrite Htab |]. split_and!; [done | done | lia | |];
    unfold tombs; rewrite Htab, ?Hslot; unfold is_live, nonnull, is_null in *; cbn in Hl', Ho';
    destruct (kp_key kp); cbn in *; lia.
Qed.

(** ** Resizing *)

Lemma no_tomb_insert tab i x : no_tomb tab -> is_live x = true -> no_tomb (<[i := x]> tab).
Proof.
  intros Hnt Hx j kp [[-> ->] | [_ Hj]]%lookup_insert_cases; [| by eapply Hnt].
  unfold is_live in Hx. by destruct (kp_key x).
Qed.

Lemma replicate_tab_ok (k : nat) :
  (3 <= k <= 30)%nat -> tab_ok (2 ^ Z.of_nat k) (replicate (Z.to_nat (2 ^ Z.of_nat k)) zero_kp).
Proof.
  intros Hk. split.
  - eauto.
  - rewrite length_replicate. lia.
  - intros i s v h [Heq _]%lookup_replicate. done.
  - intros i j s v v' h h' [Heq _]%lookup_replicate. done.
Qed.

Lemma replicate_counts f n : f zero_kp = false -> count_if f (replicate n zero_kp) = 0.
Proof. intros Hf. induction n as [| n IH]; [done |]. cbn [replicate]. rewrite count_if_cons, Hf. lia. Qed.

Lemma replicate_no_tomb n : no_tomb (replicate n zero_kp).
Proof. by intros i kp [-> _]%lookup_replicate. Qed.

Lemma replicate_map n : tab_map (replicate n zero_kp) = ∅.
Proof. induction n as [| n IH]; [done | exact IH]. Qed.

Lemma fresh_wf (k : nat) :
  (3 <= k <= 30)%nat ->
  dict_wf (Dict 0 0 (2 ^ Z.of_nat k) (replicate (Z.to_nat (2 ^ Z.of_nat k)) zero_kp)).
Proof.
  intros Hk. split; cbn [size table used fill].
  - by apply replicate_tab_ok.
  - unfold live_count. by rewrite replicate_counts.
  - unfold occupied. rewrite replicate_counts by done. lia.
Qed.

Lemma dict_add_p_spec d s v h0 :
  dict_wf d -> no_tomb (table d) -> used d + 1 < size d -> fill d + 1 < 2 ^ 32 -> absent (table d) s ->
  exists d', dict_add_p d (Keypair (KStr s) v h0) = Some (0, d') /\ dict_wf d' /\
    no_tomb (table d') /\ size d' = size d /\ dict_map d' = <[s := v]> (dict_map d) /\
    used d' = used d + 1 /\ fill d' <= fill d + 1.
Proof.
  intros Hwf Hnt Hroom Hfill Ha. pose proof (wf_tab _ Hwf) as Hok.
  pose proof (ok_length _ _ Hok) as Hlen. pose proof (wf_used _ Hwf) as Hused.
  pose proof (no_tomb_occupied _ Hnt) as Hocc.
  destruct (dict_lookup_spec d s Hok) as (i & Hi & Hir & Hres).
  { apply occupied_has_null. lia. }
  assert (Hnull : kp_key (slot_at d i) = KNULL).
  { destruct Hres as [v' Hhit | kp Hkp Hl _ _]; [by destruct (Ha _ _ _ Hhit) |].
    unfold slot_at. rewrite (list_lookup_total_correct _ _ _ Hkp). specialize (Hnt _ _ Hkp).
    unfold is_live in Hl. by destruct (kp_key kp). }
  destruct (dict_commit_spec d s i v Hwf ltac:(lia) Hres ltac:(lia))
    as (Hwf' & Hmap & Hsz & Htab & Hf & _).
  assert (Hval : dict_add_p d (Keypair (KStr s) v h0) = Some (0, dict_commit d i s (dict_hash s) v)).
  { unfold dict_add_p. cbn [kp_key kp_val]. rewrite Hi. cbn. unfold dict_commit. by rewrite Hnull. }
  exists (dict_commit d i s (dict_hash s) v). split_and!; try done.
  - rewrite Htab. by apply no_tomb_insert.
  - unfold dict_commit. rewrite Hnull. cbn. pose proof (count_if_bounds is_live (table d)) as Hb.
    fold (live_count (table d)) in Hb. destruct (ok_size _ _ Hok) as (k & Hk & Hs).
    assert (2 ^ Z.of_nat k <= 2 ^ 30) by (apply Z.pow_le_mono_r; lia).
    apply u32_small. lia.
Qed.

Lemma live_count_cons kp tab : live_count (kp :: tab) = (if is_live kp then 1 else 0) + live_count tab.
Proof. apply count_if_cons. Qed.

Lemma reinsert_spec kps d :
  dict_wf d -> no_tomb (table d) -> NoDup (tab_entries kps).*1 ->
  (forall s, s ∈ (tab_entries kps).*1 -> absent (table d) s) ->
  used d + live_count kps < size d -> fill d + live_count kps < 2 ^ 32 ->
  exists d', reinsert kps d = Some (true, d') /\ dict_wf d' /\ no_tomb (table d') /\
    size d' = size d /\ dict_map d' = tab_map kps ∪ dict_map d /\
    used d' = used d + live_count kps /\ fill d' <= fill d + live_count kps.
Proof.
  revert d. induction kps as [| kp kps IH]; intros d Hwf Hnt Hnd Hdis Hroom Hfill.
  { exists d. change (tab_map []) with (∅ : gmap bstr value). rewrite (left_id_L ∅ (∪)).
    change (live_count []) with 0 in *. split_and!; done || lia. }
  pose proof (count_if_bounds is_live kps) as Hb. fold (live_count kps) in Hb.
  rewrite live_count_cons in *. cbn [reinsert]. unfold tab_entries in Hnd, Hdis. cbn in Hnd, Hdis.
  destruct kp as [[| | s] v h]; cbn [is_live kp_key slot_entry] in *; [by apply IH.. |].
  cbn in Hnd, Hdis. apply NoDup_cons in Hnd as [Hns Hnd].
  destruct (dict_add_p_spec d s v h) as (d1 & Hadd & Hwf1 & Hnt1 & Hsz1 & Hm1 & Hu1 & Hf1);
    [done.. | lia | lia | apply Hdis; set_solver |].
  rewrite Hadd. cbn.
  destruct (IH d1) as (d' & Hre & Hwf' & Hnt' & Hsz' & Hm' & Hu' & Hf'); [done.. | | lia | lia |].
  { intros s' Hs'. apply (tab_map_absent (size d1)); [apply Hwf1 |]. fold (dict_map d1).
    rewrite Hm1, lookup_insert_ne by set_solver. apply (tab_map_absent (size d)); [apply Hwf |].
    apply Hdis. set_solver. }
  exists d'. split_and!; [done.. | lia | | lia | lia].
  rewrite Hm', Hm1. change (tab_map (Keypair (KStr s) v h :: kps)) with (<[s := v]> (tab_map kps)).
  rewrite <- insert_union_l, <- insert_union_r; [done |].
  by apply not_elem_of_list_to_map_1.
Qed.

Lemma grow_size_spec fuel (k : nat) factor u :
  (k <= 30)%nat -> (30 - k < fuel)%nat -> 0 <= factor * u < 2 ^ 30 ->
  exists k' : nat, grow_size fuel (2 ^ Z.of_nat k) factor u = Some (2 ^ Z.of_nat k') /\
    (k <= k' <= 30)%nat /\ factor * u < 2 ^ Z.of_nat k'.
Proof.
  revert k. induction fuel as [| fuel IH]; intros k Hk Hfuel Hu; [lia |]. cbn [grow_size].
  rewrite (u32_small (factor * u)) by lia. destruct (Z.leb_spec (2 ^ Z.of_nat k) (factor * u)).
  - assert (k <> 30%nat) by (intros ->; change (2 ^ Z.of_nat 30) with (2 ^ 30) in *; lia).
    assert (Hdbl : 2 ^ Z.of_nat k * 2 = 2 ^ Z.of_nat (S k)).
    { rewrite Nat2Z.inj_succ, Z.pow_succ_r by lia. lia. }
    assert (2 ^ Z.of_nat (S k) <= 2 ^ 30) by (apply Z.pow_le_mono_r; lia).
    rewrite Hdbl, u32_small by lia. destruct (IH (S k)) as (k' & -> & Hk' & Hlt); [lia.. |].
    exists k'. split; [done | lia].
  - exists k. split; [done | lia].
Qed.

(** What a successful resize leaves: the dictionary as it was, or a larger table
    with the same entries and no tombstones. *)
Inductive resized (d d' : dict) : Prop :=
| resized_same : d' = d -> (if size d >? DICT_BIGSZ then 2 else 4) * used d < size d -> resized d d'
| resized_grown : dict_wf d' -> no_tomb (table d') -> dict_map d' = dict_map d ->
    used d' = used d -> fill d' <= used d -> 2 * used d < size d' -> resized d d'.

Lemma dict_resize_spec o d :
  dict_wf d -> in_range d ->
  exists rc d' o', dict_resize o d = Some (rc, d', o') /\
    ((rc = 0 /\ resized d d') \/ (rc = -1 /\ d' = d)) /\ (o = [] -> rc = 0 /\ o' = []).
Proof.
  intros Hwf [_ Hused]. pose proof (wf_tab _ Hwf) as Hok.
  destruct (ok_size _ _ Hok) as (k & Hk & Hsz).
  pose proof (count_if_bounds is_live (table d)) as Hb. fold (live_count (table d)) in Hb.
  rewrite <- (wf_used _ Hwf) in Hb.
  unfold dict_resize. set (factor := if size d >? DICT_BIGSZ then 2 else 4).
  assert (Hfac : 2 <= factor <= 4) by (unfold factor; case_match; lia).
  assert (2 * used d <= factor * used d <= 4 * used d) by nia.
  destruct (grow_size_spec 33 k factor (used d)) as (k' & Hg & Hk' & Hlt); [lia.. |].
  rewrite <- Hsz in Hg. rewrite Hg. cbn [mbind option_bind].
  destruct (Z.eqb_spec (2 ^ Z.of_nat k') (size d)) as [Heq | Hne].
  { exists 0, d, o. split_and!; [done | left; split; [done | apply resized_same; [done | fold factor; lia]] | done]. }
  destruct (alloc o) as [[] o1] eqn:Ha; cbn.
  2:{ exists (-1), d, o1. split_and!; [done | by right |]. intros ->. by cbn in Ha. }
  destruct (reinsert_spec (table d) (Dict 0 0 (2 ^ Z.of_nat k')
    (replicate (Z.to_nat (2 ^ Z.of_nat k')) zero_kp))) as (d' & Hre & Hwf' & Hnt & Hs' & Hm & Hu & Hf);
    cbn [table used fill size].
  - apply fresh_wf. lia.
  - apply replicate_no_tomb.
  - apply entries_NoDup, Hok.
  - intros s _ j v h [Hz _]%lookup_replicate. done.
  - rewrite <- (wf_used _ Hwf). lia.
  - rewrite <- (wf_used _ Hwf). lia.
  - rewrite Hre. cbn. exists 0, d', o1. cbn [used fill size] in *. rewrite <- (wf_used _ Hwf) in Hu, Hf.
    split_and!; [done | left; split; [done |] |].
    + apply resized_grown; [done | done | | lia | lia | rewrite Hs'; lia].
      rewrite Hm. unfold dict_map at 1. cbn [table]. rewrite replicate_map. apply (right_id_L ∅ (∪)).
    + intros ->. cbn in Ha. by injection Ha as <-.
Qed.

(** ** Storing *)

(** What a successful store leaves behind. *)
Record stored (d : dict) (key : bstr) (v : value) (d' : dict) : Prop := {
  st_wf : dict_wf d';
  st_map : dict_map d' = <[key := v]> (dict_map d);
  st_fill : fill d' <= fill d + 1;
  st_no_tomb : no_tomb (table d) -> no_tomb (table d');
  st_tombs : tombs (table d') <= tombs (table d);
  st_null : tombs (table d) <= 5 -> has_null (table d')
}.

Lemma wf_size_bounds d : dict_wf d -> 8 <= size d <= 2 ^ 30 /\ Z.of_nat (length (table d)) = size d.
Proof.
  intros [Hok _ _]. destruct (ok_size _ _ Hok) as (k & Hk & Hsz). pose proof (ok_length _ _ Hok).
  rewrite Hsz in *. split; [change 8 with (2 ^ 3) | done]. split; apply Z.pow_le_mono_r; lia.
Qed.

Lemma no_tomb_tombs tab : no_tomb tab -> tombs tab = 0.
Proof. intros Hnt. unfold tombs. rewrite no_tomb_occupied by done. lia. Qed.

Lemma commit_stored d key i v :
  dict_wf d -> 0 <= i -> lookup_result d key i -> fill d + 1 < 2 ^ 32 ->
  (tombs (table d) <= 5 -> occupied (table d) + (if is_live (slot_at d i) then 0 else 1) < size d) ->
  stored d key v (dict_commit d i key (dict_hash key) v).
Proof.
  intros Hwf Hi Hres Hf Hroom.
  destruct (dict_commit_spec d key i v Hwf Hi Hres Hf) as (Hwf' & Hm & Hsz & Htab & Hf' & Hocc & Htb).
  split; try done.
  - rewrite Htab. intros Hnt. by apply no_tomb_insert.
  - intros Ht. specialize (Hroom Ht). apply occupied_has_null. pose proof (wf_size_bounds _ Hwf'). lia.
Qed.

(** The store that follows a growing resize finds room in the new table. *)
Lemma grown_stored d d1 key v :
  dict_wf d -> in_range d -> dict_wf d1 -> no_tomb (table d1) -> dict_map d1 = dict_map d ->
  used d1 = used d -> fill d1 <= used d -> 2 * used d < size d1 ->
  exists i, dict_lookup d1 None key (dict_hash key) = Some i /\
    stored d key v (dict_commit d1 i key (dict_hash key) v).
Proof.
  intros Hwf [Hfr Hur] Hwf1 Hnt1 Hm1 Hu1 Hf1 Hhalf.
  pose proof (wf_size_bounds _ Hwf1) as [Hsz1 Hlen1]. pose proof (wf_used _ Hwf1) as Hused1.
  pose proof (no_tomb_occupied _ Hnt1) as Hocc1. pose proof (live_le_occupied (table d)) as Hle.
  pose proof (wf_used _ Hwf) as Hused. pose proof (wf_fill _ Hwf) as Hfill.
  destruct (dict_lookup_spec d1 key (wf_tab _ Hwf1)) as (i & Hi & Hir & Hres).
  { apply occupied_has_null. lia. }
  exists i. split; [done |].
  destruct (commit_stored d1 key i v Hwf1 ltac:(lia) Hres ltac:(lia)) as [H1 H2 H3 H4 H5 H6].
  { intros _. case_match; lia. }
  pose proof (no_tomb_tombs _ Hnt1). split; try done.
  - by rewrite H2, Hm1.
  - lia.
  - auto.
  - unfold tombs in *. lia.
  - intros _. apply H6. lia.
Qed.

(** A table that a resize leaves alone has room for one more entry, unless
    tombstones have taken it. *)
Lemma same_room d :
  dict_wf d -> (if size d >? DICT_BIGSZ then 2 else 4) * used d < size d ->
  tombs (table d) <= 5 -> occupied (table d) + 1 < size d.
Proof.
  intros Hwf Hhalf Ht. pose proof (wf_size_bounds _ Hwf) as [Hsz Hlen]. pose proof (wf_used _ Hwf) as Hused.
  destruct (ok_size _ _ (wf_tab _ Hwf)) as (k & Hk & Hpow). unfold tombs, DICT_BIGSZ in *.
  destruct (decide (k = 3%nat)) as [-> | Hne].
  - change (2 ^ Z.of_nat 3) with 8 in Hpow. rewrite Hpow in *. cbn in Hhalf. lia.
  - assert (16 <= size d) by (rewrite Hpow; change 16 with (2 ^ 4); apply Z.pow_le_mono_r; lia).
    case_match; lia.
Qed.

(** The allocations before the commit: the copy of the key and of a string value. *)
Lemma value_alloc v o :
  o = [] -> (match v with VStr (Some _) => alloc o | _ => (true, o) end) = (true, []).
Proof. intros ->. by destruct v as [| | [] | | | | | | | | | | | | |]. Qed.

Lemma dict_store_spec o d key v :
  dict_wf d -> has_null (table d) -> in_range d ->
  exists rc d' o', dict_store o d (Some key) (Some v) = Some (rc, d', o') /\
    ((rc = 0 /\ stored d key v d') \/ (rc = -1 /\ d' = d)) /\ (o = [] -> rc = 0 /\ o' = []).
Proof.
  intros Hwf Hnull Hrange. pose proof Hrange as [Hfr Hur].
  pose proof (wf_size_bounds _ Hwf) as [Hsb Hlen]. pose proof (has_null_occupied _ Hnull) as Hocc.
  destruct (dict_lookup_spec d key (wf_tab _ Hwf) Hnull) as (i & Hi & Hir & Hres).
  unfold dict_store. rewrite Hi. cbn [mbind option_bind].
  destruct (alloc o) as [[] o1] eqn:Ha1; cbn [negb].
  2:{ exists (-1), d, o1. split_and!; [done | by right |]. by intros ->. }
  pose proof (value_alloc v o1) as Hva.
  destruct (match v with VStr (Some _) => alloc o1 | _ => (true, o1) end) as [[] o2]; cbn [negb].
  2:{ exists (-1), d, o2. split_and!; [done | by right |]. intros ->. injection Ha1 as <-. by specialize (Hva eq_refl). }
  assert (Ho2 : o = [] -> o2 = []).
  { intros ->. injection Ha1 as <-. specialize (Hva eq_refl). by injection Hva as <-. }
  pose proof (wf_fill _ Hwf) as Hwfill. pose proof (count_if_bounds nonnull (table d)) as Hob.
  fold (occupied (table d)) in Hob.
  rewrite (u32_small (fill d + 1)), (u32_small (3 * _)), (u32_small (size d * 2)) by lia.
  pose proof (commit_stored d key i v Hwf ltac:(lia) Hres ltac:(lia)) as Hst.
  destruct (negb (is_live (slot_at d i)) && (3 * (fill d + 1) >=? size d * 2)) eqn:Hgrow.
  - destruct (dict_resize_spec o2 d Hwf Hrange) as (rc & d1 & o3 & -> & Hrc & Ho3). cbn.
    destruct Hrc as [[-> Hr] | [-> ->]]; cbn [Z.eqb negb].
    2:{ exists (-1), d, o3. split_and!; [done | by right |]. intros Ho. by destruct Ho3; auto. }
    destruct Hr as [-> Hhalf | Hwf1 Hnt1 Hm1 Hu1 Hf1 Hhalf].
    + rewrite Hi. cbn. eexists 0, _, o3. split_and!; [done | left; split; [done |] | intros Ho; by destruct Ho3; auto].
      apply Hst. intros Ht. pose proof (same_room d Hwf Hhalf Ht). destruct (is_live _); lia.
    + destruct (grown_stored d d1 key v) as (i1 & -> & Hst1); [done.. |]. cbn. eexists 0, _, o3.
      split_and!; [done | by left | intros Ho; by destruct Ho3; auto].
  - eexists 0, _, o2. split_and!; [done | left; split; [done |] | auto]. apply Hst. intros _.
    apply andb_false_iff in Hgrow as [Hlive%negb_false_iff | Hlt]; [rewrite Hlive; lia | destruct (is_live _); lia].
Qed.

(** ** Reading *)

Section reading.
Context (d : dict) (Hwf : dict_wf d).

Lemma dict_map_lookup s v :
  dict_map d !! s = Some v <-> exists i h, table d !! i = Some (Keypair (KStr s) v h).
Proof. apply (tab_map_lookup (size d)), Hwf. Qed.

Lemma lookup_result_map key i :
  0 <= i -> lookup_result d key i ->
  match dict_map d !! key with
  | Some v => slot_at d i = Keypair (KStr key) v (dict_hash key)
  | None => is_live (slot_at d i) = false
  end.
Proof.
  intros Hi [v Hv | kp Hkp Hl _ Ha]; unfold slot_at.
  - rewrite (list_lookup_total_correct _ _ _ Hv).
    assert (dict_map d !! key = Some v) as -> by (apply dict_map_lookup; eauto). done.
  - rewrite (list_lookup_total_correct _ _ _ Hkp).
    apply (tab_map_absent (size d)) in Ha; [| apply Hwf]. unfold dict_map. by rewrite Ha.
Qed.

Hypothesis Hnull : has_null (table d).

Lemma dict_lookup_map key :
  exists i, dict_lookup d None key (dict_hash key) = Some i /\ 0 <= i < size d /\
    match dict_map d !! key with
    | Some v => slot_at d i = Keypair (KStr key) v (dict_hash key)
    | None => is_live (slot_at d i) = false
    end.
Proof.
  destruct (dict_lookup_spec d key (wf_tab _ Hwf) Hnull) as (i & Hi & Hir & Hres).
  exists i. split_and!; [done | lia | lia |]. apply lookup_result_map; [lia | done].
Qed.

Ltac by_lookup key :=
  destruct (dict_lookup_map key) as (i & Hi & _ & Hm); rewrite Hi; cbn [mbind option_bind];
  destruct (dict_map d !! key) as [v |];
  [rewrite Hm | unfold is_live in Hm |- *; destruct (kp_key (slot_at d i))]; try done.

Lemma dict_get_kp_map key :
  dict_get_kp (Some d) (Some key) =
  Some ((fun v => Keypair (KStr key) v (dict_hash key)) <$> dict_map d !! key).
Proof. unfold dict_get_kp. by_lookup key. Qed.

Lemma dict_get_map key def :
  dict_get (Some d) (Some key) def =
  Some (match dict_map d !! key with Some (VStr s) => s | _ => def end).
Proof. unfold dict_get. by_lookup key. by destruct v. Qed.

Lemma dict_get_type_map key :
  dict_get_type (Some d) (Some key) =
  Some (match dict_map d !! key with Some v => type_of v | None => VAL_END end).
Proof. unfold dict_get_type. by_lookup key. Qed.

Lemma dict_get_ptr_map key def :
  dict_get_ptr (Some d) (Some key) def =
  Some (match dict_map d !! key with Some (VPtr p) => p | _ => def end).
Proof.
  unfold dict_get_ptr. rewrite dict_get_kp_map. cbn.
  destruct (dict_map d !! key) as [v |]; cbn; [by destruct v | done].
Qed.

Lemma dict_map_size : Z.of_nat (base.size (dict_map d)) = used d.
Proof. rewrite (wf_used _ Hwf). apply (tab_map_size (size d)), Hwf. Qed.

End reading.

(** ** Deleting *)

Lemma dict_del_spec d key :
  dict_wf d -> has_null (table d) ->
  exists rc d', dict_del d (Some key) = Some (rc, d') /\
    ((rc = 0 /\ is_Some (dict_map d !! key) /\ dict_wf d' /\ dict_map d' = delete key (dict_map d) /\
      has_null (table d') /\ fill d' = fill d /\ tombs (table d') = tombs (table d) + 1) \/
     (rc = -1 /\ dict_map d !! key = None /\ d' = d)).
Proof.
  intros Hwf Hnull. pose proof (wf_tab _ Hwf) as Hok.
  destruct (dict_lookup_spec d key Hok Hnull) as (i & Hi & Hir & Hres).
  unfold dict_del. rewrite Hi. cbn [mbind option_bind].
  destruct Hres as [v Hv | kp Hkp Hl _ Ha].
  2:{ assert (slot_at d i = kp) as Hs by (by apply list_lookup_total_correct).
      exists (-1), d. rewrite Hs, Hl. split; [done |]. right. split_and!; [done | | done].
      by apply (tab_map_absent (size d)). }
  assert (slot_at d i = Keypair (KStr key) v (dict_hash key)) as Hs by (by apply list_lookup_total_correct).
  rewrite Hs. cbn [is_live kp_key negb]. set (x := dict_free_value _).
  assert (Hx : nonnull x = true /\ is_live x = false /\ forall s w h, x <> Keypair (KStr s) w h) by done.
  destruct Hx as (Hx1 & Hx2 & Hx3).
  assert (Hok' : tab_ok (size d) (<[Z.to_nat i := x]> (table d))).
  { apply tab_ok_set; [done | done |]. intros s w h Heq. by destruct (Hx3 s w h). }
  pose proof (count_if_insert is_live _ _ _ x Hv) as Hl'.
  pose proof (count_if_insert nonnull _ _ _ x Hv) as Ho'. rewrite Hx2 in Hl'. rewrite Hx1 in Ho'.
  cbn [is_live nonnull is_null kp_key negb] in Hl', Ho'.
  pose proof (count_if_member is_live _ _ _ Hv) as Hpos. cbn in Hpos.
  pose proof (count_if_bounds is_live (table d)) as Hb. pose proof (wf_used _ Hwf) as Hused.
  unfold live_count in Hused. pose proof (wf_fill _ Hwf) as Hfill. unfold occupied in Hfill.
  pose proof (ok_length _ _ Hok) as Hlen.
  destruct (ok_size _ _ Hok) as (k & Hk & Hsz).
  assert (2 ^ Z.of_nat k <= 2 ^ 30) by (apply Z.pow_le_mono_r; lia).
  eexists 0, _. split; [done |]. left. cbn [fill used size table set_slot].
  split_and!; [done | exists v; apply (dict_map_lookup d Hwf); eauto | | | | done |].
  - split; cbn [fill used size table]; [done | | unfold occupied; lia].
    unfold live_count. rewrite u32_small by lia. lia.
  - unfold dict_map. cbn [table]. by eapply tab_map_set_dead.
  - apply occupied_has_null. rewrite length_insert. unfold occupied. rewrite Ho'.
    apply has_null_occupied in Hnull. unfold occupied in Hnull. lia.
  - unfold tombs, live_count, occupied. lia.
Qed.

(** ** Enumeration *)

(** The loop over a dictionary as a fold over the list of its entries. *)
Fixpoint fold_body {S : Type} (l : list (bstr * value)) (body : bstr -> value -> S -> option (bool * S))
    (s : S) : option (bool * S) :=
  match l with
  | [] => Some (true, s)
  | (k, v) :: l =>
      '(go, s) ← body k v s;
      if go : bool then fold_body l body s else Some (false, s)
  end.

Section enumerating.
Context (d : dict) (Hwf : dict_wf d).

Lemma size_bounds : 8 <= size d <= 2 ^ 30.
Proof.
  destruct (ok_size _ _ (wf_tab _ Hwf)) as (k & Hk & ->). change 8 with (2 ^ 3).
  split; apply Z.pow_le_mono_r; lia.
Qed.

Lemma i32_size : i32 (size d) = size d.
Proof. pose proof size_bounds. unfold i32, swrap. rewrite Z.mod_small by lia. lia. Qed.

Lemma length_table : Z.of_nat (length (table d)) = size d.
Proof. apply ok_length, wf_tab, Hwf. Qed.

Lemma entries_drop_dead n kp :
  table d !! n = Some kp -> is_live kp = false ->
  tab_entries (drop n (table d)) = tab_entries (drop (S n) (table d)).
Proof.
  intros Hn Hl. rewrite (drop_S _ _ _ Hn). unfold tab_entries. cbn.
  destruct kp as [[]]; done.
Qed.

Lemma enum_skip_spec fuel n :
  (n <= length (table d))%nat -> (length (table d) - n <= fuel)%nat ->
  exists m, enum_skip fuel d (Z.of_nat n) = Z.of_nat m /\ (n <= m <= length (table d))%nat /\
    tab_entries (drop n (table d)) = tab_entries (drop m (table d)) /\
    (m = length (table d) \/ exists s v h, table d !! m = Some (Keypair (KStr s) v h)).
Proof.
  revert n. induction fuel as [| fuel IH]; intros n Hn Hf.
  { exists n. cbn. split_and!; [done | lia | lia | done | left; lia]. }
  cbn [enum_skip]. rewrite i32_size. pose proof length_table as Hlen.
  destruct (Z.ltb_spec (Z.of_nat n) (size d)) as [Hlt | Hge]; cbn [andb].
  2:{ exists n. split_and!; [done | lia | lia | done | left; lia]. }
  destruct (lookup_lt_is_Some_2 (table d) n) as [kp Hkp]; [lia |].
  unfold slot_at. rewrite Nat2Z.id, (list_lookup_total_correct _ _ _ Hkp).
  destruct (is_live kp) eqn:Hl; cbn [negb].
  - exists n. split_and!; [done | lia | lia | done | right]. destruct kp as [[] v h]; [done.. |]. eauto.
  - replace (Z.of_nat n + 1) with (Z.of_nat (S n)) by lia.
    destruct (IH (S n)) as (m & Hm & Hr & He & Hend); [lia.. |]. exists m.
    rewrite (entries_drop_dead _ _ Hkp Hl). split_and!; [done | lia | lia | done | done].
Qed.

Lemma enumerate_typed_spec n :
  (n <= length (table d))%nat ->
  match tab_entries (drop n (table d)) with
  | [] => dict_enumerate_typed (Some d) (Z.of_nat n) = (-1, None)
  | (s, v) :: l => exists m, (n < m <= length (table d))%nat /\
      dict_enumerate_typed (Some d) (Z.of_nat n) = (Z.of_nat m, Some (s, v)) /\
      tab_entries (drop m (table d)) = l
  end.
Proof.
  intros Hn. pose proof length_table as Hlen.
  destruct (enum_skip_spec (Z.to_nat (size d)) n) as (m & Hskip & Hr & -> & Hend); [done | lia |].
  unfold dict_enumerate_typed. rewrite (proj2 (Z.ltb_ge _ _)) by lia. rewrite Hskip, i32_size.
  destruct Hend as [-> | (s & v & h & Hm)].
  - rewrite drop_all. cbn. by rewrite (proj2 (Z.leb_le _ _)) by lia.
  - apply lookup_lt_Some in Hm as Hlt. rewrite (drop_S _ _ _ Hm). unfold tab_entries at 1. cbn.
    rewrite (proj2 (Z.leb_gt _ _)) by lia. unfold slot_at.
    rewrite Nat2Z.id, (list_lookup_total_correct _ _ _ Hm). exists (S m).
    split_and!; [lia | lia | do 2 f_equal; lia | done].
Qed.

Lemma enum_loop_spec {S : Type} fuel n (body : bstr -> value -> S -> option (bool * S)) s :
  (n <= length (table d))%nat -> (length (table d) - n < fuel)%nat ->
  enum_loop fuel d (Z.of_nat n) body s = fold_body (tab_entries (drop n (table d))) body s.
Proof.
  revert n s. induction fuel as [| fuel IH]; intros n s Hn Hf; [lia |]. cbn [enum_loop].
  pose proof (enumerate_typed_spec n Hn) as Henum.
  destruct (tab_entries (drop n (table d))) as [| [k v] l]; [by rewrite Henum |].
  destruct Henum as (m & Hm & -> & Hl). cbn [fold_body].
  destruct (body k v s) as [[[] s'] |]; cbn; [| done..]. rewrite IH by lia. by rewrite Hl.
Qed.

(** The loop visits every entry once, in table order. *)
Lemma enum_all_spec {S : Type} (body : bstr -> value -> S -> option (bool * S)) s :
  enum_all d body s = fold_body (dict_entries d) body s.
Proof.
  unfold enum_all. change 0 with (Z.of_nat 0). by rewrite enum_loop_spec by lia.
Qed.

Lemma entries_map : list_to_map (dict_entries d) = dict_map d.
Proof. done. Qed.

Lemma entries_nodup : NoDup (dict_entries d).*1.
Proof. apply entries_NoDup. apply Hwf. Qed.

Lemma entries_length : Z.of_nat (length (dict_entries d)) = used d.
Proof.
  rewrite <- (dict_map_size d Hwf). unfold dict_map, tab_map.
  by rewrite map_size_list_to_map by apply entries_nodup.
Qed.

End enumerating.

(** ** Sequences of stores: merge, clone, difference *)

(** A dictionary without tombstones that has room for [n] more stores. *)
Record store_ready (n : Z) (d : dict) : Prop := {
  sr_wf : dict_wf d;
  sr_no_tomb : no_tomb (table d);
  sr_null : has_null (table d);
  sr_fill : fill d + n < 2 ^ 30;
  sr_used : used d + n < 2 ^ 28
}.

Lemma empty_ready n : n < 2 ^ 28 -> store_ready n empty_dict.
Proof.
  intros Hn. split; [apply (fresh_wf 3); lia | apply replicate_no_tomb | by exists 0%nat, zero_kp |..];
    cbn; lia.
Qed.

Lemma store_ready_mono n m d : m <= n -> store_ready n d -> store_ready m d.
Proof. intros Hle [H1 H2 H3 H4 H5]. split; auto with lia. Qed.

Lemma dict_store_ready n o d key v :
  store_ready n d -> 1 <= n ->
  exists rc d' o', dict_store o d (Some key) (Some v) = Some (rc, d', o') /\
    ((rc = 0 /\ store_ready (n - 1) d' /\ dict_map d' = <[key := v]> (dict_map d)) \/
     (rc = -1 /\ d' = d)) /\ (o = [] -> rc = 0 /\ o' = []).
Proof.
  intros [Hwf Hnt Hnull Hf Hu] Hn.
  destruct (dict_store_spec o d key v Hwf Hnull) as (rc & d' & o' & Hs & Hres & Ho); [split; lia |].
  exists rc, d', o'. split_and!; [done | | done].
  destruct Hres as [[-> [Hwf' Hm Hf' Hnt' _ Hnull']] | Hres]; [left | by right].
  split_and!; [done | | done]. pose proof (no_tomb_tombs _ Hnt).
  split; [done | auto | apply Hnull'; lia | lia |]. rewrite <- dict_map_size, Hm by done.
  pose proof (dict_map_size d Hwf) as Hsz. destruct (dict_map d !! key) as [w |] eqn:Hk.
  - rewrite map_size_insert_Some by (rewrite Hk; eauto). lia.
  - rewrite map_size_insert_None by done. lia.
Qed.

(** A loop body that stores [f k v] under the enumerated key, or skips it. *)
Definition store_body (f : bstr -> value -> option value) (k : bstr) (v : value) (s : dict * allocs)
  : option (bool * (dict * allocs)) :=
  match f k v with
  | None => Some (true, s)
  | Some w =>
      '(rc, d, o) ← dict_store s.2 s.1 (Some k) (Some w);
      Some (rc =? 0, (d, o))
  end.

Lemma fold_body_ext {S : Type} l (f g : bstr -> value -> S -> option (bool * S)) s :
  (forall k v s, f k v s = g k v s) -> fold_body l f s = fold_body l g s.
Proof.
  intros Hfg. revert s. induction l as [| [k v] l IH]; intros s; [done |]. cbn [fold_body].
  rewrite Hfg. destruct (g k v s) as [[[] s'] |]; cbn; auto.
Qed.

(** The map after the loop, key by key. *)
Definition store_map (f : bstr -> value -> option value) (l : list (bstr * value)) (m : gmap bstr value)
    (k : bstr) : option value :=
  match (list_to_map l : gmap bstr value) !! k with
  | Some v => match f k v with Some w => Some w | None => m !! k end
  | None => m !! k
  end.

Lemma store_fold f l n o dst :
  store_ready n dst -> Z.of_nat (length l) <= n -> NoDup l.*1 ->
  exists ok dst' o', fold_body l (store_body f) (dst, o) = Some (ok, (dst', o')) /\
    store_ready (n - Z.of_nat (length l)) dst' /\
    (ok = true -> forall k, dict_map dst' !! k = store_map f l (dict_map dst) k) /\
    (o = [] -> ok = true /\ o' = []).
Proof.
  revert n o dst. induction l as [| [k v] l IH]; intros n o dst Hsr Hn Hnd.
  { exists true, dst, o. cbn [fold_body length]. split_and!; [done | by rewrite Z.sub_0_r | | done].
    intros _ k. unfold store_map. by rewrite list_to_map_nil, lookup_empty. }
  cbn [length] in *. apply NoDup_cons in Hnd as [Hk Hnd].
  assert (Hstep : exists ok1 d1 o1, store_body f k v (dst, o) = Some (ok1, (d1, o1)) /\
    store_ready (n - 1) d1 /\
    (ok1 = true -> dict_map d1 = match f k v with Some w => <[k := w]> (dict_map dst) | None => dict_map dst end) /\
    (o = [] -> ok1 = true /\ o1 = [])).
  { unfold store_body. destruct (f k v) as [w |].
    - destruct (dict_store_ready n o dst k w Hsr ltac:(lia)) as (rc & d1 & o1 & Hs & Hres & Ho1).
      cbn [fst snd]. rewrite Hs. cbn. exists (rc =? 0), d1, o1. split; [done |].
      destruct Hres as [(-> & Hsr1 & Hm1) | (-> & ->)]; split_and!; auto; try done.
      + intros Ho. by destruct (Ho1 Ho).
      + eapply store_ready_mono; [| done]. lia.
      + intros Ho. by destruct (Ho1 Ho).
    - exists true, dst, o. split_and!; auto. eapply store_ready_mono; [| done]. lia. }
  destruct Hstep as (ok1 & d1 & o1 & Hb & Hsr1 & Hm1 & Ho1). cbn [fold_body]. rewrite Hb. cbn.
  destruct ok1.
  2:{ exists false, d1, o1. split_and!; [done | | done | intros Ho; by destruct (Ho1 Ho)].
      eapply store_ready_mono; [| done]. lia. }
  destruct (IH (n - 1) o1 d1) as (ok & d' & o' & Hf & Hsr' & Hm & Ho'); [done | lia | done |].
  exists ok, d', o'. split_and!; [done | | | intros Ho; apply Ho'; by apply Ho1].
  - by replace (n - Z.of_nat (S (length l))) with (n - 1 - Z.of_nat (length l)) by lia.
  - intros Hok k'. rewrite (Hm Hok). unfold store_map. rewrite list_to_map_cons, Hm1 by done.
    destruct (decide (k' = k)) as [-> | Hne].
    + rewrite lookup_insert_eq, not_elem_of_list_to_map_1 by done.
      destruct (f k v); [by rewrite lookup_insert_eq | done].
    + rewrite lookup_insert_ne by done. destruct (f k v); [by rewrite lookup_insert_ne | done].
Qed.

Lemma dict_merge_spec n o dst src :
  store_ready n dst -> dict_wf src -> used src <= n ->
  exists rc dst' o', dict_merge o dst (Some src) = Some (rc, dst', o') /\
    store_ready (n - used src) dst' /\
    (rc = 0 -> dict_map dst' = dict_map src ∪ dict_map dst) /\
    (rc = 0 \/ rc = -1) /\ (o = [] -> rc = 0 /\ o' = []).
Proof.
  intros Hsr Hwf Hn. pose proof (entries_length src Hwf) as Hlen.
  destruct (store_fold (fun _ v => Some v) (dict_entries src) n o dst) as (ok & d' & o' & Hf & Hsr' & Hm & Ho);
    [done | lia | by apply entries_nodup |].
  unfold dict_merge. rewrite (enum_all_spec src Hwf).
  rewrite (fold_body_ext _ _ (store_body (fun _ v => Some v))), Hf by by intros k v [].
  cbn. rewrite Hlen in Hsr'.
  eexists _, d', o'. split; [done |]. split_and!; [done | | by destruct ok; auto |].
  - destruct ok; [intros _ | done]. apply map_eq. intros k. rewrite Hm by done. unfold store_map.
    rewrite lookup_union, (entries_map src). by destruct (dict_map src !! k), (dict_map dst !! k).
  - intros Hnil. by destruct (Ho Hnil) as [-> ->].
Qed.

Lemma dict_new_spec o : exists r o', dict_new o = (r, o') /\
  (r = Some empty_dict \/ r = None) /\ (o = [] -> r = Some empty_dict /\ o' = []).
Proof.
  unfold dict_new. destruct (alloc o) as [[] o1] eqn:H1; cbn [negb].
  - destruct (alloc o1) as [[] o2] eqn:H2; cbn [negb]; eexists _, _; split; try done; split; auto.
    + intros ->. injection H1 as <-. by injection H2 as <-.
    + intros ->. injection H1 as <-. done.
  - eexists _, _. split; [done |]. split; [auto |]. by intros ->.
Qed.

Lemma empty_map : dict_map empty_dict = ∅.
Proof. apply replicate_map. Qed.

Lemma dict_clone_spec o src :
  dict_wf src -> used src < 2 ^ 28 ->
  exists r o', dict_clone o (Some src) = Some (r, o') /\
    match r with
    | Some d => dict_wf d /\ no_tomb (table d) /\ has_null (table d) /\ dict_map d = dict_map src
    | None => True
    end /\ (o = [] -> is_Some r /\ o' = []).
Proof.
  intros Hwf Hu. unfold dict_clone.
  destruct (dict_new_spec o) as (r & o1 & -> & [-> | ->] & Hnew).
  2:{ exists None, o1. split_and!; [done.. |]. intros Ho. by destruct (Hnew Ho). }
  destruct (dict_merge_spec (used src) o1 empty_dict src) as (rc & d' & o2 & -> & Hsr & Hm & _ & Ho2);
    [by apply empty_ready | done | done |].
  cbn. eexists _, o2. split; [done |]. destruct (Z.eqb_spec rc 0) as [-> | Hne].
  - split; [| intros Ho; split; [eauto |]; by apply Ho2, Hnew]. destruct Hsr. split_and!; try done.
    rewrite Hm, empty_map by done. apply (right_id_L ∅ (∪)).
  - split; [done |]. intros Ho. by destruct Ho2; [apply Hnew |].
Qed.

Lemma dict_merge_new_spec o a b :
  dict_wf a -> dict_wf b -> used a + used b < 2 ^ 28 ->
  exists r o', dict_merge_new o (Some a) (Some b) = Some (r, o') /\
    match r with
    | Some d => dict_wf d /\ no_tomb (table d) /\ has_null (table d) /\ dict_map d = dict_map b ∪ dict_map a
    | None => True
    end /\ (o = [] -> is_Some r /\ o' = []).
Proof.
  intros Ha Hb Hu. unfold dict_merge_new.
  assert (0 <= used a /\ 0 <= used b) by (split; rewrite <- dict_map_size by done; lia).
  destruct (dict_new_spec o) as (r & o1 & -> & [-> | ->] & Hnew).
  2:{ exists None, o1. split_and!; [done.. |]. intros Ho. by destruct (Hnew Ho). }
  destruct (dict_merge_spec (used a + used b) o1 empty_dict a) as (rc & d1 & o2 & -> & Hsr & Hm & _ & Ho2);
    [by apply empty_ready | done | lia |].
  cbn [mbind option_bind]. destruct (Z.eqb_spec rc 0) as [-> | Hne]; cbn [negb].
  2:{ exists None, o2. split_and!; [done.. |]. intros Ho. by destruct Ho2; [apply Hnew |]. }
  destruct (dict_merge_spec (used a + used b - used a) o2 d1 b) as (rc & d2 & o3 & -> & Hsr2 & Hm2 & _ & Ho3);
    [done | done | lia |].
  cbn. eexists _, o3. split; [done |]. destruct (Z.eqb_spec rc 0) as [-> | Hne].
  - split; [| intros Ho; split; [eauto |]; by apply Ho3, Ho2, Hnew]. destruct Hsr2. split_and!; try done.
    rewrite Hm2, Hm, empty_map by done. by rewrite (right_id_L ∅ (∪)).
  - split; [done |]. intros Ho. by destruct Ho3; [apply Ho2, Hnew |].
Qed.

(** The difference of two maps: the entries of [mb] that [ma] lacks or holds
    with another type or value, and a [VNull] marker for each key [mb] lacks. *)
Definition diff_spec (ma mb : gmap bstr value) (k : bstr) : option value :=
  match mb !! k, ma !! k with
  | Some v, Some w => if dict_values_equal w v then None else Some v
  | Some v, None => Some v
  | None, Some _ => Some VNull
  | None, None => None
  end.

Definition changed_value (ma : gmap bstr value) (k : bstr) (v : value) : option value :=
  match ma !! k with
  | Some w => if dict_values_equal w v then None else Some v
  | None => Some v
  end.

Definition removed_value (mb : gmap bstr value) (k : bstr) (_ : value) : option value :=
  match mb !! k with Some _ => None | None => Some VNull end.

Lemma diff_changed_body a k v s :
  dict_wf a -> has_null (table a) -> diff_changed a k v s = store_body (changed_value (dict_map a)) k v s.
Proof.
  intros Hwf Hn. destruct s as [d o]. unfold diff_changed, dict_find_entry, store_body, changed_value.
  rewrite (dict_get_kp_map a Hwf Hn). destruct (dict_map a !! k) as [w |]; cbn; [| done].
  by destruct (dict_values_equal w v).
Qed.

Lemma diff_removed_body b k v s :
  dict_wf b -> has_null (table b) -> diff_removed b k v s = store_body (removed_value (dict_map b)) k v s.
Proof.
  intros Hwf Hn. destruct s as [d o]. unfold diff_removed, dict_find_entry, store_body, removed_value.
  rewrite (dict_get_kp_map b Hwf Hn). by destruct (dict_map b !! k).
Qed.

Lemma store_loop f src n o dst :
  dict_wf src -> store_ready n dst -> used src <= n ->
  exists ok dst' o', enum_all src (store_body f) (dst, o) = Some (ok, (dst', o')) /\
    store_ready (n - used src) dst' /\
    (ok = true -> forall k, dict_map dst' !! k =
       match dict_map src !! k with
       | Some v => match f k v with Some w => Some w | None => dict_map dst !! k end
       | None => dict_map dst !! k
       end) /\ (o = [] -> ok = true /\ o' = []).
Proof.
  intros Hwf Hsr Hn. pose proof (entries_length src Hwf) as Hlen.
  destruct (store_fold f (dict_entries src) n o dst) as (ok & d' & o' & Hf & Hsr' & Hm & Ho);
    [done | lia | by apply entries_nodup |].
  exists ok, d', o'. rewrite (enum_all_spec src Hwf), Hf. rewrite Hlen in Hsr'. split_and!; auto.
Qed.

Lemma enum_all_ext {S : Type} d (f g : bstr -> value -> S -> option (bool * S)) s :
  dict_wf d -> (forall k v s, f k v s = g k v s) -> enum_all d f s = enum_all d g s.
Proof. intros Hwf Hfg. rewrite !enum_all_spec by done. by apply fold_body_ext. Qed.

Lemma dict_diff_spec o a b :
  dict_wf a -> dict_wf b -> has_null (table a) -> has_null (table b) -> used a + used b < 2 ^ 28 ->
  exists r o', dict_diff o (Some a) (Some b) = Some (r, o') /\
    match r with
    | Some d => dict_wf d /\ has_null (table d) /\
        forall k, dict_map d !! k = diff_spec (dict_map a) (dict_map b) k
    | None => True
    end /\ (o = [] -> is_Some r /\ o' = []).
Proof.
  intros Ha Hb Hna Hnb Hu. unfold dict_diff.
  assert (0 <= used a /\ 0 <= used b) by (split; rewrite <- dict_map_size by done; lia).
  destruct (dict_new_spec o) as (r & o1 & -> & [-> | ->] & Hnew).
  2:{ exists None, o1. split_and!; [done.. |]. intros Ho. by destruct (Hnew Ho). }
  destruct (store_loop (changed_value (dict_map a)) b (used a + used b) o1 empty_dict)
    as (ok & d1 & o2 & He1 & Hsr & Hm & Ho2); [done | by apply empty_ready | lia |].
  rewrite (enum_all_ext b _ _ _ Hb (fun k v s => diff_changed_body a k v s Ha Hna)), He1.
  cbn [mbind option_bind]. destruct ok; cbn [negb].
  2:{ exists None, o2. split_and!; [done.. |]. intros Ho. by destruct Ho2; [apply Hnew |]. }
  destruct (store_loop (removed_value (dict_map b)) a (used a + used b - used b) o2 d1)
    as (ok & d2 & o3 & He2 & Hsr2 & Hm2 & Ho3); [done | done | lia |].
  rewrite (enum_all_ext a _ _ _ Ha (fun k v s => diff_removed_body b k v s Hb Hnb)), He2.
  cbn. eexists _, o3. split; [done |]. destruct ok.
  2:{ split; [done |]. intros Ho. by destruct Ho3; [apply Ho2, Hnew |]. }
  split; [| intros Ho; split; [eauto |]; by apply Ho3, Ho2, Hnew].
  destruct Hsr2. split_and!; [done.. |]. intros k. rewrite Hm2, Hm, empty_map, lookup_empty by done.
  unfold diff_spec, changed_value, removed_value. by destruct (dict_map a !! k), (dict_map b !! k); repeat case_match.
Qed.

(** ** Borrowed keys *)

Lemma same_key_alias d a key h v i :
  slot_at d a = Keypair (KStr key) v h ->
  same_key (Some a) (slot_at d i) i key h = same_key None (slot_at d i) i key h.
Proof.
  intros Ha. unfold same_key. rewrite (bool_decide_false (None = Some i)) by done. cbn.
  destruct (decide (a = i)) as [<- |]; [| by rewrite bool_decide_false by naive_solver].
  rewrite bool_decide_true, Ha by done. cbn. by rewrite Z.eqb_refl, streq_refl.
Qed.

(** Passing the stored key pointer itself takes the identity shortcut of the
    probe and ends in the same slot. *)
Lemma dict_probe_alias fuel d a key h i perturb fs v :
  slot_at d a = Keypair (KStr key) v h ->
  dict_probe fuel d (Some a) key h i perturb fs = dict_probe fuel d None key h i perturb fs.
Proof.
  intros Ha. revert i perturb fs. induction fuel as [| fuel IH]; intros i perturb fs; [done |].
  cbn [dict_probe]. destruct (kp_key _) eqn:Hk; [done | by apply IH |].
  rewrite (same_key_alias _ _ _ _ _ _ Ha). destruct (same_key None _ _ _ _); [done | by apply IH].
Qed.

Lemma dict_lookup_alias d a key v :
  slot_at d a = Keypair (KStr key) v (dict_hash key) ->
  dict_lookup d (Some a) key (dict_hash key) = dict_lookup d None key (dict_hash key).
Proof.
  intros Ha. unfold dict_lookup, dict_lookup_fuel. rewrite !(dict_probe_alias _ _ _ _ _ _ _ _ _ Ha).
  by rewrite (same_key_alias _ _ _ _ _ _ Ha).
Qed.
