(* ===== verification/DictSpec.v ===== *)
(** * The dictionary: its contract (dict.c)

    The properties of dict.c that its callers rely on, over the finite map
    [dict_map d] a dictionary stands for, and the limits of that contract: the
    probe loop needs a NULL slot, deletions use NULL slots up, and nothing
    gives them back. *)

From Stdlib Require Import SpecFloat.
From S2P Require Import Prelude Probe Dict DictTheory.

#[local] Open Scope Z_scope.

(** ** Sample dictionaries *)

Definition put (d : dict) (s : bstr) (v : value) : dict :=
  match dict_store [] d (Some s) (Some v) with Some (_, d, _) => d | None => d end.

Definition two_keys : dict := put (put empty_dict (B "host") (VInt 1)) (B "port") (VInt 2).

Lemma empty_wf : dict_wf empty_dict.
Proof. apply (fresh_wf 3). lia. Qed.

Lemma empty_null : has_null (table empty_dict).
Proof. by exists 0%nat, zero_kp. Qed.

Lemma put_ready n d s v :
  store_ready (n + 1) d -> 0 <= n ->
  store_ready n (put d s v) /\ dict_map (put d s v) = <[s := v]> (dict_map d).
Proof.
  intros Hd Hn. unfold put.
  destruct (dict_store_ready (n + 1) [] d s v Hd ltac:(lia)) as (rc & d' & o' & -> & Hres & Ho).
  destruct Hres as [(_ & Hr & Hm) | [-> _]]; [| by destruct (Ho eq_refl)].
  replace (n + 1 - 1) with n in Hr by lia. by split.
Qed.

Lemma two_keys_ready : store_ready 10 two_keys.
Proof. unfold two_keys. do 2 (apply put_ready; [| lia]). by apply empty_ready. Qed.

(** ** The map contract *)

(** Storing a key inserts it into the map, whatever the sequence of
    allocation outcomes; a store that runs out of memory reports -1 and changes
    nothing; with memory available it succeeds. *)
Theorem dict_store_inserts (o : allocs) (d : dict) (key : bstr) (v : value)
    (Hwf : dict_wf d) (Hnull : has_null (table d)) (Hrange : in_range d) :
  exists rc d' o', dict_store o d (Some key) (Some v) = Some (rc, d', o') /\
    ((rc = 0 /\ dict_wf d' /\ dict_map d' = <[key := v]> (dict_map d)) \/ (rc = -1 /\ d' = d)) /\
    (o = [] -> rc = 0).
Proof.
  destruct (dict_store_spec o d key v Hwf Hnull Hrange) as (rc & d' & o' & Hs & Hres & Ho).
  exists rc, d', o'. split_and!; [done | | by intros Hnil; destruct (Ho Hnil)].
  destruct Hres as [[-> [Hwf' Hm _ _ _ _]] | Hres]; [by left | by right].
Qed.

Lemma dict_store_inserts_witness :
  exists rc d' o', dict_store [true; false] two_keys (Some (B "port")) (Some (VStr (Some (B "80")))) = Some (rc, d', o') /\
    ((rc = 0 /\ dict_wf d' /\ dict_map d' = <[B "port" := VStr (Some (B "80"))]> (dict_map two_keys)) \/
     (rc = -1 /\ d' = two_keys)) /\ ([true; false] = [] -> rc = 0).
Proof.
  destruct two_keys_ready as [H1 H2 H3 H4 H5].
  apply (dict_store_inserts [true; false] two_keys (B "port") (VStr (Some (B "80"))) H1 H3).
  split; lia.
Defined.

(** C2: for a key that is not stored, the probe loop of [dict_lookup] returns,
    at any number of iterations, exactly when the table still has a NULL slot. *)
Theorem dict_lookup_terminates_iff_null (d : dict) (key : bstr)
    (Hwf : dict_wf d) (Habs : dict_map d !! key = None) :
  (exists fuel i, dict_lookup_fuel fuel d None key (dict_hash key) = Some i) <-> has_null (table d).
Proof.
  apply (tab_map_absent (size d)) in Habs as Ha; [| apply Hwf]. split.
  - intros (fuel & i & Hi). destruct (decide (occupied (table d) < Z.of_nat (length (table d)))) as [Hlt | Hge].
    + by apply occupied_has_null.
    + assert (dict_lookup_fuel fuel d None key (dict_hash key) = None) as Hn; [| congruence].
      apply dict_lookup_diverges; [apply Hwf | | done]. by intros ?%has_null_occupied.
  - intros Hn. destruct (dict_lookup_spec d key (wf_tab _ Hwf) Hn) as (i & Hi & _). by exists (probe_fuel d), i.
Qed.

Lemma dict_lookup_terminates_iff_null_witness :
  (exists fuel i, dict_lookup_fuel fuel empty_dict None (B "k") (dict_hash (B "k")) = Some i) <->
  has_null (table empty_dict).
Proof. apply (dict_lookup_terminates_iff_null empty_dict (B "k") empty_wf). by rewrite empty_map. Defined.

(** ** Traces *)

Inductive dict_op :=
| OpStore (key : bstr) (v : value)
| OpDel (key : bstr).

(** One call on a live dictionary, memory available. *)
Definition run_op (d : dict) (op : dict_op) : option dict :=
  match op with
  | OpStore key v => '(_, d, _) ← dict_store [] d (Some key) (Some v); Some d
  | OpDel key => '(_, d) ← dict_del d (Some key); Some d
  end.

Fixpoint run_ops (d : dict) (ops : list dict_op) : option dict :=
  match ops with
  | [] => Some d
  | op :: ops => d ← run_op d op; run_ops d ops
  end.

(** The same calls on the map. *)
Definition map_op (m : gmap bstr value) (op : dict_op) : gmap bstr value :=
  match op with
  | OpStore key v => <[key := v]> m
  | OpDel key => delete key m
  end.

Definition is_del (op : dict_op) : Prop := match op with OpDel _ => True | _ => False end.
#[export] Instance is_del_dec op : Decision (is_del op).
Proof. destruct op; apply _. Defined.

Definition deletions (ops : list dict_op) : Z := Z.of_nat (length (base.filter is_del ops)).

(** What a trace that still has [n] operations to go, [k] of them deletions, needs. *)
Record trace_ready (n k : Z) (d : dict) : Prop := {
  tr_wf : dict_wf d;
  tr_null : has_null (table d);
  tr_fill : fill d + n < 2 ^ 28;
  tr_tombs : tombs (table d) + k <= 5
}.

Lemma wf_used_fill d : dict_wf d -> used d <= fill d.
Proof.
  intros [_ Hu [Ho _]]. rewrite Hu. eapply Z.le_trans; [apply live_le_occupied | exact Ho].
Qed.

Lemma run_store_ready n k d key v :
  trace_ready n k d -> 1 <= n -> 0 <= k ->
  exists d', run_op d (OpStore key v) = Some d' /\ trace_ready (n - 1) k d' /\
    dict_map d' = <[key := v]> (dict_map d).
Proof.
  intros [Hwf Hnull Hf Ht] Hn Hk. pose proof (wf_used_fill _ Hwf).
  destruct (dict_store_spec [] d key v Hwf Hnull) as (rc & d' & o' & Hs & Hres & Ho); [split; lia |].
  destruct (Ho eq_refl) as [-> _]. cbn [run_op]. rewrite Hs. exists d'. split; [done |].
  destruct Hres as [[_ [H1 H2 H3 H4 H5 H6]] | [? _]]; [| done]. split; [| done].
  split; [done | apply H6; lia | lia | lia].
Qed.

Lemma run_del_ready n k d key :
  trace_ready n k d -> 1 <= n -> 1 <= k ->
  exists d', run_op d (OpDel key) = Some d' /\ trace_ready (n - 1) (k - 1) d' /\
    dict_map d' = delete key (dict_map d).
Proof.
  intros [Hwf Hnull Hf Ht] Hn Hk.
  destruct (dict_del_spec d key Hwf Hnull) as (rc & d' & Hs & Hres). cbn [run_op]. rewrite Hs.
  exists d'. split; [done |]. destruct Hres as [(_ & _ & Hwf' & Hm & Hn' & Hf' & Ht') | (_ & Hm & ->)].
  - split; [| done]. split; [done | done | lia | lia].
  - split; [split; [done | done | lia | lia] |]. by rewrite delete_id.
Qed.

Lemma deletions_cons op ops :
  deletions (op :: ops) = (if decide (is_del op) then 1 else 0) + deletions ops.
Proof. unfold deletions. rewrite filter_cons. case_decide; cbn [length]; lia. Qed.

Lemma run_ops_ready ops d :
  trace_ready (Z.of_nat (length ops)) (deletions ops) d ->
  exists d', run_ops d ops = Some d' /\ trace_ready 0 0 d' /\ dict_map d' = fold_left map_op ops (dict_map d).
Proof.
  revert d. induction ops as [| op ops IH]; intros d Hd; [by exists d |].
  cbn [length] in Hd. rewrite deletions_cons in Hd. cbn [run_ops fold_left].
  assert (Hpos : 0 <= deletions ops) by (unfold deletions; lia).
  assert (Hstep : exists d1, run_op d op = Some d1 /\
    trace_ready (Z.of_nat (length ops)) (deletions ops) d1 /\ dict_map d1 = map_op (dict_map d) op).
  { destruct op as [key v | key]; cbn [map_op]; destruct (decide _) as [Hd' | Hd'] in Hd; try done.
    - destruct (run_store_ready _ _ d key v Hd) as (d1 & H1 & H2 & H3); [lia.. |].
      exists d1. split_and!; [done | | done]. eapply (eq_ind _ (fun n => trace_ready n _ d1)); [done | lia].
    - destruct (run_del_ready _ _ d key Hd) as (d1 & H1 & H2 & H3); [lia.. |].
      exists d1. split_and!; [done | | done].
      replace (Z.of_nat (length ops)) with (Z.of_nat (S (length ops)) - 1) by lia.
      by replace (deletions ops) with (1 + deletions ops - 1) by lia. }
  destruct Hstep as (d1 & -> & Hd1 & Hm1). destruct (IH d1 Hd1) as (d' & Hr & Hd' & Hm').
  exists d'. split_and!; [done | done |]. by rewrite Hm', Hm1.
Qed.

(** C1: a dictionary refines a finite map: starting from [dict_new], any sequence of
    stores and at most five deletions terminates and leaves the dictionary
    that represents the map the same sequence builds. *)
Theorem dict_trace_refines_map (ops : list dict_op)
    (Hlen : Z.of_nat (length ops) < 2 ^ 28) (Hdel : deletions ops <= 5) :
  exists d, run_ops empty_dict ops = Some d /\ dict_wf d /\ has_null (table d) /\
    dict_map d = fold_left map_op ops ∅.
Proof.
  destruct (run_ops_ready ops empty_dict) as (d & Hr & [Hwf Hn _ _] & Hm).
  - split; [apply empty_wf | apply empty_null | cbn; lia |]. change (0 + deletions ops <= 5). lia.
  - exists d. by rewrite empty_map in Hm.
Qed.

Definition five_deletions : list dict_op :=
  [OpStore (B "x") VNull; OpDel (B "x"); OpStore (B "o") VNull; OpDel (B "o"); OpStore (B "c") VNull; OpDel (B "c");
   OpStore (B "f") VNull; OpDel (B "f"); OpStore (B "b") VNull; OpDel (B "b"); OpStore (B "z") VNull].

Lemma dict_trace_refines_map_witness :
  exists d, run_ops empty_dict five_deletions = Some d /\ dict_wf d /\ has_null (table d) /\
    dict_map d = fold_left map_op five_deletions ∅.
Proof. apply (dict_trace_refines_map five_deletions); [cbn; lia | vm_compute; discriminate]. Defined.

Definition six_deletions : list dict_op :=
  [OpStore (B "x") VNull; OpDel (B "x"); OpStore (B "o") VNull; OpDel (B "o"); OpStore (B "c") VNull; OpDel (B "c");
   OpStore (B "f") VNull; OpDel (B "f"); OpStore (B "b") VNull; OpDel (B "b"); OpStore (B "e") VNull; OpDel (B "e");
   OpStore (B "z") VNull; OpStore (B "a") VNull].

(** A table whose entries all sit in their home slot is well formed. *)
Definition at_home (sz : Z) (i : nat) (kp : keypair) : bool :=
  match kp with
  | Keypair (KStr s) _ h => (h =? dict_hash s) && (Z.land h (sz - 1) =? Z.of_nat i)
  | _ => true
  end.

Lemma at_home_ok k tab :
  (3 <= k <= 30)%nat -> Z.of_nat (length tab) = 2 ^ Z.of_nat k ->
  (forall i kp, tab !! i = Some kp -> at_home (2 ^ Z.of_nat k) i kp = true) -> tab_ok (2 ^ Z.of_nat k) tab.
Proof.
  intros Hk Hlen Hhome. split; [eauto | done | |].
  - intros i s v h Hi. specialize (Hhome _ _ Hi). cbn in Hhome.
    apply andb_true_iff in Hhome as [->%Z.eqb_eq Hp%Z.eqb_eq].
    split; [done |]. exists 0%nat. split; [exact Hp | lia].
  - intros i j s v v' h h' Hi Hj. apply Hhome in Hi, Hj. cbn in Hi, Hj.
    apply andb_true_iff in Hi as [->%Z.eqb_eq Hi%Z.eqb_eq], Hj as [->%Z.eqb_eq Hj%Z.eqb_eq]. lia.
Qed.

Definition full_table : list keypair :=
  [Keypair DUMMY_PTR VNull (dict_hash (B "x")); Keypair DUMMY_PTR VNull (dict_hash (B "o"));
   Keypair DUMMY_PTR VNull (dict_hash (B "c")); Keypair DUMMY_PTR VNull (dict_hash (B "f"));
   Keypair DUMMY_PTR VNull (dict_hash (B "b")); Keypair DUMMY_PTR VNull (dict_hash (B "e"));
   Keypair (KStr (B "z")) VNull (dict_hash (B "z")); Keypair (KStr (B "a")) VNull (dict_hash (B "a"))].

Lemma full_table_ok : tab_ok 8 full_table.
Proof.
  apply (at_home_ok 3); [lia | done |]. intros i kp Hi.
  do 8 (destruct i as [| i]; [injection Hi as <-; by vm_compute |]). done.
Qed.

Lemma full_table_full : ~ has_null full_table.
Proof.
  intros (i & kp & Hi & Hn). do 8 (destruct i as [| i]; [by injection Hi as <- |]). done.
Qed.

(** Five deletions is the exact limit: six deletions and eight stores on a
    new dictionary leave two live entries and no NULL slot, and looking up a key that is not
    stored then never returns. *)
Theorem dict_six_deletions_hang :
  exists d, run_ops empty_dict six_deletions = Some d /\ used d = 2 /\
    forall fuel, dict_lookup_fuel fuel d None (B "q") (dict_hash (B "q")) = None.
Proof.
  exists (Dict 8 2 8 full_table). split; [by vm_compute |]. split; [done |]. intros fuel.
  apply dict_lookup_diverges; [apply full_table_ok | apply full_table_full |].
  intros j v h Hj. do 8 (destruct j as [| j]; [by injection Hj |]). done.
Qed.

(** ** Overwriting, reading, enumerating *)

(** Storing a key that is already there changes neither the number of
    entries nor the number of occupied slots, yet adds one to [fill]: the
    counter the resize test reads drifts away from the table. *)
Theorem dict_overwrite_drifts (d : dict) (key : bstr) (v w : value)
    (Hwf : dict_wf d) (Hnull : has_null (table d)) (Hrange : in_range d) (Hkey : dict_map d !! key = Some w) :
  exists d', dict_store [] d (Some key) (Some v) = Some (0, d', []) /\
    used d' = used d /\ size d' = size d /\ occupied (table d') = occupied (table d) /\ fill d' = fill d + 1.
Proof.
  destruct Hrange as [Hfr Hur]. pose proof (wf_tab _ Hwf) as Hok.
  destruct (dict_lookup_spec d key Hok Hnull) as (i & Hi & Hir & Hres).
  pose proof (lookup_result_map d Hwf key i ltac:(lia) Hres) as Hslot. rewrite Hkey in Hslot.
  unfold dict_store. rewrite Hi. cbn [mbind option_bind alloc negb].
  pose proof (value_alloc v [] eq_refl) as Hv. cbn [alloc] in Hv. rewrite Hv. clear Hv. cbn [negb]. rewrite Hslot. cbn [is_live kp_key negb andb].
  eexists. split; [done |]. unfold dict_commit. rewrite Hslot. cbn [kp_key set_slot used fill size table].
  destruct Hres as [v' Hv | kp Hkp Hl _ _].
  2:{ unfold slot_at in Hslot. rewrite (list_lookup_total_correct _ _ _ Hkp) in Hslot. by subst. }
  pose proof (count_if_member is_live _ _ _ Hv) as Hpos. cbn in Hpos.
  pose proof (wf_used _ Hwf) as Hu. unfold live_count in Hu. pose proof (wf_used_fill _ Hwf).
  split_and!; [| done | |].
  - rewrite (u32_small (used d - 1)) by lia. rewrite u32_small by lia. lia.
  - unfold occupied. rewrite (count_if_insert _ _ _ _ _ Hv). cbn. lia.
  - rewrite u32_small by lia. lia.
Qed.

Lemma dict_overwrite_drifts_witness :
  exists d', dict_store [] two_keys (Some (B "host")) (Some VNull) = Some (0, d', []) /\
    used d' = used two_keys /\ size d' = size two_keys /\ occupied (table d') = occupied (table two_keys) /\
    fill d' = fill two_keys + 1.
Proof.
  destruct two_keys_ready as [H1 H2 H3 H4 H5].
  apply (dict_overwrite_drifts two_keys (B "host") VNull (VInt 1) H1 H3); [split; lia | by vm_compute].
Defined.

(** The string getter and the type query read the map: the stored string
    for a [VAL_STR] entry, the default for any other type or no entry, and the
    stored type or [VAL_END]. *)
Theorem dict_get_reads_map (d : dict) (key : bstr) (def : option bstr)
    (Hwf : dict_wf d) (Hnull : has_null (table d)) :
  dict_get (Some d) (Some key) def =
    Some (match dict_map d !! key with Some (VStr s) => s | _ => def end) /\
  dict_get_type (Some d) (Some key) =
    Some (match dict_map d !! key with Some v => type_of v | None => VAL_END end).
Proof. split; [by apply dict_get_map | by apply dict_get_type_map]. Qed.

Lemma dict_get_reads_map_witness :
  dict_get (Some two_keys) (Some (B "host")) (Some (B "x")) =
    Some (match dict_map two_keys !! B "host" with Some (VStr s) => s | _ => Some (B "x") end) /\
  dict_get_type (Some two_keys) (Some (B "host")) =
    Some (match dict_map two_keys !! B "host" with Some v => type_of v | None => VAL_END end).
Proof. destruct two_keys_ready as [H1 H2 H3 H4 H5]. by apply (dict_get_reads_map two_keys (B "host")). Defined.

Lemma fold_collect l acc :
  fold_body l (fun k v acc => Some (true, acc ++ [(k, v)])) acc = Some (true, acc ++ l).
Proof.
  revert acc. induction l as [| [k v] l IH]; intros acc; [by rewrite app_nil_r |].
  cbn [fold_body mbind option_bind]. by rewrite IH, <- app_assoc.
Qed.

(** The [dict_enumerate_typed] loop terminates and visits every entry of
    the map exactly once. *)
Theorem dict_enumerate_visits_once (d : dict) (Hwf : dict_wf d) :
  exists l, enum_all d (fun k v acc => Some (true, acc ++ [(k, v)])) [] = Some (true, l) /\
    NoDup l.*1 /\ list_to_map l = dict_map d.
Proof.
  exists (dict_entries d). split_and!; [| by apply entries_nodup | done].
  rewrite enum_all_spec by done. rewrite fold_collect. done.
Qed.

Lemma dict_enumerate_visits_once_witness :
  exists l, enum_all two_keys (fun k v acc => Some (true, acc ++ [(k, v)])) [] = Some (true, l) /\
    NoDup l.*1 /\ list_to_map l = dict_map two_keys.
Proof. destruct two_keys_ready as [H1 H2 H3 H4 H5]. apply (dict_enumerate_visits_once two_keys H1). Defined.

(** ** Difference and merge *)

(** Equal numbers: no NaN is equal to anything, and both zeros are one. *)
Definition same_float (a b : spec_float) : Prop :=
  match a, b with
  | S754_nan, _ | _, S754_nan => False
  | S754_zero _, S754_zero _ => True
  | _, _ => a = b
  end.

(** Values that are the same to a reader: of one type and equal, truth values by their
    truth, numbers with a point as numbers. *)
Inductive same_value : value -> value -> Prop :=
| same_null : same_value VNull VNull
| same_str s : same_value (VStr s) (VStr s)
| same_int i : same_value (VInt i) (VInt i)
| same_uint i : same_value (VUint i) (VUint i)
| same_long i : same_value (VLong i) (VLong i)
| same_ulong i : same_value (VUlong i) (VUlong i)
| same_llong i : same_value (VLlong i) (VLlong i)
| same_ullong i : same_value (VUllong i) (VUllong i)
| same_char i : same_value (VChar i) (VChar i)
| same_ptr i : same_value (VPtr i) (VPtr i)
| same_bool i j : (i = 0 <-> j = 0) -> same_value (VBool i) (VBool j)
| same_single a b : same_float a b -> same_value (VFloat a) (VFloat b)
| same_double a b : same_float a b -> same_value (VDouble a) (VDouble b).

Lemma SFeqb_same a b : SFeqb a b = true <-> same_float a b.
Proof.
  unfold SFeqb, SFcompare, same_float.
  destruct a as [[] | [] | | [] m e], b as [[] | [] | | [] m' e']; try (split; done);
    (destruct (Z.compare_spec e e') as [-> | He | He]; [| split; [done | intros [= <- <-]; lia] ..]);
    change (Pos.compare_cont Eq m m') with (m ?= m')%positive;
    (destruct (Pos.compare_spec m m') as [-> | Hm | Hm]; [done | split; [done | intros [= <-]; lia] ..]).
Qed.

Lemma dict_values_equal_same w v : dict_values_equal w v = true <-> same_value w v.
Proof.
  split.
  - destruct w, v; cbn [dict_values_equal]; try discriminate; try (intros ->%Z.eqb_eq); try (intros ->%bool_decide_eq_true);
      try (intros Hf%SFeqb_same); try (by constructor).
    intros Hb%eqb_prop. constructor. lia.
  - intros []; cbn [dict_values_equal]; try apply Z.eqb_refl; try (by apply SFeqb_same); [done | by apply bool_decide_eq_true |].
    apply eqb_true_iff. lia.
Qed.

(** A key that two dictionaries agree on. *)
Definition unchanged (x y : option value) : Prop :=
  match x, y with
  | Some w, Some v => same_value w v
  | None, None => True
  | _, _ => False
  end.

(** What merging a difference into [a] must leave under a key that [a] maps to
    [x] and [b] to [y]. *)
Definition patched (x y r : option value) : Prop :=
  match y with
  | Some v => r = Some v \/ exists w, x = Some w /\ r = Some w /\ same_value w v
  | None => r = (fun _ => VNull) <$> x
  end.

Lemma diff_spec_unchanged ma mb k : diff_spec ma mb k = None <-> unchanged (ma !! k) (mb !! k).
Proof.
  unfold diff_spec, unchanged. destruct (mb !! k) as [v |], (ma !! k) as [w |]; try done.
  rewrite <- dict_values_equal_same. by destruct (dict_values_equal w v).
Qed.

Lemma diff_used a b df :
  dict_wf a -> dict_wf b -> dict_wf df ->
  (forall k, dict_map df !! k = diff_spec (dict_map a) (dict_map b) k) -> used df <= used a + used b.
Proof.
  intros Ha Hb Hdf Hm. rewrite <- !dict_map_size by done. rewrite <- !size_dom.
  assert (dom (dict_map df) ⊆ dom (dict_map a) ∪ dom (dict_map b)) as Hsub.
  { intros k. rewrite elem_of_union, !elem_of_dom, Hm. unfold diff_spec.
    destruct (dict_map a !! k), (dict_map b !! k); intros [x Hx]; try done; eauto. }
  apply subseteq_size in Hsub.
  pose proof (size_union_alt (dom (dict_map a)) (dom (dict_map b))) as Hu.
  pose proof (subseteq_size (dom (dict_map b) ∖ dom (dict_map a)) (dom (dict_map b)) ltac:(set_solver)). lia.
Qed.

(** C3: a difference is a patch: merging [dict_diff(a, b)] into [a] gives
    every key of [b] its value in [b] and marks every key only [a] has as NULL; and it
    holds exactly the keys whose values differ or that one of the two lacks. *)
Theorem dict_diff_patches (n : Z) (a b : dict)
    (Ha : store_ready n a) (Hb : dict_wf b) (Hbn : has_null (table b))
    (Hn : used a + used b <= n) :
  exists df a', dict_diff [] (Some a) (Some b) = Some (Some df, []) /\
    dict_merge [] a (Some df) = Some (0, a', []) /\
    (forall k, patched (dict_map a !! k) (dict_map b !! k) (dict_map a' !! k)) /\
    (forall k, dict_map df !! k = None <-> unchanged (dict_map a !! k) (dict_map b !! k)).
Proof.
  pose proof Ha as [Hwf Hnt Hnull Hf Hu].
  assert (0 <= used a) by (rewrite <- dict_map_size by done; lia).
  destruct (dict_diff_spec [] a b) as (r & o' & Hd & Hr & Ho); [done.. | lia |].
  destruct (Ho eq_refl) as [[df ->] ->]. destruct Hr as (Hdf & Hdn & Hm).
  pose proof (diff_used a b df Hwf Hb Hdf Hm) as Hud.
  destruct (dict_merge_spec n [] a df Ha Hdf) as (rc & a' & o' & Hmg & _ & Hmm & _ & Ho'); [lia |].
  destruct (Ho' eq_refl) as [-> ->]. exists df, a'. split_and!; [done.. | |]; intros k.
  2: by rewrite Hm, diff_spec_unchanged.
  rewrite Hmm by done. rewrite lookup_union, Hm. unfold diff_spec, patched.
  destruct (dict_map b !! k) as [v |], (dict_map a !! k) as [w |]; cbn; auto.
  destruct (dict_values_equal w v) eqn:He; cbn; [| eauto]. apply dict_values_equal_same in He. eauto.
Qed.

Definition other_keys : dict := put (put empty_dict (B "host") (VInt 1)) (B "user") (VInt 3).

Definition call_signs : dict := put (put empty_dict (B "call") (VStr (Some (B "N0CALL")))) (B "mode") (VStr (Some (B "usb"))).
Definition other_calls : dict := put (put empty_dict (B "call") (VStr (Some (B "K1ABC")))) (B "mode") (VStr (Some (B "usb"))).

(** Another call sign, and the same mode. *)
Lemma dict_diff_patches_witness :
  exists df a', dict_diff [] (Some call_signs) (Some other_calls) = Some (Some df, []) /\
    dict_merge [] call_signs (Some df) = Some (0, a', []) /\
    dict_map df !! B "mode" = None /\ dict_map a' !! B "call" = Some (VStr (Some (B "K1ABC"))).
Proof.
  assert (Hc : store_ready 10 call_signs) by (unfold call_signs; do 2 (apply put_ready; [| lia]); by apply empty_ready).
  assert (Ho : store_ready 0 other_calls) by (unfold other_calls; do 2 (apply put_ready; [| lia]); by apply empty_ready).
  destruct Ho as [Hwf _ Hnull _ _]. destruct (dict_diff_patches 10 call_signs other_calls Hc Hwf Hnull ltac:(vm_compute; discriminate)) as (df & a' & Hd & Hm & Hp & Hu).
  assert (dict_map call_signs !! B "mode" = Some (VStr (Some (B "usb"))) /\ dict_map other_calls !! B "mode" = Some (VStr (Some (B "usb"))) /\
    dict_map call_signs !! B "call" = Some (VStr (Some (B "N0CALL"))) /\ dict_map other_calls !! B "call" = Some (VStr (Some (B "K1ABC")))) as (E1 & E2 & E3 & E4)
    by (split_and!; vm_compute; reflexivity).
  specialize (Hu (B "mode")). rewrite E1, E2 in Hu. specialize (Hp (B "call")). rewrite E3, E4 in Hp.
  exists df, a'. split; [exact Hd |]. split; [exact Hm |]. split; [apply Hu; constructor |].
  destruct Hp as [Hk | (w & Hw & _ & Hs)]; [exact Hk |]. injection Hw as <-. inversion Hs.
Defined.
