(* ===== verification/DictGet.v ===== *)
(** * The dictionary's typed readers (dict.c)

    [dict_get_bool] to [dict_get_float] convert the stored value to the type
    asked for when it fits and return the caller's default otherwise;
    [dict_get_exp] expands [${name}] references; [dict_dump] prints. *)

From S2P Require Import Prelude CString CFloat Dict DictTheory.

#[local] Open Scope Z_scope.

(** ** Strings as values *)

Definition parse_bool_string (s : option bstr) : option bool :=
  match s with
  | None => None
  | Some s =>
      if strcaseeq s (B "true") || strcaseeq s (B "yes") || strcaseeq s (B "on") || streq s (B "1") then Some true
      else if strcaseeq s (B "false") || strcaseeq s (B "no") || strcaseeq s (B "off") || streq s (B "0") then Some false
      else None
  end.

(** [ep == s] for an end pointer [ep] into [s]. *)
Definition same_ptr (ep s : bstr) : bool := Nat.eqb (length ep) (length s).

Definition at_end (ep : bstr) : bool := match ep with [] => true | _ => false end.

Definition parse_ll (s : option bstr) : option Z :=
  match s with
  | None => None
  | Some s =>
      let r := strtoll s in
      let ep := skip_space (st_end r) in
      if st_erange r || same_ptr ep s || negb (at_end ep) then None else Some (st_value r)
  end.

Definition parse_ull (s : option bstr) : option Z :=
  match s with
  | None => None
  | Some s =>
      let r := strtoull s in
      let ep := skip_space (st_end r) in
      if st_erange r || same_ptr ep s || negb (at_end ep) then None else Some (st_value r)
  end.

Definition parse_double (s : option bstr) : option spec_float :=
  match s with
  | None => None
  | Some s =>
      let r := strtod s in
      let ep := skip_space (sd_end r) in
      if sd_erange r || same_ptr ep s || negb (at_end ep) || negb (isfinite (sd_value r)) then None
      else Some (sd_value r)
  end.

(** ** Conversions: [None] is the [break] that leads to the default *)

Definition when (b : bool) (z : Z) : option Z := if b then Some z else None.

(** [parse(...) && test(v)] *)
Definition parsed (p : option Z) (test : Z -> bool) : option Z := z ← p; when (test z) z.

Definition truth (z : Z) : Z := if z =? 0 then 0 else 1.

Definition as_bool (v : value) : option bool :=
  match v with
  | VBool z | VInt z | VUint z | VLong z | VUlong z | VLlong z | VUllong z | VChar z => Some (negb (z =? 0))
  | VFloat f | VDouble f => Some (nonzero f)
  | VStr s => parse_bool_string s
  | _ => None
  end.

(** [isfinite(dv) && dv >= lo && dv <= hi], then a truncating cast. *)
Definition float_le (dv : spec_float) (lo hi : Z) : option Z :=
  when (isfinite dv && SFleb (f64_of_Z lo) dv && SFleb dv (f64_of_Z hi)) (trunc dv).

(** The same with a strict upper bound. *)
Definition float_lt (dv : spec_float) (lo hi : Z) : option Z :=
  when (isfinite dv && SFleb (f64_of_Z lo) dv && SFltb dv (f64_of_Z hi)) (trunc dv).

Definition as_int (v : value) : option Z :=
  match v with
  | VInt i => Some i
  | VUint z | VUlong z | VUllong z => when (z <=? INT_MAX) z
  | VLong z | VLlong z => when ((INT_MIN <=? z) && (z <=? INT_MAX)) z
  | VFloat f => float_le (f64_of_f32 f) INT_MIN INT_MAX
  | VDouble d => float_le d INT_MIN INT_MAX
  | VChar c => Some c
  | VBool i => Some (truth i)
  | VStr s =>
      match parsed (parse_ll s) (fun v => (INT_MIN <=? v) && (v <=? INT_MAX)) with
      | Some v => Some v
      | None => parsed (parse_ull s) (fun uv => uv <=? INT_MAX)
      end
  | _ => None
  end.

Definition as_uint (v : value) : option Z :=
  match v with
  | VUint z => Some z
  | VInt z => when (0 <=? z) z
  | VLong z | VLlong z => when ((0 <=? z) && (z <=? UINT_MAX)) z
  | VUlong z | VUllong z => when (z <=? UINT_MAX) z
  | VFloat f => float_le (f64_of_f32 f) 0 UINT_MAX
  | VDouble d => float_le d 0 UINT_MAX
  | VBool i => Some (truth i)
  | VChar c => Some (c mod 256)
  | VStr s =>
      match parsed (parse_ull s) (fun uv => uv <=? UINT_MAX) with
      | Some v => Some v
      | None => parsed (parse_ll s) (fun sv => (0 <=? sv) && (sv <=? UINT_MAX))
      end
  | _ => None
  end.

Definition as_ulong (v : value) : option Z :=
  match v with
  | VUlong z | VUint z => Some z
  | VInt z | VLong z | VLlong z => when (0 <=? z) z
  | VUllong z => when (z <=? ULONG_MAX) z
  | VFloat f => float_lt (f64_of_f32 f) 0 (ULONG_MAX + 1)
  | VDouble d => float_lt d 0 (ULONG_MAX + 1)
  | VBool i => Some (truth i)
  | VStr s =>
      match parsed (parse_ull s) (fun uv => uv <=? ULONG_MAX) with
      | Some v => Some v
      | None => parsed (parse_ll s) (fun sv => (0 <=? sv) && (sv <=? ULONG_MAX))
      end
  | _ => None
  end.

Definition as_long (v : value) : option Z :=
  match v with
  | VLong z | VInt z | VUint z => Some z
  | VUlong z | VUllong z => when (z <=? LONG_MAX) z
  | VLlong z => when ((LONG_MIN <=? z) && (z <=? LONG_MAX)) z
  | VFloat f => float_lt (f64_of_f32 f) LONG_MIN (- LONG_MIN)
  | VDouble d => float_lt d LONG_MIN (- LONG_MIN)
  | VBool i => Some (truth i)
  | VStr s => parsed (parse_ll s) (fun v => (LONG_MIN <=? v) && (v <=? LONG_MAX))
  | _ => None
  end.

Definition as_llong (v : value) : option Z :=
  match v with
  | VLlong z | VInt z | VUint z | VLong z => Some z
  | VUlong z | VUllong z => when (z <=? LLONG_MAX) z
  | VFloat f => float_lt (f64_of_f32 f) LLONG_MIN (- LLONG_MIN)
  | VDouble d => float_lt d LLONG_MIN (- LLONG_MIN)
  | VBool i => Some (truth i)
  | VStr s =>
      match parse_ll s with
      | Some v => Some v
      | None => parsed (parse_ull s) (fun uv => uv <=? LLONG_MAX)
      end
  | _ => None
  end.

Definition as_ullong (v : value) : option Z :=
  match v with
  | VUllong z | VUint z | VUlong z => Some z
  | VLlong z | VInt z | VLong z => when (0 <=? z) z
  | VFloat f => float_lt (f64_of_f32 f) 0 (ULLONG_MAX + 1)
  | VDouble d => float_lt d 0 (ULLONG_MAX + 1)
  | VBool i => Some (truth i)
  | VChar c => Some (c mod 256)
  | VStr s => parse_ull s
  | _ => None
  end.

(** [(char)f].  Out of the range of [int] the C result is undefined; the hosts
    the project builds for yield 0. *)
Definition char_of_float (f : spec_float) : Z :=
  if isfinite f && (INT_MIN <=? trunc f) && (trunc f <=? INT_MAX) then swrap 8 (trunc f) else 0.

Definition as_char (v : value) : option Z :=
  match v with
  | VChar c => Some c
  | VBool i => Some (truth i)
  | VInt z | VUint z | VLong z | VUlong z | VLlong z | VUllong z => Some (swrap 8 z)
  | VFloat f | VDouble f => Some (char_of_float f)
  | VStr s =>
      match parse_ll s, s with
      | Some v, _ => Some (swrap 8 v)
      | None, Some [c] => Some (schar c)
      | None, _ => None
      end
  | _ => None
  end.

Definition as_double (v : value) : option spec_float :=
  match v with
  | VDouble d => Some d
  | VFloat f => Some (f64_of_f32 f)
  | VInt z | VUint z | VLong z | VUlong z | VLlong z | VUllong z | VChar z => Some (f64_of_Z z)
  | VBool i => Some (f64_of_Z (truth i))
  | VStr s => parse_double s
  | _ => None
  end.

(** ** The readers *)

(** [if (!dict_get_kp(d, key, &kp)) return def; switch (kp->val_type) ...] *)
Definition get_as {A : Type} (conv : value -> option A) (d : option dict) (key : option bstr) (def : A) : option A :=
  kp ← dict_get_kp d key;
  Some (default def (kp ← kp; conv (kp_val kp))).

Definition dict_get_bool : option dict -> option bstr -> bool -> option bool := get_as as_bool.
Definition dict_get_int : option dict -> option bstr -> Z -> option Z := get_as as_int.
Definition dict_get_uint : option dict -> option bstr -> Z -> option Z := get_as as_uint.
Definition dict_get_ulong : option dict -> option bstr -> Z -> option Z := get_as as_ulong.
Definition dict_get_long : option dict -> option bstr -> Z -> option Z := get_as as_long.
Definition dict_get_llong : option dict -> option bstr -> Z -> option Z := get_as as_llong.
Definition dict_get_time_t : option dict -> option bstr -> Z -> option Z := dict_get_llong.
Definition dict_get_ullong : option dict -> option bstr -> Z -> option Z := get_as as_ullong.
Definition dict_get_char : option dict -> option bstr -> Z -> option Z := get_as as_char.
Definition dict_get_double : option dict -> option bstr -> spec_float -> option spec_float := get_as as_double.

Definition dict_get_float (d : option dict) (key : option bstr) (def : spec_float) : option spec_float :=
  v ← dict_get_double d key (f64_of_f32 def);
  Some (if negb (isfinite v) || SFltb FLT_MAX v || SFltb v (SFopp FLT_MAX) then def else f32_of_f64 v).

(** ** Expansion of references *)

Definition MAX_CFG_EXP_STRLEN : nat := Z.to_nat 65535.
Definition MAX_CFG_EXP_RECURSION : nat := 6.
Definition KEYBUF : nat := 256.

Section expansion.
(** [cfg_get] of config.c, which reads the running configuration; the outer
    option is termination. *)
Variable cfg_get : bstr -> option (option bstr).

(** One pass: [dst] is what has been written to [tmp], [src] what is left. *)
Fixpoint expand_pass (fuel : nat) (src dst : bstr) (changed : bool) : option (bstr * bool) :=
  match fuel with
  | O => None
  | S fuel =>
      match src with
      | [] => Some (dst, changed)
      | c :: src' =>
          if Nat.leb (MAX_CFG_EXP_STRLEN - 1) (length dst) then Some (dst, changed)
          else
            let reference :=
              match src' with
              | c' :: body => if bool_decide (c = "$"%char) && bool_decide (c' = "{"%char) then split_at body "}"%char else None
              | [] => None
              end in
            match reference with
            | Some (name, rest) =>
                val ← cfg_get (take (KEYBUF - 1) name);
                match val with
                | Some val =>
                    let vlen :=
                      if Nat.leb (MAX_CFG_EXP_STRLEN - 1) (length dst + length val)
                      then (MAX_CFG_EXP_STRLEN - 1 - length dst)%nat else length val in
                    expand_pass fuel rest (dst ++ take vlen val) true
                | None => expand_pass fuel rest dst changed
                end
            | None => expand_pass fuel src' (dst ++ [c]) changed
            end
      end
  end.

(** The passes, until one changes nothing or the limit is reached. *)
Fixpoint expand_passes (depth : nat) (buf : bstr) : option bstr :=
  match depth with
  | O => Some buf
  | S depth =>
      '(tmp, changed) ← expand_pass (S (length buf)) buf [] false;
      if changed : bool then expand_passes depth (strlcpy tmp MAX_CFG_EXP_STRLEN) else Some buf
  end.

(** [realloc] to the final length cannot lose the string: when it fails the
    larger block is kept. *)
Definition dict_get_exp (o : allocs) (d : option dict) (key : option bstr) : option (option bstr * allocs) :=
  match d, key with
  | Some _, Some _ =>
      p ← dict_get d key None;
      match p with
      | None => Some (None, o)
      | Some p =>
          let '(ok, o) := alloc o in
          if negb ok then Some (None, o)
          else
            buf ← expand_passes MAX_CFG_EXP_RECURSION (strlcpy p MAX_CFG_EXP_STRLEN);
            let '(_, o) := alloc o in
            Some (Some buf, o)
      end
  | _, _ => Some (None, o)
  end.
End expansion.

(** ** Printing *)

Definition dict_type_name (t : val_type) : bstr :=
  match t with
  | VAL_NULL => B "null" | VAL_STR => B "string" | VAL_INT => B "int" | VAL_UINT => B "uint"
  | VAL_LONG => B "long" | VAL_ULONG => B "ulong" | VAL_LLONG => B "llong" | VAL_ULLONG => B "ullong"
  | VAL_FLOAT => B "float" | VAL_BOOL => B "bool" | VAL_DOUBLE => B "double" | VAL_FLOATP => B "floatp"
  | VAL_DOUBLEP => B "doublep" | VAL_CHAR => B "char" | VAL_PTR => B "ptr" | VAL_END => B "end"
  end.

(** [snprintf(buf, len, ...)] keeps the first [len - 1] bytes. *)
Definition dict_dump_value (v : value) (len : nat) : bstr :=
  take (len - 1)
    match v with
    | VNull => B "null"
    | VStr s => default (B "NULL") s
    | VInt z | VUint z | VLong z | VUlong z | VLlong z | VUllong z => print_dec z
    | VFloat f | VFloatP f => print_g 6 (f64_of_f32 f)
    | VDouble d | VDoubleP d => print_g 6 d
    | VBool i => if i =? 0 then B "false" else B "true"
    | VChar c =>
        let c := chr c in
        if isprint c then B "'" ++ c :: B "'" else B "0x" ++ pad_left 2 (print_hex (code c))
    | VPtr p => if p =? 0 then B "(nil)" else B "0x" ++ print_hex p
    | VEnd => B "?"
    end.

(** [%20s] *)
Definition pad_right_align (n : nat) (s : bstr) : bstr := replicate (n - length s) " "%char ++ s.

(** The lines [dict_dump] writes, one per entry. *)
Definition dump_line (k : bstr) (v : value) : bstr :=
  pad_right_align 20 k ++ B "=" ++ dict_dump_value v 256 ++ B " (" ++ dict_type_name (type_of v) ++ B ")".

Definition dict_dump (d : option dict) : option (list bstr) :=
  match d with
  | None => Some []
  | Some d => '(_, out) ← enum_all d (fun k v out => Some (true, out ++ [dump_line k v])) []; Some out
  end.
