(* ===== verification/DictGetSpec.v ===== *)
(** * The dictionary's typed readers: their contract (dict.c)

    Every reader returns a value of the type it promises; integers convert
    exactly when they fit, whether they are stored as integers or as decimal
    text; expansion terminates inside its buffer. *)

From S2P Require Import Prelude CString CFloat Dict DictTheory DictSpec DictGet.

#[local] Open Scope Z_scope.

(** ** Well-typed values *)

Definition within (lo hi z : Z) : Prop := lo <= z <= hi.

(** The members of [dict_value_t] hold values of their C types. *)
Definition value_ok (v : value) : Prop :=
  match v with
  | VInt z => within INT_MIN INT_MAX z
  | VUint z => within 0 UINT_MAX z
  | VLong z => within LONG_MIN LONG_MAX z
  | VUlong z => within 0 ULONG_MAX z
  | VLlong z => within LLONG_MIN LLONG_MAX z
  | VUllong z => within 0 ULLONG_MAX z
  | VChar z => within (-128) 127 z
  | VFloat f => valid64 (f64_of_f32 f) = true
  | VDouble f => valid64 f = true
  | _ => True
  end.

Ltac limits :=
  unfold within, when, INT_MIN, INT_MAX, UINT_MAX, LONG_MIN, LONG_MAX, ULONG_MAX, LLONG_MIN, LLONG_MAX, ULLONG_MAX in *.

Lemma get_as_map {A} (conv : value -> option A) d key def :
  dict_wf d -> has_null (table d) ->
  get_as conv (Some d) (Some key) def = Some (default def (dict_map d !! key ≫= conv)).
Proof.
  intros Hwf Hn. unfold get_as. rewrite dict_get_kp_map by done. by destruct (dict_map d !! key).
Qed.

(** ** Ranges *)

Lemma parse_ll_range s z : parse_ll s = Some z -> within LLONG_MIN LLONG_MAX z.
Proof.
  destruct s as [s |]; [| done]. unfold parse_ll. case_match; [done |]. intros [= <-]. apply strtoll_range.
Qed.

Lemma parse_ull_range s z : parse_ull s = Some z -> within 0 ULLONG_MAX z.
Proof.
  destruct s as [s |]; [| done]. unfold parse_ull. case_match; [done |]. intros [= <-]. apply strtoull_range.
Qed.

Lemma parsed_Some p test z : parsed p test = Some z -> p = Some z /\ test z = true.
Proof. unfold parsed, when. destruct p as [y |]; cbn; [| done]. case_match; [by intros [= ->] | done]. Qed.

Lemma float_le_range dv lo hi z :
  valid64 dv = true -> valid64 (f64_of_Z lo) = true -> valid64 (f64_of_Z hi) = true ->
  isfinite (f64_of_Z lo) = true -> isfinite (f64_of_Z hi) = true ->
  Z.quot (units (f64_of_Z lo)) (2 ^ 1074) = lo -> Z.quot (units (f64_of_Z hi)) (2 ^ 1074) = hi ->
  float_le dv lo hi = Some z -> within lo hi z.
Proof.
  intros Hv Hvl Hvh Hfl Hfh Hlo Hhi. unfold float_le, when. case_match eqn:Ht; [| done]. intros [= <-].
  apply andb_true_iff in Ht as [[Hf Hle]%andb_true_iff Hge].
  apply SFleb_units in Hle, Hge; [| done..].
  destruct (trunc_between dv (f64_of_Z lo) (f64_of_Z hi) Hv Hf) as [H1 H2].
  specialize (H1 Hle). specialize (H2 Hge). rewrite Hlo in H1. rewrite Hhi in H2. done.
Qed.

Lemma float_lt_range dv lo hi z :
  valid64 dv = true -> valid64 (f64_of_Z lo) = true -> valid64 (f64_of_Z hi) = true ->
  isfinite (f64_of_Z lo) = true -> isfinite (f64_of_Z hi) = true ->
  Z.quot (units (f64_of_Z lo)) (2 ^ 1074) = lo -> units (f64_of_Z hi) = hi * 2 ^ 1074 -> 0 < hi ->
  float_lt dv lo hi = Some z -> within lo (hi - 1) z.
Proof.
  intros Hv Hvl Hvh Hfl Hfh Hlo Hhi Hpos. unfold float_lt, when. case_match eqn:Ht; [| done]. intros [= <-].
  apply andb_true_iff in Ht as [[Hf Hle]%andb_true_iff Hge].
  apply SFleb_units in Hle; [| done..]. apply SFltb_units in Hge; [| done..].
  destruct (trunc_between dv (f64_of_Z lo) (f64_of_Z hi) Hv Hf) as [H1 _].
  specialize (H1 Hle). rewrite Hlo in H1. split; [done |]. rewrite trunc_units by done.
  assert (Hp : 0 < 2 ^ 1074) by (apply Z.pow_pos_nonneg; lia). rewrite Hhi in Hge.
  destruct (Z.leb_spec 0 (units dv)).
  - rewrite Z.quot_div_nonneg by lia. apply Z.lt_succ_r. unfold Z.succ.
    replace (hi - 1 + 1) with hi by lia. apply Z.div_lt_upper_bound; lia.
  - pose proof (Z.quot_le_mono (units dv) 0 (2 ^ 1074) Hp ltac:(lia)). rewrite Z.quot_0_l in * by lia. lia.
Qed.

(** The float bounds of the readers are exact [double]s. *)
Lemma le_int dv z : valid64 dv = true -> float_le dv INT_MIN INT_MAX = Some z -> within INT_MIN INT_MAX z.
Proof. intros Hv. by apply float_le_range; vm_compute. Qed.
Lemma le_uint dv z : valid64 dv = true -> float_le dv 0 UINT_MAX = Some z -> within 0 UINT_MAX z.
Proof. intros Hv. by apply float_le_range; vm_compute. Qed.
Lemma lt_ulong dv z : valid64 dv = true -> float_lt dv 0 (ULONG_MAX + 1) = Some z -> within 0 ULONG_MAX z.
Proof. intros Hv. change (within 0 ULONG_MAX z) with (within 0 (ULONG_MAX + 1 - 1) z). by apply float_lt_range; vm_compute. Qed.
Lemma lt_long dv z : valid64 dv = true -> float_lt dv LONG_MIN (- LONG_MIN) = Some z -> within LONG_MIN LONG_MAX z.
Proof. intros Hv. change (within LONG_MIN LONG_MAX z) with (within LONG_MIN (- LONG_MIN - 1) z). by apply float_lt_range; vm_compute. Qed.

Ltac by_cases_of v :=
  destruct v; cbn [value_ok] in *; intros; try discriminate;
  repeat match goal with
  | H : match _ with Some _ => _ | None => _ end = Some _ |- _ => case_match
  | H : parsed _ _ = Some _ |- _ => apply parsed_Some in H as [? ?]
  | H : parse_ll _ = Some _ |- _ => apply parse_ll_range in H
  | H : parse_ull _ = Some _ |- _ => apply parse_ull_range in H
  | H : Some _ = Some _ |- _ => injection H as <-
  end;
  first [ by eapply le_int | by eapply le_uint | by eapply lt_ulong | by eapply lt_long
        | unfold truth in *; limits; repeat case_match; simplify_eq; Z.div_mod_to_equations; lia ].

Lemma as_int_range v z : value_ok v -> as_int v = Some z -> within INT_MIN INT_MAX z.
Proof. unfold as_int. by_cases_of v. Qed.
Lemma as_uint_range v z : value_ok v -> as_uint v = Some z -> within 0 UINT_MAX z.
Proof. unfold as_uint. by_cases_of v. Qed.
Lemma as_ulong_range v z : value_ok v -> as_ulong v = Some z -> within 0 ULONG_MAX z.
Proof. unfold as_ulong. by_cases_of v. Qed.
Lemma as_long_range v z : value_ok v -> as_long v = Some z -> within LONG_MIN LONG_MAX z.
Proof. unfold as_long. by_cases_of v. Qed.
Lemma as_llong_range v z : value_ok v -> as_llong v = Some z -> within LLONG_MIN LLONG_MAX z.
Proof. unfold as_llong. by_cases_of v. Qed.
Lemma as_ullong_range v z : value_ok v -> as_ullong v = Some z -> within 0 ULLONG_MAX z.
Proof. unfold as_ullong. by_cases_of v. Qed.

(** C13: the integer readers are type safe: from well-typed entries and an
    in-range default they return a value of their type, whatever is stored; no
    floating-point value out of range reaches a cast. *)
Theorem dict_readers_in_range (d : dict) (key : bstr) (def : Z)
    (Hwf : dict_wf d) (Hnull : has_null (table d))
    (Hok : forall v, dict_map d !! key = Some v -> value_ok v) :
  (within INT_MIN INT_MAX def -> exists z, dict_get_int (Some d) (Some key) def = Some z /\ within INT_MIN INT_MAX z) /\
  (within 0 UINT_MAX def -> exists z, dict_get_uint (Some d) (Some key) def = Some z /\ within 0 UINT_MAX z) /\
  (within LONG_MIN LONG_MAX def -> exists z, dict_get_long (Some d) (Some key) def = Some z /\ within LONG_MIN LONG_MAX z) /\
  (within 0 ULONG_MAX def -> exists z, dict_get_ulong (Some d) (Some key) def = Some z /\ within 0 ULONG_MAX z) /\
  (within LLONG_MIN LLONG_MAX def -> exists z, dict_get_llong (Some d) (Some key) def = Some z /\ within LLONG_MIN LLONG_MAX z) /\
  (within 0 ULLONG_MAX def -> exists z, dict_get_ullong (Some d) (Some key) def = Some z /\ within 0 ULLONG_MAX z).
Proof.
  assert (Hall : forall conv lo hi, (forall v z, value_ok v -> conv v = Some z -> within lo hi z) -> within lo hi def ->
    exists z, get_as conv (Some d) (Some key) def = Some z /\ within lo hi z).
  { intros conv lo hi Hconv Hdef. rewrite get_as_map by done. eexists. split; [done |].
    destruct (dict_map d !! key) as [v |] eqn:Hv; cbn; [| done]. destruct (conv v) as [z |] eqn:Hz; cbn; [| done].
    eapply Hconv; [by apply Hok | done]. }
  split_and!; apply Hall;
    [apply as_int_range | apply as_uint_range | apply as_long_range | apply as_ulong_range | apply as_llong_range
    | apply as_ullong_range].
Qed.

Definition half : spec_float := S754_finite false 4503599627370496 (-53).

Definition typed_dict : dict := put two_keys (B "scale") (VDouble half).

Lemma dict_readers_in_range_witness :
  exists z, dict_get_int (Some typed_dict) (Some (B "scale")) 7 = Some z /\ within INT_MIN INT_MAX z.
Proof.
  destruct (put_ready 9 two_keys (B "scale") (VDouble half) two_keys_ready) as [[H1 H2 H3 H4 H5] Hm]; [lia |].
  refine (proj1 (dict_readers_in_range typed_dict (B "scale") 7 H1 H3 _) _); [| limits; lia].
  intros v. unfold typed_dict. rewrite Hm, lookup_insert_eq. by intros [= <-].
Defined.

(** ** Exactness *)

Definition int_value (v : value) : option Z :=
  match v with
  | VInt z | VUint z | VLong z | VUlong z | VLlong z | VUllong z => Some z
  | _ => None
  end.

(** The value when it fits, the default otherwise. *)
Definition fits (lo hi z def : Z) : Z := if (lo <=? z) && (z <=? hi) then z else def.

Ltac exact_conv :=
  unfold fits, when; limits;
  repeat first [progress simplify_eq/= | case_match
               | match goal with H : (if ?b then _ else _) = _, Hb : ?b = _ |- _ => rewrite Hb in H end];
  try done; lia.

(** The integer readers convert exactly: an entry of any integer type
    with value [z] reads as [z] through every reader whose type holds [z], and
    as the default through the others. *)
Theorem dict_int_readers_exact (d : dict) (key : bstr) (v : value) (z def : Z)
    (Hwf : dict_wf d) (Hnull : has_null (table d))
    (Hkey : dict_map d !! key = Some v) (Hok : value_ok v) (Hz : int_value v = Some z) :
  dict_get_int (Some d) (Some key) def = Some (fits INT_MIN INT_MAX z def) /\
  dict_get_uint (Some d) (Some key) def = Some (fits 0 UINT_MAX z def) /\
  dict_get_long (Some d) (Some key) def = Some (fits LONG_MIN LONG_MAX z def) /\
  dict_get_ulong (Some d) (Some key) def = Some (fits 0 ULONG_MAX z def) /\
  dict_get_llong (Some d) (Some key) def = Some (fits LLONG_MIN LLONG_MAX z def) /\
  dict_get_ullong (Some d) (Some key) def = Some (fits 0 ULLONG_MAX z def).
Proof.
  unfold dict_get_int, dict_get_uint, dict_get_long, dict_get_ulong, dict_get_llong, dict_get_ullong.
  rewrite !get_as_map, Hkey by done. cbn [mbind option_bind].
  destruct v; try done; injection Hz as ->; cbn [value_ok as_int as_uint as_long as_ulong as_llong as_ullong] in *;
    split_and!; f_equal; exact_conv.
Qed.

Lemma dict_int_readers_exact_witness :
  dict_get_int (Some two_keys) (Some (B "port")) (-1) = Some (fits INT_MIN INT_MAX 2 (-1)) /\
  dict_get_uint (Some two_keys) (Some (B "port")) (-1) = Some (fits 0 UINT_MAX 2 (-1)) /\
  dict_get_long (Some two_keys) (Some (B "port")) (-1) = Some (fits LONG_MIN LONG_MAX 2 (-1)) /\
  dict_get_ulong (Some two_keys) (Some (B "port")) (-1) = Some (fits 0 ULONG_MAX 2 (-1)) /\
  dict_get_llong (Some two_keys) (Some (B "port")) (-1) = Some (fits LLONG_MIN LLONG_MAX 2 (-1)) /\
  dict_get_ullong (Some two_keys) (Some (B "port")) (-1) = Some (fits 0 ULLONG_MAX 2 (-1)).
Proof.
  destruct two_keys_ready as [H1 H2 H3 H4 H5].
  apply (dict_int_readers_exact two_keys (B "port") (VInt 2) 2 (-1) H1 H3); [by vm_compute | cbn; limits; lia | done].
Defined.

Lemma same_ptr_cons c s : same_ptr [] (c :: s) = false.
Proof. done. Qed.

Lemma parse_ll_print z :
  parse_ll (Some (print_dec z)) = if (LLONG_MIN <=? z) && (z <=? LLONG_MAX) then Some z else None.
Proof.
  unfold parse_ll. rewrite strtoll_print_all. destruct (print_dec_cons z) as (c & s & ->).
  destruct (Z.ltb_spec z LLONG_MIN), (Z.leb_spec LLONG_MIN z); try lia; [done |].
  by destruct (Z.ltb_spec LLONG_MAX z), (Z.leb_spec z LLONG_MAX); try lia.
Qed.

Lemma parse_ull_print z : Z.abs z <= ULLONG_MAX -> parse_ull (Some (print_dec z)) = Some (u64 z).
Proof.
  intros Hz. unfold parse_ull. rewrite strtoull_print_all by done. by destruct (print_dec_cons z) as (c & s & ->).
Qed.

Lemma u64_within z : within LLONG_MIN ULLONG_MAX z -> u64 z = if z <? 0 then z + 2 ^ 64 else z.
Proof.
  intros Hz. limits. unfold u64. destruct (Z.ltb_spec z 0); [| apply Z.mod_small; lia].
  rewrite <- (Z.mod_add z 1) by lia. apply Z.mod_small. lia.
Qed.

(** Decimal text reads like the number it denotes through the [int],
    [unsigned], [long] and [long long] readers; the [unsigned long] and [unsigned long long]
    readers accept a negative number and return it modulo 2^64 instead of
    the default. *)
Theorem dict_text_readers (d : dict) (key : bstr) (z def : Z)
    (Hwf : dict_wf d) (Hnull : has_null (table d))
    (Hkey : dict_map d !! key = Some (VStr (Some (print_dec z)))) (Hz : within LLONG_MIN ULLONG_MAX z) :
  dict_get_int (Some d) (Some key) def = Some (fits INT_MIN INT_MAX z def) /\
  dict_get_uint (Some d) (Some key) def = Some (fits 0 UINT_MAX z def) /\
  dict_get_long (Some d) (Some key) def = Some (fits LONG_MIN LONG_MAX z def) /\
  dict_get_llong (Some d) (Some key) def = Some (fits LLONG_MIN LLONG_MAX z def) /\
  dict_get_ulong (Some d) (Some key) def = Some (z mod 2 ^ 64) /\
  dict_get_ullong (Some d) (Some key) def = Some (z mod 2 ^ 64).
Proof.
  unfold dict_get_int, dict_get_uint, dict_get_long, dict_get_ulong, dict_get_llong, dict_get_ullong.
  rewrite !get_as_map, Hkey by done. cbn [mbind option_bind as_int as_uint as_long as_ulong as_llong as_ullong].
  rewrite parse_ll_print, parse_ull_print by (limits; lia).
  pose proof (u64_within z Hz) as Hu. unfold parsed. change (z mod 2 ^ 64) with (u64 z). rewrite Hu.
  split_and!; f_equal; exact_conv.
Qed.

Definition text_dict : dict := put two_keys (B "gain") (VStr (Some (print_dec (-1)))).

Lemma dict_text_readers_witness :
  dict_get_int (Some text_dict) (Some (B "gain")) 5 = Some (fits INT_MIN INT_MAX (-1) 5) /\
  dict_get_uint (Some text_dict) (Some (B "gain")) 5 = Some (fits 0 UINT_MAX (-1) 5) /\
  dict_get_long (Some text_dict) (Some (B "gain")) 5 = Some (fits LONG_MIN LONG_MAX (-1) 5) /\
  dict_get_llong (Some text_dict) (Some (B "gain")) 5 = Some (fits LLONG_MIN LLONG_MAX (-1) 5) /\
  dict_get_ulong (Some text_dict) (Some (B "gain")) 5 = Some ((-1) mod 2 ^ 64) /\
  dict_get_ullong (Some text_dict) (Some (B "gain")) 5 = Some ((-1) mod 2 ^ 64).
Proof.
  destruct (put_ready 9 two_keys (B "gain") (VStr (Some (print_dec (-1)))) two_keys_ready)
    as [[H1 H2 H3 H4 H5] Hm]; [lia |].
  apply (dict_text_readers text_dict (B "gain") (-1) 5 H1 H3); [unfold text_dict; by rewrite Hm, lookup_insert_eq | limits; lia].
Defined.

(** ** Blank text *)

Lemma blank_parse s :
  Forall (fun c => isspace c = true) s -> s <> [] -> parse_ll (Some s) = Some 0 /\ parse_ull (Some s) = Some 0.
Proof.
  intros Hs Hne. unfold parse_ll, parse_ull, strtoll, strtoull. rewrite (skip_space_blank s Hs). cbn.
  rewrite (skip_space_blank s Hs). by destruct s.
Qed.

(** A string of white space only, which is no number, reads as 0 through every
    integer reader instead of the caller's default: the test [ep == s] is made after
    [ep] has been moved over trailing space. *)
Theorem dict_blank_text_reads_zero (d : dict) (key s : bstr) (def : Z)
    (Hwf : dict_wf d) (Hnull : has_null (table d))
    (Hkey : dict_map d !! key = Some (VStr (Some s)))
    (Hblank : Forall (fun c => isspace c = true) s) (Hne : s <> []) :
  dict_get_int (Some d) (Some key) def = Some 0 /\ dict_get_uint (Some d) (Some key) def = Some 0 /\
  dict_get_long (Some d) (Some key) def = Some 0 /\ dict_get_ulong (Some d) (Some key) def = Some 0 /\
  dict_get_llong (Some d) (Some key) def = Some 0 /\ dict_get_ullong (Some d) (Some key) def = Some 0.
Proof.
  unfold dict_get_int, dict_get_uint, dict_get_long, dict_get_ulong, dict_get_llong, dict_get_ullong.
  rewrite !get_as_map, Hkey by done. cbn [mbind option_bind as_int as_uint as_long as_ulong as_llong as_ullong].
  destruct (blank_parse s Hblank Hne) as [-> ->]. done.
Qed.

Lemma dict_blank_text_reads_zero_witness :
  let d := put two_keys (B "gap") (VStr (Some (B "  "))) in
  dict_get_int (Some d) (Some (B "gap")) 9 = Some 0 /\ dict_get_uint (Some d) (Some (B "gap")) 9 = Some 0 /\
  dict_get_long (Some d) (Some (B "gap")) 9 = Some 0 /\ dict_get_ulong (Some d) (Some (B "gap")) 9 = Some 0 /\
  dict_get_llong (Some d) (Some (B "gap")) 9 = Some 0 /\ dict_get_ullong (Some d) (Some (B "gap")) 9 = Some 0.
Proof.
  destruct (put_ready 9 two_keys (B "gap") (VStr (Some (B "  "))) two_keys_ready)
    as [[H1 H2 H3 H4 H5] Hm]; [lia |].
  apply (dict_blank_text_reads_zero _ (B "gap") (B "  ") 9 H1 H3);
    [by rewrite Hm, lookup_insert_eq | by repeat constructor | done].
Defined.

(** ** Expansion *)

Section expansion.
Context (cfg_get : bstr -> option (option bstr)) (Htotal : forall k, is_Some (cfg_get k)).

Lemma split_at_length s c a b : split_at s c = Some (a, b) -> (length a + length b < length s)%nat.
Proof.
  revert a b. induction s as [| x s IH]; intros a b; cbn; [done |]. case_bool_decide.
  - intros [= <- <-]. cbn. lia.
  - destruct (split_at s c) as [[a' b'] |]; cbn; [| done]. intros [= <- <-].
    specialize (IH _ _ eq_refl). cbn. lia.
Qed.

(** A pass returns, and what it has written never passes the end of [tmp]. *)
Lemma expand_pass_fits fuel src dst ch :
  (length src < fuel)%nat -> (length dst <= MAX_CFG_EXP_STRLEN - 1)%nat ->
  exists dst' ch', expand_pass cfg_get fuel src dst ch = Some (dst', ch') /\
    (length dst' <= MAX_CFG_EXP_STRLEN - 1)%nat.
Proof.
  revert src dst ch. induction fuel as [| fuel IH]; intros src dst ch Hs Hd; [lia |].
  cbn [expand_pass]. destruct src as [| c src']; [eauto |]. cbn [length] in Hs.
  destruct (Nat.leb_spec (MAX_CFG_EXP_STRLEN - 1) (length dst)) as [| Hroom]; [eauto |].
  destruct (match src' with [] => None | _ => _ end) as [[name rest] |] eqn:Href.
  2:{ apply IH; [lia |]. rewrite length_app. cbn [length]. lia. }
  assert (Hrest : (length rest < length src')%nat).
  { destruct src' as [| c' body]; [done |]. case_match; [| done]. apply split_at_length in Href. cbn [length]. lia. }
  destruct (Htotal (take (KEYBUF - 1) name)) as [val ->]. cbn [mbind option_bind].
  destruct val as [val |]; [| apply IH; lia].
  apply IH; [lia |]. rewrite length_app, length_take.
  destruct (Nat.leb_spec (MAX_CFG_EXP_STRLEN - 1) (length dst + length val)); lia.
Qed.

Lemma strlcpy_fits s n : (length (strlcpy s n) <= n - 1)%nat.
Proof. unfold strlcpy. rewrite length_take. lia. Qed.

Lemma expand_passes_fits depth buf :
  (length buf <= MAX_CFG_EXP_STRLEN - 1)%nat ->
  exists buf', expand_passes cfg_get depth buf = Some buf' /\ (length buf' <= MAX_CFG_EXP_STRLEN - 1)%nat.
Proof.
  revert buf. induction depth as [| depth IH]; intros buf Hb; cbn [expand_passes]; [eauto |].
  destruct (expand_pass_fits (S (length buf)) buf [] false) as (tmp & ch & Hp & Ht); [lia | cbn; lia |].
  rewrite Hp. cbn [mbind option_bind]. destruct ch; [| eauto]. apply IH, strlcpy_fits.
Qed.

(** Without a reference whose name [cfg_get] knows, the text comes back as it is. *)
Lemma expand_pass_unknown fuel src dst :
  (forall k, cfg_get k = Some None) -> (length src < fuel)%nat ->
  exists dst', expand_pass cfg_get fuel src dst false = Some (dst', false).
Proof.
  intros Hnone. revert src dst. induction fuel as [| fuel IH]; intros src dst Hs; [lia |].
  cbn [expand_pass]. destruct src as [| c src']; [eauto |]. cbn [length] in Hs.
  destruct (Nat.leb _ _); [eauto |].
  destruct (match src' with [] => None | _ => _ end) as [[name rest] |] eqn:Href; [| apply IH; lia].
  rewrite Hnone. cbn [mbind option_bind]. apply IH.
  destruct src' as [| c' body]; [done |]. case_match; [| done]. apply split_at_length in Href. cbn [length] in *. lia.
Qed.
End expansion.

(** [dict_get_exp] terminates, self-referential definitions included, never
    writes past its buffers, and returns the expansion of a string entry and NULL for every other key. *)
Theorem dict_get_exp_fits (cfg_get : bstr -> option (option bstr)) (d : dict) (key : bstr)
    (Htotal : forall k, is_Some (cfg_get k)) (Hwf : dict_wf d) (Hnull : has_null (table d)) :
  match dict_map d !! key with
  | Some (VStr (Some s)) =>
      exists r, dict_get_exp cfg_get [] (Some d) (Some key) = Some (Some r, []) /\
        (length r < MAX_CFG_EXP_STRLEN)%nat /\
        ((forall k, cfg_get k = Some None) -> r = strlcpy s MAX_CFG_EXP_STRLEN)
  | _ => dict_get_exp cfg_get [] (Some d) (Some key) = Some (None, [])
  end.
Proof.
  unfold dict_get_exp. rewrite dict_get_map by done. cbn [mbind option_bind].
  destruct (dict_map d !! key) as [[] |]; try done. destruct s as [s |]; [| done]. cbn [alloc negb].
  destruct (expand_passes_fits cfg_get Htotal MAX_CFG_EXP_RECURSION (strlcpy s MAX_CFG_EXP_STRLEN))
    as (r & Hr & Hl); [apply strlcpy_fits |].
  rewrite Hr. exists r. split; [done |].
  assert (1 < MAX_CFG_EXP_STRLEN)%nat by (unfold MAX_CFG_EXP_STRLEN; lia). split; [lia |].
  intros Hnone. unfold MAX_CFG_EXP_RECURSION in Hr. cbn [expand_passes] in Hr.
  destruct (expand_pass_unknown cfg_get (S (length (strlcpy s MAX_CFG_EXP_STRLEN))) (strlcpy s MAX_CFG_EXP_STRLEN) [] Hnone)
    as [dst Hp]; [lia |].
  rewrite Hp in Hr. cbn in Hr. by injection Hr as <-.
Qed.

(** A configuration in which [host] refers to itself. *)
Definition loop_cfg (k : bstr) : option (option bstr) :=
  Some (if streq k (B "host") then Some (B "x${host}") else None).

Definition loop_dict : dict := put two_keys (B "url") (VStr (Some (B "http://${host}/"))).

Lemma dict_get_exp_fits_witness :
  exists r, dict_get_exp loop_cfg [] (Some loop_dict) (Some (B "url")) = Some (Some r, []) /\
    (length r < MAX_CFG_EXP_STRLEN)%nat /\
    ((forall k, loop_cfg k = Some None) -> r = strlcpy (B "http://${host}/") MAX_CFG_EXP_STRLEN).
Proof.
  destruct (put_ready 9 two_keys (B "url") (VStr (Some (B "http://${host}/"))) two_keys_ready)
    as [[H1 H2 H3 H4 H5] Hm]; [lia |].
  pose proof (dict_get_exp_fits loop_cfg loop_dict (B "url") ltac:(by intros k; eexists) H1 H3) as H.
  fold loop_dict in Hm. by rewrite Hm, lookup_insert_eq in H.
Defined.
