(* ===== verification/JsonString.v ===== *)
(** * JSON strings, keys and tokens (json.c)

    Escaping and unescaping, the path a key gets in the flat dictionary, and
    the lexical level of the parser.  A pointer into the text is the text from
    there on; NULL is [None]. *)

From S2P Require Import Prelude CString.

#[local] Open Scope Z_scope.

Definition QUOTE : ascii := chr 34.
Definition BSLASH : ascii := chr 92.

(** ** Paths *)

Definition path_append (o : allocs) (base suffix : bstr) : option bstr * allocs :=
  let '(ok, o) := alloc o in
  if negb ok then (None, o)
  else
    (Some (match suffix, base with
           | c :: _, _ =>
               if bool_decide (c = "["%char) then base ++ suffix
               else match base with [] => suffix | _ => base ++ "."%char :: suffix end
           | [], [] => suffix
           | [], _ => base ++ "."%char :: suffix
           end), o).

(** ** Tokens *)

Definition is_ws (c : ascii) : bool := (code c =? 32) || (code c =? 9) || (code c =? 13) || (code c =? 10).

Fixpoint skip_ws (s : bstr) : bstr :=
  match s with
  | c :: s' => if is_ws c then skip_ws s' else s
  | [] => []
  end.

(** ** Escaping *)

Definition escape_char (c : ascii) : bstr :=
  if code c =? 34 then [BSLASH; QUOTE]
  else if code c =? 92 then [BSLASH; BSLASH]
  else if code c =? 8 then [BSLASH; "b"%char]
  else if code c =? 12 then [BSLASH; "f"%char]
  else if code c =? 10 then [BSLASH; "n"%char]
  else if code c =? 13 then [BSLASH; "r"%char]
  else if code c =? 9 then [BSLASH; "t"%char]
  else if code c <? 0x20 then BSLASH :: "u"%char :: pad_left 4 (print_hex (code c))
  else [c].

Definition json_escape (o : allocs) (s : option bstr) : option bstr * allocs :=
  let '(ok, o) := alloc o in
  if negb ok then (None, o)
  else (Some (QUOTE :: flat_map escape_char (default [] s) ++ [QUOTE]), o).

(** ** Unescaping *)

Definition hex_digit_val (c : ascii) : option Z :=
  let c := code c in
  if (48 <=? c) && (c <=? 57) then Some (c - 48)
  else if (97 <=? c) && (c <=? 102) then Some (c - 97 + 10)
  else if (65 <=? c) && (c <=? 70) then Some (c - 65 + 10)
  else None.

(** Four hex digits at [p]; [None] when fewer bytes are left or one is no digit. *)
Definition json_hex4 (p : bstr) : option Z :=
  match p with
  | a :: b :: c :: d :: _ =>
      a ← hex_digit_val a; b ← hex_digit_val b; c ← hex_digit_val c; d ← hex_digit_val d;
      Some (Z.lor (Z.shiftl (Z.lor (Z.shiftl (Z.lor (Z.shiftl a 4) b) 4) c) 4) d)
  | _ => None
  end.

(** The UTF-8 bytes of a code point. *)
Definition utf8 (code : Z) : bstr :=
  if code <? 0x80 then [chr code]
  else if code <? 0x800 then
    [chr (Z.lor 0xC0 (Z.shiftr code 6)); chr (Z.lor 0x80 (Z.land code 0x3F))]
  else if code <? 0x10000 then
    [chr (Z.lor 0xE0 (Z.shiftr code 12)); chr (Z.lor 0x80 (Z.land (Z.shiftr code 6) 0x3F));
     chr (Z.lor 0x80 (Z.land code 0x3F))]
  else
    [chr (Z.lor 0xF0 (Z.shiftr code 18)); chr (Z.lor 0x80 (Z.land (Z.shiftr code 12) 0x3F));
     chr (Z.lor 0x80 (Z.land (Z.shiftr code 6) 0x3F)); chr (Z.lor 0x80 (Z.land code 0x3F))].

(** The code point of the [\u] escape whose digits start at [p], and the text after it. *)
Definition unescape_u (p : bstr) : option (Z * bstr) :=
  code ← json_hex4 p;
  if code =? 0 then None
  else
    let p := drop 4 p in
    if (0xD800 <=? code) && (code <=? 0xDBFF) then
      match p with
      | b :: u :: p' =>
          if bool_decide (b = BSLASH) && bool_decide (u = "u"%char) then
            low ← json_hex4 p';
            if (low <? 0xDC00) || (0xDFFF <? low) then None
            else Some (0x10000 + Z.shiftl (code - 0xD800) 10 + low - 0xDC00, drop 4 p')
          else None
      | _ => None
      end
    else if (0xDC00 <=? code) && (code <=? 0xDFFF) then None
    else Some (code, p).

(** The byte a one-letter escape stands for. *)
Definition simple_escape (c : ascii) : option ascii :=
  if bool_decide (c = QUOTE) || bool_decide (c = BSLASH) || bool_decide (c = "/"%char) then Some c
  else if bool_decide (c = "b"%char) then Some (chr 8)
  else if bool_decide (c = "f"%char) then Some (chr 12)
  else if bool_decide (c = "n"%char) then Some (chr 10)
  else if bool_decide (c = "r"%char) then Some (chr 13)
  else if bool_decide (c = "t"%char) then Some (chr 9)
  else None.

(** One turn of the [while (p < end)] loop: the bytes written and the text left. *)
Definition unescape_step (p : bstr) : option (bstr * bstr) :=
  match p with
  | [] => None
  | c :: p =>
      if (code c <? 0x20) || bool_decide (c = QUOTE) then None
      else if negb (bool_decide (c = BSLASH)) then Some ([c], p)
      else
        match p with
        | [] => None
        | c :: p =>
            if bool_decide (c = "u"%char) then '(code, p) ← unescape_u p; Some (utf8 code, p)
            else x ← simple_escape c; Some ([x], p)
        end
  end.

(** The loop.  Each turn consumes a byte, so the length of the text is enough fuel. *)
Fixpoint unescape_loop (fuel : nat) (p : bstr) : option bstr :=
  match p, fuel with
  | [], _ => Some []
  | _, O => None
  | _, S fuel =>
      '(x, p) ← unescape_step p;
      out ← unescape_loop fuel p;
      Some (x ++ out)
  end.

Definition unescape_body (body : bstr) : option bstr := unescape_loop (length body) body.

(** The text between the first and the last byte, when both are quotes. *)
Definition quoted_body (s : bstr) : option bstr :=
  match s with
  | q :: t =>
      match rev t with
      | q' :: b => if bool_decide (q = QUOTE) && bool_decide (q' = QUOTE) then Some (rev b) else None
      | [] => None
      end
  | [] => None
  end.

Definition json_unescape (o : allocs) (s : option bstr) : option bstr * allocs :=
  match s with
  | None => (None, o)
  | Some s =>
      match quoted_body s with
      | None => (None, o)
      | Some body =>
          let '(ok, o) := alloc o in
          if negb ok then (None, o) else (unescape_body body, o)
      end
  end.

(** ** Scanning a string token *)

(** The loop that looks for the closing quote: the bytes before it and the text after it. *)
Fixpoint scan_str (s : bstr) : option (bstr * bstr) :=
  match s with
  | [] => None
  | c :: s =>
      if bool_decide (c = QUOTE) then Some ([], s)
      else if code c <? 0x20 then None
      else if bool_decide (c = BSLASH) then
        match s with
        | [] => None
        | c' :: s => '(body, rest) ← scan_str s; Some (c :: c' :: body, rest)
        end
      else '(body, rest) ← scan_str s; Some (c :: body, rest)
  end.

(** The decoded string and the text after the token. *)
Definition json_parse_str (o : allocs) (s : bstr) : option (bstr * bstr) * allocs :=
  match s with
  | q :: s =>
      if negb (bool_decide (q = QUOTE)) then (None, o)
      else
        match scan_str s with
        | None => (None, o)
        | Some (body, rest) =>
            let '(ok, o) := alloc o in
            if negb ok then (None, o)
            else
              let '(out, o) := json_unescape o (Some (QUOTE :: body ++ [QUOTE])) in
              (out ← out; Some (out, rest), o)
        end
  | [] => (None, o)
  end.

Definition ends_primitive (c : ascii) : bool :=
  (code c =? 44) || (code c =? 93) || (code c =? 125) || is_ws c.

Fixpoint scan_primitive (s : bstr) : bstr * bstr :=
  match s with
  | c :: s' => if ends_primitive c then ([], s) else let '(w, r) := scan_primitive s' in (c :: w, r)
  | [] => ([], [])
  end.

Definition json_parse_primitive (o : allocs) (s : bstr) : option (bstr * bstr) * allocs :=
  match scan_primitive s with
  | ([], _) => (None, o)
  | (w, rest) =>
      let '(ok, o) := alloc o in
      if negb ok then (None, o) else (Some (w, rest), o)
  end.
