(* ===== verification/JsonStringSpec.v ===== *)
(** * JSON strings: their contract (json.c)

    Escaping is undone by unescaping and by the token scanner; unescaping
    writes inside its buffer and never produces a NUL. *)

From S2P Require Import Prelude CString JsonString.

#[local] Open Scope Z_scope.

(** ** One step *)

Ltac all_bytes c := destruct c as [[] [] [] [] [] [] [] []].

Lemma step_escape c t : c <> NUL -> unescape_step (escape_char c ++ t) = Some ([c], t).
Proof. all_bytes c; (done || reflexivity). Qed.

Lemma scan_plain c t :
  (code c <? 0x20) || bool_decide (c = QUOTE) || bool_decide (c = BSLASH) = false ->
  scan_str (c :: t) = '(body, rest) ← scan_str t; Some (c :: body, rest).
Proof. intros [[H1 H2]%orb_false_iff H3]%orb_false_iff. cbn [scan_str]. by rewrite H1, H2, H3. Qed.

Lemma scan_bslash c t :
  scan_str (BSLASH :: c :: t) = '(body, rest) ← scan_str t; Some (BSLASH :: c :: body, rest).
Proof. done. Qed.

Lemma scan_escape c t :
  scan_str (escape_char c ++ t) = '(body, rest) ← scan_str t; Some (escape_char c ++ body, rest).
Proof.
  all_bytes c;
    match goal with |- context [escape_char ?x] =>
      let v := eval vm_compute in (escape_char x) in change (escape_char x) with v end;
    cbn [app]; first [rewrite scan_plain by done | change (chr 92) with BSLASH; rewrite scan_bslash];
    rewrite ?scan_plain by done; by destruct (scan_str t) as [[? ?] |].
Qed.

Lemma hex_digit_val_range c d : hex_digit_val c = Some d -> 0 <= d < 2 ^ 4.
Proof. unfold hex_digit_val. repeat case_match; intros; simplify_eq; lia. Qed.

Lemma lor_range n a b : 0 <= n -> 0 <= a < 2 ^ n -> 0 <= b < 2 ^ n -> 0 <= Z.lor a b < 2 ^ n.
Proof.
  intros Hn Ha Hb. assert (0 <= Z.lor a b) by (apply Z.lor_nonneg; lia). split; [done |].
  apply below_pow2; [done.. |]. intros i Hi. rewrite Z.lor_spec.
  rewrite (proj1 (below_pow2 a n Hn ltac:(lia)) ltac:(lia) i Hi).
  by rewrite (proj1 (below_pow2 b n Hn ltac:(lia)) ltac:(lia) i Hi).
Qed.

Lemma shift_digit n a b :
  0 <= n -> 0 <= a < 2 ^ n -> 0 <= b < 2 ^ 4 -> 0 <= Z.lor (Z.shiftl a 4) b < 2 ^ (n + 4).
Proof.
  intros Hn Ha Hb. assert (2 ^ 4 <= 2 ^ (n + 4)) by (apply Z.pow_le_mono_r; lia).
  apply lor_range; [lia | | lia]. rewrite Z.shiftl_mul_pow2, Z.pow_add_r by lia. nia.
Qed.

Lemma json_hex4_range p v : json_hex4 p = Some v -> 0 <= v < 2 ^ 16 /\ (4 <= length p)%nat.
Proof.
  unfold json_hex4. destruct p as [| a [| b [| c [| d p]]]]; try done.
  destruct (hex_digit_val a) as [x |] eqn:Ha; [| done]. destruct (hex_digit_val b) as [y |] eqn:Hb; [| done].
  destruct (hex_digit_val c) as [z |] eqn:Hc; [| done]. destruct (hex_digit_val d) as [w |] eqn:Hd; [| done].
  cbn [mbind option_bind]. intros [= <-].
  apply hex_digit_val_range in Ha, Hb, Hc, Hd. split; [| cbn; lia].
  apply (shift_digit 12); [lia | | done]. apply (shift_digit 8); [lia | | done]. by apply (shift_digit 4).
Qed.

(** A [\u] escape yields a code point other than NUL and outside the surrogates'
    range, from at least four digits. *)
Lemma unescape_u_spec p cp rest :
  unescape_u p = Some (cp, rest) ->
  0 < cp < 0x110000 /\ (length rest + (if (cp <? 0x10000)%Z then 4 else 10) <= length p)%nat.
Proof.
  unfold unescape_u. destruct (json_hex4 p) as [v |] eqn:Hv; [| done]. cbn [mbind option_bind].
  apply json_hex4_range in Hv as [Hv Hl]. destruct (Z.eqb_spec v 0) as [-> | Hne]; [done |].
  pose proof (length_drop p 4) as Hd.
  destruct ((0xD800 <=? v) && (v <=? 0xDBFF)) eqn:Hhigh.
  2:{ case_match; [done |]. intros [= <- <-]. split; [lia |].
      rewrite (proj2 (Z.ltb_lt _ _)) by lia. lia. }
  destruct (drop 4 p) as [| b [| u p']]; [done.. |]. cbn [length] in Hd. case_match; [| done].
  destruct (json_hex4 p') as [low |] eqn:Hlow; [| done]. cbn [mbind option_bind].
  apply json_hex4_range in Hlow as [Hlow Hl']. case_match; [done |]. intros [= <- <-].
  apply andb_true_iff in Hhigh as [H1%Z.leb_le H2%Z.leb_le]. rewrite Z.shiftl_mul_pow2 by lia.
  split; [lia |]. rewrite (proj2 (Z.ltb_ge _ _)) by lia. rewrite length_drop. lia.
Qed.

Lemma chr_high z : Z.testbit z 7 = true -> chr z <> NUL.
Proof.
  intros Hz Heq. apply (f_equal code) in Heq. unfold NUL in Heq. rewrite !code_chr in Heq.
  change (0 mod 256) with 0 in Heq. assert (Z.testbit (z mod 2 ^ 8) 7 = true) as Ht.
  { rewrite Z.mod_pow2_bits_low by lia. done. }
  change (2 ^ 8) with 256 in Ht. by rewrite Heq in Ht.
Qed.

Lemma utf8_spec cp :
  0 < cp < 0x110000 -> NUL ∉ utf8 cp /\ (length (utf8 cp) <= if (cp <? 0x10000)%Z then 3 else 4)%nat.
Proof.
  intros Hc. unfold utf8.
  assert (Hhi : forall k a, Z.testbit k 7 = true -> chr (Z.lor k a) <> NUL).
  { intros k a Hk. apply chr_high. by rewrite Z.lor_spec, Hk. }
  assert (Hlo : cp < 0x80 -> chr cp <> NUL).
  { intros Hlt Heq. apply (f_equal code) in Heq. unfold NUL in Heq. rewrite !code_chr in Heq.
    rewrite (Z.mod_small cp) in Heq by lia. change (0 mod 256) with 0 in Heq. lia. }
  destruct (Z.ltb_spec cp 0x80), (Z.ltb_spec cp 0x800), (Z.ltb_spec cp 0x10000); try lia; split;
    try (cbn; lia); rewrite ?not_elem_of_cons; split_and!; try apply not_elem_of_nil; apply not_eq_sym; auto.
Qed.

Lemma unescape_step_spec p x rest :
  unescape_step p = Some (x, rest) ->
  NUL ∉ x /\ (length x + length rest <= length p)%nat /\ (length rest < length p)%nat.
Proof.
  unfold unescape_step. destruct p as [| c p]; [done |].
  destruct (code c <? 0x20) eqn:Hc; cbn [orb]; [done |]. case_bool_decide; [done |].
  destruct (negb _).
  { intros [= <- <-]. split; [| cbn; lia]. rewrite not_elem_of_cons. split; [| apply not_elem_of_nil].
    intros <-. by vm_compute in Hc. }
  destruct p as [| c' p]; [done |]. case_bool_decide.
  - destruct (unescape_u p) as [[cp r] |] eqn:Hu; [| done]. cbn [mbind option_bind]. intros [= <- <-].
    apply unescape_u_spec in Hu as [Hcp Hl]. destruct (utf8_spec cp Hcp) as [Hn Hl'].
    split; [done |]. cbn [length]. destruct (cp <? 0x10000); lia.
  - destruct (simple_escape c') as [y |] eqn:Hy; [| done]. cbn [mbind option_bind]. intros [= <- <-].
    split; [| cbn; lia]. rewrite not_elem_of_cons. split; [| apply not_elem_of_nil]. intros <-.
    by revert Hy; all_bytes c'.
Qed.

(** ** The loop *)

Lemma unescape_loop_fuel fuel p : (length p <= fuel)%nat -> unescape_loop fuel p = unescape_body p.
Proof.
  unfold unescape_body. remember (length p) as n eqn:Hn. revert p fuel Hn.
  induction (lt_wf n) as [n _ IH]. intros p fuel -> Hf.
  destruct p as [| c p]; [by destruct fuel |]. destruct fuel as [| fuel]; [cbn in Hf; lia |].
  cbn [unescape_loop length]. destruct (unescape_step (c :: p)) as [[x rest] |] eqn:Hs; [| done].
  apply unescape_step_spec in Hs as (_ & _ & Hl). cbn [length] in Hl, Hf. cbn [mbind option_bind].
  rewrite (IH (length rest) ltac:(cbn [length]; lia) rest fuel eq_refl ltac:(lia)).
  rewrite (IH (length rest) ltac:(cbn [length]; lia) rest (length p) eq_refl ltac:(lia)). done.
Qed.

Lemma unescape_body_step p x rest :
  unescape_step p = Some (x, rest) -> unescape_body p = (app x) <$> unescape_body rest.
Proof.
  intros Hs. destruct p as [| c p]; [done |]. unfold unescape_body at 1. cbn [unescape_loop length].
  rewrite Hs. apply unescape_step_spec in Hs as (_ & _ & Hl). cbn [length] in Hl. cbn [mbind option_bind].
  rewrite unescape_loop_fuel by lia. by destruct (unescape_body rest).
Qed.

Lemma unescape_body_fail c p : unescape_step (c :: p) = None -> unescape_body (c :: p) = None.
Proof. intros Hs. unfold unescape_body. cbn [unescape_loop length]. by rewrite Hs. Qed.

Lemma unescape_body_escape s : nonul s -> unescape_body (flat_map escape_char s) = Some s.
Proof.
  unfold nonul. induction s as [| c s IH]; intros Hn; [done |]. rewrite not_elem_of_cons in Hn. destruct Hn as [Hc Hn].
  cbn [flat_map]. rewrite (unescape_body_step _ [c] (flat_map escape_char s)), IH by (done || by apply step_escape).
  done.
Qed.

Lemma unescape_body_spec p out :
  unescape_body p = Some out -> nonul out /\ (length out <= length p)%nat.
Proof.
  remember (length p) as n eqn:Hn. revert p out Hn. induction (lt_wf n) as [n _ IH]. intros p out -> Hb.
  destruct p as [| c p]; [injection Hb as <-; split; [apply not_elem_of_nil | cbn; lia] |].
  destruct (unescape_step (c :: p)) as [[x rest] |] eqn:Hs; [| by rewrite unescape_body_fail in Hb].
  rewrite (unescape_body_step _ _ _ Hs) in Hb. apply unescape_step_spec in Hs as (Hx & Hl & Hlt).
  destruct (unescape_body rest) as [out' |] eqn:Hr; [| done]. cbn in Hb. injection Hb as <-.
  destruct (IH _ Hlt rest out' eq_refl Hr) as [Hn' Hl']. split; [| rewrite length_app; lia].
  unfold nonul. rewrite elem_of_app. by intros [].
Qed.

Lemma quoted_body_quotes body : quoted_body (QUOTE :: body ++ [QUOTE]) = Some body.
Proof.
  unfold quoted_body. rewrite rev_app_distr. cbn [rev app]. rewrite !bool_decide_true by done. cbn.
  by rewrite rev_involutive.
Qed.

Lemma quoted_body_length s body : quoted_body s = Some body -> length s = (length body + 2)%nat.
Proof.
  unfold quoted_body. destruct s as [| q t]; [done |]. destruct (rev t) as [| q' b] eqn:Hr; [done |].
  case_match; [| done]. intros [= <-]. apply (f_equal (length (A := ascii))) in Hr.
  rewrite length_rev in *. cbn [length] in *. lia.
Qed.

(** ** The token scanner *)

Lemma scan_str_escape s rest :
  scan_str (flat_map escape_char s ++ QUOTE :: rest) = Some (flat_map escape_char s, rest).
Proof.
  induction s as [| c s IH]; [done |]. cbn [flat_map]. by rewrite <- app_assoc, scan_escape, IH.
Qed.

Lemma json_parse_str_escape s rest :
  nonul s ->
  json_parse_str [] (QUOTE :: flat_map escape_char s ++ QUOTE :: rest) = (Some (s, rest), []).
Proof.
  intros Hs. unfold json_parse_str. rewrite bool_decide_true by done. cbn [negb].
  rewrite scan_str_escape. cbn [alloc negb json_unescape]. rewrite quoted_body_quotes.
  by rewrite unescape_body_escape.
Qed.

(** The scanner makes progress, and its strings hold no NUL. *)
Lemma scan_str_length s body rest : scan_str s = Some (body, rest) -> (length body + length rest < length s)%nat.
Proof.
  remember (length s) as n eqn:Hn. revert s body rest Hn. induction (lt_wf n) as [n _ IH].
  intros s body rest ->. destruct s as [| c s]; [done |]. cbn [scan_str length].
  case_bool_decide; [intros [= <- <-]; cbn; lia |]. destruct (code c <? 0x20); [done |].
  case_bool_decide.
  - destruct s as [| c' s]; [done |]. destruct (scan_str s) as [[b r] |] eqn:Hs; [| done].
    cbn [mbind option_bind]. intros [= <- <-].
    specialize (IH (length s) ltac:(cbn; lia) s b r eq_refl Hs). cbn [length]. lia.
  - destruct (scan_str s) as [[b r] |] eqn:Hs; [| done]. cbn [mbind option_bind]. intros [= <- <-].
    specialize (IH (length s) ltac:(cbn; lia) s b r eq_refl Hs). cbn [length]. lia.
Qed.

(** ** The contract *)

(** Escaping is lossless: any C string, control characters and quotes
    included, comes back from [json_unescape (json_escape s)], and the parser's token scanner
    reads the escaped string back from the middle of a text. *)
Theorem json_escape_roundtrip (s rest : bstr) (Hs : nonul s) :
  exists e, json_escape [] (Some s) = (Some e, []) /\
    json_unescape [] (Some e) = (Some s, []) /\
    json_parse_str [] (e ++ rest) = (Some (s, rest), []).
Proof.
  eexists. split; [done |]. split.
  - unfold json_unescape. rewrite quoted_body_quotes. cbn [alloc negb]. by rewrite unescape_body_escape.
  - cbn [app default]. rewrite <- app_assoc. by apply json_parse_str_escape.
Qed.

Lemma json_escape_roundtrip_witness :
  exists e, json_escape [] (Some [QUOTE; chr 1; BSLASH; chr 10; chr 200]) = (Some e, []) /\
    json_unescape [] (Some e) = (Some [QUOTE; chr 1; BSLASH; chr 10; chr 200], []) /\
    json_parse_str [] (e ++ B ": 1") = (Some ([QUOTE; chr 1; BSLASH; chr 10; chr 200], B ": 1"), []).
Proof. apply json_escape_roundtrip. unfold nonul. apply (bool_decide_unpack _). by vm_compute. Defined.

(** Whatever the input, the string [json_unescape] returns fits, with its
    terminator, in the [malloc(len)] buffer, and has no NUL inside, so no
    escape can truncate it. *)
Theorem json_unescape_safe (o o' : allocs) (s r : bstr)
    (Hr : json_unescape o (Some s) = (Some r, o')) :
  (length r + 1 <= length s)%nat /\ nonul r.
Proof.
  unfold json_unescape in Hr. destruct (quoted_body s) as [body |] eqn:Hb; [| done].
  apply quoted_body_length in Hb. destruct (alloc o) as [[] o1]; cbn [negb] in Hr; [| done].
  injection Hr as Hr _. apply unescape_body_spec in Hr as [Hn Hl]. split; [lia | done].
Qed.

(** A surrogate pair: six bytes of escapes become four bytes of UTF-8. *)
Definition clef : bstr := QUOTE :: B "\uD834\uDD1E" ++ [QUOTE].

Lemma json_unescape_safe_witness :
  json_unescape [] (Some clef) = (Some [chr 0xF0; chr 0x9D; chr 0x84; chr 0x9E], []) /\
  (4 + 1 <= length clef)%nat /\ nonul [chr 0xF0; chr 0x9D; chr 0x84; chr 0x9E].
Proof.
  assert (H : json_unescape [] (Some clef) = (Some [chr 0xF0; chr 0x9D; chr 0x84; chr 0x9E], [])) by (by vm_compute).
  split; [exact H |]. exact (json_unescape_safe [] [] clef _ H).
Defined.
