(* ===== verification/Json.v ===== *)
(** * JSON documents (json.c)

    The recursive-descent parser that flattens a document into a dictionary,
    the tree printer that turns a dictionary into text, and the varargs
    importer.  The parser runs in a small state and error monad over the
    dictionary and the outcomes of the allocations. *)

From S2P Require Import Prelude CString CFloat Dict JsonString.

#[local] Open Scope Z_scope.

Definition JSON_MAX_DEPTH : Z := 64.

(** ** The parser's monad

    The inner option is the NULL the C functions return on failure; the state
    is kept, as the C code keeps what it stored.  The outer option is
    termination. *)
Abbreviation pstate := (dict * allocs)%type.
Definition P (A : Type) : Type := pstate -> option (option A * pstate).

Definition pret {A} (a : A) : P A := fun st => Some (Some a, st).
Definition pfail {A} : P A := fun st => Some (None, st).
Definition pbind {A B} (m : P A) (f : A -> P B) : P B := fun st =>
  '(r, st) ← m st;
  match r with
  | Some a => f a st
  | None => Some (None, st)
  end.

Declare Scope json_scope.
Notation "'let*' x ':=' m 'in' k" := (pbind m (fun x => k)) (at level 200, x pattern, m at level 100, k at level 200) : json_scope.
#[local] Open Scope json_scope.

Definition guard (b : bool) : P unit := if b then pret tt else pfail.

(** A call that only allocates. *)
Definition with_alloc {A} (f : allocs -> option A * allocs) : P A := fun st =>
  let '(r, o) := f st.2 in Some (r, (st.1, o)).

(** [dict_get_type(d, path)] on the dictionary under construction. *)
Definition path_type (path : bstr) : P val_type := fun st =>
  t ← dict_get_type (Some st.1) (Some path); Some (Some t, st).

(** [if (dict_add_x(d, path, v) != 0) fail] *)
Definition add_value (path : bstr) (v : value) : P unit := fun st =>
  '(rc, d, o) ← dict_store st.2 st.1 (Some path) (Some v);
  Some (if rc =? 0 then Some tt else None, (d, o)).

(** [dict_get_type(keys, key) != VAL_END || dict_add_bool(keys, key, true)] *)
Definition new_key (keys : dict) (key : bstr) : P dict := fun st =>
  t ← dict_get_type (Some keys) (Some key);
  if negb (bool_decide (t = VAL_END)) then Some (None, st)
  else
    '(rc, keys, o) ← dict_add_bool st.2 keys (Some key) true;
    Some (if rc =? 0 then Some keys else None, (st.1, o)).

Definition make_keys : P dict := fun st => let '(r, o) := dict_new st.2 in Some (r, (st.1, o)).

Definition first_is (z : Z) (s : bstr) : bool := match s with c :: _ => code c =? z | [] => false end.
Definition LBRACE : Z := 123.
Definition RBRACE : Z := 125.
Definition LBRACK : Z := 91.
Definition RBRACK : Z := 93.
Definition COMMA : Z := 44.
Definition COLON : Z := 58.

(** ** Numbers *)

Fixpoint skip_digits (s : bstr) : bstr :=
  match s with
  | c :: s' => if isdigit c then skip_digits s' else s
  | [] => []
  end.

Definition first_digit (s : bstr) : bool := match s with c :: _ => isdigit c | [] => false end.

(** One digit at least, then all that follow. *)
Definition need_digits (s : bstr) : option bstr := if first_digit s then Some (skip_digits s) else None.

(** The grammar check on a primitive that is no literal. *)
Definition json_number_ok (val : bstr) : bool :=
  let number := if first_is 45 val then tl val else val in
  let int :=
    if first_is 48 number then Some (tl number)
    else if first_digit number then Some (skip_digits number)
    else None in
  let frac := s ← int; if first_is 46 s then need_digits (tl s) else Some s in
  let exp :=
    s ← frac;
    if first_is 101 s || first_is 69 s then
      let s := tl s in
      need_digits (if first_is 43 s || first_is 45 s then tl s else s)
    else Some s in
  match exp with Some [] => true | _ => false end.

Definition json_number_is_integer (s : bstr) : bool :=
  forallb (fun c => negb ((code c =? 46) || (code c =? 101) || (code c =? 69))) s.

(** [ep != val && *ep == '\0'] *)
Definition whole (ep val : bstr) : bool :=
  negb (Nat.eqb (length ep) (length val)) && match ep with [] => true | _ => false end.

(** The typed value of a number, [None] for [goto fail]. *)
Definition json_number (val : bstr) : option value :=
  if negb (json_number_ok val) then None
  else if json_number_is_integer val then
    let r := strtoll val in
    let ll := st_value r in
    if negb (st_erange r) && whole (st_end r) val then
      Some (if (INT_MIN <=? ll) && (ll <=? INT_MAX) then VInt ll
            else if (LONG_MIN <=? ll) && (ll <=? LONG_MAX) then VLong ll
            else VLlong ll)
    else if negb (first_is 45 val) then
      let r := strtoull val in
      let ull := st_value r in
      if st_erange r || negb (whole (st_end r) val) then None
      else Some (if ull <=? UINT_MAX then VUint ull
                 else if ull <=? ULONG_MAX then VUlong ull
                 else VUllong ull)
    else None
  else
    let r := strtod val in
    if sd_erange r || negb (whole (sd_end r) val) || negb (isfinite (sd_value r)) then None
    else Some (VDouble (sd_value r)).

(** The value of a primitive token. *)
Definition primitive_value (val : bstr) : option value :=
  if streq val (B "null") then Some VNull
  else if streq val (B "true") then Some (VBool 1)
  else if streq val (B "false") then Some (VBool 0)
  else json_number val.

(** ** The parser *)

Section containers.
(** [json_parse_value], one level down. *)
Variable json_parse_value : bstr -> bstr -> Z -> P bstr.

(** The loop over the members in [json_parse_obj].  A turn consumes a byte. *)
Fixpoint obj_loop (fuel : nat) (keys : dict) (s path : bstr) (depth : Z) : P bstr :=
  match fuel, s with
  | _, [] => pfail
  | O, _ => fun _ => None
  | S fuel, _ =>
      let* (key, s) := with_alloc (fun o => json_parse_str o s) in
      let* keys := new_key keys key in
      let s := skip_ws s in
      let* _ := guard (first_is COLON s) in
      let* newpath := with_alloc (fun o => path_append o path key) in
      let* s := json_parse_value (tl s) newpath (depth + 1) in
      let s := skip_ws s in
      if first_is RBRACE s then pret (tl s)
      else
        let* _ := guard (first_is COMMA s) in
        let s := skip_ws (tl s) in
        if first_is RBRACE s then pfail else obj_loop fuel keys s path depth
  end.

Definition json_parse_obj (s path : bstr) (depth : Z) : P bstr :=
  let s := skip_ws (tl s) in
  if first_is RBRACE s then pret (tl s)
  else let* keys := make_keys in obj_loop (length s) keys s path depth.

(** The key suffix of an array element; [idx] is an [unsigned]. *)
Definition idxbuf (idx : Z) : bstr := "["%char :: print_dec idx ++ ["]"%char].

Fixpoint array_loop (fuel : nat) (idx : Z) (s path : bstr) (depth : Z) : P bstr :=
  match fuel, s with
  | _, [] => pfail
  | O, _ => fun _ => None
  | S fuel, _ =>
      let* newpath := with_alloc (fun o => path_append o path (idxbuf idx)) in
      let* s := json_parse_value s newpath (depth + 1) in
      let s := skip_ws s in
      if first_is RBRACK s then pret (tl s)
      else
        let* _ := guard (first_is COMMA s) in
        let s := skip_ws (tl s) in
        if first_is RBRACK s then pfail else array_loop fuel (u32 (idx + 1)) s path depth
  end.

Definition json_parse_array (s path : bstr) (depth : Z) : P bstr :=
  let s := skip_ws (tl s) in
  if first_is RBRACK s then pret (tl s) else array_loop (length s) 0 s path depth.
End containers.

(** [fuel] counts the levels of nesting; the depth check stops at 65. *)
Fixpoint json_parse_value (fuel : nat) (s path : bstr) (depth : Z) : P bstr :=
  match fuel with
  | O => fun _ => None
  | S fuel =>
      let s := skip_ws s in
      let* _ := guard (negb (match s with [] => true | _ => false end || (JSON_MAX_DEPTH <? depth))) in
      let* t := path_type path in
      let* _ := guard (bool_decide (t = VAL_END)) in
      if first_is 34 s then
        let* (val, s) := with_alloc (fun o => json_parse_str o s) in
        let* _ := add_value path (VStr (Some val)) in
        pret s
      else if first_is LBRACE s then json_parse_obj (json_parse_value fuel) s path depth
      else if first_is LBRACK s then json_parse_array (json_parse_value fuel) s path depth
      else
        let* (val, s) := with_alloc (fun o => json_parse_primitive o s) in
        match primitive_value val with
        | None => pfail
        | Some v => let* _ := add_value path v in pret s
        end
  end.

Definition json_fuel : nat := 66.

(** The dictionary, or NULL for a text that is not exactly one JSON value. *)
Definition json2dict (o : allocs) (json : option bstr) : option (option dict * allocs) :=
  match json with
  | None | Some [] => Some (None, o)
  | Some json =>
      match dict_new o with
      | (None, o) => Some (None, o)
      | (Some d, o) =>
          '(res, (d, o)) ← json_parse_value json_fuel json [] 0 (d, o);
          Some (match res with
                | Some rest => match skip_ws rest with [] => Some d | _ => None end
                | None => None
                end, o)
      end
  end.

Definition json_parse_and_flatten (o : allocs) (json : option bstr) (d : dict) : option (dict * allocs) :=
  match json with
  | None => Some (d, o)
  | Some json => '(_, st) ← json_parse_value json_fuel json [] 0 (d, o); Some st
  end.

(** ** The tree the printer builds

    [next] is the order of the list of children; a new child goes to its front. *)
Inductive json_node := JNode (node_key : bstr) (node_value : option bstr) (node_child : list json_node).

Definition node_key (n : json_node) : bstr := let '(JNode k _ _) := n in k.
Definition node_value (n : json_node) : option bstr := let '(JNode _ v _) := n in v.
Definition node_child (n : json_node) : list json_node := let '(JNode _ _ c) := n in c.

Definition json_make_node (o : allocs) (key : bstr) : option json_node * allocs :=
  let '(ok, o) := alloc o in
  if negb ok then (None, o)
  else
    let '(ok, o) := alloc o in
    if negb ok then (None, o) else (Some (JNode key None []), o).

(** Where [find_child] finds the child, counted from the front. *)
Fixpoint child_index (l : list json_node) (key : bstr) : option nat :=
  match l with
  | [] => None
  | c :: l => if streq (node_key c) key then Some 0%nat else S <$> child_index l key
  end.

(** The index of the child in the updated list of children. *)
Definition find_child (o : allocs) (child : list json_node) (key : bstr) : option (nat * list json_node) * allocs :=
  match child_index child key with
  | Some i => (Some (i, child), o)
  | None =>
      let '(n, o) := json_make_node o key in
      (n ← n; Some (0%nat, n :: child), o)
  end.

(** The text of a value, [None] when the copy cannot be allocated. *)
Definition json_value_text (o : allocs) (v : value) : option bstr * allocs :=
  let strdup (s : bstr) := let '(ok, o) := alloc o in (if ok : bool then Some s else None, o) in
  match v with
  | VNull => strdup (B "null")
  | VStr s => json_escape o s
  | VChar c => json_escape o (Some (if bool_decide (chr c = NUL) then [] else [chr c]))
  | VBool i => strdup (if i =? 0 then B "false" else B "true")
  | VInt z | VUint z | VLong z | VUlong z | VLlong z | VUllong z => strdup (print_dec z)
  | VFloat f | VFloatP f => strdup (print_g 9 (f64_of_f32 f))
  | VDouble d | VDoubleP d => strdup (print_g 17 d)
  | VPtr _ | VEnd => strdup (B "null")
  end.

(** The tokens of [strtok_r(s, ".")]: the non-empty pieces between dots. *)
Fixpoint dot_tokens (cur s : bstr) : list bstr :=
  match s with
  | [] => match cur with [] => [] | _ => [rev cur] end
  | c :: s =>
      if bool_decide (c = "."%char) then
        match cur with [] => dot_tokens [] s | _ => rev cur :: dot_tokens [] s end
      else dot_tokens (c :: cur) s
  end.

(** The walk from [cur] along the tokens, and the assignment at its end. *)
Fixpoint insert_at (o : allocs) (toks : list bstr) (cur : json_node) (jsonval : bstr) : bool * json_node * allocs :=
  let '(JNode k v child) := cur in
  match toks with
  | [] => (true, JNode k (Some jsonval) child, o)
  | tok :: toks =>
      match find_child o child tok with
      | (None, o) => (false, cur, o)
      | (Some (i, child), o) =>
          match child !! i with
          | None => (false, cur, o)
          | Some c =>
              let '(ok, c, o) := insert_at o toks c jsonval in
              (ok, JNode k v (<[i := c]> child), o)
          end
      end
  end.

Definition json_insert (o : allocs) (root : json_node) (fullkey : bstr) (v : value) : Z * json_node * allocs :=
  let '(ok, o) := alloc o in                              (* tmp = strdup(fullkey) *)
  if negb ok then (-1, root, o)
  else
    match json_value_text o v with
    | (None, o) => (-1, root, o)
    | (Some jsonval, o) =>
        let '(ok, root, o) := insert_at o (dot_tokens [] fullkey) root jsonval in
        (if ok : bool then 0 else -1, root, o)
    end.

(** ** The string builder

    [sb_cap] is the capacity the code believes in, [sb_size] the size of the
    block it really has.  A write is in bounds while the text and its
    terminator fit [sb_size]. *)
Record sbuf := Sbuf { sb_text : bstr; sb_cap : Z; sb_size : Z }.

Definition sb_len (b : sbuf) : Z := Z.of_nat (length (sb_text b)).

Definition sbuf_init (o : allocs) : option sbuf * allocs :=
  let '(ok, o) := alloc o in
  (if ok : bool then Some (Sbuf [] 256 256) else None, o).

(** [true] is failure; the capacity is raised before [realloc] is tried. *)
Definition sbuf_putc (o : allocs) (b : sbuf) (c : ascii) : bool * sbuf * allocs :=
  if sb_cap b <? sb_len b + 2 then
    let cap := sb_cap b * 2 in
    let '(ok, o) := alloc o in
    if negb ok then (true, Sbuf (sb_text b) cap (sb_size b), o)
    else (false, Sbuf (sb_text b ++ [c]) cap cap, o)
  else (false, Sbuf (sb_text b ++ [c]) (sb_cap b) (sb_size b), o).

(** [while (len + slen + 1 > cap) cap *= 2]; 64 doublings overflow a [size_t]. *)
Fixpoint grow_cap (fuel : nat) (need cap : Z) : option Z :=
  match fuel with
  | O => None
  | S fuel => if cap <? need then grow_cap fuel need (cap * 2) else Some cap
  end.

Definition sbuf_puts (o : allocs) (b : sbuf) (s : bstr) : option (bool * sbuf * allocs) :=
  let need := sb_len b + Z.of_nat (length s) + 1 in
  if sb_cap b <? need then
    cap ← grow_cap 64 need (sb_cap b);
    let '(ok, o) := alloc o in
    if negb ok then Some (true, Sbuf (sb_text b) cap (sb_size b), o)
    else Some (false, Sbuf (sb_text b ++ s) cap cap, o)
  else Some (false, Sbuf (sb_text b ++ s) (sb_cap b) (sb_size b), o).

Definition is_nil {A} (l : list A) : bool := match l with [] => true | _ => false end.

(** The writes of [dump_json], which ignores what they return. *)
Definition wstate : Type := sbuf * allocs.
Definition put_char (c : Z) (st : wstate) : wstate :=
  let '(_, b, o) := sbuf_putc st.2 st.1 (chr c) in (b, o).
Definition put_str (s : bstr) (st : wstate) : option wstate :=
  '(_, b, o) ← sbuf_puts st.2 st.1 s; Some (b, o).

Fixpoint dump_json (n : json_node) (st : wstate) : option wstate :=
  let '(JNode _ _ child) := n in
  let fix children (l : list json_node) (st : wstate) : option wstate :=
    match l with
    | [] => Some st
    | c :: l =>
        let '(key, o) := json_escape st.2 (Some (node_key c)) in
        st ← match key with Some key => put_str key (st.1, o) | None => Some (st.1, o) end;
        let st := put_char COLON st in
        st ← match node_value c, node_child c with
             | Some v, [] => put_str v st
             | _, _ => dump_json c st
             end;
        let st := if is_nil l then st else put_char COMMA st in
        children l st
    end in
  st ← children child (put_char LBRACE st);
  Some (put_char RBRACE st).

Definition insert_entry (k : bstr) (v : value) (s : json_node * allocs) : option (bool * (json_node * allocs)) :=
  let '(rc, root, o) := json_insert s.2 s.1 k v in
  Some (rc =? 0, (root, o)).

(** The text, or NULL. *)
Definition dict2json (o : allocs) (d : option dict) : option (option bstr * allocs) :=
  match d with
  | None => Some (None, o)
  | Some d =>
      '(ok, (root, o)) ← enum_all d insert_entry (JNode [] None [], o);
      if negb ok then Some (None, o)
      else
        match sbuf_init o with
        | (None, o) => Some (None, o)
        | (Some b, o) => '(b, o) ← dump_json root (b, o); Some (Some (sb_text b), o)
        end
  end.

(** ** The varargs importer *)

(** One type, key and value of the argument list; a value the C code reads and
    drops has no field.  A [float] travels as a [double]. *)
Inductive va_item :=
| VaNull | VaStr (s : option bstr) | VaChar (i : Z) | VaInt (z : Z) | VaUint (z : Z) | VaLong (z : Z)
| VaUlong (z : Z) | VaLlong (z : Z) | VaUllong (z : Z) | VaFloat (d : spec_float) | VaDouble (d : spec_float)
| VaBool (i : Z) | VaFloatP (d : spec_float) | VaDoubleP (d : spec_float) | VaPtr | VaOther.

Definition import_item (o : allocs) (d : dict) (key : option bstr) (it : va_item) : option (Z * dict * allocs) :=
  match it with
  | VaNull => dict_add_null o d key
  | VaStr s => dict_add o d key s
  | VaChar i => dict_add_char o d key (swrap 8 i)
  | VaInt z => dict_add_int o d key z
  | VaUint z => dict_add_uint o d key z
  | VaLong z => dict_add_long o d key z
  | VaUlong z => dict_add_ulong o d key z
  | VaLlong z => dict_add_llong o d key z
  | VaUllong z => dict_add_ullong o d key z
  | VaFloat v | VaFloatP v => dict_add_float o d key (f32_of_f64 v)
  | VaDouble v | VaDoubleP v => dict_add_double o d key v
  | VaBool i => dict_add_bool o d key (negb (i =? 0))
  | VaPtr => dict_add_null o d key
  | VaOther => Some (0, d, o)
  end.

Fixpoint dict_import_va (o : allocs) (d : dict) (args : list (option bstr * va_item)) : option (dict * allocs) :=
  match args with
  | [] => Some (d, o)
  | (key, it) :: args =>
      '(_, d, o) ← import_item o d key it;
      dict_import_va o d args
  end.

(** With no memory for the dictionary every [dict_add] and [dict2json] reject NULL. *)
Definition dict2json_mkstr (o : allocs) (args : list (option bstr * va_item)) : option (option bstr * allocs) :=
  match dict_new o with
  | (None, o) => Some (None, o)
  | (Some d, o) => '(d, o) ← dict_import_va o d args; dict2json o (Some d)
  end.
