(* ===== verification/JsonTheory.v ===== *)
(** * The JSON parser: termination and equivalence with a reference (json.c)

    A weakest-precondition rule per monad operation, the totality of the
    parser on arbitrary text, and its agreement with the reference reading
    [absorb] of a JSON syntax tree. *)

From S2P Require Import Prelude CString CFloat Dict DictTheory JsonString JsonStringSpec Json.

#[local] Open Scope Z_scope.
#[local] Open Scope json_scope.

(** ** Rules *)

(** [m] returns from [st], and [Q] holds of the result and the state. *)
Definition returns {A} (m : P A) (st : pstate) (Q : option A -> pstate -> Prop) : Prop :=
  exists r st', m st = Some (r, st') /\ Q r st'.

Lemma returns_mono {A} (m : P A) st (Q Q' : option A -> pstate -> Prop) :
  returns m st Q -> (forall r st', Q r st' -> Q' r st') -> returns m st Q'.
Proof. intros (r & st' & Hm & HQ) Himp. exists r, st'. auto. Qed.

Lemma returns_bind {A B} (m : P A) (f : A -> P B) st Q :
  returns m st (fun r st' => match r with Some a => returns (f a) st' Q | None => Q None st' end) ->
  returns (pbind m f) st Q.
Proof.
  intros (r & st' & Hm & HQ). unfold returns, pbind. rewrite Hm. cbn. destruct r; [done |].
  by exists None, st'.
Qed.

Lemma returns_ret {A} (a : A) st (Q : option A -> pstate -> Prop) : Q (Some a) st -> returns (pret a) st Q.
Proof. intros HQ. by exists (Some a), st. Qed.

Lemma returns_fail {A} st (Q : option A -> pstate -> Prop) : Q None st -> returns pfail st Q.
Proof. intros HQ. by exists None, st. Qed.

Lemma returns_guard b st (Q : option unit -> pstate -> Prop) :
  (b = true -> Q (Some tt) st) -> (b = false -> Q None st) -> returns (guard b) st Q.
Proof. intros Ht Hf. destruct b; [apply returns_ret | apply returns_fail]; auto. Qed.

Lemma returns_with_alloc {A} (f : allocs -> option A * allocs) st (Q : option A -> pstate -> Prop) :
  (forall r o, f st.2 = (r, o) -> Q r (st.1, o)) -> returns (with_alloc f) st Q.
Proof.
  intros HQ. unfold returns, with_alloc. destruct (f st.2) as [r o] eqn:Hf. eauto.
Qed.

Lemma returns_path_type n path st Q :
  store_ready n st.1 -> (forall t, Q (Some t) st) -> returns (path_type path) st Q.
Proof.
  intros [Hwf _ Hn _ _] HQ. unfold returns, path_type. rewrite dict_get_type_map by done. cbn. eauto.
Qed.

Lemma returns_add_value n path v st Q :
  store_ready n st.1 -> 1 <= n ->
  (forall d o, store_ready (n - 1) d -> Q (Some tt) (d, o)) -> (forall o, Q None (st.1, o)) ->
  returns (add_value path v) st Q.
Proof.
  intros Hst Hn Hok Hfail. unfold returns, add_value.
  destruct (dict_store_ready n st.2 st.1 path v Hst Hn) as (rc & d & o & -> & Hres & _). cbn.
  destruct Hres as [(-> & Hd & _) | (-> & ->)]; cbn; eauto.
Qed.

Lemma returns_new_key n keys key st Q :
  store_ready n keys -> 1 <= n ->
  (forall keys' o, store_ready (n - 1) keys' -> Q (Some keys') (st.1, o)) -> (forall o, Q None (st.1, o)) ->
  returns (new_key keys key) st Q.
Proof.
  intros Hk Hn Hok Hfail. unfold returns, new_key, dict_add_bool. pose proof Hk as [Hwf _ Hnull _ _].
  rewrite dict_get_type_map by done. cbn [mbind option_bind]. destruct (negb _).
  { exists None, st. split; [done |]. destruct st. apply Hfail. }
  destruct (dict_store_ready n st.2 keys key (VBool 1) Hk Hn) as (rc & d & o & -> & Hres & _). cbn.
  destruct Hres as [(-> & Hd & _) | (-> & ->)]; cbn; eauto.
Qed.

Lemma returns_make_keys st Q :
  (forall o, Q (Some empty_dict) (st.1, o)) -> (forall o, Q None (st.1, o)) -> returns make_keys st Q.
Proof.
  intros Hok Hfail. unfold returns, make_keys. destruct (dict_new_spec st.2) as (r & o & -> & Hr & _).
  destruct Hr as [-> | ->]; eauto.
Qed.

(** ** The lexical level makes progress *)

Lemma skip_ws_length s : (length (skip_ws s) <= length s)%nat.
Proof. induction s as [| c s IH]; cbn [skip_ws]; [done |]. case_match; cbn [length]; lia. Qed.

Lemma tl_length (s : bstr) : s <> [] -> (length (tl s) < length s)%nat.
Proof. destruct s; cbn; [done | lia]. Qed.

Lemma first_is_cons z s : first_is z s = true -> s <> [].
Proof. by destruct s. Qed.

Lemma json_parse_str_length o s r rest o' :
  json_parse_str o s = (Some (r, rest), o') -> (length rest < length s)%nat.
Proof.
  unfold json_parse_str. destruct s as [| q s]; [done |]. destruct (negb _); [done |].
  destruct (scan_str s) as [[body rest'] |] eqn:Hs; [| done]. apply scan_str_length in Hs.
  destruct (alloc o) as [[] o1]; cbn [negb]; [| done].
  destruct (json_unescape o1 _) as [[out |] o2]; cbn; [| done]. intros [= <- <- <-]. lia.
Qed.

Lemma scan_primitive_length s : (length (scan_primitive s).1 + length (scan_primitive s).2 = length s)%nat.
Proof.
  induction s as [| c s IH]; cbn [scan_primitive]; [done |]. case_match; [cbn; lia |].
  destruct (scan_primitive s) as [w r]. cbn in *. lia.
Qed.

Lemma json_parse_primitive_length o s w rest o' :
  json_parse_primitive o s = (Some (w, rest), o') -> (length rest < length s)%nat.
Proof.
  unfold json_parse_primitive. pose proof (scan_primitive_length s) as Hl.
  destruct (scan_primitive s) as [[| c w'] r]; [done |]. destruct (alloc o) as [[] o1]; cbn [negb]; [| done].
  intros [= <- <- <-]. cbn in Hl. lia.
Qed.

(** ** Totality *)

Abbreviation zlen s := (Z.of_nat (length s)).

(** The parser consumed something and left room for as many more stores as it
    has bytes to read and [k] besides; after a failure the dictionary is still good. *)
Definition consumed (k : Z) (s : bstr) (r : option bstr) (st : pstate) : Prop :=
  match r with
  | Some rest => (length rest < length s)%nat /\ store_ready (zlen rest + k) st.1
  | None => store_ready 0 st.1
  end.

Lemma consumed_weaken k s s' r st : (length s' <= length s)%nat -> consumed k s' r st -> consumed k s r st.
Proof. intros Hl. destruct r; cbn; [intros [? ?]; split; [lia | done] | done]. Qed.

Lemma ready_bound n d : store_ready n d -> n < 2 ^ 28.
Proof.
  intros [Hwf _ _ _ Hu]. pose proof (dict_map_size d Hwf). lia.
Qed.

Ltac ready := (eapply store_ready_mono; [| eassumption]; lia).

Section loops.
Context (pv : bstr -> bstr -> Z -> P bstr) (depth : Z).
Hypothesis pv_total : forall s path k st, 0 <= k -> store_ready (zlen s + k) st.1 ->
  returns (pv s path (depth + 1)) st (consumed k s).

Lemma obj_loop_total fuel keys s path k st :
  (length s <= fuel)%nat -> 0 <= k -> store_ready (zlen s) keys -> store_ready (zlen s + k) st.1 ->
  returns (obj_loop pv fuel keys s path depth) st (consumed k s).
Proof.
  revert keys s st. induction fuel as [| fuel IH]; intros keys s st Hf Hk Hkeys Hst;
    (destruct s as [| c s0]; [apply returns_fail; cbn; ready |]); [cbn in Hf; lia |].
  cbn [obj_loop]. set (s := c :: s0) in *.
  apply returns_bind, returns_with_alloc. intros [[key s1] |] o1 Hs1; [| cbn; ready].
  apply json_parse_str_length in Hs1.
  apply returns_bind. eapply (returns_new_key (zlen s)); [done | cbn; lia | | intros o; cbn; ready].
  intros keys' o2 Hkeys'. apply returns_bind. pose proof (skip_ws_length s1) as Hw1.
  apply returns_guard; [intros Hc%first_is_cons | intros _; cbn; ready].
  apply tl_length in Hc. apply returns_bind, returns_with_alloc. intros [np |] o3 _; [| cbn; ready].
  apply returns_bind. eapply returns_mono; [apply (pv_total _ _ k) |]; [done | cbn; ready |].
  intros [s2 |] st3; [| done]. intros [Hl2 Hst3]. pose proof (skip_ws_length s2) as Hw2.
  destruct (first_is RBRACE (skip_ws s2)) eqn:Hb.
  { apply first_is_cons, tl_length in Hb. apply returns_ret. split; [lia | ready]. }
  apply returns_bind, returns_guard; [intros Hcm%first_is_cons | intros _; cbn; ready].
  apply tl_length in Hcm. pose proof (skip_ws_length (tl (skip_ws s2))) as Hw3.
  destruct (first_is RBRACE (skip_ws (tl (skip_ws s2)))); [apply returns_fail; cbn; ready |].
  eapply returns_mono; [apply IH; [lia | done | ready | ready] |].
  intros r st4. apply consumed_weaken. lia.
Qed.

Lemma json_parse_obj_total s path k st :
  s <> [] -> 0 <= k -> store_ready (zlen s + k) st.1 ->
  returns (json_parse_obj pv s path depth) st (consumed k s).
Proof.
  intros Hs Hk Hst. unfold json_parse_obj. apply tl_length in Hs. pose proof (skip_ws_length (tl s)) as Hw.
  destruct (first_is RBRACE (skip_ws (tl s))) eqn:Hb.
  { apply first_is_cons, tl_length in Hb. apply returns_ret. split; [lia | ready]. }
  apply returns_bind, returns_make_keys; [intros o | intros o; cbn; ready].
  eapply returns_mono; [apply obj_loop_total; [done | done | apply empty_ready | cbn; ready] |].
  - pose proof (ready_bound _ _ Hst). lia.
  - intros r st'. apply consumed_weaken. lia.
Qed.

Lemma array_loop_total fuel idx s path k st :
  (length s <= fuel)%nat -> 0 <= k -> store_ready (zlen s + k) st.1 ->
  returns (array_loop pv fuel idx s path depth) st (consumed k s).
Proof.
  revert idx s st. induction fuel as [| fuel IH]; intros idx s st Hf Hk Hst;
    (destruct s as [| c s0]; [apply returns_fail; cbn; ready |]); [cbn in Hf; lia |].
  cbn [array_loop]. set (s := c :: s0) in *.
  apply returns_bind, returns_with_alloc. intros [np |] o1 _; [| cbn; ready].
  apply returns_bind. eapply returns_mono; [apply (pv_total _ _ k) |]; [done | exact Hst |].
  intros [s2 |] st3; [| done]. intros [Hl2 Hst3]. pose proof (skip_ws_length s2) as Hw2.
  destruct (first_is RBRACK (skip_ws s2)) eqn:Hb.
  { apply first_is_cons, tl_length in Hb. apply returns_ret. split; [lia | ready]. }
  apply returns_bind, returns_guard; [intros Hcm%first_is_cons | intros _; cbn; ready].
  apply tl_length in Hcm. pose proof (skip_ws_length (tl (skip_ws s2))) as Hw3.
  destruct (first_is RBRACK (skip_ws (tl (skip_ws s2)))); [apply returns_fail; cbn; ready |].
  eapply returns_mono; [apply IH; [lia | done | ready] |].
  intros r st4. apply consumed_weaken. lia.
Qed.

Lemma json_parse_array_total s path k st :
  s <> [] -> 0 <= k -> store_ready (zlen s + k) st.1 ->
  returns (json_parse_array pv s path depth) st (consumed k s).
Proof.
  intros Hs Hk Hst. unfold json_parse_array. apply tl_length in Hs. pose proof (skip_ws_length (tl s)) as Hw.
  destruct (first_is RBRACK (skip_ws (tl s))) eqn:Hb.
  { apply first_is_cons, tl_length in Hb. apply returns_ret. split; [lia | ready]. }
  eapply returns_mono; [apply array_loop_total; [done | done | ready] |].
  intros r st'. apply consumed_weaken. lia.
Qed.
End loops.

Lemma json_parse_value_total fuel s path depth k st :
  0 <= depth <= 65 -> 66 <= depth + Z.of_nat fuel -> 0 <= k -> store_ready (zlen s + k) st.1 ->
  returns (json_parse_value fuel s path depth) st (consumed k s).
Proof.
  revert s path depth k st. induction fuel as [| fuel IH]; intros s path depth k st Hd Hf Hk Hst; [lia |].
  cbn [json_parse_value]. pose proof (skip_ws_length s) as Hw.
  apply returns_bind, returns_guard; [intros Hg | intros _; cbn; ready].
  apply negb_true_iff, orb_false_iff in Hg as [Hne Hdepth%Z.ltb_ge]. unfold JSON_MAX_DEPTH in Hdepth.
  assert (Hs : skip_ws s <> []) by (by destruct (skip_ws s)).
  apply returns_bind. eapply returns_path_type; [done |]. intros t.
  apply returns_bind, returns_guard; [intros _ | intros _; cbn; ready].
  assert (Hpv : forall s' path' k' st', 0 <= k' -> store_ready (zlen s' + k') st'.1 ->
    returns (json_parse_value fuel s' path' (depth + 1)) st' (consumed k' s')).
  { intros s' path' k' st' Hk' Hst'. apply IH; [lia | lia | done | done]. }
  assert (Hst' : store_ready (zlen (skip_ws s) + k) st.1) by ready.
  apply (returns_mono _ _ (consumed k (skip_ws s))); [| intros r st' Hc; by eapply consumed_weaken].
  clear Hst Hw. generalize dependent (skip_ws s). intros s1 Hne Hs1 Hst.
  assert (Hpos : (0 < length s1)%nat) by (destruct s1; [done | cbn; lia]).
  destruct (first_is 34 s1).
  { apply returns_bind, returns_with_alloc. intros [[val s2] |] o2 Hs2; [| cbn; ready].
    apply json_parse_str_length in Hs2. apply returns_bind.
    eapply (returns_add_value (zlen s1 + k)); [done | lia | | intros o; cbn; ready].
    intros d o Hd'. apply returns_ret. split; [done | cbn; ready]. }
  destruct (first_is LBRACE s1); [by apply json_parse_obj_total |].
  destruct (first_is LBRACK s1); [by apply json_parse_array_total |].
  apply returns_bind, returns_with_alloc. intros [[val s2] |] o2 Hs2; [| cbn; ready].
  apply json_parse_primitive_length in Hs2. destruct (primitive_value val) as [v |]; [| apply returns_fail; cbn; ready].
  apply returns_bind. eapply (returns_add_value (zlen s1 + k)); [done | lia | | intros o; cbn; ready].
  intros d o Hd'. apply returns_ret. split; [done | cbn; ready].
Qed.

Lemma json2dict_total o s :
  zlen s < 2 ^ 28 ->
  exists r o', json2dict o (Some s) = Some (r, o') /\
    match r with Some d => store_ready 0 d | None => True end.
Proof.
  intros Hs. destruct s as [| c s]; [by exists None, o |]. cbn [json2dict].
  destruct (dict_new_spec o) as (r & o1 & -> & [-> | ->] & _); [| by exists None, o1].
  destruct (json_parse_value_total json_fuel (c :: s) [] 0 0 (empty_dict, o1)) as (r & [d o2] & -> & Hc);
    [lia | unfold json_fuel; lia | lia | apply empty_ready; lia |].
  cbn [mbind option_bind]. eexists _, o2. split; [done |]. destruct r as [rest |]; [| done].
  destruct Hc as [_ Hd]. destruct (skip_ws rest); [| done]. cbn in Hd. ready.
Qed.
