(* ===== verification/JsonRef.v ===== *)
(** * The meaning of a JSON document (json.c)

    A syntax tree, its compact text, and the reference reading [absorb]: the
    flat map the parser is to build, or a refusal.  The parser agrees with the
    reference on the text of every tree. *)

From S2P Require Import Prelude CString CFloat Dict DictTheory JsonString JsonStringSpec Json JsonTheory.

#[local] Open Scope Z_scope.

(** ** Trees and text *)

(** [JPrim] holds the token of a number or a literal. *)
Inductive json :=
| JPrim (tok : bstr)
| JStr (s : bstr)
| JArr (l : list json)
| JObj (l : list (bstr * json)).

Section json_ind.
Context (Q : json -> Prop) (Hprim : forall tok, Q (JPrim tok)) (Hstr : forall s, Q (JStr s))
  (Harr : forall l, Forall Q l -> Q (JArr l)) (Hobj : forall l, Forall (fun kv => Q kv.2) l -> Q (JObj l)).

Fixpoint json_ind' (j : json) : Q j :=
  match j with
  | JPrim tok => Hprim tok
  | JStr s => Hstr s
  | JArr l =>
      Harr l ((fix go l : Forall Q l :=
        match l with [] => List.Forall_nil Q | j :: l => @List.Forall_cons _ Q j l (json_ind' j) (go l) end) l)
  | JObj l =>
      Hobj l ((fix go l : Forall (fun kv => Q kv.2) l :=
        match l with
        | [] => List.Forall_nil _
        | (k, j) :: l => @List.Forall_cons _ (fun kv => Q kv.2) (k, j) l (json_ind' j) (go l)
        end) l)
  end.
End json_ind.

Definition quote (s : bstr) : bstr := QUOTE :: flat_map escape_char s ++ [QUOTE].

(** The members separated by commas. *)
Fixpoint commas (l : list bstr) : bstr :=
  match l with
  | [] => []
  | [x] => x
  | x :: l => x ++ chr COMMA :: commas l
  end.

Fixpoint print (j : json) : bstr :=
  match j with
  | JPrim tok => tok
  | JStr s => quote s
  | JArr l => chr LBRACK :: commas (map print l) ++ [chr RBRACK]
  | JObj l => chr LBRACE :: commas (map (fun '(k, v) => quote k ++ chr COLON :: print v) l) ++ [chr RBRACE]
  end.

(** A token the lexer delimits: not empty, no delimiter inside, and not the
    start of a string or container. *)
Definition token_ok (tok : bstr) : bool :=
  match tok with
  | [] => false
  | c :: _ => forallb (fun c => negb (ends_primitive c)) tok && negb ((code c =? 34) || (code c =? LBRACE) || (code c =? LBRACK))
  end.

Fixpoint json_wf (j : json) : Prop :=
  match j with
  | JPrim tok => token_ok tok = true
  | JStr s => nonul s
  | JArr l => (fix go l := match l with [] => True | j :: l => json_wf j /\ go l end) l
  | JObj l => (fix go l := match l with [] => True | (k, j) :: l => nonul k /\ json_wf j /\ go l end) l
  end.

(** The stores the parser makes for a tree, and one per member for the key sets. *)
Fixpoint weight (j : json) : Z :=
  match j with
  | JPrim _ | JStr _ => 1
  | JArr l => (fix go l := match l with [] => 0 | j :: l => weight j + go l end) l
  | JObj l => (fix go l := match l with [] => 0 | (k, j) :: l => 1 + weight j + go l end) l
  end.

(** ** The reference reading *)

(** The key of a member or element. *)
Definition path_join (base suffix : bstr) : bstr :=
  match suffix, base with
  | c :: _, _ =>
      if bool_decide (c = "["%char) then base ++ suffix
      else match base with [] => suffix | _ => base ++ "."%char :: suffix end
  | [], [] => suffix
  | [], _ => base ++ "."%char :: suffix
  end.

(** The map after reading [j] at [path], [None] when the document is refused: it nests
    deeper than 64 levels, a path is already taken, an object repeats a key, or
    a token is no value. *)
Fixpoint absorb (depth : Z) (path : bstr) (j : json) (m : gmap bstr value) : option (gmap bstr value) :=
  if JSON_MAX_DEPTH <? depth then None
  else if bool_decide (is_Some (m !! path)) then None
  else
    match j with
    | JPrim tok => v ← primitive_value tok; Some (<[path := v]> m)
    | JStr s => Some (<[path := VStr (Some s)]> m)
    | JArr l =>
        (fix elements (idx : Z) (l : list json) (m : gmap bstr value) : option (gmap bstr value) :=
           match l with
           | [] => Some m
           | j :: l =>
               m ← absorb (depth + 1) (path_join path (idxbuf idx)) j m;
               elements (u32 (idx + 1)) l m
           end) 0 l m
    | JObj l =>
        (fix members (seen : list bstr) (l : list (bstr * json)) (m : gmap bstr value) : option (gmap bstr value) :=
           match l with
           | [] => Some m
           | (k, j) :: l =>
               if bool_decide (k ∈ seen) then None
               else
                 m ← absorb (depth + 1) (path_join path k) j m;
                 members (k :: seen) l m
           end) [] l m
    end.

(** The loops of [absorb], named. *)
Section loops.
Context (ab : bstr -> json -> gmap bstr value -> option (gmap bstr value)) (path : bstr).

Fixpoint absorb_elements (idx : Z) (l : list json) (m : gmap bstr value) : option (gmap bstr value) :=
  match l with
  | [] => Some m
  | j :: l => m ← ab (path_join path (idxbuf idx)) j m; absorb_elements (u32 (idx + 1)) l m
  end.

Fixpoint absorb_members (seen : list bstr) (l : list (bstr * json)) (m : gmap bstr value) : option (gmap bstr value) :=
  match l with
  | [] => Some m
  | (k, j) :: l =>
      if bool_decide (k ∈ seen) then None
      else m ← ab (path_join path k) j m; absorb_members (k :: seen) l m
  end.
End loops.

Lemma absorb_eq depth path j m :
  absorb depth path j m =
  if JSON_MAX_DEPTH <? depth then None
  else if bool_decide (is_Some (m !! path)) then None
  else
    match j with
    | JPrim tok => v ← primitive_value tok; Some (<[path := v]> m)
    | JStr s => Some (<[path := VStr (Some s)]> m)
    | JArr l => absorb_elements (absorb (depth + 1)) path 0 l m
    | JObj l => absorb_members (absorb (depth + 1)) path [] l m
    end.
Proof. by destruct j. Qed.

(** ** Agreement: the pieces *)

Lemma pbind_some {A B} (m : P A) (f : A -> P B) st a st' : m st = Some (Some a, st') -> pbind m f st = f a st'.
Proof. intros Hm. unfold pbind. by rewrite Hm. Qed.

Lemma pbind_none {A B} (m : P A) (f : A -> P B) st st' : m st = Some (None, st') -> pbind m f st = Some (None, st').
Proof. intros Hm. unfold pbind. by rewrite Hm. Qed.

(** Entries of type [VAL_END] would look absent; the parser never makes one. *)
Definition no_end (m : gmap bstr value) : Prop := forall k v, m !! k = Some v -> type_of v <> VAL_END.

(** [f] run on [d] stops at [rest] with the map [r], or fails with it. *)
Definition reads (f : P bstr) (d : dict) (rest : bstr) (r : option (gmap bstr value)) (n : Z) : Prop :=
  match r with
  | Some m => exists d', f (d, []) = Some (Some rest, (d', [])) /\ dict_map d' = m /\ no_end m /\ store_ready n d'
  | None => exists st, f (d, []) = Some (None, st)
  end.

Lemma reads_bind {A} (m : P A) (f : A -> P bstr) d a d1 rest r n :
  m (d, []) = Some (Some a, (d1, [])) -> reads (f a) d1 rest r n -> reads (pbind m f) d rest r n.
Proof. intros Hm. unfold reads. by rewrite (pbind_some _ _ _ _ _ Hm). Qed.

(** Sequencing after a value that reads as [r1]. *)
Lemma reads_seq (m : P bstr) (f : bstr -> P bstr) d rest1 r1 n1 rest k n :
  reads m d rest1 r1 n1 ->
  (forall d1 m1, r1 = Some m1 -> dict_map d1 = m1 -> no_end m1 -> store_ready n1 d1 -> reads (f rest1) d1 rest (k m1) n) ->
  reads (pbind m f) d rest (r1 ≫= k) n.
Proof.
  unfold reads at 1. destruct r1 as [m1 |]; cbn.
  - intros (d1 & Hm & Hd1 & He1 & Hn1) Hf. eapply reads_bind; [exact Hm |]. by apply Hf.
  - intros [st Hm] _. exists st. by apply pbind_none.
Qed.

Lemma add_value_reads d path v n :
  store_ready (n + 1) d -> 0 <= n ->
  exists d', add_value path v (d, []) = Some (Some tt, (d', [])) /\
    dict_map d' = <[path := v]> (dict_map d) /\ store_ready n d'.
Proof.
  intros Hd Hn. unfold add_value. cbn [fst snd].
  destruct (dict_store_ready (n + 1) [] d path v Hd ltac:(lia)) as (rc & d' & o & -> & Hres & Ho).
  destruct (Ho eq_refl) as [-> ->]. cbn. exists d'. replace (n + 1 - 1) with n in Hres by lia.
  destruct Hres as [(_ & Hr & Hm) | [? _]]; [by split_and! | done].
Qed.

Lemma path_type_reads d path n :
  store_ready n d ->
  path_type path (d, []) = Some (Some (match dict_map d !! path with Some v => type_of v | None => VAL_END end), (d, [])).
Proof. intros [Hwf _ Hn _ _]. unfold path_type. cbn [fst]. by rewrite dict_get_type_map. Qed.

Lemma no_end_free (m : gmap bstr value) path :
  no_end m ->
  bool_decide (match m !! path with Some v => type_of v | None => VAL_END end = VAL_END) =
  negb (bool_decide (is_Some (m !! path))).
Proof.
  intros Hm. destruct (m !! path) as [v |] eqn:Hv.
  - rewrite (bool_decide_true (is_Some _)) by eauto. apply bool_decide_false. by eapply Hm.
  - rewrite (bool_decide_false (is_Some _)) by apply is_Some_None. by rewrite bool_decide_true.
Qed.

Lemma no_end_insert m path v : no_end m -> type_of v <> VAL_END -> no_end (<[path := v]> m).
Proof. intros Hm Hv k w. rewrite lookup_insert_Some. intros [[<- <-] | [_ Hk]]; [done | by eapply Hm]. Qed.

Lemma path_append_reads d path suffix :
  with_alloc (fun o => path_append o path suffix) (d, []) = Some (Some (path_join path suffix), (d, [])).
Proof. done. Qed.

Lemma parse_str_reads d s rest :
  nonul s ->
  with_alloc (fun o => json_parse_str o (quote s ++ rest)) (d, []) = Some (Some (s, rest), (d, [])).
Proof.
  intros Hs. unfold with_alloc, quote. cbn [snd fst app]. rewrite <- app_assoc.
  change ([QUOTE] ++ rest) with (QUOTE :: rest). by rewrite json_parse_str_escape.
Qed.

(** Texts that end a primitive token. *)
Definition delimited (rest : bstr) : Prop := match rest with [] => True | c :: _ => ends_primitive c = true end.

Lemma scan_primitive_token tok rest :
  forallb (fun c => negb (ends_primitive c)) tok = true -> delimited rest -> scan_primitive (tok ++ rest) = (tok, rest).
Proof.
  intros Ht Hr. induction tok as [| c tok IH]; cbn [app scan_primitive].
  - destruct rest as [| c rest]; [done |]. cbn [scan_primitive]. cbn in Hr. by rewrite Hr.
  - cbn in Ht. apply andb_true_iff in Ht as [Hc%negb_true_iff Ht]. by rewrite Hc, IH.
Qed.

Lemma first_is_code z c s : first_is z (c :: s) = (code c =? z).
Proof. done. Qed.

(** The first byte of a text: neither space nor a closing bracket nor a comma. *)
Lemma print_first j : json_wf j -> exists c t, print j = c :: t /\ ends_primitive c = false.
Proof.
  destruct j as [tok | s | l | l]; cbn [json_wf print]; intros Hwf; [| by eexists _, _..].
  destruct tok as [| c tok]; [done |]. exists c, tok. split; [done |].
  unfold token_ok in Hwf. cbn in Hwf. apply andb_true_iff in Hwf as [[Hc%negb_true_iff _]%andb_true_iff _]. done.
Qed.

Lemma ends_ws c : ends_primitive c = false ->
  is_ws c = false /\ (code c =? COMMA) = false /\ (code c =? RBRACK) = false /\ (code c =? RBRACE) = false.
Proof. unfold ends_primitive. by intros [[[? ?]%orb_false_iff ?]%orb_false_iff ?]%orb_false_iff. Qed.

Lemma skip_ws_print j rest : json_wf j -> skip_ws (print j ++ rest) = print j ++ rest.
Proof.
  intros (c & t & -> & Hc)%print_first. cbn [app skip_ws]. by rewrite (proj1 (ends_ws c Hc)).
Qed.

Lemma print_not_closing j rest :
  json_wf j -> first_is RBRACK (print j ++ rest) = false /\ first_is RBRACE (print j ++ rest) = false.
Proof.
  intros (c & t & -> & Hc)%print_first. cbn [app first_is]. by destruct (ends_ws c Hc) as (_ & _ & ? & ?).
Qed.

(** ** Agreement: the containers *)

Definition value_reads (fuel : nat) (depth : Z) (j : json) : Prop :=
  forall rest path d n, 0 <= n -> delimited rest -> no_end (dict_map d) -> store_ready (n + weight j) d ->
    reads (json_parse_value fuel (print j ++ rest) path depth) d rest (absorb depth path j (dict_map d)) n.

Definition weights (l : list json) : Z := weight (JArr l).

Lemma weights_cons j l : weights (j :: l) = weight j + weights l.
Proof. done. Qed.

Lemma weight_nonneg j : 0 <= weight j.
Proof.
  induction j as [tok | s | l IH | l IH] using json_ind'; cbn; [lia | lia | |].
  - induction IH as [| j l Hj _ IHl]; [done |]. lia.
  - induction IH as [| [k j] l Hj _ IHl]; [done |]. cbn in Hj. lia.
Qed.

Lemma weights_nonneg l : 0 <= weights l.
Proof. apply weight_nonneg. Qed.

Lemma commas_cons x y l : commas (x :: y :: l) = x ++ chr COMMA :: commas (y :: l).
Proof. done. Qed.

(** What follows an element: the closing bracket, or a comma and the other elements. *)
Lemma after_sep (x : bstr) l close rest :
  exists t, commas (x :: l) ++ close :: rest = x ++ t /\
    t = match l with [] => close :: rest | _ => chr COMMA :: commas l ++ close :: rest end.
Proof.
  destruct l as [| y l]; [by exists (close :: rest) |]. eexists. split; [| done].
  rewrite commas_cons. by rewrite <- app_assoc.
Qed.

Lemma array_loop_S pv lf idx s path depth :
  s <> [] ->
  array_loop pv (S lf) idx s path depth =
  pbind (with_alloc (fun o => path_append o path (idxbuf idx))) (fun newpath =>
  pbind (pv s newpath (depth + 1)) (fun s =>
    if first_is RBRACK (skip_ws s) then pret (tl (skip_ws s))
    else pbind (guard (first_is COMMA (skip_ws s))) (fun _ =>
      if first_is RBRACK (skip_ws (tl (skip_ws s))) then pfail
      else array_loop pv lf (u32 (idx + 1)) (skip_ws (tl (skip_ws s))) path depth))).
Proof. by destruct s. Qed.

Lemma skip_ws_sep z t : is_ws (chr z) = false -> skip_ws (chr z :: t) = chr z :: t.
Proof. intros Hz. cbn [skip_ws]. by rewrite Hz. Qed.

Lemma skip_ws_quote t : skip_ws (QUOTE :: t) = QUOTE :: t.
Proof. done. Qed.

Section array.
Context (fuel : nat) (depth : Z) (path rest : bstr).

Lemma array_loop_reads l lf idx d n :
  Forall (value_reads fuel (depth + 1)) l -> Forall json_wf l -> l <> [] ->
  (length l <= lf)%nat -> 0 <= n -> no_end (dict_map d) -> store_ready (n + weights l) d ->
  reads (array_loop (json_parse_value fuel) lf idx (commas (map print l) ++ chr RBRACK :: rest) path depth)
    d rest (absorb_elements (absorb (depth + 1)) path idx l (dict_map d)) n.
Proof.
  intros Hl Hwf. revert lf idx d. induction Hl as [| j l Hj Hl IH]; intros lf idx d Hne Hlf Hn Hend Hd; [done |].
  inversion Hwf as [| ? ? Hwj Hwl]; subst. rewrite weights_cons in Hd. pose proof (weights_nonneg l) as Hwt.
  destruct lf as [| lf]; [cbn in Hlf; lia |]. cbn [map].
  destruct (after_sep (print j) (map print l) (chr RBRACK) rest) as (t & -> & Ht).
  destruct (print_first j Hwj) as (c & t0 & Hp & Hc).
  rewrite array_loop_S by (rewrite Hp; done).
  eapply reads_bind; [apply path_append_reads |]. cbn [absorb_elements].
  eapply (reads_seq _ _ _ t _ (n + weights l)).
  { apply Hj; [lia | | done | by replace (n + weights l + weight j) with (n + (weight j + weights l)) by lia].
    rewrite Ht. by destruct (map print l). }
  intros d1 m1 _ <- Hend1 Hd1. rewrite Ht. destruct l as [| j' l'].
  - cbn. exists d1. split_and!; [done | done | done |]. eapply store_ready_mono; [| exact Hd1]. lia.
  - cbn [map]. inversion Hwl as [| ? ? Hwj' _]; subst.
    destruct (after_sep (print j') (map print l') (chr RBRACK) rest) as (t' & Heq & _).
    rewrite skip_ws_sep by done. change (first_is RBRACK (chr COMMA :: _)) with false. cbv iota.
    eapply reads_bind; [done |]. cbn [tl]. rewrite Heq, (skip_ws_print j') by done.
    rewrite (proj1 (print_not_closing j' _ Hwj')), <- Heq.
    apply (IH Hwl lf (u32 (idx + 1)) d1); [done | cbn [length] in *; lia | done | done | done].
Qed.
End array.

Definition member (kv : bstr * json) : bstr := quote kv.1 ++ chr COLON :: print kv.2.

Lemma obj_loop_S pv lf keys s path depth :
  s <> [] ->
  obj_loop pv (S lf) keys s path depth =
  pbind (with_alloc (fun o => json_parse_str o s)) (fun '(key, s) =>
  pbind (new_key keys key) (fun keys =>
  pbind (guard (first_is COLON (skip_ws s))) (fun _ =>
  pbind (with_alloc (fun o => path_append o path key)) (fun newpath =>
  pbind (pv (tl (skip_ws s)) newpath (depth + 1)) (fun s =>
    if first_is RBRACE (skip_ws s) then pret (tl (skip_ws s))
    else pbind (guard (first_is COMMA (skip_ws s))) (fun _ =>
      if first_is RBRACE (skip_ws (tl (skip_ws s))) then pfail
      else obj_loop pv lf keys (skip_ws (tl (skip_ws s))) path depth)))))).
Proof. by destruct s. Qed.

(** The key set of the C code and the list of keys of the reference. *)
Definition same_keys (keys : dict) (seen : list bstr) : Prop :=
  no_end (dict_map keys) /\ forall k, is_Some (dict_map keys !! k) <-> k ∈ seen.

Lemma new_key_reads keys seen key d n :
  same_keys keys seen -> store_ready (n + 1) keys -> 0 <= n ->
  if bool_decide (key ∈ seen) then new_key keys key (d, []) = Some (None, (d, []))
  else exists keys', new_key keys key (d, []) = Some (Some keys', (d, [])) /\
    same_keys keys' (key :: seen) /\ store_ready n keys'.
Proof.
  intros [Hend Hsame] Hk Hn. pose proof Hk as [Hwf _ Hnull _ _]. unfold new_key.
  rewrite dict_get_type_map by done. cbn [mbind option_bind fst snd]. rewrite no_end_free by done.
  rewrite negb_involutive. case_bool_decide as Hin.
  - by rewrite bool_decide_true by by apply Hsame.
  - rewrite bool_decide_false by by rewrite Hsame. unfold dict_add_bool.
    destruct (dict_store_ready (n + 1) [] keys key (VBool 1) Hk ltac:(lia)) as (rc & keys' & o & -> & Hres & Ho).
    destruct (Ho eq_refl) as [-> ->]. cbn. exists keys'. replace (n + 1 - 1) with n in Hres by lia.
    destruct Hres as [(_ & Hr & Hm) | [? _]]; [| done]. split_and!; [done | | done]. split.
    + rewrite Hm. by apply no_end_insert.
    + intros k. rewrite Hm, lookup_insert_is_Some, elem_of_cons, Hsame.
      destruct (decide (k = key)) as [-> | Hne]; naive_solver.
Qed.

Definition member_weights (l : list (bstr * json)) : Z := weight (JObj l).

Lemma member_weights_cons kv l : member_weights (kv :: l) = 1 + weight kv.2 + member_weights l.
Proof. by destruct kv. Qed.

Lemma member_weights_length l : Z.of_nat (length l) <= member_weights l.
Proof.
  induction l as [| kv l IH]; [done |]. rewrite member_weights_cons. pose proof (weight_nonneg kv.2). cbn [length]. lia.
Qed.

Section object.
Context (fuel : nat) (depth : Z) (path rest : bstr).

Lemma obj_loop_reads l lf keys seen d n :
  Forall (fun kv => value_reads fuel (depth + 1) kv.2) l -> Forall (fun kv => nonul kv.1 /\ json_wf kv.2) l -> l <> [] ->
  (length l <= lf)%nat -> 0 <= n -> no_end (dict_map d) ->
  same_keys keys seen -> store_ready (Z.of_nat (length l)) keys -> store_ready (n + member_weights l) d ->
  reads (obj_loop (json_parse_value fuel) lf keys (commas (map member l) ++ chr RBRACE :: rest) path depth)
    d rest (absorb_members (absorb (depth + 1)) path seen l (dict_map d)) n.
Proof.
  intros Hl Hwf. revert lf keys seen d.
  induction Hl as [| [k j] l Hj Hl IH]; intros lf keys seen d Hne Hlf Hn Hend Hsame Hkeys Hd; [done |].
  inversion Hwf as [| ? ? [Hwk Hwj] Hwl]; subst. rewrite member_weights_cons in Hd. cbn [fst snd] in *.
  pose proof (member_weights_length l) as Hwt. pose proof (weight_nonneg j) as Hw0.
  destruct lf as [| lf]; [cbn in Hlf; lia |]. cbn [map].
  destruct (after_sep (member (k, j)) (map member l) (chr RBRACE) rest) as (t & -> & Ht).
  rewrite obj_loop_S by done. unfold member. cbn [fst snd]. rewrite <- app_assoc. cbn [app].
  eapply reads_bind; [by apply parse_str_reads |]. cbv beta iota.
  cbn [length] in Hkeys, Hlf.
  pose proof (new_key_reads keys seen k d (Z.of_nat (length l)) Hsame) as Hnew.
  specialize (Hnew ltac:(by replace (Z.of_nat (length l) + 1) with (Z.of_nat (S (length l))) by lia) ltac:(lia)).
  cbn [absorb_members]. destruct (bool_decide (k ∈ seen)).
  { exists (d, []). by apply pbind_none. }
  destruct Hnew as (keys' & Hnew & Hsame' & Hkeys'). eapply reads_bind; [exact Hnew |].
  rewrite skip_ws_sep by done. eapply reads_bind; [done |].
  eapply reads_bind; [apply path_append_reads |]. cbn [tl].
  eapply (reads_seq _ _ _ t _ (n + member_weights l)).
  { apply Hj; [lia | | done | eapply store_ready_mono; [| exact Hd]; lia].
    rewrite Ht. by destruct (map member l). }
  intros d1 m1 _ <- Hend1 Hd1. rewrite Ht. destruct l as [| [k' j'] l'].
  - cbn. exists d1. split_and!; [done | done | done |]. eapply store_ready_mono; [| exact Hd1]. cbn. lia.
  - cbn [map]. rewrite skip_ws_sep by done. change (first_is RBRACE (chr COMMA :: _)) with false. cbv iota.
    eapply reads_bind; [done |]. cbn [tl].
    destruct (after_sep (member (k', j')) (map member l') (chr RBRACE) rest) as (t' & Heq & _).
    rewrite Heq. change (member (k', j') ++ t') with (QUOTE :: tl (member (k', j')) ++ t').
    rewrite skip_ws_quote. change (first_is RBRACE (QUOTE :: _)) with false. cbv iota.
    apply (IH Hwl lf keys' (k :: seen) d1) in Hd1; [| done | cbn [length] in *; lia | done..].
    cbn [map] in Hd1. rewrite Heq in Hd1. exact Hd1.
Qed.
End object.

(** ** Agreement: values and documents *)

Lemma json_wf_arr l : json_wf (JArr l) -> Forall json_wf l.
Proof. induction l as [| j l IH]; [done |]. intros [Hj Hl]. constructor; [done | by apply IH]. Qed.

Lemma json_wf_obj l : json_wf (JObj l) -> Forall (fun kv => nonul kv.1 /\ json_wf kv.2) l.
Proof. induction l as [| [k j] l IH]; [done |]. intros (Hk & Hj & Hl). constructor; [done | by apply IH]. Qed.

Lemma print_obj l : print (JObj l) = chr LBRACE :: commas (map member l) ++ [chr RBRACE].
Proof. cbn [print]. do 3 f_equal. apply map_ext. by intros [k j]. Qed.

Lemma primitive_not_end tok v : primitive_value tok = Some v -> type_of v <> VAL_END.
Proof. unfold primitive_value, json_number. repeat case_match; intros; by simplify_eq. Qed.

(** The part of [json_parse_value] after the checks. *)
Lemma parse_value_checked fuel s path depth d n :
  skip_ws s = s -> s <> [] -> no_end (dict_map d) -> store_ready n d ->
  json_parse_value (S fuel) s path depth (d, []) =
  if JSON_MAX_DEPTH <? depth then Some (None, (d, []))
  else if bool_decide (is_Some (dict_map d !! path)) then Some (None, (d, []))
  else
    (if first_is 34 s then
        pbind (with_alloc (fun o => json_parse_str o s)) (fun '(val, s) =>
        pbind (add_value path (VStr (Some val))) (fun _ => pret s))
      else if first_is LBRACE s then json_parse_obj (json_parse_value fuel) s path depth
      else if first_is LBRACK s then json_parse_array (json_parse_value fuel) s path depth
      else
        pbind (with_alloc (fun o => json_parse_primitive o s)) (fun '(val, s) =>
        match primitive_value val with
        | None => pfail
        | Some v => pbind (add_value path v) (fun _ => pret s)
        end)) (d, []).
Proof.
  intros Hws Hne Hend Hd. cbn [json_parse_value]. rewrite Hws.
  replace (match s with [] => true | _ => false end) with false by (by destruct s). cbn [orb].
  destruct (JSON_MAX_DEPTH <? depth); [done |]. cbn [negb]. rewrite (pbind_some _ _ _ tt (d, [])) by done.
  rewrite (pbind_some _ _ _ _ _ (path_type_reads d path n Hd)), no_end_free by done.
  by destruct (bool_decide (is_Some (dict_map d !! path))).
Qed.

Lemma commas_length l : (length l <= S (length (commas l)))%nat.
Proof.
  induction l as [| x [| y l] IH]; [cbn; lia | cbn; lia |]. rewrite commas_cons, length_app. cbn [length] in *. lia.
Qed.

Lemma print_nonnil j rest : json_wf j -> print j ++ rest <> [].
Proof. by intros (c & t & -> & _)%print_first. Qed.

Lemma json_parse_array_reads fuel depth path rest l d n :
  Forall (value_reads fuel (depth + 1)) l -> Forall json_wf l ->
  0 <= n -> no_end (dict_map d) -> store_ready (n + weights l) d ->
  reads (json_parse_array (json_parse_value fuel) (print (JArr l) ++ rest) path depth)
    d rest (absorb_elements (absorb (depth + 1)) path 0 l (dict_map d)) n.
Proof.
  intros Hl Hwf Hn Hend Hd. unfold json_parse_array. cbn [print app tl]. rewrite <- app_assoc. cbn [app].
  destruct l as [| j l].
  - cbn [map commas app]. rewrite skip_ws_sep by done. exists d. split_and!; try done.
    eapply store_ready_mono; [| exact Hd]. cbn. lia.
  - assert (Hlf : (length (j :: l) <= length (commas (map print (j :: l)) ++ chr RBRACK :: rest))%nat).
    { pose proof (commas_length (map print (j :: l))) as Hc. rewrite length_map in Hc. rewrite length_app. cbn [length] in *. lia. }
    inversion Hwf as [| ? ? Hwj _]; subst.
    pose proof (array_loop_reads fuel depth path rest (j :: l) _ 0 d n Hl Hwf ltac:(done) Hlf Hn Hend Hd) as Hr.
    cbn [map] in *. destruct (after_sep (print j) (map print l) (chr RBRACK) rest) as (t & Heq & _).
    rewrite Heq in *. rewrite (skip_ws_print j), (proj1 (print_not_closing j _ Hwj)) by done. exact Hr.
Qed.

Lemma make_keys_reads d : make_keys (d, []) = Some (Some empty_dict, (d, [])).
Proof. done. Qed.

Lemma json_parse_obj_reads fuel depth path rest l d n :
  Forall (fun kv => value_reads fuel (depth + 1) kv.2) l -> Forall (fun kv => nonul kv.1 /\ json_wf kv.2) l ->
  0 <= n -> no_end (dict_map d) -> store_ready (n + member_weights l) d ->
  reads (json_parse_obj (json_parse_value fuel) (print (JObj l) ++ rest) path depth)
    d rest (absorb_members (absorb (depth + 1)) path [] l (dict_map d)) n.
Proof.
  intros Hl Hwf Hn Hend Hd. unfold json_parse_obj. rewrite print_obj. cbn [app tl]. rewrite <- app_assoc. cbn [app].
  destruct l as [| [k j] l].
  - cbn [map commas app]. rewrite skip_ws_sep by done. exists d. split_and!; try done.
    eapply store_ready_mono; [| exact Hd]. cbn. lia.
  - assert (Hlf : (length ((k, j) :: l) <= length (commas (map member ((k, j) :: l)) ++ chr RBRACE :: rest))%nat).
    { pose proof (commas_length (map member ((k, j) :: l))) as Hc. rewrite length_map in Hc. rewrite length_app. cbn [length] in *. lia. }
    assert (Hkeys : store_ready (Z.of_nat (length ((k, j) :: l))) empty_dict).
    { apply empty_ready. pose proof (member_weights_length ((k, j) :: l)). pose proof (ready_bound _ _ Hd). lia. }
    assert (Hsame : same_keys empty_dict []).
    { unfold same_keys. rewrite empty_map. split; [by intros ? ? ?%lookup_empty_Some |].
      intros k'. rewrite lookup_empty, elem_of_nil. by split; [intros [? ?] |]. }
    pose proof (obj_loop_reads fuel depth path rest ((k, j) :: l) _ empty_dict [] d n
      Hl Hwf ltac:(done) Hlf Hn Hend Hsame Hkeys Hd) as Hr.
    cbn [map] in *. destruct (after_sep (member (k, j)) (map member l) (chr RBRACE) rest) as (t & Heq & _).
    rewrite Heq in *. change (member (k, j) ++ t) with (QUOTE :: tl (member (k, j)) ++ t) in *.
    rewrite skip_ws_quote. change (first_is RBRACE (QUOTE :: _)) with false. cbv iota.
    eapply reads_bind; [apply make_keys_reads |]. exact Hr.
Qed.

Lemma json_value_reads j : json_wf j ->
  forall fuel depth, 0 <= depth <= 65 -> 66 <= depth + Z.of_nat fuel -> value_reads fuel depth j.
Proof.
  induction j as [tok | s | l IH | l IH] using json_ind'; intros Hwf fuel depth Hdep Hfuel rest path d n Hn Hrest Hend Hd;
    (destruct fuel as [| fuel]; [lia |]); unfold reads; rewrite absorb_eq;
    rewrite (parse_value_checked _ _ _ _ _ _ (skip_ws_print _ _ Hwf) (print_nonnil _ _ Hwf) Hend Hd);
    (destruct (Z.ltb_spec JSON_MAX_DEPTH depth) as [| Hmax]; [by eexists |]);
    (destruct (bool_decide (is_Some (dict_map d !! path))); [by eexists |]); unfold JSON_MAX_DEPTH in Hmax.
  - cbn [print json_wf weight] in *. destruct tok as [| c tok]; [done |]. unfold token_ok in Hwf.
    apply andb_true_iff in Hwf as [Hall Hfirst].
    apply negb_true_iff, orb_false_iff in Hfirst as [[H1 H2]%orb_false_iff H3].
    cbn [app]. rewrite !first_is_code, H1, H2, H3.
    assert (Hprim : with_alloc (fun o => json_parse_primitive o (c :: tok ++ rest)) (d, []) =
      Some (Some (c :: tok, rest), (d, []))).
    { unfold with_alloc, json_parse_primitive. cbn [snd fst]. change (c :: tok ++ rest) with ((c :: tok) ++ rest).
      by rewrite scan_primitive_token. }
    rewrite (pbind_some _ _ _ _ _ Hprim). cbv beta iota.
    destruct (primitive_value (c :: tok)) as [v |] eqn:Hv; cbn [mbind option_bind]; [| by eexists].
    destruct (add_value_reads d path v n Hd Hn) as (d' & Ha & Hm & Hr). rewrite (pbind_some _ _ _ _ _ Ha).
    exists d'. rewrite Hm. split_and!; try done. apply no_end_insert; [done | by eapply primitive_not_end].
  - cbn [print json_wf weight] in *. change (first_is 34 (quote s ++ rest)) with true. cbv iota.
    rewrite (pbind_some _ _ _ _ _ (parse_str_reads d s rest Hwf)). cbv beta iota.
    destruct (add_value_reads d path (VStr (Some s)) n Hd Hn) as (d' & Ha & Hm & Hr).
    rewrite (pbind_some _ _ _ _ _ Ha). exists d'. rewrite Hm. split_and!; try done. by apply no_end_insert.
  - apply json_parse_array_reads; [| by apply json_wf_arr | done..].
    apply Forall_forall. intros j Hj. rewrite !Forall_forall in IH.
    apply json_wf_arr in Hwf. rewrite Forall_forall in Hwf. apply IH; [done | by apply Hwf | lia | lia].
  - apply json_parse_obj_reads; [| by apply json_wf_obj | done..].
    apply Forall_forall. intros kv Hkv. rewrite !Forall_forall in IH.
    apply json_wf_obj in Hwf. rewrite Forall_forall in Hwf. apply IH; [done | by apply Hwf | lia | lia].
Qed.

Lemma json2dict_reads j :
  json_wf j -> weight j < 2 ^ 28 ->
  exists r o, json2dict [] (Some (print j)) = Some (r, o) /\
    match absorb 0 [] j ∅ with
    | Some m => exists d, r = Some d /\ dict_map d = m /\ store_ready 0 d
    | None => r = None
    end.
Proof.
  intros Hwf Hw.
  pose proof (json_value_reads j Hwf json_fuel 0 ltac:(lia) ltac:(unfold json_fuel; lia) [] [] empty_dict 0) as Hr.
  rewrite app_nil_r, empty_map in Hr. specialize (Hr ltac:(lia) I).
  specialize (Hr ltac:(by intros ? ? ?%lookup_empty_Some) ltac:(apply empty_ready; lia)).
  pose proof (print_first j Hwf) as (c & t & Hp & _). rewrite Hp in *. unfold json2dict, reads in *.
  change (dict_new []) with (Some empty_dict, @nil bool). cbv beta iota.
  destruct (absorb 0 [] j ∅) as [m |].
  - destruct Hr as (d & -> & Hm & _ & Hd). exists (Some d), []. split; [done |]. eauto.
  - destruct Hr as [[d o] ->]. by exists None, o.
Qed.
