(* ===== verification/JsonSpec.v ===== *)
(** * JSON documents: their contract (json.c)

    The parser terminates on every text and agrees with the reference reading;
    integers are typed by range; dictionaries survive the trip through text;
    the string builder is safe while memory lasts. *)

From S2P Require Import Prelude CString CFloat Dict DictTheory DictSpec DictGetSpec JsonString JsonStringSpec Json JsonTheory JsonRef.

#[local] Open Scope Z_scope.

(** ** Integers *)

(** The type the parser gives an integer. *)
Definition json_int (z : Z) : value :=
  if (INT_MIN <=? z) && (z <=? INT_MAX) then VInt z
  else if z <=? LONG_MAX then VLong z
  else VUlong z.

Lemma print_digits_head fuel n acc :
  0 < n < 2 ^ Z.of_nat fuel -> exists c s, print_digits fuel n acc = c :: s /\ isdigit c = true /\ code c <> 48.
Proof.
  revert n acc. induction fuel as [| fuel IH]; intros n acc Hn; [cbn in Hn; lia |]. rewrite print_digits_S.
  rewrite Nat2Z.inj_succ, Z.pow_succ_r in Hn by lia. destruct (Z.ltb_spec n 10).
  - rewrite Z.mod_small by lia. eexists _, _. split; [done |].
    destruct (digit_char_digit n) as [Hd Hv]; [lia |]. split; [done |]. unfold digit_val in Hv. lia.
  - apply IH. split; [apply Z.div_str_pos; lia | apply Z.div_lt_upper_bound; lia].
Qed.

Lemma log2_fuel n : 0 <= n -> n < 2 ^ Z.of_nat (S (Z.to_nat (Z.log2 n))).
Proof.
  intros Hn. rewrite Nat2Z.inj_succ, Z2Nat.id by apply Z.log2_nonneg.
  destruct (decide (n = 0)) as [-> |]; [done |]. apply Z.log2_spec. lia.
Qed.

Lemma skip_digits_all s : Forall (fun c => isdigit c = true) s -> skip_digits s = [].
Proof. induction 1 as [| c s Hc _ IH]; cbn; [done |]. by rewrite Hc. Qed.

Lemma number_ok_nat n : 0 <= n -> exists c s, print_nat n = c :: s /\ isdigit c = true /\
  json_number_ok (c :: s) = true /\ json_number_ok (chr 45 :: c :: s) = true.
Proof.
  intros Hn. destruct (print_nat_spec n Hn) as [Hall _]. destruct (decide (n = 0)) as [-> | Hne].
  { exists "0"%char, []. by split_and!. }
  assert (Hpos : 0 < n) by lia.
  destruct (print_digits_head _ n [] (conj Hpos (log2_fuel n Hn))) as (c & s & Heq & Hc & H0).
  change (print_digits _ n []) with (print_nat n) in Heq. exists c, s. rewrite Heq in Hall.
  inversion Hall as [| ? ? _ Hs]; subst.
  assert (Hok : forall minus, (if minus : bool then json_number_ok (chr 45 :: c :: s) else json_number_ok (c :: s)) = true).
  { intros minus. unfold json_number_ok.
    assert (H45 : first_is 45 (c :: s) = false) by (rewrite first_is_code; unfold isdigit in Hc; lia).
    rewrite H45. change (first_is 45 (chr 45 :: c :: s)) with true. cbn [tl].
    assert (H48 : first_is 48 (c :: s) = false) by (rewrite first_is_code; lia).
    rewrite H48. cbn [first_digit skip_digits]. rewrite Hc. rewrite (skip_digits_all s Hs). by destruct minus. }
  split_and!; [done | done | apply (Hok false) | apply (Hok true)].
Qed.

Lemma number_ok_dec z : json_number_ok (print_dec z) = true.
Proof.
  unfold print_dec. destruct (Z.ltb_spec z 0).
  - destruct (number_ok_nat (- z)) as (c & s & -> & _ & _ & H1); [lia | exact H1].
  - by destruct (number_ok_nat z) as (c & s & -> & _ & H0 & _).
Qed.

Lemma isdigit_integer c : isdigit c = true -> negb ((code c =? 46) || (code c =? 101) || (code c =? 69)) = true.
Proof. unfold isdigit. intros. lia. Qed.

Lemma integer_dec z : json_number_is_integer (print_dec z) = true.
Proof.
  assert (Hnat : forall n, 0 <= n -> json_number_is_integer (print_nat n) = true).
  { intros n Hn. destruct (print_nat_spec n Hn) as [Hall _]. unfold json_number_is_integer.
    induction Hall as [| c s Hc _ IH]; [done |]. cbn [forallb]. by rewrite isdigit_integer. }
  unfold print_dec. destruct (Z.ltb_spec z 0); [| by apply Hnat].
  cbn. apply Hnat. lia.
Qed.

Lemma dec_not_literal z : streq (print_dec z) (B "null") = false /\ streq (print_dec z) (B "true") = false /\
  streq (print_dec z) (B "false") = false.
Proof.
  destruct (print_dec_cons z) as (c & s & Hp). assert (Hc : isdigit c = true \/ c = "-"%char).
  { unfold print_dec in Hp. destruct (Z.ltb_spec z 0); [right; by injection Hp |].
    destruct (print_nat_cons z) as (c' & s' & Hp' & Hd); [lia |]. left. congruence. }
  rewrite Hp, !streq_false. split_and!; intros [= -> _]; by destruct Hc.
Qed.

Lemma first_minus z : first_is 45 (print_dec z) = (z <? 0).
Proof.
  unfold print_dec. destruct (Z.ltb_spec z 0); [done |].
  destruct (print_nat_cons z) as (c & s & -> & Hd); [lia |]. rewrite first_is_code. unfold isdigit in Hd. lia.
Qed.

Lemma strtoull_print_big z : ULLONG_MAX < z -> strtoull (print_dec z) = Strto ULLONG_MAX [] true.
Proof.
  intros Hz. unfold strtoull. rewrite scan_sign_print.
  rewrite (proj2 (print_nat_spec (Z.abs z) ltac:(lia))). cbn [negb].
  by rewrite (proj2 (Z.ltb_lt ULLONG_MAX _)) by (unfold ULLONG_MAX in *; lia).
Qed.

Lemma whole_dec z : whole [] (print_dec z) = true.
Proof. by destruct (print_dec_cons z) as (c & s & ->). Qed.

Lemma primitive_int z :
  primitive_value (print_dec z) = if (LLONG_MIN <=? z) && (z <=? ULLONG_MAX) then Some (json_int z) else None.
Proof.
  unfold primitive_value, json_number. destruct (dec_not_literal z) as (-> & -> & ->).
  rewrite number_ok_dec, integer_dec, first_minus. cbn [negb]. rewrite strtoll_print_all.
  destruct (Z.ltb_spec z LLONG_MIN), (Z.leb_spec LLONG_MIN z); try lia.
  { cbn [st_erange negb andb]. by rewrite (proj2 (Z.ltb_lt z 0)) by (unfold LLONG_MIN in *; lia). }
  destruct (Z.ltb_spec LLONG_MAX z); cbn [st_erange st_end st_value negb andb].
  - rewrite (proj2 (Z.ltb_ge z 0)) by (unfold LLONG_MAX in *; lia). cbn [negb].
    destruct (Z.leb_spec z ULLONG_MAX).
    + rewrite strtoull_print by (unfold LLONG_MAX in *; lia). cbn [st_erange st_end st_value orb].
      rewrite whole_dec. cbn [negb]. unfold json_int. repeat case_match; limits; try lia; done.
    + by rewrite strtoull_print_big by lia.
  - rewrite whole_dec. assert (Hle : z <= ULLONG_MAX) by (limits; lia).
    apply Z.leb_le in Hle as ->. f_equal. unfold json_int. repeat case_match; limits; try lia; done.
Qed.

(** ** The string builder with memory *)

(** The capacity is true and the text fits with its terminator. *)
Record sbuf_ok (b : sbuf) : Prop := {
  sb_true : sb_cap b = sb_size b;
  sb_min : 256 <= sb_cap b;
  sb_fits : sb_len b + 1 <= sb_size b
}.

Lemma sb_len_app t s cap size : sb_len (Sbuf (t ++ s) cap size) = sb_len (Sbuf t cap size) + zlen s.
Proof. unfold sb_len. cbn [sb_text]. rewrite length_app. lia. Qed.

Lemma put_char_ok z b :
  sbuf_ok b -> exists b', put_char z (b, []) = (b', []) /\ sb_text b' = sb_text b ++ [chr z] /\ sbuf_ok b'.
Proof.
  intros [H1 H2 H3]. unfold put_char, sbuf_putc. cbn [fst snd]. destruct b as [t cap size]. cbn [sb_cap sb_size sb_text] in *.
  destruct (Z.ltb_spec cap (sb_len (Sbuf t cap size) + 2)) as [Hlt | Hge]; cbn [alloc negb]; eexists;
    (split; [done |]); (split; [done |]); split; cbn [sb_cap sb_size]; try lia;
    rewrite sb_len_app; change (zlen [chr z]) with 1; unfold sb_len in *; cbn [sb_text] in *; lia.
Qed.

Lemma grow_cap_spec fuel need cap :
  0 < cap -> need <= cap * 2 ^ Z.of_nat fuel ->
  exists cap', grow_cap (S fuel) need cap = Some cap' /\ need <= cap' /\ cap <= cap'.
Proof.
  revert cap. induction fuel as [| fuel IH]; intros cap Hc Hn.
  - cbn in Hn |- *. rewrite (proj2 (Z.ltb_ge _ _)) by lia. eexists. split; [done | lia].
  - cbn [grow_cap]. destruct (Z.ltb_spec cap need); [| exists cap; split; [done | lia]].
    rewrite Nat2Z.inj_succ, Z.pow_succ_r in Hn by lia.
    destruct (IH (cap * 2)) as (cap' & Hg & H1 & H2); [lia | lia |]. cbn [grow_cap] in Hg. rewrite Hg.
    exists cap'. split; [done | lia].
Qed.

Lemma put_str_ok s b :
  sbuf_ok b -> sb_len b + zlen s < 2 ^ 62 ->
  exists b', put_str s (b, []) = Some (b', []) /\ sb_text b' = sb_text b ++ s /\ sbuf_ok b'.
Proof.
  intros [H1 H2 H3] Hl. unfold put_str, sbuf_puts. cbn [fst snd].
  destruct b as [t cap size]. cbn [sb_cap sb_size sb_text] in *.
  destruct (Z.ltb_spec cap (sb_len (Sbuf t cap size) + zlen s + 1)) as [Hlt | Hge].
  - destruct (grow_cap_spec 63 (sb_len (Sbuf t cap size) + zlen s + 1) cap) as (cap' & -> & Hn & Hle).
    + lia.
    + assert (2 ^ 62 <= cap * 2 ^ Z.of_nat 63); [| lia]. change (Z.of_nat 63) with 63. nia.
    + cbn. eexists. split; [done |]. split; [done |]. split; cbn [sb_cap sb_size]; try lia.
      rewrite sb_len_app. unfold sb_len in *. cbn [sb_text] in *. lia.
  - cbn. eexists. split; [done |]. split; [done |]. split; cbn [sb_cap sb_size]; try lia.
    rewrite sb_len_app. unfold sb_len in *. cbn [sb_text] in *. lia.
Qed.

(** ** Printing flat trees *)

Definition leaf (kv : bstr * bstr) : json_node := JNode kv.1 (Some kv.2) [].

Definition pair_text (kv : bstr * bstr) : bstr := quote kv.1 ++ chr COLON :: kv.2.

(** [dump_json]'s loop over the children, named. *)
Fixpoint dump_children (l : list json_node) (st : wstate) : option wstate :=
  match l with
  | [] => Some st
  | c :: l =>
      let '(key, o) := json_escape st.2 (Some (node_key c)) in
      st ← match key with Some key => put_str key (st.1, o) | None => Some (st.1, o) end;
      let st := put_char COLON st in
      st ← match node_value c, node_child c with
           | Some v, [] => put_str v st
           | _, _ => dump_json c st
           end;
      let st := if is_nil l then st else put_char COMMA st in
      dump_children l st
  end.

Lemma dump_json_eq k v child st :
  dump_json (JNode k v child) st =
  (st ← dump_children child (put_char LBRACE st); Some (put_char RBRACE st)).
Proof. done. Qed.

Lemma dump_children_text l b :
  sbuf_ok b -> sb_len b + zlen (commas (map pair_text l)) < 2 ^ 62 ->
  exists b', dump_children (map leaf l) (b, []) = Some (b', []) /\
    sb_text b' = sb_text b ++ commas (map pair_text l) /\ sbuf_ok b'.
Proof.
  revert b. induction l as [| [k v] l IH]; intros b Hb Hlen.
  { exists b. cbn [map commas]. by rewrite app_nil_r. }
  cbn [map dump_children node_key leaf fst snd].
  change (json_escape [] (Some k)) with (Some (quote k), @nil bool). cbv beta iota.
  assert (Htxt : exists tail, commas (map pair_text ((k, v) :: l)) = quote k ++ chr COLON :: v ++ tail /\
    tail = match l with [] => [] | _ => chr COMMA :: commas (map pair_text l) end).
  { destruct l as [| kv l]; cbn [map].
    - exists []. cbn [commas]. unfold pair_text. cbn [fst snd]. by rewrite app_nil_r.
    - eexists. split; [| done]. rewrite commas_cons. unfold pair_text at 1. cbn [fst snd].
      by rewrite <- !app_assoc. }
  destruct Htxt as (tail & Htxt & Htail). cbn [map] in Htxt, Hlen |- *. rewrite Htxt in Hlen |- *.
  rewrite !length_app in Hlen. cbn [length] in Hlen. rewrite length_app in Hlen.
  destruct (put_str_ok (quote k) b Hb) as (b1 & -> & H1 & Hb1); [lia |]. cbn [mbind option_bind].
  destruct (put_char_ok COLON b1 Hb1) as (b2 & -> & H2 & Hb2). cbn [node_value node_child leaf fst snd]. cbv beta zeta iota.
  assert (Hl2 : sb_len b2 = sb_len b + zlen (quote k) + 1).
  { unfold sb_len. rewrite H2, H1, !length_app. cbn [length]. lia. }
  destruct (put_str_ok v b2 Hb2) as (b3 & -> & H3 & Hb3); [lia |]. cbn [mbind option_bind].
  assert (Ht3 : sb_text b3 = sb_text b ++ quote k ++ chr COLON :: v).
  { rewrite H3, H2, H1, <- !app_assoc. done. }
  assert (Hl3 : sb_len b3 = sb_len b + zlen (quote k) + 1 + zlen v) by (unfold sb_len; rewrite Ht3, !length_app; cbn [length]; lia).
  destruct l as [| kv l].
  - exists b3. rewrite Htail, app_nil_r. done.
  - cbn [map is_nil]. destruct (put_char_ok COMMA b3 Hb3) as (b4 & -> & H4 & Hb4).
    assert (Hl4 : sb_len b4 = sb_len b3 + 1) by (unfold sb_len; rewrite H4, length_app; cbn [length]; lia).
    destruct (IH b4 Hb4) as (b' & Hd & Ht & Hb'); [rewrite Htail in Hlen; cbn [map length] in *; lia |].
    exists b'. split; [exact Hd |]. split; [| done].
    rewrite Ht, H4, Ht3, Htail. cbn [map]. repeat (rewrite <- !app_assoc; cbn [app]). done.
Qed.

Lemma dump_flat_text l o_len :
  o_len = zlen (commas (map pair_text l)) -> o_len < 2 ^ 61 ->
  exists b', dump_json (JNode [] None (map leaf l)) (Sbuf [] 256 256, []) = Some (b', []) /\
    sb_text b' = chr LBRACE :: commas (map pair_text l) ++ [chr RBRACE].
Proof.
  intros -> Hlen. rewrite dump_json_eq.
  destruct (put_char_ok LBRACE (Sbuf [] 256 256)) as (b1 & -> & H1 & Hb1).
  { by split. }
  destruct (dump_children_text l b1 Hb1) as (b2 & -> & H2 & Hb2).
  { unfold sb_len. rewrite H1. cbn [sb_text app length] in *. lia. }
  cbn [mbind option_bind]. destruct (put_char_ok RBRACE b2 Hb2) as (b3 & -> & H3 & _).
  exists b3. split; [done |]. rewrite H3, H2, H1. cbn [sb_text app]. done.
Qed.

(** ** Flat dictionaries *)

(** The tree a value prints as; floating-point values are left out. *)
Definition tree (v : value) : option json :=
  match v with
  | VNull | VPtr _ | VEnd => Some (JPrim (B "null"))
  | VStr s => Some (JStr (default [] s))
  | VChar c => Some (JStr (if bool_decide (chr c = NUL) then [] else [chr c]))
  | VBool i => Some (JPrim (if i =? 0 then B "false" else B "true"))
  | VInt z | VUint z | VLong z | VUlong z | VLlong z | VUllong z => Some (JPrim (print_dec z))
  | _ => None
  end.

(** What a value is after the trip through text. *)
Definition wire (v : value) : value :=
  match v with
  | VNull | VPtr _ | VEnd => VNull
  | VStr s => VStr (Some (default [] s))
  | VChar c => VStr (Some (if bool_decide (chr c = NUL) then [] else [chr c]))
  | VBool i => VBool (if i =? 0 then 0 else 1)
  | VInt z | VUint z | VLong z | VUlong z | VLlong z | VUllong z => json_int z
  | v => v
  end.

Definition flat_key (k : bstr) : Prop := k <> [] /\ nonul k /\ "."%char ∉ k.

Definition plain (kv : bstr * value) : Prop :=
  flat_key kv.1 /\ value_ok kv.2 /\ is_Some (tree kv.2) /\
  match kv.2 with VStr (Some s) => nonul s | _ => True end.

Definition tree' (v : value) : json := default (JPrim []) (tree v).
Definition encode (kv : bstr * value) : bstr * bstr := (kv.1, print (tree' kv.2)).
Definition as_member (kv : bstr * value) : bstr * json := (kv.1, tree' kv.2).

Lemma value_text_tree v : is_Some (tree v) -> json_value_text [] v = (Some (print (tree' v)), []).
Proof. unfold tree'. destruct v; cbn; intros [? ?]; try done; by case_match. Qed.

Lemma dot_tokens_flat cur s :
  "."%char ∉ s -> dot_tokens cur s = match rev cur ++ s with [] => [] | w => [w] end.
Proof.
  revert cur. induction s as [| c s IH]; intros cur Hd; cbn [dot_tokens].
  - rewrite app_nil_r. destruct cur as [| c cur]; [done |]. destruct (rev (c :: cur)) eqn:Hr; [| done].
    apply (f_equal (length (A := ascii))) in Hr. by rewrite length_rev in Hr.
  - apply not_elem_of_cons in Hd as [Hc Hd]. rewrite bool_decide_false by done. rewrite IH by done.
    cbn [rev]. by rewrite <- app_assoc.
Qed.

Lemma child_index_leaf l k : k ∉ l.*1 -> child_index (map leaf l) k = None.
Proof.
  induction l as [| [k' v'] l IH]; [done |]. cbn. intros [Hk Hl]%not_elem_of_cons.
  rewrite (proj2 (streq_false _ _)) by done. by rewrite IH.
Qed.

Lemma insert_flat l k v :
  plain (k, v) -> k ∉ l.*1 ->
  json_insert [] (JNode [] None (map leaf l)) k v = (0, JNode [] None (map leaf (encode (k, v) :: l)), []).
Proof.
  intros ((Hne & _ & Hdot) & _ & Ht & _) Hk. cbn [fst snd] in *. unfold json_insert. cbn [alloc negb].
  rewrite value_text_tree by done. rewrite dot_tokens_flat by done. cbn [rev app].
  destruct k as [| c k]; [done |]. cbn [insert_at]. unfold find_child. rewrite child_index_leaf by done. done.
Qed.

Lemma insert_fold_flat l acc :
  Forall plain l -> NoDup (l.*1 ++ acc.*1) ->
  fold_body l insert_entry (JNode [] None (map leaf acc), []) =
  Some (true, (JNode [] None (map leaf (rev (map encode l) ++ acc)), [])).
Proof.
  intros Hl. revert acc. induction Hl as [| [k v] l Hkv Hl IH]; intros acc Hnd; [done |].
  cbn in Hnd. apply NoDup_cons in Hnd as [Hk Hnd].
  assert (Hins : insert_entry k v (JNode [] None (map leaf acc), []) =
    Some (true, (JNode [] None (map leaf (encode (k, v) :: acc)), []))).
  { unfold insert_entry. cbn [fst snd]. by rewrite insert_flat by (done || set_solver). }
  cbn [fold_body]. rewrite Hins. cbn [mbind option_bind].
  rewrite IH by (cbn; rewrite <- Permutation_middle; by constructor).
  cbn [map rev]. by rewrite <- app_assoc.
Qed.

Lemma pair_text_member kv : pair_text (encode kv) = member (as_member kv).
Proof. by destruct kv. Qed.

Lemma dict2json_flat d :
  dict_wf d -> Forall plain (dict_entries d) ->
  zlen (print (JObj (map as_member (rev (dict_entries d))))) < 2 ^ 61 ->
  dict2json [] (Some d) = Some (Some (print (JObj (map as_member (rev (dict_entries d))))), []).
Proof.
  intros Hwf Hp Hlen. unfold dict2json. rewrite enum_all_spec by done.
  change (JNode [] None []) with (JNode [] None (map leaf [])). rewrite insert_fold_flat; [| done |].
  2:{ cbn. rewrite app_nil_r. by apply entries_nodup. }
  cbn [mbind option_bind negb sbuf_init alloc]. rewrite app_nil_r, <- map_rev. rewrite print_obj in Hlen |- *.
  assert (Heq : map pair_text (map encode (rev (dict_entries d))) = map member (map as_member (rev (dict_entries d)))).
  { rewrite !map_map. apply map_ext, pair_text_member. }
  destruct (dump_flat_text (map encode (rev (dict_entries d))) _ eq_refl) as (b & -> & Ht).
  { rewrite Heq. cbn [length] in Hlen. rewrite length_app in Hlen. lia. }
  cbn [mbind option_bind]. by rewrite Ht, Heq.
Qed.

(** ** Reading a flat tree back *)

Lemma token_ok_dec z : token_ok (print_dec z) = true.
Proof.
  assert (Hchar : forall c, isdigit c = true \/ c = "-"%char ->
    negb (ends_primitive c) = true /\ (code c =? 34) || (code c =? LBRACE) || (code c =? LBRACK) = false).
  { intros c [Hc | ->]; [| by vm_compute]. unfold isdigit in Hc. unfold ends_primitive, is_ws, LBRACE, LBRACK. lia. }
  assert (Hall : Forall (fun c => isdigit c = true \/ c = "-"%char) (print_dec z)).
  { unfold print_dec. destruct (Z.ltb_spec z 0); [constructor; [by right |] |].
    all: destruct (print_nat_spec (Z.abs z) ltac:(lia)) as [Hall _].
    - rewrite Z.abs_neq in Hall by lia. eapply Forall_impl; [done | by left].
    - rewrite Z.abs_eq in Hall by lia. eapply Forall_impl; [done | by left]. }
  destruct (print_dec_cons z) as (c & s & Hp). rewrite Hp in *. unfold token_ok.
  rewrite (proj2 (Hchar c (Forall_inv Hall))). apply andb_true_iff. split; [| done].
  clear Hp. induction Hall as [| x l Hx _ IH]; [done |]. cbn [forallb]. by rewrite (proj1 (Hchar x Hx)).
Qed.

Lemma tree_wf kv : plain kv -> json_wf (tree' kv.2).
Proof.
  intros (_ & _ & [t Ht] & Hs). unfold tree'. rewrite Ht. cbn. destruct (kv.2); cbn in Ht; try done;
    injection Ht as <-; cbn [json_wf]; try apply token_ok_dec; try reflexivity.
  - destruct s; [done | apply not_elem_of_nil].
  - by case_match.
  - case_bool_decide; [apply not_elem_of_nil |]. unfold nonul. rewrite list_elem_of_singleton. congruence.
Qed.

Lemma tree_members_wf l : Forall plain l -> json_wf (JObj (map as_member l)).
Proof.
  induction 1 as [| [k v] l Hkv Hl IH]; [done |]. cbn [map as_member json_wf fst snd]. split_and!.
  - by destruct Hkv as ((_ & ? & _) & _).
  - by apply (tree_wf (k, v)).
  - exact IH.
Qed.

Lemma int_value_ok v z : value_ok v -> int_value v = Some z -> within LLONG_MIN ULLONG_MAX z.
Proof. destruct v; try done; cbn; intros Hv [= <-]; limits; lia. Qed.

Lemma absorb_leaf kv m depth :
  plain kv -> depth <= 64 -> m !! kv.1 = None ->
  absorb depth kv.1 (tree' kv.2) m = Some (<[kv.1 := wire kv.2]> m).
Proof.
  intros (_ & Hok & [t Ht] & _) Hdep Hm. rewrite absorb_eq. unfold JSON_MAX_DEPTH.
  rewrite (proj2 (Z.ltb_ge _ _)), bool_decide_false by (lia || (rewrite Hm; apply is_Some_None)). unfold tree'. rewrite Ht.
  destruct (kv.2) as [| | | z | z | z | z | z | z | | i | | | | |] eqn:Hv; try done; cbn in Ht; injection Ht as <-; cbn [default from_option id wire]; try done.
  all: first [ by destruct (i =? 0)
    | rewrite primitive_int; pose proof (int_value_ok _ z Hok eq_refl) as [Hz1%Z.leb_le Hz2%Z.leb_le];
      by rewrite Hz1, Hz2 ].
Qed.

Lemma path_join_root k : path_join [] k = k.
Proof. destruct k as [| c k]; [done |]. cbn. by case_bool_decide. Qed.

Lemma absorb_flat l seen m depth :
  Forall plain l -> NoDup l.*1 -> depth <= 64 -> (forall k, k ∈ l.*1 -> k ∉ seen /\ m !! k = None) ->
  absorb_members (absorb depth) [] seen (map as_member l) m =
  Some ((wire <$> list_to_map l) ∪ m).
Proof.
  intros Hl Hnd Hdep. revert seen m. induction Hl as [| [k v] l Hkv Hl IH]; intros seen m Hfree.
  { cbn. by rewrite fmap_empty, (left_id_L ∅ (∪)). }
  cbn in Hnd. apply NoDup_cons in Hnd as [Hk Hnd]. cbn [map as_member absorb_members fst snd].
  destruct (Hfree k) as [Hs Hm]; [set_solver |]. rewrite bool_decide_false, path_join_root by done.
  rewrite (absorb_leaf (k, v)) by done. cbn [mbind option_bind]. rewrite IH; [| done |].
  - f_equal. rewrite list_to_map_cons, fmap_insert. cbn [fst snd]. rewrite <- insert_union_l.
    rewrite <- insert_union_r; [done |]. rewrite lookup_fmap, not_elem_of_list_to_map_1 by done. done.
  - intros k' Hk'. destruct (Hfree k') as [Hs' Hm']; [set_solver |]. split; [set_solver |].
    rewrite lookup_insert_ne; [done | set_solver].
Qed.

Lemma flat_weight l : Forall plain l -> member_weights (map as_member l) = 2 * zlen l.
Proof.
  induction 1 as [| [k v] l Hkv Hl IH]; [done |]. cbn [map]. rewrite member_weights_cons. cbn [as_member fst snd].
  destruct Hkv as (_ & _ & [t Ht] & _). cbn [snd] in Ht. unfold tree'. rewrite Ht. rewrite IH. cbn [length default from_option id].
  destruct v; try done; injection Ht as <-; cbn [weight]; lia.
Qed.

(** ** The contract *)

(** C30: the parser terminates on every text and every sequence of allocation
    outcomes, without reading past the end, and a dictionary it returns is well formed and free of tombstones. *)
Theorem json2dict_terminates (o : allocs) (s : bstr) (Hs : zlen s < 2 ^ 28) :
  exists r o', json2dict o (Some s) = Some (r, o') /\
    forall d, r = Some d -> dict_wf d /\ has_null (table d) /\ no_tomb (table d).
Proof.
  destruct (json2dict_total o s Hs) as (r & o' & Hr & Hd). exists r, o'. split; [done |].
  intros d ->. destruct Hd. done.
Qed.

Lemma json2dict_terminates_witness :
  exists r o', json2dict [true; true; false] (Some (B "{[,x")) = Some (r, o') /\
    match r with Some d => dict_wf d /\ has_null (table d) | None => True end.
Proof.
  destruct (json2dict_terminates [true; true; false] (B "{[,x")) as (r & o' & Hr & Hd); [by vm_compute |].
  exists r, o'. split; [exact Hr |]. destruct r as [d |]; [| exact I]. destruct (Hd d eq_refl) as (H1 & H2 & _). by split.
Defined.


(** Sixty-six nested arrays. *)
Definition deep : json := Nat.iter 66 (fun j => JArr [j]) (JPrim (B "1")).
Definition sample : json :=
  JObj [(B "radio", JObj [(B "freq", JPrim (B "14074000")); (B "modes", JArr [JStr (B "usb"); JPrim (B "null")])])].

Lemma deep_wf n : json_wf (Nat.iter n (fun j => JArr [j]) (JPrim (B "1"))).
Proof. induction n as [| n IH]; [done |]. by split. Qed.

Lemma sample_wf : json_wf sample.
Proof. cbn. unfold nonul. split_and!; try done; apply (bool_decide_unpack _); by vm_compute. Qed.


(** A decimal integer from -2^63 to 2^64-1 is read as the narrowest of [VAL_INT],
    [VAL_LONG] and [VAL_ULONG] that holds it, with its exact value, and an
    integer outside that range is refused. *)
Theorem json_integer_exact (z : Z) :
  primitive_value (print_dec z) =
  if (LLONG_MIN <=? z) && (z <=? ULLONG_MAX) then Some (json_int z) else None.
Proof. apply primitive_int. Qed.

(** C31: a dictionary of scalars survives the trip through JSON text:
    [json2dict] of [dict2json] gives every key its value back, integers at their exact value, for
    any keys without a dot and any values but floating-point ones. *)
Theorem dict_json_roundtrip (d : dict)
    (Hwf : dict_wf d) (Hplain : Forall plain (dict_entries d)) (Hused : used d < 2 ^ 26)
    (Hlen : zlen (print (JObj (map as_member (rev (dict_entries d))))) < 2 ^ 61) :
  exists text d' o, dict2json [] (Some d) = Some (Some text, []) /\
    json2dict [] (Some text) = Some (Some d', o) /\ dict_map d' = wire <$> dict_map d.
Proof.
  set (l := rev (dict_entries d)) in *.
  assert (Hl : Forall plain l) by (unfold l; by apply List.Forall_rev).
  assert (Hnd : NoDup l.*1).
  { unfold l. rewrite <- Permutation_rev. by apply entries_nodup. }
  rewrite dict2json_flat by done. eexists _.
  destruct (json2dict_reads (JObj (map as_member l)) (tree_members_wf l Hl)) as (r & o & Hr & Ha).
  { change (weight (JObj (map as_member l))) with (member_weights (map as_member l)). rewrite flat_weight by done.
    unfold l. rewrite length_rev, entries_length by done. lia. }
  rewrite absorb_eq in Ha. cbn [JSON_MAX_DEPTH] in Ha. change (JSON_MAX_DEPTH <? 0) with false in Ha. cbv iota in Ha.
  rewrite bool_decide_false in Ha by (rewrite lookup_empty; apply is_Some_None).
  rewrite absorb_flat in Ha by (done || (intros k _; split; [apply not_elem_of_nil | apply lookup_empty])).
  destruct Ha as (d' & -> & Hm & _). exists d', o. split_and!; [done | exact Hr |].
  rewrite Hm, (right_id_L ∅ (∪)). f_equal. unfold dict_map, tab_map. apply list_to_map_proper; [done |].
  unfold l. by rewrite <- Permutation_rev.
Qed.

Definition scalars : dict :=
  put (put two_keys (B "call") (VStr (Some (B "N0CALL")))) (B "ts") (VUlong (2 ^ 63)).

#[export] Instance nonul_dec s : Decision (nonul s).
Proof. unfold nonul. apply _. Defined.
#[export] Instance flat_key_dec k : Decision (flat_key k).
Proof. unfold flat_key. apply _. Defined.

Lemma scalars_plain : Forall plain (dict_entries scalars).
Proof.
  assert (He : dict_entries scalars = [(B "ts", VUlong (2 ^ 63)); (B "call", VStr (Some (B "N0CALL")));
    (B "port", VInt 2); (B "host", VInt 1)]) by (by vm_compute).
  assert (Hkeys : Forall flat_key [B "ts"; B "call"; B "port"; B "host"]).
  { apply (bool_decide_unpack _). vm_compute. exact I. }
  rewrite !Forall_cons in Hkeys. destruct Hkeys as (K1 & K2 & K3 & K4 & _).
  assert (Hcall : nonul (B "N0CALL")) by (apply (bool_decide_unpack _); vm_compute; exact I).
  rewrite He. repeat apply Forall_cons_2; [..| apply Forall_nil_2]; (split; [assumption |]);
    (split; [cbn [snd value_ok]; limits; try lia; exact I |]); (split; [eexists; reflexivity |]); exact I || exact Hcall.
Qed.

Lemma dict_json_roundtrip_witness :
  exists text d' o, dict2json [] (Some scalars) = Some (Some text, []) /\
    json2dict [] (Some text) = Some (Some d', o) /\ dict_map d' = wire <$> dict_map scalars.
Proof.
  destruct (put_ready 9 two_keys (B "call") (VStr (Some (B "N0CALL"))) two_keys_ready) as [Hr _]; [lia |].
  destruct (put_ready 8 _ (B "ts") (VUlong (2 ^ 63)) Hr) as [[Hwf _ _ _ _] _]; [lia |].
  apply (dict_json_roundtrip scalars Hwf); [| by vm_compute | by vm_compute].
  apply scalars_plain.
Defined.

(** A failed [realloc] corrupts the string builder: [sbuf_putc] doubles the recorded
    capacity before it tries to grow the block and keeps it when that fails, so the next
    character, reported as a success, is written past the end of the block. *)
Theorem sbuf_failed_realloc_overflows (b : sbuf) (c c' : ascii) (Hok : sbuf_ok b) (Hfull : sb_cap b < sb_len b + 2) :
  exists b1 b2, sbuf_putc [false] b c = (true, b1, []) /\ sb_text b1 = sb_text b /\
    sbuf_putc [] b1 c' = (false, b2, []) /\ sb_size b2 < sb_len b2 + 1.
Proof.
  destruct Hok as [H1 H2 H3]. unfold sbuf_putc. rewrite (proj2 (Z.ltb_lt _ _)) by lia. cbn [alloc negb].
  destruct b as [t cap size]. cbn [sb_cap sb_size sb_text] in *. unfold sb_len in *. cbn [sb_text] in *.
  eexists _, _. split; [done |]. cbn [sb_cap sb_text sb_size]. split; [done |].
  rewrite (proj2 (Z.ltb_ge _ _)) by (unfold sb_len; cbn [sb_text]; lia). split; [done |].
  unfold sb_len. cbn [sb_size sb_text]. rewrite length_app. cbn [length]. lia.
Qed.

Definition full_buffer : sbuf := Sbuf (replicate 255 "x"%char) 256 256.

Lemma sbuf_failed_realloc_overflows_witness :
  exists b1 b2, sbuf_putc [false] full_buffer "y" = (true, b1, []) /\ sb_text b1 = sb_text full_buffer /\
    sbuf_putc [] b1 "z" = (false, b2, []) /\ sb_size b2 < sb_len b2 + 1.
Proof. apply (sbuf_failed_realloc_overflows full_buffer "y" "z"); [by split | by vm_compute]. Defined.
