(* ===== verification/PtrStore.v ===== *)
(** * The interface between the event bus and the dictionary

    The event bus keeps its entries in a dictionary of pointers and uses four
    operations of it.  [PtrStore] is what it calls, [PtrStoreLaws] what it may
    rely on; the dictionary of dict.c implements both, within the limit on
    deletions that DictSpec.v establishes. *)

From S2P Require Import Prelude CString CFloat Dict DictTheory.

#[local] Open Scope Z_scope.

(** A table from names to non-NULL addresses.  The outer option is termination. *)
Class PtrStore (D : Type) := {
  ps_new : allocs -> option D * allocs;
  ps_get : D -> bstr -> option Z;                                    (* 0 is NULL *)
  ps_add : allocs -> D -> bstr -> Z -> option (Z * D * allocs);
  ps_del : D -> bstr -> option (Z * D);
  ps_each : forall {S : Type}, D -> (bstr -> Z -> S -> option (bool * S)) -> S -> option (bool * S)
}.

(** [ps_ok n k d m]: [d] stands for [m] and can take [n] more operations, [k] of
    them deletions. *)
Class PtrStoreLaws (D : Type) `{!PtrStore D} := {
  ps_ok : Z -> Z -> D -> gmap bstr Z -> Prop;
  ps_ok_mono n k n' k' d m : ps_ok n k d m -> n' <= n -> k' <= k -> ps_ok n' k' d m;
  ps_new_law o n : n < 2 ^ 28 ->
    exists r o', ps_new o = (r, o') /\ (forall d, r = Some d -> ps_ok n 5 d ∅) /\ (o = [] -> is_Some r /\ o' = []);
  ps_get_law n k d m s : ps_ok n k d m -> ps_get d s = Some (default 0 (m !! s));
  ps_add_law n k o d m s p : ps_ok n k d m -> 1 <= n -> 0 <= k ->
    exists rc d' o', ps_add o d s p = Some (rc, d', o') /\
      ((rc = 0 /\ ps_ok (n - 1) k d' (<[s := p]> m)) \/ (rc <> 0 /\ d' = d)) /\ (o = [] -> rc = 0 /\ o' = []);
  ps_del_law n k d m s : ps_ok n k d m -> 1 <= n -> 1 <= k -> is_Some (m !! s) ->
    exists rc d', ps_del d s = Some (rc, d') /\ ps_ok (n - 1) (k - 1) d' (delete s m);
  ps_each_law {S : Type} n k d m (body : bstr -> Z -> S -> option (bool * S)) s : ps_ok n k d m ->
    exists l, NoDup l.*1 /\ list_to_map l = m /\
      ps_each d body s = foldr (fun kp (rest : S -> option (bool * S)) s =>
        '(go, s) ← body kp.1 kp.2 s; if go : bool then rest s else Some (false, s)) (fun s => Some (true, s)) l s
}.

(** ** The dictionary as a table of pointers *)

#[export] Instance dict_ptr_store : PtrStore dict := {
  ps_new := dict_new;
  ps_get d s := dict_get_ptr (Some d) (Some s) 0;
  ps_add o d s p := dict_add_ptr o d (Some s) p;
  ps_del d s := dict_del d (Some s);
  ps_each S d body s :=
    enum_all d (fun k v s => match v with VPtr p => body k p s | _ => Some (true, s) end) s
}.

(** Room for [n] more operations, [k] of them deletions. *)
Record dict_ptr_ok (n k : Z) (d : dict) (m : gmap bstr Z) : Prop := {
  dp_wf : dict_wf d;
  dp_null : has_null (table d);
  dp_fill : fill d + n < 2 ^ 28;
  dp_tombs : tombs (table d) + k <= 5;
  dp_map : dict_map d = VPtr <$> m
}.

Lemma used_le_fill d : dict_wf d -> used d <= fill d.
Proof. intros [_ Hu [Ho _]]. rewrite Hu. eapply Z.le_trans; [apply live_le_occupied | exact Ho]. Qed.

Lemma list_to_map_ptr (l : list (bstr * value)) (m : gmap bstr Z) :
  NoDup l.*1 -> list_to_map l = VPtr <$> m ->
  exists l', l = (fun kp => (kp.1, VPtr kp.2)) <$> l' /\ list_to_map l' = m.
Proof.
  revert m. induction l as [| [k v] l IH]; intros m Hnd Hm.
  - exists []. split; [done |]. apply map_eq. intros k. apply (f_equal (lookup k)) in Hm.
    rewrite lookup_fmap in Hm. rewrite list_to_map_nil, lookup_empty in *. by destruct (m !! k).
  - cbn in Hnd. apply NoDup_cons in Hnd as [Hk Hnd]. rewrite list_to_map_cons in Hm.
    pose proof (f_equal (lookup k) Hm) as Hv. rewrite lookup_insert_eq, lookup_fmap in Hv.
    destruct (m !! k) as [p |] eqn:Hp; [| done]. injection Hv as ->.
    destruct (IH (delete k m) Hnd) as (l' & -> & Hl').
    { rewrite fmap_delete, <- Hm, delete_insert_id; [done |]. by apply not_elem_of_list_to_map_1. }
    exists ((k, p) :: l'). split; [done |]. rewrite list_to_map_cons, Hl'. by rewrite insert_delete_id.
Qed.

Lemma fold_body_foldr {S : Type} (l : list (bstr * Z)) (body : bstr -> Z -> S -> option (bool * S)) s :
  fold_body ((fun kp => (kp.1, VPtr kp.2)) <$> l)
    (fun k v s => match v with VPtr p => body k p s | _ => Some (true, s) end) s =
  foldr (fun kp (rest : S -> option (bool * S)) s =>
    '(go, s) ← body kp.1 kp.2 s; if go : bool then rest s else Some (false, s)) (fun s => Some (true, s)) l s.
Proof.
  revert s. induction l as [| [k p] l IH]; intros s; [done |]. cbn [fmap list_fmap fold_body foldr fst snd].
  destruct (body k p s) as [[[] s'] |]; cbn; [apply IH | done..].
Qed.

#[export] Instance dict_ptr_laws : PtrStoreLaws dict.
Proof.
  refine {| ps_ok := dict_ptr_ok |}.
  - intros n k n' k' d m [] Hn Hk. split; auto with lia.
  - intros o n Hn. destruct (dict_new_spec o) as (r & o' & Hr & Hor & Ho). exists r, o'. split; [exact Hr |]. split.
    + intros d ->. destruct Hor as [[= ->] |]; [| done]. split; [apply (fresh_wf 3); lia | by exists 0%nat, zero_kp | | |].
      * cbn. lia.
      * by vm_compute.
      * by rewrite empty_map, fmap_empty.
    + intros Hnil. destruct (Ho Hnil) as [-> ->]. split; eauto.
  - intros n k d m s []. change (dict_get_ptr (Some d) (Some s) 0 = Some (default 0 (m !! s))). rewrite dict_get_ptr_map, dp_map0, lookup_fmap by done. by destruct (m !! s).
  - intros n k o d m s p [Hwf Hn Hf Ht Hm] Hn1 Hk. pose proof (used_le_fill d Hwf). cbn [ps_add dict_ptr_store].
    destruct (dict_store_spec o d s (VPtr p) Hwf Hn) as (rc & d' & o' & Hs & Hres & Ho); [split; lia |].
    exists rc, d', o'. split; [exact Hs |]. split; [| exact Ho].
    destruct Hres as [[-> [S1 S2 S3 S4 S5 S6]] | [-> ->]]; [left | by right]. split; [done |].
    split; [done | apply S6; lia | lia | lia |]. by rewrite S2, Hm, fmap_insert.
  - intros n k d m s [Hwf Hn Hf Ht Hm] Hn1 Hk1 Hs. cbn [ps_del dict_ptr_store].
    destruct (dict_del_spec d s Hwf Hn) as (rc & d' & Hd & Hres). exists rc, d'. split; [exact Hd |].
    destruct Hres as [(-> & _ & Hwf' & Hm' & Hn' & Hf' & Ht') | (-> & Habs & ->)].
    + split; [done | done | lia | lia |]. by rewrite Hm', Hm, fmap_delete.
    + rewrite Hm, lookup_fmap in Habs. destruct Hs as [p Hp]. by rewrite Hp in Habs.
  - intros S n k d m body s [Hwf Hn Hf Ht Hm].
    destruct (list_to_map_ptr (dict_entries d) m) as (l & Hl & Hml); [by apply entries_nodup | exact Hm |].
    exists l. split; [| split; [exact Hml |]].
    + pose proof (entries_nodup d Hwf) as Hnd. rewrite Hl in Hnd. by rewrite <- list_fmap_compose in Hnd.
    + cbn [ps_each dict_ptr_store]. rewrite enum_all_spec by done. rewrite Hl. apply fold_body_foldr.
Defined.
