(* ===== verification/EventBus.v ===== *)
(** * The event bus (event-bus.c, event-bus.h): state and operations

    Callbacks, dispatchers, user pointers and connections are addresses, 0 is
    NULL.  Every operation runs under the registry lock, so it is one atomic
    step; what it hands to callbacks and dispatchers is a list of deliveries.
    [xcalloc] and its kin stop the program when memory runs out, so only the
    dictionary's own allocations can fail.  The profiling counters of
    [USE_PROFILING] builds are not modelled. *)

From S2P Require Import Prelude CString CFloat Dict JsonString Json PtrStore.

#[local] Open Scope Z_scope.

(** ** Data *)

Record listener := Listener {
  l_cb : Z; l_user : Z; l_dispatch : Z; l_dispatch_user : Z; l_domain_delivery : bool }.

Record blistener := BListener { b_cb : Z; b_user : Z; b_dispatch : Z; b_dispatch_user : Z }.

Record entry := Entry { listeners : list listener; binary_listeners : list blistener; generation : Z }.

(** A token's handle is its position in the order of creation; tokens are never freed. *)
Record token := Token {
  t_event : bstr; t_binary : bool; t_cb : Z; t_binary_cb : Z; t_user : Z; t_generation : Z;
  t_active : bool; t_message : bool; t_executing : Z }.

Record msg_listener := MsgListener {
  m_token : nat; m_domain : option bstr; m_cb : Z; m_user : Z; m_dispatch : Z; m_dispatch_user : Z }.

Record domain := Domain { d_name : bstr; d_dispatch : Z; d_user : Z }.

Record message := Message {
  msg_name : option bstr; msg_sender : option bstr; msg_payload : option bstr; msg_length : nat; msg_flags : Z }.

(** What a callback is called with, now or later. *)
Inductive job :=
| TextJob (cb : Z) (event : bstr) (data : option bstr) (cptr user : Z)
| BinaryJob (cb : Z) (event : bstr) (data : option bstr) (len : nat) (cptr user : Z)
| MessageJob (cb : Z) (tok : nat) (user : Z) (name sender : bstr) (payload : option bstr) (length : nat) (flags : Z).

(** A direct call, or a job handed to a dispatcher with its user pointer. *)
Inductive delivery :=
| Call (j : job)
| Dispatch (dispatch : Z) (j : job) (dispatch_user : Z).

(** The globals: the dictionary, the entries it points to with the next free
    address, the tokens, and the two lists with their most recent element first. *)
Record bus (D : Type) := Bus {
  event_store : option D; heap : gmap Z entry; next_addr : Z;
  event_tokens : list token; message_listeners : list msg_listener; event_domains : list domain;
  memory : allocs }.
Arguments Bus {D}.
Arguments event_store {D}.
Arguments heap {D}.
Arguments next_addr {D}.
Arguments event_tokens {D}.
Arguments message_listeners {D}.
Arguments event_domains {D}.
Arguments memory {D}.

#[export] Instance listener_eq_dec : EqDecision listener.
Proof. solve_decision. Defined.
#[export] Instance blistener_eq_dec : EqDecision blistener.
Proof. solve_decision. Defined.

Definition NOMATCH : bstr := B "NOMATCH".

Definition empty_entry : entry := Entry [] [] 0.

Section bus.
Context {D : Type} `{!PtrStore D}.
Implicit Types b : bus D.

Definition set_store b (s : option D) (o : allocs) : bus D :=
  Bus s (heap b) (next_addr b) (event_tokens b) (message_listeners b) (event_domains b) o.
Definition set_heap b (h : gmap Z entry) (n : Z) : bus D :=
  Bus (event_store b) h n (event_tokens b) (message_listeners b) (event_domains b) (memory b).
Definition set_tokens b (l : list token) : bus D :=
  Bus (event_store b) (heap b) (next_addr b) l (message_listeners b) (event_domains b) (memory b).
Definition set_messages b (l : list msg_listener) : bus D :=
  Bus (event_store b) (heap b) (next_addr b) (event_tokens b) l (event_domains b) (memory b).
Definition set_domains b (l : list domain) : bus D :=
  Bus (event_store b) (heap b) (next_addr b) (event_tokens b) (message_listeners b) l (memory b).

(** ** The registry *)

Definition event_lookup_locked b (event : bstr) : option Z :=
  match event_store b with
  | None => Some 0
  | Some s => ps_get s event
  end.

(** The address of the entry, 0 when it cannot be created. *)
Definition event_get_or_create_locked b (event : bstr) : option (Z * bus D) :=
  match event_store b with
  | None => Some (0, b)
  | Some s =>
      p ← ps_get s event;
      if negb (p =? 0) then Some (p, b)
      else
        let addr := next_addr b in
        '(rc, s, o) ← ps_add (memory b) s event addr;
        let b := set_store b (Some s) o in
        if rc =? 0 then Some (addr, set_heap b (<[addr := empty_entry]> (heap b)) (addr + 1))
        else Some (0, b)
  end.

Definition get_entry b (p : Z) : entry := default empty_entry (heap b !! p).
Definition put_entry b (p : Z) (e : entry) : bus D := set_heap b (<[p := e]> (heap b)) (next_addr b).

Definition event_remove_if_empty_locked b (event : bstr) (p : Z) : option (bus D) :=
  let e := get_entry b p in
  match listeners e, binary_listeners e, event_store b with
  | [], [], Some s =>
      '(_, s) ← ps_del s event;
      Some (set_heap (set_store b (Some s) (memory b)) (delete p (heap b)) (next_addr b))
  | _, _, _ => Some b
  end.

(** ** Subscribing *)

Definition event_on_dispatch b (event : option bstr) (cb user dispatch dispatch_user : Z) : option (bus D) :=
  match event with
  | None => Some b
  | Some event =>
      if cb =? 0 then Some b
      else
        match event_store b with
        | None => Some b
        | Some _ =>
            '(p, b) ← event_get_or_create_locked b event;
            if p =? 0 then Some b
            else
              let e := get_entry b p in
              Some (put_entry b p
                (Entry (listeners e ++ [Listener cb user dispatch dispatch_user false]) (binary_listeners e)
                  (u64 (generation e + 1))))
        end
  end.

Definition event_on b event cb user := event_on_dispatch b event cb user 0 0.

(** Unlike its text twin it leaves the generation alone. *)
Definition event_on_binary_dispatch b (event : option bstr) (cb user dispatch dispatch_user : Z) : option (bus D) :=
  match event with
  | None => Some b
  | Some event =>
      if cb =? 0 then Some b
      else
        match event_store b with
        | None => Some b
        | Some _ =>
            '(p, b) ← event_get_or_create_locked b event;
            if p =? 0 then Some b
            else
              let e := get_entry b p in
              Some (put_entry b p
                (Entry (listeners e) (binary_listeners e ++ [BListener cb user dispatch dispatch_user]) (generation e)))
        end
  end.

Definition event_on_binary b event cb user := event_on_binary_dispatch b event cb user 0 0.
Definition event_register_binary b event cb user := event_on_binary b event cb user.

Definition add_token b (t : token) : nat * bus D :=
  (length (event_tokens b), set_tokens b (event_tokens b ++ [t])).

Definition event_on_token_dispatch b (event : option bstr) (cb user dispatch dispatch_user : Z)
  : option (option nat * bus D) :=
  match event with
  | None => Some (None, b)
  | Some event =>
      if cb =? 0 then Some (None, b)
      else
        '(p, b) ← event_get_or_create_locked b event;
        if p =? 0 then Some (None, b)
        else
          let e := get_entry b p in
          let gen := u64 (generation e + 1) in
          let b := put_entry b p
            (Entry (listeners e ++ [Listener cb user dispatch dispatch_user false]) (binary_listeners e) gen) in
          let '(tok, b) := add_token b (Token event false cb 0 user gen true false 0) in
          Some (Some tok, b)
  end.

Definition event_on_token b event cb user := event_on_token_dispatch b event cb user 0 0.

Definition event_on_binary_token_dispatch b (event : option bstr) (cb user dispatch dispatch_user : Z)
  : option (option nat * bus D) :=
  match event with
  | None => Some (None, b)
  | Some event =>
      if cb =? 0 then Some (None, b)
      else
        '(p, b) ← event_get_or_create_locked b event;
        if p =? 0 then Some (None, b)
        else
          let e := get_entry b p in
          let gen := u64 (generation e + 1) in
          let b := put_entry b p
            (Entry (listeners e) (binary_listeners e ++ [BListener cb user dispatch dispatch_user]) gen) in
          let '(tok, b) := add_token b (Token event true 0 cb user gen true false 0) in
          Some (Some tok, b)
  end.

Definition event_on_binary_token b event cb user := event_on_binary_token_dispatch b event cb user 0 0.

(** ** Unsubscribing *)

(** The array without its first element that satisfies [f], and whether there was one. *)
Fixpoint remove_first {A} (f : A -> bool) (l : list A) : list A * bool :=
  match l with
  | [] => ([], false)
  | x :: l => if f x then (l, true) else let '(l, r) := remove_first f l in (x :: l, r)
  end.

(** The array without all of them. *)
Fixpoint remove_all {A} (f : A -> bool) (l : list A) : list A :=
  match l with
  | [] => []
  | x :: l => if f x then remove_all f l else x :: remove_all f l
  end.

Definition deactivate (t : token) : token :=
  Token (t_event t) (t_binary t) (t_cb t) (t_binary_cb t) (t_user t) (t_generation t) false (t_message t) (t_executing t).

Definition bump (e : entry) (removed : bool) : Z := if removed then u64 (generation e + 1) else generation e.

(** The removal of a text or binary token's listener from its entry. *)
Definition drop_listener (e : entry) (t : token) : entry :=
  if t_binary t then
    let '(ls, r) := remove_first (fun l => (b_cb l =? t_binary_cb t) && (b_user l =? t_user t)) (binary_listeners e) in
    Entry (listeners e) ls (bump e r)
  else
    let '(ls, r) := remove_first (fun l => (l_cb l =? t_cb t) && (l_user l =? t_user t)) (listeners e) in
    Entry ls (binary_listeners e) (bump e r).

(** What runs under the lock; the caller has seen the token active before taking it. *)
Definition event_off_token_locked b (h : nat) (t : token) : option (bus D) :=
  let off b := set_tokens b (<[h := deactivate t]> (event_tokens b)) in
  if t_message t then
    Some (off (set_messages b (remove_first (fun l => Nat.eqb (m_token l) h) (message_listeners b)).1))
  else
    p ← event_lookup_locked b (t_event t);
    if p =? 0 then Some (off b)
    else
      let b := put_entry b p (drop_listener (get_entry b p) t) in
      b ← event_remove_if_empty_locked b (t_event t) p;
      Some (off b).

Definition event_off_token b (handle : option nat) : option (bus D) :=
  match handle ≫= fun h => (h,.) <$> event_tokens b !! h with
  | None => Some b
  | Some (h, t) => if negb (t_active t) then Some b else event_off_token_locked b h t
  end.

(** 0 for [cb] or [user] matches anything. *)
Definition wild (want have : Z) : bool := (want =? 0) || (have =? want).

Definition event_off b (event : option bstr) (cb user : Z) : option (bus D) :=
  match event with
  | None => Some b
  | Some event =>
      p ← event_lookup_locked b event;
      if p =? 0 then Some b
      else
        let e := get_entry b p in
        let ls := remove_all (fun l => wild cb (l_cb l) && wild user (l_user l)) (listeners e) in
        event_remove_if_empty_locked (put_entry b p (Entry ls (binary_listeners e) (generation e))) event p
  end.

Definition event_off_binary b (event : option bstr) (cb user : Z) : option (bus D) :=
  match event with
  | None => Some b
  | Some event =>
      p ← event_lookup_locked b event;
      if p =? 0 then Some b
      else
        let e := get_entry b p in
        let ls := remove_all (fun l => wild cb (b_cb l) && wild user (b_user l)) (binary_listeners e) in
        event_remove_if_empty_locked (put_entry b p (Entry (listeners e) ls (generation e))) event p
  end.

(** ** Emitting *)

Definition event_fire_listener (l : listener) (event : bstr) (cptr : Z) (data : option bstr) : list delivery :=
  if l_cb l =? 0 then []
  else if l_dispatch l =? 0 then [Call (TextJob (l_cb l) event data cptr (l_user l))]
  else [Dispatch (l_dispatch l)
          (TextJob (l_cb l) event data (if l_domain_delivery l then 0 else cptr) (l_user l)) (l_dispatch_user l)].

(** A queued payload is a copy of [len] bytes, or NULL when there are none. *)
Definition copy_payload (data : option bstr) (len : nat) : option bstr :=
  match data, len with
  | Some bytes, S _ => Some (take len bytes)
  | _, _ => None
  end.

Definition event_fire_binary_listener (l : blistener) (event : bstr) (cptr : Z) (data : option bstr) (len : nat)
  : list delivery :=
  if b_cb l =? 0 then []
  else if b_dispatch l =? 0 then [Call (BinaryJob (b_cb l) event data len cptr (b_user l))]
  else [Dispatch (b_dispatch l) (BinaryJob (b_cb l) event (copy_payload data len) len cptr (b_user l)) (b_dispatch_user l)].

(** The copy of an entry's listeners, taken under the lock. *)
Definition event_snapshot_locked b (event : bstr) : option (list listener) :=
  p ← event_lookup_locked b event;
  Some (if p =? 0 then [] else listeners (get_entry b p)).

Definition event_binary_snapshot_locked b (event : bstr) : option (list blistener) :=
  p ← event_lookup_locked b event;
  Some (if p =? 0 then [] else binary_listeners (get_entry b p)).

(** The deliveries, in order. *)
Definition event_emit b (event : option bstr) (cptr : Z) (data : option bstr) : option (list delivery) :=
  match event with
  | None => Some []
  | Some event =>
      snapshot ← event_snapshot_locked b event;
      match snapshot with
      | _ :: _ => Some (flat_map (fun l => event_fire_listener l event cptr data) snapshot)
      | [] =>
          snapshot ← event_snapshot_locked b NOMATCH;
          Some (flat_map (fun l => event_fire_listener l event cptr data) snapshot)
      end
  end.

Definition event_emit_binary b (event : option bstr) (cptr : Z) (data : option bstr) (len : nat)
  : option (list delivery) :=
  match event with
  | None => Some []
  | Some event =>
      snapshot ← event_binary_snapshot_locked b event;
      Some (flat_map (fun l => event_fire_binary_listener l event cptr data len) snapshot)
  end.

(** No JSON text, no event. *)
Definition event_emit_dict b (o : allocs) (event : option bstr) (cptr : Z) (data : option dict) : option (list delivery) :=
  match data with
  | None => Some []
  | Some d =>
      '(jp, _) ← dict2json o (Some d);
      match jp with
      | Some jp => event_emit b event cptr (Some jp)
      | None => Some []
      end
  end.

(** ** Messages *)

Definition message_token (name : bstr) (user : Z) : token := Token name false 0 0 user 0 true true 0.

Definition event_on_message_token b (name : option bstr) (cb user dispatch dispatch_user : Z) : option nat * bus D :=
  match name, event_store b with
  | Some name, Some _ =>
      if cb =? 0 then (None, b)
      else
        let '(tok, b) := add_token b (message_token name user) in
        (Some tok, set_messages b (MsgListener tok None cb user dispatch dispatch_user :: message_listeners b))
  | _, _ => (None, b)
  end.

Definition find_domain b (name : bstr) : option domain :=
  snd <$> list_find (fun d => d_name d = name) (event_domains b).

Definition event_on_message_domain_token b (name : option bstr) (cb user : Z) (dom : option bstr) : option nat * bus D :=
  match name, dom with
  | Some name, Some dom =>
      if cb =? 0 then (None, b)
      else
        match find_domain b dom, event_store b with
        | Some d, Some _ =>
            let '(tok, b) := add_token b (message_token name user) in
            (Some tok, set_messages b
              (MsgListener tok (Some dom) cb user (d_dispatch d) (d_user d) :: message_listeners b))
        | _, _ => (None, b)
        end
  | _, _ => (None, b)
  end.

Definition event_emit_message b (m : message) : list delivery :=
  match msg_name m with
  | None => []
  | Some name =>
      if match msg_payload m, msg_length m with None, S _ => true | _, _ => false end then []
      else
        let targets := base.filter (fun l => t_event <$> event_tokens b !! m_token l = Some name) (message_listeners b) in
        map (fun l =>
          let j := MessageJob (m_cb l) (m_token l) (m_user l) name (default [] (msg_sender m))
                     (copy_payload (msg_payload m) (msg_length m)) (msg_length m) (msg_flags m) in
          if m_dispatch l =? 0 then Call j else Dispatch (m_dispatch l) j (m_dispatch_user l)) targets
  end.

(** ** Domains *)

Definition event_domain_register b (name : option bstr) (dispatch user : Z) : bool * bus D :=
  match name, event_store b with
  | Some ((_ :: _) as name), Some _ =>
      if dispatch =? 0 then (false, b)
      else
        match find_domain b name with
        | Some _ => (false, b)
        | None => (true, set_domains b (Domain name dispatch user :: event_domains b))
        end
  | _, _ => (false, b)
  end.

(** Whether an entry still dispatches through the domain. *)
Definition uses_domain (e : entry) (d : domain) : bool :=
  existsb (fun l => (l_dispatch l =? d_dispatch d) && (l_dispatch_user l =? d_user d)) (listeners e) ||
  existsb (fun l => (b_dispatch l =? d_dispatch d) && (b_dispatch_user l =? d_user d)) (binary_listeners e).

Definition event_domain_unregister b (name : option bstr) : option (bool * bus D) :=
  match name with
  | None => Some (false, b)
  | Some name =>
      match find_domain b name with
      | None => Some (false, b)
      | Some d =>
          if existsb (fun l => match m_domain l with Some n => streq n (d_name d) | None => false end) (message_listeners b)
          then Some (false, b)
          else
            '(unused, _) ←
              match event_store b with
              | None => Some (true, tt)
              | Some s => ps_each s (fun _ p _ => Some (if p =? 0 then true else negb (uses_domain (get_entry b p) d), tt)) tt
              end;
            if unused : bool then
              Some (true, set_domains b (remove_first (fun d => streq (d_name d) name) (event_domains b)).1)
            else Some (false, b)
      end
  end.

(** The listener just registered is marked, and every other one that looks like it. *)
Definition event_on_domain_token b (event : option bstr) (cb user : Z) (dom : option bstr) : option (option nat * bus D) :=
  match event, dom with
  | Some event, Some dom =>
      if cb =? 0 then Some (None, b)
      else
        match find_domain b dom with
        | None => Some (None, b)
        | Some d =>
            if d_dispatch d =? 0 then Some (None, b)
            else
              '(tok, b) ← event_on_token_dispatch b (Some event) cb user (d_dispatch d) (d_user d);
              match tok with
              | None => Some (None, b)
              | Some tok =>
                  '(p, b) ← event_get_or_create_locked b event;
                  if p =? 0 then Some (Some tok, b)
                  else
                    let e := get_entry b p in
                    let mark l :=
                      if (l_cb l =? cb) && (l_user l =? user) && (l_dispatch l =? d_dispatch d) &&
                         (l_dispatch_user l =? d_user d)
                      then Listener (l_cb l) (l_user l) (l_dispatch l) (l_dispatch_user l) true else l in
                    Some (Some tok, put_entry b p (Entry (map mark (listeners e)) (binary_listeners e) (generation e)))
              end
        end
  | _, _ => Some (None, b)
  end.

Definition event_on_binary_domain_token b (event : option bstr) (cb user : Z) (dom : option bstr)
  : option (option nat * bus D) :=
  match event, dom with
  | Some event, Some dom =>
      if cb =? 0 then Some (None, b)
      else
        match find_domain b dom with
        | None => Some (None, b)
        | Some d =>
            if d_dispatch d =? 0 then Some (None, b)
            else event_on_binary_token_dispatch b (Some event) cb user (d_dispatch d) (d_user d)
        end
  | _, _ => Some (None, b)
  end.

(** ** Lifetime *)

Definition event_init b : bus D :=
  match event_store b with
  | Some _ => b
  | None => let '(s, o) := ps_new (memory b) in set_store b s o
  end.

(** Frees the entries, domains and message listeners; the tokens of message
    listeners become inactive, the others stay as they are. *)
Definition event_shutdown b : option (bus D) :=
  match event_store b with
  | None => Some b
  | Some s =>
      '(_, h) ← ps_each s (fun _ p h => Some (true, delete p h)) (heap b);
      let toks := foldl (fun ts l => alter deactivate (m_token l) ts) (event_tokens b) (message_listeners b) in
      Some (Bus None h (next_addr b) toks [] [] (memory b))
  end.

End bus.
