(* ===== verification/EventBusTheory.v ===== *)
(** * The event bus refines a map of listener lists (event-bus.c)

    The registry invariant (every name of the dictionary owns one live entry,
    entries are never empty, nothing leaks), the abstract bus, and the
    simulation of each operation, against the [PtrStore] interface. *)

From S2P Require Import Prelude CString Dict PtrStore EventBus.

#[local] Open Scope Z_scope.

(** ** The abstract bus *)

Abbreviation lists := (list listener * list blistener)%type.

Record stoken := SToken { s_event : bstr; s_binary : bool; s_cb : Z; s_user : Z; s_active : bool }.

Record spec := Spec { reg : gmap bstr lists; toks : list stoken }.

Definition lists_of (e : entry) : lists := (listeners e, binary_listeners e).

Definition reg_get (m : gmap bstr lists) (ev : bstr) : lists := default ([], []) (m !! ev).

(** Names without listeners are not in the map. *)
Definition reg_put (m : gmap bstr lists) (ev : bstr) (ls : lists) : gmap bstr lists :=
  match ls with
  | ([], []) => delete ev m
  | _ => <[ev := ls]> m
  end.

Inductive bus_op :=
| On (event : bstr) (cb user dispatch dispatch_user : Z)
| OnBinary (event : bstr) (cb user dispatch dispatch_user : Z)
| OnToken (event : bstr) (cb user dispatch dispatch_user : Z)
| OnBinaryToken (event : bstr) (cb user dispatch dispatch_user : Z)
| OffToken (h : nat)
| Off (event : bstr) (cb user : Z)
| OffBinary (event : bstr) (cb user : Z).

Definition add_text (m : gmap bstr lists) (ev : bstr) (l : listener) : gmap bstr lists :=
  reg_put m ev ((reg_get m ev).1 ++ [l], (reg_get m ev).2).
Definition add_binary (m : gmap bstr lists) (ev : bstr) (l : blistener) : gmap bstr lists :=
  reg_put m ev ((reg_get m ev).1, (reg_get m ev).2 ++ [l]).

(** The lists without the first listener a token matches. *)
Definition drop_token (ls : lists) (t : stoken) : lists :=
  if s_binary t then
    (ls.1, (remove_first (fun l => (b_cb l =? s_cb t) && (b_user l =? s_user t)) ls.2).1)
  else ((remove_first (fun l => (l_cb l =? s_cb t) && (l_user l =? s_user t)) ls.1).1, ls.2).

Definition s_off (t : stoken) : stoken := SToken (s_event t) (s_binary t) (s_cb t) (s_user t) false.

Definition spec_op (s : spec) (op : bus_op) : spec :=
  match op with
  | On ev cb user d du =>
      if cb =? 0 then s else Spec (add_text (reg s) ev (Listener cb user d du false)) (toks s)
  | OnBinary ev cb user d du =>
      if cb =? 0 then s else Spec (add_binary (reg s) ev (BListener cb user d du)) (toks s)
  | OnToken ev cb user d du =>
      if cb =? 0 then s
      else Spec (add_text (reg s) ev (Listener cb user d du false)) (toks s ++ [SToken ev false cb user true])
  | OnBinaryToken ev cb user d du =>
      if cb =? 0 then s
      else Spec (add_binary (reg s) ev (BListener cb user d du)) (toks s ++ [SToken ev true cb user true])
  | OffToken h =>
      match toks s !! h with
      | None => s
      | Some t =>
          if s_active t then
            Spec (reg_put (reg s) (s_event t) (drop_token (reg_get (reg s) (s_event t)) t)) (<[h := s_off t]> (toks s))
          else s
      end
  | Off ev cb user =>
      Spec (reg_put (reg s) ev
        (remove_all (fun l => wild cb (l_cb l) && wild user (l_user l)) (reg_get (reg s) ev).1, (reg_get (reg s) ev).2))
        (toks s)
  | OffBinary ev cb user =>
      Spec (reg_put (reg s) ev
        ((reg_get (reg s) ev).1, remove_all (fun l => wild cb (b_cb l) && wild user (b_user l)) (reg_get (reg s) ev).2))
        (toks s)
  end.

(** ** The invariant *)

Section theory.
Context {D : Type} `{!PtrStore D} `{!PtrStoreLaws D}.
Implicit Types b : bus D.

(** [addr] gives each name its entry; distinct names own distinct entries, and
    every entry on the heap belongs to a name. *)
Record linked (n k : Z) (b : bus D) (addr : gmap bstr Z) : Prop := {
  lk_store : exists s, event_store b = Some s /\ ps_ok n k s addr;
  lk_memory : memory b = [];
  lk_range : forall ev p, addr !! ev = Some p -> 0 < p < next_addr b;
  lk_inj : forall ev ev' p, addr !! ev = Some p -> addr !! ev' = Some p -> ev = ev';
  lk_heap : forall p, is_Some (heap b !! p) <-> exists ev, addr !! ev = Some p;
  lk_next : 0 < next_addr b
}.

(** The registry a bus holds. *)
Definition shows (b : bus D) (addr : gmap bstr Z) (m : gmap bstr lists) : Prop :=
  forall ev, m !! ev = lists_of <$> (addr !! ev ≫= fun p => heap b !! p).

Definition no_empty (m : gmap bstr lists) : Prop := forall ev, m !! ev <> Some ([], []).

(** A token and its abstraction. *)
Definition tok_rel (t : token) (st : stoken) : Prop :=
  t_message t = false /\ s_event st = t_event t /\ s_binary st = t_binary t /\ s_user st = t_user t /\
  s_active st = t_active t /\ s_cb st = if t_binary t then t_binary_cb t else t_cb t.

Definition bus_rel (n k : Z) (b : bus D) (s : spec) : Prop :=
  exists addr, linked n k b addr /\ shows b addr (reg s) /\ no_empty (reg s) /\ Forall2 tok_rel (event_tokens b) (toks s).

Lemma linked_mono n k n' k' b addr : linked n k b addr -> n' <= n -> k' <= k -> linked n' k' b addr.
Proof.
  intros [(s & Hs & Hok) H1 H2 H3 H4 H5] Hn Hk. split; try done. exists s. split; [done |]. by eapply ps_ok_mono.
Qed.

Lemma lookup_linked n k b addr ev :
  linked n k b addr -> event_lookup_locked b ev = Some (default 0 (addr !! ev)).
Proof. intros [(s & Hs & Hok) _ _ _ _ _]. unfold event_lookup_locked. rewrite Hs. by eapply ps_get_law. Qed.

Lemma linked_entry n k b addr ev p :
  linked n k b addr -> addr !! ev = Some p -> p <> 0 /\ heap b !! p = Some (get_entry b p).
Proof.
  intros Hl Hp. pose proof (lk_range _ _ _ _ Hl _ _ Hp). split; [lia |].
  destruct (proj2 (lk_heap _ _ _ _ Hl p) (ex_intro _ ev Hp)) as [e He]. unfold get_entry. by rewrite He.
Qed.

Lemma shows_get b addr m ev n k :
  linked n k b addr -> shows b addr m ->
  reg_get m ev = match addr !! ev with Some p => lists_of (get_entry b p) | None => ([], []) end.
Proof.
  intros Hl Hs. unfold reg_get. rewrite Hs. destruct (addr !! ev) as [p |] eqn:Hp; [| done]. cbn.
  by rewrite (proj2 (linked_entry _ _ _ _ _ _ Hl Hp)).
Qed.

(** ** Writing an entry *)

Lemma put_entry_linked n k b addr ev p e :
  linked n k b addr -> addr !! ev = Some p -> linked n k (put_entry b p e) addr.
Proof.
  intros [Hs Hm Hr Hi Hh Hn] Hp. split; try done. cbn. intros q. rewrite lookup_insert_is_Some, Hh.
  destruct (decide (q = p)) as [-> | Hne]; [| naive_solver]. split; eauto.
Qed.

Lemma put_entry_shows n k b addr ev p e m :
  linked n k b addr -> shows b addr m -> addr !! ev = Some p -> shows (put_entry b p e) addr (<[ev := lists_of e]> m).
Proof.
  intros Hl Hs Hp ev'. cbn. destruct (decide (ev' = ev)) as [-> | Hne].
  - rewrite lookup_insert_eq, Hp. cbn. by rewrite lookup_insert_eq.
  - rewrite lookup_insert_ne, Hs by done. destruct (addr !! ev') as [q |] eqn:Hq; [| done]. cbn.
    rewrite lookup_insert_ne; [done |]. intros <-. apply Hne. by eapply (lk_inj _ _ _ _ Hl).
Qed.

Lemma reg_put_nonempty m ev ls : ls <> ([], []) -> reg_put m ev ls = <[ev := ls]> m.
Proof. by destruct ls as [[] []]. Qed.

Lemma no_empty_put m ev ls : no_empty m -> no_empty (reg_put m ev ls).
Proof.
  intros Hm ev'. destruct (decide (ls = ([], []))) as [-> | Hne].
  - cbn. rewrite lookup_delete_Some. intros [_ Hx]. by eapply Hm.
  - rewrite reg_put_nonempty by done. rewrite lookup_insert_Some. intros [[_ ?] | [_ Hx]]; [done | by eapply Hm].
Qed.

Lemma reg_put_put m ev ls ls' : reg_put (<[ev := ls']> m) ev ls = reg_put m ev ls.
Proof. destruct ls as [[] []]; cbn; [apply delete_insert_eq | by rewrite insert_insert_eq..]. Qed.

(** [event_remove_if_empty_locked] after an entry was written. *)
Lemma write_entry n k b addr m ev p e :
  linked n k b addr -> shows b addr m -> no_empty m -> addr !! ev = Some p -> 1 <= n -> 1 <= k ->
  exists b' addr', event_remove_if_empty_locked (put_entry b p e) ev p = Some b' /\
    linked (n - 1) (k - 1) b' addr' /\ shows b' addr' (reg_put m ev (lists_of e)) /\
    event_tokens b' = event_tokens b.
Proof.
  intros Hl Hs He Hp Hn Hk. unfold event_remove_if_empty_locked.
  assert (Hge : get_entry (put_entry b p e) p = e) by (unfold get_entry; cbn; by rewrite lookup_insert_eq).
  rewrite Hge. pose proof (put_entry_linked _ _ _ _ _ _ e Hl Hp) as Hl1.
  pose proof (put_entry_shows _ _ _ _ _ _ e _ Hl Hs Hp) as Hs1.
  destruct (decide (lists_of e = ([], []))) as [Hempty | Hne].
  - destruct e as [ls bs g]. unfold lists_of in Hempty |- *. cbn [listeners binary_listeners] in *.
    injection Hempty as -> ->. cbn [reg_put].
    destruct (lk_store _ _ _ _ Hl1) as (s & Hst & Hok). rewrite Hst.
    destruct (ps_del_law n k s addr ev Hok Hn Hk) as (rc & s' & -> & Hok'); [eauto |].
    cbn. eexists _, (delete ev addr). split; [done |]. destruct Hl1 as [_ Hm Hr Hi Hh Hnx]. cbn in *. split_and!; [| | done].
    + split; cbn; [eauto | done | | | | done].
      * intros ev' q [_ Hq]%lookup_delete_Some. eauto.
      * intros ev1 ev2 q [_ Hq1]%lookup_delete_Some [_ Hq2]%lookup_delete_Some. eauto.
      * intros q. rewrite lookup_delete_is_Some, Hh. split.
        -- intros [Hqp [ev' Hq]]. exists ev'. apply lookup_delete_Some. split; [| done]. intros <-. congruence.
        -- intros [ev' [Hev Hq]%lookup_delete_Some]. split; [| eauto]. intros <-. apply Hev. eauto.
    + intros ev'. cbn. destruct (decide (ev' = ev)) as [-> | Hev].
      * by rewrite !lookup_delete_eq.
      * rewrite !lookup_delete_ne by done. specialize (Hs1 ev'). cbn in Hs1. rewrite lookup_insert_ne in Hs1 by done.
        rewrite Hs1. destruct (addr !! ev') as [q |] eqn:Hq; [| done]. cbn.
        rewrite (lookup_delete_ne _ p q); [done |]. intros <-. apply Hev. eauto.
  - exists (put_entry b p e), addr. rewrite reg_put_nonempty by done. split_and!; [| | done | done].
    + destruct e as [ls bs g]. cbn in *. destruct ls; [destruct bs; [done |] |]; by destruct (event_store b).
    + eapply linked_mono; [done | lia..].
Qed.

(** ** Finding or creating an entry *)

Lemma get_or_create_linked n k b addr m ev :
  linked n k b addr -> shows b addr m -> 1 <= n -> 0 <= k ->
  exists p b' addr', event_get_or_create_locked b ev = Some (p, b') /\ p <> 0 /\
    linked (n - 1) k b' addr' /\ addr' !! ev = Some p /\ lists_of (get_entry b' p) = reg_get m ev /\
    (forall e, shows (put_entry b' p e) addr' (<[ev := lists_of e]> m)) /\
    event_tokens b' = event_tokens b /\ is_Some (event_store b').
Proof.
  intros Hl Hs Hn Hk. destruct (lk_store _ _ _ _ Hl) as (s & Hst & Hok).
  unfold event_get_or_create_locked. rewrite Hst, (ps_get_law _ _ _ _ _ Hok). cbn [mbind option_bind].
  destruct (addr !! ev) as [p |] eqn:Hp; cbn [default from_option id].
  - destruct (linked_entry _ _ _ _ _ _ Hl Hp) as [Hp0 He]. rewrite (proj2 (Z.eqb_neq p 0)) by done. cbn [negb].
    exists p, b, addr. split_and!; try done.
    + eapply linked_mono; [done | lia..].
    + rewrite (shows_get b addr m ev n k) by done. by rewrite Hp.
    + intros e. by eapply put_entry_shows.
  - cbn [Z.eqb negb]. rewrite (lk_memory _ _ _ _ Hl).
    destruct (ps_add_law n k [] s addr ev (next_addr b) Hok Hn Hk) as (rc & s' & o' & -> & Hres & Ho).
    destruct (Ho eq_refl) as [-> ->]. cbn. destruct Hres as [[_ Hok'] | [? _]]; [| done].
    eexists (next_addr b), _, (<[ev := next_addr b]> addr). split; [done |].
    pose proof (lk_next _ _ _ _ Hl) as Hnx. split; [lia |].
    assert (Hfresh : forall ev' q, addr !! ev' = Some q -> q <> next_addr b).
    { intros ev' q Hq. pose proof (lk_range _ _ _ _ Hl _ _ Hq). lia. }
    split_and!; [| by rewrite lookup_insert_eq | | | done | done].
    + destruct Hl as [_ Hm Hr Hi Hh _]. split; cbn; [by exists s' | done | | | | lia].
      * intros ev' q [[<- <-] | [_ Hq]]%lookup_insert_Some; [lia |]. specialize (Hr _ _ Hq). lia.
      * intros ev1 ev2 q [[<- <-] | [_ Hq1]]%lookup_insert_Some [[<- Heq] | [_ Hq2]]%lookup_insert_Some;
          [done | by destruct (Hfresh _ _ Hq2) | subst q; by destruct (Hfresh _ _ Hq1) | by eapply Hi].
      * intros q. rewrite lookup_insert_is_Some. split.
        -- destruct (decide (q = next_addr b)) as [-> | Hne]; intros Hq.
           ++ exists ev. by rewrite lookup_insert_eq.
           ++ destruct Hq as [Heq | [_ Hq]]; [by rewrite Heq in Hne |]. apply Hh in Hq as [ev' Hev']. exists ev'.
              rewrite lookup_insert_ne; [done |]. intros <-. congruence.
        -- intros [ev' [[<- <-] | [_ Hq]]%lookup_insert_Some]; [by left |]. right.
           split; [intros Heq; by destruct (Hfresh _ _ Hq) | apply Hh; eauto].
    + unfold get_entry. cbn. rewrite lookup_insert_eq. cbn. rewrite (shows_get b addr m ev n k) by done. by rewrite Hp.
    + intros e ev'. cbn. destruct (decide (ev' = ev)) as [-> | Hne].
      * rewrite !lookup_insert_eq. cbn. by rewrite lookup_insert_eq.
      * rewrite !lookup_insert_ne, Hs by done. destruct (addr !! ev') as [q |] eqn:Hq; [| done]. cbn.
        pose proof (Hfresh _ _ Hq). by rewrite !lookup_insert_ne.
Qed.

(** ** Simulation *)

(** Adding a listener: the entry ends up not empty. *)
Lemma add_entry n k b m ev (e' : entry -> entry) :
  (exists addr, linked n k b addr /\ shows b addr m) -> no_empty m -> 1 <= n -> 0 <= k ->
  (forall e, lists_of (e' e) <> ([], [])) ->
  exists p b', event_get_or_create_locked b ev = Some (p, b') /\ p <> 0 /\ is_Some (event_store b') /\
    event_tokens b' = event_tokens b /\ lists_of (get_entry b' p) = reg_get m ev /\
    exists addr', linked (n - 1) k (put_entry b' p (e' (get_entry b' p))) addr' /\
      shows (put_entry b' p (e' (get_entry b' p))) addr' (reg_put m ev (lists_of (e' (get_entry b' p)))).
Proof.
  intros (addr & Hl & Hs) He Hn Hk Hne.
  destruct (get_or_create_linked n k b addr m ev Hl Hs Hn Hk)
    as (p & b' & addr' & Hg & Hp & Hl' & Ha & Hls & Hsh & Ht & Hst).
  exists p, b'. split_and!; try done. exists addr'. split; [by eapply put_entry_linked |].
  rewrite reg_put_nonempty by apply Hne. apply Hsh.
Qed.

Lemma tok_rel_lookup ts sts h :
  Forall2 tok_rel ts sts ->
  match ts !! h, sts !! h with
  | Some t, Some st => tok_rel t st
  | None, None => True
  | _, _ => False
  end.
Proof.
  intros HF. destruct (ts !! h) as [t |] eqn:Ht.
  - destruct (Forall2_lookup_l _ _ _ _ _ HF Ht) as (st & -> & Hr). done.
  - destruct (sts !! h) as [st |] eqn:Hst; [| done].
    destruct (Forall2_lookup_r _ _ _ _ _ HF Hst) as (t & Hx & _). congruence.
Qed.

(** One operation on the bus; tokens are named by their handle. *)
Definition run_bus_op (b : bus D) (op : bus_op) : option (bus D) :=
  match op with
  | On ev cb user d du => event_on_dispatch b (Some ev) cb user d du
  | OnBinary ev cb user d du => event_on_binary_dispatch b (Some ev) cb user d du
  | OnToken ev cb user d du => '(_, b) ← event_on_token_dispatch b (Some ev) cb user d du; Some b
  | OnBinaryToken ev cb user d du => '(_, b) ← event_on_binary_token_dispatch b (Some ev) cb user d du; Some b
  | OffToken h => event_off_token b (Some h)
  | Off ev cb user => event_off b (Some ev) cb user
  | OffBinary ev cb user => event_off_binary b (Some ev) cb user
  end.

Definition unsubscribes (op : bus_op) : Z :=
  match op with OffToken _ | Off _ _ _ | OffBinary _ _ _ => 1 | _ => 0 end.

Lemma bus_rel_mono n k n' k' b s : bus_rel n k b s -> n' <= n -> k' <= k -> bus_rel n' k' b s.
Proof. intros (addr & Hl & Hres) Hn Hk. exists addr. split; [by eapply linked_mono | done]. Qed.

Lemma bus_rel_store n k b s : bus_rel n k b s -> is_Some (event_store b).
Proof. intros (addr & Hl & _). destruct (lk_store _ _ _ _ Hl) as (st & -> & _). done. Qed.

Lemma on_text n k b s ev l g :
  bus_rel n k b s -> 1 <= n -> 0 <= k ->
  exists p b', event_get_or_create_locked b ev = Some (p, b') /\ p <> 0 /\
    bus_rel (n - 1) k
      (put_entry b' p (Entry (listeners (get_entry b' p) ++ [l]) (binary_listeners (get_entry b' p)) (g (get_entry b' p))))
      (Spec (add_text (reg s) ev l) (toks s)).
Proof.
  intros (addr & Hl & Hs & He & Ht) Hn Hk.
  destruct (add_entry n k b (reg s) ev (fun e => Entry (listeners e ++ [l]) (binary_listeners e) (g e))
    (ex_intro _ addr (conj Hl Hs)) He Hn Hk) as (p & b' & Hg & Hp & _ & Htok & Hls & addr' & Hl' & Hs').
  { intros e. unfold lists_of. cbn. by destruct (listeners e). }
  exists p, b'. split_and!; [done.. |]. exists addr'. split; [done |]. unfold lists_of in Hls, Hs'. cbn in Hs'.
  assert (Hadd : add_text (reg s) ev l =
    reg_put (reg s) ev (listeners (get_entry b' p) ++ [l], binary_listeners (get_entry b' p))).
  { unfold add_text. by rewrite <- Hls. }
  cbn [reg]. rewrite Hadd. split_and!; [exact Hs' | by apply no_empty_put | cbn; by rewrite Htok].
Qed.

Lemma on_binary n k b s ev l g :
  bus_rel n k b s -> 1 <= n -> 0 <= k ->
  exists p b', event_get_or_create_locked b ev = Some (p, b') /\ p <> 0 /\
    bus_rel (n - 1) k
      (put_entry b' p (Entry (listeners (get_entry b' p)) (binary_listeners (get_entry b' p) ++ [l]) (g (get_entry b' p))))
      (Spec (add_binary (reg s) ev l) (toks s)).
Proof.
  intros (addr & Hl & Hs & He & Ht) Hn Hk.
  destruct (add_entry n k b (reg s) ev (fun e => Entry (listeners e) (binary_listeners e ++ [l]) (g e))
    (ex_intro _ addr (conj Hl Hs)) He Hn Hk) as (p & b' & Hg & Hp & _ & Htok & Hls & addr' & Hl' & Hs').
  { intros e. unfold lists_of. cbn. by destruct (listeners e), (binary_listeners e). }
  exists p, b'. split_and!; [done.. |]. exists addr'. split; [done |]. unfold lists_of in Hls, Hs'. cbn in Hs'.
  assert (Hadd : add_binary (reg s) ev l =
    reg_put (reg s) ev (listeners (get_entry b' p), binary_listeners (get_entry b' p) ++ [l])).
  { unfold add_binary. by rewrite <- Hls. }
  cbn [reg]. rewrite Hadd. split_and!; [exact Hs' | by apply no_empty_put | cbn; by rewrite Htok].
Qed.

Lemma add_token_rel n k b s t st :
  bus_rel n k b s -> tok_rel t st -> bus_rel n k (add_token b t).2 (Spec (reg s) (toks s ++ [st])).
Proof.
  intros (addr & [] & Hs & He & Ht) Hr. exists addr. split_and!; [by split | done | done |].
  cbn. apply Forall2_app; [done |]. constructor; [done | constructor].
Qed.

(** Removing listeners from an entry. *)
Lemma off_entry n k b s ev p upd :
  bus_rel n k b s -> 1 <= n -> 1 <= k -> event_lookup_locked b ev = Some p -> p <> 0 ->
  exists b', event_remove_if_empty_locked (put_entry b p (upd (get_entry b p))) ev p = Some b' /\
    lists_of (get_entry b p) = reg_get (reg s) ev /\ event_tokens b' = event_tokens b /\
    bus_rel (n - 1) (k - 1) b' (Spec (reg_put (reg s) ev (lists_of (upd (get_entry b p)))) (toks s)).
Proof.
  intros (addr & Hl & Hs & He & Ht) Hn Hk Hp Hp0.
  rewrite (lookup_linked _ _ _ _ _ Hl) in Hp. injection Hp as Hp.
  destruct (addr !! ev) as [q |] eqn:Ha; cbn in Hp; [subst q | by subst p].
  destruct (write_entry n k b addr (reg s) ev p (upd (get_entry b p)) Hl Hs He Ha Hn Hk) as (b' & addr' & Hw & Hl' & Hs' & Htok).
  exists b'. split; [done |]. split; [rewrite (shows_get b addr _ ev n k) by done; by rewrite Ha |]. split; [done |].
  exists addr'. split_and!; [done | done | by apply no_empty_put | cbn; by rewrite Htok].
Qed.

Lemma absent_reg n k b s ev : bus_rel n k b s -> event_lookup_locked b ev = Some 0 -> reg_get (reg s) ev = ([], []) /\ reg s !! ev = None.
Proof.
  intros (addr & Hl & Hs & _) Hp. rewrite (lookup_linked _ _ _ _ _ Hl) in Hp. injection Hp as Hp.
  destruct (addr !! ev) as [q |] eqn:Ha; cbn in Hp.
  - subst q. pose proof (lk_range _ _ _ _ Hl _ _ Ha). lia.
  - split; [rewrite (shows_get b addr _ ev n k) by done | rewrite Hs]; by rewrite Ha.
Qed.

Lemma lookup_total n k b s ev : bus_rel n k b s -> exists p, event_lookup_locked b ev = Some p.
Proof. intros (addr & Hl & _). rewrite (lookup_linked _ _ _ _ _ Hl). eauto. Qed.

Lemma put_absent (m : gmap bstr lists) ev : m !! ev = None -> reg_put m ev ([], []) = m.
Proof. apply delete_id. Qed.

Lemma set_token_rel n k b s h t st :
  bus_rel n k b s -> event_tokens b !! h = Some t -> toks s !! h = Some st -> tok_rel t st ->
  bus_rel n k (set_tokens b (<[h := deactivate t]> (event_tokens b))) (Spec (reg s) (<[h := s_off st]> (toks s))).
Proof.
  intros (addr & [] & Hs & He & Ht) _ _ (H1 & H2 & H3 & H4 & H5 & H6). exists addr. split_and!; [by split | done | done |].
  cbn. by apply Forall2_insert.
Qed.

Lemma drop_listener_lists e t st : tok_rel t st -> lists_of (drop_listener e t) = drop_token (lists_of e) st.
Proof.
  intros (_ & _ & Hb & Hu & _ & Hcb). unfold drop_listener, drop_token. rewrite Hb, Hu, Hcb.
  destruct (t_binary t); destruct (remove_first _ _); done.
Qed.

Lemma drop_token_nil st : drop_token ([], []) st = ([], []).
Proof. unfold drop_token. by destruct (s_binary st). Qed.

Lemma run_off_token n k b s h :
  bus_rel n k b s -> 1 <= n -> 1 <= k ->
  exists b', event_off_token b (Some h) = Some b' /\ bus_rel (n - 1) (k - 1) b' (spec_op s (OffToken h)).
Proof.
  intros Hb Hn Hk. assert (Hskip : bus_rel (n - 1) (k - 1) b s) by (eapply bus_rel_mono; [done | lia..]).
  pose proof Hb as (_ & _ & _ & _ & Ht). pose proof (tok_rel_lookup _ _ h Ht) as Hrel.
  unfold event_off_token, event_off_token_locked. cbn [spec_op mbind option_bind].
  destruct (event_tokens b !! h) as [t |] eqn:Htok, (toks s !! h) as [st |] eqn:Hst; try done; cbn [fmap option_fmap option_map].
  2:{ by exists b. }
  pose proof Hrel as (Hmsg & Hev & _ & _ & Hact & _). rewrite Hact. destruct (t_active t); cbn [negb]; [| by exists b].
  rewrite Hmsg. destruct (lookup_total n k b s (t_event t) Hb) as [p Hp]. rewrite Hp, Hev. cbn [mbind option_bind].
  destruct (Z.eqb_spec p 0) as [-> | Hp0].
  - eexists. split; [done |]. destruct (absent_reg _ _ _ _ _ Hb Hp) as [Hnil Hnone].
    rewrite Hnil, drop_token_nil, put_absent by done. by apply set_token_rel.
  - destruct (off_entry n k b s (t_event t) p (fun e => drop_listener e t) Hb Hn Hk Hp Hp0) as (b' & -> & Hls & Htk & Hb').
    cbn [mbind option_bind]. rewrite (drop_listener_lists _ _ st Hrel), Hls in Hb'.
    eexists. split; [done |]. by apply (set_token_rel _ _ _ _ h t st Hb'); [rewrite Htk | |].
Qed.

Lemma run_off n k b s ev cb user :
  bus_rel n k b s -> 1 <= n -> 1 <= k ->
  exists b', event_off b (Some ev) cb user = Some b' /\ bus_rel (n - 1) (k - 1) b' (spec_op s (Off ev cb user)).
Proof.
  intros Hb Hn Hk. unfold event_off. cbn [spec_op].
  destruct (lookup_total n k b s ev Hb) as [p Hp]. rewrite Hp. cbn [mbind option_bind].
  destruct (Z.eqb_spec p 0) as [-> | Hp0].
  - destruct (absent_reg _ _ _ _ _ Hb Hp) as [-> Hnone]. cbn [fst snd remove_all]. rewrite put_absent by done.
    exists b. split; [done |]. destruct s. eapply bus_rel_mono; [done | lia..].
  - destruct (off_entry n k b s ev p (fun e => Entry (remove_all (fun l => wild cb (l_cb l) && wild user (l_user l))
      (listeners e)) (binary_listeners e) (generation e)) Hb Hn Hk Hp Hp0) as (b' & Hr & <- & _ & Hb').
    exists b'. by split.
Qed.

Lemma run_off_binary n k b s ev cb user :
  bus_rel n k b s -> 1 <= n -> 1 <= k ->
  exists b', event_off_binary b (Some ev) cb user = Some b' /\
    bus_rel (n - 1) (k - 1) b' (spec_op s (OffBinary ev cb user)).
Proof.
  intros Hb Hn Hk. unfold event_off_binary. cbn [spec_op].
  destruct (lookup_total n k b s ev Hb) as [p Hp]. rewrite Hp. cbn [mbind option_bind].
  destruct (Z.eqb_spec p 0) as [-> | Hp0].
  - destruct (absent_reg _ _ _ _ _ Hb Hp) as [-> Hnone]. cbn [fst snd remove_all]. rewrite put_absent by done.
    exists b. split; [done |]. destruct s. eapply bus_rel_mono; [done | lia..].
  - destruct (off_entry n k b s ev p (fun e => Entry (listeners e) (remove_all (fun l => wild cb (b_cb l) &&
      wild user (b_user l)) (binary_listeners e)) (generation e)) Hb Hn Hk Hp Hp0) as (b' & Hr & <- & _ & Hb').
    exists b'. by split.
Qed.

Lemma run_bus_op_rel n k b s op :
  bus_rel n k b s -> 1 <= n -> unsubscribes op <= k -> 0 <= k ->
  exists b', run_bus_op b op = Some b' /\ bus_rel (n - 1) (k - unsubscribes op) b' (spec_op s op).
Proof.
  intros Hb Hn Hk Hk0. destruct (bus_rel_store _ _ _ _ Hb) as [st Hst].
  assert (Hskip : bus_rel (n - 1) (k - unsubscribes op) b s).
  { eapply bus_rel_mono; [done | lia |]. assert (0 <= unsubscribes op) by (destruct op; cbn; lia). lia. }
  destruct op as [ev cb user d du | ev cb user d du | ev cb user d du | ev cb user d du | h | ev cb user | ev cb user];
    cbn [run_bus_op unsubscribes] in *; rewrite ?Z.sub_0_r in *.
  - unfold event_on_dispatch. cbn [spec_op]. destruct (cb =? 0); [by exists b |]. rewrite Hst.
    destruct (on_text n k b s ev (Listener cb user d du false) (fun e => u64 (generation e + 1)) Hb Hn Hk0)
      as (p & b' & -> & Hp & Hr). cbn [mbind option_bind]. rewrite (proj2 (Z.eqb_neq p 0)) by done. by eexists.
  - unfold event_on_binary_dispatch. cbn [spec_op]. destruct (cb =? 0); [by exists b |]. rewrite Hst.
    destruct (on_binary n k b s ev (BListener cb user d du) generation Hb Hn Hk0)
      as (p & b' & -> & Hp & Hr). cbn [mbind option_bind]. rewrite (proj2 (Z.eqb_neq p 0)) by done. by eexists.
  - unfold event_on_token_dispatch. cbn [spec_op]. destruct (cb =? 0); [by exists b |].
    destruct (on_text n k b s ev (Listener cb user d du false) (fun e => u64 (generation e + 1)) Hb Hn Hk0)
      as (p & b' & -> & Hp & Hr). cbn [mbind option_bind]. rewrite (proj2 (Z.eqb_neq p 0)) by done.
    eexists. split; [done |]. by apply (add_token_rel _ _ _ _ _ (SToken ev false cb user true) Hr).
  - unfold event_on_binary_token_dispatch. cbn [spec_op]. destruct (cb =? 0); [by exists b |].
    destruct (on_binary n k b s ev (BListener cb user d du) (fun e => u64 (generation e + 1)) Hb Hn Hk0)
      as (p & b' & -> & Hp & Hr). cbn [mbind option_bind]. rewrite (proj2 (Z.eqb_neq p 0)) by done.
    eexists. split; [done |]. by apply (add_token_rel _ _ _ _ _ (SToken ev true cb user true) Hr).
  - by apply run_off_token.
  - by apply run_off.
  - by apply run_off_binary.
Qed.
End theory.
