(* ===== verification/EventBusSpec.v ===== *)
(** * Event bus: what it promises (event-bus.c)

    Any sequence of subscriptions and cancellations computes the abstract
    registry, emitting delivers exactly what the registry says, tokens and
    domains do what they promise; proved against the [PtrStore] interface and
    instantiated with the dictionary. *)

From S2P Require Import Prelude CString Dict DictTheory PtrStore EventBus EventBusTheory.

#[local] Open Scope Z_scope.

(** ** Abstract deliveries *)

Definition deliver_text (ev : bstr) (cptr : Z) (data : option bstr) (l : listener) : delivery :=
  let j := TextJob (l_cb l) ev data cptr (l_user l) in
  if l_dispatch l =? 0 then Call j else Dispatch (l_dispatch l) j (l_dispatch_user l).

Definition deliver_binary (ev : bstr) (cptr : Z) (data : bstr) (l : blistener) : delivery :=
  let j p := BinaryJob (b_cb l) ev p (length data) cptr (b_user l) in
  if b_dispatch l =? 0 then Call (j (Some data))
  else Dispatch (b_dispatch l) (j (match data with [] => None | _ => Some data end)) (b_dispatch_user l).

Fixpoint unsubs (ops : list bus_op) : Z :=
  match ops with
  | [] => 0
  | op :: ops => unsubscribes op + unsubs ops
  end.

Definition spec_run (ops : list bus_op) : spec := fold_left spec_op ops (Spec ∅ []).

(** Every stored callback is a real one, and plain listeners do not belong to a domain. *)
Definition real_text (l : listener) : Prop := l_cb l <> 0 /\ l_domain_delivery l = false.
Definition real_binary (l : blistener) : Prop := b_cb l <> 0.
Definition real (m : gmap bstr lists) : Prop :=
  map_Forall (fun _ ls => Forall real_text ls.1 /\ Forall real_binary ls.2) m.

Lemma unsubscribes_range op : 0 <= unsubscribes op <= 1.
Proof. destruct op; cbn; lia. Qed.

Lemma unsubs_nonneg ops : 0 <= unsubs ops.
Proof. induction ops as [| op ops IH]; cbn; [lia |]. pose proof (unsubscribes_range op). lia. Qed.

Lemma remove_first_incl {A} (f : A -> bool) l (P : A -> Prop) : Forall P l -> Forall P (remove_first f l).1.
Proof.
  induction 1 as [| x l Hx Hl IH]; cbn; [constructor |]. destruct (f x); [done |].
  destruct (remove_first f l). by constructor.
Qed.

Lemma remove_all_incl {A} (f : A -> bool) l (P : A -> Prop) : Forall P l -> Forall P (remove_all f l).
Proof. induction 1 as [| x l Hx Hl IH]; cbn; [constructor |]. destruct (f x); [done |]. by constructor. Qed.

Lemma real_get m ev : real m -> Forall real_text (reg_get m ev).1 /\ Forall real_binary (reg_get m ev).2.
Proof. intros Hm. unfold reg_get. destruct (m !! ev) eqn:He; cbn; [by apply (Hm ev) | by split]. Qed.

Lemma real_put m ev ls : real m -> Forall real_text ls.1 -> Forall real_binary ls.2 -> real (reg_put m ev ls).
Proof.
  intros Hm H1 H2. destruct (decide (ls = ([], []))) as [-> | Hne].
  - intros ev' ls' Hx. cbn in Hx. apply lookup_delete_Some in Hx as [_ Hx]. by apply (Hm ev').
  - rewrite reg_put_nonempty by done. by apply map_Forall_insert_2.
Qed.

Lemma real_op s op : real (reg s) -> real (reg (spec_op s op)).
Proof.
  intros Hm.
  assert (Hadd : forall ev l, real_text l -> real (add_text (reg s) ev l)).
  { intros ev l Hl. destruct (real_get _ ev Hm). apply real_put; cbn; [done | | done]. apply Forall_app. auto. }
  assert (Hbin : forall ev l, real_binary l -> real (add_binary (reg s) ev l)).
  { intros ev l Hl. destruct (real_get _ ev Hm). apply real_put; cbn; [done | done |]. apply Forall_app. auto. }
  destruct op as [ev cb user d du | ev cb user d du | ev cb user d du | ev cb user d du | h | ev cb user | ev cb user]; cbn [spec_op reg].
  1-4: destruct (Z.eqb_spec cb 0); [done |]; cbn [reg]; first [by apply Hadd | by apply Hbin].
  - destruct (toks s !! h) as [t |]; [| done]. destruct (s_active t); [| done]. cbn [reg].
    destruct (real_get _ (s_event t) Hm). unfold drop_token.
    destruct (s_binary t); apply real_put; cbn; auto using remove_first_incl.
  - destruct (real_get _ ev Hm). apply real_put; cbn; auto using remove_all_incl.
  - destruct (real_get _ ev Hm). apply real_put; cbn; auto using remove_all_incl.
Qed.

Lemma real_run ops s : real (reg s) -> real (reg (fold_left spec_op ops s)).
Proof. revert s. induction ops as [| op ops IH]; intros s Hs; [done |]. by apply IH, real_op. Qed.

Lemma fire_text ev cptr data ls :
  Forall real_text ls -> flat_map (fun l => event_fire_listener l ev cptr data) ls = map (deliver_text ev cptr data) ls.
Proof.
  induction 1 as [| l ls [Hcb Hd] _ IH]; [done |]. cbn [flat_map map]. rewrite IH.
  unfold event_fire_listener, deliver_text. rewrite (proj2 (Z.eqb_neq _ 0) Hcb), Hd. by destruct (l_dispatch l =? 0).
Qed.

Lemma fire_binary ev cptr data ls :
  Forall real_binary ls ->
  flat_map (fun l => event_fire_binary_listener l ev cptr (Some data) (length data)) ls = map (deliver_binary ev cptr data) ls.
Proof.
  induction 1 as [| l ls Hcb _ IH]; [done |]. cbn [flat_map map]. rewrite IH.
  unfold event_fire_binary_listener, deliver_binary. rewrite (proj2 (Z.eqb_neq _ 0) Hcb).
  destruct (b_dispatch l =? 0); [done |]. cbn. destruct data; [done |]. cbn. by rewrite take_ge by done.
Qed.

Section spec.
Context {D : Type} `{!PtrStore D} `{!PtrStoreLaws D}.
Implicit Types b : bus D.

(** The globals as they are when the program starts. *)
Definition initial_bus : bus D := Bus None ∅ 1 [] [] [] [].

Fixpoint run_bus_ops b (ops : list bus_op) : option (bus D) :=
  match ops with
  | [] => Some b
  | op :: ops => b ← run_bus_op b op; run_bus_ops b ops
  end.

Lemma init_rel n : n < 2 ^ 28 -> bus_rel n 5 (event_init initial_bus) (Spec ∅ []).
Proof.
  intros Hn. destruct (ps_new_law [] n Hn) as (r & o' & Hnew & Hd & Ho). destruct (Ho eq_refl) as [[d Hr] ->].
  unfold event_init. cbn [event_store initial_bus memory]. rewrite Hnew, Hr. exists ∅. specialize (Hd _ Hr). split_and!.
  - split; cbn; [by exists d | done | done | done | | done].
    intros p. rewrite lookup_empty. split; [by intros [] | intros [ev Hev]; by rewrite lookup_empty in Hev].
  - intros ev. cbn. by rewrite !lookup_empty.
  - intros ev. cbn. by rewrite lookup_empty.
  - constructor.
Qed.

Lemma run_rel n k b s ops :
  bus_rel n k b s -> Z.of_nat (length ops) <= n -> unsubs ops <= k ->
  exists b', run_bus_ops b ops = Some b' /\
    bus_rel (n - Z.of_nat (length ops)) (k - unsubs ops) b' (fold_left spec_op ops s).
Proof.
  revert n k b s. induction ops as [| op ops IH]; intros n k b s Hb Hn Hk; cbn in Hn, Hk |- *.
  - exists b. split; [done |]. eapply bus_rel_mono; [done | lia..].
  - pose proof (unsubs_nonneg ops). pose proof (unsubscribes_range op).
    destruct (run_bus_op_rel n k b s op Hb) as (b' & -> & Hb'); [lia.. |]. cbn.
    destruct (IH _ _ _ _ Hb') as (b2 & -> & Hb2); [lia.. |]. exists b2. split; [done |].
    eapply bus_rel_mono; [done | lia..].
Qed.

(** A run that leaves room for [n] more operations, [k] of them deletions. *)
Lemma run_spec n k ops :
  Z.of_nat (length ops) + n < 2 ^ 28 -> unsubs ops + k <= 5 -> 0 <= n -> 0 <= k ->
  exists b, run_bus_ops (event_init initial_bus) ops = Some b /\ bus_rel n k b (spec_run ops).
Proof.
  intros Hlen Hdel Hn Hk. destruct (run_rel _ _ _ _ ops (init_rel _ Hlen)) as (b & Hr & Hb); [lia.. |].
  exists b. split; [done |]. eapply bus_rel_mono; [done | lia..].
Qed.

Lemma snapshot_rel n k b s ev : bus_rel n k b s -> event_snapshot_locked b ev = Some (reg_get (reg s) ev).1.
Proof.
  intros (addr & Hl & Hs & _). unfold event_snapshot_locked. rewrite (lookup_linked _ _ _ _ _ Hl). cbn.
  rewrite (shows_get b addr _ ev n k) by done. destruct (addr !! ev) as [p |] eqn:Hp; cbn; [| done].
  destruct (linked_entry _ _ _ _ _ _ Hl Hp) as [Hp0 _]. by rewrite (proj2 (Z.eqb_neq p 0)).
Qed.

Lemma binary_snapshot_rel n k b s ev : bus_rel n k b s -> event_binary_snapshot_locked b ev = Some (reg_get (reg s) ev).2.
Proof.
  intros (addr & Hl & Hs & _). unfold event_binary_snapshot_locked. rewrite (lookup_linked _ _ _ _ _ Hl). cbn.
  rewrite (shows_get b addr _ ev n k) by done. destruct (addr !! ev) as [p |] eqn:Hp; cbn; [| done].
  destruct (linked_entry _ _ _ _ _ _ Hl Hp) as [Hp0 _]. by rewrite (proj2 (Z.eqb_neq p 0)).
Qed.

(** Entries on the heap are reachable from a name, and not empty. *)
Lemma no_leak n k b s p e : bus_rel n k b s -> heap b !! p = Some e -> exists ev, reg s !! ev = Some (lists_of e) /\ lists_of e <> ([], []).
Proof.
  intros (addr & Hl & Hs & He & _) Hp. destruct (proj1 (lk_heap _ _ _ _ Hl p) (mk_is_Some _ _ Hp)) as [ev Hev].
  exists ev. assert (Hr : reg s !! ev = Some (lists_of e)) by (rewrite Hs, Hev; cbn; by rewrite Hp).
  split; [done |]. intros Hx. rewrite Hx in Hr. by eapply He.
Qed.

Lemma run_app b ops ops' : run_bus_ops b (ops ++ ops') = (b ← run_bus_ops b ops; run_bus_ops b ops').
Proof.
  revert b. induction ops as [| op ops IH]; intros b; [done |]. cbn.
  destruct (run_bus_op b op) as [b1 |]; cbn; [apply IH | done].
Qed.

(** ** Registration and emission *)

(** C8: any run of fewer than 2^28 subscriptions and cancellations on a fresh bus,
    text, binary and by token, at most five of them cancellations, leaves exactly the listeners of the abstract registry, in
    registration order; every token has its abstract state; and no entry on the
    heap is empty or unreachable.  The limits are those of the dictionary: six deletions may
    leave a table without a free slot, in which a lookup does not end. *)
Theorem bus_trace_refines (ops : list bus_op) (Hlen : Z.of_nat (length ops) < 2 ^ 28) (Hdel : unsubs ops <= 5) :
  exists b : bus D, run_bus_ops (event_init initial_bus) ops = Some b /\
    (forall ev, event_snapshot_locked b ev = Some (reg_get (reg (spec_run ops)) ev).1 /\
      event_binary_snapshot_locked b ev = Some (reg_get (reg (spec_run ops)) ev).2) /\
    Forall2 tok_rel (event_tokens b) (toks (spec_run ops)) /\
    (forall p e, heap b !! p = Some e ->
      exists ev, reg (spec_run ops) !! ev = Some (lists_of e) /\ lists_of e <> ([], [])).
Proof.
  destruct (run_spec 0 0 ops) as (b & Hrun & Hb); [lia.. |]. exists b. split; [done |]. split_and!.
  - intros ev. split; [by eapply snapshot_rel | by eapply binary_snapshot_rel].
  - by destruct Hb as (addr & _ & _ & _ & Ht).
  - intros p e. by apply (no_leak 0 0 b).
Qed.

(** C9: after any run of fewer than 2^28 subscriptions and cancellations on a fresh
    bus, at most five of them cancellations, emitting a text event delivers to each of its listeners once, in
    registration order, called in place or handed to its dispatcher with the
    same arguments; an event without text listeners goes to those of NOMATCH
    under its own name; binary events have no such fallback. *)
Theorem emit_delivers (ops : list bus_op) (ev data : bstr) (text : option bstr) (cptr : Z)
    (Hlen : Z.of_nat (length ops) < 2 ^ 28) (Hdel : unsubs ops <= 5) :
  exists b : bus D, run_bus_ops (event_init initial_bus) ops = Some b /\
    event_emit b (Some ev) cptr text = Some (map (deliver_text ev cptr text)
      match (reg_get (reg (spec_run ops)) ev).1 with
      | [] => (reg_get (reg (spec_run ops)) NOMATCH).1
      | ls => ls
      end) /\
    event_emit_binary b (Some ev) cptr (Some data) (length data) =
      Some (map (deliver_binary ev cptr data) (reg_get (reg (spec_run ops)) ev).2).
Proof.
  destruct (run_spec 0 0 ops) as (b & Hrun & Hb); [lia.. |]. exists b. split; [done |].
  assert (Hreal : real (reg (spec_run ops))) by by apply real_run.
  destruct (real_get _ ev Hreal) as [Ht Hbin]. destruct (real_get _ NOMATCH Hreal) as [Hn _].
  unfold event_emit, event_emit_binary. rewrite !(snapshot_rel _ _ _ _ _ Hb), (binary_snapshot_rel _ _ _ _ _ Hb).
  cbn [mbind option_bind]. split; [| by rewrite fire_binary].
  destruct (reg_get (reg (spec_run ops)) ev).1 as [| l ls]; by rewrite fire_text.
Qed.

(** ** Tokens *)

Definition same_as (cb user : Z) (l : listener) : bool := (l_cb l =? cb) && (l_user l =? user).

Lemma remove_first_last {A} (f : A -> bool) l x : forallb (fun y => negb (f y)) l -> f x = true -> (remove_first f (l ++ [x])).1 = l.
Proof.
  induction l as [| y l IH]; cbn; intros Hl Hx; [by rewrite Hx |].
  apply andb_prop_elim in Hl as [Hy Hl]. destruct (f y); [done |]. specialize (IH Hl Hx).
  destruct (remove_first f (l ++ [x])) as [l' r]. cbn in *. by rewrite IH.
Qed.

Lemma reg_get_put m ev ls : reg_get (reg_put m ev ls) ev = ls.
Proof.
  unfold reg_get. destruct (decide (ls = ([], []))) as [-> | Hne].
  - cbn. by rewrite lookup_delete_eq.
  - rewrite reg_put_nonempty by done. by rewrite lookup_insert_eq.
Qed.

Lemma reg_put_get m ev ls : no_empty m -> reg_put (reg_put m ev ls) ev (reg_get m ev) = m.
Proof.
  intros Hm. assert (Hput : forall m', reg_put (reg_put m' ev ls) ev (reg_get m ev) = reg_put m' ev (reg_get m ev)).
  { intros m'. destruct (decide (ls = ([], []))) as [-> | Hne].
    - cbn. unfold reg_put. destruct (reg_get m ev) as [[] []]; [by rewrite delete_delete_eq | by rewrite insert_delete_eq..].
    - rewrite (reg_put_nonempty m' ev ls) by done. apply reg_put_put. }
  rewrite Hput. unfold reg_get. destruct (m !! ev) as [ls' |] eqn:He; cbn; [| by apply delete_id].
  rewrite reg_put_nonempty; [by apply insert_id |]. intros ->. by eapply Hm.
Qed.

(** Registering through a token, with the state it leaves. *)
Lemma on_token_rel n k b s ev cb user d du :
  bus_rel n k b s -> 1 <= n -> 0 <= k -> cb <> 0 ->
  exists b1, event_on_token_dispatch b (Some ev) cb user d du = Some (Some (length (toks s)), b1) /\
    bus_rel (n - 1) k b1
      (Spec (add_text (reg s) ev (Listener cb user d du false)) (toks s ++ [SToken ev false cb user true])).
Proof.
  intros Hb Hn Hk Hcb. unfold event_on_token_dispatch. rewrite (proj2 (Z.eqb_neq cb 0)) by done.
  destruct (on_text n k b s ev (Listener cb user d du false) (fun e => u64 (generation e + 1)) Hb Hn Hk)
    as (p & b' & -> & Hp & Hr). cbn [mbind option_bind]. rewrite (proj2 (Z.eqb_neq p 0)) by done.
  pose proof Hr as (_ & _ & _ & _ & Ht). apply Forall2_length in Ht. cbn [toks] in Ht.
  eexists. split; [cbn [add_token]; by rewrite Ht |].
  by apply (add_token_rel _ _ _ _ _ (SToken ev false cb user true) Hr).
Qed.

(** A cancelled token's registration is undone in the registry. *)
Lemma spec_token_roundtrip s ev cb user d du :
  no_empty (reg s) -> forallb (fun l => negb (same_as cb user l)) (reg_get (reg s) ev).1 ->
  let t := SToken ev false cb user true in
  spec_op (Spec (add_text (reg s) ev (Listener cb user d du false)) (toks s ++ [t])) (OffToken (length (toks s))) =
    Spec (reg s) (toks s ++ [s_off t]).
Proof.
  intros Hne Hnew t. cbn [spec_op reg toks]. rewrite list_lookup_middle by done. cbn [s_active t s_event].
  unfold drop_token. cbn [s_binary s_cb s_user t]. unfold add_text at 2 3. rewrite reg_get_put. cbn [fst snd].
  rewrite (remove_first_last (same_as cb user)); [| done | unfold same_as; cbn; by rewrite !Z.eqb_refl].
  unfold add_text. rewrite <- surjective_pairing, reg_put_get by done.
  by rewrite insert_app_r_alt, Nat.sub_diag by lia.
Qed.

Lemma off_inactive n k b s h st :
  bus_rel n k b s -> toks s !! h = Some st -> s_active st = false -> event_off_token b (Some h) = Some b.
Proof.
  intros (_ & _ & _ & _ & Ht) Hst Hact. pose proof (tok_rel_lookup _ _ h Ht) as Hrel. rewrite Hst in Hrel.
  unfold event_off_token. cbn [mbind option_bind]. destruct (event_tokens b !! h) as [t |]; [| done].
  destruct Hrel as (_ & _ & _ & _ & Hx & _). cbn. by rewrite <- Hx, Hact.
Qed.

(** A token undoes its registration: if no listener of the event has the
    same callback and user pointer, cancelling the token straight after it was
    issued brings every listener array back, and cancelling it again does nothing. *)
Theorem token_roundtrip (ops : list bus_op) (ev : bstr) (cb user dispatch dispatch_user : Z)
    (Hlen : Z.of_nat (length ops) + 2 < 2 ^ 28) (Hdel : unsubs ops <= 4) (Hcb : cb <> 0)
    (Hnew : forallb (fun l => negb (same_as cb user l)) (reg_get (reg (spec_run ops)) ev).1) :
  exists (b b1 b2 : bus D) h, run_bus_ops (event_init initial_bus) ops = Some b /\
    event_on_token_dispatch b (Some ev) cb user dispatch dispatch_user = Some (Some h, b1) /\
    event_off_token b1 (Some h) = Some b2 /\ event_off_token b2 (Some h) = Some b2 /\
    (forall ev', event_snapshot_locked b2 ev' = event_snapshot_locked b ev' /\
      event_binary_snapshot_locked b2 ev' = event_binary_snapshot_locked b ev').
Proof.
  destruct (run_spec 2 1 ops) as (b & Hrun & Hb); [lia.. |]. set (s := spec_run ops) in *.
  destruct (on_token_rel 2 1 b s ev cb user dispatch dispatch_user Hb) as (b1 & Hon & Hb1); [done.. |].
  destruct (run_off_token _ _ _ _ (length (toks s)) Hb1) as (b2 & Hoff & Hb2); [done.. |].
  rewrite spec_token_roundtrip in Hb2; [| by destruct Hb as (? & ? & ? & ? & ?) | done].
  exists b, b1, b2, (length (toks s)). split_and!; [done.. | |].
  - apply (off_inactive _ _ _ _ _ (s_off (SToken ev false cb user true)) Hb2); [| done]. cbn. by apply list_lookup_middle.
  - intros ev'. rewrite !(snapshot_rel _ _ _ _ _ Hb), !(snapshot_rel _ _ _ _ _ Hb2),
      !(binary_snapshot_rel _ _ _ _ _ Hb), !(binary_snapshot_rel _ _ _ _ _ Hb2). done.
Qed.
(** ** Domains *)

Lemma uses_domain_spec e d :
  uses_domain e d = true <->
    (exists l, l ∈ listeners e /\ l_dispatch l = d_dispatch d /\ l_dispatch_user l = d_user d) \/
    (exists l, l ∈ binary_listeners e /\ b_dispatch l = d_dispatch d /\ b_dispatch_user l = d_user d).
Proof.
  unfold uses_domain. rewrite orb_true_iff, !existsb_exists. setoid_rewrite andb_true_iff. setoid_rewrite Z.eqb_eq.
  by setoid_rewrite list_elem_of_In.
Qed.

(** Something on the bus still delivers through the domain. *)
Definition domain_in_use b (d : domain) : Prop :=
  (exists m, m ∈ message_listeners b /\ m_domain m = Some (d_name d)) \/
  (exists p e, heap b !! p = Some e /\
    ((exists l, l ∈ listeners e /\ l_dispatch l = d_dispatch d /\ l_dispatch_user l = d_user d) \/
     (exists l, l ∈ binary_listeners e /\ b_dispatch l = d_dispatch d /\ b_dispatch_user l = d_user d))).

Lemma find_domain_in b d : d ∈ event_domains b -> NoDup (d_name <$> event_domains b) -> find_domain b (d_name d) = Some d.
Proof.
  unfold find_domain. intros Hd Hnd. induction (event_domains b) as [| x l IH]; [by apply elem_of_nil in Hd |].
  cbn in Hnd |- *. apply NoDup_cons in Hnd as [Hx Hnd]. apply elem_of_cons in Hd as [<- | Hd].
  - by rewrite decide_True.
  - rewrite decide_False; [| intros Heq; apply Hx; rewrite Heq; apply list_elem_of_fmap; eauto].
    specialize (IH Hd Hnd). by destruct (list_find _ l) as [[]|].
Qed.

Lemma list_find_remove (l : list domain) name name' :
  NoDup (d_name <$> l) ->
  snd <$> list_find (fun d => d_name d = name') (remove_first (fun d => streq (d_name d) name) l).1 =
    if decide (name' = name) then None else snd <$> list_find (fun d => d_name d = name') l.
Proof.
  induction l as [| x l IH]; cbn; intros Hnd; [by destruct (decide _) |]. apply NoDup_cons in Hnd as [Hx Hnd].
  unfold streq at 1. destruct (bool_decide_reflect (d_name x = name)) as [Hn | Hn].
  - cbn [fst]. destruct (decide (name' = name)) as [-> | Hne].
    + destruct (list_find _ l) as [[i d] |] eqn:Hf; [| done]. apply list_find_Some in Hf as (Hi & Hd & _).
      destruct Hx. rewrite Hn, <- Hd. apply list_elem_of_fmap. exists d. split; [done |]. by eapply list_elem_of_lookup_2.
    + rewrite (decide_False (P := d_name x = name')) by congruence. by destruct (list_find _ l) as [[]|].
  - specialize (IH Hnd). destruct (remove_first _ l) as [l' r]. cbn [fst list_find] in *.
    destruct (decide (d_name x = name')) as [Heq | Hne].
    + rewrite decide_False by congruence. done.
    + destruct (list_find _ l') as [[]|]; cbn in IH |- *; rewrite IH; destruct (decide (name' = name)); try done;
        by destruct (list_find _ l) as [[]|].
Qed.

Lemma each_forallb (f : Z -> bool) (l : list (bstr * Z)) :
  foldr (fun kp (rest : unit -> option (bool * unit)) s =>
    '(go, s) ← Some (f kp.2, tt); if go : bool then rest s else Some (false, s)) (fun s => Some (true, s)) l tt =
  Some (forallb (fun kp => f kp.2) l, tt).
Proof. induction l as [| [k p] l IH]; [done |]. cbn. by destruct (f p). Qed.

Lemma linked_unused n k b addr d :
  linked n k b addr ->
  exists s, event_store b = Some s /\ exists r,
    ps_each s (fun _ p _ => Some (if p =? 0 then true else negb (uses_domain (get_entry b p) d), tt)) tt = Some (r, tt) /\
    if r then forall p e, heap b !! p = Some e -> uses_domain e d = false
    else exists p e, heap b !! p = Some e /\ uses_domain e d = true.
Proof.
  intros Hl. destruct (lk_store _ _ _ _ Hl) as (s & Hs & Hok). exists s. split; [done |].
  destruct (ps_each_law n k s addr (fun _ p (_ : unit) =>
    Some (if p =? 0 then true else negb (uses_domain (get_entry b p) d), tt)) tt Hok) as (l & Hnd & Hm & ->).
  rewrite (each_forallb (fun p => if p =? 0 then true else negb (uses_domain (get_entry b p) d))).
  assert (Hent : forall ev p, (ev, p) ∈ l -> (p =? 0) = false /\ heap b !! p = Some (get_entry b p)).
  { intros ev p Hin%elem_of_list_to_map_1; [| done]. rewrite Hm in Hin.
    destruct (linked_entry _ _ _ _ _ _ Hl Hin) as [Hp0 He]. split; [by apply Z.eqb_neq | done]. }
  eexists. split; [done |]. destruct (forallb _ l) eqn:Hall.
  - rewrite forallb_forall in Hall. intros p e Hp.
    destruct (proj1 (lk_heap _ _ _ _ Hl p) (mk_is_Some _ _ Hp)) as [ev Hev].
    rewrite <- Hm in Hev. apply elem_of_list_to_map_2 in Hev. destruct (Hent _ _ Hev) as [Hp0 He].
    apply list_elem_of_In, Hall in Hev. cbn in Hev. rewrite Hp in He. injection He as ->.
    rewrite Hp0 in Hev. by apply negb_true_iff.
  - assert (Hex : exists kp, kp ∈ l /\ (if kp.2 =? 0 then true else negb (uses_domain (get_entry b kp.2) d)) = false).
    { clear -Hall. induction l as [| kp l IH]; [done |]. cbn in Hall. apply andb_false_iff in Hall as [Hk | Hl].
      - exists kp. split; [left | done].
      - destruct (IH Hl) as (kp' & Hin & Hf). exists kp'. split; [by right | done]. }
    destruct Hex as ([ev p] & Hin & Hf). destruct (Hent _ _ Hin) as [Hp0 He]. cbn in Hf. rewrite Hp0 in Hf.
    exists p, (get_entry b p). split; [done |]. by apply negb_false_iff.
Qed.

(** C12: a domain is unregistered exactly when nothing delivers through it any
    more, neither a text, nor a binary, nor a message listener; a refusal
    changes nothing, a success removes that domain and no other. *)
Theorem domain_unregister_safe n k b addr d (Hl : linked n k b addr)
    (Hd : d ∈ event_domains b) (Hnd : NoDup (d_name <$> event_domains b)) :
  (domain_in_use b d /\ event_domain_unregister b (Some (d_name d)) = Some (false, b)) \/
  (~ domain_in_use b d /\ exists b', event_domain_unregister b (Some (d_name d)) = Some (true, b') /\
    heap b' = heap b /\ message_listeners b' = message_listeners b /\
    forall name, find_domain b' name = if decide (name = d_name d) then None else find_domain b name).
Proof.
  unfold event_domain_unregister. rewrite (find_domain_in b d Hd Hnd).
  destruct (existsb _ (message_listeners b)) eqn:Hmsg.
  - left. split; [| done]. left. apply existsb_exists in Hmsg as (m & Hin%list_elem_of_In & Hm).
    exists m. split; [done |]. destruct (m_domain m); [| done]. apply bool_decide_eq_true_1 in Hm. by subst.
  - destruct (linked_unused n k b addr d Hl) as (s & -> & r & -> & Hr). cbn [mbind option_bind].
    destruct r; [right | left]; (split; [| try done]).
    + intros [(m & Hin & Hm) | (p & e & He & Huse)].
      * apply not_true_iff_false in Hmsg. apply Hmsg, existsb_exists. exists m. split; [by apply list_elem_of_In |].
        rewrite Hm. by apply bool_decide_eq_true_2.
      * apply uses_domain_spec in Huse. by rewrite (Hr _ _ He) in Huse.
    + eexists. split; [done |]. split_and!; [done.. |]. intros name. by apply list_find_remove.
    + right. destruct Hr as (p & e & He & Huse). exists p, e. split; [done |]. by apply uses_domain_spec.
Qed.
End spec.

(** ** Instances with the dictionary *)

Definition demo_ops : list bus_op :=
  [On (B "join") 1 0 0 0; OnToken (B "join") 2 9 0 0; OnBinary (B "rx") 3 0 5 6; OffToken 0; OnToken (B "join") 4 0 7 8].

Lemma bus_trace_refines_witness :
  unsubs demo_ops <= 5 /\
  exists b : bus dict, run_bus_ops (event_init initial_bus) demo_ops = Some b /\
    event_snapshot_locked b (B "join") = Some [Listener 1 0 0 0 false; Listener 4 0 7 8 false] /\
    event_binary_snapshot_locked b (B "rx") = Some [BListener 3 0 5 6].
Proof.
  assert (Hd : unsubs demo_ops <= 5) by by vm_compute. split; [done |].
  destruct (bus_trace_refines (D := dict) demo_ops ltac:(by vm_compute) Hd) as (b & Hr & Hsnap & _).
  exists b. split; [exact Hr |]. rewrite (proj1 (Hsnap _)), (proj2 (Hsnap _)). split; vm_compute; reflexivity.
Defined.

Lemma emit_delivers_witness :
  exists b : bus dict, run_bus_ops (event_init initial_bus) demo_ops = Some b /\
    event_emit b (Some (B "join")) 77 (Some (B "hi")) = Some
      [Call (TextJob 1 (B "join") (Some (B "hi")) 77 0); Dispatch 7 (TextJob 4 (B "join") (Some (B "hi")) 77 0) 8] /\
    event_emit_binary b (Some (B "join")) 77 (Some (B "raw")) 3 = Some [].
Proof.
  destruct (emit_delivers (D := dict) demo_ops (B "join") (B "raw") (Some (B "hi")) 77 ltac:(by vm_compute) ltac:(by vm_compute))
    as (b & Hr & He & Hb).
  exists b. split; [exact Hr |]. split; [rewrite He | refine (eq_trans Hb _)]; vm_compute; reflexivity.
Defined.

Lemma token_roundtrip_witness :
  exists (b b1 b2 : bus dict) h, run_bus_ops (event_init initial_bus) demo_ops = Some b /\
    event_on_token_dispatch b (Some (B "join")) 1 3 0 0 = Some (Some h, b1) /\
    event_off_token b1 (Some h) = Some b2 /\
    event_snapshot_locked b2 (B "join") = event_snapshot_locked b (B "join").
Proof.
  destruct (token_roundtrip (D := dict) demo_ops (B "join") 1 3 0 0 ltac:(by vm_compute) ltac:(by vm_compute) ltac:(by vm_compute) ltac:(by vm_compute))
    as (b & b1 & b2 & h & H1 & H2 & H3 & _ & H5).
  exists b, b1, b2, h. exact (conj H1 (conj H2 (conj H3 (proj1 (H5 _))))).
Defined.

Definition twins : list bus_op := [On (B "rx") 1 2 0 0; OnToken (B "rx") 1 2 7 8].

(** A token does not name its listener.  Where two registrations share
    callback and user pointer, cancelling the token of the second drops the
    first; and since the token is tested before the lock is taken, two
    concurrent cancellations of one token that both saw it active drop both. *)
Theorem token_drops_twin :
  exists (b : bus dict) t b1 b2, run_bus_ops (event_init initial_bus) twins = Some b /\
    event_tokens b !! 0%nat = Some t /\ t_active t = true /\
    event_snapshot_locked b (B "rx") = Some [Listener 1 2 0 0 false; Listener 1 2 7 8 false] /\
    event_off_token_locked b 0 t = Some b1 /\
    event_snapshot_locked b1 (B "rx") = Some [Listener 1 2 7 8 false] /\
    event_off_token_locked b1 0 t = Some b2 /\
    event_snapshot_locked b2 (B "rx") = Some [].
Proof. do 4 eexists. split_and!; [vm_compute; reflexivity.. | vm_compute; reflexivity]. Qed.

Definition gtk : domain := Domain (B "gtk") 7 8.
Definition gtk_bus : bus dict := set_domains (event_init initial_bus) [gtk].

Lemma gtk_bus_linked : exists addr, linked 0 5 gtk_bus addr.
Proof. destruct (init_rel (D := dict) 0) as (addr & [] & _); [by vm_compute |]. exists addr. by split. Qed.

Lemma domain_unregister_safe_witness :
  exists addr b', linked 0 5 gtk_bus addr /\ event_domain_unregister gtk_bus (Some (B "gtk")) = Some (true, b') /\
    find_domain b' (B "gtk") = None.
Proof.
  destruct gtk_bus_linked as [addr Hl]. exists addr.
  destruct (domain_unregister_safe 0 5 gtk_bus addr gtk Hl (list_elem_of_here _ _) (NoDup_singleton _))
    as [[Huse _] | (_ & b' & Hr & _ & _ & Hf)].
  - destruct Huse as [(m & Hm & _) | (p & e & He & _)]; [by apply elem_of_nil in Hm | change (heap gtk_bus) with (∅ : gmap Z entry) in He; by rewrite lookup_empty in He].
  - exists b'. split; [exact Hl |]. split; [exact Hr |]. exact (Hf (B "gtk")).
Defined.
