(* ===== verification/EventMsg.v ===== *)
(** * Message delivery under concurrency (event-bus.c)

    [deliver_message] checks the token under the lock, runs the callback
    without it and counts itself out afterwards; [event_message_token_drain]
    waits on a condition variable until the count is zero.  Every critical
    section is one step of a transition system whose states hold the bus, the
    messages handed to dispatchers, the callbacks being run and the threads in
    a drain; any interleaving of steps is a run. *)

From S2P Require Import Prelude CString Dict PtrStore EventBus EventBusTheory.

#[local] Open Scope Z_scope.

(** ** Operations *)

Definition set_executing (t : token) (n : Z) : token :=
  Token (t_event t) (t_binary t) (t_cb t) (t_binary_cb t) (t_user t) (t_generation t) (t_active t) (t_message t) n.

(** The token a pending message holds. *)
Definition job_token (j : job) : option nat :=
  match j with MessageJob _ tok _ _ _ _ _ _ => Some tok | _ => None end.

Definition job_of (d : delivery) : job :=
  match d with Call j | Dispatch _ j _ => j end.

(** Everything else a thread may call. *)
Inductive api :=
| Registry (op : bus_op)
| MessageToken (name : option bstr) (cb user dispatch dispatch_user : Z)
| MessageDomainToken (name : option bstr) (cb user : Z) (dom : option bstr)
| DomainToken (event : option bstr) (cb user : Z) (dom : option bstr)
| BinaryDomainToken (event : option bstr) (cb user : Z) (dom : option bstr)
| DomainRegister (name : option bstr) (dispatch user : Z)
| DomainUnregister (name : option bstr)
| Init
| Shutdown.

(** A thread inside [event_message_token_drain]: about to test the count, with
    the lock, or asleep in [pthread_cond_wait]. *)
Inductive drain_phase := Testing | Waiting.

Record sys (D : Type) := Sys {
  registry : bus D; pending : list job; running : list job; drains : list (nat * drain_phase) }.
Arguments Sys {D}.
Arguments registry {D}.
Arguments pending {D}.
Arguments running {D}.
Arguments drains {D}.

Inductive label :=
| LApi (a : api)
| LEmit (m : message)
| LStart (i : nat)            (* deliver_message of the i-th pending message, up to the callback *)
| LFinish (i : nat)           (* the i-th running callback returns *)
| LDrain (h : nat)            (* event_message_token_drain is called *)
| LTest (i : nat)             (* the i-th drain tests the count: it returns or goes to sleep *)
| LWake (i : nat).            (* a spurious wakeup of the i-th drain *)

Section msg.
Context {D : Type} `{!PtrStore D}.
Implicit Types (b : bus D) (σ : sys D).

(** The first critical section of [deliver_message]: whether the callback runs. *)
Definition deliver_begin b (j : job) : bool * bus D :=
  match job_token j ≫= fun h => (h,.) <$> event_tokens b !! h with
  | None => (false, b)
  | Some (h, t) =>
      if t_active t then (true, set_tokens b (<[h := set_executing t (u32 (t_executing t + 1))]> (event_tokens b)))
      else (false, b)
  end.

(** The second one: whether [event_idle_cond] is broadcast. *)
Definition deliver_end b (j : job) : bool * bus D :=
  match job_token j ≫= fun h => (h,.) <$> event_tokens b !! h with
  | None => (false, b)
  | Some (h, t) =>
      let n := u32 (t_executing t - 1) in
      (n =? 0, set_tokens b (<[h := set_executing t n]> (event_tokens b)))
  end.

(** The test of the loop in [event_message_token_drain]. *)
Definition drain_ready b (h : nat) : bool :=
  match event_tokens b !! h with
  | None => true
  | Some t => negb (t_message t) || (t_executing t =? 0)
  end.

Definition run_api b (a : api) : option (bus D) :=
  match a with
  | Registry op => run_bus_op b op
  | MessageToken name cb user d du => Some (event_on_message_token b name cb user d du).2
  | MessageDomainToken name cb user dom => Some (event_on_message_domain_token b name cb user dom).2
  | DomainToken ev cb user dom => snd <$> event_on_domain_token b ev cb user dom
  | BinaryDomainToken ev cb user dom => snd <$> event_on_binary_domain_token b ev cb user dom
  | DomainRegister name d user => Some (event_domain_register b name d user).2
  | DomainUnregister name => snd <$> event_domain_unregister b name
  | Init => Some (event_init b)
  | Shutdown => event_shutdown b
  end.

(** The condition variable is shared by all tokens: a broadcast wakes every drain. *)
Definition wake_all (l : list (nat * drain_phase)) : list (nat * drain_phase) := map (fun d => (d.1, Testing)) l.

(** [None]: the step is not enabled in the state, or the registry call does not return. *)
Definition step σ (l : label) : option (sys D) :=
  match l with
  | LApi a => b ← run_api (registry σ) a; Some (Sys b (pending σ) (running σ) (drains σ))
  | LEmit m =>
      Some (Sys (registry σ) (pending σ ++ map job_of (event_emit_message (registry σ) m)) (running σ) (drains σ))
  | LStart i =>
      j ← pending σ !! i;
      let '(active, b) := deliver_begin (registry σ) j in
      Some (Sys b (delete i (pending σ)) (if active then running σ ++ [j] else running σ) (drains σ))
  | LFinish i =>
      j ← running σ !! i;
      let '(broadcast, b) := deliver_end (registry σ) j in
      Some (Sys b (pending σ) (delete i (running σ)) (if broadcast then wake_all (drains σ) else drains σ))
  | LDrain h => Some (Sys (registry σ) (pending σ) (running σ) (drains σ ++ [(h, Testing)]))
  | LTest i =>
      '(h, ph) ← drains σ !! i;
      match ph with
      | Waiting => None
      | Testing =>
          if drain_ready (registry σ) h then Some (Sys (registry σ) (pending σ) (running σ) (delete i (drains σ)))
          else Some (Sys (registry σ) (pending σ) (running σ) (<[i := (h, Waiting)]> (drains σ)))
      end
  | LWake i =>
      '(h, _) ← drains σ !! i;
      Some (Sys (registry σ) (pending σ) (running σ) (<[i := (h, Testing)]> (drains σ)))
  end.

Fixpoint run_sys σ (ls : list label) : option (sys D) :=
  match ls with
  | [] => Some σ
  | l :: ls => σ ← step σ l; run_sys σ ls
  end.

(** Steps of a process that never runs 2^32 callbacks at once: a callback
    occupies a thread, or the stack of one. *)
Definition moves σ σ' : Prop := exists l, step σ l = Some σ' /\ Z.of_nat (length (running σ')) < 2 ^ 32.

(** The [i]-th drain is about to return. *)
Definition drain_returns σ (i h : nat) : Prop :=
  drains σ !! i = Some (h, Testing) /\ drain_ready (registry σ) h = true.

End msg.
