(* ===== verification/EventMsgSpec.v ===== *)
(** * Message delivery: draining is safe and completes (event-bus.c) *)

From S2P Require Import Prelude CString Dict PtrStore EventBus EventBusTheory EventBusSpec EventMsg.

#[local] Open Scope Z_scope.

Section msg.
Context {D : Type} `{!PtrStore D}.
Implicit Types (b : bus D) (σ : sys D).

(** ** What the registry operations do to the tokens *)

(** Tokens keep their kind and their count and never come back to life, new
    ones are idle, and message listeners own message tokens. *)
Record evolves b b' : Prop := {
  ev_old : forall h t, event_tokens b !! h = Some t -> exists t', event_tokens b' !! h = Some t' /\
    t_message t' = t_message t /\ t_executing t' = t_executing t /\ (t_active t = false -> t_active t' = false);
  ev_new : forall h t, event_tokens b' !! h = Some t -> event_tokens b !! h = None -> t_executing t = 0;
  ev_listeners : forall m, m ∈ message_listeners b' -> m ∈ message_listeners b \/
    exists t, event_tokens b' !! m_token m = Some t /\ t_message t = true
}.

(** The part of the bus that matters here is the same. *)
Definition same b b' : Prop := event_tokens b' = event_tokens b /\ message_listeners b' = message_listeners b.

Lemma same_evolves b b' : same b b' -> evolves b b'.
Proof.
  intros [Ht Hm]. split; rewrite ?Ht, ?Hm; [eauto 6 | congruence | by left].
Qed.

Lemma evolves_trans b b1 b2 : evolves b b1 -> same b1 b2 -> evolves b b2.
Proof.
  intros [H1 H2 H3] [Ht Hm]. split; rewrite ?Ht, ?Hm; try done.
Qed.

Lemma evolves_trans_l b b1 b2 : same b b1 -> evolves b1 b2 -> evolves b b2.
Proof.
  intros [Ht Hm] [H1 H2 H3]. split; rewrite <- ?Ht, <- ?Hm; try done.
Qed.

Lemma evolves_add b t : t_executing t = 0 -> evolves b (add_token b t).2.
Proof.
  intros Ht. split; cbn.
  - intros h t' Hh. exists t'. split; [by apply lookup_app_l_Some | done].
  - intros h t' [Hh | [_ Hh]]%lookup_app_Some Hn; [congruence |].
    apply list_lookup_singleton_Some in Hh as [_ <-]. done.
  - by left.
Qed.

Lemma evolves_off b b' h t :
  event_tokens b !! h = Some t -> event_tokens b' = <[h := deactivate t]> (event_tokens b) ->
  (forall m, m ∈ message_listeners b' -> m ∈ message_listeners b) -> evolves b b'.
Proof.
  intros Ht Hb Hm. split; [| | by left; apply Hm]; rewrite Hb.
  - intros h' t' Hh. destruct (decide (h' = h)) as [-> | Hne].
    + rewrite list_lookup_insert_eq by by eapply lookup_lt_Some. replace t' with t by congruence. by eexists.
    + rewrite list_lookup_insert_ne by done. eauto 6.
  - intros h' t' [(<- & _ & _) | [_ Hx]]%list_lookup_insert_Some Hn; congruence.
Qed.

Lemma get_or_create_same b ev p b' : event_get_or_create_locked b ev = Some (p, b') -> same b b'.
Proof.
  unfold event_get_or_create_locked. destruct (event_store b) as [s |]; [| by intros [= _ <-]].
  destruct (ps_get s ev) as [q |]; [| done]. cbn. destruct (negb (q =? 0)); [by intros [= _ <-] |].
  destruct (ps_add _ _ _ _) as [[[rc s'] o] |]; [| done]. cbn. destruct (rc =? 0); by intros [= _ <-].
Qed.

Lemma remove_if_empty_same b ev p b' : event_remove_if_empty_locked b ev p = Some b' -> same b b'.
Proof.
  unfold event_remove_if_empty_locked. destruct (listeners (get_entry b p)), (binary_listeners (get_entry b p)), (event_store b) as [s |]; try by intros [= <-].
  destruct (ps_del s ev) as [[]|]; [| done]. by intros [= <-].
Qed.


Lemma remove_first_elem {A} (f : A -> bool) l x : x ∈ (remove_first f l).1 -> x ∈ l.
Proof.
  induction l as [| y l IH]; [done |]. cbn. destruct (f y); [by right |]. destruct (remove_first f l); cbn in *.
  rewrite !elem_of_cons. naive_solver.
Qed.

(** Case analysis on the way a registry operation went. *)
Ltac walk :=
  repeat match goal with
  | |- Some (_, _) = Some _ -> _ => intros [= <- <-]
  | |- Some _ = Some _ -> _ => intros [= <-]
  | |- None = Some _ -> _ => done
  | |- (match ?x with _ => _ end) = Some _ -> _ => destruct x eqn:?
  | |- (match ?x with _ => _ end) ≫= _ = Some _ -> _ => destruct x eqn:?
  | |- ?x ≫= _ = Some _ -> _ => destruct x as [[]|] eqn:?; cbn [mbind option_bind]
  | |- Some _ ≫= _ = Some _ -> _ => cbn [mbind option_bind]
  end.

(** Closes the cases where only the registry changed. *)
Ltac unchanged :=
  apply same_evolves;
  first [ by split
        | match goal with H : event_get_or_create_locked _ _ = Some (_, ?b1) |- _ => exact (get_or_create_same _ _ _ b1 H) end ].

Lemma on_dispatch_evolves b ev cb user d du b' : event_on_dispatch b ev cb user d du = Some b' -> evolves b b'.
Proof. unfold event_on_dispatch. walk; unchanged. Qed.

Lemma on_binary_dispatch_evolves b ev cb user d du b' :
  event_on_binary_dispatch b ev cb user d du = Some b' -> evolves b b'.
Proof. unfold event_on_binary_dispatch. walk; unchanged. Qed.

Lemma put_token_evolves b ev p b1 e t :
  event_get_or_create_locked b ev = Some (p, b1) -> t_executing t = 0 ->
  evolves b (set_tokens (put_entry b1 p e) (event_tokens b1 ++ [t])).
Proof.
  intros Hg Ht. change (evolves b (add_token (put_entry b1 p e) t).2). eapply evolves_trans_l; [| by apply evolves_add]. by eapply (get_or_create_same _ _ _ b1).
Qed.

Lemma on_token_dispatch_evolves b ev cb user d du tok b' :
  event_on_token_dispatch b ev cb user d du = Some (tok, b') -> evolves b b'.
Proof.
  unfold event_on_token_dispatch, add_token. walk; try unchanged.
  match goal with H : event_get_or_create_locked _ _ = _ |- _ => by apply (put_token_evolves _ _ _ _ _ _ H) end.
Qed.

Lemma on_binary_token_dispatch_evolves b ev cb user d du tok b' :
  event_on_binary_token_dispatch b ev cb user d du = Some (tok, b') -> evolves b b'.
Proof.
  unfold event_on_binary_token_dispatch, add_token. walk; try unchanged.
  match goal with H : event_get_or_create_locked _ _ = _ |- _ => by apply (put_token_evolves _ _ _ _ _ _ H) end.
Qed.

Lemma off_token_evolves b h b' : event_off_token b h = Some b' -> evolves b b'.
Proof.
  unfold event_off_token. destruct h as [h |]; cbn [mbind option_bind]; [| by intros [= <-]; unchanged].
  destruct (event_tokens b !! h) as [t |] eqn:Ht; cbn [fmap option_fmap option_map]; [| by intros [= <-]; unchanged].
  destruct (negb (t_active t)); [by intros [= <-]; unchanged |]. unfold event_off_token_locked.
  destruct (t_message t).
  - intros [= <-]. eapply evolves_off; [done | done |]. cbn. intros m. apply remove_first_elem.
  - destruct (event_lookup_locked b (t_event t)) as [p |]; [| done]. cbn [mbind option_bind].
    destruct (p =? 0); [intros [= <-]; by eapply evolves_off |].
    destruct (event_remove_if_empty_locked _ _ _) as [b1 |] eqn:Hr; [| done]. cbn [mbind option_bind]. intros [= <-].
    apply remove_if_empty_same in Hr as [H1 H2]. cbn in H1, H2.
    eapply (evolves_off _ _ h t Ht); cbn; [by rewrite H1 | by rewrite H2].
Qed.
Lemma evolves_message b t l :
  t_executing t = 0 -> t_message t = true -> m_token l = length (event_tokens b) ->
  evolves b (set_messages (set_tokens b (event_tokens b ++ [t])) (l :: message_listeners b)).
Proof.
  intros Ht Hm Hl. destruct (evolves_add b t Ht) as [H1 H2 _]. split; [exact H1 | exact H2 |]. cbn.
  intros m [-> | Hin]%elem_of_cons; [right | by left]. exists t. split; [| done].
  rewrite Hl. by apply list_lookup_middle.
Qed.

Lemma message_token_evolves b name cb user d du : evolves b (event_on_message_token b name cb user d du).2.
Proof.
  unfold event_on_message_token, add_token. destruct name as [name |], (event_store b); try unchanged.
  destruct (cb =? 0); [unchanged |]. by apply (evolves_message b).
Qed.

Lemma message_domain_token_evolves b name cb user dom : evolves b (event_on_message_domain_token b name cb user dom).2.
Proof.
  unfold event_on_message_domain_token, add_token. destruct name as [name |], dom as [dom |]; try unchanged.
  destruct (cb =? 0); [unchanged |]. destruct (find_domain b dom), (event_store b); try unchanged.
  by apply (evolves_message b).
Qed.

Lemma domain_token_evolves b ev cb user dom tok b' :
  event_on_domain_token b ev cb user dom = Some (tok, b') -> evolves b b'.
Proof.
  unfold event_on_domain_token. destruct ev as [ev |], dom as [dom |]; try by intros [= <- <-]; unchanged.
  destruct (cb =? 0); [by intros [= <- <-]; unchanged |]. destruct (find_domain b dom) as [d |]; [| by intros [= <- <-]; unchanged].
  destruct (d_dispatch d =? 0); [by intros [= <- <-]; unchanged |].
  destruct (event_on_token_dispatch _ _ _ _ _ _) as [[tok1 b1] |] eqn:Ht; [| done]. cbn [mbind option_bind].
  apply on_token_dispatch_evolves in Ht. destruct tok1 as [tok1 |]; [| by intros [= <- <-]].
  destruct (event_get_or_create_locked b1 ev) as [[p b2] |] eqn:Hg; [| done]. cbn [mbind option_bind].
  apply get_or_create_same in Hg. destruct (p =? 0); intros [= <- <-]; by eapply evolves_trans.
Qed.

Lemma binary_domain_token_evolves b ev cb user dom tok b' :
  event_on_binary_domain_token b ev cb user dom = Some (tok, b') -> evolves b b'.
Proof.
  unfold event_on_binary_domain_token. destruct ev as [ev |], dom as [dom |]; try by intros [= <- <-]; unchanged.
  destruct (cb =? 0); [by intros [= <- <-]; unchanged |]. destruct (find_domain b dom) as [d |]; [| by intros [= <- <-]; unchanged].
  destruct (d_dispatch d =? 0); [by intros [= <- <-]; unchanged |]. apply on_binary_token_dispatch_evolves.
Qed.

Lemma domain_register_same b name d user : same b (event_domain_register b name d user).2.
Proof.
  unfold event_domain_register. destruct name as [[| c name] |], (event_store b); try done.
  destruct (d =? 0); [done |]. by destruct (find_domain b (c :: name)).
Qed.

Lemma domain_unregister_same b name r b' : event_domain_unregister b name = Some (r, b') -> same b b'.
Proof.
  unfold event_domain_unregister. destruct name as [name |]; [| by intros [= _ <-]].
  destruct (find_domain b name) as [d |]; [| by intros [= _ <-]]. destruct (existsb _ _); [by intros [= _ <-] |].
  destruct (event_store b) as [s |]; [destruct (ps_each s _ tt) as [[u []] |]; [destruct u | done] |];
    cbn; by intros [= _ <-].
Qed.

Lemma foldl_deactivate (l : list msg_listener) (ts : list token) (h : nat) :
  match ts !! h with
  | None => foldl (fun ts l => alter deactivate (m_token l) ts) ts l !! h = None
  | Some t => exists t', foldl (fun ts l => alter deactivate (m_token l) ts) ts l !! h = Some t' /\
      t_message t' = t_message t /\ t_executing t' = t_executing t /\ (t_active t = false -> t_active t' = false)
  end.
Proof.
  revert ts. induction l as [| m l IH]; intros ts; cbn; [destruct (ts !! h); eauto 6 |].
  specialize (IH (alter deactivate (m_token m) ts)). destruct (decide (h = m_token m)) as [-> | Hne].
  - rewrite list_lookup_alter_eq in IH. destruct (ts !! m_token m) as [t |]; cbn in IH; [| done].
    destruct IH as (t' & -> & ? & ? & Hact). eexists. split_and!; [done.. | auto].
  - rewrite list_lookup_alter_ne in IH by done. exact IH.
Qed.

Lemma shutdown_evolves b b' : event_shutdown b = Some b' -> evolves b b'.
Proof.
  unfold event_shutdown. destruct (event_store b) as [s |]; [| intros [= <-]; unchanged].
  destruct (ps_each s _ _) as [[u hp] |]; [| done]. cbn [mbind option_bind]. intros [= <-].
  split; cbn; [| | by intros m Hm%elem_of_nil].
  - intros h t Hh. pose proof (foldl_deactivate (message_listeners b) (event_tokens b) h) as Hd. by rewrite Hh in Hd.
  - intros h t Hh Hn. pose proof (foldl_deactivate (message_listeners b) (event_tokens b) h) as Hd. rewrite Hn in Hd. congruence.
Qed.

Lemma run_bus_op_evolves b op b' : run_bus_op b op = Some b' -> evolves b b'.
Proof.
  destruct op; cbn [run_bus_op].
  - apply on_dispatch_evolves.
  - apply on_binary_dispatch_evolves.
  - destruct (event_on_token_dispatch _ _ _ _ _ _) as [[]|] eqn:Ht; [| done]. intros [= <-]. by eapply on_token_dispatch_evolves.
  - destruct (event_on_binary_token_dispatch _ _ _ _ _ _) as [[]|] eqn:Ht; [| done]. intros [= <-].
    by eapply on_binary_token_dispatch_evolves.
  - apply off_token_evolves.
  - unfold event_off. destruct (event_lookup_locked b event) as [p |]; [| done]. cbn [mbind option_bind].
    destruct (p =? 0); [intros [= <-]; unchanged |]. intros Hr%remove_if_empty_same. by apply same_evolves.
  - unfold event_off_binary. destruct (event_lookup_locked b event) as [p |]; [| done]. cbn [mbind option_bind].
    destruct (p =? 0); [intros [= <-]; unchanged |]. intros Hr%remove_if_empty_same. by apply same_evolves.
Qed.

Lemma run_api_evolves b a b' : run_api b a = Some b' -> evolves b b'.
Proof.
  destruct a; cbn [run_api].
  - apply run_bus_op_evolves.
  - intros [= <-]. apply message_token_evolves.
  - intros [= <-]. apply message_domain_token_evolves.
  - destruct (event_on_domain_token _ _ _ _ _) as [[]|] eqn:Ht; [| done]. intros [= <-]. by eapply domain_token_evolves.
  - destruct (event_on_binary_domain_token _ _ _ _ _) as [[]|] eqn:Ht; [| done]. intros [= <-].
    by eapply binary_domain_token_evolves.
  - intros [= <-]. apply same_evolves, domain_register_same.
  - destruct (event_domain_unregister _ _) as [[]|] eqn:Ht; [| done]. intros [= <-].
    by eapply same_evolves, domain_unregister_same.
  - intros [= <-]. unfold event_init. destruct (event_store b); [unchanged |]. destruct (ps_new _). unchanged.
  - apply shutdown_evolves.
Qed.

(** ** The invariant *)

(** How many callbacks of the token are running. *)
Definition runs (h : nat) (l : list job) : nat := length (base.filter (fun j => job_token j = Some h) l).

Definition message_token_at b (h : nat) : Prop := exists t, event_tokens b !! h = Some t /\ t_message t = true.

(** The count of every token is the number of its running callbacks, and no
    drain sleeps on a count of zero. *)
Record sys_ok σ : Prop := {
  ok_fits : Z.of_nat (length (running σ)) < 2 ^ 32;
  ok_count : forall h t, event_tokens (registry σ) !! h = Some t -> t_executing t = Z.of_nat (runs h (running σ));
  ok_jobs : forall j, j ∈ pending σ ++ running σ -> exists h, job_token j = Some h /\ message_token_at (registry σ) h;
  ok_listen : forall m, m ∈ message_listeners (registry σ) -> message_token_at (registry σ) (m_token m);
  ok_sleep : forall i h, drains σ !! i = Some (h, Waiting) -> drain_ready (registry σ) h = false
}.

Lemma runs_app h l l' : runs h (l ++ l') = (runs h l + runs h l')%nat.
Proof. unfold runs. by rewrite filter_app, length_app. Qed.

Lemma runs_one h j : runs h [j] = if decide (job_token j = Some h) then 1%nat else 0%nat.
Proof. unfold runs. rewrite filter_cons. by destruct (decide _). Qed.

Lemma runs_delete h l i j : l !! i = Some j -> (runs h (delete i l) + runs h [j])%nat = runs h l.
Proof.
  intros Hi. rewrite <- runs_app. unfold runs. apply Permutation_length, filter_Permutation.
  rewrite <- Permutation_cons_append. symmetry. by apply delete_Permutation.
Qed.

Lemma runs_none h l : (forall j, j ∈ l -> job_token j <> Some h) -> runs h l = 0%nat.
Proof.
  intros Hl. induction l as [| j l IH]; [done |]. unfold runs. rewrite filter_cons_False by (apply Hl; left).
  apply IH. intros j' Hj'. apply Hl. by right.
Qed.

Lemma runs_pos h l : (0 < runs h l)%nat -> exists i j, l !! i = Some j /\ job_token j = Some h.
Proof.
  unfold runs. intros Hpos. destruct (base.filter (fun j => job_token j = Some h) l) as [| j l'] eqn:Hf; [by inversion Hpos |].
  assert (Hj : j ∈ base.filter (fun j => job_token j = Some h) l) by (rewrite Hf; left).
  apply list_elem_of_filter in Hj as [Hj [i Hi]%list_elem_of_lookup]. eauto.
Qed.

Lemma evolves_message_at b b' h : evolves b b' -> message_token_at b h -> message_token_at b' h.
Proof. intros He (t & Ht & Hm). destruct (ev_old _ _ He _ _ Ht) as (t' & Ht' & Hm' & _). exists t'. by rewrite Hm'. Qed.

Lemma drain_ready_false b h :
  drain_ready b h = false <-> exists t, event_tokens b !! h = Some t /\ t_message t = true /\ t_executing t <> 0.
Proof.
  unfold drain_ready. destruct (event_tokens b !! h) as [t |]; [| split; [done | by intros (? & ? & _)]].
  rewrite orb_false_iff, negb_false_iff, Z.eqb_neq. split; [intros []; eauto | by intros (t' & [= <-] & ?)].
Qed.

Lemma api_ok σ a b :
  sys_ok σ -> run_api (registry σ) a = Some b -> sys_ok (Sys b (pending σ) (running σ) (drains σ)).
Proof.
  intros [Hf Hc Hj Hm Hs] He%run_api_evolves. split; cbn [registry pending running drains]; [done |..].
  - intros h t Ht. destruct (event_tokens (registry σ) !! h) as [t0 |] eqn:Hold.
    + destruct (ev_old _ _ He _ _ Hold) as (t' & Ht' & _ & Hx & _). rewrite Ht in Ht'. injection Ht' as <-.
      by rewrite Hx, (Hc _ _ Hold).
    + rewrite (ev_new _ _ He _ _ Ht Hold), runs_none; [done |]. intros j Hin Hj'.
      destruct (Hj j) as (h' & Hh & t' & Ht' & _); [apply elem_of_app; by right |]. congruence.
  - intros j Hin. destruct (Hj j Hin) as (h & Hh & Hat). exists h. split; [done |]. by eapply evolves_message_at.
  - intros m Hin. destruct (ev_listeners _ _ He m Hin) as [Hold | Hnew]; [| done].
    by eapply evolves_message_at; [| apply Hm].
  - intros i h Hi. specialize (Hs i h Hi). apply drain_ready_false in Hs as (t & Ht & Hmt & Hx). apply drain_ready_false.
    destruct (ev_old _ _ He _ _ Ht) as (t' & Ht' & H1 & H2 & _). exists t'. by rewrite H1, H2.
Qed.

(** Changing a count keeps everything else of the token. *)
Lemma executing_lookup b h t n h' :
  event_tokens b !! h = Some t ->
  event_tokens (set_tokens b (<[h := set_executing t n]> (event_tokens b))) !! h' =
    (fun t' => if decide (h' = h) then set_executing t n else t') <$> event_tokens b !! h'.
Proof.
  intros Ht. cbn. destruct (decide (h' = h)) as [-> | Hne].
  - rewrite list_lookup_insert_eq by by eapply lookup_lt_Some. by rewrite Ht.
  - rewrite list_lookup_insert_ne by done. by destruct (event_tokens b !! h').
Qed.

Lemma executing_message_at b h t n h' :
  event_tokens b !! h = Some t -> message_token_at b h' ->
  message_token_at (set_tokens b (<[h := set_executing t n]> (event_tokens b))) h'.
Proof.
  intros Ht (t' & Ht' & Hm). unfold message_token_at. rewrite (executing_lookup _ _ _ _ _ Ht), Ht'.
  eexists. split; [done |]. destruct (decide (h' = h)) as [-> |]; [| done]. cbn. congruence.
Qed.

Lemma executing_ready b h t n h' :
  event_tokens b !! h = Some t ->
  drain_ready (set_tokens b (<[h := set_executing t n]> (event_tokens b))) h' =
    if decide (h' = h) then negb (t_message t) || (n =? 0) else drain_ready b h'.
Proof.
  intros Ht. unfold drain_ready at 1. rewrite (executing_lookup _ _ _ _ _ Ht).
  destruct (decide (h' = h)) as [-> | Hne]; [by rewrite Ht | by rewrite option_fmap_id].
Qed.

(** Both critical sections of [deliver_message]: the count of one token and
    the running callbacks change together. *)
Lemma count_ok σ h t n l l' dr :
  sys_ok σ -> event_tokens (registry σ) !! h = Some t -> Z.of_nat (length l') < 2 ^ 32 ->
  (forall j, j ∈ l ++ l' -> j ∈ pending σ ++ running σ) ->
  n = Z.of_nat (runs h l') -> (forall h', h' <> h -> runs h' l' = runs h' (running σ)) ->
  (forall i h', dr !! i = Some (h', Waiting) -> drains σ !! i = Some (h', Waiting)) ->
  (forall i, dr !! i = Some (h, Waiting) -> n <> 0) ->
  sys_ok (Sys (set_tokens (registry σ) (<[h := set_executing t n]> (event_tokens (registry σ)))) l l' dr).
Proof.
  intros [_ Hc Hj Hm Hs] Ht Hf Hin Hn Hother Hdr Hh. split; cbn [registry pending running drains]; [done |..].
  - intros h' t'. rewrite (executing_lookup _ _ _ _ _ Ht).
    destruct (event_tokens (registry σ) !! h') as [t0 |] eqn:Ht0; cbn; [| done]. intros [= <-].
    destruct (decide (h' = h)) as [-> | Hne]; [done |]. rewrite Hother by done. by apply Hc.
  - intros j Hjl. destruct (Hj j (Hin j Hjl)) as (h' & Hh' & Hat). exists h'. split; [done |]. by apply executing_message_at.
  - intros m Hml. apply executing_message_at; [done |]. by apply Hm.
  - intros i h' Hi. rewrite (executing_ready _ _ _ _ _ Ht). specialize (Hs _ _ (Hdr _ _ Hi)).
    destruct (decide (h' = h)) as [-> |]; [| done]. apply drain_ready_false in Hs as (t' & Ht' & Hmt & _).
    replace t with t' by congruence. rewrite Hmt. by apply Z.eqb_neq, (Hh i).
Qed.

Lemma job_token_at σ j (l : list job) :
  sys_ok σ -> j ∈ l -> (forall j', j' ∈ l -> j' ∈ pending σ ++ running σ) ->
  exists h t, job_token j = Some h /\ event_tokens (registry σ) !! h = Some t /\ t_message t = true.
Proof. intros Hok Hj Hl. destruct (ok_jobs _ Hok j (Hl j Hj)) as (h & Hh & t & Ht & Hm). eauto 6. Qed.

Lemma emit_jobs b m j :
  j ∈ map job_of (event_emit_message b m) -> exists l, l ∈ message_listeners b /\ job_token j = Some (m_token l).
Proof.
  unfold event_emit_message. destruct (msg_name m) as [name |]; [| by intros ?%elem_of_nil].
  destruct (match msg_payload m with Some _ => _ | None => _ end); [by intros ?%elem_of_nil |].
  rewrite map_map. intros (l & -> & Hl)%list_elem_of_fmap. apply list_elem_of_filter in Hl as [_ Hl].
  exists l. split; [done |]. by destruct (m_dispatch l =? 0).
Qed.

Lemma runs_le h l : (runs h l <= length l)%nat.
Proof. apply length_filter. Qed.

Lemma elem_delete {A} (l : list A) i x : x ∈ delete i l -> x ∈ l.
Proof. intros [j Hj]%list_elem_of_lookup. rewrite list_lookup_delete in Hj. repeat case_match; by eapply list_elem_of_lookup_2. Qed.

Lemma start_ok σ i σ' :
  sys_ok σ -> step σ (LStart i) = Some σ' -> Z.of_nat (length (running σ')) < 2 ^ 32 -> sys_ok σ'.
Proof.
  intros Hok Hst Hf. cbn [step] in Hst. destruct (pending σ !! i) as [j |] eqn:Hi; [| done]. cbn [mbind option_bind] in Hst.
  destruct (job_token_at σ j (pending σ) Hok) as (h & t & Hj & Ht & _);
    [by eapply list_elem_of_lookup_2 | intros; apply elem_of_app; by left |].
  unfold deliver_begin in Hst. rewrite Hj in Hst. cbn [mbind option_bind] in Hst. rewrite Ht in Hst.
  cbn [fmap option_fmap option_map] in Hst.
  destruct (t_active t); injection Hst as <-; cbn [running] in Hf.
  - pose proof (runs_le h (running σ ++ [j])) as Hle. rewrite runs_app, runs_one, decide_True in Hle by done.
    apply count_ok; [done | done | done | | | | done | ].
    + intros j' [Hd | [Hr | ->%list_elem_of_singleton]%elem_of_app]%elem_of_app; apply elem_of_app;
        [left; by eapply elem_delete | by right | left; by eapply list_elem_of_lookup_2].
    + rewrite (ok_count _ Hok h t Ht), runs_app, runs_one, decide_True by done. unfold u32. rewrite Z.mod_small; lia.
    + intros h' Hne. rewrite runs_app, runs_one, decide_False; [lia | congruence].
    + intros _ _. rewrite (ok_count _ Hok h t Ht). unfold u32. rewrite Z.mod_small; lia.
  - destruct Hok as [H1 H2 H3 H4 H5]. split; [done | done | | done | done]. cbn.
    intros j' [Hd | Hr]%elem_of_app; apply H3, elem_of_app; [left; by eapply elem_delete | by right].
Qed.

Lemma wake_all_lookup l i h : wake_all l !! i <> Some (h, Waiting).
Proof. unfold wake_all. rewrite list_lookup_fmap. by destruct (l !! i). Qed.

(** What a returning callback leaves. *)
Lemma finish_step σ i j h :
  sys_ok σ -> running σ !! i = Some j -> job_token j = Some h ->
  exists b, step σ (LFinish i) = Some (Sys b (pending σ) (delete i (running σ))
      (if decide (runs h (running σ) = 1%nat) then wake_all (drains σ) else drains σ)) /\
    sys_ok (Sys b (pending σ) (delete i (running σ))
      (if decide (runs h (running σ) = 1%nat) then wake_all (drains σ) else drains σ)).
Proof.
  intros Hok Hi Hj. pose proof (list_elem_of_lookup_2 _ _ _ Hi) as Hin.
  destruct (job_token_at σ j (running σ) Hok Hin) as (h' & t & Hj' & Ht & _); [intros; apply elem_of_app; by right |].
  rewrite Hj in Hj'. injection Hj' as <-. cbn [step]. rewrite Hi. cbn [mbind option_bind]. unfold deliver_end. rewrite Hj.
  cbn [mbind option_bind]. rewrite Ht. cbn [fmap option_fmap option_map].
  pose proof (runs_delete h (running σ) i j Hi) as Hd. rewrite runs_one, decide_True in Hd by done.
  pose proof (runs_le h (running σ)) as Hle. pose proof (ok_fits _ Hok) as Hf.
  rewrite (ok_count _ Hok h t Ht). unfold u32. rewrite Z.mod_small by lia.
  eexists. split; [by replace (_ =? 0) with (bool_decide (runs h (running σ) = 1%nat)) by
    (apply eq_bool_prop_intro; rewrite bool_decide_spec, Is_true_true, Z.eqb_eq; lia); case_bool_decide; case_decide |].
  apply count_ok; [done | done | | | lia | | | ].
  - rewrite length_delete by done. lia.
  - intros j' [Hp | Hr]%elem_of_app; apply elem_of_app; [by left | right; by eapply elem_delete].
  - intros h' Hne. pose proof (runs_delete h' (running σ) i j Hi) as Hd'. rewrite runs_one, decide_False in Hd'; [lia | congruence].
  - intros k h' Hk. case_decide; [by apply wake_all_lookup in Hk | done].
  - intros k Hk. case_decide; [by apply wake_all_lookup in Hk | lia].
Qed.

Lemma move_ok σ σ' : sys_ok σ -> moves σ σ' -> sys_ok σ'.
Proof.
  intros Hok (l & Hst & Hf). destruct l as [a | m | i | i | h | i | i].
  - cbn [step] in Hst. destruct (run_api _ a) as [b |] eqn:Ha; [| done]. injection Hst as <-. by eapply api_ok.
  - injection Hst as <-. destruct Hok as [H1 H2 H3 H4 H5]. split; [done | done | | done | done]. cbn.
    intros j [[Hp | He]%elem_of_app | Hr]%elem_of_app; [apply H3, elem_of_app; by left | | apply H3, elem_of_app; by right].
    apply emit_jobs in He as (ml & Hml & ->). eauto.
  - by eapply start_ok.
  - pose proof Hst as Hst'. cbn [step] in Hst'. destruct (running σ !! i) as [j |] eqn:Hi; [| done].
    destruct (job_token_at σ j (running σ) Hok) as (h & t & Hj & _);
      [by eapply list_elem_of_lookup_2 | intros; apply elem_of_app; by right |].
    destruct (finish_step σ i j h Hok Hi Hj) as (b & Heq & Hok'). rewrite Hst in Heq. injection Heq as ->. done.
  - injection Hst as <-. destruct Hok as [H1 H2 H3 H4 H5]. split; try done. cbn.
    intros i h' [Hi | [_ Hi]]%lookup_app_Some; [eauto |]. by apply list_lookup_singleton_Some in Hi as [_ [= _ ?]].
  - cbn [step] in Hst. destruct (drains σ !! i) as [[h []]|] eqn:Hi; cbn in Hst; [| done..].
    destruct Hok as [H1 H2 H3 H4 H5].
    destruct (drain_ready (registry σ) h) eqn:Hr; injection Hst as <-; (split; [done | done | done | done |]); cbn; intros k h' Hk.
    + rewrite list_lookup_delete in Hk. repeat case_match; eauto.
    + apply list_lookup_insert_Some in Hk as [(_ & [= <-] & _) | [_ Hk]]; eauto.
  - cbn [step] in Hst. destruct (drains σ !! i) as [[h ph]|] eqn:Hi; cbn in Hst; [| done].
    destruct Hok as [H1 H2 H3 H4 H5]. injection Hst as <-. split; [done | done | done | done |]. cbn. intros k h' Hk.
    apply list_lookup_insert_Some in Hk as [(_ & [= ] & _) | [_ Hk]]; eauto.
Qed.

(** ** Draining *)

(** A process at its start. *)
Definition initial_sys : sys D := Sys initial_bus [] [] [].

Lemma initial_ok : sys_ok initial_sys.
Proof. split; cbn; [done | by intros h t | by intros j Hj%elem_of_nil | by intros m Hm%elem_of_nil | by intros i h]. Qed.

Lemma moves_ok σ σ' : sys_ok σ -> rtc moves σ σ' -> sys_ok σ'.
Proof. intros Hok Hm. induction Hm as [| σ σ1 σ2 H1 H2 IH]; [done |]. by eapply IH, move_ok. Qed.

(** A cancelled message token. *)
Definition cancelled σ (h : nat) : Prop :=
  exists t, event_tokens (registry σ) !! h = Some t /\ t_message t = true /\ t_active t = false.

Lemma cancelled_move σ l σ' h : step σ l = Some σ' -> cancelled σ h -> cancelled σ' h.
Proof.
  intros Hst (t & Ht & Hm & Ha).
  assert (Hcount : forall (h' : nat) (t' : token) (n : Z), event_tokens (registry σ) !! h' = Some t' -> exists t0,
    event_tokens (set_tokens (registry σ) (<[h' := set_executing t' n]> (event_tokens (registry σ)))) !! h = Some t0 /\
    t_message t0 = true /\ t_active t0 = false).
  { intros h' t' n Ht'. rewrite (executing_lookup _ _ _ _ _ Ht'), Ht. eexists. split; [done |].
    destruct (decide (h = h')) as [<- |]; [| done]. cbn. rewrite Ht in Ht'. by injection Ht' as <-. }
  destruct l as [a | m | i | i | h' | i | i]; cbn [step] in Hst.
  - destruct (run_api _ a) as [b |] eqn:Hb; [| done]. injection Hst as <-. apply run_api_evolves in Hb.
    destruct (ev_old _ _ Hb _ _ Ht) as (t' & Ht' & Hm' & _ & Ha'). exists t'. rewrite Hm'. auto.
  - injection Hst as <-. by exists t.
  - destruct (pending σ !! i) as [j |]; [| done]. cbn [mbind option_bind] in Hst. unfold deliver_begin in Hst.
    destruct (job_token j) as [h' |]; cbn [mbind option_bind] in Hst; [| injection Hst as <-; by exists t].
    destruct (event_tokens (registry σ) !! h') as [t' |] eqn:Ht'; cbn in Hst; [| injection Hst as <-; by exists t].
    destruct (t_active t'); injection Hst as <-; [by apply Hcount | by exists t].
  - destruct (running σ !! i) as [j |]; [| done]. cbn [mbind option_bind] in Hst. unfold deliver_end in Hst.
    destruct (job_token j) as [h' |]; cbn [mbind option_bind] in Hst; [| injection Hst as <-; by exists t].
    destruct (event_tokens (registry σ) !! h') as [t' |] eqn:Ht'; cbn in Hst; [| injection Hst as <-; by exists t].
    injection Hst as <-. by apply Hcount.
  - injection Hst as <-. by exists t.
  - destruct (drains σ !! i) as [[h' []]|]; cbn in Hst; try done.
    destruct (drain_ready _ _); injection Hst as <-; by exists t.
  - destruct (drains σ !! i) as [[h' ph]|]; cbn in Hst; [| done]. injection Hst as <-. by exists t.
Qed.

(** No step starts a callback of a cancelled token. *)
Lemma cancelled_runs σ l σ' h : step σ l = Some σ' -> cancelled σ h -> (runs h (running σ') <= runs h (running σ))%nat.
Proof.
  intros Hst (t & Ht & Hm & Ha). destruct l as [a | m | i | i | h' | i | i]; cbn [step] in Hst.
  - destruct (run_api _ a) as [b |]; [| done]. by injection Hst as <-.
  - by injection Hst as <-.
  - destruct (pending σ !! i) as [j |]; [| done]. cbn [mbind option_bind] in Hst. unfold deliver_begin in Hst.
    destruct (decide (job_token j = Some h)) as [Hj | Hj].
    + rewrite Hj in Hst. cbn [mbind option_bind] in Hst. rewrite Ht in Hst. cbn in Hst. rewrite Ha in Hst. by injection Hst as <-.
    + destruct (_ : bool * bus D) as [[] b]; injection Hst as <-; cbn [running]; [| done].
      rewrite runs_app, runs_one, decide_False by done. lia.
  - destruct (running σ !! i) as [j |] eqn:Hi; [| done]. cbn [mbind option_bind] in Hst.
    destruct (deliver_end _ j) as [br b]. injection Hst as <-. cbn [running].
    pose proof (runs_delete h (running σ) i j Hi). lia.
  - by injection Hst as <-.
  - destruct (drains σ !! i) as [[h' []]|]; cbn in Hst; try done.
    by destruct (drain_ready _ _); injection Hst as <-.
  - destruct (drains σ !! i) as [[h' ph]|]; cbn in Hst; [| done]. by injection Hst as <-.
Qed.

Lemma cancelled_moves σ σ' h :
  rtc moves σ σ' -> cancelled σ h -> cancelled σ' h /\ (runs h (running σ') <= runs h (running σ))%nat.
Proof.
  induction 1 as [σ | σ σ1 σ2 (l & Hst & _) _ IH]; [done |]. intros Hc.
  pose proof (cancelled_runs _ _ _ _ Hst Hc). destruct (IH (cancelled_move _ _ _ _ Hst Hc)). split; [done | lia].
Qed.

Lemma off_cancels σ h σ' :
  message_token_at (registry σ) h -> step σ (LApi (Registry (OffToken h))) = Some σ' -> cancelled σ' h.
Proof.
  intros (t & Ht & Hm) Hst. cbn [step run_api run_bus_op] in Hst. unfold event_off_token in Hst.
  cbn [mbind option_bind] in Hst. rewrite Ht in Hst. cbn [fmap option_fmap option_map] in Hst.
  destruct (t_active t) eqn:Ha; cbn [negb] in Hst.
  - unfold event_off_token_locked in Hst. rewrite Hm in Hst. injection Hst as <-. exists (deactivate t). split; [| done].
    cbn. apply list_lookup_insert_eq. by eapply lookup_lt_Some.
  - injection Hst as <-. by exists t.
Qed.

Lemma returns_idle σ i h : sys_ok σ -> message_token_at (registry σ) h -> drain_returns σ i h -> runs h (running σ) = 0%nat.
Proof.
  intros Hok (t & Ht & Hm) [_ Hr]. unfold drain_ready in Hr. rewrite Ht, Hm in Hr. cbn in Hr.
  apply Z.eqb_eq in Hr. rewrite (ok_count _ Hok _ _ Ht) in Hr. lia.
Qed.

Lemma no_job h l j : runs h l = 0%nat -> j ∈ l -> job_token j <> Some h.
Proof.
  unfold runs. intros Hz%length_zero_iff_nil Hj Heq. exact (filter_nil_not_elem_of _ _ _ Hz Heq Hj).
Qed.

(** C10: once a message token was cancelled and a drain of it returned, none of
    its callbacks is running, and none ever runs again, whatever is still queued
    and whatever the other threads do: the module that owns the callback can be
    unloaded. *)
Theorem message_drain_quiesces σ1 σ2 σ3 σ4 (i h : nat)
    (H1 : rtc moves initial_sys σ1) (Htok : message_token_at (registry σ1) h)
    (Hoff : step σ1 (LApi (Registry (OffToken h))) = Some σ2) (H3 : rtc moves σ2 σ3)
    (Hret : drain_returns σ3 i h) (H4 : rtc moves σ3 σ4) :
  forall j, j ∈ running σ4 -> job_token j <> Some h.
Proof.
  pose proof (moves_ok _ _ initial_ok H1) as Hok1.
  assert (Hok2 : sys_ok σ2).
  { eapply move_ok; [exact Hok1 |]. eexists. split; [exact Hoff |]. cbn [step] in Hoff.
    destruct (run_api _ _); [| done]. injection Hoff as <-. apply (ok_fits _ Hok1). }
  pose proof (moves_ok _ _ Hok2 H3) as Hok3. pose proof (off_cancels _ _ _ Htok Hoff) as Hc2.
  destruct (cancelled_moves _ _ _ H3 Hc2) as [Hc3 _]. destruct (cancelled_moves _ _ _ H4 Hc3) as [_ Hle].
  assert (Htok3 : message_token_at (registry σ3) h) by (destruct Hc3 as (t & ? & ? & _); by exists t).
  rewrite (returns_idle _ _ _ Hok3 Htok3 Hret) in Hle. intros j. apply no_job. lia.
Qed.

(** C11: a drain waits for nothing but the callbacks it is about, and no wakeup
    is lost: from any reachable state, letting the running callbacks of the token
    finish, and doing nothing else, brings the drain to its return. *)
Theorem message_drain_completes σ (i h : nat) ph
    (Hreach : rtc moves initial_sys σ) (Hdrain : drains σ !! i = Some (h, ph)) :
  exists fin σ', run_sys σ (map LFinish fin) = Some σ' /\ (length fin <= runs h (running σ))%nat /\ drain_returns σ' i h.
Proof.
  pose proof (moves_ok _ _ initial_ok Hreach) as Hok. clear Hreach. remember (runs h (running σ)) as n eqn:Hn.
  revert σ ph Hdrain Hok Hn. induction n as [| n IH]; intros σ ph Hdrain Hok Hn.
  - exists [], σ. split_and!; [done | done |].
    assert (Hr : drain_ready (registry σ) h = true).
    { apply not_false_iff_true. intros (t & Ht & _ & Hx)%drain_ready_false. rewrite (ok_count _ Hok _ _ Ht) in Hx. lia. }
    split; [| done]. destruct ph; [done |]. pose proof (ok_sleep _ Hok _ _ Hdrain). congruence.
  - destruct (runs_pos h (running σ)) as (k & j & Hk & Hj); [lia |].
    destruct (finish_step σ k j h Hok Hk Hj) as (b & Hst & Hok').
    pose proof (runs_delete h (running σ) k j Hk) as Hd. rewrite runs_one, decide_True in Hd by done.
    match type of Hok' with sys_ok ?s => set (σ1 := s) in * end.
    assert (Hd1 : drains σ1 !! i = Some (h, if decide (runs h (running σ) = 1%nat) then Testing else ph)).
    { cbn [drains σ1]. case_decide; [| done]. unfold wake_all. by rewrite list_lookup_fmap, Hdrain. }
    destruct (IH σ1 _ Hd1 Hok') as (fin & σ' & Hrun & Hlen & Hret); [cbn [running σ1]; lia |].
    exists (k :: fin), σ'. cbn [map run_sys length]. rewrite Hst. split_and!; [done | lia | done].
Qed.
End msg.

(** ** Instances with the dictionary *)

Lemma step_length {D : Type} `{!PtrStore D} (σ σ' : sys D) l :
  step σ l = Some σ' -> (length (running σ') <= S (length (running σ)))%nat.
Proof.
  destruct l as [a | m | i | i | h | i | i]; cbn [step].
  - destruct (run_api _ a); [| done]. intros [= <-]. cbn. lia.
  - intros [= <-]. cbn. lia.
  - destruct (pending σ !! i) as [j |]; [| done]. cbn [mbind option_bind]. destruct (deliver_begin _ j) as [[] b]; intros [= <-];
      cbn [running]; rewrite ?length_app; cbn; lia.
  - destruct (running σ !! i) as [j |] eqn:Hi; [| done]. cbn [mbind option_bind]. destruct (deliver_end _ j) as [br b].
    intros [= <-]. cbn [running]. rewrite length_delete by done. lia.
  - intros [= <-]. cbn. lia.
  - destruct (drains σ !! i) as [[h []]|]; cbn; try done. destruct (drain_ready _ h); intros [= <-]; cbn; lia.
  - destruct (drains σ !! i) as [[h ph]|]; cbn; [| done]. intros [= <-]. cbn. lia.
Qed.

(** A short run never has too many callbacks. *)
Lemma run_moves {D : Type} `{!PtrStore D} ls (σ σ' : sys D) :
  run_sys σ ls = Some σ' -> Z.of_nat (length ls + length (running σ)) < 2 ^ 32 -> rtc moves σ σ'.
Proof.
  revert σ. induction ls as [| l ls IH]; intros σ; cbn; [by intros [= ->] |].
  destruct (step σ l) as [σ1 |] eqn:Hst; [| done]. cbn. intros Hrun Hlen.
  pose proof (step_length _ _ _ Hst). eapply rtc_l; [exists l; split; [exact Hst | lia] |]. apply IH; [exact Hrun | lia].
Qed.

(** Where a run from the start ends. *)
Definition after (ls : list label) : sys dict := default initial_sys (run_sys initial_sys ls).

Definition ping : message := Message (Some (B "ping")) None (Some (B "x")) 1 0.

(** Two messages are sent and the first one's callback is running. *)
Definition sent : list label :=
  [LApi Init; LApi (MessageToken (Some (B "ping")) 1 2 0 0); LEmit ping; LEmit ping; LStart 0].
(** The token is cancelled and drained: the drain sleeps until the callback returns. *)
Definition cancel : label := LApi (Registry (OffToken 0)).
Definition drained : list label := [LDrain 0; LTest 0; LFinish 0].
(** Then the second message reaches its loop. *)
Definition later : list label := [LTest 0; LStart 0].

Lemma message_drain_quiesces_witness :
  length (running (after sent)) = 1%nat /\ length (pending (after (sent ++ cancel :: drained))) = 1%nat /\
  drain_returns (after (sent ++ cancel :: drained)) 0 0 /\
  Forall (fun j => job_token j <> Some 0%nat) (running (after (sent ++ cancel :: drained ++ later))).
Proof.
  assert (Hret : drain_returns (after (sent ++ cancel :: drained)) 0 0) by (split; vm_compute; reflexivity).
  split; [vm_compute; reflexivity |]. split; [vm_compute; reflexivity |]. split; [exact Hret |]. apply Forall_forall.
  refine (message_drain_quiesces (after sent) (after (sent ++ [cancel])) (after (sent ++ cancel :: drained))
    (after (sent ++ cancel :: drained ++ later)) 0 0 _ _ _ _ Hret _).
  - apply (run_moves sent); [vm_compute; reflexivity | vm_compute; reflexivity].
  - eexists. split; vm_compute; reflexivity.
  - vm_compute. reflexivity.
  - apply (run_moves drained); [vm_compute; reflexivity | vm_compute; reflexivity].
  - apply (run_moves later); [vm_compute; reflexivity | vm_compute; reflexivity].
Defined.

Lemma message_drain_completes_witness :
  exists fin σ', run_sys (after (sent ++ [LDrain 0; LTest 0])) (map LFinish fin) = Some σ' /\
    (length fin <= 1)%nat /\ drain_returns σ' 0 0.
Proof.
  apply (message_drain_completes (after (sent ++ [LDrain 0; LTest 0])) 0 0 Waiting).
  - apply (run_moves (sent ++ [LDrain 0; LTest 0])); [vm_compute; reflexivity | vm_compute; reflexivity].
  - vm_compute. reflexivity.
Defined.
