(* ===== verification/LogQueue.v ===== *)
(** * The bounded log queue (log-queue.c)

    Any thread may push; the thread that owns [Log] drains.  Pushing never
    waits: a lock held by someone else or a full queue drops the record and
    counts it.  Each critical section is one step.

 *)

From S2P Require Import Prelude.

#[local] Open Scope Z_scope.

(** [ra_log_record_t]; [submitted] is the reading of CLOCK_REALTIME. *)
Record log_record := LogRecord { level : Z; submitted : Z; subsystem : bstr; log_message : bstr }.

(** [struct ra_log_queue]; the array has [capacity] elements. *)
Record log_queue := LogQueue {
  capacity : Z; q_head : Z; q_tail : Z; q_length : Z;
  dropped : Z; contention_dropped : Z; full_dropped : Z;
  records : list log_record }.

Definition SIZE_MAX : Z := 2 ^ 64 - 1.
(** Sizes on the LP64 hosts the project builds for. *)
Definition sizeof_record : Z := 1112.
Definition sizeof_queue : Z := 96.

(** [calloc] clears the array. *)
Definition empty_record : log_record := LogRecord 0 0 [] [].

(** [ok]: whether [calloc] and [pthread_mutex_init] succeed. *)
Definition ra_log_queue_new (ok : bool) (cap : Z) : option log_queue :=
  if (cap =? 0) || ((SIZE_MAX - sizeof_queue) / sizeof_record <? cap) then None
  else if negb ok then None
  else Some (LogQueue cap 0 0 0 0 0 0 (replicate (Z.to_nat cap) empty_record)).

(** [snprintf] into an array of [n] bytes. *)
Definition snprintf_s (n : nat) (s : bstr) : bstr := take (n - 1) s.

Definition record_of (lvl now : Z) (subsys msg : bstr) : log_record :=
  LogRecord lvl now (snprintf_s 64 subsys) (snprintf_s 1024 msg).

(** [contended]: [pthread_mutex_trylock] fails. *)
Definition ra_log_queue_push (q : log_queue) (contended : bool) (lvl now : Z) (subsys msg : option bstr) : bool * log_queue :=
  match subsys, msg with
  | Some subsys, Some msg =>
      if contended then
        (false, LogQueue (capacity q) (q_head q) (q_tail q) (q_length q)
                  (u64 (dropped q + 1)) (u64 (contention_dropped q + 1)) (full_dropped q) (records q))
      else if q_length q =? capacity q then
        (false, LogQueue (capacity q) (q_head q) (q_tail q) (q_length q)
                  (u64 (dropped q + 1)) (contention_dropped q) (u64 (full_dropped q + 1)) (records q))
      else
        (true, LogQueue (capacity q) (q_head q) (u64 (q_tail q + 1) mod capacity q) (u64 (q_length q + 1))
                 (dropped q) (contention_dropped q) (full_dropped q)
                 (<[Z.to_nat (q_tail q) := record_of lvl now subsys msg]> (records q)))
  | _, _ => (false, q)
  end.

(** One turn of the loop in [ra_log_queue_drain]: the record taken, if any. *)
Definition drain_one (q : log_queue) : option log_record * log_queue :=
  if q_length q =? 0 then (None, q)
  else
    (Some (default empty_record (records q !! Z.to_nat (q_head q))),
     LogQueue (capacity q) (u64 (q_head q + 1) mod capacity q) (q_tail q) (q_length q - 1)
       (dropped q) (contention_dropped q) (full_dropped q) (records q)).

(** The records delivered by a drain nobody interferes with. *)
Fixpoint ra_log_queue_drain (q : log_queue) (max_records : nat) : list log_record * log_queue :=
  match max_records with
  | O => ([], q)
  | S max_records =>
      match drain_one q with
      | (None, q) => ([], q)
      | (Some item, q) => let '(l, q) := ra_log_queue_drain q max_records in (item :: l, q)
      end
  end.

(** ** Interleavings *)

(** The critical sections of any number of producers and of one drain. *)
Inductive queue_op :=
| Push (contended : bool) (lvl now : Z) (subsys msg : bstr)
| Take.

(** The records that were accepted and delivered, in order, with the queue. *)
Record history := History { queue : log_queue; accepted : list log_record; delivered : list log_record }.

Definition queue_step (s : history) (op : queue_op) : history :=
  match op with
  | Push contended lvl now subsys msg =>
      let '(ok, q) := ra_log_queue_push (queue s) contended lvl now (Some subsys) (Some msg) in
      History q (if ok then accepted s ++ [record_of lvl now subsys msg] else accepted s) (delivered s)
  | Take =>
      let '(item, q) := drain_one (queue s) in
      History q (accepted s) (match item with Some r => delivered s ++ [r] | None => delivered s end)
  end.

Definition queue_run (q : log_queue) (ops : list queue_op) : history := fold_left queue_step ops (History q [] []).

(** The queued records, oldest first. *)
Definition slot (q : log_queue) (i : nat) : log_record :=
  default empty_record (records q !! Z.to_nat ((q_head q + Z.of_nat i) mod capacity q)).
Definition contents (q : log_queue) : list log_record := map (slot q) (seq 0 (Z.to_nat (q_length q))).

Record queue_wf (q : log_queue) : Prop := {
  qw_capacity : 1 <= capacity q < 2 ^ 63;
  qw_head : 0 <= q_head q < capacity q;
  qw_length : 0 <= q_length q <= capacity q;
  qw_tail : q_tail q = (q_head q + q_length q) mod capacity q;
  qw_array : Z.of_nat (length (records q)) = capacity q
}.

Lemma slot_range q (i : Z) : queue_wf q -> (Z.to_nat (i mod capacity q) < length (records q))%nat.
Proof. intros [Hc _ _ _ Ha]. pose proof (Z.mod_pos_bound i (capacity q)). lia. Qed.

(** Different positions of the window are different elements of the array. *)
Lemma window_inj c h i j : 0 <= i < c -> 0 <= j < c -> (h + i) mod c = (h + j) mod c -> i = j.
Proof.
  intros Hi Hj He. pose proof (Z.div_mod (h + i) c ltac:(lia)). pose proof (Z.div_mod (h + j) c ltac:(lia)).
  assert (i - j = c * ((h + i) / c - (h + j) / c)) by lia.
  assert ((h + i) / c - (h + j) / c = 0) by nia. lia.
Qed.

Lemma new_wf ok cap q : 0 <= cap -> ra_log_queue_new ok cap = Some q -> queue_wf q /\ contents q = [] /\ capacity q = cap.
Proof.
  unfold ra_log_queue_new. intros Hc. destruct (_ || _) eqn:Hr; [done |]. apply orb_false_iff in Hr as [H0 Hmax].
  apply Z.eqb_neq in H0. apply Z.ltb_ge in Hmax.
  assert ((SIZE_MAX - sizeof_queue) / sizeof_record < 2 ^ 63) by by vm_compute.
  destruct ok; [| done]. intros [= <-]. split; [| done]. split; cbn; [lia.. | | by rewrite length_replicate; lia].
  by rewrite Z.mod_0_l by lia.
Qed.

Lemma push_accepts q lvl now subsys msg :
  queue_wf q -> q_length q < capacity q ->
  let '(ok, q') := ra_log_queue_push q false lvl now (Some subsys) (Some msg) in
  ok = true /\ queue_wf q' /\ capacity q' = capacity q /\ contents q' = contents q ++ [record_of lvl now subsys msg].
Proof.
  intros Hq Hl. pose proof Hq as [Hc Hh Hlen Ht Ha]. unfold ra_log_queue_push. rewrite (proj2 (Z.eqb_neq _ _)) by lia.
  assert (Hn : u64 (q_length q + 1) = q_length q + 1) by (unfold u64; rewrite Z.mod_small; lia).
  assert (Htl : u64 (q_tail q + 1) = q_tail q + 1).
  { pose proof (Z.mod_pos_bound (q_head q + q_length q) (capacity q)). unfold u64. rewrite Z.mod_small; lia. }
  split; [done |]. split; [| split; [done |]].
  - split; cbn; [lia.. | | by rewrite length_insert]. rewrite Htl, Hn, Ht, Z.add_mod_idemp_l by lia. f_equal. lia.
  - unfold contents. cbn [q_length]. rewrite Hn. replace (Z.to_nat (q_length q + 1)) with (Z.to_nat (q_length q) + 1)%nat by lia.
    rewrite seq_app, map_app. f_equal.
    + apply map_ext_in. intros i Hi%in_seq. unfold slot. cbn [records q_head capacity]. rewrite list_lookup_insert_ne; [done |].
      rewrite Ht. intros Heq. apply Z2Nat.inj in Heq; [| apply Z.mod_pos_bound; lia..].
      apply window_inj in Heq; lia.
    + cbn. unfold slot. cbn [records q_head capacity]. rewrite Z2Nat.id, <- Ht by lia.
      rewrite list_lookup_insert_eq; [done |]. rewrite Ht. by apply slot_range.
Qed.

Lemma drain_one_spec q :
  queue_wf q ->
  let '(item, q') := drain_one q in
  queue_wf q' /\ capacity q' = capacity q /\
  match contents q with
  | [] => item = None /\ q' = q
  | r :: l => item = Some r /\ contents q' = l
  end.
Proof.
  intros Hq. pose proof Hq as [Hc Hh Hlen Ht Ha]. unfold drain_one. destruct (Z.eqb_spec (q_length q) 0) as [H0 | H0].
  - split; [done |]. split; [done |]. unfold contents. by rewrite H0.
  - assert (Hhd : u64 (q_head q + 1) = q_head q + 1) by (unfold u64; rewrite Z.mod_small; lia).
    assert (Hn : Z.to_nat (q_length q) = S (Z.to_nat (q_length q - 1))) by lia.
    split; [| split; [done |]].
    + split; cbn; [lia | rewrite Hhd; apply Z.mod_pos_bound; lia | lia | | done].
      rewrite Hhd, Z.add_mod_idemp_l, Ht by lia. f_equal. lia.
    + unfold contents at 1. rewrite Hn. cbn [seq map]. split.
      * unfold slot. cbn. by rewrite Z.add_0_r, Z.mod_small by lia.
      * unfold contents. cbn [q_length]. rewrite <- seq_shift, map_map. apply map_ext_in. intros i _. unfold slot.
        cbn [records q_head capacity]. rewrite Hhd, Z.add_mod_idemp_l by lia.
        by replace (q_head q + Z.of_nat (S i)) with (q_head q + 1 + Z.of_nat i) by lia.
Qed.

(** The attempts, and those that met a held lock or a full queue. *)
Definition is_push (op : queue_op) : bool := match op with Push _ _ _ _ _ => true | Take => false end.

Record history_ok (n : Z) (cap : Z) (s : history) : Prop := {
  ho_wf : queue_wf (queue s);
  ho_cap : capacity (queue s) = cap;
  ho_fifo : accepted s = delivered s ++ contents (queue s);
  ho_count : n = Z.of_nat (length (accepted s)) + dropped (queue s);
  ho_split : dropped (queue s) = contention_dropped (queue s) + full_dropped (queue s);
  ho_pos : 0 <= contention_dropped (queue s) /\ 0 <= full_dropped (queue s)
}.

Lemma step_history n cap s op :
  history_ok n cap s -> n + (if is_push op then 1 else 0) < 2 ^ 64 -> history_ok (n + (if is_push op then 1 else 0)) cap (queue_step s op).
Proof.
  intros [Hw Hcap Hf Hn Hs Hp] Hmax. destruct op as [contended lvl now subsys msg |]; cbn [queue_step is_push] in *.
  - assert (Hinc : forall z, 0 <= z -> z <= n -> u64 (z + 1) = z + 1) by (intros z H1 H2; unfold u64; rewrite Z.mod_small; lia).
    destruct contended; [| destruct (Z.eq_dec (q_length (queue s)) (capacity (queue s))) as [Hfull | Hfull]].
    + cbn. rewrite !Hinc by lia. destruct Hw. split; cbn; [by split | done | exact Hf | lia | lia | lia].
    + cbn. rewrite (proj2 (Z.eqb_eq _ _) Hfull). cbn. rewrite !Hinc by lia. destruct Hw.
      split; cbn; [by split | done | exact Hf | lia | lia | lia].
    + pose proof (push_accepts (queue s) lvl now subsys msg Hw) as Hpush.
      assert (Hsame : forall q, (ra_log_queue_push (queue s) false lvl now (Some subsys) (Some msg)).2 = q ->
        q_length (queue s) <> capacity (queue s) -> dropped q = dropped (queue s) /\
        contention_dropped q = contention_dropped (queue s) /\ full_dropped q = full_dropped (queue s)).
      { intros q <- Hne. cbn. rewrite (proj2 (Z.eqb_neq _ _) Hne). done. }
      destruct (ra_log_queue_push _ _ _ _ _ _) as [ok q']. destruct Hpush as (-> & Hw' & Hc' & Hcont); [destruct Hw; lia |].
      destruct (Hsame q' eq_refl Hfull) as (Hd1 & Hd2 & Hd3).
      split; cbn; [done | congruence | rewrite Hf, Hcont; by rewrite app_assoc | rewrite length_app; cbn; lia | lia | lia].
  - pose proof (drain_one_spec (queue s) Hw) as Hd.
    assert (Hsame : forall q, (drain_one (queue s)).2 = q -> dropped q = dropped (queue s) /\
      contention_dropped q = contention_dropped (queue s) /\ full_dropped q = full_dropped (queue s)).
    { intros q <-. unfold drain_one. by destruct (_ =? 0). }
    destruct (drain_one (queue s)) as [item q']. destruct (Hsame q' eq_refl) as (Hd1 & Hd2 & Hd3).
    destruct Hd as (Hw' & Hc' & Hcont). rewrite Z.add_0_r.
    destruct (contents (queue s)) as [| r l] eqn:Hcs.
    + destruct Hcont as [-> ->]. split; cbn; try done. by rewrite Hcs.
    + destruct Hcont as [-> Hl]. split; cbn; [done | congruence | rewrite Hf, Hl; by rewrite <- app_assoc | lia | lia | lia].
Qed.

Definition pushes (ops : list queue_op) : Z := Z.of_nat (length (List.filter is_push ops)).

Lemma run_history n cap s ops :
  history_ok n cap s -> n + pushes ops < 2 ^ 64 -> history_ok (n + pushes ops) cap (fold_left queue_step ops s).
Proof.
  revert n s. induction ops as [| op ops IH]; intros n s Hs Hn.
  - unfold pushes. cbn. by rewrite Z.add_0_r.
  - assert (Hcons : pushes (op :: ops) = (if is_push op then 1 else 0) + pushes ops).
    { unfold pushes. cbn. destruct (is_push op); cbn [length]; lia. }
    rewrite Hcons in *. rewrite Z.add_assoc. cbn [fold_left]. apply IH; [| lia].
    assert (0 <= pushes ops) by (unfold pushes; lia). apply step_history; [done | lia].
Qed.

(** C34: from a new queue, whatever the interleaving of producers and drain: what
    was delivered and then what is queued is exactly what was accepted, in the
    order of acceptance, each record truncated to its fields and none lost,
    doubled or reordered; the queue never holds more than its capacity; and every
    attempt is either accepted or counted as dropped, by cause. *)
Theorem log_queue_fifo (cap : Z) (q : log_queue) (ops : list queue_op)
    (Hcap : 0 <= cap) (Hnew : ra_log_queue_new true cap = Some q) (Hops : pushes ops < 2 ^ 64) :
  let s := queue_run q ops in
  accepted s = delivered s ++ contents (queue s) /\
  Z.of_nat (length (contents (queue s))) <= cap /\
  pushes ops = Z.of_nat (length (accepted s)) + dropped (queue s) /\
  dropped (queue s) = contention_dropped (queue s) + full_dropped (queue s).
Proof.
  destruct (new_wf true cap q Hcap Hnew) as (Hw & Hc & Hq).
  assert (H0 : history_ok 0 cap (History q [] [])).
  { unfold ra_log_queue_new in Hnew. destruct (_ || _); [done |]. injection Hnew as <-. by split. }
  pose proof (run_history 0 cap _ ops H0 Hops) as [Hw' Hc' Hf Hn Hs _]. unfold queue_run. split_and!; [done | | done | done].
  unfold contents. rewrite length_map, length_seq. destruct Hw'. lia.
Qed.

Lemma log_queue_fifo_witness :
  exists q, ra_log_queue_new true 2 = Some q /\
    let s := queue_run q [Push false 6 100 (B "a") (B "one"); Push true 6 101 (B "a") (B "two"); Push false 6 102 (B "a") (B "three");
      Push false 6 103 (B "a") (B "four"); Take; Push false 6 104 (B "a") (B "five"); Take] in
    map log_message (accepted s) = [B "one"; B "three"; B "five"] /\ accepted s = delivered s ++ contents (queue s) /\
    dropped (queue s) = 2.
Proof.
  eexists. split; [reflexivity |]. cbv zeta. split; [vm_compute; reflexivity |]. split; [| vm_compute; reflexivity].
  refine (proj1 (log_queue_fifo 2 _ _ _ _ _)); [lia | reflexivity | vm_compute; reflexivity].
Defined.

(** A drain nobody interferes with delivers the oldest records, up to its limit. *)
Lemma drain_contents q n :
  queue_wf q -> let '(l, q') := ra_log_queue_drain q n in
  l = take n (contents q) /\ contents q' = drop n (contents q) /\ queue_wf q'.
Proof.
  revert q. induction n as [| n IH]; intros q Hq; cbn; [done |].
  pose proof (drain_one_spec q Hq) as Hd. destruct (drain_one q) as [item q']. destruct Hd as (Hq' & _ & Hc).
  destruct (contents q) as [| r l] eqn:Hcs.
  - destruct Hc as [-> ->]. done.
  - destruct Hc as [-> Hl]. specialize (IH q' Hq'). destruct (ra_log_queue_drain q' n) as [l2 q2].
    destruct IH as (-> & -> & Hq2). rewrite Hl. done.
Qed.
