(* ===== verification/Chain.v ===== *)
(** * Linked lists on a heap of nodes

    The heap a linked list occupies, built from the list of its addresses and
    values, for doubly linked nodes (list.c) and, when the node ignores its
    predecessor, singly linked ones (ringbuffer.c).  Equality with such a heap
    says what is stored, how it is linked, and that nothing else is allocated. *)

From S2P Require Import Prelude.

#[local] Open Scope Z_scope.

Section chain.
Context {V N : Type} (mk : V -> Z -> Z -> N).
Implicit Types (l : list (Z * V)) (p e : Z).

(** The address of the first node, [e] when there is none. *)
Definition start l e : Z := match l with [] => e | (a, _) :: _ => a end.
(** The address of the last node, [p] when there is none. *)
Fixpoint finish p l : Z := match l with [] => p | (a, _) :: l => finish a l end.

(** Nodes [mk value previous next] from a predecessor [p] to an end [e]. *)
Fixpoint chain p l e : gmap Z N :=
  match l with
  | [] => ∅
  | (a, v) :: l => <[a := mk v p (start l e)]> (chain a l e)
  end.

Lemma start_app l1 l2 e : start (l1 ++ l2) e = start l1 (start l2 e).
Proof. by destruct l1 as [| []]. Qed.

Lemma finish_app p l1 l2 : finish p (l1 ++ l2) = finish (finish p l1) l2.
Proof. revert p. induction l1 as [| [a v] l1 IH]; intros p; [done | apply IH]. Qed.

Lemma chain_app p l1 l2 e : chain p (l1 ++ l2) e = chain p l1 (start l2 e) ∪ chain (finish p l1) l2 e.
Proof.
  revert p. induction l1 as [| [a v] l1 IH]; intros p; cbn; [by rewrite map_empty_union |].
  by rewrite IH, insert_union_l, start_app.
Qed.

Lemma chain_none p l e a : a ∉ l.*1 -> chain p l e !! a = None.
Proof.
  revert p. induction l as [| [b v] l IH]; intros p; cbn; [by rewrite lookup_empty |].
  rewrite not_elem_of_cons. intros [Hab Hl]. rewrite lookup_insert_ne by done. by apply IH.
Qed.

Lemma chain_disjoint p1 l1 e1 p2 l2 e2 : NoDup (l1 ++ l2).*1 -> chain p1 l1 e1 ##ₘ chain p2 l2 e2.
Proof.
  rewrite fmap_app, NoDup_app. intros (_ & Hd & _). apply map_disjoint_spec. intros a n1 n2 H1 H2.
  destruct (decide (a ∈ l1.*1)) as [Hin | Hin]; [| by rewrite chain_none in H1].
  by rewrite chain_none in H2 by by apply Hd.
Qed.

Lemma chain_mid p l1 a v l2 e :
  NoDup (l1 ++ (a, v) :: l2).*1 -> chain p (l1 ++ (a, v) :: l2) e !! a = Some (mk v (finish p l1) (start l2 e)).
Proof.
  intros Hnd. rewrite chain_app. apply lookup_union_Some_r; [by apply chain_disjoint |]. cbn. by rewrite lookup_insert_eq.
Qed.

Lemma chain_delete p l1 a v l2 e :
  NoDup (l1 ++ (a, v) :: l2).*1 -> delete a (chain p (l1 ++ (a, v) :: l2) e) = chain p l1 a ∪ chain a l2 e.
Proof.
  rewrite fmap_app, NoDup_app. cbn. intros (_ & Hd & [Ha _]%NoDup_cons).
  rewrite chain_app. cbn. rewrite delete_union, delete_insert_id by by apply chain_none.
  f_equal. apply delete_id, chain_none. intros Hin. by apply (Hd _ Hin); left.
Qed.

(** Only the last node knows the end, only the first one the predecessor. *)
Lemma chain_end p l1 a v e e' :
  NoDup (l1 ++ [(a, v)]).*1 -> <[a := mk v (finish p l1) e']> (chain p (l1 ++ [(a, v)]) e) = chain p (l1 ++ [(a, v)]) e'.
Proof.
  intros Hnd. rewrite !chain_app. cbn. rewrite fmap_app, NoDup_app in Hnd. cbn in Hnd. destruct Hnd as (_ & Hd & _).
  rewrite insert_union_r; [by rewrite insert_insert_eq |]. apply chain_none. intros Hin. by apply (Hd _ Hin); left.
Qed.

Lemma chain_start p p' a v l e : <[a := mk v p' (start l e)]> (chain p ((a, v) :: l) e) = chain p' ((a, v) :: l) e.
Proof. cbn. by rewrite insert_insert_eq. Qed.

Lemma chain_size p l e : NoDup l.*1 -> size (chain p l e) = length l.
Proof.
  revert p. induction l as [| [a v] l IH]; intros p; cbn; [by rewrite map_size_empty |].
  intros [Ha Hl]%NoDup_cons. rewrite map_size_insert_None by by apply chain_none. by rewrite IH.
Qed.

Lemma chain_in p l e a n : chain p l e !! a = Some n -> a ∈ l.*1.
Proof. intros Ha. destruct (decide (a ∈ l.*1)) as [| Hn]; [done |]. by rewrite chain_none in Ha. Qed.

(** Nonempty lists end in a node. *)
Lemma finish_snoc p l : l = [] \/ exists l' a v, l = l' ++ [(a, v)] /\ finish p l = a.
Proof.
  destruct l as [| [a v] l' _] using rev_ind; [by left | right]. exists l', a, v. split; [done |]. by rewrite finish_app.
Qed.
End chain.
