(* ===== verification/RrList.v ===== *)
(** * Doubly linked lists (list.c)

    The list head is a pointer the caller owns; nodes live on a heap.  [None] is
    an access to a node that is not allocated, or a loop that does not end.

 *)

From S2P Require Import Prelude Chain.

#[local] Open Scope Z_scope.

(** [rrlist_t] *)
Record rrlist := RrList { ptr : Z; prev : Z; next : Z }.

(** The nodes, and the next address [calloc] returns. *)
Record nodes := Nodes { cells : gmap Z rrlist; fresh : Z }.

Definition LIST_TAIL : Z := 0.
Definition LIST_HEAD : Z := 1.

Definition set_prev (h : gmap Z rrlist) (a p : Z) : option (gmap Z rrlist) :=
  n ← h !! a; Some (<[a := RrList (ptr n) p (next n)]> h).
Definition set_next (h : gmap Z rrlist) (a p : Z) : option (gmap Z rrlist) :=
  n ← h !! a; Some (<[a := RrList (ptr n) (prev n) p]> h).

(** The loop of [rrlist_find_by_ptr]. *)
Fixpoint find_loop (fuel : nat) (h : gmap Z rrlist) (p want : Z) : option Z :=
  if p =? 0 then Some 0
  else
    match fuel with
    | O => None
    | S fuel => n ← h !! p; if ptr n =? want then Some p else find_loop fuel h (next n) want
    end.

Definition rrlist_find_by_ptr (s : nodes) (lst want : Z) : option Z :=
  if (lst =? 0) || (want =? 0) then Some 0 else find_loop (size (cells s)) (cells s) lst want.

(** The walk to the last node. *)
Fixpoint last_loop (fuel : nat) (h : gmap Z rrlist) (lp : Z) : option Z :=
  n ← h !! lp;
  if next n =? 0 then Some lp
  else match fuel with O => None | S fuel => last_loop fuel h (next n) end.

(** The new node or NULL, the heap and the list head. *)
Definition rrlist_add (o : allocs) (s : nodes) (lst p direction : Z) : option (Z * nodes * Z * allocs) :=
  if p =? 0 then Some (0, s, lst, o)
  else
    let '(ok, o) := alloc o in
    if negb ok then Some (0, s, lst, o)
    else
      let np := fresh s in
      let h := <[np := RrList p 0 0]> (cells s) in
      if lst =? 0 then Some (np, Nodes h (np + 1), np, o)
      else if direction =? LIST_HEAD then
        h ← set_next h np lst;
        h ← set_prev h lst np;
        Some (np, Nodes h (np + 1), np, o)
      else if direction =? LIST_TAIL then
        lp ← last_loop (size h) h lst;
        h ← set_next h lp np;
        h ← set_prev h np lp;
        Some (np, Nodes h (np + 1), lst, o)
      else Some (0, Nodes (delete np h) (np + 1), lst, o).

(** The node after the removed one, the heap and the list head. *)
Definition rrlist_remove (s : nodes) (lst lp : Z) : option (Z * nodes * Z) :=
  if (lst =? 0) || (lp =? 0) then Some (0, s, lst)
  else
    n ← cells s !! lp;
    h ← if prev n =? 0 then Some (cells s) else set_next (cells s) (prev n) (next n);
    n ← h !! lp;
    h ← if next n =? 0 then Some h else set_prev h (next n) (prev n);
    n ← h !! lp;
    Some (next n, Nodes (delete lp h) (fresh s), if lp =? lst then next n else lst).

Fixpoint destroy_loop (fuel : nat) (h : gmap Z rrlist) (p : Z) : option (gmap Z rrlist) :=
  if p =? 0 then Some h
  else
    match fuel with
    | O => None
    | S fuel => n ← h !! p; destroy_loop fuel (delete p h) (next n)
    end.

(** Always true; the head is NULL afterwards. *)
Definition rrlist_destroy (s : nodes) (lst : Z) : option (nodes * Z) :=
  h ← destroy_loop (size (cells s)) (cells s) lst; Some (Nodes h (fresh s), 0).

(** The heap holds exactly the nodes of the list [l] of addresses and pointers. *)
Record list_rep (s : nodes) (lst : Z) (l : list (Z * Z)) : Prop := {
  lr_cells : cells s = chain RrList 0 l 0;
  lr_head : lst = start l 0;
  lr_nodup : NoDup l.*1;
  lr_range : forall a, a ∈ l.*1 -> 0 < a < fresh s;
  lr_fresh : 0 < fresh s
}.

Lemma rep_size s lst l : list_rep s lst l -> size (cells s) = length l.
Proof. intros [-> _ Hnd _ _]. by apply chain_size. Qed.

Lemma rep_node s lst l1 a v l2 :
  list_rep s lst (l1 ++ (a, v) :: l2) ->
  cells s !! a = Some (RrList v (finish 0 l1) (start l2 0)) /\ a <> 0.
Proof.
  intros [Hc _ Hnd Hr _]. rewrite Hc, chain_mid by done. split; [done |].
  assert (Ha : a ∈ (l1 ++ (a, v) :: l2).*1) by (rewrite fmap_app; apply elem_of_app; right; left). apply Hr in Ha. lia.
Qed.

(** The address of the first node that holds [want]. *)
Fixpoint find_addr (l : list (Z * Z)) (want : Z) : Z :=
  match l with [] => 0 | (a, v) :: l => if v =? want then a else find_addr l want end.

Lemma find_loop_spec s lst l1 l2 want fuel :
  list_rep s lst (l1 ++ l2) -> (length l2 <= fuel)%nat ->
  find_loop fuel (cells s) (start l2 0) want = Some (find_addr l2 want).
Proof.
  revert l1 fuel. induction l2 as [| [a v] l2 IH]; intros l1 fuel Hr Hf; [by destruct fuel |].
  destruct (rep_node _ _ _ _ _ _ Hr) as [Hn Ha]. destruct fuel as [| fuel]; cbn [length] in Hf; [lia |]. cbn [find_loop start find_addr].
  rewrite (proj2 (Z.eqb_neq a 0)), Hn by done. cbn. destruct (v =? want); [done |].
  apply (IH (l1 ++ [(a, v)])); [by rewrite <- app_assoc | lia].
Qed.

Lemma find_spec s lst l want :
  list_rep s lst l -> want <> 0 -> rrlist_find_by_ptr s lst want = Some (find_addr l want).
Proof.
  intros Hr Hw. unfold rrlist_find_by_ptr. rewrite (proj2 (Z.eqb_neq want 0)), orb_false_r by done.
  rewrite (lr_head _ _ _ Hr). destruct (Z.eqb_spec (start l 0) 0) as [H0 | H0].
  - destruct l as [| [a v] l]; [done |]. destruct (rep_node _ _ [] _ _ _ Hr) as [_ Ha]. done.
  - apply (find_loop_spec s lst [] l); [done |]. by rewrite (rep_size _ _ _ Hr).
Qed.

Lemma last_loop_spec h p l1 a v l2 fuel :
  NoDup (l1 ++ (a, v) :: l2).*1 -> 0 ∉ (l1 ++ (a, v) :: l2).*1 -> (length l2 <= fuel)%nat ->
  (forall x, x ∈ (l1 ++ (a, v) :: l2).*1 -> h !! x = chain RrList p (l1 ++ (a, v) :: l2) 0 !! x) ->
  last_loop fuel h a = Some (finish a l2).
Proof.
  revert l1 a v fuel. induction l2 as [| [b w] l2 IH]; intros l1 a v fuel Hnd H0 Hf Hh.
  - assert (Ha : a ∈ (l1 ++ [(a, v)]).*1) by (rewrite fmap_app; apply elem_of_app; right; left).
    destruct fuel; cbn [last_loop]; rewrite Hh, chain_mid by done; done.
  - assert (Ha : a ∈ (l1 ++ (a, v) :: (b, w) :: l2).*1) by (rewrite fmap_app; apply elem_of_app; right; left).
    destruct fuel as [| fuel]; cbn [length] in Hf; [lia |]. cbn [last_loop]. rewrite Hh, chain_mid by done. cbn.
    assert (Hb : b <> 0) by (intros ->; apply H0; rewrite fmap_app; apply elem_of_app; right; right; left).
    rewrite (proj2 (Z.eqb_neq b 0)) by done.
    apply (IH (l1 ++ [(a, v)]) b w); [| | lia |]; by rewrite <- app_assoc.
Qed.

Lemma fresh_not_in s lst l : list_rep s lst l -> fresh s ∉ l.*1.
Proof. intros Hr Hin. apply (lr_range _ _ _ Hr) in Hin. lia. Qed.

Lemma rep_nonnull s lst l : list_rep s lst l -> 0 ∉ l.*1.
Proof. intros Hr Hin. apply (lr_range _ _ _ Hr) in Hin. lia. Qed.

Lemma add_head_spec s lst l v :
  list_rep s lst l -> v <> 0 ->
  exists s' a, rrlist_add [] s lst v LIST_HEAD = Some (a, s', a, []) /\ list_rep s' a ((a, v) :: l).
Proof.
  intros Hr Hv. pose proof (fresh_not_in _ _ _ Hr) as Hfr. pose proof (lr_fresh _ _ _ Hr).
  assert (Hrep : forall h, h = chain RrList 0 ((fresh s, v) :: l) 0 ->
    list_rep (Nodes h (fresh s + 1)) (fresh s) ((fresh s, v) :: l)).
  { intros h ->. split; cbn [cells fresh]; [done | done | by apply NoDup_cons; split; [| apply Hr] | | lia].
    cbn. intros a [-> | Ha]%elem_of_cons; [lia |]. apply (lr_range _ _ _ Hr) in Ha. lia. }
  unfold rrlist_add. rewrite (proj2 (Z.eqb_neq v 0)) by done. cbn [alloc negb].
  pose proof (lr_head _ _ _ Hr) as Hhd. destruct l as [| [a w] l].
  - subst lst. cbn [start Z.eqb]. do 2 eexists. split; [done |]. apply Hrep. by rewrite (lr_cells _ _ _ Hr).
  - cbn in Hhd. subst a. destruct (rep_node _ _ [] _ _ _ Hr) as [Hn Ha]. rewrite (proj2 (Z.eqb_neq lst 0)) by done.
    assert (Hne : fresh s <> lst) by (intros Heq; apply Hfr; rewrite Heq; left).
    cbn [Z.eqb LIST_HEAD Pos.eqb]. unfold set_next, set_prev. rewrite lookup_insert_eq. cbn [mbind option_bind ptr prev].
    rewrite !lookup_insert_ne, Hn by done. cbn [mbind option_bind ptr next]. do 2 eexists. split; [done |]. apply Hrep.
    rewrite insert_insert_eq, insert_insert_ne by done. cbn [chain start]. f_equal.
    rewrite (lr_cells _ _ _ Hr). apply (chain_start RrList).
Qed.

Lemma add_tail_spec s lst l v :
  list_rep s lst l -> v <> 0 ->
  exists s' lst' a, rrlist_add [] s lst v LIST_TAIL = Some (a, s', lst', []) /\ a <> 0 /\ list_rep s' lst' (l ++ [(a, v)]).
Proof.
  intros Hr Hv. pose proof (fresh_not_in _ _ _ Hr) as Hfr. pose proof (lr_fresh _ _ _ Hr).
  assert (Hnd : NoDup (l ++ [(fresh s, v)]).*1).
  { rewrite fmap_app. apply NoDup_app. split; [apply Hr |]. split; [| apply NoDup_singleton].
    intros a Ha ->%list_elem_of_singleton. done. }
  assert (Hrep : forall h lst', h = chain RrList 0 (l ++ [(fresh s, v)]) 0 -> lst' = start l (fresh s) ->
    list_rep (Nodes h (fresh s + 1)) lst' (l ++ [(fresh s, v)])).
  { intros h lst' -> ->. split; cbn [cells fresh]; [done | by rewrite start_app | done | | lia].
    rewrite fmap_app. intros a [Ha | ->%list_elem_of_singleton]%elem_of_app; [| cbn; lia].
    apply (lr_range _ _ _ Hr) in Ha. lia. }
  unfold rrlist_add. rewrite (proj2 (Z.eqb_neq v 0)) by done. cbn [alloc negb].
  pose proof (lr_head _ _ _ Hr) as Hhd. destruct (finish_snoc 0 l) as [-> | (l' & b & w & -> & Hb)].
  - subst lst. cbn [start Z.eqb]. do 3 eexists. split; [done |]. split; [lia |]. apply Hrep; [| done]. by rewrite (lr_cells _ _ _ Hr).
  - pose proof Hr as [Hc _ Hnd' Hrg _]. destruct (rep_node _ _ _ _ _ _ Hr) as [Hn Hb0]. pose proof (rep_nonnull _ _ _ Hr) as H0.
    assert (Hl0 : lst <> 0).
    { rewrite Hhd. intros Hz. destruct l' as [| [c u] l']; cbn in Hz; [done |].
      destruct (rep_node _ _ [] _ _ _ Hr) as [_ Hc0]. done. }
    rewrite (proj2 (Z.eqb_neq lst 0)) by done. change (LIST_TAIL =? LIST_HEAD) with false. change (LIST_TAIL =? LIST_TAIL) with true.
    cbv iota.
    set (h := <[fresh s := RrList v 0 0]> (cells s)).
    assert (Hh : forall x, x ∈ (l' ++ [(b, w)]).*1 -> h !! x = chain RrList 0 (l' ++ [(b, w)]) 0 !! x).
    { intros x Hx. unfold h. rewrite lookup_insert_ne, Hc; [done |]. by intros <-. }
    assert (Hlast : last_loop (size h) h lst = Some b).
    { assert (Hsz : size h = S (length (l' ++ [(b, w)]))).
      { unfold h. rewrite map_size_insert_None, (rep_size _ _ _ Hr); [done |]. rewrite Hc. by apply chain_none. }
      rewrite Hhd. destruct l' as [| [c u] l']; cbn [start app].
      - by apply (last_loop_spec h 0 [] b w []); [done | done | cbn; lia |].
      - rewrite (last_loop_spec h 0 [] c u (l' ++ [(b, w)])); [by rewrite finish_app | done | done | | done].
        rewrite Hsz. cbn [length app]. lia. }
    rewrite Hlast. cbn [mbind option_bind]. assert (Hbf : b <> fresh s).
    { intros ->. apply Hfr. rewrite fmap_app. apply elem_of_app. right. left. }
    unfold set_next, set_prev, h. rewrite (lookup_insert_ne _ (fresh s) b), Hn by done. cbn [mbind option_bind ptr prev].
    rewrite lookup_insert_ne, lookup_insert_eq by done. cbn [mbind option_bind ptr next]. do 3 eexists. split; [done |].
    split; [lia |]. apply Hrep.
    + rewrite insert_insert_ne, insert_insert_eq, (insert_insert_ne _ b) by done.
      rewrite Hc, (chain_end RrList) by done. rewrite (chain_app RrList 0 (l' ++ [(b, w)]) [(fresh s, v)]). cbn [start chain].
      rewrite finish_app. cbn [finish]. rewrite <- insert_union_r, map_union_empty; [done |].
      by apply chain_none.
    + rewrite Hhd. by destruct l' as [| []].
Qed.

(** Redirecting the last node before a gap, and the first one after it. *)
Lemma relink_left l1 e e' R :
  NoDup l1.*1 -> 0 ∉ l1.*1 ->
  (if finish 0 l1 =? 0 then Some (chain RrList 0 l1 e ∪ R) else set_next (chain RrList 0 l1 e ∪ R) (finish 0 l1) e') =
    Some (chain RrList 0 l1 e' ∪ R).
Proof.
  intros Hnd H0. destruct (finish_snoc 0 l1) as [-> | (l' & b & w & -> & Hb)]; [done |]. rewrite Hb.
  assert (Hb0 : b <> 0) by (intros ->; apply H0; rewrite fmap_app; apply elem_of_app; right; left).
  rewrite (proj2 (Z.eqb_neq b 0)) by done. unfold set_next.
  rewrite (lookup_union_Some_l _ _ _ _ (chain_mid RrList 0 l' b w [] e Hnd)). cbn.
  by rewrite insert_union_l, (chain_end RrList).
Qed.

Lemma relink_right L l2 p p' a n :
  0 ∉ l2.*1 -> (forall x, x ∈ l2.*1 -> L !! x = None /\ x <> a) ->
  (if start l2 0 =? 0 then Some (L ∪ <[a := n]> (chain RrList p l2 0))
   else set_prev (L ∪ <[a := n]> (chain RrList p l2 0)) (start l2 0) p') =
    Some (L ∪ <[a := n]> (chain RrList p' l2 0)).
Proof.
  intros H0 HL. destruct l2 as [| [c u] l2]; [done |]. cbn [start].
  assert (Hc0 : c <> 0) by (intros ->; apply H0; left). destruct (HL c) as [Hc Hca]; [left |].
  rewrite (proj2 (Z.eqb_neq c 0)) by done. unfold set_prev. rewrite lookup_union_r, lookup_insert_ne by done.
  cbn [chain]. rewrite lookup_insert_eq. cbn [mbind option_bind ptr next].
  by rewrite insert_union_r, insert_insert_ne, insert_insert_eq by done.
Qed.

Lemma remove_spec s lst l1 a v l2 :
  list_rep s lst (l1 ++ (a, v) :: l2) ->
  exists s' lst', rrlist_remove s lst a = Some (start l2 0, s', lst') /\ list_rep s' lst' (l1 ++ l2).
Proof.
  intros Hr. pose proof Hr as [Hc Hhd Hnd Hrg Hf]. destruct (rep_node _ _ _ _ _ _ Hr) as [Hn Ha].
  pose proof (rep_nonnull _ _ _ Hr) as H0. rewrite fmap_app, fmap_cons in H0, Hnd. apply not_elem_of_app in H0 as [H01 H02].
  apply not_elem_of_cons in H02 as [_ H02]. apply NoDup_app in Hnd as (Hnd1 & Hdis & [Hal2 Hnd2]%NoDup_cons).
  assert (Hal1 : a ∉ l1.*1) by (intros Hin; by apply (Hdis _ Hin); left).
  assert (Hl0 : lst <> 0).
  { rewrite Hhd. destruct l1 as [| [b w] l1]; cbn; [done |]. intros ->. apply H01. left. }
  unfold rrlist_remove. rewrite (proj2 (Z.eqb_neq lst 0)), (proj2 (Z.eqb_neq a 0)) by done. cbn [orb].
  set (n := RrList v (finish 0 l1) (start l2 0)) in *. rewrite Hn. cbn [mbind option_bind prev next n].
  assert (Hsplit : cells s = chain RrList 0 l1 a ∪ <[a := n]> (chain RrList a l2 0)) by (rewrite Hc, chain_app; done).
  assert (Hat : forall A E : gmap Z rrlist, A !! a = None -> (A ∪ <[a := n]> E) !! a = Some n).
  { intros A E HA. by rewrite lookup_union_r, lookup_insert_eq. }
  rewrite Hsplit, (relink_left l1 a (start l2 0)) by done. cbn [mbind option_bind].
  rewrite Hat by by apply chain_none. cbn [mbind option_bind prev next n].
  rewrite (relink_right _ l2 a (finish 0 l1)); [| done |].
  2:{ intros x Hx. split; [apply chain_none; intros Hx1; by apply (Hdis _ Hx1); right | by intros ->]. }
  cbn [mbind option_bind]. rewrite Hat by by apply chain_none. cbn [mbind option_bind next n].
  do 2 eexists. split; [done |]. split; cbn [cells fresh].
  - rewrite delete_union, delete_insert_id by by apply chain_none. rewrite delete_id by by apply chain_none.
    by rewrite (chain_app RrList 0 l1 l2).
  - rewrite start_app. destruct l1 as [| [b w] l1]; cbn [start]; cbn in Hhd; subst lst; [by rewrite Z.eqb_refl |].
    rewrite (proj2 (Z.eqb_neq a b)); [done |]. intros ->. apply Hal1. left.
  - rewrite fmap_app. apply NoDup_app. split; [done |]. split; [| done]. intros x Hx1 Hx2. apply (Hdis _ Hx1). by right.
  - intros x Hx. apply Hrg. rewrite fmap_app in Hx |- *. apply elem_of_app in Hx as [Hx | Hx]; apply elem_of_app; [by left |].
    right. by right.
  - done.
Qed.

Lemma list_destroy_spec s lst l : list_rep s lst l -> rrlist_destroy s lst = Some (Nodes ∅ (fresh s), 0).
Proof.
  intros Hr. unfold rrlist_destroy. rewrite (rep_size _ _ _ Hr). pose proof Hr as [Hc Hhd Hnd _ _].
  pose proof (rep_nonnull _ _ _ Hr) as H0. rewrite Hc, Hhd. clear Hr Hc Hhd.
  cut (forall p, destroy_loop (length l) (chain RrList p l 0) (start l 0) = Some ∅).
  { intros Hd. by rewrite Hd. }
  induction l as [| [a v] l IH]; intros p; [done |]. cbn in H0, Hnd. apply NoDup_cons in Hnd as [Ha Hnd].
  apply not_elem_of_cons in H0 as [Ha0 H0]. cbn [length destroy_loop start chain].
  rewrite (proj2 (Z.eqb_neq a 0)), lookup_insert_eq by done. cbn [mbind option_bind next].
  rewrite delete_insert_id by by apply chain_none. by apply IH.
Qed.

(** ** Sequences of operations *)

(** What callers do with a list: they remove a pointer by finding its node first. *)
Inductive list_op :=
| AddHead (p : Z)
| AddTail (p : Z)
| RemovePtr (p : Z).

Definition list_step (sl : nodes * Z) (op : list_op) : option (nodes * Z) :=
  let '(s, lst) := sl in
  match op with
  | AddHead p => '(_, s, lst, _) ← rrlist_add [] s lst p LIST_HEAD; Some (s, lst)
  | AddTail p => '(_, s, lst, _) ← rrlist_add [] s lst p LIST_TAIL; Some (s, lst)
  | RemovePtr p =>
      lp ← rrlist_find_by_ptr s lst p;
      '(_, s, lst) ← rrlist_remove s lst lp;
      Some (s, lst)
  end.

Fixpoint list_run (sl : nodes * Z) (ops : list list_op) : option (nodes * Z) :=
  match ops with
  | [] => Some sl
  | op :: ops => sl ← list_step sl op; list_run sl ops
  end.

Fixpoint remove_one (p : Z) (l : list Z) : list Z :=
  match l with [] => [] | x :: l => if x =? p then l else x :: remove_one p l end.

(** The sequence of pointers the operations describe; NULL is never stored. *)
Definition seq_step (l : list Z) (op : list_op) : list Z :=
  match op with
  | AddHead p => if p =? 0 then l else p :: l
  | AddTail p => if p =? 0 then l else l ++ [p]
  | RemovePtr p => if p =? 0 then l else remove_one p l
  end.

(** Where the first node with [p] is, if anywhere. *)
Lemma find_split l p :
  (find_addr l p = 0 /\ remove_one p l.*2 = l.*2) \/
  (exists l1 a l2, l = l1 ++ (a, p) :: l2 /\ find_addr l p = a /\ remove_one p l.*2 = (l1 ++ l2).*2).
Proof.
  induction l as [| [a v] l IH]; [by left |]. cbn. destruct (Z.eqb_spec v p) as [-> | Hne].
  - right. by exists [], a, l.
  - destruct IH as [[H1 H2] | (l1 & b & l2 & -> & H2 & H3)]; [left | right].
    + split; [done | by rewrite H2].
    + exists ((a, v) :: l1), b, l2. split; [done |]. split; [done |]. cbn. by rewrite H3.
Qed.

Lemma list_step_rep s lst l op :
  list_rep s lst l ->
  exists s' lst' l', list_step (s, lst) op = Some (s', lst') /\ list_rep s' lst' l' /\ l'.*2 = seq_step l.*2 op.
Proof.
  intros Hr. destruct op as [p | p | p]; cbn [list_step seq_step]; destruct (Z.eqb_spec p 0) as [-> | Hp].
  - exists s, lst, l. by split.
  - destruct (add_head_spec s lst l p Hr Hp) as (s' & a & -> & Hr'). by eexists s', a, _.
  - exists s, lst, l. by split.
  - destruct (add_tail_spec s lst l p Hr Hp) as (s' & lst' & a & -> & _ & Hr'). eexists s', lst', _.
    split; [done |]. split; [exact Hr' |]. by rewrite fmap_app.
  - unfold rrlist_find_by_ptr. rewrite orb_true_r. cbn [mbind option_bind]. unfold rrlist_remove. rewrite orb_true_r.
    exists s, lst, l. by split.
  - rewrite (find_spec s lst l p Hr Hp). cbn [mbind option_bind].
    destruct (find_split l p) as [[-> ->] | (l1 & a & l2 & -> & -> & ->)].
    + unfold rrlist_remove. rewrite orb_true_r. exists s, lst, l. by split.
    + destruct (remove_spec s lst l1 a p l2 Hr) as (s' & lst' & -> & Hr'). by eexists s', lst', _.
Qed.

(** Any sequence of insertions at either end and removals by pointer runs
    without touching a node that is not allocated, and leaves a doubly linked
    list of exactly the pointers the same sequence leaves in a list, in order,
    with no other node on the heap; destroying it then frees every node. *)
Theorem rrlist_refines_seq (ops : list list_op) :
  exists s lst l, list_run (Nodes ∅ 1, 0) ops = Some (s, lst) /\ list_rep s lst l /\
    l.*2 = fold_left seq_step ops [] /\ rrlist_destroy s lst = Some (Nodes ∅ (fresh s), 0).
Proof.
  assert (Hrun : forall ops s lst l, list_rep s lst l -> exists s' lst' l',
    list_run (s, lst) ops = Some (s', lst') /\ list_rep s' lst' l' /\ l'.*2 = fold_left seq_step ops l.*2).
  { clear ops. induction ops as [| op ops IH]; intros s lst l Hr; [by exists s, lst, l |]. cbn [list_run fold_left].
    destruct (list_step_rep s lst l op Hr) as (s1 & lst1 & l1 & -> & Hr1 & <-). by apply IH. }
  destruct (Hrun ops (Nodes ∅ 1) 0 []) as (s & lst & l & Hr & Hrep & Hl).
  { split; cbn; [done | done | constructor | by intros a ?%elem_of_nil | done]. }
  exists s, lst, l. split_and!; [done | done | done |]. by eapply list_destroy_spec.
Qed.
