(* ===== verification/RingBuffer.v ===== *)
(** * The ring buffer (ringbuffer.c)

    A singly linked FIFO of caller-owned pointers with time stamps, bounded by
    dropping its oldest node.  [None] is an access to a node that is not
    allocated.  Running out of memory ends the process and is not modelled.

 *)

From S2P Require Import Prelude Chain.

#[local] Open Scope Z_scope.

(** What a node carries: pointer, whether the buffer frees it, and the reading
    of CLOCK_MONOTONIC in nanoseconds. *)
Record rb_item := RbItem { data : Z; needs_freed : bool; timestamp : Z }.
Record rb_node := RbNode { rb_value : rb_item; rb_next : Z }.

(** The nodes and the next address of [malloc]; [freed] are the data pointers
    the buffer passed to [free], in order. *)
Record rb_heap := RbHeap { rb_cells : gmap Z rb_node; rb_fresh : Z; freed : list Z }.

Record rb_buffer := RbBuffer { max_size : Z; current_size : Z; rb_head : Z; rb_tail : Z; rb_name : bstr }.

(** [max_size] is converted from [int] to [size_t]; the bound on the name is the
    size of the pointer it is stored in. *)
Definition rb_create (max : Z) (name : option bstr) : rb_buffer :=
  RbBuffer (u64 max) 0 0 0 (take 8 (default [] name)).

Definition drop_data (h : rb_heap) (it : rb_item) : list Z :=
  if needs_freed it && negb (data it =? 0) then freed h ++ [data it] else freed h.

(** Unlinking the oldest node of a full buffer. *)
Definition drop_head (h : rb_heap) (b : rb_buffer) : option (rb_heap * rb_buffer) :=
  n ← rb_cells h !! rb_head b;
  Some (RbHeap (delete (rb_head b) (rb_cells h)) (rb_fresh h) (drop_data h (rb_value n)),
        RbBuffer (max_size b) (u64 (current_size b - 1)) (rb_next n) (rb_tail b) (rb_name b)).

(** The address of the new node. *)
Definition rb_add (h : rb_heap) (b : rb_buffer) (it : rb_item) : option (Z * rb_heap * rb_buffer) :=
  let node := rb_fresh h in
  let h := RbHeap (<[node := RbNode it 0]> (rb_cells h)) (node + 1) (freed h) in
  if current_size b =? 0 then
    Some (node, h, RbBuffer (max_size b) (u64 (current_size b + 1)) node node (rb_name b))
  else
    '(h, b) ← if current_size b =? max_size b then drop_head h b else Some (h, b);
    t ← rb_cells h !! rb_tail b;
    Some (node, RbHeap (<[rb_tail b := RbNode (rb_value t) node]> (rb_cells h)) (rb_fresh h) (freed h),
          RbBuffer (max_size b) (u64 (current_size b + 1)) (rb_head b) node (rb_name b)).

(** The walk of [rb_get_most_recent]: the first node with the greatest time stamp. *)
Fixpoint recent_loop (fuel : nat) (h : gmap Z rb_node) (current latest : Z) : option Z :=
  if current =? 0 then Some latest
  else
    match fuel with
    | O => None
    | S fuel =>
        n ← h !! current;
        m ← h !! latest;
        recent_loop fuel h (rb_next n)
          (if timestamp (rb_value m) <? timestamp (rb_value n) then current else latest)
    end.

Definition rb_get_most_recent (h : rb_heap) (b : option rb_buffer) : option Z :=
  match b with
  | None => Some 0
  | Some b =>
      if current_size b =? 0 then Some 0 else recent_loop (size (rb_cells h)) (rb_cells h) (rb_head b) (rb_head b)
  end.

Fixpoint skip_nodes (n : nat) (h : gmap Z rb_node) (current : Z) : option Z :=
  match n with O => Some current | S n => c ← h !! current; skip_nodes n h (rb_next c) end.

Fixpoint copy_nodes (n : nat) (h : gmap Z rb_node) (current : Z) : option (list Z) :=
  match n with
  | O => Some []
  | S n => c ← h !! current; l ← copy_nodes n h (rb_next c); Some (data (rb_value c) :: l)
  end.

(** [Some None] is the NULL result.  [start + count] is an [int] addition. *)
Definition rb_get_range (h : rb_heap) (b : rb_buffer) (start count : Z) : option (option (list Z)) :=
  if current_size b =? 0 then Some None
  else if (start <? 0) || (current_size b <=? start) then Some None
  else if (count <? 1) || (current_size b <? u64 (i32 (start + count))) then Some None
  else
    p ← skip_nodes (Z.to_nat start) (rb_cells h) (rb_head b);
    l ← copy_nodes (Z.to_nat count) (rb_cells h) p;
    Some (Some l).

(** Frees the nodes and the data the buffer owns. *)
Fixpoint destroy_nodes (fuel : nat) (h : rb_heap) (current : Z) : option rb_heap :=
  if current =? 0 then Some h
  else
    match fuel with
    | O => None
    | S fuel =>
        n ← rb_cells h !! current;
        destroy_nodes fuel (RbHeap (delete current (rb_cells h)) (rb_fresh h) (drop_data h (rb_value n))) (rb_next n)
    end.

Definition rb_destroy (h : rb_heap) (b : rb_buffer) : option rb_heap := destroy_nodes (size (rb_cells h)) h (rb_head b).

(** Adding items one after the other. *)
Fixpoint rb_adds (h : rb_heap) (b : rb_buffer) (items : list rb_item) : option (rb_heap * rb_buffer) :=
  match items with
  | [] => Some (h, b)
  | it :: items => '(_, h, b) ← rb_add h b it; rb_adds h b items
  end.

Abbreviation cells_of := (chain (fun it (_ next : Z) => RbNode it next)).

(** The heap holds exactly the nodes of [l], addresses and items. *)
Record ring_rep (h : rb_heap) (b : rb_buffer) (l : list (Z * rb_item)) : Prop := {
  rr_cells : rb_cells h = cells_of 0 l 0;
  rr_head : rb_head b = start l 0;
  rr_tail : l <> [] -> rb_tail b = finish 0 l;
  rr_size : current_size b = Z.of_nat (length l);
  rr_small : Z.of_nat (length l) < 2 ^ 63;
  rr_nodup : NoDup l.*1;
  rr_range : forall a, a ∈ l.*1 -> 0 < a < rb_fresh h;
  rr_fresh : 0 < rb_fresh h
}.

(** What [free] is called on for a list of dropped items. *)
Definition freed_by (l : list rb_item) : list Z := data <$> base.filter (fun it => needs_freed it = true /\ data it <> 0) l.

Lemma drop_data_freed h it : drop_data h it = freed h ++ freed_by [it].
Proof.
  unfold drop_data, freed_by. rewrite filter_cons. destruct (needs_freed it), (Z.eqb_spec (data it) 0); cbn.
  - rewrite decide_False by naive_solver. by rewrite app_nil_r.
  - by rewrite decide_True.
  - rewrite decide_False by naive_solver. by rewrite app_nil_r.
  - rewrite decide_False by naive_solver. by rewrite app_nil_r.
Qed.

(** Linking a new node behind the last one. *)
Lemma link_last l a it n :
  NoDup (l ++ [(n, it)]).*1 -> l <> [] -> a = finish 0 l ->
  exists v, (<[n := RbNode it 0]> (cells_of 0 l 0)) !! a = Some (RbNode v 0) /\
    <[a := RbNode v n]> (<[n := RbNode it 0]> (cells_of 0 l 0)) = cells_of 0 (l ++ [(n, it)]) 0.
Proof.
  intros Hnd Hl ->. destruct (finish_snoc 0 l) as [-> | (l' & b & w & -> & Hb)]; [done |]. rewrite Hb.
  rewrite fmap_app in Hnd. apply NoDup_app in Hnd as (Hnd & Hdis & _).
  assert (Hbn : b <> n).
  { intros ->. apply (Hdis n); [rewrite fmap_app; apply elem_of_app; right; left | left]. }
  exists w. rewrite lookup_insert_ne, chain_mid by done. split; [done |].
  rewrite insert_insert_ne by done.
  rewrite (chain_end (fun it (_ next : Z) => RbNode it next) 0 l' b w 0 n) by done.
  rewrite (chain_app _ 0 (l' ++ [(b, w)]) [(n, it)]). cbn [start chain].
  rewrite <- insert_union_r, map_union_empty; [done |]. apply chain_none. intros Hin. by apply (Hdis _ Hin); left.
Qed.

Lemma rep_fresh_notin h b l : ring_rep h b l -> rb_fresh h ∉ l.*1.
Proof. intros Hr Hin. apply (rr_range _ _ _ Hr) in Hin. lia. Qed.

(** A buffer that is not full grows. *)
Lemma add_grows h b l it :
  ring_rep h b l -> current_size b <> max_size b \/ l = [] -> Z.of_nat (length l) + 1 < 2 ^ 63 ->
  exists h' b' a, rb_add h b it = Some (a, h', b') /\ ring_rep h' b' (l ++ [(a, it)]) /\
    max_size b' = max_size b /\ freed h' = freed h.
Proof.
  intros Hr Hsz Hbig. pose proof Hr as [Hc Hh Ht Hs Hsm Hnd Hrg Hf]. pose proof (rep_fresh_notin _ _ _ Hr) as Hfr.
  assert (Hnd' : NoDup (l ++ [(rb_fresh h, it)]).*1).
  { rewrite fmap_app. apply NoDup_app. split; [done |]. split; [| apply NoDup_singleton]. by intros x Hx ->%list_elem_of_singleton. }
  assert (Hrg' : forall a, a ∈ (l ++ [(rb_fresh h, it)]).*1 -> 0 < a < rb_fresh h + 1).
  { rewrite fmap_app. intros a [Ha | ->%list_elem_of_singleton]%elem_of_app; [apply Hrg in Ha |]; cbn; lia. }
  assert (Hu : u64 (current_size b + 1) = Z.of_nat (length (l ++ [(rb_fresh h, it)]))).
  { rewrite length_app, Hs. cbn. unfold u64. rewrite Z.mod_small; lia. }
  unfold rb_add. destruct (Z.eqb_spec (current_size b) 0) as [H0 | H0].
  - assert (l = []) as -> by (apply length_zero_iff_nil; lia).
    do 3 eexists. split; [done |]. split; [| done].
    split; cbn [rb_cells rb_head rb_tail current_size rb_fresh]; [by rewrite Hc | done | done | done | cbn; lia | done | done | lia].
  - assert (Hl : l <> []) by (intros ->; cbn in Hs; lia). destruct Hsz as [Hsz | ?]; [| done].
    rewrite (proj2 (Z.eqb_neq _ _)) by done. cbn [mbind option_bind rb_cells rb_tail].
    destruct (link_last l (rb_tail b) it (rb_fresh h) Hnd' Hl (Ht Hl)) as (v & Hv & Hins).
    rewrite Hc, Hv. cbn [mbind option_bind rb_value]. do 3 eexists. split; [done |]. split; [| done].
    split; cbn [rb_cells rb_head rb_tail current_size rb_fresh]; [done | | | done | | done | done | lia].
    + rewrite start_app, Hh. by destruct l as [| []].
    + intros _. by rewrite finish_app.
    + rewrite length_app. cbn. lia.
Qed.

(** A full one of at least two drops its oldest item. *)
Lemma add_drops h b x l it :
  ring_rep h b (x :: l) -> l <> [] -> current_size b = max_size b ->
  exists h' b' a, rb_add h b it = Some (a, h', b') /\ ring_rep h' b' (l ++ [(a, it)]) /\
    max_size b' = max_size b /\ freed h' = freed h ++ freed_by [x.2].
Proof.
  intros Hr Hl Hfull. pose proof Hr as [Hc Hh Ht Hs Hsm Hnd Hrg Hf]. pose proof (rep_fresh_notin _ _ _ Hr) as Hfr.
  destruct x as [a0 it0]. cbn in Hnd, Hfr. apply NoDup_cons in Hnd as [Ha0 Hnd]. apply not_elem_of_cons in Hfr as [Hfa Hfr].
  specialize (Ht ltac:(done)). cbn [start finish] in Hh, Ht. cbn [length] in Hs, Hsm.
  assert (Hnd' : NoDup (l ++ [(rb_fresh h, it)]).*1).
  { rewrite fmap_app. apply NoDup_app. split; [done |]. split; [| apply NoDup_singleton]. by intros x Hx ->%list_elem_of_singleton. }
  assert (Hrg' : forall a, a ∈ (l ++ [(rb_fresh h, it)]).*1 -> 0 < a < rb_fresh h + 1).
  { rewrite fmap_app. intros a [Ha | ->%list_elem_of_singleton]%elem_of_app; [| cbn; lia].
    assert (0 < a < rb_fresh h) by (apply Hrg; by right). lia. }
  unfold rb_add. rewrite (proj2 (Z.eqb_neq _ 0)), (proj2 (Z.eqb_eq _ _) Hfull) by lia.
  unfold drop_head. cbn [rb_cells rb_fresh freed]. rewrite Hh, lookup_insert_ne by done. rewrite Hc. cbn [chain].
  rewrite lookup_insert_eq. cbn [mbind option_bind rb_next rb_value rb_cells rb_tail].
  rewrite delete_insert_ne, delete_insert_id by (try done; by apply chain_none).
  assert (Hchain : forall p, cells_of p l 0 = cells_of 0 l 0) by (intros p; by destruct l as [| []]).
  rewrite Hchain.
  destruct (link_last l (rb_tail b) it (rb_fresh h) Hnd' Hl) as (v & Hv & Hins).
  { rewrite Ht. by destruct l as [| []]. }
  rewrite Hv. cbn [mbind option_bind rb_value rb_fresh freed max_size current_size rb_head rb_name].
  do 3 eexists. split; [done |]. split; [| split; [done |]; cbn [freed snd]; by rewrite drop_data_freed].
  split; cbn [rb_cells rb_head rb_tail current_size rb_fresh]; [done | | | | | done | done | lia].
  - rewrite start_app. by destruct l as [| []].
  - intros _. by rewrite finish_app.
  - rewrite Hs, length_app. cbn [length]. unfold u64. rewrite (Z.mod_small (_ - 1)) by lia. rewrite Z.mod_small; lia.
  - rewrite length_app. cbn. lia.
Qed.

(** ** Runs *)

(** The items a buffer of [m] keeps of a sequence, and those it dropped. *)
Definition kept (m : nat) (items : list rb_item) : list rb_item := drop (length items - m) items.
Definition lost (m : nat) (items : list rb_item) : list rb_item := take (length items - m) items.

Definition new_heap : rb_heap := RbHeap ∅ 1 [].

Lemma new_rep max name : ring_rep new_heap (rb_create max name) [].
Proof. split; cbn; try done; [constructor | by intros a ?%elem_of_nil]. Qed.

Lemma freed_by_app l l' : freed_by (l ++ l') = freed_by l ++ freed_by l'.
Proof. unfold freed_by. by rewrite filter_app, fmap_app. Qed.

Lemma kept_snoc_room m items it : (length items < m)%nat -> kept m (items ++ [it]) = kept m items ++ [it] /\ lost m (items ++ [it]) = lost m items.
Proof.
  intros Hl. unfold kept, lost. rewrite length_app. cbn [length].
  replace (length items + 1 - m)%nat with 0%nat by lia. by replace (length items - m)%nat with 0%nat by lia.
Qed.

Lemma kept_snoc_full m items it x l :
  (m <= length items)%nat -> kept m items = x :: l ->
  kept m (items ++ [it]) = l ++ [it] /\ lost m (items ++ [it]) = lost m items ++ [x].
Proof.
  unfold kept, lost. intros Hl Hk. assert (Hx : items !! (length items - m)%nat = Some x).
  { pose proof (lookup_drop items (length items - m) 0) as Hd. rewrite Hk, Nat.add_0_r in Hd. by rewrite <- Hd. }
  pose proof (lookup_lt_Some _ _ _ Hx) as Hlt. rewrite length_app. cbn [length].
  replace (length items + 1 - m)%nat with (S (length items - m)) by lia.
  rewrite (take_app_le items [it]), (drop_app_le items [it]) by lia. split.
  - f_equal. rewrite <- Nat.add_1_r, <- drop_drop, Hk. done.
  - by apply take_S_r.
Qed.

(** The state after some items. *)
Record keeps (m : nat) (h : rb_heap) (b : rb_buffer) (items : list rb_item) : Prop := {
  ks_rep : exists l, ring_rep h b l /\ l.*2 = kept m items;
  ks_max : max_size b = Z.of_nat m;
  ks_freed : freed h = freed_by (lost m items)
}.

Lemma add_keeps m h b items it :
  (2 <= m)%nat -> Z.of_nat m < 2 ^ 31 -> keeps m h b items ->
  exists a h' b', rb_add h b it = Some (a, h', b') /\ keeps m h' b' (items ++ [it]).
Proof.
  intros Hm Hmax [(l & Hr & Hl) Hsz Hfr]. pose proof (rr_size _ _ _ Hr) as Hs.
  assert (Hlen : length l = (length items - (length items - m))%nat).
  { rewrite <- (length_fmap snd), Hl. unfold kept. by rewrite length_drop. }
  destruct (decide (length items < m)%nat) as [Hroom | Hfull].
  - destruct (kept_snoc_room m items it Hroom) as [Hk Hlo].
    destruct (add_grows h b l it Hr) as (h' & b' & a & Ha & Hr' & Hm' & Hf'); [left; lia | lia |].
    exists a, h', b'. split; [done |]. split; [eexists; split; [done |] | congruence | congruence].
    by rewrite fmap_app, Hl, Hk.
  - destruct l as [| x l]; [cbn in Hlen; lia |]. destruct l as [| y l]; [cbn in Hlen; lia |].
    destruct (kept_snoc_full m items it x.2 (y :: l).*2) as [Hk Hlo]; [lia | by rewrite <- Hl |].
    destruct (add_drops h b x (y :: l) it Hr) as (h' & b' & a & Ha & Hr' & Hm' & Hf'); [done | lia |].
    exists a, h', b'. split; [done |]. split; [eexists; split; [done |] | congruence |].
    + by rewrite fmap_app, Hk.
    + by rewrite Hf', Hfr, Hlo, freed_by_app.
Qed.

Lemma adds_keep m h b items more :
  (2 <= m)%nat -> Z.of_nat m < 2 ^ 31 -> keeps m h b items ->
  exists h' b', rb_adds h b more = Some (h', b') /\ keeps m h' b' (items ++ more).
Proof.
  intros Hm Hmax. revert h b items. induction more as [| it more IH]; intros h b items Hk.
  - exists h, b. by rewrite app_nil_r.
  - destruct (add_keeps m h b items it Hm Hmax Hk) as (a & h1 & b1 & Ha & Hk1). cbn [rb_adds]. rewrite Ha. cbn [mbind option_bind].
    destruct (IH _ _ _ Hk1) as (h2 & b2 & H2 & Hk2). exists h2, b2. split; [done |]. by rewrite <- app_assoc in Hk2.
Qed.

Lemma node_at h b l1 a it l2 :
  ring_rep h b (l1 ++ (a, it) :: l2) -> rb_cells h !! a = Some (RbNode it (start l2 0)) /\ a <> 0.
Proof.
  intros [Hc _ _ _ _ Hnd Hrg _]. rewrite Hc, chain_mid by done. split; [done |].
  assert (0 < a < rb_fresh h); [| lia]. apply Hrg. rewrite fmap_app. apply elem_of_app. right. left.
Qed.

Lemma skip_spec h b l1 l2 n :
  ring_rep h b (l1 ++ l2) -> (n <= length l2)%nat -> skip_nodes n (rb_cells h) (start l2 0) = Some (start (drop n l2) 0).
Proof.
  revert l1 l2. induction n as [| n IH]; intros l1 l2 Hr Hn; [by rewrite drop_0 |].
  destruct l2 as [| [a it] l2]; cbn in Hn; [lia |]. destruct (node_at _ _ _ _ _ _ Hr) as [Ha _]. cbn [skip_nodes start].
  rewrite Ha. cbn. apply (IH (l1 ++ [(a, it)])); [by rewrite <- app_assoc | lia].
Qed.

Lemma copy_spec h b l1 l2 n :
  ring_rep h b (l1 ++ l2) -> (n <= length l2)%nat -> copy_nodes n (rb_cells h) (start l2 0) = Some (data <$> take n l2.*2).
Proof.
  revert l1 l2. induction n as [| n IH]; intros l1 l2 Hr Hn; [done |].
  destruct l2 as [| [a it] l2]; cbn in Hn; [lia |]. destruct (node_at _ _ _ _ _ _ Hr) as [Ha _]. cbn [copy_nodes start].
  rewrite Ha. cbn. rewrite (IH (l1 ++ [(a, it)])); [done | by rewrite <- app_assoc | lia].
Qed.

(** A range is inside the buffer or refused. *)
Lemma range_spec h b l s c :
  ring_rep h b l -> Z.of_nat (length l) < 2 ^ 31 -> INT_MIN <= s <= INT_MAX -> INT_MIN <= c <= INT_MAX ->
  rb_get_range h b s c = Some (if decide (0 <= s /\ 1 <= c /\ s + c <= Z.of_nat (length l))
    then Some (data <$> take (Z.to_nat c) (drop (Z.to_nat s) l.*2)) else None).
Proof.
  intros Hr Hlen Hs Hc. unfold rb_get_range, INT_MIN, INT_MAX in *. rewrite (rr_size _ _ _ Hr).
  destruct (Z.eqb_spec (Z.of_nat (length l)) 0) as [H0 | H0]; [rewrite decide_False by lia; done |].
  destruct (Z.ltb_spec s 0) as [Hs0 | Hs0]; cbn [orb]; [rewrite decide_False by lia; done |].
  destruct (Z.leb_spec (Z.of_nat (length l)) s) as [Hsl | Hsl]; [rewrite decide_False by lia; done |].
  destruct (Z.ltb_spec c 1) as [Hc1 | Hc1]; cbn [orb]; [rewrite decide_False by lia; done |].
  assert (Hover : (Z.of_nat (length l) <? u64 (i32 (s + c))) = negb (bool_decide (s + c <= Z.of_nat (length l)))).
  { unfold u64, i32, swrap. destruct (decide (s + c < 2 ^ 31)) as [Hsm | Hbig].
    - rewrite (Z.mod_small (s + c + 2 ^ (32 - 1))) by lia. rewrite Z.mod_small by lia. case_bool_decide; cbn.
      + apply Z.ltb_ge. lia.
      + apply Z.ltb_lt. lia.
    - replace ((s + c + 2 ^ (32 - 1)) mod 2 ^ 32 - 2 ^ (32 - 1)) with (s + c - 2 ^ 32).
      2:{ rewrite <- (Z.mod_unique (s + c + 2 ^ (32 - 1)) (2 ^ 32) 1 (s + c + 2 ^ (32 - 1) - 2 ^ 32)); lia. }
      rewrite <- (Z.mod_unique (s + c - 2 ^ 32) (2 ^ 64) (-1) (s + c - 2 ^ 32 + 2 ^ 64)) by lia.
      rewrite bool_decide_false by lia. apply Z.ltb_lt. lia. }
  rewrite Hover. destruct (decide (s + c <= Z.of_nat (length l))) as [Hin | Hin].
  2:{ rewrite bool_decide_false by done. cbn. rewrite decide_False by lia. done. }
  rewrite bool_decide_true by done. cbn [negb]. rewrite decide_True by lia.
  assert (Hl : l <> []) by (intros ->; done). rewrite (rr_head _ _ _ Hr).
  rewrite (skip_spec h b [] l) by (done || lia). cbn [mbind option_bind].
  rewrite (copy_spec h b (take (Z.to_nat s) l) (drop (Z.to_nat s) l)).
  - cbn. by rewrite fmap_drop.
  - by rewrite take_drop.
  - rewrite length_drop. lia.
Qed.

Lemma destroy_nodes_spec l p fr n :
  NoDup l.*1 -> 0 ∉ l.*1 ->
  destroy_nodes (length l) (RbHeap (cells_of p l 0) n fr) (start l 0) = Some (RbHeap ∅ n (fr ++ freed_by l.*2)).
Proof.
  revert p fr. induction l as [| [a it] l IH]; intros p fr Hnd H0; [by rewrite app_nil_r |].
  cbn in Hnd, H0. apply NoDup_cons in Hnd as [Ha Hnd]. apply not_elem_of_cons in H0 as [Ha0 H0].
  cbn [length destroy_nodes start rb_cells chain]. rewrite (proj2 (Z.eqb_neq a 0)), lookup_insert_eq by done.
  cbn [mbind option_bind rb_next rb_fresh rb_value].
  rewrite delete_insert_id by by apply chain_none. rewrite drop_data_freed. cbn [freed]. rewrite IH by done.
  by rewrite <- app_assoc, <- freed_by_app.
Qed.

Lemma ring_destroy_spec h b l :
  ring_rep h b l -> rb_destroy h b = Some (RbHeap ∅ (rb_fresh h) (freed h ++ freed_by l.*2)).
Proof.
  intros [Hc Hh _ _ _ Hnd Hrg _]. unfold rb_destroy. rewrite Hc, chain_size, Hh by done.
  destruct h as [hc n fr]. cbn in *. subst hc. apply destroy_nodes_spec; [done |]. intros H0%Hrg. lia.
Qed.

(** A buffer of two items or more keeps exactly the latest ones, in order:
    after any sequence of additions it holds the last [max] items, has freed the
    data it owned of all the others in order of age, reads every range inside it
    and refuses the others, and destroying it frees the rest, leaving no node. *)
Theorem ring_keeps_latest (max : Z) (name : option bstr) (items : list rb_item) (s c : Z)
    (Hmax : 2 <= max <= INT_MAX) (Hs : INT_MIN <= s <= INT_MAX) (Hc : INT_MIN <= c <= INT_MAX) :
  let k := kept (Z.to_nat max) items in
  exists h b, rb_adds new_heap (rb_create max name) items = Some (h, b) /\
    current_size b = Z.min max (Z.of_nat (length items)) /\
    freed h = freed_by (lost (Z.to_nat max) items) /\
    rb_get_range h b s c = Some (if decide (0 <= s /\ 1 <= c /\ s + c <= Z.of_nat (length k))
      then Some (data <$> take (Z.to_nat c) (drop (Z.to_nat s) k)) else None) /\
    rb_destroy h b = Some (RbHeap ∅ (rb_fresh h) (freed_by items)).
Proof.
  unfold INT_MAX in Hmax. intros k.
  assert (H0 : keeps (Z.to_nat max) new_heap (rb_create max name) []).
  { split; [exists []; split; [apply new_rep | done] | | done]. cbn. unfold u64. rewrite Z.mod_small; lia. }
  destruct (adds_keep (Z.to_nat max) _ _ _ items ltac:(lia) ltac:(lia) H0) as (h & b & Ha & [(l & Hr & Hl) Hm Hf]). cbn [app] in Hl, Hf.
  assert (Hlen : length l = length k) by by rewrite <- (length_fmap snd), Hl.
  assert (Hk : length k = Nat.min (Z.to_nat max) (length items)) by (unfold k, kept; rewrite length_drop; lia).
  exists h, b. split_and!; [done | | done | | ].
  - rewrite (rr_size _ _ _ Hr). lia.
  - rewrite (range_spec h b l s c Hr) by first [done | lia]. by rewrite Hl, Hlen.
  - rewrite (ring_destroy_spec h b l Hr), Hl, Hf, <- freed_by_app. do 3 f_equal. apply take_drop.
Qed.

Definition owned (p t : Z) : rb_item := RbItem p true t.

Lemma ring_keeps_latest_witness :
  exists h b, rb_adds new_heap (rb_create 2 None) [owned 11 1; owned 12 2; RbItem 13 false 3; owned 14 4] = Some (h, b) /\
    freed h = [11; 12] /\ rb_get_range h b 0 2 = Some (Some [13; 14]).
Proof.
  destruct (ring_keeps_latest 2 None [owned 11 1; owned 12 2; RbItem 13 false 3; owned 14 4] 0 2) as (h & b & Ha & _ & Hf & Hr & _);
    [by vm_compute..|].
  exists h, b. split; [exact Ha |]. split; [rewrite Hf; vm_compute; reflexivity | refine (eq_trans Hr _); vm_compute; reflexivity].
Defined.

(** The degenerate sizes.  With room for one item the second addition frees
    the only node and then writes to it through the tail; with room for none, or
    a negative size, the buffer is not bounded at all. *)
Theorem ring_degenerate_sizes (name : option bstr) (items : list rb_item) (max : Z)
    (Hmax : INT_MIN <= max <= 0) (Hitems : Z.of_nat (length items) < 2 ^ 62) :
  (forall it1 it2, rb_adds new_heap (rb_create 1 name) [it1; it2] = None) /\
  exists h b, rb_adds new_heap (rb_create max name) items = Some (h, b) /\
    current_size b = Z.of_nat (length items) /\ size (rb_cells h) = length items.
Proof.
  split.
  - intros it1 it2. vm_compute. reflexivity.
  - unfold INT_MIN in Hmax.
    assert (Hgrow : forall more h b l, ring_rep h b l -> max_size b = u64 max -> Z.of_nat (length l + length more) < 2 ^ 62 ->
      exists h' b' l', rb_adds h b more = Some (h', b') /\ ring_rep h' b' l' /\ length l' = (length l + length more)%nat).
    { intros more. induction more as [| it more IH]; intros h b l Hr Hm Hlen; cbn [length] in *.
      - exists h, b, l. split_and!; [done | done | lia].
      - destruct (add_grows h b l it Hr) as (h1 & b1 & a & Ha & Hr1 & Hm1 & _).
        + rewrite (rr_size _ _ _ Hr), Hm. unfold u64. destruct (Z.eq_dec max 0) as [-> | Hne].
          * destruct l; [by right | left; rewrite Z.mod_0_l by lia; cbn; lia].
          * left. rewrite <- (Z.mod_unique max (2 ^ 64) (-1) (max + 2 ^ 64)) by lia. lia.
        + lia.
        + cbn [rb_adds]. rewrite Ha. cbn [mbind option_bind].
          destruct (IH h1 b1 _ Hr1) as (h2 & b2 & l2 & H2 & Hr2 & Hl2); [congruence | rewrite length_app; cbn; lia |].
          exists h2, b2, l2. split_and!; [done | done |]. rewrite Hl2, length_app. cbn. lia. }
    destruct (Hgrow items new_heap (rb_create max name) [] (new_rep max name) eq_refl) as (h & b & l & Ha & Hr & Hl); [cbn; lia |].
    exists h, b. split_and!; [done | rewrite (rr_size _ _ _ Hr); cbn in Hl; lia |].
    rewrite (rr_cells _ _ _ Hr), chain_size by apply Hr. by rewrite Hl.
Qed.

Lemma ring_degenerate_sizes_witness :
  exists h b, rb_adds new_heap (rb_create 0 None) [owned 11 1; owned 12 2; owned 13 3] = Some (h, b) /\ current_size b = 3.
Proof.
  destruct (ring_degenerate_sizes None [owned 11 1; owned 12 2; owned 13 3] 0) as (_ & h & b & Ha & Hs & _); [by vm_compute..|].
  exists h, b. split; [exact Ha | exact Hs].
Defined.

(** The walk for the most recent node finds the first one with the greatest
    time stamp, the newest when the clock has moved between additions. *)
Lemma recent_loop_spec h b l1 l2 latest m :
  ring_rep h b (l1 ++ l2) -> rb_cells h !! latest = Some m ->
  exists r n, recent_loop (length l2) (rb_cells h) (start l2 0) latest = Some r /\ rb_cells h !! r = Some n /\
    timestamp (rb_value m) <= timestamp (rb_value n) /\
    (forall x, x ∈ l2.*2 -> timestamp x <= timestamp (rb_value n)).
Proof.
  revert l1 latest m. induction l2 as [| [a it] l2 IH]; intros l1 latest m Hr Hm.
  - exists latest, m. split_and!; [done | done | lia | by intros x ?%elem_of_nil].
  - destruct (node_at _ _ _ _ _ _ Hr) as [Ha Ha0]. cbn [length recent_loop start].
    rewrite (proj2 (Z.eqb_neq a 0)), Ha by done. cbn [mbind option_bind]. rewrite Hm. cbn [mbind option_bind rb_next rb_value].
    assert (Hr' : ring_rep h b ((l1 ++ [(a, it)]) ++ l2)) by by rewrite <- app_assoc.
    destruct (Z.ltb_spec (timestamp (rb_value m)) (timestamp it)) as [Hlt | Hge].
    + destruct (IH _ a _ Hr' Ha) as (r & n & H1 & H2 & H3 & H4). exists r, n. cbn [rb_value] in H3.
      split_and!; [done | done | lia |]. intros x [-> | Hx]%elem_of_cons; [done | by apply H4].
    + destruct (IH _ latest _ Hr' Hm) as (r & n & H1 & H2 & H3 & H4). exists r, n.
      split_and!; [done | done | done |]. intros x [-> | Hx]%elem_of_cons; [cbn; lia | by apply H4].
Qed.
