(* ===== verification/Acl.v ===== *)
(** * Access rules (acl.c)

    Ordered allow and deny rules on numeric addresses, users and groups.
    [inet_pton] belongs to the operating system: what the code relies on is the
    class [InetPtonLaws], its documented behaviour. *)

From S2P Require Import Prelude CString.

#[local] Open Scope Z_scope.

(** The bytes of the address when the text is one, of four or sixteen bytes. *)
Class InetPton := {
  inet_pton4 : bstr -> option (list Z);
  inet_pton6 : bstr -> option (list Z)
}.

Definition is_byte (z : Z) : Prop := 0 <= z < 256.

(** [::ffff:0:0/96], the IPv4-mapped addresses. *)
Definition mapped_prefix : list Z := [0; 0; 0; 0; 0; 0; 0; 0; 0; 0; 0xff; 0xff].

Definition dotted (s : bstr) : bool := forallb (fun c => isdigit c || bool_decide (c = "."%char)) s.

Class InetPtonLaws `{InetPton} : Prop := {
  pton4_bytes s a : inet_pton4 s = Some a -> length a = 4%nat /\ Forall is_byte a;
  pton6_bytes s a : inet_pton6 s = Some a -> length a = 16%nat /\ Forall is_byte a;
  pton4_text s a : inet_pton4 s = Some a -> dotted s = true /\ (length s <= 15)%nat;
  pton6_mapped s a : inet_pton4 s = Some a -> inet_pton6 (B "::ffff:" ++ s) = Some (mapped_prefix ++ a)
}.

(** ** Data *)

Definition ACL_PRINCIPAL_MAX : nat := 127.

Inductive acl_result := ACL_NO_MATCH | ACL_ALLOW | ACL_DENY | ACL_DEFER.
Inductive acl_principal := ACL_ANY | ACL_USER | ACL_GROUP.

#[export] Instance acl_result_eq_dec : EqDecision acl_result.
Proof. solve_decision. Defined.
#[export] Instance acl_principal_eq_dec : EqDecision acl_principal.
Proof. solve_decision. Defined.

(** [address] has sixteen bytes; [family] is 4, 6, or 0 for none. *)
Record acl_rule := AclRule {
  address : list Z; family : Z; prefix : Z; kind : acl_principal; principal : bstr; allow : bool }.

(** [user] is NULL while the identity is unknown; [in_group] is the callback with its context. *)
Record acl_subject := AclSubject {
  s_address : list Z; s_family : Z; s_user : option bstr; in_group : option (bstr -> bool); ignore_case : bool }.

Section acl.
Context `{InetPton}.

(** ** Addresses *)

Definition mapped (a : list Z) : bool := bool_decide (take 12 a = mapped_prefix).

Definition no_address : list Z := replicate 16 0.

(** The address, in sixteen bytes, and its family. *)
Definition address_parse (ip : bstr) : option (list Z * Z) :=
  match inet_pton4 ip with
  | Some a => Some (a ++ replicate 12 0, 4)
  | None => match inet_pton6 ip with Some a => Some (a, 6) | None => None end
  end.

(** [memmove(address, address + 12, 4)] *)
Definition unmap (a : list Z) : list Z := take 4 (drop 12 a) ++ drop 4 a.

(** The digits after the slash; the bound is tested before each digit. *)
Fixpoint prefix_digits (s : bstr) (acc : Z) : option Z :=
  match s with
  | [] => Some acc
  | c :: s => if negb (isdigit c) || (128 <? acc) then None else prefix_digits s (u32 (acc * 10 + digit_val c))
  end.

Definition is_all (s : bstr) : bool := streq s (B "all") || streq s (B "*").

(** The text of the address, and the prefix if there is one. *)
Definition split_prefix (text : bstr) : option (bstr * option Z) :=
  match split_at text "/"%char with
  | None => Some (text, None)
  | Some (ip, []) => None
  | Some (ip, digits) => p ← prefix_digits digits 0; Some (ip, Some p)
  end.

(** The address, family and prefix of a rule. *)
Definition network_parse (text : bstr) : option (list Z * Z * Z) :=
  if is_all text then Some (no_address, 0, 0)
  else if (64 <=? length text)%nat then None
  else
    '(ip, pre) ← split_prefix text;
    '(a, fam) ← address_parse ip;
    let bits := if fam =? 4 then 32 else 128 in
    let pre := default bits pre in
    if bits <? pre then None
    else if (fam =? 6) && mapped a && (96 <=? pre) then Some (unmap a, 4, pre - 96)
    else Some (a, fam, pre).

(** ** Rules *)

(** The text before the last [c], and after it. *)
Fixpoint split_last (s : bstr) (c : ascii) : option (bstr * bstr) :=
  match s with
  | [] => None
  | x :: s' =>
      match split_last s' c with
      | Some (a, b) => Some (x :: a, b)
      | None => if bool_decide (x = c) then Some ([], s') else None
      end
  end.

Definition has (s : bstr) (c : ascii) : bool := match strchr s c with Some _ => true | None => false end.

Definition starts_at (s : bstr) : bool := match s with c :: _ => bool_decide (c = "@"%char) | [] => false end.

(** The principal and the network of a selector. *)
Definition selector_parts (copy : bstr) : option (option bstr * option bstr) :=
  match split_last copy "@"%char with
  | Some ((_ :: _) as before, after) => Some (Some before, Some after)
  | _ =>
      if starts_at copy then Some (Some copy, None)
      else if is_all copy || has copy "/"%char || has copy ":"%char || bool_decide (is_Some (address_parse copy)) then
        Some (None, Some copy)
      else if dotted copy && has copy "."%char then None
      else Some (Some copy, None)
  end.

Definition principal_parse (p : option bstr) : option (acl_principal * bstr) :=
  match p with
  | None => Some (ACL_ANY, [])
  | Some p =>
      let '(k, p) := if starts_at p then (ACL_GROUP, tl p) else (ACL_USER, p) in
      match p with
      | [] => None
      | _ => if (ACL_PRINCIPAL_MAX <? length p)%nat || has p "@"%char then None else Some (k, p)
      end
  end.

Definition acl_rule_parse (allow : bool) (selector : option bstr) : option acl_rule :=
  match selector with
  | None | Some [] => None
  | Some selector =>
      if (256 <=? length selector)%nat then None
      else if existsb (fun c => isspace c || bool_decide (c = "="%char)) selector then None
      else
        '(who, network) ← selector_parts selector;
        '(k, name) ← principal_parse who;
        '(a, fam, pre) ← match network with None => Some (no_address, 0, 0) | Some n => network_parse n end;
        Some (AclRule a fam pre k name allow)
  end.

(** ** Subjects and matching *)

Definition acl_subject_init (ip user : option bstr) (group : option (bstr -> bool)) : bool * acl_subject :=
  match ip with
  | None => (true, AclSubject no_address 0 user group false)
  | Some ip =>
      match address_parse ip with
      | None => (false, AclSubject no_address 0 user group false)
      | Some (a, fam) =>
          if (fam =? 6) && mapped a then (true, AclSubject (unmap a) 4 user group false)
          else (true, AclSubject a fam user group false)
      end
  end.

Definition byte_at (a : list Z) (i : Z) : Z := default 0 (a !! Z.to_nat i).

(** Whether the address is ruled out: not of the family, or different in the prefix. *)
Definition address_differs (r : acl_rule) (s : acl_subject) : bool :=
  (negb (family r =? 4) && negb (family r =? 6)) || ((if family r =? 4 then 32 else 128) <? prefix r) ||
  negb (family r =? s_family s) ||
  (let bytes := prefix r / 8 in
   let bits := prefix r mod 8 in
   negb (bool_decide (take (Z.to_nat bytes) (address r) = take (Z.to_nat bytes) (s_address s))) ||
   (negb (bits =? 0) &&
    negb (Z.land (Z.lxor (byte_at (address r) bytes) (byte_at (s_address s) bytes)) (u32 (Z.shiftl 0xff (8 - bits))) =? 0))).

Definition acl_rule_match (rule : option acl_rule) (subject : option acl_subject) : acl_result :=
  match rule, subject with
  | Some r, Some s =>
      let pending := negb (family r =? 0) && (s_family s =? 0) in
      if negb (family r =? 0) && negb (s_family s =? 0) && address_differs r s then ACL_NO_MATCH
      else
        let verdict := if pending then ACL_DEFER else if allow r then ACL_ALLOW else ACL_DENY in
        match kind r with
        | ACL_ANY => verdict
        | k =>
            match s_user s with
            | None => ACL_DEFER
            | Some u =>
                match k with
                | ACL_USER =>
                    if (if ignore_case s then strcaseeq else streq) (principal r) u then verdict else ACL_NO_MATCH
                | _ =>
                    match in_group s with
                    | Some g => if g (principal r) then verdict else ACL_NO_MATCH
                    | None => ACL_NO_MATCH
                    end
                end
            end
        end
  | _, _ => ACL_NO_MATCH
  end.

Fixpoint check_rules (rules : list acl_rule) (s : acl_subject) : acl_result :=
  match rules with
  | [] => ACL_DENY
  | r :: rules => match acl_rule_match (Some r) (Some s) with ACL_NO_MATCH => check_rules rules s | result => result end
  end.

Definition acl_check (rules : option (list acl_rule)) (subject : option acl_subject) : acl_result :=
  match rules, subject with
  | Some rules, Some s => check_rules rules s
  | _, _ => ACL_DENY
  end.

End acl.
