(* ===== verification/AclSpec.v ===== *)
(** * What access rules decide (acl.c) *)

From S2P Require Import Prelude CString Acl.

#[local] Open Scope Z_scope.

(** ** Prefixes, bit by bit *)

(** The [i]-th bit of an address, most significant first. *)
Definition addr_bit (a : list Z) (i : Z) : bool := Z.testbit (byte_at a (i / 8)) (7 - i mod 8).

Definition is_address (a : list Z) : Prop := length a = 16%nat /\ Forall is_byte a.

Lemma byte_at_byte a i : is_address a -> is_byte (byte_at a i).
Proof.
  intros [_ Ha]. unfold byte_at. destruct (a !! Z.to_nat i) as [z |] eqn:Hz; cbn; [| by unfold is_byte].
  by eapply Forall_lookup_1.
Qed.

Lemma byte_high z j : is_byte z -> 8 <= j -> Z.testbit z j = false.
Proof. intros Hz Hj. apply (proj1 (below_pow2 z 8 ltac:(lia) ltac:(destruct Hz; lia))); [destruct Hz; lia | done]. Qed.

Lemma byte_eq x y : is_byte x -> is_byte y -> (x = y <-> forall j, 0 <= j < 8 -> Z.testbit x j = Z.testbit y j).
Proof.
  intros Hx Hy. split; [by intros -> |]. intros Hb. apply Z.bits_inj'. intros j Hj.
  destruct (decide (j < 8)); [apply Hb; lia |]. rewrite !byte_high by (done || lia). done.
Qed.

(** The mask of the last, partial byte. *)
Lemma mask_bits b j : 0 < b < 8 -> 0 <= j < 8 -> Z.testbit (u32 (Z.shiftl 0xff (8 - b))) j = (8 - b <=? j).
Proof.
  intros Hb Hj. unfold u32. rewrite Z.mod_pow2_bits_low by lia. rewrite Z.shiftl_spec by lia.
  destruct (Z.leb_spec (8 - b) j).
  - change 0xff with (Z.ones 8). apply Z.ones_spec_low. lia.
  - apply Z.testbit_neg_r. lia.
Qed.

Lemma masked_equal x y b :
  0 < b < 8 -> is_byte x -> is_byte y ->
  (Z.land (Z.lxor x y) (u32 (Z.shiftl 0xff (8 - b))) = 0 <->
   forall t, 0 <= t < b -> Z.testbit x (7 - t) = Z.testbit y (7 - t)).
Proof.
  intros Hb Hx Hy. split.
  - intros H0 t Ht. assert (Hz : Z.testbit (Z.land (Z.lxor x y) (u32 (Z.shiftl 0xff (8 - b)))) (7 - t) = false).
    { rewrite H0. apply Z.testbit_0_l. }
    rewrite Z.land_spec, Z.lxor_spec, mask_bits in Hz by lia. rewrite (proj2 (Z.leb_le _ _)) in Hz by lia.
    by destruct (Z.testbit x (7 - t)), (Z.testbit y (7 - t)).
  - intros Heq. apply Z.bits_inj_0. intros j. rewrite Z.land_spec, Z.lxor_spec.
    destruct (Z.ltb_spec j 0); [by rewrite !Z.testbit_neg_r |].
    destruct (Z.ltb_spec j 8); [| by rewrite (byte_high x), (byte_high y)]. rewrite mask_bits by lia.
    destruct (Z.leb_spec (8 - b) j); [| apply andb_false_r].
    specialize (Heq (7 - j) ltac:(lia)). replace (7 - (7 - j)) with j in Heq by lia. rewrite Heq. by rewrite xorb_nilpotent.
Qed.

Lemma take_bytes a c n :
  is_address a -> is_address c -> 0 <= n <= 16 ->
  (take (Z.to_nat n) a = take (Z.to_nat n) c <-> forall k, 0 <= k < n -> byte_at a k = byte_at c k).
Proof.
  intros [Ha _] [Hc _] Hn. split.
  - intros Heq k Hk. unfold byte_at. rewrite <- (lookup_take_lt a (Z.to_nat n)), <- (lookup_take_lt c (Z.to_nat n)) by lia.
    by rewrite Heq.
  - intros Hk. apply list_eq. intros i. destruct (decide (i < Z.to_nat n)%nat) as [Hi | Hi].
    2:{ rewrite !lookup_take_ge by lia. done. }
    rewrite !lookup_take_lt by done. specialize (Hk (Z.of_nat i) ltac:(lia)). unfold byte_at in Hk. rewrite Nat2Z.id in Hk.
    destruct (lookup_lt_is_Some_2 a i) as [x Hx]; [lia |]. destruct (lookup_lt_is_Some_2 c i) as [y Hy]; [lia |].
    rewrite Hx, Hy in *. cbn in Hk. congruence.
Qed.

(** The comparison of whole bytes and of the masked rest is the comparison of the first [p] bits. *)
Lemma prefix_equal a c p :
  is_address a -> is_address c -> 0 <= p <= 128 ->
  (take (Z.to_nat (p / 8)) a = take (Z.to_nat (p / 8)) c /\
   (p mod 8 = 0 \/ Z.land (Z.lxor (byte_at a (p / 8)) (byte_at c (p / 8))) (u32 (Z.shiftl 0xff (8 - p mod 8))) = 0)) <->
  (forall i, 0 <= i < p -> addr_bit a i = addr_bit c i).
Proof.
  intros Ha Hc Hp. pose proof (Z.div_mod p 8 ltac:(lia)) as Hdm. pose proof (Z.mod_pos_bound p 8 ltac:(lia)) as Hm.
  assert (Hbyte : forall k, is_byte (byte_at a k) /\ is_byte (byte_at c k)) by (intros k; split; by apply byte_at_byte).
  rewrite take_bytes by (done || lia). unfold addr_bit. split.
  - intros [Hbytes Hrest] i Hi. pose proof (Z.div_mod i 8 ltac:(lia)). pose proof (Z.mod_pos_bound i 8 ltac:(lia)).
    destruct (Z.lt_ge_cases (i / 8) (p / 8)) as [Hlt | Hge]; [rewrite Hbytes by (split; [apply Z.div_pos |]; lia); done |].
    assert (i / 8 = p / 8) as -> by nia. destruct Hrest as [Hz | Hmask]; [nia |].
    destruct (Hbyte (p / 8)). rewrite masked_equal in Hmask by (done || nia). apply Hmask. nia.
  - intros Hbits. split.
    + intros k Hk. destruct (Hbyte k). apply byte_eq; [done.. |]. intros j Hj.
      specialize (Hbits (8 * k + (7 - j)) ltac:(nia)).
      rewrite <- (Z.div_unique (8 * k + (7 - j)) 8 k (7 - j)), <- (Z.mod_unique (8 * k + (7 - j)) 8 k (7 - j)) in Hbits by lia.
      by replace (7 - (7 - j)) with j in Hbits by lia.
    + destruct (Z.eq_dec (p mod 8) 0) as [H0 | H0]; [by left | right]. destruct (Hbyte (p / 8)).
      apply masked_equal; [lia | done | done |]. intros t Ht. specialize (Hbits (8 * (p / 8) + t) ltac:(nia)).
      by rewrite <- (Z.div_unique (8 * (p / 8) + t) 8 (p / 8) t), <- (Z.mod_unique (8 * (p / 8) + t) 8 (p / 8) t) in Hbits by lia.
Qed.

(** ** Well-formed rules and subjects *)

Section acl.
Context `{InetPtonLaws}.

Definition width (fam : Z) : Z := if fam =? 4 then 32 else 128.

Record rule_wf (r : acl_rule) : Prop := {
  rw_address : is_address (address r);
  rw_family : family r = 0 \/ family r = 4 \/ family r = 6;
  rw_prefix : 0 <= prefix r <= width (family r)
}.

Record subject_wf (s : acl_subject) : Prop := {
  sw_address : is_address (s_address s);
  sw_family : s_family s = 0 \/ s_family s = 4 \/ s_family s = 6
}.

Lemma no_address_ok : is_address no_address.
Proof. split; [done |]. apply Forall_replicate. by unfold is_byte. Qed.

Lemma address_parse_ok ip a fam : address_parse ip = Some (a, fam) -> is_address a /\ (fam = 4 \/ fam = 6).
Proof.
  unfold address_parse. destruct (inet_pton4 ip) as [a4 |] eqn:H4.
  - intros [= <- <-]. destruct (pton4_bytes _ _ H4) as [Hl Hb]. split; [| by left]. split; [rewrite length_app, Hl; done |].
    apply Forall_app. split; [done |]. apply (Forall_replicate is_byte 12 0). by unfold is_byte.
  - destruct (inet_pton6 ip) as [a6 |] eqn:H6; [| done]. intros [= <- <-]. destruct (pton6_bytes _ _ H6). split; [by split | by right].
Qed.

Lemma unmap_ok a : is_address a -> is_address (unmap a).
Proof.
  intros [Hl Hb]. unfold unmap. split; [rewrite length_app, length_take, !length_drop; lia |].
  apply Forall_app. split; [by apply Forall_take, Forall_drop | by apply Forall_drop].
Qed.

Lemma prefix_digits_nonneg s acc p : 0 <= acc -> prefix_digits s acc = Some p -> 0 <= p.
Proof.
  revert acc. induction s as [| c s IH]; intros acc Ha; cbn; [by intros [= <-] |].
  destruct (_ || _); [done |]. apply IH. by apply u32_range.
Qed.

Lemma split_prefix_nonneg text ip pre : split_prefix text = Some (ip, pre) -> 0 <= default 0 pre.
Proof.
  unfold split_prefix. destruct (split_at text "/"%char) as [[ip' [| c digits]] |]; [done | | by intros [= _ <-]].
  destruct (prefix_digits (c :: digits) 0) as [q |] eqn:Hq; [| done]. intros [= _ <-]. cbn. by eapply prefix_digits_nonneg in Hq.
Qed.

Lemma network_parse_ok text a fam p :
  network_parse text = Some (a, fam, p) -> is_address a /\ (fam = 0 \/ fam = 4 \/ fam = 6) /\ 0 <= p <= width fam.
Proof.
  unfold network_parse. destruct (is_all text); [intros [= <- <- <-]; split; [apply no_address_ok | cbn; lia] |].
  destruct (64 <=? length text)%nat; [done |].
  destruct (split_prefix text) as [[ip pre] |] eqn:Hsp; [| done]. apply split_prefix_nonneg in Hsp as Hpre.
  cbn [mbind option_bind]. destruct (address_parse ip) as [[a' fam'] |] eqn:Ha; [| done]. cbn [mbind option_bind].
  apply address_parse_ok in Ha as [Ha Hfam]. set (bits := if fam' =? 4 then 32 else 128).
  destruct (Z.ltb_spec bits (default bits pre)) as [| Hle]; [done |].
  assert (0 <= default bits pre) by (destruct pre; cbn in *; [done | unfold bits; destruct (fam' =? 4); lia]).
  destruct (_ && _) eqn:Hm.
  - apply andb_prop in Hm as [Hm H96%Z.leb_le]. apply andb_prop in Hm as [H6%Z.eqb_eq _]. intros [= <- <- <-].
    split; [by apply unmap_ok |]. split; [by right; left |]. unfold bits in *. subst fam'. cbn in *. lia.
  - intros [= <- <- <-]. split; [done |]. split; [by right |]. unfold width. fold bits. lia.
Qed.

Lemma acl_rule_parse_wf al sel r : acl_rule_parse al sel = Some r -> rule_wf r /\ allow r = al.
Proof.
  unfold acl_rule_parse. destruct sel as [[| c sel] |]; [done | | done].
  destruct (256 <=? _)%nat; [done |]. destruct (existsb _ _); [done |].
  destruct (selector_parts _) as [[who network] |]; [| done]. cbn [mbind option_bind].
  destruct (principal_parse who) as [[k name] |]; [| done]. cbn [mbind option_bind].
  destruct network as [n |]; cbn [mbind option_bind].
  - destruct (network_parse n) as [[[a fam] p] |] eqn:Hn; [| done]. cbn. intros [= <-].
    apply network_parse_ok in Hn as (Ha & Hf & Hp). by split.
  - intros [= <-]. split; [| done]. split; [apply no_address_ok | by left | cbn; lia].
Qed.

Lemma acl_subject_init_wf ip user g s : acl_subject_init ip user g = (true, s) -> subject_wf s /\ s_user s = user /\ in_group s = g.
Proof.
  unfold acl_subject_init. destruct ip as [ip |].
  - destruct (address_parse ip) as [[a fam] |] eqn:Ha; [| done]. apply address_parse_ok in Ha as [Ha Hf].
    destruct (_ && _); intros [= <-]; split; try done; split; cbn; [by apply unmap_ok | by right; left | done | by right].
  - intros [= <-]. split; [| done]. split; [apply no_address_ok | by left].
Qed.

(** ** The meaning of a rule *)

Definition covers (r : acl_rule) (s : acl_subject) : Prop :=
  family r = s_family s /\ forall i, 0 <= i < prefix r -> addr_bit (address r) i = addr_bit (s_address s) i.

(** The rule has no address, or the subject has one that it covers. *)
Definition address_applies (r : acl_rule) (s : acl_subject) : Prop :=
  family r = 0 \/ (s_family s <> 0 /\ covers r s).

Definition principal_applies (r : acl_rule) (s : acl_subject) : Prop :=
  match kind r with
  | ACL_ANY => True
  | ACL_USER => exists u, s_user s = Some u /\ (if ignore_case s then strcaseeq else streq) (principal r) u = true
  | ACL_GROUP => is_Some (s_user s) /\ exists g, in_group s = Some g /\ g (principal r) = true
  end.

Lemma address_differs_spec r s :
  rule_wf r -> subject_wf s -> family r <> 0 -> (address_differs r s = false <-> covers r s).
Proof.
  intros [Ha Hf Hp] [Hsa _] Hf0. unfold address_differs, covers.
  assert (Hfam : negb (family r =? 4) && negb (family r =? 6) = false).
  { destruct Hf as [? | [-> | ->]]; [done | done | done]. }
  rewrite Hfam. fold (width (family r)). rewrite (proj2 (Z.ltb_ge _ _)) by lia. cbn [orb].
  assert (Hp128 : 0 <= prefix r <= 128) by (unfold width in Hp; destruct (family r =? 4); lia).
  rewrite orb_false_iff, negb_false_iff, Z.eqb_eq. rewrite <- prefix_equal by done.
  rewrite orb_false_iff, negb_false_iff, bool_decide_eq_true, andb_false_iff, !negb_false_iff, !Z.eqb_eq. tauto.
Qed.

(** Whether the principal applies; [None] while the user is unknown. *)
Definition principal_test (r : acl_rule) (s : acl_subject) : option bool :=
  match kind r, s_user s with
  | ACL_ANY, _ => Some true
  | _, None => None
  | ACL_USER, Some u => Some ((if ignore_case s then strcaseeq else streq) (principal r) u)
  | ACL_GROUP, Some _ => Some (match in_group s with Some g => g (principal r) | None => false end)
  end.

Definition verdict (r : acl_rule) (s : acl_subject) : acl_result :=
  if negb (family r =? 0) && (s_family s =? 0) then ACL_DEFER else if allow r then ACL_ALLOW else ACL_DENY.

Lemma acl_rule_match_split r s :
  acl_rule_match (Some r) (Some s) =
    if negb (family r =? 0) && negb (s_family s =? 0) && address_differs r s then ACL_NO_MATCH
    else match principal_test r s with None => ACL_DEFER | Some true => verdict r s | Some false => ACL_NO_MATCH end.
Proof.
  unfold acl_rule_match, principal_test, verdict. destruct (_ && address_differs r s); [done |].
  destruct (kind r); [done | |]; (destruct (s_user s); [| done]); [done |]. by destruct (in_group s).
Qed.

Lemma principal_test_applies r s : principal_test r s = Some true <-> principal_applies r s.
Proof.
  unfold principal_test, principal_applies. destruct (kind r); [done | |]; destruct (s_user s) as [u |].
  - split; [intros [= Hu]; by exists u | by intros (u' & [= <-] & ->)].
  - split; [done | by intros (u' & ? & _)].
  - destruct (in_group s) as [g |].
    + split; [intros [= Hg]; split; [done | by exists g] | by intros (_ & g' & [= <-] & ->)].
    + split; [done | by intros (_ & g' & ? & _)].
  - split; [done | by intros [[] _]].
Qed.

(** C14: a parsed rule allows or denies a subject exactly when it applies: it has
    no address, or the subject's address is known, of the same family and equal
    in the first [prefix] bits; and it names no principal, or the known user has
    that name, or is in that group.  An unknown address or user never satisfies
    a rule that asks for one. *)
Theorem acl_match_exact (al : bool) (sel ip user : option bstr) (g : option (bstr -> bool)) (r : acl_rule) (s : acl_subject)
    (Hr : acl_rule_parse al sel = Some r) (Hs : acl_subject_init ip user g = (true, s)) :
  let applies := address_applies r s /\ principal_applies r s in
  (acl_rule_match (Some r) (Some s) = ACL_ALLOW <-> al = true /\ applies) /\
  (acl_rule_match (Some r) (Some s) = ACL_DENY <-> al = false /\ applies).
Proof.
  destruct (acl_rule_parse_wf al sel r Hr) as [Hrw <-]. destruct (acl_subject_init_wf ip user g s Hs) as [Hsw _].
  cbv zeta. rewrite <- principal_test_applies, acl_rule_match_split. unfold verdict, address_applies.
  pose proof (address_differs_spec r s Hrw Hsw) as Hd.
  destruct (Z.eqb_spec (family r) 0) as [Hf | Hf]; [| specialize (Hd Hf); destruct (Z.eqb_spec (s_family s) 0) as [Hsf | Hsf]];
    cbn [negb andb].
  - destruct (principal_test r s) as [[] |], (allow r); naive_solver.
  - destruct (principal_test r s) as [[] |], (allow r); naive_solver.
  - destruct (address_differs r s).
    + assert (~ covers r s) by (intros Hc; by apply Hd in Hc). naive_solver.
    + assert (covers r s) by by apply Hd. destruct (principal_test r s) as [[] |], (allow r); naive_solver.
Qed.

(** ** Deferred decisions *)

(** [s'] knows what [s] knows, and perhaps more. *)
Definition refines (s s' : acl_subject) : Prop :=
  (s_family s <> 0 -> s_family s' = s_family s /\ s_address s' = s_address s) /\
  (forall u, s_user s = Some u -> s_user s' = Some u) /\
  in_group s' = in_group s /\ ignore_case s' = ignore_case s.

Lemma principal_test_stable r s s' b : refines s s' -> principal_test r s = Some b -> principal_test r s' = Some b.
Proof.
  intros (_ & Hu & Hg & Hi). unfold principal_test. rewrite Hg, Hi.
  destruct (kind r); [done | |]; (destruct (s_user s) as [u |]; [| done]); by rewrite (Hu u eq_refl).
Qed.

Lemma match_stable r s s' :
  refines s s' -> acl_rule_match (Some r) (Some s) <> ACL_DEFER ->
  acl_rule_match (Some r) (Some s') = acl_rule_match (Some r) (Some s).
Proof.
  intros Href. pose proof Href as (Ha & _). rewrite !acl_rule_match_split. unfold verdict, address_differs.
  destruct (Z.eqb_spec (family r) 0) as [Hf | Hf]; cbn [negb andb].
  - destruct (principal_test r s) as [b |] eqn:Hp; [| done]. by rewrite (principal_test_stable _ _ _ _ Href Hp).
  - destruct (Z.eqb_spec (s_family s) 0) as [Hsf | Hsf]; cbn [negb andb].
    + destruct (principal_test r s) as [[] |] eqn:Hp; [done | | done]. intros _. rewrite (principal_test_stable _ _ _ _ Href Hp).
      by destruct (_ && _).
    + destruct (Ha Hsf) as [-> ->]. rewrite (proj2 (Z.eqb_neq _ _) Hsf). cbn [negb andb].
      destruct (_ || _); [done |]. destruct (principal_test r s) as [b |] eqn:Hp; [| done].
      by rewrite (principal_test_stable _ _ _ _ Href Hp).
Qed.

(** A decision made before everything is known about a subject is final: if
    the rules allow or deny it, they do so for every subject that agrees with it
    and only adds a missing address or identity.  Only DEFER can change. *)
Theorem acl_decision_final (rules : list acl_rule) (s s' : acl_subject)
    (Href : refines s s') (Hdecided : acl_check (Some rules) (Some s) <> ACL_DEFER) :
  acl_check (Some rules) (Some s') = acl_check (Some rules) (Some s) /\
  (acl_check (Some rules) (Some s) = ACL_ALLOW \/ acl_check (Some rules) (Some s) = ACL_DENY).
Proof.
  cbn [acl_check] in *. induction rules as [| r rules IH]; cbn [check_rules] in *; [by split; [| right] |].
  destruct (acl_rule_match (Some r) (Some s)) eqn:Hm; [| | | done];
    rewrite (match_stable r s s' Href) by (by rewrite Hm); rewrite Hm; auto.
Qed.

(** ** Mapped addresses *)

Lemma dotted_char s c : dotted s = true -> c ∈ s -> isdigit c = true \/ c = "."%char.
Proof.
  unfold dotted. rewrite forallb_forall. intros Hd Hc%list_elem_of_In. specialize (Hd c Hc).
  apply orb_true_iff in Hd as [? | ?%bool_decide_eq_true_1]; auto.
Qed.

Lemma plain_not_in ip a c : inet_pton4 ip = Some a -> isdigit c = false -> c <> "."%char -> c ∉ ip.
Proof. intros Hp Hd Hc Hin. apply pton4_text in Hp as [Hp _]. destruct (dotted_char _ _ Hp Hin); congruence. Qed.

Lemma split_at_slash (s t : bstr) (c : ascii) : c ∉ s -> split_at (s ++ c :: t) c = Some (s, t).
Proof.
  induction s as [| x s IH]; cbn; intros Hc; [by rewrite bool_decide_true |].
  apply not_elem_of_cons in Hc as [Hx Hc]. rewrite bool_decide_false by done. by rewrite IH.
Qed.

Lemma split_last_none s c : c ∉ s -> split_last s c = None.
Proof.
  induction s as [| x s IH]; cbn; intros Hc; [done |]. apply not_elem_of_cons in Hc as [Hx Hc].
  rewrite IH by done. by rewrite bool_decide_false.
Qed.

Lemma has_in s c : c ∈ s -> has s c = true.
Proof.
  unfold has. induction s as [| x s IH]; [by intros ?%elem_of_nil |]. cbn. intros Hc. case_bool_decide; [done |].
  apply elem_of_cons in Hc as [-> | Hc]; [done | by apply IH].
Qed.

(** The decimal text of a prefix is read back. *)
Lemma prefix_text p :
  0 <= p <= 128 ->
  prefix_digits (print_dec p) 0 = Some p /\ forallb isdigit (print_dec p) = true /\ print_dec p <> [] /\ (length (print_dec p) <= 3)%nat.
Proof.
  intros Hp. set (good := fun n : nat => let d := print_dec (Z.of_nat n) in
    bool_decide (prefix_digits d 0 = Some (Z.of_nat n)) && forallb isdigit d && negb (bool_decide (d = [])) && (length d <=? 3)%nat).
  assert (Hall : forallb good (seq 0 129) = true) by by vm_compute.
  rewrite forallb_forall in Hall. specialize (Hall (Z.to_nat p)). unfold good in Hall. rewrite Z2Nat.id in Hall by lia.
  destruct (andb_prop _ _ (Hall ltac:(apply in_seq; lia))) as [H1 H4%Nat.leb_le]. apply andb_prop in H1 as [H1 H3].
  apply andb_prop in H1 as [H1 H2]. apply bool_decide_eq_true_1 in H1. apply negb_true_iff, bool_decide_eq_false_1 in H3. done.
Qed.

Definition address_chars (text : bstr) : Prop :=
  Forall (fun c => isdigit c = true \/ c = "."%char \/ c = ":"%char \/ isalpha c = true) text.

(** A selector that is an address with a prefix. *)
Lemma network_selector al (text : bstr) p a fam pre :
  address_chars text -> (length text <= 22)%nat -> 0 <= p <= 128 ->
  network_parse (text ++ "/"%char :: print_dec p) = Some (a, fam, pre) ->
  acl_rule_parse al (Some (text ++ "/"%char :: print_dec p)) = Some (AclRule a fam pre ACL_ANY [] al).
Proof.
  intros Htext Hlen Hp Hnet. destruct (prefix_text p Hp) as (_ & Hdig & Hne & Hlen'). set (d := print_dec p) in *.
  assert (Hchars : forall c, c ∈ text ++ "/"%char :: d -> c = "/"%char \/ c = "."%char \/ c = ":"%char \/ isdigit c = true \/ isalpha c = true).
  { intros c [Hc | [-> | Hc]%elem_of_cons]%elem_of_app; [| by left |].
    - unfold address_chars in Htext; rewrite Forall_forall in Htext. destruct (Htext c Hc) as [? | [? | [? | ?]]]; auto.
    - rewrite forallb_forall in Hdig. apply list_elem_of_In, Hdig in Hc. auto 6. }
  assert (Hbad : forall c, c ∈ text ++ "/"%char :: d -> isspace c || bool_decide (c = "="%char) = false /\ c <> "@"%char).
  { intros c Hc. apply Hchars in Hc. unfold isdigit, isspace, isalpha, isupper, islower in *.
    destruct Hc as [-> | [-> | [-> | Hc]]]; [by vm_compute.. |].
    assert (Hr : 48 <= code c <= 57 \/ 65 <= code c <= 90 \/ 97 <= code c <= 122) by (destruct Hc as [Hc | Hc]; lia).
    split; [| intros ->; change (code "@"%char) with 64 in Hr; lia]. apply orb_false_iff. split; [lia |].
    apply bool_decide_eq_false_2. intros ->. change (code "="%char) with 61 in Hr. lia. }
  unfold acl_rule_parse. destruct (text ++ "/"%char :: d) as [| c0 rest] eqn:Hsel; [by destruct text |]. rewrite <- Hsel in *.
  assert (Hl : (length (text ++ "/"%char :: d) <= 26)%nat) by (rewrite length_app; cbn; lia).
  destruct (Nat.leb_spec 256 (length (text ++ "/"%char :: d))); [lia |].
  assert (Hex : existsb (fun c => isspace c || bool_decide (c = "="%char)) (text ++ "/"%char :: d) = false).
  { apply not_true_is_false. intros (c & Hc%list_elem_of_In & Hx)%existsb_exists. destruct (Hbad c Hc) as [Hy _]. congruence. }
  rewrite Hex. assert (Hparts : selector_parts (text ++ "/"%char :: d) = Some (None, Some (text ++ "/"%char :: d))).
  { unfold selector_parts. rewrite split_last_none by (intros Hc; by destruct (Hbad _ Hc)).
    assert (Hst : starts_at (text ++ "/"%char :: d) = false).
    { rewrite Hsel. cbn. apply bool_decide_eq_false_2. intros ->. assert (Hc : "@"%char ∈ text ++ "/"%char :: d) by (rewrite Hsel; left).
      by destruct (Hbad _ Hc). }
    rewrite Hst, (has_in _ "/"%char) by (apply elem_of_app; right; left). by rewrite orb_true_r. }
  rewrite Hparts. cbn [mbind option_bind principal_parse]. rewrite Hnet. done.
Qed.

(** What matching reads of two addresses of family 4. *)
Lemma address_differs_agree r r' s s' :
  family r = 4 -> family r' = 4 -> prefix r' = prefix r -> 0 <= prefix r <= 32 -> s_family s' = s_family s ->
  take 4 (address r') = take 4 (address r) -> take 4 (s_address s') = take 4 (s_address s) ->
  address_differs r' s' = address_differs r s.
Proof.
  intros Hf Hf' Hp Hr Hsf Ha Hsa. unfold address_differs. rewrite Hf, Hf', Hp, Hsf.
  assert (Hn : 0 <= prefix r / 8 <= 4) by (split; [apply Z.div_pos; lia | apply Z.div_le_upper_bound; lia]).
  assert (Htake : forall x y : list Z, take 4 x = take 4 y -> take (Z.to_nat (prefix r / 8)) x = take (Z.to_nat (prefix r / 8)) y).
  { intros x y Hxy. replace (Z.to_nat (prefix r / 8)) with (Nat.min (Z.to_nat (prefix r / 8)) 4) by lia.
    by rewrite <- !take_take, Hxy. }
  rewrite (Htake _ _ Ha), (Htake _ _ Hsa). do 2 f_equal.
  destruct (Z.eqb_spec (prefix r mod 8) 0) as [Hz | Hz]; [done |]. cbn [negb andb].
  assert (Hlt : prefix r / 8 < 4).
  { apply Z.div_lt_upper_bound; [lia |]. destruct (Z.eq_dec (prefix r) 32) as [Heq |]; [rewrite Heq in Hz; done | lia]. }
  assert (Hbyte : forall x y : list Z, take 4 x = take 4 y -> byte_at x (prefix r / 8) = byte_at y (prefix r / 8)).
  { intros x y Hxy. unfold byte_at. rewrite <- (lookup_take_lt x 4), <- (lookup_take_lt y 4) by lia. by rewrite Hxy. }
  by rewrite (Hbyte _ _ Ha), (Hbyte _ _ Hsa).
Qed.

Lemma mapped_parse ip a : inet_pton4 ip = Some a -> address_parse (B "::ffff:" ++ ip) = Some (mapped_prefix ++ a, 6).
Proof.
  intros Hp. unfold address_parse. destruct (inet_pton4 (B "::ffff:" ++ ip)) as [x |] eqn:Hx.
  - apply pton4_text in Hx as [Hx _]. done.
  - by rewrite (pton6_mapped ip a Hp).
Qed.

Lemma mapped_mapped a : mapped (mapped_prefix ++ a) = true.
Proof. unfold mapped. apply bool_decide_eq_true_2. done. Qed.

Lemma take4_unmap a : length a = 4%nat -> take 4 (unmap (mapped_prefix ++ a)) = a.
Proof. do 5 (destruct a as [| ? a]; try done). Qed.

Lemma take4_pad (a z : list Z) : length a = 4%nat -> take 4 (a ++ z) = a.
Proof. intros Ha. rewrite <- Ha at 1. apply take_app_length. Qed.

(** [network_parse] on an address with a prefix. *)
Lemma network_parse_prefix text q b fam :
  "/"%char ∉ text -> (length text <= 22)%nat -> 0 <= q <= 128 -> address_parse text = Some (b, fam) ->
  network_parse (text ++ "/"%char :: print_dec q) =
    if (if fam =? 4 then 32 else 128) <? q then None
    else if (fam =? 6) && mapped b && (96 <=? q) then Some (unmap b, 4, q - 96) else Some (b, fam, q).
Proof.
  intros Hsl Hl Hq Hparse. destruct (prefix_text q Hq) as (Hpre & _ & Hne & Hld). unfold network_parse.
  assert (Hin : "/"%char ∈ text ++ "/"%char :: print_dec q) by (apply elem_of_app; right; left).
  assert (Hall : is_all (text ++ "/"%char :: print_dec q) = false).
  { unfold is_all, streq. rewrite !bool_decide_false; [done | |]; intros Heq; rewrite Heq in Hin;
      by apply (bool_decide_eq_true_2 _) in Hin; vm_compute in Hin. }
  rewrite Hall. destruct (Nat.leb_spec 64 (length (text ++ "/"%char :: print_dec q))) as [Hbig |];
    [rewrite length_app in Hbig; cbn in Hbig; lia |].
  unfold split_prefix. rewrite split_at_slash by done.
  destruct (print_dec q) as [| c d] eqn:Hd; [done |]. rewrite Hpre. cbn [mbind option_bind]. by rewrite Hparse.
Qed.

Lemma plain_chars ip a : inet_pton4 ip = Some a -> address_chars ip.
Proof.
  intros Hip. destruct (pton4_text ip a Hip) as [Hdot _]. apply Forall_forall. intros c Hc.
  destruct (dotted_char ip c Hdot Hc); auto.
Qed.

Lemma mapped_chars ip a : inet_pton4 ip = Some a -> address_chars (B "::ffff:" ++ ip).
Proof.
  intros Hip. apply Forall_app. split; [| by eapply plain_chars]. repeat (constructor; [by vm_compute; auto |]). constructor.
Qed.

(** IPv4-mapped addresses are the IPv4 addresses: [::ffff:ip/96+p] parses
    to a rule that decides every subject as [ip/p] does, and every rule decides
    a subject at [::ffff:ip] as one at [ip]. *)
Theorem acl_mapped_equal (al : bool) (ip : bstr) (a : list Z) (p : Z) (user : option bstr) (g : option (bstr -> bool))
    (Hip : inet_pton4 ip = Some a) (Hp : 0 <= p <= 32) :
  (exists r r', acl_rule_parse al (Some (ip ++ "/"%char :: print_dec p)) = Some r /\
    acl_rule_parse al (Some ((B "::ffff:" ++ ip) ++ "/"%char :: print_dec (p + 96))) = Some r' /\
    forall s, acl_rule_match (Some r') s = acl_rule_match (Some r) s) /\
  exists s s', acl_subject_init (Some ip) user g = (true, s) /\
    acl_subject_init (Some (B "::ffff:" ++ ip)) user g = (true, s') /\
    forall sel r, acl_rule_parse al sel = Some r -> acl_rule_match (Some r) (Some s') = acl_rule_match (Some r) (Some s).
Proof.
  destruct (pton4_bytes ip a Hip) as [Hla _]. destruct (pton4_text ip a Hip) as [_ Hlen].
  assert (H4 : address_parse ip = Some (a ++ replicate 12 0, 4)) by (unfold address_parse; by rewrite Hip).
  pose proof (mapped_parse ip a Hip) as H6.
  assert (Hs4 : "/"%char ∉ ip) by by eapply plain_not_in.
  assert (Hs6 : "/"%char ∉ B "::ffff:" ++ ip).
  { intros [Hin | Hin]%elem_of_app; [| done]. by apply (bool_decide_eq_true_2 _) in Hin; vm_compute in Hin. }
  assert (Hl6 : (length (B "::ffff:" ++ ip) <= 22)%nat) by (rewrite length_app; cbn; lia).
  assert (H4u : take 4 (unmap (mapped_prefix ++ a)) = take 4 (a ++ replicate 12 0)) by (by rewrite take4_unmap, take4_pad).
  split.
  - do 2 eexists. split; [apply network_selector; [by eapply plain_chars | lia | lia |] |].
    { rewrite (network_parse_prefix ip p _ 4 Hs4 ltac:(lia) ltac:(lia) H4). rewrite (proj2 (Z.ltb_ge _ _)) by (cbn; lia). done. }
    split; [apply network_selector; [by eapply mapped_chars | done | lia |] |].
    { rewrite (network_parse_prefix _ (p + 96) _ 6 Hs6 Hl6 ltac:(lia) H6), mapped_mapped.
      rewrite (proj2 (Z.ltb_ge _ _)), (proj2 (Z.leb_le _ _)) by (cbn; lia). cbn [andb Z.eqb Pos.eqb]. by rewrite Z.add_simpl_r. }
    intros [s |]; [| done]. rewrite !acl_rule_match_split. unfold verdict, principal_test. cbn [family allow kind].
    rewrite (address_differs_agree (AclRule (a ++ replicate 12 0) 4 p ACL_ANY [] al) _ s s); try done.
  - unfold acl_subject_init. rewrite H4, H6, mapped_mapped. cbn [Z.eqb Pos.eqb andb]. do 2 eexists. split; [done |]. split; [done |].
    intros sel r [[Hra Hrf Hrp] _]%acl_rule_parse_wf. rewrite !acl_rule_match_split. unfold verdict, principal_test.
    cbn [s_family s_user in_group ignore_case].
    destruct (Z.eq_dec (family r) 4) as [Hf | Hf].
    + rewrite (address_differs_agree r r (AclSubject (a ++ replicate 12 0) 4 user g false)); try done. by rewrite Hf in Hrp.
    + unfold address_differs. cbn [s_family]. rewrite (proj2 (Z.eqb_neq _ _) Hf). cbn [negb andb]. by rewrite !orb_true_r.
Qed.
End acl.

(** ** Instances: a table of addresses in place of [inet_pton] *)

Definition table4 : list (bstr * list Z) :=
  [(B "10.0.0.0", [10; 0; 0; 0]); (B "10.1.2.3", [10; 1; 2; 3]); (B "192.0.2.7", [192; 0; 2; 7])].

Fixpoint look_up (t : list (bstr * list Z)) (s : bstr) : option (list Z) :=
  match t with [] => None | (k, a) :: t => if streq k s then Some a else look_up t s end.

#[local] Instance table_pton : InetPton := {
  inet_pton4 := look_up table4;
  inet_pton6 s := if streq (take 7 s) (B "::ffff:") then (fun a => mapped_prefix ++ a) <$> look_up table4 (drop 7 s) else None
}.

Lemma look_up_in t s a : look_up t s = Some a -> (s, a) ∈ t.
Proof.
  induction t as [| [k b] t IH]; cbn; [done |]. destruct (streq k s) eqn:Hk.
  - intros [= ->]. apply streq_true in Hk as ->. left.
  - intros Ha. right. by apply IH.
Qed.

Definition table_entry_ok (e : bstr * list Z) : bool :=
  (length e.2 =? 4)%nat && forallb (fun z => (0 <=? z) && (z <? 256)) e.2 && dotted e.1 && (length e.1 <=? 15)%nat.

Lemma table_entry s a :
  look_up table4 s = Some a -> length a = 4%nat /\ Forall is_byte a /\ dotted s = true /\ (length s <= 15)%nat.
Proof.
  intros Hin%look_up_in%list_elem_of_In. assert (Hall : forallb table_entry_ok table4 = true) by by vm_compute.
  rewrite forallb_forall in Hall. specialize (Hall _ Hin). unfold table_entry_ok in Hall. cbn [fst snd] in Hall.
  apply andb_prop in Hall as [Hall H4%Nat.leb_le]. apply andb_prop in Hall as [Hall H3]. apply andb_prop in Hall as [H1%Nat.eqb_eq H2].
  split_and!; [done | | done | done]. apply Forall_forall. intros z Hz%list_elem_of_In. rewrite forallb_forall in H2.
  specialize (H2 z Hz). unfold is_byte. lia.
Qed.

#[local] Instance table_laws : InetPtonLaws.
Proof.
  split; cbn [inet_pton4 inet_pton6 table_pton].
  - intros s a Ha. destruct (table_entry s a Ha) as (? & ? & _). done.
  - intros s a. destruct (streq _ _); [| done]. destruct (look_up table4 (drop 7 s)) as [b |] eqn:Hb; [| done].
    intros [= <-]. destruct (table_entry _ _ Hb) as (Hl & Hby & _). split; [cbn; by rewrite Hl |].
    unfold is_byte in *. repeat (constructor; [lia |]). done.
  - intros s a Ha. destruct (table_entry s a Ha) as (_ & _ & ? & ?). done.
  - intros s a Ha. change (take 7 (B "::ffff:" ++ s)) with (B "::ffff:"). change (drop 7 (B "::ffff:" ++ s)) with s. by rewrite streq_refl, Ha.
Qed.

Definition guest_rule : acl_rule := AclRule (10 :: replicate 15 0) 4 8 ACL_USER (B "guest") true.
Definition guest : acl_subject := AclSubject ([10; 1; 2; 3] ++ replicate 12 0) 4 (Some (B "guest")) None false.

Lemma acl_match_exact_witness :
  acl_rule_parse true (Some (B "guest@10.0.0.0/8")) = Some guest_rule /\
  acl_subject_init (Some (B "::ffff:10.1.2.3")) (Some (B "guest")) None = (true, AclSubject (unmap (mapped_prefix ++ [10; 1; 2; 3])) 4 (Some (B "guest")) None false) /\
  acl_rule_match (Some guest_rule) (Some guest) = ACL_ALLOW.
Proof.
  assert (Hr : acl_rule_parse true (Some (B "guest@10.0.0.0/8")) = Some guest_rule) by (vm_compute; reflexivity).
  assert (Hs : acl_subject_init (Some (B "10.1.2.3")) (Some (B "guest")) None = (true, guest)) by (vm_compute; reflexivity).
  split; [exact Hr |]. split; [vm_compute; reflexivity |].
  apply (proj2 (proj1 (acl_match_exact true _ _ _ _ guest_rule guest Hr Hs))). split; [reflexivity |]. split.
  - right. split; [discriminate |]. split; [reflexivity |]. intros i Hi. cbn [prefix guest_rule] in Hi.
    assert (Hc : i = 0 \/ i = 1 \/ i = 2 \/ i = 3 \/ i = 4 \/ i = 5 \/ i = 6 \/ i = 7) by lia.
    repeat destruct Hc as [-> | Hc]; try subst i; reflexivity.
  - exists (B "guest"). split; reflexivity.
Defined.

Definition rules_demo : list acl_rule :=
  [AclRule (10 :: replicate 15 0) 4 8 ACL_ANY [] true; AclRule no_address 0 0 ACL_USER (B "guest") false].

Lemma acl_decision_final_witness :
  acl_check (Some rules_demo) (Some (AclSubject (10 :: replicate 15 0) 4 None None false)) = ACL_ALLOW /\
  acl_check (Some rules_demo) (Some (AclSubject (10 :: replicate 15 0) 4 (Some (B "guest")) None false)) = ACL_ALLOW /\
  acl_check (Some rules_demo) (Some (AclSubject no_address 0 (Some (B "guest")) None false)) = ACL_DEFER.
Proof.
  assert (H1 : acl_check (Some rules_demo) (Some (AclSubject (10 :: replicate 15 0) 4 None None false)) = ACL_ALLOW) by (vm_compute; reflexivity).
  split; [exact H1 |]. split; [| vm_compute; reflexivity].
  refine (eq_trans (proj1 (acl_decision_final rules_demo (AclSubject (10 :: replicate 15 0) 4 None None false) _ _ _)) H1).
  - split; [split; reflexivity |]. split; [discriminate |]. split; reflexivity.
  - rewrite H1. discriminate.
Defined.

Lemma acl_mapped_equal_witness :
  exists r r', acl_rule_parse false (Some (B "10.1.2.3/24")) = Some r /\
    acl_rule_parse false (Some (B "::ffff:10.1.2.3/120")) = Some r' /\
    acl_rule_match (Some r') (Some guest) = acl_rule_match (Some r) (Some guest).
Proof.
  destruct (acl_mapped_equal false (B "10.1.2.3") [10; 1; 2; 3] 24 None None) as [(r & r' & H1 & H2 & H3) _];
    [vm_compute; reflexivity | lia |].
  exists r, r'. split; [exact H1 |]. split; [exact H2 |]. exact (H3 (Some guest)).
Defined.
