(* ===== verification/ConfigText.v ===== *)
(** * Configuration text (config.c: the scanner of [cfg_load_depth])

    How the loader turns the bytes of a file into logical lines: reading with
    [fgets], joining continued lines, unescaping a leading backslash, removing
    comments, and recognising includes, sections and settings.  A buffer is the
    text before its NUL; [skip] is an offset into it. *)

From S2P Require Import Prelude CString.

#[local] Open Scope nat_scope.

Definition LF : ascii := chr 10.
Definition CR : ascii := chr 13.
Definition TAB : ascii := chr 9.
Definition BACKSLASH : ascii := chr 92.
Definition DQUOTE : ascii := chr 34.
Definition SQUOTE : ascii := chr 39.

(** Abbreviation for comparing characters as the C code does. *)
Definition ceq (c d : ascii) : bool := bool_decide (c = d).
Arguments ceq _ _%_char.

Definition is_eol (c : ascii) : bool := ceq c CR || ceq c LF.
Definition is_blank (c : ascii) : bool := ceq c " " || ceq c TAB.

(** [sizeof(buf)] and [PATH_MAX] *)
Definition BUFSZ : nat := Z.to_nat 32768.
Definition PATH_MAX : nat := Z.to_nat 4096.

(** ** Buffers *)

(** What a string function sees of an array: the bytes before the first NUL. *)
Fixpoint cstr (s : bstr) : bstr :=
  match s with
  | [] => []
  | c :: s => if ceq c NUL then [] else c :: cstr s
  end.

(** At most [n] bytes of the file, up to and including a newline, and the rest. *)
Fixpoint take_line (n : nat) (fp : bstr) : bstr * bstr :=
  match n, fp with
  | S n, c :: fp => if ceq c LF then ([c], fp) else let '(l, fp) := take_line n fp in (c :: l, fp)
  | _, _ => ([], fp)
  end.

(** [fgets(buf, n, fp)]; [None] is the NULL it returns at the end of the file. *)
Definition fgets (n : nat) (fp : bstr) : option (bstr * bstr) :=
  match fp with
  | [] => None
  | _ => let '(l, fp) := take_line (n - 1) fp in Some (cstr l, fp)
  end.

(** [while (end >= buf && p( *end)) *end-- = 0] *)
Fixpoint rtrim (p : ascii -> bool) (s : bstr) : bstr :=
  match s with
  | [] => []
  | c :: s =>
      match rtrim p s with
      | [] => if p c then [] else [c]
      | r => c :: r
      end
  end.

Fixpoint skip_while (p : ascii -> bool) (s : bstr) : bstr :=
  match s with
  | c :: s' => if p c then skip_while p s' else s
  | [] => []
  end.

Definition ends_with (s : bstr) (c : ascii) : bool := bool_decide (last s = Some c).
Definition starts_with (s : bstr) (c : ascii) : bool := bool_decide (head s = Some c).
Definition chop (s : bstr) : bstr := take (length s - 1) s.
Definition nonempty (s : bstr) : bool := match s with [] => false | _ => true end.

(** [strncat(s, t, sizeof(buf) - strlen(s) - 1)] *)
Definition buf_cat (s t : bstr) : bstr := s ++ take (BUFSZ - length s - 1) t.

(** The length of the leading white space: [skip - buf]. *)
Definition indent_of (s : bstr) : nat := length s - length (skip_space s).

(** ** Continued lines *)

(** The buffer, the line number and the rest of the file.  Each turn reads at
    least one byte, so the length of the file is enough fuel. *)
Fixpoint continue_line (fuel : nat) (buf : bstr) (line : Z) (fp : bstr) : option (bstr * Z * bstr) :=
  match fuel with
  | O => None
  | S fuel =>
      let buf := rtrim is_blank (rtrim is_eol buf) in
      if negb (ends_with buf BACKSLASH) then Some (buf, line, fp)
      else
        let buf := chop buf in
        let space_before := ends_with buf " "%char in
        let buf := rtrim is_blank buf in
        match fgets BUFSZ fp with
        | None => Some (buf, line, fp)
        | Some (contbuf, fp) =>
            let cont := rtrim isspace (skip_space contbuf) in
            let buf := if space_before && nonempty buf then buf_cat buf [" "%char] else buf in
            continue_line fuel (buf_cat buf cont) (line + 1) fp
        end
  end.

(** ** Escaped comment characters *)

Definition comment_char (c : ascii) : bool := ceq c "#" || ceq c ";" || ceq c BACKSLASH.

(** [*skip == '\\'] and what may follow it. *)
Definition escaped_lead (s : bstr) : bool :=
  match s with
  | c :: d :: s => ceq c BACKSLASH && (comment_char d || (ceq d "/" && starts_with s "/"%char))
  | _ => false
  end.

(** The loop that unescapes the rest of the line: the character after a removed
    backslash is passed over. *)
Fixpoint unescape (s : bstr) : bstr :=
  match s with
  | [] => []
  | c :: s' =>
      match s' with
      | d :: t => if ceq c BACKSLASH && comment_char d then d :: unescape t else c :: unescape s'
      | [] => [c]
      end
  end.

(** The buffer after unescaping from the offset [skip] of its first physical
    line, and whether it was escaped. *)
Definition unescape_line (skip : nat) (buf : bstr) : bool * bstr :=
  let s := drop skip buf in
  if escaped_lead s then (true, take skip buf ++ unescape (drop 1 s)) else (false, buf).

(** ** Comments *)

(** [//], [#] or [;] at the start *)
Definition comment_lead (s : bstr) : bool :=
  match s with
  | c :: s => (ceq c "/" && starts_with s "/"%char) || ceq c "#" || ceq c ";"
  | [] => false
  end.

(** The block-comment scanner: what is kept, and whether the line ends inside
    a comment. *)
Fixpoint strip (in_comment : bool) (quote : option ascii) (s : bstr) : bstr * bool :=
  match s with
  | [] => ([], in_comment)
  | c :: s1 =>
      if in_comment then
        match s1 with
        | d :: s2 => if ceq c "*" && ceq d "/" then strip false quote s2 else strip true quote s1
        | [] => strip true quote s1
        end
      else
        match quote with
        | Some q =>
            match s1 with
            | d :: s2 =>
                if ceq c BACKSLASH then let '(r, b) := strip false quote s2 in (c :: d :: r, b)
                else let '(r, b) := strip false (if ceq c q then None else quote) s1 in (c :: r, b)
            | [] => ([c], false)
            end
        | None =>
            if ceq c DQUOTE || ceq c SQUOTE then let '(r, b) := strip false (Some c) s1 in (c :: r, b)
            else
              match s1 with
              | d :: s2 =>
                  if ceq c "/" && ceq d "*" then strip true None s2
                  else let '(r, b) := strip false None s1 in (c :: r, b)
              | [] => ([c], false)
              end
        end
  end.

(** A line of a documentation comment that lost its opening. *)
Definition orphan_star (s : bstr) : bool :=
  match s with
  | c :: s => ceq c "*" && (starts_with s "/"%char || match s with d :: _ => isspace d | [] => false end)
  | [] => false
  end.

(** ** Includes, sections, settings *)

(** Whether the include is optional, and its path. *)
Definition include_of (s : bstr) : option (bool * bstr) :=
  let optional := starts_with s "!"%char in
  if (optional || starts_with s "."%char) && strncaseeq (drop 1 s) (B "include") 7 then
    if match drop 8 s with [] => true | c :: _ => is_blank c || ceq c "=" end then
      Some (optional, skip_while (fun c => is_blank c || ceq c "=") (drop 8 s))
    else None
  else None.

(** The text before the last [q], for [strrchr]. *)
Fixpoint before_last (q : ascii) (s : bstr) : option bstr :=
  match s with
  | [] => None
  | c :: s =>
      match before_last q s with
      | Some r => Some (c :: r)
      | None => if ceq c q then Some [] else None
      end
  end.

Definition unquote (s : bstr) : bstr :=
  match s with
  | c :: s' => if ceq c DQUOTE || ceq c SQUOTE then default s' (before_last c s') else s
  | [] => []
  end.

(** [dirname]: everything before the last component, without its slashes. *)
Definition dirname (p : bstr) : bstr :=
  let slash := fun c => ceq c "/" in
  let s := rtrim (fun c => negb (slash c)) (rtrim slash p) in
  if nonempty s then (if nonempty (rtrim slash s) then rtrim slash s else B "/")
  else if starts_with p "/"%char then B "/" else B ".".

(** An include path seen from the file that names it. *)
Definition resolve (path include_path : bstr) : bstr :=
  if starts_with include_path "/"%char then take (PATH_MAX - 1) include_path
  else take (PATH_MAX - 1) (dirname (take (PATH_MAX - 1) path) ++ B "/" ++ include_path).

(** The name of a section header. *)
Definition section_of (s : bstr) : option bstr :=
  if starts_with s "["%char && ends_with s "]"%char then
    Some (take (Nat.min (length s - 2) 127) (drop 1 s))
  else None.

(** Key and value around the first [=]; blanks before the value are skipped. *)
Definition setting_of (s : bstr) : option (bstr * bstr) :=
  '(key, val) ← split_at s "="%char; Some (key, skip_while is_blank val).

(** ** Formatting escapes *)

Definition cfg_formatting_key (key : bstr) : bool :=
  strneq key (B "theme.") 6 || strneq key (B "ui.theme.") 9 ||
  streq key (B "tui.status-line") || streq key (B "tui.room-status-line").

(** The control character of an escape letter; 0 is none. *)
Definition control_of (c : ascii) : Z :=
  if ceq c "B" then 0x02 else if ceq c "C" then 0x03 else if ceq c "I" then 0x1d else if ceq c "O" then 0x0f
  else if ceq c "R" then 0x16 else if ceq c "S" then 0x1e else if ceq c "U" then 0x1f else if ceq c "M" then 0x11 else 0.

(** Up to [n] digits copied, and the rest. *)
Fixpoint copy_digits (n : nat) (s : bstr) : bstr * bstr :=
  match n, s with
  | S n, c :: s' => if isdigit c then let '(d, r) := copy_digits n s' in (c :: d, r) else ([], s)
  | _, _ => ([], s)
  end.

(** The colour numbers after the control character 3. *)
Definition copy_colour (s : bstr) : bstr * bstr :=
  let '(fg, s) := copy_digits 2 s in
  match s with
  | c :: d :: _ =>
      if ceq c "," && isdigit d then let '(bg, r) := copy_digits 2 (drop 1 s) in (fg ++ c :: bg, r) else (fg, s)
  | _ => (fg, s)
  end.

(** Every turn consumes a character: the length is enough fuel. *)
Fixpoint expand_escapes (fuel : nat) (src : bstr) : bstr :=
  match fuel, src with
  | S fuel, c :: s =>
      match s with
      | d :: t =>
          if ceq c BACKSLASH then
            if ceq d BACKSLASH then BACKSLASH :: expand_escapes fuel t
            else if Z.eqb (control_of d) 0 then c :: expand_escapes fuel s
            else if Z.eqb (control_of d) 3 then
              let '(colour, r) := copy_colour t in chr 3 :: colour ++ expand_escapes fuel r
            else chr (control_of d) :: expand_escapes fuel t
          else c :: expand_escapes fuel s
      | [] => [c]
      end
  | _, _ => []
  end.

Definition cfg_expand_format_escapes (value : bstr) : bstr := expand_escapes (length value) value.
