(* ===== verification/Config.v ===== *)
(** * Loading a configuration (config.c)

    The loader over a file system, the registered section callbacks and the
    pattern matcher.  [Exits] is a call of [exit]; [Stuck] is a dictionary
    operation that does not return. *)

From S2P Require Import Prelude CString Dict ConfigText.

#[local] Open Scope Z_scope.

(** ** Outcomes *)
Inductive run (A : Type) := Ret (a : A) | Exits | Stuck.
Arguments Ret {A} _.
Arguments Exits {A}.
Arguments Stuck {A}.

#[export] Instance run_ret : MRet run := fun A a => Ret a.
#[export] Instance run_bind : MBind run := fun A B f m =>
  match m with Ret a => f a | Exits => Exits | Stuck => Stuck end.

Definition lift {A} (r : option A) : run A := match r with Some a => Ret a | None => Stuck end.

(** ** What the loader calls

    The files as [stat] and [fopen] see them, glob patterns, and the section
    callbacks of other modules: one may add to the dictionary under construction
    and change its own state [W]. *)
Class Files := {
  file_exists : bstr -> bool;
  fopen_r : bstr -> option bstr
}.

Class SectionHandlers (W : Type) := {
  fnmatch : bstr -> bstr -> bool;
  section_cb : Z -> bstr -> Z -> bstr -> bstr -> dict -> W -> bool * dict * W
}.

(** [cfg_cb_list_t]: the callback is a function pointer. *)
Record cfg_cb := CfgCb { cb_section : bstr; cb_path : option bstr; cb_fn : Z }.

(** [cfg_add_callback] appends; NULL sections and callbacks are refused. *)
Definition cfg_add_callback (cbs : list cfg_cb) (path section : option bstr) (cb : Z) : bool * list cfg_cb :=
  match section with
  | Some section => if cb =? 0 then (false, cbs) else (true, cbs ++ [CfgCb section path cb])
  | None => (false, cbs)
  end.

Section loader.
Context {W : Type} `{Files} `{SectionHandlers W}.
Variables (cfg_callbacks : list cfg_cb) (cfg_ignore_unknown_sections : bool).

(** The variables of [cfg_load_depth] that one line leaves to the next, with the
    allocator and the callbacks' state. *)
Record loader := Loader {
  in_comment : bool; this_section : bstr; newcfg : dict; errors : Z; heap : allocs; world : W }.

Definition failed (st : loader) : loader :=
  Loader (in_comment st) (this_section st) (newcfg st) (errors st + 1) (heap st) (world st).

Definition with_dict (st : loader) (d : dict) (o : allocs) : loader :=
  Loader (in_comment st) (this_section st) d (errors st) o (world st).

(** ** Section callbacks *)

Definition cb_matches (path section : bstr) (cb : cfg_cb) : bool :=
  fnmatch (cb_section cb) section && match cb_path cb with Some p => fnmatch p path | None => true end.

Fixpoint cfg_dispatch_callback (cbs : list cfg_cb) (matched : bool) (path : bstr) (line : Z) (section buf : bstr)
    (d : dict) (w : W) : bool * dict * W :=
  match cbs with
  | [] => (matched, d, w)
  | cb :: cbs =>
      if negb (cb_matches path section cb) then cfg_dispatch_callback cbs matched path line section buf d w
      else
        let '(ok, d, w) := section_cb (cb_fn cb) path line section buf d w in
        if negb ok then (false, d, w) else cfg_dispatch_callback cbs true path line section buf d w
  end.

Definition other_section (path : bstr) (line : Z) (buf : bstr) (st : loader) : loader :=
  if existsb (cb_matches path (this_section st)) cfg_callbacks then
    let '(ok, d, w) :=
      cfg_dispatch_callback cfg_callbacks false path line (this_section st) buf (newcfg st) (world st) in
    let st := Loader (in_comment st) (this_section st) d (errors st) (heap st) w in
    if ok then st else failed st
  else if cfg_ignore_unknown_sections then st else failed st.

(** ** Settings *)

(** [char fullkey[256]] filled with [strlcpy] and [strlcat]. *)
Definition fullkey (parts : list bstr) : bstr := take 255 (concat parts).

(** [dict_add]; whether its failure counts as an error of the file. *)
Definition store_setting (st : loader) (key val : bstr) (counted : bool) : run loader :=
  '(rc, d, o) ← lift (dict_add (heap st) (newcfg st) (Some key) (Some val));
  let st := with_dict st d o in
  Ret (if counted && negb (rc =? 0) then failed st else st).

Definition general_setting (s : bstr) (st : loader) : run loader :=
  match setting_of s with
  | None => Ret st
  | Some (key, val) =>
      let key := rtrim is_blank key in
      let val := if cfg_formatting_key key then cfg_expand_format_escapes val else val in
      store_setting st key val true
  end.

(** [[server:name]] and [[theme:name]] *)
Definition named_setting (s : bstr) (st : loader) : run loader :=
  match setting_of s with
  | None => Ret st
  | Some (key, val) =>
      let theme := strncaseeq (this_section st) (B "theme:") 6 in
      let name := drop (if theme then 6 else 7) (this_section st) in
      store_setting st (fullkey [B (if theme then "theme:" else "server:"); name; B "."; key]) val false
  end.

(** [[callsign-lookup]] and [[site]] *)
Definition prefixed_setting (prefix : bstr) (s : bstr) (st : loader) : run loader :=
  match setting_of s with
  | None => Ret st
  | Some (key, val) =>
      let key := rtrim is_blank key in
      if nonempty key then store_setting st (fullkey [prefix; key]) val false else Ret st
  end.

(** A line of the current section. *)
Definition section_line (path : bstr) (line : Z) (buf s : bstr) (st : loader) : run loader :=
  let sec := this_section st in
  if negb (nonempty sec) then Ret (failed st)
  else if strcaseeq sec (B "general") then general_setting s st
  else if strncaseeq sec (B "server:") 7 || strncaseeq sec (B "theme:") 6 then named_setting s st
  else if strcaseeq sec (B "callsign-lookup") then prefixed_setting (B "callsign-lookup:") s st
  else if strcaseeq sec (B "site") then prefixed_setting (B "site:") s st
  else Ret (other_section path line buf st).

(** ** Includes *)

(** [load] reads a file one level deeper; there is none at the deepest level. *)
Definition include_line (load : option (bstr -> allocs -> W -> run (option dict * allocs * W)))
    (path : bstr) (optional : bool) (arg : bstr) (st : loader) : run loader :=
  let refuse := if optional then Ret (failed st) else Exits in
  let include_path := unquote arg in
  if negb (nonempty include_path) then refuse
  else
    match load with
    | None => refuse
    | Some load =>
        let resolved := resolve path include_path in
        if negb (file_exists resolved) then if optional then Ret st else Exits
        else
          '(included, o, w) ← load resolved (heap st) (world st);
          let st := Loader (in_comment st) (this_section st) (newcfg st) (errors st) o w in
          match included with
          | None => if optional then Ret (failed st) else Exits
          | Some included =>
              '(rc, d, o) ← lift (dict_merge (heap st) (newcfg st) (Some included));
              let st := with_dict st d o in
              if rc =? 0 then Ret st else if optional then Ret (failed st) else Exits
          end
    end.

(** ** Lines *)

(** A logical line: [lead] is the white space before [text], which was escaped
    or not. *)
Definition parse_line load (path : bstr) (line : Z) (escaped : bool) (lead text : bstr) (st : loader) : run loader :=
  if negb (in_comment st) && negb escaped && comment_lead text then Ret st
  else
    let '(kept, inside) := strip (in_comment st) None text in
    let s := rtrim isspace kept in
    let st := Loader inside (this_section st) (newcfg st) (errors st) (heap st) (world st) in
    if negb (nonempty s) then Ret st
    else if negb (nonempty (this_section st)) && orphan_star s then Ret st
    else if negb escaped && comment_lead s then Ret st
    else
      match include_of s with
      | Some (optional, arg) => include_line load path optional arg st
      | None =>
          match section_of s with
          | Some name => Ret (Loader (in_comment st) name (newcfg st) (errors st) (heap st) (world st))
          | None => section_line path line (lead ++ s) s st
          end
      end.

(** The joined buffer, from the offset of its first physical line. *)
Definition logical_line load (path : bstr) (line : Z) (skip : nat) (buf : bstr) (st : loader) : run loader :=
  let '(escaped, buf) := unescape_line skip buf in
  parse_line load path line escaped (take (indent_of buf) buf) (skip_space buf) st.

Fixpoint load_lines load (path : bstr) (fuel : nat) (line : Z) (fp : bstr) (st : loader) : run loader :=
  match fuel with
  | O => Stuck
  | S fuel =>
      match fgets (BUFSZ - 1) fp with
      | None => Ret st
      | Some (buf, fp) =>
          let line := line + 1 in
          let skip := indent_of buf in
          let buf := rtrim (fun c => is_eol c || is_blank c) buf in
          if negb (nonempty (drop skip buf)) && negb (in_comment st) then load_lines load path fuel line fp st
          else
            '(buf, line, fp) ← lift (continue_line (S (length fp)) buf line fp);
            st ← logical_line load path line skip buf st;
            load_lines load path fuel line fp st
      end
  end.

(** [cfg_load_depth(path, 4 - levels)]: an include needs a level below. *)
Fixpoint cfg_load_depth (levels : nat) (path : bstr) (o : allocs) (w : W) : run (option dict * allocs * W) :=
  if negb (file_exists path) then Ret (None, o, w)
  else
    match dict_new o with
    | (None, _) => Exits
    | (Some d, o) =>
        match fopen_r path with
        | None => Ret (None, o, w)
        | Some text =>
            let load := match levels with O => None | S levels => Some (cfg_load_depth levels) end in
            st ← load_lines load path (S (length text)) 0 text (Loader false [] d 0 o w);
            Ret (Some (newcfg st), heap st, world st)
        end
    end.

Definition cfg_load (path : bstr) (o : allocs) (w : W) : run (option dict * allocs * W) := cfg_load_depth 4 path o w.

End loader.
Arguments loader : clear implicits.
Arguments Loader {W}.
