(* ===== verification/ConfigRef.v ===== *)
(** * What a configuration file says

    First the reading of a file as relations, rule by rule, without the scanner of
    [ConfigText]: physical lines, joined lines, escapes, comments, and what a line
    is.  Then a function that computes the reading, and the proof that it does;
    the theorem that the loader follows it is in [ConfigSpec]. *)

From S2P Require Import Prelude CString Dict DictTheory ConfigText Config.

#[local] Open Scope Z_scope.

Abbreviation settings := (list (bstr * bstr)).

(** ** Characters and ends *)

Definition end_of_line (c : ascii) : Prop := c = CR \/ c = LF.
Definition blank (c : ascii) : Prop := c = " "%char \/ c = TAB.
Definition space (c : ascii) : Prop := isspace c = true.
Definition quote_mark (c : ascii) : Prop := c = DQUOTE \/ c = SQUOTE.

(** [t] is [s] without the characters [P] at its end; or [s] is [lead], of
    characters [P], and [t], which starts with none. *)
Definition ends_cut (P : ascii -> Prop) (s t : bstr) : Prop :=
  exists u, s = t ++ u /\ Forall P u /\ forall c, last t = Some c -> ~ P c.
Definition start_cut (P : ascii -> Prop) (s lead t : bstr) : Prop :=
  s = lead ++ t /\ Forall P lead /\ forall c, head t = Some c -> ~ P c.

(** ** Lines of the file *)

(** At most [n] bytes: up to a newline, or as many as there are. *)
Inductive raw_line (n : nat) : bstr -> bstr -> bstr -> Prop :=
  | raw_newline l rest : LF ∉ l -> (length l < n)%nat -> raw_line n (l ++ LF :: rest) (l ++ [LF]) rest
  | raw_long l c rest : LF ∉ l -> length l = n -> raw_line n (l ++ c :: rest) l (c :: rest)
  | raw_end c l : LF ∉ c :: l -> (length (c :: l) <= n)%nat -> raw_line n (c :: l) (c :: l) [].

(** The text in a buffer: what is before a NUL. *)
Definition buffer_text (raw l : bstr) : Prop := NUL ∉ l /\ (raw = l \/ exists rest, raw = l ++ NUL :: rest).

Definition reads_line (n : nat) (fp l rest : bstr) : Prop := exists raw, raw_line n fp raw rest /\ buffer_text raw l.

(** A line that ends in a backslash goes on with the next one, one blank between
    them if there was a blank before the backslash; the buffer holds 32767 bytes. *)
Definition line_ended (buf t : bstr) : Prop := exists m, ends_cut end_of_line buf m /\ ends_cut blank m t.

Inductive joins : bstr -> bstr -> bstr -> bstr -> Prop :=
  | join_none buf fp t : line_ended buf t -> last t <> Some BACKSLASH -> joins buf fp t fp
  | join_last buf t u : line_ended buf (t ++ [BACKSLASH]) -> ends_cut blank t u -> joins buf [] u []
  | join_next buf fp t u l fp1 lead m c r fp2 :
      line_ended buf (t ++ [BACKSLASH]) -> ends_cut blank t u ->
      reads_line (BUFSZ - 1) fp l fp1 -> start_cut space l lead m -> ends_cut space m c ->
      joins (take (BUFSZ - 1) (u ++ (if decide (last t = Some " "%char /\ u <> []) then [" "%char] else []) ++ c)) fp1 r fp2 ->
      joins buf fp r fp2.

(** ** Escapes *)

Definition comment_mark (c : ascii) : Prop := c = "#"%char \/ c = ";"%char \/ c = BACKSLASH.

(** A backslash before a character that starts a comment is taken away. *)
Inductive unescaped : bstr -> bstr -> Prop :=
  | une_end : unescaped [] []
  | une_mark d s t : comment_mark d -> unescaped s t -> unescaped (BACKSLASH :: d :: s) (d :: t)
  | une_char c s t : ~ (c = BACKSLASH /\ exists d r, s = d :: r /\ comment_mark d) -> unescaped s t -> unescaped (c :: s) (c :: t).

Definition starts_escaped (s : bstr) : Prop :=
  (exists d r, s = BACKSLASH :: d :: r /\ comment_mark d) \/ exists r, s = BACKSLASH :: "/"%char :: "/"%char :: r.

(** Only a line that starts with an escape, at the offset [n], is unescaped. *)
Inductive line_unescaped (n : nat) (s : bstr) : bool -> bstr -> Prop :=
  | unescape_not : ~ starts_escaped (drop n s) -> line_unescaped n s false s
  | unescape_from r t : drop n s = BACKSLASH :: r -> starts_escaped (drop n s) -> unescaped r t -> line_unescaped n s true (take n s ++ t).

(** A logical line of the file: whether it was escaped, its text and the rest. *)
Definition logical_text (fp : bstr) (escaped : bool) (text rest : bstr) : Prop :=
  exists l fp1 lead body start joined,
    reads_line (BUFSZ - 2) fp l fp1 /\ start_cut space l lead body /\
    ends_cut (fun c => end_of_line c \/ blank c) l start /\ joins start fp1 joined rest /\
    line_unescaped (length lead) joined escaped text.

(** ** Comments *)

Definition starts_comment (s : bstr) : Prop :=
  exists r, s = "/"%char :: "/"%char :: r \/ s = "#"%char :: r \/ s = ";"%char :: r.

Definition no_close (s : bstr) : Prop := ~ exists a b, s = a ++ B "*/" ++ b.
Definition no_quote_or_comment (s : bstr) : Prop := Forall (fun c => ~ quote_mark c) s /\ ~ exists a b, s = a ++ B "/*" ++ b.

(** Within quotes a backslash protects the next character. *)
Inductive quoted (q : ascii) : bstr -> Prop :=
  | quoted_end : quoted q []
  | quoted_escape c s : quoted q s -> quoted q (BACKSLASH :: c :: s)
  | quoted_char c s : c <> q -> c <> BACKSLASH -> quoted q s -> quoted q (c :: s).

(** A text that starts inside a comment or not, what is left of it, and whether it
    ends inside one.  Comments do not start within quotes. *)
Inductive uncommented : bool -> bstr -> bstr -> bool -> Prop :=
  | un_inside s : no_close s -> uncommented true s [] true
  | un_close a s kept i : no_close a -> uncommented false s kept i -> uncommented true (a ++ B "*/" ++ s) kept i
  | un_plain s : no_quote_or_comment s -> uncommented false s s false
  | un_open a s kept i : no_quote_or_comment a -> uncommented true s kept i -> uncommented false (a ++ B "/*" ++ s) (a ++ kept) i
  | un_quote a q body s kept i : no_quote_or_comment a -> quote_mark q -> quoted q body -> uncommented false s kept i ->
      uncommented false (a ++ q :: body ++ q :: s) (a ++ q :: body ++ q :: kept) i
  | un_quote_open a q body tail : no_quote_or_comment a -> quote_mark q -> quoted q body -> tail = [] \/ tail = [BACKSLASH] ->
      uncommented false (a ++ q :: body ++ tail) (a ++ q :: body ++ tail) false.

(** The line without its comments. *)
Inductive comment_free (inside escaped : bool) (text : bstr) : bstr -> bool -> Prop :=
  | free_comment : inside = false -> escaped = false -> starts_comment text -> comment_free inside escaped text [] inside
  | free_rest kept s i : ~ (inside = false /\ escaped = false /\ starts_comment text) ->
      uncommented inside text kept i -> ends_cut space kept s -> comment_free inside escaped text s i.

(** ** Formatting characters in values *)

Definition digit (c : ascii) : Prop := isdigit c = true.

(** Up to two digits. *)
Definition digits (s d r : bstr) : Prop :=
  s = d ++ r /\ Forall digit d /\ (length d <= 2)%nat /\ (length d = 2%nat \/ forall c, head r = Some c -> ~ digit c).

(** One colour number, or two with a comma. *)
Inductive colours : bstr -> bstr -> bstr -> Prop :=
  | colour_two s fg bg r1 r : digits s fg (","%char :: r1) -> (exists c, head r1 = Some c /\ digit c) -> digits r1 bg r -> colours s (fg ++ ","%char :: bg) r
  | colour_one s fg r : digits s fg r -> ~ (exists c r1, r = ","%char :: c :: r1 /\ digit c) -> colours s fg r.

Definition letter_controls : list (ascii * Z) :=
  [("B", 0x02); ("I", 0x1d); ("O", 0x0f); ("R", 0x16); ("S", 0x1e); ("U", 0x1f); ("M", 0x11)]%char.

Inductive formatted : bstr -> bstr -> Prop :=
  | fmt_end : formatted [] []
  | fmt_backslash s t : formatted s t -> formatted (BACKSLASH :: BACKSLASH :: s) (BACKSLASH :: t)
  | fmt_colour s d r t : colours s d r -> formatted r t -> formatted (BACKSLASH :: "C"%char :: s) (chr 3 :: d ++ t)
  | fmt_control c k s t : (c, k) ∈ letter_controls -> formatted s t -> formatted (BACKSLASH :: c :: s) (chr k :: t)
  | fmt_char c s t : ~ (c = BACKSLASH /\ exists d r, s = d :: r /\ (d = BACKSLASH \/ d = "C"%char \/ d ∈ letter_controls.*1)) ->
      formatted s t -> formatted (c :: s) (c :: t).

Definition formatting_key (key : bstr) : Prop :=
  (exists r, key = B "theme." ++ r) \/ (exists r, key = B "ui.theme." ++ r) \/ key = B "tui.status-line" \/ key = B "tui.room-status-line".

(** ** Meaning of a line *)

(** The sections that the loader reads itself. *)
Definition own_section (sec : bstr) : bool :=
  strcaseeq sec (B "general") || strncaseeq sec (B "server:") 7 || strncaseeq sec (B "theme:") 6 ||
  strcaseeq sec (B "callsign-lookup") || strcaseeq sec (B "site").

(** The key a setting of the section [sec] is stored under. *)
Definition section_key (sec key : bstr) : option bstr :=
  if negb (nonempty sec) then None
  else if strcaseeq sec (B "general") then Some (rtrim is_blank key)
  else if strncaseeq sec (B "server:") 7 || strncaseeq sec (B "theme:") 6 then
    let theme := strncaseeq sec (B "theme:") 6 in
    Some (take 255 (concat [B (if theme then "theme:" else "server:"); drop (if theme then 6 else 7) sec; B "."; key]))
  else
    let prefixed := fun p => let key := rtrim is_blank key in if nonempty key then Some (take 255 (p ++ key)) else None in
    if strcaseeq sec (B "callsign-lookup") then prefixed (B "callsign-lookup:")
    else if strcaseeq sec (B "site") then prefixed (B "site:")
    else None.

(** A setting: the key before the first [=], and the value after it and its blanks. *)
Inductive setting_says (sec s : bstr) : settings -> Prop :=
  | no_setting : "="%char ∉ s -> setting_says sec s []
  | no_key key r : s = key ++ "="%char :: r -> "="%char ∉ key -> section_key sec key = None -> setting_says sec s []
  | a_setting key r lead val k v : s = key ++ "="%char :: r -> "="%char ∉ key -> start_cut blank r lead val ->
      section_key sec key = Some k ->
      (if decide (strcaseeq sec (B "general") = true) then formatting_key k /\ formatted val v \/ ~ formatting_key k /\ v = val else v = val) ->
      setting_says sec s [(k, v)].

(** The path of an include, without its quotes. *)
Inductive argument : bstr -> bstr -> Prop :=
  | arg_plain s : (forall c, head s = Some c -> ~ quote_mark c) -> argument s s
  | arg_quoted q s tail : quote_mark q -> q ∉ tail -> argument (q :: s ++ q :: tail) s
  | arg_open q s : quote_mark q -> q ∉ s -> argument (q :: s) s.

(** [.include] or [!include], in any case, then blanks or [=] before the path. *)
Definition include_says (s : bstr) (optional : bool) (path : bstr) : Prop :=
  exists mark word sep arg, s = mark :: word ++ sep ++ arg /\
    (mark = "!"%char /\ optional = true \/ mark = "."%char /\ optional = false) /\
    length word = 7%nat /\ strcaseeq word (B "include") = true /\
    Forall (fun c => blank c \/ c = "="%char) sep /\ (forall c, head arg = Some c -> ~ (blank c \/ c = "="%char)) /\
    (arg = [] \/ sep <> []) /\ argument arg path.

(** The file named by an include: relative paths from the directory of the file. *)
Definition included_file (path arg : bstr) : bstr :=
  take (PATH_MAX - 1) (if decide (head arg = Some "/"%char) then arg else dirname (take (PATH_MAX - 1) path) ++ B "/" ++ arg).

Inductive item := Nothing | Header (name : bstr) | Assign (l : settings) | Include (optional : bool) (arg : bstr).

(** Not a line to read: nothing is left, a line of a documentation comment before the
    first header, or a comment. *)
Definition not_read (sec : bstr) (escaped : bool) (s : bstr) : Prop :=
  s = [] \/ (sec = [] /\ exists c r, s = "*"%char :: c :: r /\ (c = "/"%char \/ space c)) \/ (escaped = false /\ starts_comment s).

(** The header [[name]]; names are cut to 127 characters. *)
Definition header_says (s name : bstr) : Prop := exists n, s = "["%char :: n ++ ["]"%char] /\ name = take 127 n.

(** [others]: what the callbacks of a section make of a line. *)
Inductive line_says (others : bstr -> bstr -> settings) (sec : bstr) (escaped : bool) (lead s : bstr) : item -> Prop :=
  | says_nothing : not_read sec escaped s -> line_says others sec escaped lead s Nothing
  | says_include optional path : ~ not_read sec escaped s -> include_says s optional path ->
      line_says others sec escaped lead s (Include optional path)
  | says_header name : ~ not_read sec escaped s -> (forall o p, ~ include_says s o p) -> header_says s name ->
      line_says others sec escaped lead s (Header name)
  | says_setting l : ~ not_read sec escaped s -> (forall o p, ~ include_says s o p) -> (forall n, ~ header_says s n) ->
      sec = [] \/ own_section sec = true -> setting_says sec s l -> line_says others sec escaped lead s (Assign l)
  | says_other : ~ not_read sec escaped s -> (forall o p, ~ include_says s o p) -> (forall n, ~ header_says s n) ->
      sec <> [] -> own_section sec = false -> line_says others sec escaped lead s (Assign (others sec (lead ++ s))).

(** ** Meaning of a file *)

Section meaning.
Context `{Files}.
Variable others : bstr -> bstr -> bstr -> settings.

(** What is read of a file: [None] if there is none; [false] if the process ends. *)
Definition result := (bool * option settings)%type.

(** An include.  [sub]: what the files one level deeper say; there are none at the
    deepest level. *)
Inductive include_gives (sub : option (bstr -> result -> Prop)) (path : bstr) (optional : bool) (arg : bstr) : bool -> settings -> Prop :=
  | gives_nothing : arg = [] \/ sub = None -> include_gives sub path optional arg optional []
  | gives_file reads l : arg <> [] -> sub = Some reads -> reads (included_file path arg) (true, Some l) -> include_gives sub path optional arg true l
  | gives_none reads : arg <> [] -> sub = Some reads -> reads (included_file path arg) (true, None) -> include_gives sub path optional arg optional []
  | gives_end reads l : arg <> [] -> sub = Some reads -> reads (included_file path arg) (false, l) -> include_gives sub path optional arg false (default [] l).

(** The effect of an item: the section from there on, whether reading goes on, and the
    assignments. *)
Inductive item_gives (sub : option (bstr -> result -> Prop)) (path sec : bstr) : item -> bstr -> bool -> settings -> Prop :=
  | gives_no : item_gives sub path sec Nothing sec true []
  | gives_header name : item_gives sub path sec (Header name) name true []
  | gives_assign l : item_gives sub path sec (Assign l) sec true l
  | gives_include optional arg ok l : include_gives sub path optional arg ok l -> item_gives sub path sec (Include optional arg) sec ok l.

Inductive lines_say (sub : option (bstr -> result -> Prop)) (path : bstr) : bstr -> bool -> bstr -> bool -> settings -> Prop :=
  | say_end sec inside : lines_say sub path sec inside [] true []
  | say_stop sec inside fp escaped text rest lead body s inside' it sec' l :
      logical_text fp escaped text rest -> start_cut space text lead body -> comment_free inside escaped body s inside' ->
      line_says (others path) sec escaped lead s it -> item_gives sub path sec it sec' false l ->
      lines_say sub path sec inside fp false l
  | say_next sec inside fp escaped text rest lead body s inside' it sec' l ok more :
      logical_text fp escaped text rest -> start_cut space text lead body -> comment_free inside escaped body s inside' ->
      line_says (others path) sec escaped lead s it -> item_gives sub path sec it sec' true l ->
      lines_say sub path sec' inside' rest ok more -> lines_say sub path sec inside fp ok (l ++ more).

Fixpoint file_says (levels : nat) (path : bstr) (r : result) : Prop :=
  match (if file_exists path then fopen_r path else None) with
  | None => r = (true, None)
  | Some text => exists ok l, r = (ok, Some l) /\
      lines_say (match levels with O => None | S levels => Some (file_says levels) end) path [] false text ok l
  end.

(** ** The reading, computed *)

(** Every line with its escape flag and its leading white space. *)
Fixpoint lines_of (fuel : nat) (fp : bstr) : list (bool * bstr * bstr) :=
  match fuel with
  | O => []
  | S fuel =>
      match fgets (BUFSZ - 1) fp with
      | None => []
      | Some (buf, fp) =>
          match continue_line (S (length fp)) (rtrim (fun c => is_eol c || is_blank c) buf) 0 fp with
          | None => []
          | Some (joined, _, fp) =>
              let '(escaped, text) := unescape_line (indent_of buf) joined in
              (escaped, take (indent_of text) text, skip_space text) :: lines_of fuel fp
          end
      end
  end.

Definition file_lines (text : bstr) : list (bool * bstr * bstr) := lines_of (S (length text)) text.

Definition stored_val (sec key val : bstr) : bstr :=
  if strcaseeq sec (B "general") && cfg_formatting_key (rtrim is_blank key) then cfg_expand_format_escapes val else val.

Definition setting_item (sec s : bstr) : settings :=
  match setting_of s with
  | None => []
  | Some (key, val) =>
      match section_key sec key with Some k => [(k, stored_val sec key val)] | None => [] end
  end.

(** The line without its comments, and whether it ends inside one. *)
Definition uncomment (inside escaped : bool) (text : bstr) : bstr * bool :=
  if negb inside && negb escaped && comment_lead text then ([], inside)
  else let '(kept, inside) := strip inside None text in (rtrim isspace kept, inside).

Definition line_item (path sec : bstr) (escaped : bool) (lead s : bstr) : item :=
  if negb (nonempty s) || (negb (nonempty sec) && orphan_star s) || (negb escaped && comment_lead s) then Nothing
  else
    match include_of s with
    | Some (optional, arg) => Include optional (unquote arg)
    | None =>
        match section_of s with
        | Some name => Header name
        | None => Assign (if negb (nonempty sec) || own_section sec then setting_item sec s else others path sec (lead ++ s))
        end
    end.

(** The assignments of an include line; [false] ends the process. *)
Definition include_settings (load : option (bstr -> result)) (path : bstr) (optional : bool) (arg : bstr) : bool * settings :=
  match arg, load with
  | [], _ | _, None => (optional, [])
  | include_path, Some load =>
      let '(ok, r) := load (resolve path include_path) in
      if negb ok then (false, default [] r)
      else match r with Some l => (true, l) | None => (optional, []) end
  end.

Definition item_settings (load : option (bstr -> result)) (path sec : bstr) (it : item) : bstr * bool * settings :=
  match it with
  | Nothing => (sec, true, [])
  | Header name => (name, true, [])
  | Assign l => (sec, true, l)
  | Include optional arg => let '(ok, l) := include_settings load path optional arg in (sec, ok, l)
  end.

Fixpoint lines_settings (load : option (bstr -> result)) (path sec : bstr) (inside : bool) (lines : list (bool * bstr * bstr)) : bool * settings :=
  match lines with
  | [] => (true, [])
  | (escaped, lead, text) :: lines =>
      let '(s, inside) := uncomment inside escaped text in
      let '(sec, ok, l1) := item_settings load path sec (line_item path sec escaped lead s) in
      if negb ok then (false, l1)
      else let '(ok, l2) := lines_settings load path sec inside lines in (ok, l1 ++ l2)
  end.

(** [None]: there is no such file. *)
Fixpoint file_settings (levels : nat) (path : bstr) : result :=
  match (if file_exists path then fopen_r path else None) with
  | None => (true, None)
  | Some text =>
      let load := match levels with O => None | S levels => Some (file_settings levels) end in
      let '(ok, l) := lines_settings load path [] false (file_lines text) in (ok, Some l)
  end.

End meaning.

(** Later assignments win. *)
Definition apply_settings (m : gmap bstr value) (l : settings) : gmap bstr value :=
  foldl (fun m '(k, v) => <[k := VStr (Some v)]> m) m l.

(** ** The helpers compute the relations *)

Lemma rtrim_prefix p s : exists t, s = rtrim p s ++ t /\ Forall (fun c => p c = true) t.
Proof.
  induction s as [| c s (t & Hs & Ht)]; [by exists [] |]. cbn [rtrim].
  destruct (rtrim p s) as [| d r] eqn:Hr.
  - destruct (p c) eqn:Hc; [exists (c :: s) | exists s]; cbn; (split; [done |]); cbn in Hs; subst t; auto.
  - exists t. split; [by rewrite Hs | done].
Qed.

Lemma rtrim_end p s c : last (rtrim p s) = Some c -> p c = false.
Proof.
  induction s as [| d s IH]; [done |]. cbn [rtrim]. destruct (rtrim p s) as [| e r]; [| exact IH].
  destruct (p d) eqn:Hd; [done |]. by intros [= <-].
Qed.

Lemma rtrim_all p s : Forall (fun c => p c = true) s -> rtrim p s = [].
Proof. induction 1 as [| c s Hc _ IH]; [done |]. cbn [rtrim]. by rewrite IH, Hc. Qed.

Lemma rtrim_keep p t u : Forall (fun c => p c = true) u -> (forall c, last t = Some c -> p c = false) -> rtrim p (t ++ u) = t.
Proof.
  intros Hu. induction t as [| c t IH]; intros Ht; cbn [app]; [by apply rtrim_all |]. cbn [rtrim].
  destruct t as [| d t]; [cbn [app]; rewrite rtrim_all by done; by rewrite (Ht c) | by rewrite IH].
Qed.

(** A boolean test of a property of characters. *)
Class Tests (p : ascii -> bool) (P : ascii -> Prop) := test_spec c : p c = true <-> P c.

Lemma ends_cut_iff p P `{Tests p P} s t : ends_cut P s t <-> t = rtrim p s.
Proof.
  split.
  - intros (u & -> & Hu & Ht). symmetry. apply rtrim_keep.
    + eapply Forall_impl; [exact Hu |]. intros c. apply test_spec.
    + intros c Hc. apply not_true_iff_false. rewrite test_spec. by apply Ht.
  - intros ->. destruct (rtrim_prefix p s) as (u & Hs & Hu). exists u. split_and!; [done | |].
    + eapply Forall_impl; [exact Hu |]. intros c. apply test_spec.
    + intros c Hc Hp%test_spec. apply rtrim_end in Hc. congruence.
Qed.

Lemma start_cut_iff p P `{Tests p P} s lead t : start_cut P s lead t <-> t = skip_while p s /\ s = lead ++ t.
Proof.
  split.
  - intros (-> & Hl & Ht). split; [| done]. induction Hl as [| c lead Hc Hl IH]; cbn [app skip_while].
    + destruct t as [| c t]; [done |]. cbn [skip_while]. destruct (p c) eqn:Hp; [| done]. apply test_spec in Hp. by destruct (Ht c).
    + apply test_spec in Hc. by rewrite Hc.
  - intros [-> Hs]. assert (Hgen : exists l, s = l ++ skip_while p s /\ Forall P l /\ forall c, head (skip_while p s) = Some c -> ~ P c).
    { clear Hs lead. induction s as [| c s (l & Hs & Hl & Hh)]; [by exists [] |]. cbn [skip_while]. destruct (p c) eqn:Hp.
      - exists (c :: l). split_and!; [cbn; by rewrite <- Hs | constructor; [by apply test_spec | done] | done].
      - exists []. split_and!; [done.. |]. intros d [= <-] Hd%test_spec. congruence. }
    destruct Hgen as (l & Hl & HP & Hh). rewrite Hl in Hs at 1. apply app_inv_tail in Hs as ->. by split.
Qed.

Lemma ceq_iff c d : ceq c d = true <-> c = d.
Proof. apply bool_decide_eq_true. Qed.

#[export] Instance eol_tests : Tests is_eol end_of_line.
Proof. intros c. unfold is_eol. by rewrite orb_true_iff, !ceq_iff. Qed.
#[export] Instance blank_tests : Tests is_blank blank.
Proof. intros c. unfold is_blank. by rewrite orb_true_iff, !ceq_iff. Qed.
#[export] Instance space_tests : Tests isspace space.
Proof. by intros c. Qed.
#[export] Instance end_or_blank_tests : Tests (fun c => is_eol c || is_blank c) (fun c => end_of_line c \/ blank c).
Proof. intros c. by rewrite orb_true_iff, (test_spec (p := is_eol)), (test_spec (p := is_blank)). Qed.
#[export] Instance separator_tests : Tests (fun c => is_blank c || ceq c "=") (fun c => blank c \/ c = "="%char).
Proof. intros c. by rewrite orb_true_iff, (test_spec (p := is_blank)), ceq_iff. Qed.

Lemma skip_space_while s : skip_space s = skip_while isspace s.
Proof. induction s as [| c s IH]; [done |]. cbn. by rewrite IH. Qed.

Lemma space_cut_iff s lead t : start_cut space s lead t <-> lead = take (indent_of s) s /\ t = skip_space s.
Proof.
  rewrite (start_cut_iff isspace space), <- skip_space_while. unfold indent_of. split.
  - intros [-> Hs]. split; [| done]. apply (f_equal length) in Hs as Hl. rewrite length_app in Hl.
    replace (length s - length (skip_space s))%nat with (length lead) by lia. by rewrite Hs, take_app_length.
  - intros [-> ->]. split; [done |]. assert (Hex : exists l, s = l ++ skip_space s).
    { induction s as [| c s [l Hl]]; [by exists [] |]. cbn [skip_space]. destruct (isspace c); [exists (c :: l); cbn; by rewrite <- Hl | by exists []]. }
    destruct Hex as [l Hl]. apply (f_equal length) in Hl as Hlen. rewrite length_app in Hlen.
    replace (length s - length (skip_space s))%nat with (length l) by lia. rewrite Hl at 2. rewrite take_app_length. exact Hl.
Qed.

(** *** Lines *)

Lemma take_line_iff n fp raw rest : fp <> [] -> raw_line n fp raw rest <-> take_line n fp = (raw, rest).
Proof.
  intros Hfp. split.
  - intros Hr. destruct Hr as [l rest Hl Hn | l c rest Hl Hn | c l Hl Hn].
    + clear Hfp. revert n Hn. induction l as [| d l IH]; intros [| n] Hn; cbn in Hn; try lia; cbn [app take_line].
      * by rewrite (proj2 (ceq_iff LF LF)).
      * apply not_elem_of_cons in Hl as [Hd Hl]. unfold ceq. rewrite bool_decide_eq_false_2 by congruence. by rewrite (IH Hl) by lia.
    + subst n. clear Hfp. induction l as [| d l IH]; cbn [app take_line length]; [done |].
      apply not_elem_of_cons in Hl as [Hd Hl]. unfold ceq. rewrite bool_decide_eq_false_2 by congruence. by rewrite IH.
    + clear Hfp. revert n Hl Hn. generalize (c :: l). clear c l. intros l. induction l as [| d l IH]; intros [| n] Hl Hn; cbn in Hn; try lia; cbn [take_line]; try done.
      apply not_elem_of_cons in Hl as [Hd Hl]. unfold ceq. rewrite bool_decide_eq_false_2 by congruence. by rewrite IH by (done || lia).
  - revert fp Hfp raw rest. induction n as [| n IH]; intros [| c fp] Hfp raw rest; [done | | done |]; cbn [take_line].
    { intros [= <- <-]. by apply (raw_long 0 []); [apply not_elem_of_nil |]. }
    destruct (ceq c LF) eqn:Hc. { apply ceq_iff in Hc as ->. intros [= <- <-]. apply (raw_newline (S n) []); [apply not_elem_of_nil | cbn; lia]. }
    apply not_true_iff_false in Hc. rewrite ceq_iff in Hc. destruct (take_line n fp) as [l r] eqn:Ht. intros [= <- <-].
    destruct fp as [| d fp].
    { destruct n; cbn in Ht; injection Ht as <- <-; apply raw_end; cbn; try lia; intros Hin%list_elem_of_singleton; congruence. }
    destruct (IH (d :: fp) ltac:(done) l r Ht) as [l r Hl Hn | l e r Hl Hn | e l Hl Hn].
    + apply (raw_newline (S n) (c :: l)); [by apply not_elem_of_cons; split; [congruence |] | cbn; lia].
    + apply (raw_long (S n) (c :: l)); [by apply not_elem_of_cons; split; [congruence |] | cbn; lia].
    + apply raw_end; [by apply not_elem_of_cons; split; [congruence |] | cbn in *; lia].
Qed.

Lemma cstr_iff raw l : buffer_text raw l <-> l = cstr raw.
Proof.
  split.
  - intros [Hn Hl]. symmetry. assert (H1 : forall t, cstr (l ++ t) = l ++ cstr t).
    { intros t. clear Hl. induction l as [| c l IH]; [done |]. apply not_elem_of_cons in Hn as [Hc Hn]. cbn [app cstr]. unfold ceq.
      rewrite bool_decide_eq_false_2 by congruence. by rewrite IH. }
    destruct Hl as [-> | [rest ->]]; [rewrite <- (app_nil_r l) at 1 |]; rewrite H1; cbn; by rewrite ?app_nil_r.
  - intros ->. induction raw as [| c raw [Hn IH]]; [split; [apply not_elem_of_nil | by left] |]. cbn [cstr]. destruct (ceq c NUL) eqn:Hc.
    + apply ceq_iff in Hc as ->. split; [apply not_elem_of_nil | right; by exists raw].
    + apply not_true_iff_false in Hc. rewrite ceq_iff in Hc. split; [by apply not_elem_of_cons; split; [congruence |] |].
      destruct IH as [Heq | [rest Heq]]; [left; by rewrite <- Heq | right; exists rest; cbn; by rewrite <- Heq].
Qed.

Lemma reads_line_iff n fp l rest : reads_line (n - 1) fp l rest <-> fgets n fp = Some (l, rest).
Proof.
  unfold fgets, reads_line. destruct fp as [| c fp].
  - split; [| done]. intros (raw & Hr & _). by inversion Hr; (destruct l0; discriminate).
  - split.
    + intros (raw & Hr%take_line_iff & Hb%cstr_iff); [| done]. by rewrite Hr, Hb.
    + destruct (take_line (n - 1) (c :: fp)) as [raw r] eqn:Ht. intros [= <- <-]. exists raw.
      split; [by apply take_line_iff | by apply cstr_iff].
Qed.

(** *** Joined lines *)

Lemma take_line_length n fp l r : take_line n fp = (l, r) -> length fp = (length l + length r)%nat.
Proof.
  revert fp l r. induction n as [| n IH]; intros [| c fp] l r; cbn [take_line]; try (by intros [= <- <-]).
  destruct (ceq c LF); [by intros [= <- <-] |].
  destruct (take_line n fp) as [l' r'] eqn:Ht. intros [= <- <-]. cbn. f_equal. by apply IH.
Qed.

Lemma fgets_shorter n fp l r : (1 < n)%nat -> fgets n fp = Some (l, r) -> (length r < length fp)%nat.
Proof.
  intros Hn. unfold fgets. destruct fp as [| c fp]; [done |].
  destruct (take_line (n - 1) (c :: fp)) as [l' r'] eqn:Ht. intros [= <- <-].
  destruct (n - 1)%nat as [| k] eqn:Hk; [lia |]. cbn [take_line] in Ht. destruct (ceq c LF).
  - injection Ht as <- <-. cbn. lia.
  - destruct (take_line k fp) as [l2 r2] eqn:H2. injection Ht as <- <-.
    apply take_line_length in H2. cbn. lia.
Qed.

Lemma BUFSZ_big : (2 < BUFSZ)%nat.
Proof. unfold BUFSZ. lia. Qed.

(** The loop always ends, whatever the line number. *)
Lemma continue_line_ends fuel buf fp :
  (length fp < fuel)%nat ->
  exists buf' fp' n, (length fp' <= length fp)%nat /\
    forall l, continue_line fuel buf l fp = Some (buf', l + n, fp').
Proof.
  revert buf fp. induction fuel as [| fuel IH]; intros buf fp Hf; [lia |].
  cbn [continue_line]. set (b := rtrim is_blank (rtrim is_eol buf)).
  destruct (ends_with b BACKSLASH); cbn [negb].
  2:{ exists b, fp, 0. split; [done |]. intros l. by rewrite Z.add_0_r. }
  destruct (fgets BUFSZ fp) as [[cont fp1] |] eqn:Hg.
  2:{ eexists _, fp, 0. split; [done |]. intros l. by rewrite Z.add_0_r. }
  pose proof (fgets_shorter _ _ _ _ (Nat.lt_trans _ _ _ (Nat.lt_succ_diag_r 1) BUFSZ_big) Hg) as Hlt.
  match goal with |- context [continue_line fuel ?bb _ fp1] =>
    destruct (IH bb fp1) as (buf' & fp' & n & Hle & Heq); [lia |] end.
  exists buf', fp', (1 + n). split; [lia |]. intros l. by rewrite Heq, Z.add_assoc.
Qed.

Lemma fgets_None n fp : fgets n fp = None -> fp = [].
Proof. unfold fgets. destruct fp; [done |]. by destruct (take_line _ _). Qed.

Lemma line_ended_iff buf t : line_ended buf t <-> t = rtrim is_blank (rtrim is_eol buf).
Proof.
  unfold line_ended. setoid_rewrite (ends_cut_iff is_eol end_of_line). setoid_rewrite (ends_cut_iff is_blank blank).
  split; [by intros (m & -> & ->) | intros ->; by eexists].
Qed.

Lemma rtrim_length p s : (length (rtrim p s) <= length s)%nat.
Proof. destruct (rtrim_prefix p s) as (t & Hs & _). apply (f_equal length) in Hs. rewrite length_app in Hs. lia. Qed.

Lemma ends_with_iff s c : ends_with s c = true <-> last s = Some c.
Proof. apply bool_decide_eq_true. Qed.

Lemma chop_last s c : last s = Some c -> s = chop s ++ [c].
Proof. intros (l & ->)%last_Some. unfold chop. by rewrite length_app, Nat.add_sub, take_app_length. Qed.

Lemma chop_app s c : chop (s ++ [c]) = s.
Proof. unfold chop. by rewrite length_app, Nat.add_sub, take_app_length. Qed.

Lemma take_take_app {A} n (a b : list A) : take n (take n a ++ b) = take n (a ++ b).
Proof.
  destruct (decide (length a <= n)%nat); [by rewrite (take_ge a) by done |].
  rewrite !take_app_le by (rewrite ?length_take; lia). by rewrite take_take, Nat.min_id.
Qed.

Lemma buf_cat_take s t : (length s <= BUFSZ - 1)%nat -> buf_cat s t = take (BUFSZ - 1) (s ++ t).
Proof.
  intros Hs. pose proof BUFSZ_big. unfold buf_cat. rewrite take_app, (take_ge s) by done. do 2 f_equal. lia.
Qed.

(** The buffer that a turn of the loop goes on with. *)
Lemma joined_buffer t u c : (length u <= BUFSZ - 1)%nat ->
  buf_cat (if ends_with t " "%char && nonempty u then buf_cat u [" "%char] else u) c =
  take (BUFSZ - 1) (u ++ (if decide (last t = Some " "%char /\ u <> []) then [" "%char] else []) ++ c).
Proof.
  intros Hu. assert (Hb : ends_with t " "%char && nonempty u = bool_decide (last t = Some " "%char /\ u <> [])).
  { apply eq_true_iff_eq. rewrite andb_true_iff, bool_decide_eq_true, ends_with_iff. clear. destruct u; (split; intros [H1 H2]); [discriminate | by destruct H2 | by split | by split]. }
  rewrite Hb. destruct (decide _) as [Hd | Hd]; [rewrite bool_decide_eq_true_2 by done | rewrite bool_decide_eq_false_2 by done].
  - rewrite (buf_cat_take u) by done. rewrite buf_cat_take by (rewrite length_take; lia). by rewrite take_take_app, <- app_assoc.
  - by rewrite buf_cat_take.
Qed.

Lemma trimmed_cont contbuf c : (exists lead m, start_cut space contbuf lead m /\ ends_cut space m c) <-> c = rtrim isspace (skip_space contbuf).
Proof.
  split.
  - intros (lead & m & [_ ->]%space_cut_iff & ->%(ends_cut_iff isspace space)). done.
  - intros ->. exists (take (indent_of contbuf) contbuf), (skip_space contbuf). by rewrite space_cut_iff, (ends_cut_iff isspace space).
Qed.

Lemma joins_computed buf fp r fp' : joins buf fp r fp' -> forall fuel line, (length buf <= BUFSZ - 1)%nat -> (length fp < fuel)%nat ->
  exists n, continue_line fuel buf line fp = Some (r, n, fp').
Proof.
  induction 1 as [buf fp t Ht Hl | buf t u Ht Hu | buf fp t u l fp1 lead m c r fp2 Ht Hu Hr Hlead Hm Hj IH]; intros [| fuel] line Hb Hf; try lia; cbn [continue_line];
    apply line_ended_iff in Ht; rewrite <- Ht.
  - assert (He : ends_with t BACKSLASH = false) by (apply not_true_iff_false; by rewrite ends_with_iff). rewrite He. by eexists.
  - rewrite (proj2 (ends_with_iff _ _)) by apply last_snoc. cbn [negb]. rewrite chop_app.
    apply (ends_cut_iff is_blank blank) in Hu as ->. exists line. reflexivity.
  - rewrite (proj2 (ends_with_iff _ _)) by apply last_snoc. cbn [negb]. rewrite chop_app.
    apply reads_line_iff in Hr. rewrite Hr. apply (ends_cut_iff is_blank blank) in Hu as ->.
    assert (Hc : c = rtrim isspace (skip_space l)) by (apply trimmed_cont; by exists lead, m). rewrite <- Hc.
    pose proof (rtrim_length is_blank (rtrim is_eol buf)). pose proof (rtrim_length is_eol buf). pose proof (rtrim_length is_blank t).
    apply (f_equal length) in Ht. rewrite length_app in Ht. cbn [length] in Ht.
    rewrite joined_buffer by lia. apply IH; [rewrite length_take; lia |].
    apply fgets_shorter in Hr; [lia | pose proof BUFSZ_big; lia].
Qed.

Lemma computed_joins fuel buf line fp r n fp' : (length buf <= BUFSZ - 1)%nat ->
  continue_line fuel buf line fp = Some (r, n, fp') -> joins buf fp r fp'.
Proof.
  revert buf line fp. induction fuel as [| fuel IH]; intros buf line fp Hb; [done |]. cbn [continue_line].
  set (b := rtrim is_blank (rtrim is_eol buf)). assert (Hbl : line_ended buf b) by by apply line_ended_iff.
  assert (Hlen : (length b <= length buf)%nat) by (unfold b; pose proof (rtrim_length is_blank (rtrim is_eol buf)); pose proof (rtrim_length is_eol buf); lia).
  destruct (ends_with b BACKSLASH) eqn:He; cbn [negb].
  2:{ intros [= <- <- <-]. apply join_none; [done |]. rewrite <- ends_with_iff. by rewrite He. }
  apply ends_with_iff, chop_last in He. rewrite He in Hbl. apply (f_equal length) in He. rewrite length_app in He. cbn [length] in He.
  set (t := chop b) in *. assert (Hu : ends_cut blank t (rtrim is_blank t)) by by apply (ends_cut_iff is_blank blank).
  destruct (fgets BUFSZ fp) as [[contbuf fp1] |] eqn:Hg.
  2:{ apply fgets_None in Hg as ->. intros [= <- <- <-]. by apply (join_last _ t). }
  pose proof (rtrim_length is_blank t). rewrite joined_buffer by lia. intros Hc%IH; [| rewrite length_take; lia].
  apply (join_next _ _ t (rtrim is_blank t) contbuf fp1 (take (indent_of contbuf) contbuf) (skip_space contbuf) (rtrim isspace (skip_space contbuf))); try done.
  - by apply reads_line_iff.
  - by apply space_cut_iff.
  - by apply (ends_cut_iff isspace space).
Qed.

(** *** Escapes *)

#[export] Instance mark_tests : Tests comment_char comment_mark.
Proof. intros c. unfold comment_char, comment_mark. rewrite !orb_true_iff, !ceq_iff. tauto. Qed.

Lemma escaped_lead_iff s : escaped_lead s = true <-> starts_escaped s.
Proof.
  unfold starts_escaped. destruct s as [| c [| d s]]; cbn [escaped_lead].
  - split; [done |]. intros [(d & r & [=] & _) | (r & [=])].
  - split; [done |]. intros [(d & r & [=] & _) | (r & [=])].
  - rewrite andb_true_iff, orb_true_iff, andb_true_iff, !ceq_iff, test_spec. unfold starts_with. rewrite bool_decide_eq_true. split.
    + intros [-> [Hd | [-> Hs]]]; [left; by exists d, s | right]. destruct s as [| e s]; [done |]. injection Hs as ->. by exists s.
    + intros [(e & r & [= -> -> ->] & He) | (r & [= -> -> ->])]; (split; [done |]); [by left | by right].
Qed.

Lemma unescape_iff s t : unescaped s t <-> t = unescape s.
Proof.
  split.
  - induction 1 as [| d s t Hd Hs IH | c s t Hc Hs IH]; [done | |].
    + cbn [unescape]. rewrite (proj2 (ceq_iff _ _) eq_refl), (proj2 (test_spec (p := comment_char) d) Hd). cbn [andb]. by rewrite IH.
    + subst t. cbn [unescape]. destruct s as [| d s]; [done |]. destruct (ceq c BACKSLASH && comment_char d) eqn:He; [| done].
      apply andb_true_iff in He as [->%ceq_iff Hd%test_spec]. destruct Hc. split; [done |]. by exists d, s.
  - intros ->. remember (length s) as n eqn:Hn. revert s Hn. induction n as [n IH] using lt_wf_ind; intros s Hn.
    destruct s as [| c [| d s]]; cbn [unescape]; [constructor | apply une_char; [by intros (_ & d & r & [=] & _) | constructor] |].
    destruct (ceq c BACKSLASH && comment_char d) eqn:He.
    + apply andb_true_iff in He as [->%ceq_iff Hd%test_spec]. apply une_mark; [done |]. apply (IH (length s)); [cbn in Hn; lia | done].
    + apply une_char; [| apply (IH (length (d :: s))); [cbn in *; lia | done]].
      intros (-> & d' & r & [= <- <-] & Hd). apply not_true_iff_false in He. apply He. by rewrite (proj2 (ceq_iff _ _)), (proj2 (test_spec (p := comment_char) d)).
Qed.

Lemma line_unescaped_iff n s e t : line_unescaped n s e t <-> unescape_line n s = (e, t).
Proof.
  unfold unescape_line. destruct (escaped_lead (drop n s)) eqn:He.
  - apply escaped_lead_iff in He. split.
    + intros Hl. destruct Hl as [Hn | r t Hr _ Hu]; [done |]. apply unescape_iff in Hu as ->. by rewrite Hr.
    + intros [= <- <-]. destruct (drop n s) as [| c r] eqn:Hr; [by destruct He as [(? & ? & [=] & _) | (? & [=])] |].
      assert (c = BACKSLASH) as -> by (destruct He as [(? & ? & [=] & _) | (? & [=])]; done).
      apply (unescape_from n s r); [done | by rewrite Hr | by apply unescape_iff].
  - apply not_true_iff_false in He. rewrite escaped_lead_iff in He. split.
    + intros Hl. by destruct Hl.
    + intros [= <- <-]. by apply unescape_not.
Qed.

(** *** Logical lines *)

(** One step of [lines_of]. *)
Definition next_line (fp : bstr) : option (bool * bstr * bstr) :=
  '(buf, fp) ← fgets (BUFSZ - 1) fp;
  '(joined, _, fp) ← continue_line (S (length fp)) (rtrim (fun c => is_eol c || is_blank c) buf) 0 fp;
  let '(escaped, text) := unescape_line (indent_of buf) joined in Some (escaped, text, fp).

Lemma take_line_bound n fp l r : take_line n fp = (l, r) -> (length l <= n)%nat.
Proof.
  revert fp l r. induction n as [| n IH]; intros [| c fp] l r; cbn [take_line]; try (intros [= <- <-]; cbn; lia).
  destruct (ceq c LF); [intros [= <- <-]; cbn; lia |]. destruct (take_line n fp) as [l' r'] eqn:Ht. intros [= <- <-]. apply IH in Ht. cbn. lia.
Qed.

Lemma cstr_length s : (length (cstr s) <= length s)%nat.
Proof. induction s as [| c s IH]; [done |]. cbn [cstr]. destruct (ceq c NUL); cbn; lia. Qed.

Lemma fgets_bound n fp l r : fgets n fp = Some (l, r) -> (length l <= n - 1)%nat.
Proof.
  unfold fgets. destruct fp as [| c fp]; [done |]. destruct (take_line (n - 1) (c :: fp)) as [l' r'] eqn:Ht. intros [= <- <-].
  apply take_line_bound in Ht. pose proof (cstr_length l'). lia.
Qed.

Lemma logical_text_iff fp e t rest : logical_text fp e t rest <-> next_line fp = Some (e, t, rest).
Proof.
  unfold logical_text, next_line. replace (BUFSZ - 2)%nat with (BUFSZ - 1 - 1)%nat by lia. split.
  - intros (l & fp1 & lead & body & start & j & Hr%reads_line_iff & [-> ->]%space_cut_iff & -> %(ends_cut_iff (fun c => is_eol c || is_blank c) (fun c => end_of_line c \/ blank c)) & Hj & Hu%line_unescaped_iff).
    rewrite Hr. cbn [mbind option_bind]. apply fgets_bound in Hr. pose proof (rtrim_length (fun c => is_eol c || is_blank c) l).
    destruct (joins_computed _ _ _ _ Hj (S (length fp1)) 0 ltac:(lia) ltac:(lia)) as [n ->]. cbn [mbind option_bind].
    assert (Hi : length (take (indent_of l) l) = indent_of l) by (rewrite length_take; unfold indent_of; lia). rewrite Hi in Hu. by rewrite Hu.
  - destruct (fgets (BUFSZ - 1) fp) as [[l fp1] |] eqn:Hr; [| done]. cbn [mbind option_bind].
    destruct (continue_line _ _ _ _) as [[[j n] fp2] |] eqn:Hj; [| done]. cbn [mbind option_bind].
    destruct (unescape_line (indent_of l) j) as [e' t'] eqn:Hu. intros [= <- <- <-].
    exists l, fp1, (take (indent_of l) l), (skip_space l), (rtrim (fun c => is_eol c || is_blank c) l), j. split_and!.
    + by apply reads_line_iff.
    + by apply space_cut_iff.
    + by apply (ends_cut_iff (fun c => is_eol c || is_blank c) (fun c => end_of_line c \/ blank c)).
    + apply fgets_bound in Hr. pose proof (rtrim_length (fun c => is_eol c || is_blank c) l). eapply computed_joins; [lia | exact Hj].
    + apply line_unescaped_iff. rewrite length_take. replace (indent_of l `min` length l)%nat with (indent_of l) by (unfold indent_of; lia). done.
Qed.

(** *** Comments *)

Lemma comment_lead_iff s : comment_lead s = true <-> starts_comment s.
Proof.
  unfold starts_comment. destruct s as [| c s]; cbn [comment_lead]; [split; [done | by intros (r & [[=] | [[=] | [=]]])] |].
  rewrite !orb_true_iff, andb_true_iff, !ceq_iff. unfold starts_with. rewrite bool_decide_eq_true. split.
  - intros [[[-> Hs] | ->] | ->]; [destruct s as [| d s]; [done |]; injection Hs as ->; exists s; by left | exists s; by right; left | exists s; by right; right].
  - intros (r & [[= -> ->] | [[= -> ->] | [= -> ->]]]); [by left; left | by left; right | by right].
Qed.

Definition is_quote (c : ascii) : bool := ceq c DQUOTE || ceq c SQUOTE.

#[export] Instance quote_tests : Tests is_quote quote_mark.
Proof. intros c. unfold is_quote. by rewrite orb_true_iff, !ceq_iff. Qed.

Lemma no_close_cons c s : no_close (c :: s) <-> ~ (c = "*"%char /\ head s = Some "/"%char) /\ no_close s.
Proof.
  unfold no_close. split.
  - intros Hn. split; [intros (-> & Hs); destruct s as [| d s]; [done |]; injection Hs as ->; apply Hn; by exists [], s |].
    intros (a & b & ->). apply Hn. by exists (c :: a), b.
  - intros [Hc Hs] (a & b & Heq). destruct a as [| d a]; cbn in Heq; injection Heq as -> Heq; [apply Hc; by rewrite Heq |]. apply Hs. by exists a, b.
Qed.

Lemma no_close_nil : no_close [].
Proof. by intros ([| c a] & b & [=]). Qed.

Lemma plain_cons c s : no_quote_or_comment (c :: s) <-> ~ quote_mark c /\ ~ (c = "/"%char /\ head s = Some "*"%char) /\ no_quote_or_comment s.
Proof.
  unfold no_quote_or_comment. rewrite Forall_cons. split.
  - intros [[Hc Hs] Hn]. split_and!; [done | | done |].
    + intros (-> & Hh). destruct s as [| d s]; [done |]. injection Hh as ->. apply Hn. by exists [], s.
    + intros (a & b & ->). apply Hn. by exists (c :: a), b.
  - intros (Hc & Hh & Hs & Hn). split_and!; [done.. |]. intros (a & b & Heq). destruct a as [| d a]; cbn in Heq; injection Heq as -> Heq.
    + apply Hh. by rewrite Heq.
    + apply Hn. by exists a, b.
Qed.

Lemma plain_nil : no_quote_or_comment [].
Proof. split; [constructor |]. by intros ([| c a] & b & [=]). Qed.

Lemma ceq_false c d : c <> d -> ceq c d = false.
Proof. apply bool_decide_eq_false_2. Qed.

(** Inside a comment. *)
Lemma strip_no_close s : no_close s -> strip true None s = ([], true).
Proof.
  induction s as [| c s IH]; intros Hs; [done |]. apply no_close_cons in Hs as [Hc Hs]. cbn [strip]. destruct s as [| d s]; [by apply IH |].
  destruct (ceq c "*" && ceq d "/") eqn:He; [| by apply IH]. apply andb_true_iff in He as [->%ceq_iff ->%ceq_iff]. by destruct Hc.
Qed.

Lemma strip_close a s : no_close a -> strip true None (a ++ B "*/" ++ s) = strip false None s.
Proof.
  induction a as [| c a IH]; intros Ha; [done |]. apply no_close_cons in Ha as [Hc Ha]. specialize (IH Ha). cbn [app strip].
  destruct (a ++ B "*/" ++ s) as [| d t] eqn:Ht; [by destruct a |].
  destruct (ceq c "*" && ceq d "/") eqn:He; [| exact IH]. apply andb_true_iff in He as [->%ceq_iff ->%ceq_iff].
  destruct a as [| e a]; [discriminate Ht |]. injection Ht as -> _. by destruct Hc.
Qed.

(** Outside, before something that starts a quote or a comment. *)
Lemma strip_plain a s : no_quote_or_comment a -> head s <> Some "*"%char ->
  strip false None (a ++ s) = (a ++ (strip false None s).1, (strip false None s).2).
Proof.
  intros Ha Hs. induction a as [| c a IH]; [cbn [app]; by destruct (strip false None s) |]. apply plain_cons in Ha as (Hq & Hc & Ha). specialize (IH Ha).
  cbn [app strip]. change (ceq c DQUOTE || ceq c SQUOTE) with (is_quote c). destruct (is_quote c) eqn:Hqc; [by apply test_spec in Hqc |].
  destruct (a ++ s) as [| d t] eqn:Ht.
  { apply app_eq_nil in Ht as [-> ->]. done. }
  destruct (ceq c "/" && ceq d "*") eqn:He.
  { apply andb_true_iff in He as [->%ceq_iff ->%ceq_iff]. destruct a as [| e a]; [cbn in Ht; subst s; done |]. injection Ht as -> _. by destruct Hc. }
  rewrite IH. done.
Qed.

(** Within quotes. *)
Lemma strip_quoted q body s : quote_mark q -> quoted q body ->
  strip false (Some q) (body ++ q :: s) = (body ++ q :: (strip false None s).1, (strip false None s).2).
Proof.
  intros Hq. assert (Hqb : ceq q BACKSLASH = false) by (apply ceq_false; by destruct Hq as [-> | ->]).
  induction 1 as [| c t Ht IH | c t Hc Hb Ht IH]; cbn [app strip].
  - destruct s as [| d s]; [done |]. rewrite Hqb, (proj2 (ceq_iff q q) eq_refl). by destruct (strip false None (d :: s)).
  - rewrite (proj2 (ceq_iff _ _) eq_refl), IH. done.
  - destruct (t ++ q :: s) as [| d u] eqn:Hu; [by destruct t |]. rewrite (ceq_false c BACKSLASH), (ceq_false c q), IH by done. done.
Qed.

Lemma strip_unquoted q body tail : quoted q body -> tail = [] \/ tail = [BACKSLASH] -> strip false (Some q) (body ++ tail) = (body ++ tail, false).
Proof.
  intros Hb Ht. induction Hb as [| c t Hb IH | c t Hc Hn Hb IH]; cbn [app strip].
  - by destruct Ht as [-> | ->].
  - by rewrite (proj2 (ceq_iff _ _) eq_refl), IH.
  - destruct (t ++ tail) as [| d u] eqn:Hu; [done |]. by rewrite (ceq_false c BACKSLASH), (ceq_false c q), IH by done.
Qed.

Lemma strip_quote q s : quote_mark q -> strip false None (q :: s) = (q :: (strip false (Some q) s).1, (strip false (Some q) s).2).
Proof.
  intros Hq. apply (test_spec (p := is_quote)) in Hq. cbn [strip]. change (ceq q DQUOTE || ceq q SQUOTE) with (is_quote q). rewrite Hq.
  by destruct (strip false (Some q) s).
Qed.

Lemma quote_head q s : quote_mark q -> head (q :: s) <> Some "*"%char.
Proof. by intros [-> | ->]. Qed.

Lemma uncommented_strip inside s kept i : uncommented inside s kept i -> strip inside None s = (kept, i).
Proof.
  induction 1 as [s Hs | a s kept i Ha Hs IH | s Hs | a s kept i Ha Hs IH | a q body s kept i Ha Hq Hb Hs IH | a q body tail Ha Hq Hb Ht].
  - by apply strip_no_close.
  - by rewrite strip_close.
  - rewrite <- (app_nil_r s) at 1. rewrite strip_plain by done. cbn. by rewrite app_nil_r.
  - rewrite strip_plain by done. change (strip false None (B "/*" ++ s)) with (strip true None s). by rewrite IH.
  - rewrite strip_plain by (done || by apply quote_head). rewrite strip_quote, strip_quoted by done. by rewrite IH.
  - rewrite strip_plain by (done || by apply quote_head). by rewrite strip_quote, strip_unquoted.
Qed.

(** Every text has a reading. *)
Lemma split_close s : no_close s \/ exists a t, s = a ++ B "*/" ++ t /\ no_close a.
Proof.
  induction s as [| c s IH]; [left; apply no_close_nil |].
  destruct (decide (c = "*"%char /\ head s = Some "/"%char)) as [[-> Hh] | Hc].
  - right. destruct s as [| d s]; [done |]. injection Hh as ->. exists [], s. split; [done | apply no_close_nil].
  - destruct IH as [Hs | (a & t & -> & Ha)]; [left; by apply no_close_cons |]. right. exists (c :: a), t. split; [done |]. apply no_close_cons. split; [| done].
    intros [-> Hh]. apply Hc. split; [done |]. by destruct a.
Qed.

Lemma split_plain s : no_quote_or_comment s \/ exists a t, s = a ++ t /\ no_quote_or_comment a /\
  ((exists t', t = B "/*" ++ t') \/ (exists q t', quote_mark q /\ t = q :: t')).
Proof.
  induction s as [| c s IH]; [left; apply plain_nil |].
  destruct (is_quote c) eqn:Hq.
  { apply test_spec in Hq. right. exists [], (c :: s). split_and!; [done | apply plain_nil | right; by exists c, s]. }
  assert (Hnq : ~ quote_mark c) by (intros Hqm%(test_spec (p := is_quote)); congruence).
  destruct (decide (c = "/"%char /\ head s = Some "*"%char)) as [[-> Hh] | Hc].
  - right. destruct s as [| d s]; [done |]. injection Hh as ->. exists [], ("/"%char :: "*"%char :: s). split_and!; [done | apply plain_nil | left; by exists s].
  - destruct IH as [Hs | (a & t & -> & Ha & Ht)]; [left; by apply plain_cons |]. right. exists (c :: a), t. split_and!; [done | | done].
    apply plain_cons. split_and!; [done | | done]. intros [-> Hh]. apply Hc. split; [done |]. by destruct a.
Qed.

Lemma split_quoted q s : (exists body t, s = body ++ q :: t /\ quoted q body) \/ exists body tail, s = body ++ tail /\ quoted q body /\ (tail = [] \/ tail = [BACKSLASH]).
Proof.
  remember (length s) as n eqn:Hn. revert s Hn. induction n as [n IH] using lt_wf_ind; intros s Hn.
  destruct s as [| c s]; [right; exists [], []; split_and!; [done | constructor | by left] |].
  destruct (decide (c = q)) as [-> | Hq]; [left; exists [], s; split; [done | constructor] |].
  destruct (decide (c = BACKSLASH)) as [-> | Hb].
  - destruct s as [| d s]; [right; exists [], [BACKSLASH]; split_and!; [done | constructor | by right] |].
    destruct (IH (length s) ltac:(cbn in Hn; lia) s eq_refl) as [(body & t & -> & Hbody) | (body & tail & -> & Hbody & Ht)].
    + left. exists (BACKSLASH :: d :: body), t. split; [done | by constructor].
    + right. exists (BACKSLASH :: d :: body), tail. split_and!; [done | by constructor | done].
  - destruct (IH (length s) ltac:(cbn in Hn; lia) s eq_refl) as [(body & t & -> & Hbody) | (body & tail & -> & Hbody & Ht)].
    + left. exists (c :: body), t. split; [done | by constructor].
    + right. exists (c :: body), tail. split_and!; [done | by constructor | done].
Qed.

Lemma uncommented_total inside s : exists kept i, uncommented inside s kept i.
Proof.
  remember (length s) as n eqn:Hn. revert inside s Hn. induction n as [n IH] using lt_wf_ind; intros [] s Hn.
  - destruct (split_close s) as [Hs | (a & t & -> & Ha)]; [by exists [], true; apply un_inside |].
    rewrite !length_app in Hn. cbn [length B] in Hn. destruct (IH (length t) ltac:(cbn in Hn; lia) false t eq_refl) as (k & i & Hk). exists k, i. by apply un_close.
  - destruct (split_plain s) as [Hs | (a & t & -> & Ha & [(t' & ->) | (q & t' & Hq & ->)])]; [by exists s, false; apply un_plain | |].
    + rewrite !length_app in Hn. destruct (IH (length t') ltac:(cbn in Hn; lia) true t' eq_refl) as (k & i & Hk). exists (a ++ k), i. by apply un_open.
    + destruct (split_quoted q t') as [(body & t & -> & Hb) | (body & tail & -> & Hb & Ht)]; [| by exists (a ++ q :: body ++ tail), false; apply un_quote_open].
      rewrite length_app in Hn. cbn [length] in Hn. rewrite length_app in Hn. cbn [length] in Hn.
      destruct (IH (length t) ltac:(lia) false t eq_refl) as (k & i & Hk). exists (a ++ q :: body ++ q :: k), i. by apply un_quote.
Qed.

Lemma uncommented_iff inside s kept i : uncommented inside s kept i <-> strip inside None s = (kept, i).
Proof.
  split; [apply uncommented_strip |]. intros Hs. destruct (uncommented_total inside s) as (k & j & Hk).
  apply uncommented_strip in Hk as Hk'. rewrite Hs in Hk'. by injection Hk' as <- <-.
Qed.

Lemma comment_free_iff inside escaped text s i : comment_free inside escaped text s i <-> uncomment inside escaped text = (s, i).
Proof.
  assert (Hcond : negb inside && negb escaped && comment_lead text = true <-> inside = false /\ escaped = false /\ starts_comment text).
  { rewrite !andb_true_iff, !negb_true_iff, comment_lead_iff. tauto. }
  unfold uncomment. destruct (negb inside && negb escaped && comment_lead text) eqn:He.
  - apply proj1 in Hcond. specialize (Hcond eq_refl) as (-> & -> & Hc). split.
    + intros Hf. inversion Hf; subst; [done | tauto].
    + intros [= <- <-]. by apply free_comment.
  - assert (Hno : ~ (inside = false /\ escaped = false /\ starts_comment text)) by (intros Hc%Hcond; done). split.
    + intros Hf. inversion Hf as [| kept s' i' _ Hu Hs]; subst; [tauto |]. apply uncommented_iff in Hu as ->. by apply (ends_cut_iff isspace space) in Hs as ->.
    + destruct (strip inside None text) as [kept j] eqn:Hst. intros [= <- <-]. apply (free_rest _ _ _ kept); [done | by apply uncommented_iff | by apply (ends_cut_iff isspace space)].
Qed.

(** *** Formatting characters *)

#[export] Instance digit_tests : Tests isdigit digit.
Proof. by intros c. Qed.

Lemma digits_iff s d r : digits s d r <-> copy_digits 2 s = (d, r).
Proof.
  assert (Hdig : forall c, isdigit c = false <-> ~ digit c) by (intros c; unfold digit; by destruct (isdigit c)). unfold digits. split.
  - intros (-> & Hd & Hl & Hr). destruct d as [| a [| b [| c d]]]; cbn in Hl; try lia; cbn [app copy_digits].
    + destruct Hr as [[=] | Hr]. destruct r as [| c r]; [done |]. specialize (Hr c eq_refl). apply Hdig in Hr. by rewrite Hr.
    + apply Forall_cons in Hd as [Ha _]. unfold digit in Ha. rewrite Ha. destruct Hr as [[=] | Hr]. destruct r as [| c r]; [done |].
      specialize (Hr c eq_refl). apply Hdig in Hr. by rewrite Hr.
    + apply Forall_cons in Hd as [Ha Hd]. apply Forall_cons in Hd as [Hb _]. unfold digit in *. by rewrite Ha, Hb.
  - destruct s as [| a s]; cbn [copy_digits]. { intros [= <- <-]. split_and!; [done | constructor | cbn; lia | by right]. }
    destruct (isdigit a) eqn:Ha. 2:{ intros [= <- <-]. split_and!; [done | constructor | cbn; lia | right; intros c [= <-]; by apply Hdig]. }
    destruct s as [| b s]; cbn [copy_digits]. { intros [= <- <-]. split_and!; [done | by repeat constructor | cbn; lia | by right]. }
    destruct (isdigit b) eqn:Hb; intros [= <- <-]; (split_and!; [done | by repeat constructor | cbn; lia |]); [by left | right; intros c [= <-]; by apply Hdig].
Qed.

Lemma colours_iff s d r : colours s d r <-> copy_colour s = (d, r).
Proof.
  unfold copy_colour. destruct (copy_digits 2 s) as [fg r0] eqn:Hfg. split.
  - intros Hc. revert Hfg. destruct Hc as [s fg' bg r1 r' H1%digits_iff Hd H2%digits_iff | s fg' r' H1%digits_iff Hn]; intros Hfg; rewrite Hfg in H1; injection H1 as -> ->.
    + destruct Hd as (c & Hc & Hd). destruct r1 as [| c' r1]; [done |]. injection Hc as ->. unfold digit in Hd. cbn [ceq drop]. rewrite (proj2 (ceq_iff _ _) eq_refl), Hd.
      cbn [andb drop]. by rewrite H2.
    + destruct r' as [| c [| c' r']]; [done.. |]. destruct (ceq c "," && isdigit c') eqn:He; [| done]. apply andb_true_iff in He as [->%ceq_iff He].
      destruct Hn. by exists c', r'.
  - intros He. apply digits_iff in Hfg. destruct r0 as [| c [| c' r0]].
    1, 2: injection He as <- <-; apply colour_one; [done |]; by intros (x & y & [=] & _).
    destruct (ceq c "," && isdigit c') eqn:Hc.
    + apply andb_true_iff in Hc as [->%ceq_iff Hc]. cbn [drop] in He. destruct (copy_digits 2 (c' :: r0)) as [bg r1] eqn:Hbg. injection He as <- <-.
      apply (colour_two s fg bg (c' :: r0)); [done | by exists c' | by apply digits_iff].
    + injection He as <- <-. apply colour_one; [done |]. intros (x & y & [= -> -> ->] & Hx). unfold digit in Hx. by rewrite Hx in Hc.
Qed.

Lemma control_of_spec c : if control_of c =? 0 then c <> "C"%char /\ c ∉ letter_controls.*1
  else if control_of c =? 3 then c = "C"%char else (c, control_of c) ∈ letter_controls.
Proof.
  unfold control_of. unfold ceq.
  repeat (case_bool_decide; [subst c; first [reflexivity | apply (bool_decide_unpack _); vm_compute; exact I] |]).
  cbn [Z.eqb]. split; [done |]. cbn. rewrite !not_elem_of_cons. split_and!; try done. apply not_elem_of_nil.
Qed.

Lemma letter_control c k : (c, k) ∈ letter_controls -> control_of c = k /\ (k =? 0) = false /\ (k =? 3) = false /\ c <> BACKSLASH.
Proof.
  unfold letter_controls. rewrite !elem_of_cons. intros H. repeat destruct H as [[= -> ->] | H]; try (split_and!; [done | done | done | discriminate]).
  by apply elem_of_nil in H.
Qed.

Lemma copy_colour_length s : (length (copy_colour s).2 <= length s)%nat.
Proof.
  destruct (copy_colour s) as [d r] eqn:He. apply colours_iff in He. cbn [snd].
  destruct He as [s fg bg r1 r (-> & _) _ (-> & _) | s fg r (-> & _)]; rewrite !length_app; cbn [length]; rewrite ?length_app; lia.
Qed.

Lemma expand_total s fuel : (length s <= fuel)%nat -> formatted s (expand_escapes fuel s).
Proof.
  revert s. induction fuel as [| fuel IH]; intros s Hf; [destruct s; [constructor | cbn in Hf; lia] |].
  destruct s as [| c [| d t]]; cbn [expand_escapes]; [constructor | apply fmt_char; [by intros (_ & x & y & [=] & _) | constructor] |]. cbn [length] in Hf.
  destruct (ceq c BACKSLASH) eqn:Hc.
  2:{ apply fmt_char; [| apply IH; cbn; lia]. intros (-> & _). by rewrite (proj2 (ceq_iff _ _)) in Hc. }
  apply ceq_iff in Hc as ->. destruct (ceq d BACKSLASH) eqn:Hd. { apply ceq_iff in Hd as ->. apply fmt_backslash, IH. lia. }
  pose proof (control_of_spec d) as Hs. destruct (control_of d =? 0).
  { apply fmt_char; [| apply IH; cbn; lia]. intros (_ & x & y & [= <- <-] & Hx). destruct Hs as [H1 H2]. destruct Hx as [-> | [-> | Hx]]; [| done | done].
    by rewrite (proj2 (ceq_iff _ _)) in Hd. }
  destruct (control_of d =? 3).
  - subst d. pose proof (copy_colour_length t). destruct (copy_colour t) as [col r] eqn:Hcol. apply (fmt_colour t col r); [by apply colours_iff |]. apply IH. cbn in *. lia.
  - apply (fmt_control d (control_of d)); [done |]. apply IH. lia.
Qed.

Lemma formatted_unique s t t' : formatted s t -> formatted s t' -> t = t'.
Proof.
  assert (Hgo : forall fuel s t, formatted s t -> (length s <= fuel)%nat -> t = expand_escapes fuel s).
  { clear. intros fuel. induction fuel as [| fuel IH]; intros s t Hs Hf.
    { destruct Hs; cbn in Hf; try lia; done. }
    destruct Hs as [| s t Hs | s d r t Hc Hs | c k s t Hc Hs | c s t Hc Hs]; cbn [expand_escapes length] in *; [done | | | |].
    - rewrite !(proj2 (ceq_iff _ _) eq_refl). f_equal. apply IH; [done | lia].
    - rewrite (proj2 (ceq_iff _ _) eq_refl). apply colours_iff in Hc. pose proof (copy_colour_length s) as Hl. rewrite Hc in *. cbn [snd] in Hl.
      change (ceq "C"%char BACKSLASH) with false. change (control_of "C"%char =? 0) with false. change (control_of "C"%char =? 3) with true. cbv iota.
      do 2 f_equal. apply IH; [done | lia].
    - destruct (letter_control c k Hc) as (<- & H0 & H3 & Hb). rewrite (proj2 (ceq_iff _ _) eq_refl), (ceq_false c BACKSLASH), H0, H3 by done. f_equal. apply IH; [done | lia].
    - destruct s as [| d s]; [by inversion Hs|]. destruct (ceq c BACKSLASH) eqn:Hcb; [| f_equal; apply IH; [done | cbn in *; lia]].
      apply ceq_iff in Hcb as ->. destruct (ceq d BACKSLASH) eqn:Hd. { apply ceq_iff in Hd as ->. destruct Hc. split; [done |]. eexists _, _. split; [done | by left]. }
      pose proof (control_of_spec d) as Hsp. destruct (control_of d =? 0); [f_equal; apply IH; [done | cbn in *; lia] |]. destruct Hc. split; [done |]. exists d, s. split; [done |].
      destruct (control_of d =? 3); [by right; left | right; right]. apply list_elem_of_fmap. by exists (d, control_of d). }
  intros H1 H2. by rewrite (Hgo (length s) s t H1), (Hgo (length s) s t' H2) by done.
Qed.

Lemma formatted_iff s t : formatted s t <-> t = cfg_expand_format_escapes s.
Proof.
  split; [intros Hs; eapply formatted_unique; [exact Hs | by apply expand_total] |]. intros ->. by apply expand_total.
Qed.

Lemma strneq_iff s p : strneq s p (length p) = true <-> exists r, s = p ++ r.
Proof.
  unfold strneq. rewrite (take_ge p) by done. split.
  - intros He%streq_true. exists (drop (length p) s). by rewrite <- He at 1; rewrite take_drop.
  - intros [r ->]. rewrite take_app_length. apply streq_refl.
Qed.

Lemma formatting_key_iff k : cfg_formatting_key k = true <-> formatting_key k.
Proof.
  unfold cfg_formatting_key, formatting_key. rewrite !orb_true_iff, (strneq_iff k (B "theme.")), (strneq_iff k (B "ui.theme.")).
  split; [intros [[[H | H] | H%streq_true] | H%streq_true]; tauto |]. intros [H | [H | [-> | ->]]]; rewrite ?streq_refl; tauto.
Qed.

(** *** Items *)

Lemma before_last_iff q s r : before_last q s = Some r <-> exists tail, s = r ++ q :: tail /\ q ∉ tail.
Proof.
  revert r. induction s as [| c s IH]; intros r; cbn [before_last]; [split; [done | by intros (tail & Hs & _); destruct r] |].
  destruct (before_last q s) as [r' |] eqn:Hr.
  - destruct (proj1 (IH r') eq_refl) as (tail & -> & Ht). split.
    + intros [= <-]. by exists tail.
    + intros (tail' & Heq & Ht'). destruct r as [| d r]; cbn in Heq; injection Heq as <- Heq.
      { destruct Ht'. rewrite <- Heq. apply elem_of_app. right. apply elem_of_cons. by left. }
      f_equal. f_equal. assert (Hs : Some r' = Some r) by (apply IH; by exists tail'). congruence.
  - assert (Hno : q ∉ s).
    { intros Hin. apply list_elem_of_split in Hin as (l1 & l2 & ->). clear -Hr. revert Hr. induction l1 as [| d l1 IH]; cbn [app before_last].
      - destruct (before_last q l2); [done |]. by rewrite (proj2 (ceq_iff q q) eq_refl).
      - destruct (before_last q (l1 ++ q :: l2)); [done | by specialize (IH eq_refl)]. }
    destruct (ceq c q) eqn:Hc.
    + apply ceq_iff in Hc as ->. split; [intros [= <-]; by exists s |]. intros (tail & Heq & Ht). destruct r as [| d r]; [done |]. cbn in Heq. injection Heq as -> ->.
      destruct Hno. apply elem_of_app. right. apply elem_of_cons. by left.
    + split; [done |]. intros (tail & Heq & Ht). destruct r as [| d r]; cbn in Heq; injection Heq as -> ->; [by rewrite (proj2 (ceq_iff q q)) in Hc |].
      destruct Hno. apply elem_of_app. right. apply elem_of_cons. by left.
Qed.

Lemma before_last_none q s : before_last q s = None <-> q ∉ s.
Proof.
  split.
  - intros Hn Hin. apply list_elem_of_split_r in Hin as (r & tail & -> & Ht). assert (Hs : before_last q (r ++ q :: tail) = Some r) by (apply before_last_iff; by exists tail). congruence.
  - intros Hn. destruct (before_last q s) as [r |] eqn:Hr; [| done]. apply before_last_iff in Hr as (tail & -> & _). destruct Hn. apply elem_of_app. right. apply elem_of_cons. by left.
Qed.

Lemma argument_iff s path : argument s path <-> path = unquote s.
Proof.
  split.
  - intros [s' Hs | q s' tail Hq Ht | q s' Hq Hs]; unfold unquote.
    + destruct s' as [| c s']; [done |]. destruct (ceq c DQUOTE || ceq c SQUOTE) eqn:Hc; [| done]. by apply (test_spec (p := is_quote)), (Hs c) in Hc.
    + change (ceq q DQUOTE || ceq q SQUOTE) with (is_quote q). rewrite (proj2 (test_spec (p := is_quote) q) Hq).
      rewrite (proj2 (before_last_iff q (s' ++ q :: tail) s')) by (by exists tail). done.
    + change (ceq q DQUOTE || ceq q SQUOTE) with (is_quote q). rewrite (proj2 (test_spec (p := is_quote) q) Hq).
      by rewrite (proj2 (before_last_none q s') Hs).
  - intros ->. destruct s as [| c s]; cbn [unquote]; [by apply arg_plain |]. change (ceq c DQUOTE || ceq c SQUOTE) with (is_quote c).
    destruct (is_quote c) eqn:Hc; [| apply arg_plain; intros d [= <-] Hd%(test_spec (p := is_quote)); congruence].
    apply test_spec in Hc. destruct (before_last c s) as [r |] eqn:Hr; cbn [default from_option id].
    + apply before_last_iff in Hr as (tail & -> & Ht). by apply arg_quoted.
    + apply before_last_none in Hr. by apply arg_open.
Qed.

Lemma starts_with_iff s c : starts_with s c = true <-> exists r, s = c :: r.
Proof.
  unfold starts_with. rewrite bool_decide_eq_true. destruct s as [| d s]; cbn; [split; [done | by intros (r & [=])] |].
  split; [intros [= ->]; by exists s | by intros (r & [= -> _])].
Qed.

Lemma separator_iff c : is_blank c || ceq c "=" = true <-> blank c \/ c = "="%char.
Proof. apply separator_tests. Qed.

Lemma include_iff s o p : include_says s o p <-> exists arg, include_of s = Some (o, arg) /\ p = unquote arg.
Proof.
  unfold include_of. split.
  - intros (mark & word & sep & arg & -> & Hm & Hl & Hw & Hsep & Harg & Hne & Ha%argument_iff). exists arg. split; [| done].
    cbn [drop]. assert (Hmark : starts_with (mark :: word ++ sep ++ arg) "!"%char = o /\ (starts_with (mark :: word ++ sep ++ arg) "!"%char || starts_with (mark :: word ++ sep ++ arg) "."%char) = true).
    { by destruct Hm as [[-> ->] | [-> ->]]. }
    destruct Hmark as [-> ->]. cbn [andb]. change (drop 8 (mark :: word ++ sep ++ arg)) with (drop 7 (word ++ sep ++ arg)).
    replace (strncaseeq (drop 0 (word ++ sep ++ arg)) (B "include") 7) with true.
    2:{ unfold strncaseeq. rewrite drop_0, (take_app_length' word) by done. symmetry. exact Hw. }
    rewrite (drop_app_length' word) by done.
    assert (Hskip : skip_while (fun c => is_blank c || ceq c "=") (sep ++ arg) = arg).
    { destruct (proj1 (start_cut_iff _ (fun c => blank c \/ c = "="%char) (sep ++ arg) sep arg)) as [Hs _]; [done |]. by rewrite <- Hs. }
    rewrite Hskip. destruct sep as [| c sep]; [destruct Hne as [-> | Hne]; done |]. cbn [app]. apply Forall_cons in Hsep as [Hc _].
    apply (separator_iff c) in Hc. by rewrite Hc.
  - intros (arg & Hi & ->). destruct s as [| mark s]; [done |]. cbn [drop] in Hi. 
    destruct ((starts_with (mark :: s) "!"%char || starts_with (mark :: s) "."%char) && strncaseeq (drop 0 s) (B "include") 7) eqn:Hc; [| done].
    apply andb_true_iff in Hc as [Hm Hw]. change (drop 8 (mark :: s)) with (drop 7 s) in Hi. unfold strncaseeq in Hw. rewrite drop_0 in Hw.
    destruct (match drop 7 s with [] => true | c :: _ => is_blank c || ceq c "=" end) eqn:Hd; [| done]. injection Hi as <- <-.
    assert (Hlen : length (take 7 s) = 7%nat).
    { apply streq_true, (f_equal length) in Hw. rewrite !length_map in Hw. exact Hw. }
    destruct (proj2 (start_cut_iff (fun c => is_blank c || ceq c "=") (fun c => blank c \/ c = "="%char) (drop 7 s)
      (take (length (drop 7 s) - length (skip_while (fun c => is_blank c || ceq c "=") (drop 7 s))) (drop 7 s)) (skip_while (fun c => is_blank c || ceq c "=") (drop 7 s)))) as (Hs & Hsep & Harg).
    { split; [done |]. clear. set (p := fun c => _). generalize (drop 7 s). intros l. assert (Hex : exists a, l = a ++ skip_while p l).
      { induction l as [| c l [a Ha]]; [by exists [] |]. cbn [skip_while]. destruct (p c); [exists (c :: a); cbn; by rewrite <- Ha | by exists []]. }
      destruct Hex as [a Ha]. apply (f_equal length) in Ha as Hl. rewrite length_app in Hl.
      replace (length l - length (skip_while p l))%nat with (length a) by lia. rewrite Ha at 2. by rewrite take_app_length. }
    set (sep := take _ (drop 7 s)) in *. set (arg := skip_while _ (drop 7 s)) in *. clearbody sep arg.
    exists mark, (take 7 s), sep, arg. split_and!; [rewrite <- Hs, take_drop; done | | done | exact Hw | done | done | | by apply argument_iff].
    + destruct (starts_with (mark :: s) "!"%char) eqn:He; [left | right].
      * by apply starts_with_iff in He as (r & [= -> _]).
      * cbn [orb] in Hm. by apply starts_with_iff in Hm as (r & [= -> _]).
    + rewrite Hs in Hd. destruct sep as [| c sep]; [| by right]. left. cbn [app] in Hd. destruct arg as [| c arg]; [done |].
      apply separator_iff in Hd. by destruct (Harg c).
Qed.

Lemma header_iff s name : header_says s name <-> section_of s = Some name.
Proof.
  unfold section_of. split.
  - intros (n & -> & ->). replace (starts_with _ _) with true by (symmetry; apply starts_with_iff; by eexists).
    replace (ends_with _ _) with true by (symmetry; apply ends_with_iff; rewrite app_comm_cons; apply last_snoc). cbn [andb drop length]. f_equal.
    rewrite length_app. cbn [length]. rewrite drop_0, take_app_le by lia.
    destruct (decide (length n <= 127)%nat); [rewrite !take_ge by lia; done |]. f_equal. lia.
  - destruct (starts_with s "["%char) eqn:Hs; [| done]. destruct (ends_with s "]"%char) eqn:He; [| done]. cbn [andb]. intros [= <-].
    apply starts_with_iff in Hs as [r ->]. apply ends_with_iff in He. destruct r as [| c r]; [done |]. change (drop 1 ("["%char :: c :: r)) with (c :: r).
    apply (chop_last (c :: r)) in He. set (n := chop (c :: r)) in *. exists n. rewrite He. split; [done |]. cbn [length]. rewrite length_app. cbn [length].
    rewrite take_app_le by lia. destruct (decide (length n <= 127)%nat); [rewrite !take_ge by lia; done |]. f_equal. lia.
Qed.

Lemma skip_while_cut s : exists lead, start_cut blank s lead (skip_while is_blank s).
Proof.
  assert (Hex : exists a, s = a ++ skip_while is_blank s).
  { induction s as [| c s [a Ha]]; [by exists [] |]. cbn [skip_while]. destruct (is_blank c); [exists (c :: a); cbn; by rewrite <- Ha | by exists []]. }
  destruct Hex as [a Ha]. exists a. by apply (start_cut_iff is_blank blank).
Qed.

Lemma split_at_iff s c a b : split_at s c = Some (a, b) <-> s = a ++ c :: b /\ c ∉ a.
Proof.
  split.
  - revert a. induction s as [| d s IH]; intros a; cbn [split_at]; [done |]. case_bool_decide as Hd.
    + subst d. intros [= <- <-]. split; [done | apply not_elem_of_nil].
    + destruct (split_at s c) as [[a' b'] |]; [| done]. intros [= <- <-]. destruct (IH a' eq_refl) as [-> Ha]. split; [done |]. apply not_elem_of_cons. by split; [congruence |].
  - intros [-> Ha]. induction a as [| d a IH]; cbn [app split_at]; [by rewrite bool_decide_eq_true_2 |]. apply not_elem_of_cons in Ha as [Hd Ha].
    rewrite bool_decide_eq_false_2 by congruence. by rewrite (IH Ha).
Qed.

Lemma split_at_None_iff s c : split_at s c = None <-> c ∉ s.
Proof.
  split; [| apply split_at_none]. intros Hn Hin. apply list_elem_of_split_l in Hin as (a & b & -> & Ha).
  assert (Hs : split_at (a ++ c :: b) c = Some (a, b)) by by apply split_at_iff. congruence.
Qed.

Lemma general_key sec key k : strcaseeq sec (B "general") = true -> section_key sec key = Some k -> k = rtrim is_blank key.
Proof. intros Hg. unfold section_key. rewrite Hg. destruct (nonempty sec); [by intros [= <-] | done]. Qed.

Lemma setting_says_iff sec s l : setting_says sec s l <-> l = setting_item sec s.
Proof.
  assert (Hval : forall key k val v, section_key sec key = Some k ->
    (if decide (strcaseeq sec (B "general") = true) then formatting_key k /\ formatted val v \/ ~ formatting_key k /\ v = val else v = val) <-> v = stored_val sec key val).
  { intros key k val v Hk. unfold stored_val. destruct (decide _) as [Hg | Hg].
    - rewrite Hg, <- (general_key sec key k Hg Hk). cbn [andb]. rewrite formatted_iff, <- formatting_key_iff. destruct (cfg_formatting_key k); intuition congruence.
    - apply not_true_is_false in Hg. by rewrite Hg. }
  unfold setting_item, setting_of. split.
  - intros [Hs | key r -> Hn Hk | key r lead val k v -> Hn Hc Hk Hv].
    + by rewrite split_at_none.
    + rewrite (proj2 (split_at_iff _ _ key r)) by done. cbn. by rewrite Hk.
    + rewrite (proj2 (split_at_iff _ _ key r)) by done. cbn. rewrite Hk. apply (start_cut_iff is_blank blank) in Hc as [-> _]. apply (Hval key) in Hv as ->; done.
  - intros ->. destruct (split_at s "="%char) as [[key r] |] eqn:Hs; cbn; [| by apply no_setting, split_at_None_iff].
    apply split_at_iff in Hs as [-> Hn]. destruct (section_key sec key) as [k |] eqn:Hk; [| by apply (no_key _ _ key r)].
    destruct (skip_while_cut r) as [lead Hl]. apply (a_setting _ _ key r lead (skip_while is_blank r) k); try done. by apply (Hval key).
Qed.

Lemma not_read_iff sec escaped s : not_read sec escaped s <->
  negb (nonempty s) || (negb (nonempty sec) && orphan_star s) || (negb escaped && comment_lead s) = true.
Proof.
  unfold not_read. rewrite !orb_true_iff, !andb_true_iff, !negb_true_iff, comment_lead_iff.
  assert (H1 : forall l : bstr, l = [] <-> nonempty l = false) by by intros [| c l].
  assert (H2 : (exists c r, s = "*"%char :: c :: r /\ (c = "/"%char \/ space c)) <-> orphan_star s = true).
  { destruct s as [| c [| d s]]; cbn [orphan_star].
    - split; [by intros (? & ? & [=] & _) | done].
    - rewrite andb_false_r. split; [by intros (? & ? & [=] & _) | done].
    - rewrite andb_true_iff, orb_true_iff, ceq_iff, starts_with_iff. split.
      + intros (e & r & [= -> -> ->] & [-> | He]); (split; [done |]); [left; by eexists | by right].
      + intros [-> [[r [= -> ->]] | Hs]]; [eexists _, _; split; [done | by left] | exists d, s; split; [done | by right]]. }
  rewrite H2, <- !H1. tauto.
Qed.

Section computed.
Context `{Files}.
Variable others : bstr -> bstr -> bstr -> settings.

Lemma line_says_iff path sec escaped lead s it : line_says (others path) sec escaped lead s it <-> it = line_item others path sec escaped lead s.
Proof.
  unfold line_item. pose proof (not_read_iff sec escaped s) as Hnr.
  destruct (negb (nonempty s) || _ || _).
  { apply proj2 in Hnr. specialize (Hnr eq_refl). split; [intros Hl; by destruct Hl | intros ->; by apply says_nothing]. }
  assert (Hread : ~ not_read sec escaped s) by (intros Hc%Hnr; done). clear Hnr.
  destruct (include_of s) as [[o arg] |] eqn:Hi.
  { assert (Hinc : include_says s o (unquote arg)) by (apply include_iff; by exists arg).
    split; [intros Hl; destruct Hl as [| o' p' _ Hi' | name _ Hn _ | l _ Hn _ _ _ | _ Hn _ _ _]; [done | | by edestruct Hn | by edestruct Hn | by edestruct Hn] | intros ->; by apply says_include].
    apply include_iff in Hi' as (arg' & Hi' & ->). rewrite Hi in Hi'. by injection Hi' as <- <-. }
  assert (Hni : forall o p, ~ include_says s o p) by (intros o p (arg & Ha & _)%include_iff; congruence).
  destruct (section_of s) as [name |] eqn:Hh.
  { apply header_iff in Hh as Hhd. split; [intros Hl; destruct Hl as [| o p _ Hi' | name' _ _ Hh' | l _ _ Hn _ _ | _ _ Hn _ _]; [done | by edestruct Hni | | by edestruct Hn | by edestruct Hn] | intros ->; by apply says_header].
    apply header_iff in Hh'. congruence. }
  assert (Hnh : forall n, ~ header_says s n) by (intros n Hn%header_iff; congruence).
  destruct (negb (nonempty sec) || own_section sec) eqn:Ho.
  - assert (Hown : sec = [] \/ own_section sec = true) by (apply orb_true_iff in Ho as [Ho | Ho]; [left; by destruct sec | by right]).
    split; [| intros ->; by apply says_setting; [.. | apply setting_says_iff]]. intros Hl. destruct Hl as [| o p _ Hi' | name _ _ Hh' | l _ _ _ _ Hs | _ _ _ H1 H2]; [done | by edestruct Hni | by edestruct Hnh | by apply setting_says_iff in Hs as -> |].
    destruct Hown; congruence.
  - apply orb_false_iff in Ho as [Hs Ho]. assert (sec <> []) by by destruct sec.
    split; [| intros ->; by apply says_other]. intros Hl. destruct Hl as [| o p _ Hi' | name _ _ Hh' | l _ _ _ [Hc | Hc] _ |]; [done | by edestruct Hni | by edestruct Hnh | done | congruence | done].
Qed.

(** The files that [load] reads are those of the relation. *)
Definition computes (sub : option (bstr -> result -> Prop)) (load : option (bstr -> result)) : Prop :=
  match sub, load with
  | None, None => True
  | Some says, Some load => forall p r, says p r <-> r = load p
  | _, _ => False
  end.

Lemma include_gives_iff sub load path optional arg ok l : computes sub load ->
  include_gives sub path optional arg ok l <-> include_settings load path optional arg = (ok, l).
Proof.
  intros Hc. assert (Hres : included_file path arg = resolve path arg).
  { unfold included_file, resolve. destruct (decide (head arg = Some "/"%char)) as [Hd | Hd]; unfold starts_with; [by rewrite bool_decide_eq_true_2 | by rewrite bool_decide_eq_false_2]. }
  destruct arg as [| c arg]; cbn [include_settings].
  { split; [intros Hg; by destruct Hg as [_ | reads l Hn | reads Hn | reads l Hn] | intros [= <- <-]; apply gives_nothing; by left]. }
  destruct sub as [says |], load as [load |]; cbn [computes] in Hc; try done.
  2:{ split; [intros Hg; by destruct Hg as [_ | reads l _ [=] | reads _ [=] | reads l _ [=]] | intros [= <- <-]; apply gives_nothing; by right]. }
  rewrite <- Hres. split.
  - intros Hg. destruct Hg as [[[=] | [=]] | reads l _ [= <-] Hr | reads _ [= <-] Hr | reads l _ [= <-] Hr]; apply Hc in Hr; by rewrite <- Hr.
  - destruct (load (included_file path (c :: arg))) as [ok' r] eqn:Hl. assert (Hs : says (included_file path (c :: arg)) (ok', r)) by by apply Hc.
    destruct ok'; cbn [negb]; [destruct r as [l' |] |]; intros [= <- <-]; [by apply (gives_file _ _ _ _ says) | by apply (gives_none _ _ _ _ says) | by apply (gives_end _ _ _ _ says)].
Qed.

Lemma item_gives_iff sub load path sec it sec' ok l : computes sub load ->
  item_gives sub path sec it sec' ok l <-> item_settings load path sec it = (sec', ok, l).
Proof.
  intros Hc. split.
  - intros Hg. destruct Hg as [| | | o a ok l Hi]; [done.. |]. apply (include_gives_iff sub load) in Hi; [| done]. cbn. by rewrite Hi.
  - destruct it as [| name | l' | o a]; cbn; [intros [= <- <- <-]; constructor.. |]. destruct (include_settings load path o a) as [ok' l'] eqn:Hi.
    intros [= <- <- <-]. apply gives_include. by apply (include_gives_iff sub load).
Qed.

Lemma lines_of_next fuel fp : (0 < fuel)%nat -> lines_of fuel fp =
  match next_line fp with
  | Some (e, t, rest) => (e, take (indent_of t) t, skip_space t) :: lines_of (fuel - 1) rest
  | None => []
  end.
Proof.
  intros Hf. destruct fuel as [| fuel]; [lia |]. cbn [lines_of]. unfold next_line. destruct (fgets (BUFSZ - 1) fp) as [[l fp1] |]; [| done]. cbn [mbind option_bind].
  destruct (continue_line _ _ _ _) as [[[j n] fp2] |]; [| done]. cbn [mbind option_bind]. destruct (unescape_line _ _) as [e t]. by replace (S fuel - 1)%nat with fuel by lia.
Qed.

Lemma next_line_shorter fp e t rest : next_line fp = Some (e, t, rest) -> (length rest < length fp)%nat.
Proof.
  unfold next_line. destruct (fgets (BUFSZ - 1) fp) as [[l fp1] |] eqn:Hg; [| done]. cbn [mbind option_bind].
  apply fgets_shorter in Hg; [| pose proof BUFSZ_big; lia]. set (b := rtrim _ l).
  destruct (continue_line_ends (S (length fp1)) b fp1 ltac:(lia)) as (j & fp2 & m & Hle & ->). cbn [mbind option_bind].
  destruct (unescape_line _ _). intros [= _ _ <-]. lia.
Qed.

Lemma next_line_none fp : next_line fp = None -> fp = [].
Proof.
  unfold next_line. destruct (fgets (BUFSZ - 1) fp) as [[l fp1] |] eqn:Hg; [| by apply fgets_None in Hg]. cbn [mbind option_bind]. set (b := rtrim _ l).
  destruct (continue_line_ends (S (length fp1)) b fp1 ltac:(lia)) as (j & fp2 & m & Hle & ->). cbn [mbind option_bind]. by destruct (unescape_line _ _).
Qed.

Lemma lines_say_computed sub load path sec inside fp ok l : computes sub load -> lines_say others sub path sec inside fp ok l ->
  forall fuel, (length fp < fuel)%nat -> lines_settings others load path sec inside (lines_of fuel fp) = (ok, l).
Proof.
  intros Hc. induction 1 as [sec inside | sec inside fp e t rest lead body s inside' it sec' l Ht Hb Hu Hl Hi | sec inside fp e t rest lead body s inside' it sec' l ok more Ht Hb Hu Hl Hi Hm IH];
    intros fuel Hf.
  - by destruct fuel.
  - apply logical_text_iff in Ht. rewrite lines_of_next, Ht by lia. cbn [lines_settings]. apply space_cut_iff in Hb as [-> ->]. apply comment_free_iff in Hu as ->.
    apply line_says_iff in Hl as ->. apply (item_gives_iff sub load) in Hi; [| done]. by rewrite Hi.
  - apply logical_text_iff in Ht. rewrite lines_of_next, Ht by lia. cbn [lines_settings]. apply space_cut_iff in Hb as [-> ->]. apply comment_free_iff in Hu as ->.
    apply line_says_iff in Hl as ->. apply (item_gives_iff sub load) in Hi; [| done]. rewrite Hi. cbn [negb]. apply next_line_shorter in Ht. rewrite IH by lia. done.
Qed.

Lemma lines_computed_say sub load path fuel sec inside fp ok l : computes sub load -> (length fp < fuel)%nat ->
  lines_settings others load path sec inside (lines_of fuel fp) = (ok, l) -> lines_say others sub path sec inside fp ok l.
Proof.
  intros Hc. revert sec inside fp ok l. induction fuel as [| fuel IH]; intros sec inside fp ok l Hf; [lia |]. rewrite lines_of_next by lia.
  destruct (next_line fp) as [[[e t] rest] |] eqn:Ht.
  2:{ apply next_line_none in Ht as ->. intros [= <- <-]. apply say_end. }
  cbn [lines_settings]. destruct (uncomment inside e (skip_space t)) as [s inside'] eqn:Hu.
  set (lead := take (indent_of t) t). destruct (item_settings load path sec (line_item others path sec e lead s)) as [[sec' ok'] l'] eqn:Hi.
  assert (Hlog : logical_text fp e t rest) by by apply logical_text_iff. assert (Hcut : start_cut space t lead (skip_space t)) by by apply space_cut_iff.
  assert (Hfree : comment_free inside e (skip_space t) s inside') by by apply comment_free_iff.
  assert (Hline : line_says (others path) sec e lead s (line_item others path sec e lead s)) by by apply line_says_iff.
  assert (Hgive : item_gives sub path sec (line_item others path sec e lead s) sec' ok' l') by by apply (item_gives_iff sub load).
  destruct ok'; cbn [negb]; [| intros [= <- <-]; by eapply say_stop].
  replace (S fuel - 1)%nat with fuel by lia. destruct (lines_settings _ _ _ sec' inside' _) as [ok2 l2] eqn:Hm. intros [= <- <-].
  eapply say_next; [done.. |]. apply IH; [apply next_line_shorter in Ht; lia | done].
Qed.

Lemma text_says sub load path text r : computes sub load ->
  (exists ok l, r = (ok, Some l) /\ lines_say others sub path [] false text ok l) <->
  r = (let '(ok, l) := lines_settings others load path [] false (file_lines text) in (ok, Some l)).
Proof.
  intros Hc. unfold file_lines. split.
  - intros (ok & l & -> & Hl). by rewrite (lines_say_computed _ _ _ _ _ _ _ _ Hc Hl) by lia.
  - destruct (lines_settings others load path [] false (lines_of (S (length text)) text)) as [ok l] eqn:He. intros ->.
    exists ok, l. split; [done |]. eapply lines_computed_say; [exact Hc | | exact He]. lia.
Qed.

(** The reading of a file, computed. *)
Lemma file_says_iff levels path r : file_says others levels path r <-> r = file_settings others levels path.
Proof.
  revert path r. induction levels as [| levels IH]; intros path r; cbn [file_says file_settings];
    (destruct (if file_exists path then fopen_r path else None) as [text |]; [| done]); by apply text_says.
Qed.

End computed.
