(* ===== verification/ConfigTheory.v ===== *)
(** * The loader and its reference reading

    The loader's dictionary follows the assignments of [ConfigRef] line by line,
    those of the section callbacks included. *)

From S2P Require Import Prelude CString Dict DictTheory ConfigText Config ConfigRef.

#[local] Open Scope Z_scope.

(** ** White space *)

Lemma skip_space_suffix s : exists t, s = t ++ skip_space s /\ Forall (fun c => isspace c = true) t.
Proof.
  induction s as [| c s (t & Hs & Ht)]; [by exists [] |]. cbn [skip_space].
  destruct (isspace c) eqn:Hc; [exists (c :: t) | by exists []].
  split; [cbn; by rewrite <- Hs | auto].
Qed.

(** A line with nothing after its indentation is white space. *)
Lemma blank_line s p :
  drop (indent_of s) (rtrim p s) = [] -> Forall (fun c => isspace c = true) (rtrim p s).
Proof.
  intros Hd. destruct (skip_space_suffix s) as (t & Hs & Ht). destruct (rtrim_prefix p s) as (u & Hu & _).
  assert (Hi : indent_of s = length t).
  { unfold indent_of. pose proof (f_equal length Hs) as Hl. rewrite length_app in Hl. lia. }
  apply (f_equal length) in Hd. rewrite length_drop, Hi in Hd. cbn in Hd.
  assert (Htake : rtrim p s = take (length (rtrim p s)) t).
  { rewrite <- (take_app_length (rtrim p s) u) at 1. rewrite <- Hu, Hs.
    rewrite take_app_le by (rewrite <- Hs; lia). by rewrite <- Hs. }
  rewrite Htake. by apply Forall_take.
Qed.

Lemma rtrim_Forall (P : ascii -> Prop) p s : Forall P s -> Forall P (rtrim p s).
Proof. intros Hs. destruct (rtrim_prefix p s) as (t & Heq & _). rewrite Heq in Hs. by apply Forall_app in Hs as [? _]. Qed.

Lemma ends_with_Forall P s c : Forall P s -> ends_with s c = true -> P c.
Proof.
  unfold ends_with. intros Hs Hl. apply bool_decide_eq_true in Hl. apply last_Some_elem_of in Hl.
  by rewrite Forall_forall in Hs; apply Hs.
Qed.

(** A blank line is not continued, and means nothing. *)
Lemma blank_continue fuel s line fp :
  Forall (fun c => isspace c = true) s ->
  continue_line (S fuel) s line fp = Some (rtrim is_blank (rtrim is_eol s), line, fp).
Proof.
  intros Hs. cbn [continue_line]. destruct (ends_with _ BACKSLASH) eqn:He; [| done].
  eapply (ends_with_Forall (fun c => isspace c = true)) in He; [done |]. by do 2 apply rtrim_Forall.
Qed.

Lemma blank_unescape n s :
  Forall (fun c => isspace c = true) s -> unescape_line n s = (false, s).
Proof.
  intros Hs. unfold unescape_line. destruct (drop n s) as [| c [| d r]] eqn:Hd; [done.. |].
  assert (isspace c = true) as Hc.
  { apply (Forall_drop _ n) in Hs. rewrite Hd in Hs. by apply Forall_cons in Hs as [? _]. }
  cbn [escaped_lead]. unfold ceq. rewrite bool_decide_false; [done |]. by intros ->.
Qed.

Lemma blank_skip s : Forall (fun c => isspace c = true) s -> skip_space s = [].
Proof. apply skip_space_blank. Qed.

(** ** Settings as a map *)

Lemma apply_settings_app m l l' : apply_settings m (l ++ l') = apply_settings (apply_settings m l) l'.
Proof. apply foldl_app. Qed.

Lemma apply_settings_union m l : apply_settings m l = apply_settings ∅ l ∪ m.
Proof.
  induction l as [| [k v] l IH] using rev_ind; [symmetry; apply (left_id_L ∅ (∪)) |].
  rewrite !apply_settings_app, IH. cbn. by rewrite insert_union_l.
Qed.

Lemma apply_settings_size l : (base.size (apply_settings ∅ l) <= length l)%nat.
Proof.
  induction l as [| [k v] l IH] using rev_ind; [done |]. rewrite apply_settings_app, length_app. cbn.
  destruct (apply_settings ∅ l !! k) as [w |] eqn:Hk.
  - rewrite map_size_insert_Some by (rewrite Hk; eauto). lia.
  - rewrite map_size_insert_None by done. lia.
Qed.

(** ** Simulation *)

(** What the registered callbacks of sections are expected to do: each adds to the
    dictionary settings that depend on the line only, and reports whether it accepts
    the line. *)
Class HandlerLaws (W : Type) `{SectionHandlers W} (cbs : list cfg_cb) := {
  adds : Z -> bstr -> bstr -> bstr -> bool * settings;
  adds_law fn path line section buf d w n : fn ∈ cb_fn <$> cbs -> store_ready n d -> Z.of_nat (length (adds fn path section buf).2) <= n ->
    let '(ok, d', _) := section_cb fn path line section buf d w in
    ok = (adds fn path section buf).1 /\ store_ready (n - Z.of_nat (length (adds fn path section buf).2)) d' /\
    dict_map d' = apply_settings (dict_map d) (adds fn path section buf).2 }.

(** The callbacks whose patterns match, in order of registration, until one refuses
    the line. *)
Fixpoint handler_settings {W cbs} `{HandlerLaws W cbs} (l : list cfg_cb) (path sec buf : bstr) : settings :=
  match l with
  | [] => []
  | cb :: l =>
      if fnmatch (cb_section cb) sec && match cb_path cb with Some p => fnmatch p path | None => true end then
        let '(ok, a) := adds (cb_fn cb) path sec buf in if ok then a ++ handler_settings l path sec buf else a
      else handler_settings l path sec buf
  end.

Section simulation.
Context {W : Type} {cbs : list cfg_cb} `{Files} `{HandlerLaws W cbs}.
Variables (ignore : bool) (w0 : W).
Abbreviation others := (handler_settings cbs).

(** The loader after the assignments [l], of at most [n], with memory available. *)
Record follows (n : Z) (sec : bstr) (inside : bool) (l : settings) (st : loader W) : Prop := {
  fw_comment : in_comment st = inside;
  fw_section : this_section st = sec;
  fw_heap : heap st = [];
  fw_ready : store_ready (n - Z.of_nat (length l)) (newcfg st);
  fw_map : dict_map (newcfg st) = apply_settings ∅ l;
  fw_world : cbs = [] -> world st = w0
}.

Lemma failed_follows n sec inside l st : follows n sec inside l st -> follows n sec inside l (failed st).
Proof. by intros []. Qed.

Lemma store_follows n sec inside l st k v counted :
  follows n sec inside l st -> Z.of_nat (length l) < n ->
  exists st', store_setting st k v counted = Ret st' /\ follows n sec inside (l ++ [(k, v)]) st'.
Proof.
  intros [Hc Hs Hh Hr Hm Hw] Hlt. unfold store_setting, dict_add. rewrite Hh.
  destruct (dict_store_ready (n - Z.of_nat (length l)) [] (newcfg st) k (VStr (Some v)) Hr) as
    (rc & d & o & -> & Hres & Ho); [lia |]. destruct (Ho eq_refl) as [-> ->].
  destruct Hres as [(_ & Hr' & Hm') | [Hneg _]]; [| done]. cbn. rewrite andb_false_r.
  eexists. split; [done |]. split; cbn; [done | done | done | | | done].
  - rewrite length_app. cbn.
    replace (n - Z.of_nat (length l + 1)) with (n - Z.of_nat (length l) - 1) by lia. done.
  - by rewrite apply_settings_app, Hm', Hm.
Qed.

(** The outcome of a part of a file that assigns [sub] after [l]. *)
Definition continues (n : Z) (sec : bstr) (inside : bool) (l sub : settings) (ok : bool) (r : run (loader W)) : Prop :=
  Z.of_nat (length (l ++ sub)) <= n ->
  if ok then exists st', r = Ret st' /\ follows n sec inside (l ++ sub) st' else r = Exits.

Lemma continues_same n sec inside l st : follows n sec inside l st -> continues n sec inside l [] true (Ret st).
Proof. intros Hf _. exists st. by rewrite app_nil_r. Qed.

Lemma continues_failed n sec inside l st : follows n sec inside l st -> continues n sec inside l [] true (Ret (failed st)).
Proof. intros Hf. by apply continues_same, failed_follows. Qed.

Lemma continues_refused n sec inside l st (optional : bool) :
  follows n sec inside l st -> continues n sec inside l [] optional (if optional then Ret (failed st) else Exits).
Proof. intros Hf. destruct optional; [by apply continues_failed | done]. Qed.

Lemma continues_store n sec inside l st k v counted :
  follows n sec inside l st -> continues n sec inside l [(k, v)] true (store_setting st k v counted).
Proof. intros Hf Hlen. rewrite length_app in Hlen. cbn in Hlen. apply store_follows; [done | lia]. Qed.

(** The callbacks of a section. *)
Lemma dispatch_adds l matched path line sec buf d w n : (forall cb, cb ∈ l -> cb ∈ cbs) -> store_ready n d -> Z.of_nat (length (handler_settings l path sec buf)) <= n ->
  let '(_, d', _) := cfg_dispatch_callback l matched path line sec buf d w in
  store_ready (n - Z.of_nat (length (handler_settings l path sec buf))) d' /\
  dict_map d' = apply_settings (dict_map d) (handler_settings l path sec buf).
Proof.
  intros Hl. revert matched d w n. induction l as [| cb l IH]; intros matched d w n Hr; cbn [handler_settings cfg_dispatch_callback].
  { intros _. by rewrite Z.sub_0_r. }
  assert (Hl' : forall c, c ∈ l -> c ∈ cbs) by (intros c Hc; apply Hl; by right). specialize (IH Hl').
  unfold cb_matches. destruct (fnmatch _ _ && _); cbn [negb]; [| by apply IH].
  assert (Hcb : cb_fn cb ∈ cb_fn <$> cbs) by (apply list_elem_of_fmap; exists cb; split; [done |]; apply Hl; by left).
  pose proof (adds_law (cb_fn cb) path line sec buf d w n Hcb Hr) as Ha. destruct (adds (cb_fn cb) path sec buf) as [ok a]. cbn [fst snd] in Ha. intros Hlen.
  assert (Ha' : Z.of_nat (length a) <= n) by (destruct ok; rewrite ?length_app in Hlen; lia). specialize (Ha Ha').
  destruct (section_cb _ _ _ _ _ _ _) as [[ok' d1] w1]. destruct Ha as (-> & Hr1 & Hm1). destruct ok; cbn [negb]; [| done].
  rewrite length_app in Hlen |- *. specialize (IH true d1 w1 (n - Z.of_nat (length a)) Hr1 ltac:(lia)).
  destruct (cfg_dispatch_callback _ _ _ _ _ _ _ _) as [[ok2 d2] w2]. destruct IH as [Hr2 Hm2]. rewrite apply_settings_app, <- Hm1. split; [| done].
  replace (n - Z.of_nat (length a + _)) with (n - Z.of_nat (length a) - Z.of_nat (length (handler_settings l path sec buf))) by lia. done.
Qed.

Lemma unmatched_adds l path sec buf : existsb (cb_matches path sec) l = false -> handler_settings l path sec buf = [].
Proof.
  induction l as [| cb l IH]; [done |]. cbn [existsb handler_settings]. intros [Hc Hl]%orb_false_iff. unfold cb_matches in Hc. rewrite Hc. by apply IH.
Qed.

Lemma other_follows n sec inside l st path line buf :
  follows n sec inside l st -> continues n sec inside l (handler_settings cbs path sec buf) true (Ret (other_section cbs ignore path line buf st)).
Proof.
  intros Hf. unfold other_section. rewrite (fw_section _ _ _ _ _ Hf). destruct (existsb (cb_matches path sec) cbs) eqn:Hm.
  2:{ rewrite unmatched_adds by done. destruct ignore; [by apply continues_same | by apply continues_failed]. }
  intros Hlen. rewrite length_app in Hlen. pose proof Hf as [Hc Hs Hh Hr Hmap _].
  pose proof (dispatch_adds cbs false path line sec buf (newcfg st) (world st) _ (fun _ h => h) Hr ltac:(lia)) as Hd.
  destruct (cfg_dispatch_callback _ _ _ _ _ _ _ _) as [[ok d] w]. destruct Hd as [Hr' Hm'].
  set (st' := Loader _ _ _ _ _ _). assert (Hf' : follows n sec inside (l ++ handler_settings cbs path sec buf) st').
  { split; cbn; [done | done | done | | | intros Hnil; by rewrite Hnil in Hm]; rewrite ?length_app.
    - replace (n - Z.of_nat (length l + _)) with (n - Z.of_nat (length l) - Z.of_nat (length (handler_settings cbs path sec buf))) by lia. done.
    - by rewrite Hm', Hmap, apply_settings_app. }
  eexists. split; [done |]. destruct ok; [done | by apply failed_follows].
Qed.

(** What a line of a section does. *)
Lemma section_follows n sec inside l st path line buf s :
  follows n sec inside l st ->
  continues n sec inside l (if negb (nonempty sec) || own_section sec then setting_item sec s else handler_settings cbs path sec buf) true
    (section_line cbs ignore path line buf s st).
Proof.
  intros Hf. unfold section_line, general_setting, named_setting, prefixed_setting, own_section.
  rewrite (fw_section _ _ _ _ _ Hf). unfold setting_item, section_key, stored_val, fullkey.
  destruct (nonempty sec); cbn [negb orb].
  2:{ destruct (setting_of s) as [[k v] |]; by apply continues_failed. }
  destruct (strcaseeq sec (B "general")); cbn [andb orb].
  { destruct (setting_of s) as [[key val] |]; [by apply continues_store | by apply continues_same]. }
  destruct (strncaseeq sec (B "server:") 7); cbn [orb].
  { destruct (setting_of s) as [[key val] |]; [by apply continues_store | by apply continues_same]. }
  destruct (strncaseeq sec (B "theme:") 6); cbn [orb].
  { destruct (setting_of s) as [[key val] |]; [by apply continues_store | by apply continues_same]. }
  destruct (strcaseeq sec (B "callsign-lookup")); cbn [orb].
  { destruct (setting_of s) as [[key val] |]; [| by apply continues_same]. destruct (nonempty (rtrim is_blank key)); [| by apply continues_same].
    replace (concat _) with (B "callsign-lookup:" ++ rtrim is_blank key) by (cbn; by rewrite app_nil_r). by apply continues_store. }
  destruct (strcaseeq sec (B "site")).
  { destruct (setting_of s) as [[key val] |]; [| by apply continues_same]. destruct (nonempty (rtrim is_blank key)); [| by apply continues_same].
    replace (concat _) with (B "site:" ++ rtrim is_blank key) by (cbn; by rewrite app_nil_r). by apply continues_store. }
  by apply other_follows.
Qed.

(** A file loaded into a dictionary of its own, against its meaning. *)
Definition loads (n : Z) (w : W) (r : run (option dict * allocs * W)) (meaning : result) : Prop :=
  match meaning with
  | (ok, None) => ok = true /\ r = Ret (None, [], w)
  | (ok, Some l) => Z.of_nat (length l) <= n ->
      if ok then exists d w', r = Ret (Some d, [], w') /\ (cbs = [] -> w' = w) /\ store_ready (n - Z.of_nat (length l)) d /\ dict_map d = apply_settings ∅ l
      else r = Exits
  end.

Definition loader_agrees (n : Z) (load : option (bstr -> allocs -> W -> run (option dict * allocs * W)))
    (rload : option (bstr -> result)) : Prop :=
  match load, rload with
  | None, None => True
  | Some f, Some g => forall p w, loads n w (f p [] w) (g p) /\ (file_exists p = false -> g p = (true, None))
  | _, _ => False
  end.

Lemma include_follows n sec inside l st load rload path optional arg :
  n < 2 ^ 28 -> follows n sec inside l st -> loader_agrees n load rload ->
  let '(ok, sub) := include_settings rload path optional (unquote arg) in
  continues n sec inside l sub ok (include_line load path optional arg st).
Proof.
  intros Hn Hf Hl. unfold include_settings, include_line.
  destruct (unquote arg) as [| c p]; cbn [nonempty negb]; [by apply continues_refused |].
  destruct load as [load |], rload as [rload |]; try done; [| by apply continues_refused].
  destruct (Hl (resolve path (c :: p)) (world st)) as [Hload Hmiss]. revert Hload.
  destruct (file_exists (resolve path (c :: p))); cbn [negb].
  2:{ rewrite Hmiss by done. cbn. intros _. destruct optional; [by apply continues_same | done]. }
  rewrite (fw_heap _ _ _ _ _ Hf).
  assert (Hst : forall w, (cbs = [] -> w = world st) -> follows n sec inside l (Loader (in_comment st) (this_section st) (newcfg st) (errors st) [] w)).
  { intros w Hw. destruct Hf. split; cbn; try done. intros Hn0. rewrite Hw by done. auto. }
  destruct (rload _) as [ok [sub |]].
  2:{ intros [-> ->]. cbn. apply (continues_refused _ _ _ _ (Loader _ _ _ _ _ _)), Hst. done. }
  intros Hload. destruct ok; cbn [negb default].
  2:{ intros Hlen. rewrite length_app in Hlen. cbn in Hload, Hlen. by rewrite Hload by lia. }
  intros Hlen. rewrite length_app in Hlen. destruct Hload as (d & w' & -> & Hw & Hsr & Hm); [lia |]. cbn [mbind run_bind heap newcfg].
  destruct (dict_merge_spec (n - Z.of_nat (length l)) [] (newcfg st) d) as (rc & d' & o & -> & Hsr' & Hm' & _ & Ho).
  { apply Hf. } { apply Hsr. }
  { rewrite <- dict_map_size, Hm by apply Hsr. pose proof (apply_settings_size sub). lia. }
  destruct (Ho eq_refl) as [-> ->]. cbn. eexists. split; [done |]. pose proof (fw_world _ _ _ _ _ Hf) as Hw0. destruct Hf. split; cbn; try done.
  - eapply store_ready_mono; [| done]. rewrite length_app.
    rewrite <- (dict_map_size d), Hm by apply Hsr. pose proof (apply_settings_size sub). lia.
  - rewrite Hm' by done. by rewrite apply_settings_app, (apply_settings_union _ sub), Hm, fw_map0.
  - intros Hn0. by rewrite Hw, Hw0.
Qed.

(** One logical line. *)
Lemma line_follows n sec inside l st load rload path line escaped lead text :
  n < 2 ^ 28 -> follows n sec inside l st -> loader_agrees n load rload ->
  let '(s, inside) := uncomment inside escaped text in
  let '(sec, ok, sub) := item_settings rload path sec (line_item others path sec escaped lead s) in
  continues n sec inside l sub ok (parse_line cbs ignore load path line escaped lead text st).
Proof.
  intros Hn Hf Hl. unfold uncomment, parse_line. destruct Hf as [<- <- Hh Hr Hm Hw].
  assert (Hf : follows n (this_section st) (in_comment st) l st) by by split.
  destruct (negb (in_comment st) && negb escaped && comment_lead text); [by apply continues_same |].
  destruct (strip (in_comment st) None text) as [kept inside]. set (s := rtrim isspace kept). cbv zeta.
  set (st1 := Loader inside (this_section st) (newcfg st) (errors st) (heap st) (world st)).
  assert (Hf1 : follows n (this_section st1) inside l st1) by by split.
  change (this_section st) with (this_section st1). unfold line_item.
  destruct (nonempty s); cbn [negb orb]; [| by apply continues_same].
  destruct (negb (nonempty (this_section st1)) && orphan_star s); cbn [orb]; [by apply continues_same |].
  destruct (negb escaped && comment_lead s); [by apply continues_same |].
  destruct (include_of s) as [[optional arg] |].
  { cbn [item_settings]. pose proof (include_follows n _ inside l st1 load rload path optional arg Hn Hf1 Hl) as Hi. by destruct (include_settings _ _ _ _). }
  destruct (section_of s) as [name |].
  { intros _. eexists. split; [done |]. rewrite app_nil_r. by destruct Hf1; split. }
  by apply section_follows.
Qed.

(** What is left of a file assigns [sub] after [l]. *)
Definition finishes (n : Z) (l sub : settings) (ok : bool) (r : run (loader W)) : Prop :=
  Z.of_nat (length (l ++ sub)) <= n ->
  if ok then exists st' sec inside, r = Ret st' /\ follows n sec inside (l ++ sub) st' else r = Exits.

(** A line that assigns [a], then the rest of the file. *)
Lemma continues_finishes n sec inside l a ok sub r (k : loader W -> run (loader W)) :
  continues n sec inside l a true r ->
  (forall st, follows n sec inside (l ++ a) st -> finishes n (l ++ a) sub ok (k st)) ->
  finishes n l (a ++ sub) ok (r ≫= k).
Proof.
  intros Hc Hk Hlen. rewrite app_assoc in Hlen |- *.
  destruct Hc as (st & -> & Hf); [rewrite length_app in Hlen; lia |]. by apply Hk.
Qed.

Lemma blank_uncomment inside : uncomment inside false [] = ([], inside).
Proof. unfold uncomment. cbn. by rewrite andb_false_r. Qed.

Lemma lines_follow n load rload path fuel line fp sec inside l st :
  n < 2 ^ 28 -> (length fp < fuel)%nat -> follows n sec inside l st -> loader_agrees n load rload ->
  let '(ok, sub) := lines_settings others rload path sec inside (lines_of fuel fp) in
  finishes n l sub ok (load_lines cbs ignore load path fuel line fp st).
Proof.
  intros Hn Hfuel Hf Hl. revert line fp sec inside l st Hfuel Hf.
  induction fuel as [| fuel IH]; intros line fp sec inside l st Hfuel Hf; [lia |].
  cbn [lines_of load_lines]. destruct (fgets (BUFSZ - 1) fp) as [[buf fp1] |] eqn:Hg.
  2:{ cbn. intros _. exists st, sec, inside. by rewrite app_nil_r. }
  apply fgets_shorter in Hg; [| pose proof BUFSZ_big; lia].
  set (b := rtrim (fun c => is_eol c || is_blank c) buf).
  destruct (negb (nonempty (drop (indent_of buf) b)) && negb (in_comment st)) eqn:Hblank.
  { apply andb_prop in Hblank as [Hb Hin]. rewrite (fw_comment _ _ _ _ _ Hf) in Hin. destruct inside; [done |].
    assert (Hsp : Forall (fun c => isspace c = true) b).
    { apply blank_line. unfold b in Hb. by destruct (drop (indent_of buf) _). }
    rewrite blank_continue by done.
    assert (Hsp2 : Forall (fun c => isspace c = true) (rtrim is_blank (rtrim is_eol b))) by by do 2 apply rtrim_Forall.
    rewrite blank_unescape, blank_skip by done. cbn [lines_settings]. rewrite blank_uncomment. unfold line_item. cbn [nonempty negb orb item_settings].
    pose proof (IH (line + 1) fp1 sec false l st ltac:(lia) Hf) as IH1. by destruct (lines_settings _ _ _ _ _ _). }
  destruct (continue_line_ends (S (length fp1)) b fp1 ltac:(lia)) as (joined & fp2 & m & Hle & Hj). rewrite !Hj.
  cbn [lift mbind run_bind]. unfold logical_line.
  destruct (unescape_line (indent_of buf) joined) as [escaped text]. cbn [lines_settings].
  pose proof (line_follows n sec inside l st load rload path (line + 1 + m) escaped (take (indent_of text) text)
    (skip_space text) Hn Hf Hl) as Hline.
  destruct (uncomment inside escaped (skip_space text)) as [s inside'].
  destruct (item_settings _ _ _ _) as [[sec' ok1] a]. destruct ok1; cbn [negb]; [| intros Hlen; by rewrite Hline].
  pose proof (IH (line + 1 + m) fp2 sec' inside' (l ++ a)) as IH1. destruct (lines_settings _ _ _ _ _ _) as [ok sub].
  apply (continues_finishes n sec' inside' l a ok sub); [done |]. intros st' Hst'. apply IH1; [lia | done].
Qed.

End simulation.

(** A file, at any depth of inclusion. *)
Lemma file_follows {W : Type} {cbs} `{Files} `{HandlerLaws W cbs} ignore n levels path w :
  n < 2 ^ 28 -> loads (cbs := cbs) n w (cfg_load_depth cbs ignore levels path [] w) (file_settings (handler_settings cbs) levels path).
Proof.
  intros Hn. revert path w. induction levels as [| levels IH]; intros path w; cbn [cfg_load_depth file_settings];
    (destruct (file_exists path); cbn [negb]; [| done]); change (dict_new []) with (Some empty_dict, [] : allocs);
    cbv beta iota; (destruct (fopen_r path) as [text |]; [| done]).
  all: assert (Hst : follows (cbs := cbs) w n [] false [] (Loader false [] empty_dict 0 [] w)) by
    (split; cbn; [done.. | rewrite Z.sub_0_r; by apply empty_ready | apply empty_map | done]).
  1: pose proof (lines_follow ignore w n None None path (S (length text)) 0 text [] false [] _ Hn ltac:(lia) Hst I) as Hlines.
  2: pose proof (lines_follow ignore w n (Some (cfg_load_depth cbs ignore levels)) (Some (file_settings (handler_settings cbs) levels)) path
       (S (length text)) 0 text [] false [] _ Hn ltac:(lia) Hst) as Hlines.
  2: assert (Hagree : loader_agrees (cbs := cbs) n (Some (cfg_load_depth cbs ignore levels)) (Some (file_settings (handler_settings cbs) levels)));
     [| specialize (Hlines Hagree)].
  2:{ intros p w'. split; [apply IH |]. intros Hp. destruct levels; cbn [file_settings]; by rewrite Hp. }
  all: unfold file_lines; destruct (lines_settings _ _ _ _ _ _) as [ok l]; intros Hlen; specialize (Hlines Hlen); cbn [app] in Hlines;
    destruct ok; [| by rewrite Hlines].
  all: destruct Hlines as (st & sec & inside & -> & Hf); exists (newcfg st), (world st); cbn [mbind run_bind];
    rewrite (fw_heap _ _ _ _ _ _ Hf); split_and!; [done | apply Hf..].
Qed.

(** Without callbacks there is nothing to expect of them. *)
#[export] Instance no_handler_laws {W} `{SectionHandlers W} : HandlerLaws W [].
Proof. refine {| adds _ _ _ _ := (true, []) |}. intros fn path line section buf d w n Hin. by apply elem_of_nil in Hin. Defined.
