(* ===== verification/ConfigSave.v ===== *)
(** * Saving a configuration (config.c)

    [cfg_write_wrapped], the order and grouping of the entries, the server
    sections, and [cfg_save_values] over the files it renames and writes.  The
    text written to a stream is a value; a save callback returns what it writes. *)

From S2P Require Import Prelude CString Dict ConfigText.

#[local] Open Scope Z_scope.

(** [strncmp(s, prefix, strlen(prefix)) == 0] *)
Definition has_prefix (prefix s : bstr) : bool := strneq s prefix (length prefix).

(** [strchr(s, c) - s] *)
Fixpoint index_of (c : ascii) (s : bstr) : option nat :=
  match s with
  | [] => None
  | x :: s => if ceq x c then Some O else S <$> index_of c s
  end.
Arguments index_of _%_char _.

(** [strstr(s, t) - s] *)
Fixpoint find_str (t s : bstr) : option nat :=
  if has_prefix t s then Some O
  else match s with [] => None | _ :: s => S <$> find_str t s end.

(** ** Lines of at most 80 columns *)

Definition max_columns : nat := 80.
Definition wrap_indent (key : bstr) : nat := length key + 1.
Definition wrap_capacity (key : bstr) : nat :=
  if (wrap_indent key <? max_columns)%nat then max_columns - wrap_indent key else 1.

(** How much of the text goes on one line; the backslash takes a column. *)
Definition wrap_chunk (capacity remaining : nat) : nat :=
  if (capacity <? remaining)%nat then if (1 <? capacity)%nat then capacity - 1 else 1 else remaining.

(** A turn writes at least one byte of a text that is not finished. *)
Fixpoint write_chunks (fuel : nat) (key : bstr) (first_line : bool) (text : bstr) : bstr :=
  match fuel with
  | O => []
  | S fuel =>
      let chunk := wrap_chunk (wrap_capacity key) (length text) in
      let lead := if first_line then key ++ B "=" else replicate (wrap_indent key) " "%char in
      if (chunk <? length text)%nat then
        lead ++ take chunk text ++ [BACKSLASH; LF] ++ write_chunks fuel key false (drop chunk text)
      else lead ++ take chunk text ++ [LF]
  end.

Definition cfg_write_wrapped (key : bstr) (value : option bstr) : bstr :=
  let text := default [] value in write_chunks (S (length text)) key true text.

(** ** Entries *)

(** [cfg_save_entry_t]; [dict_enumerate] reports a value that is no string as NULL. *)
Abbreviation entry := (bstr * option bstr)%type.

Definition str_of (v : value) : option bstr := match v with VStr s => s | _ => None end.

(** [cfg_save_cb_entry_t]: [owns_key] and the callback are function pointers of
    other modules; the callback yields its text and its success. *)
Record save_cb := SaveCb { owns_key : option (bstr -> bool); save_fn : Z; save_text : bstr -> bool * bstr }.

Definition cfg_save_entry_is_skipped (cbs : list save_cb) (key : bstr) : bool :=
  has_prefix (B "server:") key || has_prefix (B "network.") key ||
  existsb (fun cb => match owns_key cb with Some owns => owns key | None => false end) cbs ||
  streq key (B "ui.gtk.css").

Definition cfg_save_entry_compare (a b : entry) : Z :=
  match index_of ":" a.1, index_of ":" b.1 with
  | None, Some _ => -1
  | Some _, None => 1
  | None, None => strcmp a.1 b.1
  | Some la, Some lb =>
      let common := Nat.min la lb in
      let section_cmp := strcmp (take common a.1) (take common b.1) in
      if negb (section_cmp =? 0) then section_cmp
      else if negb (Nat.eqb la lb) then if (la <? lb)%nat then -1 else 1
      else strcmp (drop (S la) a.1) (drop (S lb) b.1)
  end.

(** [qsort]: the keys of a dictionary are distinct, so that the order decides
    the result. *)
Fixpoint insert_entry (e : entry) (l : list entry) : list entry :=
  match l with
  | [] => [e]
  | x :: l' => if cfg_save_entry_compare e x <=? 0 then e :: l else x :: insert_entry e l'
  end.

Definition sort_entries (l : list entry) : list entry := foldr insert_entry [] l.

(** The collecting loop: the entries so far and the capacity of their array;
    [false] when it cannot grow. *)
Definition collect_body (cbs : list save_cb) (k : bstr) (v : value) (s : list entry * nat * allocs)
    : option (bool * (list entry * nat * allocs)) :=
  let '(entries, capacity, o) := s in
  if cfg_save_entry_is_skipped cbs k then Some (true, s)
  else if Nat.eqb (length entries) capacity then
    let '(ok, o) := alloc o in
    if negb ok then Some (false, (entries, capacity, o))
    else Some (true, (entries ++ [(k, str_of v)], if Nat.eqb capacity 0 then 64%nat else (capacity * 2)%nat, o))
  else Some (true, (entries ++ [(k, str_of v)], capacity, o)).

Definition collect_entries (cbs : list save_cb) (o : allocs) (merged : option dict) : option (option (list entry) * allocs) :=
  match merged with
  | None => Some (Some [], o)
  | Some d =>
      '(ok, (entries, _, o)) ← enum_all d (collect_body cbs) ([], O, o);
      Some (if ok : bool then Some entries else None, o)
  end.

(** ** Sections *)

(** The entries of [[general]], up to the first key with a colon, and the rest. *)
Fixpoint general_entries (l : list entry) : bstr * list entry :=
  match l with
  | [] => ([], [])
  | e :: l' =>
      match index_of ":" e.1 with
      | Some _ => ([], l)
      | None => let '(out, rest) := general_entries l' in (cfg_write_wrapped e.1 e.2 ++ out, rest)
      end
  end.

(** The entries of one theme: those whose keys start like the first. *)
Fixpoint theme_entries (group : bstr) (l : list entry) : bstr * list entry :=
  match l with
  | [] => ([], [])
  | e :: l' =>
      if has_prefix group e.1 then
        let '(out, rest) := theme_entries group l' in
        (cfg_write_wrapped (drop (length group) e.1) e.2 ++ out, rest)
      else ([], l)
  end.

Definition cfg_save_entry_same_section (e : entry) (section : bstr) (section_len : nat) : bool :=
  match index_of ":" e.1 with
  | Some n => Nat.eqb n section_len && strneq e.1 section section_len
  | None => false
  end.

(** The entries written under one header: each is compared with its own key,
    as the code does. *)
Fixpoint section_entries (section_len : nat) (l : list entry) : bstr * list entry :=
  match l with
  | [] => ([], [])
  | e :: l' =>
      if cfg_save_entry_same_section e e.1 section_len then
        let '(out, rest) := section_entries section_len l' in
        (cfg_write_wrapped (drop (S (default O (index_of ":" e.1))) e.1) e.2 ++ out, rest)
      else ([], l)
  end.

Definition section_header (section : bstr) : bstr := LF :: B "[" ++ section ++ B "]" ++ [LF].

(** Every turn takes an entry. *)
Fixpoint section_groups (fuel : nat) (l : list entry) : bstr :=
  match fuel, l with
  | S fuel, e :: l' =>
      match index_of ":" e.1 with
      | None => section_groups fuel l'
      | Some section_len =>
          if has_prefix (B "theme:") e.1 then
            let name := drop 6 e.1 in
            match index_of "." name with
            | None => section_groups fuel l'
            | Some n =>
                let '(out, rest) := theme_entries (take (6 + n + 1) e.1) l in
                section_header (B "theme:" ++ take n name) ++ out ++ section_groups fuel rest
            end
          else
            let section := take section_len e.1 in
            let section := if streq section (B "pipeline") then B "pipelines" else section in
            let '(out, rest) := section_entries section_len l in
            section_header section ++ out ++ section_groups fuel rest
      end
  | _, _ => []
  end.

(** ** Servers *)

Definition has_suffix (suffix s : bstr) : bool :=
  (length suffix <? length s)%nat && streq (drop (length s - length suffix) s) suffix.

(** Where the name of the server ends. *)
Definition server_name_len (name_start : bstr) : option nat :=
  match find_str (B ".server.") name_start with
  | Some n => Some n
  | None =>
      if has_suffix (B ".autojoin.rig") name_start then Some (length name_start - 13)%nat
      else if has_suffix (B ".autojoin") name_start then Some (length name_start - 9)%nat
      else index_of "." name_start
  end.

(** The inner loop: the settings of the server [name]. *)
Definition server_line (name : bstr) (k : bstr) (v : value) (out : bstr) : option (bool * bstr) :=
  if has_prefix (B "server:") k then
    let inner := drop 7 k in
    if has_prefix name inner && starts_with (drop (length name) inner) "."%char then
      Some (true, out ++ cfg_write_wrapped (drop (S (length name)) inner) (str_of v))
    else Some (true, out)
  else Some (true, out).

Definition server_body (d : dict) (k : bstr) (v : value) (s : dict * allocs * bstr) : option (bool * (dict * allocs * bstr)) :=
  let '(seen, o, out) := s in
  if negb (has_prefix (B "server:") k) then Some (true, s)
  else
    match server_name_len (drop 7 k) with
    | None => Some (true, s)
    | Some name_len =>
        if (512 <=? Z.of_nat name_len) then Some (true, s)
        else
          let name := take name_len (drop 7 k) in
          found ← dict_get (Some seen) (Some name) None;
          match found with
          | Some _ => Some (true, s)
          | None =>
              '(_, seen, o) ← dict_add o seen (Some name) (Some (B "1"));
              '(_, lines) ← enum_all d (server_line name) [];
              Some (true, (seen, o, out ++ B "[server:" ++ name ++ B "]" ++ [LF] ++ lines ++ [LF]))
          end
    end.

(** Without memory for [seen] every key writes its section anew: [dict_get] and
    [dict_add] of a NULL dictionary do nothing. *)
Definition server_body_unseen (d : dict) (k : bstr) (v : value) (out : bstr) : option (bool * bstr) :=
  if negb (has_prefix (B "server:") k) then Some (true, out)
  else
    match server_name_len (drop 7 k) with
    | None => Some (true, out)
    | Some name_len =>
        if (512 <=? Z.of_nat name_len) then Some (true, out)
        else
          let name := take name_len (drop 7 k) in
          '(_, lines) ← enum_all d (server_line name) [];
          Some (true, out ++ B "[server:" ++ name ++ B "]" ++ [LF] ++ lines ++ [LF])
    end.

Definition cfg_print_servers (o : allocs) (d : option dict) : option (bstr * allocs) :=
  match d with
  | None => Some ([], o)
  | Some d =>
      match dict_new o with
      | (Some seen, o) =>
          '(_, (_, o, out)) ← enum_all d (server_body d) (seen, o, []);
          Some (out, o)
      | (None, o) =>
          '(_, out) ← enum_all d (server_body_unseen d) [];
          Some (out, o)
      end
  end.

(** ** The file *)

(** [cfg_run_save_callbacks]: all of them run; whether all succeeded. *)
Definition cfg_run_save_callbacks (cbs : list save_cb) (path : bstr) : bool * bstr :=
  foldl (fun '(ok, out) cb => let '(r, text) := save_text cb path in (ok && r, out ++ text)) (true, []) cbs.

(** What is written to the open file; [None] inside: the array of entries
    could not be allocated and nothing was written. *)
Definition save_body (cbs : list save_cb) (default_cfg : option dict) (o : allocs) (d : option dict) (path : bstr)
    (complete : bool) : option (option bstr * allocs) :=
  '(merged, o) ← dict_merge_new o (if complete then default_cfg else d) d;
  '(entries, o) ← collect_entries cbs o merged;
  match entries with
  | None => Some (None, o)
  | Some entries =>
      let '(general, rest) := general_entries (sort_entries entries) in
      let sections := section_groups (length rest) rest in
      '(servers, o) ← cfg_print_servers o d;
      let modules := if complete then (cfg_run_save_callbacks cbs path).2 else [] in
      Some (Some (B "[general]" ++ [LF] ++ general ++ sections ++ servers ++ modules), o)
  end.

(** The operations on files the save performs; [F] is the state of the file
    system, [datestamp] the local date as [%04d%02d%02d] prints it. *)
Class SaveFiles (F : Type) := {
  f_exists : F -> bstr -> bool;
  f_rename : F -> bstr -> bstr -> bool * F;
  f_open_w : F -> bstr -> option F;
  f_write : F -> bstr -> bstr -> F;
  datestamp : bstr
}.

Section files.
Context {F : Type} `{SaveFiles F}.

Definition backup_name (path : bstr) (sequence : Z) : bstr :=
  path ++ B "." ++ datestamp ++ B "." ++ pad_left 2 (print_dec sequence) ++ B ".cfg.old".

(** The first free name of 99; only one rename is tried. *)
Fixpoint cfg_backup (tries : nat) (sequence : Z) (fs : F) (path : bstr) : bool * F :=
  match tries with
  | O => (false, fs)
  | S tries =>
      let backup := backup_name path sequence in
      if (PATH_MAX <=? length backup)%nat then (false, fs)
      else if f_exists fs backup then cfg_backup tries (sequence + 1) fs path
      else f_rename fs path backup
  end.

Definition cfg_save_values (cbs : list save_cb) (default_cfg : option dict) (o : allocs) (fs : F) (d : option dict)
    (path : bstr) (complete : bool) : option (bool * F * allocs) :=
  let '(ok, fs) := if f_exists fs path then cfg_backup 99 1 fs path else (true, fs) in
  if negb ok then Some (false, fs, o)
  else
    match f_open_w fs path with
    | None => Some (false, fs, o)
    | Some fs =>
        '(text, o) ← save_body cbs default_cfg o d path complete;
        Some match text with
        | None => (false, fs, o)
        | Some text => (true, f_write fs path text, o)
        end
    end.

Definition cfg_save cbs default_cfg o fs d path := cfg_save_values cbs default_cfg o fs d path true.
Definition cfg_save_overrides cbs default_cfg o fs d path := cfg_save_values cbs default_cfg o fs d path false.

End files.

(** ** Save callbacks *)

(** A callback function registers once; entries are appended. *)
Definition cfg_add_save_callback (cbs : list save_cb) (cb : save_cb) : bool * list save_cb :=
  if save_fn cb =? 0 then (false, cbs)
  else if existsb (fun c => save_fn c =? save_fn cb) cbs then (false, cbs)
  else (true, cbs ++ [SaveCb None (save_fn cb) (save_text cb)]).

(** The filter is set on the entry just added, the only one with that function. *)
Definition cfg_add_owned_save_callback (cbs : list save_cb) (cb : save_cb) : bool * list save_cb :=
  match owns_key cb with
  | None => (false, cbs)
  | Some _ =>
      let '(ok, cbs) := cfg_add_save_callback cbs cb in
      if negb ok then (false, cbs)
      else (true, map (fun c => if save_fn c =? save_fn cb then SaveCb (owns_key cb) (save_fn c) (save_text c) else c) cbs)
  end.

Fixpoint cfg_remove_save_callback (cbs : list save_cb) (fn : Z) : bool * list save_cb :=
  match cbs with
  | [] => (false, [])
  | cb :: cbs =>
      if (negb (fn =? 0)) && (save_fn cb =? fn) then (true, cbs)
      else let '(ok, cbs) := cfg_remove_save_callback cbs fn in (ok, cb :: cbs)
  end.
