(* ===== verification/ConfigRound.v ===== *)
(** * Written text read back

    What [cfg_write_wrapped] writes is one logical line of the loader again,
    provided its folds do not touch blanks the loader strips; from there a
    file of headers and settings has the meaning one expects of it. *)

From S2P Require Import Prelude CString Dict DictTheory ConfigText Config ConfigRef ConfigTheory ConfigSave.

#[local] Open Scope Z_scope.
#[local] Opaque BUFSZ.

(** ** Keys and values that survive *)

Definition key_char (c : ascii) : bool := isalnum c || ceq c "." || ceq c "_" || ceq c "-".

Definition key_ok (k : bstr) : bool :=
  nonempty k && negb (starts_with k "."%char) && forallb key_char k && (Z.of_nat (length k) <=? 255).

Definition val_char (c : ascii) : bool := (32 <=? code c) && negb (ceq c BACKSLASH).

(** No block comment opens. *)
Fixpoint no_open (s : bstr) : bool :=
  match s with
  | c :: s' => negb (ceq c "/" && starts_with s' "*"%char) && no_open s'
  | [] => true
  end.

Definition val_ok (v : bstr) : bool :=
  forallb val_char v && negb (starts_with v " "%char) && negb (ends_with v " "%char) && no_open v &&
  (Z.of_nat (length v) <=? 32000).

(** No fold after two blanks or before one. *)
Fixpoint folds_ok (fuel : nat) (key text : bstr) : bool :=
  match fuel with
  | O => true
  | S fuel =>
      let chunk := wrap_chunk (wrap_capacity key) (length text) in
      if (chunk <? length text)%nat then
        negb (ends_with (take chunk text) " "%char && ends_with (chop (take chunk text)) " "%char) &&
        negb (starts_with (drop chunk text) " "%char) && folds_ok fuel key (drop chunk text)
      else true
  end.

Definition wrap_safe (key text : bstr) : bool := folds_ok (S (length text)) key text.

(** ** Characters *)

Lemma forallb_holds (p : ascii -> bool) s : forallb p s = true -> Forall (fun c => p c = true) s.
Proof.
  induction s as [| c s IH]; [constructor |]. cbn [forallb]. intros Hs. apply andb_prop in Hs as [Hc Hs]. auto.
Qed.

Definition no_space (c : ascii) : Prop := isspace c = false.

Lemma key_char_plain c : key_char c = true -> isspace c = false /\ val_char c = true /\ c <> "="%char.
Proof.
  unfold key_char, isalnum, isalpha, isupper, islower, isdigit, isspace, val_char, ceq.
  intros Hc. assert (Hcode : 45 <= code c <= 122 /\ code c <> 61 /\ code c <> 92).
  { apply orb_prop in Hc as [Hc | Hc]; [| apply bool_decide_eq_true in Hc as ->; by vm_compute].
    apply orb_prop in Hc as [Hc | Hc]; [| apply bool_decide_eq_true in Hc as ->; by vm_compute].
    apply orb_prop in Hc as [Hc | Hc]; [| apply bool_decide_eq_true in Hc as ->; by vm_compute]. lia. }
  split_and!; [lia | | intros ->; by vm_compute in Hcode].
  rewrite bool_decide_false; [lia |]. intros ->. by vm_compute in Hcode.
Qed.

Lemma val_char_plain c : val_char c = true -> c <> LF /\ c <> NUL /\ c <> BACKSLASH /\ is_eol c = false /\ (isspace c = true -> c = " "%char).
Proof.
  unfold val_char, is_eol, isspace, ceq. intros Hc. apply andb_prop in Hc as [Hc Hb].
  apply negb_true_iff, bool_decide_eq_false in Hb.
  assert (Hne : c <> LF /\ c <> NUL /\ c <> CR) by (split_and!; intros ->; by vm_compute in Hc).
  split_and!; try tauto. { rewrite !bool_decide_false; tauto. }
  intros Hs. apply code_inj. change (code " "%char) with 32. lia.
Qed.

(** ** Trimming what needs no trimming *)

Lemma rtrim_last p s c : last s = Some c -> p c = false -> rtrim p s = s.
Proof.
  intros Hl Hp. induction s as [| d s IH]; [done |]. cbn [rtrim].
  destruct s as [| e s]; [injection Hl as ->; cbn; by rewrite Hp |]. rewrite IH by done. done.
Qed.

Lemma rtrim_app p s t : Forall (fun c => p c = true) t -> rtrim p (s ++ t) = rtrim p s.
Proof.
  intros Ht. induction s as [| c s IH]; cbn [app rtrim]; [| by rewrite IH].
  induction Ht as [| c t Hc _ IH]; [done |]. cbn [rtrim]. rewrite IH. by rewrite Hc.
Qed.

Lemma rtrim_nil p s : rtrim p s = [] -> Forall (fun c => p c = true) s.
Proof. intros Hr. destruct (rtrim_prefix p s) as (t & Hs & Ht). rewrite Hr in Hs. by rewrite Hs. Qed.

Lemma skip_space_head s : match s with c :: _ => isspace c = false | [] => True end -> skip_space s = s.
Proof. destruct s as [| c s]; [done |]. cbn. by intros ->. Qed.

Lemma skip_space_app s t : Forall (fun c => isspace c = true) s -> skip_space (s ++ t) = skip_space t.
Proof. induction 1 as [| c s Hc _ IH]; [done |]. cbn [app skip_space]. by rewrite Hc. Qed.

Lemma ends_with_snoc s c d : ends_with (s ++ [c]) d = ceq c d.
Proof.
  unfold ends_with, ceq. rewrite last_snoc. apply bool_decide_ext. naive_solver.
Qed.

Lemma chop_snoc s c : chop (s ++ [c]) = s.
Proof. unfold chop. rewrite length_app. cbn. by rewrite Nat.add_sub, take_app_length. Qed.

(** ** One physical line *)

Lemma take_line_spec n l rest :
  LF ∉ l -> (length l < n)%nat -> take_line n (l ++ LF :: rest) = (l ++ [LF], rest).
Proof.
  revert n. induction l as [| c l IH]; intros n Hl Hn; (destruct n as [| n]; [cbn in Hn; lia |]); cbn [app take_line].
  - unfold ceq. by rewrite bool_decide_true.
  - apply not_elem_of_cons in Hl as [Hc Hl]. unfold ceq. rewrite bool_decide_false by congruence.
    rewrite IH; [done | done |]. cbn in Hn. lia.
Qed.

Lemma cstr_id s : NUL ∉ s -> cstr s = s.
Proof.
  induction s as [| c s IH]; intros Hs; [done |]. apply not_elem_of_cons in Hs as [Hc Hs]. cbn [cstr].
  unfold ceq. rewrite bool_decide_false by congruence. by rewrite IH.
Qed.

Definition text_chars (s : bstr) : Prop := Forall (fun c => c <> LF /\ c <> NUL) s.

Lemma fgets_line n l rest :
  text_chars l -> (length l + 1 < n)%nat -> fgets n (l ++ LF :: rest) = Some (l ++ [LF], rest).
Proof.
  intros Hl Hn. unfold fgets. destruct (l ++ LF :: rest) eqn:He; [by destruct l |]. rewrite <- He.
  unfold text_chars in Hl. rewrite Forall_forall in Hl. rewrite take_line_spec; [| | lia].
  - rewrite cstr_id; [done |]. intros Hin. apply elem_of_app in Hin as [Hin | Hin].
    + by destruct (Hl _ Hin) as [_ []].
    + apply list_elem_of_singleton in Hin. done.
  - intros Hin. by destruct (Hl _ Hin) as [[] _].
Qed.

(** ** Joining folded lines *)

Lemma BUFSZ_val : Z.of_nat BUFSZ = 32768.
Proof. Transparent BUFSZ. unfold BUFSZ. lia. Qed.

Lemma fgets_buf l rest fp :
  fp = l ++ LF :: rest -> text_chars l -> Z.of_nat (length l) < 32000 -> fgets BUFSZ fp = Some (l ++ [LF], rest).
Proof. intros -> Hl Hn. pose proof BUFSZ_val. apply fgets_line; [exact Hl | lia]. Qed.

Lemma fgets_first l rest fp :
  fp = l ++ LF :: rest -> text_chars l -> Z.of_nat (length l) < 32000 -> fgets (BUFSZ - 1) fp = Some (l ++ [LF], rest).
Proof. intros -> Hl Hn. pose proof BUFSZ_val. apply fgets_line; [exact Hl | lia]. Qed.

Lemma buf_cat_fits s t : Z.of_nat (length s + length t) < 32768 -> buf_cat s t = s ++ t.
Proof. intros Hl. unfold buf_cat. pose proof BUFSZ_val. by rewrite take_ge by lia. Qed.

(** Text that ends in one blank at most, after something else. *)
Definition pre_ok (s : bstr) : Prop :=
  exists q, q <> [] /\ rtrim is_blank q = q /\ (s = q \/ s = q ++ [" "%char]).

Lemma rtrim_fixed_last p s c : rtrim p s = s -> last s = Some c -> p c = false.
Proof.
  intros Hr Hl. apply last_Some in Hl as (s' & ->). rewrite <- (rev_involutive s') in Hr.
  destruct (p c) eqn:Hc; [| done]. rewrite rtrim_app in Hr by auto.
  destruct (rtrim_prefix p (rev (rev s'))) as (t & Heq & _). rewrite Hr in Heq. apply (f_equal length) in Heq.
  rewrite !length_app in Heq. cbn in Heq. lia.
Qed.

Lemma fold_step fuel pre line fp contbuf fp' :
  pre_ok pre -> fgets BUFSZ fp = Some (contbuf, fp') ->
  Z.of_nat (length pre + length (rtrim isspace (skip_space contbuf))) < 32768 ->
  continue_line (S fuel) (pre ++ [BACKSLASH]) line fp =
  continue_line fuel (pre ++ rtrim isspace (skip_space contbuf)) (line + 1) fp'.
Proof.
  intros (q & Hne & Hq & Hpre) Hg Hlen. cbn [continue_line].
  rewrite (rtrim_last is_eol _ BACKSLASH), (rtrim_last is_blank _ BACKSLASH) by (by rewrite ?last_snoc).
  rewrite ends_with_snoc, chop_snoc, Hg. unfold ceq. rewrite bool_decide_true by done. cbn [negb].
  destruct Hpre as [-> | ->].
  - replace (ends_with q " "%char) with false.
    2:{ symmetry. unfold ends_with. apply bool_decide_eq_false. intros Hl. by apply (rtrim_fixed_last is_blank) in Hl. }
    cbn [andb]. by rewrite Hq, buf_cat_fits.
  - rewrite ends_with_snoc, (rtrim_app is_blank q [" "%char]), Hq by auto. unfold ceq. rewrite bool_decide_true by done.
    replace (nonempty q) with true by by destruct q. cbn [andb]. rewrite length_app in Hlen. cbn in Hlen.
    rewrite (buf_cat_fits q) by (cbn; lia). by rewrite buf_cat_fits by (rewrite length_app; cbn; lia).
Qed.

Lemma wrap_chunk_bounds key n :
  (0 < n)%nat -> (0 < wrap_chunk (wrap_capacity key) n <= n)%nat /\ (wrap_chunk (wrap_capacity key) n <= 80)%nat.
Proof.
  intros Hn. unfold wrap_chunk, wrap_capacity, wrap_indent, max_columns.
  destruct (Nat.ltb_spec (length key + 1) 80);
    repeat match goal with |- context [(?a <? ?b)%nat] => destruct (Nat.ltb_spec a b) end; lia.
Qed.

Definition val_text (s : bstr) : Prop := Forall (fun c => val_char c = true) s.

Lemma val_text_chars s : val_text s -> text_chars s.
Proof. intros Hs. eapply Forall_impl; [exact Hs |]. intros c Hc. apply val_char_plain in Hc. tauto. Qed.

Lemma starts_with_cons c s d : starts_with (c :: s) d = ceq c d.
Proof. unfold starts_with, ceq. cbn. apply bool_decide_ext. naive_solver. Qed.

Lemma val_no_space c : val_char c = true -> ceq c " " = false -> isspace c = false.
Proof.
  intros Hc Hs. apply val_char_plain in Hc as (_ & _ & _ & _ & Hc). destruct (isspace c) eqn:H; [| done].
  apply bool_decide_eq_false in Hs. by destruct Hs; apply Hc.
Qed.

Lemma val_no_blank c : val_char c = true -> ceq c " " = false -> is_blank c = false.
Proof.
  intros Hc Hs. unfold is_blank. rewrite Hs. cbn. unfold ceq. apply bool_decide_eq_false. intros ->. by vm_compute in Hc.
Qed.

Lemma pre_ok_app pre t :
  val_text t -> t <> [] -> starts_with t " "%char = false ->
  ends_with t " "%char && ends_with (chop t) " "%char = false -> pre_ok (pre ++ t).
Proof.
  intros Hv Hne Hs He. destruct t as [| x t _] using rev_ind; [done |].
  apply Forall_app in Hv as [Hv Hx]. apply Forall_cons in Hx as [Hx _]. rewrite ends_with_snoc, chop_snoc in He.
  destruct (ceq x " ") eqn:Hsp; cbn [andb] in He.
  - apply bool_decide_eq_true in Hsp as ->. destruct t as [| y t _] using rev_ind; [done |].
    apply Forall_app in Hv as [_ Hy]. apply Forall_cons in Hy as [Hy _]. rewrite ends_with_snoc in He.
    exists (pre ++ t ++ [y]). split_and!; [by destruct pre, t | | right; by rewrite <- !app_assoc].
    rewrite app_assoc. apply (rtrim_last _ _ y); [by rewrite last_snoc | by apply val_no_blank].
  - exists (pre ++ t ++ [x]). split_and!; [by destruct pre, t | | by left].
    rewrite app_assoc. apply (rtrim_last _ _ x); [by rewrite last_snoc | by apply val_no_blank].
Qed.

Lemma skip_indent n t : starts_with t " "%char = false -> val_text t -> t <> [] ->
  forall u, skip_space (replicate n " "%char ++ t ++ u) = t ++ u.
Proof.
  intros Hs Hv Hne u. rewrite skip_space_app by by apply Forall_replicate.
  destruct t as [| c t]; [done |]. apply Forall_cons in Hv as [Hc _]. rewrite starts_with_cons in Hs.
  apply skip_space_head. by apply val_no_space.
Qed.

Lemma rtrim_tail t :
  val_text t -> ends_with t " "%char = false -> rtrim isspace (t ++ [LF]) = t.
Proof.
  intros Hv He. rewrite rtrim_app by auto. destruct t as [| x t _] using rev_ind; [done |].
  apply Forall_app in Hv as [_ Hx]. apply Forall_cons in Hx as [Hx _]. rewrite ends_with_snoc in He.
  apply (rtrim_last _ _ x); [by rewrite last_snoc | by apply val_no_space].
Qed.

Lemma continue_stop fuel s line fp x :
  last s = Some x -> is_eol x = false -> is_blank x = false -> x <> BACKSLASH ->
  continue_line (S fuel) s line fp = Some (s, line, fp).
Proof.
  intros Hl He Hb Hx. cbn [continue_line]. rewrite (rtrim_last is_eol _ x), (rtrim_last is_blank _ x) by done.
  unfold ends_with. rewrite Hl, bool_decide_false by congruence. done.
Qed.

Lemma val_last_stop fuel s t line fp :
  val_text t -> t <> [] -> ends_with t " "%char = false ->
  continue_line (S fuel) (s ++ t) line fp = Some (s ++ t, line, fp).
Proof.
  intros Hv Hne He. destruct t as [| x t _] using rev_ind; [done |].
  apply Forall_app in Hv as [_ Hx]. apply Forall_cons in Hx as [Hx _]. rewrite ends_with_snoc in He.
  apply (continue_stop _ _ _ _ x); [by rewrite app_assoc, last_snoc | | by apply val_no_blank |];
    by apply val_char_plain in Hx as (? & ? & ? & ? & ?).
Qed.

Lemma ends_with_drop n s c : (n < length s)%nat -> ends_with (drop n s) c = ends_with s c.
Proof.
  intros Hn. unfold ends_with. enough (last s = last (drop n s)) as -> by done.
  rewrite <- (take_drop n s) at 1. rewrite last_app.
  destruct (last (drop n s)) eqn:Hl; [done |]. apply last_None, (f_equal length) in Hl.
  rewrite length_drop in Hl. cbn in Hl. lia.
Qed.

(** The lines after the first. *)
Lemma join_folds key fuel :
  forall text pre fuel' line rest, (length text < fuel)%nat -> text <> [] -> val_text text ->
    starts_with text " "%char = false -> ends_with text " "%char = false -> folds_ok fuel key text = true ->
    Z.of_nat (length key) <= 255 -> pre_ok pre -> Z.of_nat (length pre + length text) <= 32700 ->
    (length (write_chunks fuel key false text ++ rest) < fuel')%nat ->
    exists line', continue_line fuel' (pre ++ [BACKSLASH]) line (write_chunks fuel key false text ++ rest) =
      Some (pre ++ text, line', rest).
Proof.
  induction fuel as [| fuel IH]; intros text pre fuel' line rest Hfuel Hne Hv Hs He Hok Hkey Hpre Hlen Hf; [lia |].
  assert (Hpos : (0 < length text)%nat) by (destruct text; [done | cbn; lia]).
  destruct (wrap_chunk_bounds key (length text) Hpos) as [Hc1 Hc2].
  destruct fuel' as [| fuel']; [lia |]. revert Hok Hf. cbn [write_chunks folds_ok].
  set (chunk := wrap_chunk (wrap_capacity key) (length text)) in *.
  assert (Hind : length (replicate (wrap_indent key) " "%char) = (length key + 1)%nat) by (rewrite length_replicate; done).
  assert (Hsp : text_chars (replicate (wrap_indent key) " "%char)) by by apply Forall_replicate.
  destruct (Nat.ltb_spec chunk (length text)) as [Hlt | Hge].
  - intros Hok Hf. apply andb_prop in Hok as [Hok Hrec]. apply andb_prop in Hok as [Htwo Hstart].
    apply negb_true_iff in Htwo, Hstart.
    set (t := take chunk text) in *. assert (Ht : length t = chunk) by (unfold t; rewrite length_take; lia).
    assert (Hvt : val_text t) by by apply Forall_take.
    assert (Htne : t <> []) by (intros Hnil; rewrite Hnil in Ht; cbn in Ht; lia).
    assert (Hst : starts_with t " "%char = false).
    { unfold t. destruct text as [| c text']; [done |]. destruct chunk; [lia |]. cbn [take].
      by rewrite starts_with_cons in Hs |- *. }
    set (more := write_chunks fuel key false (drop chunk text)) in *.
    rewrite (fold_step fuel' pre line _ ((replicate (wrap_indent key) " "%char ++ t ++ [BACKSLASH]) ++ [LF]) (more ++ rest) Hpre).
    + rewrite <- !app_assoc, skip_indent by done. rewrite (app_assoc t), rtrim_app by auto.
      rewrite (rtrim_last _ _ BACKSLASH) by (by rewrite ?last_snoc). rewrite app_assoc.
      destruct (IH (drop chunk text) (pre ++ t) fuel' (line + 1) rest) as (line' & Heq).
      * rewrite length_drop. lia.
      * intros Hnil. apply (f_equal length) in Hnil. rewrite length_drop in Hnil. cbn in Hnil. lia.
      * by apply Forall_drop.
      * exact Hstart.
      * by rewrite ends_with_drop.
      * exact Hrec.
      * exact Hkey.
      * by apply pre_ok_app.
      * rewrite length_app, length_drop. lia.
      * rewrite !length_app in Hf. cbn in Hf. rewrite length_app. fold more. lia.
      * exists line'. fold more in Heq. rewrite Heq, <- app_assoc. unfold t. by rewrite take_drop.
    + apply fgets_buf.
      * by rewrite <- !app_assoc.
      * apply Forall_app; split; [done |]. apply Forall_app; split; [by apply val_text_chars | by repeat constructor].
      * rewrite !length_app, Hind, Ht. cbn. lia.
    + rewrite <- !app_assoc, skip_indent by done. rewrite (app_assoc t), rtrim_app by auto.
      rewrite (rtrim_last _ _ BACKSLASH) by (by rewrite ?last_snoc). rewrite length_app, Ht. cbn. lia.
  - intros _ Hf. assert (Heq : take chunk text = text) by (apply take_ge; lia). rewrite Heq in Hf |- *.
    rewrite (fold_step fuel' pre line _ ((replicate (wrap_indent key) " "%char ++ text) ++ [LF]) rest Hpre).
    + rewrite <- app_assoc, skip_indent, rtrim_tail by done.
      destruct fuel' as [| fuel']; [rewrite !length_app in Hf; cbn in Hf; lia |]. rewrite val_last_stop by done. eauto.
    + apply fgets_buf.
      * by rewrite <- !app_assoc.
      * apply Forall_app; split; [done | by apply val_text_chars].
      * rewrite length_app, Hind. lia.
    + rewrite <- app_assoc, skip_indent, rtrim_tail by done. lia.
Qed.
