(* ===== verification/ConfigLayout.v ===== *)
(** * A file of headers and settings

    The shape of everything the library writes itself: headers, settings and
    blank lines.  Read back, it is the settings in order, each under the key of
    its section. *)

From S2P Require Import Prelude CString Dict DictTheory ConfigText Config ConfigRef ConfigTheory ConfigSave ConfigRound.

#[local] Open Scope Z_scope.
#[local] Opaque BUFSZ.

(** ** Lines one after another *)

Lemma lines_of_fuel fuel fuel' fp :
  (length fp < fuel)%nat -> (length fp < fuel')%nat -> lines_of fuel fp = lines_of fuel' fp.
Proof.
  revert fuel' fp. induction fuel as [| fuel IH]; intros [| fuel'] fp Hf Hf'; [lia.. |]. cbn [lines_of].
  destruct (fgets (BUFSZ - 1) fp) as [[buf fp1] |] eqn:Hg; [| done].
  apply fgets_shorter in Hg; [| pose proof BUFSZ_big; lia].
  set (b := rtrim _ buf).
  destruct (continue_line_ends (S (length fp1)) b fp1 ltac:(lia)) as (j & fp2 & m & Hle & Hj). rewrite Hj.
  destruct (unescape_line _ j) as [e t]. f_equal. apply IH; lia.
Qed.

Lemma file_lines_step fp buf fp1 j line rest e t :
  fgets (BUFSZ - 1) fp = Some (buf, fp1) ->
  continue_line (S (length fp1)) (rtrim (fun c => is_eol c || is_blank c) buf) 0 fp1 = Some (j, line, rest) ->
  unescape_line (indent_of buf) j = (e, t) ->
  file_lines fp = (e, take (indent_of t) t, skip_space t) :: file_lines rest.
Proof.
  intros Hg Hj Hu. unfold file_lines at 1. cbn [lines_of]. rewrite Hg, Hj, Hu. f_equal.
  apply fgets_shorter in Hg; [| pose proof BUFSZ_big; lia].
  destruct (continue_line_ends (S (length fp1)) (rtrim (fun c => is_eol c || is_blank c) buf) fp1 ltac:(lia)) as (j' & fp2 & m & Hle & Hj').
  rewrite Hj' in Hj. injection Hj as _ _ <-. unfold file_lines. apply lines_of_fuel; lia.
Qed.

(** The start of a line that needs no escape. *)
Definition plain_start (c : ascii) : Prop := isspace c = false /\ c <> BACKSLASH.

Lemma unescape_plain n c s : plain_start c -> n = O -> unescape_line n (c :: s) = (false, c :: s).
Proof.
  intros [_ Hc] ->. unfold unescape_line. cbn [drop]. destruct s as [| d s]; [done |]. cbn [escaped_lead].
  unfold ceq at 1. by rewrite bool_decide_false.
Qed.

Lemma indent_plain c s : plain_start c -> indent_of (c :: s) = O.
Proof. intros [Hc _]. unfold indent_of. cbn [skip_space]. rewrite Hc. lia. Qed.

Lemma skip_plain c s : plain_start c -> skip_space (c :: s) = c :: s.
Proof. intros [Hc _]. by apply skip_space_head. Qed.

Lemma no_indent c s : plain_start c -> take (indent_of (c :: s)) (c :: s) = [].
Proof. intros Hc. by rewrite (indent_plain c s Hc). Qed.

Lemma blank_step rest : file_lines (LF :: rest) = (false, [], []) :: file_lines rest.
Proof.
  apply (file_lines_step (LF :: rest) [LF] rest [] 0 rest false []); [| done | done].
  apply (fgets_first []); [done | constructor | cbn; lia].
Qed.

(** A line that stands alone. *)
Lemma single_step c s x rest :
  plain_start c -> text_chars (c :: s) -> last (c :: s) = Some x -> is_eol x = false -> is_blank x = false -> x <> BACKSLASH ->
  Z.of_nat (length (c :: s)) < 32000 ->
  file_lines ((c :: s) ++ LF :: rest) = (false, [], c :: s) :: file_lines rest.
Proof.
  intros Hc Ht Hl He Hb Hx Hlen.
  pose proof (file_lines_step ((c :: s) ++ LF :: rest) ((c :: s) ++ [LF]) rest (c :: s) 0 rest false (c :: s)) as Hstep.
  rewrite (skip_plain c s Hc), (no_indent c s Hc) in Hstep. apply Hstep.
  - apply fgets_first; [done.. | exact Hlen].
  - rewrite rtrim_app, (rtrim_last _ _ x) by (done || auto || by rewrite He, Hb). by apply (continue_stop _ _ _ _ x).
  - apply unescape_plain; [done |]. by apply indent_plain.
Qed.

(** ** Settings *)

Lemma key_ok_cons k : key_ok k = true -> exists c s, k = c :: s /\ plain_start c /\ key_char c = true.
Proof.
  unfold key_ok. intros Hk. destruct k as [| c s]; [done |]. exists c, s. split; [done |]. cbn [forallb] in Hk.
  destruct (key_char c) eqn:Hc; [| by rewrite !andb_false_r in Hk].
  apply key_char_plain in Hc as Hp. destruct Hp as (Hs & Hv & _). apply val_char_plain in Hv. split; [split; tauto | done].
Qed.

Lemma key_ok_chars k : key_ok k = true -> Forall (fun c => key_char c = true) k /\ Z.of_nat (length k) <= 255.
Proof.
  unfold key_ok. intros Hk. repeat (apply andb_prop in Hk as [Hk ?]). split; [| lia].
  by apply forallb_holds.
Qed.

Lemma key_text k : Forall (fun c => key_char c = true) k -> val_text k.
Proof. intros Hk. eapply Forall_impl; [exact Hk |]. intros c Hc. apply key_char_plain in Hc. tauto. Qed.

Lemma equals_val : val_text (B "=").
Proof. by repeat constructor. Qed.

Record value_fits (v : bstr) : Prop := {
  vf_text : val_text v;
  vf_start : starts_with v " "%char = false;
  vf_end : ends_with v " "%char = false;
  vf_open : no_open v = true;
  vf_len : Z.of_nat (length v) <= 32000
}.

Lemma val_ok_fits v : val_ok v = true -> value_fits v.
Proof.
  unfold val_ok. intros Hv. apply andb_prop in Hv as [Hv H5]. apply andb_prop in Hv as [Hv H4].
  apply andb_prop in Hv as [Hv H3]. apply andb_prop in Hv as [H1 H2]. apply negb_true_iff in H2, H3.
  split; [by apply forallb_holds | done | done | done | lia].
Qed.

(** The last character of a setting line. *)
Lemma setting_last k v :
  value_fits v -> exists x, last (k ++ B "=" ++ v) = Some x /\ is_eol x = false /\ is_blank x = false /\ x <> BACKSLASH.
Proof.
  intros [Hv _ He _ _]. destruct v as [| x v _] using rev_ind.
  - exists "="%char. rewrite app_nil_r. change (B "=") with ["="%char]. by rewrite last_snoc.
  - apply Forall_app in Hv as [_ Hx]. apply Forall_cons in Hx as [Hx _]. rewrite ends_with_snoc in He.
    exists x. rewrite !app_assoc, last_snoc. split; [done |]. split_and!; [| by apply val_no_blank |];
      by apply val_char_plain in Hx as (? & ? & ? & ? & ?).
Qed.

Lemma starts_with_take n s c : (0 < n)%nat -> starts_with s c = false -> starts_with (take n s) c = false.
Proof. intros Hn Hs. destruct s as [| d s]; [by destruct n |]. destruct n; [lia |]. cbn [take]. by rewrite starts_with_cons in Hs |- *. Qed.

Lemma setting_step k v rest :
  key_ok k = true -> val_ok v = true -> wrap_safe k v = true ->
  file_lines (cfg_write_wrapped k (Some v) ++ rest) = (false, [], k ++ B "=" ++ v) :: file_lines rest.
Proof.
  intros Hk Hv Hw. apply val_ok_fits in Hv. destruct (key_ok_chars k Hk) as [Hkc Hkl].
  destruct (key_ok_cons k Hk) as (c & s & -> & Hc & _). set (k := c :: s) in *.
  change (cfg_write_wrapped k (Some v)) with (write_chunks (S (length v)) k true v). revert Hw. unfold wrap_safe. cbn [folds_ok write_chunks].
  set (chunk := wrap_chunk (wrap_capacity k) (length v)). destruct (Nat.ltb_spec chunk (length v)) as [Hlt | Hge].
  - intros Hok. apply andb_prop in Hok as [Hok Hrec]. apply andb_prop in Hok as [Htwo Hstart].
    apply negb_true_iff in Htwo, Hstart.
    destruct (wrap_chunk_bounds k (length v) ltac:(lia)) as [Hc1 Hc2]. fold chunk in Hc1, Hc2.
    set (t := take chunk v) in *. set (more := write_chunks (length v) k false (drop chunk v)).
    assert (Htl : length t = chunk) by (unfold t; rewrite length_take; lia).
    assert (Hvt : val_text t) by apply Forall_take, Hv.
    assert (Htne : t <> []) by (intros Hnil; rewrite Hnil in Htl; cbn in Htl; lia).
    assert (Hst : starts_with t " "%char = false) by (apply starts_with_take; [lia | apply Hv]).
    assert (Hpre : pre_ok ((k ++ B "=") ++ t)) by by apply pre_ok_app.
    destruct (join_folds k (length v) (drop chunk v) ((k ++ B "=") ++ t) (S (length (more ++ rest))) 0 rest) as (line & Hj).
    { rewrite length_drop. lia. }
    { intros Hnil. apply (f_equal length) in Hnil. rewrite length_drop in Hnil. cbn in Hnil. lia. }
    { apply Forall_drop, Hv. } { exact Hstart. } { rewrite ends_with_drop by lia. apply Hv. } { exact Hrec. } { exact Hkl. }
    { exact Hpre. }
    { pose proof (vf_len v Hv). rewrite length_drop, !length_app, Htl. change (length (B "=")) with 1%nat. lia. }
    { fold more. lia. }
    fold more in Hj.
    replace (((k ++ B "=") ++ t) ++ drop chunk v) with (k ++ B "=" ++ v) in Hj by (unfold t; by rewrite <- !app_assoc, take_drop).
    rewrite (file_lines_step _ (((k ++ B "=") ++ t ++ [BACKSLASH]) ++ [LF]) (more ++ rest) (k ++ B "=" ++ v) line rest false (k ++ B "=" ++ v)).
    + change (k ++ B "=" ++ v) with (c :: s ++ B "=" ++ v). by rewrite skip_plain, no_indent.
    + apply fgets_first.
      * by rewrite <- !app_assoc.
      * apply Forall_app; split; [apply val_text_chars, Forall_app; split; [by apply key_text | apply equals_val] |].
        apply Forall_app; split; [by apply val_text_chars | by repeat constructor].
      * rewrite !length_app, Htl. change (length (B "=")) with 1%nat. change (length [BACKSLASH]) with 1%nat. lia.
    + rewrite rtrim_app, (rtrim_last _ _ BACKSLASH), <- Hj by (by auto || by rewrite ?app_assoc, last_snoc).
      by rewrite <- !app_assoc.
    + apply (unescape_plain _ c (s ++ B "=" ++ v)); [done |]. by apply (indent_plain c).
  - intros _. rewrite (take_ge v) by lia. destruct (setting_last k v Hv) as (x & Hl & He & Hb & Hx).
    replace (((k ++ B "=") ++ v ++ [LF]) ++ rest) with ((c :: s ++ B "=" ++ v) ++ LF :: rest)
      by (unfold k; cbn; by rewrite <- !app_assoc).
    rewrite (single_step c (s ++ B "=" ++ v) x); try done.
    + apply val_text_chars. change (c :: s ++ B "=" ++ v) with (k ++ B "=" ++ v).
      apply Forall_app; split; [by apply key_text |]. apply Forall_app; split; [apply equals_val | apply Hv].
    + change (c :: s ++ B "=" ++ v) with (k ++ B "=" ++ v). rewrite !length_app. change (length (B "=")) with 1%nat.
      destruct (decide (length v = 0%nat)); [lia |]. destruct (wrap_chunk_bounds k (length v) ltac:(lia)). unfold chunk in Hge. lia.
Qed.

(** ** Headers *)

Definition head_char (c : ascii) : bool := key_char c || ceq c ":".

Definition head_ok (name : bstr) : bool :=
  nonempty name && forallb head_char name && (Z.of_nat (length name) <=? 127).

Lemma head_char_plain c : head_char c = true -> val_char c = true /\ isspace c = false.
Proof.
  unfold head_char, ceq. intros Hc. apply orb_prop in Hc as [Hc | Hc].
  - by apply key_char_plain in Hc as (? & ? & ?).
  - by apply bool_decide_eq_true in Hc as ->.
Qed.

Lemma head_ok_text name : head_ok name = true ->
  Forall (fun c => head_char c = true) name /\ val_text name /\ name <> [] /\ (length name <= 127)%nat.
Proof.
  unfold head_ok. intros Hn. apply andb_prop in Hn as [Hn Hl]. apply andb_prop in Hn as [Hne Hn].
  apply forallb_holds in Hn. split_and!; [done | | by intros -> | lia].
  eapply Forall_impl; [exact Hn |]. intros c Hc. by apply head_char_plain.
Qed.

Definition header (name : bstr) : bstr := B "[" ++ name ++ B "]".

Lemma header_step name rest :
  head_ok name = true -> file_lines (header name ++ LF :: rest) = (false, [], header name) :: file_lines rest.
Proof.
  intros Hn. apply head_ok_text in Hn as (_ & Hv & _ & Hl).
  apply (single_step "["%char (name ++ B "]") "]"%char).
  - by split.
  - apply val_text_chars. apply (Forall_app _ [_]); split; [by repeat constructor |].
    apply Forall_app; split; [done | by repeat constructor].
  - change (last (B "[" ++ name ++ ["]"%char]) = Some "]"%char). by rewrite app_assoc, last_snoc.
  - done.
  - done.
  - done.
  - cbn [length]. rewrite length_app. cbn. lia.
Qed.

(** ** Files as lists of lines *)

Inductive out_line := OHead (name : bstr) | OSet (key val : bstr) | OBlank.

Definition out_ok (o : out_line) : bool :=
  match o with
  | OHead name => head_ok name
  | OSet k v => key_ok k && val_ok v && wrap_safe k v
  | OBlank => true
  end.

Definition render_line (o : out_line) : bstr :=
  match o with
  | OHead name => header name ++ [LF]
  | OSet k v => cfg_write_wrapped k (Some v)
  | OBlank => [LF]
  end.

Definition render (ls : list out_line) : bstr := concat (map render_line ls).

Definition lexed (o : out_line) : bool * bstr * bstr :=
  match o with
  | OHead name => (false, [], header name)
  | OSet k v => (false, [], k ++ B "=" ++ v)
  | OBlank => (false, [], [])
  end.

Lemma file_lines_render ls :
  forallb out_ok ls = true -> file_lines (render ls) = map lexed ls.
Proof.
  unfold render. induction ls as [| o ls IH]; [done |]. cbn [forallb map concat]. intros Hok.
  apply andb_prop in Hok as [Ho Hok]. specialize (IH Hok). destruct o as [name | k v |]; cbn [render_line lexed].
  - rewrite <- app_assoc. cbn [app]. by rewrite header_step, IH.
  - cbn [out_ok] in Ho. apply andb_prop in Ho as [Ho Hw]. apply andb_prop in Ho as [Hk Hv].
    by rewrite setting_step, IH.
  - cbn [app]. by rewrite blank_step, IH.
Qed.

(** ** What each line means *)

Lemma strip_unopened q s : no_open s = true -> Forall (fun c => c <> BACKSLASH) s -> strip false q s = (s, false).
Proof.
  intros Ho Hs. revert q Ho. induction Hs as [| c s Hc Hs IH]; intros q Ho; [done |]. cbn [no_open] in Ho.
  apply andb_prop in Ho as [Hco Ho]. apply negb_true_iff in Hco.
  assert (Hq : ceq c BACKSLASH = false) by by apply bool_decide_eq_false.
  cbn [strip]. rewrite Hq. destruct q as [q |].
  - destruct s as [| d s']; [done |]. by rewrite IH.
  - destruct (ceq c DQUOTE || ceq c SQUOTE); [by rewrite IH |].
    destruct s as [| d s']; [done |]. rewrite starts_with_cons in Hco. by rewrite Hco, IH.
Qed.

Lemma no_open_app s t : Forall (fun c => c <> "/"%char) s -> no_open (s ++ t) = no_open t.
Proof.
  induction 1 as [| c s Hc _ IH]; [done |]. cbn [app no_open]. unfold ceq at 1. by rewrite bool_decide_false.
Qed.

Lemma key_no_slash c : key_char c = true -> c <> "/"%char.
Proof. by intros Hc ->. Qed.

Lemma no_open_plain s : Forall (fun c => c <> "/"%char) s -> no_open s = true.
Proof. intros Hs. rewrite <- (app_nil_r s). by rewrite no_open_app. Qed.

Lemma val_text_plain s : val_text s -> Forall (fun c => c <> BACKSLASH) s.
Proof. intros Hs. eapply Forall_impl; [exact Hs |]. intros c Hc. apply val_char_plain in Hc. tauto. Qed.

Lemma uncomment_plain inside_s c s x :
  inside_s = c :: s -> comment_lead inside_s = false -> no_open inside_s = true -> val_text inside_s ->
  last inside_s = Some x -> ceq x " " = false ->
  uncomment false false inside_s = (inside_s, false).
Proof.
  intros -> Hc Ho Hv Hl Hx. unfold uncomment. rewrite Hc. cbn [negb andb].
  rewrite strip_unopened by (done || by apply val_text_plain). cbn beta iota.
  rewrite (rtrim_last _ _ x); [done.. |]. apply val_no_space; [| done].
  apply last_Some_elem_of in Hl. unfold val_text in Hv. rewrite Forall_forall in Hv. by apply Hv.
Qed.

(** A key starts no comment, include or header. *)
Lemma key_start c s :
  key_char c = true -> c <> "."%char ->
  comment_lead (c :: s) = false /\ include_of (c :: s) = None /\ section_of (c :: s) = None /\ orphan_star (c :: s) = false.
Proof.
  intros Hc Hdot. unfold comment_lead, include_of, section_of, orphan_star. rewrite !starts_with_cons. unfold ceq.
  split_and!; repeat (rewrite bool_decide_false; [| first [done | by intros ->]]); done.
Qed.

Lemma split_key k v : Forall (fun c => key_char c = true) k -> split_at (k ++ B "=" ++ v) "="%char = Some (k, v).
Proof.
  induction 1 as [| c k Hc _ IH]; [done |]. cbn [app split_at].
  rewrite bool_decide_false by by apply key_char_plain. by rewrite IH.
Qed.

Lemma setting_of_plain k v :
  Forall (fun c => key_char c = true) k -> value_fits v -> setting_of (k ++ B "=" ++ v) = Some (k, v).
Proof.
  intros Hk [Hv Hs _ _ _]. unfold setting_of. rewrite split_key by done. cbn. repeat f_equal.
  destruct v as [| c v]; [done |]. apply Forall_cons in Hv as [Hc _]. rewrite starts_with_cons in Hs.
  cbn [skip_while]. by rewrite val_no_blank.
Qed.

(** Without backslashes there is nothing to expand. *)
Lemma expand_plain fuel s :
  (length s <= fuel)%nat -> Forall (fun c => c <> BACKSLASH) s -> expand_escapes fuel s = s.
Proof.
  revert s. induction fuel as [| fuel IH]; intros s Hl Hs; [by destruct s; [| cbn in Hl; lia] |].
  destruct Hs as [| c s Hc Hs]; [done |]. cbn [expand_escapes]. cbn [length] in Hl. destruct s as [| d s]; [done |].
  unfold ceq at 1. rewrite bool_decide_false by done. by rewrite IH by (done || lia).
Qed.

Lemma stored_plain sec k v : value_fits v -> stored_val sec k v = v.
Proof.
  intros [Hv _ _ _ _]. unfold stored_val. case_match; [| done]. apply expand_plain; [done |]. by apply val_text_plain.
Qed.

Lemma rtrim_key k : Forall (fun c => key_char c = true) k -> rtrim is_blank k = k.
Proof.
  intros Hk. destruct k as [| x k _] using rev_ind; [done |]. apply (rtrim_last _ _ x); [by rewrite last_snoc |].
  apply Forall_app in Hk as [_ Hx]. apply Forall_cons in Hx as [Hx _]. apply key_char_plain in Hx as (Hs & Hv & _).
  apply val_no_blank; [done |]. apply bool_decide_eq_false. by intros ->.
Qed.

(** Sections that the loader does not read itself store nothing. *)
Lemma other_key sec k : own_section sec = false -> section_key sec k = None.
Proof.
  unfold own_section, section_key. intros [[[[H1 H2]%orb_false_iff H3]%orb_false_iff H4]%orb_false_iff H5]%orb_false_iff.
  rewrite H1, H2, H3, H4, H5. by destruct (nonempty sec).
Qed.

Lemma set_meaning path sec k v :
  key_ok k = true -> value_fits v ->
  uncomment false false (k ++ B "=" ++ v) = (k ++ B "=" ++ v, false) /\
  line_item (fun _ _ _ => []) path sec false [] (k ++ B "=" ++ v) = Assign (match section_key sec k with Some f => [(f, v)] | None => [] end).
Proof.
  intros Hk Hv. destruct (key_ok_chars k Hk) as [Hkc _]. destruct (key_ok_cons k Hk) as (c & s & Heq & _ & Hc).
  assert (Hdot : c <> "."%char).
  { intros ->. subst k. unfold key_ok in Hk. rewrite starts_with_cons in Hk. by rewrite andb_false_r in Hk. }
  destruct (key_start c (s ++ B "=" ++ v) Hc Hdot) as (H1 & H2 & H3 & H4).
  replace (c :: s ++ B "=" ++ v) with (k ++ B "=" ++ v) in * by by rewrite Heq.
  split.
  - destruct (setting_last k v Hv) as (x & Hl & _ & Hb & _). destruct Hv as [Hv Hs He Ho _].
    apply (uncomment_plain _ c (s ++ B "=" ++ v) x); try done.
    + by rewrite Heq.
    + rewrite app_assoc, no_open_app; [done |]. apply Forall_app; split; [| by repeat constructor].
      eapply Forall_impl; [exact Hkc |]. apply key_no_slash.
    + apply Forall_app; split; [by apply key_text |]. by apply Forall_app; split; [apply equals_val |].
    + unfold is_blank in Hb. by apply orb_false_elim in Hb as [Hb _].
  - unfold line_item. rewrite H1, H2, H3, H4. replace (nonempty (k ++ B "=" ++ v)) with true by by rewrite Heq.
    rewrite andb_false_r. cbn [negb orb andb]. unfold setting_item. rewrite setting_of_plain by done.
    rewrite stored_plain by done. destruct (negb (nonempty sec) || own_section sec) eqn:Ho; [by destruct (section_key sec k) |].
    apply orb_false_iff in Ho as [_ Ho]. by rewrite (other_key sec k Ho).
Qed.

Lemma head_meaning path sec name :
  head_ok name = true ->
  uncomment false false (header name) = (header name, false) /\ line_item (fun _ _ _ => []) path sec false [] (header name) = Header name.
Proof.
  intros Hn. apply head_ok_text in Hn as (Hh & Hv & Hne & Hl).
  assert (Hlast : last (header name) = Some "]"%char).
  { unfold header. rewrite app_assoc. change (B "]") with ["]"%char]. by rewrite last_snoc. }
  split.
  - apply (uncomment_plain _ "["%char (name ++ B "]") "]"%char); try done.
    + apply no_open_plain. apply Forall_app; split; [by repeat constructor |].
      apply Forall_app; split; [| by repeat constructor]. eapply Forall_impl; [exact Hh |]. by intros c Hc ->.
    + apply Forall_app; split; [by repeat constructor |]. by apply Forall_app; split; [| repeat constructor].
  - change (header name) with ("["%char :: name ++ ["]"%char]) in *. unfold line_item, include_of, section_of.
    rewrite !starts_with_cons.
    change (nonempty ("["%char :: name ++ ["]"%char])) with true.
    change (comment_lead ("["%char :: name ++ ["]"%char])) with false.
    change (orphan_star ("["%char :: name ++ ["]"%char])) with false.
    rewrite andb_false_r. change (ceq "["%char "!"%char) with false. change (ceq "["%char "."%char) with false.
    change (ceq "["%char "["%char) with true. cbn [negb orb andb].
    unfold ends_with. rewrite Hlast, bool_decide_true by done.
    f_equal. cbn [length drop]. rewrite length_app. cbn [length].
    replace (S (length name + 1) - 2)%nat with (length name) by lia.
    rewrite Nat.min_l by lia. by apply take_app_length.
Qed.

(** The settings of such a file. *)
Fixpoint interp (sec : bstr) (ls : list out_line) : settings :=
  match ls with
  | [] => []
  | OHead name :: ls => interp name ls
  | OSet k v :: ls =>
      match section_key sec k with
      | Some f => (f, v) :: interp sec ls
      | None => interp sec ls
      end
  | OBlank :: ls => interp sec ls
  end.

Lemma lines_interp `{Files} load path sec ls :
  forallb out_ok ls = true -> lines_settings (fun _ _ _ => []) load path sec false (map lexed ls) = (true, interp sec ls).
Proof.
  revert sec. induction ls as [| o ls IH]; intros sec; [done |]. cbn [forallb map interp]. intros Hok.
  apply andb_prop in Hok as [Ho Hok]. destruct o as [name | k v |]; cbn [lexed lines_settings].
  - destruct (head_meaning path sec name Ho) as [-> ->]. cbn [item_settings negb]. by rewrite IH.
  - cbn [out_ok] in Ho. apply andb_prop in Ho as [Ho _]. apply andb_prop in Ho as [Hk Hv]. apply val_ok_fits in Hv.
    destruct (set_meaning path sec k v Hk Hv) as [-> ->]. cbn [item_settings negb]. rewrite IH by done. by destruct (section_key sec k).
  - rewrite blank_uncomment. cbn. by rewrite IH.
Qed.
