(* ===== verification/ConfigSaveTheory.v ===== *)
(** * The saved file as a list of lines

    Collecting, sorting and grouping the entries of a dictionary writes every one
    of them once, under the section whose key it has; the server sections write
    each server setting at least once and nothing else. *)

From S2P Require Import Prelude CString Dict DictTheory ConfigText Config ConfigRef ConfigTheory ConfigSave ConfigRound ConfigLayout.

#[local] Open Scope Z_scope.
#[local] Opaque BUFSZ.

(** ** Prefixes and positions *)

Lemma has_prefix_spec p s : has_prefix p s = true <-> exists t, s = p ++ t.
Proof.
  unfold has_prefix, strneq. rewrite streq_true, (take_ge p) by lia. split.
  - intros Ht. exists (drop (length p) s). by rewrite <- Ht at 1; rewrite take_drop.
  - intros [t ->]. by rewrite take_app_length.
Qed.

Lemma index_of_spec c s n :
  index_of c s = Some n <-> exists a b, s = a ++ c :: b /\ length a = n /\ c ∉ a.
Proof.
  revert n. induction s as [| x s IH]; intros n; cbn [index_of].
  - split; [done |]. intros (a & b & Hs & _). by destruct a.
  - destruct (ceq x c) eqn:Hx.
    + apply bool_decide_eq_true in Hx as ->. split.
      * intros [= <-]. exists [], s. split_and!; [done | done | apply not_elem_of_nil].
      * intros ([| y a] & b & Hs & Hl & Ha); [by cbn in Hl; subst n |].
        injection Hs as <- _. by destruct Ha; left.
    + apply bool_decide_eq_false in Hx. destruct (index_of c s) as [m |] eqn:Hm; cbn.
      * destruct (proj1 (IH m) eq_refl) as (a & b & -> & Hl & Ha). split.
        -- intros [= <-]. exists (x :: a), b. split_and!; [done | cbn; by rewrite Hl |].
           apply not_elem_of_cons. by split.
        -- intros ([| y a'] & b' & Hs & Hl' & Ha'); [by injection Hs as -> _ |]. injection Hs as <- Hs.
           apply not_elem_of_cons in Ha' as [_ Ha']. cbn in Hl'.
           assert (Some m = Some (length a')) as [= ->]; [| by rewrite Hl'].
           apply (IH (length a')). eauto.
      * split; [done |]. intros ([| y a'] & b' & Hs & Hl' & Ha'); [by injection Hs as -> _ |]. injection Hs as <- Hs.
        apply not_elem_of_cons in Ha' as [_ Ha'].
        by assert (None = Some (length a')) by (apply (IH (length a')); eauto).
Qed.

Lemma index_of_app c a b : c ∉ a -> index_of c (a ++ c :: b) = Some (length a).
Proof. intros Ha. apply index_of_spec. eauto. Qed.

Lemma index_of_None c s : index_of c s = None <-> c ∉ s.
Proof.
  induction s as [| x s IH]; cbn [index_of]; [split; [intros _; apply not_elem_of_nil | done] |].
  rewrite not_elem_of_cons. destruct (ceq x c) eqn:Hx.
  - apply bool_decide_eq_true in Hx as ->. split; [done | by intros [[] _]].
  - apply bool_decide_eq_false in Hx. rewrite fmap_None, IH. naive_solver.
Qed.

(** ** Sorting *)

Definition colon_free (e : entry) : Prop := ":"%char ∉ e.1.

#[export] Instance colon_free_dec e : Decision (colon_free e).
Proof. unfold colon_free. apply _. Defined.

Lemma not_colon_free e : ~ colon_free e -> ":"%char ∈ e.1.
Proof. unfold colon_free. apply dec_stable. Qed.

Lemma insert_entry_perm e l : insert_entry e l ≡ₚ e :: l.
Proof.
  induction l as [| x l IH]; [done |]. cbn [insert_entry]. case_match; [done |]. rewrite IH. apply Permutation_swap.
Qed.

Lemma sort_entries_perm l : sort_entries l ≡ₚ l.
Proof. induction l as [| e l IH]; [done |]. cbn. by rewrite insert_entry_perm, IH. Qed.

Lemma compare_free a b : colon_free a -> ~ colon_free b -> cfg_save_entry_compare a b = -1 /\ cfg_save_entry_compare b a = 1.
Proof.
  unfold colon_free, cfg_save_entry_compare. intros Ha Hb. apply index_of_None in Ha. rewrite Ha.
  destruct (index_of ":" b.1) eqn:Hi; [done |]. by apply index_of_None in Hi.
Qed.

(** Plain keys come first. *)
Definition grouped (l : list entry) : Prop :=
  exists l1 l2, l = l1 ++ l2 /\ Forall colon_free l1 /\ Forall (fun e => ~ colon_free e) l2.

Lemma insert_grouped e l : grouped l -> grouped (insert_entry e l).
Proof.
  intros (l1 & l2 & -> & H1 & H2). induction H1 as [| x l1 Hx H1 IH]; cbn [app].
  - destruct (decide (colon_free e)) as [He | He].
    + exists [e], l2. split_and!; [| by repeat constructor | done].
      destruct H2 as [| y l2 Hy _]; [done |]. cbn [insert_entry]. by destruct (compare_free e y He Hy) as [-> _].
    + exists [], (insert_entry e l2). split_and!; [done | done |].
      rewrite insert_entry_perm. by constructor.
  - cbn [insert_entry]. case_match eqn:Hle.
    + destruct (decide (colon_free e)) as [He | He].
      * exists (e :: x :: l1), l2. split_and!; [done | by repeat constructor | done].
      * destruct (compare_free x e Hx He) as [_ Hc]. by rewrite Hc in Hle.
    + destruct IH as (m1 & m2 & -> & Hm1 & Hm2). exists (x :: m1), m2. split_and!; [done | by constructor | done].
Qed.

Lemma sort_grouped l : grouped (sort_entries l).
Proof. induction l as [| e l IH]; [by exists [], [] | by apply insert_grouped]. Qed.

(** ** Collecting *)

Lemma collect_step cbs k v entries capacity :
  exists capacity', collect_body cbs k v (entries, capacity, []) =
    Some (true, (entries ++ (if cfg_save_entry_is_skipped cbs k then [] else [(k, str_of v)]), capacity', [])).
Proof.
  unfold collect_body. destruct (cfg_save_entry_is_skipped cbs k); [rewrite app_nil_r; eauto |].
  destruct (Nat.eqb _ _); cbn; eauto.
Qed.

Lemma collect_fold cbs l entries capacity :
  exists capacity', fold_body l (collect_body cbs) (entries, capacity, []) =
    Some (true, (entries ++ map (fun kv => (kv.1, str_of kv.2)) (base.filter (fun kv => cfg_save_entry_is_skipped cbs kv.1 = false) l),
                 capacity', [])).
Proof.
  revert entries capacity. induction l as [| [k v] l IH]; intros entries capacity.
  { exists capacity. cbn. by rewrite app_nil_r. }
  cbn [fold_body]. destruct (collect_step cbs k v entries capacity) as (c & ->). cbn [mbind option_bind].
  destruct (IH (entries ++ (if cfg_save_entry_is_skipped cbs k then [] else [(k, str_of v)])) c) as (c' & ->).
  exists c'. do 4 f_equal. rewrite <- app_assoc. f_equal.
  destruct (cfg_save_entry_is_skipped cbs k) eqn:Hs.
  - by rewrite filter_cons_False by (cbn; by rewrite Hs).
  - by rewrite filter_cons_True by done.
Qed.

Definition kept_entries (cbs : list save_cb) (d : dict) : list entry :=
  map (fun kv => (kv.1, str_of kv.2)) (base.filter (fun kv => cfg_save_entry_is_skipped cbs kv.1 = false) (dict_entries d)).

Lemma collect_spec cbs d : dict_wf d -> collect_entries cbs [] (Some d) = Some (Some (kept_entries cbs d), []).
Proof.
  intros Hwf. unfold collect_entries. rewrite enum_all_spec by done.
  destruct (collect_fold cbs (dict_entries d) [] O) as (c & ->). done.
Qed.

(** ** Runs of entries *)

Definition oset (key : bstr) (e : entry) : out_line := OSet key (default [] e.2).

Lemma write_oset key e : cfg_write_wrapped key e.2 = render_line (oset key e).
Proof. done. Qed.

Lemma render_cons o ls : render (o :: ls) = render_line o ++ render ls.
Proof. done. Qed.

Lemma render_app ls ls' : render (ls ++ ls') = render ls ++ render ls'.
Proof. unfold render. by rewrite map_app, concat_app. Qed.

Lemma general_entries_spec l1 l2 :
  Forall colon_free l1 -> Forall (fun e => ~ colon_free e) l2 ->
  general_entries (l1 ++ l2) = (render (map (fun e => oset e.1 e) l1), l2).
Proof.
  induction 1 as [| e l1 He _ IH]; intros H2; cbn [app].
  - destruct H2 as [| e l2 He _]; [done |]. cbn [general_entries].
    destruct (index_of ":" e.1) eqn:Hi; [done |]. by apply index_of_None in Hi.
  - cbn [general_entries]. apply index_of_None in He. by rewrite He, IH.
Qed.

Lemma theme_entries_spec group l :
  exists la rest, l = la ++ rest /\ Forall (fun e => has_prefix group e.1 = true) la /\
    theme_entries group l = (render (map (fun e => oset (drop (length group) e.1) e) la), rest) /\
    match l with e :: _ => has_prefix group e.1 = true -> la <> [] | [] => True end.
Proof.
  induction l as [| e l (la & rest & -> & Hla & Heq & _)]; [by exists [], [] |]. cbn [theme_entries].
  destruct (has_prefix group e.1) eqn:He; [| by exists [], (e :: la ++ rest)].
  exists (e :: la), rest. rewrite Heq. split_and!; [done | by constructor | done | done].
Qed.

Lemma same_section_self e n : cfg_save_entry_same_section e e.1 n = true <-> index_of ":" e.1 = Some n.
Proof.
  unfold cfg_save_entry_same_section, strneq. destruct (index_of ":" e.1) as [m |]; [| done].
  rewrite streq_refl, andb_true_r, Nat.eqb_eq. naive_solver.
Qed.

Lemma section_entries_spec n l :
  exists la rest, l = la ++ rest /\ Forall (fun e => index_of ":" e.1 = Some n) la /\
    section_entries n l = (render (map (fun e => oset (drop (S n) e.1) e) la), rest) /\
    match l with e :: _ => index_of ":" e.1 = Some n -> la <> [] | [] => True end.
Proof.
  induction l as [| e l (la & rest & -> & Hla & Heq & _)]; [by exists [], [] |]. cbn [section_entries].
  destruct (cfg_save_entry_same_section e e.1 n) eqn:He.
  - apply same_section_self in He. exists (e :: la), rest. rewrite Heq. split_and!; [done | by constructor | | done].
    cbn [map]. by rewrite He.
  - exists [], (e :: la ++ rest). split_and!; [done | done | done |]. intros Hi. apply same_section_self in Hi. congruence.
Qed.

(** ** Where an entry is written *)

(** The section and the key inside it. *)
Definition place (k : bstr) : option (bstr * bstr) :=
  if has_prefix (B "theme:") k then
    let t := drop 6 k in
    match index_of "." t with Some n => Some (B "theme:" ++ take n t, drop (S n) t) | None => None end
  else if has_prefix (B "site:") k then Some (B "site", drop 5 k)
  else if has_prefix (B "callsign-lookup:") k then Some (B "callsign-lookup", drop 16 k)
  else match index_of ":" k with None => Some (B "general", k) | Some _ => None end.

(** What a generic entry needs to survive. *)
Definition entry_fits (k v : bstr) : bool :=
  (Z.of_nat (length k) <=? 255) &&
  match place k with
  | Some (sec, key) => head_ok sec && key_ok key && val_ok v && wrap_safe key v
  | None => false
  end.

Lemma entry_fits_place k v :
  entry_fits k v = true ->
  exists sec key, place k = Some (sec, key) /\ head_ok sec = true /\ out_ok (OSet key v) = true /\ (length k <= 255)%nat.
Proof.
  unfold entry_fits. intros He. apply andb_prop in He as [Hl He].
  destruct (place k) as [[sec key] |]; [| done]. exists sec, key.
  apply andb_prop in He as [He Hw]. apply andb_prop in He as [He Hv]. apply andb_prop in He as [Hh Hk].
  split_and!; [done | done | cbn [out_ok]; by rewrite Hk, Hv, Hw | lia].
Qed.

Lemma section_key_theme name :
  nonempty (B "theme:" ++ name) = true /\ strcaseeq (B "theme:" ++ name) (B "general") = false /\
  strncaseeq (B "theme:" ++ name) (B "theme:") 6 = true.
Proof. split_and!; [done | by apply streq_false | done]. Qed.

Lemma section_key_server name :
  nonempty (B "server:" ++ name) = true /\ strcaseeq (B "server:" ++ name) (B "general") = false /\
  strncaseeq (B "server:" ++ name) (B "server:") 7 = true /\ strncaseeq (B "server:" ++ name) (B "theme:") 6 = false.
Proof. split_and!; [done | by apply streq_false | done | done]. Qed.

Lemma some_pair {X Y} (x x' : X) (y y' : Y) : Some (x, y) = Some (x', y') -> x = x' /\ y = y'.
Proof. by intros [= -> ->]. Qed.

Lemma drop_past {X} (a : list X) x b : drop (S (length a)) (a ++ x :: b) = b.
Proof. induction a as [| y a IH]; [done |]. apply IH. Qed.

(** The section and key of an entry make its full key again. *)
Lemma place_section_key k sec key :
  place k = Some (sec, key) -> (length k <= 255)%nat -> key_ok key = true -> section_key sec key = Some k.
Proof.
  intros Hp Hl Hk. destruct (key_ok_chars key Hk) as [Hkc _]. pose proof (rtrim_key key Hkc) as Htrim.
  assert (Hne : nonempty key = true) by by destruct (key_ok_cons key Hk) as (? & ? & -> & _).
  revert Hp. unfold place. destruct (has_prefix (B "theme:") k) eqn:Ht.
  { apply has_prefix_spec in Ht as [t ->]. change (drop 6 (B "theme:" ++ t)) with t.
    destruct (index_of "." t) as [n |] eqn:Hi; [| done]. intros Hp. apply some_pair in Hp as [<- <-].
    apply index_of_spec in Hi as (a & b & -> & <- & _). rewrite take_app_length, drop_past in *.
    destruct (section_key_theme a) as (H1 & H2 & H3). unfold section_key. rewrite H1, H2, H3, orb_true_r. cbn [negb].
    f_equal. change (concat _) with (B "theme:" ++ a ++ "."%char :: b ++ []). rewrite app_nil_r. by apply take_ge. }
  destruct (has_prefix (B "site:") k) eqn:Hs.
  { apply has_prefix_spec in Hs as [t ->]. intros Hp. apply some_pair in Hp as [<- <-].
    change (drop 5 (B "site:" ++ t)) with t in *. unfold section_key. rewrite Htrim, Hne.
    change (Some (take 255 (B "site:" ++ t)) = Some (B "site:" ++ t)). f_equal. by apply take_ge. }
  destruct (has_prefix (B "callsign-lookup:") k) eqn:Hc.
  { apply has_prefix_spec in Hc as [t ->]. intros Hp. apply some_pair in Hp as [<- <-].
    change (drop 16 (B "callsign-lookup:" ++ t)) with t in *. unfold section_key. rewrite Htrim, Hne.
    change (Some (take 255 (B "callsign-lookup:" ++ t)) = Some (B "callsign-lookup:" ++ t)). f_equal. by apply take_ge. }
  destruct (index_of ":" k); [done |]. intros Hp. apply some_pair in Hp as [<- <-].
  unfold section_key. by rewrite Htrim.
Qed.

(** An entry of the map under construction, with its text. *)
Definition pair_of (e : entry) : bstr * bstr := (e.1, default [] e.2).

Definition fits (e : entry) : Prop := entry_fits e.1 (default [] e.2) = true.

(** A run of entries written under the header of their section. *)
Lemma run_interp name (f : entry -> bstr) la ls sec :
  Forall (fun e => fits e /\ place e.1 = Some (name, f e)) la -> la <> [] -> forallb out_ok ls = true ->
  forallb out_ok (OBlank :: OHead name :: map (fun e => oset (f e) e) la ++ ls) = true /\
  interp sec (OBlank :: OHead name :: map (fun e => oset (f e) e) la ++ ls) = map pair_of la ++ interp name ls.
Proof.
  intros Hla Hne Hls.
  assert (Hhead : head_ok name = true).
  { destruct Hla as [| e la [He Hp] _]; [done |]. apply entry_fits_place in He as (sec' & key & Hp' & Hh & _).
    rewrite Hp in Hp'. by apply some_pair in Hp' as [<- _]. }
  clear Hne. cbn [forallb interp]. change (out_ok (OHead name)) with (head_ok name). rewrite Hhead. change (out_ok OBlank) with true. cbn [andb].
  clear Hhead. induction Hla as [| e la [He Hp] _ [IH1 IH2]]; [done |]. cbn [map app forallb interp oset].
  apply entry_fits_place in He as (sec' & key & Hp' & _ & Hok & Hl). rewrite Hp in Hp'.
  apply some_pair in Hp' as [<- <-]. change (out_ok (oset (f e) e)) with (out_ok (OSet (f e) (default [] e.2))). rewrite Hok, IH1. split; [done |].
  cbn [out_ok] in Hok. apply andb_prop in Hok as [Hok _]. apply andb_prop in Hok as [Hk _].
  by rewrite (place_section_key e.1 name (f e)), IH2 by done.
Qed.

(** ** The qualified sections *)

(** What a qualified key can look like. *)
Lemma place_qualified k sec key :
  place k = Some (sec, key) -> ":"%char ∈ k ->
  (exists n, index_of "." (drop 6 k) = Some n /\ has_prefix (B "theme:") k = true /\ sec = B "theme:" ++ take n (drop 6 k) /\
     index_of ":" k = Some 5%nat) \/
  (has_prefix (B "theme:") k = false /\ sec = B "site" /\ index_of ":" k = Some 4%nat /\ take 4 k = B "site" /\ key = drop 5 k) \/
  (has_prefix (B "theme:") k = false /\ sec = B "callsign-lookup" /\ index_of ":" k = Some 15%nat /\
     take 15 k = B "callsign-lookup" /\ key = drop 16 k).
Proof.
  intros Hp Hq. unfold place in Hp. destruct (has_prefix (B "theme:") k) eqn:Ht.
  { left. apply has_prefix_spec in Ht as [t ->]. change (drop 6 (B "theme:" ++ t)) with t in *.
    destruct (index_of "." t) as [n |] eqn:Hi; [| done]. apply some_pair in Hp as [<- <-]. exists n. by split_and!. }
  right. destruct (has_prefix (B "site:") k) eqn:Hs.
  { left. apply has_prefix_spec in Hs as [t ->]. apply some_pair in Hp as [<- <-]. by split_and!. }
  destruct (has_prefix (B "callsign-lookup:") k) eqn:Hc.
  { right. apply has_prefix_spec in Hc as [t ->]. apply some_pair in Hp as [<- <-]. by split_and!. }
  destruct (index_of ":" k) eqn:Hi; [done |]. by apply index_of_None in Hi.
Qed.

Definition qualified (e : entry) : Prop := fits e /\ ~ colon_free e.

(** The entries with the theme of the first. *)
Lemma theme_run (k : bstr) n (e : entry) :
  index_of "." (drop 6 k) = Some n -> has_prefix (B "theme:") k = true ->
  has_prefix (take (6 + n + 1) k) e.1 = true ->
  place e.1 = Some (B "theme:" ++ take n (drop 6 k), drop (length (take (6 + n + 1) k)) e.1).
Proof.
  intros Hi Ht He. apply has_prefix_spec in Ht as [t ->]. change (drop 6 (B "theme:" ++ t)) with t in *.
  apply index_of_spec in Hi as (a & b & -> & <- & Ha).
  assert (Hg : take (6 + length a + 1) (B "theme:" ++ a ++ "."%char :: b) = B "theme:" ++ a ++ ["."%char]).
  { change (6 + length a + 1)%nat with (6 + (length a + 1))%nat. change 6%nat with (length (B "theme:")) at 1.
    rewrite take_app_add. f_equal. rewrite take_app_add. done. }
  rewrite Hg in *. apply has_prefix_spec in He as [u Hu]. rewrite Hu, drop_app_length, take_app_length.
  unfold place. rewrite (proj2 (has_prefix_spec (B "theme:") _)) by (exists (a ++ "."%char :: u); by rewrite <- !app_assoc).
  change (drop 6 ((B "theme:" ++ a ++ ["."%char]) ++ u)) with ((a ++ ["."%char]) ++ u). rewrite <- (app_assoc a). cbn [app].
  by rewrite index_of_app, take_app_length, drop_past.
Qed.

Lemma section_groups_spec fuel l :
  (length l <= fuel)%nat -> Forall qualified l ->
  exists ls, section_groups fuel l = render ls /\ forallb out_ok ls = true /\ forall sec, interp sec ls = map pair_of l.
Proof.
  revert l. induction fuel as [| fuel IH]; intros l Hl Hq.
  { exists []. by destruct l; [| cbn in Hl; lia]. }
  destruct Hq as [| e l [He Hcol] Hq]; [by exists [] |]. cbn [length] in Hl.
  pose proof He as He2. apply entry_fits_place in He2 as (sec & key & Hp & _).
  assert (Hin : ":"%char ∈ e.1) by by apply not_colon_free.
  assert (Hall : Forall qualified (e :: l)) by by constructor. cbn [section_groups].
  assert (Hrun : forall name f la rest out, e :: l = la ++ rest -> la <> [] -> Forall (fun e => qualified e -> place e.1 = Some (name, f e)) la ->
    out = render (map (fun e => oset (f e) e) la) ->
    exists ls, section_header name ++ out ++ section_groups fuel rest = render ls /\ forallb out_ok ls = true /\
      forall sec, interp sec ls = map pair_of (e :: l)).
  { intros name f la rest out Heq Hne Hla ->. rewrite Heq in Hall |- *. apply Forall_app in Hall as [Hqa Hqr].
    destruct (IH rest) as (ls & Hls & Hok & Hint); [| done |].
    { apply (f_equal length) in Heq. rewrite length_app in Heq. cbn in Heq. destruct la; [done |]. cbn in Heq. lia. }
    assert (Hla' : Forall (fun e => fits e /\ place e.1 = Some (name, f e)) la).
    { rewrite Forall_forall in Hla, Hqa |- *. intros x Hx. split; [by apply Hqa | by apply Hla; [| apply Hqa]]. }
    exists (OBlank :: OHead name :: map (fun e => oset (f e) e) la ++ ls). split; [| split].
    - rewrite !render_cons, render_app, Hls. change (render_line OBlank) with [LF].
      change (render_line (OHead name)) with ((B "[" ++ name ++ B "]") ++ [LF]).
      change (section_header name) with ([LF] ++ B "[" ++ name ++ B "]" ++ [LF]). by rewrite <- !app_assoc.
    - by apply (run_interp name f la ls []).
    - intros sec0. destruct (run_interp name f la ls sec0 Hla' Hne Hok) as [_ ->]. by rewrite Hint, map_app. }
  destruct (place_qualified _ _ _ Hp Hin) as [(n & Hn & Ht & -> & Hi) | Hother].
  - rewrite Hi, Ht, Hn. destruct (theme_entries_spec (take (6 + n + 1) e.1) (e :: l)) as (la & rest & Heq & Hla & -> & Hne).
    eapply Hrun; [done | | | done].
    + apply Hne. apply has_prefix_spec. exists (drop (6 + n + 1) e.1). by rewrite take_drop.
    + eapply Forall_impl; [exact Hla |]. intros x Hx _. by apply theme_run.
  - assert (exists n sec', index_of ":" e.1 = Some n /\ has_prefix (B "theme:") e.1 = false /\
      (if streq (take n e.1) (B "pipeline") then B "pipelines" else take n e.1) = sec' /\
      forall x, qualified x -> index_of ":" x.1 = Some n -> place x.1 = Some (sec', drop (S n) x.1)) as (n & sec' & Hi & Ht & Hsec & Hx).
    { destruct Hother as [(Ht & -> & Hi & Htake & _) | (Ht & -> & Hi & Htake & _)];
        [exists 4%nat, (B "site") | exists 15%nat, (B "callsign-lookup")]; rewrite Htake; split_and!; try done;
        intros x [Hfx Hcx] Hix; apply entry_fits_place in Hfx as (sx & kx & Hpx & _);
        (destruct (place_qualified _ _ _ Hpx) as [(m & _ & _ & _ & Hi') | [(_ & -> & Hi' & _ & ->) | (_ & -> & Hi' & _ & ->)]];
         [by apply not_colon_free | congruence.. |]); try congruence; by rewrite Hpx. }
    rewrite Hi, Ht, Hsec. destruct (section_entries_spec n (e :: l)) as (la & rest & Heq & Hla & -> & Hne).
    eapply Hrun; [done | by apply Hne | | done].
    eapply Forall_impl; [exact Hla |]. intros x Hix Hqx. by apply Hx.
Qed.
