(* ===== verification/ConfigServers.v ===== *)
(** * The server sections of a saved file

    [cfg_print_servers] finds the server names in the keys and writes one section
    for each: every server setting stands in it at least once, under its own key. *)

From S2P Require Import Prelude CString Dict DictTheory ConfigText Config ConfigRef ConfigTheory ConfigSave ConfigRound ConfigLayout ConfigSaveTheory.

#[local] Open Scope Z_scope.
#[local] Opaque BUFSZ.

(** ** Names *)

(** Dots stand between other characters. *)
Fixpoint dots_ok (t : bstr) : bool :=
  match t with
  | [] => true
  | c :: t' => (negb (ceq c ".") || (nonempty t' && negb (starts_with t' "."%char))) && dots_ok t'
  end.

(** What a server setting needs to survive: [t] is its key after [server:]. *)
Definition server_fits (t v : bstr) : bool :=
  nonempty t && negb (starts_with t "."%char) && forallb key_char t && dots_ok t && val_ok v &&
  match index_of "." t with Some _ => true | None => false end && (Z.of_nat (length t + length v) <=? 78).

Lemma has_suffix_spec suffix s : has_suffix suffix s = true -> drop (length s - length suffix) s = suffix /\ (length suffix < length s)%nat.
Proof. unfold has_suffix. intros Hs. apply andb_prop in Hs as [Hl Hs]. apply streq_true in Hs. split; [done |]. by apply Nat.ltb_lt. Qed.

Lemma find_str_spec t s n : find_str t s = Some n -> has_prefix t (drop n s) = true.
Proof.
  revert n. induction s as [| c s IH]; intros n; cbn [find_str]; destruct (has_prefix t _) eqn:Hp.
  1,3: by intros [= <-]. 1: done.
  intros Hn. apply fmap_Some in Hn as (m & Hm & ->). by apply IH.
Qed.

(** A server name ends at a dot. *)
Lemma server_name_dot t n : server_name_len t = Some n -> exists b, t = take n t ++ "."%char :: b /\ (n < length t)%nat.
Proof.
  assert (Hdrop : forall u, drop n t = "."%char :: u -> exists b, t = take n t ++ "."%char :: b /\ (n < length t)%nat).
  { intros u Hu. exists u. split; [by rewrite <- Hu, take_drop |]. apply (f_equal length) in Hu.
    rewrite length_drop in Hu. cbn in Hu. lia. }
  unfold server_name_len. destruct (find_str (B ".server.") t) as [m |] eqn:Hf.
  { intros [= <-]. apply find_str_spec, has_prefix_spec in Hf as [u Hu]. by apply (Hdrop (B "server." ++ u)). }
  destruct (has_suffix (B ".autojoin.rig") t) eqn:Ha.
  { intros [= <-]. apply has_suffix_spec in Ha as [Ha _]. by apply (Hdrop (B "autojoin.rig")). }
  destruct (has_suffix (B ".autojoin") t) eqn:Ha2.
  { intros [= <-]. apply has_suffix_spec in Ha2 as [Ha2 _]. by apply (Hdrop (B "autojoin")). }
  intros Hi. apply index_of_spec in Hi as (a & b & -> & <- & _).
  exists b. split; [by rewrite take_app_length | rewrite length_app; cbn; lia].
Qed.

Lemma dots_tail a b : dots_ok (a ++ "."%char :: b) = true -> nonempty b = true /\ starts_with b "."%char = false.
Proof.
  induction a as [| c a IH]; cbn [app dots_ok]; intros Hd; apply andb_prop in Hd as [Hc Hd]; [| by apply IH].
  change (ceq "."%char "."%char) with true in Hc. cbn [negb orb] in Hc. apply andb_prop in Hc as [Hn Hs]. by apply negb_true_iff in Hs.
Qed.

Lemma folds_short fuel key text : (length text <= wrap_capacity key)%nat -> folds_ok fuel key text = true.
Proof.
  intros Hl. destruct fuel; [done |]. cbn [folds_ok]. unfold wrap_chunk.
  rewrite (proj2 (Nat.ltb_ge (wrap_capacity key) (length text))) by done. by rewrite Nat.ltb_irrefl.
Qed.

(** Any tail of a server key makes a good line. *)
Lemma server_tail_ok a b v : server_fits (a ++ "."%char :: b) v = true -> out_ok (OSet b v) = true.
Proof.
  unfold server_fits. intros Hf. apply andb_prop in Hf as [Hf Hlen]. apply andb_prop in Hf as [Hf _].
  apply andb_prop in Hf as [Hf Hv]. apply andb_prop in Hf as [Hf Hd]. apply andb_prop in Hf as [_ Hk].
  apply Z.leb_le in Hlen. rewrite length_app in Hlen. cbn in Hlen.
  apply dots_tail in Hd as [Hne Hs]. rewrite forallb_app in Hk. apply andb_prop in Hk as [_ Hk]. cbn [forallb] in Hk.
  apply andb_prop in Hk as [_ Hk]. cbn [out_ok]. unfold key_ok, wrap_safe. rewrite Hne, Hs, Hk, Hv.
  rewrite (proj2 (Z.leb_le _ 255)), folds_short by (try lia; unfold wrap_capacity, wrap_indent, max_columns; rewrite (proj2 (Nat.ltb_lt _ 80)); lia); done.
Qed.

Lemma server_head_ok a b v : server_fits (a ++ "."%char :: b) v = true -> head_ok (B "server:" ++ a) = true.
Proof.
  unfold server_fits. intros Hf. apply andb_prop in Hf as [Hf Hlen]. apply andb_prop in Hf as [Hf _].
  apply andb_prop in Hf as [Hf _]. apply andb_prop in Hf as [Hf _]. apply andb_prop in Hf as [_ Hk].
  apply Z.leb_le in Hlen. rewrite length_app in Hlen. cbn in Hlen. rewrite forallb_app in Hk. apply andb_prop in Hk as [Hk _].
  unfold head_ok. rewrite length_app. change (nonempty (B "server:" ++ a)) with true.
  change (forallb head_char (B "server:" ++ a)) with (forallb head_char a). change (length (B "server:")) with 7%nat.
  replace (forallb head_char a) with true; [apply Z.leb_le; lia |]. symmetry. apply forallb_forall.
  rewrite forallb_forall in Hk. intros c Hc. unfold head_char. by rewrite Hk.
Qed.

(** ** One server *)

Definition server_lines (name : bstr) (es : list (bstr * value)) : list out_line :=
  flat_map (fun kv => if has_prefix (B "server:" ++ name ++ B ".") kv.1
                      then [OSet (drop (8 + length name) kv.1) (default [] (str_of kv.2))] else []) es.

Lemma server_line_spec name k v out :
  server_line name k v out = Some (true, out ++ render (server_lines name [(k, v)])).
Proof.
  unfold server_line, server_lines. cbn [flat_map fst snd app]. destruct (has_prefix (B "server:") k) eqn:Hs.
  - apply has_prefix_spec in Hs as [t ->]. change (drop 7 (B "server:" ++ t)) with t.
    replace (has_prefix (B "server:" ++ name ++ B ".") (B "server:" ++ t)) with
      (has_prefix name t && starts_with (drop (length name) t) "."%char).
    + destruct (has_prefix name t) eqn:Hn; cbn [andb]; [| by rewrite app_nil_r].
      apply has_prefix_spec in Hn as [u ->]. rewrite drop_app_length.
      destruct (starts_with u "."%char) eqn:Hu; [| by rewrite app_nil_r].
      change (drop (8 + length name) (B "server:" ++ name ++ u)) with (drop (S (length name)) (name ++ u)).
      cbn [app]. rewrite render_cons. change (render []) with (@nil ascii). by rewrite app_nil_r.
    + apply eq_true_iff_eq. rewrite andb_true_iff, !has_prefix_spec. split.
      * intros [[u ->] Hu]. rewrite drop_app_length in Hu. destruct u as [| c u]; [done |]. rewrite starts_with_cons in Hu.
        apply bool_decide_eq_true in Hu as ->. exists u. by rewrite <- !app_assoc.
      * intros [u Hu]. rewrite <- !app_assoc in Hu. apply app_inv_head in Hu as ->. split; [eauto |].
        by rewrite drop_app_length.
  - replace (has_prefix (B "server:" ++ name ++ B ".") k) with false; [by rewrite app_nil_r |].
    symmetry. apply not_true_iff_false. intros Hp. apply not_true_iff_false in Hs. apply Hs.
    apply has_prefix_spec in Hp as [u ->]. apply has_prefix_spec. exists ((name ++ B ".") ++ u). by rewrite <- app_assoc.
Qed.

Lemma server_lines_app name es es' : server_lines name (es ++ es') = server_lines name es ++ server_lines name es'.
Proof. unfold server_lines. apply flat_map_app. Qed.

Lemma server_lines_fold name es out :
  fold_body es (server_line name) out = Some (true, out ++ render (server_lines name es)).
Proof.
  revert out. induction es as [| [k v] es IH]; intros out; [cbn; by rewrite app_nil_r |].
  cbn [fold_body]. rewrite server_line_spec. cbn [mbind option_bind]. rewrite IH.
  change ((k, v) :: es) with ([(k, v)] ++ es). by rewrite server_lines_app, render_app, app_assoc.
Qed.

(** ** All servers *)

Section servers.
Variable d : dict.
Hypothesis Hwf : dict_wf d.
Abbreviation es := (dict_entries d).
Hypothesis Hfit : forall k v, (k, v) ∈ es -> has_prefix (B "server:") k = true -> server_fits (drop 7 k) (default [] (str_of v)) = true.

Definition server_block (name : bstr) : list out_line := OHead (B "server:" ++ name) :: server_lines name es ++ [OBlank].

Definition server_blocks (names : list bstr) : list out_line := flat_map server_block names.

(** A name some key has. *)
Definition named (name : bstr) : Prop :=
  exists t v, (B "server:" ++ t, v) ∈ es /\ server_name_len t = Some (length name) /\ name = take (length name) t.

(** [seen] holds exactly the names written. *)
Definition seen_names (seen : dict) (names : list bstr) : Prop :=
  forall nm, dict_map seen !! nm = if decide (nm ∈ names) then Some (VStr (Some (B "1"))) else None.

Lemma server_fits_name t v :
  server_fits t v = true -> exists n b, server_name_len t = Some n /\ t = take n t ++ "."%char :: b /\ (n < length t <= 78)%nat.
Proof.
  intros Hf. assert (Hn : exists n, server_name_len t = Some n).
  { unfold server_name_len. destruct (find_str _ t); [eauto |]. do 2 (case_match; [eauto |]).
    unfold server_fits in Hf. destruct (index_of "." t); [eauto |]. by rewrite andb_false_r in Hf. }
  destruct Hn as [n Hn]. destruct (server_name_dot t n Hn) as (b & Ht & Hl). exists n, b. split_and!; [done | done | done |].
  unfold server_fits in Hf. apply andb_prop in Hf as [_ Hf]. apply Z.leb_le in Hf. lia.
Qed.

Lemma server_step n seen names k v :
  store_ready n seen -> 1 <= n -> seen_names seen names -> (k, v) ∈ es -> Forall named names ->
  exists seen' names',
    server_body d k v (seen, [], render (server_blocks names)) = Some (true, (seen', [], render (server_blocks names'))) /\
    store_ready (n - 1) seen' /\ seen_names seen' names' /\ names ⊆ names' /\ Forall named names' /\
    (length names' <= S (length names))%nat /\
    forall t, k = B "server:" ++ t -> exists nm, nm ∈ names' /\ server_name_len t = Some (length nm) /\ nm = take (length nm) t.
Proof.
  intros Hsr Hn Hseen Hin Hnamed. unfold server_body.
  destruct (has_prefix (B "server:") k) eqn:Hp; cbn [negb].
  2:{ exists seen, names. split_and!; try done; [eapply store_ready_mono; [| done]; lia | lia |].
      intros t ->. apply not_true_iff_false in Hp. destruct Hp. apply has_prefix_spec. eauto. }
  pose proof (Hfit k v Hin Hp) as Hf. apply has_prefix_spec in Hp as [t ->].
  change (drop 7 (B "server:" ++ t)) with t in *.
  destruct (server_fits_name t _ Hf) as (m & b & Hm & Ht & Hl). rewrite Hm.
  rewrite (proj2 (Z.leb_gt _ _)) by lia. set (nm := take m t) in *.
  assert (Hnm : length nm = m) by (unfold nm; rewrite length_take; lia).
  assert (Hthis : named nm) by (exists t, v; rewrite Hnm; done).
  destruct Hsr as [Hw1 Hw2 Hw3 Hw4 Hw5]. rewrite (dict_get_map seen Hw1 Hw3), Hseen. cbn [mbind option_bind].
  destruct (decide (nm ∈ names)) as [Hold | Hnew].
  - exists seen, names. split_and!; try done; [split; try done; lia | lia |].
    intros t' Ht'. apply app_inv_head in Ht' as <-. exists nm. by rewrite Hnm.
  - destruct (dict_store_ready n [] seen nm (VStr (Some (B "1")))) as (rc & s' & o' & Hs & Hres & Ho); [by split | done |].
    destruct (Ho eq_refl) as [-> ->]. destruct Hres as [(_ & Hsr' & Hm') | [? _]]; [| done].
    unfold dict_add. rewrite Hs. cbn [mbind option_bind].
    rewrite enum_all_spec, server_lines_fold by done. cbn [mbind option_bind].
    exists s', (names ++ [nm]). split_and!.
    + do 3 f_equal. unfold server_blocks. rewrite flat_map_app, render_app. f_equal. cbn [flat_map]. rewrite app_nil_r.
      unfold server_block. rewrite render_cons, render_app. unfold header. cbn [render_line app].
      change (B "[server:") with (B "[" ++ B "server:"). unfold header. by rewrite <- !app_assoc.
    + done.
    + intros x. rewrite Hm'. destruct (decide (x = nm)) as [-> | Hx].
      * rewrite lookup_insert_eq, decide_True; [done |]. apply elem_of_app. right. by apply list_elem_of_singleton.
      * rewrite lookup_insert_ne, Hseen by done. apply decide_ext. rewrite elem_of_app, list_elem_of_singleton. naive_solver.
    + intros x Hx. apply elem_of_app. by left.
    + apply Forall_app. by repeat constructor.
    + rewrite length_app. cbn. lia.
    + intros t' Ht'. apply app_inv_head in Ht' as <-. exists nm. rewrite Hnm. split_and!; [| done | done].
      apply elem_of_app. right. by apply list_elem_of_singleton.
Qed.

Lemma servers_fold l n seen names :
  store_ready n seen -> Z.of_nat (length l) <= n -> seen_names seen names -> l ⊆ es -> Forall named names ->
  exists seen' names',
    fold_body l (server_body d) (seen, [], render (server_blocks names)) = Some (true, (seen', [], render (server_blocks names'))) /\
    names ⊆ names' /\ Forall named names' /\ (length names' <= length l + length names)%nat /\
    forall t v, (B "server:" ++ t, v) ∈ l -> exists nm, nm ∈ names' /\ server_name_len t = Some (length nm) /\ nm = take (length nm) t.
Proof.
  revert n seen names. induction l as [| [k v] l IH]; intros n seen names Hsr Hn Hseen Hl Hnamed.
  { exists seen, names. split_and!; [done | done | done | lia |]. intros t v Hin. by apply not_elem_of_nil in Hin. }
  cbn [length] in Hn. cbn [fold_body].
  destruct (server_step n seen names k v Hsr ltac:(lia) Hseen) as (s1 & n1 & -> & Hsr1 & Hseen1 & Hsub1 & Hnamed1 & Hlen1 & Hk);
    [apply Hl; by left | done |]. cbn [mbind option_bind].
  destruct (IH (n - 1) s1 n1) as (s2 & n2 & -> & Hsub2 & Hnamed2 & Hlen2 & Hcov); [done | lia | done | | done |].
  { intros x Hx. apply Hl. by right. }
  exists s2, n2. split_and!; [done | by etransitivity | done | cbn [length]; lia |].
  intros t w Hin. apply elem_of_cons in Hin as [[= <- <-] | Hin]; [| by apply (Hcov t w)].
  destruct (Hk t eq_refl) as (nm & Hnm & Hrest). exists nm. split; [by apply Hsub2 | done].
Qed.

(** The printed servers: every server setting has a block. *)
Lemma print_servers_spec :
  used d < 2 ^ 28 ->
  exists names, cfg_print_servers [] (Some d) = Some (render (server_blocks names), []) /\ Forall named names /\
    (length names <= length es)%nat /\
    forall t v, (B "server:" ++ t, v) ∈ es -> exists nm b, nm ∈ names /\ t = nm ++ "."%char :: b.
Proof.
  intros Hu. unfold cfg_print_servers. change (dict_new []) with (Some empty_dict, [] : allocs). cbv beta iota.
  rewrite enum_all_spec by done. pose proof (entries_length d Hwf) as Hlen.
  destruct (servers_fold es (used d) empty_dict []) as (seen & names & Hf & _ & Hnamed & Hnl & Hcov).
  { by apply empty_ready. } { lia. } { intros nm. by rewrite empty_map, lookup_empty, decide_False by apply not_elem_of_nil. }
  { done. } { constructor. }
  change (render (server_blocks [])) with (@nil ascii) in Hf. rewrite Hf. cbn [mbind option_bind].
  exists names. split_and!; [done | done | cbn in Hnl; lia |]. intros t v Hin. destruct (Hcov t v Hin) as (nm & Hnm & Hlenm & Htk).
  destruct (server_name_dot t _ Hlenm) as (b & Ht & _). rewrite <- Htk in Ht. eauto.
Qed.

(** A setting a block writes. *)
Definition server_pair (nm : bstr) (p : bstr * bstr) : Prop :=
  exists b v, p = (B "server:" ++ nm ++ "."%char :: b, default [] (str_of v)) /\ (B "server:" ++ nm ++ "."%char :: b, v) ∈ es.

Lemma server_lines_interp nm ls :
  Forall (fun kv => has_prefix (B "server:") kv.1 = true -> server_fits (drop 7 kv.1) (default [] (str_of kv.2)) = true) ls ->
  forallb out_ok (server_lines nm ls) = true /\
  forall rest, exists ps, interp (B "server:" ++ nm) (server_lines nm ls ++ rest) = ps ++ interp (B "server:" ++ nm) rest /\
    (length ps <= length ls)%nat /\
    forall p, p ∈ ps <-> exists b v, p = (B "server:" ++ nm ++ "."%char :: b, default [] (str_of v)) /\ (B "server:" ++ nm ++ "."%char :: b, v) ∈ ls.
Proof.
  induction 1 as [| [k v] ls Hkv _ [IH1 IH2]].
  { split; [done |]. intros rest. exists []. split_and!; [done | done |]. intros p. rewrite elem_of_nil.
    split; [done |]. intros (b & v & _ & Hin). by apply not_elem_of_nil in Hin. }
  unfold server_lines. cbn [flat_map fst snd]. fold (server_lines nm ls).
  destruct (has_prefix (B "server:" ++ nm ++ B ".") k) eqn:Hp.
  - apply has_prefix_spec in Hp as [b Hk]. rewrite <- !app_assoc in Hk. change (B "." ++ b) with ("."%char :: b) in Hk.
    subst k. cbn [fst snd] in Hkv.
    assert (Hfit' : server_fits (nm ++ "."%char :: b) (default [] (str_of v)) = true).
    { apply Hkv. apply has_prefix_spec. eauto. }
    pose proof (server_tail_ok _ _ _ Hfit') as Hok.
    assert (Hdrop : drop (8 + length nm) (B "server:" ++ nm ++ "."%char :: b) = b).
    { change (drop (8 + length nm) (B "server:" ++ nm ++ "."%char :: b)) with (drop (S (length nm)) (nm ++ "."%char :: b)). apply drop_past. }
    assert (Hkey : section_key (B "server:" ++ nm) b = Some (B "server:" ++ nm ++ "."%char :: b)).
    { destruct (section_key_server nm) as (H1 & H2 & H3 & H4). unfold section_key. rewrite H1, H2, H3, H4. cbn [negb orb].
      change (drop 7 (B "server:" ++ nm)) with nm. f_equal.
      change (concat _) with (B "server:" ++ nm ++ "."%char :: b ++ []). rewrite app_nil_r. apply take_ge.
      unfold server_fits in Hfit'. apply andb_prop in Hfit' as [_ Hl]. apply Z.leb_le in Hl.
      change (length (B "server:" ++ nm ++ "."%char :: b)) with (7 + length (nm ++ "."%char :: b))%nat. lia. }
    rewrite Hdrop. cbn [app forallb]. rewrite Hok, IH1. split; [done |]. intros rest. cbn [interp]. rewrite Hkey.
    destruct (IH2 rest) as (ps & -> & Hlps & Hps). eexists (_ :: ps). split_and!; [done | cbn; lia |]. intros p. rewrite elem_of_cons, Hps. split.
    + intros [-> | (b' & v' & -> & Hin)]; [exists b, v | exists b', v']; (split; [done |]); [by left | by right].
    + intros (b' & v' & -> & Hin). apply elem_of_cons in Hin as [Heq | Hin]; [left | right; eauto].
      apply pair_equal_spec in Heq as [Heq ->]. by rewrite Heq.
  - cbn [app]. split; [done |]. intros rest. destruct (IH2 rest) as (ps & -> & Hlps & Hps). exists ps. split_and!; [done | cbn; lia |].
    intros p. rewrite Hps. split; intros (b & w & -> & Hin); exists b, w; (split; [done |]); [by right |].
    apply elem_of_cons in Hin as [Heq | Hin]; [| done]. apply pair_equal_spec in Heq as [Heq _].
    apply not_true_iff_false in Hp. destruct Hp. apply has_prefix_spec. exists b. rewrite <- Heq. by rewrite <- !app_assoc.
Qed.

(** The settings of all blocks. *)
Lemma server_blocks_interp names sec :
  Forall named names ->
  forallb out_ok (server_blocks names) = true /\
  (length (interp sec (server_blocks names)) <= length names * length es)%nat /\
  forall p, p ∈ interp sec (server_blocks names) <-> exists nm, nm ∈ names /\ server_pair nm p.
Proof.
  intros Hn. revert sec. induction Hn as [| nm names Hnm _ IH]; intros sec.
  { split_and!; [done | cbn; lia |]. intros p. cbn. rewrite elem_of_nil. split; [done |]. intros (nm & Hin & _). by apply not_elem_of_nil in Hin. }
  assert (Hes : Forall (fun kv => has_prefix (B "server:") kv.1 = true -> server_fits (drop 7 kv.1) (default [] (str_of kv.2)) = true) es).
  { apply Forall_forall. intros [k v] Hin. by apply Hfit. }
  destruct (server_lines_interp nm es Hes) as [Hok Hint].
  assert (Hhead : head_ok (B "server:" ++ nm) = true).
  { destruct Hnm as (t & v & Hin & Hl & Htk). destruct (server_name_dot t _ Hl) as (b & Ht & _). rewrite <- Htk in Ht.
    rewrite Ht in Hin. apply (server_head_ok nm b (default [] (str_of v))). apply (Hfit _ _ Hin), has_prefix_spec. eauto. }
  change (server_blocks (nm :: names)) with (OHead (B "server:" ++ nm) :: (server_lines nm es ++ [OBlank]) ++ server_blocks names).
  rewrite <- app_assoc. cbn [app]. destruct (IH (B "server:" ++ nm)) as (IHok & IHlen & IHint).
  split_and!.
  - cbn [forallb]. change (out_ok (OHead (B "server:" ++ nm))) with (head_ok (B "server:" ++ nm)).
    by rewrite Hhead, forallb_app, Hok; cbn [forallb]; rewrite IHok.
  - cbn [interp]. destruct (Hint (OBlank :: server_blocks names)) as (ps & -> & Hlps & _). cbn [interp].
    rewrite length_app. cbn [length]. lia.
  - intros p. cbn [interp]. destruct (Hint (OBlank :: server_blocks names)) as (ps & -> & _ & Hps). cbn [interp].
    rewrite elem_of_app, Hps, IHint. split.
    + intros [Hp | (nm' & Hin & Hp)]; [exists nm; split; [by left | done] | exists nm'; split; [by right | done]].
    + intros (nm' & Hin & Hp). apply elem_of_cons in Hin as [-> | Hin]; [by left | right; eauto].
Qed.

End servers.
