(* ===== verification/ConfigSections.v ===== *)
(** * Section callbacks of the library (cfg.modules.c, cfg.serial.c)

    [[modules]] names modules and their options, [[serial]] and [[serial:name]]
    describe serial ports; both store into the dictionary being loaded. *)

From S2P Require Import Prelude CString Dict DictTheory ConfigText Config ConfigRef ConfigTheory ConfigSave.

#[local] Open Scope Z_scope.

Definition trim (s : bstr) : bstr := rtrim isspace (skip_space s).

(** ** Modules *)

(** The name without [.so]. *)
Definition module_name (key : bstr) : bstr := if has_suffix (B ".so") key then take (length key - 3) key else key.

Definition cfg_modules_section_cb (section buf : bstr) (d : dict) (o : allocs) : option (bool * dict * allocs) :=
  if negb (streq section (B "modules")) then Some (false, d, o)
  else
    let '(ok, o) := alloc o in
    if negb ok then Some (false, d, o)
    else
      match split_at buf "="%char with
      | None => Some (false, d, o)
      | Some (key, value) =>
          let key := trim key in
          if negb (nonempty key) then Some (false, d, o)
          else if (128 <=? Z.of_nat (length key)) then Some (false, d, o)
          else
            let fullkey := B "module:" ++ module_name key ++ B ".options" in
            if (160 <=? Z.of_nat (length fullkey)) then Some (false, d, o)
            else
              '(rc, d, o) ← dict_add o d (Some fullkey) (Some (trim value));
              Some (rc =? 0, d, o)
      end.

(** The loop over the entries: modules seen and the one found. *)
Definition modules_body (index : Z) (k : bstr) (v : value) (s : Z * option (bstr * bstr)) : option (bool * (Z * option (bstr * bstr))) :=
  let '(seen, _) := s in
  if negb (has_prefix (B "module:") k) then Some (true, s)
  else if seen <? index then Some (true, (seen + 1, None))
  else
    let name := drop 7 k in
    let len := match find_str (B ".options") name with Some n => n | None => length name end in
    let name := take (if 128 <=? Z.of_nat len then 127%nat else len) name in
    Some (false, (seen + 1, Some (name, default [] (str_of v)))).

(** Name and options of the module at an index. *)
Definition cfg_modules_get (d : option dict) (index : Z) : option (option (bstr * bstr)) :=
  match d with
  | None => Some None
  | Some d => '(_, (_, r)) ← enum_all d (modules_body index) (0, None); Some r
  end.

Definition cfg_modules_options (d : option dict) (name : option bstr) : option (option bstr) :=
  match name with
  | None | Some [] => Some None
  | Some name =>
      val ← dict_get d (Some (take 159 (B "module:" ++ name ++ B ".options"))) None;
      Some (Some (default [] val))
  end.

(** ** Serial ports *)

Definition serial_config (section buf : bstr) (d : dict) (o : allocs) : option (bool * dict * allocs) :=
  let '(ok, o) := alloc o in
  if negb ok then Some (true, d, o)
  else
    match split_at buf "="%char with
    | None => Some (false, d, o)
    | Some (key, value) =>
        let key := trim key in
        let full := section ++ B "." ++ key in
        let full := if streq section (B "serial") && match index_of "." key with Some _ => true | None => false end
                    then <[6%nat := ":"%char]> full else full in
        if nonempty key && (Z.of_nat (length full) <? 256) then
          '(rc, d, o) ← dict_add o d (Some full) (Some (trim value));
          Some (rc =? 0, d, o)
        else Some (false, d, o)
    end.

(** ** Lemmas *)

Lemma module_name_short key : (length (module_name key) <= length key)%nat.
Proof. unfold module_name. case_match; [rewrite length_take |]; lia. Qed.

(** A line [name=options] is accepted and read back under the name without
    [.so], whatever white space surrounds its parts. *)
Lemma cfg_modules_read_back d buf key value name :
  store_ready 1 d -> split_at buf "="%char = Some (key, value) -> module_name (trim key) = name -> name <> [] ->
  Z.of_nat (length (trim key)) < 128 ->
  exists d', cfg_modules_section_cb (B "modules") buf d [] = Some (true, d', []) /\
    dict_map d' = <[B "module:" ++ name ++ B ".options" := VStr (Some (trim value))]> (dict_map d) /\
    (has_null (table d') -> cfg_modules_options (Some d') (Some name) = Some (Some (trim value))).
Proof.
  intros Hsr Hs Hname Hne Hl. unfold cfg_modules_section_cb. rewrite streq_refl. cbn [negb alloc]. rewrite Hs.
  pose proof (module_name_short (trim key)) as Hshort. rewrite Hname in Hshort.
  replace (nonempty (trim key)) with true by (destruct (trim key); [by cbn in Hname; subst name | done]). cbn [negb].
  rewrite (proj2 (Z.leb_gt 128 _)) by lia. rewrite Hname.
  assert (Hlen : (length (B "module:" ++ name ++ B ".options") <= 142)%nat).
  { rewrite !length_app. change (length (B "module:")) with 7%nat. change (length (B ".options")) with 8%nat. lia. }
  rewrite (proj2 (Z.leb_gt 160 _)) by lia. unfold dict_add.
  destruct (dict_store_ready 1 [] d (B "module:" ++ name ++ B ".options") (VStr (Some (trim value))) Hsr ltac:(lia))
    as (rc & d' & o & -> & Hres & Ho). destruct (Ho eq_refl) as [-> ->]. destruct Hres as [(_ & [Hwf _ _ _ _] & Hm) | [? _]]; [| done].
  exists d'. split_and!; [done | done |]. intros Hnull. unfold cfg_modules_options. destruct name as [| c name]; [done |].
  rewrite take_ge by lia. rewrite (dict_get_map d' Hwf Hnull), Hm, lookup_insert_eq. done.
Qed.

(** ** What the callbacks add *)

(** The setting of a line, if it is accepted. *)
Definition modules_adds (section buf : bstr) : bool * settings :=
  match (if streq section (B "modules") then split_at buf "="%char else None) with
  | None => (false, [])
  | Some (key, value) =>
      let full := B "module:" ++ module_name (trim key) ++ B ".options" in
      if nonempty (trim key) && (Z.of_nat (length (trim key)) <? 128) && (Z.of_nat (length full) <? 160) then (true, [(full, trim value)]) else (false, [])
  end.

Definition serial_adds (section buf : bstr) : bool * settings :=
  match split_at buf "="%char with
  | None => (false, [])
  | Some (key, value) =>
      let full := section ++ B "." ++ trim key in
      let full := if streq section (B "serial") && match index_of "." (trim key) with Some _ => true | None => false end
                  then <[6%nat := ":"%char]> full else full in
      if nonempty (trim key) && (Z.of_nat (length full) <? 256) then (true, [(full, trim value)]) else (false, [])
  end.

(** What a callback does to the dictionary, with memory available. *)
Definition adds_setting (n : Z) (d : dict) (r : option (bool * dict * allocs)) (a : bool * settings) : Prop :=
  exists d', r = Some (a.1, d', []) /\ store_ready (n - Z.of_nat (length a.2)) d' /\ dict_map d' = apply_settings (dict_map d) a.2.

Lemma adds_none n d ok : store_ready n d -> adds_setting n d (Some (ok, d, [])) (ok, []).
Proof. intros Hr. exists d. split_and!; [done | | done]. cbn. by rewrite Z.sub_0_r. Qed.

Lemma adds_one n d k v : store_ready n d -> 1 <= n ->
  adds_setting n d ('(rc, d, o) ← dict_add [] d (Some k) (Some v); Some (rc =? 0, d, o)) (true, [(k, v)]).
Proof.
  intros Hr Hn. unfold dict_add. destruct (dict_store_ready n [] d k (VStr (Some v)) Hr Hn) as (rc & d' & o & -> & Hres & Ho).
  destruct (Ho eq_refl) as [-> ->]. destruct Hres as [(_ & Hr' & Hm) | [? _]]; [| done]. by exists d'.
Qed.

(** Both callbacks add at most one setting, which depends on the line only. *)
Lemma modules_callback n section buf d : store_ready n d -> Z.of_nat (length (modules_adds section buf).2) <= n ->
  adds_setting n d (cfg_modules_section_cb section buf d []) (modules_adds section buf).
Proof.
  intros Hr. unfold modules_adds, cfg_modules_section_cb. destruct (streq section (B "modules")); cbn [negb alloc]; [| intros _; by apply adds_none].
  destruct (split_at buf "="%char) as [[key value] |]; [| intros _; by apply adds_none].
  destruct (nonempty (trim key)); cbn [negb andb]; [| intros _; by apply adds_none].
  rewrite !Z.leb_antisym. destruct (Z.of_nat (length (trim key)) <? 128); cbn [negb andb]; [| intros _; by apply adds_none].
  destruct (Z.of_nat (length (B "module:" ++ _)) <? 160); cbn [negb]; [| intros _; by apply adds_none].
  intros Hn. by apply adds_one.
Qed.

Lemma serial_callback n section buf d : store_ready n d -> Z.of_nat (length (serial_adds section buf).2) <= n ->
  adds_setting n d (serial_config section buf d []) (serial_adds section buf).
Proof.
  intros Hr. unfold serial_adds, serial_config. cbn [alloc negb].
  destruct (split_at buf "="%char) as [[key value] |]; [| intros _; by apply adds_none].
  destruct (_ && (_ <? 256)); [| intros _; by apply adds_none]. intros Hn. by apply adds_one.
Qed.

(** The callbacks as the loader calls them: the pointers 1 and 2; the state counts
    the calls.  A pattern is a name, or the start of names before a star. *)
#[export] Instance library_handlers : SectionHandlers nat := {|
  fnmatch p s := if ends_with p "*" then has_prefix (chop p) s else streq p s;
  section_cb fn _ _ section buf d calls :=
    match (if fn =? 1 then cfg_modules_section_cb section buf d [] else serial_config section buf d []) with
    | Some (ok, d, _) => (ok, d, S calls)
    | None => (false, d, S calls)
    end |}.

Definition library_cbs : list cfg_cb :=
  [CfgCb (B "modules") None 1; CfgCb (B "serial") None 2; CfgCb (B "serial:*") None 2].

#[export] Instance library_laws : HandlerLaws nat library_cbs.
Proof.
  refine {| adds fn _ section buf := if fn =? 1 then modules_adds section buf else serial_adds section buf |}.
  intros fn path line section buf d calls n _ Hr Hn. cbn [section_cb library_handlers]. destruct (fn =? 1).
  - destruct (modules_callback n section buf d Hr Hn) as (d' & -> & H1 & H2). done.
  - destruct (serial_callback n section buf d Hr Hn) as (d' & -> & H1 & H2). done.
Defined.
