(* ===== verification/ConfigSpec.v ===== *)
(** * Theorems about configuration files *)

From S2P Require Import Prelude CString Dict DictTheory DictSpec ConfigText Config ConfigRef ConfigTheory ConfigSave ConfigRound ConfigLayout ConfigSaveTheory ConfigServers ConfigSections.

#[local] Open Scope Z_scope.

(** ** Loading *)

(** C4: loading a file computes what the file says, with memory available and any
    registered section callbacks that add settings of their own.  [file_says] is the
    reading of a file, by rules: its lines, joined after a backslash, unescaped, without
    comments, are headers, includes and settings; every file has exactly one.  The
    dictionary holds, for every key, the last assignment in reading order, where the
    assignments of an included file stand in the place of its include, at most four
    levels deep, and those of callbacks in the place of their line; a missing file loads
    nothing; a mandatory include that cannot be read ends the process.  In every case
    the loader returns. *)
Theorem cfg_load_reads_file {W : Type} {cbs : list cfg_cb} `{Files} `{HandlerLaws W cbs} (ignore : bool) (path : bstr) (w : W) :
  exists r, (forall r', file_says (handler_settings cbs) 4 path r' <-> r' = r) /\
  (Z.of_nat (length (default [] r.2)) < 2 ^ 28 ->
   match r with
   | (_, None) => cfg_load cbs ignore path [] w = Ret (None, [], w)
   | (true, Some l) => exists d w', cfg_load cbs ignore path [] w = Ret (Some d, [], w') /\ dict_wf d /\
       dict_map d = apply_settings ∅ l
   | (false, Some _) => cfg_load cbs ignore path [] w = Exits
   end).
Proof.
  exists (file_settings (handler_settings cbs) 4 path). split; [intros r'; apply file_says_iff |]. intros Hsize.
  pose proof (file_follows (cbs := cbs) ignore (2 ^ 28 - 1) 4 path w ltac:(lia)) as Hf. unfold cfg_load.
  destruct (file_settings (handler_settings cbs) 4 path) as [ok [l |]]; cbn in Hsize; cbn [loads] in Hf; [| by destruct ok, Hf].
  specialize (Hf ltac:(lia)). destruct ok; [| done]. destruct Hf as (d & w' & -> & _ & [Hwf _ _ _ _] & Hm). eauto.
Qed.

(** A directory of three files: the second is included twice, and includes
    itself until the limit; the third is missing.  The library's callbacks read the
    sections of modules and serial ports. *)
Definition main_conf : bstr :=
  B "; sample" ++ [LF] ++ B "[general]" ++ [LF] ++ B "gain = 1" ++ [LF] ++ B "!include 'more.conf'" ++ [LF] ++
  B "name=one \" ++ [LF] ++ B "   two /* note" ++ [LF] ++ B "gain=9 */" ++ [LF] ++ B "url='http://*' // kept" ++ [LF] ++ B "!include none.conf" ++ [LF] ++
  B "[site]" ++ [LF] ++ B "grid = EM10" ++ [LF] ++ B "[modules]" ++ [LF] ++ B "  rotor.so = az el" ++ [LF] ++
  B "[serial:gps]" ++ [LF] ++ B "port=/dev/ttyS0" ++ [LF] ++ B "[other]" ++ [LF] ++ B "x=1" ++ [LF].
Definition more_conf : bstr :=
  B "[general]" ++ [LF] ++ B "gain=2" ++ [LF] ++ B "!include more.conf" ++ [LF] ++ B "mode=usb" ++ [LF].

Definition sample_files : Files := {|
  file_exists p := streq p (B "/etc/rig/main.conf") || streq p (B "/etc/rig/more.conf");
  fopen_r p := if streq p (B "/etc/rig/main.conf") then Some main_conf
               else if streq p (B "/etc/rig/more.conf") then Some more_conf else None |}.

Definition no_handlers : SectionHandlers unit := {| fnmatch _ _ := false; section_cb _ _ _ _ _ d w := (true, d, w) |}.

Lemma cfg_load_reads_file_witness :
  exists d calls, cfg_load (H := sample_files) library_cbs true (B "/etc/rig/main.conf") [] 0%nat = Ret (Some d, [], calls) /\
    dict_map d !! B "gain" = Some (VStr (Some (B "2"))) /\ dict_map d !! B "name" = Some (VStr (Some (B "one two"))) /\
    dict_map d !! B "url" = Some (VStr (Some (B "'http://*' // kept"))) /\
    dict_map d !! B "site:grid" = Some (VStr (Some (B "EM10"))) /\
    dict_map d !! B "module:rotor.options" = Some (VStr (Some (B "az el"))) /\
    dict_map d !! B "serial:gps.port" = Some (VStr (Some (B "/dev/ttyS0"))).
Proof.
  destruct (@cfg_load_reads_file nat library_cbs sample_files _ _ true (B "/etc/rig/main.conf") 0%nat) as (r & Hr & Hl).
  assert (He : r = @file_settings sample_files (handler_settings library_cbs) 4 (B "/etc/rig/main.conf")) by (apply file_says_iff, Hr; reflexivity).
  clear Hr. vm_compute in He. subst r. destruct Hl as (d & calls & Hd & _ & Hm); [vm_compute; reflexivity |].
  exists d, calls. rewrite Hm. split; [exact Hd |]. split_and!; vm_compute; reflexivity.
Defined.

(** ** Saving and loading *)

(** The values the generic writer and the loader agree on. *)
Definition survives (k : bstr) (v : value) : Prop :=
  match v with
  | VStr (Some s) =>
      (if has_prefix (B "server:") k then server_fits (drop 7 k) s
       else negb (cfg_save_entry_is_skipped [] k) && entry_fits k s) = true
  | _ => False
  end.

#[export] Instance survives_dec k v : Decision (survives k v).
Proof. unfold survives. destruct v; try apply _. destruct s; apply _. Defined.

Lemma survives_str k v : survives k v -> exists s, v = VStr (Some s) /\ default [] (str_of v) = s.
Proof. unfold survives. intros Hs. repeat case_match; try done; eauto. Qed.

Lemma apply_settings_exact m l :
  (forall k v, (k, v) ∈ l -> m !! k = Some (VStr (Some v))) -> (forall k, is_Some (m !! k) -> exists v, (k, v) ∈ l) ->
  apply_settings ∅ l = m.
Proof.
  intros Hin Hcov. apply map_eq. intros k. destruct (m !! k) as [v |] eqn:Hm.
  - assert (Hw : exists w, (k, w) ∈ l) by (apply Hcov; eauto). destruct Hw as [w Hw].
    assert (Hlast : apply_settings ∅ l !! k = Some v); [| done]. clear Hcov. revert Hin Hw.
    induction l as [| [k' v'] l IH] using rev_ind; [intros _ Hw; by apply not_elem_of_nil in Hw |]. intros Hin Hw.
    rewrite apply_settings_app. cbn. destruct (decide (k' = k)) as [-> | Hne].
    + rewrite lookup_insert_eq. rewrite <- Hm. symmetry. apply Hin, elem_of_app. right. by apply list_elem_of_singleton.
    + rewrite lookup_insert_ne by done. apply IH.
      * intros k0 v0 H0. apply Hin, elem_of_app. by left.
      * apply elem_of_app in Hw as [Hw | Hw]; [done |]. apply list_elem_of_singleton in Hw. congruence.
  - clear Hcov. induction l as [| [k' v'] l IH] using rev_ind; [done |]. rewrite apply_settings_app. cbn.
    destruct (decide (k' = k)) as [-> | Hne].
    + assert (Hk : (k, v') ∈ l ++ [(k, v')]) by (apply elem_of_app; right; by apply list_elem_of_singleton).
      apply Hin in Hk. congruence.
    + rewrite lookup_insert_ne by done. apply IH. intros k0 v0 H0. apply Hin, elem_of_app. by left.
Qed.

Lemma interp_app sec a : exists sec', forall b, interp sec (a ++ b) = interp sec a ++ interp sec' b.
Proof.
  revert sec. induction a as [| o a IH]; intros sec; [by exists sec |]. cbn [app interp].
  destruct o as [name | k v |]; [apply IH | | apply IH]. destruct (IH sec) as (sec' & Heq). exists sec'. intros b. rewrite Heq.
  by destruct (section_key sec k).
Qed.

Lemma place_free e : colon_free e -> place e.1 = Some (B "general", e.1).
Proof.
  unfold colon_free, place. intros He.
  assert (Hno : forall p, ":"%char ∈ p -> has_prefix p e.1 = false).
  { intros p Hp. apply not_true_iff_false. intros Hpre. apply has_prefix_spec in Hpre as [t Ht]. apply He. rewrite Ht.
    apply elem_of_app. by left. }
  rewrite !Hno by by apply (bool_decide_unpack _); vm_compute. apply index_of_None in He. by rewrite He.
Qed.

(** The file system as the loader sees it after the save. *)
Class SaveFilesLaws (F : Type) `{SaveFiles F} := {
  f_read : F -> bstr -> option bstr;
  read_written fs fs' p text : f_open_w fs p = Some fs' -> f_read (f_write fs' p text) p = Some text;
  exists_written fs fs' p text : f_open_w fs p = Some fs' -> f_exists (f_write fs' p text) p = true;
  read_other fs fs' p q text : f_open_w fs p = Some fs' -> p <> q -> f_read (f_write fs' p text) q = f_read fs q;
  read_renamed fs fs' p q : f_rename fs p q = (true, fs') -> f_read fs' q = f_read fs p
}.

Definition files_of {F} `{SaveFilesLaws F} (fs : F) : Files := {| file_exists := f_exists fs; fopen_r := f_read fs |}.

Lemma union_size (m1 m2 : gmap bstr value) : (base.size (m1 ∪ m2) <= base.size m1 + base.size m2)%nat.
Proof.
  induction m1 as [| k v m1 Hk IH] using map_ind; [by rewrite (left_id_L ∅ (∪)) |].
  rewrite <- (insert_union_l m1 m2 k v), (map_size_insert_None k v m1) by done.
  destruct ((m1 ∪ m2) !! k) eqn:Hu; [rewrite map_size_insert_Some by (rewrite Hu; eauto) | rewrite map_size_insert_None by done]; lia.
Qed.

(** *** The text of a save *)

Section saving.
Variables (d b : dict).
Hypotheses (Hd : dict_wf d) (Hb : dict_wf b) (Hsmall : used b + used d < 2 ^ 12).
Abbreviation whole := (dict_map d ∪ dict_map b).
Hypothesis Hall : map_Forall survives whole.
Hypothesis Hservers : forall k, has_prefix (B "server:") k = true -> is_Some (dict_map b !! k) -> is_Some (dict_map d !! k).

Lemma used_nonneg (x : dict) : dict_wf x -> 0 <= used x.
Proof. intros Hx. rewrite <- dict_map_size by done. lia. Qed.

Lemma kept_pair (mrg : dict) e :
  dict_wf mrg -> dict_map mrg = whole -> e ∈ kept_entries [] mrg ->
  fits e /\ whole !! e.1 = Some (VStr (Some (default [] e.2))) /\ has_prefix (B "server:") e.1 = false.
Proof.
  intros Hw Hm He. unfold kept_entries in He. apply list_elem_of_fmap in He as ([k v] & -> & Hin).
  apply list_elem_of_filter in Hin as [Hs Hin]. cbn [fst] in Hs.
  assert (Hk : whole !! k = Some v).
  { rewrite <- Hm, <- (entries_map mrg). apply elem_of_list_to_map_1; [by apply entries_nodup | done]. }
  pose proof (Hall k v Hk) as Hv. destruct (survives_str k v Hv) as (s & -> & _). cbn [survives] in Hv. cbn.
  assert (Hnot : has_prefix (B "server:") k = false).
  { unfold cfg_save_entry_is_skipped in Hs. by apply orb_false_elim in Hs as [Hs _]; do 2 (apply orb_false_elim in Hs as [Hs _]). }
  rewrite Hnot, Hs in Hv. by split_and!.
Qed.

Lemma general_interp l1 rest :
  Forall (fun e => fits e /\ colon_free e) l1 ->
  interp (B "general") (map (fun e => oset e.1 e) l1 ++ rest) = map pair_of l1 ++ interp (B "general") rest /\
  forallb out_ok (map (fun e => oset e.1 e) l1) = true.
Proof.
  induction 1 as [| e l1 [He Hc] _ [IH1 IH2]]; [done |]. cbn [map app forallb].
  apply entry_fits_place in He as (sec & key & Hp & _ & Hok & Hl). pose proof (place_free e Hc) as Hp'.
  rewrite Hp in Hp'. apply some_pair in Hp' as [-> ->].
  change (out_ok (oset e.1 e)) with (out_ok (OSet e.1 (default [] e.2))). rewrite Hok, IH2. split; [| done].
  cbn [out_ok] in Hok. apply andb_prop in Hok as [Hok _]. apply andb_prop in Hok as [Hk _].
  cbn [interp oset]. by rewrite (place_section_key e.1 (B "general") e.1), IH1.
Qed.

(** The generic part of the file. *)
Lemma generic_lines (mrg : dict) :
  dict_wf mrg -> dict_map mrg = whole ->
  exists general rest ls, general_entries (sort_entries (kept_entries [] mrg)) = (general, rest) /\
    B "[general]" ++ [LF] ++ general ++ section_groups (length rest) rest = render ls /\ forallb out_ok ls = true /\
    forall sec, exists sec', forall more, exists l, interp sec (ls ++ more) = map pair_of l ++ interp sec' more /\ l ≡ₚ kept_entries [] mrg.
Proof.
  intros Hw Hm. pose proof (sort_entries_perm (kept_entries [] mrg)) as Hperm.
  destruct (sort_grouped (kept_entries [] mrg)) as (l1 & l2 & Heq & H1 & H2). rewrite Heq in *.
  assert (Hfit : Forall fits (l1 ++ l2)).
  { apply Forall_forall. intros e He. rewrite Hperm in He. by apply (kept_pair mrg). }
  apply Forall_app in Hfit as [Hf1 Hf2].
  destruct (section_groups_spec (length l2) l2) as (ls & Hls & Hok & Hint); [done | by apply Forall_and |].
  destruct (general_interp l1 ls ltac:(by apply Forall_and)) as [_ Hgok].
  exists (render (map (fun e => oset e.1 e) l1)), l2, (OHead (B "general") :: map (fun e => oset e.1 e) l1 ++ ls).
  split; [by apply general_entries_spec |]. split_and!.
  - rewrite render_cons, render_app, Hls. change (render_line (OHead (B "general"))) with (B "[general]" ++ [LF]).
    by rewrite <- !app_assoc.
  - cbn [forallb]. by rewrite forallb_app, Hgok, Hok.
  - intros sec. destruct (interp_app (B "general") ls) as (sec' & Happ). exists sec'. intros more. exists (l1 ++ l2).
    split; [| done]. cbn [app interp]. rewrite <- app_assoc.
    destruct (general_interp l1 (ls ++ more) ltac:(by apply Forall_and)) as [-> _].
    by rewrite Happ, Hint, map_app, app_assoc.
Qed.

(** Every entry of the generic part, and every server setting, is an assignment
    of the text; there are no others. *)
Lemma save_text default_cfg (complete : bool) path :
  (if complete then default_cfg else Some d) = Some b ->
  exists ls, save_body [] default_cfg [] (Some d) path complete = Some (Some (render ls), []) /\ forallb out_ok ls = true /\
    apply_settings ∅ (interp [] ls) = whole /\ Z.of_nat (length (interp [] ls)) < 2 ^ 28.
Proof.
  intros Hbase. unfold save_body. rewrite Hbase. pose proof (used_nonneg d Hd). pose proof (used_nonneg b Hb).
  destruct (dict_merge_new_spec [] b d Hb Hd ltac:(lia)) as (r & o & -> & Hr & Ho). destruct (Ho eq_refl) as [[mrg ->] ->].
  destruct Hr as (Hmw & _ & _ & Hmm). cbn [mbind option_bind]. rewrite collect_spec by done. cbn [mbind option_bind].
  destruct (generic_lines mrg Hmw Hmm) as (general & rest & ls & Hg & Htext & Hok & Hint). rewrite Hg.
  assert (Hfit : forall k v, (k, v) ∈ dict_entries d -> has_prefix (B "server:") k = true -> server_fits (drop 7 k) (default [] (str_of v)) = true).
  { intros k v Hin Hp. assert (Hk : whole !! k = Some v).
    { apply lookup_union_Some_l. rewrite <- (entries_map d). apply elem_of_list_to_map_1; [by apply entries_nodup | done]. }
    pose proof (Hall k v Hk) as Hv. destruct (survives_str k v Hv) as (s & -> & _). cbn [survives] in Hv. by rewrite Hp in Hv. }
  destruct (print_servers_spec d Hd Hfit ltac:(lia)) as (names & -> & Hnamed & Hnl & Hcov). cbn [mbind option_bind].
  destruct (server_blocks_interp d Hfit names [] Hnamed) as (Hbok & _ & _).
  destruct (Hint []) as (sec' & Hmore). destruct (Hmore (server_blocks d names)) as (l & Hl & Hperm).
  destruct (server_blocks_interp d Hfit names sec' Hnamed) as (_ & Hblen & Hbint).
  exists (ls ++ server_blocks d names). split_and!.
  - do 3 f_equal. rewrite render_app, <- Htext. replace (if complete then _ else []) with (@nil ascii) by by destruct complete.
    rewrite app_nil_r. by rewrite <- !app_assoc.
  - by rewrite forallb_app, Hok, Hbok.
  - rewrite Hl. apply apply_settings_exact.
    + intros k v Hin. apply elem_of_app in Hin as [Hin | Hin].
      * apply list_elem_of_fmap in Hin as (e & [= -> ->] & He). rewrite Hperm in He. by apply (kept_pair mrg).
      * apply Hbint in Hin as (nm & _ & t & w & [= -> ->] & Hin). 
        assert (Hk : whole !! (B "server:" ++ nm ++ "."%char :: t) = Some w).
        { apply lookup_union_Some_l. rewrite <- (entries_map d). apply elem_of_list_to_map_1; [by apply entries_nodup | done]. }
        destruct (survives_str _ w (Hall _ w Hk)) as (s & -> & _). exact Hk.
    + intros k [v Hk]. pose proof (Hall k v Hk) as Hv. destruct (survives_str k v Hv) as (s & -> & _). cbn [survives] in Hv.
      destruct (has_prefix (B "server:") k) eqn:Hp.
      * apply has_prefix_spec in Hp as [t ->].
        assert (Hdk : is_Some (dict_map d !! (B "server:" ++ t))).
        { apply lookup_union_Some_raw in Hk as [Hk | [_ Hk]]; [eauto |]. apply Hservers; [apply has_prefix_spec |]; eauto. }
        destruct Hdk as [w Hw]. rewrite <- (entries_map d) in Hw. apply elem_of_list_to_map_2 in Hw.
        destruct (Hcov t w Hw) as (nm & u & Hnm & ->). exists (default [] (str_of w)). apply elem_of_app. right. apply Hbint.
        exists nm. split; [done |]. by exists u, w.
      * apply andb_prop in Hv as [Hs _]. apply negb_true_iff in Hs. exists s. apply elem_of_app. left.
        apply list_elem_of_fmap. exists (k, Some s). split; [done |]. rewrite Hperm. unfold kept_entries.
        apply list_elem_of_fmap. exists (k, VStr (Some s)). split; [done |]. apply list_elem_of_filter. split; [done |].
        apply elem_of_list_to_map_2. rewrite (entries_map mrg). by rewrite Hmm.
  - rewrite Hl, length_app, length_map, Hperm. unfold kept_entries. rewrite length_map.
    pose proof (length_filter (fun kv : bstr * value => cfg_save_entry_is_skipped [] kv.1 = false) (dict_entries mrg)).
    pose proof (entries_length mrg Hmw) as Hml. rewrite <- (dict_map_size mrg Hmw), Hmm in Hml.
    pose proof (union_size (dict_map d) (dict_map b)).
    pose proof (dict_map_size d Hd). pose proof (dict_map_size b Hb). pose proof (entries_length d Hd).
    assert (length names * length (dict_entries d) <= length (dict_entries d) * length (dict_entries d))%nat by (apply Nat.mul_le_mono_r; lia).
    nia.
Qed.

End saving.

(** *** Save and load *)

Lemma backup_found {F} `{SaveFiles F} tries seq (fs fs' : F) path :
  cfg_backup tries seq fs path = (true, fs') ->
  exists n, seq <= n < seq + Z.of_nat tries /\ f_exists fs (backup_name path n) = false /\ f_rename fs path (backup_name path n) = (true, fs').
Proof.
  revert seq. induction tries as [| tries IH]; intros seq; [done |]. cbn [cfg_backup].
  destruct (PATH_MAX <=? length (backup_name path seq))%nat; [done |].
  destruct (f_exists fs (backup_name path seq)) eqn:He.
  - intros Hb. destruct (IH _ Hb) as (n & Hn & Hrest). exists n. split; [lia | done].
  - intros Hr. exists seq. split; [lia | done].
Qed.

Lemma backup_other {F} `{SaveFiles F} path n : path <> backup_name path n.
Proof.
  intros Heq. apply (f_equal length) in Heq. unfold backup_name in Heq. rewrite !length_app in Heq.
  change (length (B ".cfg.old")) with 8%nat in Heq. lia.
Qed.

(** Loading a rendered text. *)
Lemma cfg_load_meaning {W : Type} `{Files} `{SectionHandlers W} (ignore : bool) path (w : W) ls m :
  file_exists path = true -> fopen_r path = Some (render ls) -> forallb out_ok ls = true ->
  apply_settings ∅ (interp [] ls) = m -> Z.of_nat (length (interp [] ls)) < 2 ^ 28 ->
  exists d', cfg_load [] ignore path [] w = Ret (Some d', [], w) /\ dict_map d' = m.
Proof.
  intros He Hr Hok Hm Hlen.
  pose proof (file_follows (cbs := []) ignore (2 ^ 28 - 1) 4 path w ltac:(lia)) as Hf. unfold cfg_load. cbn [file_settings] in Hf.
  change (handler_settings []) with (fun _ _ _ : bstr => [] : settings) in Hf. rewrite He, Hr, file_lines_render, lines_interp in Hf by done. cbn [loads] in Hf.
  destruct (Hf ltac:(lia)) as (d' & w' & -> & Hw & _ & Hmap). exists d'. by rewrite Hmap, Hw.
Qed.


(** A file system of named texts. *)
#[local] Instance map_files : SaveFiles (gmap bstr bstr) := {|
  f_exists fs p := bool_decide (is_Some (fs !! p));
  f_rename fs p q := match fs !! p with Some t => (true, <[q := t]> (delete p fs)) | None => (false, fs) end;
  f_open_w fs p := Some (<[p := []]> fs);
  f_write fs p t := <[p := t]> fs;
  datestamp := B "20240229" |}.

#[local] Instance map_files_laws : SaveFilesLaws (gmap bstr bstr).
Proof.
  refine {| f_read (fs : gmap bstr bstr) p := fs !! p |}.
  - intros fs fs' p text _. apply lookup_insert_eq.
  - intros fs fs' p text _. cbn. rewrite lookup_insert_eq. done.
  - intros fs fs' p q text [= <-] Hne. cbn. by rewrite !lookup_insert_ne.
  - intros fs fs' p q. cbn. destruct (fs !! p) eqn:Hp; [| done]. intros [= <-]. by rewrite lookup_insert_eq.
Defined.

Definition long_value : bstr := B "rtsp://radio.example.org:8554/streams/hf/40m?codec=opus&rate=48000&channels=1&fec=yes".

Definition saved_cfg : dict :=
  put (put (put (put empty_dict (B "audio.source") (VStr (Some long_value))) (B "site:grid") (VStr (Some (B "EM10"))))
    (B "theme:dark.bg") (VStr (Some (B "black")))) (B "server:home.server.url") (VStr (Some (B "wss://home/ws"))).

Definition saved_defaults : dict := put (put empty_dict (B "log.level") (VStr (Some (B "info")))) (B "site:grid") (VStr (Some (B "AA00"))).

Lemma saved_cfg_ready : store_ready 100 saved_cfg.
Proof. unfold saved_cfg. do 4 (apply put_ready; [| lia]). by apply empty_ready. Qed.

Lemma saved_defaults_ready : store_ready 100 saved_defaults.
Proof. unfold saved_defaults. do 2 (apply put_ready; [| lia]). by apply empty_ready. Qed.

Definition old_files : gmap bstr bstr := {[ B "/etc/rig.conf" := B "old" ]}.

Lemma saved_survive : map_Forall survives (dict_map saved_cfg ∪ dict_map saved_defaults).
Proof. apply (bool_decide_unpack _). vm_compute. exact I. Qed.

Lemma saved_no_default_server k :
  has_prefix (B "server:") k = true -> is_Some (dict_map saved_defaults !! k) -> is_Some (dict_map saved_cfg !! k).
Proof.
  intros Hp [v Hv]. unfold saved_defaults in Hv.
  assert (Hr : store_ready 101 empty_dict) by by apply empty_ready.
  destruct (put_ready 100 _ (B "log.level") (VStr (Some (B "info"))) Hr ltac:(lia)) as [Hr2 Hm1].
  destruct (put_ready 99 _ (B "site:grid") (VStr (Some (B "AA00"))) Hr2 ltac:(lia)) as [_ Hm2].
  rewrite Hm2, Hm1, empty_map in Hv. apply lookup_insert_Some in Hv as [[<- _] | [_ Hv]]; [discriminate Hp |].
  apply lookup_insert_Some in Hv as [[<- _] | [_ Hv]]; [discriminate Hp |].
  rewrite lookup_empty in Hv. discriminate Hv.
Qed.


(** ** Entries that do not come back *)

(** Settings of one section land in another.  Entries whose section names
    have the same length are written under one header, the first one's, because
    the grouping compares each entry with its own key: with [fwdsp:path] set, a
    saved theme is gone after loading, and so is [site:grid] after [rtty:baud]. *)
Theorem cfg_save_mixes_sections :
  let d1 := put (put empty_dict (B "fwdsp:path") (VStr (Some (B "/bin/fwdsp")))) (B "theme:dark.bg") (VStr (Some (B "black"))) in
  let d2 := put (put empty_dict (B "rtty:baud") (VStr (Some (B "45")))) (B "site:grid") (VStr (Some (B "EM10"))) in
  let reload d := match cfg_save_values [] None [] ∅ (Some d) (B "rig.conf") false with
    | Some (true, fs', _) => match cfg_load (H := files_of fs') (H0 := no_handlers) [] true (B "rig.conf") [] tt with
                          | Ret (Some d', _, _) => Some (dict_map d') | _ => None end
    | _ => None end in
  reload d1 = Some ∅ /\ reload d2 = Some ∅ /\
  dict_map d1 !! B "theme:dark.bg" = Some (VStr (Some (B "black"))) /\
  dict_map d2 !! B "site:grid" = Some (VStr (Some (B "EM10"))).
Proof. split_and!; vm_compute; reflexivity. Qed.

(** A fold next to a blank changes the value: here the blank at the start of the
    second line is gone after loading. *)
Lemma cfg_save_fold_loses_blank :
  let value := replicate 75 "a"%char ++ B " " ++ replicate 10 "b"%char in
  file_lines (cfg_write_wrapped (B "key") (Some value)) =
  [(false, [], B "key=" ++ replicate 75 "a"%char ++ replicate 10 "b"%char)].
Proof. vm_compute. reflexivity. Qed.
