(* ===== verification/ConfigStore.v ===== *)
(** * The live configuration (config.c)

    The global dictionaries, typed settings, reload events and the replacement of
    the configuration.  A callback of another module is a call in the trace the
    operation returns. *)

From S2P Require Import Prelude CString CFloat Dict DictGet.

#[local] Open Scope Z_scope.

(** ** State *)

(** [reload_event_t]: a node of the list, by its address; the key NULL stands
    for a completed reload. *)
Record reload_event := ReloadEvent { re_addr : Z; re_key : option bstr; re_callback : Z; re_note : option bstr }.

(** Where [cfg] points: nowhere, at a dictionary of its own, or, when no file was
    found, at the defaults. *)
Inductive cfg_ptr := CfgNull | CfgOwn (d : dict) | CfgDefault.

Record cfg_state := CfgState {
  live : cfg_ptr;
  default_cfg : option dict;
  reload_events : list reload_event;
  cfg_heap : allocs }.

(** The dictionary [cfg] points at. *)
Definition cfg (st : cfg_state) : option dict :=
  match live st with CfgNull => None | CfgOwn d => Some d | CfgDefault => default_cfg st end.

(** [*cfg = d] *)
Definition set_cfg (st : cfg_state) (d : dict) : cfg_state :=
  match live st with
  | CfgDefault => CfgState CfgDefault (Some d) (reload_events st) (cfg_heap st)
  | _ => CfgState (CfgOwn d) (default_cfg st) (reload_events st) (cfg_heap st)
  end.

Definition with_heap (st : cfg_state) (o : allocs) : cfg_state :=
  CfgState (live st) (default_cfg st) (reload_events st) o.

(** ** Reading *)

Definition cfg_get (st : cfg_state) (key : option bstr) : option (option bstr) :=
  match key with
  | None => Some None
  | Some _ =>
      p ← dict_get (cfg st) key None;
      match p with
      | Some p => Some (Some p)
      | None => match default_cfg st with None => Some None | Some _ => dict_get (default_cfg st) key None end
      end
  end.

Definition cfg_get_bool (st : cfg_state) := dict_get_bool (cfg st).
Definition cfg_get_int (st : cfg_state) := dict_get_int (cfg st).
Definition cfg_get_ulong (st : cfg_state) := dict_get_ulong (cfg st).

Definition cfg_get_exp (st : cfg_state) (key : option bstr) : option (option bstr * allocs) :=
  dict_get_exp (fun k => cfg_get st (Some k)) (cfg_heap st) (cfg st) key.

(** ** Reload events *)

(** One call of a callback with the key it is told; NULL is the completed reload. *)
Abbreviation reload_call := (Z * option bstr)%type.

Definition event_matches (key : option bstr) (r : reload_event) : bool :=
  match key, re_key r with
  | None, None => true
  | Some k, Some k' => strcaseeq k k'
  | _, _ => false
  end.

(** Appends; the address is new. *)
Definition reload_event_add (evs : list reload_event) (addr : Z) (key : option bstr) (callback : Z) (note : option bstr)
    : option Z * list reload_event :=
  if callback =? 0 then (None, evs) else (Some addr, evs ++ [ReloadEvent addr key callback note]).

Definition reload_event_run (evs : list reload_event) (key : option bstr) : bool * list reload_call :=
  let called := base.filter (fun r => event_matches key r = true) evs in
  (match called with [] => false | _ => true end, map (fun r => (re_callback r, key)) called).

(** A NULL key or callback matches anything, but not both. *)
Definition reload_event_find (evs : list reload_event) (key : option bstr) (callback : Z) : option reload_event :=
  match key with
  | None =>
      if callback =? 0 then None
      else List.find (fun r => re_callback r =? callback) evs
  | Some _ =>
      List.find (fun r => event_matches key r && ((callback =? 0) || (re_callback r =? callback))) evs
  end.

Fixpoint reload_event_remove (evs : list reload_event) (evt : Z) : bool * list reload_event :=
  match evs with
  | [] => (false, [])
  | r :: evs =>
      if re_addr r =? evt then (true, evs)
      else let '(ok, evs) := reload_event_remove evs evt in (ok, r :: evs)
  end.

(** ** Settings with a type *)

Inductive defconfig_type :=
| DEFCONFIG_STRING | DEFCONFIG_BOOL | DEFCONFIG_INT | DEFCONFIG_UINT | DEFCONFIG_FLOAT
| DEFCONFIG_PATH | DEFCONFIG_PASSWORD | DEFCONFIG_ENUM.

(** [defconfig_t], without its help text. *)
Record defconfig := Defconfig { def_key : bstr; def_val : option bstr; def_type : defconfig_type; def_choices : option bstr }.

(** The table of the program that links the library, if it has one. *)
Definition cfg_defconfig_find (defcfg : option (list defconfig)) (key : option bstr) : option defconfig :=
  match key, defcfg with
  | Some key, Some defs => List.find (fun d => strcaseeq (def_key d) key) defs
  | _, _ => None
  end.

(** [strtok_r(choices, "|", &save)]: the non-empty pieces. *)
Fixpoint split_choices (cur : bstr) (s : bstr) : list bstr :=
  match s with
  | [] => match cur with [] => [] | _ => [rev cur] end
  | c :: s =>
      if bool_decide (c = "|"%char) then match cur with [] => split_choices [] s | _ => rev cur :: split_choices [] s end
      else split_choices (c :: cur) s
  end.

(** The text stored for a value of a type; [None] refuses it.  [strtol] and
    [strtoll] are the same function on an LP64 host. *)
Definition canonical (def : defconfig) (value : bstr) : option bstr :=
  match def_type def with
  | DEFCONFIG_BOOL =>
      if strcaseeq value (B "true") || strcaseeq value (B "yes") || strcaseeq value (B "on") || streq value (B "1") then Some (B "true")
      else if strcaseeq value (B "false") || strcaseeq value (B "no") || strcaseeq value (B "off") || streq value (B "0") then Some (B "false")
      else None
  | DEFCONFIG_INT =>
      let r := strtoll value in
      if st_erange r || same_ptr (st_end r) value || negb (at_end (st_end r)) then None else Some (print_dec (st_value r))
  | DEFCONFIG_UINT =>
      if bool_decide (head value = Some "-"%char) then None
      else
        let r := strtoull value in
        if st_erange r || same_ptr (st_end r) value || negb (at_end (st_end r)) then None else Some (print_dec (st_value r))
  | DEFCONFIG_FLOAT =>
      let r := strtod value in
      if sd_erange r || same_ptr (sd_end r) value || negb (at_end (sd_end r)) then None
      else Some (strlcpy (print_g 9 (sd_value r)) 128)
  | DEFCONFIG_ENUM =>
      match def_choices def with
      | Some (c :: cs) => if existsb (fun p => strcaseeq p value) (split_choices [] (c :: cs)) then Some value else None
      | _ => Some value
      end
  | _ => Some value
  end.

(** Success, the calls it makes, and the new state. *)
Definition cfg_set_value (defcfg : option (list defconfig)) (st : cfg_state) (key value : option bstr)
    : option (bool * list reload_call * cfg_state) :=
  match cfg st, cfg_defconfig_find defcfg key, value with
  | Some d, Some def, Some value =>
      match canonical def value with
      | None => Some (false, [], st)
      | Some stored =>
          '(rc, d, o) ← dict_add (cfg_heap st) d key (Some stored);
          let st := with_heap (set_cfg st d) o in
          if negb (rc =? 0) then Some (false, [], st)
          else Some (true, (reload_event_run (reload_events st) key).2 ++ (reload_event_run (reload_events st) None).2, st)
      end
  | _, _, _ => Some (false, [], st)
  end.

(** ** Defaults *)

Definition cfg_set_default (o : allocs) (d : option dict) (key val : option bstr) : option (bool * option dict * allocs) :=
  match d, key with
  | Some d, Some _ =>
      '(rc, d, o) ← dict_add o d key val;
      Some (rc =? 0, Some d, o)
  | _, _ => Some (false, d, o)
  end.

(** The loop over the table; entries without a value are skipped. *)
Fixpoint set_defaults_loop (o : allocs) (d : dict) (defs : list defconfig) : option (dict * allocs) :=
  match defs with
  | [] => Some (d, o)
  | def :: defs =>
      match def_val def with
      | None => set_defaults_loop o d defs
      | Some val =>
          '(_, d', o) ← cfg_set_default o (Some d) (Some (def_key def)) (Some val);
          set_defaults_loop o (default d d') defs
      end
  end.

Definition cfg_set_defaults (o : allocs) (d : option dict) (defs : option (list defconfig)) : option (bool * option dict * allocs) :=
  match d, defs with
  | Some d, Some defs => '(d, o) ← set_defaults_loop o d defs; Some (true, Some d, o)
  | _, _ => Some (false, d, o)
  end.

(** ** Replacing the configuration *)

Definition cfg_dict_has_key (d : dict) (wanted : bstr) : option bool :=
  '(_, found) ← enum_all d (fun k _ _ => Some (negb (streq k wanted), streq k wanted)) false;
  Some found.

(** The loop over the changes: keys added, changed and removed so far, and the
    calls made. *)
Definition notify_body (evs : list reload_event) (now before : dict) (k : bstr) (v : value) (s : Z * Z * Z * list reload_call)
    : option (bool * (Z * Z * Z * list reload_call)) :=
  let '(added, changed, removed, calls) := s in
  exists_now ← cfg_dict_has_key now k;
  existed ← cfg_dict_has_key before k;
  let calls := calls ++ (reload_event_run evs (Some k)).2 in
  Some (true,
    if negb exists_now then (added, changed, removed + 1, calls)
    else if existed : bool then (added, changed + 1, removed, calls)
    else (added + 1, changed, removed, calls)).

(** [newcfg] is not [cfg] itself, which the code refuses; the old dictionary the
    caller names is freed when it is neither.  The counts go to the log. *)
Definition cfg_apply_new (st : cfg_state) (newcfg : option dict)
    : option (bool * list reload_call * (Z * Z * Z) * cfg_state) :=
  match cfg st, newcfg with
  | Some old, Some newcfg =>
      '(changes, o) ← dict_diff (cfg_heap st) (Some old) (Some newcfg);
      match changes with
      | None => Some (false, [], (0, 0, 0), with_heap st o)
      | Some changes =>
          '(staged, o) ← dict_clone o (Some newcfg);
          match staged with
          | None => Some (false, [], (0, 0, 0), with_heap st o)
          | Some staged =>
              let evs := reload_events st in
              '(_, (added, changed, removed, calls)) ← enum_all changes (notify_body evs staged old) (0, 0, 0, []);
              Some (true, calls ++ (reload_event_run evs None).2, (added, changed, removed), with_heap (set_cfg st staged) o)
          end
      end
  | _, _ => Some (false, [], (0, 0, 0), st)
  end.
