(* ===== verification/ConfigLive.v ===== *)
(** * Starting and reloading (config.c, util.file.c)

    Finding the configuration file, loading it into the live dictionary, and
    replacing it at run time.  [HOME] is a parameter. *)

From S2P Require Import Prelude CString Dict ConfigText Config ConfigStore.

#[local] Open Scope Z_scope.

(** The live configuration with the path it came from. *)
Record program := Program { store : cfg_state; config_file : option bstr }.

(** ** Paths *)

(** [p] followed by the end of the text or a slash; the rest after it. *)
Definition home_suffix (p path : bstr) : option bstr :=
  if strneq path p (length p) then
    match drop (length p) path with
    | [] => Some []
    | c :: s => if ceq c "/" then Some s else None
    end
  else None.

Fixpoint skip_dots (fuel : nat) (s : bstr) : bstr :=
  match fuel, s with
  | S fuel, c :: d :: s' => if ceq c "." && ceq d "/" then skip_dots fuel s' else s
  | _, _ => s
  end.

Definition expand_path (home : option bstr) (path : bstr) : option bstr :=
  match path with
  | [] => None
  | c :: _ =>
      let suffix :=
        match home_suffix (B "~") path with
        | Some s => Some s
        | None =>
            match home_suffix (B "$HOME") path with
            | Some s => Some s
            | None =>
                match home_suffix (B "${HOME}") path with
                | Some s => Some s
                | None => if ceq c "/" then None else Some (skip_dots (length path) path)
                end
            end
        end in
      match suffix with
      | None => Some path
      | Some suffix =>
          match home with
          | Some home =>
              if negb (starts_with home "/"%char) then None
              else Some (if nonempty suffix then home ++ B "/" ++ suffix else home)
          | None => None
          end
      end
  end.

Definition cfg_get_path (home : option bstr) (st : cfg_state) (key : option bstr) : option (option bstr * allocs) :=
  '(expanded, o) ← cfg_get_exp st key;
  Some (match expanded with Some e => expand_path home e | None => None end, o).

Section program.
Context {W : Type} `{Files} `{SectionHandlers W}.
Variables (cbs : list cfg_cb) (ignore : bool) (home : option bstr).

Fixpoint find_file_by_list (files : list (option bstr)) : option bstr :=
  match files with
  | [] => None
  | Some f :: files =>
      match expand_path home f with
      | Some full => if file_exists full then Some full else find_file_by_list files
      | None => find_file_by_list files
      end
  | None :: files => find_file_by_list files
  end.

(** The defaults are created when there are none; [cfg] is the loaded file, or
    the defaults themselves. *)
Definition cfg_detect_and_load (configs : list (option bstr)) (p : program) (w : W) : run (program * W) :=
  let st := store p in
  let st :=
    match default_cfg st with
    | Some _ => st
    | None => let '(d, o) := dict_new (cfg_heap st) in CfgState (live st) d (reload_events st) o
    end in
  match find_file_by_list configs with
  | Some full =>
      '(loaded, o, w) ← cfg_load cbs ignore full (cfg_heap st) w;
      let cfg := match loaded with Some d => CfgOwn d | None => CfgDefault end in
      Ret (Program (CfgState cfg (default_cfg st) (reload_events st) o) (Some full), w)
  | None => Ret (Program (CfgState CfgDefault (default_cfg st) (reload_events st) (cfg_heap st)) (config_file p), w)
  end.

(** [true] also when the new configuration could not be applied. *)
Definition cfg_reload (filename : option bstr) (p : program) (w : W) : run (bool * list reload_call * program * W) :=
  match (match filename with Some f => Some f | None => config_file p end) with
  | None => Ret (false, [], p, w)
  | Some path =>
      '(newcfg, o, w) ← cfg_load cbs ignore path (cfg_heap (store p)) w;
      let st := with_heap (store p) o in
      match newcfg with
      | None => Ret (false, [], Program st (config_file p), w)
      | Some d =>
          '(_, calls, _, st) ← lift (cfg_apply_new st (Some d));
          Ret (true, calls, Program st (config_file p), w)
      end
  end.
End program.

(** Everything is released; safe to call again. *)
Definition cfg_fini (p : program) : program :=
  Program (CfgState CfgNull None [] (cfg_heap (store p))) None.
