(* ===== verification/ConfigStoreSpec.v ===== *)
(** * Theorems about the live configuration *)

From S2P Require Import Prelude CString CFloat Dict DictTheory DictSpec DictGet DictGetSpec ConfigText Config ConfigRef ConfigTheory ConfigSpec ConfigStore ConfigLive.

#[local] Open Scope Z_scope.

(** ** Who is told *)

(** The same letters, capital or small. *)
Definition caseless (s t : bstr) : Prop := Forall2 (fun c d => tolower c = tolower d) s t.

Lemma strcaseeq_caseless s t : strcaseeq s t = true <-> caseless s t.
Proof.
  unfold strcaseeq, caseless. rewrite streq_true. revert t. induction s as [| c s IH]; intros [| d t]; cbn [map].
  - split; [constructor | done].
  - split; [done | intros H; inversion H].
  - split; [done | intros H; inversion H].
  - rewrite Forall2_cons, <- IH. split; [by intros [= -> ->] | by intros [-> ->]].
Qed.

(** A node of the list is for one key, or for completed reloads. *)
Definition concerns (key : option bstr) (r : reload_event) : Prop :=
  match key, re_key r with
  | Some k, Some k' => caseless k k'
  | None, None => True
  | _, _ => False
  end.

(** The calls that a change of [key] makes: every callback it concerns, in the order of
    the list. *)
Inductive told (key : option bstr) : list reload_event -> list reload_call -> Prop :=
| told_nobody : told key [] []
| told_one r evs calls : concerns key r -> told key evs calls -> told key (r :: evs) ((re_callback r, key) :: calls)
| told_other r evs calls : ~ concerns key r -> told key evs calls -> told key (r :: evs) calls.

Lemma event_matches_concerns key r : event_matches key r = true <-> concerns key r.
Proof. unfold event_matches, concerns. destruct key as [k |], (re_key r) as [k' |]; try done. apply strcaseeq_caseless. Qed.

Lemma run_told evs key : told key evs (reload_event_run evs key).2.
Proof.
  unfold reload_event_run. cbn [snd]. induction evs as [| r evs IH]; [constructor |]. rewrite filter_cons.
  case_decide as Hr; rewrite event_matches_concerns in Hr; cbn [map]; by constructor.
Qed.

Lemma told_unique key evs calls calls' : told key evs calls -> told key evs calls' -> calls = calls'.
Proof.
  intros Ht. revert calls'. induction Ht as [| r evs calls Hr _ IH | r evs calls Hr _ IH]; intros calls' H'; inversion H'; subst; try done.
  - f_equal. by apply IH.
  - by apply IH.
Qed.

(** ** Typed settings *)

(** White space, a sign and digits, as the library's conversions read them: whether
    there is a minus, and the value of the digits. *)
Definition decimal (ds : bstr) : Z := foldl (fun n c => 10 * n + (code c - 48)) 0 ds.

Inductive numeral : bstr -> bool -> Z -> Prop :=
| numeral_intro blanks sign neg ds :
    Forall (fun c => isspace c = true) blanks -> (sign, neg) ∈ [([], false); (B "+", false); (B "-", true)] ->
    ds <> [] -> Forall (fun c => 48 <= code c <= 57) ds -> numeral (blanks ++ sign ++ ds) neg (decimal ds).

(** The pieces of the choices between the bars. *)
Inductive choice (p : bstr) : bstr -> Prop :=
| choice_first rest : p <> [] -> "|"%char ∉ p -> (rest = [] \/ head rest = Some "|"%char) -> choice p (p ++ rest)
| choice_later other rest : "|"%char ∉ other -> choice p rest -> choice p (other ++ "|"%char :: rest).

(** The values that a declared setting takes, each with the text that is stored for it.
    An unsigned setting takes a minus sign behind white space, and wraps around. *)
Inductive accepts (def : defconfig) (value : bstr) : bstr -> Prop :=
| accepts_true : def_type def = DEFCONFIG_BOOL ->
    caseless value (B "true") \/ caseless value (B "yes") \/ caseless value (B "on") \/ value = B "1" -> accepts def value (B "true")
| accepts_false : def_type def = DEFCONFIG_BOOL ->
    caseless value (B "false") \/ caseless value (B "no") \/ caseless value (B "off") \/ value = B "0" -> accepts def value (B "false")
| accepts_int neg n : def_type def = DEFCONFIG_INT -> numeral value neg n ->
    - 2 ^ 63 <= (if neg then - n else n) < 2 ^ 63 -> accepts def value (print_dec (if neg then - n else n))
| accepts_uint neg n : def_type def = DEFCONFIG_UINT -> head value <> Some "-"%char -> numeral value neg n ->
    n < 2 ^ 64 -> accepts def value (print_dec ((if neg then - n else n) mod 2 ^ 64))
| accepts_float f : def_type def = DEFCONFIG_FLOAT -> value <> [] -> strtod value = Strtod f [] false ->
    accepts def value (take 127 (print_g 9 f))
| accepts_choice : def_type def = DEFCONFIG_ENUM ->
    match def_choices def with Some cs => cs = [] \/ exists p, choice p cs /\ caseless p value | None => True end -> accepts def value value
| accepts_text : def_type def ∈ [DEFCONFIG_STRING; DEFCONFIG_PATH; DEFCONFIG_PASSWORD] -> accepts def value value.

(** The first entry for the key in the table of the program. *)
Definition declared (defcfg : option (list defconfig)) (key : bstr) (def : defconfig) : Prop :=
  exists before after, defcfg = Some (before ++ def :: after) /\ caseless (def_key def) key /\
    Forall (fun d => ~ caseless (def_key d) key) before.

(** What the typed readers make of the stored text. *)
Definition reads_back (def : defconfig) (stored : bstr) : Prop :=
  match def_type def with
  | DEFCONFIG_BOOL => exists b : bool, stored = B (if b then "true" else "false") /\ as_bool (VStr (Some stored)) = Some b
  | DEFCONFIG_INT => exists n, stored = print_dec n /\ as_long (VStr (Some stored)) = Some n /\
      as_int (VStr (Some stored)) = if (INT_MIN <=? n) && (n <=? INT_MAX) then Some n else None
  | DEFCONFIG_UINT => exists n, stored = print_dec n /\ as_ulong (VStr (Some stored)) = Some n /\
      as_uint (VStr (Some stored)) = if n <=? UINT_MAX then Some n else None
  | _ => True
  end.

Lemma scan_digits_all s : forall acc any n, scan_digits acc any s = (n, true, []) <->
  Forall (fun c => 48 <= code c <= 57) s /\ n = foldl (fun n c => 10 * n + (code c - 48)) acc s /\ (any = true \/ s <> []).
Proof.
  induction s as [| c s IH]; intros acc any n; cbn [scan_digits foldl].
  - split; [intros [= -> ->]; split_and!; [constructor | done | by left] | intros (_ & -> & [-> | Hn]); [done | by destruct Hn]].
  - destruct (isdigit c) eqn:Hc; unfold isdigit in Hc.
    + rewrite IH, Forall_cons. unfold digit_val. split.
      * intros (H1 & H2 & _). split; [split; [lia | done] | split; [done | by right]].
      * intros ([_ H1] & H2 & _). split_and!; [done | done | by left].
    + split; [done |]. rewrite Forall_cons. intros ([H1 _] & _). lia.
Qed.

Lemma skip_spaces t s : Forall (fun c => isspace c = true) t -> skip_space (t ++ s) = skip_space s.
Proof. induction 1 as [| c t Hc _ IH]; [done |]. cbn [app skip_space]. by rewrite Hc. Qed.

Lemma digit_not_space c : 48 <= code c <= 57 -> isspace c = false /\ c <> "-"%char /\ c <> "+"%char.
Proof. intros Hc. apply isdigit_not. unfold isdigit. lia. Qed.

Lemma numeral_scan s neg n : numeral s neg n <->
  exists s1, scan_sign (skip_space s) = (neg, s1) /\ scan_digits 0 false s1 = (n, true, []).
Proof.
  split.
  - intros [blanks sign neg' ds Hb Hs Hne Hd]. exists ds. split; [| apply scan_digits_all; by split_and!; [| | right]].
    rewrite skip_spaces by done. destruct ds as [| c ds]; [done |]. apply Forall_cons in Hd as [Hc _].
    destruct (digit_not_space c Hc) as (H1 & H2 & H3).
    repeat (apply elem_of_cons in Hs as [[= -> ->] | Hs]; [cbn [app]; cbn [skip_space]; rewrite ?H1; cbn [scan_sign]; by rewrite ?bool_decide_eq_false_2 by done |]).
    by apply elem_of_nil in Hs.
  - intros (s1 & Hs & Hd). apply scan_digits_all in Hd as (Hd & -> & [? | Hne]); [done |].
    destruct (skip_space_suffix s) as (t & Es & Ht). rewrite Es. fold (decimal s1). clear Es. revert Hs. generalize (skip_space s). intros u Hu.
    destruct u as [| c u]; cbn [scan_sign] in Hu; [by injection Hu as <- <- |].
    case_bool_decide as Hm; [injection Hu as <- <-; subst c; apply (numeral_intro t (B "-")); try done; set_solver |].
    case_bool_decide as Hp; [injection Hu as <- <-; subst c; apply (numeral_intro t (B "+")); try done; set_solver |].
    injection Hu as <- <-. apply (numeral_intro t []); try done; set_solver.
Qed.

Lemma split_choices_bar cur u s : "|"%char ∉ u ->
  split_choices cur (u ++ "|"%char :: s) = (match rev cur ++ u with [] => [] | p => [p] end) ++ split_choices [] s.
Proof.
  revert cur. induction u as [| c u IH]; intros cur Hu; cbn [app split_choices].
  - rewrite bool_decide_eq_true_2, app_nil_r by done. destruct cur as [| d cur]; [done |]. cbn [rev]. by destruct (rev cur).
  - apply not_elem_of_cons in Hu as [Hc Hu]. rewrite bool_decide_eq_false_2 by done. rewrite IH by done. cbn [rev]. by rewrite <- app_assoc.
Qed.

Lemma split_choices_end cur u : "|"%char ∉ u -> split_choices cur u = match rev cur ++ u with [] => [] | p => [p] end.
Proof.
  revert cur. induction u as [| c u IH]; intros cur Hu; cbn [split_choices].
  - rewrite app_nil_r. destruct cur as [| d cur]; [done |]. cbn [rev]. by destruct (rev cur).
  - apply not_elem_of_cons in Hu as [Hc Hu]. rewrite bool_decide_eq_false_2 by done. rewrite IH by done. cbn [rev]. by rewrite <- app_assoc.
Qed.

Lemma first_bar s : "|"%char ∉ s \/ exists u r, s = u ++ "|"%char :: r /\ "|"%char ∉ u.
Proof.
  induction s as [| c s IH]; [left; apply not_elem_of_nil |]. destruct (decide (c = "|"%char)) as [-> | Hc].
  - right. exists [], s. split; [done | apply not_elem_of_nil].
  - destruct IH as [Hs | (u & r & -> & Hu)]; [left; by apply not_elem_of_cons |]. right. exists (c :: u), r. split; [done | by apply not_elem_of_cons].
Qed.

Lemma split_choices_pieces p s : p ∈ split_choices [] s <-> choice p s.
Proof.
  split.
  - remember (length s) as n eqn:Hn. revert s Hn. induction n as [n IH] using lt_wf_ind. intros s ->.
    destruct (first_bar s) as [Hs | (u & r & -> & Hu)].
    + rewrite split_choices_end by done. cbn [rev app]. destruct s as [| c s]; [by intros ?%elem_of_nil |].
      intros ->%list_elem_of_singleton. rewrite <- (app_nil_r (c :: s)) at 2. apply choice_first; [done | done | by left].
    + rewrite split_choices_bar by done. cbn [rev app]. rewrite elem_of_app. intros [Hp | Hp].
      * destruct u as [| c u]; [by apply elem_of_nil in Hp |]. apply list_elem_of_singleton in Hp as ->. apply choice_first; [done | done | by right].
      * apply choice_later; [done |]. eapply IH; [| reflexivity | done]. rewrite length_app. cbn. lia.
  - induction 1 as [rest Hne Hp Hr | other rest Ho _ IH].
    + destruct Hr as [-> | Hr].
      * rewrite app_nil_r, split_choices_end by done. cbn [rev app]. destruct p; [done |]. by apply list_elem_of_singleton.
      * destruct rest as [| c rest]; [done |]. injection Hr as ->. rewrite split_choices_bar by done. cbn [rev app]. destruct p; [done |].
        apply elem_of_app. left. by apply list_elem_of_singleton.
    + rewrite split_choices_bar by done. apply elem_of_app. by right.
Qed.

Lemma set_cfg_events st d : reload_events (set_cfg st d) = reload_events st.
Proof. unfold set_cfg. by destruct (live st). Qed.

Lemma print_long_reads n :
  within LONG_MIN LONG_MAX n ->
  as_long (VStr (Some (print_dec n))) = Some n /\
  as_int (VStr (Some (print_dec n))) = if (INT_MIN <=? n) && (n <=? INT_MAX) then Some n else None.
Proof.
  intros Hn. cbn [as_long as_int]. rewrite parse_ll_print, parse_ull_print by (limits; lia).
  rewrite (u64_within n) by (limits; lia). unfold parsed, when. limits.
  repeat (case_match; cbn [mbind option_bind] in *; simplify_eq); try done; try (exfalso; lia).
Qed.

Lemma print_ulong_reads n :
  within 0 ULONG_MAX n ->
  as_ulong (VStr (Some (print_dec n))) = Some n /\
  as_uint (VStr (Some (print_dec n))) = if n <=? UINT_MAX then Some n else None.
Proof.
  intros Hn. cbn [as_ulong as_uint]. rewrite parse_ull_print, parse_ll_print by (limits; lia).
  rewrite (u64_within n) by (limits; lia). unfold parsed, when. limits.
  repeat (case_match; cbn [mbind option_bind] in *; simplify_eq); try done; try (exfalso; lia).
Qed.

(** What the conversions make of a numeral. *)
Lemma numeral_strtoll s neg n : numeral s neg n ->
  strtoll s = let v := if neg then - n else n in
    if v <? LLONG_MIN then Strto LLONG_MIN [] true else if LLONG_MAX <? v then Strto LLONG_MAX [] true else Strto v [] false.
Proof. intros (s1 & Hs & Hd)%numeral_scan. unfold strtoll. by rewrite Hs, Hd. Qed.

Lemma numeral_strtoull s neg n : numeral s neg n ->
  strtoull s = if ULLONG_MAX <? n then Strto ULLONG_MAX [] true else Strto (if neg then u64 (- n) else n) [] false.
Proof. intros (s1 & Hs & Hd)%numeral_scan. unfold strtoull. by rewrite Hs, Hd. Qed.

Lemma numeral_nonempty s neg n : numeral s neg n -> same_ptr [] s = false.
Proof.
  intros [blanks sign neg' ds _ _ Hne _]. unfold same_ptr. apply Nat.eqb_neq. rewrite !length_app. destruct ds; [done |]. cbn. lia.
Qed.

Lemma numeral_nonneg s neg n : numeral s neg n -> 0 <= n.
Proof.
  intros (s1 & _ & Hd)%numeral_scan. pose proof (scan_digits_nonneg 0 false s1 ltac:(lia)) as Hn. by rewrite Hd in Hn.
Qed.

(** Anything else leaves an error, no digits, or something behind the number. *)
#[local] Definition refused (r : strto) (s : bstr) : bool := st_erange r || same_ptr (st_end r) s || negb (at_end (st_end r)).

Lemma refused_or_numeral s : (exists neg n, numeral s neg n) \/ refused (strtoll s) s = true /\ refused (strtoull s) s = true.
Proof.
  assert (Hsame : forall v, refused (Strto v s false) s = true) by (intros v; unfold refused, same_ptr; cbn [st_erange st_end orb]; by rewrite Nat.eqb_refl).
  assert (Hrest : forall v c r er, refused (Strto v (c :: r) er) s = true) by (intros v c r er; unfold refused; cbn [st_erange st_end at_end negb]; by rewrite orb_true_r).
  unfold strtoll, strtoull. destruct (scan_sign (skip_space s)) as [neg s1] eqn:Hs. destruct (scan_digits 0 false s1) as [[n any] rest] eqn:Hd.
  destruct any; cbn [negb]; [| right; by split]. destruct rest as [| c rest].
  - left. exists neg, n. apply numeral_scan. eauto.
  - right. cbv zeta. split; repeat case_match; apply Hrest.
Qed.

Lemma bool_words (a b c d : bool) (A B C D : Prop) :
  (a = true <-> A) -> (b = true <-> B) -> (c = true <-> C) -> (d = true <-> D) -> (a || b || c || d = true <-> A \/ B \/ C \/ D).
Proof. intros <- <- <- <-. rewrite !orb_true_iff. tauto. Qed.

Lemma yes_words v : strcaseeq v (B "true") || strcaseeq v (B "yes") || strcaseeq v (B "on") || streq v (B "1") = true <->
  caseless v (B "true") \/ caseless v (B "yes") \/ caseless v (B "on") \/ v = B "1".
Proof. apply bool_words; (apply strcaseeq_caseless || apply streq_true). Qed.

Lemma no_words v : strcaseeq v (B "false") || strcaseeq v (B "no") || strcaseeq v (B "off") || streq v (B "0") = true <->
  caseless v (B "false") \/ caseless v (B "no") \/ caseless v (B "off") \/ v = B "0".
Proof. apply bool_words; (apply strcaseeq_caseless || apply streq_true). Qed.

Lemma no_is_not_yes v : caseless v (B "false") \/ caseless v (B "no") \/ caseless v (B "off") \/ v = B "0" ->
  strcaseeq v (B "true") || strcaseeq v (B "yes") || strcaseeq v (B "on") || streq v (B "1") = false.
Proof.
  intros Hv. assert (Hm : map tolower v = B "false" \/ map tolower v = B "no" \/ map tolower v = B "off" \/ map tolower v = B "0").
  { rewrite <- !strcaseeq_caseless in Hv. unfold strcaseeq in Hv. rewrite !streq_true in Hv. destruct Hv as [-> | [-> | [-> | ->]]]; auto. }
  unfold strcaseeq. replace (streq v (B "1")) with false by (symmetry; apply streq_false; intros ->; by destruct Hm as [? | [? | [? | ?]]]).
  by destruct Hm as [-> | [-> | [-> | ->]]].
Qed.

Lemma canonical_sound def value stored : canonical def value = Some stored -> accepts def value stored.
Proof.
  unfold canonical. destruct (def_type def) eqn:Ht.
  - intros [= <-]. apply accepts_text. rewrite Ht. set_solver.
  - destruct (_ || _ || _ || _) eqn:Hy; [intros [= <-]; apply accepts_true; [done | by apply yes_words] |]. clear Hy.
    destruct (_ || _ || _ || _) eqn:Hy; [intros [= <-]; apply accepts_false; [done | by apply no_words] | done].
  - cbv zeta. fold (refused (strtoll value) value). destruct (refused_or_numeral value) as [(neg & n & Hn) | [-> _]]; [| done].
    rewrite (numeral_strtoll _ _ _ Hn). unfold LLONG_MIN, LLONG_MAX, refused. cbv zeta. pose proof (accepts_int def value neg n Ht Hn) as Hacc. revert Hacc.
    generalize (if neg then - n else n). intros z Hacc. destruct (Z.ltb_spec z (- 2 ^ 63)); [done |]. destruct (Z.ltb_spec (2 ^ 63 - 1) z); [done |].
    cbn [st_erange st_end st_value orb at_end negb]. case_match; [done |]. intros [= <-]. apply Hacc. lia.
  - case_bool_decide as Hm; [done |]. cbv zeta. fold (refused (strtoull value) value). destruct (refused_or_numeral value) as [(neg & n & Hn) | [_ ->]]; [| done].
    rewrite (numeral_strtoull _ _ _ Hn). pose proof (numeral_nonneg _ _ _ Hn). unfold ULLONG_MAX, refused.
    destruct (Z.ltb_spec (2 ^ 64 - 1) n); cbn [st_erange st_end st_value orb at_end negb]; [done |]. case_match; [done |]. intros [= <-].
    replace (if neg then u64 (- n) else n) with ((if neg then - n else n) mod 2 ^ 64) by (destruct neg; [done | apply Z.mod_small; lia]).
    apply accepts_uint; first [done | lia].
  - destruct (strtod value) as [f rest er] eqn:Hf. cbn [sd_erange sd_end sd_value]. destruct er; [done |]. destruct (same_ptr rest value) eqn:Hs; [done |].
    destruct rest; [| done]. intros [= <-]. apply accepts_float; [done | by intros -> | done].
  - intros [= <-]. apply accepts_text. rewrite Ht. set_solver.
  - intros [= <-]. apply accepts_text. rewrite Ht. set_solver.
  - intros Hr. assert (stored = value /\ match def_choices def with Some cs => cs = [] \/ exists p, choice p cs /\ caseless p value | None => True end) as [-> Hc]; [| by apply accepts_choice].
    destruct (def_choices def) as [[| c cs] |]; [injection Hr as <-; auto | | by injection Hr as <-].
    destruct (existsb _ _) eqn:He; [| done]. injection Hr as <-. split; [done |]. right. apply existsb_exists in He as (p & Hp & Hq).
    exists p. by rewrite <- split_choices_pieces, list_elem_of_In, <- strcaseeq_caseless.
Qed.

Lemma canonical_complete def value stored : accepts def value stored -> canonical def value = Some stored.
Proof.
  unfold canonical. intros [Ht Hy | Ht Hy | neg n Ht Hn Hr | neg n Ht Hm Hn Hr | f Ht Hne Hf | Ht Hc | Ht].
  - apply yes_words in Hy. by rewrite Ht, Hy.
  - rewrite Ht, no_is_not_yes by done. apply no_words in Hy. by rewrite Hy.
  - rewrite Ht, (numeral_strtoll _ _ _ Hn). unfold LLONG_MIN, LLONG_MAX. cbv zeta.
    rewrite (proj2 (Z.ltb_ge _ _)), (proj2 (Z.ltb_ge _ _)) by lia. cbn [st_erange st_end st_value orb at_end negb]. by rewrite (numeral_nonempty _ _ _ Hn).
  - rewrite Ht, bool_decide_eq_false_2, (numeral_strtoull _ _ _ Hn) by done. unfold ULLONG_MAX. cbv zeta.
    rewrite (proj2 (Z.ltb_ge _ _)) by lia. cbn [st_erange st_end st_value orb at_end negb]. rewrite (numeral_nonempty _ _ _ Hn). cbn [orb]. do 2 f_equal.
    destruct neg; [done |]. symmetry. apply Z.mod_small. apply numeral_nonneg in Hn. lia.
  - rewrite Ht, Hf. cbn [sd_erange sd_end sd_value at_end orb negb]. by destruct value.
  - rewrite Ht. destruct (def_choices def) as [[| c cs] |]; [done | | done]. destruct Hc as [? | (p & Hp & Hq)]; [done |].
    replace (existsb _ _) with true; [done |]. symmetry. apply existsb_exists. exists p. by rewrite <- list_elem_of_In, split_choices_pieces, strcaseeq_caseless.
  - rewrite !elem_of_cons in Ht. by destruct Ht as [-> | [-> | [-> | ?%elem_of_nil]]].
Qed.
Lemma accepted_reads_back def value stored : accepts def value stored -> reads_back def stored.
Proof.
  unfold reads_back. intros [Ht Hy | Ht Hy | neg n Ht Hn Hr | neg n Ht Hm Hn Hr | f Ht Hne Hf | Ht Hc | Ht]; try (by rewrite Ht).
  - rewrite Ht. by exists true.
  - rewrite Ht. by exists false.
  - rewrite Ht. eexists. split; [reflexivity |]. apply print_long_reads. limits. lia.
  - rewrite Ht. eexists. split; [reflexivity |]. apply print_ulong_reads. limits. pose proof (Z.mod_pos_bound (if neg then - n else n) (2 ^ 64)). lia.
  - rewrite !elem_of_cons in Ht. by destruct Ht as [-> | [-> | [-> | ?%elem_of_nil]]].
Qed.

Lemma find_declared defcfg key def : cfg_defconfig_find defcfg (Some key) = Some def <-> declared defcfg key def.
Proof.
  unfold declared. destruct defcfg as [defs |]; cbn [cfg_defconfig_find]; [| split; [done | by intros (? & ? & ? & _)]].
  induction defs as [| e defs IH]; cbn [List.find].
  - split; [done |]. intros (before & after & [= H] & _). by destruct before.
  - destruct (strcaseeq (def_key e) key) eqn:He.
    + split.
      * intros [= <-]. exists [], defs. split_and!; [done | by apply strcaseeq_caseless | constructor].
      * intros (before & after & [= H] & Hk & Hb). destruct before as [| x before]; [by injection H as <- _ |]. injection H as <- _.
        apply Forall_cons in Hb as [Hb _]. by apply strcaseeq_caseless in He.
    + assert (Hne : ~ caseless (def_key e) key) by (rewrite <- strcaseeq_caseless; by rewrite He). rewrite IH. split.
      * intros (before & after & [= ->] & Hk & Hb). exists (e :: before), after. split_and!; [done | done | by constructor].
      * intros (before & after & [= H] & Hk & Hb). destruct before as [| x before]; injection H as -> H; [done |]. subst defs.
        apply Forall_cons in Hb as [_ Hb]. by exists before, after.
Qed.

(** C7: setting a value succeeds exactly when a configuration is live, the key is
    declared and the value is one that its declared type takes.  Then the text that
    belongs to the value is stored under the key, and nothing else changes; the
    callbacks of the key are called in their order, then those of a completed reload;
    and a truth value or integer is read back from the stored text by the readers of its
    type (an INT beyond [int] and a UINT beyond [unsigned] only by the long ones; the
    nine digits kept of a FLOAT may read as another number).  Otherwise nothing changes
    and nobody is called. *)
Theorem cfg_set_value_typed (defcfg : option (list defconfig)) (st : cfg_state) (key : option bstr) (value : option bstr)
    (Hready : match cfg st with Some d => store_ready 1 d | None => True end) (Hheap : cfg_heap st = []) :
  (forall d k def v stored, cfg st = Some d -> key = Some k -> declared defcfg k def -> value = Some v -> accepts def v stored ->
     reads_back def stored /\ exists d' of_key of_all,
       cfg_set_value defcfg st key value = Some (true, of_key ++ of_all, set_cfg st d') /\
       told (Some k) (reload_events st) of_key /\ told None (reload_events st) of_all /\
       cfg (set_cfg st d') = Some d' /\ dict_wf d' /\ dict_map d' = <[k := VStr (Some stored)]> (dict_map d)) /\
  ((forall d k def v stored, cfg st = Some d -> key = Some k -> declared defcfg k def -> value = Some v -> ~ accepts def v stored) ->
     cfg_set_value defcfg st key value = Some (false, [], st)).
Proof.
  split.
  - intros d k def v stored Hc -> Hdef -> Hacc. split; [by eapply accepted_reads_back |]. rewrite Hc in Hready. unfold cfg_set_value.
    rewrite Hc, (proj2 (find_declared _ _ _) Hdef), (canonical_complete _ _ _ Hacc), Hheap. unfold dict_add.
    destruct (dict_store_ready 1 [] d k (VStr (Some stored)) Hready ltac:(done)) as (rc & d' & o & -> & Hres & Ho).
    destruct (Ho eq_refl) as [-> ->]. destruct Hres as [(_ & [Hwf _ _ _ _] & Hm) | [? _]]; [| done].
    assert (Hst : with_heap (set_cfg st d') [] = set_cfg st d').
    { destruct st as [l df evs o]. cbn in Hheap. subst o. by destruct l. }
    exists d', (reload_event_run (reload_events st) (Some k)).2, (reload_event_run (reload_events st) None).2. cbn [mbind option_bind].
    change (negb (0 =? 0)) with false. rewrite Hst, set_cfg_events.
    split_and!; [done | apply run_told.. | by destruct st as [[]] | exact Hwf | exact Hm].
  - intros Hno. unfold cfg_set_value. destruct (cfg st) as [d |] eqn:Hc; [| done]. destruct (cfg_defconfig_find defcfg key) as [def |] eqn:Hdef; [| done].
    destruct value as [v |]; [| done]. destruct (canonical def v) as [stored |] eqn:Hs; [| done]. exfalso.
    destruct key as [k |]; [| done]. apply find_declared in Hdef. by apply (Hno d k def v stored), canonical_sound.
Qed.

Definition sample_defs : list defconfig :=
  [Defconfig (B "tx.power") (Some (B "5")) DEFCONFIG_INT None; Defconfig (B "mode") None DEFCONFIG_ENUM (Some (B "usb|lsb|cw"));
   Defconfig (B "fan.delay") None DEFCONFIG_UINT None].

Definition sample_events : list reload_event :=
  [ReloadEvent 1 (Some (B "TX.Power")) 101 None; ReloadEvent 2 None 102 None; ReloadEvent 3 (Some (B "mode")) 103 (Some (B "note"))].

Definition sample_state : cfg_state := CfgState (CfgOwn two_keys) None sample_events [].

Lemma cfg_set_value_typed_witness :
  exists d', cfg_set_value (Some sample_defs) sample_state (Some (B "tx.power")) (Some (B " +050")) =
      Some (true, [(101, Some (B "tx.power")); (102, None)], set_cfg sample_state d') /\
    dict_wf d' /\ dict_map d' = <[B "tx.power" := VStr (Some (B "50"))]> (dict_map two_keys).
Proof.
  destruct (cfg_set_value_typed (Some sample_defs) sample_state (Some (B "tx.power")) (Some (B " +050"))
    (store_ready_mono 10 1 two_keys ltac:(lia) two_keys_ready) eq_refl) as [H _].
  destruct (H two_keys (B "tx.power") (Defconfig (B "tx.power") (Some (B "5")) DEFCONFIG_INT None) (B " +050") (B "50"))
    as (_ & d' & of_key & of_all & Hs & Hk & Ha & _ & Hwf & Hm); [reflexivity | reflexivity | | reflexivity | |].
  - apply find_declared. reflexivity.
  - apply canonical_sound. vm_compute. reflexivity.
  - rewrite (told_unique _ _ _ _ Hk (run_told _ _)), (told_unique _ _ _ _ Ha (run_told _ _)) in Hs.
    exists d'. split; [exact Hs |]. split; [exact Hwf | exact Hm].
Defined.

(** A minus sign after white space passes the check for unsigned settings. *)
Lemma cfg_uint_accepts_negative :
  canonical (Defconfig (B "fan.delay") None DEFCONFIG_UINT None) (B " -1") = Some (B "18446744073709551615").
Proof. vm_compute. reflexivity. Qed.

(** ** Replacing the configuration *)

(** The keys the two configurations hold differently, each once. *)
Definition changed_keys (old new : dict) (keys : list bstr) : Prop :=
  NoDup keys /\ forall k, k ∈ keys <-> ~ unchanged (dict_map old !! k) (dict_map new !! k).

(** The calls for one changed key after the other, and for the completed reload. *)
Definition told_of (evs : list reload_event) (keys : list bstr) (calls : list reload_call) : Prop :=
  exists each last, Forall2 (fun k cs => told (Some k) evs cs) keys each /\ told None evs last /\ calls = concat each ++ last.

Lemma run_told_of evs keys :
  told_of evs keys (flat_map (fun k => (reload_event_run evs (Some k)).2) keys ++ (reload_event_run evs None).2).
Proof.
  exists (map (fun k => (reload_event_run evs (Some k)).2) keys), (reload_event_run evs None).2. split_and!; [| apply run_told | by rewrite flat_map_concat_map].
  induction keys as [| k keys IH]; cbn [map]; constructor; [apply run_told | apply IH].
Qed.

Lemma has_key_fold l wanted :
  exists go, fold_body l (fun k _ _ => Some (negb (streq k wanted), streq k wanted)) false =
    Some (go, bool_decide (wanted ∈ l.*1)).
Proof.
  induction l as [| [k v] l [go IH]]; [by exists true |]. cbn [fold_body fmap list_fmap fst].
  destruct (streq k wanted) eqn:Hk; cbn [negb mbind option_bind].
  - apply streq_true in Hk as ->. exists false. rewrite bool_decide_true; [done | by left].
  - rewrite IH. exists go. do 2 f_equal. apply bool_decide_ext. rewrite elem_of_cons. apply streq_false in Hk.
    split; [by right | by intros [-> |]].
Qed.

Lemma cfg_dict_has_key_map d k : dict_wf d -> cfg_dict_has_key d k = Some (bool_decide (is_Some (dict_map d !! k))).
Proof.
  intros Hwf. unfold cfg_dict_has_key. rewrite enum_all_spec by done.
  destruct (has_key_fold (dict_entries d) k) as [go ->]. cbn. f_equal. apply bool_decide_ext. rewrite <- (entries_map d).
  split.
  - intros Hin. apply list_elem_of_fmap in Hin as ([k' v] & -> & Hin). exists v.
    apply elem_of_list_to_map_1; [by apply entries_nodup | done].
  - intros [v Hv]. apply elem_of_list_to_map_2 in Hv. apply list_elem_of_fmap. by exists (k, v).
Qed.

(** How many of the keys satisfy [p]. *)
Definition count_keys (p : bstr -> bool) (keys : list bstr) : Z := Z.of_nat (length (base.filter (fun k => p k = true) keys)).

Definition holds (d : dict) (k : bstr) : bool := bool_decide (is_Some (dict_map d !! k)).

Lemma count_keys_cons p k keys : count_keys p (k :: keys) = (if p k then 1 else 0) + count_keys p keys.
Proof. unfold count_keys. rewrite filter_cons. destruct (p k); cbn; case_decide; try done; cbn [length]; lia. Qed.

Lemma count_keys_ext p q keys : (forall k, k ∈ keys -> p k = q k) -> count_keys p keys = count_keys q keys.
Proof.
  induction keys as [| k keys IH]; intros Hpq; [done |]. rewrite !count_keys_cons, (Hpq k) by by left.
  f_equal. apply IH. intros k' Hk'. apply Hpq. by right.
Qed.

Lemma notify_step evs now before k v a c r calls :
  dict_wf now -> dict_wf before ->
  notify_body evs now before k v (a, c, r, calls) =
  Some (true, (a + (if holds now k && negb (holds before k) then 1 else 0), c + (if holds now k && holds before k then 1 else 0),
               r + (if negb (holds now k) then 1 else 0), calls ++ (reload_event_run evs (Some k)).2)).
Proof.
  intros Hn Hb. unfold notify_body. rewrite !cfg_dict_has_key_map by done. cbn [mbind option_bind].
  fold (holds now k). fold (holds before k). destruct (holds now k), (holds before k); cbn [negb andb]; by rewrite !Z.add_0_r.
Qed.

Lemma notify_fold evs now before l a c r calls :
  dict_wf now -> dict_wf before ->
  fold_body l (notify_body evs now before) (a, c, r, calls) =
  Some (true, (a + count_keys (fun k => holds now k && negb (holds before k)) l.*1,
               c + count_keys (fun k => holds now k && holds before k) l.*1,
               r + count_keys (fun k => negb (holds now k)) l.*1,
               calls ++ flat_map (fun k => (reload_event_run evs (Some k)).2) l.*1)).
Proof.
  intros Hn Hb. revert a c r calls. induction l as [| [k v] l IH]; intros a c r calls.
  { cbn. unfold count_keys. cbn. by rewrite app_nil_r, !Z.add_0_r. }
  cbn [fold_body]. rewrite notify_step by done. cbn [mbind option_bind].
  cbn [fmap list_fmap fst flat_map]. by rewrite IH, !count_keys_cons, !Z.add_assoc, app_assoc.
Qed.

(** C6: replacing the configuration makes the live dictionary hold exactly the
    new entries, and calls exactly the callbacks for the keys whose value or type
    differs, each key once and in one pass, then those of a completed reload; the
    counts of added, changed and removed keys are right.  Where the program runs
    on its defaults the replacement overwrites the defaults too.  When memory
    runs out nothing changes and nobody is told. *)
Theorem cfg_apply_new_notifies (st : cfg_state) (old new : dict)
    (Hold : cfg st = Some old) (Hwo : dict_wf old) (Hno : has_null (table old))
    (Hwn : dict_wf new) (Hnn : has_null (table new)) (Hsmall : used old + used new < 2 ^ 28) :
  exists ok calls counts st', cfg_apply_new st (Some new) = Some (ok, calls, counts, st') /\
    (cfg_heap st = [] -> ok = true) /\
    (ok = true -> exists keys d, changed_keys old new keys /\
      told_of (reload_events st) keys calls /\
      counts = (count_keys (fun k => negb (holds old k)) keys,
                count_keys (fun k => holds new k && holds old k) keys, count_keys (fun k => negb (holds new k)) keys) /\
      cfg st' = Some d /\ dict_wf d /\ dict_map d = dict_map new /\ reload_events st' = reload_events st /\
      default_cfg st' = match live st with CfgDefault => Some d | _ => default_cfg st end) /\
    (ok = false -> calls = [] /\ cfg st' = cfg st /\ default_cfg st' = default_cfg st).
Proof.
  unfold cfg_apply_new. rewrite Hold.
  destruct (dict_diff_spec (cfg_heap st) old new Hwo Hwn Hno Hnn Hsmall) as (r & o & -> & Hdiff & Ho).
  cbn [mbind option_bind]. destruct r as [changes |].
  2:{ eexists _, _, _, _. split; [done |]. split_and!; [| done | by destruct st].
      intros Hh. by destruct (Ho Hh) as [[? ?] _]. }
  destruct Hdiff as (Hcw & _ & Hcm). assert (0 <= used old) by (rewrite <- dict_map_size by done; lia).
  destruct (dict_clone_spec o new Hwn ltac:(lia)) as (r & o2 & -> & Hclone & Ho2). cbn [mbind option_bind].
  destruct r as [staged |].
  2:{ eexists _, _, _, _. split; [done |]. split_and!; [| done | by destruct st].
      intros Hh. destruct (Ho Hh) as [_ ->]. by destruct (Ho2 eq_refl) as [[? ?] _]. }
  destruct Hclone as (Hsw & _ & _ & Hsm). rewrite enum_all_spec, notify_fold by done. cbn [mbind option_bind app].
  eexists _, _, _, _. split; [done |]. split_and!; [done | | done]. intros _.
  exists (dict_entries changes).*1, staged. rewrite !Z.add_0_l.
  assert (Hkeys : changed_keys old new (dict_entries changes).*1).
  { split; [by apply entries_nodup |]. intros k. rewrite <- diff_spec_unchanged, <- Hcm, <- (entries_map changes). split.
    - intros Hin. apply list_elem_of_fmap in Hin as ([k' v] & -> & Hin).
      by rewrite (elem_of_list_to_map_1 _ _ v) by (done || by apply entries_nodup).
    - intros Hv. apply not_eq_None_Some in Hv as [v Hv]. apply elem_of_list_to_map_2 in Hv.
      apply list_elem_of_fmap. by exists (k, v). }
  assert (Hh : forall k, holds staged k = holds new k) by (intros k; unfold holds; by rewrite Hsm).
  split_and!; [done | apply run_told_of | | by destruct st as [[]] | done | done | by destruct st as [[]] | by destruct st as [[]]].
  assert (Hnew : forall k, k ∈ (dict_entries changes).*1 -> holds new k && negb (holds old k) = negb (holds old k)).
  { intros k Hk. apply Hkeys in Hk. unfold holds, unchanged in *.
    destruct (dict_map new !! k), (dict_map old !! k); done. }
  f_equal; [f_equal |]; apply count_keys_ext; intros k Hk; rewrite Hh; [by apply Hnew | done | done].
Qed.

(** The port goes, the user comes; two callbacks wait for reloads and one for the user. *)
Definition user_events : list reload_event := [ReloadEvent 1 (Some (B "USER")) 101 None; ReloadEvent 2 None 102 None].

Lemma cfg_apply_new_notifies_witness :
  exists counts st' keys calls, cfg_apply_new (CfgState (CfgOwn two_keys) None user_events []) (Some other_keys) = Some (true, calls, counts, st') /\
    changed_keys two_keys other_keys keys /\ told_of user_events keys calls /\ dict_map <$> cfg st' = Some (dict_map other_keys).
Proof.
  assert (Ho : store_ready 10 other_keys).
  { unfold other_keys. do 2 (apply put_ready; [| lia]). by apply empty_ready. }
  destruct two_keys_ready as [H1 _ H3 _ _], Ho as [H1' _ H3' _ _].
  destruct (cfg_apply_new_notifies (CfgState (CfgOwn two_keys) None user_events []) two_keys other_keys eq_refl H1 H3 H1' H3' ltac:(by vm_compute))
    as (ok & calls & counts & st' & Heq & Hheap & Hok & _).
  specialize (Hheap eq_refl). subst ok. destruct (Hok eq_refl) as (keys & d & Hkeys & Ht & _ & Hcfg & _ & Hm & _).
  exists counts, st', keys, calls. split; [exact Heq |]. split; [exact Hkeys |]. split; [exact Ht |]. rewrite Hcfg. cbn. by rewrite Hm.
Defined.
