(* ===== verification/Logger.v ===== *)
(** * The logger (logger.c)

    Severities, filters with their text form, the rate limiter, and the way of a
    message: queued by any caller, delivered by the drain to callbacks and
    streams.  [fnmatch], the conversion of times and the clocks are parameters; a
    message is the text [printf] makes of it.  Callbacks do not log themselves or
    change the list of callbacks. *)

From S2P Require Import Prelude CString ConfigText LogQueue.

#[local] Open Scope Z_scope.

(** [fnmatch(pattern, s, 0) == 0], and [localtime_r] with [strftime] in the format
    of the log: [None] if the time cannot be converted, empty if it does not fit. *)
Class LogEnv := { glob : bstr -> bstr -> bool; localtime : Z -> option bstr }.

(** ** Severities *)

Definition LOG_NONE : Z := -1.
Definition LOG_CRIT : Z := 0.
Definition LOG_AUDIT : Z := 1.
Definition LOG_WARN : Z := 2.
Definition LOG_INFO : Z := 3.
Definition LOG_DEBUG : Z := 4.
Definition LOG_CRAZY : Z := 5.
Definition LOG_BLITZKREIG : Z := 6.
Definition DEFAULT_LOG_LEVEL : Z := LOG_DEBUG.

Definition log_priorities : list (Z * bstr) :=
  [(LOG_AUDIT, B "audit"); (LOG_CRIT, B "crit"); (LOG_WARN, B "warn"); (LOG_INFO, B "info"); (LOG_DEBUG, B "debug");
   (LOG_CRAZY, B "crazy"); (LOG_BLITZKREIG, B "blitz"); (LOG_NONE, B " NONE")].

Definition log_priority_from_str (priority : bstr) : Z :=
  match List.find (fun p => strcaseeq p.2 priority) log_priorities with Some p => p.1 | None => LOG_NONE end.

Definition log_priority_to_str (priority : Z) : bstr :=
  match List.find (fun p => p.1 =? priority) log_priorities with Some p => p.2 | None => B " NONE" end.

(** ** Rates: [count/duration] with a unit *)

(** [strcmp(str, "s")] and so on; 0 is no unit. *)
Definition rate_factor (str : bstr) : Z :=
  if streq str (B "s") then 1 else if streq str (B "m") then 60 else if streq str (B "h") then 3600 else 0.

Definition log_rate_parse (str : option bstr) : option (Z * Z) :=
  match str with
  | None | Some [] => None
  | Some str =>
      let r := strtoull str in
      if st_erange r || (st_value r =? 0) || (1000000 <? st_value r) || negb (starts_with (st_end r) "/"%char) then None
      else
        let str := drop 1 (st_end r) in
        let '(duration, str) :=
          match str with
          | c :: _ => if isdigit c then (st_value (strtoull str), st_end (strtoull str)) else (1, str)
          | [] => (1, str)
          end in
        let factor := rate_factor str in
        if (factor =? 0) || (duration =? 0) || (86400 / factor <? duration) then None
        else Some (st_value r, duration * factor)
  end.

(** ** Filters *)

(** [struct log_filter]; the list starts with the latest. *)
Record log_filter := LogFilter { f_pattern : bstr; f_level : Z; rate_count : Z; rate_seconds : Z }.

Definition log_add_filter_rate (o : allocs) (filters : list log_filter) (pattern : bstr) (level count seconds : Z)
    : bool * list log_filter * allocs :=
  let '(ok, o) := alloc o in
  if negb ok then (false, filters, o)
  else
    let '(ok, o) := alloc o in
    if negb ok then (false, filters, o) else (true, LogFilter pattern level count seconds :: filters, o).

Definition log_add_filter o filters pattern level := log_add_filter_rate o filters pattern level 0 0.

(** The pieces of the setting between white space and commas. *)
Fixpoint filter_tokens (cur : bstr) (s : bstr) : list bstr :=
  match s with
  | [] => match cur with [] => [] | _ => [cur] end
  | c :: s =>
      if isspace c || ceq c "," then match cur with [] => filter_tokens [] s | _ => cur :: filter_tokens [] s end
      else filter_tokens (cur ++ [c]) s
  end.

(** [subsystem:level] or [subsystem:level@rate]; [None] aborts. *)
Definition load_token (o : allocs) (filters : list log_filter) (tok : bstr) : option (list log_filter * allocs) :=
  match split_at tok ":"%char with
  | None => Some (filters, o)
  | Some (subsys, level_str) =>
      let '(level_str, rate) :=
        match split_at level_str "@"%char with
        | Some (l, r) => (l, match log_rate_parse (Some r) with Some cs => Some cs | None => None end)
        | None => (level_str, Some (0, 0))
        end in
      match rate with
      | None => Some (filters, o)
      | Some (count, seconds) =>
          let level := log_priority_from_str level_str in
          if level =? LOG_NONE then Some (filters, o)
          else
            let '(ok, filters, o) :=
              if (2 <=? length subsys)%nat && streq (drop (length subsys - 2) subsys) (B ".*") then
                let '(ok, o) := alloc o in                          (* strndup *)
                if negb ok then (false, filters, o)
                else let '(_, filters, o) := log_add_filter_rate o filters (take (length subsys - 2) subsys) level count seconds in
                     (true, filters, o)
              else (true, filters, o) in
            if negb ok then None
            else let '(_, filters, o) := log_add_filter_rate o filters subsys level count seconds in Some (filters, o)
      end
  end.

Fixpoint load_tokens (o : allocs) (filters : list log_filter) (toks : list bstr) : option (list log_filter * allocs) :=
  match toks with
  | [] => Some (filters, o)
  | tok :: toks => '(filters, o) ← load_token o filters tok; load_tokens o filters toks
  end.

(** [cfg]: the value of [log.level]. *)
Definition load_log_filters_from_config (o : allocs) (filters : list log_filter) (cfg : option bstr) : option (list log_filter * allocs) :=
  match cfg with
  | None => Some (filters, o)
  | Some cfg =>
      let '(ok, o) := alloc o in
      if negb ok then None else load_tokens o filters (filter_tokens [] cfg)
  end.

Section logging.
Context `{LogEnv}.

(** The longest matching pattern, the latest of those of equal length. *)
Fixpoint best_filter (best : option log_filter) (filters : list log_filter) (subsys : bstr) : option log_filter :=
  match filters with
  | [] => best
  | f :: filters =>
      let better := match best with None => true | Some b => (length (f_pattern b) <? length (f_pattern f))%nat end in
      best_filter (if glob (f_pattern f) subsys && better then Some f else best) filters subsys
  end.

Definition log_matching_filter (filters : list log_filter) (subsys : bstr) : option log_filter := best_filter None filters subsys.

Definition debug_filter (filters : list log_filter) (subsys : option bstr) (msg_level : Z) : bool :=
  match log_matching_filter filters (default [] subsys) with
  | Some best => f_level best <? msg_level
  | None => DEFAULT_LOG_LEVEL <? msg_level
  end.

(** ** Rate limiting *)

(** [struct log_rate_slot] *)
Record rate_slot := RateSlot {
  rs_subsys : bstr; rs_priority : Z; emitted : Z; suppressed : Z; window_start : Z; rs_used : bool }.

Definition LOG_RATE_SLOTS : nat := 256.
Definition empty_slot : rate_slot := RateSlot [] 0 0 0 0 false.
Definition rate_slots_init : list rate_slot := replicate LOG_RATE_SLOTS empty_slot.

Fixpoint find_slot (p : rate_slot -> bool) (slots : list rate_slot) : option nat :=
  match slots with
  | [] => None
  | s :: slots => if p s then Some O else S <$> find_slot p slots
  end.

Definition slot_is (subsys : bstr) (level : Z) (s : rate_slot) : bool :=
  rs_used s && (rs_priority s =? level) && streq (rs_subsys s) subsys.

(** The window of a slot at a time: what a new one reports of the last. *)
Definition slot_window (s : rate_slot) (now seconds : Z) : Z * rate_slot :=
  if (seconds <=? now - window_start s) || (now <? window_start s)
  then (suppressed s, RateSlot (rs_subsys s) (rs_priority s) 0 0 now true)
  else (0, s).

(** One message against the slot of its key. *)
Definition slot_allow (s : rate_slot) (now count seconds : Z) : bool * Z * rate_slot :=
  let '(skipped, s) := slot_window s now seconds in
  if count <=? emitted s then
    (false, skipped, RateSlot (rs_subsys s) (rs_priority s) (emitted s)
       (if suppressed s <? UINT_MAX then suppressed s + 1 else suppressed s) (window_start s) (rs_used s))
  else (true, skipped, RateSlot (rs_subsys s) (rs_priority s) (u32 (emitted s + 1)) (suppressed s) (window_start s) (rs_used s)).

(** [clock]: CLOCK_MONOTONIC in seconds, if it can be read. *)
Definition log_rate_allowed (slots : list rate_slot) (clock : option Z) (subsys : bstr) (level count seconds : Z)
    : bool * Z * list rate_slot :=
  if (count =? 0) || (level <=? LOG_AUDIT) then (true, 0, slots)
  else
    match clock with
    | None => (true, 0, slots)
    | Some now =>
        let found :=
          match find_slot (slot_is subsys level) slots with
          | Some i => Some (i, default empty_slot (slots !! i))
          | None =>
              match find_slot (fun s => negb (rs_used s)) slots with
              | Some i => Some (i, RateSlot (take 127 subsys) level 0 0 now true)
              | None => None
              end
          end in
        match found with
        | None => (true, 0, slots)
        | Some (i, s) =>
            let '(ok, skipped, s) := slot_allow s now count seconds in (ok, skipped, <[i := s]> slots)
        end
    end.

(** ** Delivery *)

Definition LOG_CALLBACK_RAW : Z := 0.
Definition LOG_CALLBACK_FILTERED : Z := 1.

(** [struct log_callback]; the token is the address of the entry, a NULL
    function is 0. *)
Record log_callback := LogCallback { cb_token : Z; callback : Z; policy : Z }.

Inductive log_file := NoFile | Stdout | OtherFile.

(** The state of the logger; [log_callbacks] in the order of registration. *)
Record logger := Logger {
  log_filters : list log_filter;
  log_rate_slots : list rate_slot;
  log_callbacks : list log_callback;
  log_raw_subscribers : Z;
  worker_log_queue : option log_queue;
  worker_logging_enabled : bool;
  logger_owner_valid : bool;
  logger_drops_reported : Z;
  cfg_log_show_ts : bool;
  last_ts_update : Z;
  latest_timestamp : bstr;
  tui_mode_enabled : bool;
  log_stdout : bool;
  logfp : log_file }.

(** What is outside the logger at a call: CLOCK_MONOTONIC, the program's [now],
    CLOCK_REALTIME, whether the queue's lock is held, whether [malloc] succeeds. *)
Record moment := Moment { mono : option Z; now : Z; wall : Z; contended : bool; mem : bool }.

(** What a message causes: a callback is called, a line is written. *)
Inductive log_event :=
| Called (callback : Z) (priority : Z) (subsys msg : bstr)
| Written (stream : log_file) (line : bstr).

Definition log_line (show_ts : bool) (ts : bstr) (priority : Z) (subsys msg : bstr) (skipped : Z) : bstr :=
  (if show_ts then B "[" ++ ts ++ B "] " else []) ++ B "<" ++ subsys ++ B "@" ++ log_priority_to_str priority ++ B "> " ++ msg ++
  (if skipped =? 0 then [] else B " [rate limit: " ++ print_dec skipped ++ B " earlier messages suppressed]") ++ [LF].

(** The streams of a line: the log file, then stdout. *)
Definition log_streams (st : logger) : list log_file :=
  (match logfp st with NoFile => [] | f => [f] end) ++
  (if negb (tui_mode_enabled st) && (match logfp st with NoFile => true | _ => log_stdout st end) &&
      negb (match logfp st with Stdout => true | _ => false end)
   then [Stdout] else []).

(** *** Assignments to the globals *)
Definition set_filters (l : list log_filter) (st : logger) : logger :=
  Logger l (log_rate_slots st) (log_callbacks st) (log_raw_subscribers st) (worker_log_queue st) (worker_logging_enabled st)
    (logger_owner_valid st) (logger_drops_reported st) (cfg_log_show_ts st) (last_ts_update st) (latest_timestamp st)
    (tui_mode_enabled st) (log_stdout st) (logfp st).
Definition set_slots (l : list rate_slot) (st : logger) : logger :=
  Logger (log_filters st) l (log_callbacks st) (log_raw_subscribers st) (worker_log_queue st) (worker_logging_enabled st)
    (logger_owner_valid st) (logger_drops_reported st) (cfg_log_show_ts st) (last_ts_update st) (latest_timestamp st)
    (tui_mode_enabled st) (log_stdout st) (logfp st).
Definition set_callbacks (l : list log_callback) (raw : Z) (st : logger) : logger :=
  Logger (log_filters st) (log_rate_slots st) l raw (worker_log_queue st) (worker_logging_enabled st)
    (logger_owner_valid st) (logger_drops_reported st) (cfg_log_show_ts st) (last_ts_update st) (latest_timestamp st)
    (tui_mode_enabled st) (log_stdout st) (logfp st).
Definition set_queue (q : option log_queue) (st : logger) : logger :=
  Logger (log_filters st) (log_rate_slots st) (log_callbacks st) (log_raw_subscribers st) q (worker_logging_enabled st)
    (logger_owner_valid st) (logger_drops_reported st) (cfg_log_show_ts st) (last_ts_update st) (latest_timestamp st)
    (tui_mode_enabled st) (log_stdout st) (logfp st).
Definition set_worker (enabled owner : bool) (drops : Z) (st : logger) : logger :=
  Logger (log_filters st) (log_rate_slots st) (log_callbacks st) (log_raw_subscribers st) (worker_log_queue st) enabled
    owner drops (cfg_log_show_ts st) (last_ts_update st) (latest_timestamp st)
    (tui_mode_enabled st) (log_stdout st) (logfp st).
Definition set_timestamp (last : Z) (ts : bstr) (st : logger) : logger :=
  Logger (log_filters st) (log_rate_slots st) (log_callbacks st) (log_raw_subscribers st) (worker_log_queue st) (worker_logging_enabled st)
    (logger_owner_valid st) (logger_drops_reported st) (cfg_log_show_ts st) last ts
    (tui_mode_enabled st) (log_stdout st) (logfp st).
Definition set_output (show_ts tui : bool) (fp : log_file) (st : logger) : logger :=
  Logger (log_filters st) (log_rate_slots st) (log_callbacks st) (log_raw_subscribers st) (worker_log_queue st) (worker_logging_enabled st)
    (logger_owner_valid st) (logger_drops_reported st) show_ts (last_ts_update st) (latest_timestamp st)
    tui (log_stdout st) fp.

Definition logger_set_show_timestamp (enabled : bool) (st : logger) : logger :=
  set_output enabled (tui_mode_enabled st) (logfp st) st.

(** At most one conversion per second; 1 if the time cannot be converted. *)
Definition update_timestamp (now : Z) (st : logger) : Z * logger :=
  if now <=? last_ts_update st then (0, st)
  else
    match localtime now with
    | Some [] => (0, set_timestamp now (B "<" ++ print_dec (u64 now) ++ B ">") st)
    | Some ts => (0, set_timestamp now ts st)
    | None => (1, set_timestamp now [] st)
    end.

(** Whether the message is shown, with the number of suppressed ones to mention. *)
Definition log_allowed (st : logger) (clock : option Z) (priority : Z) (subsys : bstr) : bool * Z * logger :=
  if debug_filter (log_filters st) (Some subsys) priority then (false, 0, st)
  else
    match log_matching_filter (log_filters st) subsys with
    | None => (true, 0, st)
    | Some f =>
        let '(ok, skipped, slots) := log_rate_allowed (log_rate_slots st) clock subsys priority (rate_count f) (rate_seconds f) in
        (ok, skipped, set_slots slots st)
    end.

Definition call_callbacks (cbs : list log_callback) (allowed : bool) (priority : Z) (subsys msg : bstr) : list log_event :=
  if priority =? LOG_CRAZY then []
  else flat_map (fun cb =>
         if negb (callback cb =? 0) && ((policy cb =? LOG_CALLBACK_RAW) || allowed)
         then [Called (callback cb) priority subsys msg] else []) cbs.

(** [Log] without the queue: callbacks and streams.  [submitted]: the time of the
    record being delivered, [None] for a call outside a delivery. *)
Definition log_deliver (st : logger) (m : moment) (submitted : option Z) (priority : Z) (subsys msg : bstr) : list log_event * logger :=
  let '(allowed, skipped, st) := log_allowed st (mono m) priority subsys in
  let called := call_callbacks (log_callbacks st) allowed priority subsys msg in
  if negb allowed then (called, st)
  else
    let '(ts, st) :=
      if negb (cfg_log_show_ts st) then ([], st)
      else
        match submitted with
        | Some t => (default [] (localtime t), st)
        | None => let '(_, st) := update_timestamp (now m) st in (latest_timestamp st, st)
        end in
    if negb (mem m) then (called, st)
    else (called ++ map (fun f => Written f (log_line (cfg_log_show_ts st) ts priority subsys msg skipped)) (log_streams st), st).

(** [Log] outside a delivery. *)
Definition Log (st : logger) (m : moment) (priority : Z) (subsys msg : option bstr) : list log_event * logger :=
  match subsys, msg with
  | Some subsys, Some msg =>
      if logger_owner_valid st then
        if worker_logging_enabled st && (negb (debug_filter (log_filters st) (Some subsys) priority) || negb (log_raw_subscribers st =? 0)) then
          match worker_log_queue st with
          | Some q => ([], set_queue (Some (ra_log_queue_push q (contended m) priority (wall m) (Some subsys) (Some (snprintf_s 1024 msg))).2) st)
          | None => ([], st)
          end
        else ([], st)
      else log_deliver st m None priority subsys msg
  | _, _ => ([], st)
  end.

(** The records of a drain, each through [Log] with its own time. *)
Fixpoint deliver_all (st : logger) (m : moment) (items : list log_record) : list log_event * logger :=
  match items with
  | [] => ([], st)
  | r :: items =>
      let '(e1, st) := log_deliver st m (Some (submitted r)) (level r) (subsystem r) (log_message r) in
      let '(e2, st) := deliver_all st m items in (e1 ++ e2, st)
  end.

(** [ra_log_queue_drain] on the logger's queue. *)
Definition drain_queue (st : logger) (m : moment) (max_records : nat) : nat * list log_event * logger :=
  match worker_log_queue st with
  | None => (0%nat, [], st)
  | Some q =>
      let '(items, q) := ra_log_queue_drain q max_records in
      let '(events, st) := deliver_all (set_queue (Some q) st) m items in (length items, events, st)
  end.

Definition queue_depth (st : logger) : Z := match worker_log_queue st with Some q => q_length q | None => 0 end.
Definition queue_dropped (st : logger) : Z := match worker_log_queue st with Some q => dropped q | None => 0 end.

Definition slow_message (processed : nat) (drain_us backlog after : Z) : bstr :=
  B "Slow worker log drain: " ++ print_dec (Z.of_nat processed) ++ B " records in " ++ print_dec drain_us ++ B "us; backlog-before=" ++
  print_dec backlog ++ B " backlog-after=" ++ print_dec after.

Definition drops_message (delta : Z) (q : log_queue) : bstr :=
  B "Worker log queue dropped " ++ print_dec delta ++ B " records (total " ++ print_dec (dropped q) ++ B "; contention=" ++
  print_dec (contention_dropped q) ++ B " full=" ++ print_dec (full_dropped q) ++ B ")".

(** One tick: 512 records at most, then the reports of a slow drain and of
    drops, which are themselves queued.  The first result is G_SOURCE_CONTINUE. *)
Definition logger_drain_tick (st : logger) (m : moment) (drain_us : Z) : bool * list log_event * logger :=
  if negb (worker_logging_enabled st) then (false, [], st)
  else
    let backlog := queue_depth st in
    let '(processed, e1, st) := drain_queue st m 512 in
    let '(e2, st) :=
      if 40000 <? drain_us then Log st m LOG_WARN (Some (B "logger")) (Some (slow_message processed drain_us backlog (queue_depth st)))
      else ([], st) in
    let '(e3, st) :=
      if queue_dropped st =? logger_drops_reported st then ([], st)
      else
        let delta := u64 (queue_dropped st - logger_drops_reported st) in
        let st := set_worker (worker_logging_enabled st) (logger_owner_valid st) (queue_dropped st) st in
        match worker_log_queue st with
        | Some q => Log st m LOG_WARN (Some (B "logger")) (Some (drops_message delta q))
        | None => ([], st)
        end in
    (true, e1 ++ e2 ++ e3, st).

(** ** Start and end *)

Definition log_clear_filters (st : logger) : logger := set_slots rate_slots_init (set_filters [] st).

(** [show_ts], [async], [level]: the settings [log.show-ts], [log.async-workers] and
    [log.level]; [opens]: whether [fopen] succeeds; [memory]: of the queue; [None] aborts. *)
Definition logger_init (st : logger) (logfile : bstr) (tui_mode show_ts async opens memory : bool) (level : option bstr) (o : allocs)
    : option (logger * allocs) :=
  let fp :=
    if streq logfile (B "-") then Stdout
    else match logfp st with NoFile => if opens then OtherFile else Stdout | f => f end in
  let st := set_output show_ts tui_mode fp st in
  let st :=
    if async then
      let st := match worker_log_queue st with None => set_queue (ra_log_queue_new memory 8192) st | Some _ => st end in
      match worker_log_queue st with
      | Some q => if worker_logging_enabled st then st else set_worker true true (dropped q) st
      | None => st
      end
    else st in
  '(filters, o) ← load_log_filters_from_config o (log_filters st) level;
  Some (set_filters filters st, o).

(** The drain has no limit, which is as many records as there are. *)
Definition logger_end (st : logger) (m : moment) : list log_event * logger :=
  let '(events, st) :=
    match worker_log_queue st with
    | Some q =>
        let st := set_worker false (logger_owner_valid st) (logger_drops_reported st) st in
        let '(_, events, st) := drain_queue st m (Z.to_nat (q_length q)) in (events, st)
    | None => ([], st)
    end in
  (events, log_clear_filters (set_callbacks [] 0 (set_output (cfg_log_show_ts st) (tui_mode_enabled st) NoFile st))).

End logging.

(** ** Callbacks *)

(** [before]: the entries already passed. *)
Fixpoint remove_token (tok : Z) (before cbs : list log_callback) : option (log_callback * list log_callback) :=
  match cbs with
  | [] => None
  | cb :: cbs => if cb_token cb =? tok then Some (cb, before ++ cbs) else remove_token tok (before ++ [cb]) cbs
  end.

Definition log_remove_callback (st : logger) (tok : Z) : bool * logger :=
  match remove_token tok [] (log_callbacks st) with
  | Some (cb, cbs) =>
      (true, set_callbacks cbs (if policy cb =? LOG_CALLBACK_RAW then u32 (log_raw_subscribers st - 1) else log_raw_subscribers st) st)
  | None => (false, st)
  end.

(** [tok]: what [malloc] returns, 0 for NULL. *)
Definition log_add_callback_token (st : logger) (tok cb pol : Z) : Z * logger :=
  if negb (pol =? LOG_CALLBACK_RAW) && negb (pol =? LOG_CALLBACK_FILTERED) then (0, st)
  else if tok =? 0 then (0, st)
  else
    (tok, set_callbacks (log_callbacks st ++ [LogCallback tok cb pol])
            (if pol =? LOG_CALLBACK_RAW then u32 (log_raw_subscribers st + 1) else log_raw_subscribers st) st).

Definition log_add_callback (st : logger) (tok cb pol : Z) : bool * logger :=
  let '(tok, st) := log_add_callback_token st tok cb pol in (negb (tok =? 0), st).
