(* ===== verification/LoggerRate.v ===== *)
(** * The rate limiter of the logger (logger.c, [log_rate_allowed])

    The table of 256 slots behaves as one window per subsystem and severity: an
    abstract limiter on a finite map, what the table refines it to, and how many
    messages it can let through. *)

From Stdlib Require Import Sorted.
From S2P Require Import Prelude CString ConfigText LogQueue Logger.

#[local] Open Scope Z_scope.

(** A message that asks to be shown. *)
Record request := Request { r_time : Z; r_subsys : bstr; r_level : Z; r_count : Z; r_seconds : Z }.
Abbreviation outcome := (request * (bool * Z))%type.

Fixpoint rate_run (slots : list rate_slot) (reqs : list request) : list outcome * list rate_slot :=
  match reqs with
  | [] => ([], slots)
  | r :: reqs =>
      let '(ok, skipped, slots) := log_rate_allowed slots (Some (r_time r)) (r_subsys r) (r_level r) (r_count r) (r_seconds r) in
      let '(out, slots) := rate_run slots reqs in ((r, (ok, skipped)) :: out, slots)
  end.

(** ** The abstract limiter *)

Record window := Window { w_emitted : Z; w_suppressed : Z; w_start : Z }.
Abbreviation key := (bstr * Z)%type.
Abbreviation limiter := (gmap key window).

Definition r_key (r : request) : key := (r_subsys r, r_level r).
Definition limited (r : request) : bool := negb (r_count r =? 0) && (LOG_AUDIT <? r_level r).

(** One message of a window: a new window first, when the old one is over. *)
Definition window_step (w : window) (now count seconds : Z) : bool * Z * window :=
  let '(skipped, w) :=
    if (seconds <=? now - w_start w) || (now <? w_start w) then (w_suppressed w, Window 0 0 now) else (0, w) in
  if w_emitted w <? count then (true, skipped, Window (w_emitted w + 1) (w_suppressed w) (w_start w))
  else (false, skipped, Window (w_emitted w) (Z.min UINT_MAX (w_suppressed w + 1)) (w_start w)).

(** A key beyond the capacity is not limited. *)
Definition limit_step (l : limiter) (r : request) : bool * Z * limiter :=
  if negb (limited r) then (true, 0, l)
  else
    match l !! r_key r with
    | None => if (size l =? LOG_RATE_SLOTS)%nat then (true, 0, l)
              else let '(ok, skipped, w) := window_step (Window 0 0 (r_time r)) (r_time r) (r_count r) (r_seconds r) in
                   (ok, skipped, <[r_key r := w]> l)
    | Some w => let '(ok, skipped, w) := window_step w (r_time r) (r_count r) (r_seconds r) in (ok, skipped, <[r_key r := w]> l)
    end.

Fixpoint limit_run (l : limiter) (reqs : list request) : list outcome * limiter :=
  match reqs with
  | [] => ([], l)
  | r :: reqs =>
      let '(ok, skipped, l) := limit_step l r in
      let '(out, l) := limit_run l reqs in ((r, (ok, skipped)) :: out, l)
  end.

(** ** The table stands for a limiter *)

Definition slot_of (kw : key * window) : rate_slot :=
  RateSlot kw.1.1 kw.1.2 (w_emitted kw.2) (w_suppressed kw.2) (w_start kw.2) true.

(** The used slots are the first ones. *)
Record table_of (slots : list rate_slot) (ks : list (key * window)) : Prop := {
  to_slots : slots = map slot_of ks ++ replicate (LOG_RATE_SLOTS - length ks) empty_slot;
  to_room : (length ks <= LOG_RATE_SLOTS)%nat;
  to_keys : NoDup ks.*1;
  to_short : Forall (fun kw => (length kw.1.1 < 128)%nat) ks;
  to_counts : Forall (fun kw => 0 <= w_emitted kw.2 < 2 ^ 32 /\ 0 <= w_suppressed kw.2 <= UINT_MAX) ks
}.

Definition window_ok (w : window) : Prop := 0 <= w_emitted w < 2 ^ 32 /\ 0 <= w_suppressed w <= UINT_MAX.

Lemma window_step_ok w now count seconds :
  window_ok w -> count < 2 ^ 32 -> window_ok (window_step w now count seconds).2.
Proof.
  unfold window_ok, window_step, UINT_MAX. intros [H1 H2] Hc.
  destruct (_ || _); cbn [w_emitted w_suppressed]; case_match; cbn; lia.
Qed.

Lemma new_window_ok now : window_ok (Window 0 0 now).
Proof. unfold window_ok, UINT_MAX. cbn. lia. Qed.

Lemma slot_allow_step k w now count seconds :
  window_ok w -> count < 2 ^ 32 ->
  slot_allow (slot_of (k, w)) now count seconds =
  (let '(ok, skipped, w) := window_step w now count seconds in (ok, skipped, slot_of (k, w))).
Proof.
  intros [H1 H2] Hc. unfold slot_allow, slot_window, window_step. cbn [window_start slot_of snd fst].
  assert (Hm : forall s, 0 <= s <= UINT_MAX -> (if s <? UINT_MAX then s + 1 else s) = Z.min UINT_MAX (s + 1)).
  { intros s Hs. destruct (Z.ltb_spec s UINT_MAX); lia. }
  destruct (_ || _); cbn [emitted suppressed w_emitted w_suppressed rs_subsys rs_priority window_start rs_used w_start suppressed slot_of fst snd].
  - destruct (Z.leb_spec count 0), (Z.ltb_spec 0 count); try lia; [| done]. unfold slot_of. cbn.
    unfold UINT_MAX in *. done.
  - destruct (Z.leb_spec count (w_emitted w)), (Z.ltb_spec (w_emitted w) count); try lia.
    + unfold slot_of. cbn. by rewrite Hm.
    + unfold slot_of. cbn. by rewrite u32_small by lia.
Qed.

(** ** Finding a slot *)

Lemma find_slot_none p slots : Forall (fun s => p s = false) slots -> find_slot p slots = None.
Proof. induction 1 as [| s slots Hs _ IH]; cbn; [done |]. by rewrite Hs, IH. Qed.

Lemma find_slot_app p l1 s l2 :
  Forall (fun s => p s = false) l1 -> p s = true -> find_slot p (l1 ++ s :: l2) = Some (length l1).
Proof. intros H Hs. induction H as [| x l1 Hx _ IH]; cbn; [by rewrite Hs |]. by rewrite Hx, IH. Qed.

Lemma slot_is_of k kw : slot_is k.1 k.2 (slot_of kw) = bool_decide (kw.1 = k).
Proof.
  destruct k as [s l], kw as [[s' l'] w]. unfold slot_is, slot_of, streq. cbn. apply eq_true_iff_eq.
  rewrite andb_true_iff, Z.eqb_eq, !bool_decide_eq_true. split; [by intros [-> ->] | by intros [= -> ->]].
Qed.

Lemma slot_is_empty k : slot_is k.1 k.2 empty_slot = false.
Proof. done. Qed.

Lemma find_key ks n (k : key) :
  find_slot (slot_is k.1 k.2) (map slot_of ks ++ replicate n empty_slot) =
  match list_find (fun kw => kw.1 = k) ks with Some (i, _) => Some i | None => None end.
Proof.
  induction ks as [| kw ks IH].
  - apply find_slot_none. apply Forall_replicate, slot_is_empty.
  - cbn [map app find_slot list_find]. rewrite slot_is_of. rewrite IH.
    destruct (decide (kw.1 = k)) as [He | He]; [by rewrite bool_decide_true |].
    rewrite bool_decide_false by done. by destruct (list_find _ ks) as [[i x] |].
Qed.

Lemma find_free ks n :
  find_slot (fun s => negb (rs_used s)) (map slot_of ks ++ replicate n empty_slot) =
  match n with O => None | S _ => Some (length ks) end.
Proof.
  induction ks as [| kw ks IH]; cbn [map app find_slot length].
  - by destruct n.
  - cbn. rewrite IH. by destruct n.
Qed.

Lemma table_lookup ks (k : key) (w : window) (i : nat) n :
  list_find (fun kw => kw.1 = k) ks = Some (i, (k, w)) ->
  (map slot_of ks ++ replicate n empty_slot) !! i = Some (slot_of (k, w)).
Proof.
  intros (Hi & _ & _)%list_find_Some. rewrite lookup_app_l by (rewrite length_map; by eapply lookup_lt_Some).
  by rewrite list_lookup_fmap, Hi.
Qed.

Lemma map_insert_slot ks n i k w :
  (i < length ks)%nat -> <[i := slot_of (k, w)]> (map slot_of ks ++ replicate n empty_slot) =
  map slot_of (<[i := (k, w)]> ks) ++ replicate n empty_slot.
Proof. intros Hi. rewrite insert_app_l by (by rewrite length_map). f_equal. by rewrite <- list_fmap_insert. Qed.

(** Replacing the value of a key of an association list. *)
Lemma list_to_map_insert ks i (k : key) (w w' : window) :
  NoDup ks.*1 -> ks !! i = Some (k, w) ->
  list_to_map (M := limiter) (<[i := (k, w')]> ks) = <[k := w']> (list_to_map ks) /\ (<[i := (k, w')]> ks).*1 = ks.*1.
Proof.
  intros Hnd Hi. split.
  - revert i Hi. induction ks as [| [k0 w0] ks IH]; intros i Hi; [done |]. apply NoDup_cons in Hnd as [Hnot Hnd].
    destruct i as [| i].
    + injection Hi as -> ->. cbn. by rewrite insert_insert_eq.
    + cbn in Hi. change (<[S i := (k, w')]> ((k0, w0) :: ks)) with ((k0, w0) :: <[i := (k, w')]> ks).
      rewrite !list_to_map_cons, (IH Hnd i Hi). cbn. apply insert_insert_ne. cbn in *. intros ->. apply Hnot.
      apply list_elem_of_fmap. exists (k, w). split; [done | by eapply list_elem_of_lookup_2].
  - rewrite list_fmap_insert. apply list_insert_id. by rewrite list_lookup_fmap, Hi.
Qed.

Lemma size_keys (ks : list (key * window)) : NoDup ks.*1 -> size (list_to_map (M := limiter) ks) = length ks.
Proof.
  induction ks as [| [k w] ks IH]; intros Hnd; [done |]. apply NoDup_cons in Hnd as [Hnot Hnd].
  rewrite list_to_map_cons, map_size_insert_None; [by rewrite IH |]. by apply not_elem_of_list_to_map_1.
Qed.

Definition request_ok (r : request) : Prop := (length (r_subsys r) < 128)%nat /\ 0 <= r_count r < 2 ^ 32.

(** One message: the table does what the limiter does. *)
Lemma allowed_step slots ks r :
  table_of slots ks -> request_ok r ->
  let '(ok, skipped, slots') := log_rate_allowed slots (Some (r_time r)) (r_subsys r) (r_level r) (r_count r) (r_seconds r) in
  exists ks', table_of slots' ks' /\ limit_step (list_to_map ks) r = (ok, skipped, list_to_map ks').
Proof.
  intros [-> Hroom Hnd Hshort Hcnt] [Hlen Hc]. unfold log_rate_allowed, limit_step, limited.
  destruct (Z.eqb_spec (r_count r) 0) as [Hz | Hz]; cbn [orb negb andb]; [by exists ks |].
  destruct (Z.leb_spec (r_level r) LOG_AUDIT), (Z.ltb_spec LOG_AUDIT (r_level r)); try lia; cbn [negb]; [by exists ks |].
  change (slot_is (r_subsys r) (r_level r)) with (slot_is (r_key r).1 (r_key r).2). rewrite find_key.
  destruct (list_find (fun kw => kw.1 = r_key r) ks) as [[i [k w]] |] eqn:Hf.
  - pose proof Hf as (Hi & Hk & _)%list_find_Some. cbn in Hk. subst k. cbn.
    rewrite (elem_of_list_to_map_1 (M := gmap key) ks (r_key r) w Hnd) by (by eapply list_elem_of_lookup_2).
    rewrite (table_lookup _ _ _ _ _ Hf). cbn [default].
    pose proof (proj1 (Forall_lookup _ _) Hcnt _ _ Hi) as Hw. pose proof (window_step_ok w (r_time r) (r_count r) (r_seconds r) Hw (proj2 Hc)) as Hw'.
    cbn [option_map from_option id]. rewrite slot_allow_step by (done || lia).
    destruct (window_step _ _ _ _) as [[ok skipped] w'].
    destruct (list_to_map_insert ks i (r_key r) w w' Hnd Hi) as [Hmap Hkeys].
    exists (<[i := (r_key r, w')]> ks). split; [| by rewrite Hmap]. split.
    + rewrite length_insert. apply map_insert_slot. by eapply lookup_lt_Some.
    + by rewrite length_insert.
    + by rewrite Hkeys.
    + by apply Forall_insert.
    + by apply Forall_insert.
  - assert (Hnone : list_to_map (M := limiter) ks !! r_key r = None).
    { apply not_elem_of_list_to_map_1. rewrite list_elem_of_fmap. intros ([k w] & Heq & Hin). apply list_find_None in Hf.
      rewrite Forall_forall in Hf. by apply (Hf _ Hin). }
    rewrite find_free, Hnone, size_keys by done.
    destruct (LOG_RATE_SLOTS - length ks)%nat as [| n] eqn:Hn.
    + rewrite (proj2 (Nat.eqb_eq _ _)) by lia. exists ks. split; [| done]. split; try done. by rewrite Hn.
    + rewrite (proj2 (Nat.eqb_neq _ _)) by lia. rewrite take_ge by lia.
      change (RateSlot (r_subsys r) (r_level r) 0 0 (r_time r) true) with (slot_of (r_key r, Window 0 0 (r_time r))).
      pose proof (window_step_ok _ (r_time r) (r_count r) (r_seconds r) (new_window_ok (r_time r)) (proj2 Hc)) as Hw'.
      rewrite slot_allow_step by (apply new_window_ok || lia).
      destruct (window_step _ _ _ _) as [[ok skipped] w']. exists (ks ++ [(r_key r, w')]).
      assert (Hlast : <[length ks := slot_of (r_key r, w')]> (map slot_of ks ++ replicate (S n) empty_slot) =
        map slot_of (ks ++ [(r_key r, w')]) ++ replicate n empty_slot).
      { rewrite insert_app_r_alt by (by rewrite length_map). rewrite length_map, Nat.sub_diag, map_app, <- app_assoc. done. }
      split; [split |].
      * rewrite Hlast, length_app. cbn [length]. by replace (LOG_RATE_SLOTS - (length ks + 1))%nat with n by lia.
      * rewrite length_app. cbn. lia.
      * rewrite fmap_app. apply NoDup_app. split_and!; [done | | apply NoDup_singleton].
        intros k Hk Hk2. apply list_elem_of_singleton in Hk2. cbn in Hk2. subst k.
        by apply not_elem_of_list_to_map_2 in Hnone.
      * apply Forall_app. split; [done |]. by apply Forall_singleton.
      * apply Forall_app. split; [done |]. by apply Forall_singleton.
      * f_equal. symmetry. apply list_to_map_snoc. by apply not_elem_of_list_to_map_2.
Qed.

Lemma run_simulated slots ks reqs :
  table_of slots ks -> Forall request_ok reqs ->
  exists ks', table_of (rate_run slots reqs).2 ks' /\
    limit_run (list_to_map ks) reqs = ((rate_run slots reqs).1, list_to_map ks').
Proof.
  intros Ht Hr. revert slots ks Ht. induction Hr as [| r reqs Hr _ IH]; intros slots ks Ht; [by exists ks |].
  cbn [rate_run limit_run]. pose proof (allowed_step slots ks r Ht Hr) as Hs.
  destruct (log_rate_allowed _ _ _ _ _ _) as [[ok skipped] slots']. destruct Hs as (ks' & Ht' & ->).
  destruct (IH slots' ks' Ht') as (ks2 & Ht2 & Heq). destruct (rate_run slots' reqs) as [out slots2].
  cbn in *. rewrite Heq. by exists ks2.
Qed.

Lemma table_init : table_of rate_slots_init [].
Proof. split; cbn; [done | unfold LOG_RATE_SLOTS; lia | constructor..]. Qed.

(** ** One key *)

Fixpoint window_run (w : option window) (reqs : list request) : list outcome * option window :=
  match reqs with
  | [] => ([], w)
  | r :: reqs =>
      let '(ok, skipped, w) := window_step (default (Window 0 0 (r_time r)) w) (r_time r) (r_count r) (r_seconds r) in
      let '(out, w) := window_run (Some w) reqs in ((r, (ok, skipped)) :: out, w)
  end.

Definition has_key (k : key) (r : request) : bool := bool_decide (r_key r = k).
Definition outcomes_of (k : key) (out : list outcome) : list outcome := List.filter (fun o => has_key k o.1) out.
Definition keys (reqs : list request) : gset key := list_to_set (map r_key (List.filter limited reqs)).

Lemma size_with_key (l : limiter) (k : key) (s : gset key) :
  (size (dom l ∪ ({[k]} ∪ s)) <= LOG_RATE_SLOTS)%nat -> l !! k = None -> size l <> LOG_RATE_SLOTS.
Proof.
  intros Hs Hk He. assert (Hd : k ∉ dom l) by (by apply not_elem_of_dom).
  assert (size ({[k]} ∪ dom l) <= size (dom l ∪ ({[k]} ∪ s)))%nat by (apply subseteq_size; set_solver).
  rewrite size_union in H by set_solver. rewrite size_singleton in H. rewrite <- size_dom in He. lia.
Qed.

(** The messages of a key see only each other. *)
Lemma limit_run_key (l : limiter) (k : key) reqs :
  (size (dom l ∪ keys reqs) <= LOG_RATE_SLOTS)%nat -> Forall (fun r => r_key r = k -> limited r = true) reqs ->
  (outcomes_of k (limit_run l reqs).1, (limit_run l reqs).2 !! k) = window_run (l !! k) (List.filter (has_key k) reqs).
Proof.
  revert l. induction reqs as [| r reqs IH]; intros l Hsize Hlim; [done |]. inversion_clear Hlim as [| ? ? Hr Hlim'].
  assert (Hstep : exists ok skipped l', limit_step l r = (ok, skipped, l') /\ (size (dom l' ∪ keys reqs) <= LOG_RATE_SLOTS)%nat /\
    if has_key k r
    then let '(ok', skipped', w) := window_step (default (Window 0 0 (r_time r)) (l !! k)) (r_time r) (r_count r) (r_seconds r) in
         ok' = ok /\ skipped' = skipped /\ l' !! k = Some w
    else l' !! k = l !! k).
  { unfold limit_step, has_key. destruct (limited r) eqn:Hl; cbn [negb].
    - unfold keys in Hsize. cbn [List.filter] in Hsize. rewrite Hl in Hsize. cbn [map list_to_set] in Hsize. fold (keys reqs) in Hsize.
      destruct (l !! r_key r) as [w |] eqn:Hw.
      + destruct (window_step w _ _ _) as [[ok skipped] w'] eqn:Hws. exists ok, skipped, (<[r_key r := w']> l).
        split; [done |]. split.
        { rewrite dom_insert_L. by replace ({[r_key r]} ∪ dom l ∪ keys reqs) with (dom l ∪ ({[r_key r]} ∪ keys reqs)) by set_solver. }
        case_bool_decide as Hk; [| by rewrite lookup_insert_ne]. subst k. rewrite Hw. cbn. rewrite Hws. by rewrite lookup_insert_eq.
      + rewrite (proj2 (Nat.eqb_neq _ _)) by (by eapply size_with_key).
        destruct (window_step _ _ _ _) as [[ok skipped] w'] eqn:Hws. exists ok, skipped, (<[r_key r := w']> l).
        split; [done |]. split.
        { rewrite dom_insert_L. by replace ({[r_key r]} ∪ dom l ∪ keys reqs) with (dom l ∪ ({[r_key r]} ∪ keys reqs)) by set_solver. }
        case_bool_decide as Hk; [| by rewrite lookup_insert_ne]. subst k. rewrite Hw. cbn. rewrite Hws. by rewrite lookup_insert_eq.
    - exists true, 0, l. split; [done |]. split.
      + unfold keys in Hsize. cbn [List.filter] in Hsize. by rewrite Hl in Hsize.
      + case_bool_decide as Hk; [| done]. by specialize (Hr Hk). }
  destruct Hstep as (ok & skipped & l' & Hst & Hs' & Hk). cbn [limit_run List.filter]. rewrite Hst. specialize (IH l' Hs' Hlim').
  destruct (limit_run l' reqs) as [out l2]. cbn [fst snd] in *. unfold outcomes_of in *. cbn [List.filter fst].
  destruct (has_key k r).
  - cbn [window_run]. destruct (window_step _ _ _ _) as [[ok' skipped'] w]. destruct Hk as (-> & -> & Hw). rewrite Hw in IH.
    destruct (window_run (Some w) _) as [out2 w2]. by injection IH as -> ->.
  - by rewrite <- Hk.
Qed.

(** ** What passes in a window *)

Definition shown (out : list outcome) : Z := Z.of_nat (length (List.filter (fun o => o.2.1) out)).
Definition refused (out : list outcome) : Z := Z.of_nat (length (List.filter (fun o => negb o.2.1) out)).
Definition reported (out : list outcome) : Z := foldr (fun o n => o.2.2 + n) 0 out.

Lemma shown_cons r ok skipped out : shown ((r, (ok, skipped)) :: out) = (if ok then 1 else 0) + shown out.
Proof. unfold shown. cbn. destruct ok; cbn [length]; lia. Qed.

Lemma refused_cons r ok skipped out : refused ((r, (ok, skipped)) :: out) = (if ok then 0 else 1) + refused out.
Proof. unfold refused. cbn. destruct ok; cbn [length negb]; lia. Qed.

Section rate.
Context (c s : Z) (Hc : 0 < c).

Definition same_rate (r : request) : Prop := r_count r = c /\ r_seconds r = s.
Definition within (t0 : Z) (r : request) : Prop := t0 <= r_time r < t0 + s.

(** Inside a window only what is left of it passes. *)
Lemma window_quiet w reqs :
  w_emitted w <= c -> Forall same_rate reqs -> Forall (within (w_start w)) reqs ->
  shown (window_run (Some w) reqs).1 <= c - w_emitted w.
Proof.
  intros Hw Hr. revert w Hw. induction Hr as [| r reqs [Hrc Hrs] _ IH]; intros w Hw Ht; [unfold shown; cbn; lia |].
  inversion_clear Ht as [| ? ? Htr Ht']. destruct Htr as [Hge Hlt]. cbn [window_run default from_option id]. rewrite Hrc, Hrs.
  unfold window_step. rewrite (proj2 (Z.leb_gt _ _)), (proj2 (Z.ltb_ge _ _)) by lia. cbn [orb].
  destruct (Z.ltb_spec (w_emitted w) c) as [Hlt' | Hge'].
  - specialize (IH (Window (w_emitted w + 1) (w_suppressed w) (w_start w))). cbn [w_emitted w_start] in IH.
    destruct (window_run _ reqs) as [out w2]. cbn [fst] in *. rewrite shown_cons. assert (shown out <= c - (w_emitted w + 1)) by (apply IH; [lia | done]). lia.
  - specialize (IH (Window (w_emitted w) (Z.min UINT_MAX (w_suppressed w + 1)) (w_start w))). cbn [w_emitted w_start] in IH.
    destruct (window_run _ reqs) as [out w2]. cbn [fst] in *. rewrite shown_cons. assert (shown out <= c - w_emitted w) by (apply IH; [lia | done]). lia.
Qed.

Lemma within_later t0 t reqs :
  t0 <= t -> Forall (within t0) reqs -> Forall (fun r => t <= r_time r) reqs -> Forall (within t) reqs.
Proof.
  intros Ht H1 H2. apply Forall_forall. intros r Hin. rewrite Forall_forall in H1, H2. specialize (H1 r Hin). specialize (H2 r Hin).
  unfold within in *. lia.
Qed.

(** A stretch as long as a window meets two windows at most. *)
Lemma window_stretch t0 w reqs :
  (forall w', w = Some w' -> 0 <= w_emitted w' <= c) -> Forall same_rate reqs -> Forall (within t0) reqs ->
  StronglySorted Z.le (map r_time reqs) -> shown (window_run w reqs).1 <= 2 * c - match w with Some w => w_emitted w | None => c end.
Proof.
  intros Hw Hr. revert w Hw. induction Hr as [| r reqs [Hrc Hrs] Hr IH]; intros w Hw Ht Hs.
  { unfold shown. cbn. destruct w as [w |]; [specialize (Hw w eq_refl) |]; lia. }
  apply Forall_cons in Ht as [Htr Ht']. cbn [map] in Hs. apply StronglySorted_inv in Hs as [Hs Hfirst].
  assert (Hlater : Forall (within (r_time r)) reqs).
  { apply (within_later t0); [destruct Htr; lia | done |]. exact (proj1 (Forall_map r_time _ reqs) Hfirst). }
  assert (Hnew : forall n, 0 <= n -> shown (let '(out, _) := window_run (Some (Window (if 0 <? c then 1 else 0) n (r_time r))) reqs in
      (r, (0 <? c, 0)) :: out) <= c).
  { intros n Hn. rewrite (proj2 (Z.ltb_lt 0 c)) by done.
    pose proof (window_quiet (Window 1 n (r_time r)) reqs) as Hq. cbn [w_emitted w_start] in Hq. specialize (Hq ltac:(lia) Hr Hlater).
    destruct (window_run _ reqs) as [out w2]. cbn [fst] in Hq. rewrite shown_cons. lia. }
  cbn [window_run]. rewrite Hrc, Hrs. unfold window_step.
  destruct w as [w |]; cbn [default from_option id w_start w_emitted w_suppressed].
  - specialize (Hw w eq_refl). destruct (_ || _) eqn:Hreset.
    + specialize (Hnew 0 ltac:(lia)). cbn [w_emitted w_suppressed w_start]. rewrite (proj2 (Z.ltb_lt 0 c)) in * by done.
      destruct (window_run _ reqs) as [out w2]. cbn [fst]. rewrite shown_cons in *. lia.
    + destruct (Z.ltb_spec (w_emitted w) c).
      * specialize (IH (Some (Window (w_emitted w + 1) (w_suppressed w) (w_start w)))). cbn [w_emitted] in IH.
        destruct (window_run _ reqs) as [out w2]. cbn [fst] in *. rewrite shown_cons.
        assert (shown out <= 2 * c - (w_emitted w + 1)); [| lia]. apply IH; [intros w' [= <-]; cbn; lia | done | done].
      * specialize (IH (Some (Window (w_emitted w) (Z.min UINT_MAX (w_suppressed w + 1)) (w_start w)))). cbn [w_emitted] in IH.
        destruct (window_run _ reqs) as [out w2]. cbn [fst] in *. rewrite shown_cons.
        assert (shown out <= 2 * c - w_emitted w); [| lia]. apply IH; [intros w' [= <-]; cbn; lia | done | done].
  - specialize (Hnew 0 ltac:(lia)). rewrite (proj2 (Z.ltb_lt 0 c)) in * by done.
    destruct (_ || _); cbn [w_emitted w_suppressed w_start]; rewrite (proj2 (Z.ltb_lt 0 c)) by done;
      destruct (window_run _ reqs) as [out w2]; cbn [fst]; rewrite shown_cons in *; lia.
Qed.

Lemma window_step_emitted w now :
  0 <= w_emitted w <= c -> 0 <= w_emitted (window_step w now c s).2 <= c.
Proof. intros Hw. unfold window_step. destruct (_ || _); cbn [w_emitted]; case_match; cbn; lia. Qed.

Lemma window_run_emitted w reqs :
  Forall same_rate reqs -> (forall w', w = Some w' -> 0 <= w_emitted w' <= c) ->
  forall w', (window_run w reqs).2 = Some w' -> 0 <= w_emitted w' <= c.
Proof.
  intros Hr. revert w. induction Hr as [| r reqs [Hrc Hrs] _ IH]; intros w Hw w'; [apply Hw |]. cbn [window_run].
  rewrite Hrc, Hrs. pose proof (window_step_emitted (default (Window 0 0 (r_time r)) w) (r_time r)) as Hw2.
  destruct (window_step _ _ _ _) as [[ok skipped] w2]. specialize (IH (Some w2)). destruct (window_run (Some w2) reqs) as [out w3].
  cbn [fst snd] in *. apply IH. intros w4 [= <-]. apply Hw2. destruct w as [w |]; cbn; [by apply Hw | lia].
Qed.
End rate.

(** Every refusal is reported, or still to be reported. *)
Lemma window_account w reqs :
  0 <= match w with Some w => w_suppressed w | None => 0 end ->
  match w with Some w => w_suppressed w | None => 0 end + Z.of_nat (length reqs) <= UINT_MAX ->
  refused (window_run w reqs).1 + match w with Some w => w_suppressed w | None => 0 end =
  reported (window_run w reqs).1 + match (window_run w reqs).2 with Some w => w_suppressed w | None => 0 end.
Proof.
  revert w. induction reqs as [| r reqs IH]; intros w Hw Hlen; [done |]. cbn [window_run length] in *.
  destruct (window_step _ _ _ _) as [[ok skipped] w2] eqn:Hst.
  assert (Hacc : w_suppressed w2 + skipped = match w with Some w => w_suppressed w | None => 0 end + (if ok then 0 else 1) /\ 0 <= w_suppressed w2 /\
    w_suppressed w2 <= match w with Some w => w_suppressed w | None => 0 end + 1).
  { unfold window_step in Hst. destruct w as [w |]; cbn [default from_option id w_suppressed w_start w_emitted] in *.
    - destruct (_ || _); cbn [w_suppressed w_start w_emitted] in Hst; case_match; injection Hst as <- <- <-; cbn; lia.
    - destruct (_ || _); cbn [w_suppressed w_start w_emitted] in Hst; case_match; injection Hst as <- <- <-; cbn; lia. }
  specialize (IH (Some w2)). cbn in IH. destruct (window_run (Some w2) reqs) as [out w3]. cbn [fst snd] in *. rewrite refused_cons.
  cbn [reported foldr fst snd]. fold (reported out). lia.
Qed.
