(* ===== verification/LoggerSpec.v ===== *)
(** * What the logger promises (logger.c)

    The rate limiter, and the queue between the callers of [Log] and its
    callbacks and streams. *)

From Stdlib Require Import Sorted.
From S2P Require Import Prelude CString ConfigText LogQueue Logger LoggerRate.

#[local] Open Scope Z_scope.

(** ** Rate limiting *)

(** C33: the table of slots is one window per subsystem and severity: for any
    sequence of messages, whatever their times and rates, it lets through, and
    reports as suppressed, what the limiter on a finite map does, as long as the
    names of subsystems fit their field; keys beyond the 256th are not limited. *)
Theorem rate_limiter_refines (reqs : list request) (Hok : Forall request_ok reqs) :
  (rate_run rate_slots_init reqs).1 = (limit_run ∅ reqs).1.
Proof.
  destruct (run_simulated _ [] reqs table_init Hok) as (ks' & _ & Heq). change (list_to_map []) with (∅ : limiter) in Heq.
  by rewrite Heq.
Qed.

Definition burst : list request :=
  [Request 100 (B "www") 2 2 10; Request 101 (B "www") 2 2 10; Request 101 (B "rig") 2 1 10; Request 105 (B "www") 2 2 10;
   Request 110 (B "www") 2 2 10; Request 111 (B "www") 0 2 10].

Lemma rate_limiter_refines_witness :
  (rate_run rate_slots_init burst).1 = (limit_run ∅ burst).1 /\
  map snd (limit_run ∅ burst).1 = [(true, 0); (true, 0); (true, 0); (false, 0); (true, 1); (true, 0)].
Proof.
  split; [| vm_compute; reflexivity]. apply (rate_limiter_refines burst).
  unfold burst, request_ok. repeat (apply Forall_cons; split;
    [split; [apply Nat.ltb_lt | split; [apply Z.leb_le | apply Z.ltb_lt]]; vm_compute; reflexivity |]). apply Forall_nil. exact I.
Defined.

(** The refused messages of a key that no line has mentioned yet. *)
Definition pending (slots : list rate_slot) (k : key) : Z :=
  match List.find (slot_is k.1 k.2) slots with Some s => suppressed s | None => 0 end.

Lemma pending_table slots ks k :
  table_of slots ks -> pending slots k = match list_to_map (M := limiter) ks !! k with Some w => w_suppressed w | None => 0 end.
Proof.
  intros [-> _ _ _ _]. unfold pending. generalize (LOG_RATE_SLOTS - length ks)%nat. intros n. induction ks as [| [k' w] ks IH].
  - cbn [map app list_to_map foldr]. assert (Hnone : List.find (slot_is k.1 k.2) (replicate n empty_slot) = None) by (by induction n).
    by rewrite Hnone.
  - cbn [map app List.find]. rewrite slot_is_of. cbn [fst]. rewrite list_to_map_cons. case_bool_decide as He.
    + subst. by rewrite lookup_insert_eq.
    + rewrite lookup_insert_ne by done. apply IH.
Qed.

Lemma rate_run_app slots r1 r2 :
  rate_run slots (r1 ++ r2) =
  ((rate_run slots r1).1 ++ (rate_run (rate_run slots r1).2 r2).1, (rate_run (rate_run slots r1).2 r2).2).
Proof.
  revert slots. induction r1 as [| r r1 IH]; intros slots; cbn [app rate_run].
  - cbn [fst snd app]. by destruct (rate_run slots r2).
  - destruct (log_rate_allowed _ _ _ _ _ _) as [[ok skipped] slots']. rewrite IH. by destruct (rate_run slots' r1).
Qed.

Lemma window_run_app w r1 r2 :
  (window_run w (r1 ++ r2)).1 = (window_run w r1).1 ++ (window_run (window_run w r1).2 r2).1.
Proof.
  revert w. induction r1 as [| r r1 IH]; intros w; cbn [app window_run]; [done |].
  destruct (window_step _ _ _ _) as [[ok skipped] w']. specialize (IH (Some w')).
  destruct (window_run (Some w') r1), (window_run (Some w') (r1 ++ r2)). cbn [fst snd app] in *. by rewrite IH.
Qed.

(** A key by itself, from the start. *)
Lemma rate_run_key reqs k :
  Forall request_ok reqs -> (size (keys reqs) <= LOG_RATE_SLOTS)%nat -> Forall (fun r => r_key r = k -> limited r = true) reqs ->
  let w := window_run None (List.filter (has_key k) reqs) in
  outcomes_of k (rate_run rate_slots_init reqs).1 = w.1 /\
  pending (rate_run rate_slots_init reqs).2 k = match w.2 with Some w => w_suppressed w | None => 0 end.
Proof.
  intros Hok Hsize Hlim. destruct (run_simulated _ [] reqs table_init Hok) as (ks' & Ht & Heq).
  rewrite (pending_table _ _ _ Ht). change (list_to_map []) with (∅ : limiter) in Heq.
  pose proof (limit_run_key ∅ k reqs) as Hk. rewrite dom_empty_L, union_empty_l_L in Hk. specialize (Hk Hsize Hlim).
  rewrite Heq, lookup_empty in Hk. cbn [fst snd] in Hk. by rewrite <- Hk.
Qed.

Lemma sorted_filter (p : request -> bool) l :
  StronglySorted Z.le (map r_time l) -> StronglySorted Z.le (map r_time (List.filter p l)).
Proof.
  induction l as [| r l IH]; cbn [map List.filter]; [done |]. intros [Hs Hr]%StronglySorted_inv. destruct (p r); [| by apply IH].
  cbn [map]. constructor; [by apply IH |]. apply Forall_map. apply (proj1 (Forall_map r_time _ _)) in Hr. rewrite Forall_forall in Hr |- *.
  intros x Hx. apply Hr. apply list_elem_of_In. apply list_elem_of_In, List.filter_In in Hx. by apply Hx.
Qed.

Lemma filter_forall {A} (P Q : A -> Prop) (p : A -> bool) l :
  Forall P l -> (forall x, p x = true -> P x -> Q x) -> Forall Q (List.filter p l).
Proof.
  intros Hl H. rewrite Forall_forall in Hl |- *. intros x Hx. apply list_elem_of_In, List.filter_In in Hx as [Hx Hp].
  apply H; [done |]. apply Hl. by apply list_elem_of_In.
Qed.

Lemma keys_app r1 r2 : keys (r1 ++ r2) = keys r1 ∪ keys r2.
Proof. unfold keys. by rewrite List.filter_app, map_app, list_to_set_app_L. Qed.

Lemma length_filter_le {A} (p : A -> bool) l : (length (List.filter p l) <= length l)%nat.
Proof. induction l as [| x l IH]; cbn; [lia |]. destruct (p x); cbn; lia. Qed.

(** For a subsystem and severity with rate [c] per [s] seconds, among at most
    256 of them, any stretch of [s] seconds on a clock that does not go back
    shows at most [2 * c] messages; and every message refused so far has been
    reported as suppressed by a later one, or is still counted in its slot. *)
Theorem rate_limit_bound (c s t0 : Z) (k : key) (before stretch : list request)
    (Hc : 0 < c) (Hk : LOG_AUDIT < k.2) (Hok : Forall request_ok (before ++ stretch))
    (Hkeys : (size (keys (before ++ stretch)) <= LOG_RATE_SLOTS)%nat)
    (Hrate : Forall (fun r => r_key r = k -> same_rate c s r) (before ++ stretch))
    (Hclock : StronglySorted Z.le (map r_time stretch)) (Hs : Forall (within s t0) stretch)
    (Hlen : Z.of_nat (length (before ++ stretch)) <= UINT_MAX) :
  let '(first, slots) := rate_run rate_slots_init before in
  let '(out, slots) := rate_run slots stretch in
  shown (outcomes_of k out) <= 2 * c /\
  refused (outcomes_of k (first ++ out)) = reported (outcomes_of k (first ++ out)) + pending slots k.
Proof.
  assert (Hlim : Forall (fun r => r_key r = k -> limited r = true) (before ++ stretch)).
  { eapply Forall_impl; [exact Hrate |]. intros r Hr He. destruct (Hr He) as [Hcount _]. unfold limited. subst k. cbn in Hk.
    rewrite Hcount, (proj2 (Z.eqb_neq _ _)), (proj2 (Z.ltb_lt _ _)) by lia. done. }
  assert (Hsame : forall l, Forall (fun r => r_key r = k -> same_rate c s r) l -> Forall (same_rate c s) (List.filter (has_key k) l)).
  { intros l Hl. apply (filter_forall _ _ _ _ Hl). intros x Hx%bool_decide_eq_true Hr. by apply Hr. }
  destruct (rate_run_key _ k Hok Hkeys Hlim) as [Hall Hpend].
  apply Forall_app in Hok as [Hok1 _]. apply Forall_app in Hlim as [Hlim1 _]. apply Forall_app in Hrate as [Hrate1 Hrate2].
  destruct (rate_run_key before k Hok1) as [Hfirst _]; [| done |].
  { etransitivity; [| exact Hkeys]. apply subseteq_size. rewrite keys_app. set_solver. }
  rewrite rate_run_app in Hall, Hpend. destruct (rate_run rate_slots_init before) as [first slots1]. cbn [fst snd] in *.
  destruct (rate_run slots1 stretch) as [out slots2]. cbn [fst snd] in *.
  pose proof (window_account None (List.filter (has_key k) (before ++ stretch))) as Hacc. cbn [Z.add] in Hacc.
  rewrite <- Hall, <- Hpend in Hacc. split.
  - rewrite List.filter_app, window_run_app in Hall. unfold outcomes_of in Hall. rewrite List.filter_app in Hall.
    fold (outcomes_of k first) (outcomes_of k out) in Hall. rewrite Hfirst in Hall. apply app_inv_head in Hall. rewrite Hall.
    pose proof (window_run_emitted c s Hc None _ (Hsame _ Hrate1)) as Hem.
    pose proof (window_stretch c s Hc t0 (window_run None (List.filter (has_key k) before)).2 _
      (Hem ltac:(done)) (Hsame _ Hrate2) (filter_forall _ _ _ _ Hs (fun _ _ H => H)) (sorted_filter _ _ Hclock)) as Hb.
    destruct (window_run None _).2 as [w |]; [specialize (Hem ltac:(done) w eq_refl) |]; lia.
  - pose proof (length_filter_le (has_key k) (before ++ stretch)). lia.
Qed.

(** Two windows of five seconds around the stretch from 104 to 108. *)
Definition hits (times : list Z) : list request := map (fun t => Request t (B "www") 2 2 5) times.

Lemma rate_limit_bound_witness :
  let '(first, slots) := rate_run rate_slots_init (hits [100]) in
  let '(out, slots) := rate_run slots (hits [104; 104; 105; 106; 107; 108]) in
  shown (outcomes_of (B "www", 2) out) <= 2 * 2 /\
  refused (outcomes_of (B "www", 2) (first ++ out)) = reported (outcomes_of (B "www", 2) (first ++ out)) + pending slots (B "www", 2) /\
  shown (outcomes_of (B "www", 2) out) = 3.
Proof.
  assert (Hall : forall r, r ∈ hits [100; 104; 104; 105; 106; 107; 108] -> r_subsys r = B "www" /\ r_count r = 2 /\ r_seconds r = 5).
  { intros r (t & -> & _)%list_elem_of_fmap. done. }
  pose proof (rate_limit_bound 2 5 104 (B "www", 2) (hits [100]) (hits [104; 104; 105; 106; 107; 108])) as Hb.
  destruct (rate_run rate_slots_init (hits [100])) as [first slots] eqn:H1.
  destruct (rate_run slots (hits [104; 104; 105; 106; 107; 108])) as [out slots2] eqn:H2.
  cut (shown (outcomes_of (B "www", 2) out) = 3).
  - intros H3. destruct Hb as [Hb1 Hb2]; [reflexivity | reflexivity | | apply Nat.leb_le; vm_compute; reflexivity | | | | discriminate |].
    + apply Forall_forall. intros r Hr. destruct (Hall r Hr) as (Hs & Hn & _). unfold request_ok. rewrite Hs, Hn.
      split; [apply Nat.ltb_lt; reflexivity | split; [discriminate | reflexivity]].
    + apply Forall_forall. intros r Hr _. destruct (Hall r Hr) as (_ & Hn & Hs). exact (conj Hn Hs).
    + cbn. repeat constructor; discriminate.
    + cbn. repeat constructor; cbn; try discriminate.
    + exact (conj Hb1 (conj Hb2 H3)).
  - vm_compute in H1. injection H1 as <- <-. vm_compute in H2. injection H2 as <- <-. vm_compute. reflexivity.
Defined.

(** ** The queue in front of delivery *)

Section async.
Context `{LogEnv}.

(** A call of [Log]. *)
Record message := Message { m_at : moment; m_priority : Z; m_subsys : bstr; m_text : bstr }.

Fixpoint log_all (st : logger) (msgs : list message) : list log_event * logger :=
  match msgs with
  | [] => ([], st)
  | x :: msgs =>
      let '(e1, st) := Log st (m_at x) (m_priority x) (Some (m_subsys x)) (Some (m_text x)) in
      let '(e2, st) := log_all st msgs in (e1 ++ e2, st)
  end.

(** The logger with nobody to drain: every call delivers itself. *)
Definition direct (st : logger) : logger := set_worker false false (logger_drops_reported st) st.

(** [log_raw_subscribers] counts the raw callbacks. *)
Definition raw_counted (st : logger) : Prop :=
  log_raw_subscribers st = Z.of_nat (length (List.filter (fun cb => policy cb =? LOG_CALLBACK_RAW) (log_callbacks st))).

(** Equal in what delivery reads. *)
Record same_output (a b : logger) : Prop := {
  so_filters : log_filters a = log_filters b;
  so_slots : log_rate_slots a = log_rate_slots b;
  so_callbacks : log_callbacks a = log_callbacks b;
  so_ts : cfg_log_show_ts a = cfg_log_show_ts b;
  so_streams : log_streams a = log_streams b
}.

Lemma log_allowed_same a b clock p subsys :
  same_output a b ->
  (log_allowed a clock p subsys).1 = (log_allowed b clock p subsys).1 /\
  same_output (log_allowed a clock p subsys).2 (log_allowed b clock p subsys).2.
Proof.
  intros Hs. pose proof Hs as [H1 H2 H3 H4 H5]. unfold log_allowed. rewrite H1. destruct (debug_filter _ _ _); [done |].
  destruct (log_matching_filter _ _) as [f |]; [| done]. rewrite H2. destruct (log_rate_allowed _ _ _ _ _ _) as [[ok skipped] slots].
  split; [done |]. by split.
Qed.

(** The time stamp of a time. *)
Definition stamp (t : Z) : bstr := default [] (localtime t).

(** The stamp that a direct call at the time [t] writes is that of [t]. *)
Definition stamp_ready (st : logger) (t : Z) : Prop :=
  localtime t <> Some [] /\ (last_ts_update st < t \/ (last_ts_update st = t /\ latest_timestamp st = stamp t)).

Lemma update_timestamp_ready st t : stamp_ready st t -> (update_timestamp t st).2 = set_timestamp t (stamp t) st.
Proof.
  intros [Hne Hl]. unfold update_timestamp. destruct (Z.leb_spec t (last_ts_update st)).
  - destruct Hl as [? | [He Hs]]; [lia |]. destruct st. cbn in *. by subst.
  - unfold stamp. destruct (localtime t) as [[| c ts] |]; [done | done | done].
Qed.

Lemma log_allowed_slots st clock p subsys : exists slots, (log_allowed st clock p subsys).2 = set_slots slots st.
Proof.
  assert (Hid : st = set_slots (log_rate_slots st) st) by by destruct st.
  unfold log_allowed. destruct (debug_filter _ _ _); [by exists (log_rate_slots st) |].
  destruct (log_matching_filter _ _); [| by exists (log_rate_slots st)]. destruct (log_rate_allowed _ _ _ _ _ _) as [[ok sk] slots]. by exists slots.
Qed.

(** A record is delivered as a direct call is. *)
Lemma log_deliver_same a b m m' p subsys msg :
  same_output a b -> mono m = mono m' -> mem m = true -> mem m' = true ->
  (cfg_log_show_ts b = true -> stamp_ready b (now m')) ->
  (log_deliver a m (Some (now m')) p subsys msg).1 = (log_deliver b m' None p subsys msg).1 /\
  same_output (log_deliver a m (Some (now m')) p subsys msg).2 (log_deliver b m' None p subsys msg).2.
Proof.
  intros Hs Hm H1 H2 Hst. unfold log_deliver. rewrite Hm. destruct (log_allowed_same a b (mono m') p subsys Hs) as [He Ho].
  destruct (log_allowed_slots b (mono m') p subsys) as [slots Hb].
  destruct (log_allowed a _ _ _) as [[ok skipped] a'], (log_allowed b _ _ _) as [[ok' skipped'] b']. cbn [fst snd] in *.
  injection He as -> ->. pose proof Ho as [F1 F2 H3 H4 H5]. rewrite H3. destruct ok'; [| done]. rewrite H4. cbn [negb].
  destruct (cfg_log_show_ts b') eqn:Hts; cbn [negb].
  - assert (Hr : stamp_ready b' (now m')) by (subst b'; by apply Hst).
    pose proof (update_timestamp_ready b' (now m') Hr) as Hu. destruct (update_timestamp _ b') as [rc b'']. cbn [snd] in Hu. subst b''.
    rewrite H1, H2. cbn [negb fst snd]. split; [| split; cbn [set_timestamp cfg_log_show_ts]; [done | done | done | congruence | exact H5]]. cbn [latest_timestamp set_timestamp cfg_log_show_ts]. rewrite H4, ?Hts.
    change (log_streams (set_timestamp (now m') (stamp (now m')) b')) with (log_streams b'). by rewrite H5.
  - rewrite H1, H2. cbn [negb fst snd]. split; [| done]. by rewrite H4, H5, Hts.
Qed.

(** What a direct call leaves of the time stamp. *)
Lemma log_deliver_stamp b m p subsys msg t : (cfg_log_show_ts b = true -> stamp_ready b (now m)) ->
  let b' := (log_deliver b m None p subsys msg).2 in
  cfg_log_show_ts b' = cfg_log_show_ts b /\ (cfg_log_show_ts b = true -> now m <= t -> stamp_ready b t -> stamp_ready b' t).
Proof.
  intros Hst. cbv zeta. unfold log_deliver. destruct (log_allowed_slots b (mono m) p subsys) as [slots Hb].
  destruct (log_allowed b _ _ _) as [[ok skipped] b']. cbn [snd] in Hb. subst b'. destruct ok; cbn [negb]; [| done].
  change (cfg_log_show_ts (set_slots slots b)) with (cfg_log_show_ts b). destruct (cfg_log_show_ts b) eqn:Hts; cbn [negb]; [| by destruct (mem m)].
  pose proof (update_timestamp_ready (set_slots slots b) (now m) (Hst eq_refl)) as Hu. destruct (update_timestamp _ _) as [rc b'']. cbn [snd] in Hu. subst b''.
  assert (Hgoal : cfg_log_show_ts (set_timestamp (now m) (stamp (now m)) (set_slots slots b)) = true /\
    (true = true -> now m <= t -> stamp_ready b t -> stamp_ready (set_timestamp (now m) (stamp (now m)) (set_slots slots b)) t)).
  { split; [done |]. intros _ Ht [Hne _]. split; [done |]. cbn [last_ts_update latest_timestamp set_timestamp]. destruct (decide (now m = t)) as [<- |]; [by right | left; lia]. }
  by destruct (mem m).
Qed.

(** The times of messages: never going back, and not behind the stamp. *)
Definition on_time (st : logger) (msgs : list message) : Prop :=
  cfg_log_show_ts st = true ->
  Forall (fun x => now (m_at x) = wall (m_at x) /\ stamp_ready st (wall (m_at x))) msgs /\ StronglySorted Z.le (map (fun x => wall (m_at x)) msgs).

Lemma on_time_head st x msgs : on_time st (x :: msgs) -> cfg_log_show_ts st = true -> now (m_at x) = wall (m_at x) /\ stamp_ready st (wall (m_at x)).
Proof. intros Ho Hts. destruct (Ho Hts) as [Hf _]. by apply Forall_cons in Hf as [? _]. Qed.

Lemma on_time_skip st x msgs : on_time st (x :: msgs) -> on_time st msgs.
Proof. intros Ho Hts. destruct (Ho Hts) as [Hf Hs]. apply Forall_cons in Hf as [_ Hf]. split; [done |]. by apply StronglySorted_inv in Hs as [? _]. Qed.

Lemma on_time_step st x msgs p subsys msg : on_time st (x :: msgs) -> on_time (log_deliver st (m_at x) None p subsys msg).2 msgs.
Proof.
  intros Ho Hts. assert (Hready : cfg_log_show_ts st = true -> stamp_ready st (now (m_at x))) by (intros H'; by destruct (on_time_head st x msgs Ho H') as [-> ?]).
  pose proof (fun t => log_deliver_stamp st (m_at x) p subsys msg t Hready) as Hd. cbv zeta in Hd. destruct (Hd 0) as [Hcfg _]. rewrite Hcfg in Hts.
  destruct (Ho Hts) as [Hf Hs]. apply Forall_cons in Hf as [[Hx _] Hf]. cbn [map] in Hs. apply StronglySorted_inv in Hs as [Hs Hle]. split; [| done].
  rewrite Forall_map in Hle. eapply Forall_impl; [exact (proj2 (Forall_and _ _) (conj Hf Hle)) |]. intros y [[Hy Hr] Hxy]. split; [done |].
  apply (proj2 (Hd _)); [done | cbn in Hxy; lia | done].
Qed.

Lemma no_raw_calls st p subsys msg :
  raw_counted st -> log_raw_subscribers st = 0 -> call_callbacks (log_callbacks st) false p subsys msg = [].
Proof.
  intros Hr H0. unfold call_callbacks. destruct (p =? LOG_CRAZY); [done |]. unfold raw_counted in Hr. rewrite H0 in Hr.
  induction (log_callbacks st) as [| cb cbs IH]; [done |]. cbn [List.filter flat_map] in *.
  destruct (policy cb =? LOG_CALLBACK_RAW); [cbn [length] in Hr; lia |]. rewrite andb_false_r. by apply IH.
Qed.

(** Whether a call is worth queueing. *)
Definition wanted (st : logger) (x : message) : bool :=
  negb (debug_filter (log_filters st) (Some (m_subsys x)) (m_priority x)) || negb (log_raw_subscribers st =? 0).

Definition record_for (x : message) : log_record :=
  record_of (m_priority x) (wall (m_at x)) (m_subsys x) (snprintf_s 1024 (m_text x)).

(** The messages of the caller's thread. *)
Lemma log_all_queues st q msgs :
  logger_owner_valid st = true -> worker_logging_enabled st = true -> worker_log_queue st = Some q -> queue_wf q ->
  q_length q + Z.of_nat (length msgs) <= capacity q -> Forall (fun x => contended (m_at x) = false) msgs ->
  exists q', log_all st msgs = ([], set_queue (Some q') st) /\ queue_wf q' /\ dropped q' = dropped q /\
    contents q' = contents q ++ map record_for (List.filter (wanted st) msgs).
Proof.
  intros Ho He Hq Hwf Hroom Hc. revert st q Ho He Hq Hwf Hroom. induction Hc as [| x msgs Hx _ IH]; intros st q Ho He Hq Hwf Hroom.
  - exists q. cbn. rewrite app_nil_r. split_and!; try done. destruct st. cbn in *. by subst.
  - cbn [log_all Log length] in *. rewrite Ho, He. fold (wanted st x). cbn [andb List.filter].
    destruct (wanted st x) eqn:Hw.
    + rewrite Hq, Hx. pose proof (push_accepts q (m_priority x) (wall (m_at x)) (m_subsys x) (snprintf_s 1024 (m_text x)) Hwf ltac:(lia)) as Hp.
      assert (Hl : forall q', (ra_log_queue_push q false (m_priority x) (wall (m_at x)) (Some (m_subsys x)) (Some (snprintf_s 1024 (m_text x)))).2 = q' ->
        q_length q' = q_length q + 1 /\ dropped q' = dropped q).
      { intros q' <-. unfold ra_log_queue_push. destruct Hwf. rewrite (proj2 (Z.eqb_neq _ _)) by lia. cbn. rewrite u64_small by lia. done. }
      destruct (ra_log_queue_push _ _ _ _ _ _) as [ok q']. destruct Hp as (_ & Hwf' & Hcap & Hcont). destruct (Hl q' eq_refl) as [Hlen Hdrop].
      destruct (IH (set_queue (Some q') st) q' Ho He eq_refl Hwf' ltac:(lia)) as (q2 & Heq & Hwf2 & Hd2 & Hc2).
      cbn [snd]. rewrite Heq. exists q2. split_and!; [done.. | congruence |]. rewrite Hc2, Hcont, <- app_assoc. done.
    + destruct (IH st q Ho He Hq Hwf ltac:(lia)) as (q2 & Heq & Hrest). rewrite Heq. by exists q2.
Qed.
(** Delivery leaves filters, callbacks and modes alone. *)
Lemma log_deliver_frame st m t p subsys msg :
  let st' := (log_deliver st m t p subsys msg).2 in
  log_filters st' = log_filters st /\ log_callbacks st' = log_callbacks st /\ log_raw_subscribers st' = log_raw_subscribers st /\
  logger_owner_valid st' = logger_owner_valid st /\ worker_logging_enabled st' = worker_logging_enabled st /\
  worker_log_queue st' = worker_log_queue st /\ logger_drops_reported st' = logger_drops_reported st.
Proof.
  cbv zeta. assert (Ha : exists slots, (log_allowed st (mono m) p subsys).2 = set_slots slots st \/ (log_allowed st (mono m) p subsys).2 = st).
  { unfold log_allowed. destruct (debug_filter _ _ _); [exists []; by right |].
    destruct (log_matching_filter _ _); [| exists []; by right]. destruct (log_rate_allowed _ _ _ _ _ _) as [[ok sk] slots].
    exists slots. by left. }
  unfold log_deliver. destruct (log_allowed st _ _ _) as [[ok skipped] st'] eqn:Hst. cbn [snd] in Ha.
  destruct Ha as [slots [-> | ->]]; (destruct ok; cbn [negb]; [| done]); (destruct (cfg_log_show_ts _); cbn [negb]; [| by destruct (mem m)]);
    (destruct t; [by destruct (mem m) |]); unfold update_timestamp; (destruct (_ <=? _); [by destruct (mem m) |]);
    (destruct (localtime _) as [[| ? ?] |]; by destruct (mem m)).
Qed.

(** A message as a record holds it. *)
Definition cut (x : message) : message := Message (m_at x) (m_priority x) (m_subsys x) (take 1023 (m_text x)).

Lemma record_cut x : (length (m_subsys x) <= 63)%nat -> record_for x = LogRecord (m_priority x) (wall (m_at x)) (m_subsys x) (m_text (cut x)).
Proof. intros Hx. unfold record_for, record_of, snprintf_s. rewrite (take_ge (m_subsys x)) by lia. by rewrite take_take. Qed.

(** The drain of what was wanted does what direct calls do. *)
Lemma delivers_direct a b m msgs :
  same_output a b -> raw_counted b -> logger_owner_valid b = false -> mem m = true ->
  Forall (fun x => (length (m_subsys x) <= 63)%nat) msgs -> Forall (fun x => mono (m_at x) = mono m /\ mem (m_at x) = true) msgs -> on_time b msgs ->
  let drained := deliver_all a m (map record_for (List.filter (wanted b) msgs)) in
  drained.1 = (log_all b (map cut msgs)).1 /\ log_rate_slots drained.2 = log_rate_slots (log_all b (map cut msgs)).2.
Proof.
  intros Hs Hr Ho Hm Hf. revert a b Hs Hr Ho. induction Hf as [| x msgs Hx _ IH]; intros a b Hs Hr Ho Hat Hot.
  { destruct Hs. done. }
  apply Forall_cons in Hat as [[Hmono Hmem] Hat]. cbn [map log_all List.filter]. unfold Log. rewrite Ho. set (text := m_text (cut x)).
  cbn [cut m_at m_priority m_subsys]. change (take 1023 (m_text x)) with text.
  pose proof (log_deliver_frame b (m_at x) None (m_priority x) (m_subsys x) text) as (F1 & F2 & F3 & F4 & _).
  assert (Hsame : forall y, wanted (log_deliver b (m_at x) None (m_priority x) (m_subsys x) text).2 y = wanted b y).
  { intros y. unfold wanted. by rewrite F1, F3. }
  destruct (wanted b x) eqn:Hw.
  - cbn [map deliver_all]. rewrite (record_cut x Hx). cbn [submitted level subsystem log_message]. fold text.
    assert (Hnow : (log_deliver a m (Some (wall (m_at x))) (m_priority x) (m_subsys x) text) = (log_deliver a m (Some (now (m_at x))) (m_priority x) (m_subsys x) text)).
    { destruct (cfg_log_show_ts b) eqn:Hts; [by destruct (on_time_head b x msgs Hot Hts) as [-> _] |]. unfold log_deliver.
      destruct (log_allowed_slots a (mono m) (m_priority x) (m_subsys x)) as [slots Ha]. destruct (log_allowed a _ _ _) as [[ok sk] a']. cbn [snd] in Ha. subst a'.
      change (cfg_log_show_ts (set_slots slots a)) with (cfg_log_show_ts a). by rewrite (so_ts _ _ Hs), Hts. }
    rewrite Hnow. clear Hnow. assert (Hready : cfg_log_show_ts b = true -> stamp_ready b (now (m_at x))) by (intros Hts; by destruct (on_time_head b x msgs Hot Hts) as [-> ?]).
    destruct (log_deliver_same a b m (m_at x) (m_priority x) (m_subsys x) text Hs ltac:(done) Hm Hmem Hready) as [He Ho'].
    pose proof (on_time_step b x msgs (m_priority x) (m_subsys x) text Hot) as Hot'.
    destruct (log_deliver a _ _ _ _ _) as [e1 a'], (log_deliver b _ _ _ _ _) as [e2 b']. cbn [fst snd] in *. subst e2.
    destruct (IH a' b' Ho') as [H1 H2]; [unfold raw_counted; by rewrite F2, F3 | congruence | done | done |].
    rewrite (List.filter_ext (wanted b') (wanted b)) in H1, H2 by done.
    destruct (deliver_all a' m _), (log_all b' _). cbn [fst snd] in *. by subst.
  - unfold wanted in Hw. apply orb_false_iff in Hw as [Hflt Hraw]. apply negb_false_iff in Hflt, Hraw. apply Z.eqb_eq in Hraw.
    unfold log_deliver, log_allowed. rewrite Hflt. cbn [negb]. rewrite no_raw_calls by done. cbn [app].
    destruct (IH a b Hs Hr Ho Hat (on_time_skip _ _ _ Hot)) as [H1 H2]. by destruct (log_all b _).
Qed.

Lemma deliver_all_frame st m items :
  let st' := (deliver_all st m items).2 in
  worker_log_queue st' = worker_log_queue st /\ logger_drops_reported st' = logger_drops_reported st.
Proof.
  cbv zeta. revert st. induction items as [| r items IH]; intros st; [done |]. cbn [deliver_all].
  pose proof (log_deliver_frame st m (Some (submitted r)) (level r) (subsystem r) (log_message r)) as (_ & _ & _ & _ & _ & F6 & F7).
  destruct (log_deliver _ _ _ _ _ _) as [e1 st1]. specialize (IH st1). destruct (deliver_all st1 m items). cbn [snd] in *.
  destruct IH as [-> ->]. done.
Qed.

Lemma drain_dropped q n : dropped (ra_log_queue_drain q n).2 = dropped q.
Proof.
  revert q. induction n as [| n IH]; intros q; [done |]. cbn [ra_log_queue_drain].
  assert (Hd : dropped (drain_one q).2 = dropped q) by (unfold drain_one; by destruct (q_length q =? 0)).
  destruct (drain_one q) as [[item |] q']; [| done]. specialize (IH q'). cbn [snd] in Hd.
  destruct (ra_log_queue_drain q' n). cbn [snd] in *. congruence.
Qed.

(** C32: messages logged through the queue and delivered by one tick of the drain
    cause exactly the calls of callbacks and the lines, in the same order and
    with the same rate limiting, that they cause, cut to the 1023 characters of a
    record, when they are delivered by the callers themselves: provided that nobody
    holds the queue's lock, the names of subsystems fit a record, there is room for all
    messages, one tick is enough, and the rates see the same clock; with time stamps,
    also that the program's time is the clock's, does not go back, is later than that of
    the last stamp, and has a stamp. *)
Theorem log_async_equals_direct (st : logger) (q : log_queue) (msgs : list message) (m : moment) (drain_us : Z)
    (Howner : logger_owner_valid st = true) (Hon : worker_logging_enabled st = true)
    (Hq : worker_log_queue st = Some q) (Hwf : queue_wf q) (Hempty : contents q = []) (Hdrops : dropped q = logger_drops_reported st)
    (Hraw : raw_counted st) (Hfits : Forall (fun x => (length (m_subsys x) <= 63)%nat) msgs)
    (Hroom : Z.of_nat (length msgs) <= capacity q) (Htick : (length msgs <= 512)%nat)
    (Hlock : Forall (fun x => contended (m_at x) = false) msgs)
    (Hclock : Forall (fun x => mono (m_at x) = mono m /\ mem (m_at x) = true) msgs) (Hm : mem m = true) (Hfast : drain_us <= 40000)
    (Hts : cfg_log_show_ts st = true ->
       Forall (fun x => now (m_at x) = wall (m_at x) /\ last_ts_update st < wall (m_at x) /\ localtime (wall (m_at x)) <> Some []) msgs /\
       StronglySorted Z.le (map (fun x => wall (m_at x)) msgs)) :
  let '(queued, st1) := log_all st msgs in
  let '(go_on, delivered, st2) := logger_drain_tick st1 m drain_us in
  let '(called, st3) := log_all (direct st) (map cut msgs) in
  queued = [] /\ go_on = true /\ delivered = called /\ log_rate_slots st2 = log_rate_slots st3 /\ queue_depth st2 = 0.
Proof.
  assert (Hlen : q_length q = 0).
  { assert (Hl : length (contents q) = 0%nat) by (by rewrite Hempty). unfold contents in Hl. rewrite length_map, length_seq in Hl.
    destruct Hwf. lia. }
  destruct (log_all_queues st q msgs Howner Hon Hq Hwf ltac:(lia) Hlock) as (q' & -> & Hwf' & Hd' & Hc').
  unfold logger_drain_tick. cbn [worker_logging_enabled set_queue]. rewrite Hon. cbn [negb].
  unfold drain_queue. cbn [worker_log_queue set_queue]. pose proof (drain_contents q' 512 Hwf') as Hdr.
  destruct (ra_log_queue_drain q' 512) as [items q2] eqn:Hdrain. destruct Hdr as (-> & Hc2 & Hwf2).
  rewrite Hempty in Hc'. cbn [app] in Hc'. rewrite Hc' in *.
  assert (Hle : (length (map record_for (List.filter (wanted st) msgs)) <= 512)%nat).
  { rewrite length_map. pose proof (length_filter_le (wanted st) msgs). lia. }
  rewrite take_ge in * by done. rewrite drop_ge in Hc2 by done.
  set (st0 := set_queue (Some q2) (set_queue (Some q') st)). set (recs := map record_for (List.filter (wanted st) msgs)) in *.
  assert (Hot : on_time (direct st) msgs).
  { intros Ht. destruct (Hts Ht) as [Hf Hs]. split; [| done]. eapply Forall_impl; [exact Hf |]. intros x (H1 & H2 & H3). split; [done |]. split; [done |]. by left. }
  pose proof (delivers_direct st0 (direct st) m msgs ltac:(by split) Hraw eq_refl Hm Hfits Hclock Hot) as Hdd. cbv zeta in Hdd.
  change (map record_for (List.filter (wanted (direct st)) msgs)) with recs in Hdd.
  pose proof (deliver_all_frame st0 m recs) as [Fq Fd]. destruct (deliver_all st0 m recs) as [events st2]. cbn [fst snd] in *.
  pose proof (drain_dropped q' 512) as Hdq. rewrite Hdrain in Hdq. cbn [snd] in Hdq.
  rewrite (proj2 (Z.ltb_ge 40000 drain_us)) by lia. unfold queue_dropped. rewrite Fq. cbn [worker_log_queue set_queue st0]. rewrite Fd. cbn [logger_drops_reported set_queue st0].
  rewrite (proj2 (Z.eqb_eq _ _)) by congruence. rewrite !app_nil_r. destruct Hdd as [-> Hslots]. destruct (log_all (direct st) (map cut msgs)) as [called st3]. split_and!; try done.
  unfold queue_depth. rewrite Fq. cbn [worker_log_queue set_queue st0]. unfold contents in Hc2. destruct Hwf2.
  apply (f_equal length) in Hc2. rewrite length_map, length_seq in Hc2. cbn in Hc2. lia.
Qed.
End async.

(** Names by equality, and the time in digits. *)
Definition plain_env : LogEnv := {| glob := fun p s => streq p (B "*") || streq p s; localtime := fun t => Some (print_dec t) |}.

(** Warnings of [www] once in ten seconds, a filtered callback, and a log file with
    time stamps; the second message comes two seconds after the first. *)
Definition small_queue : log_queue := LogQueue 4 0 0 0 0 0 0 (replicate 4 empty_record).
Definition at_time (t : Z) : moment := Moment (Some 50) t t false true.
Definition small_logger : logger :=
  Logger [LogFilter (B "www") LOG_WARN 1 10] rate_slots_init [LogCallback 1 7 LOG_CALLBACK_FILTERED] 0 (Some small_queue) true true 0
    true 0 [] false false OtherFile.
Definition small_messages : list message :=
  [Message (at_time 1000) LOG_WARN (B "www") (B "slow"); Message (at_time 1002) LOG_WARN (B "www") (B "slower"); Message (at_time 1002) LOG_INFO (B "www") (B "idle");
   Message (at_time 1003) LOG_INFO (B "rig") (B "up")].

Lemma log_async_equals_direct_witness :
  exists env : LogEnv,
  let '(queued, st1) := log_all small_logger small_messages in
  let '(go_on, delivered, st2) := logger_drain_tick st1 (at_time 1005) 100 in
  delivered =
    [Called 7 LOG_WARN (B "www") (B "slow"); Written OtherFile (B "[1000] <www@warn> slow" ++ [LF]);
     Called 7 LOG_INFO (B "rig") (B "up"); Written OtherFile (B "[1003] <rig@info> up" ++ [LF])] /\ queue_depth st2 = 0.
Proof.
  exists plain_env. pose proof (log_async_equals_direct (H := plain_env) small_logger small_queue small_messages (at_time 1005) 100) as Hdirect.
  destruct (log_all small_logger small_messages) as [queued st1]. destruct (logger_drain_tick st1 (at_time 1005) 100) as [[go_on delivered] st2].
  destruct (log_all (direct small_logger) (map cut small_messages)) as [called st3] eqn:Hcalled.
  destruct Hdirect as (_ & _ & -> & _ & ->); [.. | split; [| reflexivity]].
  - reflexivity.
  - reflexivity.
  - reflexivity.
  - split; cbn; [split; [discriminate | reflexivity] | split; [discriminate | reflexivity] | split; discriminate | reflexivity | reflexivity].
  - reflexivity.
  - reflexivity.
  - reflexivity.
  - repeat (apply Forall_cons; split; [apply Nat.leb_le; vm_compute; reflexivity |]). apply Forall_nil. exact I.
  - discriminate.
  - apply Nat.leb_le. vm_compute. reflexivity.
  - repeat (apply Forall_cons; split; [reflexivity |]). apply Forall_nil. exact I.
  - repeat (apply Forall_cons; split; [split; reflexivity |]). apply Forall_nil. exact I.
  - reflexivity.
  - discriminate.
  - intros _. split.
    + repeat (apply Forall_cons; split; [split; [reflexivity | split; [reflexivity | discriminate]] |]). apply Forall_nil. exact I.
    + repeat (constructor; [| repeat (constructor; [discriminate |]); constructor]). constructor.
  - apply (f_equal fst) in Hcalled. cbn [fst] in Hcalled. rewrite <- Hcalled. vm_compute. reflexivity.
Defined.

(** ** Registration *)

(** The number of raw subscribers is kept, so that no message they want is
    filtered before the queue. *)
Lemma raw_counted_add st tok cb pol :
  raw_counted st -> log_raw_subscribers st < UINT_MAX -> raw_counted (log_add_callback_token st tok cb pol).2.
Proof.
  unfold raw_counted, log_add_callback_token. intros Hr Hmax. destruct (_ && _); [done |]. destruct (tok =? 0); [done |].
  cbn [snd set_callbacks log_raw_subscribers log_callbacks]. rewrite List.filter_app, length_app. cbn [List.filter policy].
  destruct (pol =? LOG_CALLBACK_RAW); cbn [length]; [| lia]. rewrite u32_small; unfold UINT_MAX in Hmax; lia.
Qed.

Lemma remove_token_split tok before cbs cb rest :
  remove_token tok before cbs = Some (cb, rest) ->
  exists l1 l2, before ++ cbs = l1 ++ cb :: l2 /\ rest = l1 ++ l2 /\ cb_token cb = tok.
Proof.
  revert before. induction cbs as [| x cbs IH]; intros before; [done |]. cbn [remove_token]. destruct (Z.eqb_spec (cb_token x) tok) as [He | He].
  - intros [= <- <-]. by exists before, cbs.
  - intros Hg. destruct (IH _ Hg) as (l1 & l2 & Heq & Hrest & Ht). rewrite <- app_assoc in Heq. by exists l1, l2.
Qed.

Lemma raw_counted_remove st tok :
  raw_counted st -> log_raw_subscribers st <= UINT_MAX -> raw_counted (log_remove_callback st tok).2.
Proof.
  unfold raw_counted, log_remove_callback. intros Hr Hmax. destruct (remove_token _ _) as [[cb rest] |] eqn:Hrm; [| done].
  destruct (remove_token_split _ _ _ _ _ Hrm) as (l1 & l2 & Heq & -> & _). cbn [snd set_callbacks log_raw_subscribers log_callbacks].
  cbn [app] in Heq. rewrite Heq, List.filter_app, length_app in Hr. rewrite List.filter_app, length_app. cbn [List.filter] in Hr.
  destruct (policy cb =? LOG_CALLBACK_RAW); cbn [length] in Hr; [| lia]. rewrite u32_small; unfold UINT_MAX in Hmax; lia.
Qed.
