(* ===== verification/Eeprom.v ===== *)
(** * The EEPROM image (eeprom.c)

    A file mapped into memory, read by the names of a layout table.  The table
    and the size of the image are generated at build time and are parameters, as
    is [inet_ntop].  [None] is an access outside the mapping or the buffers; this
    is the POSIX build, whose host is little-endian, without mongoose. *)

From S2P Require Import Prelude CString CFloat ConfigText.

#[local] Open Scope Z_scope.

(** ** The layout *)

Inductive ee_data_type :=
| EE_BOOL | EE_CALL | EE_GRID | EE_STR | EE_CHAN_HEADER | EE_CHAN_GROUPS | EE_CHAN_SLOT | EE_CLASS
| EE_FLOAT | EE_FREQ | EE_INT | EE_IP4 | EE_IP6 | EE_OTHER.

(** [struct eeprom_layout]; a size of SIZE_MAX is a flexible string. *)
Record layout_entry := LayoutEntry { le_key : bstr; le_offset : Z; le_size : Z; le_type : ee_data_type }.

Class EepromBuild := {
  eeprom_layout : list layout_entry;
  EEPROM_SIZE : Z;
  inet_ntop6 : bstr -> bstr }.

Definition SIZE_MAX : Z := 2 ^ 64 - 1.
Definition NOT_FOUND : Z := UINT_MAX.
Definition PIN_LEN : nat := 8.

(** ** State *)

Record eeprom := Eeprom {
  eeprom_ready : bool; eeprom_dirty : bool; eeprom_corrupted : bool;
  eeprom_saved : Z; eeprom_changed : Z;
  eeprom_mmap : option bstr;                     (* the mapped bytes, [eeprom_size] of them *)
  eeprom_fd : Z }.

Definition unusable (st : eeprom) : bool := negb (eeprom_ready st) || eeprom_corrupted st.

Definition with_mmap (st : eeprom) (m : option bstr) : eeprom :=
  Eeprom (eeprom_ready st) (eeprom_dirty st) (eeprom_corrupted st) (eeprom_saved st) (eeprom_changed st) m (eeprom_fd st).

(** [n] bytes at [eeprom_mmap + offset]. *)
Definition mapped_bytes (st : eeprom) (offset : Z) (n : nat) : option bstr :=
  match eeprom_mmap st with
  | Some m => if offset + Z.of_nat n <=? Z.of_nat (length m) then Some (take n (drop (Z.to_nat offset) m)) else None
  | None => None
  end.

(** A [uint32_t] in memory. *)
Fixpoint le_value (s : bstr) : Z :=
  match s with
  | [] => 0
  | c :: s => code c + 256 * le_value s
  end.

Definition le_bytes (v : Z) : bstr := [chr v; chr (Z.shiftr v 8); chr (Z.shiftr v 16); chr (Z.shiftr v 24)].

(** ** CRC-32 *)

Definition POLY : Z := 0xEDB88320.

(** One turn of the loop that fills the table. *)
Definition crc_shift (c : Z) : Z := if Z.odd c then Z.lxor (Z.shiftr c 1) POLY else Z.shiftr c 1.

Fixpoint crc_shifts (n : nat) (c : Z) : Z :=
  match n with
  | O => c
  | S n => crc_shifts n (crc_shift c)
  end.

Definition crc_entry (i : Z) : Z := crc_shifts 8 i.
Definition table : list Z := map crc_entry (seqZ 0 256).

Fixpoint crc_bytes (crc : Z) (data : bstr) : Z :=
  match data with
  | [] => crc
  | p :: data =>
      crc_bytes (Z.lxor (nth (Z.to_nat (Z.land (Z.lxor crc (code p)) 0xFF)) table 0) (Z.shiftr crc 8)) data
  end.

Definition crc32 (crc : Z) (data : bstr) : Z := Z.lxor (crc_bytes (Z.lxor crc 0xFFFFFFFF) data) 0xFFFFFFFF.

(** ** Start *)

(** What [open], [fstat] and [mmap] find. *)
Inductive image := NoFile | NoStat | NoMap | Image (fd : Z) (bytes : bstr).
Inductive outcome (A : Type) := Returned (a : A) | Exited.
Arguments Returned {A} a.
Arguments Exited {A}.

Definition eeprom_init (st : eeprom) (i : image) : outcome (Z * eeprom) :=
  match i with
  | NoFile | NoStat => Returned (UINT_MAX, st)
  | NoMap => Exited
  | Image fd bytes =>
      Returned (0, Eeprom true (eeprom_dirty st) (eeprom_corrupted st) (eeprom_saved st) (eeprom_changed st) (Some bytes) fd)
  end.

(** ** Access by address *)

(** The loop of [eeprom_read_block] for [n] turns from [myoff]; [first] is the
    byte at the start of the mapping. *)
Fixpoint read_block_loop (n : nat) (first offset : Z) (buf : bstr) (myoff : nat) : option bstr :=
  match n with
  | O => Some buf
  | S n =>
      if (myoff <? length buf)%nat
      then read_block_loop n first offset (<[myoff := chr (first + offset + Z.of_nat myoff)]> buf) (S myoff)
      else None
  end.

(** [buf]: the bytes the caller provides. *)
Definition eeprom_read_block (st : eeprom) (buf : option bstr) (offset : Z) (len : nat) : option (Z * option bstr) :=
  if unusable st then Some (UINT_MAX, buf)
  else
    match eeprom_mmap st with
    | None => Some (0, buf)
    | Some m =>
        match buf with
        | None => Some (UINT_MAX, buf)
        | Some b =>
            if (offset <=? 0) || (len =? 0)%nat then Some (UINT_MAX, buf)
            else
              first ← head m;
              b ← read_block_loop (S len) (code first) offset b 0;
              Some (0, Some b)
        end
    end.

Definition eeprom_write (st : eeprom) (offset : Z) (data : ascii) : option (Z * eeprom) :=
  if unusable st then Some (UINT_MAX, st)
  else
    match eeprom_mmap st with
    | Some m => if offset <? Z.of_nat (length m) then Some (0, with_mmap st (Some (<[Z.to_nat offset := data]> m))) else None
    | None => Some (1, st)
    end.

(** The address, as an offset into the mapping. *)
Definition eeprom_read (st : eeprom) (offset : Z) : option Z :=
  if unusable st then None
  else if offset <=? 0 then None
  else match eeprom_mmap st with Some _ => Some offset | None => None end.

Definition eeprom_write_block (st : eeprom) (offset : Z) (len : Z) : Z := UINT_MAX.

Section build.
Context `{EepromBuild}.

(** ** Access by name *)

Fixpoint offset_index (key : bstr) (idx : Z) (rows : list layout_entry) : Z :=
  match rows with
  | [] => NOT_FOUND
  | e :: rows => if strncaseeq key (le_key e) (length key) then idx else offset_index key (idx + 1) rows
  end.

Definition eeprom_offset_index (key : option bstr) : Z :=
  match key with
  | None => NOT_FOUND
  | Some key => offset_index key 0 eeprom_layout
  end.

Definition row (idx : Z) : option layout_entry := eeprom_layout !! Z.to_nat idx.

Definition eeprom_offset_name (idx : Z) : option bstr := le_key <$> row idx.

Definition eeprom_get_int_i (st : eeprom) (idx : Z) : option Z :=
  if unusable st then Some UINT_MAX
  else if idx =? NOT_FOUND then Some UINT_MAX
  else e ← row idx; b ← mapped_bytes st (le_offset e) 4; Some (le_value b).

Definition eeprom_get_int (st : eeprom) (key : option bstr) : option Z :=
  if unusable st then Some UINT_MAX else eeprom_get_int_i st (eeprom_offset_index key).

(** The bits of the [float]; those of -1.0f for a failure. *)
Definition MINUS_ONE_F : Z := 0xBF800000.

Definition eeprom_get_float_i (st : eeprom) (idx : Z) : option Z :=
  if unusable st then Some MINUS_ONE_F
  else if idx =? NOT_FOUND then Some MINUS_ONE_F
  else e ← row idx; b ← mapped_bytes st (le_offset e) 4; Some (le_value b).

Definition eeprom_get_float (st : eeprom) (key : option bstr) : option Z :=
  if unusable st then Some MINUS_ONE_F else eeprom_get_float_i st (eeprom_offset_index key).

(** [Some None] is NULL; the buffer has 256 bytes. *)
Definition eeprom_get_str_i (st : eeprom) (idx : Z) : option (option bstr) :=
  if unusable st then Some None
  else if idx =? NOT_FOUND then Some None
  else
    e ← row idx;
    let len := if le_size e =? SIZE_MAX then 255 else le_size e in
    if 255 <? len then None
    else b ← mapped_bytes st (le_offset e) (Z.to_nat len); Some (Some (cstr b)).

Definition eeprom_get_str (st : eeprom) (key : option bstr) : option (option bstr) :=
  if unusable st then Some None else eeprom_get_str_i st (eeprom_offset_index key).

(** The four bytes of the address, in network order. *)
Definition eeprom_get_ip4 (st : eeprom) (key : option bstr) : option (option bstr) :=
  if unusable st then Some None
  else
    let idx := eeprom_offset_index key in
    if idx =? NOT_FOUND then Some None
    else e ← row idx; b ← mapped_bytes st (le_offset e) 4; Some (Some b).

Definition eeprom_get_bool_i (st : eeprom) (idx : Z) : option bool :=
  if unusable st then Some false
  else if idx =? NOT_FOUND then Some false
  else e ← row idx; b ← mapped_bytes st (le_offset e) 1; Some (1 <=? le_value b).

Definition eeprom_get_bool (st : eeprom) (key : option bstr) : option bool :=
  if unusable st then Some false else eeprom_get_bool_i st (eeprom_offset_index key).

Definition get_serial_number (st : eeprom) : option Z :=
  if unusable st then Some UINT_MAX else eeprom_get_int st (Some (B "dev/serial")).

(** The pins that are logged, if any; a missing one prints as glibc prints NULL. *)
Definition pin_text (s : option bstr) : bstr := take PIN_LEN (default (B "(null)") s).

Definition show_pin_info (st : eeprom) : option (option (bstr * bstr)) :=
  if unusable st then Some None
  else
    show ← eeprom_get_int st (Some (B "pin/show"));
    if show =? 0 then Some None
    else
      master ← eeprom_get_str st (Some (B "pin/master"));
      reset ← eeprom_get_str st (Some (B "pin/reset"));
      Some (Some (pin_text master, pin_text reset)).

(** ** Checksum *)

Definition eeprom_checksum_generate (st : eeprom) : option Z :=
  match eeprom_mmap st with
  | Some m => b ← mapped_bytes st 0 (Z.to_nat (EEPROM_SIZE - 4)); Some (crc32 0 b)
  | None => Some 0
  end.

(** A mismatch ends the process; [false] is success. *)
Definition eeprom_validate_checksum (st : eeprom) : option (outcome bool) :=
  match eeprom_mmap st with
  | Some m =>
      b ← mapped_bytes st (EEPROM_SIZE - 4) 4;
      calc ← eeprom_checksum_generate st;
      Some (if calc =? le_value b then Returned false else Exited)
  | None => Some (Returned false)
  end.

(** ** Loading *)

(** [%0.3f] of a [float] given by its bits. *)
Definition print_f3 (bits : Z) : bstr :=
  let sign := if Z.testbit bits 31 then B "-" else [] in
  let e := Z.land (Z.shiftr bits 23) 255 in
  let m := Z.land bits (2 ^ 23 - 1) in
  if e =? 255 then sign ++ (if m =? 0 then B "inf" else B "nan")
  else
    let '(m, e) := if e =? 0 then (m, -149) else (m + 2 ^ 23, e - 150) in
    let n := if 0 <=? e then m * 2 ^ e * 1000 else div_round (m * 1000) (2 ^ (- e)) in
    sign ++ print_nat (n / 1000) ++ B "." ++ pad_left 3 (print_nat (n mod 1000)).

Definition print_ip4 (b : bstr) : bstr :=
  match map (fun c => print_dec (code c)) b with
  | [a; b; c; d] => a ++ B "." ++ b ++ B "." ++ c ++ B "." ++ d
  | _ => []
  end.

(** The text a row leaves in [mbuf]. *)
Definition load_row (st : eeprom) (i : Z) (e : layout_entry) : option (outcome bstr) :=
  match le_type e with
  | EE_BOOL => b ← eeprom_get_bool_i st i; Some (Returned (if b : bool then B "true" else B "false"))
  | EE_CALL | EE_GRID | EE_STR => s ← eeprom_get_str_i st i; Some (Returned (default (B "(null)") s))
  | EE_CHAN_HEADER | EE_CHAN_GROUPS | EE_CHAN_SLOT => Some (Returned [])
  | EE_CLASS => b ← mapped_bytes st (le_offset e) 2; Some (Returned (cstr b))
  | EE_FLOAT | EE_FREQ => f ← eeprom_get_float_i st i; Some (Returned (print_f3 f))
  | EE_INT => v ← eeprom_get_int_i st i; Some (Returned (print_dec v ++ B "d"))
  | EE_IP4 => b ← mapped_bytes st (le_offset e) 4; Some (Returned (print_ip4 b))
  | EE_IP6 => b ← mapped_bytes st (le_offset e) 16; Some (Returned (inet_ntop6 b))
  | EE_OTHER => Some Exited
  end.

Fixpoint load_rows (st : eeprom) (i : Z) (rows : list layout_entry) : option (outcome (list bstr)) :=
  match rows with
  | [] => Some (Returned [])
  | e :: rows =>
      t ← load_row st i e;
      match t with
      | Exited => Some Exited
      | Returned t =>
          l ← load_rows st (i + 1) rows;
          Some (match l with Returned l => Returned (t :: l) | Exited => Exited end)
      end
  end.

Definition eeprom_load_config (st : eeprom) : option (outcome (Z * list bstr)) :=
  v ← eeprom_validate_checksum st;
  match v with
  | Exited => Some Exited
  | Returned true => Some (Returned (UINT_MAX, []))
  | Returned false =>
      l ← load_rows st 0 eeprom_layout;
      Some (match l with Returned l => Returned (0, l) | Exited => Exited end)
  end.

Definition eeprom_write_config (st : eeprom) (force : bool) : option Z :=
  if negb (eeprom_dirty st) then Some 0
  else if eeprom_corrupted st && negb force then Some UINT_MAX
  else sum ← eeprom_checksum_generate st; Some 0.

End build.

(** ** Delayed writes *)

Definition check_pending_eeprom_changes (st : eeprom) : bool := eeprom_saved st <? eeprom_changed st.
Definition get_eeprom_change_age : Z := 0.
Definition write_pending_eeprom_changes (st : eeprom) : bool := false.
