(* ===== verification/EepromSpec.v ===== *)
(** * What the EEPROM image promises (eeprom.c)

    The checksum is CRC-32 and catches every short burst of wrong bytes; a value
    written at the place of a key is read back by its name; and what the block
    reader does instead of reading. *)

From S2P Require Import Prelude CString ConfigText Eeprom.

#[local] Open Scope Z_scope.

(** ** CRC-32 bit by bit *)

(** The reference: one step of the shift register per bit. *)
Fixpoint crc_ref (crc : Z) (data : bstr) : Z :=
  match data with
  | [] => crc
  | p :: data => crc_ref (crc_shifts 8 (Z.lxor crc (code p))) data
  end.

Lemma odd_lxor a b : Z.odd (Z.lxor a b) = xorb (Z.odd a) (Z.odd b).
Proof. by rewrite <- !Z.bit0_odd, Z.lxor_spec. Qed.

Lemma crc_shift_lxor a b : crc_shift (Z.lxor a b) = Z.lxor (crc_shift a) (crc_shift b).
Proof.
  unfold crc_shift. rewrite odd_lxor, Z.shiftr_lxor. destruct (Z.odd a), (Z.odd b); cbn [xorb];
    apply Z.bits_inj'; intros n _; rewrite !Z.lxor_spec;
    by destruct (Z.testbit (Z.shiftr a 1) n), (Z.testbit (Z.shiftr b 1) n), (Z.testbit POLY n).
Qed.

Lemma shifts_lxor n a b : crc_shifts n (Z.lxor a b) = Z.lxor (crc_shifts n a) (crc_shifts n b).
Proof. revert a b. induction n as [| n IH]; intros a b; cbn [crc_shifts]; [done |]. by rewrite crc_shift_lxor, IH. Qed.

Lemma crc_shift_even y : crc_shift (2 * y) = y.
Proof. unfold crc_shift. rewrite Z.odd_mul. cbn. rewrite Z.shiftr_div_pow2 by lia. change (2 ^ 1) with 2. by rewrite Z.mul_comm, Z.div_mul. Qed.

Lemma shifts_zeros n y : crc_shifts n (2 ^ Z.of_nat n * y) = y.
Proof.
  revert y. induction n as [| n IH]; intros y; cbn [crc_shifts]; [by rewrite Z.mul_1_l |].
  rewrite Nat2Z.inj_succ, Z.pow_succ_r by lia. replace (2 * 2 ^ Z.of_nat n * y) with (2 * (2 ^ Z.of_nat n * y)) by ring.
  by rewrite crc_shift_even, IH.
Qed.

Lemma crc_shift_range c : 0 <= c < 2 ^ 32 -> 0 <= crc_shift c < 2 ^ 32.
Proof.
  intros Hc. pose proof (shiftr_range 32 c 1 ltac:(lia) Hc). unfold crc_shift. destruct (Z.odd c); [| done].
  apply lxor_range; [lia | done | by split].
Qed.

Lemma shifts_range n c : 0 <= c < 2 ^ 32 -> 0 <= crc_shifts n c < 2 ^ 32.
Proof. revert c. induction n as [| n IH]; intros c Hc; cbn [crc_shifts]; [done |]. by apply IH, crc_shift_range. Qed.

(** Only zero is shifted to zero, so nothing is forgotten. *)
Lemma crc_shift_zero c : 0 <= c < 2 ^ 32 -> crc_shift c = 0 -> c = 0.
Proof.
  unfold crc_shift. intros Hc. rewrite Z.shiftr_div_pow2 by lia. change (2 ^ 1) with 2. pose proof (Z.div_mod c 2 ltac:(lia)) as Hd.
  rewrite Zmod_odd in Hd. destruct (Z.odd c); [| lia]. intros H%Z.lxor_eq. unfold POLY in H. lia.
Qed.

Lemma crc_shift_inj a b : 0 <= a < 2 ^ 32 -> 0 <= b < 2 ^ 32 -> crc_shift a = crc_shift b -> a = b.
Proof.
  intros Ha Hb He. apply Z.lxor_eq, crc_shift_zero; [apply lxor_range; lia |]. by rewrite crc_shift_lxor, He, Z.lxor_nilpotent.
Qed.

Lemma shifts_inj n a b : 0 <= a < 2 ^ 32 -> 0 <= b < 2 ^ 32 -> crc_shifts n a = crc_shifts n b -> a = b.
Proof.
  revert a b. induction n as [| n IH]; intros a b Ha Hb; cbn [crc_shifts]; [done |]. intros He.
  apply crc_shift_inj; [done.. |]. apply IH; [by apply crc_shift_range.. | done].
Qed.

(** ** The table *)

Lemma crc_table_entry i : 0 <= i < 256 -> nth (Z.to_nat i) table 0 = crc_shifts 8 i.
Proof.
  intros Hi. assert (H : forallb (fun i => nth (Z.to_nat i) table 0 =? crc_shifts 8 i) (seqZ 0 256) = true) by (vm_compute; reflexivity).
  rewrite forallb_forall in H. apply Z.eqb_eq, H. apply list_elem_of_In, elem_of_seqZ. lia.
Qed.

(** A byte through the table is eight bits through the register. *)
Lemma table_step crc (p : ascii) :
  0 <= crc -> Z.lxor (nth (Z.to_nat (Z.land (Z.lxor crc (code p)) 0xFF)) table 0) (Z.shiftr crc 8) = crc_shifts 8 (Z.lxor crc (code p)).
Proof.
  intros Hc. set (x := Z.lxor crc (code p)). pose proof (code_range p) as Hp.
  assert (Hl : Z.land x 0xFF = x mod 2 ^ 8) by (change 0xFF with (2 ^ 8 - 1); by apply land_pow2).
  rewrite Hl, crc_table_entry by (apply Z.mod_pos_bound; lia).
  assert (Hx : Z.shiftr x 8 = Z.shiftr crc 8).
  { unfold x. rewrite Z.shiftr_lxor, (Z.shiftr_div_pow2 (code p)), Z.div_small, Z.lxor_0_r by lia. done. }
  assert (Hsplit : x = Z.lxor (x mod 2 ^ 8) (2 ^ 8 * (x / 2 ^ 8))).
  { rewrite <- Z.add_nocarry_lxor; [pose proof (Z.div_mod x (2 ^ 8) ltac:(lia)); lia |].
    apply Z.bits_inj'. intros n Hn. rewrite Z.land_spec, Z.bits_0, Z.mul_comm, <- Z.shiftl_mul_pow2 by lia. rewrite Z.shiftl_spec by lia.
    destruct (Z.lt_ge_cases n 8); [rewrite (Z.testbit_neg_r _ (n - 8)) by lia; apply andb_false_r |]. by rewrite Z.mod_pow2_bits_high by lia. }
  rewrite <- Hx. rewrite Hsplit at 3. rewrite shifts_lxor. f_equal. rewrite Z.shiftr_div_pow2 by lia.
  symmetry. apply (shifts_zeros 8).
Qed.

Lemma crc_bytes_ref crc data : 0 <= crc < 2 ^ 32 -> crc_bytes crc data = crc_ref crc data.
Proof.
  revert crc. induction data as [| p data IH]; intros crc Hc; cbn [crc_bytes crc_ref]; [done |].
  rewrite table_step by lia. apply IH, shifts_range, lxor_range; [lia | done |]. pose proof (code_range p). lia.
Qed.

Lemma crc_ref_app crc a b : crc_ref crc (a ++ b) = crc_ref (crc_ref crc a) b.
Proof. revert crc. induction a as [| p a IH]; intros crc; cbn; [done | apply IH]. Qed.

Lemma crc_ref_range crc data : 0 <= crc < 2 ^ 32 -> 0 <= crc_ref crc data < 2 ^ 32.
Proof.
  revert crc. induction data as [| p data IH]; intros crc Hc; cbn [crc_ref]; [done |].
  apply IH, shifts_range, lxor_range; [lia | done |]. pose proof (code_range p). lia.
Qed.

Lemma crc_ref_inj a b data : 0 <= a < 2 ^ 32 -> 0 <= b < 2 ^ 32 -> crc_ref a data = crc_ref b data -> a = b.
Proof.
  revert a b. induction data as [| p data IH]; intros a b Ha Hb; cbn [crc_ref]; [done |]. pose proof (code_range p) as Hp. intros He.
  assert (Hr : forall c, 0 <= c < 2 ^ 32 -> 0 <= Z.lxor c (code p) < 2 ^ 32) by (intros c Hc; apply lxor_range; lia).
  apply IH in He; [| by apply shifts_range, Hr..]. apply shifts_inj in He; [| by apply Hr..].
  rewrite <- (Z.lxor_0_r a), <- (Z.lxor_0_r b), <- (Z.lxor_nilpotent (code p)), <- !Z.lxor_assoc. by rewrite He.
Qed.

Lemma shifts_add n m c : crc_shifts (n + m) c = crc_shifts m (crc_shifts n c).
Proof. revert c. induction n as [| n IH]; intros c; cbn; [done | apply IH]. Qed.

(** A byte below and a number above it do not overlap. *)
Lemma byte_lxor b w : 0 <= b < 256 -> Z.lxor b (2 ^ 8 * w) = b + 256 * w.
Proof.
  intros Hb. rewrite <- Z.add_nocarry_lxor; [lia |]. apply Z.bits_inj'. intros n Hn.
  rewrite Z.land_spec, Z.bits_0, Z.mul_comm, <- Z.shiftl_mul_pow2, Z.shiftl_spec by lia.
  destruct (Z.lt_ge_cases n 8); [rewrite (Z.testbit_neg_r _ (n - 8)) by lia; apply andb_false_r |].
  rewrite <- (Z.mod_small b (2 ^ 8)) by lia. by rewrite Z.mod_pow2_bits_high by lia.
Qed.

(** Several bytes are their number, least significant byte first. *)
Lemma crc_ref_word crc data : crc_ref crc data = crc_shifts (8 * length data) (Z.lxor crc (le_value data)).
Proof.
  revert crc. induction data as [| p data IH]; intros crc; cbn [crc_ref le_value length]; [by rewrite Z.lxor_0_r |].
  rewrite IH. rewrite <- (shifts_zeros 8 (le_value data)) at 1. rewrite <- shifts_lxor, <- shifts_add.
  rewrite Z.lxor_assoc. change (2 ^ Z.of_nat 8) with (2 ^ 8). rewrite byte_lxor by apply code_range. f_equal. lia.
Qed.

Lemma le_value_range data : 0 <= le_value data < 2 ^ (8 * Z.of_nat (length data)).
Proof.
  induction data as [| p data IH]; cbn [le_value length]; [lia |]. pose proof (code_range p).
  replace (8 * Z.of_nat (S (length data))) with (8 + 8 * Z.of_nat (length data)) by lia. rewrite Z.pow_add_r by lia. lia.
Qed.

Lemma le_value_inj a b : length a = length b -> le_value a = le_value b -> a = b.
Proof.
  revert b. induction a as [| p a IH]; intros [| q b] Hl He; try done. cbn [le_value] in He. injection Hl as Hl.
  pose proof (code_range p). pose proof (code_range q). f_equal; [apply code_inj; lia | apply IH; [done | lia]].
Qed.

Lemma burst_found crc a m m' z :
  0 <= crc < 2 ^ 32 -> length m = length m' -> (length m <= 4)%nat -> crc32 crc (a ++ m ++ z) = crc32 crc (a ++ m' ++ z) -> m = m'.
Proof.
  intros Hc Hl Hm. unfold crc32. assert (Hc' : 0 <= Z.lxor crc 0xFFFFFFFF < 2 ^ 32) by (apply lxor_range; lia).
  rewrite !crc_bytes_ref, !crc_ref_app by done. set (c := crc_ref (Z.lxor crc 0xFFFFFFFF) a).
  assert (Hr : 0 <= c < 2 ^ 32) by (by apply crc_ref_range). intros He.
  assert (He2 : crc_ref (crc_ref c m) z = crc_ref (crc_ref c m') z).
  { rewrite <- (Z.lxor_0_r (crc_ref (crc_ref c m) z)), <- (Z.lxor_0_r (crc_ref (crc_ref c m') z)), <- (Z.lxor_nilpotent 0xFFFFFFFF), <- !Z.lxor_assoc.
    by rewrite He. }
  apply crc_ref_inj in He2; [| by apply crc_ref_range..]. rewrite !crc_ref_word, Hl in He2.
  assert (Hw : forall d, (length d <= 4)%nat -> 0 <= Z.lxor c (le_value d) < 2 ^ 32).
  { intros d Hd. apply lxor_range; [lia | done |]. pose proof (le_value_range d) as Hd2. split; [lia |].
    eapply Z.lt_le_trans; [apply Hd2 |]. apply Z.pow_le_mono_r; lia. }
  apply shifts_inj in He2; [| apply Hw; lia..]. apply le_value_inj; [done |].
  rewrite <- (Z.lxor_0_l (le_value m)), <- (Z.lxor_0_l (le_value m')), <- (Z.lxor_nilpotent c), !Z.lxor_assoc. by rewrite He2.
Qed.

(** The checksum is the CRC-32 of the bytes, computed bit by bit, whatever the
    byte table holds, and two texts that differ in a burst of up to four
    consecutive bytes have different checksums. *)
Theorem crc32_detects_bursts (crc : Z) (a m m' z : bstr)
    (Hc : 0 <= crc < 2 ^ 32) (Hlen : length m = length m') (Hburst : (length m <= 4)%nat) (Hdiff : m <> m') :
  crc32 crc (a ++ m ++ z) = Z.lxor (crc_ref (Z.lxor crc 0xFFFFFFFF) (a ++ m ++ z)) 0xFFFFFFFF /\
  0 <= crc32 crc (a ++ m ++ z) < 2 ^ 32 /\
  crc32 crc (a ++ m ++ z) <> crc32 crc (a ++ m' ++ z).
Proof.
  assert (Hc' : 0 <= Z.lxor crc 0xFFFFFFFF < 2 ^ 32) by (apply lxor_range; lia).
  split; [unfold crc32; by rewrite crc_bytes_ref |]. split.
  - unfold crc32. rewrite crc_bytes_ref by done. apply lxor_range; [lia | by apply crc_ref_range | by split].
  - intros He. by apply Hdiff, (burst_found crc a m m' z).
Qed.

(** 0xCBF43926 is the published check value of CRC-32. *)
Lemma crc32_detects_bursts_witness :
  crc32 0 (B "1" ++ B "2345" ++ B "6789") <> crc32 0 (B "1" ++ B "5432" ++ B "6789") /\ crc32 0 (B "123456789") = 0xCBF43926.
Proof.
  split; [| vm_compute; reflexivity].
  refine (proj2 (proj2 (crc32_detects_bursts 0 (B "1") (B "2345") (B "5432") (B "6789") _ _ _ _))).
  - split; [discriminate | reflexivity].
  - reflexivity.
  - apply Nat.leb_le. reflexivity.
  - discriminate.
Defined.

(** ** Bytes of the mapping *)

Lemma le_bytes_value v : 0 <= v < 2 ^ 32 -> le_value (le_bytes v) = v.
Proof.
  intros Hv. unfold le_bytes. cbn [le_value]. rewrite !code_chr, !Z.shiftr_div_pow2 by lia.
  pose proof (Z.div_mod v 256 ltac:(lia)). pose proof (Z.div_mod (v / 256) 256 ltac:(lia)). pose proof (Z.div_mod (v / 256 / 256) 256 ltac:(lia)).
  rewrite !Z.div_div in * by lia. change (2 ^ 8) with 256. change (2 ^ 16) with (256 * 256). change (2 ^ 24) with (256 * 256 * 256).
  rewrite (Z.mod_small (v / (256 * 256 * 256))) by (split; [apply Z.div_pos | apply Z.div_lt_upper_bound]; lia). lia.
Qed.

Lemma mapped_mid st p d q :
  eeprom_mmap st = Some (p ++ d ++ q) -> mapped_bytes st (Z.of_nat (length p)) (length d) = Some d.
Proof.
  intros Hm. unfold mapped_bytes. rewrite Hm, !length_app. rewrite (proj2 (Z.leb_le _ _)) by lia.
  by rewrite Nat2Z.id, drop_app_length, take_app_length.
Qed.

Section build.
Context `{EepromBuild}.

(** ** The checksum guards the image *)

Lemma validate_image st data sum :
  eeprom_mmap st = Some (data ++ sum) -> length sum = 4%nat -> EEPROM_SIZE = Z.of_nat (length data) + 4 ->
  eeprom_validate_checksum st = Some (if crc32 0 data =? le_value sum then Returned false else Exited).
Proof.
  intros Hm Hs He. unfold eeprom_validate_checksum, eeprom_checksum_generate. rewrite Hm.
  replace (EEPROM_SIZE - 4) with (Z.of_nat (length data)) by lia.
  pose proof (mapped_mid st data sum []) as H1. rewrite app_nil_r, Hs in H1. rewrite H1 by done.
  pose proof (mapped_mid st [] data sum Hm) as H2. cbn [length] in H2. change (Z.of_nat 0) with 0 in H2. rewrite Nat2Z.id, H2. done.
Qed.

(** C35: an image that ends in the checksum of its data is accepted; when a burst
    of up to four consecutive bytes of the data has changed, or the stored
    checksum, the process ends before any setting is read. *)
Theorem eeprom_checksum_guards (st : eeprom) (a m m' z sum : bstr)
    (Hsize : EEPROM_SIZE = Z.of_nat (length (a ++ m ++ z)) + 4) (Hlen : length m = length m') (Hburst : (length m <= 4)%nat)
    (Hsum : length sum = 4%nat) (Hmap : eeprom_mmap st = Some ((a ++ m' ++ z) ++ sum)) :
  let good := le_bytes (crc32 0 (a ++ m ++ z)) in
  (m' = m /\ sum = good -> eeprom_validate_checksum st = Some (Returned false)) /\
  (m' <> m /\ sum = good -> eeprom_load_config st = Some Exited) /\
  (m' = m /\ sum <> good -> eeprom_load_config st = Some Exited).
Proof.
  cbv zeta. assert (Hcrc : forall d, 0 <= crc32 0 d < 2 ^ 32).
  { intros d. unfold crc32. rewrite crc_bytes_ref by (split; [apply Z.lxor_nonneg; done | reflexivity]).
    apply lxor_range; [lia | apply crc_ref_range; by split | by split]. }
  pose proof (validate_image st (a ++ m' ++ z) sum Hmap Hsum) as Hv. rewrite Hsize, !length_app, Hlen in Hv. specialize (Hv eq_refl).
  unfold eeprom_load_config. rewrite Hv. split_and!.
  - intros [-> ->]. by rewrite le_bytes_value, Z.eqb_refl by apply Hcrc.
  - intros [Hne ->]. rewrite le_bytes_value by apply Hcrc. rewrite (proj2 (Z.eqb_neq _ _)); [done |].
    intros He. apply Hne. symmetry. by apply (burst_found 0 a m m' z).
  - intros [-> Hne]. rewrite (proj2 (Z.eqb_neq _ _)); [done |]. intros He. apply Hne.
    apply le_value_inj; [done |]. by rewrite le_bytes_value by apply Hcrc.
Qed.

(** ** A value by its name *)

(** Bytes written one after the other. *)
Fixpoint write_all (st : eeprom) (offset : Z) (data : bstr) : option eeprom :=
  match data with
  | [] => Some st
  | c :: data => '(_, st) ← eeprom_write st offset c; write_all st (offset + 1) data
  end.

Lemma write_all_mid st p o data q :
  unusable st = false -> eeprom_mmap st = Some (p ++ o ++ q) -> length o = length data ->
  write_all st (Z.of_nat (length p)) data = Some (with_mmap st (Some (p ++ data ++ q))).
Proof.
  revert st p o. induction data as [| c data IH]; intros st p [| x o] Hu Hm Hl; try done; cbn [write_all].
  - f_equal. destruct st. cbn in *. by rewrite Hm.
  - unfold eeprom_write. rewrite Hu, Hm. rewrite (proj2 (Z.ltb_lt _ _)) by (rewrite !length_app; cbn; lia). cbn [mbind option_bind].
    rewrite Nat2Z.id, insert_app_r_alt, Nat.sub_diag by done. change (<[0%nat := c]> ((x :: o) ++ q)) with (c :: o ++ q).
    replace (Z.of_nat (length p) + 1) with (Z.of_nat (length (p ++ [c]))) by (rewrite length_app; cbn; lia).
    rewrite (IH _ (p ++ [c]) o); [by rewrite <- app_assoc | done | cbn; by rewrite <- app_assoc | by injection Hl].
Qed.

Lemma offset_index_first key rows i idx e :
  rows !! i = Some e -> strncaseeq key (le_key e) (length key) = true ->
  (forall j e', (j < i)%nat -> rows !! j = Some e' -> strncaseeq key (le_key e') (length key) = false) ->
  offset_index key idx rows = idx + Z.of_nat i.
Proof.
  revert i idx. induction rows as [| r rows IH]; intros i idx Hi He Hbefore; [done |]. cbn [offset_index]. destruct i as [| i].
  - injection Hi as ->. rewrite He. lia.
  - rewrite (Hbefore 0%nat r) by (done || lia). rewrite (IH i) by (try done; intros j e' Hj; apply (Hbefore (S j)); lia). lia.
Qed.

Lemma own_key key : strncaseeq key key (length key) = true.
Proof. unfold strncaseeq, strcaseeq. apply streq_refl. Qed.

Definition apart (o1 o2 : Z) (n1 n2 : nat) : Prop := o1 + Z.of_nat n1 <= o2 \/ o2 + Z.of_nat n2 <= o1.

Lemma mapped_apart st p d d' q o n :
  length d = length d' -> eeprom_mmap st = Some (p ++ d ++ q) -> 0 <= o -> apart o (Z.of_nat (length p)) n (length d) ->
  mapped_bytes (with_mmap st (Some (p ++ d' ++ q))) o n = mapped_bytes st o n.
Proof.
  intros Hl Hm Ho Ha. unfold mapped_bytes. rewrite Hm. cbn [eeprom_mmap with_mmap]. rewrite !length_app, Hl.
  destruct (_ <=? _) eqn:Hle; [| done]. f_equal. destruct Ha as [Ha | Ha].
  - rewrite !(drop_app_le p) by lia. rewrite !take_app_le by (rewrite length_drop; lia). done.
  - rewrite !(drop_app_ge p), !drop_app_ge by lia. by rewrite Hl.
Qed.

(** Four bytes written at the place of a key are the number that
    [eeprom_get_int] returns for the key, provided that no earlier row of the
    layout starts with it, and the bytes at any other place are unchanged; without
    the proviso the first row whose key starts with the given one is read. *)
Theorem eeprom_int_roundtrip (st : eeprom) (m : bstr) (i : nat) (e : layout_entry) (v : Z)
    (Hu : unusable st = false) (Hm : eeprom_mmap st = Some m) (Hi : eeprom_layout !! i = Some e) (Hrows : Z.of_nat i < NOT_FOUND)
    (Ho : 0 <= le_offset e) (Hfit : le_offset e + 4 <= Z.of_nat (length m)) (Hv : 0 <= v < 2 ^ 32)
    (Hfirst : forall j e', (j < i)%nat -> eeprom_layout !! j = Some e' -> strncaseeq (le_key e) (le_key e') (length (le_key e)) = false) :
  exists st', write_all st (le_offset e) (le_bytes v) = Some st' /\ eeprom_get_int st' (Some (le_key e)) = Some v /\
    forall o n, 0 <= o -> apart o (le_offset e) n 4 -> mapped_bytes st' o n = mapped_bytes st o n.
Proof.
  set (off := Z.to_nat (le_offset e)). set (p := take off m). set (o := take 4 (drop off m)). set (q := drop 4 (drop off m)).
  assert (Hsplit : m = p ++ o ++ q) by (unfold p, o, q; by rewrite !take_drop). assert (Hp : Z.of_nat (length p) = le_offset e) by (unfold p; rewrite length_take; lia).
  assert (Hlo : length o = 4%nat) by (unfold o; rewrite length_take, length_drop; lia). rewrite Hsplit in Hm.
  exists (with_mmap st (Some (p ++ le_bytes v ++ q))). split; [| split].
  - rewrite <- Hp. by apply (write_all_mid st p o).
  - unfold eeprom_get_int, eeprom_get_int_i. change (unusable (with_mmap _ _)) with (unusable st). rewrite Hu. cbn [eeprom_offset_index].
    rewrite (offset_index_first _ _ i 0 e Hi (own_key _) Hfirst). rewrite (proj2 (Z.eqb_neq _ _)) by (unfold NOT_FOUND in *; lia).
    unfold row. replace (Z.to_nat (0 + Z.of_nat i)) with i by lia. rewrite Hi. cbn [mbind option_bind]. rewrite <- Hp.
    pose proof (mapped_mid (with_mmap st (Some (p ++ le_bytes v ++ q))) p (le_bytes v) q eq_refl) as Hmid.
    change (length (le_bytes v)) with 4%nat in Hmid. rewrite Hmid. cbn [mbind option_bind]. by rewrite le_bytes_value.
  - intros o' n Ho' Ha. apply (mapped_apart st p o); [done | done | done |]. by rewrite Hlo, Hp.
Qed.

End build.

(** ** Reading a block *)

Definition not_read (first offset : Z) (i : nat) : ascii := chr (first + offset + Z.of_nat i).

Lemma read_block_fill n first offset buf (k : nat) :
  (k + n <= length buf)%nat ->
  read_block_loop n first offset buf k = Some (take k buf ++ map (not_read first offset) (seq k n) ++ drop (k + n) buf).
Proof.
  revert buf k. induction n as [| n IH]; intros buf k Hk; cbn [read_block_loop seq map].
  - cbn [app]. by rewrite Nat.add_0_r, take_drop.
  - rewrite (proj2 (Nat.ltb_lt _ _)) by lia. rewrite IH by (rewrite length_insert; lia). f_equal.
    rewrite insert_take_drop by lia. rewrite take_app_ge, length_take_le by (rewrite ?length_take; lia).
    replace (S k - k)%nat with 1%nat by lia. cbn [take]. rewrite take_0, <- app_assoc. cbn [app]. do 3 f_equal.
    rewrite drop_app_ge, length_take_le by (rewrite ?length_take; lia). replace (S k + n - k)%nat with (S n) by lia. cbn [drop].
    rewrite drop_drop. f_equal. lia.
Qed.

Lemma read_block_over n first offset buf (k : nat) :
  (k <= length buf < k + n)%nat -> read_block_loop n first offset buf k = None.
Proof.
  revert buf k. induction n as [| n IH]; intros buf k Hk; [lia |]. cbn [read_block_loop].
  destruct (Nat.ltb_spec k (length buf)); [| done]. apply IH. rewrite length_insert. lia.
Qed.

(** [eeprom_read_block] does not read the block: it writes [len + 1] bytes,
    beyond a buffer of the length it is told, and in a larger buffer the bytes it
    leaves count up from the first byte of the image, whatever is at the offset. *)
Theorem eeprom_read_block_overruns (st : eeprom) (c : ascii) (m buf : bstr) (offset : Z) (len : nat)
    (Hu : unusable st = false) (Hm : eeprom_mmap st = Some (c :: m)) (Ho : 0 < offset) (Hlen : (0 < len)%nat) :
  (length buf = len -> eeprom_read_block st (Some buf) offset len = None) /\
  ((len < length buf)%nat -> eeprom_read_block st (Some buf) offset len =
     Some (0, Some (map (not_read (code c) offset) (seq 0 (S len)) ++ drop (S len) buf))).
Proof.
  unfold eeprom_read_block. rewrite Hu, Hm. rewrite (proj2 (Z.leb_gt _ _)), (proj2 (Nat.eqb_neq _ _)) by lia.
  cbn [orb head mbind option_bind]. split; intros Hb.
  - rewrite read_block_over; [done | lia].
  - rewrite read_block_fill by lia. done.
Qed.

(** ** Witnesses *)

Definition small_build : EepromBuild :=
  {| eeprom_layout := [LayoutEntry (B "dev/serial") 0 4 EE_INT; LayoutEntry (B "pin/show") 4 4 EE_INT]; EEPROM_SIZE := 12; inet_ntop6 := fun _ => [] |}.

Definition small_data : bstr := le_bytes 7 ++ le_bytes 1.
Definition small_eeprom (bytes : bstr) : eeprom := Eeprom true false false 0 0 (Some bytes) 3.

Lemma eeprom_checksum_guards_witness :
  exists build : EepromBuild,
    eeprom_validate_checksum (small_eeprom (small_data ++ le_bytes (crc32 0 small_data))) = Some (Returned false) /\
    eeprom_load_config (small_eeprom ((le_bytes 8 ++ le_bytes 1) ++ le_bytes (crc32 0 small_data))) = Some Exited.
Proof.
  exists small_build. split.
  - refine (proj1 (eeprom_checksum_guards (H := small_build) (small_eeprom (small_data ++ le_bytes (crc32 0 small_data)))
      [] (le_bytes 7) (le_bytes 7) (le_bytes 1) (le_bytes (crc32 0 small_data)) _ _ _ _ _) _).
    + reflexivity.
    + reflexivity.
    + apply Nat.leb_le. reflexivity.
    + reflexivity.
    + reflexivity.
    + split; reflexivity.
  - refine (proj1 (proj2 (eeprom_checksum_guards (H := small_build) (small_eeprom ((le_bytes 8 ++ le_bytes 1) ++ le_bytes (crc32 0 small_data)))
      [] (le_bytes 7) (le_bytes 8) (le_bytes 1) (le_bytes (crc32 0 small_data)) _ _ _ _ _)) _).
    + reflexivity.
    + reflexivity.
    + apply Nat.leb_le. reflexivity.
    + reflexivity.
    + reflexivity.
    + split; [vm_compute; discriminate | reflexivity].
Defined.

Lemma eeprom_int_roundtrip_witness :
  exists (build : EepromBuild) (st' : eeprom),
    write_all (small_eeprom small_data) 4 (le_bytes 258) = Some st' /\ eeprom_get_int st' (Some (B "pin/show")) = Some 258 /\
    eeprom_get_int st' (Some (B "dev/serial")) = Some 7.
Proof.
  exists small_build.
  destruct (eeprom_int_roundtrip (H := small_build) (small_eeprom small_data) small_data 1 (LayoutEntry (B "pin/show") 4 4 EE_INT) 258)
    as (st' & H1 & H2 & _).
  - reflexivity.
  - reflexivity.
  - reflexivity.
  - reflexivity.
  - discriminate.
  - vm_compute. discriminate.
  - split; [discriminate | reflexivity].
  - intros [| j] e' Hj; [intros He; injection He as <-; vm_compute; reflexivity |]. destruct (Nat.nlt_0_r j). apply Nat.succ_lt_mono. exact Hj.
  - exists st'. split; [exact H1 |]. split; [exact H2 |]. vm_compute in H1. injection H1 as <-. vm_compute. reflexivity.
Defined.

Lemma eeprom_read_block_overruns_witness :
  eeprom_read_block (small_eeprom (B "abcd")) (Some (B "xx")) 1 2 = None /\
  eeprom_read_block (small_eeprom (B "abcd")) (Some (B "xxxx")) 1 2 = Some (0, Some (B "bcdx")).
Proof.
  split; [| vm_compute; reflexivity].
  refine (proj1 (eeprom_read_block_overruns (small_eeprom (B "abcd")) "a"%char (B "bcd") (B "xx") 1 2 _ _ _ _) _); try reflexivity.
  apply Nat.ltb_lt. reflexivity.
Defined.
