(* ===== verification/Socks.v ===== *)
(** * The SOCKS5 client (socks.c)

    Negotiation of a tunnel through a proxy over a connection of mongoose.  The
    connection is what the code uses of it: the closing flag, the bytes received
    and not yet consumed, and the bytes sent; whether [mg_send] can queue its
    bytes is an outcome like that of an allocation.  [mg_error] reports the error to
    the handler, which is [rr_socks_event] with MG_EV_ERROR on a connection that
    has already failed. *)

From S2P Require Import Prelude CString Acl.

#[local] Open Scope Z_scope.

Inductive socks_stage := SOCKS_OFF | SOCKS_GREETING | SOCKS_AUTH | SOCKS_CONNECT | SOCKS_READY | SOCKS_FAILED.
Inductive mg_event := MG_EV_ERROR | MG_EV_CLOSE | MG_EV_CONNECT | MG_EV_READ | MG_EV_POLL | MG_EV_OTHER.

#[export] Instance socks_stage_dec : EqDecision socks_stage.
Proof. solve_decision. Defined.
#[export] Instance mg_event_dec : EqDecision mg_event.
Proof. solve_decision. Defined.

(** [rr_socks_t] *)
Record socks := Socks {
  url : bstr; host : bstr; user : bstr; pass : bstr; port : Z; stage : socks_stage; deadline_ms : Z }.

Record conn := Conn { is_closing : bool; recv : bstr; sent : bstr }.

Definition set_stage (s : socks) (st : socks_stage) : socks := Socks (url s) (host s) (user s) (pass s) (port s) st (deadline_ms s).
Definition closing (c : conn) : conn := Conn true (recv c) (sent c).
Definition failed : socks := Socks [] [] [] [] 0 SOCKS_FAILED 0.

Definition begins (p s : bstr) : bool := bool_decide (take (length p) s = p).

(** [strcspn(s, ":/")] *)
Fixpoint host_span (s : bstr) : nat :=
  match s with
  | [] => O
  | c :: s => if bool_decide (c = ":"%char) || bool_decide (c = "/"%char) then O else S (host_span s)
  end.

(** The digits of the port; [None] above 65535. *)
Fixpoint port_digits (n : Z) (s : bstr) : option (Z * bstr) :=
  match s with
  | c :: s' =>
      if isdigit c then
        let n := n * 10 + (code c - 48) in
        if 65535 <? n then None else port_digits n s'
      else Some (n, s)
  | [] => Some (n, s)
  end.

(** The suffix after the host: the port and what follows it. *)
Definition proxy_port (suffix : bstr) : option (Z * bstr) :=
  match suffix with
  | c :: s =>
      if bool_decide (c = ":"%char) then
        match s with
        | d :: _ =>
            if isdigit d
            then '(n, s) ← port_digits 0 s; if n =? 0 then None else Some (n, s)
            else None
        | [] => None
        end
      else Some (1080, suffix)
  | [] => Some (1080, suffix)
  end.

Definition host_char (c : ascii) : bool := isalnum c || bool_decide (c = "."%char) || bool_decide (c = "-"%char).

Section socks.
Context `{InetPton}.

Definition is_ip6 (s : bstr) : bool := match inet_pton6 s with Some _ => true | None => false end.

(** The URL of the proxy: whether its host is bracketed, the host and the port. *)
Definition parse_url (u : bstr) : option (bool * bstr * Z) :=
  address ← (if begins (B "socks5h://") u then Some (drop 10 u) else if begins (B "socks5://") u then Some (drop 9 u) else None);
  let ipv6 := match address with c :: _ => bool_decide (c = "["%char) | [] => false end in
  let begin := if ipv6 : bool then drop 1 address else address in
  n ← (if ipv6 : bool then '(h, _) ← split_at begin "]"%char; Some (length h) else Some (host_span begin));
  if (n =? 0)%nat || (256 <=? n)%nat then None
  else
    let proxy_host := take n begin in
    if negb (if ipv6 : bool then is_ip6 proxy_host else forallb host_char proxy_host) then None
    else
      '(p, suffix) ← proxy_port (drop (n + if ipv6 : bool then 1 else 0)%nat begin);
      if negb (streq suffix [] || streq suffix (B "/")) then None else Some (ipv6, proxy_host, p).

Definition dest_char (c : ascii) : bool := host_char c || bool_decide (c = "_"%char).

(** [now]: [mono_ms()] *)
Definition rr_socks_init (now : Z) (u usr pwd hst : option bstr) (prt : Z) : bool * socks :=
  match u, hst with
  | Some u, Some h =>
      if streq u [] || streq h [] || (255 <? length h)%nat || (prt =? 0) then (false, failed)
      else
        match parse_url u with
        | None => (false, failed)
        | Some (ipv6, proxy_host, p) =>
            if negb (is_ip6 h) && negb (forallb dest_char h) then (false, failed)
            else
              let usr := default [] usr in
              let pwd := default [] pwd in
              if (255 <? length usr)%nat || (255 <? length pwd)%nat || xorb (streq usr []) (streq pwd []) then (false, failed)
              else
                (true, Socks (B "tcp://" ++ (if ipv6 : bool then B "[" else []) ++ proxy_host ++ (if ipv6 : bool then B "]" else []) ++ B ":" ++ print_dec p)
                         h usr pwd prt SOCKS_GREETING (now + 30000))
        end
  | _, _ => (false, failed)
  end.

(** ** Packets *)

Definition has_user (s : socks) : bool := negb (streq (user s) []).

Definition greeting (s : socks) : bstr := [chr 5; chr 1; chr (if has_user s then 2 else 0)].

Definition auth_packet (s : socks) : bstr :=
  [chr 1; chr (Z.of_nat (length (user s)))] ++ user s ++ [chr (Z.of_nat (length (pass s)))] ++ pass s.

Definition connect_packet (s : socks) : bstr :=
  match inet_pton4 (host s), inet_pton6 (host s) with
  | Some a, _ => [chr 5; chr 1; chr 0; chr 1] ++ map chr a
  | None, Some a => [chr 5; chr 1; chr 0; chr 4] ++ map chr a
  | None, None => [chr 5; chr 1; chr 0; chr 3; chr (Z.of_nat (length (host s)))] ++ host s
  end ++ [chr (Z.shiftr (port s) 8); chr (port s)].

(** ** Events *)

(** A result: the return value, the state, the connection, the outcomes left. *)
Definition result : Type := Z * socks * conn * allocs.

Definition fail (s : socks) (c : conn) (o : allocs) : result := (-1, set_stage s SOCKS_FAILED, closing c, o).

Definition mg_send (c : conn) (packet : bstr) (o : allocs) : bool * conn * allocs :=
  let '(ok, o) := alloc o in (ok, if ok then Conn (is_closing c) (recv c) (sent c ++ packet) else c, o).

Definition mg_iobuf_del (c : conn) (n : nat) : conn := Conn (is_closing c) (drop n (recv c)) (sent c).

Definition connect_request (s : socks) (c : conn) (o : allocs) : bool * socks * conn * allocs :=
  let s := set_stage s SOCKS_CONNECT in
  let '(ok, c, o) := mg_send c (connect_packet s) o in
  if ok : bool then (true, s, c, o) else let '(_, s, c, o) := fail s c o in (false, s, c, o).

Definition byte (p : bstr) (i : nat) : Z := code (nth i p NUL).

(** The length of a reply to CONNECT: [None] if it cannot be told yet, and an
    error in place of a length. *)
Definition reply_length (p : bstr) : option (option nat) :=
  if byte p 3 =? 1 then Some (Some 10%nat)
  else if byte p 3 =? 4 then Some (Some 22%nat)
  else if byte p 3 =? 3 then
    if (length p <? 5)%nat then None
    else if byte p 4 =? 0 then Some None
    else Some (Some (7 + Z.to_nat (byte p 4))%nat)
  else Some None.

(** The loop of MG_EV_READ; [None] is out of fuel. *)
Fixpoint read_loop (fuel : nat) (s : socks) (c : conn) (o : allocs) : option result :=
  match fuel with
  | O => None
  | S fuel =>
      if is_closing c then Some (-1, s, c, o)
      else
        let p := recv c in
        match stage s with
        | SOCKS_GREETING =>
            if (length p <? 2)%nat then Some (0, s, c, o)
            else if negb (byte p 0 =? 5) || negb (byte p 1 =? (if has_user s then 2 else 0)) then Some (fail s c o)
            else
              let c := mg_iobuf_del c 2 in
              if has_user s then
                let s := set_stage s SOCKS_AUTH in
                let '(ok, c, o) := mg_send c (auth_packet s) o in
                if ok : bool then read_loop fuel s c o else Some (fail s c o)
              else
                let '(ok, s, c, o) := connect_request s c o in
                if ok : bool then read_loop fuel s c o else Some (-1, s, c, o)
        | SOCKS_AUTH =>
            if (length p <? 2)%nat then Some (0, s, c, o)
            else if negb (byte p 0 =? 1) || negb (byte p 1 =? 0) then Some (fail s c o)
            else
              let c := mg_iobuf_del c 2 in
              let '(ok, s, c, o) := connect_request s c o in
              if ok : bool then read_loop fuel s c o else Some (-1, s, c, o)
        | SOCKS_CONNECT =>
            if (length p <? 4)%nat then Some (0, s, c, o)
            else if negb (byte p 0 =? 5) || negb (byte p 2 =? 0) then Some (fail s c o)
            else if negb (byte p 1 =? 0) then Some (fail s c o)
            else
              match reply_length p with
              | None => Some (0, s, c, o)
              | Some None => Some (fail s c o)
              | Some (Some len) =>
                  if (length p <? len)%nat then Some (0, s, c, o)
                  else Some (1, set_stage s SOCKS_READY, mg_iobuf_del c len, o)
              end
        | _ => Some (0, s, c, o)
        end
  end.

Definition rr_socks_event (now : Z) (s : socks) (c : conn) (event : mg_event) (o : allocs) : option result :=
  if bool_decide (event = MG_EV_ERROR) || bool_decide (event = MG_EV_CLOSE) || is_closing c
  then Some (-1, set_stage s SOCKS_FAILED, closing c, o)
  else if bool_decide (stage s = SOCKS_FAILED) then Some (-1, s, closing c, o)
  else if bool_decide (stage s = SOCKS_READY) then Some (0, s, c, o)
  else if bool_decide (event = MG_EV_POLL) && (deadline_ms s <=? now) then Some (fail s c o)
  else
    let '(ok, c, o) := if bool_decide (event = MG_EV_CONNECT) then mg_send c (greeting s) o else (true, c, o) in
    if negb ok then Some (fail s c o)
    else if negb (bool_decide (event = MG_EV_READ)) then Some (0, s, c, o)
    else read_loop 4 s c o.

End socks.
