(* ===== verification/SocksSpec.v ===== *)
(** * What the SOCKS5 client promises (socks.c)

    The tunnel opens exactly when the proxy's bytes are the answers of RFC 1928,
    however the network cuts them into reads; and which URLs are accepted. *)

From S2P Require Import Prelude CString Acl Socks.

#[local] Open Scope Z_scope.

Section handshake.
Context `{InetPton}.

(** ** The loop, unrolled

    With room to send, one pass is the rest of the stages from the present one. *)

Definition state : Type := Z * socks * conn.

Definition fail_now (s : socks) (c : conn) : state := (-1, set_stage s SOCKS_FAILED, closing c).
Definition send (c : conn) (packet : bstr) : conn := Conn (is_closing c) (recv c) (sent c ++ packet).
Definition add (c : conn) (bytes : bstr) : conn := Conn (is_closing c) (recv c ++ bytes) (sent c).

Definition from_connect (s : socks) (c : conn) : state :=
  let p := recv c in
  if (length p <? 4)%nat then (0, s, c)
  else if negb (byte p 0 =? 5) || negb (byte p 2 =? 0) then fail_now s c
  else if negb (byte p 1 =? 0) then fail_now s c
  else
    match reply_length p with
    | None => (0, s, c)
    | Some None => fail_now s c
    | Some (Some len) => if (length p <? len)%nat then (0, s, c) else (1, set_stage s SOCKS_READY, mg_iobuf_del c len)
    end.

Definition request (s : socks) (c : conn) : state :=
  let s := set_stage s SOCKS_CONNECT in from_connect s (send c (connect_packet s)).

Definition from_auth (s : socks) (c : conn) : state :=
  let p := recv c in
  if (length p <? 2)%nat then (0, s, c)
  else if negb (byte p 0 =? 1) || negb (byte p 1 =? 0) then fail_now s c
  else request s (mg_iobuf_del c 2).

Definition from_greeting (s : socks) (c : conn) : state :=
  let p := recv c in
  if (length p <? 2)%nat then (0, s, c)
  else if negb (byte p 0 =? 5) || negb (byte p 1 =? (if has_user s then 2 else 0)) then fail_now s c
  else
    let c := mg_iobuf_del c 2 in
    if has_user s then let s := set_stage s SOCKS_AUTH in from_auth s (send c (auth_packet s)) else request s c.

Definition read_now (s : socks) (c : conn) : state :=
  match stage s with
  | SOCKS_GREETING => from_greeting s c
  | SOCKS_AUTH => from_auth s c
  | SOCKS_CONNECT => from_connect s c
  | _ => (0, s, c)
  end.

(** What [rr_socks_event] does with MG_EV_READ. *)
Definition read (s : socks) (c : conn) : state :=
  if is_closing c then fail_now s c
  else if bool_decide (stage s = SOCKS_FAILED) then (-1, s, closing c)
  else read_now s c.

Lemma loop_connect n s c :
  stage s = SOCKS_CONNECT -> is_closing c = false -> read_loop (S n) s c [] = Some (from_connect s c, []).
Proof.
  intros Hs Hc. cbn [read_loop]. rewrite Hc, Hs. unfold from_connect, fail, fail_now.
  repeat case_match; try done; congruence.
Qed.

Lemma loop_request n s c :
  is_closing c = false ->
  (let '(ok, s, c, o) := connect_request s c [] in if ok : bool then read_loop (S n) s c o else Some (-1, s, c, o)) = Some (request s c, []).
Proof. intros Hc. unfold connect_request, mg_send. cbn [alloc]. by apply loop_connect. Qed.

Lemma loop_auth n s c :
  stage s = SOCKS_AUTH -> is_closing c = false -> read_loop (S (S n)) s c [] = Some (from_auth s c, []).
Proof.
  intros Hs Hc. remember (S n) as m eqn:Hm. cbn [read_loop]. rewrite Hc, Hs. unfold from_auth, fail, fail_now. subst m.
  destruct (_ <? _)%nat; [done |]. destruct (_ || _); [done |]. by rewrite loop_request.
Qed.

Lemma loop_greeting n s c :
  stage s = SOCKS_GREETING -> is_closing c = false -> read_loop (S (S (S n))) s c [] = Some (from_greeting s c, []).
Proof.
  intros Hs Hc. remember (S (S n)) as m eqn:Hm. cbn [read_loop]. rewrite Hc, Hs. unfold from_greeting, fail, fail_now. subst m.
  destruct (_ <? _)%nat; [done |]. destruct (_ || _); [done |]. destruct (has_user s).
  - unfold mg_send. cbn [alloc]. by apply loop_auth.
  - by rewrite loop_request.
Qed.

Lemma event_read now s c : rr_socks_event now s c MG_EV_READ [] = Some (read s c, []).
Proof.
  unfold rr_socks_event, read. change (bool_decide (MG_EV_READ = MG_EV_ERROR)) with false.
  change (bool_decide (MG_EV_READ = MG_EV_CLOSE)) with false. change (bool_decide (MG_EV_READ = MG_EV_POLL)) with false.
  change (bool_decide (MG_EV_READ = MG_EV_CONNECT)) with false. change (bool_decide (MG_EV_READ = MG_EV_READ)) with true.
  cbn [orb andb negb]. destruct (is_closing c) eqn:Hc; [done |]. unfold read_now. destruct (stage s) eqn:Hs.
  - cbn [read_loop]. by rewrite Hc, Hs.
  - by apply (loop_greeting 1).
  - by apply (loop_auth 2).
  - by apply (loop_connect 3).
  - done.
  - done.
Qed.

(** ** Cutting the bytes differently changes nothing *)

(** The state and the connection; the return value tells only that it opened now. *)
Definition where_ (x : state) : socks * conn := (x.1.2, x.2).

(** A result that more bytes take up where it stopped. *)
Definition resumes (f : socks -> conn -> state) (s : socks) (c : conn) : Prop :=
  forall more, where_ (f s (add c more)) = where_ (let '(_, s, c) := f s c in read s (add c more)).

Lemma resumes_wait f s c : f s c = (0, s, c) -> (forall more, f s (add c more) = read s (add c more)) -> resumes f s c.
Proof. intros Hf Hr more. by rewrite Hf, Hr. Qed.

Lemma fail_more s c more : where_ (fail_now s (add c more)) = where_ (let '(_, s, c) := fail_now s c in read s (add c more)).
Proof. done. Qed.

Lemma byte_more p more i : (i < length p)%nat -> byte (p ++ more) i = byte p i.
Proof. intros Hi. unfold byte. by rewrite app_nth1. Qed.

Lemma reply_length_more p more :
  (4 <= length p)%nat -> reply_length p <> None -> reply_length (p ++ more) = reply_length p.
Proof.
  intros Hp. unfold reply_length. rewrite !(byte_more p more 3) by lia. destruct (_ =? 1); [done |]. destruct (_ =? 4); [done |].
  destruct (_ =? 3); [| done]. destruct (Nat.ltb_spec (length p) 5); [done |]. intros _.
  rewrite (proj2 (Nat.ltb_ge _ _)) by (rewrite length_app; lia). by rewrite byte_more by lia.
Qed.

Lemma connect_resumes s c : stage s = SOCKS_CONNECT -> is_closing c = false -> resumes from_connect s c.
Proof.
  intros Hs Hc. assert (Hr : forall more, from_connect s (add c more) = read s (add c more)).
  { intros more. unfold read, read_now. cbn [is_closing add]. rewrite Hc, Hs. done. }
  destruct (Nat.ltb_spec (length (recv c)) 4) as [Hlt | Hge].
  { apply resumes_wait; [| done]. unfold from_connect. by rewrite (proj2 (Nat.ltb_lt _ _)). }
  intros more. pose proof (length_app (recv c) more) as Hla. unfold from_connect at 1 2. cbn [recv add].
  rewrite (proj2 (Nat.ltb_ge (length (recv c ++ more)) 4)), (proj2 (Nat.ltb_ge (length (recv c)) 4)) by lia.
  rewrite !byte_more by lia. destruct (_ || _) eqn:Hbad; [apply fail_more |]. destruct (negb (byte (recv c) 1 =? 0)) eqn:Hrc; [apply fail_more |].
  destruct (reply_length (recv c)) as [len |] eqn:Hrep.
  - rewrite reply_length_more, Hrep by (first [lia | by rewrite Hrep]). destruct len as [len |]; [| apply fail_more].
    destruct (Nat.ltb_spec (length (recv c)) len) as [Hl | Hl].
    + rewrite <- Hr. unfold from_connect. cbn [recv add]. rewrite (proj2 (Nat.ltb_ge (length (recv c ++ more)) 4)) by lia.
      by rewrite !byte_more, Hbad, Hrc, reply_length_more, Hrep by (first [lia | by rewrite Hrep]).
    + rewrite (proj2 (Nat.ltb_ge _ _)) by lia. unfold mg_iobuf_del. cbn [recv add is_closing sent]. rewrite drop_app_le by lia.
      unfold read. cbn. by rewrite Hc.
  - rewrite <- Hr. unfold from_connect. cbn [recv add]. rewrite (proj2 (Nat.ltb_ge (length (recv c ++ more)) 4)) by lia.
    by rewrite !byte_more, Hbad, Hrc by lia.
Qed.

Lemma request_resumes s c : is_closing c = false -> resumes request s c.
Proof.
  intros Hc more. unfold request. pose proof (connect_resumes (set_stage s SOCKS_CONNECT) (send c (connect_packet (set_stage s SOCKS_CONNECT)))) as Hr.
  by apply (Hr eq_refl Hc more).
Qed.

(** The two answers of two bytes. *)
Lemma answer_more p more : (2 <= length p)%nat ->
  (length (p ++ more) <? 2)%nat = false /\ (length p <? 2)%nat = false /\ byte (p ++ more) 0 = byte p 0 /\ byte (p ++ more) 1 = byte p 1 /\
  drop 2 (p ++ more) = drop 2 p ++ more.
Proof.
  intros Hp. split_and!; [apply Nat.ltb_ge; rewrite length_app; lia | by apply Nat.ltb_ge | by rewrite byte_more by lia.. |].
  by rewrite drop_app_le by lia.
Qed.

Lemma auth_resumes s c : stage s = SOCKS_AUTH -> is_closing c = false -> resumes from_auth s c.
Proof.
  intros Hs Hc. destruct (Nat.ltb_spec (length (recv c)) 2) as [Hlt | Hge].
  { apply resumes_wait; [unfold from_auth; by rewrite (proj2 (Nat.ltb_lt _ _)) |].
    intros more. unfold read, read_now. cbn [is_closing add]. by rewrite Hc, Hs. }
  intros more. destruct (answer_more (recv c) more Hge) as (H1 & H2 & H3 & H4 & H5). unfold from_auth. cbn [recv add].
  rewrite H1, H2, H3, H4. destruct (_ || _); [apply fail_more |].
  replace (mg_iobuf_del (add c more) 2) with (add (mg_iobuf_del c 2) more) by (unfold mg_iobuf_del, add; cbn; by rewrite H5).
  by apply request_resumes.
Qed.

Lemma greeting_resumes s c : stage s = SOCKS_GREETING -> is_closing c = false -> resumes from_greeting s c.
Proof.
  intros Hs Hc. destruct (Nat.ltb_spec (length (recv c)) 2) as [Hlt | Hge].
  { apply resumes_wait; [unfold from_greeting; by rewrite (proj2 (Nat.ltb_lt _ _)) |].
    intros more. unfold read, read_now. cbn [is_closing add]. by rewrite Hc, Hs. }
  intros more. destruct (answer_more (recv c) more Hge) as (H1 & H2 & H3 & H4 & H5). unfold from_greeting. cbn [recv add].
  rewrite H1, H2, H3, H4. destruct (_ || _); [apply fail_more |].
  replace (mg_iobuf_del (add c more) 2) with (add (mg_iobuf_del c 2) more) by (unfold mg_iobuf_del, add; cbn; by rewrite H5).
  destruct (has_user s); [| by apply request_resumes].
  apply (auth_resumes (set_stage s SOCKS_AUTH) (send (mg_iobuf_del c 2) (auth_packet (set_stage s SOCKS_AUTH))) eq_refl Hc more).
Qed.

Lemma read_resumes s c : resumes read s c.
Proof.
  intros more. destruct (is_closing c) eqn:Hc.
  { unfold read at 1 2. cbn [is_closing add]. by rewrite Hc. }
  assert (Hn : forall f, (forall c, is_closing c = false -> read s c = f s c) -> resumes f s c ->
    where_ (read s (add c more)) = where_ (let '(_, s, c) := read s c in read s (add c more))).
  { intros f Hf Hr. rewrite (Hf c Hc). rewrite (Hf (add c more) Hc). apply Hr. }
  destruct (stage s) eqn:Hs.
  - apply (Hn (fun s c => (0, s, c))); [intros c' Hc'; unfold read, read_now; by rewrite Hc', Hs |].
    apply resumes_wait; [done |]. intros m. unfold read, read_now. cbn [is_closing add]. by rewrite Hc, Hs.
  - apply (Hn from_greeting); [intros c' Hc'; unfold read, read_now; by rewrite Hc', Hs | by apply greeting_resumes].
  - apply (Hn from_auth); [intros c' Hc'; unfold read, read_now; by rewrite Hc', Hs | by apply auth_resumes].
  - apply (Hn from_connect); [intros c' Hc'; unfold read, read_now; by rewrite Hc', Hs | by apply connect_resumes].
  - apply (Hn (fun s c => (0, s, c))); [intros c' Hc'; unfold read, read_now; by rewrite Hc', Hs |].
    apply resumes_wait; [done |]. intros m. unfold read, read_now. cbn [is_closing add]. by rewrite Hc, Hs.
  - unfold read. cbn [is_closing add]. rewrite Hc, Hs. cbn. unfold fail_now, set_stage. destruct s. cbn in *. by subst.
Qed.

(** Reads of one piece after the other. *)
Fixpoint read_all (now : Z) (s : socks) (c : conn) (pieces : list bstr) : option (list Z * socks * conn) :=
  match pieces with
  | [] => Some ([], s, c)
  | piece :: pieces =>
      '(rc, s, c, _) ← rr_socks_event now s (add c piece) MG_EV_READ [];
      '(rcs, s, c) ← read_all now s c pieces;
      Some (rc :: rcs, s, c)
  end.
Definition settled (s : socks) (c : conn) : Prop := where_ (read s c) = (s, c).

Lemma add_nil c : add c [] = c.
Proof. unfold add. destruct c. cbn. by rewrite app_nil_r. Qed.

Lemma read_settles s c : let '(_, s', c') := read s c in settled s' c'.
Proof.
  pose proof (read_resumes s c []) as H'. rewrite add_nil in H'. destruct (read s c) as [[rc s'] c'] eqn:Hr.
  rewrite add_nil in H'. unfold settled. by rewrite <- H'.
Qed.

(** The pieces together, read at once, lead to the same place. *)
Lemma read_all_whole now s c pieces :
  settled s c -> exists rcs s' c', read_all now s c pieces = Some (rcs, s', c') /\ (s', c') = where_ (read s (add c (concat pieces))).
Proof.
  revert s c. induction pieces as [| piece pieces IH]; intros s c Hs.
  - exists [], s, c. split; [done |]. cbn [concat]. by rewrite add_nil, Hs.
  - cbn [read_all concat]. rewrite event_read. cbn [mbind option_bind].
    pose proof (read_settles s (add c piece)) as Hset. pose proof (read_resumes s (add c piece) (concat pieces)) as Hres.
    destruct (read s (add c piece)) as [[rc s1] c1]. destruct (IH s1 c1 Hset) as (rcs & s' & c' & -> & Heq).
    exists (rc :: rcs), s', c'. split; [done |]. rewrite Heq, <- Hres. unfold add. cbn. by rewrite app_assoc.
Qed.

(** ** The answers of a proxy *)

(** The replies to CONNECT that RFC 1928 defines for success. *)
Inductive connect_reply : bstr -> Prop :=
| Reply4 a : length a = 6%nat -> connect_reply ([chr 5; chr 0; chr 0; chr 1] ++ a)
| Reply6 a : length a = 18%nat -> connect_reply ([chr 5; chr 0; chr 0; chr 4] ++ a)
| ReplyName n a : 0 < n < 256 -> length a = (Z.to_nat n + 2)%nat -> connect_reply ([chr 5; chr 0; chr 0; chr 3; chr n] ++ a).

Definition method (s : socks) : Z := if has_user s then 2 else 0.

(** The whole conversation of the proxy, and the bytes after it. *)
Definition script (s : socks) (bytes rest : bstr) : Prop :=
  exists reply, connect_reply reply /\
    bytes = [chr 5; chr (method s)] ++ (if has_user s then [chr 1; chr 0] else []) ++ reply ++ rest.

Lemma connect_opens s c reply rest :
  connect_reply reply -> recv c = reply ++ rest -> from_connect s c = (1, set_stage s SOCKS_READY, Conn (is_closing c) rest (sent c)).
Proof.
  intros Hrep Hc. unfold from_connect, mg_iobuf_del. rewrite Hc. destruct Hrep as [a Ha | a Ha | n a Hn Ha]; cbn [app].
  - change (byte _ 0 =? 5) with true. change (byte _ 2 =? 0) with true. change (byte _ 1 =? 0) with true. cbn [negb orb].
    rewrite (proj2 (Nat.ltb_ge _ _)) by (cbn; lia). change (reply_length _) with (Some (Some 10%nat)). cbv iota.
    rewrite (proj2 (Nat.ltb_ge _ _)) by (cbn; rewrite length_app; lia). cbn [drop]. by rewrite drop_app_length' by done.
  - change (byte _ 0 =? 5) with true. change (byte _ 2 =? 0) with true. change (byte _ 1 =? 0) with true. cbn [negb orb].
    rewrite (proj2 (Nat.ltb_ge _ _)) by (cbn; lia). change (reply_length _) with (Some (Some 22%nat)). cbv iota.
    rewrite (proj2 (Nat.ltb_ge _ _)) by (cbn; rewrite length_app; lia). cbn [drop]. by rewrite drop_app_length' by done.
  - change (byte _ 0 =? 5) with true. change (byte _ 2 =? 0) with true. change (byte _ 1 =? 0) with true. cbn [negb orb].
    rewrite (proj2 (Nat.ltb_ge _ _)) by (cbn; lia). unfold reply_length. change (byte _ 3) with 3. cbn [Z.eqb Pos.eqb].
    rewrite (proj2 (Nat.ltb_ge _ _)) by (cbn; lia). change (byte _ 4) with (code (chr n)). rewrite code_chr, Z.mod_small by lia.
    rewrite (proj2 (Z.eqb_neq _ _)) by lia. cbv iota. rewrite (proj2 (Nat.ltb_ge _ _)) by (cbn; rewrite length_app; lia).
    replace (7 + Z.to_nat n)%nat with (5 + length a)%nat by lia. cbn [drop Nat.add]. by rewrite drop_app_length.
Qed.

Lemma code_is c n : 0 <= n < 256 -> (code c =? n) = true -> c = chr n.
Proof. intros Hn H'%Z.eqb_eq. by rewrite <- H', chr_code. Qed.

Lemma opened_connect s c :
  stage (from_connect s c).1.2 = SOCKS_READY -> stage s <> SOCKS_READY -> exists reply rest, connect_reply reply /\ recv c = reply ++ rest.
Proof.
  unfold from_connect. intros Hr Hs. destruct (Nat.ltb_spec (length (recv c)) 4); [done |].
  destruct (_ || _) eqn:H1; [done |]. destruct (negb (byte (recv c) 1 =? 0)) eqn:H2; [done |].
  destruct (reply_length (recv c)) as [[len |] |] eqn:Hlen; [| done..]. destruct (Nat.ltb_spec (length (recv c)) len) as [| Hl]; [done |].
  exists (take len (recv c)), (drop len (recv c)). split; [| by rewrite take_drop].
  destruct (recv c) as [| b0 [| b1 [| b2 [| b3 p]]]]; cbn [length] in *; try lia. unfold byte in H1, H2. cbn [nth] in H1, H2.
  apply orb_false_iff in H1 as [E0 H1]. apply negb_false_iff in E0, H1, H2.
  apply code_is in E0, H1, H2; try lia. subst b0 b1 b2.
  unfold reply_length, byte in Hlen. cbn [nth length] in Hlen.
  destruct (code b3 =? 1) eqn:E1; [| destruct (code b3 =? 4) eqn:E2; [| destruct (code b3 =? 3) eqn:E3; [| done]]].
  - apply code_is in E1; [| lia]. subst b3. injection Hlen as <-. apply (Reply4 (take 6 p)). rewrite length_take. lia.
  - apply code_is in E2; [| lia]. subst b3. injection Hlen as <-. apply (Reply6 (take 18 p)). rewrite length_take. lia.
  - apply code_is in E3; [| lia]. subst b3. destruct p as [| b4 p]; cbn [length Nat.ltb Nat.leb nth] in *; [done |].
    destruct (Z.eqb_spec (code b4) 0) as [| Hne]; [done |]. injection Hlen as <-. pose proof (code_range b4).
    assert (Hrep : connect_reply ([chr 5; chr 0; chr 0; chr 3; chr (code b4)] ++ take (S (S (Z.to_nat (code b4)))) p))
      by (apply ReplyName; [lia | rewrite length_take; lia]).
    rewrite chr_code in Hrep. exact Hrep.
Qed.
(** An answer of two bytes. *)
Lemma two_bytes (p : bstr) a b :
  0 <= a < 256 -> 0 <= b < 256 -> (length p <? 2)%nat = false -> negb (byte p 0 =? a) || negb (byte p 1 =? b) = false ->
  p = [chr a; chr b] ++ drop 2 p.
Proof.
  intros Ha Hb Hl [E1 E2]%orb_false_iff. apply negb_false_iff in E1, E2. destruct p as [| x [| y p]]; try done.
  unfold byte in E1, E2. cbn [nth] in *. apply code_is in E1, E2; [| done..]. by subst.
Qed.

Lemma method_range s : 0 <= method s < 256.
Proof. unfold method. destruct (has_user s); lia. Qed.

Lemma sent_connect s c : sent (from_connect s c).2 = sent c.
Proof.
  unfold from_connect. destruct (_ <? _)%nat; [done |]. destruct (_ || _); [done |]. destruct (negb _); [done |].
  destruct (reply_length _) as [[len |] |]; [| done..]. by destruct (_ <? _)%nat.
Qed.

(** From the greeting: the tunnel opens for a script, with these bytes sent. *)
Lemma greeting_opens s c bytes rest :
  stage s = SOCKS_GREETING -> recv c = bytes -> script s bytes rest ->
  let x := from_greeting s c in
  stage x.1.2 = SOCKS_READY /\ recv x.2 = rest /\ is_closing x.2 = is_closing c /\
  sent x.2 = sent c ++ (if has_user s then auth_packet s else []) ++ connect_packet s.
Proof.
  intros Hs Hc (reply & Hrep & ->). unfold from_greeting. rewrite Hc. cbn [app].
  change (byte _ 0 =? 5) with true. rewrite (proj2 (Nat.ltb_ge _ _)) by (cbn; lia).
  change (byte _ 1) with (code (chr (method s))). rewrite code_chr, Z.mod_small by apply method_range.
  unfold method. rewrite Z.eqb_refl. cbn [negb orb].
  destruct (has_user s) eqn:Hu; cbn [app] in *.
  - unfold from_auth, mg_iobuf_del, send. cbn [recv]. rewrite Hc. cbn [drop].
    change (byte _ 0 =? 1) with true. change (byte _ 1 =? 0) with true. rewrite (proj2 (Nat.ltb_ge _ _)) by (cbn; lia). cbn [negb orb].
    unfold request, send. cbn [recv is_closing sent].
    rewrite (connect_opens _ _ reply rest Hrep) by done. cbn. split_and!; try done. by rewrite <- app_assoc.
  - unfold request, mg_iobuf_del, send. cbn [recv is_closing sent]. rewrite Hc. cbn [drop].
    rewrite (connect_opens _ _ reply rest Hrep) by done. done.
Qed.

Lemma opened_greeting s c :
  stage s = SOCKS_GREETING -> stage (from_greeting s c).1.2 = SOCKS_READY -> exists rest, script s (recv c) rest.
Proof.
  intros Hs. unfold from_greeting. destruct (length (recv c) <? 2)%nat eqn:H1; [cbn; congruence |].
  destruct (_ || _) eqn:H2; [done |]. apply two_bytes in H2; [| lia | apply method_range | done]. fold (method s) in H2.
  assert (Hreq : forall s c p, recv c = p -> stage (request s c).1.2 = SOCKS_READY -> exists reply rest, connect_reply reply /\ p = reply ++ rest).
  { intros s' c' p <- Hr. unfold request in Hr. by apply opened_connect in Hr. }
  destruct (has_user s) eqn:Hu; intros Hr.
  - unfold from_auth, mg_iobuf_del, send in Hr. cbn [recv] in Hr. destruct (length (drop 2 (recv c)) <? 2)%nat eqn:H3; [done |].
    destruct (_ || _) eqn:H4 in Hr; [done |]. apply two_bytes in H4; [| lia..| done].
    apply (Hreq _ _ _ eq_refl) in Hr as (reply & rest & Hrep & Heq). exists rest, reply. split; [done |]. rewrite Hu. rewrite H2 at 1. f_equal.
    rewrite H4. f_equal. exact Heq.
  - apply (Hreq _ _ _ eq_refl) in Hr as (reply & rest & Hrep & Heq). exists rest, reply. split; [done |]. rewrite Hu. rewrite H2 at 1. f_equal.
    exact Heq.
Qed.
(** The event that opens the tunnel is the one that returns 1. *)
Definition opens_by_one (x : state) : Prop :=
  (x.1.1 = 1 /\ stage x.1.2 = SOCKS_READY /\ is_closing x.2 = false) \/ (x.1.1 <> 1 /\ stage x.1.2 <> SOCKS_READY).

Lemma not_opened rc s c : rc <> 1 -> stage s <> SOCKS_READY -> opens_by_one (rc, s, c).
Proof. by right. Qed.

Lemma connect_by_one s c : stage s <> SOCKS_READY -> is_closing c = false -> opens_by_one (from_connect s c).
Proof.
  intros Hs Hc. unfold from_connect. destruct (_ <? _)%nat; [by apply not_opened |]. destruct (_ || _); [by apply not_opened |].
  destruct (negb _); [by apply not_opened |]. destruct (reply_length _) as [[len |] |]; [| by apply not_opened..].
  destruct (_ <? _)%nat; [by apply not_opened | by left].
Qed.

Lemma auth_by_one s c : stage s <> SOCKS_READY -> is_closing c = false -> opens_by_one (from_auth s c).
Proof.
  intros Hs Hc. unfold from_auth. destruct (_ <? _)%nat; [by apply not_opened |]. destruct (_ || _); [by apply not_opened |].
  by apply connect_by_one.
Qed.

Lemma read_by_one s c : stage s <> SOCKS_READY -> opens_by_one (read s c).
Proof.
  intros Hs. unfold read. destruct (is_closing c) eqn:Hc; [by apply not_opened |].
  case_bool_decide as Hf; [by apply not_opened |]. unfold read_now. destruct (stage s) eqn:Hst; try (apply not_opened; congruence).
  - unfold from_greeting. destruct (_ <? _)%nat; [apply not_opened; congruence |]. destruct (_ || _); [by apply not_opened |].
    destruct (has_user s); [by apply auth_by_one | by apply connect_by_one].
  - apply auth_by_one; congruence.
  - apply connect_by_one; congruence.
Qed.

Definition ones (rcs : list Z) : nat := length (List.filter (fun rc => rc =? 1) rcs).

Lemma read_all_open now s c pieces rcs s' c' :
  stage s = SOCKS_READY -> is_closing c = false -> read_all now s c pieces = Some (rcs, s', c') -> ones rcs = 0%nat /\ stage s' = SOCKS_READY.
Proof.
  intros Hs. revert c rcs. induction pieces as [| piece pieces IH]; intros c rcs Hc; cbn [read_all]; [by intros [= <- <- <-] |].
  rewrite event_read. cbn [mbind option_bind]. unfold read. cbn [is_closing add]. rewrite Hc, bool_decide_false by congruence.
  unfold read_now. rewrite Hs. destruct (read_all now s (add c piece) pieces) as [[[rcs1 s1] c1] |] eqn:Hr; [| done].
  cbn [mbind option_bind]. intros [= <- <- <-]. by apply (IH (add c piece) rcs1).
Qed.

Lemma read_all_ones now s c pieces rcs s' c' :
  stage s <> SOCKS_READY -> read_all now s c pieces = Some (rcs, s', c') -> ones rcs = (if bool_decide (stage s' = SOCKS_READY) then 1 else 0)%nat.
Proof.
  revert s c rcs. induction pieces as [| piece pieces IH]; intros s c rcs Hs; cbn [read_all].
  - intros [= <- <- <-]. by rewrite bool_decide_false.
  - rewrite event_read. cbn [mbind option_bind]. pose proof (read_by_one s (add c piece) Hs) as Ho.
    destruct (read s (add c piece)) as [[rc s1] c1]. destruct (read_all now s1 c1 pieces) as [[[rcs1 s2] c2] |] eqn:Hr; [| done].
    cbn [mbind option_bind]. intros [= <- <- <-]. unfold ones. cbn [List.filter].
    destruct Ho as [(Hrc & Hst & Hcl) | (Hrc & Hst)]; cbn [fst snd] in *.
    + destruct (read_all_open _ _ _ _ _ _ _ Hst Hcl Hr) as [H0 H1]. rewrite (proj2 (Z.eqb_eq _ _) Hrc), bool_decide_true by done.
      cbn [length]. unfold ones in H0. by rewrite H0.
    + rewrite (proj2 (Z.eqb_neq _ _) Hrc). by apply (IH s1 c1).
Qed.

(** C36: after the greeting, and with room to send: however the bytes of the proxy
    are cut into reads, the tunnel is open in the end exactly when they begin with
    the answers of RFC 1928 to the requests of this client; then exactly one read
    reported it, every byte after the reply is left for the application, and
    what was sent are the credentials, if any, and the request for the destination. *)
Theorem socks_tunnel_opens (now : Z) (s : socks) (c : conn) (pieces : list bstr)
    (Hstage : stage s = SOCKS_GREETING) (Hopen : is_closing c = false) (Hrecv : recv c = []) :
  exists rcs s' c', read_all now s c pieces = Some (rcs, s', c') /\
    (stage s' = SOCKS_READY <-> exists rest, script s (concat pieces) rest) /\
    ones rcs = (if bool_decide (stage s' = SOCKS_READY) then 1 else 0)%nat /\
    forall rest, script s (concat pieces) rest ->
      recv c' = rest /\ sent c' = sent c ++ (if has_user s then auth_packet s else []) ++ connect_packet s.
Proof.
  assert (Hread : forall c, is_closing c = false -> read s c = from_greeting s c).
  { intros c1 Hc1. unfold read, read_now. by rewrite Hc1, Hstage. }
  assert (Hset : settled s c).
  { unfold settled. rewrite Hread by done. unfold from_greeting. by rewrite Hrecv. }
  destruct (read_all_whole now s c pieces Hset) as (rcs & s' & c' & Hall & Heq). exists rcs, s', c'. split; [done |].
  rewrite Hread in Heq by done. injection Heq as Hs' Hc'. assert (Hrc : recv (add c (concat pieces)) = concat pieces) by (unfold add; by rewrite Hrecv).
  split; [| split].
  - rewrite Hs'. split.
    + intros Hr. apply opened_greeting in Hr; [| done]. by rewrite Hrc in Hr.
    + intros [rest Hsc]. by apply (greeting_opens s _ _ rest Hstage Hrc Hsc).
  - apply (read_all_ones now s c pieces rcs s' c'); [by rewrite Hstage | done].
  - intros rest Hsc. destruct (greeting_opens s _ _ rest Hstage Hrc Hsc) as (_ & H1 & _ & H2). by rewrite Hc', H1, H2.
Qed.
End handshake.

(** ** The proxy's URL *)

Lemma scan_digits_grows a any s : 0 <= a -> a <= (scan_digits a any s).1.1.
Proof.
  revert a any. induction s as [| c s IH]; intros a any Ha; cbn [scan_digits]; [done |]. destruct (isdigit c) eqn:Hc; [| done].
  assert (0 <= digit_val c) by (unfold isdigit in Hc; unfold digit_val; lia). specialize (IH (10 * a + digit_val c) true ltac:(lia)). lia.
Qed.

Lemma port_digits_read n ds tail :
  0 <= n -> Forall (fun c => isdigit c = true) ds -> (forall c t, tail = c :: t -> isdigit c = false) ->
  (scan_digits n false ds).1.1 <= 65535 -> port_digits n (ds ++ tail) = Some ((scan_digits n false ds).1.1, tail).
Proof.
  intros Hn Hds Ht. revert n Hn. assert (Hany : forall s a b b', (scan_digits a b s).1.1 = (scan_digits a b' s).1.1).
  { intros s. induction s as [| c s IH]; intros a b b'; cbn; [done |]. by destruct (isdigit c). }
  induction Hds as [| c ds Hc Hds IH]; intros n Hn Hmax; cbn [app scan_digits] in *.
  - destruct tail as [| c t]; [done |]. cbn [port_digits]. by rewrite (Ht c t).
  - cbn [port_digits]. rewrite Hc in *. change (code c - 48) with (digit_val c) in *. replace (n * 10 + digit_val c) with (10 * n + digit_val c) by lia.
    assert (0 <= digit_val c) by (unfold isdigit in Hc; unfold digit_val; lia).
    pose proof (scan_digits_grows (10 * n + digit_val c) true ds ltac:(lia)). rewrite (proj2 (Z.ltb_ge _ _)) by lia.
    rewrite (Hany ds _ true false) in *. by apply IH; [lia |].
Qed.

Lemma host_span_app h t :
  forallb host_char h = true -> (forall c s, t = c :: s -> c = ":"%char \/ c = "/"%char) -> host_span (h ++ t) = length h.
Proof.
  intros Hh Ht. induction h as [| c h IH]; cbn [app host_span length forallb] in *.
  - destruct t as [| c s]; [done |]. by destruct (Ht c s eq_refl) as [-> | ->].
  - apply andb_true_iff in Hh as [Hc Hh]. rewrite IH by done.
    case_bool_decide; [by subst |]. case_bool_decide; [by subst |]. done.
Qed.

Lemma host_not_bracket h : forallb host_char h = true -> match h with c :: _ => bool_decide (c = "["%char) | [] => false end = false.
Proof. destruct h as [| c h]; [done |]. cbn [forallb]. intros [Hc _]%andb_true_iff. apply bool_decide_eq_false. by intros ->. Qed.

Section url.
Context `{InetPton}.

Lemma parse_plain h p tail :
  h <> [] -> (length h <= 255)%nat -> forallb host_char h = true -> 1 <= p <= 65535 -> tail = [] \/ tail = B "/" ->
  parse_url (B "socks5://" ++ h ++ B ":" ++ print_dec p ++ tail) = Some (false, h, p).
Proof.
  intros Hne Hl Hh Hp Ht. unfold parse_url. change (begins (B "socks5h://") _) with false. cbv iota.
  change (begins (B "socks5://") _) with true. cbv iota. cbn [mbind option_bind].
  change (drop 9 _) with (h ++ B ":" ++ print_dec p ++ tail).
  assert (Hb : match h ++ B ":" ++ print_dec p ++ tail with c :: _ => bool_decide (c = "["%char) | [] => false end = false).
  { pose proof (host_not_bracket h Hh). by destruct h. }
  rewrite Hb. cbv iota. cbn [mbind option_bind]. rewrite host_span_app by (done || (intros c s [= <- _]; by left)).
  rewrite (proj2 (Nat.eqb_neq _ _)) by (by destruct h). rewrite (proj2 (Nat.leb_gt _ _)) by lia. cbn [orb].
  rewrite take_app_length, Hh. cbn [negb]. rewrite Nat.add_0_r, drop_app_length.
  assert (Hpr : print_dec p = print_nat p) by (unfold print_dec; rewrite (proj2 (Z.ltb_ge _ _)) by lia; done).
  destruct (print_nat_spec p ltac:(lia)) as [Hd Hs]. destruct (print_nat_cons p ltac:(lia)) as (d & ds & Hcons & Hdig).
  assert (Hport : proxy_port (B ":" ++ print_dec p ++ tail) = Some (p, tail)).
  { unfold proxy_port. change (B ":" ++ print_dec p ++ tail) with (":"%char :: print_dec p ++ tail).
    cbv iota beta. rewrite bool_decide_true by done.
    rewrite Hpr. pose proof (port_digits_read 0 (print_nat p) tail ltac:(lia) Hd) as Hr. rewrite Hs in Hr. cbn [fst] in Hr.
    rewrite Hcons in *. cbn [app]. rewrite Hdig. cbn [app] in Hr. rewrite Hr.
    - cbn [mbind option_bind]. by rewrite (proj2 (Z.eqb_neq _ _)) by lia.
    - intros c t Hc. destruct Ht as [-> | ->]; [done |]. by injection Hc as <- _.
    - lia. }
  rewrite Hport. cbn [mbind option_bind]. by destruct Ht as [-> | ->].
Qed.

Lemma port_digits_range n s p t : port_digits n s = Some (p, t) -> 0 <= n <= 65535 -> 0 <= p <= 65535.
Proof.
  revert n. induction s as [| c s IH]; intros n; cbn [port_digits]; [by intros [= <- _] |].
  destruct (isdigit c) eqn:Hc; [| by intros [= <- _]]. destruct (Z.ltb_spec 65535 (n * 10 + (code c - 48))); [done |].
  intros Hr Hn. apply (IH _ Hr). unfold isdigit in Hc. lia.
Qed.

Lemma print_digits_length fuel n acc : (length (print_digits fuel n acc) <= fuel + length acc)%nat.
Proof.
  revert n acc. induction fuel as [| fuel IH]; intros n acc; [cbn; lia |]. rewrite print_digits_S.
  case_match; [cbn; lia |]. etransitivity; [apply IH |]. cbn. lia.
Qed.

Lemma print_port_length p : 0 <= p <= 65535 -> (length (print_dec p) <= 16)%nat.
Proof.
  intros Hp. unfold print_dec. rewrite (proj2 (Z.ltb_ge _ _)) by lia. unfold print_nat.
  etransitivity; [apply print_digits_length |]. cbn [length]. pose proof (Z.log2_le_mono p 65535 ltac:(lia)) as Hl.
  change (Z.log2 65535) with 15 in Hl. lia.
Qed.

Lemma proxy_port_range suffix p t : proxy_port suffix = Some (p, t) -> 1 <= p <= 65535.
Proof.
  unfold proxy_port. destruct suffix as [| c s]; [by intros [= <- _] |]. case_bool_decide; [| by intros [= <- _]].
  destruct s as [| d s]; [done |]. destruct (isdigit d); [| done]. destruct (port_digits 0 (d :: s)) as [[n t'] |] eqn:Hd; [| done].
  cbn [mbind option_bind]. destruct (Z.eqb_spec n 0); [done |]. intros [= <- <-]. apply port_digits_range in Hd; lia.
Qed.

Lemma parse_url_range u ipv6 h p : parse_url u = Some (ipv6, h, p) -> (length h <= 255)%nat /\ 1 <= p <= 65535.
Proof.
  unfold parse_url. intros Hp. apply bind_Some in Hp as (address & _ & Hp). apply bind_Some in Hp as (n & _ & Hp).
  destruct (_ || _) eqn:Hn in Hp; [done |]. apply orb_false_iff in Hn as [H1 H2]. apply Nat.eqb_neq in H1. apply Nat.leb_gt in H2.
  destruct (negb _) eqn:Hh in Hp; [done |]. apply bind_Some in Hp as ([q suffix] & Hport & Hp). apply proxy_port_range in Hport.
  destruct (negb _) in Hp; [done |]. injection Hp as _ <- <-. split; [| done]. rewrite length_take. lia.
Qed.

(** The client is ready only for a URL, a destination and credentials that
    fit it: a port, a destination of at most 255 characters, both or none of user
    name and password; its proxy address fits its field.  After a refusal every
    event fails and closes the connection, so that no direct connection is used. *)
Theorem rr_socks_init_checked (now : Z) (u usr pwd hst : option bstr) (prt : Z) :
  let '(ok, s) := rr_socks_init now u usr pwd hst prt in
  if ok then
    stage s = SOCKS_GREETING /\ (length (url s) < 1024)%nat /\ (1 <= length (host s) <= 255)%nat /\ (length (user s) <= 255)%nat /\
    (length (pass s) <= 255)%nat /\ streq (user s) [] = streq (pass s) [] /\ port s = prt /\ prt <> 0 /\ deadline_ms s = now + 30000
  else forall now' c e o, exists s', rr_socks_event now' s c e o = Some (-1, s', closing c, o) /\ stage s' = SOCKS_FAILED.
Proof.
  assert (Hfailed : forall now' c e o, exists s', rr_socks_event now' failed c e o = Some (-1, s', closing c, o) /\ stage s' = SOCKS_FAILED).
  { intros now' c e o. unfold rr_socks_event. destruct (_ || _); by eexists. }
  unfold rr_socks_init. destruct u as [u |]; [| done]. destruct hst as [h |]; [| done].
  destruct (streq u [] || streq h [] || _ || _) eqn:Hc; [done |]. apply orb_false_iff in Hc as [[[_ Hh]%orb_false_iff Hl]%orb_false_iff Hprt].
  destruct (parse_url u) as [[[ipv6 ph] p] |] eqn:Hu; [| done]. destruct (_ && _); [done |].
  destruct (_ || _ || _) eqn:Hcred; [done |]. apply orb_false_iff in Hcred as [[H1 H2]%orb_false_iff H3].
  cbn [stage url host user pass port deadline_ms]. apply Nat.ltb_ge in Hl, H1, H2. apply Z.eqb_neq in Hprt. apply streq_false in Hh.
  split_and!; try done.
  - destruct (parse_url_range u ipv6 ph p Hu) as [Hph Hp]. pose proof (print_port_length p ltac:(lia)).
    rewrite !length_app. destruct ipv6; cbn; lia.
  - destruct h; [done | cbn; lia].
  - by apply xorb_eq.
Qed.

(** A plain URL, with or without the final slash, is accepted as it is
    written: the proxy connected to is its host at its port. *)
Theorem socks_url_accepted (now : Z) (h tail dest : bstr) (p prt : Z)
    (Hh : forallb host_char h = true) (Hne : h <> []) (Hl : (length h <= 255)%nat) (Hp : 1 <= p <= 65535) (Ht : tail = [] \/ tail = B "/")
    (Hd : forallb dest_char dest = true) (Hdl : (1 <= length dest <= 255)%nat) (Hprt : prt <> 0) :
  rr_socks_init now (Some (B "socks5://" ++ h ++ B ":" ++ print_dec p ++ tail)) None None (Some dest) prt =
  (true, Socks (B "tcp://" ++ h ++ B ":" ++ print_dec p) dest [] [] prt SOCKS_GREETING (now + 30000)).
Proof.
  unfold rr_socks_init. rewrite (parse_plain h p tail) by done.
  rewrite (proj2 (streq_false dest [])) by (intros ->; cbn in Hdl; lia). rewrite (proj2 (Nat.ltb_ge _ _)), (proj2 (Z.eqb_neq _ _)) by (done || lia).
  rewrite Hd, andb_false_r. done.
Qed.
End url.

(** ** Witnesses *)

Definition no_addresses : InetPton := {| inet_pton4 := fun _ => None; inet_pton6 := fun _ => None |}.

Lemma socks_url_accepted_witness :
  exists env : InetPton,
    rr_socks_init 100 (Some (B "socks5://proxy.example:9050")) None None (Some (B "radio.example")) 8080 =
    (true, Socks (B "tcp://proxy.example:9050") (B "radio.example") [] [] 8080 SOCKS_GREETING 30100).
Proof.
  exists no_addresses. refine (socks_url_accepted (H := no_addresses) 100 (B "proxy.example") [] (B "radio.example") 9050 8080 _ _ _ _ _ _ _ _).
  - reflexivity.
  - discriminate.
  - apply Nat.leb_le. reflexivity.
  - split; discriminate.
  - left. reflexivity.
  - reflexivity.
  - split; apply Nat.leb_le; reflexivity.
  - discriminate.
Defined.

(** A proxy's answers in three pieces, with application data behind them. *)
Definition greeted : socks := Socks (B "tcp://p:1080") (B "h") (B "u") (B "pw") 258 SOCKS_GREETING 1000.
Definition pieces : list bstr := [[chr 5]; [chr 2; chr 1; chr 0; chr 5; chr 0; chr 0; chr 1; chr 1; chr 2]; [chr 3; chr 4; chr 5; chr 6] ++ B "hello"].

Lemma socks_tunnel_opens_witness :
  exists (env : InetPton) rcs s' c', read_all 0 greeted (Conn false [] []) pieces = Some (rcs, s', c') /\
    stage s' = SOCKS_READY /\ rcs = [0; 0; 1] /\ recv c' = B "hello" /\
    sent c' = [chr 1; chr 1] ++ B "u" ++ [chr 2] ++ B "pw" ++ [chr 5; chr 1; chr 0; chr 3; chr 1] ++ B "h" ++ [chr 1; chr 2].
Proof.
  exists no_addresses.
  destruct (socks_tunnel_opens (H := no_addresses) 0 greeted (Conn false [] []) pieces eq_refl eq_refl eq_refl)
    as (rcs & s' & c' & Hall & Hready & Hones & Hsc).
  assert (Hscript : script greeted (concat pieces) (B "hello")).
  { exists ([chr 5; chr 0; chr 0; chr 1] ++ [chr 1; chr 2; chr 3; chr 4; chr 5; chr 6]). split; [constructor 1; reflexivity | vm_compute; reflexivity]. }
  exists rcs, s', c'. split; [exact Hall |]. split; [exact (proj2 Hready (ex_intro _ _ Hscript)) |].
  destruct (Hsc _ Hscript) as [H1 H2]. split; [vm_compute in Hall; injection Hall as <- _ _; reflexivity |].
  split; [exact H1 |]. rewrite H2. vm_compute. reflexivity.
Defined.
