(* ===== verification/Util.v ===== *)
(** * String, time and number helpers (util.string.c, util.time.c, util.math.c) *)

From S2P Require Import Prelude CString CFloat ConfigText.

#[local] Open Scope Z_scope.

(** ** Pieces of text *)

(** [%02d] of a number that is not negative *)
Definition two (n : Z) : bstr := pad_left 2 (print_dec n).

(** An IRC colour code, with the text after it. *)
Definition colour (digits : string) : bstr := chr 3 :: B digits.
Arguments colour _%_string.

(** ** HTML *)

Definition DQ : ascii := chr 34.
Definition SQ : ascii := chr 39.
Definition ESC : ascii := chr 27.

Definition entity (c : ascii) : bstr :=
  if ceq c "<" then B "&lt;" else if ceq c ">" then B "&gt;" else if ceq c "&" then B "&amp;"
  else if bool_decide (c = DQ) then B "&quot;" else if bool_decide (c = SQ) then B "&#39;" else [c].

(** The loop of [escape_html]: [p] is what is written, [buf_size] the size of the
    buffer; [snprintf] writes what fits and returns what it wanted to write. *)
Fixpoint escape_loop (buf_size : nat) (p : bstr) (input : bstr) : bstr :=
  match input with
  | [] => p
  | c :: input =>
      let e := entity c in
      let q := if (length e =? 1)%nat then p ++ e else p ++ take (buf_size - length p - 1) e in
      if (buf_size <=? length p + length e)%nat then take (buf_size - 1) q else escape_loop buf_size q input
  end.

(** [ok]: [malloc] succeeds. *)
Definition escape_html (ok : bool) (input : option bstr) : option bstr :=
  match input with
  | None => None
  | Some input => if ok then Some (escape_loop (length input * 6 + 1) [] input) else None
  end.

Definition begins (p s : bstr) : bool := bool_decide (take (length p) s = p).

(** The character an entity stands for, and its length. *)
Definition known_entity (r : bstr) : option (ascii * nat) :=
  if begins (B "&lt;") r then Some ("<"%char, 4%nat)
  else if begins (B "&gt;") r then Some (">"%char, 4%nat)
  else if begins (B "&amp;") r then Some ("&"%char, 5%nat)
  else if begins (B "&quot;") r then Some (DQ, 6%nat)
  else if begins (B "&#39;") r then Some (SQ, 5%nat)
  else if begins (B "&nbsp;") r then Some (" "%char, 6%nat)
  else None.

(** The text left in place; [skip] characters of an entity are still to pass. *)
Fixpoint unescape_loop (skip : nat) (r : bstr) : bstr :=
  match r with
  | [] => []
  | c :: r' =>
      match skip with
      | S skip => unescape_loop skip r'
      | O => match known_entity r with
             | Some (d, n) => d :: unescape_loop (n - 1) r'
             | None => c :: unescape_loop 0 r'
             end
      end
  end.

Definition unescape_html (s : bstr) : bstr := unescape_loop 0 s.

(** ** Hashes, booleans, arguments *)

(** [sizeof(dest)] is the size of a pointer. *)
Definition SIZEOF_POINTER : nat := 8.

(** What is written to [dest]: [None] is nothing. *)
Definition hash_to_hex (dest : bool) (hash : option bstr) : option bstr :=
  match hash with
  | Some hash =>
      if negb dest || (length hash =? 0)%nat then None
      else if (SIZEOF_POINTER <? length hash)%nat then None
      else Some (flat_map (fun c => pad_left 2 (print_hex (code c))) hash)
  | None => None
  end.

Definition parse_bool (str : option bstr) : bool :=
  match str with
  | None => false
  | Some str => strcaseeq str (B "true") || strcaseeq str (B "yes") || strcaseeq str (B "on") || strcaseeq str (B "1")
  end.

(** The words of the line; [cur] is the one being read. *)
Fixpoint split_loop (cur : bstr) (p : bstr) : list bstr :=
  match p with
  | [] => match cur with [] => [] | _ => [cur] end
  | c :: p =>
      if isspace c then match cur with [] => split_loop [] p | _ => cur :: split_loop [] p end
      else split_loop (cur ++ [c]) p
  end.

Definition split_args (line : bstr) : list bstr := split_loop [] line.

(** ** Visible lengths *)

(** [esc]: inside an escape sequence. *)
Fixpoint ansi_loop (esc : bool) (s : bstr) : Z :=
  match s with
  | [] => 0
  | c :: s =>
      if esc then ansi_loop (negb (ceq c "m")) s
      else if bool_decide (c = ESC) then ansi_loop true s
      else 1 + ansi_loop false s
  end.

Definition ansi_strlen (s : bstr) : Z := ansi_loop false s.

Inductive visible_mode := Plain | Bracket | Sequence | Markup.

(** [Bracket]: the bracket after an escape is to be passed; the closing brace of
    a markup ends its loop and is seen again as plain text. *)
Fixpoint visible_loop (mode : visible_mode) (p : bstr) : Z :=
  match p with
  | [] => 0
  | c :: p' =>
      match mode with
      | Bracket => visible_loop Sequence p'
      | Sequence => visible_loop (if ceq c "m" then Plain else Sequence) p'
      | Markup => if ceq c "}" then 1 + visible_loop Plain p' else visible_loop Markup p'
      | Plain =>
          if bool_decide (c = ESC) && starts_with p' "["%char then visible_loop Bracket p'
          else if ceq c "{" then visible_loop Markup p'
          else 1 + visible_loop Plain p'
      end
  end.

Definition visible_length (s : bstr) : Z := visible_loop Plain s.

(** ** Durations *)

(** The products of [int]s; [None] is an overflow, which has no defined result. *)
Definition unit_seconds (unit : option ascii) : list Z :=
  match unit with
  | None => []
  | Some u =>
      if ceq u "y" then [365; 24; 60; 60] else if ceq u "w" then [7; 24; 60; 60] else if ceq u "d" then [24; 60; 60]
      else if ceq u "h" then [60; 60] else if ceq u "m" then [60] else if ceq u "s" then [] else [0]
  end.

Fixpoint int_product (v : Z) (l : list Z) : option Z :=
  match l with
  | [] => Some v
  | x :: l => if (INT_MIN <=? v * x) && (v * x <=? INT_MAX) then int_product (v * x) l else None
  end.

(** One turn reads at least the unit: the length of the text is enough fuel. *)
Fixpoint dhms_loop (fuel : nat) (seconds : Z) (ptr : bstr) : option Z :=
  match ptr with
  | [] => Some seconds
  | _ =>
      match fuel with
      | O => None
      | S fuel =>
          let r := strtoll ptr in
          let value := i32 (st_value r) in
          match st_end r with
          | [] => Some seconds
          | u :: ptr =>
              v ← int_product value (unit_seconds (Some u));
              dhms_loop fuel (seconds + v) ptr
          end
      end
  end.

Definition dhms2time_t (str : option bstr) : option Z :=
  match str with
  | None => Some 0
  | Some str => dhms_loop (length str) 0 str
  end.

Definition parts : list (ascii * Z) :=
  [("y"%char, 31536000); ("w"%char, 604800); ("d"%char, 86400); ("h"%char, 3600); ("m"%char, 60); ("s"%char, 1)].

Fixpoint dhms_print (parts : list (ascii * Z)) (seconds : Z) : bstr :=
  match parts with
  | [] => []
  | (unit, secs) :: parts =>
      if secs <=? seconds
      then print_dec (seconds / secs) ++ [unit] ++ dhms_print parts (seconds mod secs)
      else dhms_print parts seconds
  end.

Definition time_t2dhms (seconds : Z) : bstr := if seconds <=? 0 then B "0s" else dhms_print parts seconds.

(** Times are seconds and nanoseconds; the division truncates. *)
Definition timespec_diff_ms (a b : Z * Z) : Z := i64 ((a.1 - b.1) * 1000 + Z.quot (a.2 - b.2) 1000000).
Definition mono_ms (clock : option (Z * Z)) : Z := match clock with Some ts => ts.1 * 1000 + Z.quot ts.2 1000000 | None => 0 end.
Definition mono_us (clock : option (Z * Z)) : Z := match clock with Some ts => ts.1 * 1000000 + Z.quot ts.2 1000 | None => 0 end.

(** ** Numbers *)

(** [None] is NAN. *)
Definition safe_atod (s : option bstr) : option spec_float :=
  match s with
  | None | Some [] => None
  | Some s =>
      let r := strtod s in
      if sd_erange r then None
      else if nonempty (skip_space (sd_end r)) then None else Some (sd_value r)
  end.

Definition safe_atol (s : option bstr) : Z :=
  match s with
  | None => 0
  | Some s => let r := strtoll s in if (length (st_end r) =? length s)%nat || st_erange r then 0 else st_value r
  end.

Definition safe_atoll (s : option bstr) : Z := safe_atol s.
