(* ===== verification/UtilSpec.v ===== *)
(** * What the helpers promise (util.string.c, util.time.c) *)

From S2P Require Import Prelude CString ConfigText Util.

#[local] Open Scope Z_scope.

(** ** HTML *)

Lemma entity_length c : (1 <= length (entity c) <= 6)%nat.
Proof. unfold entity. repeat case_match; cbn; lia. Qed.

(** The buffer is large enough: nothing is cut. *)
Lemma escape_loop_all n p input :
  (length p + 6 * length input < n)%nat -> escape_loop n p input = p ++ flat_map entity input.
Proof.
  revert p. induction input as [| c input IH]; intros p Hn; cbn [escape_loop flat_map length] in *; [by rewrite app_nil_r |].
  pose proof (entity_length c) as He. rewrite (proj2 (Nat.leb_gt _ _)) by lia.
  assert (Hq : (if (length (entity c) =? 1)%nat then p ++ entity c else p ++ take (n - length p - 1) (entity c)) = p ++ entity c).
  { destruct (_ =? _)%nat; [done |]. by rewrite take_ge by lia. }
  rewrite Hq, IH by (rewrite length_app; lia). by rewrite app_assoc.
Qed.

Lemma begins_other p c t : head p = Some "&"%char -> c <> "&"%char -> begins p (c :: t) = false.
Proof. destruct p as [| d p]; [done |]. intros [= ->] Hc. unfold begins. apply bool_decide_eq_false. cbn. congruence. Qed.

Lemma known_other c t : c <> "&"%char -> known_entity (c :: t) = None.
Proof. intros Hc. unfold known_entity. by rewrite !begins_other. Qed.

Lemma unescape_entity c t : unescape_loop 0 (entity c ++ t) = c :: unescape_loop 0 t.
Proof.
  unfold entity, ceq. repeat case_bool_decide; subst; try reflexivity.
  cbn [app unescape_loop]. by rewrite known_other.
Qed.

(** Escaping always fits its buffer, leaves no character that HTML gives a
    meaning except the ampersands of entities, and unescaping undoes it. *)
Theorem html_roundtrip (s : bstr) :
  exists e, escape_html true (Some s) = Some e /\ unescape_html e = s /\ e = flat_map entity s /\
    Forall (fun c => c ∉ [ "<"%char; ">"%char; DQ; SQ ]) e.
Proof.
  exists (flat_map entity s). split_and!; [| | done |].
  - unfold escape_html. by rewrite escape_loop_all by (cbn; lia).
  - unfold unescape_html. induction s as [| c s IH]; [done |]. cbn [flat_map]. by rewrite unescape_entity, IH.
  - induction s as [| c s IH]; [constructor |]. cbn [flat_map]. apply Forall_app. split; [| done].
    unfold entity, ceq. repeat case_bool_decide; try (by repeat (constructor; [by apply (bool_decide_unpack _); vm_compute |])).
    constructor; [| constructor]. rewrite !not_elem_of_cons. split_and!; try done. apply not_elem_of_nil.
Qed.

(** ** Durations *)

Lemma strtoll_print_rest v u t :
  0 <= v <= LLONG_MAX -> isdigit u = false -> strtoll (print_dec v ++ u :: t) = Strto v (u :: t) false.
Proof.
  intros Hv Hu. unfold print_dec. rewrite (proj2 (Z.ltb_ge _ _)) by lia.
  destruct (print_nat_spec v ltac:(lia)) as [Hd Hs]. destruct (print_nat_cons v ltac:(lia)) as (c & ds & Hc & Hcd).
  unfold strtoll. assert (Hsign : scan_sign (skip_space (print_nat v ++ u :: t)) = (false, print_nat v ++ u :: t)).
  { rewrite Hc. destruct (isdigit_not c Hcd) as (H1 & H2 & H3). cbn [app skip_space]. rewrite H1. cbn [scan_sign].
    by rewrite !bool_decide_false. }
  rewrite Hsign, scan_digits_stop, Hs by (done || by intros ? ? [= <- _]). cbn [negb].
  rewrite (proj2 (Z.ltb_ge v _)) by (unfold LLONG_MIN; lia). by rewrite (proj2 (Z.ltb_ge _ v)) by lia.
Qed.

Definition product (l : list Z) : Z := foldr Z.mul 1 l.

Lemma product_pos l : Forall (fun x => 1 <= x) l -> 1 <= product l.
Proof. unfold product. induction 1; cbn [foldr]; [lia | nia]. Qed.

(** The products fit exactly when the last one does. *)
Lemma int_product_spec v l :
  0 <= v -> Forall (fun x => 1 <= x) l -> l <> [] -> int_product v l = if v * product l <=? INT_MAX then Some (v * product l) else None.
Proof.
  intros Hv Hl. revert v Hv. induction Hl as [| x l Hx Hl IH]; intros v Hv Hne; [done |]. cbn [int_product product foldr].
  fold (product l). pose proof (product_pos l Hl). rewrite (proj2 (Z.leb_le INT_MIN _)) by (unfold INT_MIN; nia). cbn [andb].
  destruct (Z.leb_spec (v * x) INT_MAX) as [Hle | Hgt].
  - destruct l as [| y l]; [cbn [int_product product foldr]; rewrite Z.mul_1_r; by rewrite (proj2 (Z.leb_le _ _)) |].
    rewrite IH by (done || nia). by rewrite Z.mul_assoc.
  - assert (v * x * 1 <= v * x * product l) by (apply Z.mul_le_mono_nonneg_l; nia).
    rewrite Z.mul_assoc, (proj2 (Z.leb_gt _ _)) by lia. done.
Qed.

Definition unit_ok (p : ascii * Z) : Prop :=
  isdigit p.1 = false /\ 1 <= p.2 /\
  forall v, 0 <= v <= INT_MAX -> int_product v (unit_seconds (Some p.1)) = if v * p.2 <=? INT_MAX then Some (v * p.2) else None.

Lemma parts_ok : Forall unit_ok parts.
Proof.
  assert (Hu : forall u l, unit_seconds (Some u) = l -> l <> [] -> forallb (fun x => 1 <=? x) l = true -> isdigit u = false -> unit_ok (u, product l)).
  { intros u l Hu Hne Hl Hd. assert (Hpos : Forall (fun x => 1 <= x) l).
    { apply Forall_forall. intros x Hx. rewrite forallb_forall in Hl. apply Z.leb_le, Hl. by apply list_elem_of_In. }
    split; [done |]. split; [by apply product_pos |]. intros v Hv. cbn [fst snd]. rewrite Hu. apply int_product_spec; [lia | done | done]. }
  unfold parts. apply Forall_cons; split; [exact (Hu "y"%char [365; 24; 60; 60] eq_refl ltac:(done) eq_refl eq_refl) |].
  apply Forall_cons; split; [exact (Hu "w"%char [7; 24; 60; 60] eq_refl ltac:(done) eq_refl eq_refl) |].
  apply Forall_cons; split; [exact (Hu "d"%char [24; 60; 60] eq_refl ltac:(done) eq_refl eq_refl) |].
  apply Forall_cons; split; [exact (Hu "h"%char [60; 60] eq_refl ltac:(done) eq_refl eq_refl) |].
  apply Forall_cons; split; [exact (Hu "m"%char [60] eq_refl ltac:(done) eq_refl eq_refl) |].
  apply Forall_cons; split; [| constructor].
  split; [done |]. split; [done |]. intros v Hv. cbn [fst snd]. rewrite Z.mul_1_r. by rewrite (proj2 (Z.leb_le _ _)) by lia.
Qed.

(** A part is read back, or overflows. *)
Lemma read_part fuel acc u x v t :
  unit_ok (u, x) -> 0 <= v <= INT_MAX ->
  dhms_loop (S fuel) acc (print_dec v ++ u :: t) = if v * x <=? INT_MAX then dhms_loop fuel (acc + v * x) t else None.
Proof.
  intros (Hd & Hx & Hp) Hv. destruct (print_dec_cons v) as (c & s & Hc). cbn [fst snd] in *.
  assert (Hs : strtoll (print_dec v ++ u :: t) = Strto v (u :: t) false) by (apply strtoll_print_rest; [unfold INT_MAX, LLONG_MAX in *; lia | done]).
  assert (Hi : i32 v = v) by (unfold i32, swrap; unfold INT_MAX in Hv; rewrite Z.mod_small; lia).
  rewrite Hc in *. cbn [app] in *. cbn [dhms_loop]. rewrite Hs. cbn [st_end st_value]. rewrite Hi, Hp by done. by destruct (_ <=? _).
Qed.

(** What no part takes. *)
Fixpoint remainder (ps : list (ascii * Z)) (s : Z) : Z :=
  match ps with
  | [] => s
  | (_, x) :: ps => if x <=? s then remainder ps (s mod x) else remainder ps s
  end.

Lemma read_parts ps fuel acc s :
  Forall unit_ok ps -> 0 <= s <= INT_MAX -> (length (dhms_print ps s) <= fuel)%nat ->
  dhms_loop fuel acc (dhms_print ps s) = Some (acc + s - remainder ps s).
Proof.
  intros Hps. revert fuel acc s. induction Hps as [| [u x] ps Hu Hps IH]; intros fuel acc s Hs Hf; cbn [dhms_print remainder] in *.
  - destruct fuel; cbn; f_equal; lia.
  - destruct (Z.leb_spec x s) as [Hle | Hgt]; [| by apply IH]. destruct Hu as (Hd & Hx & Hp) eqn:Hu'. cbn [fst snd] in *.
    assert (Hq : 0 <= s / x <= INT_MAX) by (split; [apply Z.div_pos; lia | apply Z.div_le_upper_bound; nia]).
    pose proof (Z.div_mod s x ltac:(lia)). pose proof (Z.mod_pos_bound s x ltac:(lia)).
    destruct fuel as [| fuel]; [destruct (print_dec_cons (s / x)) as (c & t & Hc); rewrite Hc in Hf; cbn in Hf; lia |].
    cbn [app]. rewrite (read_part fuel acc u x) by done. rewrite (proj2 (Z.leb_le _ _)) by nia.
    rewrite IH; [f_equal; lia | lia |]. rewrite !length_app in Hf. cbn in Hf. destruct (print_dec_cons (s / x)) as (c & t & Hc). rewrite Hc in Hf. cbn in Hf. lia.
Qed.

Lemma remainder_last s : 0 <= s -> remainder parts s = 0.
Proof.
  assert (Hlast : forall s, 0 <= s -> remainder [("s"%char, 1)] s = 0).
  { intros r Hr. cbn. destruct (Z.leb_spec 1 r); [apply Z.mod_1_r | lia]. }
  intros Hs. unfold parts. 
  assert (Hstep : forall u x ps s, 0 <= s -> 1 <= x -> (forall r, 0 <= r -> remainder ps r = 0) -> remainder ((u, x) :: ps) s = 0).
  { intros u x ps r Hr Hx Hps. cbn [remainder]. destruct (_ <=? _); apply Hps; [| done]. apply Z.mod_pos_bound. lia. }
  repeat (first [apply Hlast | apply Hstep; [| lia |]]; try assumption; try (intros ? ?)); done.
Qed.

(** A duration below 69 years is read back from its text; for a longer one,
    up to 2^31 years, the product of [int]s overflows. *)
Theorem duration_roundtrip (s : Z) (Hs : 0 <= s < 2 ^ 31 * 31536000) :
  dhms2time_t (Some (time_t2dhms s)) = if s <? 69 * 31536000 then Some s else None.
Proof.
  unfold time_t2dhms, dhms2time_t. destruct (Z.leb_spec s 0) as [H0 | Hpos].
  { replace s with 0 by lia. vm_compute. reflexivity. }
  destruct (Z.leb_spec s INT_MAX) as [Hint | Hbig].
  - rewrite (proj2 (Z.ltb_lt _ _)) by (unfold INT_MAX in Hint; lia).
    rewrite read_parts by (apply parts_ok || done || lia). by rewrite remainder_last, Z.sub_0_r by lia.
  - unfold INT_MAX in Hbig. set (small := drop 1 parts). change parts with (("y"%char, 31536000) :: small).
    assert (Hy : unit_ok ("y"%char, 31536000)) by exact (List.Forall_inv parts_ok).
    assert (Hsmall : Forall unit_ok small) by (apply Forall_drop, parts_ok).
    assert (Hprint : dhms_print (("y"%char, 31536000) :: small) s =
      print_dec (s / 31536000) ++ "y"%char :: dhms_print small (s mod 31536000)).
    { change (dhms_print (("y"%char, 31536000) :: small) s) with
        (if 31536000 <=? s then print_dec (s / 31536000) ++ "y"%char :: dhms_print small (s mod 31536000) else dhms_print small s).
      by rewrite (proj2 (Z.leb_le 31536000 s)) by lia. }
    assert (Hrem : remainder small (s mod 31536000) = 0).
    { pose proof (remainder_last s ltac:(lia)) as Hrem.
      change (remainder parts s) with (if 31536000 <=? s then remainder small (s mod 31536000) else remainder small s) in Hrem.
      by rewrite (proj2 (Z.leb_le 31536000 s)) in Hrem by lia. }
    rewrite Hprint. generalize dependent small. intros small Hsmall _ Hrem.
    set (y := s / 31536000) in *. set (r := s mod 31536000) in *.
    pose proof (Z.div_mod s 31536000 ltac:(lia)) as Hdiv. pose proof (Z.mod_pos_bound s 31536000 ltac:(lia)) as Hr. fold y r in Hdiv, Hr.
    rewrite length_app, length_cons, Nat.add_succ_r. rewrite (read_part _ 0 "y"%char 31536000 y) by (done || (unfold INT_MAX; lia)).
    unfold INT_MAX. destruct (Z.leb_spec (y * 31536000) (2 ^ 31 - 1)) as [Hle | Hgt].
    + rewrite (proj2 (Z.ltb_lt _ _)) by lia. rewrite read_parts by (done || (unfold INT_MAX; lia) || lia). rewrite Hrem. f_equal. lia.
    + by rewrite (proj2 (Z.ltb_ge _ _)) by lia.
Qed.

Lemma duration_roundtrip_witness :
  dhms2time_t (Some (time_t2dhms 694861)) = Some 694861 /\ time_t2dhms 694861 = B "1w1d1h1m1s".
Proof. split; [| vm_compute; reflexivity]. refine (duration_roundtrip 694861 _). split; [discriminate | reflexivity]. Defined.

(** ** Visible lengths *)

(** Every colour markup counts one too many, the brace that closes it. *)
Lemma visible_length_markup (m t : bstr) :
  forallb (fun c => negb (ceq c "}")) m = true -> visible_length (B "{" ++ m ++ B "}" ++ t) = 1 + visible_length t.
Proof.
  intros Hm. unfold visible_length. change (visible_loop Plain (B "{" ++ m ++ B "}" ++ t)) with (visible_loop Markup (m ++ B "}" ++ t)).
  induction m as [| c m IH]; [done |]. cbn [forallb] in Hm. apply andb_true_iff in Hm as [Hc Hm]. apply negb_true_iff in Hc.
  cbn [app visible_loop]. rewrite Hc. by apply IH.
Qed.
