(* ===== verification/TuiText.v ===== *)
(** * Formatting of terminal text (irc.format.c, tui.theme.c)

    IRC formatting codes, their translation to terminal sequences, the style tags
    of the interface, and stripping.  A loop over the text has its length as fuel:
    every turn passes a character. *)

From S2P Require Import Prelude CString ConfigText Util.

#[local] Open Scope Z_scope.

(** ** Colours (irc.format.c) *)

Definition palette : list bstr := map B [
   "#ffffff"; "#000000"; "#00007f"; "#009300"; "#ff0000"; "#7f0000"; "#9c009c"; "#fc7f00"; "#ffff00"; "#00fc00";
   "#009393"; "#00ffff"; "#0000fc"; "#ff00ff"; "#7f7f7f"; "#d2d2d2"; "#470000"; "#472100"; "#474700"; "#324700";
   "#004700"; "#00472c"; "#004747"; "#002747"; "#000047"; "#2e0047"; "#470047"; "#47002a"; "#740000"; "#743a00";
   "#747400"; "#517400"; "#007400"; "#007449"; "#007474"; "#004074"; "#000074"; "#4b0074"; "#740074"; "#740045";
   "#b50000"; "#b56300"; "#b5b500"; "#7db500"; "#00b500"; "#00b571"; "#00b5b5"; "#0063b5"; "#0000b5"; "#7500b5";
   "#b500b5"; "#b5006b"; "#ff0000"; "#ff8c00"; "#ffff00"; "#b2ff00"; "#00ff00"; "#00ffa0"; "#00ffff"; "#008cff";
   "#0000ff"; "#a500ff"; "#ff00ff"; "#ff0098"; "#ff5959"; "#ffb459"; "#ffff71"; "#cfff60"; "#6fff6f"; "#65ffc9";
   "#6dffff"; "#59b4ff"; "#5959ff"; "#c459ff"; "#ff66ff"; "#ff59bc"; "#ff9c9c"; "#ffd39c"; "#ffff9c"; "#e2ff9c";
   "#9cff9c"; "#9cffdb"; "#9cffff"; "#9cd3ff"; "#9c9cff"; "#dc9cff"; "#ff9cff"; "#ff94d3"; "#000000"; "#131313";
   "#282828"; "#363636"; "#4d4d4d"; "#656565"; "#818181"; "#9f9f9f"; "#bcbcbc"; "#e2e2e2"; "#ffffff"]%string.

Definition irc_color_rgb (index : Z) : option bstr := if index <? 99 then palette !! Z.to_nat index else None.

Definition ansi : list Z := [
   52; 94; 100; 58; 22; 29; 23; 24; 17; 54; 53; 89; 88; 130; 142; 64; 28; 35; 30; 25; 18; 91; 90; 125; 124; 166; 184;
   106; 34; 49; 37; 33; 19; 129; 127; 161; 196; 208; 226; 154; 46; 86; 51; 75; 21; 171; 201; 198; 203; 215; 227; 191;
   83; 122; 87; 111; 63; 177; 207; 205; 217; 223; 229; 193; 157; 158; 159; 153; 147; 183; 219; 212; 16; 233; 235; 237;
   239; 241; 244; 247; 250; 254; 231].

Definition irc_color_ansi_extended (index : Z) : Z :=
  if (16 <=? index) && (index <=? 98) then nth (Z.to_nat (index - 16)) ansi 0 else 0.

Record irc_color := IrcColor { hex : bool; reset : bool; background : bool; foreground : Z; bg : Z }.

Definition color_digit (hex : bool) (c : ascii) : option Z :=
  if isdigit c then Some (code c - 48)
  else if hex && (97 <=? code c) && (code c <=? 102) then Some (code c - 97 + 10)
  else if hex && (65 <=? code c) && (code c <=? 70) then Some (code c - 65 + 10)
  else None.

(** At most [limit] digits: their number and value. *)
Fixpoint color_digits (limit : nat) (hex : bool) (p : bstr) (result : Z) : nat * Z :=
  match limit, p with
  | S limit, c :: p =>
      match color_digit hex c with
      | Some d => let '(n, v) := color_digits limit hex p (u32 (result * (if hex then 16 else 10) + d)) in (S n, v)
      | None => (O, result)
      end
  | _, _ => (O, result)
  end.

(** The number of characters used, 0 if there is no colour, and the value. *)
Definition color_component (p : bstr) (hex : bool) : nat * Z :=
  let '(count, v) := color_digits (if hex then 6 else 2) hex p 0 in
  if hex && negb (count =? 6)%nat then (O, 0) else (count, v).

Definition COLOR : ascii := chr 3.
Definition HEXCOLOR : ascii := chr 4.

Definition no_color : irc_color := IrcColor false false false 0 0.

Definition irc_color_parse (input : option bstr) : nat * irc_color :=
  match input with
  | Some (c :: p) =>
      if negb (bool_decide (c = COLOR) || bool_decide (c = HEXCOLOR)) then (O, no_color)
      else
        let hex := bool_decide (c = HEXCOLOR) in
        let '(n, fg) := color_component p hex in
        if (n =? 0)%nat then (1%nat, IrcColor hex true false 0 0)
        else
          match drop n p with
          | d :: q =>
              if ceq d "," then
                let '(m, bg) := color_component q hex in
                if (m =? 0)%nat then ((1 + n)%nat, IrcColor hex false false fg 0)
                else ((1 + n + (1 + m))%nat, IrcColor hex false true fg bg)
              else ((1 + n)%nat, IrcColor hex false false fg 0)
          | [] => ((1 + n)%nat, IrcColor hex false false fg 0)
          end
  | _ => (O, no_color)
  end.

(** ** Terminal sequences (tui.theme.c) *)

Definition csi (s : bstr) : bstr := ESC :: "["%char :: s ++ B "m".

Definition ansi_table : list (bstr * bstr) := map (fun p => (B p.1, csi (B p.2))) [
   ("reset", "0"); ("bold", "1"); ("dim", "2"); ("italic", "3"); ("underline", "4"); ("blink", "5"); ("reverse", "7");
   ("hidden", "8"); ("strike", "9"); ("bold-off", "22"); ("dim-off", "22"); ("italic-off", "23");
   ("underline-off", "24"); ("blink-off", "25"); ("reverse-off", "27"); ("hidden-off", "28"); ("strike-off", "29")]%string.

Definition ansi_code (tag : bstr) : option bstr := snd <$> List.find (fun p => streq tag p.1) ansi_table.

Definition foregrounds : list bstr := map B ["97"; "30"; "34"; "32"; "91"; "38;5;94"; "35"; "38;5;208"; "93"; "92"; "36"; "96"; "94"; "95"; "90"; "37"]%string.
Definition backgrounds : list bstr := map B ["107"; "40"; "44"; "42"; "101"; "48;5;94"; "45"; "48;5;208"; "103"; "102"; "46"; "106"; "104"; "105"; "100"; "47"]%string.

(** [component]: whether it is the background. *)
Definition color_sequence (hex component : bool) (value : Z) : bstr :=
  let prefix := if component then 48 else 38 in
  if hex then
    csi (print_dec prefix ++ B ";2;" ++ print_dec (Z.shiftr value 16) ++ B ";" ++ print_dec (Z.land (Z.shiftr value 8) 255) ++ B ";" ++
         print_dec (Z.land value 255))
  else if value =? 99 then csi (print_dec (if component then 49 else 39))
  else if value <? 16 then csi (nth (Z.to_nat value) (if component then backgrounds else foregrounds) [])
  else csi (print_dec prefix ++ B ";5;" ++ print_dec (irc_color_ansi_extended value)).

Definition color_text (c : irc_color) : bstr :=
  if reset c then csi (B "39;49")
  else color_sequence (hex c) false (foreground c) ++ (if background c then color_sequence (hex c) true (bg c) else []).

Record style := Style { bold : bool; underline : bool; reverse_on : bool; italic : bool; strikethrough : bool }.
Definition plain_style : style := Style false false false false false.

(** What a control character writes, and the style after it. *)
Definition control (s : style) (c : ascii) : bstr * style :=
  let k := code c in
  if k =? 0x02 then (csi (if bold s then B "22" else B "1"), Style (negb (bold s)) (underline s) (reverse_on s) (italic s) (strikethrough s))
  else if k =? 0x0f then (csi (B "0"), plain_style)
  else if k =? 0x16 then (csi (if reverse_on s then B "27" else B "7"), Style (bold s) (underline s) (negb (reverse_on s)) (italic s) (strikethrough s))
  else if k =? 0x1d then (csi (if italic s then B "23" else B "3"), Style (bold s) (underline s) (reverse_on s) (negb (italic s)) (strikethrough s))
  else if k =? 0x1e then (csi (if strikethrough s then B "29" else B "9"), Style (bold s) (underline s) (reverse_on s) (italic s) (negb (strikethrough s)))
  else if k =? 0x1f then (csi (if underline s then B "24" else B "4"), Style (bold s) (negb (underline s)) (reverse_on s) (italic s) (strikethrough s))
  else if k =? 0x11 then ([], s)
  else ([c], s).

Definition is_color (c : ascii) : bool := bool_decide (c = COLOR) || bool_decide (c = HEXCOLOR).

Fixpoint irc_loop (fuel : nat) (s : style) (input : bstr) : bstr :=
  match fuel, input with
  | S fuel, c :: rest =>
      if is_color c then
        let '(used, color) := irc_color_parse (Some input) in
        color_text color ++ irc_loop fuel s (drop (used - 1) rest)
      else
        let '(out, s) := control s c in out ++ irc_loop fuel s rest
  | _, _ => []
  end.

(** [ok]: [malloc] succeeds. *)
Definition irc_to_tui_colors (ok : bool) (input : option bstr) : option bstr :=
  match input with
  | None => None
  | Some input =>
      if (2 ^ 64 - 1 - 64) / 32 <? Z.of_nat (length input) then None
      else if ok then Some (irc_loop (length input) plain_style input) else None
  end.

(** The end of an escape sequence: up to and with the first letter. *)
Fixpoint sequence (p : bstr) : bstr * bstr :=
  match p with
  | [] => ([], [])
  | c :: p' => if isalpha c then ([c], p') else let '(s, rest) := sequence p' in (c :: s, rest)
  end.

(** [keep]: sequences of converted IRC codes are copied; [colors] is [cfg_tui_colors]. *)
Fixpoint colorize_loop (fuel : nat) (keep colors : bool) (p : bstr) : bstr :=
  match fuel, p with
  | S fuel, c :: rest =>
      if bool_decide (c = ESC) then
        match rest with
        | d :: rest' =>
            if ceq d "[" then
              let '(s, after) := sequence rest' in
              (if keep then c :: d :: s else []) ++ colorize_loop fuel keep colors after
            else colorize_loop fuel keep colors rest
        | [] => []
        end
      else if ceq c "{" then
        match split_at rest "}"%char with
        | None => c :: colorize_loop fuel keep colors rest
        | Some (key, after) =>
            match ansi_code (take 63 key) with
            | Some s => (if colors then s else []) ++ colorize_loop fuel keep colors after
            | None => c :: colorize_loop fuel keep colors rest
            end
        end
      else c :: colorize_loop fuel keep colors rest
  | _, _ => []
  end.

(** The characters that [strpbrk] looks for. *)
Definition irc_control (c : ascii) : bool := existsb (fun k => code c =? k) [3; 4; 2; 0x11; 0x16; 0x1d; 0x1e; 0x1f; 0x0f].

(** [ok_irc], [ok]: the two allocations. *)
Definition tui_colorize_string (colors ok_irc ok : bool) (input : option bstr) : option bstr :=
  match input with
  | None => None
  | Some input =>
      let irc := if existsb irc_control input then irc_to_tui_colors ok_irc (Some input) else None in
      let text := default input irc in
      if ok then Some (colorize_loop (length text) (match irc with Some _ => colors | None => false end) colors text) else None
  end.

(** ** Stripping *)

Definition strip_control (c : ascii) : bool := existsb (fun k => code c =? k) [0x02; 0x1d; 0x1f; 0x0f; 0x11; 0x16; 0x1e].

Fixpoint strip_loop (fuel : nat) (p : bstr) : bstr :=
  match fuel, p with
  | S fuel, c :: rest =>
      if strip_control c then strip_loop fuel rest
      else if is_color c then strip_loop fuel (drop (irc_color_parse (Some p)).1 p)
      else c :: strip_loop fuel rest
  | _, _ => []
  end.

Definition strip_mirc_formatting (ok : bool) (input : option bstr) : option bstr :=
  match input with
  | Some input => if ok then Some (strip_loop (length input) input) else None
  | None => None
  end.
