(* ===== verification/TuiTextSpec.v ===== *)
(** * What formatting of terminal text promises (irc.format.c, tui.theme.c)

    Results fit their buffers, stripping leaves no formatting code, and the only
    escape sequences that reach the terminal are those of codes and tags, except
    when the text contains an IRC code. *)

From S2P Require Import Prelude CString ConfigText Util TuiText.

#[local] Open Scope nat_scope.

(** ** The parser of colours *)

Lemma color_digits_bound limit hex p r : (color_digits limit hex p r).1 <= limit /\ (color_digits limit hex p r).1 <= length p.
Proof.
  revert p r. induction limit as [| limit IH]; intros p r; [cbn; lia |]. destruct p as [| c p]; [cbn; lia |]. cbn [color_digits length].
  destruct (color_digit hex c) as [d |]; [| cbn; lia]. specialize (IH p (u32 (r * (if hex then 16 else 10) + d)%Z)).
  destruct (color_digits limit hex p _). cbn in *. lia.
Qed.

Lemma color_component_bound p hex : (color_component p hex).1 <= length p.
Proof.
  unfold color_component. pose proof (color_digits_bound (if hex then 6 else 2) hex p 0) as Hb. destruct (color_digits _ _ _ _) as [n v].
  destruct (_ && _); cbn in *; lia.
Qed.

(** A colour takes at least its control character, and nothing past the end. *)
Lemma parse_used c p : is_color c = true -> 1 <= (irc_color_parse (Some (c :: p))).1 <= S (length p).
Proof.
  unfold irc_color_parse, is_color. intros ->. cbn [negb]. pose proof (color_component_bound p (bool_decide (c = HEXCOLOR))) as Hn.
  destruct (color_component p _) as [n fg]. cbn [fst] in Hn. destruct (n =? 0); [cbn; lia |].
  destruct (drop n p) as [| d q] eqn:Hd; [cbn; lia |]. destruct (ceq d ","); [| cbn; lia].
  pose proof (color_component_bound q (bool_decide (c = HEXCOLOR))) as Hm. destruct (color_component q _) as [m bg]. cbn [fst] in Hm.
  destruct (m =? 0); cbn; [lia |]. apply (f_equal length) in Hd. rewrite length_drop in Hd. cbn in Hd. lia.
Qed.

(** ** Stripping *)

Definition formatting (c : ascii) : bool := strip_control c || is_color c.

Lemma strip_spec fuel p :
  length p <= fuel -> Forall (fun c => formatting c = false) (strip_loop fuel p) /\ length (strip_loop fuel p) <= length p.
Proof.
  revert p. induction fuel as [| fuel IH]; intros p Hp; [destruct p; [split; [constructor | done] | cbn in Hp; lia] |].
  destruct p as [| c rest]; [split; [constructor | done] |]. cbn [strip_loop length] in *.
  destruct (strip_control c) eqn:Hs; [destruct (IH rest ltac:(lia)); split; [done | lia] |].
  destruct (is_color c) eqn:Hc.
  - pose proof (parse_used c rest Hc) as Hu. set (u := (irc_color_parse _).1) in *.
    destruct (IH (drop u (c :: rest))) as [H1 H2]; [rewrite length_drop; cbn; lia |]. split; [done |]. rewrite length_drop in H2. cbn in H2. lia.
  - destruct (IH rest ltac:(lia)) as [H1 H2]. cbn [length]. split; [| lia]. constructor; [| done]. unfold formatting. by rewrite Hs, Hc.
Qed.

Lemma strip_loop_plain fuel p : length p <= fuel -> Forall (fun c => formatting c = false) p -> strip_loop fuel p = p.
Proof.
  intros Hl Hp. revert fuel Hl. induction Hp as [| c p Hc _ IH]; intros [| fuel] Hl; try done; cbn [length] in Hl; [lia |].
  cbn [strip_loop]. apply orb_false_iff in Hc as [-> ->]. by rewrite IH by lia.
Qed.

(** Stripping leaves no formatting character and no longer a text, never
    reads past its end, and a stripped text is left as it is. *)
Theorem strip_mirc_formatting_clean (s : bstr) :
  exists t, strip_mirc_formatting true (Some s) = Some t /\ Forall (fun c => formatting c = false) t /\ length t <= length s /\
    strip_mirc_formatting true (Some t) = Some t.
Proof.
  destruct (strip_spec (length s) s ltac:(done)) as [H1 H2]. exists (strip_loop (length s) s). split_and!; try done.
  cbn. by rewrite strip_loop_plain.
Qed.

(** ** Lengths *)

Lemma code_fits tag s : ansi_code tag = Some s -> length s <= length tag + 2.
Proof.
  unfold ansi_code. intros H. apply fmap_Some in H as ([t' s'] & Hf & ->). apply List.find_some in Hf as [Hin He]. apply streq_true in He. cbn in He. subst t'.
  assert (Hall : forallb (fun p => length p.2 <=? length p.1 + 2) ansi_table = true) by (vm_compute; reflexivity).
  rewrite forallb_forall in Hall. apply Hall in Hin. by apply Nat.leb_le in Hin.
Qed.

Lemma split_at_parts s c a b : split_at s c = Some (a, b) -> s = a ++ c :: b.
Proof.
  revert a b. induction s as [| x s IH]; intros a b; [done |]. cbn [split_at]. case_bool_decide as Hx; [intros [= <- <-]; by subst |].
  destruct (split_at s c) as [[a' b'] |]; [| done]. intros [= <- <-]. cbn. by rewrite (IH a' b').
Qed.

Lemma sequence_parts p : (sequence p).1 ++ (sequence p).2 = p.
Proof.
  induction p as [| c p IH]; [done |]. cbn [sequence]. destruct (isalpha c); [done |]. destruct (sequence p) as [s rest]. cbn in *. by rewrite IH.
Qed.

Lemma colorize_length fuel keep colors p : length p <= fuel -> length (colorize_loop fuel keep colors p) <= length p.
Proof.
  revert p. induction fuel as [| fuel IH]; intros p Hp; [cbn; lia |]. destruct p as [| c rest]; [cbn; lia |]. cbn [colorize_loop length] in *.
  case_bool_decide.
  - destruct rest as [| d rest']; [cbn; lia |]. cbn [length] in *. destruct (ceq d "[").
    + pose proof (sequence_parts rest') as Hq. destruct (sequence rest') as [q after]. apply (f_equal length) in Hq. cbn in Hq. rewrite length_app in Hq.
      specialize (IH after ltac:(lia)). rewrite length_app. destruct keep; cbn [length]; lia.
    + specialize (IH (d :: rest')). cbn [length] in IH. lia.
  - destruct (ceq c "{"); [| specialize (IH rest ltac:(lia)); cbn [length]; lia].
    destruct (split_at rest "}"%char) as [[key after] |] eqn:Hk; [| specialize (IH rest ltac:(lia)); cbn [length]; lia].
    apply split_at_parts in Hk. destruct (ansi_code _) as [s |] eqn:Ha; [| specialize (IH rest ltac:(lia)); cbn [length]; lia].
    apply code_fits in Ha. rewrite length_take in Ha. subst rest. rewrite length_app in *. cbn [length] in *. specialize (IH after ltac:(lia)).
    rewrite length_app. destruct colors; cbn [length]; lia.
Qed.

(** Values of a colour: below 2^24 in hexadecimal, below 100 otherwise. *)
Definition in_range (hex : bool) (v : Z) : Prop := (0 <= v < if hex then 2 ^ 24 else 100)%Z.

Lemma color_digit_range hex c d : color_digit hex c = Some d -> (0 <= d < if hex then 16 else 10)%Z.
Proof.
  unfold color_digit, isdigit. intros H. repeat case_match; simplify_eq; try done; lia.
Qed.

Lemma color_digits_range limit (hex : bool) p r k :
  limit + k <= (if hex then 6 else 2) -> (0 <= r < (if hex then 16 else 10) ^ Z.of_nat k)%Z ->
  (0 <= (color_digits limit hex p r).2 < (if hex then 16 else 10) ^ Z.of_nat (k + (color_digits limit hex p r).1))%Z.
Proof.
  revert p r k. induction limit as [| limit IH]; intros p r k Hl Hr; [cbn; by rewrite Nat.add_0_r |].
  destruct p as [| c p]; [cbn; by rewrite Nat.add_0_r |]. cbn [color_digits].
  destruct (color_digit hex c) as [d |] eqn:Hd; [| cbn; by rewrite Nat.add_0_r]. apply color_digit_range in Hd.
  assert (Hmul : (0 <= r * (if hex then 16 else 10) + d < (if hex then 16 else 10) ^ Z.of_nat (S k))%Z).
  { rewrite Nat2Z.inj_succ, Z.pow_succ_r by lia. destruct hex; lia. }
  assert (Hsmall : ((if hex then 16 else 10) ^ Z.of_nat (S k) <= 2 ^ 32)%Z).
  { transitivity ((if hex then 16 else 10) ^ (if hex then 6 else 2))%Z; [apply Z.pow_le_mono_r; destruct hex; lia | destruct hex; discriminate]. }
  rewrite u32_small by lia. specialize (IH p (r * (if hex then 16 else 10) + d)%Z (S k) ltac:(destruct hex; lia) Hmul).
  destruct (color_digits limit hex p _) as [n v]. cbn [fst snd] in *. by replace (k + S n) with (S k + n) by lia.
Qed.

Lemma color_component_range p hex : in_range hex (color_component p hex).2.
Proof.
  unfold color_component, in_range. pose proof (color_digits_range (if hex then 6 else 2) hex p 0 0) as Hr.
  pose proof (color_digits_bound (if hex then 6 else 2) hex p 0) as [Hb _]. destruct (color_digits _ _ _ _) as [n v]. cbn [fst snd] in *.
  specialize (Hr ltac:(lia) ltac:(destruct hex; cbn; lia)). destruct hex; cbn [andb].
  - destruct (Nat.eqb_spec n 6) as [-> | Hn]; cbn; [exact Hr | lia].
  - cbn. assert (10 ^ Z.of_nat n <= 10 ^ 2)%Z by (apply Z.pow_le_mono_r; lia). cbn [Nat.add] in Hr. lia.
Qed.

Lemma print_byte_length z : (0 <= z < 256)%Z -> length (print_dec z) <= 3.
Proof.
  intros Hz. assert (Hall : forallb (fun z => length (print_dec z) <=? 3) (seqZ 0 256) = true) by (vm_compute; reflexivity).
  rewrite forallb_forall in Hall. apply Nat.leb_le, Hall. apply list_elem_of_In, elem_of_seqZ. lia.
Qed.

Lemma sequence_length hex component v : in_range hex v -> length (color_sequence hex component v) <= 19.
Proof.
  unfold in_range, color_sequence, csi. intros Hv. destruct hex.
  - assert (H1 : length (print_dec (Z.shiftr v 16)) <= 3).
    { apply print_byte_length. rewrite Z.shiftr_div_pow2 by lia. split; [apply Z.div_pos; lia | apply Z.div_lt_upper_bound; lia]. }
    assert (H2 : forall w, length (print_dec (Z.land w 255)) <= 3).
    { intros w. apply print_byte_length. change 255%Z with (2 ^ 8 - 1)%Z. rewrite land_pow2 by lia. by apply Z.mod_pos_bound. }
    pose proof (H2 (Z.shiftr v 8)). pose proof (H2 v). assert (length (print_dec (if component then 48 else 38)) = 2) by (by destruct component).
    cbn [length]. rewrite !length_app. cbn [length B]. change (length (B "m")) with 1. change (length (B ";2;")) with 3. change (length (B ";")) with 1. lia.
  - assert (Hall : forallb (fun b => forallb (fun v => length (color_sequence false b v) <=? 19) (seqZ 0 100)) [true; false] = true) by (vm_compute; reflexivity).
    rewrite forallb_forall in Hall. specialize (Hall component ltac:(destruct component; cbn; tauto)). rewrite forallb_forall in Hall.
    apply Nat.leb_le, Hall. apply list_elem_of_In, elem_of_seqZ. lia.
Qed.

Lemma color_text_length c p :
  is_color c = true -> let '(used, color) := irc_color_parse (Some (c :: p)) in length (color_text color) <= 32 * used.
Proof.
  unfold irc_color_parse, is_color. intros ->. cbn [negb]. set (h := bool_decide (c = HEXCOLOR)).
  pose proof (color_component_range p h) as Hf. destruct (color_component p h) as [n fg]. cbn [snd] in Hf.
  pose proof (sequence_length h false fg Hf) as Hs. destruct (Nat.eqb_spec n 0) as [_ | Hn]; [unfold color_text; cbn; lia |].
  assert (Hone : length (color_text (IrcColor h false false fg 0)) <= 32 * (1 + n)).
  { unfold color_text. cbn [reset background hex foreground]. rewrite app_nil_r. lia. }
  destruct (drop n p) as [| d q]; [done |]. destruct (ceq d ","); [| done].
  pose proof (color_component_range q h) as Hb. destruct (color_component q h) as [m bgv]. cbn [snd] in Hb.
  pose proof (sequence_length h true bgv Hb). destruct (Nat.eqb_spec m 0); [done |].
  unfold color_text. cbn [reset background hex foreground bg]. rewrite length_app. lia.
Qed.

Lemma control_length s c : length (control s c).1 <= 32.
Proof. unfold control. repeat case_match; destruct s as [[] [] [] [] []]; cbn; lia. Qed.

Lemma irc_length fuel s p : length p <= fuel -> length (irc_loop fuel s p) <= 32 * length p.
Proof.
  revert s p. induction fuel as [| fuel IH]; intros s p Hp; [cbn; lia |]. destruct p as [| c rest]; [cbn; lia |]. cbn [irc_loop length] in *.
  destruct (is_color c) eqn:Hc.
  - pose proof (parse_used c rest Hc) as Hu. pose proof (color_text_length c rest Hc) as Ht.
    destruct (irc_color_parse (Some (c :: rest))) as [used color]. cbn [fst] in Hu. rewrite length_app.
    specialize (IH s (drop (used - 1) rest) ltac:(rewrite length_drop; lia)). rewrite length_drop in IH. lia.
  - pose proof (control_length s c) as Hl. destruct (control s c) as [out s']. cbn [fst] in Hl. rewrite length_app. specialize (IH s' rest ltac:(lia)). lia.
Qed.

(** ** Escape sequences *)

Definition silent (s : bstr) : Prop := ESC ∉ s.

Lemma silent_app a b : silent a -> silent b -> silent (a ++ b).
Proof. unfold silent. rewrite elem_of_app. tauto. Qed.

Lemma silent_cons c s : c <> ESC -> silent s -> silent (c :: s).
Proof. unfold silent. rewrite elem_of_cons. intros Hc Hs [H | H]; [by apply Hc | done]. Qed.

Lemma silent_nil : silent [].
Proof. apply not_elem_of_nil. Qed.

Lemma colorize_silent fuel colors p :
  colors = false \/ "{"%char ∉ p -> silent (colorize_loop fuel false colors p).
Proof.
  revert p. induction fuel as [| fuel IH]; intros p Hp; [apply silent_nil |]. destruct p as [| c rest]; [apply silent_nil |].
  assert (Hrest : forall q, (forall x, x ∈ q -> x ∈ c :: rest) -> silent (colorize_loop fuel false colors q)).
  { intros q Hq. apply IH. destruct Hp as [Hp | Hp]; [by left | right]. intros Hin. by apply Hp, Hq. }
  assert (Hr : silent (colorize_loop fuel false colors rest)) by (apply Hrest; intros x Hx; by apply elem_of_cons; right).
  cbn [colorize_loop]. case_bool_decide as Hc.
  - destruct rest as [| d rest']; [apply silent_nil |]. destruct (ceq d "["); [| done].
    pose proof (sequence_parts rest') as Hq. destruct (sequence rest') as [q after]. cbn in Hq. cbn [app]. apply Hrest. intros x Hx.
    rewrite <- Hq. rewrite !elem_of_cons, elem_of_app. tauto.
  - destruct (ceq c "{") eqn:Hbr; [| by apply silent_cons]. apply bool_decide_eq_true in Hbr. subst c.
    destruct Hp as [-> | Hp]; [| exfalso; apply Hp, elem_of_cons; by left].
    destruct (split_at rest "}"%char) as [[key after] |] eqn:Hk; [| by apply silent_cons]. apply split_at_parts in Hk.
    destruct (ansi_code _); [| by apply silent_cons]. cbn [app]. apply Hrest. intros x Hx. subst rest. rewrite !elem_of_cons, elem_of_app, elem_of_cons. tauto.
Qed.

(** The tags of the interface and the attributes they stand for. *)
Definition tag_attributes : list (bstr * bstr) := map (fun p => (B p.1, B p.2)) [
   ("reset", "0"); ("bold", "1"); ("dim", "2"); ("italic", "3"); ("underline", "4"); ("blink", "5"); ("reverse", "7");
   ("hidden", "8"); ("strike", "9"); ("bold-off", "22"); ("dim-off", "22"); ("italic-off", "23");
   ("underline-off", "24"); ("blink-off", "25"); ("reverse-off", "27"); ("hidden-off", "28"); ("strike-off", "29")]%string.

Definition has_tag (s tag : bstr) : Prop := exists before after, s = before ++ B "{" ++ tag ++ B "}" ++ after.

(** Output whose escape characters all begin the sequence of a tag that [s] has. *)
Inductive dressed (s : bstr) : bstr -> Prop :=
| dressed_end : dressed s []
| dressed_char c t : c <> ESC -> dressed s t -> dressed s (c :: t)
| dressed_tag tag n t : (tag, n) ∈ tag_attributes -> has_tag s tag -> dressed s t -> dressed s (ESC :: "["%char :: n ++ B "m" ++ t).

Lemma ansi_code_tag key q : ansi_code (take 63 key) = Some q -> exists n, (key, n) ∈ tag_attributes /\ q = ESC :: "["%char :: n ++ B "m".
Proof.
  unfold ansi_code. intros H. apply fmap_Some in H as ([t' s'] & Hf & ->). apply List.find_some in Hf as [Hin He]. apply streq_true in He. cbn in He. subst t'. cbn [snd].
  assert (Hall : forallb (fun p => (length p.1 <? 63) && existsb (fun q => streq q.1 p.1 && streq (csi q.2) p.2) tag_attributes) ansi_table = true) by (vm_compute; reflexivity).
  rewrite forallb_forall in Hall. apply Hall in Hin. cbn [fst snd] in Hin. apply andb_true_iff in Hin as [Hl Hq]. apply Nat.ltb_lt in Hl. rewrite length_take in Hl.
  rewrite take_ge in Hq by lia. apply existsb_exists in Hq as ([t n] & Hin & Hq). cbn [fst snd] in Hq. apply andb_true_iff in Hq as [->%streq_true <-%streq_true].
  exists n. split; [by apply list_elem_of_In | done].
Qed.

Lemma colorize_dressed fuel colors p : forall before, dressed (before ++ p) (colorize_loop fuel false colors p).
Proof.
  revert p. induction fuel as [| fuel IH]; intros p before; [constructor |]. destruct p as [| c rest]; [constructor |].
  assert (Hrest : forall x q, x ++ q = c :: rest -> dressed (before ++ c :: rest) (colorize_loop fuel false colors q)).
  { intros x q <-. rewrite app_assoc. apply IH. }
  cbn [colorize_loop]. case_bool_decide as Hc.
  - destruct rest as [| d rest']; [constructor |]. destruct (ceq d "["); [| by apply (Hrest [c])].
    pose proof (sequence_parts rest') as Hq. destruct (sequence rest') as [q after]. cbn in Hq. cbn [app]. apply (Hrest (c :: d :: q)). cbn. by rewrite Hq.
  - assert (Hkeep : dressed (before ++ c :: rest) (c :: colorize_loop fuel false colors rest)) by (apply dressed_char; [done | by apply (Hrest [c])]).
    destruct (ceq c "{") eqn:Hbr; [| done]. apply bool_decide_eq_true in Hbr. subst c.
    destruct (split_at rest "}"%char) as [[key after] |] eqn:Hk; [| done]. apply split_at_parts in Hk.
    destruct (ansi_code _) as [q |] eqn:Ha; [| done]. apply ansi_code_tag in Ha as (n & Hn & ->).
    assert (Hafter : dressed (before ++ "{"%char :: rest) (colorize_loop fuel false colors after)).
    { apply (Hrest ("{"%char :: key ++ B "}")). rewrite Hk. cbn [app]. by rewrite <- app_assoc. }
    destruct colors; [| done]. cbn [app]. rewrite <- app_assoc. apply dressed_tag with (tag := key); [done | | done].
    exists before, after. by rewrite Hk.
Qed.

Lemma colorize_plain fuel keep colors p : length p <= fuel -> ESC ∉ p -> "{"%char ∉ p -> colorize_loop fuel keep colors p = p.
Proof.
  revert p. induction fuel as [| fuel IH]; intros [| c p] Hl He Hb; try done; cbn [length] in Hl; [lia |]. rewrite not_elem_of_cons in He, Hb. cbn [colorize_loop].
  destruct He as [He1 He2], Hb as [Hb1 Hb2]. rewrite bool_decide_eq_false_2 by congruence. unfold ceq. rewrite bool_decide_eq_false_2 by congruence.
  rewrite IH by (done || lia). done.
Qed.

Lemma colorize_total colors s : (Z.of_nat (length s) <= (2 ^ 64 - 65) / 32)%Z -> exists t, tui_colorize_string colors true true (Some s) = Some t.
Proof.
  intros Hs. unfold tui_colorize_string, irc_to_tui_colors. rewrite (proj2 (Z.ltb_ge _ _)) by exact Hs.
  destruct (existsb irc_control s); by eexists.
Qed.

(** C38: the coloured text fits its buffers.  Without IRC codes in the text, every
    escape character that reaches the terminal begins the sequence of a tag that the text
    has, whatever sequences stand in the text itself; with colours off none does; and a
    text without codes, tags and escape characters is left as it is.  But a text with an
    IRC code passes its own sequences on, those that clear the screen included. *)
Theorem tui_colorize_string_safe (s : bstr) (Hs : (Z.of_nat (length s) <= (2 ^ 64 - 65) / 32)%Z) :
  let text := if existsb irc_control s then irc_loop (length s) plain_style s else s in
  length text <= 32 * length s /\
  (forall colors, exists t, tui_colorize_string colors true true (Some s) = Some t /\ length t <= length text /\
     (existsb irc_control s = false -> dressed s t) /\ (colors = false -> silent t) /\
     (existsb irc_control s = false -> ESC ∉ s -> "{"%char ∉ s -> t = s)) /\
  (exists t, tui_colorize_string true true true (Some (chr 2 :: csi (B "2J"))) = Some t /\ ~ silent t).
Proof.
  cbv zeta. assert (Hirc : irc_to_tui_colors true (Some s) = Some (irc_loop (length s) plain_style s)).
  { unfold irc_to_tui_colors. rewrite (proj2 (Z.ltb_ge _ _)); [done | exact Hs]. }
  split_and!.
  - destruct (existsb irc_control s); [by apply irc_length | lia].
  - intros colors. unfold tui_colorize_string. rewrite Hirc. destruct (existsb irc_control s) eqn:Hi; cbn [default from_option id].
    + eexists. split; [done |]. split; [by apply colorize_length |]. split_and!; [done | | done]. intros ->. apply colorize_silent. by left.
    + eexists. split; [done |]. split; [by apply colorize_length |]. split_and!; [intros _; apply (colorize_dressed _ _ _ []) | intros ->; apply colorize_silent; by left |].
      intros _ He Hb. by apply colorize_plain.
  - eexists. split; [reflexivity |]. intros Hq. apply Hq. apply (bool_decide_unpack _). vm_compute. exact I.
Qed.

(** A tag, and behind it a sequence that would clear the screen. *)
Lemma tui_colorize_string_safe_witness :
  (exists t, tui_colorize_string true true true (Some (B "a{bold}b" ++ csi (B "2J") ++ B "c")) = Some t /\
    dressed (B "a{bold}b" ++ csi (B "2J") ++ B "c") t /\ t = B "a" ++ csi (B "1") ++ B "bmc") /\
  (exists t, tui_colorize_string false true true (Some (B "a{bold}b" ++ csi (B "1") ++ chr 2 :: B "c")) = Some t /\ silent t /\ t = B "abc").
Proof.
  split.
  - destruct (tui_colorize_string_safe (B "a{bold}b" ++ csi (B "2J") ++ B "c")) as (_ & Hc & _); [vm_compute; discriminate |].
    destruct (Hc true) as (t & Ht & _ & Hd & _). exists t. split; [exact Ht |]. split; [apply Hd; reflexivity |].
    vm_compute in Ht. injection Ht as <-. reflexivity.
  - destruct (tui_colorize_string_safe (B "a{bold}b" ++ csi (B "1") ++ chr 2 :: B "c")) as (_ & Hc & _); [vm_compute; discriminate |].
    destruct (Hc false) as (t & Ht & _ & _ & Hs & _). exists t. split; [exact Ht |]. split; [apply Hs; reflexivity |].
    vm_compute in Ht. injection Ht as <-. reflexivity.
Defined.
