(* ===== verification/TuiWindow.v ===== *)
(** * Windows of the terminal interface (tui.window.c, tui.theme.c, tui.c)

    The window list, the active window, scrollback and scrolling.  A window is
    known by its address; drawing itself is left out, except for what it does to
    the state: [tui_redraw_screen] limits the scroll offset.  [calloc] succeeds. *)

From S2P Require Import Prelude CString ConfigText Util TuiText.

#[local] Open Scope Z_scope.

Definition TUI_MAX_WINDOWS : nat := 32.
Definition LOG_LINES : nat := 500.

(** [struct tui_window]; [input_history] holds [history_count] lines. *)
Record window := Window {
  w_addr : Z;
  title : bstr;
  status_line : bstr;
  buffer : list (option bstr);
  log_head : Z;
  log_count : Z;
  scroll_offset : Z;
  input_history : list bstr;
  history_index : Z }.

(** [tui_windows] up to [tui_num_windows]; [next_addr] is what [calloc] returns next. *)
Record tui := Tui {
  tui_windows : list window;
  tui_active_win : Z;
  next_addr : Z;
  tui_is_enabled : bool;
  cfg_tui_colors : bool;
  term_rows : Z;
  term_cols : Z }.

Definition set_windows (ws : list window) (st : tui) : tui :=
  Tui ws (tui_active_win st) (next_addr st) (tui_is_enabled st) (cfg_tui_colors st) (term_rows st) (term_cols st).
Definition set_active (i : Z) (st : tui) : tui :=
  Tui (tui_windows st) i (next_addr st) (tui_is_enabled st) (cfg_tui_colors st) (term_rows st) (term_cols st).
Definition tui_num_windows (st : tui) : Z := Z.of_nat (length (tui_windows st)).

Definition set_scroll (o : Z) (w : window) : window :=
  Window (w_addr w) (title w) (status_line w) (buffer w) (log_head w) (log_count w) o (input_history w) (history_index w).
Definition set_history (h : list bstr) (i : Z) (w : window) : window :=
  Window (w_addr w) (title w) (status_line w) (buffer w) (log_head w) (log_count w) (scroll_offset w) h i.

(** Changing the window at an address. *)
Definition update (addr : Z) (f : window -> window) (st : tui) : tui :=
  set_windows (map (fun w => if w_addr w =? addr then f w else w) (tui_windows st)) st.

(** ** Rows of a line *)

(** [csi]: inside a sequence, after its bracket or before it. *)
Inductive row_mode := RText | RBracket | RSequence.

Definition final_byte (c : ascii) : bool := (64 <=? code c) && (code c <=? 126).

Fixpoint line_rows (mode : row_mode) (rows col width : Z) (s : bstr) : Z :=
  match s with
  | [] => rows
  | c :: s' =>
      match mode with
      | RBracket => line_rows RSequence rows col width s'
      | RSequence => line_rows (if final_byte c then RText else RSequence) rows col width s'
      | RText =>
          if bool_decide (c = ESC) && starts_with s' "["%char then line_rows RBracket rows col width s'
          else if bool_decide (c = LF) then line_rows RText (rows + 1) 0 width s'
          else if width <? col + 1 then line_rows RText (rows + 1) 1 width s'
          else line_rows RText rows (col + 1) width s'
      end
  end.

Definition tui_line_rows (s : option bstr) (width : Z) : Z :=
  match s with
  | None => 1
  | Some s => if width <=? 0 then 1 else line_rows RText 1 0 width s
  end.

(** ** Scrollback *)

Definition tui_scrollback_appended (st : tui) (line : bstr) (w : window) : window :=
  if 0 <? scroll_offset w then set_scroll (scroll_offset w + tui_line_rows (Some line) (term_cols st)) w else w.

(** The line takes the place of the oldest one when the ring is full. *)
Definition append_line (st : tui) (line : bstr) (w : window) : window :=
  let w := tui_scrollback_appended st line w in
  Window (w_addr w) (title w) (status_line w) (<[Z.to_nat (log_head w) := Some line]> (buffer w))
    (Z.rem (log_head w + 1) (Z.of_nat LOG_LINES))
    (if log_count w <? Z.of_nat LOG_LINES then log_count w + 1 else log_count w)
    (scroll_offset w) (input_history w) (history_index w).

(** The lines in the order of the loop that draws them, oldest first. *)
Definition shown_lines (w : window) : list (option bstr) :=
  let oldest := Z.rem (log_head w + Z.of_nat LOG_LINES - log_count w) (Z.of_nat LOG_LINES) in
  map (fun i => mjoin (buffer w !! Z.to_nat (Z.rem (oldest + Z.of_nat i) (Z.of_nat LOG_LINES)))) (seq 0 (Z.to_nat (log_count w))).

Definition total_rows (width : Z) (w : window) : Z :=
  foldr (fun l n => match l with Some s => tui_line_rows (Some s) width + n | None => n end) 0 (shown_lines w).

Definition max_scroll (st : tui) (w : window) : Z :=
  let area := term_rows st - 3 in
  if area <? total_rows (term_cols st) w then total_rows (term_cols st) w - area else 0.

Definition clamp_scroll (st : tui) (w : window) : window :=
  if scroll_offset w <? 0 then set_scroll 0 w
  else if max_scroll st w <? scroll_offset w then set_scroll (max_scroll st w) w else w.

(** The row, counted from the oldest, at the top of the log area. *)
Definition target_row (st : tui) (w : window) : Z :=
  let t := total_rows (term_cols st) w - (term_rows st - 3) - scroll_offset w in if t <? 0 then 0 else t.

(** ** The window list *)

Definition new_window (addr : Z) (t : bstr) : window :=
  Window addr (strlcpy t 64) (take 127 t) (replicate LOG_LINES None) 0 0 0 [] 0.

Definition find_title (st : tui) (t : bstr) : option window := List.find (fun w => strcaseeq (title w) t) (tui_windows st).

(** The text of NULL and the empty title is [status]. *)
Definition tui_window_find (st : tui) (t : option bstr) : option window :=
  find_title st (match t with None | Some [] => B "status" | Some t => t end).

(** The window of [tui_window_create] when none is found and there is room. *)
Definition add_window (t : bstr) (st : tui) : window * tui :=
  let w := new_window (next_addr st) t in
  (w, Tui (tui_windows st ++ [w]) (tui_active_win st) (next_addr st + 1) (tui_is_enabled st) (cfg_tui_colors st) (term_rows st) (term_cols st)).

Definition tui_active_window (st : tui) : option window * tui :=
  let st := match tui_windows st with [] => set_active 0 (add_window (B "status") st).2 | _ => st end in
  let st := if (tui_active_win st <? 0) || (tui_num_windows st <=? tui_active_win st) then set_active (tui_num_windows st - 1) st else st in
  (tui_windows st !! Z.to_nat (tui_active_win st), st).

(** Drawing the active window. *)
Definition tui_redraw_screen (st : tui) : tui :=
  if negb (tui_is_enabled st) then st
  else
    let '(w, st) := tui_active_window st in
    match w with Some w => update (w_addr w) (clamp_scroll st) st | None => st end.

(** [text] is the formatted message; [pending]: no redraw is deferred. *)
Definition tui_print (st : tui) (pending : bool) (addr : option Z) (text : bstr) : tui :=
  match addr with
  | None => st
  | Some addr =>
      if negb (tui_is_enabled st) then st
      else
        match tui_colorize_string (cfg_tui_colors st) true true (Some (take 2047 text)) with
        | None => st
        | Some line =>
            let st := update addr (append_line st line) st in
            let '(w, st) := tui_active_window st in
            match w with
            | Some w => if (w_addr w =? addr) && pending then tui_redraw_screen st else st
            | None => st
            end
        end
  end.

(** [None] is NULL, for which a title is required. *)
Definition tui_window_create (st : tui) (pending : bool) (t : bstr) : option Z * tui :=
  match tui_window_find st (Some t) with
  | Some w => (Some (w_addr w), st)
  | None =>
      if (TUI_MAX_WINDOWS <=? length (tui_windows st))%nat then
        let '(w, st) := tui_active_window st in
        (None, tui_print st pending (w_addr <$> w) (B "No more windows available: TUI_MAX_WINDOWS: 32"))
      else let '(w, st) := add_window t st in (Some (w_addr w), st)
  end.

Fixpoint index_where (p : window -> bool) (ws : list window) : option nat :=
  match ws with
  | [] => None
  | w :: ws => if p w then Some O else S <$> index_where p ws
  end.

Definition tui_window_focus (st : tui) (t : option bstr) : option Z * tui :=
  match t with
  | None => (None, st)
  | Some t =>
      match index_where (fun w => streq (title w) t) (tui_windows st) with
      | Some i => (w_addr <$> tui_windows st !! i, set_active (Z.of_nat i) st)
      | None => (None, st)
      end
  end.

(** The active index after the window at [destroyed] is gone. *)
Definition next_active (active num destroyed : Z) : Z :=
  if (num <=? active) || (active =? destroyed) then (if 0 <? destroyed then destroyed - 1 else 0)
  else if destroyed <? active then active - 1 else active.

(** [true] is failure. *)
Definition tui_window_destroy (st : tui) (pending : bool) (w : option window) : bool * tui :=
  match w with
  | None => (true, st)
  | Some w =>
      if strcaseeq (title w) (B "status") then
        let '(a, st) := tui_active_window st in
        (false, tui_print st pending (w_addr <$> a) ([chr 3] ++ B "04*** Can't destroy status window! ***" ++ [chr 15] ++ B "."))
      else
        match index_where (fun x => w_addr x =? w_addr w) (tui_windows st) with
        | None => (true, st)
        | Some i =>
            let st := tui_print st pending (w_addr <$> tui_window_find st (Some (B "status")))
                        (B "* Closed window " ++ print_dec (Z.of_nat i) ++ B " (" ++ title w ++ B ")") in
            let st := set_windows (take i (tui_windows st) ++ drop (S i) (tui_windows st)) st in
            let st := set_active (next_active (tui_active_win st) (tui_num_windows st) (Z.of_nat i)) st in
            (false, match tui_windows st !! Z.to_nat (tui_active_win st) with
                    | Some a => (tui_window_focus st (Some (title a))).2
                    | None => tui_redraw_screen st
                    end)
        end
  end.

(** [text]: the message about an invalid number. *)
Definition tui_window_destroy_id (st : tui) (pending : bool) (id : Z) : bool * tui :=
  if (id <? 1) || (tui_num_windows st <? id) then
    let '(a, st') := tui_active_window st in
    (true, tui_print st' pending (w_addr <$> a)
             ([chr 3] ++ B "04Invalid window " ++ print_dec id ++ B ", must be between 2 and " ++ print_dec (tui_num_windows st) ++ [chr 15] ++ B "."))
  else
    match tui_windows st !! Z.to_nat (id - 1) with
    | Some w => tui_window_destroy st pending (Some w)
    | None => (true, st)
    end.

Definition tui_window_focus_id (st : tui) (pending : bool) (id : Z) : option Z * tui :=
  if (id <? 1) || (tui_num_windows st <? id) then
    let '(a, st') := tui_active_window st in
    (None, tui_print st' pending (w_addr <$> a)
             ([chr 3] ++ B "04Invalid window " ++ print_dec id ++ B ", must be between 1 and " ++ print_dec (tui_num_windows st) ++ [chr 15] ++ B "."))
  else
    match tui_windows st !! Z.to_nat (id - 1) with
    | Some w => tui_window_focus st (Some (title w))
    | None => (None, st)
    end.

Definition tui_window_init (st : tui) : tui :=
  match tui_windows st with
  | [] => set_active 0 (add_window (B "status") st).2
  | _ => st
  end.

Definition tui_window_fini (st : tui) : tui := set_active 0 (set_windows [] st).

(** Focus the window at an index, and draw. *)
Definition focus_index (st : tui) (i : Z) : tui :=
  match tui_windows st !! Z.to_nat i with
  | Some w => tui_redraw_screen (tui_window_focus st (Some (title w))).2
  | None => st
  end.

Definition tui_window_swap (st : tui) (key : Z) : tui :=
  let num := if key =? 48 then 9 else key - 49 in
  if (0 <=? num) && (num <? tui_num_windows st) then focus_index st num else st.

Definition handle_alt_left (st : tui) : tui :=
  if 0 <? tui_num_windows st then focus_index st (Z.rem (tui_active_win st - 1 + tui_num_windows st) (tui_num_windows st)) else st.

Definition handle_alt_right (st : tui) : tui :=
  if 0 <? tui_num_windows st then focus_index st (Z.rem (tui_active_win st + 1) (tui_num_windows st)) else st.

Definition clear_window (w : window) : window :=
  Window (w_addr w) (title w) (status_line w) (replicate LOG_LINES None) 0 0 0 (input_history w) (history_index w).

Definition tui_clear_scrollback (st : tui) (addr : option Z) : bool * tui :=
  match addr with
  | None => (true, st)
  | Some addr => (false, tui_redraw_screen (update addr clear_window st))
  end.

(** ** Paging *)

Definition page_size (st : tui) : Z := if term_rows st - 3 <? 1 then 1 else term_rows st - 3.

Definition page_up (st : tui) (w : window) : window :=
  let page := page_size st in
  let limit := if page <? log_count w then log_count w - page else 0 in
  set_scroll (if limit <? scroll_offset w + page then limit else scroll_offset w + page) w.

Definition page_down (st : tui) (w : window) : window :=
  let page := page_size st in set_scroll (if scroll_offset w - page <? 0 then 0 else scroll_offset w - page) w.

Definition handle_pgup (st : tui) : tui :=
  let '(w, st) := tui_active_window st in
  match w with Some w => tui_redraw_screen (update (w_addr w) (page_up st) st) | None => st end.

Definition handle_pgdn (st : tui) : tui :=
  let '(w, st) := tui_active_window st in
  match w with Some w => tui_redraw_screen (update (w_addr w) (page_down st) st) | None => st end.
