(* ===== verification/TuiWindowSpec.v ===== *)
(** * What holds of the windows

    The lines a window shows, the row that a scrolled window stays at, the
    invariant of the window list under every operation, and which window is
    active after one is closed. *)

From S2P Require Import Prelude CString ConfigText Util TuiText TuiWindow.

#[local] Open Scope Z_scope.

(** ** The ring of lines *)

(** The window holds the lines [ls], oldest first. *)
Record holds (w : window) (ls : list bstr) : Prop := {
  hold_size : length (buffer w) = LOG_LINES;
  hold_head : 0 <= log_head w < 500;
  hold_count : log_count w = Z.of_nat (length ls);
  hold_bound : (length ls <= LOG_LINES)%nat;
  hold_lines : shown_lines w = map Some ls;
  hold_spare : (length ls < LOG_LINES)%nat ->
    log_head w = Z.of_nat (length ls) /\ forall i, (length ls <= i < LOG_LINES)%nat -> buffer w !! i = Some None }.

(** The newest [n] of the lines. *)
Definition newest (n : nat) (ls : list bstr) : list bstr := drop (length ls - n) ls.

Lemma newest_snoc n ls l : (0 < n)%nat -> newest n (newest n ls ++ [l]) = newest n (ls ++ [l]).
Proof.
  intros Hn. unfold newest. rewrite !length_app, length_drop. cbn [length].
  destruct (decide (length ls < n)%nat) as [Hl | Hl].
  - replace (length ls - n)%nat with O by lia. rewrite drop_0. f_equal. lia.
  - rewrite !drop_app_le by (rewrite ?length_drop; lia). rewrite drop_drop. f_equal. f_equal. lia.
Qed.

Lemma newest_length n ls : length (newest n ls) = (length ls `min` n)%nat.
Proof. unfold newest. rewrite length_drop. lia. Qed.

Definition slot (w : window) (i : nat) : nat := Z.to_nat ((log_head w + 500 - log_count w + Z.of_nat i) mod 500).

Lemma shown_lookup w i : 0 <= log_head w < 500 -> 0 <= log_count w <= 500 -> (i < Z.to_nat (log_count w))%nat ->
  shown_lines w !! i = Some (mjoin (buffer w !! slot w i)).
Proof.
  intros Hh Hc Hi. unfold shown_lines. rewrite list_lookup_fmap, lookup_seq_lt by done. cbn. do 3 f_equal. unfold slot.
  replace (Z.of_nat LOG_LINES) with 500 by done. f_equal. Z.to_euclidean_division_equations. lia.
Qed.

Lemma shown_length w : length (shown_lines w) = Z.to_nat (log_count w).
Proof. unfold shown_lines. by rewrite length_map, length_seq. Qed.

Lemma append_holds st l w ls : holds w ls -> holds (append_line st l w) (newest LOG_LINES (ls ++ [l])).
Proof.
  intros [Hsz Hh Hc Hb Hs Hsp].
  set (w' := append_line st l w).
  assert (Hbuf : buffer w' = <[Z.to_nat (log_head w) := Some l]> (buffer w)).
  { unfold w', append_line, tui_scrollback_appended. by destruct (0 <? scroll_offset w). }
  assert (Hhead : log_head w' = (log_head w + 1) mod 500).
  { unfold w', append_line, tui_scrollback_appended. destruct (0 <? scroll_offset w); cbn; apply Z.rem_mod_nonneg; lia. }
  assert (Hcnt : log_count w' = if log_count w <? 500 then log_count w + 1 else log_count w).
  { unfold w', append_line, tui_scrollback_appended. by destruct (0 <? scroll_offset w). }
  unfold LOG_LINES in *. assert (Hlen : log_count w' = Z.of_nat (length (newest 500 (ls ++ [l])))).
  { rewrite newest_length, length_app, Hcnt, Hc. cbn [length]. destruct (Z.ltb_spec (Z.of_nat (length ls)) 500); lia. }
  split; rewrite ?newest_length.
  - rewrite Hbuf, length_insert. exact Hsz.
  - rewrite Hhead. apply Z.mod_pos_bound. lia.
  - rewrite Hlen, newest_length. reflexivity.
  - unfold LOG_LINES. lia.
  - apply list_eq. intros i. destruct (decide (i < Z.to_nat (log_count w'))%nat) as [Hi | Hi].
    2: { rewrite !lookup_ge_None_2; [done | rewrite length_map; lia | rewrite shown_length; lia]. }
    rewrite shown_lookup; [| rewrite Hhead; apply Z.mod_pos_bound; lia | rewrite Hlen, newest_length; lia | done].
    rewrite list_lookup_fmap. unfold newest. rewrite lookup_drop, length_app. cbn [length].
    set (d := (length ls + 1 - 500)%nat).
    assert (Hslot : slot w' i = Z.to_nat ((log_head w + 500 - log_count w + Z.of_nat (d + i)) mod 500)).
    { unfold slot. f_equal. rewrite Hhead, Hcnt. unfold d. destruct (Z.ltb_spec (log_count w) 500);
        [replace (length ls + 1 - 500)%nat with O by lia | replace (length ls) with 500%nat by lia];
        Z.to_euclidean_division_equations; lia. }
    rewrite Hslot, Hbuf. destruct (decide (d + i = length ls)%nat) as [Heq | Hne].
    + rewrite Heq, lookup_app_r, Nat.sub_diag by done. cbn [lookup list_lookup fmap option_fmap option_map].
      replace (Z.to_nat _) with (Z.to_nat (log_head w)) by (f_equal; rewrite Hc; Z.to_euclidean_division_equations; lia).
      rewrite list_lookup_insert_eq by lia. done.
    + rewrite newest_length, length_app in Hlen. cbn [length] in Hlen.
      assert ((d + i < length ls)%nat) by (unfold d in *; lia).
      rewrite lookup_app_l by done. rewrite list_lookup_insert_ne by (rewrite Hc; Z.to_euclidean_division_equations; lia).
      fold (slot w (d + i)). pose proof (shown_lookup w (d + i) Hh ltac:(lia) ltac:(lia)) as Hold.
      rewrite Hs, list_lookup_fmap in Hold. rewrite <- Hold. done.
  - rewrite length_app. cbn [length]. unfold LOG_LINES. intros Hn. destruct Hsp as [He Hn']; [lia |]. rewrite Hhead, He. split; [rewrite Z.mod_small by lia; lia |].
    intros i Hi. rewrite Hbuf, list_lookup_insert_ne by lia. apply Hn'. lia.
Qed.

Lemma prints_hold st lines w ls : holds w ls -> holds (foldl (fun w l => append_line st l w) w lines) (newest LOG_LINES (ls ++ lines)).
Proof.
  revert w ls. induction lines as [| l lines IH] using rev_ind; intros w ls Hw; cbn.
  - rewrite app_nil_r. unfold newest. pose proof (hold_bound _ _ Hw). by rewrite (proj2 (Nat.sub_0_le _ _)) by done.
  - rewrite foldl_app. cbn. rewrite app_assoc, <- newest_snoc by (unfold LOG_LINES; lia). by apply append_holds, IH.
Qed.

Lemma empty_holds w : buffer w = replicate LOG_LINES None -> log_head w = 0 -> log_count w = 0 -> holds w [].
Proof.
  intros Hb Hh Hc. split; rewrite ?Hb, ?Hh, ?Hc; try done.
  - apply Nat.le_0_l.
  - unfold shown_lines. by rewrite Hc.
  - intros _. split; [done |]. intros i Hi. apply lookup_replicate_2. lia.
Qed.

(** A window shows the last 500 lines printed to it, in order, whatever was
    printed before; clearing it starts again. *)
Theorem scrollback_keeps_latest st addr t (lines : list bstr) :
  shown_lines (foldl (fun w l => append_line st l w) (new_window addr t) lines) = map Some (newest LOG_LINES lines) /\
  (forall w, shown_lines (foldl (fun w l => append_line st l w) (clear_window w) lines) = map Some (newest LOG_LINES lines)).
Proof.
  split; [| intros w]; refine (hold_lines _ _ (prints_hold st lines _ [] _)); by apply empty_holds.
Qed.

(** ** Rows and scrolling *)

Definition rows_of (width : Z) (ls : list bstr) : Z := foldr (fun l n => tui_line_rows (Some l) width + n) 0 ls.

Lemma rows_of_app width a b : rows_of width (a ++ b) = rows_of width a + rows_of width b.
Proof. unfold rows_of. induction a as [| l a IH]; cbn in *; lia. Qed.

Lemma total_rows_holds width w ls : holds w ls -> total_rows width w = rows_of width ls.
Proof.
  intros Hw. unfold total_rows. rewrite (hold_lines _ _ Hw). unfold rows_of. clear Hw. induction ls as [| l ls IH]; cbn in *; [done |]. by rewrite IH.
Qed.

Lemma line_rows_mono mode rows col width s : rows <= line_rows mode rows col width s.
Proof.
  revert mode rows col. induction s as [| c s IH]; intros mode rows col; cbn; [lia |].
  destruct mode; try apply IH.
  destruct (_ && _); [apply IH |]. destruct (bool_decide _); [etrans; [| apply IH]; lia |].
  destruct (_ <? _); [etrans; [| apply IH]; lia | apply IH].
Qed.

Lemma line_rows_pos l width : 1 <= tui_line_rows l width.
Proof. destruct l; cbn; [| done]. case_match; [done |]. apply line_rows_mono. Qed.

Lemma rows_of_count width ls : Z.of_nat (length ls) <= rows_of width ls.
Proof. induction ls as [| l ls IH]; cbn [rows_of foldr length]; [done |]. pose proof (line_rows_pos (Some l) width). unfold rows_of in IH. lia. Qed.

(** The row at the top of the log area, before it is limited. *)
Definition top_row (st : tui) (w : window) : Z := total_rows (term_cols st) w - (term_rows st - 3) - scroll_offset w.

(** The lines that the next line pushes out. *)
Definition evicted (ls : list bstr) : list bstr := take (length ls + 1 - LOG_LINES) ls.

Lemma append_scroll st l w :
  scroll_offset (append_line st l w) = if 0 <? scroll_offset w then scroll_offset w + tui_line_rows (Some l) (term_cols st) else scroll_offset w.
Proof. unfold append_line, tui_scrollback_appended. by destruct (0 <? _). Qed.

Lemma append_rows st l w ls width : holds w ls ->
  total_rows width (append_line st l w) = total_rows width w - rows_of width (evicted ls) + tui_line_rows (Some l) width.
Proof.
  intros Hw. rewrite (total_rows_holds _ _ _ Hw), (total_rows_holds _ _ _ (append_holds st l w ls Hw)).
  pose proof (hold_bound _ _ Hw). unfold newest, evicted. rewrite length_app. cbn [length].
  rewrite drop_app_le by (unfold LOG_LINES in *; lia). rewrite rows_of_app.
  pose proof (rows_of_app width (take (length ls + 1 - LOG_LINES) ls) (drop (length ls + 1 - LOG_LINES) ls)) as Hsplit.
  rewrite take_drop in Hsplit. cbn [rows_of foldr]. lia.
Qed.

(** While a window is scrolled back, a new line leaves the same rows on the
    screen: the top row moves only with the rows of the line pushed out.  A window
    at the bottom stays there, and drawing keeps the offset within the rows there
    are. *)
Theorem scrolled_window_stays st w ls l (Hw : holds w ls) (Ho : 0 <= scroll_offset w) :
  let w' := append_line st l w in
  (0 < scroll_offset w -> top_row st w' = top_row st w - rows_of (term_cols st) (evicted ls)) /\
  (scroll_offset w = 0 -> scroll_offset w' = 0 /\ target_row st w' = max_scroll st w') /\
  0 <= scroll_offset (clamp_scroll st w') <= max_scroll st w' /\
  (0 <= top_row st w' -> clamp_scroll st w' = w') /\
  shown_lines (clamp_scroll st w') = shown_lines w'.
Proof.
  cbv zeta. pose proof (append_scroll st l w) as Hs. pose proof (append_rows st l w ls (term_cols st) Hw) as Hr.
  set (w' := append_line st l w) in *. clearbody w'. pose proof (line_rows_pos (Some l) (term_cols st)).
  assert (Hm : 0 <= max_scroll st w') by (unfold max_scroll; destruct (Z.ltb_spec (term_rows st - 3) (total_rows (term_cols st) w')); lia).
  assert (Hn : 0 <= scroll_offset w') by (rewrite Hs; destruct (0 <? scroll_offset w); lia).
  split_and!.
  - intros Hp. rewrite (proj2 (Z.ltb_lt _ _) Hp) in Hs. unfold top_row. lia.
  - intros Hz. rewrite Hz, (Z.ltb_irrefl 0) in Hs. split; [done |]. unfold target_row, max_scroll. rewrite Hs. clear.
    destruct (Z.ltb_spec (term_rows st - 3) (total_rows (term_cols st) w')), (Z.ltb_spec (total_rows (term_cols st) w' - (term_rows st - 3) - 0) 0); lia.
  - clear Hs. unfold clamp_scroll. repeat case_match; cbn; lia.
  - clear Hs. unfold clamp_scroll. repeat case_match; cbn; lia.
  - intros Ht. clear Hs. unfold clamp_scroll, top_row, max_scroll in *. rewrite (proj2 (Z.ltb_ge _ _) Hn).
    destruct (Z.ltb_spec (term_rows st - 3) (total_rows (term_cols st) w')); case_match; try done; lia.
  - clear Hs. unfold clamp_scroll. by repeat case_match.
Qed.

Lemma scrolled_window_stays_witness : exists w w' : window,
  scroll_offset w = 7 /\ scroll_offset w' = 9 /\ top_row (Tui [] 0 1 true true 24 80) w' = top_row (Tui [] 0 1 true true 24 80) w.
Proof.
  set (st := Tui [] 0 1 true true 24 80).
  exists (set_scroll 7 (new_window 1 (B "a"))), (append_line st (repeat "x"%char 90) (set_scroll 7 (new_window 1 (B "a")))).
  split; [reflexivity |]. split; [vm_compute; reflexivity |].
  destruct (scrolled_window_stays st (set_scroll 7 (new_window 1 (B "a"))) [] (repeat "x"%char 90)) as [H _].
  - apply empty_holds; reflexivity.
  - vm_compute; discriminate.
  - rewrite H by (vm_compute; reflexivity). vm_compute. reflexivity.
Defined.

(** The offset that Page Up stops at: it counts lines, not rows. *)
Definition page_limit (st : tui) (w : window) : Z := Z.max 0 (log_count w - page_size st).

Lemma page_up_scroll st w : scroll_offset (page_up st w) = Z.min (page_limit st w) (scroll_offset w + page_size st).
Proof. unfold page_up, page_limit. cbn. repeat case_match; lia. Qed.

Lemma page_up_same st w : log_count (page_up st w) = log_count w /\ forall width, total_rows width (page_up st w) = total_rows width w.
Proof. done. Qed.

Lemma page_size_pos st : 1 <= page_size st.
Proof. unfold page_size. case_match; lia. Qed.

Lemma pages_up_scroll st w n : 0 <= scroll_offset w ->
  scroll_offset (Nat.iter (S n) (page_up st) w) = Z.min (page_limit st w) (scroll_offset w + Z.of_nat (S n) * page_size st).
Proof.
  intros Hs. pose proof (page_size_pos st) as Hp. induction n as [| n IH]; [cbn [Nat.iter nat_rect]; rewrite page_up_scroll; lia |].
  change (Nat.iter (S (S n)) (page_up st) w) with (page_up st (Nat.iter (S n) (page_up st) w)).
  rewrite page_up_scroll, IH. replace (page_limit st (Nat.iter (S n) (page_up st) w)) with (page_limit st w); [nia |].
  unfold page_limit. f_equal. f_equal. clear. induction (S n) as [| m IH]; [done |]. exact IH.
Qed.

Lemma pages_up_rows st w n width : total_rows width (Nat.iter n (page_up st) w) = total_rows width w.
Proof. induction n as [| n IH]; [done |]. exact IH. Qed.

(** Page Up stops where as many lines are left as the screen has rows, and
    drawing leaves the offset as it is.  Lines that wrap take more rows, so the
    rows beyond one per line are above the reach of Page Up: the top is reached
    exactly if the rows are no more than the lines, or fit the screen.  A window
    above the limit moves down to it. *)
Theorem page_up_reach st w ls (Hw : holds w ls) (Ho : 0 <= scroll_offset w) (Ha : 4 <= term_rows st) :
  let top := Nat.iter (S (length ls)) (page_up st) w in
  scroll_offset top = page_limit st w /\ clamp_scroll st top = top /\
  target_row st top = Z.max 0 (total_rows (term_cols st) w - Z.max (page_size st) (Z.of_nat (length ls))) /\
  (page_limit st w < scroll_offset w -> scroll_offset (page_up st w) < scroll_offset w) /\
  scroll_offset (page_down st w) = Z.max 0 (scroll_offset w - page_size st).
Proof.
  cbv zeta. pose proof (pages_up_scroll st w (length ls) Ho) as Hs. pose proof (pages_up_rows st w (S (length ls)) (term_cols st)) as Hr.
  pose proof (page_size_pos st). pose proof (rows_of_count (term_cols st) ls) as Hc. rewrite <- (total_rows_holds _ _ _ Hw) in Hc.
  assert (Hl : page_limit st w = Z.max 0 (Z.of_nat (length ls) - page_size st)) by (unfold page_limit; by rewrite (hold_count _ _ Hw)).
  assert (Hp : page_size st = term_rows st - 3) by (unfold page_size; case_match; lia).
  set (top := Nat.iter (S (length ls)) (page_up st) w) in *. clearbody top.
  assert (Hst : scroll_offset top = page_limit st w) by nia. split_and!.
  - done.
  - unfold clamp_scroll, max_scroll. rewrite Hr, Hst, Hl, Hp in *. repeat case_match; try done; lia.
  - unfold target_row. rewrite Hr, Hst, Hl, Hp. case_match; lia.
  - rewrite page_up_scroll. lia.
  - unfold page_down. cbn. case_match; lia.
Qed.

Lemma page_up_reach_witness :
  target_row (Tui [] 0 1 true true 5 10)
    (Nat.iter 4 (page_up (Tui [] 0 1 true true 5 10))
       (foldl (fun w l => append_line (Tui [] 0 1 true true 5 10) l w) (new_window 1 (B "a")) [B "aaaaaaaaaaaaaaaaaaaa"; B "b"; B "cccccccccccc"])) = 2.
Proof.
  set (st := Tui [] 0 1 true true 5 10). set (ls := [B "aaaaaaaaaaaaaaaaaaaa"; B "b"; B "cccccccccccc"]).
  destruct (page_up_reach st (foldl (fun w l => append_line st l w) (new_window 1 (B "a")) ls) ls) as (_ & _ & H & _).
  - exact (prints_hold st ls _ [] (empty_holds (new_window 1 (B "a")) eq_refl eq_refl eq_refl)).
  - vm_compute. discriminate.
  - vm_compute. discriminate.
  - etrans; [exact H |]. vm_compute. reflexivity.
Defined.

(** ** The window list *)

(** At most 50 lines of history, and the place in it. *)
Definition history_ok (w : window) : Prop :=
  (length (input_history w) <= 50)%nat /\ -1 <= history_index w <= Z.of_nat (length (input_history w)).

Definition window_ok (w : window) : Prop := (exists ls, holds w ls) /\ 0 <= scroll_offset w /\ history_ok w.

(** What drawing and printing leave alone. *)
Definition identity (st : tui) : list (Z * bstr) * Z * Z := (map (fun w => (w_addr w, title w)) (tui_windows st), tui_active_win st, next_addr st).

Record tui_ok (st : tui) : Prop := {
  ok_bound : (length (tui_windows st) <= TUI_MAX_WINDOWS)%nat;
  ok_addrs : NoDup (map w_addr (tui_windows st));
  ok_fresh : Forall (fun a => a < next_addr st) (map w_addr (tui_windows st));
  ok_windows : Forall window_ok (tui_windows st);
  ok_active : 0 <= tui_active_win st < tui_num_windows st;
  ok_status : strcaseeq (default [] (map title (tui_windows st) !! 0%nat)) (B "status") = true }.

Lemma identity_parts st st' : identity st = identity st' ->
  map w_addr (tui_windows st) = map w_addr (tui_windows st') /\ map title (tui_windows st) = map title (tui_windows st') /\
  tui_active_win st = tui_active_win st' /\ next_addr st = next_addr st' /\ length (tui_windows st) = length (tui_windows st').
Proof.
  unfold identity. intros [= Hm Ha Hn]. split_and!; try done.
  - apply (f_equal (map fst)) in Hm. by rewrite !map_map in Hm.
  - apply (f_equal (map snd)) in Hm. by rewrite !map_map in Hm.
  - apply (f_equal length) in Hm. by rewrite !length_map in Hm.
Qed.

Lemma ok_identity st st' : identity st = identity st' -> Forall window_ok (tui_windows st') -> tui_ok st -> tui_ok st'.
Proof.
  intros Hi Hw [H1 H2 H3 _ H5 H6]. destruct (identity_parts _ _ Hi) as (Ha & Ht & Hac & Hn & Hl).
  unfold tui_num_windows in *. split; unfold tui_num_windows; by rewrite <- ?Hl, <- ?Ha, <- ?Hac, <- ?Hn, <- ?Ht.
Qed.

Definition keeps (f : window -> window) : Prop :=
  forall w, window_ok w -> window_ok (f w) /\ w_addr (f w) = w_addr w /\ title (f w) = title w.

Lemma update_ok addr f st : keeps f -> tui_ok st -> tui_ok (update addr f st) /\ identity (update addr f st) = identity st.
Proof.
  intros Hf Hst. assert (Hw := ok_windows _ Hst).
  assert (Hi : identity (update addr f st) = identity st).
  { unfold identity. cbn. f_equal. f_equal. rewrite map_map. apply map_ext_in. intros w Hin.
    apply list_elem_of_In in Hin. rewrite Forall_forall in Hw. destruct (Hf w (Hw w Hin)) as (_ & Ha & Ht).
    case_match; [by rewrite Ha, Ht | done]. }
  split; [| done]. apply (ok_identity st); [done | | done].
  cbn. apply (proj2 (Forall_map _ _ _)). eapply Forall_impl; [done |]. intros w Hok. cbn. case_match; [by apply Hf | done].
Qed.

Lemma append_keeps st l : keeps (append_line st l).
Proof.
  intros w ([ls Hls] & Hs & Hh). split; [split_and! |].
  - eexists. by apply append_holds.
  - rewrite append_scroll. pose proof (line_rows_pos (Some l) (term_cols st)). case_match; lia.
  - unfold append_line, tui_scrollback_appended. by case_match.
  - unfold append_line, tui_scrollback_appended. by case_match.
Qed.

Lemma scroll_keeps (o : window -> Z) : (forall w, 0 <= scroll_offset w -> 0 <= o w) -> keeps (fun w => set_scroll (o w) w).
Proof.
  intros Ho w ([ls [H1 H2 H3 H4 H5]] & Hs & Hh). split; [| done]. split_and!; [exists ls; by split | by apply Ho | done].
Qed.

Lemma clamp_keeps st : keeps (clamp_scroll st).
Proof.
  intros w Hw. unfold clamp_scroll. case_match; [by apply (scroll_keeps (fun _ => 0)) |].
  case_match; [| done]. apply (scroll_keeps (fun _ => max_scroll st w)); [| done]. intros _ _. unfold max_scroll. case_match; lia.
Qed.

Lemma page_up_keeps st : keeps (page_up st).
Proof.
  intros w Hw. unfold page_up. pose proof (page_size_pos st).
  apply (scroll_keeps (fun w => if _ <? scroll_offset w + page_size st then _ else scroll_offset w + page_size st)); [| done].
  intros x Hx. repeat case_match; lia.
Qed.

Lemma page_down_keeps st : keeps (page_down st).
Proof. apply (scroll_keeps (fun w => if scroll_offset w - page_size st <? 0 then 0 else scroll_offset w - page_size st)). intros w Hw. case_match; lia. Qed.

Lemma clear_keeps : keeps clear_window.
Proof. intros w (_ & _ & Hh). split; [| done]. split_and!; [exists []; by apply empty_holds | done | done]. Qed.

Create HintDb tui.
#[local] Hint Resolve append_keeps clamp_keeps page_up_keeps page_down_keeps clear_keeps : tui.

Lemma active_window_ok st : tui_ok st -> exists w, tui_active_window st = (Some w, st) /\ tui_windows st !! Z.to_nat (tui_active_win st) = Some w.
Proof.
  intros Hst. pose proof (ok_active _ Hst) as Ha. unfold tui_num_windows in Ha.
  destruct (lookup_lt_is_Some_2 (tui_windows st) (Z.to_nat (tui_active_win st)) ltac:(lia)) as [w Hw]. exists w. split; [| done].
  unfold tui_active_window. destruct (tui_windows st) as [| x ws] eqn:Hws; [cbn in Ha; lia |].
  unfold tui_num_windows. rewrite Hws. rewrite (proj2 (Z.ltb_ge _ _)), (proj2 (Z.leb_gt _ _)) by lia. cbn [orb]. by rewrite Hws, Hw.
Qed.

Lemma redraw_ok st : tui_ok st -> tui_ok (tui_redraw_screen st) /\ identity (tui_redraw_screen st) = identity st.
Proof.
  intros Hst. unfold tui_redraw_screen. destruct (tui_is_enabled st); cbn [negb]; [| done].
  destruct (active_window_ok st Hst) as (w & -> & _). apply update_ok; auto with tui.
Qed.

Lemma print_ok st pending addr text : tui_ok st -> tui_ok (tui_print st pending addr text) /\ identity (tui_print st pending addr text) = identity st.
Proof.
  intros Hst. unfold tui_print. destruct addr as [addr |]; [| done]. destruct (tui_is_enabled st) eqn:He; cbn [negb]; [| done].
  destruct (tui_colorize_string _ _ _ _) as [line |]; [| done].
  destruct (update_ok addr (append_line st line) st (append_keeps _ _) Hst) as [Hu Hi].
  destruct (active_window_ok _ Hu) as (w & -> & _). destruct ((w_addr w =? addr) && pending); [| done].
  destruct (redraw_ok _ Hu) as [H1 H2]. by rewrite H2.
Qed.

Lemma created_window_ok addr t : window_ok (new_window addr t).
Proof. split_and!; [exists []; by apply empty_holds | done | split; cbn; lia]. Qed.

Lemma index_where_lookup p ws i : index_where p ws = Some i <-> (exists w, ws !! i = Some w /\ p w = true) /\ forall j w, (j < i)%nat -> ws !! j = Some w -> p w = false.
Proof.
  revert i. induction ws as [| x ws IH]; intros i; cbn [index_where].
  - split; [done |]. by intros [(w & [=] & _) _].
  - destruct (p x) eqn:Hx.
    + split.
      * intros [= <-]. split; [by exists x |]. lia.
      * intros [(w & Hw & Hp) Hb]. destruct i as [| i]; [done |]. specialize (Hb 0%nat x ltac:(lia) eq_refl). congruence.
    + destruct i as [| i].
      * split; [destruct (index_where p ws); intros [=] |]. intros [(w & [= <-] & Hp) _]. congruence.
      * rewrite fmap_Some. split.
        -- intros (k & Hk & [= ->]). apply IH in Hk as [(w & Hw & Hp) Hb]. split; [by exists w |].
           intros [| j] y Hj Hy; [by injection Hy as <- |]. apply (Hb j y); [lia | done].
        -- intros [(w & Hw & Hp) Hb]. exists i. split; [| done]. apply IH. split; [by exists w |]. intros j y Hj Hy. apply (Hb (S j) y); [lia | done].
Qed.

Lemma index_where_in p ws w : w ∈ ws -> p w = true -> exists i, index_where p ws = Some i.
Proof.
  induction ws as [| x ws IH]; cbn; [by intros Hin%elem_of_nil |]. intros Hin Hp. destruct (p x) eqn:Hx; [by exists O |].
  apply elem_of_cons in Hin as [-> | Hin]; [congruence |]. destruct (IH Hin Hp) as [i ->]. by exists (S i).
Qed.

Lemma set_active_ok i st : tui_ok st -> 0 <= i < tui_num_windows st -> tui_ok (set_active i st).
Proof. intros [H1 H2 H3 H4 H5 H6] Hi. by split. Qed.

Lemma focus_ok st t : tui_ok st -> tui_ok (tui_window_focus st t).2 /\ tui_windows (tui_window_focus st t).2 = tui_windows st.
Proof.
  intros Hst. unfold tui_window_focus. destruct t as [t |]; [| done].
  destruct (index_where _ _) as [i |] eqn:Hi; [| done]. cbn. split; [| done]. apply set_active_ok; [done |].
  apply index_where_lookup in Hi as [(w & Hw & _) _]. apply lookup_lt_Some in Hw. unfold tui_num_windows. lia.
Qed.

Lemma add_window_ok st t : tui_ok st -> (length (tui_windows st) < TUI_MAX_WINDOWS)%nat -> tui_ok (add_window t st).2.
Proof.
  intros [H1 H2 H3 H4 H5 H6] Hr. unfold tui_num_windows in *. split; cbn; rewrite ?map_app, ?length_app; unfold tui_num_windows; cbn.
  - lia.
  - apply NoDup_app. split; [done |]. split; [| apply NoDup_singleton]. intros a Ha Hin. apply list_elem_of_singleton in Hin as ->.
    rewrite Forall_forall in H3. apply H3 in Ha. lia.
  - apply Forall_app. split; [eapply Forall_impl; [done | cbn; lia] |]. apply Forall_singleton. lia.
  - apply Forall_app. split; [done |]. apply Forall_singleton, created_window_ok.
  - rewrite length_app. cbn. lia.
  - by destruct (tui_windows st).
Qed.

Lemma create_ok st pending t : tui_ok st -> tui_ok (tui_window_create st pending t).2.
Proof.
  intros Hst. unfold tui_window_create. destruct (tui_window_find st (Some t)); [done |].
  destruct (Nat.leb_spec TUI_MAX_WINDOWS (length (tui_windows st))); [| by apply add_window_ok].
  destruct (active_window_ok st Hst) as (w & -> & _). by apply print_ok.
Qed.

Lemma remove_parts {A B} (f : A -> B) (l : list A) i : map f (take i l ++ drop (S i) l) = take i (map f l) ++ drop (S i) (map f l).
Proof. by rewrite map_app, firstn_map, skipn_map. Qed.

Lemma remove_forall {A} (P : A -> Prop) l i : Forall P l -> Forall P (take i l ++ drop (S i) l).
Proof. intros H. apply Forall_app. split; [by apply Forall_take | by apply Forall_drop]. Qed.

Lemma remove_nodup {A} (l : list A) i : NoDup l -> NoDup (take i l ++ drop (S i) l).
Proof. intros H. rewrite <- delete_take_drop. eapply sublist_NoDup; [done | apply sublist_delete]. Qed.

Lemma remove_length {A} (l : list A) i : (i < length l)%nat -> length (take i l ++ drop (S i) l) = (length l - 1)%nat.
Proof. intros H. rewrite length_app, length_take, length_drop. lia. Qed.

(** The state after the message and the removal, before the focus is set. *)
Definition removed (st : tui) (pending : bool) (i : nat) (w : window) : tui :=
  let st := tui_print st pending (w_addr <$> tui_window_find st (Some (B "status")))
              (B "* Closed window " ++ print_dec (Z.of_nat i) ++ B " (" ++ title w ++ B ")") in
  let st := set_windows (take i (tui_windows st) ++ drop (S i) (tui_windows st)) st in
  set_active (next_active (tui_active_win st) (tui_num_windows st) (Z.of_nat i)) st.

Lemma next_active_range active num i : 0 < num -> 0 <= i <= num -> 0 <= active <= num -> 0 <= next_active active num i < num.
Proof. intros. unfold next_active. repeat case_match; lia. Qed.

Lemma found_index st i w : tui_ok st -> tui_windows st !! i = Some w -> index_where (fun x => w_addr x =? w_addr w) (tui_windows st) = Some i.
Proof.
  intros Hst Hw. apply index_where_lookup. split; [exists w; by rewrite Z.eqb_refl |]. intros j x Hj Hx.
  apply Z.eqb_neq. intros He.
  assert (j = i); [| lia]. apply (NoDup_lookup _ j i (w_addr w) (ok_addrs _ Hst)); rewrite list_lookup_fmap, ?Hx, ?Hw; cbn; by rewrite ?He.
Qed.

Lemma removed_ok st pending i w : tui_ok st -> tui_windows st !! i = Some w -> strcaseeq (title w) (B "status") = false ->
  tui_ok (removed st pending i w) /\
  map w_addr (tui_windows (removed st pending i w)) = take i (map w_addr (tui_windows st)) ++ drop (S i) (map w_addr (tui_windows st)) /\
  map title (tui_windows (removed st pending i w)) = take i (map title (tui_windows st)) ++ drop (S i) (map title (tui_windows st)) /\
  tui_active_win (removed st pending i w) = next_active (tui_active_win st) (tui_num_windows st - 1) (Z.of_nat i).
Proof.
  intros Hst Hw Ht. unfold removed.
  match goal with |- context [tui_print st pending ?addr ?text] => destruct (print_ok st pending addr text Hst) as [Hp Hid] end.
  set (p := tui_print _ _ _ _) in *. clearbody p. destruct (identity_parts _ _ Hid) as (Ha & Htt & Hac & _ & Hl).
  pose proof (lookup_lt_Some _ _ _ Hw) as Hi. assert (Hi0 : i <> O).
  { intros ->. pose proof (ok_status _ Hst) as Hz. rewrite list_lookup_fmap, Hw in Hz. change (strcaseeq (title w) (B "status") = true) in Hz. congruence. }
  pose proof (ok_active _ Hst) as Hr. pose proof Hp as [H1 H2 H3 H4 H5 H6]. unfold tui_num_windows in *.
  assert (Hlen : length (take i (tui_windows p) ++ drop (S i) (tui_windows p)) = (length (tui_windows p) - 1)%nat) by (apply remove_length; lia).
  split_and!; [split; unfold tui_num_windows | ..]; cbn [tui_windows set_windows set_active tui_active_win next_addr];
    rewrite ?remove_parts, ?Hlen, ?Ha, ?Htt; try done.
  - lia.
  - rewrite <- Ha. by apply remove_nodup.
  - rewrite <- Ha. by apply remove_forall.
  - by apply remove_forall.
  - apply next_active_range; lia.
  - rewrite <- Htt. destruct i as [| i]; [done |]. by destruct (map title (tui_windows p)).
  - rewrite Hac, Hl. f_equal. lia.
Qed.

Lemma destroy_removes st pending i w : tui_ok st -> tui_windows st !! i = Some w -> strcaseeq (title w) (B "status") = false ->
  exists a, tui_windows (removed st pending i w) !! Z.to_nat (tui_active_win (removed st pending i w)) = Some a /\
    tui_window_destroy st pending (Some w) = (false, (tui_window_focus (removed st pending i w) (Some (title a))).2).
Proof.
  intros Hst Hw Ht. destruct (removed_ok st pending i w Hst Hw Ht) as (Hr & _).
  destruct (active_window_ok _ Hr) as (a & _ & Ha). exists a. split; [done |].
  unfold tui_window_destroy. rewrite Ht, (found_index st i w Hst Hw). cbv zeta. fold (removed st pending i w). by rewrite Ha.
Qed.

Lemma destroy_ok st pending w : tui_ok st -> w ∈ tui_windows st -> tui_ok (tui_window_destroy st pending (Some w)).2.
Proof.
  intros Hst Hin. destruct (strcaseeq (title w) (B "status")) eqn:Ht.
  - unfold tui_window_destroy. rewrite Ht. destruct (active_window_ok st Hst) as (a & -> & _). by apply print_ok.
  - apply list_elem_of_lookup in Hin as [i Hi]. destruct (destroy_removes st pending i w Hst Hi Ht) as (a & _ & ->).
    by apply focus_ok, removed_ok.
Qed.

Lemma remove_lookup {A} (l : list A) i n : (i < length l)%nat ->
  (take i l ++ drop (S i) l) !! n = l !! (if (n <? i)%nat then n else S n).
Proof.
  intros Hi. destruct (Nat.ltb_spec n i).
  - rewrite lookup_app_l by (rewrite length_take; lia). by apply lookup_take_lt.
  - rewrite lookup_app_r by (rewrite length_take; lia). rewrite lookup_drop, length_take. f_equal. lia.
Qed.

(** The window that is to be in use when the one at [i] is closed. *)
Definition kept_window (st : tui) (i : nat) : nat :=
  if (tui_active_win st =? Z.of_nat i) || (tui_active_win st =? tui_num_windows st - 1) then (i - 1)%nat else Z.to_nat (tui_active_win st).

Lemma next_active_kept st i : tui_ok st -> (0 < i < length (tui_windows st))%nat ->
  exists n, next_active (tui_active_win st) (tui_num_windows st - 1) (Z.of_nat i) = Z.of_nat n /\ (if (n <? i)%nat then n else S n) = kept_window st i.
Proof.
  intros Hst Hi. pose proof (ok_active _ Hst) as Hr. unfold next_active, kept_window, tui_num_windows in *.
  destruct (Z.eqb_spec (tui_active_win st) (Z.of_nat i)) as [He | He]; cbn [orb].
  { rewrite orb_true_r, (proj2 (Z.ltb_lt _ _)) by lia. exists (i - 1)%nat. split; [lia |]. case_match eqn:E; [done | apply Nat.ltb_ge in E; lia]. }
  destruct (Z.eqb_spec (tui_active_win st) (Z.of_nat (length (tui_windows st)) - 1)) as [Hl | Hl].
  { rewrite (proj2 (Z.leb_le _ _)) by lia. cbn [orb]. rewrite (proj2 (Z.ltb_lt _ _)) by lia. exists (i - 1)%nat. split; [lia |]. case_match eqn:E; [done | apply Nat.ltb_ge in E; lia]. }
  rewrite (proj2 (Z.leb_gt _ _)) by lia. cbn [orb]. destruct (Z.ltb_spec (Z.of_nat i) (tui_active_win st)).
  - exists (Z.to_nat (tui_active_win st) - 1)%nat. split; [lia |]. case_match eqn:E; [apply Nat.ltb_lt in E; lia | lia].
  - exists (Z.to_nat (tui_active_win st)). split; [lia |]. case_match eqn:E; [done | apply Nat.ltb_ge in E; lia].
Qed.

(** C18: closing a window takes just that window out of the list.  The window in
    use is to stay in use, except that the previous one is chosen if it was the one
    closed, and, although it is still there, also if it was the last of the list:
    then the window before the closed one is chosen.  The choice is made by title: the
    window in use afterwards is the first of those left with the title of the chosen one,
    which is the chosen one itself if no two titles are equal. *)
Theorem close_keeps_focus st pending i w (Hst : tui_ok st) (Hw : tui_windows st !! i = Some w)
    (Ht : strcaseeq (title w) (B "status") = false) :
  let after := tui_window_destroy st pending (Some w) in
  after.1 = false /\
  map w_addr (tui_windows after.2) = take i (map w_addr (tui_windows st)) ++ drop (S i) (map w_addr (tui_windows st)) /\
  exists j x y, tui_windows st !! j = Some x /\ tui_windows st !! kept_window st i = Some y /\ j <> i /\
    map w_addr (tui_windows after.2) !! Z.to_nat (tui_active_win after.2) = Some (w_addr x) /\ title x = title y /\
    (forall j' z, (j' < j)%nat -> j' <> i -> tui_windows st !! j' = Some z -> title z <> title y) /\
    (NoDup (map title (tui_windows st)) -> j = kept_window st i).
Proof.
  cbv zeta. destruct (destroy_removes st pending i w Hst Hw Ht) as (a & Ha & ->).
  destruct (removed_ok st pending i w Hst Hw Ht) as (Hr & Haddr & Htitle & Hact).
  set (r := removed st pending i w) in *. clearbody r. pose proof (lookup_lt_Some _ _ _ Hw) as Hi.
  assert (Hi0 : i <> O). { intros ->. pose proof (ok_status _ Hst) as Hz. rewrite list_lookup_fmap, Hw in Hz. change (strcaseeq (title w) (B "status") = true) in Hz. congruence. }
  destruct (next_active_kept st i Hst ltac:(lia)) as (n & Hn & Hkept). rewrite Hn in Hact. rewrite Hact, Nat2Z.id in Ha.
  assert (Htl : forall m, map title (tui_windows r) !! m = map title (tui_windows st) !! (if (m <? i)%nat then m else S m)).
  { intros m. rewrite Htitle. apply remove_lookup. by rewrite length_map. }
  pose proof (Htl n) as Hy. rewrite list_lookup_fmap, Ha, Hkept, list_lookup_fmap in Hy. destruct (tui_windows st !! kept_window st i) as [y |] eqn:Hyw; [| done]. cbn in Hy. injection Hy as Hy.
  destruct (index_where_in (fun x => streq (title x) (title a)) _ _ (list_elem_of_lookup_2 _ _ _ Ha) (streq_refl _)) as [m Hm].
  unfold tui_window_focus. rewrite Hm. cbn [fst snd set_active tui_windows tui_active_win]. rewrite Nat2Z.id.
  apply index_where_lookup in Hm as [(b & Hb & Hbt) Hfirst]. apply streq_true in Hbt.
  set (j := if (m <? i)%nat then m else S m). pose proof (Htl m) as Hx. rewrite list_lookup_fmap, Hb in Hx. fold j in Hx. rewrite list_lookup_fmap in Hx.
  destruct (tui_windows st !! j) as [x |] eqn:Hxw; [| done]. cbn in Hx. injection Hx as Hx.
  split; [done |]. split; [done |]. exists j, x, y. assert (Hji : j <> i) by (unfold j; destruct (Nat.ltb_spec m i); lia).
  split_and!; [done | done | done | | congruence | |].
  - rewrite Haddr, remove_lookup by (by rewrite length_map). fold j. rewrite list_lookup_fmap, Hxw. done.
  - intros j' z Hj' Hne Hz He. set (m' := if (j' <? i)%nat then j' else (j' - 1)%nat).
    assert (Hm' : (if (m' <? i)%nat then m' else S m') = j' /\ (m' < m)%nat).
    { unfold m', j in *. destruct (Nat.ltb_spec j' i), (Nat.ltb_spec m i); split; try lia;
        (rewrite (proj2 (Nat.ltb_lt _ _)) by lia; lia) || (rewrite (proj2 (Nat.ltb_ge _ _)) by lia; lia). }
    destruct Hm' as [Hmj Hlt]. pose proof (Htl m') as Hzt. rewrite Hmj, !list_lookup_fmap, Hz in Hzt. destruct (tui_windows r !! m') as [z' |] eqn:Hz'; [| done].
    cbn in Hzt. injection Hzt as Hzt. specialize (Hfirst m' z' Hlt Hz'). cbn in Hfirst. apply streq_false in Hfirst. congruence.
  - intros Hnd. apply (NoDup_lookup _ _ _ (title x) Hnd); rewrite list_lookup_fmap, ?Hxw, ?Hyw; cbn; congruence.
Qed.

Definition titled (titles : list bstr) : tui :=
  set_windows (imap (fun i t => new_window (Z.of_nat (S i)) t) titles) (tui_window_init (Tui [] 0 9 true true 24 80)).

(** Closing the second window: with the last in use, the first is; and with two windows
    of one title, the second of them in use, the first of them is. *)
Lemma close_keeps_focus_witness :
  let closed st := (tui_window_destroy st true (Some (new_window 2 (B "a")))).2 in
  let user st := map w_addr (tui_windows st) !! Z.to_nat (tui_active_win st) in
  let distinct := set_active 3 (titled [B "status"; B "a"; B "b"; B "c"]) in
  let equal := set_active 3 (titled [B "status"; B "a"; B "x"; B "x"; B "c"]) in
  map w_addr (tui_windows (closed distinct)) = [1; 3; 4] /\ user (closed distinct) = Some 1 /\
  map w_addr (tui_windows (closed equal)) = [1; 3; 4; 5] /\ user equal = Some 4 /\ user (closed equal) = Some 3.
Proof.
  cbv beta zeta. set (d := set_active 3 _). set (e := set_active 3 _). set (w := new_window 2 (B "a")).
  assert (Hd : tui_ok d).
  { split; [apply Nat.leb_le; vm_compute; reflexivity | apply (bool_decide_unpack _); vm_compute; exact I |
      apply (bool_decide_unpack _); vm_compute; exact I | | vm_compute; split; [discriminate | reflexivity] | vm_compute; reflexivity].
    repeat (apply Forall_cons; split; [apply created_window_ok |]). apply Forall_nil. exact I. }
  assert (He : tui_ok e).
  { split; [apply Nat.leb_le; vm_compute; reflexivity | apply (bool_decide_unpack _); vm_compute; exact I |
      apply (bool_decide_unpack _); vm_compute; exact I | | vm_compute; split; [discriminate | reflexivity] | vm_compute; reflexivity].
    repeat (apply Forall_cons; split; [apply created_window_ok |]). apply Forall_nil. exact I. }
  destruct (close_keeps_focus d true 1 w Hd eq_refl) as (_ & Had & jd & xd & yd & Hxd & _ & _ & Hud & _ & _ & Hnd); [vm_compute; reflexivity |].
  destruct (close_keeps_focus e true 1 w He eq_refl) as (_ & Hae & je & xe & ye & Hxe & Hye & Hne & Hue & Hte & Hfe & _); [vm_compute; reflexivity |].
  rewrite Hud, Had, Hue, Hae. split; [vm_compute; reflexivity |]. split; [| split; [vm_compute; reflexivity | split; [vm_compute; reflexivity |]]].
  - rewrite Hnd in Hxd by (apply (bool_decide_unpack _); vm_compute; exact I). vm_compute in Hxd. injection Hxd as <-. reflexivity.
  - vm_compute in Hye. injection Hye as <-.
    destruct je as [| [| [| je]]]; [vm_compute in Hxe; injection Hxe as <-; discriminate Hte | by destruct Hne | vm_compute in Hxe; injection Hxe as <-; reflexivity |].
    destruct (Hfe 2%nat (new_window 3 (B "x"))); [lia | lia | vm_compute; reflexivity | reflexivity].
Defined.

(** ** Every operation *)

Inductive tui_step : tui -> tui -> Prop :=
  | StepPrint st pending addr text : tui_step st (tui_print st pending addr text)
  | StepRedraw st : tui_step st (tui_redraw_screen st)
  | StepResize st rows cols : tui_step st (Tui (tui_windows st) (tui_active_win st) (next_addr st) (tui_is_enabled st) (cfg_tui_colors st) rows cols)
  | StepCreate st pending t : tui_step st (tui_window_create st pending t).2
  | StepFocus st t : tui_step st (tui_window_focus st t).2
  | StepFocusId st pending id : tui_step st (tui_window_focus_id st pending id).2
  | StepDestroy st pending w : w ∈ tui_windows st -> tui_step st (tui_window_destroy st pending (Some w)).2
  | StepDestroyId st pending id : tui_step st (tui_window_destroy_id st pending id).2
  | StepSwap st key : tui_step st (tui_window_swap st key)
  | StepLeft st : tui_step st (handle_alt_left st)
  | StepRight st : tui_step st (handle_alt_right st)
  | StepClear st addr : tui_step st (tui_clear_scrollback st addr).2
  | StepPageUp st : tui_step st (handle_pgup st)
  | StepPageDown st : tui_step st (handle_pgdn st).

Lemma focus_index_ok st i : tui_ok st -> tui_ok (focus_index st i).
Proof.
  intros Hst. unfold focus_index. destruct (_ !! _); [| done]. by apply redraw_ok, focus_ok.
Qed.

Lemma active_print_ok st pending text : tui_ok st ->
  tui_ok (let '(a, st') := tui_active_window st in tui_print st' pending (w_addr <$> a) text).
Proof. intros Hst. destruct (active_window_ok st Hst) as (a & -> & _). by apply print_ok. Qed.

Lemma step_ok st st' : tui_step st st' -> tui_ok st -> tui_ok st'.
Proof.
  intros Hstep Hst. destruct Hstep.
  - by apply print_ok.
  - by apply redraw_ok.
  - by destruct Hst.
  - by apply create_ok.
  - by apply focus_ok.
  - unfold tui_window_focus_id. destruct (_ || _).
    + pose proof (active_print_ok st pending) as Hp. destruct (tui_active_window st). by apply Hp.
    + destruct (_ !! _); [by apply focus_ok | done].
  - by apply destroy_ok.
  - unfold tui_window_destroy_id. destruct (_ || _).
    + pose proof (active_print_ok st pending) as Hp. destruct (tui_active_window st). by apply Hp.
    + destruct (_ !! _) eqn:Hw; [| done]. apply destroy_ok; [done |]. by eapply list_elem_of_lookup_2.
  - unfold tui_window_swap. destruct (_ && _); [by apply focus_index_ok | done].
  - unfold handle_alt_left. destruct (_ <? _); [by apply focus_index_ok | done].
  - unfold handle_alt_right. destruct (_ <? _); [by apply focus_index_ok | done].
  - unfold tui_clear_scrollback. destruct addr; [| done]. apply redraw_ok, update_ok; auto with tui.
  - unfold handle_pgup. destruct (active_window_ok st Hst) as (a & -> & _). apply redraw_ok, update_ok; auto with tui.
  - unfold handle_pgdn. destruct (active_window_ok st Hst) as (a & -> & _). apply redraw_ok, update_ok; auto with tui.
Qed.

Lemma init_ok next enabled colors rows cols : tui_ok (tui_window_init (Tui [] 0 next enabled colors rows cols)).
Proof.
  split.
  - apply Nat.leb_le. reflexivity.
  - apply NoDup_singleton.
  - apply Forall_singleton. cbn. lia.
  - apply Forall_singleton, created_window_ok.
  - split; [done |]. reflexivity.
  - reflexivity.
Qed.

(** C17: from the start on there are between 1 and 32 windows, the first of them
    the status window, the active index is that of a window, no two windows share
    an address, and every window shows a whole ring of lines at an offset that is
    not negative, after any sequence of operations. *)
Theorem windows_stay_ok next enabled colors rows cols st (Hst : rtc tui_step (tui_window_init (Tui [] 0 next enabled colors rows cols)) st) :
  tui_ok st.
Proof.
  pose proof (init_ok next enabled colors rows cols) as H0.
  induction Hst as [| a b c Hab _ IH]; [done |]. apply IH. by eapply step_ok.
Qed.

Lemma windows_stay_ok_witness :
  length (tui_windows (tui_window_destroy_id (tui_window_create (tui_window_init (Tui [] 0 1 true true 24 80)) true (B "a")).2 true 1).2) = 2%nat /\
  tui_ok (tui_window_destroy_id (tui_window_create (tui_window_init (Tui [] 0 1 true true 24 80)) true (B "a")).2 true 1).2.
Proof.
  split; [vm_compute; reflexivity |]. apply (windows_stay_ok 1 true true 24 80).
  eapply rtc_l; [apply (StepCreate _ true (B "a")) |]. eapply rtc_l; [apply (StepDestroyId _ true 1) |]. apply rtc_refl.
Defined.
