(* ===== verification/TuiDraw.v ===== *)
(** * Drawing of the terminal interface (tui.c)

    What is written to the terminal: the top line, the rows of the scrollback, the
    input line; and the expansion of [${name}] in status texts.  An access outside
    a buffer is [None]. *)

From S2P Require Import Prelude CString ConfigText Dict Util TuiText TuiWindow.

#[local] Open Scope Z_scope.

Definition move_to (row col : Z) : bstr := ESC :: "["%char :: print_dec row ++ B ";" ++ print_dec col ++ B "H".
Definition clear_eol : bstr := [ESC; "["; "K"]%char.
Definition reset_sgr : bstr := csi (B "0").

(** ** The top line *)

(** Parameter bytes up to the final one: the bytes, and the final byte with what
    follows. *)
Fixpoint csi_end (p : bstr) : option (bstr * ascii * bstr) :=
  match p with
  | [] => None
  | c :: p' =>
      if final_byte c then Some ([], c, p')
      else match csi_end p' with Some (s, m, r) => Some (c :: s, m, r) | None => None end
  end.

(** The length that a first byte announces. *)
Definition utf8_expected (c : ascii) : nat :=
  if (0xc2 <=? code c) && (code c <=? 0xf4) then (if code c <? 0xe0 then 2 else if code c <? 0xf0 then 3 else 4) else 1.

Definition continuation (c : ascii) : bool := Z.land (code c) 0xc0 =? 0x80.

(** The number of continuation bytes, at most [n]. *)
Fixpoint continuations (n : nat) (p : bstr) : nat :=
  match n, p with
  | S n, c :: p => if continuation c then S (continuations n p) else O
  | _, _ => O
  end.

Fixpoint topline_loop (fuel : nat) (columns : Z) (p : bstr) : bstr :=
  match fuel, p with
  | S fuel, c :: rest =>
      if columns <=? 0 then []
      else if bool_decide (c = ESC) && starts_with rest "["%char then
        match csi_end (tail rest) with
        | None => []
        | Some (s, m, after) => (if ceq m "m" then c :: "["%char :: s ++ [m] else []) ++ topline_loop fuel columns after
        end
      else if (code c <? 32) || (code c =? 127) then " "%char :: topline_loop fuel (columns - 1) rest
      else
        let len := S (continuations (utf8_expected c - 1) rest) in
        if negb (len =? utf8_expected c)%nat then topline_loop fuel columns (drop len p)
        else if columns <? Z.of_nat len then []
        else take len p ++ topline_loop fuel (columns - Z.of_nat len) (drop len p)
  | _, _ => []
  end.

Definition tui_print_topline (text : option bstr) (columns : Z) : bstr :=
  match text with Some p => topline_loop (length p) columns p | None => [] end ++ reset_sgr ++ clear_eol.

(** ** The rows of the scrollback *)

(** One row of a line, from its first byte: what is written (up to the last
    character), the sequences after it, the rest of the line, and the last colour
    sequence.  [seq] is the sequence being read. *)
Fixpoint scan_row (mode : row_mode) (col width : Z) (sgr seq shown pending p : bstr) : bstr * bstr * bstr * bstr :=
  match p with
  | [] => (shown, pending, [], sgr)
  | c :: p' =>
      match mode with
      | RBracket => scan_row RSequence col width sgr (seq ++ [c]) shown (pending ++ [c]) p'
      | RSequence =>
          if final_byte c then
            let seq := seq ++ [c] in
            scan_row RText col width (if ceq c "m" && (length seq <? 64)%nat then seq else sgr) [] shown (pending ++ [c]) p'
          else scan_row RSequence col width sgr (seq ++ [c]) shown (pending ++ [c]) p'
      | RText =>
          if width <=? col then (shown, pending, p, sgr)
          else if bool_decide (c = ESC) && starts_with p' "["%char then scan_row RBracket col width sgr [c] shown (pending ++ [c]) p'
          else if bool_decide (c = LF) then (shown, pending, p, sgr)
          else scan_row RText (col + 1) width sgr seq (shown ++ pending ++ [c]) [] p'
      end
  end.

(** A row on the screen: its number, the colour taken over, the text. *)
Record drawn := Drawn { at_row : Z; restored : bstr; shown_text : bstr }.

Definition print_row (d : drawn) : bstr := move_to (at_row d) 1 ++ restored d ++ shown_text d ++ reset_sgr ++ clear_eol.

(** [first_message], [skip_rows] and [row]. *)
Record cursor := Cursor { first_message : bool; skip_rows : Z; row : Z }.

(** The loop over the rows of a message.  A turn skips a row or draws one: that
    many are the fuel. *)
Fixpoint message_loop (fuel : nat) (rows width : Z) (k : cursor) (rows_done : bool) (sgr p : bstr) : list drawn * cursor :=
  match fuel, p with
  | S fuel, _ :: _ =>
      if negb (row k <? rows - 1) then ([], k)
      else
        let '(shown, pending, rest, sgr') := scan_row RText 0 width sgr [] [] [] p in
        let newline := starts_with rest LF in
        let skipped := first_message k && (0 <? skip_rows k) in
        let skip := if skipped then skip_rows k - 1 else skip_rows k in
        let k' := Cursor (first_message k && negb (skip =? 0)) skip (if skipped then row k else row k + 1) in
        let d := Drawn (row k) (if rows_done then sgr' else []) (if newline then shown ++ pending else shown) in
        let next := if negb skipped && newline then tail rest else rest in
        let '(ds, k'') := message_loop fuel rows width k' true sgr' next in
        (if skipped then ds else d :: ds, k'')
  | _, _ => ([], k)
  end.

Definition draw_message (rows width : Z) (k : cursor) (line : bstr) : list drawn * cursor :=
  message_loop (Z.to_nat (skip_rows k + (rows - 1 - row k))) rows width k false [] line.

Fixpoint draw_messages (rows width : Z) (k : cursor) (lines : list (option bstr)) : list drawn * cursor :=
  match lines with
  | [] => ([], k)
  | l :: lines =>
      if negb (row k <? rows - 1) then ([], k)
      else
        match l with
        | None => draw_messages rows width k lines
        | Some line =>
            let '(ds, k) := draw_message rows width k line in
            let '(ds', k) := draw_messages rows width k lines in
            (ds ++ ds', k)
        end
  end.

(** The message that holds the row [skip], counted in messages from the oldest,
    and the rows to skip in it; without one, the oldest, and what is left. *)
Fixpoint find_start (width skip : Z) (i : nat) (lines : list (option bstr)) : nat * Z :=
  match lines with
  | [] => (O, skip)
  | None :: lines => find_start width skip (S i) lines
  | Some l :: lines =>
      let n := tui_line_rows (Some l) width in
      if skip <? n then (i, skip) else find_start width (skip - n) (S i) lines
  end.

(** The slots that the drawing loop visits, around the ring: as many as there are
    lines, from the message found. *)
Definition draw_order (w : window) (start : nat) : list (option bstr) :=
  let oldest := Z.rem (log_head w + Z.of_nat LOG_LINES - log_count w) (Z.of_nat LOG_LINES) in
  map (fun i => mjoin (buffer w !! Z.to_nat (Z.rem (oldest + Z.of_nat (start + i)) (Z.of_nat LOG_LINES)))) (seq 0 (Z.to_nat (log_count w))).

(** The log area: the messages, then empty rows. *)
Definition draw_log (st : tui) (w : window) : list drawn :=
  let '(start, skip) := find_start (term_cols st) (target_row st w) 0 (shown_lines w) in
  let '(ds, k) := draw_messages (term_rows st) (term_cols st) (Cursor true skip 2) (draw_order w start) in
  ds ++ map (fun i => Drawn (row k + Z.of_nat i) [] []) (seq 0 (Z.to_nat (term_rows st - 1 - row k))).

(** ** Status texts *)

Definition TUI_STRING_LEN : nat := 1024.

(** The value of a [name] or [name:default]; the outer option is termination of
    the lookup. *)
Definition expand_var (data : option dict) (spec : bstr) : option (option bstr) :=
  let spec := take 255 spec in
  let '(name, fallback) := match split_at spec ":"%char with Some (n, f) => (n, Some f) | None => (spec, None) end in
  val ← dict_get data (Some name) None;
  Some (match val with Some v => Some v | None => fallback end).

(** [used]: characters written. *)
Fixpoint expand_loop (fuel : nat) (data : option dict) (used : nat) (src : bstr) : option bstr :=
  match fuel, src with
  | S fuel, c :: rest =>
      if negb (used <? TUI_STRING_LEN - 1)%nat then Some []
      else
        match (if ceq c "$" && starts_with rest "{"%char then split_at (tail rest) "}"%char else None) with
        | Some (spec, after) =>
            val ← expand_var data spec;
            let out := match val with
                       | Some v => if (used + length v <? TUI_STRING_LEN - 1)%nat then v else []
                       | None => []
                       end in
            app out <$> expand_loop fuel data (used + length out) after
        | None => cons c <$> expand_loop fuel data (S used) rest
        end
  | _, _ => Some []
  end.

(** [text] is the formatted string.  The outer option is termination. *)
Definition tui_render_string (colors : bool) (data : option dict) (text : bstr) : option (option bstr) :=
  let processed := take (TUI_STRING_LEN - 1) text in
  expanded ← expand_loop (length processed) data 0 processed;
  Some (tui_colorize_string colors true true (Some expanded)).

Definition STATUS_LEN : nat := 256.

(** The status line that [tui_update_status] sets; [vars]: the values of the
    window; [o]: the allocations of the dictionary. *)
Definition status_vars (o : allocs) (win : option window) : option (option dict * allocs) :=
  let '(d, o) := dict_new o in
  match win, d with
  | Some w, Some d =>
      '(_, d, o) ← dict_add o d (Some (B "win.title")) (Some (title w));
      '(_, d, o) ← dict_add o d (Some (B "win.scroll")) (Some (print_dec (scroll_offset w)));
      Some (Some d, o)
  | _, _ => Some (d, o)
  end.

Definition tui_update_status (o : allocs) (colors : bool) (win : option window) (text : bstr) : option bstr :=
  '(vars, _) ← status_vars o win;
  colored ← tui_render_string colors vars (take 511 text);
  (fun c => strlcpy c STATUS_LEN) <$> colored.

(** ** The input line *)

Definition TUI_INPUTLEN : nat := 512.

(** What stands for a control character. *)
Definition placeholder (c : ascii) : bstr :=
  let k := code c in
  if k =? 0x02 then B "{bold}B{bold-off}"
  else if k =? 0x03 then B "{reverse}C{reverse-off}"
  else if k =? 0x04 then B "{reverse}H{reverse-off}"
  else if k =? 0x0f then B "{reset}"
  else if k =? 0x16 then B "{reverse}V{reverse-off}"
  else if k =? 0x1d then B "{italic}I{italic-off}"
  else if k =? 0x1f then B "{underline}_{underline-off}"
  else if (0x20 <=? k) && (k <=? 0x7e) then [c] else B "?".

(** Written by [snprintf], which gets what is left of the buffer, rather than
    directly. *)
Definition expands (c : ascii) : bool := existsb (fun k => code c =? k) [0x02; 0x03; 0x04; 0x0f; 0x16; 0x1d; 0x1f].

(** [buf] holds 2048 characters.  [sizeof(buf) - buf_pos] wraps around once
    [buf_pos] is beyond: the write is outside. *)
Fixpoint fill_loop (text : bstr) (buf_pos : nat) (input : bstr) : option bstr :=
  match input with
  | [] => if (buf_pos <? 2048)%nat then Some text else None
  | c :: input =>
      let s := placeholder c in
      if expands c then
        if (2048 <? buf_pos)%nat then None
        else fill_loop (text ++ take (2048 - buf_pos - 1) s) (buf_pos + length s) input
      else if (buf_pos <? 2048)%nat then fill_loop (text ++ s) (buf_pos + length s) input
      else None
  end.

(** The column offset of a text with sequences: what precedes it is dropped. *)
Fixpoint ansi_column_offset (mode : row_mode) (column : Z) (p : bstr) : bstr :=
  match p with
  | [] => []
  | c :: p' =>
      match mode with
      | RBracket => ansi_column_offset RSequence column p'
      | RSequence => ansi_column_offset (if final_byte c then RText else RSequence) column p'
      | RText =>
          if column <=? 0 then p
          else if bool_decide (c = ESC) then ansi_column_offset (if starts_with p' "["%char then RBracket else RText) column p'
          else ansi_column_offset RText (column - 1) p'
      end
  end.

(** [room]: [out_size - 1 - used]. *)
Fixpoint ansi_copy_columns (mode : row_mode) (columns : Z) (room : nat) (p : bstr) : bstr :=
  match room, p with
  | O, _ | _, [] => []
  | S room, c :: p' =>
      match mode with
      | RBracket => c :: ansi_copy_columns RSequence columns room p'
      | RSequence => c :: ansi_copy_columns (if final_byte c then RText else RSequence) columns room p'
      | RText =>
          if columns <=? 0 then []
          else if bool_decide (c = ESC) then c :: ansi_copy_columns (if starts_with p' "["%char then RBracket else RText) columns room p'
          else c :: ansi_copy_columns RText (columns - 1) room p'
      end
  end.

Definition cursor_screen_pos (len pos : Z) : Z :=
  if pos =? 0 then 0 else if pos <? len then pos else if (pos =? len) && (0 <? len) then len + 1 else 0.

Definition max_input_width (width prompt_len : Z) : Z :=
  let m := width - prompt_len - 1 in if m <? 1 then 1 else if 2048 <=? m then 2047 else m.

(** The slice of the input that is shown and the column of the cursor. *)
Definition input_line (colors : bool) (width : Z) (prompt_title input : bstr) (pos : Z) : option (bstr * Z) :=
  let prompt_len := visible_length prompt_title + 2 in
  buf ← fill_loop [] 0 input;
  colored ← tui_colorize_string colors true true (Some buf);
  let at_ := cursor_screen_pos (Z.of_nat (length input)) pos in
  let max := max_input_width width prompt_len in
  let start_col := if max <? at_ then at_ - max else 0 in
  let slice := ansi_copy_columns RText max 2047 (ansi_column_offset RText start_col colored) in
  let prompt_len := if bool_decide (slice = []) then prompt_len + 1 else prompt_len in
  Some (slice, at_ - start_col + prompt_len).

(** The prompt is cut to 511 bytes before it is coloured. *)
Definition tui_update_input_line (colors : bool) (rows width : Z) (prompt_title input : bstr) (pos : Z) : option bstr :=
  '(slice, column) ← input_line colors width prompt_title input pos;
  prompt ← tui_colorize_string colors true true (Some (take 511 (chr 3 :: B "11" ++ prompt_title ++ chr 3 :: B "10>" ++ chr 15 :: B " ")));
  Some (move_to rows 1 ++ [ESC; "["; "2"; "K"]%char ++ prompt ++ slice ++ move_to rows column).
