(* ===== verification/TuiDrawSpec.v ===== *)
(** * What holds of the drawing

    The log area shows a slice of the rows of the scrollback, coloured lines and empty
    ones included; the input line and
    the top line fit the screen; status texts fit their buffer. *)

From S2P Require Import Prelude CString ConfigText Dict Util TuiText TuiTextSpec TuiWindow TuiWindowSpec TuiDraw.

#[local] Open Scope Z_scope.

(** ** The rows of a line *)

(** A line is made of characters of one column each and of control sequences. *)
Inductive cell := Glyph (c : ascii) | Sequence (parameters : bstr) (final : ascii).

Definition cell_bytes (c : cell) : bstr := match c with Glyph c => [c] | Sequence s f => ESC :: "["%char :: s ++ [f] end.
Definition cell_ok (c : cell) : Prop :=
  match c with
  | Glyph c => c <> ESC /\ c <> LF
  | Sequence s f => Forall (fun c => final_byte c = false) s /\ final_byte f = true
  end.

Definition bytes_of (cs : list cell) : bstr := concat (map cell_bytes cs).

Fixpoint glyphs (cs : list cell) : nat :=
  match cs with [] => O | Glyph _ :: cs => S (glyphs cs) | Sequence _ _ :: cs => glyphs cs end.

(** A first row of [w] columns, which ends with its last character, and the rest. *)
Fixpoint first_row (w : nat) (cs : list cell) : list cell * list cell :=
  match w, cs with
  | S w', Glyph c :: cs => let '(a, b) := first_row w' cs in (Glyph c :: a, b)
  | S _, Sequence s f :: cs => let '(a, b) := first_row w cs in (Sequence s f :: a, b)
  | _, _ => ([], cs)
  end.

Fixpoint cut_rows_of (fuel w : nat) (cs : list cell) : list (list cell) :=
  match fuel, cs with
  | S fuel, _ :: _ => (first_row w cs).1 :: cut_rows_of fuel w (first_row w cs).2
  | _, _ => []
  end.

Definition cut_rows (w : nat) (cs : list cell) : list (list cell) := cut_rows_of (length cs) w cs.

(** A row without the sequences after its last character. *)
Fixpoint trimmed (cs : list cell) : list cell :=
  match cs with
  | [] => []
  | c :: cs => match c, trimmed cs with Sequence _ _, [] => [] | _, t => c :: t end
  end.

(** The colour after a row, from the one before it. *)
Fixpoint last_colour (sgr : bstr) (cs : list cell) : bstr :=
  match cs with
  | [] => sgr
  | Glyph _ :: cs => last_colour sgr cs
  | Sequence s f :: cs => last_colour (if ceq f "m" && (length s + 3 <? 64)%nat then cell_bytes (Sequence s f) else sgr) cs
  end.

(** What is written of each row: a colour, the last one of the line up to the end of
    the row, unless it is the first row; and the text. *)
Fixpoint painted_rows (is_first : bool) (sgr : bstr) (rows : list (list cell)) : list (bstr * bstr) :=
  match rows with
  | [] => []
  | r :: rows => (if is_first then [] else last_colour sgr r, bytes_of (trimmed r)) :: painted_rows false (last_colour sgr r) rows
  end.

Definition painted (w : nat) (cs : list cell) : list (bstr * bstr) := painted_rows true [] (cut_rows w cs).

(** The rows that a line is counted as: the characters by the width, but at least one. *)
Definition counted (w : nat) (cs : list cell) : nat := Nat.max 1 ((glyphs cs + w - 1) / w).
Definition counted_all (w : nat) (lines : list (list cell)) : nat := foldr (fun cs n => counted w cs + n)%nat O lines.

(** The lines that are drawn on as many rows as are counted: not the empty ones, nor
    those that fill their last row and end in a sequence. *)
Definition counts_agree (w : nat) (cs : list cell) : Prop :=
  cs <> [] /\ ((0 < glyphs cs)%nat -> (w | glyphs cs)%nat -> exists c, last cs = Some (Glyph c)).

Lemma first_row_app w cs : (first_row w cs).1 ++ (first_row w cs).2 = cs.
Proof.
  revert w. induction cs as [| [c | s f] cs IH]; intros [| w]; cbn [first_row]; try done.
  - specialize (IH w). destruct (first_row w cs). cbn in *. by rewrite IH.
  - specialize (IH (S w)). destruct (first_row (S w) cs). cbn in *. by rewrite IH.
Qed.

Lemma first_row_glyphs w cs : glyphs (first_row w cs).1 = (glyphs cs `min` w)%nat.
Proof.
  revert w. induction cs as [| [c | s f] cs IH]; intros [| w]; cbn [first_row]; cbn; try lia.
  - specialize (IH w). destruct (first_row w cs). cbn in *. lia.
  - specialize (IH (S w)). destruct (first_row (S w) cs). cbn in *. lia.
Qed.

Lemma glyphs_app a b : glyphs (a ++ b) = (glyphs a + glyphs b)%nat.
Proof. induction a as [| [c | s f] a IH]; cbn; lia. Qed.

Lemma first_row_rest w cs : glyphs (first_row w cs).2 = (glyphs cs - w)%nat.
Proof. pose proof (first_row_glyphs w cs). rewrite <- (first_row_app w cs) at 2. rewrite glyphs_app. pose proof (f_equal glyphs (first_row_app w cs)) as Ha. rewrite glyphs_app in Ha. lia. Qed.

(** A rest is left only by a full row. *)
Lemma first_row_full w cs : (first_row w cs).2 <> [] -> (w <= glyphs cs)%nat.
Proof.
  revert w. induction cs as [| [c | s f] cs IH]; intros [| w]; cbn [first_row]; cbn; try done; try lia.
  - specialize (IH w). destruct (first_row w cs). cbn in *. intros Hb%IH. lia.
  - specialize (IH (S w)). destruct (first_row (S w) cs). by cbn in *.
Qed.

Lemma first_row_shorter w c cs : (length (first_row (S w) (c :: cs)).2 <= length cs)%nat.
Proof.
  pose proof (f_equal length (first_row_app (S w) (c :: cs))) as Hl. rewrite length_app in Hl.
  assert (length (first_row (S w) (c :: cs)).1 <> O); [| cbn [length] in Hl; lia].
  destruct c; cbn [first_row]; by destruct (first_row _ cs).
Qed.

Lemma cut_rows_fuel w cs fuel : (0 < w)%nat -> (length cs <= fuel)%nat -> cut_rows_of fuel w cs = cut_rows w cs.
Proof.
  intros Hw. unfold cut_rows. remember (length cs) as n eqn:Hn. revert cs Hn fuel. induction n as [n IH] using lt_wf_ind; intros cs Hn fuel Hf.
  destruct cs as [| c cs]; [by destruct n, fuel |]. destruct w as [| w]; [lia |]. destruct fuel as [| fuel]; [cbn in *; lia |]. destruct n as [| n]; [done |].
  cbn [cut_rows_of]. f_equal. pose proof (first_row_shorter w c cs). cbn [length] in Hn.
  rewrite (IH (length (first_row (S w) (c :: cs)).2)) by lia. symmetry. apply IH; [lia | done | lia].
Qed.

Lemma cut_rows_step w cs : (0 < w)%nat -> cs <> [] -> cut_rows w cs = (first_row w cs).1 :: cut_rows w (first_row w cs).2.
Proof.
  intros Hw Hcs. destruct cs as [| c cs]; [done |]. destruct w as [| w]; [lia |]. unfold cut_rows at 1. cbn [length cut_rows_of]. f_equal.
  apply cut_rows_fuel; [done |]. apply first_row_shorter.
Qed.

Lemma counted_full w cs : (0 < w <= glyphs cs)%nat -> (0 < glyphs cs - w)%nat -> counted w cs = S (Nat.max 1 ((glyphs cs - w + w - 1) / w)).
Proof.
  intros Hw Hg. unfold counted. replace (glyphs cs + w - 1)%nat with ((glyphs cs - w + w - 1) + 1 * w)%nat by lia.
  rewrite Nat.div_add by lia. assert (1 <= (glyphs cs - w + w - 1) / w)%nat; [| lia]. apply Nat.div_le_lower_bound; lia.
Qed.

Lemma counted_one w cs : (0 < w)%nat -> (glyphs cs <= w)%nat -> counted w cs = 1%nat.
Proof. intros Hw Hg. unfold counted. assert ((glyphs cs + w - 1) / w < 2)%nat; [apply Nat.Div0.div_lt_upper_bound; lia | lia]. Qed.

Lemma counts_agree_rest w cs : (0 < w)%nat -> counts_agree w cs -> (first_row w cs).2 <> [] ->
  counts_agree w (first_row w cs).2 /\ (0 < glyphs (first_row w cs).2)%nat.
Proof.
  intros Hw [Hne Hlast] Hb. pose proof (first_row_full w cs Hb) as Hfull. pose proof (first_row_rest w cs) as Hr. pose proof (first_row_app w cs) as Happ.
  assert (Hl : last cs = last (first_row w cs).2). { rewrite <- Happ at 1. rewrite last_app. by destruct (last (first_row w cs).2) eqn:E; [| apply last_None in E]. }
  assert (Hdiv : (w | glyphs (first_row w cs).2)%nat -> (w | glyphs cs)%nat).
  { rewrite Hr. intros Hd. replace (glyphs cs) with (glyphs cs - w + w)%nat by lia. apply Nat.divide_add_r; [done | apply Nat.divide_refl]. }
  assert (Hpos : (0 < glyphs (first_row w cs).2)%nat).
  { destruct (Nat.eq_dec (glyphs (first_row w cs).2) O) as [Hz |]; [| lia]. destruct Hlast as [c Hc]; [lia | apply Hdiv; rewrite Hz; apply Nat.divide_0_r |].
    rewrite Hl in Hc. apply last_Some in Hc as [l' Hc]. rewrite Hc, glyphs_app in Hz. cbn in Hz. lia. }
  split; [| done]. split; [done |]. rewrite <- Hl. intros _ Hd. apply Hlast; [lia | by apply Hdiv].
Qed.

Lemma agreed_rows w cs : (0 < w)%nat -> counts_agree w cs -> length (cut_rows w cs) = counted w cs.
Proof.
  intros Hw. remember (length cs) as n eqn:Hn. revert cs Hn. induction n as [n IH] using lt_wf_ind; intros cs Hn Ha.
  rewrite cut_rows_step by (try done; apply Ha). cbn [length]. destruct (decide ((first_row w cs).2 = [])) as [Hb | Hb].
  - rewrite Hb. cbn. pose proof (first_row_rest w cs) as Hr. rewrite Hb in Hr. cbn in Hr. symmetry. apply counted_one; lia.
  - destruct (counts_agree_rest w cs Hw Ha Hb) as [Ha' Hp]. rewrite first_row_rest in Hp.
    pose proof (f_equal length (first_row_app w cs)) as Hlen. rewrite length_app in Hlen.
    destruct cs as [| c cs]; [by destruct Ha |]. destruct w as [| w]; [lia |]. pose proof (first_row_shorter w c cs). cbn [length] in Hn.
    rewrite (IH (length (first_row (S w) (c :: cs)).2)) by (try done; lia). rewrite (counted_full (S w) (c :: cs)) by lia.
    unfold counted. rewrite first_row_rest. done.
Qed.

Lemma painted_length b sgr rows : length (painted_rows b sgr rows) = length rows.
Proof. revert b sgr. induction rows as [| r rows IH]; intros b sgr; cbn; [done |]. by rewrite IH. Qed.

Lemma cell_not_lf cs : Forall cell_ok cs -> starts_with (bytes_of cs) LF = false.
Proof. intros Hp. destruct Hp as [| [c | s f] cs Hc _]; [done | | done]. apply bool_decide_eq_false_2. intros [=]. by destruct Hc. Qed.

Lemma bytes_cons c cs : bytes_of (c :: cs) = cell_bytes c ++ bytes_of cs.
Proof. done. Qed.

Lemma glyph_tests c p : cell_ok (Glyph c) -> bool_decide (c = ESC) && starts_with p "["%char = false /\ bool_decide (c = LF) = false.
Proof. intros [H1 H2]. by rewrite !bool_decide_eq_false_2. Qed.

(** *** Scanning *)

Lemma scan_parameters s f col width sgr sq shown pending p : cell_ok (Sequence s f) ->
  scan_row RSequence col width sgr sq shown pending (s ++ f :: p) =
  scan_row RText col width (if ceq f "m" && (length (sq ++ s ++ [f]) <? 64)%nat then sq ++ s ++ [f] else sgr) [] shown (pending ++ s ++ [f]) p.
Proof.
  intros [Hs Hf]. revert sq pending. induction Hs as [| c s Hc Hs IH]; intros sq pending; cbn [app scan_row]; [by rewrite Hf |].
  rewrite Hc, IH. by rewrite <- !app_assoc.
Qed.

Lemma scan_cells cs col width sgr sq shown pending : 0 <= col <= width -> Forall cell_ok cs ->
  exists pending', scan_row RText col width sgr sq shown pending (bytes_of cs) =
    let '(a, b) := first_row (Z.to_nat (width - col)) cs in
    (match trimmed a with [] => shown | t => shown ++ pending ++ bytes_of t end, pending', bytes_of b, last_colour sgr a).
Proof.
  intros Hc Hp. revert col sgr sq shown pending Hc. induction Hp as [| c cs Hok Hp IH]; intros col sgr sq shown pending Hc.
  { exists pending. by destruct (Z.to_nat (width - col)). }
  destruct (Z.leb_spec width col) as [Hle | Hlt].
  { replace (Z.to_nat (width - col)) with O by lia. exists pending. cbn [first_row trimmed last_colour].
    destruct c as [c | s f]; cbn [bytes_of map concat cell_bytes app scan_row]; by rewrite (proj2 (Z.leb_le _ _)) by done. }
  destruct (Z.to_nat (width - col)) as [| w] eqn:Hw; [lia |]. destruct c as [c | s f].
  - destruct (glyph_tests c (bytes_of cs) Hok) as [H1 H2]. rewrite bytes_cons. cbn [cell_bytes app scan_row].
    rewrite (proj2 (Z.leb_gt _ _)), H1, H2 by done. destruct (IH (col + 1) sgr sq (shown ++ pending ++ [c]) [] ltac:(lia)) as [pd Hpd].
    replace (Z.to_nat (width - (col + 1))) with w in Hpd by lia. exists pd. rewrite Hpd. cbn [first_row]. destruct (first_row w cs) as [a b].
    cbn [trimmed last_colour]. destruct (trimmed a); [done |]. by rewrite !bytes_cons, <- !app_assoc.
  - rewrite bytes_cons. cbn [cell_bytes app scan_row]. rewrite (proj2 (Z.leb_gt _ _)) by done. cbn [starts_with head andb]. rewrite !bool_decide_eq_true_2 by done.
    cbn [andb scan_row]. rewrite <- app_assoc. cbn [app]. rewrite scan_parameters by done.
    set (sgr' := if ceq f "m" && _ then _ else _). destruct (IH col sgr' [] shown (((pending ++ [ESC]) ++ ["["%char]) ++ s ++ [f]) ltac:(lia)) as [pd Hpd]. exists pd. rewrite Hpd, Hw.
    cbn [first_row]. destruct (first_row (S w) cs) as [a b]. cbn [trimmed last_colour].
    assert (Hs : sgr' = if ceq f "m" && (length s + 3 <? 64)%nat then cell_bytes (Sequence s f) else sgr).
    { unfold sgr'. cbn [app length]. rewrite length_app. cbn [length]. by replace (S (S (length s + 1))) with (length s + 3)%nat by lia. }
    rewrite Hs. destruct (trimmed a); [done |]. rewrite !bytes_cons. cbn [cell_bytes]. repeat (rewrite <- ?app_assoc; cbn [app]). done.
Qed.

(** *** Counting *)

Lemma count_parameters s f rows col width p : cell_ok (Sequence s f) ->
  line_rows RSequence rows col width (s ++ f :: p) = line_rows RText rows col width p.
Proof. intros [Hs Hf]. induction Hs as [| c s Hc Hs IH]; cbn [app line_rows]; [by rewrite Hf | by rewrite Hc]. Qed.

Lemma line_rows_cells cs rows col width : 0 <= col <= width -> 0 < width -> Forall cell_ok cs ->
  line_rows RText rows col width (bytes_of cs) = rows + (Z.max 0 (col + Z.of_nat (glyphs cs) - width) + width - 1) / width.
Proof.
  intros Hc Hw Hp. revert rows col Hc. induction Hp as [| c cs Hok Hp IH]; intros rows col Hc.
  - cbn [bytes_of map concat line_rows glyphs]. rewrite Z.div_small by lia. lia.
  - rewrite bytes_cons. destruct c as [c | s f]; cbn [cell_bytes app line_rows glyphs].
    + destruct (glyph_tests c (bytes_of cs) Hok) as [-> ->]. destruct (Z.ltb_spec width (col + 1)).
      * rewrite IH by lia. replace (Z.max 0 (col + Z.of_nat (S (glyphs cs)) - width) + width - 1) with (Z.of_nat (glyphs cs) + 1 * width) by lia.
        rewrite Z.div_add by lia. destruct (Z.leb_spec (1 + Z.of_nat (glyphs cs)) width).
        -- rewrite Z.max_l, !Z.div_small by lia. lia.
        -- replace (Z.max 0 (1 + Z.of_nat (glyphs cs) - width) + width - 1) with (Z.of_nat (glyphs cs)) by lia. lia.
      * rewrite IH by lia. do 4 f_equal. lia.
    + cbn [starts_with head]. rewrite !bool_decide_eq_true_2 by done. cbn [andb line_rows]. rewrite <- app_assoc. cbn [app].
      by rewrite count_parameters, IH.
Qed.

Lemma counted_rows width cs : 0 < width -> Forall cell_ok cs ->
  tui_line_rows (Some (bytes_of cs)) width = Z.of_nat (counted (Z.to_nat width) cs).
Proof.
  intros Hw Hok. unfold tui_line_rows. rewrite (proj2 (Z.leb_gt _ _)), line_rows_cells by (try done; lia). unfold counted.
  rewrite Nat2Z.inj_max, Nat2Z.inj_div, !Nat2Z.inj_sub, Nat2Z.inj_add, Z2Nat.id by lia. rewrite Z.add_0_l.
  destruct (Z.leb_spec (Z.of_nat (glyphs cs)) width) as [Hle | Hgt].
  - rewrite Z.max_l, (Z.div_small (0 + width - 1)) by lia. rewrite Z.max_l; [done |]. apply Z.lt_succ_r, Z.div_lt_upper_bound; lia.
  - replace (Z.of_nat (glyphs cs) + width - Z.of_nat 1) with ((Z.of_nat (glyphs cs) - width) + width - 1 + 1 * width) by lia.
    rewrite Z.div_add by lia. rewrite Z.max_r by lia. assert (0 <= (Z.of_nat (glyphs cs) - width + width - 1) / width) by (apply Z.div_pos; lia). lia.
Qed.

Lemma counted_rows_all width cells : 0 < width -> Forall (Forall cell_ok) cells ->
  rows_of width (map bytes_of cells) = Z.of_nat (counted_all (Z.to_nat width) cells).
Proof.
  intros Hw Hok. induction Hok as [| cs cells Hcs Hok IH]; [done |]. cbn [map].
  change (rows_of width (bytes_of cs :: map bytes_of cells)) with (tui_line_rows (Some (bytes_of cs)) width + rows_of width (map bytes_of cells)).
  rewrite counted_rows, IH by done. cbn [counted_all foldr]. unfold counted_all. lia.
Qed.

(** ** Drawing rows *)

(** The loop over the rows of all messages. *)
Fixpoint draw_painted (rows : Z) (k : cursor) (ps : list (bstr * bstr)) : list drawn * cursor :=
  match ps with
  | [] => ([], k)
  | p :: ps =>
      if negb (row k <? rows - 1) then ([], k)
      else
        let skipped := first_message k && (0 <? skip_rows k) in
        let skip := if skipped then skip_rows k - 1 else skip_rows k in
        let '(ds, k') := draw_painted rows (Cursor (first_message k && negb (skip =? 0)) skip (if skipped then row k else row k + 1)) ps in
        (if skipped then ds else Drawn (row k) p.1 p.2 :: ds, k')
  end.

Lemma message_cells fuel rows width k more sgr cs : 0 < width -> Forall cell_ok cs -> 0 <= skip_rows k ->
  (Z.to_nat (skip_rows k + (rows - 1 - row k)) <= fuel)%nat ->
  message_loop fuel rows width k more sgr (bytes_of cs) = draw_painted rows k (painted_rows (negb more) sgr (cut_rows (Z.to_nat width) cs)).
Proof.
  intros Hw. revert k more sgr cs. induction fuel as [| fuel IH]; intros k more sgr cs Hp Hs Hf.
  - destruct cs as [| c cs]; [done |]. rewrite cut_rows_step by (done || lia). cbn [message_loop painted_rows draw_painted]. by rewrite (proj2 (Z.ltb_ge _ _)) by lia.
  - destruct (decide (cs = [])) as [-> | Hne]; [done |]. rewrite cut_rows_step by (done || lia). cbn [painted_rows draw_painted].
    assert (Hcons : exists x t, bytes_of cs = x :: t) by (destruct cs as [| [c | s f] cs]; [done | by eexists _, _..]).
    destruct Hcons as (x & t & Ht). rewrite Ht. cbn [message_loop]. rewrite <- Ht. clear x t Ht.
    destruct (Z.ltb_spec (row k) (rows - 1)); cbn [negb]; [| done].
    destruct (scan_cells cs 0 width sgr [] [] [] ltac:(lia) Hp) as [pd Hpd]. rewrite Z.sub_0_r in Hpd. rewrite Hpd.
    pose proof (first_row_app (Z.to_nat width) cs) as Happ. destruct (first_row (Z.to_nat width) cs) as [a b]. cbn [fst snd] in *.
    assert (Hb : Forall cell_ok b) by (rewrite <- Happ in Hp; by apply Forall_app in Hp as [_ Hp]).
    rewrite (cell_not_lf b Hb), andb_false_r.
    rewrite IH; [| done | cbn; destruct (first_message k), (Z.ltb_spec 0 (skip_rows k)); cbn; lia |
      cbn; destruct (first_message k), (Z.ltb_spec 0 (skip_rows k)); cbn; lia].
    cbn [negb]. destruct (draw_painted _ _ _). by destruct (trimmed a), more.
Qed.

Lemma draw_painted_app rows k a b :
  draw_painted rows k (a ++ b) = let '(d, k) := draw_painted rows k a in let '(d', k) := draw_painted rows k b in (d ++ d', k).
Proof.
  revert k. induction a as [| c a IH]; intros k; cbn [draw_painted app]; [by destruct (draw_painted rows k b) |].
  destruct (row k <? rows - 1) eqn:Hr; cbn [negb].
  - rewrite IH. set (k1 := Cursor _ _ _). destruct (draw_painted rows k1 a) as [d k']. destruct (draw_painted rows k' b) as [d' k''].
    by destruct (first_message k && (0 <? skip_rows k)).
  - destruct b; cbn [draw_painted]; by rewrite ?Hr.
Qed.

Lemma draw_painted_skip rows k cs : 0 <= skip_rows k -> 0 <= skip_rows (draw_painted rows k cs).2.
Proof.
  revert k. induction cs as [| c cs IH]; intros k Hk; cbn [draw_painted]; [done |].
  destruct (row k <? rows - 1); cbn [negb]; [| done]. set (k1 := Cursor _ _ _).
  specialize (IH k1 ltac:(unfold k1; cbn; destruct (first_message k), (Z.ltb_spec 0 (skip_rows k)); cbn; lia)).
  by destruct (draw_painted rows k1 cs).
Qed.

Lemma draw_painted_full rows k cs : rows - 1 <= row k -> draw_painted rows k cs = ([], k).
Proof. intros Hk. destruct cs; cbn [draw_painted]; [done |]. by rewrite (proj2 (Z.ltb_ge _ _)) by lia. Qed.

(** The slots visited: lines, and slots that hold none. *)
Lemma messages_cells rows width k (slots : list (option (list cell))) : 0 < width -> Forall (fun l => match l with Some cs => Forall cell_ok cs | None => True end) slots ->
  0 <= skip_rows k ->
  draw_messages rows width k (map (option_map bytes_of) slots) =
  draw_painted rows k (concat (map (fun l => match l with Some cs => painted (Z.to_nat width) cs | None => [] end) slots)).
Proof.
  intros Hw Hls. revert k. induction Hls as [| l ls Hl Hls IH]; intros k Hk; cbn [draw_messages map concat option_map]; [done |].
  rewrite draw_painted_app. destruct (Z.ltb_spec (row k) (rows - 1)); cbn [negb].
  - destruct l as [cs |]; [| by rewrite IH by done; cbn [draw_painted]; destruct (draw_painted _ _ _)].
    cbn [option_map]. unfold draw_message. rewrite message_cells by done. change (painted_rows (negb false) [] _) with (painted (Z.to_nat width) cs).
    pose proof (draw_painted_skip rows k (painted (Z.to_nat width) cs) Hk) as Hk'. destruct (draw_painted rows k _) as [ds k']. by rewrite IH.
  - by rewrite !draw_painted_full by lia.
Qed.

(** ** The log area *)

(** Colours and texts on successive rows. *)
Definition rows_at (r : Z) (ps : list (bstr * bstr)) : list drawn := imap (fun i p => Drawn (r + Z.of_nat i) p.1 p.2) ps.

Lemma rows_at_cons r p ps : rows_at r (p :: ps) = Drawn r p.1 p.2 :: rows_at (r + 1) ps.
Proof. unfold rows_at. rewrite imap_cons. f_equal; [f_equal; lia |]. apply imap_ext. intros i x _. cbn. f_equal. lia. Qed.

Lemma rows_at_app r a b : rows_at r (a ++ b) = rows_at r a ++ rows_at (r + Z.of_nat (length a)) b.
Proof. unfold rows_at. rewrite imap_app. f_equal. apply imap_ext. intros i x _. cbn. f_equal. lia. Qed.

Lemma draw_rest rows k cs : first_message k = false \/ skip_rows k = 0 ->
  let shown := take (Z.to_nat (rows - 1 - row k)) cs in
  (draw_painted rows k cs).1 = rows_at (row k) shown /\ row (draw_painted rows k cs).2 = row k + Z.of_nat (length shown).
Proof.
  cbv zeta. revert k. induction cs as [| c cs IH]; intros k Hk; cbn [draw_painted]; [rewrite take_nil; split; [done | cbn; lia] |].
  destruct (Z.ltb_spec (row k) (rows - 1)); cbn [negb].
  - assert (Hs : first_message k && (0 <? skip_rows k) = false) by (destruct Hk as [-> | ->]; [done | apply andb_false_r]). rewrite Hs.
    set (k1 := Cursor _ _ _). destruct (IH k1) as [H1 H2]; [destruct Hk as [Hf | Hz]; cbn; [rewrite Hf; by left | by right] |].
    destruct (draw_painted rows k1 cs) as [ds k']. replace (Z.to_nat (rows - 1 - row k)) with (S (Z.to_nat (rows - 1 - row k1))) by (cbn; lia).
    cbn [take fst snd length] in *. rewrite rows_at_cons. split; [by rewrite H1 | rewrite H2; cbn; lia].
  - replace (Z.to_nat (rows - 1 - row k)) with O by lia. rewrite take_0. split; [done | cbn; lia].
Qed.

Lemma draw_skip rows s r cs : r < rows - 1 ->
  let shown := take (Z.to_nat (rows - 1 - r)) (drop s cs) in
  (draw_painted rows (Cursor true (Z.of_nat s) r) cs).1 = rows_at r shown /\
  row (draw_painted rows (Cursor true (Z.of_nat s) r) cs).2 = r + Z.of_nat (length shown).
Proof.
  intros Hr. cbv zeta. revert s. induction cs as [| c cs IH]; intros [| s]; try by apply (draw_rest rows (Cursor true 0 r)); right.
  - cbn [draw_painted]. rewrite drop_nil, take_nil. split; [done | cbn; lia].
  - cbn [draw_painted row first_message skip_rows]. rewrite (proj2 (Z.ltb_lt _ _)) by done. cbn [negb].
    rewrite (proj2 (Z.ltb_lt _ _)) by lia. cbn [andb]. replace (Z.of_nat (S s) - 1) with (Z.of_nat s) by lia.
    destruct (Z.eqb_spec (Z.of_nat s) 0) as [Hz | Hz]; cbn [negb].
    + assert (s = O) as -> by lia. generalize (draw_rest rows (Cursor false 0 r) cs (or_introl eq_refl)).
      change (drop 1 (c :: cs)) with cs. change (Z.of_nat 0) with 0. by destruct (draw_painted rows (Cursor false 0 r) cs).
    + generalize (IH s). cbn [drop]. by destruct (draw_painted rows (Cursor true (Z.of_nat s) r) cs).
Qed.

Lemma find_start_cells width skip i cells : 0 < width -> Forall (Forall cell_ok) cells -> (skip < counted_all (Z.to_nat width) cells)%nat ->
  exists j s cs, find_start width (Z.of_nat skip) i (map Some (map bytes_of cells)) = ((i + j)%nat, Z.of_nat s) /\
    cells !! j = Some cs /\ (s < counted (Z.to_nat width) cs)%nat /\ skip = (counted_all (Z.to_nat width) (take j cells) + s)%nat.
Proof.
  intros Hw Hls. revert skip i. induction Hls as [| cs cells Hcs Hls IH]; intros skip i Hs; [cbn in Hs; lia |]. cbn [map find_start].
  cbn [counted_all foldr] in Hs. fold (counted_all (Z.to_nat width) cells) in Hs. rewrite counted_rows by done.
  destruct (Z.ltb_spec (Z.of_nat skip) (Z.of_nat (counted (Z.to_nat width) cs))).
  - exists O, skip, cs. split_and!; [f_equal; lia | done | lia | done].
  - destruct (IH (skip - counted (Z.to_nat width) cs)%nat (S i) ltac:(lia)) as (j & s & c & Hf & Hj & Hsc & He).
    exists (S j), s, c. rewrite Nat2Z.inj_sub in Hf by lia. rewrite Hf. split_and!; [f_equal; lia | done | done |].
    cbn [take counted_all foldr]. fold (counted_all (Z.to_nat width) (take j cells)). lia.
Qed.

(** *** Around the ring *)

Definition oldest (w : window) : Z := Z.rem (log_head w + Z.of_nat LOG_LINES - log_count w) (Z.of_nat LOG_LINES).

Lemma ring_slot w ls m : holds w ls -> (m < LOG_LINES)%nat -> mjoin (buffer w !! Z.to_nat (Z.rem (oldest w + Z.of_nat m) (Z.of_nat LOG_LINES))) = ls !! m.
Proof.
  intros Hw Hm. pose proof (hold_count _ _ Hw) as Hc. pose proof (hold_bound _ _ Hw) as Hb. destruct (decide (m < length ls)%nat) as [Hl | Hl].
  - pose proof (f_equal (fun l => l !! m) (hold_lines _ _ Hw)) as He. cbv beta in He. unfold shown_lines in He. fold (oldest w) in He. rewrite Hc, Nat2Z.id, !list_lookup_fmap, lookup_seq_lt in He by done. destruct (ls !! m) eqn:E; [| apply lookup_ge_None in E; lia]. cbn in He. by injection He as ->.
  - unfold LOG_LINES in *. destruct (hold_spare _ _ Hw) as [Hh Hs]; [unfold LOG_LINES; lia |].
    assert (Ho : oldest w = 0) by (unfold oldest; rewrite Hc, Hh; unfold LOG_LINES; by replace (Z.of_nat (length ls) + Z.of_nat 500 - Z.of_nat (length ls)) with 500 by lia).
    rewrite Ho, Z.rem_small, Z.add_0_l, Nat2Z.id by lia. rewrite Hs by (unfold LOG_LINES; lia). by rewrite lookup_ge_None_2 by lia.
Qed.

Lemma draw_order_slots w ls start : holds w ls -> (start <= length ls)%nat ->
  draw_order w start = map Some (drop start ls) ++ replicate (start `min` (LOG_LINES - length ls)) None ++ map Some (take (start + length ls - LOG_LINES) ls).
Proof.
  intros Hw Hs. pose proof (hold_bound _ _ Hw) as Hb. unfold draw_order. fold (oldest w). rewrite (hold_count _ _ Hw), Nat2Z.id. apply list_eq. intros i.
  assert (Hlen : (length ls = length (map Some (drop start ls)) + start `min` (LOG_LINES - length ls) + length (map Some (take (start + length ls - LOG_LINES) ls)))%nat)
    by (rewrite !length_map, length_drop, length_take; lia).
  destruct (decide (i < length ls)%nat) as [Hi | Hi].
  2: { rewrite !lookup_ge_None_2; [done | rewrite !length_app, length_replicate; lia | rewrite length_map, length_seq; lia]. }
  rewrite list_lookup_fmap, lookup_seq_lt by done. cbn [fmap option_fmap option_map Nat.add].
  assert (Hslot : forall m k, (m + k * LOG_LINES = start + i)%nat -> (m < LOG_LINES)%nat ->
    mjoin (buffer w !! Z.to_nat (Z.rem (oldest w + Z.of_nat (start + i)) (Z.of_nat LOG_LINES))) = ls !! m).
  { intros m k Hk Hm. rewrite <- (ring_slot w ls m Hw Hm), <- Hk. do 3 f_equal. pose proof (hold_head _ _ Hw). pose proof (hold_count _ _ Hw).
    assert (0 <= oldest w) by (unfold oldest, LOG_LINES in *; apply Z.rem_nonneg; lia).
    rewrite !Z.rem_mod_nonneg by (unfold LOG_LINES in *; lia). rewrite Nat2Z.inj_add, Nat2Z.inj_mul, Z.add_assoc. apply Z.mod_add. unfold LOG_LINES. lia. }
  assert (HF : forall (l : list bstr) n, (n < length l)%nat -> map Some l !! n = Some (l !! n)).
  { intros l n Hn. rewrite list_lookup_fmap. destruct (l !! n) eqn:E; [done |]. apply lookup_ge_None in E. lia. }
  destruct (decide (i < length ls - start)%nat) as [H1 | H1].
  { rewrite lookup_app_l, HF, lookup_drop by (rewrite ?length_map, length_drop; lia). f_equal. apply (Hslot _ O); lia. }
  rewrite lookup_app_r by (rewrite length_map, length_drop; lia). rewrite length_map, length_drop.
  destruct (decide (start + i < LOG_LINES)%nat) as [H2 | H2].
  - rewrite lookup_app_l by (rewrite length_replicate; lia). rewrite lookup_replicate_2 by lia. f_equal. rewrite (Hslot (start + i)%nat O) by lia. apply lookup_ge_None_2. lia.
  - rewrite lookup_app_r by (rewrite length_replicate; lia). rewrite length_replicate, HF by (rewrite length_take; lia). rewrite lookup_take_lt by lia.
    f_equal. apply (Hslot _ 1%nat); lia.
Qed.

Lemma blank_rows r n : map (fun i => Drawn (r + Z.of_nat i) [] []) (seq 0 n) = rows_at r (replicate n ([], [])).
Proof.
  unfold rows_at. apply list_eq. intros i. rewrite list_lookup_imap, list_lookup_fmap.
  destruct (decide (i < n)%nat); [by rewrite lookup_seq_lt, lookup_replicate_2 by done |].
  rewrite !lookup_ge_None_2; [done | rewrite length_replicate; lia | rewrite length_seq; lia].
Qed.

(** What is drawn from the message found. *)
Definition from_line (width j s : nat) (cells : list (list cell)) : list (bstr * bstr) :=
  drop s (concat (map (painted width) (drop j cells ++ take (j + length cells - LOG_LINES) cells))).

Lemma draw_log_from st w cells j s : holds w (map bytes_of cells) -> Forall (Forall cell_ok) cells -> 0 < term_cols st -> 4 <= term_rows st ->
  find_start (term_cols st) (target_row st w) 0 (map Some (map bytes_of cells)) = (j, Z.of_nat s) -> (j <= length cells)%nat ->
  let area := Z.to_nat (term_rows st - 3) in
  let slice := take area (from_line (Z.to_nat (term_cols st)) j s cells) in
  draw_log st w = rows_at 2 (slice ++ replicate (area - length slice) ([], [])).
Proof.
  intros Hw Hok Hcols Hrows Hf Hj. cbv zeta. unfold draw_log. rewrite (hold_lines _ _ Hw), Hf.
  rewrite (draw_order_slots w _ j Hw) by by rewrite length_map. rewrite length_map.
  set (slots := map Some (drop j cells) ++ replicate (j `min` (LOG_LINES - length cells)) None ++ map Some (take (j + length cells - LOG_LINES) cells)).
  assert (Hslots : map Some (drop j (map bytes_of cells)) ++ replicate (j `min` (LOG_LINES - length cells)) None ++ map Some (take (j + length cells - LOG_LINES) (map bytes_of cells))
    = map (option_map bytes_of) slots).
  { unfold slots. rewrite !map_app, !map_map, skipn_map, firstn_map, !map_map. do 2 f_equal. symmetry. apply (fmap_replicate (option_map bytes_of)). }
  rewrite Hslots, messages_cells; [| done | | cbn; lia].
  2: { unfold slots. apply Forall_app. split; [| apply Forall_app; split]; rewrite ?Forall_map; try by (apply Forall_drop || apply Forall_take).
       by apply Forall_replicate. }
  assert (Hconcat : concat (map (fun l => match l with Some cs => painted (Z.to_nat (term_cols st)) cs | None => [] end) slots) =
    concat (map (painted (Z.to_nat (term_cols st))) (drop j cells ++ take (j + length cells - LOG_LINES) cells))).
  { unfold slots. rewrite !map_app, !map_map, !concat_app. f_equal. clear.
    set (n := (j `min` (LOG_LINES - length cells))%nat). clearbody n. induction n as [| n IH]; [done | exact IH]. }
  rewrite Hconcat. set (ps := concat _). destruct (draw_skip (term_rows st) s 2 ps ltac:(lia)) as [H1 H2].
  replace (term_rows st - 1 - 2) with (term_rows st - 3) in H1, H2 by lia. change (drop s ps) with (from_line (Z.to_nat (term_cols st)) j s cells) in *.
  destruct (draw_painted _ _ _) as [ds k]. cbn [fst snd] in H1, H2. rewrite H1, rows_at_app, H2, blank_rows. do 3 f_equal. lia.
Qed.

(** What is shown of the rows [ps]: as many as fit, from row 2 on, then empty rows. *)
Definition shows (st : tui) (w : window) (ps : list (bstr * bstr)) : Prop :=
  let area := Z.to_nat (term_rows st - 3) in
  draw_log st w = rows_at 2 (take area ps ++ replicate (area - length (take area ps)) ([], [])).

Lemma agreed_drop w j s cells : (0 < w)%nat -> Forall (counts_agree w) cells ->
  drop (counted_all w (take j cells) + s) (concat (map (painted w) cells)) = drop s (concat (map (painted w) (drop j cells))).
Proof.
  intros Hw Ha. revert j. induction Ha as [| cs cells Hcs Ha IH]; intros j; [by rewrite drop_nil, take_nil |]. destruct j as [| j]; [done |].
  cbn [take counted_all foldr map concat drop]. fold (counted_all w (take j cells)). unfold painted at 1. rewrite <- Nat.add_assoc, <- drop_drop.
  rewrite drop_app_length'; [apply IH |]. by rewrite painted_length, agreed_rows.
Qed.

Lemma agreed_total w cells : (0 < w)%nat -> Forall (counts_agree w) cells -> length (concat (map (painted w) cells)) = counted_all w cells.
Proof.
  intros Hw Ha. induction Ha as [| cs cells Hcs Ha IH]; [done |]. cbn [map concat counted_all foldr]. fold (counted_all w cells).
  unfold painted at 1. by rewrite length_app, painted_length, agreed_rows, IH.
Qed.

(** The line found for the row [target]. *)
Lemma found_line width area target cells : 0 < width -> Forall (Forall cell_ok) cells ->
  let total := counted_all (Z.to_nat width) cells in
  (0 < area)%nat -> (target <= total - area)%nat ->
  exists j s, find_start width (Z.of_nat target) 0 (map Some (map bytes_of cells)) = (j, Z.of_nat s) /\ (j <= length cells)%nat /\
    (counted_all (Z.to_nat width) (take j cells) + s = target)%nat /\
    (if decide (total <= area)%nat then j = O else exists cs, cells !! j = Some cs /\ (s < counted (Z.to_nat width) cs)%nat).
Proof.
  intros Hw Hok total Harea Htarget. destruct (decide (target < total)%nat) as [Hlt | Hge].
  - destruct (find_start_cells width target 0 cells Hw Hok Hlt) as (j & s & cs & Hf & Hj & Hs & He).
    exists j, s. pose proof (lookup_lt_Some _ _ _ Hj). split_and!; [done | lia | lia |]. case_decide; [| by exists cs].
    assert (target = O) by lia. destruct j as [| j]; [done |]. destruct cells as [| c cells]; [done |]. cbn [take counted_all foldr] in He. unfold counted in He at 1. lia.
  - assert (Hz : total = O) by lia. assert (cells = []) as -> by (destruct cells as [| c cells]; [done |]; unfold total in Hz; cbn [counted_all foldr] in Hz; unfold counted in Hz at 1; lia).
    exists O, target. rewrite decide_True by (unfold total; cbn; lia). split_and!; [done | lia | done | done].
Qed.

(** C37: lines of characters and complete control sequences are cut into rows after
    each [width]th character, and a row is written from its first cell to its last
    character, a row that continues a line after the last colour of the line up to
    the end of that row.  Rows are counted by the characters, at least one a line.
    The log area shows as many rows as fit, from row 2 on, then empty rows: those
    after the [target] rows that are to be passed over, by the count.  If the count is
    that of the rows drawn, for every line, these are the rows of the scrollback from
    [target] on, none twice or left out, and the newest is the last when the window is
    not scrolled.  In any case they are those from the line found by the count on; when
    the newest line does not fill the area, the oldest ones follow, as far as the ring
    is gone round. *)
Theorem log_area_shows_slice st w cells (Hw : holds w (map bytes_of cells)) (Hok : Forall (Forall cell_ok) cells)
    (Hcols : 0 < term_cols st) (Hrows : 4 <= term_rows st) :
  let width := Z.to_nat (term_cols st) in
  let area := Z.to_nat (term_rows st - 3) in
  let total := counted_all width cells in
  let all := concat (map (painted width) cells) in
  let target := (total - area - Z.to_nat (scroll_offset w))%nat in
  0 <= scroll_offset w <= Z.of_nat (total - area) ->
  (Forall (counts_agree width) cells ->
     shows st w (drop target all) /\
     (scroll_offset w = 0 -> (area <= length all)%nat -> last (take area (drop target all)) = last all)) /\
  (exists j s, (counted_all width (take j cells) + s = target)%nat /\
     (if decide (total <= area)%nat then j = O else exists cs, cells !! j = Some cs /\ (s < counted width cs)%nat) /\
     shows st w (drop s (concat (map (painted width) (drop j cells ++ take (j + length cells - LOG_LINES) cells))))).
Proof.
  cbv zeta. intros Ho. pose proof (total_rows_holds (term_cols st) w _ Hw) as Ht. rewrite (counted_rows_all _ _ Hcols Hok) in Ht.
  set (width := Z.to_nat (term_cols st)) in *. set (total := counted_all width cells) in *. set (area := Z.to_nat (term_rows st - 3)) in *.
  assert (Hwidth : (0 < width)%nat) by (unfold width; lia).
  assert (Htarget : target_row st w = Z.of_nat (total - area - Z.to_nat (scroll_offset w))) by (unfold target_row; rewrite Ht; case_match; lia).
  set (target := (total - area - Z.to_nat (scroll_offset w))%nat) in *.
  destruct (found_line (term_cols st) area target cells Hcols Hok) as (j & s & Hf & Hj & Hsum & Hcase); [lia | fold width total; lia |]. fold width total in Hsum, Hcase. rewrite <- Htarget in Hf.
  pose proof (draw_log_from st w cells j s Hw Hok Hcols Hrows Hf Hj) as Hdraw. cbv zeta in Hdraw. fold width area in Hdraw.
  split; [| by exists j, s]. intros Ha. assert (Hall : shows st w (drop target (concat (map (painted width) cells)))).
  { unfold shows. fold area. rewrite Hdraw. unfold from_line. rewrite map_app, concat_app. rewrite <- Hsum, agreed_drop by done.
    case_decide.
    - subst j. cbn [take counted_all foldr] in Hsum. rewrite (proj2 (Nat.sub_0_le (0 + length cells) LOG_LINES)); [| pose proof (hold_bound _ _ Hw) as Hb; rewrite length_map in Hb; lia].
      by rewrite take_0, app_nil_r.
    - assert (Hl : (s + area <= length (concat (map (painted width) (drop j cells))))%nat).
      { pose proof (agreed_total width (take j cells) Hwidth (Forall_take _ _ _ Ha)) as H1. pose proof (agreed_total width (drop j cells) Hwidth (Forall_drop _ _ _ Ha)) as H2.
        pose proof (agreed_total width cells Hwidth Ha) as H3. rewrite <- (take_drop j cells), map_app, concat_app, length_app in H3 at 1. fold total in H3. lia. }
      rewrite drop_app_le by lia. by rewrite (take_app_le (drop s _)) by (rewrite length_drop; lia). }
  split; [done |]. intros Hz Hle. rewrite agreed_total in Hle by done. fold total in Hle.
  rewrite take_ge by (rewrite length_drop, agreed_total by done; fold total; lia).
  rewrite !last_lookup, lookup_drop, length_drop, agreed_total by done. fold total. f_equal. lia.
Qed.

(** Two rows of four columns: a long line and one in colours, whose rows agree with
    the count; and a line followed by two empty ones, which are counted but not drawn:
    nothing is shown. *)
Lemma log_area_shows_slice_witness :
  let st := Tui [] 0 1 true true 5 4 in
  let filled ls := foldl (fun w l => append_line st l w) (new_window 1 (B "a")) ls in
  draw_log st (filled [B "abcdefg"; csi (B "31") ++ B "hij" ++ csi (B "32") ++ B "klm" ++ csi (B "0")]) =
    [Drawn 2 [] (csi (B "31") ++ B "hij" ++ csi (B "32") ++ B "k"); Drawn 3 (csi (B "0")) (B "lm")] /\
  draw_log st (filled [B "abcdefgh"; []; []]) = [Drawn 2 [] []; Drawn 3 [] []].
Proof.
  cbv beta zeta. set (st := Tui [] 0 1 true true 5 4).
  assert (Hholds : forall ls, (length ls <= 500)%nat -> holds (foldl (fun w l => append_line st l w) (new_window 1 (B "a")) ls) ls).
  { intros ls Hl. pose proof (prints_hold st ls _ [] (empty_holds (new_window 1 (B "a")) eq_refl eq_refl eq_refl)) as H. cbn [app] in H.
    unfold newest in H. by rewrite (proj2 (Nat.sub_0_le (length ls) LOG_LINES) Hl) in H. }
  set (text := map Glyph). set (cells1 := [text (B "abcdefg"); Sequence (B "31") "m"%char :: text (B "hij") ++ Sequence (B "32") "m"%char :: text (B "klm") ++ [Sequence (B "0") "m"%char]]).
  set (cells2 := [text (B "abcdefgh"); []; []]). split.
  - destruct (log_area_shows_slice st _ cells1 (Hholds (map bytes_of cells1) ltac:(vm_compute; lia))) as [H _].
    + repeat constructor; try discriminate; apply (bool_decide_unpack _); vm_compute; exact I.
    + reflexivity.
    + discriminate.
    + vm_compute. split; discriminate.
    + assert (Ha : Forall (counts_agree 4) cells1).
      { apply Forall_cons. split; [| apply Forall_cons; split; [| by apply Forall_nil]]; (split; [discriminate |]); intros _ [[| [| z]] Hz]; discriminate Hz. }
      destruct (H Ha) as [Hs _]. etrans; [exact Hs |]. vm_compute. reflexivity.
  - destruct (log_area_shows_slice st _ cells2 (Hholds (map bytes_of cells2) ltac:(vm_compute; lia))) as [_ (j & s & Hs & Hj & H)].
    + repeat constructor; discriminate.
    + reflexivity.
    + discriminate.
    + vm_compute. split; discriminate.
    + rewrite decide_False in Hj by (vm_compute; lia). destruct Hj as (cs & Hcs & Hlt). change (5 - 3) with 2 in Hs. change (scroll_offset _) with 0 in Hs.
      assert (j = 1%nat /\ s = 0%nat) as [-> ->]; [| etrans; [exact H |]; vm_compute; reflexivity].
      vm_compute in Hs. destruct j as [| [| [| j]]]; cbn in Hcs; try discriminate Hcs; injection Hcs as <-; vm_compute in Hlt, Hs; lia.
Defined.

(** Lines whose rows are counted and drawn differently: an empty line, a line
    that ends in a newline, and a line of the width of the screen with a colour
    that is reset at its end. *)
Theorem row_counts_differ :
  let rows l := (tui_line_rows (Some l) 4, Z.of_nat (length (draw_message 24 4 (Cursor true 0 2) l).1)) in
  rows (B "abcdef") = (2, 2) /\ rows [] = (1, 0) /\ rows (B "ab" ++ [LF]) = (2, 1) /\ rows (csi (B "1") ++ B "abcd" ++ reset_sgr) = (1, 2).
Proof. cbv zeta. by split_and!. Qed.

(** ** The input line *)

(** The input with its placeholders. *)
Definition expanded (input : bstr) : bstr := concat (map placeholder input).

Lemma expands_single c : expands c = false -> length (placeholder c) = 1%nat.
Proof.
  unfold expands, placeholder. cbn [existsb]. rewrite !orb_false_iff. intros (H1 & H2 & H3 & H4 & H5 & H6 & H7 & _).
  by rewrite H1, H2, H3, H4, H5, H6, H7; case_match.
Qed.

Lemma placeholder_length c : (1 <= length (placeholder c) <= 27)%nat.
Proof. unfold placeholder. repeat case_match; cbn; lia. Qed.

Lemma fill_over text pos input : (2048 <= pos)%nat -> fill_loop text pos input = None.
Proof.
  revert text pos. induction input as [| c input IH]; intros text pos Hp; cbn [fill_loop].
  - by rewrite (proj2 (Nat.ltb_ge _ _)) by lia.
  - rewrite (proj2 (Nat.ltb_ge pos 2048)) by lia. destruct (expands c); [| done]. case_match; [done |]. apply IH. lia.
Qed.

Lemma fill_spec text input : (length text < 2048)%nat ->
  fill_loop text (length text) input = if (length text + length (expanded input) <? 2048)%nat then Some (text ++ expanded input) else None.
Proof.
  revert text. induction input as [| c input IH]; intros text Ht; cbn [fill_loop].
  - cbn. rewrite Nat.add_0_r, app_nil_r. done.
  - unfold expanded. cbn [map concat]. fold (expanded input). rewrite length_app. pose proof (placeholder_length c).
    destruct (Nat.lt_ge_cases (length text + length (placeholder c)) 2048) as [Hl | Hl].
    + assert (Hstep : fill_loop (text ++ placeholder c) (length text + length (placeholder c)) input =
                      if (length text + (length (placeholder c) + length (expanded input)) <? 2048)%nat then Some (text ++ placeholder c ++ expanded input) else None).
      { rewrite <- length_app, IH by (rewrite length_app; lia). rewrite length_app, app_assoc. by rewrite Nat.add_assoc. }
      rewrite (proj2 (Nat.ltb_ge 2048 (length text))), (proj2 (Nat.ltb_lt (length text) 2048)) by lia.
      rewrite take_ge by lia. by destruct (expands c).
    + rewrite (proj2 (Nat.ltb_ge (length text + (length (placeholder c) + length (expanded input))) 2048)) by lia.
      rewrite (proj2 (Nat.ltb_ge 2048 (length text))), (proj2 (Nat.ltb_lt (length text) 2048)) by lia.
      destruct (expands c); by rewrite fill_over by lia.
Qed.

Lemma expanded_bound input : (length (expanded input) <= length input + 26 * length (List.filter expands input))%nat.
Proof.
  induction input as [| c input IH]; [done |]. unfold expanded in *. cbn [map concat List.filter length]. rewrite length_app.
  destruct (expands c) eqn:He; cbn [length]; [pose proof (placeholder_length c) | rewrite (expands_single c He)]; lia.
Qed.

Lemma draw_input colors rows width title input pos :
  tui_update_input_line colors rows width title input pos = None <-> (2048 <= length (expanded input))%nat.
Proof.
  unfold tui_update_input_line, input_line. change (fill_loop [] 0 input) with (fill_loop [] (length (@nil ascii)) input).
  rewrite (fill_spec [] input) by (cbn; lia). cbn [length Nat.add app].
  destruct (Nat.ltb_spec (length (expanded input)) 2048) as [Hl | Hl]; cbn [mbind option_bind]; [| split; [lia | done]].
  split; [| lia]. assert (Hc : forall s, (length s < 4096)%nat -> exists t, tui_colorize_string colors true true (Some s) = Some t).
  { intros s Hs. destruct (colorize_total colors s) as [t Ht]; [| by exists t].
    replace ((2 ^ 64 - 65) / 32) with 576460752303423485 by done. lia. }
  destruct (Hc (expanded input) ltac:(lia)) as [t ->]. cbn [mbind option_bind].
  destruct (Hc (take 511 (chr 3 :: B "11" ++ title ++ chr 3 :: B "10>" ++ chr 15 :: B " "))) as [p ->]; [rewrite length_take; lia | done].
Qed.

(** Drawing the input line stays within its 2048-byte buffer exactly if the
    input with its placeholders is shorter: always with up to 59 formatting
    characters in 511, but 76 underline characters, which the keyboard can type,
    write beyond it. *)
Theorem input_line_overflow colors rows width title input pos :
  (tui_update_input_line colors rows width title input pos = None <-> (2048 <= length (expanded input))%nat) /\
  ((length input <= 511)%nat -> (length (List.filter expands input) <= 59)%nat -> tui_update_input_line colors rows width title input pos <> None) /\
  (forall n, (76 <= n)%nat -> tui_update_input_line colors rows width title (replicate n (chr 0x1f)) pos = None).
Proof.
  pose proof (fun i => draw_input colors rows width title i pos) as Hiff.
  split_and!; [apply Hiff | |].
  - intros Hl Hf Hn. apply Hiff in Hn. pose proof (expanded_bound input). lia.
  - intros n Hn. apply Hiff. clear -Hn. assert (He : length (expanded (replicate n (chr 0x1f))) = (27 * n)%nat); [| lia].
    clear Hn. induction n as [| n IH]; [done |]. cbn [replicate]. unfold expanded in *. cbn [map concat]. rewrite length_app, IH.
    change (length (placeholder (chr 31))) with 27%nat. lia.
Qed.

(** Printable characters that are no tag. *)
Definition typed_char (c : ascii) : Prop := 32 <= code c <= 126 /\ c <> "{"%char.

Lemma typed_plain c : typed_char c -> placeholder c = [c] /\ c <> ESC /\ irc_control c = false.
Proof.
  intros [Hr Hb]. split_and!.
  - unfold placeholder. rewrite !(proj2 (Z.eqb_neq _ _)) by lia. by rewrite (proj2 (Z.leb_le _ _)), (proj2 (Z.leb_le _ _)) by lia.
  - intros ->. vm_compute in Hr. destruct Hr as [Hr _]. by apply Hr.
  - unfold irc_control. cbn [existsb]. by rewrite !(proj2 (Z.eqb_neq _ _)) by lia.
Qed.

Lemma expanded_typed s : Forall typed_char s -> expanded s = s.
Proof.
  intros Hs. induction Hs as [| c s Hc Hs IH]; [done |]. unfold expanded in *. cbn [map concat]. rewrite IH. by destruct (typed_plain c Hc) as [-> _].
Qed.

Lemma colorize_typed fuel keep colors s : (length s <= fuel)%nat -> Forall typed_char s -> colorize_loop fuel keep colors s = s.
Proof.
  revert s. induction fuel as [| fuel IH]; intros [| c s] Hl Hs; cbn [length] in Hl; try done; [lia |].
  apply Forall_cons in Hs as [Hc Hs]. cbn [colorize_loop]. destruct (typed_plain c Hc) as (_ & He & _). destruct Hc as [_ Hb].
  rewrite (bool_decide_eq_false_2 (c = ESC)) by done. unfold ceq. rewrite (bool_decide_eq_false_2 (c = "{"%char)) by done.
  f_equal. apply IH; [lia | done].
Qed.

Lemma colorize_string_typed colors s : Forall typed_char s -> tui_colorize_string colors true true (Some s) = Some s.
Proof.
  intros Hs. unfold tui_colorize_string. assert (Hc : existsb irc_control s = false).
  { induction Hs as [| c s Hc Hs IH]; [done |]. cbn [existsb]. destruct (typed_plain c Hc) as (_ & _ & ->). done. }
  rewrite Hc. cbn [default from_option id]. by rewrite colorize_typed.
Qed.

Lemma offset_typed column s : Forall typed_char s -> ansi_column_offset RText column s = drop (Z.to_nat column) s.
Proof.
  intros Hs. revert column. induction Hs as [| c s Hc Hs IH]; intros column; cbn [ansi_column_offset]; [by rewrite drop_nil |].
  destruct (Z.leb_spec column 0); [by replace (Z.to_nat column) with O by lia |].
  rewrite bool_decide_eq_false_2 by apply (typed_plain c Hc). rewrite IH. by replace (Z.to_nat column) with (S (Z.to_nat (column - 1))) by lia.
Qed.

Lemma copy_typed columns room s : Forall typed_char s -> ansi_copy_columns RText columns room s = take (room `min` Z.to_nat columns) s.
Proof.
  intros Hs. revert columns room. induction Hs as [| c s Hc Hs IH]; intros columns [| room]; cbn [ansi_copy_columns]; try by rewrite ?take_nil.
  destruct (Z.leb_spec columns 0); [replace (Z.to_nat columns) with O by lia; by rewrite Nat.min_0_r |].
  rewrite bool_decide_eq_false_2 by apply (typed_plain c Hc). rewrite IH. by replace (Z.to_nat columns) with (S (Z.to_nat (columns - 1))) by lia.
Qed.

(** Of an input of printable characters the line shows the columns that fit
    after the prompt, scrolled just so far that the cursor is among them.  The
    cursor stands behind the last character at the end of the input, but within it
    on the cell of the character before the one the next key acts on. *)
Theorem input_line_shows_cursor colors width title input pos (Hin : Forall typed_char input) (Hlen : (length input <= 511)%nat)
    (Hpos : 0 <= pos <= Z.of_nat (length input)) :
  let prompt_len := visible_length title + 2 in
  let max := max_input_width width prompt_len in
  let start := Z.max 0 (cursor_screen_pos (Z.of_nat (length input)) pos - max) in
  let slice := take (Z.to_nat max) (drop (Z.to_nat start) input) in
  exists column, input_line colors width title input pos = Some (slice, column) /\
    (input = [] -> column = prompt_len + 1) /\
    (pos = Z.of_nat (length input) -> input <> [] -> 2 <= max -> column = prompt_len + 1 + (pos - start) /\ 0 <= pos - start < max) /\
    (pos < Z.of_nat (length input) -> column = prompt_len + (pos - start) /\ 0 <= pos - start <= max).
Proof.
  cbv zeta. set (prompt_len := visible_length title + 2). set (max := max_input_width width prompt_len).
  assert (Hmax : 1 <= max <= 2047) by (unfold max, max_input_width; repeat case_match; lia).
  set (at_ := cursor_screen_pos (Z.of_nat (length input)) pos). set (start := Z.max 0 (at_ - max)).
  assert (Hstart : (if max <? at_ then at_ - max else 0) = start) by (unfold start; destruct (Z.ltb_spec max at_); lia).
  unfold input_line. fold prompt_len. fold max. fold at_. rewrite Hstart.
  assert (Hfill : fill_loop [] 0 input = Some input).
  { change (fill_loop [] 0 input) with (fill_loop [] (length (@nil ascii)) input).
    rewrite fill_spec, (expanded_typed input Hin) by (cbn; lia). cbn [length Nat.add app]. by rewrite (proj2 (Nat.ltb_lt _ _)) by lia. }
  rewrite Hfill. cbn [mbind option_bind]. rewrite colorize_string_typed by done. cbn [mbind option_bind].
  rewrite offset_typed, copy_typed by (try done; by apply Forall_drop).
  replace (2047 `min` Z.to_nat max)%nat with (Z.to_nat max) by lia. eexists. split; [done |].
  assert (Hat : at_ = if decide (pos = Z.of_nat (length input)) then (if decide (input = []) then 0 else pos + 1) else pos).
  { unfold at_, cursor_screen_pos. destruct (Z.eqb_spec pos 0), (decide (input = [])) as [Hi | Hi].
    - rewrite Hi in *. cbn in *. case_decide; lia.
    - destruct input; [done |]. cbn [length] in *. case_decide; lia.
    - rewrite Hi in *. cbn in *. lia.
    - destruct (Z.ltb_spec pos (Z.of_nat (length input))); case_decide; try lia.
      rewrite (proj2 (Z.eqb_eq _ _)), (proj2 (Z.ltb_lt _ _)) by lia. cbn. lia. }
  assert (Hne : start < Z.of_nat (length input) -> take (Z.to_nat max) (drop (Z.to_nat start) input) <> []).
  { intros Hi Hs. apply (f_equal length) in Hs. rewrite length_take, length_drop in Hs. change (length (@nil ascii)) with O in Hs. lia. }
  split_and!.
  - intros Hi. rewrite bool_decide_eq_true_2 by (by rewrite Hi, drop_nil, take_nil). unfold start. rewrite Hi in *. cbn in *. rewrite Hat. case_decide; [| lia].
    rewrite decide_True by done. lia.
  - intros He Hi Hm. rewrite decide_True, decide_False in Hat by done. assert (length input <> O) by (by destruct input).
    rewrite bool_decide_eq_false_2 by (apply Hne; unfold start; lia). unfold start. lia.
  - intros Hlt. rewrite decide_False in Hat by lia. rewrite bool_decide_eq_false_2 by (apply Hne; unfold start; lia). unfold start. lia.
Qed.

Lemma input_line_shows_cursor_witness : exists slice column,
  input_line true 8 (B "a") (B "hello") 4 = Some (slice, column) /\ column = 7 /\ slice = B "hell".
Proof.
  destruct (input_line_shows_cursor true 8 (B "a") (B "hello") 4) as (column & He & _ & _ & Hc).
  - repeat constructor; try discriminate; vm_compute; discriminate.
  - apply Nat.leb_le. reflexivity.
  - split; discriminate.
  - eexists _, column. split; [exact He |]. destruct Hc as [-> _]; [reflexivity |]. split; vm_compute; reflexivity.
Defined.

(** ** The top line *)

(** What the top line is made of: a character, or a colour sequence. *)
Inductive piece := Char (bytes : bstr) | Sgr (parameters : bstr).

Definition piece_bytes (p : piece) : bstr := match p with Char b => b | Sgr s => csi s end.
Definition piece_width (p : piece) : Z := match p with Char b => Z.of_nat (length b) | Sgr _ => 0 end.
Definition piece_ok (p : piece) : Prop :=
  match p with
  | Char b => b <> [] /\ Forall (fun c => 32 <= code c /\ code c <> 127) b
  | Sgr s => Forall (fun c => final_byte c = false) s
  end.

Definition text_of (ps : list piece) : bstr := concat (map piece_bytes ps).
Definition width_of (ps : list piece) : Z := foldr (fun p n => piece_width p + n) 0 ps.

Lemma csi_end_parts p s m r : csi_end p = Some (s, m, r) -> (length r < length p)%nat /\ Forall (fun c => final_byte c = false) s.
Proof.
  revert s m r. induction p as [| c p IH]; intros s m r; cbn [csi_end]; [done |]. destruct (final_byte c) eqn:Hf.
  - intros [= <- <- <-]. cbn. split; [lia | done].
  - destruct (csi_end p) as [[[s' m'] r'] |]; [| done]. intros [= <- <- <-]. destruct (IH _ _ _ eq_refl). cbn. split; [lia | by constructor].
Qed.

Lemma continuations_ok n p : (continuations n p <= n)%nat /\ Forall (fun c => 32 <= code c /\ code c <> 127) (take (continuations n p) p).
Proof.
  revert p. induction n as [| n IH]; intros [| c p]; cbn [continuations]; try (split; [lia | constructor]).
  destruct (continuation c) eqn:Hc; [| split; [lia | constructor]]. destruct (IH p). cbn [take]. split; [lia |]. constructor; [| done].
  unfold continuation in Hc. apply Z.eqb_eq in Hc. assert (Hn : forall k, (0 <= k < 128)%Z -> Z.land k 192 <> 128).
  { intros k Hk He. apply (f_equal (fun z => Z.testbit z 7)) in He. rewrite Z.land_spec in He. change (Z.testbit 128 7) with true in He.
    apply andb_true_iff in He as [He _]. apply Z.testbit_true in He; [| lia]. rewrite Z.div_small in He by (cbn; lia). done. }
  pose proof (code_range c). destruct (Z.ltb_spec (code c) 128); [exfalso; apply (Hn (code c)); [lia | done] | lia].
Qed.

Lemma topline_spec fuel columns p : exists ps, topline_loop fuel columns p = text_of ps /\ Forall piece_ok ps /\ width_of ps <= Z.max 0 columns.
Proof.
  revert columns p. induction fuel as [| fuel IH]; intros columns p; cbn [topline_loop]; [exists []; split_and!; cbn; [done.. | lia] |].
  assert (Hnil : exists ps, [] = text_of ps /\ Forall piece_ok ps /\ width_of ps <= Z.max 0 columns) by (exists []; split_and!; cbn; [done.. | lia]).
  destruct p as [| c rest]; [done |]. destruct (Z.leb_spec columns 0); [done |].
  destruct (bool_decide (c = ESC) && starts_with rest "["%char) eqn:He.
  - destruct (csi_end (tail rest)) as [[[s m] after] |] eqn:Hs; [| done]. apply csi_end_parts in Hs as [_ Hs].
    destruct (IH columns after) as (ps & -> & Hok & Hw). destruct (ceq m "m") eqn:Hm; [| by exists ps].
    apply bool_decide_eq_true in Hm as ->. apply andb_true_iff in He as [He _]. apply bool_decide_eq_true in He as ->.
    exists (Sgr s :: ps). split_and!; [| by constructor | done]. unfold text_of. cbn. unfold csi. by rewrite <- !app_assoc.
  - destruct ((code c <? 32) || (code c =? 127)) eqn:Hctl.
    + destruct (IH (columns - 1) rest) as (ps & -> & Hok & Hw). exists (Char [" "%char] :: ps).
      split_and!; [done | constructor; [| done] | change (1 + width_of ps <= Z.max 0 columns); lia]. split; [done |]. by apply Forall_singleton.
    + set (len := S _). destruct (negb _); [destruct (IH columns (drop len (c :: rest))) as (ps & -> & Hok & Hw); by exists ps |].
      destruct (Z.ltb_spec columns (Z.of_nat len)); [done |].
      destruct (IH (columns - Z.of_nat len) (drop len (c :: rest))) as (ps & -> & Hok & Hw). exists (Char (take len (c :: rest)) :: ps).
      split_and!; [done | constructor; [| done] | cbn [width_of foldr piece_width]; rewrite length_take; fold (width_of ps); lia].
      split; [done |]. unfold len. cbn [take]. apply orb_false_iff in Hctl as [H1%Z.ltb_ge H2%Z.eqb_neq].
      constructor; [done |]. apply continuations_ok.
Qed.

(** The top line is made of characters, no control characters among them, no
    more bytes than there are columns, and colour sequences; but the parameters of
    a sequence are copied as they are, with control characters that the terminal
    obeys. *)
Theorem topline_fits text columns :
  (exists ps, tui_print_topline text columns = text_of ps ++ reset_sgr ++ clear_eol /\ Forall piece_ok ps /\ width_of ps <= Z.max 0 columns) /\
  tui_print_topline (Some (csi [LF])) 80 = csi [LF] ++ reset_sgr ++ clear_eol.
Proof.
  split; [| reflexivity]. unfold tui_print_topline. destruct text as [p |].
  - destruct (topline_spec (length p) columns p) as (ps & -> & Hok & Hw). by exists ps.
  - exists []. split_and!; [done.. | cbn; lia].
Qed.

(** ** Status texts *)

Lemma expand_bound fuel data used src e : (used <= 1023)%nat -> expand_loop fuel data used src = Some e -> (used + length e <= 1023)%nat.
Proof.
  revert used src e. induction fuel as [| fuel IH]; intros used src e Hu; cbn [expand_loop]; [intros [= <-]; cbn; lia |].
  destruct src as [| c rest]; [intros [= <-]; cbn; lia |]. unfold TUI_STRING_LEN. cbn [Nat.sub].
  destruct (Nat.ltb_spec used 1023); cbn [negb]; [| intros [= <-]; cbn; lia].
  destruct (if _ && _ then split_at _ _ else None) as [[spec after] |].
  - destruct (expand_var data spec) as [val |]; [| done]. cbn [mbind option_bind]. set (out := match val with Some _ => _ | None => _ end).
    assert (Ho : (used + length out <= 1023)%nat).
    { unfold out. destruct val as [v |]; [| cbn; lia]. destruct (Nat.ltb_spec (used + length v) 1023); cbn; lia. }
    clearbody out. destruct (expand_loop fuel data _ after) as [e' |] eqn:He; [| done]. intros [= <-]. apply IH in He; [| done]. rewrite length_app. lia.
  - destruct (expand_loop fuel data _ rest) as [e' |] eqn:He; [| done]. intros [= <-]. apply IH in He; [| lia]. cbn. lia.
Qed.

(** Text and references. *)
Inductive segment := Lit (s : bstr) | Ref (name : bstr) (fallback : option bstr).

Definition seg_spec (name : bstr) (f : option bstr) : bstr := name ++ match f with Some f => ":"%char :: f | None => [] end.
Definition seg_text (g : segment) : bstr :=
  match g with Lit s => s | Ref n f => "$"%char :: "{"%char :: seg_spec n f ++ ["}"%char] end.
Definition seg_value (get : bstr -> option bstr) (g : segment) : bstr :=
  match g with Lit s => s | Ref n f => default [] (match get n with Some v => Some v | None => f end) end.

Definition seg_ok (data : option dict) (get : bstr -> option bstr) (g : segment) : Prop :=
  match g with
  | Lit s => "$"%char ∉ s
  | Ref n f => "}"%char ∉ seg_spec n f /\ ":"%char ∉ n /\ (length (seg_spec n f) <= 255)%nat /\ dict_get data (Some n) None = Some (get n)
  end.

Lemma split_at_first s c t : c ∉ s -> split_at (s ++ c :: t) c = Some (s, t).
Proof.
  induction s as [| d s IH]; cbn [split_at app]; intros Hn; [by rewrite bool_decide_eq_true_2 |].
  apply not_elem_of_cons in Hn as [Hd Hs]. rewrite bool_decide_eq_false_2 by congruence. by rewrite (IH Hs).
Qed.

Lemma expand_var_spec data get n f : seg_ok data get (Ref n f) -> expand_var data (seg_spec n f) = Some (match get n with Some v => Some v | None => f end).
Proof.
  intros (_ & Hc & Hl & Hg). unfold expand_var. rewrite take_ge by done. unfold seg_spec in *. destruct f as [f |].
  - by rewrite split_at_first, Hg.
  - rewrite app_nil_r, split_at_none, Hg by done. by cbn.
Qed.

Lemma expand_segments data get gs : Forall (seg_ok data get) gs -> forall fuel used,
  (length (concat (map seg_text gs)) <= fuel)%nat -> (used + length (concat (map (seg_value get) gs)) < 1023)%nat ->
  expand_loop fuel data used (concat (map seg_text gs)) = Some (concat (map (seg_value get) gs)).
Proof.
  induction 1 as [| g gs Hg Hgs IH]; intros fuel used Hf Hu; cbn [map concat] in *; [by destruct fuel |].
  rewrite length_app in Hf, Hu. destruct g as [s | n f].
  - cbn [seg_text seg_value seg_ok] in *. revert fuel used Hf Hu. induction s as [| c s IHs]; intros fuel used Hf Hu; [by apply IH; cbn in *; lia |].
    apply not_elem_of_cons in Hg as [Hc Hs]. destruct fuel as [| fuel]; [cbn in *; lia |]. cbn [app expand_loop]. unfold TUI_STRING_LEN. cbn [Nat.sub].
    rewrite (proj2 (Nat.ltb_lt used 1023)) by lia. cbn [negb]. unfold ceq. rewrite bool_decide_eq_false_2 by congruence. cbn [andb].
    rewrite (IHs Hs) by (cbn in *; lia). done.
  - destruct fuel as [| fuel]; [cbn in Hf; lia |]. cbn [seg_text app expand_loop]. unfold TUI_STRING_LEN. cbn [Nat.sub].
    rewrite (proj2 (Nat.ltb_lt used 1023)) by lia. cbn [negb]. unfold starts_with. cbn [head tail]. rewrite bool_decide_eq_true_2 by done.
    cbn [andb ceq]. unfold ceq. rewrite bool_decide_eq_true_2 by done. rewrite <- app_assoc. cbn [app].
    rewrite split_at_first by apply Hg. cbn [andb]. rewrite (expand_var_spec _ _ _ _ Hg). cbn [mbind option_bind].
    set (val := match get n with Some v => Some v | None => f end).
    assert (Hout : match val with Some v => if (used + length v <? 1023)%nat then v else [] | None => [] end = seg_value get (Ref n f)).
    { cbn [seg_value]. fold val. cbn [seg_value] in Hu. fold val in Hu. destruct val as [v |]; [| done]. cbn [default from_option id] in *.
      by rewrite (proj2 (Nat.ltb_lt _ _)) by lia. }
    rewrite Hout, IH; [done | cbn in Hf; rewrite !length_app in Hf; cbn in Hf; lia | lia].
Qed.

(** A status text never expands beyond its 1024-byte buffer; and when the
    values fit, each [${name}] gives the value that the dictionary has for the
    name, or the default after the colon, or nothing, and the rest of the text
    stays. *)
Theorem render_string_expands colors data get (gs : list segment) (Hok : Forall (seg_ok data get) gs)
    (Htext : (length (concat (map seg_text gs)) <= 1023)%nat) (Hvalue : (length (concat (map (seg_value get) gs)) < 1023)%nat) :
  tui_render_string colors data (concat (map seg_text gs)) = Some (tui_colorize_string colors true true (Some (concat (map (seg_value get) gs)))) /\
  (forall fuel src e, expand_loop fuel data 0 src = Some e -> (length e < TUI_STRING_LEN)%nat).
Proof.
  split.
  - unfold tui_render_string. rewrite take_ge by done. by rewrite (expand_segments data get gs Hok) by (cbn [Nat.add]; lia).
  - intros fuel src e He. apply expand_bound in He; [| lia]. unfold TUI_STRING_LEN. lia.
Qed.

(** The window's values in a status line. *)
Lemma render_string_expands_witness : exists d o',
  status_vars [] (Some (set_scroll 12 (new_window 1 (B "chan")))) = Some (Some d, o') /\
  tui_render_string true (Some d) (B "[${win.title}] ${win.scroll} ${who:nobody}") = Some (Some (B "[chan] 12 nobody")).
Proof.
  destruct (status_vars [] (Some (set_scroll 12 (new_window 1 (B "chan"))))) as [[[d |] o'] |] eqn:Hd; [| vm_compute in Hd; discriminate..].
  exists d, o'. split; [reflexivity |]. vm_compute in Hd. injection Hd as <- <-.
  set (get := fun n => if streq n (B "win.title") then Some (B "chan") else if streq n (B "win.scroll") then Some (B "12") else None).
  match goal with |- context [tui_render_string _ ?d _] => destruct (render_string_expands true d get
    [Lit (B "["); Ref (B "win.title") None; Lit (B "] "); Ref (B "win.scroll") None; Lit (B " "); Ref (B "who") (Some (B "nobody"))]) as [H _] end.
  4: { etrans; [| etrans; [exact H |]]; vm_compute; reflexivity. }
  - repeat constructor; try (apply (bool_decide_unpack _); vm_compute; exact I); try (apply Nat.leb_le; vm_compute; reflexivity);
      vm_compute; reflexivity.
  - apply Nat.leb_le. vm_compute. reflexivity.
  - apply Nat.ltb_lt. vm_compute. reflexivity.
Defined.

(** A row that continues a line is given the last colour of that row, not the one
    in effect at its start: the second row here starts in the colour that only its
    second character has. *)
Theorem wrapped_row_colour :
  map restored (draw_message 24 2 (Cursor true 0 2) (csi (B "31") ++ B "abc" ++ csi (B "32") ++ B "d")).1 = [[]; csi (B "32")].
Proof. reflexivity. Qed.
