(* ===== verification/TuiInput.v ===== *)
(** * The input line, its history and the hotkeys (tui.keys.c)

    The line being typed is a buffer of 512 characters with a length and a cursor;
    every edit moves memory inside it.  An access outside the buffer is [None]. *)

From S2P Require Import Prelude CString ConfigText TuiWindow TuiDraw.

#[local] Open Scope Z_scope.

(** [input_buf], [tui_input_len] and [tui_cursor_pos]. *)
Record line := Line { input_buf : bstr; tui_input_len : Z; tui_cursor_pos : Z }.

Definition no_line : line := Line (replicate TUI_INPUTLEN NUL) 0 0.

(** ** Memory *)

Definition in_buffer (i : Z) : bool := (0 <=? i) && (i <? Z.of_nat TUI_INPUTLEN).

(** A length or a start below zero is out of the buffer. *)
Definition range_ok (start n : Z) : bool := (0 <=? start) && (0 <=? n) && (start + n <=? Z.of_nat TUI_INPUTLEN).

Definition memmove (buf : bstr) (dst src n : Z) : option bstr :=
  if range_ok dst n && range_ok src n then
    Some (take (Z.to_nat dst) buf ++ take (Z.to_nat n) (drop (Z.to_nat src) buf) ++ drop (Z.to_nat (dst + n)) buf)
  else None.

Definition store (buf : bstr) (i : Z) (c : ascii) : option bstr := if in_buffer i then Some (<[Z.to_nat i := c]> buf) else None.

Definition load (buf : bstr) (i : Z) : option ascii := if in_buffer i then buf !! Z.to_nat i else None.

(** [memcpy] of a text into the buffer. *)
Definition copy_in (buf : bstr) (dst : Z) (s : bstr) : option bstr :=
  if range_ok dst (Z.of_nat (length s)) then Some (take (Z.to_nat dst) buf ++ s ++ drop (Z.to_nat dst + length s) buf) else None.

(** ** Edits *)

Definition go_home (l : line) : line := Line (input_buf l) (tui_input_len l) 0.
Definition go_end (l : line) : line := Line (input_buf l) (tui_input_len l) (tui_input_len l).
Definition go_left (l : line) : line := if 0 <? tui_cursor_pos l then Line (input_buf l) (tui_input_len l) (tui_cursor_pos l - 1) else l.
Definition go_right (l : line) : line :=
  if tui_cursor_pos l <? tui_input_len l then Line (input_buf l) (tui_input_len l) (tui_cursor_pos l + 1) else l.

(** Back over the characters with [p] before position [pos]. *)
Fixpoint back_over (p : ascii -> bool) (buf : bstr) (pos : nat) : option nat :=
  match pos with
  | O => Some O
  | S pos' => c ← load buf (Z.of_nat pos'); if p c then back_over p buf pos' else Some pos
  end.

(** Forward over them, at most [n]. *)
Fixpoint forward_over (p : ascii -> bool) (buf : bstr) (pos : Z) (n : nat) : option Z :=
  match n with
  | O => Some pos
  | S n => c ← load buf pos; if p c then forward_over p buf (pos + 1) n else Some pos
  end.

Definition is_space (c : ascii) : bool := ceq c " ".
Definition not_space (c : ascii) : bool := negb (ceq c " ").

Definition word_left (l : line) : option line :=
  i ← back_over is_space (input_buf l) (Z.to_nat (tui_cursor_pos l));
  i ← back_over not_space (input_buf l) i;
  Some (Line (input_buf l) (tui_input_len l) (Z.of_nat i)).

Definition word_right (l : line) : option line :=
  i ← forward_over not_space (input_buf l) (tui_cursor_pos l) (Z.to_nat (tui_input_len l - tui_cursor_pos l));
  i ← forward_over is_space (input_buf l) i (Z.to_nat (tui_input_len l - i));
  Some (Line (input_buf l) (tui_input_len l) i).

(** Ctrl-U. *)
Definition erase_line (l : line) : option line := buf ← store (input_buf l) 0 NUL; Some (Line buf 0 0).

(** Ctrl-W. *)
Definition erase_word (l : line) : option line :=
  if 0 <? tui_cursor_pos l then
    i ← back_over is_space (input_buf l) (Z.to_nat (tui_cursor_pos l));
    i ← back_over not_space (input_buf l) i;
    let start := Z.of_nat i in
    buf ← memmove (input_buf l) start (tui_cursor_pos l) (tui_input_len l - tui_cursor_pos l + 1);
    Some (Line buf (tui_input_len l - (tui_cursor_pos l - start)) start)
  else Some l.

(** Ctrl-D and Delete. *)
Definition delete_forward (l : line) : option line :=
  if tui_cursor_pos l <? tui_input_len l then
    buf ← memmove (input_buf l) (tui_cursor_pos l) (tui_cursor_pos l + 1) (tui_input_len l - tui_cursor_pos l);
    Some (Line buf (tui_input_len l - 1) (tui_cursor_pos l))
  else Some l.

(** Ctrl-K. *)
Definition kill_to_end (l : line) : option line :=
  buf ← store (input_buf l) (tui_cursor_pos l) NUL; Some (Line buf (tui_cursor_pos l) (tui_cursor_pos l)).

(** Ctrl-H and Backspace. *)
Definition backspace (l : line) : option line :=
  if 0 <? tui_cursor_pos l then
    buf ← memmove (input_buf l) (tui_cursor_pos l - 1) (tui_cursor_pos l) (tui_input_len l - tui_cursor_pos l + 1);
    Some (Line buf (tui_input_len l - 1) (tui_cursor_pos l - 1))
  else Some l.

(** The formatting characters and the printable ones. *)
Definition insert_char (c : ascii) (l : line) : option line :=
  if tui_input_len l <? Z.of_nat TUI_INPUTLEN - 1 then
    buf ← memmove (input_buf l) (tui_cursor_pos l + 1) (tui_cursor_pos l) (tui_input_len l - tui_cursor_pos l + 1);
    buf ← store buf (tui_cursor_pos l) c;
    Some (Line buf (tui_input_len l + 1) (tui_cursor_pos l + 1))
  else Some l.

(** A line of the history takes the place of the text: [strlcpy], and the length
    that [strlen] gives. *)
Definition set_text (s : bstr) (l : line) : option line :=
  let t := strlcpy s TUI_INPUTLEN in
  buf ← copy_in (input_buf l) 0 (t ++ [NUL]);
  Some (Line buf (Z.of_nat (length t)) (Z.of_nat (length t))).

(** The bounds that [tui_update_input_line] enforces when it draws. *)
Definition clamp_line (l : line) : line :=
  let len := tui_input_len l in
  let len := if len <? 0 then 0 else len in
  let len := if Z.of_nat TUI_INPUTLEN <=? len then Z.of_nat TUI_INPUTLEN - 1 else len in
  let pos := tui_cursor_pos l in
  let pos := if pos <? 0 then 0 else pos in
  Line (input_buf l) len (if len <? pos then len else pos).

(** ** History *)

Definition HISTORY_LINES : nat := 50.

Record history := History { entries : list bstr; at_index : Z }.

(** The line that is shown: the outer option is an access outside the array. *)
Definition history_prev (h : history) : option (option bstr * history) :=
  let count := Z.of_nat (length (entries h)) in
  if count =? 0 then Some (None, h)
  else
    let i := if at_index h <? 0 then count - 1 else if 0 <? at_index h then at_index h - 1 else at_index h in
    e ← entries h !! Z.to_nat i; Some (Some e, History (entries h) i).

Definition history_next (h : history) : option (option bstr * history) :=
  let count := Z.of_nat (length (entries h)) in
  if (count =? 0) || (at_index h <? 0) then Some (None, h)
  else
    let i := at_index h + 1 in
    if count <=? i then Some (Some [], History (entries h) (-1)) else e ← entries h !! Z.to_nat i; Some (Some e, History (entries h) i).

Definition history_add (s : bstr) (h : history) : history :=
  match s with
  | [] => h
  | _ =>
      let kept := if (HISTORY_LINES <=? length (entries h))%nat then drop 1 (entries h) else entries h in
      let all := kept ++ [take (TUI_INPUTLEN - 1) s] in
      History all (Z.of_nat (length all))
  end.

(** ** Hotkeys *)

Definition TUI_HOTKEY_MAX : nat := 32.

(** [callback] and [user_data] are addresses; a free slot is [None], its callback
    being NULL. *)
Record binding := Binding { hk_key : Z; hk_modifiers : Z; callback : Z; user_data : Z }.

Definition no_hotkeys : list (option binding) := replicate TUI_HOTKEY_MAX None.

Definition same_combination (key modifiers : Z) (b : option binding) : bool :=
  match b with Some b => (hk_key b =? key) && (hk_modifiers b =? modifiers) | None => false end.

Definition is_free (b : option binding) : bool := match b with None => true | Some _ => false end.

Fixpoint first_slot (p : option binding -> bool) (hs : list (option binding)) : option nat :=
  match hs with
  | [] => None
  | b :: hs => if p b then Some O else S <$> first_slot p hs
  end.

(** A callback of 0 is NULL. *)
Definition tui_hotkey_register (hs : list (option binding)) (key modifiers callback user_data : Z) : bool * list (option binding) :=
  if callback =? 0 then (false, hs)
  else
    let b := Some (Binding key modifiers callback user_data) in
    match first_slot (same_combination key modifiers) hs with
    | Some i => (true, <[i := b]> hs)
    | None =>
        match first_slot is_free hs with
        | Some i => (true, <[i := b]> hs)
        | None => (false, hs)
        end
    end.

Definition same_binding (key modifiers cb data : Z) (b : option binding) : bool :=
  match b with
  | Some b => (callback b =? cb) && (user_data b =? data) && (hk_key b =? key) && (hk_modifiers b =? modifiers)
  | None => false
  end.

(** [cb] is not NULL. *)
Definition tui_hotkey_unregister (hs : list (option binding)) (key modifiers cb data : Z) : bool * list (option binding) :=
  match first_slot (same_binding key modifiers cb data) hs with
  | Some i => (true, <[i := None]> hs)
  | None => (false, hs)
  end.

(** A binding answers to its key with at least its modifiers. *)
Definition answers (key modifiers : Z) (b : option binding) : bool :=
  match b with Some b => (hk_key b =? key) && (Z.land modifiers (hk_modifiers b) =? hk_modifiers b) | None => false end.

(** The binding that is called. *)
Definition hotkey_for (hs : list (option binding)) (key modifiers : Z) : option binding :=
  i ← first_slot (answers key modifiers) hs; mjoin (hs !! i).
