(* ===== verification/TuiCompletion.v ===== *)
(** * Completion of the word before the cursor (tui.completion.c)

    Providers are known by their addresses; what one answers, and the label the
    describer makes, are parameters.  An access outside [input_buf] is [None]. *)

From S2P Require Import Prelude CString ConfigText TuiWindow TuiDraw TuiInput.

#[local] Open Scope Z_scope.

Definition TUI_MAX_COMPLETION_PROVIDERS : nat := 8.

(** A provider of 0 is NULL. *)
Definition tui_register_completion_provider (ps : list Z) (fn : Z) : bool * list Z :=
  if (fn =? 0) || (TUI_MAX_COMPLETION_PROVIDERS <=? length ps)%nat then (false, ps)
  else if existsb (Z.eqb fn) ps then (true, ps)
  else (true, ps ++ [fn]).

Fixpoint remove_first (fn : Z) (ps : list Z) : option (list Z) :=
  match ps with
  | [] => None
  | p :: ps => if p =? fn then Some ps else cons p <$> remove_first fn ps
  end.

Definition tui_unregister_completion_provider (ps : list Z) (fn : Z) : bool * list Z :=
  if fn =? 0 then (false, ps) else match remove_first fn ps with Some ps => (true, ps) | None => (false, ps) end.

Section Completion.

(** What a provider answers to the line and the word; [None] is NULL. *)
Context (provide : Z -> bstr -> bstr -> option (list bstr)).
(** The describer, if there is one: line and value to what is in the buffer. *)
Context (describe : option (bstr -> bstr -> bstr)).

Definition completion_collect (ps : list Z) (line word : bstr) : list bstr :=
  concat (map (fun p => default [] (provide p line word)) ps).

(** The buffer holds [capacity] bytes. *)
Definition completion_describe (line value : bstr) (capacity : nat) : bstr :=
  match describe with Some f => take (capacity - 1) (f line value) | None => take (capacity - 1) value end.

(** The length of the common prefix of two texts, at most [n]. *)
Fixpoint common_length (n : nat) (a b : bstr) : nat :=
  match n, a, b with
  | S n, c :: a, d :: b => if bool_decide (c = d) then S (common_length n a b) else O
  | _, _, _ => O
  end.

Definition common_prefix (matches : list bstr) : nat :=
  match matches with
  | [] => O
  | m :: ms => foldl (fun plen x => common_length plen m x) (length m) ms
  end.

(** ** The list of candidates *)

Definition TUI_MAX_COMPLETIONS_SHOWN : nat := 32.

(** [%-*s]: padded on the right. *)
Definition pad_right (n : nat) (s : bstr) : bstr := s ++ replicate (n - length s) " "%char.

(** One row: the entries in the columns, into 1024 bytes. *)
Fixpoint candidate_row (labels : list bstr) (maxlen rows r : nat) (columns : list nat) (pos : bstr) : bstr :=
  match columns with
  | [] => pos
  | c :: columns =>
      match labels !! (c * rows + r)%nat with
      | None => pos
      | Some l =>
          let pos := pos ++ pad_right maxlen l ++ B "  " in
          if (1023 <=? length pos)%nat then pos else candidate_row labels maxlen rows r columns pos
      end
  end.

Definition candidate_lines (term_cols : Z) (line : bstr) (matches : list bstr) : list bstr :=
  let labels := map (fun m => completion_describe line m 512) (take TUI_MAX_COMPLETIONS_SHOWN matches) in
  let maxlen := foldr (fun l n => (length l `max` n)%nat) O labels in
  let cols := if (0 <? maxlen)%nat then Z.quot (term_cols - 2) (Z.of_nat maxlen + 2) else 1 in
  let cols := Z.to_nat (if cols <? 1 then 1 else cols) in
  let rows := ((length labels + cols - 1) / cols)%nat in
  map (fun r => take 1023 (candidate_row labels maxlen rows r (seq 0 cols) (B "  "))) (seq 0 rows) ++
  (if (TUI_MAX_COMPLETIONS_SHOWN <? length matches)%nat then [B "  ... and " ++ print_dec (Z.of_nat (length matches - TUI_MAX_COMPLETIONS_SHOWN)) ++ B " more"] else []).

(** ** The completion *)

(** Where the word before the cursor starts. *)
Definition word_start (l : line) : option nat := back_over not_space (input_buf l) (Z.to_nat (tui_cursor_pos l)).

(** The first match, or what all have in common, in place of the word. *)
Definition replace_word (l : line) (start word_len : Z) (m : bstr) (plen : nat) (single : bool) : option (option line) :=
  let pl := if single && (plen <? TUI_INPUTLEN - 1)%nat then S plen else plen in
  if start + Z.of_nat pl <? Z.of_nat TUI_INPUTLEN then
    buf ← memmove (input_buf l) (start + Z.of_nat pl) (tui_cursor_pos l) (tui_input_len l - tui_cursor_pos l + 1);
    buf ← copy_in buf start (take (if single then pl - 1 else pl) m);
    buf ← if single then store buf (start + Z.of_nat pl - 1) " "%char else Some buf;
    Some (Some (Line buf (tui_input_len l + (Z.of_nat pl - word_len)) (start + Z.of_nat pl)))
  else Some None.

(** Whether the line changed, the line, and the lines printed.  The application's
    own handler has not taken the key.  [0 <= tui_cursor_pos]. *)
Definition tui_do_completion (ps : list Z) (term_cols : Z) (l : line) : option (bool * line * list bstr) :=
  if tui_cursor_pos l =? 0 then Some (false, l, [])
  else
    start ← word_start l;
    let start := Z.of_nat start in
    let word_len := tui_cursor_pos l - start in
    before ← load (input_buf l) (tui_cursor_pos l - 1);
    if (word_len =? 0) && negb (is_space before) then Some (false, l, [])
    else
      let word := cstr (take (Z.to_nat word_len) (drop (Z.to_nat start) (input_buf l))) in
      let prefix := cstr (take (Z.to_nat (tui_cursor_pos l)) (input_buf l)) in
      match completion_collect ps prefix word with
      | [] => Some (false, l, [])
      | m :: ms =>
          let matches := m :: ms in
          let plen := common_prefix matches in
          let single := (length matches =? 1)%nat in
          if single || (word_len <? Z.of_nat plen) then
            changed ← replace_word l start word_len m plen single;
            Some (match changed with Some l => (true, l, []) | None => (false, l, []) end)
          else Some (false, l, candidate_lines term_cols (cstr (input_buf l)) matches)
      end.

End Completion.
