(* ===== verification/TuiInputSpec.v ===== *)
(** * What holds of the input line, the history and the hotkeys

    The buffer with its cursor is the text before and the text after the cursor:
    every edit stays inside the buffer and does to the two texts what its key
    says. *)

From S2P Require Import Prelude CString ConfigText TuiWindow TuiWindowSpec TuiDraw TuiInput.

#[local] Open Scope Z_scope.

(** ** The line as two texts *)

(** The text before the cursor, and after it. *)
Abbreviation zipper := (bstr * bstr)%type.

(** The buffer holds the two texts, a NUL, and whatever follows. *)
Definition rep (l : line) (z : zipper) : Prop :=
  (length (z.1 ++ z.2) < TUI_INPUTLEN)%nat /\ length (input_buf l) = TUI_INPUTLEN /\
  (exists rest, input_buf l = z.1 ++ z.2 ++ NUL :: rest) /\
  tui_cursor_pos l = Z.of_nat (length z.1) /\ tui_input_len l = Z.of_nat (length (z.1 ++ z.2)).

Lemma rep_intro a b rest len pos : (length (a ++ b) < TUI_INPUTLEN)%nat -> length (a ++ b ++ NUL :: rest) = TUI_INPUTLEN ->
  len = Z.of_nat (length (a ++ b)) -> pos = Z.of_nat (length a) -> rep (Line (a ++ b ++ NUL :: rest) len pos) (a, b).
Proof. intros H1 H2 -> ->. split_and!; try done. by exists rest. Qed.

(** Moving memory down over [gap] characters, or up by one. *)
Lemma move_down a gap b rest : (length (a ++ gap ++ b ++ NUL :: rest) = TUI_INPUTLEN) ->
  memmove (a ++ gap ++ b ++ NUL :: rest) (Z.of_nat (length a)) (Z.of_nat (length (a ++ gap))) (Z.of_nat (S (length b))) =
    Some (a ++ b ++ NUL :: drop (S (length b)) (gap ++ b ++ NUL :: rest)).
Proof.
  intros Hl. unfold memmove, range_ok. rewrite !length_app in Hl. rewrite !length_app. cbn [length] in *.
  rewrite !(proj2 (Z.leb_le _ _)) by lia. cbn [andb]. f_equal. rewrite !Nat2Z.id.
  replace (Z.to_nat (Z.of_nat (length a) + Z.of_nat (S (length b)))) with (length a + S (length b))%nat by lia.
  rewrite take_app_length. f_equal.
  rewrite (app_assoc a gap), drop_app_length' by (rewrite length_app; lia).
  change (b ++ NUL :: rest) with (b ++ [NUL] ++ rest). rewrite (app_assoc b). rewrite take_app_length' by (rewrite length_app; cbn; lia).
  rewrite <- app_assoc. cbn [app]. do 2 f_equal. rewrite <- drop_drop, <- !app_assoc, drop_app_length. done.
Qed.


(** Moving the rest up by one and storing a character. *)
Lemma move_up a b x rest c : length (a ++ b ++ NUL :: x :: rest) = TUI_INPUTLEN ->
  (buf ← memmove (a ++ b ++ NUL :: x :: rest) (Z.of_nat (length a) + 1) (Z.of_nat (length a)) (Z.of_nat (S (length b)));
   store buf (Z.of_nat (length a)) c) = Some ((a ++ [c]) ++ b ++ NUL :: rest).
Proof.
  intros Hl. rewrite !length_app in Hl. cbn [length] in Hl. unfold memmove, range_ok.
  rewrite !(proj2 (Z.leb_le _ _)) by lia. cbn [andb mbind option_bind]. unfold store, in_buffer.
  rewrite (proj2 (Z.leb_le _ _)), (proj2 (Z.ltb_lt _ _)) by lia. cbn [andb]. f_equal. rewrite !Nat2Z.id.
  replace (Z.to_nat (Z.of_nat (length a) + 1)) with (length a + 1)%nat by lia.
  replace (Z.to_nat (Z.of_nat (length a) + 1 + Z.of_nat (S (length b)))) with (length a + (length b + 2))%nat by lia.
  rewrite <- drop_drop, drop_app_length, <- drop_drop, drop_app_length. cbn [drop].
  assert (Hh : exists h, take (length a + 1) (a ++ b ++ NUL :: x :: rest) = a ++ [h]).
  { rewrite take_app_ge by lia. replace (length a + 1 - length a)%nat with 1%nat by lia. destruct b as [| h b]; by eexists. }
  destruct Hh as [h ->]. change (NUL :: x :: rest) with ([NUL] ++ x :: rest). rewrite (app_assoc b), take_app_length' by (rewrite length_app; cbn; lia).
  rewrite <- !app_assoc. cbn [app]. rewrite insert_app_r_alt, Nat.sub_diag by done. done.
Qed.

Lemma load_at a c rest : (length a < TUI_INPUTLEN)%nat -> load (a ++ c :: rest) (Z.of_nat (length a)) = Some c.
Proof.
  intros Hl. unfold load, in_buffer. rewrite (proj2 (Z.leb_le _ _)), (proj2 (Z.ltb_lt _ _)) by lia. cbn [andb].
  rewrite Nat2Z.id, lookup_app_r, Nat.sub_diag by done. done.
Qed.

Lemma rtrim_snoc p a c : rtrim p (a ++ [c]) = if p c then rtrim p a else a ++ [c].
Proof.
  induction a as [| d a IH]; cbn [rtrim app]; [by destruct (p c) |]. rewrite IH. destruct (p c); [done |]. by destruct a.
Qed.

Lemma rtrim_parts p a : exists b, a = rtrim p a ++ b.
Proof.
  induction a as [| c a [b IH]] using rev_ind; [by exists [] |]. rewrite rtrim_snoc. destruct (p c); [| exists []; by rewrite app_nil_r].
  exists (b ++ [c]). by rewrite app_assoc, <- IH.
Qed.

Lemma back_over_spec p a rest : (length a <= TUI_INPUTLEN)%nat -> back_over p (a ++ rest) (length a) = Some (length (rtrim p a)).
Proof.
  revert rest. induction a as [| c a IH] using rev_ind; intros rest Hl; [done |]. rewrite length_app in *. cbn [length] in *.
  rewrite Nat.add_1_r. cbn [back_over]. rewrite <- app_assoc. cbn [app]. rewrite load_at by lia. cbn [mbind option_bind].
  rewrite rtrim_snoc. destruct (p c); [apply IH; lia |]. rewrite length_app. cbn. f_equal. lia.
Qed.

Lemma forward_over_spec p a b rest : (length (a ++ b) < TUI_INPUTLEN)%nat ->
  forward_over p (a ++ b ++ rest) (Z.of_nat (length a)) (length b) = Some (Z.of_nat (length (a ++ b) - length (skip_while p b))).
Proof.
  revert a. induction b as [| c b IH]; intros a Hl; rewrite length_app in Hl; cbn [length] in *.
  - rewrite app_nil_r. cbn [forward_over skip_while length]. f_equal. lia.
  - cbn [forward_over app skip_while]. rewrite load_at by lia. cbn [mbind option_bind]. rewrite length_app. cbn [length].
    destruct (p c); [| f_equal; cbn [length]; lia].
    replace (Z.of_nat (length a) + 1) with (Z.of_nat (length (a ++ [c]))) by (rewrite length_app; cbn; lia).
    replace (a ++ c :: b ++ rest) with ((a ++ [c]) ++ b ++ rest) by by rewrite <- app_assoc.
    rewrite IH; rewrite !length_app; cbn [length]; [do 2 f_equal; lia | lia].
Qed.

Lemma skip_while_suffix p b : exists a, b = a ++ skip_while p b.
Proof. induction b as [| c b [a IH]]; cbn [skip_while]; [by exists [] |]. destruct (p c); [exists (c :: a); cbn; by rewrite <- IH | by exists []]. Qed.

Lemma memmove_length buf dst src n buf' : memmove buf dst src n = Some buf' -> length buf = TUI_INPUTLEN -> length buf' = TUI_INPUTLEN.
Proof.
  unfold memmove, range_ok. intros H Hl. destruct (_ && _ && _ && _) eqn:Hr; [| done]. injection H as <-.
  rewrite !andb_true_iff, !Z.leb_le in Hr. rewrite !length_app, !length_take, !length_drop. lia.
Qed.

Lemma store_length buf i c buf' : store buf i c = Some buf' -> length buf' = length buf.
Proof. unfold store. case_match; [| done]. intros [= <-]. apply length_insert. Qed.

(** ** What the edits do to the two texts *)

Inductive edit := EHome | EEnd | ELeft | ERight | EWordLeft | EWordRight | EEraseLine | EEraseWord | EDelete | EKill | EBackspace
  | EInsert (c : ascii) | ESetText (s : bstr).

Definition apply_edit (e : edit) (l : line) : option line :=
  match e with
  | EHome => Some (go_home l) | EEnd => Some (go_end l) | ELeft => Some (go_left l) | ERight => Some (go_right l)
  | EWordLeft => word_left l | EWordRight => word_right l | EEraseLine => erase_line l | EEraseWord => erase_word l
  | EDelete => delete_forward l | EKill => kill_to_end l | EBackspace => backspace l
  | EInsert c => insert_char c l | ESetText s => set_text s l
  end.

Definition chop_word (a : bstr) : bstr := rtrim not_space (rtrim is_space a).

Definition edit_texts (e : edit) (z : zipper) : zipper :=
  let '(a, b) := z in
  match e with
  | EHome => ([], a ++ b)
  | EEnd => (a ++ b, [])
  | ELeft => (chop a, drop (length a - 1) a ++ b)
  | ERight => (a ++ take 1 b, drop 1 b)
  | EWordLeft => (chop_word a, drop (length (chop_word a)) a ++ b)
  | EWordRight => let b' := skip_while is_space (skip_while not_space b) in (a ++ take (length b - length b') b, b')
  | EEraseLine => ([], [])
  | EEraseWord => (chop_word a, b)
  | EDelete => (a, drop 1 b)
  | EKill => (a, [])
  | EBackspace => (chop a, b)
  | EInsert c => if (length (a ++ b) <? TUI_INPUTLEN - 1)%nat then (a ++ [c], b) else (a, b)
  | ESetText s => (take (TUI_INPUTLEN - 1) s, [])
  end.

(** The cursor moves within the text. *)
Lemma rep_moved l a b a' b' : rep l (a, b) -> a' ++ b' = a ++ b -> rep (Line (input_buf l) (tui_input_len l) (Z.of_nat (length a'))) (a', b').
Proof.
  intros (Hl & Hs & (rest & Hb) & Hp & Hn) He. cbn [fst snd] in *. split_and!; cbn [fst snd input_buf tui_input_len tui_cursor_pos]; rewrite ?He; try done.
  exists rest. by rewrite Hb, (app_assoc a'), He, <- app_assoc.
Qed.

(** The text between [a] and [b] is taken out. *)
Lemma rep_cut l a gap b : rep l (a ++ gap, b) ->
  exists buf, memmove (input_buf l) (Z.of_nat (length a)) (tui_cursor_pos l) (tui_input_len l - tui_cursor_pos l + 1) = Some buf /\
    rep (Line buf (tui_input_len l - (tui_cursor_pos l - Z.of_nat (length a))) (Z.of_nat (length a))) (a, b).
Proof.
  intros (Hl & Hs & (rest & Hb) & Hp & Hn). cbn [fst snd] in *. rewrite Hb in *. rewrite <- app_assoc in *.
  pose proof (move_down a gap b rest Hs) as Hm. rewrite !length_app in *.
  replace (tui_input_len l - tui_cursor_pos l + 1) with (Z.of_nat (S (length b))) by lia. rewrite Hp, <- length_app.
  rewrite length_app in *. eexists. split; [exact Hm |].
  pose proof (memmove_length _ _ _ _ _ Hm) as Hlen. rewrite !length_app in Hlen. specialize (Hlen Hs).
  apply rep_intro; rewrite ?length_app; try lia. 
Qed.

Lemma rep_at l a b : rep l (a, b) -> tui_cursor_pos l = Z.of_nat (length a) /\ tui_input_len l = Z.of_nat (length a + length b) /\
  (length a + length b < TUI_INPUTLEN)%nat.
Proof. intros (Hl & _ & _ & Hp & Hn). cbn [fst snd] in *. rewrite length_app in *. lia. Qed.

Lemma rep_store_nul l a b : rep l (a, b) -> exists buf, store (input_buf l) (Z.of_nat (length a)) NUL = Some buf /\
  rep (Line buf (Z.of_nat (length a)) (Z.of_nat (length a))) (a, []).
Proof.
  intros Hr. destruct (rep_at l a b Hr) as (_ & _ & Hlt). destruct Hr as (Hl & Hs & (rest & Hb) & _). cbn [fst snd] in *. rewrite Hb in *.
  unfold store, in_buffer. rewrite (proj2 (Z.leb_le _ _)), (proj2 (Z.ltb_lt _ _)) by lia. cbn [andb]. eexists. split; [done |].
  rewrite Nat2Z.id. assert (Hc : exists c t, b ++ NUL :: rest = c :: t) by (destruct b; by eexists _, _). destruct Hc as (c & t & Hc). rewrite Hc in *.
  rewrite insert_app_r_alt, Nat.sub_diag by done. cbn [list_insert insert].
  change (a ++ NUL :: t) with (a ++ [] ++ NUL :: t). apply rep_intro; rewrite ?app_nil_r; try done; [lia |].
  rewrite length_app in *. cbn in *. lia.
Qed.

Lemma rep_delete l a c b : rep l (a, c :: b) -> exists buf, memmove (input_buf l) (tui_cursor_pos l) (tui_cursor_pos l + 1) (tui_input_len l - tui_cursor_pos l) = Some buf /\
  rep (Line buf (tui_input_len l - 1) (tui_cursor_pos l)) (a, b).
Proof.
  intros Hr. destruct (rep_at _ _ _ Hr) as (Hp & Hn & Hlt). cbn [length] in *. destruct Hr as (_ & Hs & (rest & Hb) & _). cbn [fst snd] in *. rewrite Hb in *.
  change ((c :: b) ++ NUL :: rest) with ([c] ++ b ++ NUL :: rest) in *. pose proof (move_down a [c] b rest Hs) as Hm.
  replace (tui_input_len l - tui_cursor_pos l) with (Z.of_nat (S (length b))) by lia. rewrite Hp.
  replace (Z.of_nat (length a) + 1) with (Z.of_nat (length (a ++ [c]))) by (rewrite length_app; cbn; lia).
  eexists. split; [exact Hm |]. pose proof (memmove_length _ _ _ _ _ Hm Hs). apply rep_intro; [rewrite length_app; lia | done | rewrite length_app; lia | done].
Qed.

Lemma rep_insert l a b c : rep l (a, b) -> (length (a ++ b) < TUI_INPUTLEN - 1)%nat -> exists l',
  insert_char c l = Some l' /\ rep l' (a ++ [c], b).
Proof.
  intros Hr Hroom. destruct (rep_at _ _ _ Hr) as (Hp & Hn & Hlt). destruct Hr as (_ & Hs & (rest & Hb) & _). cbn [fst snd] in *. rewrite Hb in *.
  rewrite length_app in Hroom. destruct rest as [| x rest]; [rewrite !length_app in Hs; cbn in Hs; lia |].
  pose proof (move_up a b x rest c Hs) as Hm. unfold insert_char. rewrite (proj2 (Z.ltb_lt _ _)) by lia.
  replace (tui_input_len l - tui_cursor_pos l + 1) with (Z.of_nat (S (length b))) by lia. rewrite Hb, Hp.
  destruct (memmove _ _ _ _) as [buf |] eqn:Hm1; [| done]. cbn [mbind option_bind] in *. rewrite Hm. cbn [mbind option_bind].
  eexists. split; [done |]. apply store_length in Hm. rewrite (memmove_length _ _ _ _ _ Hm1 Hs) in Hm. rewrite <- app_assoc in Hm |- *.
  rewrite (app_assoc a). rewrite (app_assoc a) in Hm.
  apply rep_intro; [rewrite !length_app; cbn [length]; lia | congruence | rewrite !length_app; cbn [length]; lia | rewrite length_app; cbn [length]; lia].
Qed.

Lemma rep_set_text l z s : rep l z -> exists l', set_text s l = Some l' /\ rep l' (take (TUI_INPUTLEN - 1) s, []).
Proof.
  intros (_ & Hs & _). unfold set_text, strlcpy. set (t := take _ s). assert (Ht : (length t <= TUI_INPUTLEN - 1)%nat) by (unfold t; rewrite length_take; lia).
  assert (Htop : TUI_INPUTLEN = 512%nat) by done. unfold copy_in, range_ok. rewrite length_app. cbn [length].
  rewrite !(proj2 (Z.leb_le _ _)) by lia. cbn [andb mbind option_bind]. eexists. split; [done |].
  set (r := drop _ (input_buf l)). assert (Hr : length r = (512 - (length t + 1))%nat) by (unfold r; rewrite length_drop; change (Z.to_nat 0) with O; lia).
  replace (take (Z.to_nat 0) (input_buf l) ++ (t ++ [NUL]) ++ r) with (t ++ [] ++ NUL :: r) by by rewrite <- app_assoc.
  apply rep_intro; rewrite ?app_nil_r; [lia | | done | done]. rewrite length_app. cbn [app length]. lia.
Qed.

Lemma chop_parts a : chop a ++ drop (length a - 1) a = a.
Proof. apply take_drop. Qed.

Lemma chop_word_parts a : chop_word a ++ drop (length (chop_word a)) a = a.
Proof.
  unfold chop_word. destruct (rtrim_parts is_space a) as [x Hx]. destruct (rtrim_parts not_space (rtrim is_space a)) as [y Hy].
  set (k := rtrim not_space (rtrim is_space a)) in *. rewrite Hy, <- app_assoc in Hx. rewrite Hx at 1. by rewrite drop_app_length, <- Hx.
Qed.

Lemma word_start_spec l a b : rep l (a, b) ->
  (i ← back_over is_space (input_buf l) (Z.to_nat (tui_cursor_pos l)); back_over not_space (input_buf l) i) = Some (length (chop_word a)).
Proof.
  intros Hr. destruct (rep_at _ _ _ Hr) as (Hp & _ & Hlt). destruct Hr as (_ & _ & (rest & Hb) & _). cbn [fst snd] in Hb.
  rewrite Hp, Nat2Z.id, Hb, back_over_spec by lia. cbn [mbind option_bind]. unfold chop_word.
  destruct (rtrim_parts is_space a) as [x Hx]. rewrite Hx at 1. rewrite <- app_assoc. apply back_over_spec.
  apply (f_equal length) in Hx. rewrite length_app in Hx. lia.
Qed.

Lemma cut_at l a k b : rep l (a, b) -> k ++ drop (length k) a = a ->
  exists buf, memmove (input_buf l) (Z.of_nat (length k)) (tui_cursor_pos l) (tui_input_len l - tui_cursor_pos l + 1) = Some buf /\
    rep (Line buf (tui_input_len l - (tui_cursor_pos l - Z.of_nat (length k))) (Z.of_nat (length k))) (k, b).
Proof. intros Hr Hk. apply rep_cut with (gap := drop (length k) a). by rewrite Hk. Qed.

Lemma word_right_spec l a b : rep l (a, b) -> let b' := skip_while is_space (skip_while not_space b) in
  exists l', word_right l = Some l' /\ rep l' (a ++ take (length b - length b') b, b').
Proof.
  intros Hr. cbv zeta. destruct (rep_at _ _ _ Hr) as (Hp & Hn & Hlt). pose proof Hr as (_ & _ & (rest & Hb) & _). cbn [fst snd] in Hb.
  destruct (skip_while_suffix not_space b) as [x Hx]. set (b1 := skip_while not_space b) in *.
  destruct (skip_while_suffix is_space b1) as [y Hy]. set (b2 := skip_while is_space b1) in *.
  assert (Hlx : length b = (length x + length b1)%nat) by (rewrite Hx at 1; apply length_app).
  assert (Hly : length b1 = (length y + length b2)%nat) by (rewrite Hy at 1; apply length_app).
  unfold word_right. rewrite Hp, Hb. replace (Z.to_nat (tui_input_len l - Z.of_nat (length a))) with (length b) by lia.
  rewrite forward_over_spec by (rewrite length_app; lia). fold b1. cbn [mbind option_bind].
  replace (length (a ++ b) - length b1)%nat with (length (a ++ x)) by (rewrite !length_app; lia).
  replace (Z.to_nat (tui_input_len l - Z.of_nat (length (a ++ x)))) with (length b1) by (rewrite length_app; lia).
  replace (a ++ b ++ NUL :: rest) with ((a ++ x) ++ b1 ++ NUL :: rest) by (by rewrite <- app_assoc, (app_assoc x), <- Hx).
  rewrite forward_over_spec by (rewrite !length_app; lia). fold b2. cbn [mbind option_bind]. eexists. split; [done |].
  replace (take (length b - length b2) b) with (x ++ y).
  2: { assert (Hb2 : b = (x ++ y) ++ b2) by (by rewrite <- app_assoc, <- Hy). rewrite Hb2 at 2. rewrite take_app_length'; [done |]. rewrite length_app. lia. }
  replace (length ((a ++ x) ++ b1) - length b2)%nat with (length (a ++ x ++ y)) by (rewrite !length_app; lia).
  replace ((a ++ x) ++ b1 ++ NUL :: rest) with (input_buf l) by (by rewrite Hb, <- app_assoc, (app_assoc x), <- Hx).
  apply (rep_moved l a b); [done |]. rewrite <- !app_assoc, <- Hy. by rewrite <- Hx.
Qed.

Lemma edit_rep e l z : rep l z -> exists l', apply_edit e l = Some l' /\ rep l' (edit_texts e z).
Proof.
  destruct z as [a b]. intros Hr. destruct (rep_at l a b Hr) as (Hp & Hn & Hlt). destruct e; cbn [apply_edit edit_texts].
  - eexists. split; [done |]. by apply (rep_moved l a b []).
  - eexists. split; [done |]. pose proof (rep_moved l a b (a ++ b) [] Hr (app_nil_r _)) as Hm. by rewrite length_app, <- Hn in Hm.
  - eexists. split; [done |]. unfold go_left. rewrite Hp. destruct (Z.ltb_spec 0 (Z.of_nat (length a))).
    + replace (Z.of_nat (length a) - 1) with (Z.of_nat (length (chop a))) by (unfold chop; rewrite length_take; lia).
      apply (rep_moved l a b); [done |]. by rewrite app_assoc, chop_parts.
    + assert (a = []) as -> by (destruct a; [done | cbn in *; lia]). done.
  - eexists. split; [done |]. unfold go_right. rewrite Hp, Hn. destruct b as [| c b]; cbn [length] in *.
    + rewrite (proj2 (Z.ltb_ge _ _)) by lia. cbn [take drop]. by rewrite app_nil_r.
    + rewrite (proj2 (Z.ltb_lt _ _)), <- Hn by lia. pose proof (rep_moved l a (c :: b) (a ++ [c]) b Hr ltac:(by rewrite <- app_assoc)) as Hm.
      rewrite length_app in Hm. cbn [length] in Hm. by rewrite Nat2Z.inj_add in Hm.
  - unfold word_left. pose proof (word_start_spec l a b Hr) as Hw. destruct (back_over is_space _ _) as [i |]; [| done]. cbn [mbind option_bind] in *.
    rewrite Hw. cbn [mbind option_bind]. eexists. split; [done |]. apply (rep_moved l a b); [done |]. by rewrite app_assoc, chop_word_parts.
  - by apply word_right_spec.
  - unfold erase_line. pose proof (rep_moved l a b [] (a ++ b) Hr eq_refl) as H0. destruct (rep_store_nul _ _ _ H0) as (buf & Hs & Hb).
    cbn [input_buf length] in Hs, Hb. change (Z.of_nat 0) with 0 in Hs, Hb. rewrite Hs. by eexists.
  - unfold erase_word. rewrite Hp. destruct (Z.ltb_spec 0 (Z.of_nat (length a))).
    + rewrite <- Hp. pose proof (word_start_spec l a b Hr) as Hw. destruct (back_over is_space _ _) as [i |]; [| done]. cbn [mbind option_bind] in *.
      rewrite Hw. cbn [mbind option_bind]. destruct (cut_at l a (chop_word a) b Hr (chop_word_parts a)) as (buf & -> & Hb). by eexists.
    + assert (a = []) as -> by (destruct a; [done | cbn in *; lia]). by exists l.
  - unfold delete_forward. rewrite Hp, Hn. destruct b as [| c b]; cbn [length drop] in *.
    + rewrite (proj2 (Z.ltb_ge _ _)) by lia. by exists l.
    + rewrite (proj2 (Z.ltb_lt _ _)) by lia. rewrite <- Hp, <- Hn. destruct (rep_delete l a c b Hr) as (buf & -> & Hb). by eexists.
  - unfold kill_to_end. rewrite Hp. destruct (rep_store_nul l a b Hr) as (buf & -> & Hb). by eexists.
  - unfold backspace. rewrite Hp. destruct (Z.ltb_spec 0 (Z.of_nat (length a))).
    + rewrite <- Hp. replace (tui_cursor_pos l - 1) with (Z.of_nat (length (chop a))) by (unfold chop; rewrite length_take; lia).
      assert (Hc : length (chop a) = (length a - 1)%nat) by (unfold chop; rewrite length_take; lia).
      destruct (cut_at l a (chop a) b Hr) as (buf & -> & Hb); [by rewrite Hc, chop_parts |]. eexists. split; [done |].
      by replace (tui_input_len l - 1) with (tui_input_len l - (tui_cursor_pos l - Z.of_nat (length (chop a)))) by lia.
    + assert (a = []) as -> by (destruct a; [done | cbn in *; lia]). by exists l.
  - destruct (Nat.ltb_spec (length (a ++ b)) (TUI_INPUTLEN - 1)); [by apply rep_insert |].
    unfold insert_char. rewrite length_app in *. rewrite (proj2 (Z.ltb_ge _ _)) by lia. by exists l.
  - by apply (rep_set_text l (a, b)).
Qed.

Fixpoint apply_edits (es : list edit) (l : line) : option line :=
  match es with
  | [] => Some l
  | e :: es => l ← apply_edit e l; apply_edits es l
  end.

(** C19: every sequence of edits stays inside the buffer and does to the text
    before and the text after the cursor what the edits say: they move characters
    between the two, take off a character, a word or all of one of them, or put in
    a character while fewer than 511 are there.  The length and the cursor always
    fit, and the text ends with a NUL. *)
Theorem line_edits_refine (es : list edit) :
  exists l, apply_edits es no_line = Some l /\ rep l (foldl (fun z e => edit_texts e z) ([], []) es).
Proof.
  assert (H0 : rep no_line ([], [])) by (split_and!; try done; [apply Nat.ltb_lt; reflexivity | by eexists]).
  revert H0. generalize no_line, (@nil ascii, @nil ascii). induction es as [| e es IH]; intros l z Hr; cbn [apply_edits foldl]; [by exists l |].
  destruct (edit_rep e l z Hr) as (l' & -> & Hl'). cbn [mbind option_bind]. by apply IH.
Qed.

(** ** History *)

Definition empty_history : history := History [] (-1).
Definition entered (lines : list bstr) : history := foldl (fun h s => history_add s h) empty_history lines.

(** [n] presses of a key: what the last one shows. *)
Fixpoint presses (key : history -> option (option bstr * history)) (n : nat) (shown : option bstr) (h : history) : option (option bstr * history) :=
  match n with
  | O => Some (shown, h)
  | S n => '(shown, h) ← key h; presses key n shown h
  end.

(** The lines that are kept: the newest 50, each cut to 511 characters. *)
Definition kept (lines : list bstr) : list bstr := newest HISTORY_LINES (map (take (TUI_INPUTLEN - 1)) lines).

Lemma newest_all n (ls : list bstr) : (length ls <= n)%nat -> newest n ls = ls.
Proof. intros Hl. unfold newest. by rewrite (proj2 (Nat.sub_0_le _ _)). Qed.

Lemma history_add_kept s h ls : s <> [] -> entries h = newest HISTORY_LINES ls ->
  entries (history_add s h) = newest HISTORY_LINES (ls ++ [take (TUI_INPUTLEN - 1) s]) /\ at_index (history_add s h) = Z.of_nat (length (entries (history_add s h))).
Proof.
  intros Hs He. destruct s as [| c s]; [done |]. unfold history_add. cbn [entries at_index]. split; [| done].
  rewrite <- newest_snoc by (unfold HISTORY_LINES; lia). rewrite <- He. pose proof (newest_length HISTORY_LINES ls) as Hl. rewrite <- He in Hl.
  unfold newest at 1. rewrite length_app. cbn [length]. unfold HISTORY_LINES in *.
  destruct (Nat.leb_spec 50 (length (entries h))).
  - rewrite drop_app_le by lia. do 2 f_equal. lia.
  - replace (length (entries h) + 1 - 50)%nat with O by lia. done.
Qed.

Lemma entered_kept lines : Forall (fun s => s <> []) lines -> entries (entered lines) = kept lines /\
  (lines <> [] -> at_index (entered lines) = Z.of_nat (length (kept lines))).
Proof.
  unfold entered, kept. induction lines as [| s lines IH] using rev_ind; intros Hl; [done |].
  apply Forall_app in Hl as [Hl Hs%Forall_inv]. destruct (IH Hl) as [He _]. rewrite foldl_app, map_app. cbn [foldl map].
  destruct (history_add_kept s _ _ Hs He) as [Ha Hi]. rewrite Ha in Hi. by split.
Qed.

Lemma presses_step key n shown h : presses key (S n) shown h = '(s, h') ← key h; presses key n s h'.
Proof. done. Qed.

Lemma prev_at ls i : (0 < length ls)%nat -> (i <= length ls)%nat ->
  history_prev (History ls (Z.of_nat i)) = Some (ls !! (i - 1)%nat, History ls (Z.of_nat (i - 1))).
Proof.
  intros Hne Hi. unfold history_prev. cbn [entries at_index]. rewrite (proj2 (Z.eqb_neq _ _)) by lia. rewrite (proj2 (Z.ltb_ge _ _)) by lia.
  replace (if 0 <? Z.of_nat i then Z.of_nat i - 1 else Z.of_nat i) with (Z.of_nat (i - 1)) by (destruct (Z.ltb_spec 0 (Z.of_nat i)); lia).
  rewrite Nat2Z.id. destruct (lookup_lt_is_Some_2 ls (i - 1)) as [x Hx]; [lia |]. by rewrite Hx.
Qed.

Lemma next_at ls i : (i + 1 <= length ls)%nat ->
  history_next (History ls (Z.of_nat i)) =
    Some (if (i + 1 =? length ls)%nat then Some [] else ls !! (i + 1)%nat, History ls (if (i + 1 =? length ls)%nat then -1 else Z.of_nat (i + 1))).
Proof.
  intros Hi. unfold history_next. cbn [entries at_index]. rewrite (proj2 (Z.eqb_neq _ _)), (proj2 (Z.ltb_ge _ _)) by lia. cbn [orb].
  replace (Z.of_nat i + 1) with (Z.of_nat (i + 1)) by lia. destruct (Nat.eqb_spec (i + 1) (length ls)).
  - by rewrite (proj2 (Z.leb_le _ _)) by lia.
  - rewrite (proj2 (Z.leb_gt _ _)), Nat2Z.id by lia. destruct (lookup_lt_is_Some_2 ls (i + 1)) as [x Hx]; [lia |]. by rewrite Hx.
Qed.

Lemma up_presses ls k i shown : (0 < length ls)%nat -> (i <= length ls)%nat ->
  presses history_prev (S k) shown (History ls (Z.of_nat i)) = Some (ls !! (i - S k)%nat, History ls (Z.of_nat (i - S k))).
Proof.
  intros Hne. revert i shown. induction k as [| k IH]; intros i shown Hi; rewrite presses_step, prev_at by done; cbn [mbind option_bind]; [done |].
  rewrite IH by lia. by replace (i - 1 - S k)%nat with (i - S (S k))%nat by lia.
Qed.

Lemma down_presses ls j i shown : (i + S j <= length ls)%nat ->
  presses history_next (S j) shown (History ls (Z.of_nat i)) =
    Some (if (i + S j =? length ls)%nat then Some [] else ls !! (i + S j)%nat,
          History ls (if (i + S j =? length ls)%nat then -1 else Z.of_nat (i + S j))).
Proof.
  revert i shown. induction j as [| j IH]; intros i shown Hi; rewrite presses_step, next_at by lia; cbn [mbind option_bind]; [done |].
  rewrite (proj2 (Nat.eqb_neq _ _)) by lia. rewrite IH by lia. by replace (i + 1 + S j)%nat with (i + S (S j))%nat by lia.
Qed.

(** Up shows the lines that were entered, newest first, back to the oldest of
    the newest fifty, and then stays there; Down goes forward again, and past the
    newest line it shows an empty one.  No access is outside the array. *)
Theorem history_recalls (lines : list bstr) (k : nat) (Hl : Forall (fun s => s <> []) lines) (Hne : lines <> []) :
  let n := length (kept lines) in
  n = (length lines `min` HISTORY_LINES)%nat /\
  presses history_prev (S k) None (entered lines) = Some (kept lines !! (n - S k)%nat, History (kept lines) (Z.of_nat (n - S k))) /\
  forall j, (n - S k + S j <= n)%nat ->
    (presses history_next (S j) None (History (kept lines) (Z.of_nat (n - S k)))) =
      Some (if (n - S k + S j =? n)%nat then Some [] else kept lines !! (n - S k + S j)%nat,
            History (kept lines) (if (n - S k + S j =? n)%nat then -1 else Z.of_nat (n - S k + S j))).
Proof.
  cbv zeta. assert (Hlen : length (kept lines) = (length lines `min` HISTORY_LINES)%nat) by (unfold kept; by rewrite newest_length, length_map).
  destruct (entered_kept lines Hl) as [He Hi]. specialize (Hi Hne). split; [done |]. split.
  - destruct (entered lines) as [es i]. cbn [entries at_index] in *. subst es i. apply up_presses; [| done].
    rewrite Hlen. destruct lines; [done |]. unfold HISTORY_LINES. cbn [length]. lia.
  - intros j Hj. by apply down_presses.
Qed.

Lemma history_recalls_witness :
  presses history_prev 2 None (entered [B "a"; B "b"; B "c"]) = Some (Some (B "b"), History [B "a"; B "b"; B "c"] 1).
Proof.
  destruct (history_recalls [B "a"; B "b"; B "c"] 1) as (_ & H & _).
  - repeat constructor; discriminate.
  - discriminate.
  - etrans; [exact H |]. vm_compute. reflexivity.
Defined.

(** A line that holds given texts. *)
Definition typed (a b : bstr) : line :=
  Line (a ++ b ++ NUL :: replicate (TUI_INPUTLEN - 1 - length (a ++ b)) NUL) (Z.of_nat (length (a ++ b))) (Z.of_nat (length a)).

Lemma typed_rep a b : (length (a ++ b) < TUI_INPUTLEN)%nat -> rep (typed a b) (a, b).
Proof. intros Hl. apply rep_intro; [done | | done | done]. rewrite !length_app in *. cbn [length]. rewrite length_replicate. lia. Qed.
