(* ===== verification/TuiCompletionSpec.v ===== *)
(** * What holds of the completion

    When the word is replaced, what the line holds then, and when the text after
    the cursor is moved out of the buffer. *)

From S2P Require Import Prelude CString ConfigText TuiWindow TuiDraw TuiInput TuiCompletion TuiInputSpec.

#[local] Open Scope Z_scope.

(** ** Moving and copying *)

Lemma drop_parts k w b rest n : n = length (k ++ w) -> drop n (k ++ w ++ b ++ NUL :: rest) = b ++ NUL :: rest.
Proof. intros ->. by rewrite app_assoc, drop_app_length. Qed.

(** The rest of the text goes to [dst]. *)
Lemma memmove_tail k w b rest (dst : nat) : length (k ++ w ++ b ++ NUL :: rest) = TUI_INPUTLEN ->
  memmove (k ++ w ++ b ++ NUL :: rest) (Z.of_nat dst) (Z.of_nat (length (k ++ w))) (Z.of_nat (length b) + 1) =
    if (dst + length b <? TUI_INPUTLEN)%nat
    then Some (take dst (k ++ w ++ b ++ NUL :: rest) ++ b ++ NUL :: drop (dst + (length b + 1)) (k ++ w ++ b ++ NUL :: rest)) else None.
Proof.
  intros Hl. unfold memmove, range_ok. pose proof Hl as Hl'. rewrite !length_app in Hl'. cbn [length] in Hl'. rewrite length_app.
  rewrite !(proj2 (Z.leb_le 0 _)) by lia. cbn [andb].
  rewrite (proj2 (Z.leb_le (Z.of_nat (length k + length w) + _) _)) by lia. rewrite andb_true_r.
  destruct (Nat.ltb_spec (dst + length b) TUI_INPUTLEN).
  - rewrite (proj2 (Z.leb_le _ _)) by lia. f_equal. rewrite !Nat2Z.id. f_equal.
    rewrite drop_parts by by rewrite length_app. replace (Z.to_nat (Z.of_nat (length b) + 1)) with (length (b ++ [NUL])) by (rewrite length_app; cbn; lia).
    replace (Z.to_nat (Z.of_nat dst + (Z.of_nat (length b) + 1))) with (dst + (length b + 1))%nat by lia.
    change (b ++ NUL :: rest) with (b ++ [NUL] ++ rest) at 1. rewrite (app_assoc b [NUL]), take_app_length, <- app_assoc. done.
  - by rewrite (proj2 (Z.leb_gt _ _)) by lia.
Qed.

(** The text copied over the buffer that has the rest moved. *)
Lemma copied k gap s x buf : length (k ++ gap) = (length k + length s)%nat -> (length k + length s <= TUI_INPUTLEN)%nat ->
  copy_in (k ++ gap ++ x ++ buf) (Z.of_nat (length k)) s = Some (k ++ s ++ x ++ buf).
Proof.
  intros Hg Hl. unfold copy_in, range_ok. rewrite !(proj2 (Z.leb_le _ _)) by lia. cbn [andb]. f_equal. rewrite Nat2Z.id, take_app_length.
  rewrite (app_assoc k gap), <- Hg, drop_app_length. done.
Qed.

Lemma replaced l k w b m plen single : rep l (k ++ w, b) -> (plen <= length m)%nat -> 
  let pl := if single && (plen <? TUI_INPUTLEN - 1)%nat then S plen else plen in
  let text := if single then take (pl - 1) m ++ B " " else take pl m in
  length text = pl /\
  if (length k + pl <? TUI_INPUTLEN)%nat then
    if (length k + pl + length b <? TUI_INPUTLEN)%nat
    then exists l', replace_word l (Z.of_nat (length k)) (Z.of_nat (length w)) m plen single = Some (Some l') /\ rep l' (k ++ text, b)
    else replace_word l (Z.of_nat (length k)) (Z.of_nat (length w)) m plen single = None
  else replace_word l (Z.of_nat (length k)) (Z.of_nat (length w)) m plen single = Some None.
Proof.
  intros Hr Hm. cbv zeta. set (pl := if single && _ then S plen else plen). set (text := if single then _ else _).
  assert (Hpl : (if single then 1 <= pl <= S (length m) else pl <= length m)%nat).
  { unfold pl. destruct single; cbn [andb]; [| done]. destruct (Nat.ltb_spec plen (TUI_INPUTLEN - 1)); unfold TUI_INPUTLEN in *; lia. }
  assert (Htext : length text = pl).
  { unfold text. destruct single; [rewrite length_app |]; rewrite length_take; cbn; lia. }
  split; [done |]. unfold replace_word. fold pl. clearbody pl.
  destruct (rep_at _ _ _ Hr) as (Hp & Hn & Hlt). destruct Hr as (_ & Hs & (rest & Hb) & _). cbn [fst snd] in Hb. rewrite <- app_assoc in Hb. rewrite Hb in *.
  destruct (Nat.ltb_spec (length k + pl) TUI_INPUTLEN) as [Hfit | Hfit].
  2: { by rewrite (proj2 (Z.ltb_ge _ _)) by lia. }
  rewrite (proj2 (Z.ltb_lt _ _)) by lia. rewrite Hp, <- Nat2Z.inj_add. replace (tui_input_len l - Z.of_nat (length (k ++ w)) + 1) with (Z.of_nat (length b) + 1) by lia.
  pose proof (memmove_tail k w b rest (length k + pl) Hs) as Hmm. rewrite Hmm. destruct (Nat.ltb_spec (length k + pl + length b) TUI_INPUTLEN) as [Hall | Hall]; [| done].
  cbn [mbind option_bind]. pose proof (memmove_length _ _ _ _ _ Hmm Hs) as Hlen. clear Hmm.
  set (r := drop (length k + pl + (length b + 1)) _) in *. clearbody r.
  assert (Hgap : exists gap, take (length k + pl) (k ++ w ++ b ++ NUL :: rest) = k ++ gap /\ length gap = pl).
  { rewrite take_app_ge by lia. eexists. split; [done |]. rewrite length_take. rewrite length_app in Hs. lia. }
  destruct Hgap as (gap & Hg & Hgap). rewrite Hg in *. rewrite <- app_assoc in *.
  assert (Hfinal : forall buf, buf = k ++ text ++ b ++ NUL :: r ->
    rep (Line buf (tui_input_len l + (Z.of_nat pl - Z.of_nat (length w))) (Z.of_nat (length k + pl))) (k ++ text, b)).
  { intros buf ->. rewrite (app_assoc k text). rewrite !length_app in *. apply rep_intro; rewrite ?length_app; cbn [length] in *; lia. }
  destruct single.
  - destruct (exists_last (l := gap)) as (g & x & ->); [intros ->; cbn in *; lia |]. rewrite length_app in Hgap. cbn [length] in Hgap.
    rewrite <- app_assoc, copied by (rewrite ?length_app, ?length_take; lia). cbn [mbind option_bind app].
    unfold store, in_buffer. rewrite (proj2 (Z.leb_le _ _)), (proj2 (Z.ltb_lt _ _)) by lia. cbn [andb mbind option_bind]. eexists. split; [by rewrite Nat2Z.inj_add |].
    rewrite <- Nat2Z.inj_add. apply Hfinal. unfold text. rewrite <- !app_assoc, app_assoc. rewrite (app_assoc k (take _ m)).
    rewrite insert_app_r_alt by (rewrite length_app, length_take; lia).
    replace (Z.to_nat _ - _)%nat with O by (rewrite length_app, length_take; lia). by rewrite <- !app_assoc.
  - rewrite copied by (rewrite ?length_app, ?length_take; lia). cbn [mbind option_bind]. eexists. split; [by rewrite Nat2Z.inj_add |].
    rewrite <- Nat2Z.inj_add. by apply Hfinal.
Qed.

(** ** The word and its replacement *)

(** The text before the word, and the word. *)
Definition before_word (a : bstr) : bstr := rtrim not_space a.
Definition the_word (a : bstr) : bstr := drop (length (before_word a)) a.

Lemma word_parts a : before_word a ++ the_word a = a.
Proof.
  unfold the_word, before_word. destruct (rtrim_parts not_space a) as [b Hb]. set (k := rtrim not_space a) in *. rewrite Hb. by rewrite drop_app_length.
Qed.

Lemma common_length_le n a b : (common_length n a b <= length a)%nat.
Proof. revert a b. induction n as [| n IH]; intros [| c a] [| d b]; cbn; try lia. case_match; [specialize (IH a b); lia | lia]. Qed.

Lemma common_prefix_le m ms : (common_prefix (m :: ms) <= length m)%nat.
Proof.
  unfold common_prefix. generalize (Nat.le_refl (length m)). generalize (length m) at 1 3 as n. intros n Hn. revert n Hn.
  induction ms as [| x ms IH]; intros n Hn; cbn [foldl]; [done |]. apply IH, common_length_le.
Qed.

(** What takes the place of the word: what the matches have in common, and after
    the only match a space, unless there is no room for it. *)
Definition completion (m : bstr) (ms : list bstr) : bstr :=
  let plen := common_prefix (m :: ms) in
  match ms with
  | [] => take (if (plen <? TUI_INPUTLEN - 1)%nat then plen else plen - 1)%nat m ++ B " "
  | _ => take plen m
  end.

(** The longest text that all of some texts begin with. *)
Definition longest_common (common : bstr) (texts : list bstr) : Prop :=
  Forall (fun t => common `prefix_of` t) texts /\ forall p, Forall (fun t => p `prefix_of` t) texts -> p `prefix_of` common.

Lemma prefix_nil_only (p : bstr) : p `prefix_of` [] <-> p = [].
Proof. split; [by intros [k Hk]; destruct p | intros ->; by exists []]. Qed.

Lemma prefix_cons_iff (c d : ascii) (p t : bstr) : c :: p `prefix_of` d :: t <-> c = d /\ p `prefix_of` t.
Proof. split; [intros H; split; [by eapply prefix_cons_inv_1 | by eapply prefix_cons_inv_2] | intros [-> H]; by apply prefix_cons]. Qed.

Lemma common_length_prefix n : forall a b p, p `prefix_of` take (common_length n a b) a <-> p `prefix_of` take n a /\ p `prefix_of` b.
Proof.
  induction n as [| n IH]; intros [| c a] b p; cbn [common_length take firstn]; try (rewrite prefix_nil_only; split; [intros ->; split; [done | apply prefix_nil] | tauto]).
  destruct b as [| d b]; cbn [take firstn]; [rewrite !prefix_nil_only; split; [intros ->; split; [apply prefix_nil | done] | tauto] |].
  destruct p as [| x p]; [split; intros _; [split |]; apply prefix_nil |]. case_bool_decide as Hc; cbn [take firstn].
  - subst d. rewrite !prefix_cons_iff, IH. tauto.
  - rewrite prefix_nil_only, !prefix_cons_iff. split; [done | intros [[-> _] [-> _]]; done].
Qed.

Lemma common_prefix_longest m ms : longest_common (take (common_prefix (m :: ms)) m) (m :: ms).
Proof.
  assert (Hall : forall n p, p `prefix_of` take (foldl (fun plen x => common_length plen m x) n ms) m <-> p `prefix_of` take n m /\ Forall (fun t => p `prefix_of` t) ms).
  { induction ms as [| x ms IH]; intros n p; cbn [foldl]; [split; [by split | tauto] |]. rewrite IH, common_length_prefix, Forall_cons. tauto. }
  assert (Hm : forall p, p `prefix_of` take (common_prefix (m :: ms)) m <-> Forall (fun t => p `prefix_of` t) (m :: ms)).
  { intros p. unfold common_prefix. by rewrite Hall, take_ge, Forall_cons by done. }
  split; [by apply Hm | intros p Hp; by apply Hm].
Qed.

(** What takes the place of the word: what the matches have in common, or the only
    match, less its last character if it has as many as the line, and a space. *)
Definition put_in (common : bstr) (only : bool) : bstr :=
  if only then (if (length common <? TUI_INPUTLEN - 1)%nat then common else take (length common - 1) common) ++ B " " else common.

Lemma completion_put_in m ms : completion m ms = put_in (take (common_prefix (m :: ms)) m) (bool_decide (ms = [])).
Proof.
  unfold completion, put_in. pose proof (common_prefix_le m ms) as Hle. assert (Hl : length (take (common_prefix (m :: ms)) m) = common_prefix (m :: ms)) by (rewrite length_take; lia).
  rewrite Hl. destruct ms as [| x ms]; [rewrite bool_decide_eq_true_2 by done | by rewrite bool_decide_eq_false_2].
  case_match; [done |]. rewrite take_take. do 2 f_equal. lia.
Qed.

Section Specification.

Context (provide : Z -> bstr -> bstr -> option (list bstr)) (describe : option (bstr -> bstr -> bstr)).

Lemma completion_cases ps cols l a b (Hr : rep l (a, b)) :
  let k := before_word a in
  match completion_collect provide ps (cstr a) (cstr (the_word a)) with
  | m :: ms =>
      let new := completion m ms in
      if bool_decide (a = []) then tui_do_completion provide describe ps cols l = Some (false, l, [])
      else if bool_decide (ms = []) || (length (the_word a) <? common_prefix (m :: ms))%nat then
        if (TUI_INPUTLEN <=? length (k ++ new))%nat then tui_do_completion provide describe ps cols l = Some (false, l, [])
        else if (TUI_INPUTLEN <=? length (k ++ new ++ b))%nat then tui_do_completion provide describe ps cols l = None
        else exists l', tui_do_completion provide describe ps cols l = Some (true, l', []) /\ rep l' (k ++ new, b)
      else tui_do_completion provide describe ps cols l = Some (false, l, candidate_lines describe cols (cstr (input_buf l)) (m :: ms))
  | [] => tui_do_completion provide describe ps cols l = Some (false, l, [])
  end.
Proof.
  cbv zeta. destruct (rep_at _ _ _ Hr) as (Hp & Hn & Hlt). pose proof Hr as (_ & _ & (rest & Hb) & _). cbn [fst snd] in Hb.
  unfold tui_do_completion. rewrite Hp.
  destruct (bool_decide (a = [])) eqn:Ha.
  { apply bool_decide_eq_true in Ha. rewrite Ha. cbn. by case_match. }
  apply bool_decide_eq_false in Ha. assert (Hla : length a <> O) by (by destruct a).
  rewrite (proj2 (Z.eqb_neq _ _)) by lia. unfold word_start. rewrite Hp, Nat2Z.id, Hb, back_over_spec by lia. fold (before_word a). cbn [mbind option_bind].
  pose proof (word_parts a) as Hw. set (k := before_word a) in *. set (w := the_word a) in *.
  assert (Hlw : length a = (length k + length w)%nat) by (rewrite <- Hw at 1; apply length_app).
  replace (Z.of_nat (length a) - Z.of_nat (length k)) with (Z.of_nat (length w)) by lia.
  assert (Hlast : exists c, load (a ++ b ++ NUL :: rest) (Z.of_nat (length a) - 1) = Some c /\ (Z.of_nat (length w) =? 0) && negb (is_space c) = false).
  { destruct (exists_last Ha) as (a0 & c & Ha0). exists c. split.
    - rewrite Ha0, <- app_assoc. cbn [app]. replace (Z.of_nat (length (a0 ++ [c])) - 1) with (Z.of_nat (length a0)) by (rewrite length_app; cbn; lia).
      apply load_at. rewrite Ha0, length_app in Hlt. lia.
    - destruct (Z.eqb_spec (Z.of_nat (length w)) 0) as [Hz |]; [| done]. cbn [andb]. unfold k, before_word in Hlw. rewrite Ha0, rtrim_snoc in Hlw.
      unfold is_space. unfold not_space in Hlw at 1. destruct (ceq c " "); [done |]. cbn [negb] in Hlw.
      destruct (rtrim_parts not_space a0) as [y Hy]. apply (f_equal length) in Hy. rewrite !length_app in *. cbn [length] in *. lia. }
  destruct Hlast as (c & -> & Hc). cbn [mbind option_bind]. rewrite Hc, !Nat2Z.id.
  replace (take (length w) (drop (length k) (a ++ b ++ NUL :: rest))) with w.
  2: { rewrite <- Hw at 1. rewrite <- app_assoc, drop_app_length, take_app_length. done. }
  rewrite take_app_length. destruct (completion_collect provide ps (cstr a) (cstr w)) as [| m ms]; [done |].
  assert (Hsingle : (length (m :: ms) =? 1)%nat = bool_decide (ms = [])) by (destruct ms; [done |]; by rewrite bool_decide_eq_false_2). rewrite Hsingle.
  replace (Z.of_nat (length w) <? Z.of_nat (common_prefix (m :: ms))) with (length w <? common_prefix (m :: ms))%nat.
  2: { destruct (Nat.ltb_spec (length w) (common_prefix (m :: ms))), (Z.ltb_spec (Z.of_nat (length w)) (Z.of_nat (common_prefix (m :: ms)))); try done; lia. }
  destruct (bool_decide (ms = []) || _); [| done].
  rewrite <- Hw in Hr. pose proof (replaced l k w b m (common_prefix (m :: ms)) (bool_decide (ms = [])) Hr (common_prefix_le m ms)) as [Hlen Hrep].
  match type of Hlen with length ?t = _ => assert (Hnew : t = completion m ms) end.
  { unfold completion. destruct ms as [| x ms]; [| done]. cbn [bool_decide_true andb]. rewrite bool_decide_eq_true_2 by done. cbn [andb].
    destruct (_ <? _)%nat; f_equal; f_equal; lia. }
  rewrite Hnew in Hlen, Hrep. rewrite <- Hlen in Hrep. rewrite !length_app.
  destruct (Nat.ltb_spec (length k + length (completion m ms)) TUI_INPUTLEN), (Nat.leb_spec TUI_INPUTLEN (length k + length (completion m ms))); try lia;
    [| by rewrite Hrep].
  destruct (Nat.ltb_spec (length k + length (completion m ms) + length b) TUI_INPUTLEN),
    (Nat.leb_spec TUI_INPUTLEN (length k + (length (completion m ms) + length b))); try lia; [| by rewrite Hrep].
  destruct Hrep as (l' & -> & Hl'). by exists l'.
Qed.

(** Whatever the completion does, the line stays a text with a cursor in it. *)
Lemma completion_rep ps cols l z changed l' lines : rep l z ->
  tui_do_completion provide describe ps cols l = Some (changed, l', lines) -> exists z', rep l' z'.
Proof.
  destruct z as [a b]. intros Hr. pose proof (completion_cases ps cols l a b Hr) as Hc. cbv zeta in Hc.
  assert (Hsame : forall c ls, Some (c, l, ls) = Some (changed, l', lines) -> exists z', rep l' z') by (intros c ls [= _ <- _]; by exists (a, b)).
  destruct (completion_collect _ _ _ _) as [| m ms]; [rewrite Hc; apply Hsame |].
  destruct (bool_decide (a = [])); [rewrite Hc; apply Hsame |].
  destruct (_ || _); [| rewrite Hc; apply Hsame]. destruct (_ <=? _)%nat; [rewrite Hc; apply Hsame |].
  destruct (_ <=? _)%nat; [by rewrite Hc |]. destruct Hc as (x & -> & Hx). intros [= _ <- _]. by eexists.
Qed.

(** C28: the word before the cursor is replaced by the only match and a space, or
    by the longest text that all matches begin with, if that is longer than the word;
    otherwise the line stays and the candidates are listed.  The text after the cursor is
    kept, but only the start of the line is checked to fit: if the whole line
    would not, the text after the cursor is moved out of the buffer. *)
Theorem completion_replaces_word ps cols l a b (Hr : rep l (a, b)) :
  let k := before_word a in
  match concat (map (fun p => default [] (provide p (cstr a) (cstr (the_word a)))) ps) with
  | [] => tui_do_completion provide describe ps cols l = Some (false, l, [])
  | m :: ms => exists common, longest_common common (m :: ms) /\
      let only := bool_decide (ms = []) in
      let new := put_in common only in
      if bool_decide (a = []) then tui_do_completion provide describe ps cols l = Some (false, l, [])
      else if only || (length (the_word a) <? length common)%nat then
        if (TUI_INPUTLEN <=? length (k ++ new))%nat then tui_do_completion provide describe ps cols l = Some (false, l, [])
        else if (TUI_INPUTLEN <=? length (k ++ new ++ b))%nat then tui_do_completion provide describe ps cols l = None
        else exists l', tui_do_completion provide describe ps cols l = Some (true, l', []) /\ rep l' (k ++ new, b)
      else tui_do_completion provide describe ps cols l = Some (false, l, candidate_lines describe cols (cstr (input_buf l)) (m :: ms))
  end.
Proof.
  cbv zeta. pose proof (completion_cases ps cols l a b Hr) as Hc. cbv zeta in Hc. unfold completion_collect in Hc. fold (completion_collect provide ps (cstr a) (cstr (the_word a))) in *.
  destruct (completion_collect provide ps (cstr a) (cstr (the_word a))) as [| m ms]; [done |].
  exists (take (common_prefix (m :: ms)) m). split; [apply common_prefix_longest |]. rewrite <- completion_put_in.
  replace (length (take _ m)) with (common_prefix (m :: ms)) by (rewrite length_take; pose proof (common_prefix_le m ms); lia). exact Hc.
Qed.

End Specification.

(** Two matches that go on alike; one match in a line without room: with 508
    characters behind the cursor the move leaves the buffer. *)
Lemma completion_replaces_word_witness :
  let provide := fun (_ : Z) (_ w : bstr) => if streq w (B "he") then Some [B "hello"] else if streq w (B "s") then Some [B "serve"; B "server"; B "service"] else None in
  (exists l', tui_do_completion provide None [1] 80 (typed (B "say s") (B " now")) = Some (true, l', []) /\ rep l' (B "say serv", B " now")) /\
  tui_do_completion provide None [1] 80 (typed (B "he") (replicate 508 "x"%char)) = None.
Proof.
  cbv zeta. set (provide := fun (_ : Z) (_ w : bstr) => if streq w (B "he") then Some [B "hello"] else if streq w (B "s") then Some [B "serve"; B "server"; B "service"] else None).
  split.
  - destruct (completion_replaces_word provide None [1] 80 (typed (B "say s") (B " now")) (B "say s") (B " now")) as (common & [Hall Hmax] & Hc).
    { apply typed_rep. apply Nat.ltb_lt. reflexivity. }
    assert (common = B "serv") as ->; [| exact Hc].
    assert (Hle : B "serv" `prefix_of` common) by (apply Hmax; repeat apply Forall_cons_2; [by exists (B "e") | by exists (B "er") | by exists (B "ice") | apply Forall_nil_2]).
    apply Forall_cons in Hall as [[k1 H1] Hall]. apply Forall_cons in Hall as [_ Hall]. apply Forall_cons in Hall as [[k2 H2] _].
    destruct Hle as [k ->]. destruct k as [| c k]; [done |]. cbn in H1, H2. injection H1 as H1 _. injection H2 as H2 _. by subst c.
  - destruct (completion_replaces_word provide None [1] 80 (typed (B "he") (replicate 508 "x"%char)) (B "he") (replicate 508 "x"%char)) as (common & [Hall Hmax] & Hc).
    { apply typed_rep. apply Nat.ltb_lt. vm_compute. reflexivity. }
    assert (common = B "hello") as ->; [| exact Hc].
    apply (anti_symm prefix); [by apply Forall_inv in Hall | apply Hmax; by repeat constructor].
Defined.
