(* ===== verification/TuiKeys.v ===== *)
(** * Key events (tui.keys.c)

    One turn of the loop over the decoded keys: hotkeys, structured views, the
    history, completion, window switching and the edits of the line.  The
    application's callbacks are a class; each may change the whole interface.
    [None] is an access outside a buffer or to a window that has been freed. *)

From S2P Require Import Prelude CString ConfigText TuiText TuiWindow TuiDraw TuiInput TuiCompletion.

#[local] Open Scope Z_scope.

(** ** The interface *)

(** [shared_input_history], [input_history] and its index, [hotkeys],
    [completion_providers]. *)
Record ui := Ui {
  screen : tui;
  input : line;
  shared_input_history : bool;
  global_history : history;
  hotkeys : list (option binding);
  providers : list Z }.

Definition set_screen (t : tui) (u : ui) : ui := Ui t (input u) (shared_input_history u) (global_history u) (hotkeys u) (providers u).
Definition set_input (l : line) (u : ui) : ui := Ui (screen u) l (shared_input_history u) (global_history u) (hotkeys u) (providers u).
Definition set_global (h : history) (u : ui) : ui := Ui (screen u) (input u) (shared_input_history u) h (hotkeys u) (providers u).

(** [TermKeyType] and [TermKeyKey]: [code] is the code point or the symbol. *)
Inductive key_type := KUnicode | KFunction | KKeysym | KMouse | KOther.
Record key := Key { type : key_type; code_of : Z; modifiers : Z }.

Definition SYM_BACKSPACE : Z := 1.
Definition SYM_TAB : Z := 2.
Definition SYM_ENTER : Z := 3.
Definition SYM_UP : Z := 7.
Definition SYM_DOWN : Z := 8.
Definition SYM_LEFT : Z := 9.
Definition SYM_RIGHT : Z := 10.
Definition SYM_DELETE : Z := 14.
Definition SYM_PAGEUP : Z := 16.
Definition SYM_PAGEDOWN : Z := 17.
Definition SYM_HOME : Z := 18.
Definition SYM_END : Z := 19.

Definition SHIFT : Z := 1.
Definition ALT : Z := 2.
Definition CTRL : Z := 4.
Definition has (k : key) (m : Z) : bool := negb (Z.land (modifiers k) m =? 0).
Definition is_type (t : key_type) (k : key) : bool :=
  match t, type k with
  | KUnicode, KUnicode | KFunction, KFunction | KKeysym, KKeysym | KMouse, KMouse | KOther, KOther => true
  | _, _ => false
  end.

(** The application: its callbacks get the interface and leave another.  A window
    is its address. *)
Class App := {
  run_hotkey : ui -> Z -> Z -> Z -> binding -> bool * ui;
  view_key : Z -> option (ui -> Z -> Z -> bool * ui);
  view_mouse : Z -> option (ui -> key -> bool * ui);
  full_height : Z -> bool;
  tui_input_blocked_cb : option (ui -> bstr -> bool * ui);
  tui_readline_cb : option (ui -> bstr -> ui);
  completion_handler : option (ui -> Z -> bool * ui);
  provide : Z -> bstr -> bstr -> option (list bstr);
  describer : option (bstr -> bstr -> bstr) }.

Section Keys.

Context `{App}.

(** ** Windows and history *)

Definition active (u : ui) : option window * ui :=
  let '(w, t) := tui_active_window (screen u) in (w, set_screen t u).

(** Reading a window after a callback: it may be gone. *)
Definition alive (u : ui) (win : Z) : option unit :=
  if existsb (fun w => w_addr w =? win) (tui_windows (screen u)) then Some tt else None.

Definition tui_set_shared_input_history (shared : bool) (u : ui) : ui :=
  let h := global_history u in
  Ui (screen u) (input u) shared (History (entries h) (if shared then Z.of_nat (length (entries h)) else -1)) (hotkeys u) (providers u).

Definition handle_ptt_button (u : ui) : ui :=
  let '(w, u) := active u in
  match w with Some w => set_screen (tui_print (screen u) true (Some (w_addr w)) (B "* F13 (PTT) pressed!")) u | None => u end.

(** What is left of the state at the end. *)
Definition tui_keys_fini (u : ui) : ui := Ui (screen u) (input u) (shared_input_history u) (History [] (-1)) no_hotkeys (providers u).

Definition active_history (u : ui) : history * (history -> ui -> ui) * ui :=
  let '(w, u) := active u in
  match w with
  | Some w =>
      if shared_input_history u then (global_history u, set_global, u)
      else (History (input_history w) (history_index w),
            fun h u => set_screen (update (w_addr w) (set_history (entries h) (at_index h)) (screen u)) u, u)
  | None => (global_history u, set_global, u)
  end.

(** A key of the history: its line is put in. *)
Definition recall (step : history -> option (option bstr * history)) (u : ui) : option ui :=
  let '(h, put, u) := active_history u in
  '(shown, h) ← step h;
  let u := put h u in
  match shown with
  | Some s => l ← set_text s (input u); Some (set_input l u)
  | None => Some u
  end.

Definition add_to_history (s : bstr) (u : ui) : ui :=
  match s with
  | [] => u
  | _ => let '(h, put, u) := active_history u in put (history_add s h) u
  end.

(** ** Drawing the input line *)

Definition update_input_line (u : ui) : option ui :=
  if negb (tui_is_enabled (screen u)) then Some u
  else
    let '(w, u) := active u in
    match w with
    | None => Some u
    | Some w =>
        if full_height (w_addr w) then Some u
        else
          let l := clamp_line (input u) in
          _ ← tui_update_input_line (cfg_tui_colors (screen u)) (term_rows (screen u)) (term_cols (screen u)) (title w)
                (take (Z.to_nat (tui_input_len l)) (input_buf l)) (tui_cursor_pos l);
          Some (set_input l u)
    end.

(** ** Enter *)

Definition no_text (l : line) : option line := buf ← store (input_buf l) 0 NUL; Some (Line buf 0 (tui_cursor_pos l)).

Definition handle_enter_key (u : ui) : option ui :=
  let l := input u in
  buf ← store (input_buf l) (tui_input_len l) NUL;
  let u := set_input (Line buf (tui_input_len l) (tui_cursor_pos l)) u in
  let '(blocked, u) := match tui_input_blocked_cb with Some f => if 0 <? tui_input_len l then f u (cstr buf) else (false, u) | None => (false, u) end in
  if blocked then update_input_line u
  else if 0 <? tui_input_len (input u) then
    let u := add_to_history (cstr (input_buf (input u))) u in
    let u := match tui_readline_cb with Some f => f u (cstr (input_buf (input u))) | None => u end in
    l ← no_text (input u);
    update_input_line (set_input l u)
  else update_input_line u.

(** ** Hotkeys and completion *)

Definition tui_hotkey_dispatch (u : ui) (win k m : Z) : bool * ui :=
  match hotkey_for (hotkeys u) k m with Some b => run_hotkey u win k m b | None => (false, u) end.

Definition complete (u : ui) (win : Z) : option (bool * ui) :=
  let '(taken, u) := match completion_handler with Some f => f u win | None => (false, u) end in
  if taken then Some (true, u)
  else
    '(changed, l, lines) ← tui_do_completion provide describer (providers u) (term_cols (screen u)) (input u);
    Some (changed, set_screen (foldl (fun t s => tui_print t true (Some win) s) (screen u) lines) (set_input l u)).

(** ** Keys that are symbols *)

Definition done (u : ui) : option (bool * ui) := Some (true, u).

Definition edit_with (f : line -> option line) (u : ui) : option (bool * ui) := l ← f (input u); Some (true, set_input l u).

Definition keysym (u : ui) (win : Z) (k : key) : option (bool * ui) :=
  let sym := code_of k in
  if sym =? SYM_ENTER then
    if has k ALT then Some (tui_hotkey_dispatch u win sym (modifiers k))
    else u ← handle_enter_key u; done (set_input no_line u)
  else if sym =? SYM_TAB then
    if has k CTRL then Some (tui_hotkey_dispatch u win SYM_TAB (modifiers k))
    else if has k ALT || has k SHIFT then Some (false, u) else complete u win
  else if sym =? SYM_PAGEUP then Some (false, set_screen (handle_pgup (screen u)) u)
  else if sym =? SYM_PAGEDOWN then Some (false, set_screen (handle_pgdn (screen u)) u)
  else if sym =? SYM_HOME then done (set_input (go_home (input u)) u)
  else if sym =? SYM_END then done (set_input (go_end (input u)) u)
  else if sym =? SYM_LEFT then
    if has k CTRL then edit_with word_left u
    else if has k ALT then Some (false, set_screen (handle_alt_left (screen u)) u)
    else done (set_input (go_left (input u)) u)
  else if sym =? SYM_RIGHT then
    if has k CTRL then edit_with word_right u
    else if has k ALT then Some (false, set_screen (handle_alt_right (screen u)) u)
    else done (set_input (go_right (input u)) u)
  else if sym =? SYM_UP then u ← recall history_prev u; done u
  else if sym =? SYM_DOWN then u ← recall history_next u; done u
  else if has k ALT && (48 <=? sym) && (sym <=? 57) then Some (false, set_screen (tui_window_swap (screen u) (sym - 48)) u)
  else Some (false, u).

(** ** Keys with modifiers *)

(** [strchr(window_keys, c)], which finds the NUL at the end, too. *)
Definition window_key (c : Z) : option nat :=
  let fix find (i : nat) (s : bstr) :=
    match s with
    | [] => if c mod 256 =? 0 then Some i else None
    | x :: s => if code x =? c mod 256 then Some i else find (S i) s
    end in
  find 0%nat (B "qwertyuiop").

(** [None] inside: the key is finished. *)
Definition alt_unicode (u : ui) (win : Z) (k : key) : option (bool * ui) * ui :=
  let '(taken, u) := tui_hotkey_dispatch u win (code_of k) (modifiers k) in
  if taken then (None, u)
  else
    match window_key (code_of k) with
    | Some i => (Some (true, set_screen (tui_redraw_screen (tui_window_focus_id (screen u) true (11 + Z.of_nat i)).2) u), u)
    | None => (Some (false, u), u)
    end.

(** Formatting characters, by letter. *)
Definition ctrl_insert (c : Z) : option Z :=
  if c =? 95 then Some 0x1f
  else if (c =? 66) || (c =? 98) then Some 0x02
  else if (c =? 67) || (c =? 99) then Some 0x03
  else if (c =? 73) || (c =? 105) then Some 0x1d
  else if (c =? 79) || (c =? 111) then Some 0x0f
  else if (c =? 82) || (c =? 114) then Some 0x16
  else None.

Definition ctrl_edit (c : Z) : option (line -> option line) :=
  if (c =? 65) || (c =? 97) || (c =? 0x01) then Some (fun l => Some (go_home l))
  else if (c =? 69) || (c =? 101) || (c =? 0x05) then Some (fun l => Some (go_end l))
  else if (c =? 85) || (c =? 117) then Some erase_line
  else if (c =? 87) || (c =? 119) || (c =? 0x17) then Some erase_word
  else if (c =? 68) || (c =? 100) || (c =? 0x04) then Some delete_forward
  else if (c =? 75) || (c =? 107) || (c =? 0x0b) then Some kill_to_end
  else if c =? 0x08 then Some backspace
  else None.

Definition ctrl_key (u : ui) (c : Z) : option (bool * ui) :=
  match ctrl_edit c with
  | Some f => edit_with f u
  | None =>
      match ctrl_insert c with
      | Some i => if tui_input_len (input u) <? Z.of_nat TUI_INPUTLEN - 1 then edit_with (insert_char (chr i)) u else Some (false, u)
      | None => Some (false, u)
      end
  end.

(** ** The other keys *)

Definition plain_key (u : ui) (k : key) (c : Z) : option (bool * ui) :=
  if c =? 10 then u ← handle_enter_key u; edit_with erase_line u
  else if (c =? 0x08) || (c =? 0x7f) then edit_with backspace u
  else if (48 <=? c) && (c <=? 57) then
    if has k ALT then done (set_screen (tui_window_swap (screen u) c) u) else Some (false, u)
  else if c =? SYM_DELETE then edit_with delete_forward u
  else Some (false, u).

(** The code that the edits look at. *)
Definition key_code (k : key) : Z :=
  match type k with
  | KUnicode => code_of k
  | KKeysym =>
      if code_of k =? SYM_BACKSPACE then 0x08
      else if code_of k =? SYM_ENTER then 10
      else code_of k
  | _ => 0
  end.

(** Doing the next step unless the key is handled. *)
Definition unless (handled : bool) (u : ui) (step : option (bool * ui)) : option (bool * ui) := if handled then Some (true, u) else step.

(** From the Ctrl edits on. *)
Definition edit_key (handled : bool) (u : ui) (k : key) : option ui :=
  let c := key_code k in
  '(handled, u) ← (if negb handled && has k CTRL then ctrl_key u c else Some (handled, u));
  '(handled, u) ← unless handled u (plain_key u k c);
  '(handled, u) ← unless handled u (if is_type KUnicode k && (0x20 <=? c) then edit_with (insert_char (chr c)) u else Some (false, u));
  if (handled : bool) then update_input_line u else Some u.

(** One turn of the loop. *)
Definition handle_key (u : ui) (k : key) : option ui :=
  let '(w, u) := active u in
  match w with
  | None => Some u
  | Some w =>
      let win := w_addr w in
      let '(taken, u) :=
        if is_type KUnicode k && (code_of k =? 9) && has k CTRL && negb (has k ALT) then tui_hotkey_dispatch u win SYM_TAB (modifiers k) else (false, u) in
      if taken then Some u
      else if is_type KMouse k then
        Some (match view_mouse win with Some f => (f u k).2 | None => u end)
      else
        _ ← alive u win;
        let '(taken, u) :=
          match view_key win with
          | Some f => if has k ALT then (false, u) else f u (match type k with KUnicode | KKeysym => code_of k | _ => 0 end) (modifiers k)
          | None => (false, u)
          end in
        if taken then Some u
        else
          let '(handled, u) :=
            if is_type KUnicode k && has k CTRL && ((code_of k =? 0) || (code_of k =? 32))
            then tui_hotkey_dispatch u win (code_of k) (modifiers k) else (false, u) in
          '(handled, u) ← (if is_type KKeysym k then keysym u win k else Some (handled, u));
          let '(next, u) := if negb handled && is_type KUnicode k && has k ALT then alt_unicode u win k else (Some (handled, u), u) in
          match next with
          | None => Some u
          | Some (handled, u) => _ ← alive u win; if full_height win then Some u else edit_key handled u k
          end
  end.

(** All keys that are there. *)
Fixpoint handle_keys (u : ui) (ks : list key) : option ui :=
  match ks with
  | [] => Some u
  | k :: ks => u ← handle_key u k; handle_keys u ks
  end.

End Keys.
