(* ===== verification/TuiKeysSpec.v ===== *)
(** * What holds of hotkeys and key events

    The hotkey table is a finite map of combinations with 32 places; typing a line
    and Enter hands that line to the application; every key keeps the interface in
    order if the application's callbacks do, and goes through while nothing is completed
    and there are no formatting characters. *)

From stdpp Require Import gmap.
From S2P Require Import Prelude CString ConfigText TuiText TuiWindow TuiWindowSpec TuiDraw TuiDrawSpec TuiInput TuiInputSpec TuiCompletion TuiCompletionSpec TuiKeys.

#[local] Open Scope Z_scope.

(** ** The hotkey table *)

(** The table holds the bindings of the map, one slot for each. *)
Record table_is (hs : list (option binding)) (m : gmap (Z * Z) (Z * Z)) : Prop := {
  table_size : length hs = TUI_HOTKEY_MAX;
  table_once : forall i j b c, hs !! i = Some (Some b) -> hs !! j = Some (Some c) -> hk_key b = hk_key c -> hk_modifiers b = hk_modifiers c -> i = j;
  table_map : forall k mods cb data, m !! (k, mods) = Some (cb, data) <-> exists i, hs !! i = Some (Some (Binding k mods cb data)) }.

Lemma first_slot_some p hs i : first_slot p hs = Some i -> exists b, hs !! i = Some b /\ p b = true /\ forall j c, (j < i)%nat -> hs !! j = Some c -> p c = false.
Proof.
  revert i. induction hs as [| b hs IH]; intros i; cbn [first_slot]; [done |]. destruct (p b) eqn:Hb.
  - intros [= <-]. exists b. split_and!; [done.. | lia].
  - intros Hf. apply fmap_Some in Hf as (k & Hk & ->). destruct (IH k Hk) as (c & Hc & Hp & Hn). exists c. split_and!; [done.. |].
    intros [| j] d Hj Hd; [by injection Hd as <- |]. apply (Hn j d); [lia | done].
Qed.

Lemma first_slot_none p hs : first_slot p hs = None -> forall i b, hs !! i = Some b -> p b = false.
Proof.
  induction hs as [| c hs IH]; cbn [first_slot]; intros Hf i b Hi; [done |]. destruct (p c) eqn:Hc; [done |].
  destruct (first_slot p hs); [done |]. destruct i; [by injection Hi as <- | by eapply IH].
Qed.

(** A slot that is free or has the combination takes the binding. *)
Lemma table_insert hs m i b k mods cb data : table_is hs m -> hs !! i = Some b ->
  (b = None /\ m !! (k, mods) = None \/ same_combination k mods b = true) ->
  table_is (<[i := Some (Binding k mods cb data)]> hs) (<[(k, mods) := (cb, data)]> m).
Proof.
  intros [Hs Ho Hm] Hi Hb. pose proof (lookup_lt_Some _ _ _ Hi) as Hlt.
  assert (Helse : forall j c, j <> i -> hs !! j = Some (Some c) -> hk_key c = k -> hk_modifiers c = mods -> False).
  { intros j c Hj Hc Hk Hmo. destruct Hb as [[-> Hn] | Hb].
    - enough (m !! (k, mods) = Some (callback c, user_data c)) by congruence. apply Hm. exists j. destruct c; cbn in *. by subst.
    - destruct b as [b |]; [| done]. cbn in Hb. apply andb_true_iff in Hb as [H1%Z.eqb_eq H2%Z.eqb_eq]. apply Hj, (Ho j i c b); congruence. }
  split; [by rewrite length_insert | |].
  - intros x y c d Hx Hy Hk Hmo. apply list_lookup_insert_Some in Hx as [(-> & [= <-] & _) | [Hnx Hx]], Hy as [(-> & [= <-] & _) | [Hny Hy]] || idtac.
    all: try done. all: try (apply list_lookup_insert_Some in Hy as [(-> & Heq & _) | [Hny Hy]]; [injection Heq as <- |]).
    all: cbn in *; try done; try (exfalso; eapply Helse; [| eassumption | ..]; congruence). by eapply Ho.
  - intros k' mods' cb' data'. destruct (decide ((k', mods') = (k, mods))) as [[= -> ->] | Hne].
    + rewrite lookup_insert_eq. split.
      * intros [= -> ->]. exists i. by rewrite list_lookup_insert_eq.
      * intros [j Hj]. apply list_lookup_insert_Some in Hj as [(-> & [= -> ->] & _) | [Hnj Hj]]; [done |]. exfalso. by eapply Helse.
    + rewrite lookup_insert_ne by done. rewrite Hm. split; intros [j Hj]; exists j.
      * destruct (decide (j = i)) as [-> | Hji]; [| by rewrite list_lookup_insert_ne].
        exfalso. rewrite Hj in Hi. injection Hi as <-. destruct Hb as [[? _] | Hb]; [done |]. cbn in Hb. apply andb_true_iff in Hb as [H1%Z.eqb_eq H2%Z.eqb_eq]. congruence.
      * apply list_lookup_insert_Some in Hj as [(_ & [= -> -> -> ->] & _) | [_ Hj]]; done.
Qed.

Lemma table_delete hs m i k mods cb data : table_is hs m -> hs !! i = Some (Some (Binding k mods cb data)) ->
  table_is (<[i := None]> hs) (delete (k, mods) m).
Proof.
  intros [Hs Ho Hm] Hi. split; [by rewrite length_insert | |].
  - intros x y c d Hx Hy. apply list_lookup_insert_Some in Hx as [(_ & [=] & _) | [_ Hx]]. apply list_lookup_insert_Some in Hy as [(_ & [=] & _) | [_ Hy]].
    by eapply Ho.
  - intros k' mods' cb' data'. destruct (decide ((k', mods') = (k, mods))) as [[= -> ->] | Hne].
    + rewrite lookup_delete_eq. split; [done |]. intros [j Hj]. apply list_lookup_insert_Some in Hj as [(_ & [=] & _) | [Hnj Hj]].
      exfalso. apply Hnj. by eapply Ho.
    + rewrite lookup_delete_ne by done. rewrite Hm. split; intros [j Hj]; exists j.
      * rewrite list_lookup_insert_ne; [done |]. intros ->. rewrite Hj in Hi. congruence.
      * by apply list_lookup_insert_Some in Hj as [(_ & [=] & _) | [_ Hj]].
Qed.

Lemma no_combination hs m k mods : table_is hs m -> first_slot (same_combination k mods) hs = None -> m !! (k, mods) = None.
Proof.
  intros Ht Hf. destruct (m !! (k, mods)) as [[cb data] |] eqn:Hl; [| done]. apply (table_map _ _ Ht) in Hl as [i Hi].
  apply (first_slot_none _ _ Hf) in Hi. cbn in Hi. by rewrite !Z.eqb_refl in Hi.
Qed.

(** The hotkey table is a map from key and modifiers to callbacks, of at most
    32 combinations: registering sets a combination, replacing the callback it had,
    and fails only for a new combination when every place is used; unregistering
    takes out exactly that callback; dispatch finds a binding of the map that
    answers the key, if there is one. *)
Theorem hotkeys_refine_map hs m k mods cb data (Ht : table_is hs m) (Hcb : cb <> 0) :
  (let '(ok, hs') := tui_hotkey_register hs k mods cb data in
   table_is hs' (if ok : bool then <[(k, mods) := (cb, data)]> m else m) /\
   (ok = false <-> m !! (k, mods) = None /\ None ∉ hs)) /\
  (let '(ok, hs') := tui_hotkey_unregister hs k mods cb data in
   table_is hs' (if ok : bool then delete (k, mods) m else m) /\ (ok = true <-> m !! (k, mods) = Some (cb, data))) /\
  match hotkey_for hs k mods with
  | Some b => m !! (hk_key b, hk_modifiers b) = Some (callback b, user_data b) /\ hk_key b = k /\ Z.land mods (hk_modifiers b) = hk_modifiers b
  | None => forall need, Z.land mods need = need -> m !! (k, need) = None
  end.
Proof.
  split_and!.
  - unfold tui_hotkey_register. rewrite (proj2 (Z.eqb_neq _ _)) by done.
    destruct (first_slot (same_combination k mods) hs) as [i |] eqn:Hc.
    + apply first_slot_some in Hc as (b & Hi & Hb & _). split; [apply (table_insert hs m i b); auto |]. split; [done |]. intros [Hn _].
      destruct b as [b |]; [| done]. cbn in Hb. apply andb_true_iff in Hb as [H1%Z.eqb_eq H2%Z.eqb_eq].
      enough (m !! (k, mods) = Some (callback b, user_data b)) by congruence. apply (table_map _ _ Ht). exists i. destruct b; cbn in *. by subst.
    + pose proof (no_combination _ _ _ _ Ht Hc) as Hn. destruct (first_slot is_free hs) as [i |] eqn:Hf.
      * apply first_slot_some in Hf as (b & Hi & Hb & _). destruct b; [done |]. split; [apply (table_insert hs m i None); auto |].
        split; [done |]. intros [_ Hin]. exfalso. apply Hin. by eapply list_elem_of_lookup_2.
      * split; [done |]. split; [| done]. intros _. split; [done |]. intros Hin. apply list_elem_of_lookup in Hin as [i Hi]. by apply (first_slot_none _ _ Hf) in Hi.
  - unfold tui_hotkey_unregister. destruct (first_slot _ hs) as [i |] eqn:Hf.
    + apply first_slot_some in Hf as (b & Hi & Hb & _). destruct b as [b |]; [| done]. cbn in Hb. rewrite !andb_true_iff, !Z.eqb_eq in Hb.
      destruct Hb as [[[<- <-] <-] <-]. destruct b as [k mods cb data]. cbn in *. split; [by eapply table_delete |]. split; [| done]. intros _.
      apply (table_map _ _ Ht). by exists i.
    + split; [done |]. split; [done |]. intros Hl. apply (table_map _ _ Ht) in Hl as [i Hi]. apply (first_slot_none _ _ Hf) in Hi.
      cbn in Hi. by rewrite !Z.eqb_refl in Hi.
  - unfold hotkey_for. destruct (first_slot _ hs) as [i |] eqn:Hf; cbn [mbind option_bind].
    + apply first_slot_some in Hf as (b & Hi & Hb & _). rewrite Hi. destruct b as [b |]; [| done]. cbn [mjoin option_join].
      cbn in Hb. apply andb_true_iff in Hb as [H1%Z.eqb_eq H2%Z.eqb_eq]. split_and!; [| done..]. apply (table_map _ _ Ht). exists i. by destruct b.
    + intros need Hneed. destruct (m !! (k, need)) as [[c d] |] eqn:Hl; [| done]. apply (table_map _ _ Ht) in Hl as [i Hi].
      apply (first_slot_none _ _ Hf) in Hi. cbn in Hi. by rewrite Z.eqb_refl, Hneed, Z.eqb_refl in Hi.
Qed.

Lemma hotkeys_refine_map_witness :
  exists hs', tui_hotkey_register no_hotkeys 9 4 77 5 = (true, hs') /\ table_is hs' (<[(9, 4) := (77, 5)]> ∅).
Proof.
  assert (H0 : table_is no_hotkeys ∅).
  { split; [reflexivity | |].
    - intros i j b c Hi. unfold no_hotkeys in Hi. apply lookup_replicate in Hi as [[=] _].
    - intros. rewrite lookup_empty. split; [done |]. intros [i Hi]. apply lookup_replicate in Hi as [[=] _]. }
  destruct (hotkeys_refine_map no_hotkeys ∅ 9 4 77 5 H0) as [H _]; [discriminate |].
  destruct (tui_hotkey_register no_hotkeys 9 4 77 5) as [ok hs'] eqn:He. exists hs'. destruct ok; [split; [reflexivity | apply H] |]. vm_compute in He. discriminate.
Defined.

(** ** The interface stays in order *)

Definition index_ok (h : history) : Prop := (length (entries h) <= 50)%nat /\ -1 <= at_index h <= Z.of_nat (length (entries h)).

(** The windows as in [tui_ok], the line a text with a cursor in it, the history
    within its 50 places. *)
Record ui_ok (u : ui) : Prop := {
  screen_ok : tui_ok (screen u);
  line_ok : exists z, rep (input u) z;
  history_in : index_ok (global_history u) }.

(** Callbacks that use the interface through its operations keep it so. *)
Class AppOk `{App} : Prop := {
  hotkey_ok u win k m b : ui_ok u -> ui_ok (run_hotkey u win k m b).2;
  view_key_ok win f u k m : view_key win = Some f -> ui_ok u -> ui_ok (f u k m).2;
  view_mouse_ok win f u k : view_mouse win = Some f -> ui_ok u -> ui_ok (f u k).2;
  blocked_ok f u s : tui_input_blocked_cb = Some f -> ui_ok u -> ui_ok (f u s).2;
  readline_ok f u s : tui_readline_cb = Some f -> ui_ok u -> ui_ok (f u s);
  completion_ok f u win : completion_handler = Some f -> ui_ok u -> ui_ok (f u win).2 }.

Lemma set_screen_ok t u : tui_ok t -> ui_ok u -> ui_ok (set_screen t u).
Proof. intros Ht [H1 H2 H3]. by split. Qed.
Lemma set_input_ok l z u : rep l z -> ui_ok u -> ui_ok (set_input l u).
Proof. intros Hl [H1 H2 H3]. split; [done | by exists z | done]. Qed.
Lemma set_global_ok h u : index_ok h -> ui_ok u -> ui_ok (set_global h u).
Proof. intros Hh [H1 H2 H3]. by split. Qed.

Lemma set_history_keeps h : index_ok h -> keeps (set_history (entries h) (at_index h)).
Proof. intros Hh w ([ls [H1 H2 H3 H4 H5]] & Hs & _). split; [| done]. split_and!; [exists ls; by split | done | exact Hh]. Qed.

Lemma active_ok u : ui_ok u -> exists w, active u = (Some w, u) /\ w ∈ tui_windows (screen u).
Proof.
  intros Hu. destruct (active_window_ok _ (screen_ok _ Hu)) as (w & Ha & Hw). exists w. unfold active. rewrite Ha. split; [by destruct u |].
  by eapply list_elem_of_lookup_2.
Qed.

Lemma active_history_ok u h put u' : ui_ok u -> active_history u = (h, put, u') ->
  u' = u /\ index_ok h /\ forall h', index_ok h' -> ui_ok (put h' u).
Proof.
  intros Hu. unfold active_history. destruct (active_ok u Hu) as (w & -> & Hw). destruct (shared_input_history u).
  - intros [= <- <- <-]. split_and!; [done | apply Hu |]. intros h' Hh. by apply set_global_ok.
  - intros [= <- <- <-]. split; [done |]. split.
    + pose proof (ok_windows _ (screen_ok _ Hu)) as Hws. rewrite Forall_forall in Hws. destruct (Hws w Hw) as (_ & _ & Hh). exact Hh.
    + intros h' Hh. apply set_screen_ok; [| done]. apply update_ok; [by apply set_history_keeps | apply Hu].
Qed.

Lemma prev_ok h s h' : index_ok h -> history_prev h = Some (s, h') -> index_ok h'.
Proof.
  intros [H1 H2]. unfold history_prev. destruct (Z.eqb_spec (Z.of_nat (length (entries h))) 0); [by intros [= <- <-] |].
  destruct (entries h !! _) as [e |] eqn:He; [| done]. cbn [mbind option_bind]. intros [= <- <-]. split; [done |]. cbn [entries at_index].
  repeat case_match; lia.
Qed.

Lemma next_ok h s h' : index_ok h -> history_next h = Some (s, h') -> index_ok h'.
Proof.
  intros [H1 H2]. unfold history_next. destruct (_ || _) eqn:Hc; [by intros [= <- <-] |].
  destruct (Z.leb_spec (Z.of_nat (length (entries h))) (at_index h + 1)).
  - intros [= <- <-]. split; cbn; lia.
  - destruct (entries h !! _) as [e |] eqn:He; [| done]. cbn [mbind option_bind]. intros [= <- <-]. split; [done |]. cbn [entries at_index].
    apply orb_false_iff in Hc as [_ Hc%Z.ltb_ge]. lia.
Qed.

Lemma add_ok s h : index_ok h -> index_ok (history_add s h).
Proof.
  intros [H1 H2]. unfold history_add. destruct s; [done |]. unfold HISTORY_LINES. split; cbn [entries at_index]; rewrite length_app; cbn [length].
  - destruct (Nat.leb_spec 50 (length (entries h))); [rewrite length_drop |]; lia.
  - lia.
Qed.

Lemma recall_ok step u u' : (forall h s h', index_ok h -> step h = Some (s, h') -> index_ok h') -> ui_ok u -> recall step u = Some u' -> ui_ok u'.
Proof.
  intros Hstep Hu. unfold recall. destruct (active_history u) as [[h put] u0] eqn:Ha. destruct (active_history_ok _ _ _ _ Hu Ha) as (-> & Hh & Hput).
  destruct (step h) as [[s h'] |] eqn:Hs; [| done]. cbn [mbind option_bind]. pose proof (Hput h' (Hstep _ _ _ Hh Hs)) as Hu'.
  destruct s as [s |]; [| by intros [= <-]]. destruct (line_ok _ Hu') as [z Hz]. destruct (rep_set_text _ _ s Hz) as (l & -> & Hl). cbn [mbind option_bind].
  intros [= <-]. by eapply set_input_ok.
Qed.

Lemma add_to_history_ok s u : ui_ok u -> ui_ok (add_to_history s u).
Proof.
  intros Hu. unfold add_to_history. destruct s as [| c s]; [done |]. destruct (active_history u) as [[h put] u0] eqn:Ha.
  destruct (active_history_ok _ _ _ _ Hu Ha) as (-> & Hh & Hput). by apply Hput, add_ok.
Qed.

(** Drawing finds the length and the cursor within their bounds. *)
Lemma clamp_rep l z : rep l z -> clamp_line l = l.
Proof.
  destruct z as [a b]. intros Hr. destruct (rep_at _ _ _ Hr) as (Hp & Hn & Hlt). unfold clamp_line. destruct l as [buf len pos]. cbn in *.
  rewrite (proj2 (Z.ltb_ge len 0)), (proj2 (Z.leb_gt _ len)), (proj2 (Z.ltb_ge pos 0)), (proj2 (Z.ltb_ge len pos)) by lia. done.
Qed.

Section Invariant.

Context `{AppOk}.

Lemma update_input_line_ok u u' : ui_ok u -> update_input_line u = Some u' -> u' = u.
Proof.
  intros Hu. unfold update_input_line. destruct (tui_is_enabled (screen u)); cbn [negb]; [| by intros [= <-]].
  destruct (active_ok u Hu) as (w & -> & _). destruct (full_height _); [by intros [= <-] |]. destruct (line_ok _ Hu) as [z Hz].
  rewrite (clamp_rep _ _ Hz). destruct (tui_update_input_line _ _ _ _ _ _); [| done]. cbn [mbind option_bind]. intros [= <-]. by destruct u.
Qed.

Lemma edit_with_ok e f u b u' : f = apply_edit e -> ui_ok u -> edit_with f u = Some (b, u') -> ui_ok u'.
Proof.
  intros -> Hu. unfold edit_with. destruct (line_ok _ Hu) as [z Hz]. destruct (edit_rep e _ _ Hz) as (l & -> & Hl). cbn [mbind option_bind].
  intros [= <- <-]. by eapply set_input_ok.
Qed.

Lemma dispatch_ok u win k m : ui_ok u -> ui_ok (tui_hotkey_dispatch u win k m).2.
Proof. intros Hu. unfold tui_hotkey_dispatch. destruct (hotkey_for _ _ _); [by apply hotkey_ok | done]. Qed.

Lemma no_line_rep : rep no_line ([], []).
Proof. split_and!; try done; [apply Nat.ltb_lt; reflexivity | by eexists]. Qed.

Lemma store_nul_ok u buf : ui_ok u -> store (input_buf (input u)) (tui_input_len (input u)) NUL = Some buf ->
  set_input (Line buf (tui_input_len (input u)) (tui_cursor_pos (input u))) u = u.
Proof.
  intros Hu. destruct (line_ok _ Hu) as [[a b] Hr]. pose proof Hr as (_ & _ & (rest & Hb) & _ & Hn). cbn [fst snd] in *.
  unfold store, in_buffer. case_match; [| done]. rewrite Hn, Nat2Z.id, Hb, (app_assoc a b), insert_app_r_alt, Nat.sub_diag by done. cbn [insert list_insert].
  intros [= <-]. rewrite <- app_assoc, <- Hb, <- Hn. destruct u as [t [buf len pos] ? ? ? ?]. done.
Qed.

(** In between, Enter leaves the cursor where it was. *)
Record ui_between (u : ui) : Prop := {
  between_screen : tui_ok (screen u);
  between_buffer : length (input_buf (input u)) = TUI_INPUTLEN;
  between_history : index_ok (global_history u) }.

Lemma ok_between u : ui_ok u -> ui_between u.
Proof. intros [H1 [z Hz] H3]. split; [done | apply Hz | done]. Qed.

Lemma between_input l u : length (input_buf l) = TUI_INPUTLEN -> ui_between u -> ui_between (set_input l u).
Proof. intros Hl [H1 H2 H3]. by split. Qed.

Lemma between_done l z u : rep l z -> ui_between u -> ui_ok (set_input l u).
Proof. intros Hl [H1 H2 H3]. split; [done | by exists z | done]. Qed.

Lemma update_input_line_between u u' : ui_between u -> update_input_line u = Some u' -> ui_between u'.
Proof.
  intros Hu. unfold update_input_line. destruct (tui_is_enabled (screen u)); cbn [negb]; [| by intros [= <-]].
  unfold active. destruct (active_window_ok _ (between_screen _ Hu)) as (w & -> & _).
  replace (set_screen (screen u) u) with u by by destruct u. destruct (full_height _); [by intros [= <-] |].
  destruct (tui_update_input_line _ _ _ _ _ _); [| done]. cbn [mbind option_bind]. intros [= <-]. apply between_input; [apply Hu | done].
Qed.

Lemma handle_enter_key_between u u' : ui_ok u -> handle_enter_key u = Some u' -> ui_between u'.
Proof.
  intros Hu. unfold handle_enter_key. destruct (store (input_buf (input u)) _ NUL) as [buf |] eqn:Hb; [| done]. cbn [mbind option_bind].
  rewrite (store_nul_ok u buf Hu Hb).
  match goal with |- (let '(_, _) := ?x in _) = _ -> _ => assert (Hx : ui_ok x.2) end.
  { destruct tui_input_blocked_cb as [f |] eqn:Hf; [| done]. destruct (0 <? _); [by apply (blocked_ok f) | done]. }
  match goal with |- (let '(_, _) := ?x in _) = _ -> _ => destruct x as [blocked v] end. cbn [snd] in Hx.
  destruct blocked; [intros He; apply ok_between in Hx; by eapply update_input_line_between |].
  destruct (0 <? tui_input_len (input v)); [| intros He; apply ok_between in Hx; by eapply update_input_line_between].
  set (v1 := add_to_history _ v). assert (H1 : ui_ok v1) by by apply add_to_history_ok.
  set (v2 := match tui_readline_cb with Some f => _ | None => v1 end).
  assert (H2 : ui_ok v2) by (unfold v2; destruct tui_readline_cb as [f |] eqn:Hf; [by apply (readline_ok f) | done]). clearbody v1 v2.
  unfold no_text. destruct (store (input_buf (input v2)) 0 NUL) as [buf2 |] eqn:Hb2; [| done]. cbn [mbind option_bind].
  apply update_input_line_between, between_input; [| by apply ok_between]. cbn [input_buf]. rewrite (store_length _ _ _ _ Hb2). by apply ok_between.
Qed.

Lemma print_lines_ok t win lines : tui_ok t -> tui_ok (foldl (fun t s => tui_print t true (Some win) s) t lines).
Proof. revert t. induction lines as [| s lines IH]; intros t Ht; [done |]. by apply IH, print_ok. Qed.

Lemma pair_ok (x : bool * ui) b u' : ui_ok x.2 -> Some x = Some (b, u') -> ui_ok u'.
Proof. by intros Hx [= ->]. Qed.

Lemma complete_ok u win b u' : ui_ok u -> complete u win = Some (b, u') -> ui_ok u'.
Proof.
  intros Hu. unfold complete. match goal with |- (let '(_, _) := ?x in _) = _ -> _ => assert (Hx : ui_ok x.2) end.
  { destruct completion_handler as [f |] eqn:Hf; [by apply (completion_ok f) | done]. }
  match goal with |- (let '(_, _) := ?x in _) = _ -> _ => destruct x as [taken v] end. cbn [snd] in Hx.
  destruct taken; [by intros [= <- <-] |]. destruct (tui_do_completion _ _ _ _ _) as [[[c l] lines] |] eqn:Hc; [| done]. cbn [mbind option_bind].
  destruct (line_ok _ Hx) as [z Hz]. destruct (completion_rep _ _ _ _ _ _ _ _ _ Hz Hc) as [z' Hz']. apply pair_ok. cbn [snd].
  apply set_screen_ok; [apply print_lines_ok, Hx |]. by eapply set_input_ok.
Qed.

Lemma done_ok u b u' : ui_ok u -> done u = Some (b, u') -> ui_ok u'.
Proof. by intros Hu [= <- <-]. Qed.

Lemma set_moved_ok f e u : (forall l, Some (f l) = apply_edit e l) -> ui_ok u -> ui_ok (set_input (f (input u)) u).
Proof.
  intros He Hu. destruct (line_ok _ Hu) as [z Hz]. destruct (edit_rep e _ _ Hz) as (l & Hl & Hr). rewrite <- He in Hl. injection Hl as ->. by eapply set_input_ok.
Qed.

Lemma stepped_ok t u : tui_step (screen u) t -> ui_ok u -> ui_ok (set_screen t u).
Proof. intros Ht Hu. apply set_screen_ok; [| done]. by eapply step_ok, screen_ok. Qed.

Lemma keysym_ok u win k b u' : ui_ok u -> keysym u win k = Some (b, u') -> ui_ok u'.
Proof.
  intros Hu. unfold keysym.
  destruct (_ =? SYM_ENTER).
  { destruct (has k ALT); [by apply pair_ok, dispatch_ok |]. destruct (handle_enter_key u) as [v |] eqn:He; [| done]. cbn [mbind option_bind].
    apply done_ok. eapply between_done; [apply no_line_rep | by eapply handle_enter_key_between]. }
  destruct (_ =? SYM_TAB).
  { destruct (has k CTRL); [by apply pair_ok, dispatch_ok |]. destruct (_ || _); [by apply pair_ok | by apply complete_ok]. }
  destruct (_ =? SYM_PAGEUP); [apply pair_ok, stepped_ok; [constructor | done] |].
  destruct (_ =? SYM_PAGEDOWN); [apply pair_ok, stepped_ok; [constructor | done] |].
  destruct (_ =? SYM_HOME); [by apply done_ok, (set_moved_ok go_home EHome) |].
  destruct (_ =? SYM_END); [by apply done_ok, (set_moved_ok go_end EEnd) |].
  destruct (_ =? SYM_LEFT).
  { destruct (has k CTRL); [by apply (edit_with_ok EWordLeft) |].
    destruct (has k ALT); [apply pair_ok, stepped_ok; [constructor | done] | by apply done_ok, (set_moved_ok go_left ELeft)]. }
  destruct (_ =? SYM_RIGHT).
  { destruct (has k CTRL); [by apply (edit_with_ok EWordRight) |].
    destruct (has k ALT); [apply pair_ok, stepped_ok; [constructor | done] | by apply done_ok, (set_moved_ok go_right ERight)]. }
  destruct (_ =? SYM_UP).
  { destruct (recall history_prev u) as [v |] eqn:Hr; [| done]. cbn [mbind option_bind]. apply done_ok. by eapply recall_ok; [apply prev_ok | |]. }
  destruct (_ =? SYM_DOWN).
  { destruct (recall history_next u) as [v |] eqn:Hr; [| done]. cbn [mbind option_bind]. apply done_ok. by eapply recall_ok; [apply next_ok | |]. }
  destruct (_ && _); [apply pair_ok, stepped_ok; [constructor | done] | by apply pair_ok].
Qed.

Lemma ctrl_edit_edit c f : ctrl_edit c = Some f -> exists e, f = apply_edit e.
Proof.
  unfold ctrl_edit. intros Hf. repeat (destruct (_ || _); [injection Hf as <- |]); [by exists EHome | by exists EEnd | by exists EEraseLine | by exists EEraseWord |
    by exists EDelete | by exists EKill |]. destruct (_ =? _); [| done]. injection Hf as <-. by exists EBackspace.
Qed.

Lemma ctrl_key_ok u c b u' : ui_ok u -> ctrl_key u c = Some (b, u') -> ui_ok u'.
Proof.
  intros Hu. unfold ctrl_key. destruct (ctrl_edit c) as [f |] eqn:Hf.
  - destruct (ctrl_edit_edit _ _ Hf) as [e He]. by apply (edit_with_ok e).
  - destruct (ctrl_insert c) as [i |]; [| by apply pair_ok]. destruct (_ <? _); [by apply (edit_with_ok (EInsert (chr i))) | by apply pair_ok].
Qed.

Lemma erase_between u b u' : ui_between u -> edit_with erase_line u = Some (b, u') -> ui_ok u'.
Proof.
  intros Hu. unfold edit_with, erase_line. destruct (store _ 0 NUL) as [buf |] eqn:Hs; [| done]. cbn [mbind option_bind]. apply pair_ok. cbn [snd].
  apply (between_done _ ([], [])); [| done]. pose proof (between_buffer _ Hu) as Hl. unfold store in Hs. cbn in Hs. injection Hs as <-.
  destruct (input_buf (input u)) as [| c rest]; [done |]. split_and!; [apply Nat.ltb_lt; reflexivity | exact Hl | by exists rest | done | done].
Qed.

Lemma plain_key_ok u k c b u' : ui_ok u -> plain_key u k c = Some (b, u') -> ui_ok u'.
Proof.
  intros Hu. unfold plain_key. destruct (c =? 10).
  { destruct (handle_enter_key u) as [v |] eqn:He; [| done]. cbn [mbind option_bind]. by apply erase_between, handle_enter_key_between with u. }
  destruct (_ || _); [by apply (edit_with_ok EBackspace) |].
  destruct (_ && _). { destruct (has k ALT); [apply done_ok, stepped_ok; [constructor | done] | by apply pair_ok]. }
  destruct (c =? SYM_DELETE); [by apply (edit_with_ok EDelete) | by apply pair_ok].
Qed.

Lemma unless_ok h u step b u' : ui_ok u -> (step = Some (b, u') -> ui_ok u') -> unless h u step = Some (b, u') -> ui_ok u'.
Proof. intros Hu Hs. unfold unless. destruct h; [by apply pair_ok | done]. Qed.

Lemma edit_key_ok h u k u' : ui_ok u -> edit_key h u k = Some u' -> ui_ok u'.
Proof.
  intros Hu. unfold edit_key.
  destruct (if negb h && has k CTRL then _ else _) as [[h1 u1] |] eqn:H1; [| done]. cbn [mbind option_bind].
  assert (Hu1 : ui_ok u1) by (destruct (negb h && has k CTRL); [by eapply ctrl_key_ok | by apply (pair_ok (h, u) h1) ]).
  destruct (unless h1 u1 _) as [[h2 u2] |] eqn:H2; [| done]. cbn [mbind option_bind].
  assert (Hu2 : ui_ok u2) by (eapply unless_ok; [exact Hu1 | by apply plain_key_ok | exact H2]).
  destruct (unless h2 u2 _) as [[h3 u3] |] eqn:H3; [| done]. cbn [mbind option_bind].
  assert (Hu3 : ui_ok u3).
  { eapply unless_ok; [exact Hu2 | | exact H3]. destruct (is_type KUnicode k && (32 <=? key_code k)); [by apply (edit_with_ok (EInsert (chr (key_code k)))) | by apply pair_ok]. }
  destruct h3; [| by intros [= <-]]. intros He. by rewrite (update_input_line_ok _ _ Hu3 He).
Qed.

Lemma alt_unicode_ok u win k : ui_ok u -> match alt_unicode u win k with (Some (_, v), _) => ui_ok v | (None, v) => ui_ok v end.
Proof.
  intros Hu. unfold alt_unicode. pose proof (dispatch_ok u win (code_of k) (modifiers k) Hu) as Hd.
  destruct (tui_hotkey_dispatch _ _ _ _) as [taken v]. cbn [snd] in Hd. destruct taken; [done |].
  destruct (window_key _) as [i |]; [| done]. apply set_screen_ok; [| done]. apply redraw_ok. eapply step_ok; [apply StepFocusId | apply Hd].
Qed.

Lemma handle_all_ok u ks u' : ui_ok u -> handle_keys u ks = Some u' -> ui_ok u'.
Proof.
  revert u. induction ks as [| k ks IH]; intros u Hu; cbn [handle_keys]; [by intros [= <-] |].
  destruct (handle_key u k) as [v |] eqn:Hk; [| done]. cbn [mbind option_bind]. apply IH. clear IH. revert Hk. unfold handle_key.
  destruct (active_ok u Hu) as (w & -> & _). set (win := w_addr w). clearbody win.
  match goal with |- (let '(_, _) := ?x in _) = _ -> _ => assert (Hx : ui_ok x.2) by (destruct (_ && _ && _ && _); [by apply dispatch_ok | done]); destruct x as [taken u1] end.
  cbn [snd] in Hx. destruct taken; [by intros [= <-] |].
  destruct (is_type KMouse k). { intros [= <-]. destruct (view_mouse win) as [f |] eqn:Hf; [by eapply view_mouse_ok | done]. }
  destruct (alive u1 win); [| done]. cbn [mbind option_bind].
  match goal with |- (let '(_, _) := ?x in _) = _ -> _ => assert (Hy : ui_ok x.2); [| destruct x as [taken u2]] end.
  { destruct (view_key win) as [f |] eqn:Hf; [| done]. destruct (has k ALT); [done | by eapply view_key_ok]. }
  cbn [snd] in Hy. destruct taken; [by intros [= <-] |].
  match goal with |- (let '(_, _) := ?x in _) = _ -> _ => assert (Hz : ui_ok x.2) by (destruct (_ && _ && _); [by apply dispatch_ok | done]); destruct x as [h3 u3] end.
  cbn [snd] in Hz. destruct (if is_type KKeysym k then _ else _) as [[h4 u4] |] eqn:H4; [| done]. cbn [mbind option_bind].
  assert (Hu4 : ui_ok u4) by (destruct (is_type KKeysym k); [by eapply keysym_ok | by apply (pair_ok (h3, u3) h4)]).
  pose proof (alt_unicode_ok u4 win k Hu4) as Halt. destruct (negb h4 && is_type KUnicode k && has k ALT).
  - destruct (alt_unicode u4 win k) as [[[h5 u5] |] u6]; [| by intros [= <-]].
    destruct (alive u5 win); [| done]. cbn [mbind option_bind]. destruct (full_height win); [by intros [= <-] | by apply edit_key_ok].
  - destruct (alive u4 win); [| done]. cbn [mbind option_bind]. destruct (full_height win); [by intros [= <-] | by apply edit_key_ok].
Qed.

End Invariant.

(** ** Typing a line *)

Definition printable (c : ascii) : Prop := 32 <= code c <= 126.
Definition char_key (c : ascii) : key := Key KUnicode (code c) 0.
Definition enter_key : key := Key KKeysym SYM_ENTER 0.

Lemma expanded_printable s : Forall printable s -> expanded s = s.
Proof.
  induction 1 as [| c s Hc Hs IH]; [done |]. unfold expanded in *. cbn [map concat]. rewrite IH. unfold placeholder, printable in *.
  rewrite !(proj2 (Z.eqb_neq _ _)) by lia. by rewrite (proj2 (Z.leb_le _ _)), (proj2 (Z.leb_le _ _)) by lia.
Qed.

Lemma active_alive u w : ui_ok u -> active u = (Some w, u) -> alive u (w_addr w) = Some tt.
Proof.
  intros Hu Ha. destruct (active_ok u Hu) as (w' & Ha' & Hin). rewrite Ha in Ha'. injection Ha' as <-. unfold alive.
  assert (He : existsb (fun x => w_addr x =? w_addr w) (tui_windows (screen u)) = true); [| by rewrite He].
  apply existsb_exists. exists w. split; [by apply list_elem_of_In | apply Z.eqb_refl].
Qed.

Lemma active_input u w l : active u = (Some w, u) -> active (set_input l u) = (Some w, set_input l u).
Proof.
  unfold active. cbn [screen set_input]. destruct (tui_active_window (screen u)) as [w' t] eqn:Ht. intros [= -> Hs]. f_equal. by rewrite <- Hs.
Qed.

Section Typing.

Context `{App}.

Lemma draws_ok u l a b : tui_ok (screen u) -> rep l (a, b) -> (length (expanded (a ++ b)) < 2048)%nat -> update_input_line (set_input l u) = Some (set_input l u).
Proof.
  intros Hu Hr He. unfold update_input_line. cbn [screen set_input]. destruct (tui_is_enabled (screen u)); cbn [negb]; [| done].
  unfold active. cbn [screen set_input]. destruct (active_window_ok _ Hu) as (w & -> & _). replace (set_screen (screen u) (set_input l u)) with (set_input l u) by by destruct u.
  destruct (full_height _); [done |]. cbn [screen input set_input]. rewrite (clamp_rep _ _ Hr).
  assert (Htext : take (Z.to_nat (tui_input_len l)) (input_buf l) = a ++ b).
  { destruct (rep_at _ _ _ Hr) as (_ & Hn & _). destruct Hr as (_ & _ & (rest & Hb) & _). cbn [fst snd] in Hb. rewrite Hb, app_assoc, Hn, Nat2Z.id.
    rewrite <- length_app. apply take_app_length. }
  rewrite Htext. destruct (tui_update_input_line _ _ _ _ (a ++ b) _) eqn:Hd; [by destruct u |]. apply draw_input in Hd. lia.
Qed.

(** The window in use has no structured view. *)
Definition simple (u : ui) (w : window) : Prop :=
  active u = (Some w, u) /\ view_key (w_addr w) = None /\ full_height (w_addr w) = false.

Lemma type_char u w a c : ui_ok u -> simple u w -> rep (input u) (a, []) -> Forall printable a -> printable c -> (length a < 511)%nat ->
  exists l, handle_key u (char_key c) = Some (set_input l u) /\ rep l (a ++ [c], []).
Proof.
  intros Hu (Ha & Hv & Hf) Hr Hpa Hc Hla. destruct (rep_insert _ _ _ c Hr) as (l & Hi & Hl); [rewrite app_nil_r; exact Hla |]. exists l. split; [| done].
  unfold handle_key. rewrite Ha. cbn [char_key is_type type has modifiers Z.land Z.eqb negb andb]. rewrite !andb_false_r. cbn [andb].
  rewrite (active_alive u w Hu Ha). cbn [mbind option_bind]. rewrite Hv.
  assert (Hm : forall m, has (char_key c) m = false) by done. rewrite !Hm. cbn [andb negb]. rewrite (active_alive u w Hu Ha). cbn [mbind option_bind]. rewrite Hf.
  unfold edit_key. rewrite Hm. cbn [key_code char_key type code_of negb andb unless mbind option_bind]. unfold plain_key, printable in *.
  rewrite (proj2 (Z.eqb_neq (code c) 10)), (proj2 (Z.eqb_neq (code c) 8)), (proj2 (Z.eqb_neq (code c) 0x7f)), (proj2 (Z.eqb_neq (code c) SYM_DELETE)) by (unfold SYM_DELETE; lia).
  cbn [orb]. change (has _ ALT) with false. cbv iota. replace (if (48 <=? code c) && (code c <=? 57) then Some (false, u) else Some (false, u)) with (Some (false, u)) by by destruct (_ && _).
  cbn [mbind option_bind is_type type andb unless]. rewrite (proj2 (Z.leb_le _ _)) by lia. unfold edit_with. rewrite chr_code, Hi. cbn [mbind option_bind].
  apply (draws_ok u l (a ++ [c]) []); [apply Hu | done |]. rewrite app_nil_r, expanded_printable by (apply Forall_app; split; [done | by apply Forall_singleton]).
  rewrite length_app. cbn. lia.
Qed.

Lemma type_text u w a s : ui_ok u -> simple u w -> rep (input u) (a, []) -> Forall printable (a ++ s) -> (length (a ++ s) <= 511)%nat ->
  exists l, handle_keys u (map char_key s) = Some (set_input l u) /\ rep l (a ++ s, []).
Proof.
  revert u a. induction s as [| c s IH]; intros u a Hu Hw Hr Hp Hl; cbn [map handle_keys].
  - exists (input u). rewrite app_nil_r. by destruct u.
  - apply Forall_app in Hp as [Hpa Hps]. apply Forall_cons in Hps as [Hc Hps]. rewrite length_app in Hl. cbn [length] in Hl.
    destruct (type_char u w a c Hu Hw Hr Hpa Hc ltac:(lia)) as (l & -> & Hl'). cbn [mbind option_bind].
    destruct (IH (set_input l u) (a ++ [c])) as (l' & Hk & Hr').
    + by eapply set_input_ok.
    + destruct Hw as (Ha & Hv). split; [by apply active_input | done].
    + done.
    + rewrite <- app_assoc. apply Forall_app. split; [done |]. by constructor.
    + rewrite <- app_assoc, length_app. cbn. lia.
    + exists l'. rewrite Hk, <- app_assoc in *. by destruct u.
Qed.

Lemma handle_keys_app u ks ks' : handle_keys u (ks ++ ks') = u ← handle_keys u ks; handle_keys u ks'.
Proof. revert u. induction ks as [| k ks IH]; intros u; [done |]. cbn [app handle_keys]. destruct (handle_key u k) as [v |]; [apply IH | done]. Qed.

Lemma emptied_draws v l : tui_ok (screen v) -> tui_input_len l = 0 -> exists l', update_input_line (set_input l v) = Some (set_input l' v) /\ input_buf l' = input_buf l.
Proof.
  intros Hv Hl. unfold update_input_line. cbn [screen set_input]. destruct (tui_is_enabled (screen v)); cbn [negb]; [| by exists l].
  unfold active. cbn [screen set_input]. destruct (active_window_ok _ Hv) as (w & -> & _).
  replace (set_screen (screen v) (set_input l v)) with (set_input l v) by by destruct v.
  destruct (full_height _); [by exists l |]. cbn [input set_input].
  assert (Hc : tui_input_len (clamp_line l) = 0) by (unfold clamp_line; by rewrite Hl). rewrite Hc. cbn [Z.to_nat take screen].
  match goal with |- context [tui_update_input_line ?a ?b ?c ?d ?e ?f] => destruct (tui_update_input_line a b c d e f) eqn:Hd end; [by eexists |].
  apply draw_input in Hd. assert (H0 : (2048 <= 0)%nat) by exact Hd. lia.
Qed.

Lemma cstr_printable s rest : Forall printable s -> cstr (s ++ NUL :: rest) = s.
Proof.
  induction 1 as [| c s Hc Hs IH]; [done |]. cbn [app cstr]. unfold printable in Hc. rewrite IH. unfold ceq.
  rewrite bool_decide_eq_false_2; [done |]. intros ->. vm_compute in Hc. by destruct Hc as [Hc _].
Qed.

Lemma add_to_history_input s u : input (add_to_history s u) = input u.
Proof.
  unfold add_to_history. destruct s; [done |]. unfold active_history, active. destruct (tui_active_window (screen u)) as [[w |] t]; [| done].
  cbn [shared_input_history set_screen]. by destruct (shared_input_history u).
Qed.

Lemma press_enter u w f s : ui_ok u -> simple u w -> rep (input u) (s, []) -> s <> [] -> Forall printable s ->
  tui_input_blocked_cb = None -> tui_readline_cb = Some f -> tui_ok (screen (f (add_to_history s u) s)) ->
  let v := f (add_to_history s u) s in
  handle_key u enter_key = match alive v (w_addr w) with Some _ => Some (set_input no_line v) | None => None end.
Proof.
  intros Hu (Ha & Hview & Hfull) Hr Hne Hp Hb Hf Hv v. fold v in Hv. unfold handle_key. rewrite Ha. cbn [enter_key is_type type andb].
  rewrite (active_alive u w Hu Ha). cbn [mbind option_bind]. rewrite Hview. unfold keysym. cbn [code_of]. rewrite Z.eqb_refl.
  change (has enter_key ALT) with false. cbv iota. unfold handle_enter_key.
  destruct (rep_at _ _ _ Hr) as (Hpos & Hlen & Hlt). pose proof Hr as (_ & Hsz & (rest & Hbuf) & _). cbn [fst snd app length] in *.
  destruct (store (input_buf (input u)) (tui_input_len (input u)) NUL) as [buf |] eqn:Hst.
  2: { unfold store, in_buffer in Hst. rewrite (proj2 (Z.leb_le _ _)), (proj2 (Z.ltb_lt _ _)) in Hst by lia. done. }
  cbn [mbind option_bind]. rewrite (store_nul_ok u buf Hu Hst), Hb, Hf. assert (Hls : length s <> O) by (by destruct s).
  rewrite (proj2 (Z.ltb_lt _ _)) by lia. rewrite add_to_history_input, Hbuf, cstr_printable by done. fold v.
  assert (Hz : exists l0, no_text (input v) = Some l0 /\ tui_input_len l0 = 0) by (unfold no_text, store; by eexists).
  destruct Hz as (l0 & -> & Hl0). cbn [mbind option_bind]. destruct (emptied_draws v l0 Hv Hl0) as (l1 & -> & _). cbn [mbind option_bind TuiKeys.done negb andb].
  unfold alive. cbn [screen set_input]. destruct (existsb _ _); [| done]. cbn [mbind option_bind]. rewrite Hfull. unfold edit_key.
  cbn [negb andb unless mbind option_bind]. apply (draws_ok v no_line [] []); [done | apply no_line_rep | cbn; lia].
Qed.

End Typing.

(** ** Keys that stay within memory *)

(** A text without formatting characters takes no more room when it is drawn. *)
Definition quiet (s : bstr) : Prop := Forall (fun c => expands c = false) s.

Lemma expanded_quiet s : quiet s -> length (expanded s) = length s.
Proof.
  induction 1 as [| c s Hc Hs IH]; [done |]. unfold expanded in *. cbn [map concat]. by rewrite length_app, IH, (expands_single c Hc).
Qed.

Lemma cstr_quiet s rest : quiet s -> quiet (cstr (s ++ NUL :: rest)).
Proof. induction 1 as [| c s Hc Hs IH]; cbn [app cstr]; [constructor |]. destruct (ceq c NUL); [constructor |]. by constructor. Qed.

(** What the keys of windows leave alone. *)
Definition places (t : tui) : list (Z * list bstr) := map (fun w => (w_addr w, input_history w)) (tui_windows t).

Lemma update_places addr f t : (forall w, w_addr (f w) = w_addr w /\ input_history (f w) = input_history w) -> places (update addr f t) = places t.
Proof. intros Hf. unfold places. cbn. rewrite map_map. apply map_ext. intros w. destruct (Hf w) as [Ha Hh]. case_match; congruence. Qed.

Lemma redraw_places t : tui_ok t -> places (tui_redraw_screen t) = places t.
Proof.
  intros Ht. unfold tui_redraw_screen. destruct (tui_is_enabled t); cbn [negb]; [| done]. destruct (active_window_ok t Ht) as (w & -> & _).
  apply update_places. intros x. unfold clamp_scroll. by repeat case_match.
Qed.

Lemma print_places t pending addr text : tui_ok t -> places (tui_print t pending addr text) = places t.
Proof.
  intros Ht. unfold tui_print. destruct addr as [addr |]; [| done]. destruct (tui_is_enabled t); cbn [negb]; [| done].
  destruct (tui_colorize_string _ _ _ _) as [line |]; [| done].
  destruct (update_ok addr (append_line t line) t (append_keeps _ _) Ht) as [Hu _].
  assert (Hp : places (update addr (append_line t line) t) = places t).
  { apply update_places. intros x. unfold append_line, tui_scrollback_appended. by case_match. }
  destruct (active_window_ok _ Hu) as (w & -> & _). destruct (_ && _); [by rewrite redraw_places | done].
Qed.

Lemma focus_places t s : tui_ok t -> places (tui_window_focus t s).2 = places t.
Proof. intros Ht. unfold places. by rewrite (proj2 (focus_ok t s Ht)). Qed.

Lemma focus_id_places t pending id : tui_ok t -> places (tui_window_focus_id t pending id).2 = places t.
Proof.
  intros Ht. unfold tui_window_focus_id. destruct (_ || _).
  - destruct (active_window_ok t Ht) as (w & -> & _). by apply print_places.
  - destruct (_ !! _); [by apply focus_places | done].
Qed.

Lemma focus_index_places t i : tui_ok t -> places (focus_index t i) = places t.
Proof.
  intros Ht. unfold focus_index. destruct (_ !! _) as [w |]; [| done]. rewrite redraw_places; [by apply focus_places | by apply focus_ok].
Qed.

Lemma page_places t : tui_ok t -> places (handle_pgup t) = places t /\ places (handle_pgdn t) = places t.
Proof.
  intros Ht. unfold handle_pgup, handle_pgdn. destruct (active_window_ok t Ht) as (w & -> & _).
  split; (rewrite redraw_places; [by apply update_places | apply update_ok; [| done]]); [apply page_up_keeps | apply page_down_keeps].
Qed.

Lemma turn_places t key : tui_ok t ->
  places (tui_window_swap t key) = places t /\ places (handle_alt_left t) = places t /\ places (handle_alt_right t) = places t.
Proof.
  intros Ht. unfold tui_window_swap, handle_alt_left, handle_alt_right. split_and!; (case_match; [by apply focus_index_places | done]).
Qed.

(** The line and every line of the histories are without formatting characters. *)
Record calm (u : ui) : Prop := {
  calm_ok : ui_ok u;
  calm_line : exists a b, rep (input u) (a, b) /\ quiet (a ++ b);
  calm_global : Forall quiet (entries (global_history u));
  calm_windows : Forall (fun p => Forall quiet p.2) (places (screen u)) }.

(** And no window is gone. *)
Definition addresses (u : ui) : list Z := map fst (places (screen u)).
Definition stays (u u' : ui) : Prop := calm u' /\ addresses u ⊆ addresses u'.

Class AppCalm `{App} : Prop := {
  hotkey_calm u win k m b : calm u -> stays u (run_hotkey u win k m b).2;
  view_key_calm win f u k m : view_key win = Some f -> calm u -> stays u (f u k m).2;
  view_mouse_calm win f u k : view_mouse win = Some f -> calm u -> stays u (f u k).2;
  blocked_calm f u s : tui_input_blocked_cb = Some f -> calm u -> stays u (f u s).2;
  readline_calm f u s : tui_readline_cb = Some f -> calm u -> stays u (f u s) }.

Lemma stays_refl u : calm u -> stays u u.
Proof. by split. Qed.
Lemma stays_trans u v x : stays u v -> stays v x -> stays u x.
Proof. intros [_ H1] [H2 H3]. split; [done |]. by etrans. Qed.

Lemma stays_screen t u : tui_ok t -> places t = places (screen u) -> calm u -> stays u (set_screen t u).
Proof. intros Ht Hp [H1 H2 H3 H4]. split; [split; [by apply set_screen_ok | done | done | cbn; by rewrite Hp] |]. unfold addresses. cbn. by rewrite Hp. Qed.

Lemma stays_input l a b u : rep l (a, b) -> quiet (a ++ b) -> calm u -> stays u (set_input l u).
Proof. intros Hl Hq [H1 H2 H3 H4]. split; [| done]. split; [by eapply set_input_ok | by exists a, b | done | done]. Qed.

Lemma stays_alive u v w : stays u v -> w ∈ tui_windows (screen u) -> alive v (w_addr w) = Some tt.
Proof.
  intros [_ Hs] Hw. assert (Hin : w_addr w ∈ addresses v).
  { apply Hs. unfold addresses, places. rewrite map_map. by apply list_elem_of_fmap_2. }
  unfold addresses, places in Hin. rewrite map_map in Hin. apply list_elem_of_fmap in Hin as (x & Hx & Hin). unfold alive.
  rewrite (proj2 (existsb_exists _ _)); [done |]. exists x. split; [by apply list_elem_of_In |]. apply Z.eqb_eq. by rewrite Hx.
Qed.

(** ** The edits and the history *)

Definition quiet_edit (e : edit) : Prop := match e with EInsert c => expands c = false | ESetText s => quiet s | _ => True end.

Lemma rtrim_quiet p s : quiet s -> quiet (rtrim p s).
Proof. intros Hs. destruct (rtrim_parts p s) as [b Hb]. rewrite Hb in Hs. by apply Forall_app in Hs as [Hs _]. Qed.

Lemma edit_quiet e a b : quiet (a ++ b) -> quiet_edit e -> quiet ((edit_texts e (a, b)).1 ++ (edit_texts e (a, b)).2).
Proof.
  intros Hq He. pose proof Hq as Hab. apply Forall_app in Hab as [Ha Hb].
  destruct e; cbn [edit_texts fst snd quiet_edit] in *; rewrite ?app_nil_r; cbn [app].
  - done.
  - done.
  - by rewrite app_assoc, chop_parts.
  - rewrite <- app_assoc, take_drop. done.
  - by rewrite app_assoc, chop_word_parts.
  - set (b' := skip_while is_space (skip_while not_space b)). destruct (skip_while_suffix not_space b) as [x Hx], (skip_while_suffix is_space (skip_while not_space b)) as [y Hy].
    fold b' in Hy. apply Forall_app_2; [apply Forall_app_2; [done | by apply Forall_take] |].
    rewrite Hx in Hb. apply Forall_app in Hb as [_ Hb]. rewrite Hy in Hb. by apply Forall_app in Hb as [_ Hb].
  - constructor.
  - apply Forall_app_2; [by apply rtrim_quiet, rtrim_quiet | done].
  - by apply Forall_app_2, Forall_drop.
  - done.
  - apply Forall_app_2; [| done]. rewrite <- (chop_parts a) in Ha. by apply Forall_app in Ha as [Ha _].
  - case_match; [| done]. cbn [fst snd]. rewrite <- app_assoc. apply Forall_app_2; [done |]. by constructor.
  - by apply Forall_take.
Qed.

Lemma edit_calm e u : calm u -> quiet_edit e -> exists l, apply_edit e (input u) = Some l /\ stays u (set_input l u).
Proof.
  intros Hu He. destruct (calm_line _ Hu) as (a & b & Hr & Hq). destruct (edit_rep e _ _ Hr) as (l & Hl & Hr'). exists l. split; [done |].
  pose proof (edit_quiet e a b Hq He) as Hq'. destruct (edit_texts e (a, b)) as [a' b']. by eapply stays_input.
Qed.

Lemma active_history_calm u : calm u -> exists h put, active_history u = (h, put, u) /\ index_ok h /\ Forall quiet (entries h) /\
  forall h', index_ok h' -> Forall quiet (entries h') -> stays u (put h' u) /\ input (put h' u) = input u.
Proof.
  intros Hu. destruct (active_history u) as [[h put] v] eqn:Ha. destruct (active_history_ok _ _ _ _ (calm_ok _ Hu) Ha) as (-> & Hh & Hput).
  exists h, put. split; [done |]. split; [done |]. destruct Hu as [H1 H2 H3 H4]. revert Ha. unfold active_history.
  destruct (active_ok u H1) as (w & -> & Hw). destruct (shared_input_history u) eqn:Hs.
  - intros [= <- <-]. split; [done |]. intros h' Hh' Hq. split; [| done]. split; [| done]. by split; [apply Hput | ..].
  - intros [= <- <-]. cbn [entries at_index] in *. split.
    + unfold places in H4. rewrite Forall_map in H4. rewrite Forall_forall in H4. exact (H4 w Hw).
    + intros h' Hh' Hq. split; [| done]. split; [split; [by apply Hput | done | done |] |].
      * cbn. unfold places, update in *. cbn. rewrite Forall_map in H4. rewrite map_map, Forall_map. eapply Forall_impl; [exact H4 |]. intros x Hx. cbn in *. by case_match.
      * unfold addresses, places. cbn. rewrite !map_map. intros x Hx. apply list_elem_of_fmap in Hx as (y & -> & Hy). apply list_elem_of_fmap.
        exists y. split; [by case_match | done].
Qed.

(** A key of the history: it never reads outside the array, and shows one of its lines. *)
Definition shows_line (step : history -> option (option bstr * history)) : Prop :=
  forall h, index_ok h -> exists s h', step h = Some (s, h') /\ index_ok h' /\ entries h' = entries h /\ forall t, s = Some t -> t = [] \/ t ∈ entries h.

Lemma prev_shows : shows_line history_prev.
Proof.
  intros h Hh. destruct (history_prev h) as [[s h'] |] eqn:He.
  - exists s, h'. split; [done |]. split; [by eapply prev_ok |]. revert He. unfold history_prev. case_match; [by intros [= <- <-] |].
    destruct (entries h !! _) as [e |] eqn:Hl; [| done]. cbn [mbind option_bind]. intros [= <- <-]. split; [done |]. intros t [= <-]. right. by eapply list_elem_of_lookup_2.
  - exfalso. destruct Hh as [_ Hi]. revert He. unfold history_prev. destruct (Z.eqb_spec (Z.of_nat (length (entries h))) 0); [done |].
    match goal with |- context [entries h !! ?i] => destruct (lookup_lt_is_Some_2 (entries h) i) as [e ->] end; [repeat case_match; lia | done].
Qed.

Lemma next_shows : shows_line history_next.
Proof.
  intros h Hh. destruct (history_next h) as [[s h'] |] eqn:He.
  - exists s, h'. split; [done |]. split; [by eapply next_ok |]. revert He. unfold history_next. case_match; [by intros [= <- <-] |].
    case_match; [intros [= <- <-]; split; [done |]; intros t [= <-]; by left |].
    destruct (entries h !! _) as [e |] eqn:Hl; [| done]. cbn [mbind option_bind]. intros [= <- <-]. split; [done |]. intros t [= <-]. right. by eapply list_elem_of_lookup_2.
  - exfalso. destruct Hh as [_ Hi]. revert He. unfold history_next. destruct (Z.eqb_spec (Z.of_nat (length (entries h))) 0); [done |]. cbn [orb].
    destruct (Z.ltb_spec (at_index h) 0); [done |]. destruct (Z.leb_spec (Z.of_nat (length (entries h))) (at_index h + 1)); [done |].
    destruct (lookup_lt_is_Some_2 (entries h) (Z.to_nat (at_index h + 1))) as [e ->]; [lia | done].
Qed.

Lemma recall_calm step u : shows_line step -> calm u -> exists u', recall step u = Some u' /\ stays u u'.
Proof.
  intros Hstep Hu. unfold recall. destruct (active_history_calm u Hu) as (h & put & -> & Hh & Hq & Hput).
  destruct (Hstep h Hh) as (s & h' & -> & Hh' & He & Hs). cbn [mbind option_bind]. rewrite <- He in Hq. destruct (Hput h' Hh' Hq) as [Hst _].
  destruct s as [s |]; [| by eexists]. destruct (edit_calm (ESetText s) (put h' u)) as (l & Hl & Hst').
  - apply Hst.
  - cbn. destruct (Hs s eq_refl) as [-> | Hin]; [constructor |]. rewrite He in Hq. rewrite Forall_forall in Hq. by apply Hq.
  - cbn [apply_edit] in Hl. rewrite Hl. cbn [mbind option_bind]. eexists. split; [done |]. by eapply stays_trans.
Qed.

Lemma add_calm s u : quiet s -> calm u -> stays u (add_to_history s u).
Proof.
  intros Hs Hu. unfold add_to_history. destruct s as [| c s]; [by apply stays_refl |].
  destruct (active_history_calm u Hu) as (h & put & -> & Hh & Hq & Hput). apply Hput; [by apply add_ok |]. unfold history_add. cbn [entries].
  apply Forall_app_2; [case_match; [by apply Forall_drop | done] |]. apply Forall_singleton. by apply Forall_take.
Qed.

(** ** Every key *)

(** No completion, no formatting characters typed. *)
Definition calm_key (k : key) : bool :=
  negb (is_type KKeysym k && (code_of k =? SYM_TAB) && negb (has k CTRL || has k ALT || has k SHIFT)) &&
  negb (has k CTRL && bool_decide (is_Some (ctrl_insert (key_code k)))) &&
  negb (is_type KUnicode k && (0x20 <=? code_of k) && expands (chr (code_of k))).

(** A step that goes through, leaving the interface calm and the windows there. *)
Definition goes (u : ui) (r : option (bool * ui)) : Prop := exists b u', r = Some (b, u') /\ stays u u'.

Lemma goes_pair u (x : bool * ui) : stays u x.2 -> goes u (Some x).
Proof. destruct x as [b v]. by exists b, v. Qed.

Lemma goes_after u v r : stays u v -> goes v r -> goes u r.
Proof. intros Hv (b & x & -> & Hx). exists b, x. split; [done |]. by eapply stays_trans. Qed.

Section Calm.

Context `{AppCalm}.

Lemma update_calm u : calm u -> update_input_line u = Some u.
Proof.
  intros Hu. destruct (calm_line _ Hu) as (a & b & Hr & Hq). replace u with (set_input (input u) u) at 1 2 by by destruct u.
  apply (draws_ok u _ a b); [apply Hu | done |]. rewrite expanded_quiet by done. destruct Hr as [Hl _]. cbn [fst snd] in Hl. unfold TUI_INPUTLEN in Hl. lia.
Qed.

(** Enter leaves a line that is then emptied. *)
Lemma enter_calm u : calm u -> exists l v, handle_enter_key u = Some (set_input l v) /\ stays u v /\ length (input_buf l) = TUI_INPUTLEN.
Proof.
  intros Hu. unfold handle_enter_key. destruct (calm_line _ Hu) as (a & b & Hr & Hq).
  destruct (rep_at _ _ _ Hr) as (_ & Hn & Hlt). destruct (store (input_buf (input u)) (tui_input_len (input u)) NUL) as [buf |] eqn:Hb.
  2: { unfold store, in_buffer in Hb. rewrite (proj2 (Z.leb_le _ _)), (proj2 (Z.ltb_lt _ _)) in Hb by lia. done. }
  cbn [mbind option_bind]. rewrite (store_nul_ok u buf (calm_ok _ Hu) Hb).
  match goal with |- context [let '(_, _) := ?x in _] => assert (Hx : stays u x.2); [| destruct x as [blocked v]] end.
  { destruct tui_input_blocked_cb as [f |] eqn:Hf; [| by apply stays_refl]. destruct (0 <? _); [by apply (blocked_calm f) | by apply stays_refl]. }
  cbn [snd] in Hx. pose proof Hx as [Hv _].
  assert (Hsame : exists l w, update_input_line v = Some (set_input l w) /\ stays u w /\ length (input_buf l) = TUI_INPUTLEN).
  { rewrite update_calm by done. exists (input v), v. split; [by destruct v |]. split; [done |]. destruct (calm_line _ Hv) as (? & ? & (_ & Hlen & _) & _). exact Hlen. }
  destruct blocked; [done |]. destruct (0 <? tui_input_len (input v)); [| done]. clear Hsame.
  assert (H1 : stays u (add_to_history (cstr (input_buf (input v))) v)).
  { eapply stays_trans; [exact Hx |]. apply add_calm; [| done]. destruct (calm_line _ Hv) as (a' & b' & (_ & _ & (rest & Hbuf) & _) & Hq').
    cbn [fst snd] in Hbuf. rewrite Hbuf, app_assoc. by apply cstr_quiet. }
  set (v1 := add_to_history _ v) in *. set (v2 := match tui_readline_cb with Some f => _ | None => v1 end).
  assert (H2 : stays u v2).
  { unfold v2. destruct tui_readline_cb as [f |] eqn:Hf; [| done]. eapply stays_trans; [exact H1 |]. apply (readline_calm f); [done | apply H1]. }
  clearbody v1 v2. pose proof H2 as [Hv2 _].
  assert (Hz : exists l0, no_text (input v2) = Some l0 /\ tui_input_len l0 = 0 /\ length (input_buf l0) = TUI_INPUTLEN).
  { destruct (calm_line _ Hv2) as (? & ? & (_ & Hlen & _) & _). unfold no_text, store. eexists. split; [reflexivity |]. split; [done |].
    cbn [input_buf]. by rewrite length_insert. }
  destruct Hz as (l0 & -> & Hl0 & Hlen). cbn [mbind option_bind].
  destruct (emptied_draws v2 l0) as (l1 & -> & Hl1); [apply Hv2 | done |]. exists l1, v2. by rewrite Hl1.
Qed.

Lemma dispatch_calm u win k m : calm u -> stays u (tui_hotkey_dispatch u win k m).2.
Proof. intros Hu. unfold tui_hotkey_dispatch. destruct (hotkey_for _ _ _); [by apply hotkey_calm | by apply stays_refl]. Qed.

Lemma edit_goes e f u : f = apply_edit e -> quiet_edit e -> calm u -> goes u (edit_with f u).
Proof. intros -> He Hu. unfold edit_with. destruct (edit_calm e u Hu He) as (l & -> & Hl). by eexists _, _. Qed.

Lemma move_goes f e u : (forall l, Some (f l) = apply_edit e l) -> quiet_edit e -> calm u -> goes u (done (set_input (f (input u)) u)).
Proof. intros Hf He Hu. destruct (edit_calm e u Hu He) as (l & Hl & Hst). rewrite <- Hf in Hl. injection Hl as <-. by eexists _, _. Qed.

Lemma turn_goes t b u : calm u -> tui_step (screen u) t -> places t = places (screen u) -> goes u (Some (b, set_screen t u)).
Proof. intros Hu Ht Hp. apply goes_pair, stays_screen; [by eapply step_ok, screen_ok, calm_ok | done | done]. Qed.

Lemma keysym_calm u win k : calm u -> calm_key k = true -> is_type KKeysym k = true -> goes u (keysym u win k).
Proof.
  intros Hu Hk Ht. pose proof (screen_ok _ (calm_ok _ Hu)) as Ho. unfold keysym.
  destruct (_ =? SYM_ENTER).
  { destruct (has k ALT); [by apply goes_pair, dispatch_calm |]. destruct (enter_calm u Hu) as (l & v & -> & Hv & _). cbn [mbind option_bind].
    apply (goes_after u v); [done |]. replace (set_input no_line (set_input l v)) with (set_input no_line v) by done. apply goes_pair.
    apply (stays_input _ [] []); [apply no_line_rep | constructor | apply Hv]. }
  destruct (code_of k =? SYM_TAB) eqn:Htab.
  { destruct (has k CTRL) eqn:Hc; [by apply goes_pair, dispatch_calm |]. destruct (has k ALT || has k SHIFT) eqn:Has; [by apply goes_pair, stays_refl |].
    unfold calm_key in Hk. rewrite Ht, Htab, Hc in Hk. cbn [andb orb] in Hk. by rewrite Has in Hk. }
  destruct (_ =? SYM_PAGEUP); [apply turn_goes; [done | constructor | by apply page_places] |].
  destruct (_ =? SYM_PAGEDOWN); [apply turn_goes; [done | constructor | by apply page_places] |].
  destruct (_ =? SYM_HOME); [by apply (move_goes go_home EHome) |].
  destruct (_ =? SYM_END); [by apply (move_goes go_end EEnd) |].
  destruct (_ =? SYM_LEFT).
  { destruct (has k CTRL); [by apply (edit_goes EWordLeft) |].
    destruct (has k ALT); [apply turn_goes; [done | constructor | by apply (turn_places _ 0)] | by apply (move_goes go_left ELeft)]. }
  destruct (_ =? SYM_RIGHT).
  { destruct (has k CTRL); [by apply (edit_goes EWordRight) |].
    destruct (has k ALT); [apply turn_goes; [done | constructor | by apply (turn_places _ 0)] | by apply (move_goes go_right ERight)]. }
  destruct (_ =? SYM_UP). { destruct (recall_calm _ u prev_shows Hu) as (v & -> & Hv). by eexists _, _. }
  destruct (_ =? SYM_DOWN). { destruct (recall_calm _ u next_shows Hu) as (v & -> & Hv). by eexists _, _. }
  destruct (_ && _); [apply turn_goes; [done | constructor | by apply turn_places] | by apply goes_pair, stays_refl].
Qed.

Lemma ctrl_edit_quiet c f : ctrl_edit c = Some f -> exists e, f = apply_edit e /\ quiet_edit e.
Proof.
  unfold ctrl_edit. intros Hf. repeat (destruct (_ || _); [injection Hf as <- |]); [by exists EHome | by exists EEnd | by exists EEraseLine | by exists EEraseWord |
    by exists EDelete | by exists EKill |]. destruct (_ =? _); [| done]. injection Hf as <-. by exists EBackspace.
Qed.

Lemma ctrl_calm u c : calm u -> ctrl_insert c = None -> goes u (ctrl_key u c).
Proof.
  intros Hu Hc. unfold ctrl_key. rewrite Hc. destruct (ctrl_edit c) as [f |] eqn:Hf; [| by apply goes_pair, stays_refl].
  destruct (ctrl_edit_quiet _ _ Hf) as (e & He & Hq). by apply (edit_goes e).
Qed.

Lemma plain_calm u k c : calm u -> goes u (plain_key u k c).
Proof.
  intros Hu. unfold plain_key. destruct (c =? 10).
  { destruct (enter_calm u Hu) as (l & v & -> & Hv & Hl). cbn [mbind option_bind]. unfold edit_with. cbn [input set_input].
    unfold erase_line, store. change (in_buffer 0) with true. cbv iota. cbn [mbind option_bind]. apply (goes_after u v); [done |].
    match goal with |- context [set_input ?l' (set_input l v)] => replace (set_input l' (set_input l v)) with (set_input l' v) by done end.
    apply goes_pair. apply (stays_input _ [] []); [| constructor | apply Hv].
    destruct (input_buf l) as [| x rest]; [done |]. split_and!; [apply Nat.ltb_lt; reflexivity | exact Hl | by exists rest | done | done]. }
  destruct (_ || _); [by apply (edit_goes EBackspace) |].
  destruct (_ && _).
  { destruct (has k ALT); [apply turn_goes; [done | constructor | by apply turn_places, (screen_ok _ (calm_ok _ Hu))] | by apply goes_pair, stays_refl]. }
  destruct (c =? SYM_DELETE); [by apply (edit_goes EDelete) | by apply goes_pair, stays_refl].
Qed.

Lemma unless_goes h u step : calm u -> goes u step -> goes u (unless h u step).
Proof. intros Hu Hs. unfold unless. destruct h; [by apply goes_pair, stays_refl | done]. Qed.

Lemma edit_key_calm h u k : calm u -> calm_key k = true -> exists u', edit_key h u k = Some u' /\ stays u u'.
Proof.
  intros Hu Hk. unfold calm_key in Hk. rewrite !andb_true_iff, !negb_true_iff in Hk. destruct Hk as [[_ Hc] Hi]. unfold edit_key.
  assert (H1 : goes u (if negb h && has k CTRL then ctrl_key u (key_code k) else Some (h, u))).
  { destruct (has k CTRL); [| rewrite andb_false_r; by apply goes_pair, stays_refl]. cbn [andb] in Hc. apply bool_decide_eq_false in Hc.
    apply eq_None_not_Some in Hc. destruct (negb h); cbn [andb]; [by apply ctrl_calm | by apply goes_pair, stays_refl]. }
  destruct H1 as (h1 & u1 & -> & Hu1). cbn [mbind option_bind].
  destruct (unless_goes h1 u1 (plain_key u1 k (key_code k))) as (h2 & u2 & -> & Hu2); [apply Hu1 | apply plain_calm, Hu1 |]. cbn [mbind option_bind].
  assert (H3 : goes u2 (if is_type KUnicode k && (32 <=? key_code k) then edit_with (insert_char (chr (key_code k))) u2 else Some (false, u2))).
  { destruct (is_type KUnicode k) eqn:Ht; cbn [andb] in *; [| by apply goes_pair, stays_refl, Hu2].
    replace (key_code k) with (code_of k) by (unfold key_code, is_type in *; by destruct (type k)).
    destruct (32 <=? code_of k); cbn [andb] in Hi; [by apply (edit_goes (EInsert (chr (code_of k)))); [| | apply Hu2] | by apply goes_pair, stays_refl, Hu2]. }
  destruct (unless_goes h2 u2 _ (proj1 Hu2) H3) as (h3 & u3 & -> & Hu3). cbn [mbind option_bind].
  assert (Hst : stays u u3) by (eapply stays_trans; [exact Hu1 |]; eapply stays_trans; [exact Hu2 | exact Hu3]).
  exists u3. split; [| done]. destruct h3; [apply update_calm, Hst | done].
Qed.

Lemma alt_calm u win k : calm u -> match alt_unicode u win k with (Some (_, v), _) => stays u v | (None, v) => stays u v end.
Proof.
  intros Hu. unfold alt_unicode. pose proof (dispatch_calm u win (code_of k) (modifiers k) Hu) as Hd.
  destruct (tui_hotkey_dispatch _ _ _ _) as [taken v]. cbn [snd] in Hd. destruct taken; [done |]. destruct (window_key _) as [i |]; [| done].
  eapply stays_trans; [exact Hd |]. pose proof (screen_ok _ (calm_ok _ (proj1 Hd))) as Hv.
  pose proof (step_ok _ _ (StepFocusId (screen v) true (11 + Z.of_nat i)) Hv) as Hf.
  apply stays_screen; [by apply redraw_ok | rewrite redraw_places by done; by apply focus_id_places | apply Hd].
Qed.

Lemma handle_calm u k : calm u -> calm_key k = true -> exists u', handle_key u k = Some u' /\ stays u u'.
Proof.
  intros Hu Hk. unfold handle_key. destruct (active_ok u (calm_ok _ Hu)) as (w & -> & Hw).
  assert (Hok : forall v x, stays u v -> stays v x -> stays u x) by (intros; by eapply stays_trans).
  match goal with |- context [let '(_, _) := ?x in _] => assert (Hx : stays u x.2) by (destruct (_ && _ && _ && _); [by apply dispatch_calm | by apply stays_refl]); destruct x as [taken u1] end.
  cbn [snd] in Hx. destruct taken; [by exists u1 |].
  destruct (is_type KMouse k).
  { eexists. split; [done |]. destruct (view_mouse (w_addr w)) as [f |] eqn:Hf; [| done]. eapply Hok; [exact Hx |]. eapply view_mouse_calm; [done | apply Hx]. }
  rewrite (stays_alive u u1 w Hx Hw). cbn [mbind option_bind].
  match goal with |- context [let '(_, _) := ?x in _] => assert (Hy : stays u x.2); [| destruct x as [taken u2]] end.
  { destruct (view_key (w_addr w)) as [f |] eqn:Hf; [| done]. destruct (has k ALT); [done |]. eapply Hok; [exact Hx |]. eapply view_key_calm; [done | apply Hx]. }
  cbn [snd] in Hy. destruct taken; [by exists u2 |].
  match goal with |- context [let '(_, _) := ?x in _] => assert (Hz : stays u x.2); [| destruct x as [h3 u3]] end.
  { destruct (_ && _ && _); [| done]. eapply Hok; [exact Hy |]. apply dispatch_calm, Hy. }
  cbn [snd] in Hz. assert (H4 : goes u3 (if is_type KKeysym k then keysym u3 (w_addr w) k else Some (h3, u3))).
  { destruct (is_type KKeysym k) eqn:Ht; [by apply keysym_calm; [apply Hz | |] | apply goes_pair, stays_refl, Hz]. }
  destruct H4 as (h4 & u4 & -> & Hu4). cbn [mbind option_bind]. pose proof (Hok _ _ Hz Hu4) as H4.
  assert (Hend : forall v, stays u v -> forall h, exists u', (_ ← alive v (w_addr w); if full_height (w_addr w) then Some v else edit_key h v k) = Some u' /\ stays u u').
  { intros v Hv h. rewrite (stays_alive u v w Hv Hw). cbn [mbind option_bind]. destruct (full_height _); [by exists v |].
    destruct (edit_key_calm h v k (proj1 Hv) Hk) as (x & Hx' & Hst). exists x. split; [done |]. by eapply Hok. }
  pose proof (alt_calm u4 (w_addr w) k (proj1 H4)) as Halt. destruct (negb h4 && is_type KUnicode k && has k ALT).
  - destruct (alt_unicode u4 (w_addr w) k) as [[[h5 u5] |] u6]; [apply Hend; by eapply Hok | exists u6; split; [done |]; by eapply Hok].
  - by apply Hend.
Qed.

Lemma handle_all_calm u ks : calm u -> Forall (fun k => calm_key k = true) ks -> exists u', handle_keys u ks = Some u' /\ stays u u'.
Proof.
  intros Hu Hks. revert u Hu. induction Hks as [| k ks Hk Hks IH]; intros u Hu; cbn [handle_keys]; [exists u; split; [done | by apply stays_refl] |].
  destruct (handle_calm u k Hu Hk) as (v & -> & Hv). cbn [mbind option_bind]. destruct (IH v (proj1 Hv)) as (x & Hx & Hst). exists x. split; [done |]. by eapply stays_trans.
Qed.

End Calm.

(** ** A line and Enter *)

(** Typing a line of printable characters and Enter gives the application
    that line, whole, with the line in the history, and leaves the input empty; but
    if the application closes the window for it, as a command may, the next access
    is to the freed window. *)
Theorem typed_line_submitted `{App} u w f s (Hu : ui_ok u) (Hw : simple u w) (Hr : rep (input u) ([], [])) (Hne : s <> []) (Hp : Forall printable s)
    (Hlen : (length s <= 511)%nat) (Hb : tui_input_blocked_cb = None) (Hf : tui_readline_cb = Some f)
    (Hv : forall l, tui_ok (screen (f (add_to_history s (set_input l u)) s))) :
  exists l, rep l (s, []) /\
    let v := f (add_to_history s (set_input l u)) s in
    handle_keys u (map char_key s ++ [enter_key]) = match alive v (w_addr w) with Some _ => Some (set_input no_line v) | None => None end.
Proof.
  destruct (type_text u w [] s Hu Hw Hr Hp Hlen) as (l & Hk & Hl). exists l. split; [done |]. cbv zeta.
  rewrite handle_keys_app, Hk. cbn [mbind option_bind]. assert (Hw' : simple (set_input l u) w) by (destruct Hw as (Ha & Hvf); split; [by apply active_input | done]).
  cbn [handle_keys]. rewrite (press_enter (set_input l u) w f s) by (try done; by eapply set_input_ok). by destruct (alive _ _).
Qed.

(** An application that only takes lines. *)
Definition line_app (f : ui -> bstr -> ui) : App := {|
  run_hotkey u _ _ _ _ := (false, u);
  view_key _ := None;
  view_mouse _ := None;
  full_height _ := false;
  tui_input_blocked_cb := None;
  tui_readline_cb := Some f;
  completion_handler := None;
  provide _ _ _ := None;
  describer := None |}.

(** It prints the line to the first window, or closes the second. *)
Definition print_line (u : ui) (s : bstr) : ui := set_screen (tui_print (screen u) true (Some 1) s) u.
Definition close_second (u : ui) (s : bstr) : ui := set_screen (tui_window_destroy_id (screen u) true 2).2 u.

Definition one_window : tui := tui_window_init (Tui [] 0 1 true true 24 80).
Definition two_windows : tui := (tui_window_focus (tui_window_create one_window true (B "chan")).2 (Some (B "chan"))).2.

Lemma two_ok : tui_ok one_window /\ tui_ok two_windows.
Proof. split; [apply init_ok |]. by apply focus_ok, create_ok, init_ok. Qed.

Lemma fresh_ok t : tui_ok t -> ui_ok (Ui t no_line true empty_history no_hotkeys []).
Proof. intros Ht. split; [done | exists ([], []); apply no_line_rep | split; cbn; lia]. Qed.

Lemma typed_line_submitted_witness :
  (exists u', @handle_keys (line_app print_line) (Ui one_window no_line true empty_history no_hotkeys []) (map char_key (B "hi") ++ [enter_key]) = Some u' /\
     input u' = no_line /\ map shown_lines (tui_windows (screen u')) = [[Some (B "hi")]]) /\
  @handle_keys (line_app close_second) (Ui two_windows no_line true empty_history no_hotkeys []) (map char_key (B "/close") ++ [enter_key]) = None.
Proof.
  split.
  - destruct (@typed_line_submitted (line_app print_line) (Ui one_window no_line true empty_history no_hotkeys []) (new_window 1 (B "status")) print_line (B "hi"))
      as (l & _ & H).
    + apply fresh_ok, two_ok.
    + split; [reflexivity | split; reflexivity].
    + apply no_line_rep.
    + discriminate.
    + repeat constructor; vm_compute; discriminate.
    + apply Nat.leb_le. reflexivity.
    + reflexivity.
    + reflexivity.
    + intros l. apply print_ok, two_ok.
    + eexists. split; [etrans; [exact H | vm_compute; reflexivity] |]. split; vm_compute; reflexivity.
  - destruct (@typed_line_submitted (line_app close_second) (Ui two_windows no_line true empty_history no_hotkeys []) (new_window 2 (B "chan")) close_second (B "/close"))
      as (l & _ & H).
    + apply fresh_ok, two_ok.
    + split; [vm_compute; reflexivity | split; reflexivity].
    + apply no_line_rep.
    + discriminate.
    + repeat constructor; vm_compute; discriminate.
    + apply Nat.leb_le. reflexivity.
    + reflexivity.
    + reflexivity.
    + intros l. eapply step_ok; [apply StepDestroyId |]. apply two_ok.
    + etrans; [exact H | vm_compute; reflexivity].
Defined.

#[export] Instance print_line_ok : @AppOk (line_app print_line).
Proof.
  constructor; try done; cbn; [intros f u s [= <-] Hu | ..]; try (intros; congruence). apply set_screen_ok; [apply print_ok, Hu | done].
Qed.

#[export] Instance print_line_calm : @AppCalm (line_app print_line).
Proof.
  constructor; try done; cbn. intros f u s [= <-] Hu.
  pose proof (screen_ok _ (calm_ok _ Hu)). apply stays_screen; [by apply print_ok | by apply print_places | done].
Qed.

(** C27: whatever keys arrive, a turn of the loop that goes through leaves the
    windows in order, the input line a text of less than 512 characters with the
    cursor in it, and the history index within its lines, as long as the
    application's callbacks leave them so.  Every turn goes through, the windows of
    before all there, when there are no formatting characters in the line and the
    histories, none is typed, no word is completed, and the callbacks keep that and close no
    window; each of these limits is one that the code passes: drawing many formatting
    characters and completing before other text leave their buffers, and a window that a
    command closes is read. *)
Theorem keys_keep_order `{AppOk} u ks (Hu : ui_ok u) :
  (forall u', handle_keys u ks = Some u' -> ui_ok u') /\
  (AppCalm -> calm u -> Forall (fun k => calm_key k = true) ks ->
   exists u', handle_keys u ks = Some u' /\ calm u' /\ addresses u ⊆ addresses u').
Proof.
  split; [intros u'; by apply handle_all_ok |]. intros Hc Hcalm Hks. by apply handle_all_calm.
Qed.

Lemma keys_keep_order_witness : exists u',
  @handle_keys (line_app print_line) (Ui one_window no_line true empty_history no_hotkeys [])
    (map char_key (B "say hi") ++ [Key KKeysym SYM_LEFT CTRL; Key KUnicode 119 CTRL; Key KKeysym SYM_PAGEUP 0; Key KUnicode 113 ALT; enter_key;
       Key KKeysym SYM_UP 0; Key KUnicode 117 CTRL]) = Some u' /\ ui_ok u' /\ calm u'.
Proof.
  assert (Hu : ui_ok (Ui one_window no_line true empty_history no_hotkeys [])) by apply fresh_ok, two_ok.
  destruct (@keys_keep_order (line_app print_line) print_line_ok _
    (map char_key (B "say hi") ++ [Key KKeysym SYM_LEFT CTRL; Key KUnicode 119 CTRL; Key KKeysym SYM_PAGEUP 0; Key KUnicode 113 ALT; enter_key;
       Key KKeysym SYM_UP 0; Key KUnicode 117 CTRL]) Hu) as [Hok Hgo].
  destruct (Hgo print_line_calm) as (u' & He & Hc & _).
  - split; [exact Hu | | constructor | repeat constructor]. exists [], []. split; [apply no_line_rep | constructor].
  - repeat constructor.
  - exists u'. split; [exact He |]. split; [apply Hok; exact He | exact Hc].
Defined.

(** A key with Ctrl that no edit knows types its letter. *)
Theorem unknown_ctrl_types_letter : exists u',
  @handle_key (line_app print_line) (Ui one_window no_line true empty_history no_hotkeys []) (Key KUnicode 102 CTRL) = Some u' /\ cstr (input_buf (input u')) = B "f".
Proof. eexists. split; vm_compute; reflexivity. Qed.
