(* ===== verification/Serial.v ===== *)
(** * Serial lines and NMEA sentences (io.serial.c)

    The line settings, their text form, the specifications [path@baud,mode], the
    NMEA sentences, and the opening and closing of a device or a pseudo-terminal.
    [termios] is the structure of Linux with the C library's [cfmakeraw],
    [cfsetispeed] and [cfsetospeed]; the calls that reach the kernel are the class
    [Tty], whose state holds the descriptors, the files and [errno]. *)

From S2P Require Import Prelude CString CFloat.

#[local] Open Scope Z_scope.

(** [rr_serial_settings_t] *)
Record settings := Settings { baud : Z; bits : Z; stops : Z; parity : ascii }.

#[export] Instance settings_eq_dec : EqDecision settings.
Proof. solve_decision. Defined.

(** ** [struct termios] *)

Record termios := Termios { c_iflag : Z; c_oflag : Z; c_cflag : Z; c_lflag : Z; c_cc : list Z; c_ispeed : Z; c_ospeed : Z }.

Definition CSIZE : Z := 48.
Definition CS5 : Z := 0.
Definition CS6 : Z := 16.
Definition CS7 : Z := 32.
Definition CS8 : Z := 48.
Definition CSTOPB : Z := 64.
Definition CREAD : Z := 128.
Definition PARENB : Z := 256.
Definition PARODD : Z := 512.
Definition CLOCAL : Z := 2048.
Definition CBAUD : Z := 4111.
Definition CRTSCTS : Z := 2147483648.
Definition IBAUD0 : Z := 2147483648.
Definition B57600 : Z := 4097.
Definition MAX_BAUD : Z := 4111.
Definition VTIME : nat := 5.
Definition VMIN : nat := 6.

(** [IGNBRK], [BRKINT], [PARMRK], [ISTRIP], [INLCR], [IGNCR], [ICRNL], [IXON]; [OPOST];
    [ECHO], [ECHONL], [ICANON], [ISIG], [IEXTEN]. *)
Definition RAW_IFLAG : Z := 1515.
Definition RAW_OFLAG : Z := 1.
Definition RAW_LFLAG : Z := 32843.

Definition clear (flags mask : Z) : Z := Z.ldiff flags mask.

Definition cfmakeraw (t : termios) : termios :=
  Termios (clear (c_iflag t) RAW_IFLAG) (clear (c_oflag t) RAW_OFLAG)
    (Z.lor (clear (c_cflag t) (Z.lor CSIZE PARENB)) CS8) (clear (c_lflag t) RAW_LFLAG)
    (<[VTIME := 0]> (<[VMIN := 1]> (c_cc t))) (c_ispeed t) (c_ospeed t).

Definition bad_speed (speed : Z) : bool :=
  negb (clear speed CBAUD =? 0) && ((speed <? B57600) || (MAX_BAUD <? speed)).

Definition cfsetospeed (t : termios) (speed : Z) : option termios :=
  if bad_speed speed then None
  else Some (Termios (c_iflag t) (c_oflag t) (Z.lor (clear (c_cflag t) CBAUD) speed) (c_lflag t) (c_cc t) (c_ispeed t) speed).

(** An input speed of zero means the output speed. *)
Definition cfsetispeed (t : termios) (speed : Z) : option termios :=
  if bad_speed speed then None
  else if speed =? 0
  then Some (Termios (Z.lor (c_iflag t) IBAUD0) (c_oflag t) (c_cflag t) (c_lflag t) (c_cc t) speed (c_ospeed t))
  else Some (Termios (clear (c_iflag t) IBAUD0) (c_oflag t) (Z.lor (clear (c_cflag t) CBAUD) speed) (c_lflag t) (c_cc t) speed (c_ospeed t)).

Definition cfgetospeed (t : termios) : Z := Z.land (c_cflag t) CBAUD.

(** ** The rates *)

(** The cases of the switch: [B0], [B1200], ..., [B921600]. *)
Definition rates : list (Z * Z) :=
  [(0, 0); (1200, 9); (2400, 11); (4800, 12); (9600, 13); (19200, 14); (38400, 15);
   (57600, 4097); (115200, 4098); (230400, 4099); (460800, 4100); (921600, 4103)].

Definition baud_speed (baud : Z) : option Z :=
  match list_find (fun r => r.1 = baud) rates with
  | Some (_, (_, speed)) => Some speed
  | None => None
  end.

(** ** The text form of the settings *)

Definition rr_serial_mode_parse (mode : option bstr) (s : option settings) : option settings :=
  match mode, s with
  | Some [m0; m1; m2], Some s =>
      if (code m0 <? code "5") || (code "8" <? code m0) || (negb (bool_decide (m2 = "1"%char)) && negb (bool_decide (m2 = "2"%char))) then None
      else
        let parity := tolower m1 in
        if negb (bool_decide (parity = "n"%char)) && negb (bool_decide (parity = "e"%char)) && negb (bool_decide (parity = "o"%char)) then None
        else Some (Settings (baud s) (code m0 - code "0") (code m2 - code "0") parity)
  | _, _ => None
  end.

Definition rr_serial_mode_format (s : settings) : bstr :=
  [chr (code "0" + bits s); parity s; chr (code "0" + stops s)].

(** The text before the last occurrence of [c], and after it. *)
Fixpoint split_last (s : bstr) (c : ascii) : option (bstr * bstr) :=
  match s with
  | [] => None
  | x :: s' =>
      match split_last s' c with
      | Some (a, b) => Some (x :: a, b)
      | None => if bool_decide (x = c) then Some ([], s') else None
      end
  end.

(** The settings after the [@]: a mode, or a rate with an optional mode. *)
Definition parse_tail (tail : bstr) (s : settings) : option settings :=
  match rr_serial_mode_parse (Some tail) (Some s) with
  | Some parsed => Some parsed
  | None =>
      let r := strtoull tail in
      if st_erange r || (length (st_end r) =? length tail)%nat || (921600 <? st_value r) then None
      else
        let parsed := Settings (st_value r) (bits s) (stops s) (parity s) in
        match st_end r with
        | [] => Some parsed
        | c :: rest => if bool_decide (c = ","%char) then rr_serial_mode_parse (Some rest) (Some parsed) else None
        end
  end.

(** The target and the settings; [None] leaves both as they are. *)
Definition rr_serial_spec_parse (spec : option bstr) (target : bool) (capacity : nat) (s : option settings) : option (bstr * settings) :=
  match spec, s with
  | Some spec, Some s =>
      if negb target || (capacity =? 0)%nat then None
      else
        let '(path, tail) := match split_last spec "@" with Some (a, b) => (a, Some b) | None => (spec, None) end in
        if (length path =? 0)%nat || (capacity <=? length path)%nat then None
        else
          parsed ← (match tail with Some tail => parse_tail tail s | None => Some s end);
          _ ← baud_speed (baud parsed);
          Some (path, parsed)
  | _, _ => None
  end.

(** ** The lines *)

(** What the code uses of the kernel; a call that fails sets [errno]. *)
Class Tty (W : Type) := {
  errno : W -> Z;
  set_errno : Z -> W -> W;
  (** [open] for reading and writing, nonblocking, without a controlling terminal. *)
  open : bstr -> W -> option Z * W;
  close : Z -> W -> W;
  (** [fstat] succeeds and [S_ISCHR]. *)
  is_chr : Z -> W -> bool * W;
  tcgetattr : Z -> W -> option termios * W;
  tcsetattr : Z -> termios -> W -> bool * W;
  posix_openpt : W -> option Z * W;
  grantpt : Z -> W -> bool * W;
  unlockpt : Z -> W -> bool * W;
  ptsname_r : Z -> nat -> W -> option bstr * W;
  symlink : bstr -> bstr -> W -> bool * W;
  readlink : bstr -> nat -> W -> option bstr * W;
  unlink : bstr -> W -> W }.

Definition EINVAL : Z := 22.
Definition ENOTTY : Z := 25.
Definition PATH_MAX : nat := 4096.

Section lines.
Context {W : Type} `{!Tty W}.

Definition valid_settings (s : settings) : bool :=
  negb ((bits s <? 5) || (8 <? bits s) || (stops s <? 1) || (2 <? stops s) ||
        (negb (bool_decide (parity s = "n"%char)) && negb (bool_decide (parity s = "e"%char)) && negb (bool_decide (parity s = "o"%char)))).

(** The attributes that are set: raw, the frame, the speed. *)
Definition frame (s : settings) (t : termios) : termios :=
  let t := cfmakeraw t in
  let cflag := clear (clear (c_cflag t) (Z.lor CSIZE (Z.lor PARENB (Z.lor PARODD CSTOPB)))) CRTSCTS in
  let cflag := Z.lor cflag (Z.lor (nth (Z.to_nat (bits s - 5)) [CS5; CS6; CS7; CS8] 0) (Z.lor CLOCAL CREAD)) in
  let cflag := if negb (bool_decide (parity s = "n"%char)) then Z.lor cflag PARENB else cflag in
  let cflag := if bool_decide (parity s = "o"%char) then Z.lor cflag PARODD else cflag in
  let cflag := if stops s =? 2 then Z.lor cflag CSTOPB else cflag in
  Termios (c_iflag t) (c_oflag t) cflag (c_lflag t) (<[VTIME := 0]> (<[VMIN := 1]> (c_cc t))) (c_ispeed t) (c_ospeed t).

Definition rr_serial_settings_apply (fd : Z) (s : option settings) (w : W) : bool * W :=
  match s with
  | None => (false, w)
  | Some s =>
      if negb (valid_settings s) then (false, w)
      else
        match baud_speed (baud s) with
        | None => (false, set_errno EINVAL w)
        | Some rate =>
            match tcgetattr fd w with
            | (None, w) => (false, w)
            | (Some t, w) =>
                match rr_serial_mode_parse (Some (rr_serial_mode_format s)) (Some s) with
                | None => (false, set_errno EINVAL w)
                | Some _ =>
                    match cfsetispeed (frame s t) rate with
                    | None => (false, set_errno EINVAL w)
                    | Some t =>
                        match cfsetospeed t rate with
                        | None => (false, set_errno EINVAL w)
                        | Some t => tcsetattr fd t w
                        end
                    end
                end
            end
        end
  end.

Definition read_bits (cflag : Z) : Z :=
  let size := Z.land cflag CSIZE in
  if size =? CS5 then 5 else if size =? CS6 then 6 else if size =? CS7 then 7 else 8.

(** [s]: whether the caller passes a structure. *)
Definition rr_serial_settings_read (fd : Z) (s : bool) (w : W) : option settings * W :=
  if negb s then (None, w)
  else
    match tcgetattr fd w with
    | (None, w) => (None, w)
    | (Some t, w) =>
        match list_find (fun r => baud_speed r.1 = Some (cfgetospeed t)) rates with
        | None => (None, w)
        | Some (_, (baud, _)) =>
            let has flag := negb (Z.land (c_cflag t) flag =? 0) in
            (Some (Settings baud (read_bits (c_cflag t)) (if has CSTOPB then 2 else 1)
               (if has PARENB then if has PARODD then "o"%char else "e"%char else "n"%char)), w)
        end
    end.

(** The descriptor and the attributes to restore on closing. *)
Definition rr_serial_device_open (path : option bstr) (s : option settings) (original : bool) (w : W) : option (Z * termios) * W :=
  match path, original with
  | Some path, true =>
      match open path w with
      | (None, w) => (None, w)
      | (Some fd, w) =>
          let not_tty w := (None, set_errno ENOTTY (close fd w)) in
          match is_chr fd w with
          | (false, w) => not_tty w
          | (true, w) =>
              match tcgetattr fd w with
              | (None, w) => not_tty w
              | (Some t, w) =>
                  match rr_serial_settings_apply fd s w with
                  | (true, w) => (Some (fd, t), w)
                  | (false, w) =>
                      let error := errno w in
                      (None, set_errno error (close fd (tcsetattr fd t w).2))
                  end
              end
          end
      end
  | _, _ => (None, set_errno EINVAL w)
  end.

Definition rr_serial_device_close (fd : Z) (original : option termios) (w : W) : W :=
  if fd <? 0 then w
  else close fd (match original with Some t => (tcsetattr fd t w).2 | None => w end).

(** The master descriptor, the kept slave descriptor and the slave's name.
    [outs]: the caller passes [keeper] and [slave]. *)
Definition rr_serial_pty_open (path : option bstr) (s : option settings) (outs : bool) (capacity : nat) (w : W) :
    option (Z * Z * bstr) * W :=
  match path with
  | None => (None, set_errno EINVAL w)
  | Some path =>
      if negb outs || (capacity <? 2)%nat then (None, set_errno EINVAL w)
      else
        match posix_openpt w with
        | (None, w) => (None, w)
        | (Some fd, w) =>
            let failed hold w :=
              let error := errno w in
              let w := match hold with Some h => close h w | None => w end in
              (None, set_errno error (close fd w)) in
            match grantpt fd w with
            | (false, w) => failed None w
            | (true, w) =>
                match unlockpt fd w with
                | (false, w) => failed None w
                | (true, w) =>
                    match ptsname_r fd capacity w with
                    | (None, w) => failed None w
                    | (Some slave, w) =>
                        match open slave w with
                        | (None, w) => failed None w
                        | (Some hold, w) =>
                            match rr_serial_settings_apply hold s w with
                            | (false, w) => failed (Some hold) w
                            | (true, w) =>
                                match symlink slave path w with
                                | (false, w) => failed (Some hold) w
                                | (true, w) => (Some (fd, hold, slave), w)
                                end
                            end
                        end
                    end
                end
            end
        end
  end.

Definition rr_serial_pty_close (fd keeper : Z) (path slave : option bstr) (w : W) : W :=
  let w := if 0 <=? fd then close fd w else w in
  let w := if 0 <=? keeper then close keeper w else w in
  match path, slave with
  | Some path, Some slave =>
      match readlink path (PATH_MAX - 1) w with
      | (None, w) => w
      | (Some target, w) => if streq target slave then unlink path w else w
      end
  | _, _ => w
  end.

End lines.

(** ** NMEA sentences *)

Definition isxdigit (c : ascii) : bool := match hex_digit c with Some _ => true | None => false end.

(** [strtoul(s, NULL, 16)] of hexadecimal digits. *)
Definition hex_value (s : bstr) : Z := foldl (fun n c => 16 * n + default 0 (hex_digit c)) 0 s.

Definition checksum (s : bstr) : Z := foldl (fun n c => Z.lxor n (code c)) 0 s.

Definition rr_nmea_valid (line : option bstr) : bool :=
  match line with
  | Some (c :: body) =>
      if negb (bool_decide (c = "$"%char)) && negb (bool_decide (c = "!"%char)) then false
      else
        match split_at body "*" with
        | Some (text, [h1; h2]) =>
            if (length text =? 0)%nat || negb (isxdigit h1) || negb (isxdigit h2) then false
            else forallb isprint text && (checksum text =? hex_value [h1; h2])
        | _ => false
        end
  | _ => false
  end.

(** [int32_t] to the absolute value in [uint32_t]. *)
Definition absolute (angle : Z) : Z := u32 (if angle <? 0 then - angle else angle).

(** What [snprintf] leaves of [text] in a buffer. *)
Definition snprintf (capacity : nat) (text : bstr) : bstr := take (capacity - 1) text.

Definition nmea_angle (angle : Z) (width capacity : nat) : bstr :=
  let degrees := absolute angle / 10000000 in
  let minutes := u64 (u64 (absolute angle mod 10000000 * 60) + 5) / 10 in
  let '(degrees, minutes) := if minutes =? 60000000 then (u32 (degrees + 1), 0) else (degrees, minutes) in
  snprintf capacity (pad_left width (print_nat degrees) ++ pad_left 2 (print_nat (u32 (minutes / 1000000))) ++ B "." ++
    pad_left 6 (print_nat (u32 (minutes mod 1000000)))).

(** [struct tm], the fields that are printed: the year is [tm_year + 1900]. *)
Record tm := Tm { tm_year : Z; tm_mon : Z; tm_mday : Z; tm_hour : Z; tm_min : Z; tm_sec : Z }.

(** The date of a day counted from 1970-01-01: years start in March, eras are 400 years. *)
Definition civil (day : Z) : Z * Z * Z :=
  let z := day + 719468 in
  let era := z / 146097 in
  let doe := z mod 146097 in
  let yoe := (doe - doe / 1460 + doe / 36524 - doe / 146096) / 365 in
  let doy := doe - (365 * yoe + yoe / 4 - yoe / 100) in
  let mp := (5 * doy + 2) / 153 in
  let month := if mp <? 10 then mp + 3 else mp - 9 in
  (yoe + era * 400 + (if month <=? 2 then 1 else 0), month, doy - (153 * mp + 2) / 5 + 1).

(** [gmtime_r]; it fails when [tm_year] is not an [int]. *)
Definition gmtime_r (utc : Z) : option tm :=
  let '(year, month, mday) := civil (utc / 86400) in
  let s := utc mod 86400 in
  if (year - 1900 <? INT_MIN) || (INT_MAX <? year - 1900) then None
  else Some (Tm year month mday (s / 3600) (s / 60 mod 60) (s mod 60)).

(** [strftime] with three two-digit fields; nothing when the buffer is too small. *)
Definition strftime (capacity : nat) (a b c : Z) : bstr :=
  let text := pad_left 2 (print_nat a) ++ pad_left 2 (print_nat b) ++ pad_left 2 (print_nat c) in
  if (capacity <=? length text)%nat then [] else text.

(** The text before the checksum. *)
Definition rmc_text (latitude longitude flags : Z) (time_text date_text : bstr) : bstr :=
  if Z.testbit flags 0 then
    B "$GPRMC," ++ time_text ++ B ",A," ++ nmea_angle latitude 2 24 ++ B "," ++ (if latitude <? 0 then B "S" else B "N") ++ B "," ++
    nmea_angle longitude 3 24 ++ B "," ++ (if longitude <? 0 then B "W" else B "E") ++ B ",0.0,," ++ date_text ++ B ",,," ++
    (if Z.testbit flags 1 then B "M" else B "A")
  else B "$GPRMC," ++ time_text ++ B ",V,,,,,0.0,," ++ date_text ++ B ",,,N".

(** The length returned, and the string left in [out] when it is written.
    [flags] is a [uint8_t]. *)
Definition rr_nmea_rmc (latitude longitude flags utc : Z) (out : bool) (capacity : nat) : nat * option bstr :=
  if negb out || (capacity <? 8)%nat || (latitude <? - 900000000) || (900000000 <? latitude) ||
     (longitude <? - 1800000000) || (1800000000 <? longitude) || negb (Z.ldiff flags 3 =? 0) then (O, None)
  else
    match gmtime_r utc with
    | None => (O, None)
    | Some t =>
        let time_text := strftime 16 (tm_hour t) (tm_min t) (tm_sec t) in
        let date_text := strftime 16 (tm_mday t) (tm_mon t) (Z.abs (tm_year t) mod 100) in
        if (length time_text =? 0)%nat || (length date_text =? 0)%nat then (O, None)
        else
          let text := rmc_text latitude longitude flags time_text date_text in
          if (capacity <? length text + 4)%nat then (O, Some (snprintf capacity text))
          else
            let suffix := B "*" ++ pad_left 2 (map toupper (print_hex (checksum (drop 1 text)))) in
            let out := text ++ snprintf (capacity - length text) suffix in
            (if (length suffix =? 3)%nat then (length text + length suffix)%nat else O, Some out)
    end.
