(* ===== verification/SerialSpec.v ===== *)
(** * What the serial lines promise (io.serial.c)

    Settings written to a line are read back; the text forms parse to what was
    printed; opening a device leaves no descriptor behind when it fails; a sentence
    that is produced is valid and carries the coordinates exactly.

    A sentence is produced whole or not at all; what is produced passes
    [rr_nmea_valid] and says the position, the time and the date exactly. *)

From S2P Require Import Prelude CString CFloat Serial.

#[local] Open Scope Z_scope.

(** ** Settings as text *)

Lemma valid_settings_cases s :
  valid_settings s = true ->
  5 <= bits s <= 8 /\ 1 <= stops s <= 2 /\ (parity s = "n"%char \/ parity s = "e"%char \/ parity s = "o"%char).
Proof.
  unfold valid_settings. rewrite negb_true_iff, !orb_false_iff, !Z.ltb_ge, !andb_false_iff, !negb_false_iff, !bool_decide_eq_true. intuition lia.
Qed.

Lemma mode_parse_print s d :
  valid_settings s = true ->
  rr_serial_mode_parse (Some (rr_serial_mode_format s)) (Some d) = Some (Settings (baud d) (bits s) (stops s) (parity s)).
Proof.
  destruct s as [r b st p]. intros (Hb & Hs & Hp)%valid_settings_cases. cbn [bits stops parity] in *.
  assert (b = 5 \/ b = 6 \/ b = 7 \/ b = 8) as Hb' by lia. assert (st = 1 \/ st = 2) as Hs' by lia.
  destruct Hb' as [-> | [-> | [-> | ->]]]; destruct Hs' as [-> | ->]; destruct Hp as [-> | [-> | ->]]; reflexivity.
Qed.

Lemma mode_parse_cases mode d s :
  rr_serial_mode_parse (Some mode) (Some d) = Some s ->
  valid_settings s = true /\ baud s = baud d /\ exists m, mode = [chr (code "0" + bits s); m; chr (code "0" + stops s)] /\ tolower m = parity s.
Proof.
  destruct mode as [| m0 [| m1 [| m2 []]]]; try discriminate. unfold rr_serial_mode_parse.
  cbv zeta. set (tolower m1) as p. destruct (_ || _) eqn:E1; [discriminate |]. destruct (_ && _ && _) eqn:E2; [discriminate |]. intros [= <-].
  apply orb_false_iff in E1 as [E1 E3]. apply orb_false_iff in E1 as [E0 E1]. rewrite Z.ltb_ge in E0, E1.
  rewrite andb_false_iff, !negb_false_iff, !bool_decide_eq_true in E3.
  change (code "5") with 53 in *. change (code "8") with 56 in *. change (code "0") with 48 in *.
  assert (1 <= code m2 - 48 <= 2) as Hm2 by (destruct E3 as [-> | ->]; split; apply Z.leb_le; reflexivity).
  split; [| split; [done |]].
  - unfold valid_settings. cbn [bits stops parity]. rewrite E2, orb_false_r. rewrite negb_true_iff, !orb_false_iff, !Z.ltb_ge. lia.
  - exists m1. cbn [bits stops parity]. rewrite !Zplus_minus, !chr_code. done.
Qed.

Lemma split_last_at a c b : c ∉ b -> split_last (a ++ c :: b) c = Some (a, b).
Proof.
  intros Hb. induction a as [| x a IH]; cbn [app split_last].
  - assert (split_last b c = None) as ->; [| by rewrite bool_decide_eq_true_2].
    clear -Hb. induction b as [| y b IH]; [done |]. apply not_elem_of_cons in Hb as [H1 H2]. cbn. rewrite (IH H2), bool_decide_eq_false_2; done.
  - by rewrite IH.
Qed.

(** Rates are printed with the digits that [strtoul] reads back. *)
Lemma parse_tail_print s d :
  valid_settings s = true -> is_Some (baud_speed (baud s)) ->
  parse_tail (print_dec (baud s) ++ B "," ++ rr_serial_mode_format s) d = Some s.
Proof.
  intros Hv [v Hr]. apply valid_settings_cases in Hv as Hc. destruct s as [r b st p], d as [r' b' st' p']. cbn [baud bits stops parity] in *.
  destruct Hc as (Hb & Hs & Hp).
  assert (b = 5 \/ b = 6 \/ b = 7 \/ b = 8) as Hb' by lia. assert (st = 1 \/ st = 2) as Hs' by lia.
  unfold baud_speed in Hr. destruct (list_find _ rates) as [[i [x y]] |] eqn:E; [| done].
  apply list_find_Some in E as (Hl & Hx & _). cbn [fst] in Hx. subst x. apply list_elem_of_lookup_2 in Hl. clear Hr Hv.
  unfold rates in Hl. rewrite !elem_of_cons in Hl. rewrite elem_of_nil in Hl.
  repeat (destruct Hl as [[= -> _] | Hl]; [destruct Hb' as [-> | [-> | [-> | ->]]]; destruct Hs' as [-> | ->]; destruct Hp as [-> | [-> | ->]]; vm_compute; reflexivity |]).
  done.
Qed.

(** ** Flags *)

(** A bit field after part of the word has been cleared. *)
Lemma land_clear a m f : Z.land (clear a m) f = Z.land a (Z.ldiff f m).
Proof.
  unfold clear. apply Z.bits_inj'. intros n Hn. rewrite Z.land_spec, Z.ldiff_spec, Z.land_spec, Z.ldiff_spec.
  by destruct (Z.testbit a n), (Z.testbit m n), (Z.testbit f n).
Qed.

(** The flags of the frame. *)
Definition frame_flags : list Z := [CSIZE; CSTOPB; PARENB; PARODD].

Lemma rate_cases b rate : baud_speed b = Some rate -> (b, rate) ∈ rates.
Proof.
  unfold baud_speed. destruct (list_find _ rates) as [[i [x y]] |] eqn:E; [| done]. intros [= <-].
  apply list_find_Some in E as (Hl & Hx & _). cbn in Hx. subst. by apply list_elem_of_lookup_2 in Hl.
Qed.

Lemma rates_ok r :
  r ∈ rates ->
  baud_speed r.1 = Some r.2 /\ bad_speed r.2 = false /\ Z.land r.2 CBAUD = r.2 /\ Forall (fun f => Z.land r.2 f = 0) frame_flags /\
  exists i y, list_find (fun q => baud_speed q.1 = Some r.2) rates = Some (i, (r.1, y)).
Proof.
  revert r. apply Forall_forall. unfold rates at 1.
  repeat (apply Forall_cons; split; [split; [reflexivity | split; [reflexivity | split; [reflexivity | split;
    [unfold frame_flags; repeat (apply Forall_cons; split; [reflexivity |]); by apply Forall_nil | eexists _, _; vm_compute; reflexivity]]]] |]).
  by apply Forall_nil.
Qed.

(** The two speeds set in turn: the speed field is the rate, the frame is kept. *)
Lemma speed_flags t rate b :
  (b, rate) ∈ rates ->
  exists t', (t ← cfsetispeed t rate; cfsetospeed t rate) = Some t' /\ cfgetospeed t' = rate /\
    Forall (fun f => Z.land (c_cflag t') f = Z.land (c_cflag t) f) frame_flags.
Proof.
  intros (_ & Hbad & Hcb & Hf & _)%rates_ok. cbn [snd] in *. unfold cfsetispeed. rewrite Hbad.
  assert (forall x f, f ∈ frame_flags -> Z.land (Z.lor (clear x CBAUD) rate) f = Z.land x f) as Hkeep.
  { intros x f Hin. rewrite Z.land_lor_distr_l, land_clear. rewrite Forall_forall in Hf. rewrite (Hf f Hin), Z.lor_0_r.
    unfold frame_flags in Hin. rewrite !elem_of_cons, elem_of_nil in Hin. by destruct Hin as [-> | [-> | [-> | [-> | []]]]]. }
  assert (forall x, Z.land (Z.lor (clear x CBAUD) rate) CBAUD = rate) as Hset.
  { intros x. rewrite Z.land_lor_distr_l, land_clear, Hcb. change (Z.ldiff CBAUD CBAUD) with 0. by rewrite Z.land_0_r. }
  destruct (rate =? 0); cbn [mbind option_bind]; unfold cfsetospeed, cfgetospeed; rewrite Hbad; cbn [c_cflag];
    (eexists; split; [done |]; cbn [c_cflag]; split; [apply Hset |]; apply Forall_forall; intros f Hin; by rewrite !Hkeep).
Qed.

(** Closed tests are evaluated, flags distributed over the word, and what was
    cleared of the line's own flags dropped. *)
Ltac flags t :=
  repeat match goal with
  | |- context [bool_decide ?P] => let v := eval vm_compute in (bool_decide P) in change (bool_decide P) with v
  | |- context [Z.to_nat ?n] => let v := eval vm_compute in (Z.to_nat n) in change (Z.to_nat n) with v
  | |- context [Zpos ?a =? Zpos ?b] => let v := eval vm_compute in (Zpos a =? Zpos b) in change (Zpos a =? Zpos b) with v
  end;
  cbn [negb nth]; repeat (rewrite !Z.land_lor_distr_l || rewrite !land_clear);
  repeat match goal with |- context [Z.land (c_cflag t) ?m] => change (Z.land (c_cflag t) m) with (Z.land (c_cflag t) 0); rewrite (Z.land_0_r (c_cflag t)) end.

(** Every flag of the frame is what the settings say, whatever the line had before. *)
Lemma frame_read s t :
  valid_settings s = true ->
  read_bits (c_cflag (frame s t)) = bits s /\
  Z.land (c_cflag (frame s t)) CSTOPB = (if stops s =? 2 then CSTOPB else 0) /\
  Z.land (c_cflag (frame s t)) PARENB = (if bool_decide (parity s = "n"%char) then 0 else PARENB) /\
  Z.land (c_cflag (frame s t)) PARODD = (if bool_decide (parity s = "o"%char) then PARODD else 0).
Proof.
  destruct s as [r b st p]. intros (Hb & Hs & Hp)%valid_settings_cases. cbn [bits stops parity] in *.
  assert (b = 5 \/ b = 6 \/ b = 7 \/ b = 8) as Hb' by lia. assert (st = 1 \/ st = 2) as Hs' by lia. clear Hb Hs.
  unfold frame, read_bits. cbn [c_cflag cfmakeraw bits stops parity]. change CS5 with 0.
  destruct Hb' as [-> | [-> | [-> | ->]]]; destruct Hs' as [-> | ->]; destruct Hp as [-> | [-> | ->]]; flags t; vm_compute; repeat split.
Qed.

(** ** Lines *)

(** What the kernel promises: attributes that were set are those of the line, and
    descriptors are opened and closed by the calls that say so. *)
Class TtyLaws (W : Type) `{!Tty W} := {
  fds : W -> gset Z;
  errno_set e w : errno (set_errno e w) = e;
  set_get fd t w w' : tcsetattr fd t w = (true, w') -> (tcgetattr fd w').1 = Some t;
  fds_errno e w : fds (set_errno e w) = fds w;
  fds_open p w :
    match open p w with (Some fd, w') => (fd ∉ fds w) /\ fds w' = {[fd]} ∪ fds w | (None, w') => fds w' = fds w end;
  fds_openpt w :
    match posix_openpt w with (Some fd, w') => (fd ∉ fds w) /\ fds w' = {[fd]} ∪ fds w | (None, w') => fds w' = fds w end;
  fds_close fd w : fds (close fd w) = fds w ∖ {[fd]};
  fds_is_chr fd w : fds (is_chr fd w).2 = fds w;
  fds_get fd w : fds (tcgetattr fd w).2 = fds w;
  fds_set fd t w : fds (tcsetattr fd t w).2 = fds w;
  fds_grantpt fd w : fds (grantpt fd w).2 = fds w;
  fds_unlockpt fd w : fds (unlockpt fd w).2 = fds w;
  fds_ptsname fd n w : fds (ptsname_r fd n w).2 = fds w;
  fds_symlink a b w : fds (symlink a b w).2 = fds w;
  fds_readlink a n w : fds (readlink a n w).2 = fds w;
  fds_unlink a w : fds (unlink a w) = fds w }.

Section lines.
Context {W : Type} `{TtyLaws W}.

(** The settings are applied exactly when they are valid and the kernel takes them. *)
Lemma apply_cases fd s w :
  exists ok, rr_serial_settings_apply fd s w = (ok, (rr_serial_settings_apply fd s w).2) /\
  fds (rr_serial_settings_apply fd s w).2 = fds w /\
  (ok = true -> exists s' rate t t' w', s = Some s' /\ valid_settings s' = true /\ (baud s', rate) ∈ rates /\
    (t ← cfsetispeed (frame s' t) rate; cfsetospeed t rate) = Some t' /\ tcsetattr fd t' w' = (true, (rr_serial_settings_apply fd s w).2)).
Proof.
  unfold rr_serial_settings_apply. destruct s as [s |]; [| by exists false].
  destruct (valid_settings s) eqn:Hv; cbn [negb]; [| by exists false].
  destruct (baud_speed (baud s)) as [rate |] eqn:Hr; [| exists false; cbn [snd]; by rewrite fds_errno].
  apply rate_cases in Hr. pose proof (fds_get fd w) as Hget. destruct (tcgetattr fd w) as [[t |] w1]; [| by exists false].
  rewrite (mode_parse_print _ _ Hv). destruct (speed_flags (frame s t) rate _ Hr) as (t' & Ht & _ & _).
  destruct (cfsetispeed _ _) as [t1 |] eqn:E1; [| done]. cbn [mbind option_bind] in Ht. rewrite Ht.
  pose proof (fds_set fd t' w1) as Hset. destruct (tcsetattr fd t' w1) as [ok w2] eqn:E2. exists ok. cbn [snd] in *.
  split; [done |]. split; [congruence |]. intros ->. exists s, rate, t, t', w1. rewrite E1. done.
Qed.

(** Settings that [rr_serial_settings_apply] accepts are the settings that
    [rr_serial_settings_read] finds on the line, whatever attributes the line had
    before: rate, word size, parity and stop bits. *)
Theorem serial_settings_read_back fd s w w' :
  rr_serial_settings_apply fd (Some s) w = (true, w') -> (rr_serial_settings_read fd true w').1 = Some s.
Proof.
  intros Ha. destruct (apply_cases fd (Some s) w) as (ok & E & _ & Hok). rewrite Ha in E, Hok. injection E as <-.
  destruct (Hok eq_refl) as (s' & rate & t & t' & w1 & [= <-] & Hv & Hr & Hspeed & Hset). cbn [snd] in Hset.
  apply set_get in Hset. unfold rr_serial_settings_read. cbn [negb]. destruct (tcgetattr fd w') as [r w2]. cbn [fst] in Hset. subst r.
  destruct (speed_flags (frame s t) rate _ Hr) as (t2 & Ht2 & Ho & Hf). rewrite Hspeed in Ht2. injection Ht2 as <-.
  destruct (rates_ok _ Hr) as (_ & _ & _ & _ & i & y & Hfind). cbn [fst snd] in Hfind. rewrite Ho, Hfind.
  unfold frame_flags in Hf. rewrite !Forall_cons in Hf. destruct Hf as (Hsize & Hstop & Hpar & Hodd & _).
  destruct (frame_read s t Hv) as (Hb & H2 & Hp & Hq). unfold read_bits in *. rewrite Hsize, Hstop, Hpar, Hodd, Hb, H2, Hp, Hq.
  destruct s as [r b st p]. apply valid_settings_cases in Hv as (_ & Hs & Hpc). cbn [baud bits stops parity fst] in *. f_equal. f_equal.
  - destruct (Z.eqb_spec st 2); [by subst | cbn; lia].
  - by destruct Hpc as [-> | [-> | ->]].
Qed.

Lemma device_open_fds path s w :
  match rr_serial_device_open path s true w with
  | (None, w') => fds w' = fds w
  | (Some (fd, t), w') =>
      (fd ∉ fds w) /\ fds w' = {[fd]} ∪ fds w /\ (0 <= fd -> fds (rr_serial_device_close fd (Some t) w') = fds w)
  end.
Proof.
  unfold rr_serial_device_open. destruct path as [path |]; [| by rewrite fds_errno].
  pose proof (fds_open path w) as Ho. destruct (open path w) as [[fd |] w1]; [| done]. destruct Ho as [Hn Ho].
  pose proof (fds_is_chr fd w1) as Hc. destruct (is_chr fd w1) as [[] w2]; cbn [snd] in Hc; [| rewrite fds_errno, fds_close; set_solver].
  pose proof (fds_get fd w2) as Hg. destruct (tcgetattr fd w2) as [[t |] w3]; cbn [snd] in Hg; [| rewrite fds_errno, fds_close; set_solver].
  destruct (apply_cases fd s w3) as (ok & -> & Ha & _). destruct ok.
  - split; [done |]. split; [set_solver |]. intros Hfd. unfold rr_serial_device_close.
    destruct (Z.ltb_spec fd 0); [lia |]. rewrite fds_close, fds_set. set_solver.
  - rewrite fds_errno, fds_close, fds_set. set_solver.
Qed.

Lemma pty_open_fds path s n w :
  match rr_serial_pty_open path s true n w with
  | (None, w') => fds w' = fds w
  | (Some (fd, hold, slave), w') =>
      (fd ∉ fds w) /\ (hold ∉ {[fd]} ∪ fds w) /\ fds w' = {[hold; fd]} ∪ fds w /\
      (0 <= fd -> 0 <= hold -> fds (rr_serial_pty_close fd hold path (Some slave) w') = fds w)
  end.
Proof.
  unfold rr_serial_pty_open. destruct path as [path |]; [| by rewrite fds_errno]. cbn [negb orb].
  destruct (n <? 2)%nat; [by rewrite fds_errno |].
  pose proof (fds_openpt w) as Ho. destruct (posix_openpt w) as [[fd |] w1]; [| done]. destruct Ho as [Hn Ho].
  assert (forall w', fds w' = fds w1 -> fds (set_errno (errno w') (close fd w')) = fds w) as Hclose
    by (intros w' E; rewrite fds_errno, fds_close, E; set_solver).
  pose proof (fds_grantpt fd w1) as Hg. destruct (grantpt fd w1) as [[] w2]; cbn [snd] in Hg; [| auto].
  pose proof (fds_unlockpt fd w2) as Hu. destruct (unlockpt fd w2) as [[] w3]; cbn [snd] in Hu; [| apply Hclose; congruence].
  pose proof (fds_ptsname fd n w3) as Hp. destruct (ptsname_r fd n w3) as [[slave |] w4]; cbn [snd] in Hp; [| apply Hclose; congruence].
  pose proof (fds_open slave w4) as Hh. destruct (open slave w4) as [[hold |] w5]; [| apply Hclose; congruence]. destruct Hh as [Hh1 Hh].
  assert (hold ∉ {[fd]} ∪ fds w) as Hhn by (by rewrite <- Ho, <- Hg, <- Hu, <- Hp).
  assert (fds w5 = {[hold; fd]} ∪ fds w) as H5 by (rewrite Hh, Hp, Hu, Hg, Ho; set_solver).
  assert (forall w', fds w' = fds w5 -> fds (set_errno (errno w') (close fd (close hold w'))) = fds w) as Hclose2
    by (intros w' E; rewrite fds_errno, !fds_close, E, H5; set_solver).
  destruct (apply_cases hold s w5) as (ok & -> & Ha & _). revert Ha. generalize (rr_serial_settings_apply hold s w5).2 as wa. intros wa Ha.
  destruct ok; cbn [snd] in Ha; [| auto].
  pose proof (fds_symlink slave path wa) as Hs. destruct (symlink slave path wa) as [[] w6]; cbn [snd] in Hs; [| apply Hclose2; congruence].
  split; [done |]. split; [done |]. split; [congruence |]. intros H0 H1. unfold rr_serial_pty_close.
  rewrite !(proj2 (Z.leb_le 0 _)) by done. pose proof (fds_readlink path (PATH_MAX - 1) (close hold (close fd w6))) as Hr.
  destruct (readlink _ _ _) as [[target |] w7]; cbn [snd] in Hr.
  - destruct (streq target slave); rewrite ?fds_unlink, Hr, !fds_close, Hs, Ha, H5; set_solver.
  - rewrite Hr, !fds_close, Hs, Ha, H5; set_solver.
Qed.

(** Opening a device or a pseudo-terminal that fails leaves the descriptors as
    they were, on every path; opening that succeeds adds the descriptors it returns
    and no other, and closing them gives back the descriptors there were. *)
Theorem serial_open_keeps_descriptors path s n w :
  match rr_serial_device_open path s true w with
  | (None, w') => fds w' = fds w
  | (Some (fd, t), w') =>
      (fd ∉ fds w) /\ fds w' = {[fd]} ∪ fds w /\ (0 <= fd -> fds (rr_serial_device_close fd (Some t) w') = fds w)
  end /\
  match rr_serial_pty_open path s true n w with
  | (None, w') => fds w' = fds w
  | (Some (fd, hold, slave), w') =>
      (fd ∉ fds w) /\ (hold ∉ {[fd]} ∪ fds w) /\ fds w' = {[hold; fd]} ∪ fds w /\
      (0 <= fd -> 0 <= hold -> fds (rr_serial_pty_close fd hold path (Some slave) w') = fds w)
  end.
Proof. split; [apply device_open_fds | apply pty_open_fds]. Qed.

End lines.

(** ** A kernel to try it on *)

Record box := Box { box_fds : gmap Z termios; box_errno : Z; box_line : termios }.

#[export] Instance box_tty : Tty box := {|
  errno := box_errno;
  set_errno e w := Box (box_fds w) e (box_line w);
  open _ w := let fd := fresh (dom (box_fds w)) in (Some fd, Box (<[fd := box_line w]> (box_fds w)) (box_errno w) (box_line w));
  close fd w := Box (delete fd (box_fds w)) (box_errno w) (box_line w);
  is_chr _ w := (true, w);
  tcgetattr _ w := (Some (box_line w), w);
  tcsetattr _ t w := (true, Box (box_fds w) (box_errno w) t);
  posix_openpt w := (None, w);
  grantpt _ w := (true, w);
  unlockpt _ w := (true, w);
  ptsname_r _ _ w := (None, w);
  symlink _ _ w := (true, w);
  readlink _ _ w := (None, w);
  unlink _ w := w |}.

#[export] Instance box_laws : TtyLaws box.
Proof.
  refine {| fds w := dom (box_fds w) |}; try done.
  - intros fd t w w' [= <-]. done.
  - intros p w. cbn [open box_tty]. split; [apply is_fresh | cbn [box_fds]; by rewrite dom_insert_L].
  - intros fd w. cbn [close box_tty box_fds]. by rewrite dom_delete_L.
Qed.

Definition box0 : box := Box ∅ 0 (Termios 1280 5 3261 35387 (replicate 32 0) 15 15).

Theorem serial_settings_read_back_witness :
  let s := Settings 115200 7 2 "e" in
  let w' := (rr_serial_settings_apply 3 (Some s) box0).2 in
  (rr_serial_settings_read 3 true w').1 = Some s.
Proof. intros s w'. apply (serial_settings_read_back 3 s box0 w'). vm_compute. reflexivity. Defined.

(** ** Specifications *)

(** [path@rate,mode] with valid settings gives the path and the settings, for
    any path that is not empty and fits, an [@] in it included. *)
Theorem serial_spec_roundtrip path s d cap :
  valid_settings s = true -> is_Some (baud_speed (baud s)) -> path <> [] -> (length path < cap)%nat ->
  rr_serial_spec_parse (Some (path ++ B "@" ++ print_dec (baud s) ++ B "," ++ rr_serial_mode_format s)) true cap (Some d) = Some (path, s).
Proof.
  intros Hv Hr Hp Hc. unfold rr_serial_spec_parse. rewrite (proj2 (Nat.eqb_neq cap 0)) by lia. cbn [negb orb].
  change (B "@" ++ ?x) with ("@"%char :: x). rewrite split_last_at.
  - destruct path as [| c path]; [done |]. rewrite (proj2 (Nat.leb_gt _ _)) by done. cbn [length Nat.eqb orb].
    rewrite parse_tail_print by done. destruct Hr as [v Hr]. cbn [mbind option_bind]. by rewrite Hr.
  - destruct Hr as [v Hr%rate_cases]. rewrite !elem_of_app. intros [Hin | [Hin | Hin]].
    + assert (Forall (fun r => "@"%char ∉ print_dec r.1) rates) as Hall by (apply (bool_decide_unpack _); vm_compute; exact I).
      rewrite Forall_forall in Hall. exact (Hall _ Hr Hin).
    + by apply list_elem_of_singleton in Hin.
    + apply valid_settings_cases in Hv as (Hb & Hs & Hpc). unfold rr_serial_mode_format in Hin. rewrite !elem_of_cons, elem_of_nil in Hin.
      assert (forall n, 0 <= n <= 8 -> "@"%char <> chr (code "0" + n)) as Hno.
      { intros n Hn E%(f_equal code). rewrite code_chr in E. change (code "@") with 64 in E. change (code "0") with 48 in E.
        rewrite Z.mod_small in E by lia. lia. }
      destruct Hin as [E | [E | [E | []]]]; [by apply (Hno (bits s)); [lia |] | | by apply (Hno (stops s)); [lia |]].
      rewrite <- E in Hpc. by destruct Hpc as [? | [? | ?]].
Qed.

Theorem serial_spec_roundtrip_witness :
  rr_serial_spec_parse (Some (B "/dev/tty@0@9600,7o2")) true 64 (Some (Settings 115200 8 1 "n")) = Some (B "/dev/tty@0", Settings 9600 7 2 "o").
Proof.
  apply (serial_spec_roundtrip (B "/dev/tty@0") (Settings 9600 7 2 "o") (Settings 115200 8 1 "n") 64);
    [reflexivity | by eexists | discriminate | apply Nat.leb_le; reflexivity].
Defined.

(** [strtoul] takes a sign, and a negative number is negated modulo 2^64 before it
    is compared with the largest rate. *)
Example serial_negative_rate :
  rr_serial_spec_parse (Some (B "/dev/ttyS0@-18446744073709542016")) true 64 (Some (Settings 115200 8 1 "n")) =
  Some (B "/dev/ttyS0", Settings 9600 8 1 "n").
Proof. vm_compute. reflexivity. Qed.

(** ** Fields of digits *)

Definition number (s : bstr) : Z := (scan_digits 0 false s).1.1.

Lemma scan_zeros n any s : scan_digits 0 any (replicate n "0"%char ++ s) = scan_digits 0 (bool_decide (0 < n)%nat || any) s.
Proof.
  revert any. induction n as [| n IH]; intros any; [done |]. cbn [replicate app scan_digits].
  change (isdigit "0") with true. change (10 * 0 + digit_val "0") with 0. rewrite IH, orb_true_r. done.
Qed.

Lemma scan_any s any : isdigit (default "0"%char (head s)) = true -> (scan_digits 0 any s).1.1 = number s.
Proof. unfold number. destruct s as [| c s]; [done |]. cbn [head default from_option id scan_digits]. by intros ->. Qed.

Lemma pad_number w n :
  0 <= n < 10 ^ Z.of_nat w -> (0 < w)%nat ->
  length (pad_left w (print_nat n)) = w /\ Forall (fun c => isdigit c = true) (pad_left w (print_nat n)) /\ number (pad_left w (print_nat n)) = n.
Proof.
  intros Hn Hw. pose proof (print_digits_width (S (Z.to_nat (Z.log2 n))) n w Hn Hw) as Hl. fold (print_nat n) in Hl.
  destruct (print_nat_spec n ltac:(lia)) as [Hd Hs]. unfold pad_left. split; [| split].
  - rewrite length_app, length_replicate. lia.
  - apply Forall_app. split; [by apply Forall_replicate | done].
  - unfold number at 1. rewrite scan_zeros, scan_any; [unfold number; by rewrite Hs |].
    destruct (print_nat_cons n ltac:(lia)) as (c & s & -> & Hc). done.
Qed.

(** ** Angles *)

(** The magnitude of a field [ddmm.mmmmmm], in units of 1e-7 degrees: a minute is
    one sixtieth of a degree. *)
Definition read_angle (width : nat) (f : bstr) : Z :=
  number (take width f) * 10000000 +
  (number (take 2 (drop width f)) * 1000000 + number (take 6 (drop (width + 3) f))) / 6.

Lemma minutes_exact a : 0 <= a < 10000000 -> (a * 60 + 5) / 10 = a * 6.
Proof. intros Ha. symmetry. apply Z.div_unique with 5; lia. Qed.

Definition field (w : nat) (n : Z) : bstr := pad_left w (print_nat n).

Lemma field_length w n : 0 <= n < 10 ^ Z.of_nat w -> (0 < w)%nat -> length (field w n) = w.
Proof. intros Hn Hw. apply (pad_number w n Hn Hw). Qed.

Lemma angle_text a width :
  - 2 ^ 31 <= a < 2 ^ 31 -> Z.abs a / 10000000 < 10 ^ Z.of_nat width -> (width <= 3)%nat ->
  nmea_angle a width 24 =
  field width (Z.abs a / 10000000) ++ field 2 (Z.abs a mod 10000000 * 6 / 1000000) ++ B "." ++ field 6 (Z.abs a mod 10000000 * 6 mod 1000000).
Proof.
  intros Ha Hd Hw. unfold nmea_angle. assert (absolute a = Z.abs a) as -> by (unfold absolute; destruct (Z.ltb_spec a 0); rewrite u32_small; lia).
  pose proof (Z.mod_pos_bound (Z.abs a) 10000000 ltac:(lia)) as Hm. set (Z.abs a mod 10000000) as m in *.
  rewrite (u64_small (m * 60)), u64_small, minutes_exact by lia. rewrite (proj2 (Z.eqb_neq (m * 6) 60000000)) by lia.
  assert (0 <= m * 6 / 1000000 < 60) by (split; [apply Z.div_pos; lia | apply Z.div_lt_upper_bound; lia]).
  pose proof (Z.mod_pos_bound (m * 6) 1000000 ltac:(lia)) as Hf. rewrite !u32_small by lia.
  unfold snprintf. apply take_ge. fold (field width (Z.abs a / 10000000)) (field 2 (m * 6 / 1000000)) (field 6 (m * 6 mod 1000000)).
  rewrite !length_app.
  assert (length (field width (Z.abs a / 10000000)) <= 10)%nat.
  { unfold field, pad_left. rewrite length_app, length_replicate.
    pose proof (print_digits_width (S (Z.to_nat (Z.log2 (Z.abs a / 10000000)))) (Z.abs a / 10000000) 3) as Hl.
    fold (print_nat (Z.abs a / 10000000)) in Hl. enough (0 <= Z.abs a / 10000000 < 10 ^ Z.of_nat 3) as Hr by (specialize (Hl Hr); lia).
    change (10 ^ Z.of_nat 3) with 1000. split; [apply Z.div_pos; lia | apply Z.div_lt_upper_bound; lia]. }
  rewrite (field_length 2 (m * 6 / 1000000)), (field_length 6 (m * 6 mod 1000000)) by lia. change (length (B ".")) with 1%nat. lia.
Qed.

Lemma angle_read a width :
  - 2 ^ 31 <= a < 2 ^ 31 -> Z.abs a / 10000000 < 10 ^ Z.of_nat width -> (0 < width <= 3)%nat ->
  length (nmea_angle a width 24) = (width + 9)%nat /\ read_angle width (nmea_angle a width 24) = Z.abs a /\
  Forall (fun c => isdigit c = true \/ c = "."%char) (nmea_angle a width 24).
Proof.
  intros Ha Hd Hw. rewrite angle_text by lia. set (m := Z.abs a mod 10000000).
  pose proof (Z.mod_pos_bound (Z.abs a) 10000000 ltac:(lia)) as Hm. fold m in Hm.
  assert (0 <= m * 6 / 1000000 < 60) by (split; [apply Z.div_pos; lia | apply Z.div_lt_upper_bound; lia]).
  pose proof (Z.mod_pos_bound (m * 6) 1000000 ltac:(lia)) as Hf.
  destruct (pad_number width (Z.abs a / 10000000)) as (L1 & D1 & N1); [split; [apply Z.div_pos; lia | done] | lia |].
  destruct (pad_number 2 (m * 6 / 1000000)) as (L2 & D2 & N2); [lia | lia |].
  destruct (pad_number 6 (m * 6 mod 1000000)) as (L3 & D3 & N3); [lia | lia |].
  fold (field width (Z.abs a / 10000000)) (field 2 (m * 6 / 1000000)) (field 6 (m * 6 mod 1000000)) in *.
  split; [rewrite !length_app, L1, L2, L3; cbn; lia |]. split.
  - unfold read_angle. rewrite take_app_length', drop_app_length', take_app_length' by done.
    replace (drop (width + 3) _) with (field 6 (m * 6 mod 1000000)).
    2: { rewrite app_assoc, app_assoc, drop_app_length'; [done |]. rewrite !length_app, L1, L2. cbn. lia. }
    rewrite (take_ge (field 6 _)) by lia. rewrite N1, N2, N3.
    pose proof (Z.div_mod (m * 6) 1000000 ltac:(lia)). replace (_ * 1000000 + _) with (m * 6) by lia.
    rewrite Z.div_mul by lia. pose proof (Z.div_mod (Z.abs a) 10000000 ltac:(lia)). unfold m. lia.
  - assert (forall s, Forall (fun c => isdigit c = true) s -> Forall (fun c => isdigit c = true \/ c = "."%char) s) as Hi
      by (intros s Hs; apply (Forall_impl _ _ _ Hs); auto).
    rewrite !Forall_app. repeat (split; [by apply Hi |]). split; [repeat constructor; by right | by apply Hi].
Qed.

(** ** Dates *)

(** The day of a date, counted from 1970-01-01: the inverse of [civil]. *)
Definition day_of (year month day : Z) : Z :=
  let y := if month <=? 2 then year - 1 else year in
  let yoe := y mod 400 in
  let doy := (153 * (if 2 <? month then month - 3 else month + 9) + 2) / 5 + day - 1 in
  y / 400 * 146097 + (yoe * 365 + yoe / 4 - yoe / 100 + doy) - 719468.

Definition leap (year : Z) : bool := (year mod 4 =? 0) && (negb (year mod 100 =? 0) || (year mod 400 =? 0)).

Definition month_days (leap : bool) (month : Z) : Z :=
  if month =? 2 then if leap then 29 else 28
  else if (month =? 4) || (month =? 6) || (month =? 9) || (month =? 11) then 30 else 31.

(** The year of an era, counted from March, and the day of that year. *)
Lemma year_of_era doe :
  0 <= doe < 146097 ->
  let yoe := (doe - doe / 1460 + doe / 36524 - doe / 146096) / 365 in
  let doy := doe - (365 * yoe + yoe / 4 - yoe / 100) in
  0 <= yoe < 400 /\ 0 <= doy <= 365 /\ (doy = 365 -> leap (yoe + 1) = true).
Proof.
  intros H yoe doy.
  enough (0 <= yoe < 400 /\ 0 <= doy <= 365 /\ (doy = 365 -> (yoe + 1) mod 4 = 0 /\ ((yoe + 1) mod 100 <> 0 \/ (yoe + 1) mod 400 = 0))) as (Hy & Hd & Hl).
  { split; [done |]. split; [done |]. intros (H4 & H100)%Hl. unfold leap. rewrite H4. destruct H100 as [H1 | ->]; [| by rewrite orb_true_r].
    by rewrite (proj2 (Z.eqb_neq _ _) H1). }
  subst yoe doy. Z.to_euclidean_division_equations; lia.
Qed.

Ltac evaluate t := let v := eval vm_compute in t in change t with v.

Ltac evaluated :=
  repeat match goal with
  | |- context [month_days true ?m] => evaluate (month_days true m)
  | |- context [month_days false ?m] => evaluate (month_days false m)
  | |- context [(153 * ?k + 2) / 5] => evaluate ((153 * k + 2) / 5)
  | |- context [?a <=? ?b] => evaluate (a <=? b)
  | |- context [if 2 <? ?a then ?b else ?c] => evaluate (if 2 <? a then b else c)
  end.

(** The month and the day of a year that starts in March. *)
Lemma month_of_year doy l :
  0 <= doy <= 365 -> (doy = 365 -> l = true) ->
  let mp := (5 * doy + 2) / 153 in
  let month := if mp <? 10 then mp + 3 else mp - 9 in
  let day := doy - (153 * mp + 2) / 5 + 1 in
  1 <= month <= 12 /\ 1 <= day <= month_days l month /\
  (153 * (if 2 <? month then month - 3 else month + 9) + 2) / 5 + day - 1 = doy /\ (month <=? 2) = (10 <=? mp).
Proof.
  intros H Hl mp month day. assert (153 * mp <= 5 * doy + 2 < 153 * mp + 153) as Hmp by (subst mp; Z.to_euclidean_division_equations; lia).
  assert (month = if mp <? 10 then mp + 3 else mp - 9) as Hm by reflexivity. clearbody month. subst day. clearbody mp.
  assert (mp ∈ [0; 1; 2; 3; 4; 5; 6; 7; 8; 9; 10; 11]) as C by (rewrite !elem_of_cons; lia).
  assert (doy = 365 \/ doy <> 365 /\ doy <= 364) as D by lia.
  rewrite !elem_of_cons, elem_of_nil in C.
  assert (month_days l month = month_days true month \/ month_days l month = month_days false month /\ doy <= 364) as Hd
    by (destruct D as [D | D]; [rewrite (Hl D); by left | destruct l; [by left | right; lia]]).
  clear Hl D. repeat (destruct C as [-> | C]; [cbn in Hm; subst month; evaluated; destruct Hd as [-> | [-> Hd]]; evaluated; lia |]). done.
Qed.

Lemma leap_era y e : leap (y + e * 400) = leap y.
Proof.
  assert (forall n k, 400 = k * n -> 0 < n -> (y + e * 400) mod n = y mod n) as Hmod
    by (intros n k -> Hn; rewrite (Z.mul_assoc e); apply Z.mod_add; lia).
  unfold leap. by rewrite (Hmod 4 100), (Hmod 100 4), (Hmod 400 1).
Qed.

(** [civil] gives the date of the day in the calendar. *)
Lemma civil_right d :
  let '(year, month, day) := civil d in
  1 <= month <= 12 /\ 1 <= day <= month_days (leap year) month /\ day_of year month day = d.
Proof.
  unfold civil. pose proof (Z.mod_pos_bound (d + 719468) 146097 ltac:(lia)) as Hdoe.
  pose proof (Z.div_mod (d + 719468) 146097 ltac:(lia)) as Hd.
  set ((d + 719468) mod 146097) as doe in *. set ((d + 719468) / 146097) as era in *. clearbody doe era.
  pose proof (year_of_era doe Hdoe) as (Hy & Hdoy & Hleap). set ((doe - doe / 1460 + doe / 36524 - doe / 146096) / 365) as yoe in *. clearbody yoe.
  set (doe - (365 * yoe + yoe / 4 - yoe / 100)) as doy in *. assert (doe = 365 * yoe + yoe / 4 - yoe / 100 + doy) as He by (unfold doy; lia). clearbody doy.
  pose proof (month_of_year doy (leap (yoe + 1)) Hdoy Hleap) as (Hm & Hday & Hback & Hmp).
  set ((5 * doy + 2) / 153) as mp in *. set (if mp <? 10 then mp + 3 else mp - 9) as month in *.
  split; [done |]. split.
  - destruct (Z.leb_spec month 2) as [H2 | H2].
    + replace (yoe + era * 400 + 1) with (yoe + 1 + era * 400) by lia. by rewrite leap_era.
    + assert (forall l, month_days l month = month_days (leap (yoe + 1)) month) as Hsame by (intros l; unfold month_days; by rewrite (proj2 (Z.eqb_neq month 2)) by lia).
      by rewrite Hsame.
  - unfold day_of.
    replace (if month <=? 2 then yoe + era * 400 + (if month <=? 2 then 1 else 0) - 1 else yoe + era * 400 + (if month <=? 2 then 1 else 0)) with (yoe + era * 400) by (destruct (month <=? 2); lia).
    rewrite Z.mod_add, Z.div_add, Z.mod_small, (Z.div_small yoe 400) by lia. lia.
Qed.

(** ** Sentences *)

Definition plain (c : ascii) : bool := isprint c && negb (bool_decide (c = "*"%char)).

Lemma checksum_range s : 0 <= checksum s < 256.
Proof.
  enough (forall n, 0 <= n < 256 -> 0 <= foldl (fun n c => Z.lxor n (code c)) n s < 256) as H by (apply H; lia).
  induction s as [| c s IH]; intros n Hn; [done |]. cbn [foldl]. apply IH.
  apply (lxor_range 8); [lia | done | apply code_range].
Qed.

Definition hex2 (n : Z) : bstr := pad_left 2 (map toupper (print_hex n)).

(** Two digits, upper case, that read back; checked for each byte. *)
Definition hex2_ok (n : Z) : bool :=
  match hex2 n with [a; b] => isxdigit a && isxdigit b && (hex_value [a; b] =? n) && plain a && plain b | _ => false end.

Lemma hex2_read n : 0 <= n < 256 -> hex2_ok n = true.
Proof.
  assert (forallb hex2_ok (seqZ 0 256) = true) as H by (vm_compute; reflexivity).
  rewrite forallb_forall in H. intros Hn. apply H, list_elem_of_In, elem_of_seqZ. lia.
Qed.

Lemma hex2_length n : 0 <= n < 256 -> length (hex2 n) = 2%nat.
Proof. intros H%hex2_read. unfold hex2_ok in H. by destruct (hex2 n) as [| a [| b []]]. Qed.

Lemma split_at_plain s t c : c ∉ s -> split_at (s ++ c :: t) c = Some (s, t).
Proof.
  induction s as [| x s IH]; cbn [app split_at]; [by rewrite bool_decide_eq_true_2 |].
  intros [H1 H2]%not_elem_of_cons. by rewrite bool_decide_eq_false_2, (IH H2).
Qed.

Lemma plain_not s c : Forall (fun c => plain c = true) s -> plain c = false -> c ∉ s.
Proof. rewrite Forall_forall. intros H Hc Hin. by rewrite (H c Hin) in Hc. Qed.

Lemma sentence_valid c text :
  Forall (fun c => plain c = true) text -> text <> [] -> c = "$"%char \/ c = "!"%char ->
  rr_nmea_valid (Some (c :: text ++ "*"%char :: hex2 (checksum text))) = true.
Proof.
  intros Hp Hne Hc. cbn [rr_nmea_valid]. replace (_ && _) with false by (by destruct Hc as [-> | ->]).
  rewrite split_at_plain by (by apply plain_not). pose proof (hex2_read _ (checksum_range text)) as Hh. unfold hex2_ok in Hh.
  destruct (hex2 (checksum text)) as [| a [| b []]]; try done. rewrite !andb_true_iff, Z.eqb_eq in Hh.
  destruct Hh as ((((Ha & Hb) & Hv) & _) & _). rewrite Ha, Hb, Hv, Z.eqb_refl, andb_true_r. cbn [negb orb]. rewrite !orb_false_r.
  destruct text; [done |]. cbn [length Nat.eqb]. apply forallb_forall. intros x Hx%list_elem_of_In. rewrite Forall_forall in Hp.
  apply Hp in Hx. by apply andb_true_iff in Hx as [? _].
Qed.

(** The fields between the commas. *)
Fixpoint fields (cur s : bstr) : list bstr :=
  match s with
  | [] => [cur]
  | c :: s => if bool_decide (c = ","%char) then cur :: fields [] s else fields (cur ++ [c]) s
  end.

Lemma fields_comma cur f s : ","%char ∉ f -> fields cur (f ++ B "," ++ s) = (cur ++ f) :: fields [] s.
Proof.
  revert cur. induction f as [| c f IH]; intros cur; cbn [app fields]; [by rewrite app_nil_r |].
  intros [H1 H2]%not_elem_of_cons. rewrite bool_decide_eq_false_2 by done. rewrite (IH _ H2), <- app_assoc. done.
Qed.

Lemma fields_last cur f : ","%char ∉ f -> fields cur f = [cur ++ f].
Proof.
  revert cur. induction f as [| c f IH]; intros cur; cbn [fields]; [by rewrite app_nil_r |].
  intros [H1 H2]%not_elem_of_cons. rewrite bool_decide_eq_false_2 by done. rewrite (IH _ H2), <- app_assoc. done.
Qed.

(** Three fields of two digits. *)
Definition read_pairs (s : bstr) : Z * Z * Z := (number (take 2 s), number (take 2 (drop 2 s)), number (take 2 (drop 4 s))).

Lemma strftime_read a b c :
  0 <= a < 100 -> 0 <= b < 100 -> 0 <= c < 100 ->
  length (strftime 16 a b c) = 6%nat /\ read_pairs (strftime 16 a b c) = (a, b, c) /\ Forall (fun c => isdigit c = true) (strftime 16 a b c).
Proof.
  intros Ha Hb Hc.
  destruct (pad_number 2 a) as (La & Da & Na); [lia.. |]. destruct (pad_number 2 b) as (Lb & Db & Nb); [lia.. |].
  destruct (pad_number 2 c) as (Lc & Dc & Nc); [lia.. |]. unfold strftime, read_pairs.
  set (pad_left 2 (print_nat a)) as fa in *. set (pad_left 2 (print_nat b)) as fb in *. set (pad_left 2 (print_nat c)) as fc in *.
  assert (length (fa ++ fb ++ fc) = 6%nat) as HL by (rewrite !length_app; lia). rewrite HL. cbn [Nat.leb]. split; [done |]. split.
  - rewrite take_app_length', drop_app_length', take_app_length' by done.
    rewrite (app_assoc fa), drop_app_length' by (rewrite length_app; lia). rewrite (take_ge fc) by lia. by rewrite Na, Nb, Nc.
  - by rewrite !Forall_app.
Qed.

(** The fields of a sentence, without its checksum. *)
Definition rmc_fields (valid : bool) (t la ns lo ew d mode : bstr) : list bstr :=
  if valid then [B "$GPRMC"; t; B "A"; la; ns; lo; ew; B "0.0"; []; d; []; []; mode]
  else [B "$GPRMC"; t; B "V"; []; []; []; []; B "0.0"; []; d; []; []; B "N"].

Fixpoint csv (l : list bstr) : bstr :=
  match l with [] => [] | [f] => f | f :: l => f ++ B "," ++ csv l end.

Lemma fields_csv l s : l <> [] -> Forall (fun f => ","%char ∉ f) l -> ","%char ∉ s -> fields [] (csv l ++ s) = removelast l ++ [List.last l [] ++ s].
Proof.
  intros Hne Hl Hs. induction Hl as [| f l Hf Hl IH]; [done |]. destruct l as [| g l].
  - cbn [csv removelast List.last app]. rewrite fields_last; [done |]. rewrite elem_of_app. tauto.
  - change (csv (f :: g :: l)) with (f ++ B "," ++ csv (g :: l)). rewrite <- !app_assoc, fields_comma, IH by done. done.
Qed.

Lemma rmc_text_csv la lo fl t d :
  rmc_text la lo fl t d =
  csv (rmc_fields (Z.testbit fl 0) t (nmea_angle la 2 24) (if la <? 0 then B "S" else B "N") (nmea_angle lo 3 24)
         (if lo <? 0 then B "W" else B "E") d (if Z.testbit fl 1 then B "M" else B "A")).
Proof. unfold rmc_text, rmc_fields. destruct (Z.testbit fl 0); reflexivity. Qed.

Definition field_char (c : ascii) : bool := isalnum c || bool_decide (c = "."%char).

Lemma field_chars f : Forall (fun c => isdigit c = true) f -> Forall (fun c => field_char c = true) f.
Proof. intros H. apply (Forall_impl _ _ _ H). intros c Hc. unfold field_char, isalnum. by rewrite Hc, orb_true_r. Qed.

Lemma field_char_plain c : field_char c = true -> plain c = true /\ c <> ","%char.
Proof.
  unfold field_char, isalnum, isalpha, isupper, islower, isdigit, plain, isprint. intros H.
  destruct (decide (c = "."%char)) as [-> |]; [done |]. rewrite (bool_decide_eq_false_2 _ n), orb_false_r in H.
  split; [| by intros ->]. destruct (decide (c = "*"%char)) as [-> | Hs]; [done |]. rewrite (bool_decide_eq_false_2 _ Hs). cbn [negb]. lia.
Qed.

(** What is written between the [$] and the checksum. *)
Lemma csv_plain l : Forall (Forall (fun c => field_char c = true)) l -> Forall (fun c => plain c = true) (csv l).
Proof.
  intros Hl. induction Hl as [| f l Hf Hl IH]; [done |].
  assert (Forall (fun c => plain c = true) f) as Hp by (apply (Forall_impl _ _ _ Hf); intros c Hc; by apply field_char_plain).
  destruct l; [done |]. change (csv (f :: l :: l0)) with (f ++ B "," ++ csv (l :: l0)). rewrite !Forall_app. split; [done |]. split; [by repeat constructor | done].
Qed.

(** The sentence of a text, as [rr_nmea_rmc] completes it. *)
Definition sentence (text : bstr) : bstr := text ++ B "*" ++ hex2 (checksum (drop 1 text)).

Lemma rmc_result la lo fl utc cap t :
  - 900000000 <= la <= 900000000 -> - 1800000000 <= lo <= 1800000000 -> Z.ldiff fl 3 = 0 -> gmtime_r utc = Some t ->
  0 <= tm_hour t < 100 -> 0 <= tm_min t < 100 -> 0 <= tm_sec t < 100 -> 0 <= tm_mday t < 100 -> 0 <= tm_mon t < 100 ->
  let s := sentence (rmc_text la lo fl (strftime 16 (tm_hour t) (tm_min t) (tm_sec t)) (strftime 16 (tm_mday t) (tm_mon t) (Z.abs (tm_year t) mod 100))) in
  (7 < length s)%nat -> rr_nmea_rmc la lo fl utc true cap = (length s, Some s) /\ (length s < cap)%nat \/
    (cap <= length s)%nat /\ (rr_nmea_rmc la lo fl utc true cap).1 = O.
Proof.
  intros Hla Hlo Hfl Ht Hh Hm Hs Hd Hmo s H7. pose proof (Z.mod_pos_bound (Z.abs (tm_year t)) 100 ltac:(lia)) as Hy.
  unfold rr_nmea_rmc. rewrite Hfl, Ht. cbn [negb orb Z.eqb].
  rewrite !(proj2 (Z.ltb_ge _ _)), !orb_false_r by lia.
  destruct (strftime_read (tm_hour t) (tm_min t) (tm_sec t)) as (L1 & _); [lia.. |].
  destruct (strftime_read (tm_mday t) (tm_mon t) (Z.abs (tm_year t) mod 100)) as (L2 & _); [lia.. |].
  rewrite L1, L2. cbn [Nat.eqb orb].
  change s with (sentence (rmc_text la lo fl (strftime 16 (tm_hour t) (tm_min t) (tm_sec t)) (strftime 16 (tm_mday t) (tm_mon t) (Z.abs (tm_year t) mod 100)))) in H7 |- *.
  clear s. revert H7. generalize (rmc_text la lo fl (strftime 16 (tm_hour t) (tm_min t) (tm_sec t)) (strftime 16 (tm_mday t) (tm_mon t) (Z.abs (tm_year t) mod 100))) as text.
  intros text. unfold sentence. fold (hex2 (checksum (drop 1 text))). pose proof (hex2_length _ (checksum_range (drop 1 text))) as H2.
  rewrite !length_app, H2. change (length (B "*")) with 1%nat. intros H7. cbn [Nat.add Nat.eqb].
  destruct (Nat.ltb_spec cap 8); [right; cbn [fst]; lia |].
  destruct (Nat.ltb_spec cap (length text + 4)); [right; cbn [fst]; lia |]. left. split; [| lia].
  unfold snprintf. rewrite (take_ge (B "*" ++ _)) by (rewrite length_app, H2; cbn; lia). done.
Qed.

Lemma gmtime_parts utc t :
  gmtime_r utc = Some t ->
  0 <= tm_hour t < 24 /\ 0 <= tm_min t < 60 /\ 0 <= tm_sec t < 60 /\
  utc mod 86400 = tm_hour t * 3600 + tm_min t * 60 + tm_sec t /\
  1 <= tm_mon t <= 12 /\ 1 <= tm_mday t <= month_days (leap (tm_year t)) (tm_mon t) /\ day_of (tm_year t) (tm_mon t) (tm_mday t) = utc / 86400.
Proof.
  unfold gmtime_r. pose proof (civil_right (utc / 86400)) as Hc. destruct (civil (utc / 86400)) as [[y m] d].
  destruct (_ || _); [done |]. intros [= <-]. cbn [tm_year tm_mon tm_mday tm_hour tm_min tm_sec].
  pose proof (Z.mod_pos_bound utc 86400 ltac:(lia)). set (utc mod 86400) as s in *. clearbody s.
  assert (0 <= s / 3600 < 24 /\ 0 <= s / 60 mod 60 < 60 /\ 0 <= s mod 60 < 60 /\ s = s / 3600 * 3600 + s / 60 mod 60 * 60 + s mod 60)
    by (Z.to_euclidean_division_equations; lia).
  tauto.
Qed.

Lemma month_days_max l m : month_days l m <= 31.
Proof. unfold month_days. repeat case_match; lia. Qed.

Lemma angle_chars s : Forall (fun c => isdigit c = true \/ c = "."%char) s -> Forall (fun c => field_char c = true) s.
Proof.
  intros H. apply (Forall_impl _ _ _ H). intros c [Hc | ->]; [| done]. unfold field_char, isalnum. by rewrite Hc, orb_true_r.
Qed.

(** A sentence of fields that fit their places is valid and has those fields. *)
Lemma sentence_fields valid t fa ns fo ew d mode :
  Forall (Forall (fun c => field_char c = true)) [t; fa; ns; fo; ew; d; mode] ->
  length t = 6%nat -> length fa = 11%nat -> length ns = 1%nat -> length fo = 12%nat -> length ew = 1%nat -> length d = 6%nat -> length mode = 1%nat ->
  let l := rmc_fields valid t fa ns fo ew d mode in
  let s := sentence (csv l) in
  (7 < length s <= 67)%nat /\ rr_nmea_valid (Some s) = true /\
  exists last, fields [] s = removelast l ++ [last].
Proof.
  intros Hf Lt La Ln Lo Le Ld Lm l s.
  set (B "GPRMC" :: tail l) as l'. assert (csv l = "$"%char :: csv l') as E by (unfold l', l; by destruct valid).
  assert (Forall (Forall (fun c => field_char c = true)) l') as Hl.
  { rewrite !Forall_cons in Hf. unfold l', l, rmc_fields. destruct valid; cbn [tail]; repeat (apply Forall_cons; split; [first [tauto | by repeat constructor] |]); by apply Forall_nil. }
  pose proof (checksum_range (csv l')) as Hc. pose proof (hex2_length _ Hc) as Hh.
  unfold s, sentence. rewrite E. change (drop 1 ("$"%char :: csv l')) with (csv l'). split; [| split].
  - rewrite !length_app, Hh. clear - Lt La Ln Lo Le Ld Lm. unfold l', l, rmc_fields.
    destruct valid; cbn [tail csv length]; rewrite !length_app, ?Lt, ?La, ?Ln, ?Lo, ?Le, ?Ld, ?Lm;
      repeat match goal with |- context [length (B ?x)] => evaluate (length (B x)) end; cbn [length]; lia.
  - apply sentence_valid; [by apply csv_plain | unfold l', l; by destruct valid | by left].
  - eexists. rewrite <- E. apply fields_csv; [unfold l; by destruct valid | |].
    + assert (forall f, Forall (fun c => field_char c = true) f -> ","%char ∉ f) as Hno by (intros f Hfc Hin; rewrite Forall_forall in Hfc; by apply Hfc in Hin).
      assert (l = B "$GPRMC" :: tail l) as El by (unfold l; by destruct valid). rewrite El.
      pose proof (Forall_inv_tail Hl) as Htl. apply Forall_cons. split; [by apply (bool_decide_unpack _) | apply (Forall_impl _ _ _ Htl Hno)].
    + rewrite elem_of_app. intros [Hin | Hin]; [revert Hin; by apply (bool_decide_unpack _) |].
      pose proof (hex2_read _ Hc) as Hr. unfold hex2_ok in Hr.
      destruct (hex2 _) as [| a [| b []]]; try done. rewrite !andb_true_iff in Hr. destruct Hr as ((((Ha & Hb) & _) & _) & _).
      rewrite !elem_of_cons, elem_of_nil in Hin. by destruct Hin as [<- | [<- | []]].
Qed.

(** C40: for a position in range and a time the C library can convert there is one
    sentence, of at most 67 characters, and [rr_nmea_rmc] writes it whole, with its
    length, exactly when the buffer holds it and its terminator, and returns 0
    otherwise.  The sentence passes [rr_nmea_valid]; its fields give the time of day
    and the calendar date of [utc]; and when the position is valid, the magnitudes
    and the hemispheres of latitude and longitude, to the last unit of 1e-7 degrees. *)
Theorem nmea_sentence_exact la lo fl utc cap t :
  - 900000000 <= la <= 900000000 -> - 1800000000 <= lo <= 1800000000 -> Z.ldiff fl 3 = 0 -> gmtime_r utc = Some t ->
  exists s, (length s <= 67)%nat /\ rr_nmea_valid (Some s) = true /\
  (rr_nmea_rmc la lo fl utc true cap = (length s, Some s) /\ (length s < cap)%nat \/
   (cap <= length s)%nat /\ (rr_nmea_rmc la lo fl utc true cap).1 = O) /\
  let f := fields [] s in
  (exists hour min sec, read_pairs (nth 1 f []) = (hour, min, sec) /\
     0 <= min < 60 /\ 0 <= sec < 60 /\ utc mod 86400 = hour * 3600 + min * 60 + sec) /\
  (exists year month day, read_pairs (nth 9 f []) = (day, month, Z.abs year mod 100) /\
     1 <= month <= 12 /\ 1 <= day <= month_days (leap year) month /\ day_of year month day = utc / 86400) /\
  if Z.testbit fl 0
  then nth 2 f [] = B "A" /\
       read_angle 2 (nth 3 f []) = Z.abs la /\ nth 4 f [] = (if la <? 0 then B "S" else B "N") /\
       read_angle 3 (nth 5 f []) = Z.abs lo /\ nth 6 f [] = (if lo <? 0 then B "W" else B "E")
  else nth 2 f [] = B "V" /\ nth 3 f [] = [] /\ nth 5 f [] = [].
Proof.
  intros Hla Hlo Hfl Ht. pose proof (gmtime_parts utc t Ht) as (Hh & Hm & Hs & Hday & Hmo & Hd & Hdate).
  pose proof (month_days_max (leap (tm_year t)) (tm_mon t)). pose proof (Z.mod_pos_bound (Z.abs (tm_year t)) 100 ltac:(lia)) as Hy.
  pose proof (rmc_result la lo fl utc cap t Hla Hlo Hfl Ht ltac:(lia) ltac:(lia) ltac:(lia) ltac:(lia) ltac:(lia)) as Hres. cbv zeta in Hres.
  destruct (strftime_read (tm_hour t) (tm_min t) (tm_sec t)) as (Lt & Rt & Dt); [lia.. |].
  destruct (strftime_read (tm_mday t) (tm_mon t) (Z.abs (tm_year t) mod 100)) as (Ld & Rd & Dd); [lia.. |].
  destruct (angle_read la 2) as (La & Ra & Da); [lia | apply Z.div_lt_upper_bound; [lia | change (10 ^ Z.of_nat 2) with 100; lia] | lia |].
  destruct (angle_read lo 3) as (Lo & Ro & Do); [lia | apply Z.div_lt_upper_bound; [lia | change (10 ^ Z.of_nat 3) with 1000; lia] | lia |].
  rewrite rmc_text_csv in Hres.
  set (strftime 16 (tm_hour t) (tm_min t) (tm_sec t)) as tt in *. set (strftime 16 (tm_mday t) (tm_mon t) (Z.abs (tm_year t) mod 100)) as dt in *.
  set (nmea_angle la 2 24) as fa in *. set (nmea_angle lo 3 24) as fo in *. clearbody tt dt fa fo.
  set (if la <? 0 then B "S" else B "N") as ns in *. set (if lo <? 0 then B "W" else B "E") as ew in *.
  set (if Z.testbit fl 1 then B "M" else B "A") as mode in *.
  destruct (sentence_fields (Z.testbit fl 0) tt fa ns fo ew dt mode) as ([H7 H67] & Hv & last & Hfields); try done.
  { repeat (apply Forall_cons; split; [first [by apply field_chars | by apply angle_chars | unfold ns, ew, mode; case_match; by repeat constructor] |]). by apply Forall_nil. }
  1-3: unfold ns, ew, mode; by case_match.
  eexists. split; [exact H67 |]. split; [exact Hv |]. split; [exact (Hres H7) |]. cbv zeta. rewrite Hfields.
  split; [| split].
  - exists (tm_hour t), (tm_min t), (tm_sec t). rewrite <- Rt. split; [unfold rmc_fields; by destruct (Z.testbit fl 0) | done].
  - exists (tm_year t), (tm_mon t), (tm_mday t). rewrite <- Rd. split; [unfold rmc_fields; by destruct (Z.testbit fl 0) | done].
  - destruct (Z.testbit fl 0); [| done]. rewrite <- Ra, <- Ro. done.
Qed.

Theorem nmea_sentence_exact_witness :
  - 900000000 <= 381234567 <= 900000000 /\
  exists s, (length s <= 67)%nat /\ rr_nmea_valid (Some s) = true /\
  (rr_nmea_rmc 381234567 (-807654321) 3 1791288000 true 128 = (length s, Some s) /\ (length s < 128)%nat \/
   (128 <= length s)%nat /\ (rr_nmea_rmc 381234567 (-807654321) 3 1791288000 true 128).1 = O) /\
  read_angle 2 (nth 3 (fields [] s) []) = 381234567.
Proof.
  split; [lia |].
  destruct (nmea_sentence_exact 381234567 (-807654321) 3 1791288000 128 (Tm 2026 10 6 12 0 0)) as (s & Hl & Hv & Hr & _ & _ & _ & Ha & _);
    [lia | lia | reflexivity | vm_compute; reflexivity |].
  exists s. split; [exact Hl |]. split; [exact Hv |]. split; [exact Hr |]. exact Ha.
Defined.
