(* ===== verification/Scheduler.v ===== *)
(** * Scheduling policies (scheduler.c)

    The wrapper of the POSIX scheduling calls: a policy, a priority and a nice value
    are checked and applied to one task, and read back.  The calls are the class
    [Sched]; its laws, which the theorems use, are what the manual pages say. *)

From S2P Require Import Prelude.

#[local] Open Scope Z_scope.

(** [ra_sched_class_t]: the enumeration, and a value outside it. *)
Inductive ra_sched_class := RA_SCHED_NORMAL | RA_SCHED_IDLE | RA_SCHED_BATCH | RA_SCHED_FIFO | RA_SCHED_RR | RA_SCHED_OTHER (n : Z).

#[export] Instance ra_sched_class_dec : EqDecision ra_sched_class.
Proof. solve_decision. Defined.

(** [ra_sched_options_t] *)
Record options := Options { policy : ra_sched_class; priority : Z; nice : Z; set_nice : bool }.

Definition SCHED_OTHER : Z := 0.
Definition SCHED_FIFO : Z := 1.
Definition SCHED_RR : Z := 2.
Definition SCHED_BATCH : Z := 3.
Definition SCHED_IDLE : Z := 5.

Definition EINVAL : Z := 22.
Definition ENOTSUP : Z := 95.

(** What the code uses of the system; a call that fails sets [errno]. *)
Class Sched (W : Type) := {
  errno : W -> Z;
  set_errno : Z -> W -> W;
  (** The bounds of the priorities of a policy, -1 when it is not known. *)
  sched_get_priority_min : Z -> Z;
  sched_get_priority_max : Z -> Z;
  sched_setscheduler : Z -> Z -> Z -> W -> bool * W;
  sched_getscheduler : Z -> W -> Z * W;
  sched_getparam : Z -> W -> option Z * W;
  setpriority : Z -> Z -> W -> bool * W;
  (** -1 is also a nice value: whether the call failed shows in [errno]. *)
  getpriority : Z -> W -> Z * W }.

Section sched.
Context {W : Type} `{!Sched W}.

Definition native_policy (p : ra_sched_class) : option Z :=
  match p with
  | RA_SCHED_NORMAL => Some SCHED_OTHER
  | RA_SCHED_IDLE => Some SCHED_IDLE
  | RA_SCHED_BATCH => Some SCHED_BATCH
  | RA_SCHED_FIFO => Some SCHED_FIFO
  | RA_SCHED_RR => Some SCHED_RR
  | RA_SCHED_OTHER _ => None
  end.

Definition ra_sched_apply (pid : Z) (o : option options) (w : W) : Z * W :=
  match o with
  | None => (-1, set_errno EINVAL w)
  | Some o =>
      if pid <? 0 then (-1, set_errno EINVAL w)
      else
        match native_policy (policy o) with
        | None => (-1, set_errno ENOTSUP w)
        | Some native =>
            let min := sched_get_priority_min native in
            let max := sched_get_priority_max native in
            if (min <? 0) || (max <? 0) then (-1, w)
            else if (priority o <? min) || (max <? priority o) || (set_nice o && ((nice o <? -20) || (19 <? nice o)))
            then (-1, set_errno EINVAL w)
            else
              match sched_setscheduler pid native (priority o) w with
              | (false, w) => (-1, w)
              | (true, w) =>
                  if set_nice o then
                    match setpriority pid (nice o) w with (true, w) => (0, w) | (false, w) => (-1, w) end
                  else (0, w)
              end
        end
  end.

Definition ra_sched_drop_rt (pid nice_value : Z) (w : W) : Z * W :=
  ra_sched_apply pid (Some (Options RA_SCHED_NORMAL 0 nice_value true)) w.

Definition class_of (native : Z) : option ra_sched_class :=
  if native =? SCHED_OTHER then Some RA_SCHED_NORMAL
  else if native =? SCHED_FIFO then Some RA_SCHED_FIFO
  else if native =? SCHED_RR then Some RA_SCHED_RR
  else if native =? SCHED_BATCH then Some RA_SCHED_BATCH
  else if native =? SCHED_IDLE then Some RA_SCHED_IDLE
  else None.

(** The result, the structure of the caller, the system. *)
Definition ra_sched_query (pid : Z) (o : option options) (w : W) : Z * option options * W :=
  match o with
  | None => (-1, o, set_errno EINVAL w)
  | Some _ =>
      if pid <? 0 then (-1, o, set_errno EINVAL w)
      else
        let '(native, w) := sched_getscheduler pid w in
        if native <? 0 then (-1, o, w)
        else
          let zero := Options RA_SCHED_NORMAL 0 0 false in
          match class_of native with
          | None => (-1, Some zero, set_errno ENOTSUP w)
          | Some p =>
              match sched_getparam pid w with
              | (None, w) => (-1, Some (Options p 0 0 false), w)
              | (Some prio, w) =>
                  let '(n, w) := getpriority pid (set_errno 0 w) in
                  if negb (errno w =? 0) then (-1, Some (Options p prio n false), w)
                  else (0, Some (Options p prio n true), w)
              end
          end
  end.

Definition ra_sched_class_name (p : ra_sched_class) : bstr :=
  match p with
  | RA_SCHED_NORMAL => B "normal"
  | RA_SCHED_BATCH => B "batch"
  | RA_SCHED_IDLE => B "idle"
  | RA_SCHED_FIFO => B "fifo"
  | RA_SCHED_RR => B "rr"
  | RA_SCHED_OTHER _ => B "unknown"
  end.

(** The options of a profile that is not the normal one. *)
Definition profile (name : bstr) : option options :=
  if streq name (B "background") then Some (Options RA_SCHED_BATCH 0 5 true)
  else if streq name (B "idle") then Some (Options RA_SCHED_IDLE 0 10 true)
  else if streq name (B "interactive") then Some (Options RA_SCHED_NORMAL 0 (-2) true)
  else if streq name (B "realtime-audio") then Some (Options RA_SCHED_RR 10 0 false)
  else None.

Definition is_normal (name : option bstr) : bool :=
  match name with None => true | Some name => streq name [] || streq name (B "normal") end.

Definition ra_sched_apply_profile (pid : Z) (name : option bstr) (w : W) : Z * W :=
  if is_normal name then
    let '(existing, w) := sched_getscheduler pid w in
    if existing <? 0 then (-1, w)
    else if existing =? SCHED_OTHER then (0, w)
    else ra_sched_apply pid (Some (Options RA_SCHED_NORMAL 0 0 false)) w
  else
    match profile (default [] name) with
    | None => (-1, set_errno EINVAL w)
    | Some o => ra_sched_apply pid (Some o) w
    end.

End sched.

(** ** What is applied is read back *)

(** The scheduling state of a task, and what the calls do to it. *)
Class SchedLaws (W : Type) `{!Sched W} := {
  task : W -> Z -> Z * Z * Z;
  errno_set e w : errno (set_errno e w) = e;
  task_errno e w : task (set_errno e w) = task w;
  task_set pid native prio w :
    match sched_setscheduler pid native prio w with
    | (true, w') => forall q, task w' q = if decide (q = pid) then (native, prio, (task w pid).2) else task w q
    | (false, w') => task w' = task w
    end;
  task_nice pid n w :
    match setpriority pid n w with
    | (true, w') => forall q, task w' q = if decide (q = pid) then ((task w pid).1, n) else task w q
    | (false, w') => task w' = task w
    end;
  get_task pid w :
    match sched_getscheduler pid w with (p, w') => (0 <= p -> p = (task w pid).1.1) /\ task w' = task w end;
  get_param pid w :
    match sched_getparam pid w with (r, w') => (forall prio, r = Some prio -> prio = (task w pid).1.2) /\ task w' = task w end;
  get_nice pid w :
    match getpriority pid w with (n, w') => (errno w' = 0 -> n = (task w pid).2) /\ task w' = task w end }.

Section laws.
Context {W : Type} `{SchedLaws W}.

(** The options were applied: of the task, the policy and the priority, and the
    nice value when it is to be set; nothing of the other tasks. *)
Definition applied (pid : Z) (o : options) (w w' : W) : Prop :=
  exists native, native_policy (policy o) = Some native /\
  forall q, task w' q = if decide (q = pid) then (native, priority o, if set_nice o then nice o else (task w pid).2) else task w q.

Lemma apply_task pid o w :
  let '(r, w') := ra_sched_apply pid o w in
  (r = 0 -> exists o', o = Some o' /\ 0 <= pid /\ applied pid o' w w') /\
  (r = 0 \/ r = -1) /\ forall q, q <> pid -> task w' q = task w q.
Proof.
  unfold ra_sched_apply. destruct o as [o |]; [| by rewrite task_errno; split; [| split; [right |]]].
  destruct (Z.ltb_spec pid 0); [by rewrite task_errno; split; [| split; [right |]] |].
  destruct (native_policy (policy o)) as [native |] eqn:Hn; [| by rewrite task_errno; split; [| split; [right |]]].
  destruct (_ || _); [by split; [| split; [right |]] |]. destruct (_ || _ || _); [by rewrite task_errno; split; [| split; [right |]] |].
  pose proof (task_set pid native (priority o) w) as Hs. destruct (sched_setscheduler _ _ _ w) as [[] w1]; [| by rewrite Hs; split; [| split; [right |]]].
  destruct (set_nice o) eqn:En.
  - pose proof (task_nice pid (nice o) w1) as Hp. destruct (setpriority _ _ w1) as [[] w2].
    + split; [intros _; exists o; split; [done |]; split; [done |]; exists native; split; [done |] | split; [by left |]].
      * intros q. rewrite Hp, (Hs pid), (Hs q), En, (decide_True _ _ (eq_refl pid)). by destruct (decide (q = pid)).
      * intros q Hq. by rewrite Hp, (Hs q), !decide_False.
    + split; [done |]. split; [by right |]. intros q Hq. by rewrite Hp, Hs, decide_False.
  - split; [intros _; exists o; split; [done |]; split; [done |]; exists native; rewrite En; done | split; [by left |]].
    intros q Hq. by rewrite Hs, decide_False.
Qed.

Lemma class_of_native p native : native_policy p = Some native -> class_of native = Some p /\ 0 <= native.
Proof. destruct p; intros [= <-]; (split; [reflexivity | apply Z.leb_le; reflexivity]). Qed.

(** What [ra_sched_apply] applied is what [ra_sched_query] reads afterwards:
    policy, priority and nice value; and no other task is touched, whether the call
    succeeds or fails. *)
Theorem sched_applied_is_queried pid o o0 w w' :
  ra_sched_apply pid (Some o) w = (0, w') ->
  (forall q, q <> pid -> task w' q = task w q) /\
  forall r o' w'', ra_sched_query pid (Some o0) w' = (r, o', w'') ->
  r = 0 -> o' = Some (Options (policy o) (priority o) (if set_nice o then nice o else (task w pid).2) true).
Proof.
  intros Ha. pose proof (apply_task pid (Some o) w) as Ht. rewrite Ha in Ht. destruct Ht as (Ht & _ & Hother). split; [exact Hother |].
  destruct (Ht eq_refl) as (o' & [= <-] & Hpid & native & Hn & Htask). clear Ht. specialize (Htask pid). rewrite decide_True in Htask by done.
  destruct (class_of_native _ _ Hn) as [Hc Hpos]. intros r o' w''. unfold ra_sched_query. rewrite (proj2 (Z.ltb_ge pid 0)) by done.
  pose proof (get_task pid w') as Hg. destruct (sched_getscheduler pid w') as [p w1]. destruct Hg as [Hg Hw1].
  destruct (Z.ltb_spec p 0); [by intros [= <-] |]. assert (p = native) as -> by (rewrite Hg by lia; by rewrite Htask). rewrite Hc.
  pose proof (get_param pid w1) as Hq. destruct (sched_getparam pid w1) as [[prio |] w2]; [| by intros [= <-]]. destruct Hq as [Hq Hw2].
  pose proof (get_nice pid (set_errno 0 w2)) as Hni. destruct (getpriority pid (set_errno 0 w2)) as [n w3]. destruct Hni as [Hni _].
  destruct (Z.eqb_spec (errno w3) 0) as [E | E]; [| by intros [= <-]]. intros [= _ <- _] _. cbn [negb].
  rewrite (Hq prio eq_refl), (Hni E), task_errno, Hw2, Hw1, Htask. done.
Qed.

(** A profile that is applied leaves the task without a real-time policy,
    [realtime-audio] apart, and touches no other task. *)
Theorem sched_profile_policy pid name w w' :
  name <> Some (B "realtime-audio") -> ra_sched_apply_profile pid name w = (0, w') ->
  (task w' pid).1.1 ∈ [SCHED_OTHER; SCHED_BATCH; SCHED_IDLE] /\ forall q, q <> pid -> task w' q = task w q.
Proof.
  intros Hname. unfold ra_sched_apply_profile.
  assert (forall o w0, policy o ∈ [RA_SCHED_NORMAL; RA_SCHED_BATCH; RA_SCHED_IDLE] -> (forall q, q <> pid -> task w0 q = task w q) ->
    ra_sched_apply pid (Some o) w0 = (0, w') ->
    (task w' pid).1.1 ∈ [SCHED_OTHER; SCHED_BATCH; SCHED_IDLE] /\ forall q, q <> pid -> task w' q = task w q) as Happ.
  { intros o w0 Ho H0 Ha. pose proof (apply_task pid (Some o) w0) as Ht. rewrite Ha in Ht. destruct Ht as (Ht & _ & Hother).
    destruct (Ht eq_refl) as (o' & [= <-] & _ & native & Hn & Htask). split.
    - rewrite Htask, decide_True by done. cbn [fst]. rewrite !elem_of_cons, elem_of_nil in Ho.
      destruct Ho as [E | [E | [E | []]]]; rewrite E in Hn; injection Hn as <-; by apply (bool_decide_unpack _).
    - intros q Hq. by rewrite Hother, H0. }
  destruct (is_normal name) eqn:En.
  - pose proof (get_task pid w) as Hg. destruct (sched_getscheduler pid w) as [p w1]. destruct Hg as [Hg Hw1].
    destruct (Z.ltb_spec p 0); [by intros [= ] |]. destruct (Z.eqb_spec p SCHED_OTHER) as [-> |].
    + intros [= <-]. split; [| by rewrite Hw1]. rewrite Hw1, <- Hg by done. by apply (bool_decide_unpack _).
    + apply Happ; [by apply (bool_decide_unpack _) | by rewrite Hw1].
  - destruct name as [name |]; [| done]. cbn [default from_option id]. unfold profile.
    repeat match goal with
    | |- context [streq name (B "realtime-audio")] => rewrite (proj2 (streq_false name (B "realtime-audio"))) by congruence
    | |- context [streq name ?x] => destruct (streq name x); [by apply Happ; [apply (bool_decide_unpack _) |] |]
    end.
    by intros [= ].
Qed.

(** An invalid request is refused before the system is called: nothing but
    [errno] changes.  The nice value is checked only when it is to be set. *)
Theorem sched_refused o pid w :
  pid < 0 \/ (exists n, policy o = RA_SCHED_OTHER n) \/ (set_nice o = true /\ (nice o < -20 \/ 19 < nice o)) ->
  (forall native, 0 <= sched_get_priority_min native <= sched_get_priority_max native) ->
  exists e, ra_sched_apply pid (Some o) w = (-1, set_errno e w) /\ (e = EINVAL \/ e = ENOTSUP).
Proof.
  intros Hbad Hmin. unfold ra_sched_apply. destruct (Z.ltb_spec pid 0); [by exists EINVAL; split; [| left] |].
  destruct (native_policy (policy o)) as [native |] eqn:En; [| by exists ENOTSUP; split; [| right]].
  destruct Hbad as [Hp | [[n Hn] | [Hs Hr]]]; [lia | by rewrite Hn in En |].
  pose proof (Hmin native). rewrite !(proj2 (Z.ltb_ge (sched_get_priority_min native) 0)), !(proj2 (Z.ltb_ge (sched_get_priority_max native) 0)) by lia.
  assert ((nice o <? -20) || (19 <? nice o) = true) as Hn by (apply orb_true_iff; rewrite !Z.ltb_lt; lia).
  rewrite Hs, Hn, orb_true_r. exists EINVAL. by split; [| left].
Qed.

End laws.

(** ** A system to try it on *)

Record box := Box { box_tasks : Z -> Z * Z * Z; box_errno : Z }.

Definition put (pid : Z) (t : Z * Z * Z) (w : box) : box :=
  Box (fun q => if decide (q = pid) then t else box_tasks w q) (box_errno w).

#[export] Instance box_sched : Sched box := {|
  errno := box_errno;
  set_errno e w := Box (box_tasks w) e;
  sched_get_priority_min native := if (native =? SCHED_FIFO) || (native =? SCHED_RR) then 1 else 0;
  sched_get_priority_max native := if (native =? SCHED_FIFO) || (native =? SCHED_RR) then 99 else 0;
  sched_setscheduler pid native prio w := (true, put pid (native, prio, (box_tasks w pid).2) w);
  sched_getscheduler pid w := ((box_tasks w pid).1.1, w);
  sched_getparam pid w := (Some (box_tasks w pid).1.2, w);
  setpriority pid n w := (true, put pid ((box_tasks w pid).1, n) w);
  getpriority pid w := ((box_tasks w pid).2, w) |}.

#[export] Instance box_laws : SchedLaws box.
Proof. refine {| task := box_tasks |}; try done; intros; cbn; try (split; [by intros; simplify_eq |]); done. Qed.

Definition box0 : box := Box (fun _ => (SCHED_RR, 10, 0)) 0.

Theorem sched_applied_is_queried_witness :
  let o := Options RA_SCHED_BATCH 0 5 true in
  let w' := (ra_sched_apply 7 (Some o) box0).2 in
  (ra_sched_query 7 (Some o) w').1.2 = Some o.
Proof.
  intros o w'. refine (proj2 (sched_applied_is_queried 7 o o box0 w' eq_refl) 0 _ (ra_sched_query 7 (Some o) w').2 _ eq_refl). reflexivity.
Defined.

Theorem sched_profile_policy_witness :
  let w' := (ra_sched_apply_profile 7 (Some (B "background")) box0).2 in (task w' 7).1.1 ∈ [SCHED_OTHER; SCHED_BATCH; SCHED_IDLE].
Proof.
  intros w'. refine (proj1 (sched_profile_policy 7 (Some (B "background")) box0 w' _ _)); [discriminate | vm_compute; reflexivity].
Defined.

Theorem sched_refused_witness :
  exists e, ra_sched_apply 7 (Some (Options RA_SCHED_NORMAL 0 20 true)) box0 = (-1, set_errno e box0) /\ (e = EINVAL \/ e = ENOTSUP).
Proof.
  apply (sched_refused (Options RA_SCHED_NORMAL 0 20 true) 7 box0).
  - right. right. split; [reflexivity | right; reflexivity].
  - intros native. cbn. destruct (_ || _); lia.
Defined.
