(* ===== verification/Subproc.v ===== *)
(** * Child processes (subproc.c)

    Descriptors are the table of a process: an open file description and the
    close-on-exec flag for each number, with the calls of POSIX on it ([fcntl] takes
    the lowest free number).  A fork gives the child a copy of the table.  Whether a
    call that needs a resource succeeds is an outcome, as for an allocation; what
    [kill], [waitpid] and [poll] return is a list of answers.  A [FILE] is the
    descriptor it was opened on.

    A child has exactly the descriptors that were asked for, whichever numbers the
    sources and the targets have; the parent keeps its own; no signal reaches a
    number that is no longer the child's; lines are read without loss. *)

From S2P Require Import Prelude Scheduler.

#[local] Open Scope Z_scope.

(** ** Descriptors *)

Record file := File { desc : N; cloexec : bool }.

#[export] Instance file_eq_dec : EqDecision file.
Proof. solve_decision. Defined.

Abbreviation table := (gmap Z file).

(** The lowest free number from [fd] on; one more look than there are descriptors. *)
Fixpoint lowest_from (fuel : nat) (t : table) (fd : Z) : Z :=
  match fuel with
  | O => fd
  | S fuel => match t !! fd with None => fd | Some _ => lowest_from fuel t (fd + 1) end
  end.

Definition lowest (t : table) (fd : Z) : Z := lowest_from (S (size t)) t fd.

(** [fcntl(source, F_DUPFD_CLOEXEC, first)] *)
Definition dupfd_cloexec (t : table) (source first : Z) (o : allocs) : option (Z * table) * allocs :=
  let '(ok, o) := alloc o in
  match t !! source with
  | Some f => if ok : bool then let fd := lowest t first in (Some (fd, <[fd := File (desc f) true]> t), o) else (None, o)
  | None => (None, o)
  end.

Definition dup2 (t : table) (source target : Z) (o : allocs) : option table * allocs :=
  let '(ok, o) := alloc o in
  match t !! source with
  | Some f => if ok : bool then (Some (if source =? target then t else <[target := File (desc f) false]> t), o) else (None, o)
  | None => (None, o)
  end.

Definition close (t : table) (fd : Z) : table := delete fd t.
Definition close_all (t : table) (fds : list Z) : table := foldl close t fds.

(** ** Waiting and signals *)

Definition ESRCH : Z := 3.
Definition EINTR : Z := 4.
Definition ECHILD : Z := 10.
Definition SIGKILL : Z := 9.
Definition SIGTERM : Z := 15.

(** What [waitpid] finds: the child's status, a child still running, an error. *)
Inductive wait_result := Waited (status : Z) | NotYet | WaitError (error : Z).

(** What the kernel does for a process: a child is made, a signal is sent to a
    number, the status of a child is collected, after which its number is free. *)
Inductive event := Forked (p : Z) | Signalled (p signal : Z) | Collected (p : Z).

(** The answers to come, [kill] with its error if any, and what has happened. *)
Record os := Os { kills : list (option Z); waits : list wait_result; log : list event }.

Definition fork (forked : option Z) (s : os) : option Z * os :=
  match forked with
  | Some p => (Some p, Os (kills s) (waits s) (log s ++ [Forked p]))
  | None => (None, s)
  end.

Definition kill (p signal : Z) (s : os) : option Z * os :=
  match kills s with
  | [] => (None, Os [] (waits s) (log s ++ [Signalled p signal]))
  | r :: rs => (r, Os rs (waits s) (log s ++ [Signalled p signal]))
  end.

Definition answered (p : Z) (r : wait_result) (l : list event) : list event :=
  match r with Waited _ => l ++ [Collected p] | _ => l end.

(** Without waiting; a child that nothing more is said about is still running. *)
Definition waitpid_nohang (p : Z) (s : os) : wait_result * os :=
  match waits s with
  | [] => (NotYet, s)
  | r :: rs => (r, Os (kills s) rs (answered p r (log s)))
  end.


(** ** Processes *)

(** [subproc_t] *)
Record subproc := Subproc { pid : Z; input : option Z; output : option Z; error_fd : Z; running : bool }.

Definition SUBPROC_INIT : subproc := Subproc (-1) None None (-1) false.

Definition subproc_reset (p : subproc) : subproc := Subproc (-1) None None (-1) false.

Definition close_file (t : table) (f : option Z) : table := match f with Some fd => close t fd | None => t end.

Definition subproc_close (p : subproc) (t : table) : subproc * table :=
  let t := close_file (close_file t (input p)) (output p) in
  let t := if 0 <=? error_fd p then close t (error_fd p) else t in
  (Subproc (pid p) None None (-1) (running p), t).

Definition INT_MAX : Z := 2147483647.
Definition SIZE_MAX : Z := 2 ^ 64 - 1.

(** The first number that no target uses, from 3 on; nothing when a mapping is bad
    or two have the same target.  [seen]: the targets before. *)
Fixpoint check_mappings (first : Z) (seen : list Z) (mappings : list (Z * Z)) : option Z :=
  match mappings with
  | [] => Some first
  | (source, target) :: mappings =>
      if (source <? 0) || (target <? 0) || (target =? INT_MAX) then None
      else if bool_decide (target ∈ seen) then None
      else check_mappings (if first <=? target then target + 1 else first) (seen ++ [target]) mappings
  end.

(** The duplicates of the sources; those made before one that fails. *)
Fixpoint duplicate (t : table) (first : Z) (mappings : list (Z * Z)) (o : allocs) : bool * list Z * table * allocs :=
  match mappings with
  | [] => (true, [], t, o)
  | (source, _) :: mappings =>
      match dupfd_cloexec t source first o with
      | (None, o) => (false, [], t, o)
      | (Some (fd, t), o) => let '(ok, fds, t, o) := duplicate t first mappings o in (ok, fd :: fds, t, o)
      end
  end.

Section spawn.
Context {W : Type} `{!Sched W}.

(** What a child does: it stops with a status, or executes with its descriptors and
    scheduling, after a diagnostic when the profile was refused. *)
Inductive child :=
  | Exit (status : Z)
  | Exec (path : bstr) (argv : list bstr) (t : table) (w : W) (diagnosed : bool).

Fixpoint map_targets (t : table) (sources : list Z) (mappings : list (Z * Z)) (o : allocs) : option table * allocs :=
  match sources, mappings with
  | source :: sources, (_, target) :: mappings =>
      match dup2 t source target o with
      | (None, o) => (None, o)
      | (Some t, o) => map_targets t sources mappings o
      end
  | _, _ => (Some t, o)
  end.

Fixpoint close_others (t : table) (targets fds : list Z) : table :=
  match fds with
  | [] => t
  | fd :: fds => close_others (if negb (bool_decide (fd ∈ targets)) && (0 <=? fd) then close t fd else t) targets fds
  end.

(** The child after the fork.  Descriptors with the flag are gone after [execv]. *)
Definition in_child (path : bstr) (argv : list bstr) (sources : list Z) (mappings : list (Z * Z)) (close_fds : list Z) (group : bool)
    (profile : option bstr) (t : table) (w : W) (o : allocs) : child :=
  let '(ok, o) := if group then alloc o else (true, o) in
  if negb ok then Exit 126
  else
    match map_targets t sources mappings o with
    | (None, _) => Exit 126
    | (Some t, o) =>
        let t := close_all t sources in
        let t := close_others t (map snd mappings) close_fds in
        let '(r, w) := ra_sched_apply_profile 0 profile w in
        Exec path argv (filter (fun f => cloexec f.2 = false) t) w (r <? 0)
    end.

(** What comes of a call: the result, the structure, the descriptors of the parent,
    and the child when there is one. *)
Record spawned := Spawned { result : bool; process : subproc; parent : table; the_child : option child }.

(** The arguments; [None] is a null pointer: of the arrays, with a count that is not
    zero. *)
Record request := Request {
  path : option bstr; argv : option (list bstr); mappings : option (list (Z * Z)); close_fds : option (list Z);
  group : bool; profile : option bstr }.

(** [forked]: the number of the child when the system can make one; [o] the outcomes in the
    parent, [oc] those in the child. *)
Definition subproc_spawn_fds_impl (forked : option Z) (p : subproc) (r : request) (t : table) (w : W) (s : os) (o oc : allocs) : spawned * os * allocs :=
  match path r, argv r, mappings r, close_fds r with
  | Some (c :: rest), Some (a :: args), Some maps, Some fds =>
      if (0 <? pid p) || (SIZE_MAX / 4 <? Z.of_nat (length maps)) then (Spawned false p t None, s, o)
      else
        match check_mappings 3 [] maps with
        | None => (Spawned false p t None, s, o)
        | Some first =>
            let '(ok, o) := if (length maps =? 0)%nat then (true, o) else alloc o in
            if negb ok then (Spawned false p t None, s, o)
            else
              let '(all, sources, t', o) := duplicate t first maps o in
              let after := close_all t' sources in
              match (if all : bool then fork forked s else (None, s)) with
              | (None, s) => (Spawned false p after None, s, o)
              | (Some n, s) =>
                  (Spawned true (Subproc n None None (-1) true) after
                     (Some (in_child (c :: rest) (a :: args) sources maps fds (group r) (profile r) t' w oc)), s, o)
              end
        end
  | _, _, _, _ => (Spawned false p t None, s, o)
  end.

Definition subproc_spawn_fds (forked : option Z) (p : subproc) (path : option bstr) (argv : option (list bstr)) (maps : option (list (Z * Z)))
    (fds : option (list Z)) (t : table) (w : W) (s : os) (o oc : allocs) : spawned * os * allocs :=
  subproc_spawn_fds_impl forked p (Request path argv maps fds false None) t w s o oc.

Definition subproc_spawn_fds_profile (forked : option Z) (p : subproc) (path : option bstr) (argv : option (list bstr)) (maps : option (list (Z * Z)))
    (fds : option (list Z)) (profile : option bstr) (t : table) (w : W) (s : os) (o oc : allocs) : spawned * os * allocs :=
  subproc_spawn_fds_impl forked p (Request path argv maps fds false profile) t w s o oc.

End spawn.

(** ** Waiting and stopping *)

(** The result, the structure, the status. *)
Definition subproc_reap (p : subproc) (s : os) : bool * subproc * option Z * os :=
  if pid p <=? 0 then (false, p, None, s)
  else
    let '(r, s) := waitpid_nohang (pid p) s in
    let gone := Subproc (-1) (input p) (output p) (error_fd p) false in
    match r with
    | NotYet => (false, p, None, s)
    | WaitError e => (false, if e =? ECHILD then gone else p, None, s)
    | Waited status => (true, gone, Some status, s)
    end.

(** The polls of [subproc_stop]: whether the child is gone. *)
Fixpoint stop_polls (n : nat) (p : Z) (s : os) : bool * os :=
  match n with
  | O => (false, s)
  | S n =>
      let '(r, s) := waitpid_nohang p s in
      match r with
      | Waited _ => (true, s)
      | WaitError e => if e =? ECHILD then (true, s) else if e =? EINTR then stop_polls n p s else (false, s)
      | NotYet => stop_polls n p s
      end
  end.

(** The blocking wait, again when a signal interrupts it; [None] while the child
    does not end. *)
Fixpoint wait_exit (ws : list wait_result) : option (wait_result * list wait_result) :=
  match ws with
  | [] => None
  | NotYet :: ws => wait_exit ws
  | WaitError e :: ws => if e =? EINTR then wait_exit ws else Some (WaitError e, ws)
  | Waited status :: ws => Some (Waited status, ws)
  end.

(** A [kill] that fails because there is no such process has done its work. *)
Definition kill_failed (r : option Z) : bool := match r with Some e => negb (e =? ESRCH) | None => false end.

Definition subproc_stop (p : subproc) (signal : Z) (t : table) (s : os) : option (bool * subproc * table * os) :=
  let '(p, t) := subproc_close p t in
  if pid p <=? 0 then Some (true, subproc_reset p, t, s)
  else
    let '(r, s) := kill (pid p) signal s in
    if kill_failed r then Some (false, p, t, s)
    else
      match stop_polls 20 (pid p) s with
      | (true, s) => Some (true, subproc_reset p, t, s)
      | (false, s) =>
          let '(r, s) := kill (pid p) SIGKILL s in
          if kill_failed r then Some (false, p, t, s)
          else
            match wait_exit (waits s) with
            | None => None
            | Some (r, ws) => Some (true, subproc_reset p, t, Os (kills s) ws (answered (pid p) r (log s)))
            end
      end.

(** ** Pipes *)

(** The two ends, with the next two descriptions. *)
Definition pipe (t : table) (nd : N) (o : allocs) : option (Z * Z * table * N) * allocs :=
  let '(ok, o) := alloc o in
  if ok : bool then
    let r := lowest t 0 in
    let t := <[r := File nd false]> t in
    let w := lowest t 0 in
    (Some (r, w, <[w := File (nd + 1) false]> t, (nd + 2)%N), o)
  else (None, o).

Definition close_open (t : table) (fd : Z) : table := if 0 <=? fd then close t fd else t.

(** [fcntl(fd, F_SETFD, FD_CLOEXEC)] on those that are open; it stops at a failure. *)
Fixpoint set_cloexec (t : table) (fds : list Z) (o : allocs) : bool * table * allocs :=
  match fds with
  | [] => (true, t, o)
  | fd :: fds =>
      if 0 <=? fd then
        let '(ok, o) := alloc o in
        match t !! fd with
        | Some f => if ok : bool then set_cloexec (<[fd := File (desc f) true]> t) fds o else (false, t, o)
        | None => (false, t, o)
        end
      else set_cloexec t fds o
  end.

Definition fdopen (fd : Z) (o : allocs) : option Z * allocs := let '(ok, o) := alloc o in (if ok : bool then Some fd else None, o).

Section pipes.
Context {W : Type} `{!Sched W}.

(** The pipes of the child, -1 for an end that is not open, and whether all are made. *)
Definition make_pipes (merge_stderr : bool) (t : table) (nd : N) (o : allocs) : bool * (Z * Z) * (Z * Z) * (Z * Z) * table * N * allocs :=
  match pipe t nd o with
  | (None, o) => (false, (-1, -1), (-1, -1), (-1, -1), t, nd, o)
  | (Some (i0, i1, t, nd), o) =>
      match pipe t nd o with
      | (None, o) => (false, (i0, i1), (-1, -1), (-1, -1), t, nd, o)
      | (Some (o0, o1, t, nd), o) =>
          if merge_stderr then (true, (i0, i1), (o0, o1), (-1, -1), t, nd, o)
          else
            match pipe t nd o with
            | (None, o) => (false, (i0, i1), (o0, o1), (-1, -1), t, nd, o)
            | (Some (e0, e1, t, nd), o) => (true, (i0, i1), (o0, o1), (e0, e1), t, nd, o)
            end
      end
  end.

(** [None]: the child does not end after a stream could not be opened. *)
Definition subproc_spawn_pipes (forked : option Z) (p : subproc) (path : option bstr) (argv : option (list bstr)) (merge_stderr group : bool)
    (t : table) (nd : N) (w : W) (s : os) (o oc : allocs) : option (spawned * os) :=
  match path, argv with
  | Some (_ :: _), Some (_ :: _) =>
      if 0 <? pid p then Some (Spawned false p t None, s)
      else
        let p := subproc_reset p in
        let '(made, (i0, i1), (o0, o1), (e0, e1), t, nd, o) := make_pipes merge_stderr t nd o in
        let all := [i0; i1; o0; o1; e0; e1] in
        if negb made then Some (Spawned false p (foldl close_open t all) None, s)
        else
          let mappings := [(i0, 0); (o1, 1); (if merge_stderr then o1 else e1, 2)] in
          let '(prepared, t, o) := set_cloexec t all o in
          let '(r, s, o) := if prepared : bool
            then subproc_spawn_fds_impl forked p (Request path argv (Some mappings) (Some all) group None) t w s o oc
            else (Spawned false p t None, s, o) in
          if negb (result r) then Some (Spawned false (process r) (foldl close_open (parent r) all) (the_child r), s)
          else
            let t := close (close (parent r) i0) o1 in
            let t := if merge_stderr then t else close t e1 in
            let '(fin, o) := fdopen i1 o in
            let '(fout, o) := fdopen o0 o in
            let opened := match fin, fout with Some _, Some _ => true | _, _ => false end in
            let p := Subproc (pid (process r)) fin fout (if merge_stderr then -1 else e0) opened in
            if opened then Some (Spawned true p t (the_child r), s)
            else
              let t := match fin with None => close_open t i1 | Some _ => t end in
              let t := match fout with None => close_open t o0 | Some _ => t end in
              match subproc_stop p SIGTERM t s with
              | None => None
              | Some (_, p, t, s) => Some (Spawned false p t (the_child r), s)
              end
  | _, _ => Some (Spawned false p t None, s)
  end.

Definition subproc_spawn (forked : option Z) (p : subproc) (path : option bstr) (argv : option (list bstr)) (merge_stderr : bool)
    (t : table) (nd : N) (w : W) (s : os) (o oc : allocs) : option (spawned * os) :=
  subproc_spawn_pipes forked p path argv merge_stderr false t nd w s o oc.

Definition subproc_spawn_group (forked : option Z) (p : subproc) (path : option bstr) (argv : option (list bstr)) (merge_stderr : bool)
    (t : table) (nd : N) (w : W) (s : os) (o oc : allocs) : option (spawned * os) :=
  subproc_spawn_pipes forked p path argv merge_stderr true t nd w s o oc.

End pipes.

(** ** Lines *)

(** What [poll] returns: nothing within the time, the events, an error. *)
Inductive poll_result := TimedOut | Ready (pollin pollhup : bool) | PollError (error : Z).

(** [poll], again when a signal interrupts it; without an answer it goes on waiting. *)
Fixpoint poll_line (answers : list poll_result) : option poll_result :=
  match answers with
  | [] => None
  | PollError e :: answers => if e =? EINTR then poll_line answers else Some (PollError e)
  | r :: _ => Some r
  end.

(** [fgets] of at most [n] characters, up to a newline, of what the child writes
    until it closes its end; and the rest. *)
Fixpoint fgets (n : nat) (stream : bstr) : bstr * bstr :=
  match n, stream with
  | S n, c :: stream =>
      if bool_decide (c = chr 10) then ([c], stream) else let '(a, b) := fgets n stream in (c :: a, b)
  | _, _ => ([], stream)
  end.

(** The line, and the rest of the stream; [None] while it waits. *)
Definition subproc_read_line (p : subproc) (line : bool) (length : nat) (answers : list poll_result) (stream : bstr) : option (option bstr * bstr) :=
  match output p with
  | Some _ =>
      if negb (running p) || negb line || (length <? 2)%nat then Some (None, stream)
      else
        match poll_line answers with
        | None => None
        | Some (Ready pollin pollhup) =>
            if negb (pollin || pollhup) then Some (None, stream)
            else
              match fgets (length - 1) stream with
              | ([], rest) => Some (None, rest)
              | (text, rest) => Some (Some text, rest)
              end
        | Some _ => Some (None, stream)
        end
  | None => Some (None, stream)
  end.

(** What is in the pipe afterwards; the outcome is that of printing and flushing. *)
Definition subproc_write_line (p : subproc) (line : option bstr) (pipe : bstr) (o : allocs) : bool * bstr * allocs :=
  match input p, line with
  | Some _, Some line =>
      if negb (running p) then (false, pipe, o)
      else let '(ok, o) := alloc o in if ok : bool then (true, pipe ++ line ++ [chr 10], o) else (false, pipe, o)
  | _, _ => (false, pipe, o)
  end.

(** ** The table *)

Lemma lowest_from_spec fuel t fd :
  fd <= lowest_from fuel t fd /\
  (t !! lowest_from fuel t fd = None \/
   lowest_from fuel t fd = fd + Z.of_nat fuel /\ forall x, fd <= x < fd + Z.of_nat fuel -> is_Some (t !! x)).
Proof.
  revert fd. induction fuel as [| fuel IH]; intros fd; cbn [lowest_from]; [split; [lia | right; split; [lia | lia]] |].
  destruct (t !! fd) as [f |] eqn:E; [| split; [lia | by left]].
  destruct (IH (fd + 1)) as [Hle [Hn | [Heq Hall]]]; (split; [lia |]); [by left | right]. split; [lia |].
  intros x Hx. destruct (Z.eq_dec x fd) as [-> |]; [by eexists | apply Hall; lia].
Qed.

(** There is a free number among the first [size t + 1]. *)
Lemma lowest_free t fd : fd <= lowest t fd /\ t !! lowest t fd = None.
Proof.
  unfold lowest. destruct (lowest_from_spec (S (size t)) t fd) as [Hle [Hn | [_ Hall]]]; [done |]. exfalso.
  assert (list_to_set (seqZ fd (Z.of_nat (S (size t)))) ⊆ dom t) as Hsub.
  { intros x Hx%elem_of_list_to_set%elem_of_seqZ. apply elem_of_dom, Hall. lia. }
  apply subseteq_size in Hsub. rewrite size_list_to_set in Hsub by apply NoDup_seqZ. rewrite length_seqZ, size_dom in Hsub. lia.
Qed.

Lemma close_all_lookup t fds x : close_all t fds !! x = if decide (x ∈ fds) then None else t !! x.
Proof.
  revert t. unfold close_all. induction fds as [| fd fds IH]; intros t; [by rewrite decide_False by apply not_elem_of_nil |].
  cbn [foldl]. rewrite IH. unfold close. destruct (decide (x ∈ fds)) as [H | H].
  - rewrite decide_True; [done | by right].
  - destruct (decide (x = fd)) as [-> | Hne]; [rewrite lookup_delete_eq, decide_True; [done | by left] |].
    rewrite lookup_delete_ne, decide_False by (done || (by apply not_elem_of_cons)). done.
Qed.

Lemma close_others_lookup t targets fds x :
  close_others t targets fds !! x = if decide (x ∈ fds /\ x ∉ targets /\ 0 <= x) then None else t !! x.
Proof.
  revert t. induction fds as [| fd fds IH]; intros t; cbn [close_others].
  { rewrite decide_False; [done |]. intros [H _]. by apply not_elem_of_nil in H. }
  rewrite IH. destruct (decide (x ∈ fds /\ x ∉ targets /\ 0 <= x)) as [H | H].
  { rewrite decide_True; [done |]. destruct H as (H & ? & ?). split; [by right | done]. }
  destruct (decide (x = fd)) as [-> | Hne].
  - unfold close. destruct (decide (fd ∈ targets)) as [Hin | Hin].
    + rewrite bool_decide_eq_true_2 by done. cbn. rewrite decide_False by tauto. done.
    + rewrite bool_decide_eq_false_2 by done. destruct (Z.leb_spec 0 fd); cbn.
      * rewrite lookup_delete_eq, decide_True; [done |]. split; [by left | done].
      * rewrite decide_False by lia. done.
  - rewrite (decide_False (P := x ∈ fd :: fds /\ x ∉ targets /\ 0 <= x)).
    + destruct (_ && _); [| done]. unfold close. by rewrite lookup_delete_ne.
    + rewrite elem_of_cons. tauto.
Qed.

(** ** The mappings *)

Lemma check_mappings_spec first seen maps last :
  check_mappings first seen maps = Some last -> NoDup seen -> Forall (fun x => x < first) seen ->
  first <= last /\ NoDup (seen ++ map snd maps) /\ Forall (fun m => 0 <= m.1 /\ 0 <= m.2 < last) maps.
Proof.
  revert first seen. induction maps as [| [source target] maps IH]; intros first seen; cbn [check_mappings map].
  - intros [= <-] Hd _. rewrite app_nil_r. split; [lia |]. split; [done | by apply Forall_nil].
  - destruct (_ || _) eqn:E; [done |]. destruct (bool_decide (target ∈ seen)) eqn:Es; [done |]. apply bool_decide_eq_false in Es.
    intros Hc Hd Hs. destruct (IH _ _ Hc) as (Hl & Hnd & Hall).
    + apply NoDup_app. split; [done |]. split; [| by apply NoDup_singleton]. intros x Hx Hx2%list_elem_of_singleton. by subst.
    + apply Forall_app. split; [| apply Forall_singleton; case_match; lia].
      apply (Forall_impl _ _ _ Hs). intros x Hx. case_match; lia.
    + rewrite <- app_assoc in Hnd. split; [case_match; lia |]. split; [done |]. apply Forall_cons. split; [| done]. cbn [fst snd].
      assert (target < last) by (destruct (Z.leb_spec first target); lia). lia.
Qed.

Lemma Forall2_with_r {A C} {P R : A -> C -> Prop} {Q : C -> Prop} {l k} :
  Forall2 P l k -> Forall Q k -> (forall x y, P x y -> Q y -> R x y) -> Forall2 R l k.
Proof.
  intros HP. induction HP as [| x y l k Hxy HP IH]; intros HQ HR; [by apply Forall2_nil |].
  apply Forall_cons in HQ as [Hy HQ]. apply Forall2_cons. auto.
Qed.

(** The duplicates are new numbers, and with the sources open they are duplicates
    of the sources. *)
Lemma duplicate_spec t first maps o ok fds t' o' :
  duplicate t first maps o = (ok, fds, t', o') ->
  NoDup fds /\ Forall (fun x => first <= x /\ t !! x = None) fds /\ (forall x, x ∉ fds -> t' !! x = t !! x) /\
  (ok = true -> Forall (fun m => is_Some (t !! m.1)) maps ->
   Forall2 (fun fd m => exists f, t !! m.1 = Some f /\ t' !! fd = Some (File (desc f) true)) fds maps).
Proof.
  revert t o ok fds t' o'. induction maps as [| [source target] maps IH]; intros t o ok fds t' o'; cbn [duplicate].
  { intros [= <- <- <- <-]. split; [by apply NoDup_nil |]. split; [by apply Forall_nil |]. split; [done |]. intros _ _. by apply Forall2_nil. }
  unfold dupfd_cloexec. destruct (alloc o) as [b o1]. destruct (t !! source) as [f |] eqn:Ef;
    [| intros [= <- <- <- <-]; split; [by apply NoDup_nil |]; split; [by apply Forall_nil |]; split; [done |]; done].
  destruct b; [| intros [= <- <- <- <-]; split; [by apply NoDup_nil |]; split; [by apply Forall_nil |]; split; [done |]; done].
  destruct (lowest_free t first) as [Hle Hfree]. set (lowest t first) as fd in *. clearbody fd.
  destruct (duplicate (<[fd := File (desc f) true]> t) first maps o1) as [[[ok2 fds2] t2] o2] eqn:Ed. intros [= <- <- <- <-].
  destruct (IH _ _ _ _ _ _ Ed) as (Hnd & Hall & Hkeep & Hok). clear IH Ed.
  assert (fd ∉ fds2) as Hnot by (intros Hin; rewrite Forall_forall in Hall; apply Hall in Hin as [_ Hin]; by rewrite lookup_insert_eq in Hin).
  split; [by apply NoDup_cons |]. split; [| split].
  - apply Forall_cons. split; [done |]. apply (Forall_impl _ _ _ Hall). intros x [Hx Hn]. split; [done |].
    destruct (decide (x = fd)) as [-> |]; [by rewrite lookup_insert_eq in Hn | by rewrite lookup_insert_ne in Hn].
  - intros x Hx. apply not_elem_of_cons in Hx as [Hx1 Hx2]. rewrite Hkeep by done. by rewrite lookup_insert_ne.
  - intros -> Hopen. apply Forall_cons in Hopen as [_ Hopen]. apply Forall2_cons. split.
    + exists f. split; [done |]. rewrite Hkeep by done. by rewrite lookup_insert_eq.
    + assert (forall x, is_Some (t !! x) -> <[fd := File (desc f) true]> t !! x = t !! x) as Hsame.
      { intros x [g Hx]. rewrite lookup_insert_ne; [done |]. intros ->. by rewrite Hx in Hfree. }
      assert (Forall (fun m => is_Some (<[fd := File (desc f) true]> t !! m.1)) maps) as Hopen2
        by (apply (Forall_impl _ _ _ Hopen); intros m Hm; by rewrite Hsame).
      apply (Forall2_with_r (Hok eq_refl Hopen2) Hopen). intros x m [g Hg] Hm. by rewrite (Hsame _ Hm) in Hg; exists g.
Qed.

Lemma close_duplicates t fds t' :
  Forall (fun x => t !! x = None) fds -> (forall x, x ∉ fds -> t' !! x = t !! x) -> close_all t' fds = t.
Proof.
  intros Hfree Hkeep. apply map_eq. intros x. rewrite close_all_lookup. destruct (decide (x ∈ fds)) as [Hx |]; [| by apply Hkeep].
  rewrite Forall_forall in Hfree. by rewrite Hfree.
Qed.

(** Applying the mappings: none clobbers a source that is still to be applied. *)
Lemma map_targets_spec first t sources maps o t2 o2 :
  Forall (fun fd => first <= fd) sources -> Forall (fun m => m.2 < first) maps -> NoDup (map snd maps) ->
  map_targets t sources maps o = (Some t2, o2) ->
  (forall fd m, (fd, m) ∈ zip sources maps -> exists f, t !! fd = Some f /\ t2 !! m.2 = Some (File (desc f) false)) /\
  (forall x, x ∉ map snd (map snd (zip sources maps)) -> t2 !! x = t !! x).
Proof.
  revert t o sources. induction maps as [| [source target] maps IH]; intros t o [| fd sources] Hs Hm Hnd; cbn [map_targets map zip].
  1-3: intros [= <- <-]; split; [intros ? ? H; by apply elem_of_nil in H | done].
  apply Forall_cons in Hs as [Hfd Hs]. apply Forall_cons in Hm as [Ht Hm]. apply NoDup_cons in Hnd as [Hnot Hnd]. cbn [snd] in *.
  unfold dup2. destruct (alloc o) as [b o1]. destruct (t !! fd) as [f |] eqn:Ef; [| done]. destruct b; [| done].
  rewrite (proj2 (Z.eqb_neq fd target)) by lia. intros Hmt. destruct (IH _ _ _ Hs Hm Hnd Hmt) as [Hmap Hkeep].
  assert (target ∉ map snd (map snd (zip sources maps))) as Hz.
  { intros Hin. apply Hnot. revert Hin. clear. revert maps. induction sources as [| a l IH]; intros [| b k]; cbn; try (by intros H%elem_of_nil).
    rewrite !elem_of_cons. intros [-> | H]; [by left | right; by apply IH]. }
  split.
  - intros fd' m [[= -> ->] | Hin]%elem_of_cons.
    + exists f. split; [done |]. cbn [snd]. rewrite Hkeep by done. by rewrite lookup_insert_eq.
    + destruct (Hmap _ _ Hin) as (g & Hg & Hg2). exists g. split; [| done]. rewrite lookup_insert_ne in Hg; [done |].
      intros <-. apply elem_of_zip_l in Hin. rewrite Forall_forall in Hs. apply Hs in Hin. lia.
  - intros x [Hx1 Hx2]%not_elem_of_cons. rewrite Hkeep by done. by rewrite lookup_insert_ne.
Qed.

(** ** What the child gets *)

(** The descriptors asked for: the targets are the sources, without the flag; what
    is to be closed is closed; the rest is inherited as [execv] leaves it. *)
Definition asked (t : table) (maps : list (Z * Z)) (fds : list Z) (x : Z) : option file :=
  match list_find (fun m => m.2 = x) maps with
  | Some (_, (source, _)) => f ← t !! source; Some (File (desc f) false)
  | None =>
      if bool_decide (x ∈ fds) && (0 <=? x) then None
      else f ← t !! x; if cloexec f then None else Some f
  end.

Section child.
Context {W : Type} `{!Sched W}.

Lemma find_target maps x :
  match list_find (fun m : Z * Z => m.2 = x) maps with
  | Some (i, m) => maps !! i = Some m /\ m.2 = x
  | None => x ∉ map snd maps
  end.
Proof.
  destruct (list_find _ maps) as [[i m] |] eqn:E.
  - by apply list_find_Some in E as (H1 & H2 & _).
  - apply list_find_None in E. rewrite Forall_forall in E. intros (m & -> & Hm)%list_elem_of_fmap. by apply (E m Hm).
Qed.

Ltac refused := intros [= <- <- <-]; (split; [reflexivity |]); (split; [split; [discriminate | by intros [? ?]] | discriminate]).

(** The descriptors at the [execv], from the duplicates in the copied table. *)
Lemma child_table first t t1 sources maps fds o t2 o2 x :
  NoDup (map snd maps) -> Forall (fun m => 0 <= m.1 /\ 0 <= m.2 < first) maps ->
  Forall (fun x => first <= x /\ t !! x = None) sources -> (forall x, x ∉ sources -> t1 !! x = t !! x) ->
  Forall2 (fun fd m => exists f, t !! m.1 = Some f /\ t1 !! fd = Some (File (desc f) true)) sources maps ->
  map_targets t1 sources maps o = (Some t2, o2) ->
  filter (fun f => cloexec f.2 = false) (close_others (close_all t2 sources) (map snd maps) fds) !! x = asked t maps fds x.
Proof.
  intros Hnd Hmaps Hnew Hkeep Hdup Hmt.
  destruct (map_targets_spec first t1 sources maps o t2 o2) as [Hset Hsame]; try done.
  { apply (Forall_impl _ _ _ Hnew). by intros y [? _]. }
  { apply (Forall_impl _ _ _ Hmaps). lia. }
  rewrite map_lookup_filter, close_others_lookup, close_all_lookup. unfold asked. pose proof (find_target maps x) as Hfind.
  destruct (list_find _ maps) as [[i [source target]] |].
  - destruct Hfind as [Hi Hx]. cbn [snd] in Hx. subst target.
    assert (x ∈ map snd maps) as Hin by (apply list_elem_of_fmap; exists (source, x); split; [done | by apply list_elem_of_lookup_2 in Hi]).
    rewrite (decide_False (P := x ∈ fds /\ _)) by tauto.
    destruct (Forall2_lookup_r _ _ _ _ _ Hdup Hi) as (fd & Hfd & f & Hf & Hf1). cbn [fst] in Hf.
    rewrite decide_False.
    + destruct (Hset fd (source, x)) as (g & Hg & Hg2); [apply (list_elem_of_lookup_2 _ i); by rewrite lookup_zip_with, Hfd, Hi |].
      cbn [snd] in Hg2. rewrite Hg2.
      rewrite Hf1 in Hg. injection Hg as <-. cbn [mbind option_bind desc]. rewrite Hf. by cbn.
    + intros Hs. rewrite Forall_forall in Hnew. rewrite Forall_forall in Hmaps. apply Hnew in Hs as [Hs _]. apply list_elem_of_lookup_2, Hmaps in Hi. cbn [snd] in Hi. lia.
  - assert (t2 !! x = t1 !! x) as Ht2.
    { apply Hsame. intros Hin. apply Hfind. apply list_elem_of_fmap in Hin as (m & -> & Hin). apply list_elem_of_fmap in Hin as ([a b] & -> & Hin).
      apply elem_of_zip_r in Hin. by apply list_elem_of_fmap_2. }
    rewrite Ht2. destruct (decide (x ∈ sources)) as [Hs | Hs].
    + rewrite Forall_forall in Hnew. destruct (Hnew x Hs) as [_ Hn]. rewrite Hn. by repeat case_match.
    + rewrite Hkeep by done. destruct (decide (x ∈ fds /\ x ∉ map snd maps /\ 0 <= x)) as [(H1 & _ & H2) | Hno].
      * rewrite bool_decide_eq_true_2 by done. rewrite (proj2 (Z.leb_le 0 x)) by done. done.
      * replace (bool_decide (x ∈ fds) && (0 <=? x)) with false; [| symmetry; apply andb_false_iff; rewrite bool_decide_eq_false, Z.leb_gt; destruct (decide (x ∈ fds)); [right | by left]; lia || (apply Znot_ge_lt; intros ?; apply Hno; split; [done | split; [done | lia]])].
        destruct (t !! x) as [f |]; [| done]. cbn [mbind option_bind]. by destruct (cloexec f) eqn:E; case_guard; cbn in *; congruence.
Qed.

(** C15: with the sources open and whatever the numbers of sources and targets, a
    child that executes has exactly the descriptors that were asked for, and the
    scheduling profile is applied before; the parent has the descriptors it had,
    whether the call succeeds or not. *)
Theorem spawned_descriptors forked p path argv maps fds grp prof t w s o oc r s' o' :
  subproc_spawn_fds_impl forked p (Request path argv (Some maps) (Some fds) grp prof) t w s o oc = (r, s', o') ->
  Forall (fun m => is_Some (t !! m.1)) maps ->
  parent r = t /\
  (result r = true <-> is_Some (the_child r)) /\
  forall path' argv' tc w' d, the_child r = Some (Exec path' argv' tc w' d) ->
    path = Some path' /\ argv = Some argv' /\ (forall x, tc !! x = asked t maps fds x) /\
    w' = (ra_sched_apply_profile 0 prof w).2.
Proof.
  unfold subproc_spawn_fds_impl. cbn [Subproc.path Subproc.argv mappings close_fds group profile].
  destruct path as [[| c path] |]; [refused | | refused].
  destruct argv as [[| a argv] |]; [refused | | refused].
  destruct (_ || _); [refused |].
  destruct (check_mappings 3 [] maps) as [first |] eqn:Ec; [| refused].
  destruct (check_mappings_spec _ _ _ _ Ec (NoDup_nil_2) (Forall_nil_2 _)) as (Hfirst & Hnd & Hmaps). cbn [app] in Hnd.
  destruct (if (length maps =? 0)%nat then _ else _) as [b o1]. destruct b; cbn [negb]; [| refused].
  destruct (duplicate t first maps o1) as [[[all sources] t1] o2] eqn:Ed. intros Hr Hopen.
  destruct (duplicate_spec _ _ _ _ _ _ _ _ Ed) as (Hnds & Hnew & Hkeep & Hdup).
  rewrite (close_duplicates t sources t1) in Hr;
    [| apply (Forall_impl _ _ _ Hnew); by intros x [_ ?] | done].
  destruct all; [| (revert Hr; refused)].
  destruct (fork forked s) as [[n |] s1]; [| (revert Hr; refused)]. injection Hr as <- <- <-. cbn [parent result the_child].
  split; [done |]. split; [split; [by eexists | done] |]. intros path' argv' tc w' d [= Hc]. revert Hc. unfold in_child.
  destruct (if grp then alloc oc else (true, oc)) as [b oc1]. destruct b; cbn [negb]; [| done].
  destruct (map_targets t1 sources maps oc1) as [[t2 |] oc2] eqn:Em; [| done].
  destruct (ra_sched_apply_profile 0 prof w) as [e w2] eqn:Es. intros [= <- <- <- <- _].
  split; [done |]. split; [done |]. split; [| done]. intros x. by apply (child_table first t t1 sources maps fds oc1 t2 oc2); auto.
Qed.

End child.

(** ** Signals *)

(** The children that were made and not collected, after the events; [None] when a
    signal went to a number that is not such a child. *)
Fixpoint replay (live : gset Z) (l : list event) : option (gset Z) :=
  match l with
  | [] => Some live
  | Forked p :: l => replay ({[p]} ∪ live) l
  | Signalled p _ :: l => if bool_decide (p ∈ live) then replay live l else None
  | Collected p :: l => replay (live ∖ {[p]}) l
  end.

Lemma replay_app live l1 l2 : replay live (l1 ++ l2) = live' ← replay live l1; replay live' l2.
Proof. revert live. induction l1 as [| [] l1 IH]; intros live; cbn [replay app]; try done. by destruct (bool_decide _). Qed.

(** The handle of a child that can be signalled. *)
Definition handled (p : subproc) (s : os) : Prop :=
  exists live, replay ∅ (log s) = Some live /\ (0 < pid p -> pid p ∈ live).

Lemma stop_polls_log n q s b s' :
  stop_polls n q s = (b, s') ->
  log s' = log s \/ (b = true /\ log s' = log s ++ [Collected q]).
Proof.
  revert s. induction n as [| n IH]; intros s; cbn [stop_polls]; [intros [= <- <-]; by left |].
  unfold waitpid_nohang. destruct (waits s) as [| r rs]; [apply IH |]. destruct r as [status | | e]; cbn [answered].
  - intros [= <- <-]. by right.
  - intros H%IH. exact H.
  - destruct (e =? ECHILD); [intros [= <- <-]; by left |]. destruct (e =? EINTR); [intros H%IH; exact H | intros [= <- <-]; by left].
Qed.

Lemma kill_log q signal s r s' : kill q signal s = (r, s') -> log s' = log s ++ [Signalled q signal].
Proof. unfold kill. destruct (kills s); by intros [= <- <-]. Qed.

Lemma signal_live live q signal s r s' :
  replay ∅ (log s) = Some live -> q ∈ live -> kill q signal s = (r, s') -> replay ∅ (log s') = Some live.
Proof. intros H Hq Hk%kill_log. rewrite Hk, replay_app, H. cbn. by rewrite bool_decide_eq_true_2. Qed.

Lemma collected_live live q l : replay ∅ l = Some live -> exists live', replay ∅ (l ++ [Collected q]) = Some live'.
Proof. intros H. rewrite replay_app, H. by eexists. Qed.

Lemma stop_handled p signal t s b p' t' s' : subproc_stop p signal t s = Some (b, p', t', s') -> handled p s -> handled p' s'.
Proof.
  unfold subproc_stop. destruct (subproc_close p t) as [p1 t1] eqn:Ec. intros Hstop (live & Hl & Hp).
  assert (pid p1 = pid p) as Hpid by (unfold subproc_close in Ec; by injection Ec as <- _). revert Hstop. rewrite Hpid.
  destruct (Z.leb_spec (pid p) 0) as [H0 | H0]; [intros [= _ <- _ <-]; by exists live |]. specialize (Hp H0).
  destruct (kill (pid p) signal s) as [r s1] eqn:Ek. pose proof (signal_live _ _ _ _ _ _ Hl Hp Ek) as H1.
  destruct (kill_failed r); [intros [= _ <- _ <-]; exists live; by rewrite Hpid |].
  destruct (stop_polls 20 (pid p) s1) as [b2 s2] eqn:Ep.
  destruct (stop_polls_log _ _ _ _ _ Ep) as [Hlog | [-> Hlog]].
  - rewrite <- Hlog in H1. destruct b2; [intros [= _ <- _ <-]; by exists live |].
    destruct (kill (pid p) SIGKILL s2) as [r3 s3] eqn:Ek3. pose proof (signal_live _ _ _ _ _ _ H1 Hp Ek3) as H3.
    destruct (kill_failed r3); [intros [= _ <- _ <-]; exists live; by rewrite Hpid |].
    destruct (wait_exit (waits s3)) as [[r4 ws] |]; [| done]. intros [= _ <- _ <-]. unfold handled. cbn [log].
    destruct r4; cbn [answered]; [| by exists live | by exists live].
    destruct (collected_live _ (pid p) _ H3) as [live' H']. by exists live'.
  - intros [= _ <- _ <-]. destruct (collected_live _ (pid p) _ H1) as [live' H']. exists live'. by rewrite Hlog.
Qed.

Lemma reap_handled p s b p' st s' : subproc_reap p s = (b, p', st, s') -> handled p s -> handled p' s'.
Proof.
  unfold subproc_reap, waitpid_nohang. intros Hr (live & Hl & Hp). revert Hr.
  destruct (Z.leb_spec (pid p) 0) as [H0 | H0]; [intros [= _ <- _ <-]; by exists live |].
  destruct (waits s) as [| [status | | e] rs]; cbn [answered].
  - intros [= _ <- _ <-]. by exists live.
  - intros [= _ <- _ <-]. destruct (collected_live _ (pid p) _ Hl) as [live' H']. by exists live'.
  - intros [= _ <- _ <-]. by exists live.
  - intros [= _ <- _ <-]. exists live. split; [done |]. by destruct (e =? ECHILD).
Qed.

Section signals.
Context {W : Type} `{!Sched W}.

(** What a call leaves: no child and the structure as it was, or a child whose
    number the structure has; the parent's descriptors as they were. *)
Lemma spawn_impl_cases forked p r t (w : W) s o oc res s' o' :
  subproc_spawn_fds_impl forked p r t w s o oc = (res, s', o') ->
  parent res = t /\
  ((result res = false /\ process res = p /\ s' = s) \/
   (result res = true /\ exists n, forked = Some n /\ process res = Subproc n None None (-1) true /\ log s' = log s ++ [Forked n])).
Proof.
  unfold subproc_spawn_fds_impl. destruct (path r) as [[| c path] |]; try (intros [= <- <- <-]; split; [done | by left]).
  destruct (argv r) as [[| a argv] |]; try (intros [= <- <- <-]; split; [done | by left]).
  destruct (mappings r) as [maps |], (close_fds r) as [fds |]; try (intros [= <- <- <-]; split; [done | by left]).
  destruct (_ || _); [intros [= <- <- <-]; split; [done | by left] |].
  destruct (check_mappings 3 [] maps) as [first |]; [| intros [= <- <- <-]; split; [done | by left]].
  destruct (if (length maps =? 0)%nat then _ else _) as [b o1]. destruct b; cbn [negb]; [| intros [= <- <- <-]; split; [done | by left]].
  destruct (duplicate t first maps o1) as [[[all sources] t1] o2] eqn:Ed.
  destruct (duplicate_spec _ _ _ _ _ _ _ _ Ed) as (_ & Hnew & Hkeep & _).
  rewrite (close_duplicates t sources t1); [| apply (Forall_impl _ _ _ Hnew); by intros x [_ ?] | done].
  destruct all; [| intros [= <- <- <-]; split; [done | by left]].
  destruct forked as [n |]; cbn [fork]; intros [= <- <- <-]; (split; [done |]); [right | by left]. split; [done |]. by exists n.
Qed.

Lemma spawn_impl_handled forked p r t (w : W) s o oc res s' o' :
  subproc_spawn_fds_impl forked p r t w s o oc = (res, s', o') -> handled p s -> handled (process res) s'.
Proof.
  intros Hs (live & Hl & Hp). destruct (spawn_impl_cases _ _ _ _ _ _ _ _ _ _ _ Hs) as (_ & [(_ & -> & ->) | (_ & n & _ & -> & Hlog)]); [by exists live |].
  exists ({[n]} ∪ live). rewrite Hlog, replay_app, Hl. split; [done | intros _; cbn [pid]; set_solver].
Qed.

Lemma spawn_pipes_handled forked p path argv m g t nd (w : W) s o oc res s' :
  subproc_spawn_pipes forked p path argv m g t nd w s o oc = Some (res, s') -> handled p s -> handled (process res) s'.
Proof.
  unfold subproc_spawn_pipes. intros Hs H. revert Hs.
  destruct path as [[| c path] |]; try (intros [= <- <-]; exact H). destruct argv as [[| a argv] |]; try (intros [= <- <-]; exact H).
  destruct (0 <? pid p); [intros [= <- <-]; exact H |].
  assert (handled (subproc_reset p) s) as Hreset by (destruct H as (live & Hl & _); by exists live).
  destruct (make_pipes m t nd o) as [[[[[[made [i0 i1]] [o0 o1]] [e0 e1]] t1] nd1] oa]. destruct made; cbn [negb]; [| intros [= <- <-]; exact Hreset].
  destruct (set_cloexec t1 _ oa) as [[prepared t2] ob].
  destruct (if prepared : bool then _ else _) as [[r s1] od] eqn:Er.
  assert (handled (process r) s1) as Hr.
  { destruct prepared; [by apply (spawn_impl_handled _ _ _ _ _ _ _ _ _ _ _ Er) | injection Er as <- <- <-; exact Hreset]. }
  clear Er. destruct (result r); cbn [negb]; [| intros [= <- <-]; exact Hr].
  destruct (fdopen i1 od) as [fin oe]. destruct (fdopen o0 oe) as [fout og].
  assert (forall a b c d, handled (Subproc (pid (process r)) a b c d) s1) as Hp by (intros; destruct Hr as (live & ? & ?); by exists live).
  destruct fin as [fin |], fout as [fout |]; cbn [negb]; [intros [= <- <-]; apply Hp | | |];
    (destruct (subproc_stop _ SIGTERM _ s1) as [[[[b p'] t'] s2] |] eqn:Est; [| done]; intros [= <- <-]; cbn [process];
     eapply stop_handled; [exact Est | apply Hp]).
Qed.

(** The calls on a handle, with any arguments and any answers of the system. *)
Inductive call : subproc * os -> subproc * os -> Prop :=
  | call_spawn forked p r t (w : W) s o oc res s' o' :
      subproc_spawn_fds_impl forked p r t w s o oc = (res, s', o') -> call (p, s) (process res, s')
  | call_pipes forked p path argv m g t nd (w : W) s o oc res s' :
      subproc_spawn_pipes forked p path argv m g t nd w s o oc = Some (res, s') -> call (p, s) (process res, s')
  | call_reap p s b p' st s' : subproc_reap p s = (b, p', st, s') -> call (p, s) (p', s')
  | call_stop p signal t s b p' t' s' : subproc_stop p signal t s = Some (b, p', t', s') -> call (p, s) (p', s')
  | call_close p t s : call (p, s) ((subproc_close p t).1, s).

(** C16: in every history of a handle, from [SUBPROC_INIT], through spawning, reaping
    and stopping in any order with any answers of the system, every signal goes to a
    child that was made and whose status has not been collected: never to a number
    the system may have given to another process. *)
Theorem signals_reach_own_child ks ws p s :
  rtc call (SUBPROC_INIT, Os ks ws []) (p, s) ->
  exists live, replay ∅ (log s) = Some live /\ (0 < pid p -> pid p ∈ live).
Proof.
  intros Hrtc. enough (forall a b, rtc call a b -> handled a.1 a.2 -> handled b.1 b.2) as Hinv by (apply (Hinv _ _ Hrtc); by exists ∅).
  intros a b H. induction H as [a | a b c Hab _ IH]; [done |]. intros Ha. apply IH. clear IH.
  destruct Hab; cbn [fst snd] in *; eauto using spawn_impl_handled, spawn_pipes_handled, reap_handled, stop_handled.
Qed.

End signals.

(** ** Pipes *)

(** [t'] is [t] but for the numbers of [l] that are not negative, which [t] does
    not have. *)
Definition extends (l : list Z) (t t' : table) : Prop :=
  (forall x, x ∈ l -> 0 <= x -> t !! x = None) /\ forall x, x ∉ l \/ x < 0 -> t' !! x = t !! x.

Lemma close_open_lookup t l x : foldl close_open t l !! x = if decide (x ∈ l /\ 0 <= x) then None else t !! x.
Proof.
  revert t. induction l as [| y l IH]; intros t; cbn [foldl]; [by rewrite decide_False by (intros [H _]; by apply elem_of_nil in H) |].
  rewrite IH. unfold close_open, close. destruct (decide (x ∈ l /\ 0 <= x)) as [[H1 H2] | H].
  { rewrite decide_True; [done |]. split; [by right | done]. }
  destruct (Z.leb_spec 0 y).
  - destruct (decide (x = y)) as [-> | Hne]; [rewrite lookup_delete_eq, decide_True; [done | split; [by left | done]] |].
    rewrite lookup_delete_ne, decide_False; [done | rewrite elem_of_cons; tauto | done].
  - rewrite decide_False; [done |]. rewrite elem_of_cons. intros [[-> | ?] ?]; [lia | tauto].
Qed.

Lemma extends_closed l t t' : extends l t t' -> foldl close_open t' l = t.
Proof.
  intros [Hnew Hkeep]. apply map_eq. intros x. rewrite close_open_lookup. destruct (decide (x ∈ l /\ 0 <= x)) as [[H1 H2] | H]; [by rewrite Hnew |].
  apply Hkeep. destruct (decide (x ∈ l)); [right; lia || (apply Z.nle_gt; tauto) | by left].
Qed.

Lemma pipe_extends l t t1 nd o r w t2 nd2 o2 :
  extends l t t1 -> pipe t1 nd o = (Some (r, w, t2, nd2), o2) ->
  0 <= r /\ 0 <= w /\ r <> w /\ t1 !! r = None /\ t1 !! w = None /\ is_Some (t2 !! r) /\ is_Some (t2 !! w) /\
  (forall x, is_Some (t1 !! x) -> t2 !! x = t1 !! x) /\ extends (l ++ [r; w]) t t2.
Proof.
  intros [Hnew Hkeep]. unfold pipe. destruct (alloc o) as [b o1]. destruct b; [| done]. intros [= <- <- <- <- <-].
  destruct (lowest_free t1 0) as [Hr Hfr]. set (lowest t1 0) as r in *. clearbody r.
  set (File nd false) as f1. destruct (lowest_free (<[r:=f1]> t1) 0) as [Hw Hfw]. set (lowest (<[r:=f1]> t1) 0) as w in *. clearbody w.
  assert (r <> w) as Hne by (intros ->; by rewrite lookup_insert_eq in Hfw). rewrite lookup_insert_ne in Hfw by done.
  assert (forall x, t1 !! x = None -> 0 <= x -> t !! x = None) as Hold.
  { intros x Hx Hpos. destruct (decide (x ∈ l)); [by apply Hnew | by rewrite <- Hkeep; [| left]]. }
  split; [done |]. split; [done |]. split; [done |]. split; [done |]. split; [done |].
  split; [rewrite lookup_insert_ne, lookup_insert_eq by done; by eexists |]. split; [rewrite lookup_insert_eq; by eexists |].
  split; [intros x [f Hx]; rewrite !lookup_insert_ne; [done | congruence..] |]. split.
  - intros x Hx Hpos. apply elem_of_app in Hx as [Hx | Hx]; [by apply Hnew |]. rewrite !elem_of_cons, elem_of_nil in Hx.
    destruct Hx as [-> | [-> | []]]; by apply Hold.
  - intros x Hx. rewrite !lookup_insert_ne.
    + apply Hkeep. destruct Hx as [Hx | Hx]; [left; intros H; apply Hx, elem_of_app; by left | by right].
    + intros <-. destruct Hx as [Hx | Hx]; [apply Hx, elem_of_app; right; by left | lia].
    + intros <-. destruct Hx as [Hx | Hx]; [apply Hx, elem_of_app; right; right; by left | lia].
Qed.

Lemma extends_more l l' t t' : extends l t t' -> (forall x, x ∈ l -> x ∈ l') -> (forall x, x ∈ l' -> 0 <= x -> x ∈ l) -> extends l' t t'.
Proof.
  intros [Hnew Hkeep] H1 H2. split; [intros x Hx Hpos; apply Hnew; [by apply H2 | done] |].
  intros x [Hx | Hx]; apply Hkeep; [left; intros H; by apply Hx, H1 | by right].
Qed.

Lemma set_cloexec_extends l t t1 fds o ok t2 o2 :
  extends l t t1 -> (forall x, x ∈ fds -> x ∈ l) -> set_cloexec t1 fds o = (ok, t2, o2) -> extends l t t2.
Proof.
  revert t1 o. induction fds as [| fd fds IH]; intros t1 o Hl Hin; cbn [set_cloexec]; [by intros [= <- <- <-] |].
  assert (forall x, x ∈ fds -> x ∈ l) as Hin' by (intros x Hx; apply Hin; by right).
  destruct (Z.leb_spec 0 fd) as [Hfd |]; [| intros Hs; by apply (IH t1 o)]. destruct (alloc o) as [b o1].
  destruct (t1 !! fd) as [f |]; [| by intros [= <- <- <-]]. destruct b; [| by intros [= <- <- <-]].
  intros Hs. apply (IH _ _) in Hs; try done. destruct Hl as [Hnew Hkeep]. split; [done |].
  intros x Hx. rewrite lookup_insert_ne; [by apply Hkeep |]. intros <-. destruct Hx as [Hx | Hx]; [apply Hx, Hin; by left | lia].
Qed.

Lemma make_pipes_extends m t nd o made i0 i1 o0 o1 e0 e1 t1 nd1 oa :
  make_pipes m t nd o = (made, (i0, i1), (o0, o1), (e0, e1), t1, nd1, oa) ->
  extends [i0; i1; o0; o1; e0; e1] t t1 /\
  (made = true -> NoDup [i0; i1; o0; o1] /\ Forall (fun x => 0 <= x) [i0; i1; o0; o1] /\
    if m then e0 = -1 /\ e1 = -1 else NoDup [i0; i1; o0; o1; e0; e1] /\ 0 <= e0 /\ 0 <= e1).
Proof.
  assert (extends [] t t) as H0 by (split; [intros x Hx; by apply elem_of_nil in Hx | done]).
  unfold make_pipes. destruct (pipe t nd o) as [[[[[a b] ta] na] |] oi] eqn:E1.
  2: { intros [= <- <- <- <- <- <- <- <- <- <-]. split; [| done]. apply (extends_more []); [done | intros x Hx; by apply elem_of_nil in Hx |].
       intros x Hx. rewrite !elem_of_cons, elem_of_nil in Hx. lia. }
  destruct (pipe_extends _ _ _ _ _ _ _ _ _ _ H0 E1) as (Ha & Hb & Hab & _ & _ & Sa & Sb & _ & Ea). cbn [app] in Ea.
  destruct (pipe ta na oi) as [[[[[c d] tb] nb] |] oo] eqn:E2.
  2: { intros [= <- <- <- <- <- <- <- <- <- <-]. split; [| done]. apply (extends_more [a; b]); [done | intros x; rewrite !elem_of_cons, elem_of_nil; tauto |].
       intros x. rewrite !elem_of_cons, elem_of_nil. intros Hx Hpos. lia. }
  destruct (pipe_extends _ _ _ _ _ _ _ _ _ _ Ea E2) as (Hc & Hd & Hcd & Nc & Nd & Sc & Sd & K2 & Eb). cbn [app] in Eb.
  assert (forall x y, is_Some (ta !! x) -> ta !! y = None -> x <> y) as Hdiff by (intros x y [f Hx] Hy ->; by rewrite Hx in Hy).
  assert (NoDup [a; b; c; d]) as Hnd4.
  { pose proof (Hdiff a c Sa Nc). pose proof (Hdiff a d Sa Nd). pose proof (Hdiff b c Sb Nc). pose proof (Hdiff b d Sb Nd). clear Hdiff.
    repeat (apply NoDup_cons; split; [rewrite ?elem_of_cons, elem_of_nil; tauto |]). by apply NoDup_nil. }
  assert (Forall (fun x => 0 <= x) [a; b; c; d]) as Hpos4 by (repeat (apply Forall_cons; split; [done |]); by apply Forall_nil).
  destruct m.
  { intros [= <- <- <- <- <- <- <- <- <- <-]. split; [| done]. apply (extends_more [a; b; c; d]); [done | intros x; rewrite !elem_of_cons, elem_of_nil; tauto |].
    intros x. rewrite !elem_of_cons, elem_of_nil. intros Hx Hpos. lia. }
  destruct (pipe tb nb oo) as [[[[[e f] tc] nc] |] oe] eqn:E3.
  2: { intros [= <- <- <- <- <- <- <- <- <- <-]. split; [| done]. apply (extends_more [a; b; c; d]); [done | intros x; rewrite !elem_of_cons, elem_of_nil; tauto |].
       intros x. rewrite !elem_of_cons, elem_of_nil. intros Hx Hpos. lia. }
  destruct (pipe_extends _ _ _ _ _ _ _ _ _ _ Eb E3) as (He & Hf & Hef & Ne & Nf & _ & _ & _ & Ec). cbn [app] in Ec.
  intros [= <- <- <- <- <- <- <- <- <- <-]. split; [done |]. intros _. split; [done |]. split; [done |]. split; [| done].
  change [a; b; c; d; e; f] with ([a; b; c; d] ++ [e; f]). apply NoDup_app. split; [done |]. split.
  - intros x Hx Hx2. assert (is_Some (tb !! x)) as Hs.
    { rewrite !elem_of_cons, elem_of_nil in Hx. destruct Hx as [-> | [-> | [-> | [-> | []]]]]; [by rewrite K2 | by rewrite K2 | done | done]. }
    rewrite !elem_of_cons, elem_of_nil in Hx2. destruct Hs as [g Hs]. destruct Hx2 as [-> | [-> | []]]; congruence.
  - apply NoDup_cons. split; [rewrite elem_of_cons, elem_of_nil; tauto | by apply NoDup_singleton].
Qed.

(** Closing what was opened, in any order and through any of the calls. *)
Lemma close_opened l fds t t' :
  extends l t t' -> (forall x, x ∈ fds <-> x ∈ l /\ 0 <= x) -> close_all t' fds = t.
Proof.
  intros [Hnew Hkeep] Hfds. apply map_eq. intros x. rewrite close_all_lookup. destruct (decide (x ∈ fds)) as [H | H].
  - apply Hfds in H as [? ?]. by rewrite Hnew.
  - apply Hkeep. rewrite Hfds in H. destruct (decide (x ∈ l)); [right; apply Z.nle_gt; tauto | by left].
Qed.

Lemma stop_table p signal t s b p' t' s' : subproc_stop p signal t s = Some (b, p', t', s') -> t' = (subproc_close p t).2.
Proof.
  unfold subproc_stop. destruct (subproc_close p t) as [p1 t1]. cbn [snd]. destruct (pid p1 <=? 0); [by intros [= _ _ <- _] |].
  destruct (kill _ signal s) as [r s1]. destruct (kill_failed r); [by intros [= _ _ <- _] |].
  destruct (stop_polls 20 _ s1) as [[] s2]; [by intros [= _ _ <- _] |]. destruct (kill _ SIGKILL s2) as [r3 s3].
  destruct (kill_failed r3); [by intros [= _ _ <- _] |]. destruct (wait_exit _) as [[r4 ws] |]; by intros [= _ _ <- _].
Qed.

(** Once the child's ends are closed, closing the handle's gives back the table. *)
Lemma ends_closed (m : bool) t t2 i0 i1 o0 o1 e0 e1 :
  extends [i0; i1; o0; o1; e0; e1] t t2 -> 0 <= i0 -> 0 <= i1 -> 0 <= o0 -> 0 <= o1 ->
  let tc := if m then close (close t2 i0) o1 else close (close (close t2 i0) o1) e1 in
  (if m then e0 = -1 /\ e1 = -1 else 0 <= e0 /\ 0 <= e1) -> forall fds, (forall x, x ∈ fds <-> x ∈ [i1; o0]) ->
  (if 0 <=? (if m then -1 else e0) then close (close_all tc fds) (if m then -1 else e0) else close_all tc fds) = t.
Proof.
  intros Hext Hi0 Hi1 Ho0 Ho1 tc He fds Hfds. unfold tc. destruct m; cbn [Z.leb Z.compare].
  - destruct He as [-> ->]. change (close_all (close (close t2 i0) o1) fds) with (close_all t2 (i0 :: o1 :: fds)).
    apply (close_opened [i0; i1; o0; o1; -1; -1]); [done |]. intros x. rewrite !elem_of_cons, Hfds, !elem_of_cons, !elem_of_nil. lia.
  - destruct He as (He0 & He1). rewrite (proj2 (Z.leb_le 0 e0)) by done.
    replace (close (close_all (close (close (close t2 i0) o1) e1) fds) e0) with (close_all t2 (i0 :: o1 :: e1 :: fds ++ [e0]))
      by (unfold close_all; cbn [foldl]; by rewrite foldl_app).
    apply (close_opened [i0; i1; o0; o1; e0; e1]); [done |]. intros x. rewrite !elem_of_cons, elem_of_app, Hfds, !elem_of_cons, !elem_of_nil. lia.
Qed.

Section ends.
Context {W : Type} `{!Sched W}.

(** When a child cannot be given its pipes - a pipe, a flag, the fork or a
    stream fails - every descriptor the call opened is closed again; when the call
    succeeds the handle holds the new ends, and [subproc_close] gives back the table
    there was. *)
Theorem pipes_no_leak forked p path argv m g t nd (w : W) s o oc r s' :
  subproc_spawn_pipes forked p path argv m g t nd w s o oc = Some (r, s') -> pid p <= 0 ->
  if result r then forked = Some (pid (process r)) /\ is_Some (input (process r)) /\ is_Some (output (process r)) /\
    (subproc_close (process r) (parent r)).2 = t
  else parent r = t.
Proof.
  unfold subproc_spawn_pipes. destruct path as [[| c path] |]; try (by intros [= <- <-]). destruct argv as [[| a argv] |]; try (by intros [= <- <-]).
  intros Hs Hp. revert Hs. rewrite (proj2 (Z.ltb_ge 0 (pid p))) by done.
  destruct (make_pipes m t nd o) as [[[[[[made [i0 i1]] [o0 o1]] [e0 e1]] t1] nd1] oa] eqn:Em.
  destruct (make_pipes_extends _ _ _ _ _ _ _ _ _ _ _ _ _ _ Em) as [Hext Hmade].
  destruct made; cbn [negb]; [| intros [= <- <-]; exact (extends_closed _ _ _ Hext)]. destruct (Hmade eq_refl) as (Hnd & Hpos & He). clear Hmade Em.
  destruct (set_cloexec t1 _ oa) as [[prepared t2] ob] eqn:Ec. apply (set_cloexec_extends [i0; i1; o0; o1; e0; e1] t) in Ec; [| done | done]. clear Hext.
  destruct (if prepared : bool then _ else _) as [[q s1] od] eqn:Eq.
  assert (parent q = t2 /\ (result q = true -> exists n, forked = Some n /\ process q = Subproc n None None (-1) true)) as [Hq1 Hq2].
  { destruct prepared; [| injection Eq as <- <- <-; by split]. destruct (spawn_impl_cases _ _ _ _ _ _ _ _ _ _ _ Eq) as [Hpar [(Hr & _) | (_ & n & Hf & Hpr & _)]].
    - split; [done |]. by rewrite Hr.
    - split; [done |]. intros _. by exists n. }
  clear Eq. destruct (result q); cbn [negb]; [| intros [= <- <-]; cbn [result parent]; rewrite Hq1; exact (extends_closed _ _ _ Ec)].
  destruct (Hq2 eq_refl) as (n & Hf & Hproc). rewrite Hproc, Hq1. cbn [pid].
  apply Forall_cons in Hpos as [Hi0 Hpos]. apply Forall_cons in Hpos as [Hi1 Hpos]. apply Forall_cons in Hpos as [Ho0 Hpos]. apply Forall_cons in Hpos as [Ho1 _].
  set (if m then close (close t2 i0) o1 else close (close (close t2 i0) o1) e1) as tc.
  pose proof (ends_closed m t t2 i0 i1 o0 o1 e0 e1 Ec Hi0 Hi1 Ho0 Ho1) as Hend. cbv zeta in Hend. fold tc in Hend. clearbody tc.
  specialize (Hend ltac:(destruct m; tauto)).
  unfold fdopen. destruct (alloc od) as [bi oe]. destruct (alloc oe) as [bo og].
  assert (close_open tc i1 = close tc i1) as Hci by (unfold close_open; by rewrite (proj2 (Z.leb_le 0 i1))).
  assert (forall T, close_open T o0 = close T o0) as Hco by (intros T; unfold close_open; by rewrite (proj2 (Z.leb_le 0 o0))).
  assert (forall x, x ∈ [o0; i1] <-> x ∈ [i1; o0]) as Hsw by (intros x; rewrite !elem_of_cons; tauto).
  destruct bi, bo; cbn [negb].
  - intros [= <- <-]. cbn [result process parent pid input output]. split; [done |]. split; [by eexists |]. split; [by eexists |].
    unfold subproc_close. cbn [input output error_fd close_file snd]. by apply (Hend [i1; o0]).
  - destruct (subproc_stop _ SIGTERM _ s1) as [[[[b p'] t'] s2] |] eqn:Est; [| done]. intros [= <- <-]. cbn [result parent].
    apply stop_table in Est. rewrite Est. unfold subproc_close. cbn [input output error_fd close_file snd]. rewrite Hco.
    by apply (Hend [o0; i1]).
  - destruct (subproc_stop _ SIGTERM _ s1) as [[[[b p'] t'] s2] |] eqn:Est; [| done]. intros [= <- <-]. cbn [result parent].
    apply stop_table in Est. rewrite Est. unfold subproc_close. cbn [input output error_fd close_file snd]. rewrite Hci.
    by apply (Hend [i1; o0]).
  - destruct (subproc_stop _ SIGTERM _ s1) as [[[[b p'] t'] s2] |] eqn:Est; [| done]. intros [= <- <-]. cbn [result parent].
    apply stop_table in Est. rewrite Est. unfold subproc_close. cbn [input output error_fd close_file snd]. rewrite Hci, Hco.
    by apply (Hend [i1; o0]).
Qed.

End ends.

(** ** Lines *)

Lemma fgets_spec n s :
  let '(a, b) := fgets n s in
  a ++ b = s /\ (length a <= n)%nat /\ (a = [] -> n = O \/ s = []) /\ chr 10 ∉ removelast a.
Proof.
  revert s. induction n as [| n IH]; intros s; cbn [fgets].
  { split; [done |]. split; [done |]. split; [by left | apply not_elem_of_nil]. }
  destruct s as [| c s]; [split; [done |]; split; [cbn; lia |]; split; [by right | apply not_elem_of_nil] |].
  destruct (decide (c = chr 10)) as [-> | Hc].
  { rewrite bool_decide_eq_true_2 by done. split; [done |]. split; [cbn; lia |]. split; [done | apply not_elem_of_nil]. }
  rewrite bool_decide_eq_false_2 by done. specialize (IH s). destruct (fgets n s) as [a b]. destruct IH as (H1 & H2 & _ & H4).
  split; [cbn; by rewrite H1 |]. split; [cbn; lia |]. split; [done |].
  destruct a as [| x a]; [apply not_elem_of_nil |]. change (removelast (c :: x :: a)) with (c :: removelast (x :: a)).
  apply not_elem_of_cons. split; [by intros <- | done].
Qed.

(** Reads in a row, each with the answers of its [poll]. *)
Fixpoint read_lines (p : subproc) (n : nat) (polls : list (list poll_result)) (stream : bstr) : list bstr * bstr :=
  match polls with
  | [] => ([], stream)
  | answers :: polls =>
      match subproc_read_line p true n answers stream with
      | Some (Some text, rest) => let '(texts, rest) := read_lines p n polls rest in (text :: texts, rest)
      | Some (None, rest) => read_lines p n polls rest
      | None => ([], stream)
      end
  end.

(** However often a read times out, fails or is interrupted, the lines that are read
    are the child's output from the start, without a gap, each of at most [n - 1]
    characters and with a newline only at its end. *)
Theorem lines_lossless p n polls stream :
  let '(texts, rest) := read_lines p n polls stream in
  mjoin texts ++ rest = stream /\ Forall (fun l => l <> [] /\ (length l < n)%nat /\ chr 10 ∉ removelast l) texts.
Proof.
  revert stream. induction polls as [| answers polls IH]; intros stream; cbn [read_lines]; [by split; [| apply Forall_nil] |].
  unfold subproc_read_line. destruct (output p); [| apply IH].
  destruct (_ || _) eqn:E; [apply IH |]. apply orb_false_iff in E as [_ E]. rewrite Nat.ltb_ge in E.
  destruct (poll_line answers) as [[| pollin pollhup | e] |]; [apply IH | | apply IH | by split; [| apply Forall_nil]].
  destruct (negb _); [apply IH |]. pose proof (fgets_spec (n - 1) stream) as Hg. destruct (fgets (n - 1) stream) as [a b].
  destruct Hg as (Hab & Hlen & _ & Hnl). destruct a as [| c a]; [cbn in Hab; rewrite <- Hab; apply IH |].
  specialize (IH b). destruct (read_lines p n polls b) as [texts rest]. destruct IH as [Hj Hall]. split.
  - change (mjoin ((c :: a) :: texts)) with ((c :: a) ++ mjoin texts). by rewrite <- app_assoc, Hj.
  - apply Forall_cons. split; [| done]. split; [done |]. split; [lia | done].
Qed.

(** ** Examples *)

Definition std : table := <[0 := File 1 false]> (<[1 := File 2 false]> (<[2 := File 2 false]> (<[5 := File 50 false]> (<[6 := File 60 true]> ∅)))).

(** A swap: 5 becomes 1 and 1 becomes 5, and 6, which has the flag, becomes 2. *)
Theorem spawned_descriptors_witness :
  let call := subproc_spawn_fds_impl (Some 7) SUBPROC_INIT
    (Request (Some (B "/bin/cat")) (Some [B "cat"]) (Some [(5, 1); (1, 5); (6, 2)]) (Some [0]) false None) std Scheduler.box0 (Os [] [] []) [] [] in
  parent call.1.1 = std /\ (result call.1.1 = true <-> is_Some (the_child call.1.1)).
Proof.
  intros call. assert (call = (call.1.1, call.1.2, call.2)) as E by reflexivity.
  destruct (spawned_descriptors _ _ _ _ _ _ _ _ _ _ _ _ _ _ _ _ E) as (H1 & H2 & _).
  - apply (bool_decide_unpack _). vm_compute. exact I.
  - exact (conj H1 H2).
Defined.

Example swap_child :
  exists tc w, the_child (subproc_spawn_fds_impl (Some 7) SUBPROC_INIT
    (Request (Some (B "/bin/cat")) (Some [B "cat"]) (Some [(5, 1); (1, 5); (6, 2)]) (Some [0]) false None) std Scheduler.box0 (Os [] [] []) [] []).1.1 =
    Some (Exec (B "/bin/cat") [B "cat"] tc w false) /\
  map_to_list tc ≡ₚ [(1, File 50 false); (2, File 60 false); (5, File 2 false)].
Proof. eexists _, _. split; [vm_compute; reflexivity |]. apply (bool_decide_unpack _). vm_compute. exact I. Qed.

(** A source that is not open is taken for the duplicate of the source before it,
    when the duplicate got its number. *)
Example closed_source :
  exists tc w, the_child (subproc_spawn_fds_impl (Some 7) SUBPROC_INIT
    (Request (Some (B "/bin/cat")) (Some [B "cat"]) (Some [(5, 1); (3, 0)]) (Some []) false None) std Scheduler.box0 (Os [] [] []) [] []).1.1 =
    Some (Exec (B "/bin/cat") [B "cat"] tc w false) /\ std !! 3 = None /\ tc !! 0 = Some (File 50 false).
Proof. eexists _, _. split; [vm_compute; reflexivity |]. split; vm_compute; reflexivity. Qed.

(** The duplicate of the second source fails. *)
Theorem pipes_no_leak_witness :
  match subproc_spawn_pipes (Some 7) SUBPROC_INIT (Some (B "/bin/cat")) (Some [B "cat"]) false true std 100 Scheduler.box0 (Os [] [] [])
    (replicate 11 true ++ [false]) [] with
  | Some (r, _) => result r = false /\ parent r = std
  | None => False
  end.
Proof.
  destruct (subproc_spawn_pipes _ _ _ _ _ _ _ _ _ _ _ _) as [[r s'] |] eqn:E; [| vm_compute in E; discriminate E].
  assert (result r = false) as Hr by (vm_compute in E; injection E as <- _; reflexivity). split; [exact Hr |].
  pose proof (pipes_no_leak _ _ _ _ _ _ _ _ _ _ _ _ _ _ E ltac:(discriminate)) as P. rewrite Hr in P. exact P.
Defined.

Theorem signals_reach_own_child_witness :
  let r := subproc_spawn_fds_impl (Some 7) SUBPROC_INIT (Request (Some (B "/bin/cat")) (Some [B "cat"]) (Some []) (Some []) false None)
    std Scheduler.box0 (Os [] [NotYet; Waited 9] []) [] [] in
  exists live, replay ∅ (log r.1.2) = Some live /\ (0 < pid (process r.1.1) -> pid (process r.1.1) ∈ live).
Proof.
  intros r. apply (signals_reach_own_child [] [NotYet; Waited 9]). eapply rtc_l; [| apply rtc_refl].
  eapply call_spawn. exact (eq_refl : r = (r.1.1, r.1.2, r.2)).
Defined.

(** A profile that is not known, or that the system refuses, is diagnosed, and the
    program runs all the same. *)
Example unknown_profile_runs :
  exists tc w, the_child (subproc_spawn_fds_impl (Some 7) SUBPROC_INIT
    (Request (Some (B "/bin/cat")) (Some [B "cat"]) (Some []) (Some []) false (Some (B "no-such-profile"))) std Scheduler.box0 (Os [] [] []) [] []).1.1 =
    Some (Exec (B "/bin/cat") [B "cat"] tc w true).
Proof. eexists _, _. vm_compute. reflexivity. Qed.
