(* ===== verification/Maidenhead.v ===== *)
(** * Maidenhead locators (maidenhead.c)

    The conversions between locators and coordinates, in the arithmetic of [double]
    and with the [float] fields of [Coordinates]; the validation of a locator, and
    the location that is shown.  [fmod] is exact.  The trigonometric functions and
    what [sscanf] reads with [%lf] are parameters; a message of the logger is not
    modelled.

    Which locations resolve, and from what; a square of four characters resolves to
    a point inside it, whose locator begins with the square.  The square is checked
    for every field and every figure, in latitude and in longitude. *)

From S2P Require Import Prelude CString CFloat.

#[local] Open Scope Z_scope.

Abbreviation double := spec_float.

Definition add (x y : double) : double := SFadd 53 1024 x y.
Definition sub (x y : double) : double := SFsub 53 1024 x y.
Definition mul (x y : double) : double := SFmul 53 1024 x y.
Definition div (x y : double) : double := SFdiv 53 1024 x y.
Definition le (x y : double) : bool := SFleb x y.

(** The [double] nearest to [m / 10^k]. *)
Definition dec (m : positive) (k : Z) : double := (dec64 false (Zpos m) 0 (- k)).1.

(** [fmod]: the remainder of the division towards zero, exact, with the sign of [x]. *)
Definition fmod (x y : double) : double :=
  match x, y with
  | S754_zero s, S754_finite _ _ _ => x
  | S754_finite s m e, S754_finite _ m' e' =>
      let u := Z.min e e' in
      let r := Z.rem (Zpos m * 2 ^ (e - u)) (Zpos m' * 2 ^ (e' - u)) in
      binary_normalize 53 1024 (if s then - r else r) u s
  | S754_zero _, S754_infinity _ | S754_finite _ _ _, S754_infinity _ => x
  | _, _ => S754_nan
  end.

(** ** From a locator *)

Record Coordinates := Coord { latitude : spec_float; longitude : spec_float; precision : Z; error : bool }.

(** [char] is signed. *)
Definition schar (c : ascii) : Z := if code c <? 128 then code c else code c - 256.

Definition complete_mh (locator : bstr) : option bstr :=
  let len := length locator in
  if (10 <? len)%nat || (len <? 4)%nat then None
  else if negb (Nat.even len) then None
  else Some (locator ++ drop len (B "LL55LL55LL")).

Definition at_ (s : bstr) (i : nat) : ascii := nth i s NUL.

Definition letter (s : bstr) (i : nat) : double := f64_of_Z (schar (toupper (at_ s i)) - 65).
Definition figure (s : bstr) (i : nat) : double := f64_of_Z (schar (at_ s i) - 48).

(** The sum of the five places from the one at [i]; each place is twice as fine in
    latitude as in longitude. *)
Definition degrees (lp : bstr) (i : nat) (field square sub_ ext prec offset : Z) : double :=
  let field := mul (letter lp i) (f64_of_Z field) in
  let square := mul (figure lp (i + 2)) (f64_of_Z square) in
  let subsquare := div (letter lp (i + 4)) (f64_of_Z sub_) in
  let extsquare := div (figure lp (i + 6)) (f64_of_Z ext) in
  let precsquare := div (letter lp (i + 8)) (f64_of_Z prec) in
  sub (add (add (add (add field square) subsquare) extsquare) precsquare) (f64_of_Z offset).

Definition no_coordinates : Coordinates := Coord (S754_zero false) (S754_zero false) 0 true.

Definition maidenhead2latlon (locator : option bstr) : Coordinates :=
  match locator with
  | None => no_coordinates
  | Some locator =>
      let len := length locator in
      if (10 <? len)%nat || (len <? 4)%nat then no_coordinates
      else if negb (Nat.even len) then no_coordinates
      else
        match (if (len <? 10)%nat then complete_mh locator else Some locator) with
        | None => no_coordinates
        | Some lp =>
            Coord (f32_of_f64 (degrees lp 1 10 1 24 240 5760 90)) (f32_of_f64 (degrees lp 0 20 2 12 120 2880 180))
              (Z.of_nat len / 2) false
        end
  end.

(** ** To a locator *)

(** The degrees of each pair, as the tables of the code have them. *)
Definition LON_F : list double := [f64_of_Z 20; f64_of_Z 2; dec 83333 6; dec 8333 6; dec 3472083333333333 19].
Definition LAT_F : list double := [f64_of_Z 10; f64_of_Z 1; dec 416665 7; dec 4166 6; dec 1735833333333333 19].

Definition letterize (x : Z) : ascii := chr (x + 65).

(** One coordinate, from the place [i] on. *)
Fixpoint places (i : nat) (x : double) (factors : list double) : bstr :=
  match factors with
  | [] => []
  | f :: factors =>
      (if Nat.odd i then chr (trunc (add (div x f) (f64_of_Z 48))) else letterize (trunc (div x f))) :: places (S i) (fmod x f) factors
  end.

Fixpoint interleave (a b : bstr) : bstr :=
  match a, b with
  | x :: a, y :: b => x :: y :: interleave a b
  | _, _ => []
  end.

Definition locator_size (precision : Z) : Z :=
  let size := if (2 <? precision) && (precision <=? 5) then precision * 2 else if 5 <=? precision then 10 else 4 in
  let size := size / 2 * 2 in
  if 10 <? size then 10 else size.

Definition latlon2maidenhead (c : Coordinates) : bstr :=
  let lat := f64_of_f32 (latitude c) in
  let lon := f64_of_f32 (longitude c) in
  let lon := add lon (f64_of_Z 180) in
  let lat := add lat (f64_of_Z 90) in
  let n := Z.to_nat (locator_size (precision c) / 2) in
  interleave (places 0 lon (take n LON_F)) (places 0 lat (take n LAT_F)).

(** ** Bearing and distance *)

Class Libm := { sin : double -> double; cos : double -> double; atan2 : double -> double -> double; sqrt : double -> double }.

Section trigonometry.
Context `{Libm}.

Definition M_PI : double := round64 false 7074237752028440 (-51).
Definition RADIUS_EARTH : double := f64_of_Z 6371.

Definition rad2deg (rad : double) : double := div (mul rad (f64_of_Z 180)) M_PI.
Definition deg2rad (degrees : double) : double := div (mul degrees M_PI) (f64_of_Z 180).

Definition calculateBearing (lat1 lon1 lat2 lon2 : double) : double :=
  let dLon := deg2rad (sub lon2 lon1) in
  let y := mul (sin dLon) (cos (deg2rad lat2)) in
  let x := sub (mul (cos (deg2rad lat1)) (sin (deg2rad lat2))) (mul (mul (sin (deg2rad lat1)) (cos (deg2rad lat2))) (cos dLon)) in
  let bearing := atan2 y x in
  let bearing := fmod (add bearing (mul (f64_of_Z 2) M_PI)) (mul (f64_of_Z 2) M_PI) in
  div (mul bearing (f64_of_Z 180)) M_PI.

Definition calculateDistance (lat1 lon1 lat2 lon2 : double) : double :=
  let dLat := deg2rad (sub lat2 lat1) in
  let dLon := deg2rad (sub lon2 lon1) in
  let two := f64_of_Z 2 in
  let a := add (mul (sin (div dLat two)) (sin (div dLat two)))
    (mul (mul (mul (cos (deg2rad lat1)) (cos (deg2rad lat2))) (sin (div dLon two))) (sin (div dLon two))) in
  let c := mul two (atan2 (sqrt a) (sqrt (sub (f64_of_Z 1) a))) in
  mul RADIUS_EARTH c.

End trigonometry.

(** ** Locations *)

(** The character at [i], in upper case, is one of the place's. *)
Definition grid_char (i : nat) (c : ascii) : bool :=
  let c := code (toupper c) in
  if Nat.even (i / 2) then
    let limit := if (i <? 2)%nat then 18 else 24 in
    negb ((c <? 65) || (65 + limit <=? c))
  else negb ((c <? 48) || (57 <? c)).

Fixpoint grid_chars (i : nat) (s : bstr) : bool :=
  match s with [] => true | c :: s => grid_char i c && grid_chars (S i) s end.

Definition rr_grid_valid (grid : option bstr) : bool :=
  match grid with
  | None => false
  | Some grid => bool_decide (length grid ∈ [4%nat; 6%nat; 8%nat; 10%nat]) && grid_chars 0 grid
  end.

(** What [%lf] of [sscanf] reads at the start of a text: the number and the rest. *)
Class Scan := { scan_lf : bstr -> option (double * bstr) }.

Section location.
Context `{Scan}.

(** [sscanf(s, " %lf , %lf %c", ...) == 2]: two numbers, and nothing after them. *)
Definition scan_pair (s : bstr) : option (double * double) :=
  match scan_lf (skip_space s) with
  | Some (lat, s) =>
      match skip_space s with
      | c :: s =>
          if bool_decide (c = ","%char) then
            match scan_lf (skip_space s) with
            | Some (lon, s) => match skip_space s with [] => Some (lat, lon) | _ => None end
            | None => None
            end
          else None
      | [] => None
      end
  | None => None
  end.

Record rr_location := Location { loc_latitude : double; loc_longitude : double; valid : bool; approximate : bool; locator : bstr }.

Definition no_location : rr_location := Location (S754_zero false) (S754_zero false) false false [].

Definition in_range (lat lon : double) : bool :=
  isfinite lat && isfinite lon && le (f64_of_Z (-90)) lat && le lat (f64_of_Z 90) && le (f64_of_Z (-180)) lon && le lon (f64_of_Z 180).

Definition measured (coordinates : option bstr) : option (double * double) :=
  match coordinates with
  | None => None
  | Some s => match scan_pair s with Some (lat, lon) => if in_range lat lon then Some (lat, lon) else None | None => None end
  end.

(** The position, and whether it is approximate: measured, or the centre of the grid. *)
Definition position (coordinates grid : option bstr) : option (double * double * bool) :=
  match measured coordinates with
  | Some (lat, lon) => Some (lat, lon, false)
  | None =>
      if negb (rr_grid_valid grid) then None
      else
        let center := maidenhead2latlon grid in
        if error center then None else Some (f64_of_f32 (latitude center), f64_of_f32 (longitude center), true)
  end.

(** The result, and what is in [out]. *)
Definition rr_location_resolve (coordinates grid : option bstr) (out : bool) : bool * option rr_location :=
  if negb out then (false, None)
  else
    match position coordinates grid with
    | None => (false, Some no_location)
    | Some (lat, lon, approx) =>
        let text := latlon2maidenhead (Coord (f32_of_f64 lat) (f32_of_f64 lon) 3 false) in
        (* The code measures a string: it ends at the first NUL. *)
        if negb (length text =? 6)%nat || bool_decide (NUL ∈ text) then (false, Some no_location)
        else (true, Some (Location lat lon true approx text))
    end.

(** The middle dot, in UTF-8. *)
Definition DOT : bstr := [chr 194; chr 183].

Definition location_text (compact : bool) (l : rr_location) : bstr :=
  if compact then
    (if approximate l then B "~" else []) ++ B "(" ++ print_fixed 2 (loc_latitude l) ++ B ", " ++ print_fixed 2 (loc_longitude l) ++ B ") [" ++ locator l ++ B "]"
  else
    (if approximate l then B "Approximate " else []) ++ B "Coordinates: " ++ print_fixed 6 (loc_latitude l) ++ B ", " ++ print_fixed 6 (loc_longitude l) ++
    B " " ++ DOT ++ B " Grid square: " ++ locator l.

(** The result, and the string in [out]. *)
Definition rr_location_format (coordinates grid : option bstr) (compact out : bool) (capacity : nat) : bool * option bstr :=
  if negb out || (capacity =? 0)%nat then (false, None)
  else
    match rr_location_resolve coordinates grid true with
    | (true, Some l) =>
        let text := location_text compact l in
        ((length text <? capacity)%nat, Some (take (capacity - 1) text))
    | _ => (false, Some [])
    end.

End location.

(** ** Squares *)

(** One coordinate of the centre of a square, as [rr_location_resolve] passes it on. *)
Definition centre (f s field square sub_ ext prec offset : Z) : double :=
  let d := sub (add (add (add (add (mul (f64_of_Z f) (f64_of_Z field)) (mul (f64_of_Z s) (f64_of_Z square)))
    (div (f64_of_Z 11) (f64_of_Z sub_))) (div (f64_of_Z 5) (f64_of_Z ext))) (div (f64_of_Z 11) (f64_of_Z prec))) (f64_of_Z offset) in
  f64_of_f32 (f32_of_f64 d).

(** The centre is inside the square, and its places are those of the square. *)
Definition square_ok (field square sub_ ext prec offset : Z) (factors : list double) (f s : Z) : bool :=
  let x := centre f s field square sub_ ext prec offset in
  let west := field * f + square * s - offset in
  streq (places 0 (add (f64_of_f32 (f32_of_f64 x)) (f64_of_Z offset)) factors) [chr (65 + f); chr (48 + s); "L"%char] &&
  le (f64_of_Z west) x && le x (f64_of_Z (west + square)).

Abbreviation lat_ok := (square_ok 10 1 24 240 5760 90 (take 3 LAT_F)).
Abbreviation lon_ok := (square_ok 20 2 12 120 2880 180 (take 3 LON_F)).

Definition all_squares (ok : Z -> Z -> bool) : bool := forallb (fun f => forallb (ok f) (seqZ 0 10)) (seqZ 0 18).

Lemma square_ok_spec field square sub_ ext prec offset factors f s :
  square_ok field square sub_ ext prec offset factors f s = true ->
  let x := centre f s field square sub_ ext prec offset in
  let west := field * f + square * s - offset in
  places 0 (add (f64_of_f32 (f32_of_f64 x)) (f64_of_Z offset)) factors = [chr (65 + f); chr (48 + s); "L"%char] /\
  le (f64_of_Z west) x = true /\ le x (f64_of_Z (west + square)) = true.
Proof. unfold square_ok. cbv zeta. rewrite !andb_true_iff, streq_true. tauto. Qed.

Lemma all_squares_spec ok f s : all_squares ok = true -> 0 <= f < 18 -> 0 <= s < 10 -> ok f s = true.
Proof.
  unfold all_squares. rewrite forallb_forall. intros H Hf Hs. specialize (H f ltac:(apply list_elem_of_In, elem_of_seqZ; lia)).
  rewrite forallb_forall in H. apply H, list_elem_of_In, elem_of_seqZ. lia.
Qed.

Lemma lat_squares : all_squares lat_ok = true.
Proof. vm_compute. reflexivity. Qed.

Lemma lon_squares : all_squares lon_ok = true.
Proof. vm_compute. reflexivity. Qed.

Lemma lat_place a b :
  0 <= a < 18 -> 0 <= b < 10 ->
  places 0 (add (f64_of_f32 (f32_of_f64 (centre a b 10 1 24 240 5760 90))) (f64_of_Z 90)) (take 3 LAT_F) = [chr (65 + a); chr (48 + b); "L"%char] /\
  le (f64_of_Z (10 * a + b - 90)) (centre a b 10 1 24 240 5760 90) = true /\
  le (centre a b 10 1 24 240 5760 90) (f64_of_Z (10 * a + b - 90 + 1)) = true.
Proof.
  intros Ha Hb. pose proof (square_ok_spec _ _ _ _ _ _ _ _ _ (all_squares_spec lat_ok a b lat_squares Ha Hb)) as H. cbv zeta in H.
  rewrite Z.mul_1_l in H. exact H.
Qed.

Lemma lon_place a b :
  0 <= a < 18 -> 0 <= b < 10 ->
  places 0 (add (f64_of_f32 (f32_of_f64 (centre a b 20 2 12 120 2880 180))) (f64_of_Z 180)) (take 3 LON_F) = [chr (65 + a); chr (48 + b); "L"%char] /\
  le (f64_of_Z (20 * a + 2 * b - 180)) (centre a b 20 2 12 120 2880 180) = true /\
  le (centre a b 20 2 12 120 2880 180) (f64_of_Z (20 * a + 2 * b - 180 + 2)) = true.
Proof. intros Ha Hb. apply square_ok_spec. exact (all_squares_spec lon_ok a b lon_squares Ha Hb). Qed.

Lemma grid_letter c : grid_char 0 c = true -> 0 <= schar (toupper c) - 65 < 18 /\ toupper c = chr (65 + (schar (toupper c) - 65)).
Proof.
  unfold grid_char. cbn [Nat.div Nat.even Nat.ltb Nat.leb fst Nat.divmod]. rewrite negb_true_iff, orb_false_iff, Z.ltb_ge, Z.leb_gt.
  intros H. unfold schar. rewrite (proj2 (Z.ltb_lt (code (toupper c)) 128)) by lia. split; [lia |].
  rewrite Zplus_minus. by rewrite chr_code.
Qed.

Lemma grid_figure c : grid_char 2 c = true -> 0 <= schar c - 48 < 10 /\ c = chr (48 + (schar c - 48)).
Proof.
  unfold grid_char. cbn [Nat.div Nat.even fst Nat.divmod]. rewrite negb_true_iff, orb_false_iff, !Z.ltb_ge.
  intros H. assert (toupper c = c) as E.
  { unfold toupper in *. destruct (islower c) eqn:El; [| done]. unfold islower in El. rewrite andb_true_iff, !Z.leb_le in El.
    rewrite code_chr, Z.mod_small in H by lia. lia. }
  rewrite E in H. unfold schar. rewrite (proj2 (Z.ltb_lt (code c) 128)) by lia. split; [lia |]. rewrite Zplus_minus. by rewrite chr_code.
Qed.

(** The arithmetic of a completed square is that of its centre. *)
Lemma degrees_centre lp i field square sub_ ext prec offset :
  at_ lp (i + 4) = "L"%char -> at_ lp (i + 6) = "5"%char -> at_ lp (i + 8) = "L"%char ->
  f64_of_f32 (f32_of_f64 (degrees lp i field square sub_ ext prec offset)) =
  centre (schar (toupper (at_ lp i)) - 65) (schar (at_ lp (i + 2)) - 48) field square sub_ ext prec offset.
Proof.
  intros H4 H6 H8. unfold degrees, centre, letter, figure. rewrite H4, H6, H8.
  change (schar (toupper "L") - 65) with 11. change (schar "5" - 48) with 5. reflexivity.
Qed.

Lemma centre_of_square g0 g1 g2 g3 :
  let lp := [g0; g1; g2; g3; "L"; "L"; "5"; "5"; "L"; "L"]%char in
  maidenhead2latlon (Some [g0; g1; g2; g3]) =
  Coord (f32_of_f64 (degrees lp 1 10 1 24 240 5760 90)) (f32_of_f64 (degrees lp 0 20 2 12 120 2880 180)) 2 false.
Proof. reflexivity. Qed.

(** The six characters, from the places of the two coordinates. *)
Lemma locator_text lat lon a b c d e f :
  places 0 (add (f64_of_f32 (f32_of_f64 lon)) (f64_of_Z 180)) (take 3 LON_F) = [a; b; c] ->
  places 0 (add (f64_of_f32 (f32_of_f64 lat)) (f64_of_Z 90)) (take 3 LAT_F) = [d; e; f] ->
  latlon2maidenhead (Coord (f32_of_f64 lat) (f32_of_f64 lon) 3 false) = [a; d; b; e; c; f].
Proof.
  intros Hlon Hlat. unfold latlon2maidenhead. cbn [latitude longitude precision]. change (Z.to_nat (locator_size 3 / 2)) with 3%nat.
  by rewrite Hlon, Hlat.
Qed.

Section location.
Context `{Scan}.

Lemma square_position coordinates g0 g1 g2 g3 :
  measured coordinates = None -> rr_grid_valid (Some [g0; g1; g2; g3]) = true ->
  position coordinates (Some [g0; g1; g2; g3]) =
  Some (centre (schar (toupper g1) - 65) (schar g3 - 48) 10 1 24 240 5760 90, centre (schar (toupper g0) - 65) (schar g2 - 48) 20 2 12 120 2880 180, true).
Proof.
  intros Hm Hv. unfold position. rewrite Hm, Hv, centre_of_square. cbn [negb error latitude longitude]. rewrite !degrees_centre by reflexivity. reflexivity.
Qed.

(** Coordinates whose places are known resolve to them. *)
Lemma located coordinates grid lat lon approx text :
  position coordinates grid = Some (lat, lon, approx) ->
  latlon2maidenhead (Coord (f32_of_f64 lat) (f32_of_f64 lon) 3 false) = text -> length text = 6%nat -> NUL ∉ text ->
  rr_location_resolve coordinates grid true = (true, Some (Location lat lon true approx text)).
Proof.
  intros E Ht Hl Hn. unfold rr_location_resolve. cbn [negb]. rewrite E, Ht, Hl. cbn [Nat.eqb negb orb]. by rewrite bool_decide_eq_false_2.
Qed.

(** Without usable coordinates, a locator of four characters resolves to an
    approximate position inside its square, whatever the case of its letters, and
    the locator of six characters that is shown is the square's own, in upper case,
    with the place LL of its centre. *)
Theorem square_resolves coordinates grid :
  measured coordinates = None -> rr_grid_valid (Some grid) = true -> length grid = 4%nat ->
  exists lat lon,
    rr_location_resolve coordinates (Some grid) true = (true, Some (Location lat lon true true (map toupper grid ++ B "LL"))) /\
    let south := 10 * (schar (toupper (at_ grid 1)) - 65) + (schar (at_ grid 3) - 48) - 90 in
    let west := 20 * (schar (toupper (at_ grid 0)) - 65) + 2 * (schar (at_ grid 2) - 48) - 180 in
    le (f64_of_Z south) lat = true /\ le lat (f64_of_Z (south + 1)) = true /\
    le (f64_of_Z west) lon = true /\ le lon (f64_of_Z (west + 2)) = true.
Proof.
  destruct grid as [| g0 [| g1 [| g2 [| g3 []]]]]; try discriminate. intros Hm Hv _. pose proof Hv as Hc.
  cbn [rr_grid_valid length grid_chars] in Hc. rewrite !andb_true_iff in Hc. destruct Hc as (_ & H0 & H1 & H2 & H3 & _).
  destruct (grid_letter g0 H0) as [R0 E0]. destruct (grid_letter g1 H1) as [R1 E1]. destruct (grid_figure g2 H2) as [R2 E2]. destruct (grid_figure g3 H3) as [R3 E3].
  destruct (lat_place _ _ R1 R3) as (Plat & Slat & Nlat). destruct (lon_place _ _ R0 R2) as (Plon & Slon & Nlon). rewrite <- E1, <- E3 in Plat. rewrite <- E0, <- E2 in Plon.
  exists (centre (schar (toupper g1) - 65) (schar g3 - 48) 10 1 24 240 5760 90), (centre (schar (toupper g0) - 65) (schar g2 - 48) 20 2 12 120 2880 180).
  split; [| exact (conj Slat (conj Nlat (conj Slon Nlon)))].
  assert (forall c, 0 <= schar c - 48 < 10 -> c = chr (48 + (schar c - 48)) -> toupper c = c) as Hup.
  { intros c Hr Ec. unfold toupper. replace (islower c) with false; [done |]. rewrite Ec. unfold islower. rewrite code_chr, Z.mod_small by lia. lia. }
  assert (map toupper [g0; g1; g2; g3] ++ B "LL" = [toupper g0; toupper g1; g2; g3; "L"; "L"]%char) as -> by (cbn [map app]; by rewrite (Hup g2 R2 E2), (Hup g3 R3 E3)).
  apply located.
  - by apply square_position.
  - by apply locator_text.
  - done.
  - rewrite E0, E1, E2, E3. rewrite !elem_of_cons, elem_of_nil.
    assert (forall n, 1 <= n < 256 -> NUL <> chr n) as Hnz by (intros n Hn E%(f_equal code); rewrite code_chr, Z.mod_small in E by lia; change (code NUL) with 0 in E; lia).
    intros [E | [E | [E | [E | [E | [E | []]]]]]]; try (revert E; apply Hnz; lia); discriminate E.
Qed.

(** What resolved: measured coordinates that are in range, exactly as they were
    read, or, without any, a valid locator. *)
Theorem location_source coordinates grid l :
  rr_location_resolve coordinates grid true = (true, Some l) ->
  valid l = true /\ length (locator l) = 6%nat /\
  if approximate l then measured coordinates = None /\ rr_grid_valid grid = true
  else measured coordinates = Some (loc_latitude l, loc_longitude l) /\ in_range (loc_latitude l) (loc_longitude l) = true.
Proof.
  unfold rr_location_resolve, position. cbn [negb]. pose proof (eq_refl (measured coordinates)) as Hm. unfold measured in Hm at 2.
  destruct (measured coordinates) as [[lat lon] |].
  - destruct (_ || _) eqn:E; [done |]. intros [= <-]. cbn [valid locator approximate loc_latitude loc_longitude].
    apply orb_false_iff in E as [E _]. rewrite negb_false_iff, Nat.eqb_eq in E. split; [done |]. split; [done |]. split; [done |].
    destruct coordinates as [s |]; [| done]. destruct (scan_pair s) as [[a b] |]; [| done]. destruct (in_range a b) eqn:Er; [| done]. by injection Hm as -> ->.
  - destruct (rr_grid_valid grid) eqn:Eg; cbn [negb]; [| done]. cbv zeta. destruct (error _); [done |].
    destruct (_ || _) eqn:E; [done |]. intros [= <-]. cbn [valid locator approximate].
    apply orb_false_iff in E as [E _]. rewrite negb_false_iff, Nat.eqb_eq in E. done.
Qed.

(** The text fits exactly when the call says so, and is cut off otherwise. *)
Theorem location_format_fits coordinates grid compact cap b t :
  rr_location_format coordinates grid compact true cap = (b, Some t) -> (0 < cap)%nat ->
  (length t < cap)%nat /\
  forall l, rr_location_resolve coordinates grid true = (true, Some l) ->
    (b = true -> t = location_text compact l) /\ (b = false -> (cap <= length (location_text compact l))%nat).
Proof.
  unfold rr_location_format. intros Hf Hc. revert Hf. rewrite (proj2 (Nat.eqb_neq cap 0)) by lia. cbn [negb orb].
  destruct (rr_location_resolve coordinates grid true) as [[] [l |]]; intros [= <- <-]; cbn [length]; (split; [rewrite ?length_take; lia |]).
  - intros l' [= <-]. split; [intros Hl%Nat.ltb_lt; apply take_ge; lia | by intros Hl%Nat.ltb_ge].
  - by intros l'.
  - by intros l'.
  - by intros l'.
Qed.

End location.

(** ** Examples *)

(** [%lf] as [strtod] reads. *)
#[export] Instance strtod_scan : Scan := {|
  scan_lf s := let r := strtod s in if (length (sd_end r) =? length s)%nat then None else Some (sd_value r, sd_end r) |}.

Theorem square_resolves_witness :
  exists lat lon, rr_location_resolve (Some (B "999, 999")) (Some (B "fn20")) true = (true, Some (Location lat lon true true (B "FN20LL"))) /\
  le (f64_of_Z 40) lat = true /\ le lat (f64_of_Z 41) = true /\ le (f64_of_Z (-76)) lon = true /\ le lon (f64_of_Z (-74)) = true.
Proof. apply (square_resolves (Some (B "999, 999")) (B "fn20")); vm_compute; reflexivity. Defined.

(** 0.083333 is a little less than a twelfth: just below the end of a square there is
    room for a 25th place, Y, which is no place of a locator; and at the eastern and
    the northern edge the field is S. *)
Example place_y :
  (exists l, rr_location_resolve (Some (B "37.5, -120.00001")) None true = (true, Some l) /\ locator l = B "CM97YM") /\
  rr_grid_valid (Some (B "CM97YM")) = false.
Proof. split; [eexists; split; vm_compute; reflexivity | reflexivity]. Qed.

Example field_s :
  (exists l, rr_location_resolve (Some (B "90, 180")) None true = (true, Some l) /\ locator l = B "SS00AA") /\ rr_grid_valid (Some (B "SS00AA")) = false.
Proof. split; [eexists; split; vm_compute; reflexivity | reflexivity]. Qed.
