(* ===== verification/Transport.v ===== *)
(** * Transports (transport.c, transport.mongoose.c)

    The connection that all drivers share: its state, what it lets through to the
    driver, what it lets through to the callback; and the driver for WebSockets of
    mongoose.  A driver is a record of operations, each present or not.  The
    callback is called last by every function that calls it, so that what it calls
    in turn comes after: the model records the events it is called with, in order.
    [mg_ws_send] is a parameter.

    The order of the events a callback sees, what reaches a driver, and the frames
    of the WebSocket driver. *)

From S2P Require Import Prelude.

#[local] Open Scope Z_scope.

Inductive transport_state := RR_TRANSPORT_CONNECTING | RR_TRANSPORT_OPEN | RR_TRANSPORT_CLOSING | RR_TRANSPORT_CLOSED.

Inductive transport_event :=
  | RR_TRANSPORT_EVENT_OPEN | RR_TRANSPORT_EVENT_MESSAGE | RR_TRANSPORT_EVENT_DATAGRAM | RR_TRANSPORT_EVENT_STREAM_DATA
  | RR_TRANSPORT_EVENT_CLOSE | RR_TRANSPORT_EVENT_ERROR | RR_TRANSPORT_EVENT_PONG | RR_TRANSPORT_EVENT_BINARY_MESSAGE.

#[export] Instance transport_state_dec : EqDecision transport_state.
Proof. solve_decision. Defined.
#[export] Instance transport_event_dec : EqDecision transport_event.
Proof. solve_decision. Defined.

Definition RR_TRANSPORT_RELIABLE_MESSAGES : Z := 1.
Definition RR_TRANSPORT_ORDERED_STREAMS : Z := 2.
Definition RR_TRANSPORT_DATAGRAMS : Z := 4.
Definition RR_TRANSPORT_TLS_AUTHENTICATED : Z := 8.
Definition RR_TRANSPORT_PEER_SPKI : Z := 16.
Definition RR_TRANSPORT_BINARY_MESSAGES : Z := 64.
Definition RR_TRANSPORT_TLS_ENCRYPTED : Z := 128.

Definition RR_TRANSPORT_OK : Z := 0.
Definition RR_TRANSPORT_UNSUPPORTED : Z := -1.
Definition RR_TRANSPORT_INVALID : Z := -2.
Definition RR_TRANSPORT_CLOSED_ERROR : Z := -3.
Definition RR_TRANSPORT_BACKPRESSURE : Z := -4.
Definition RR_TRANSPORT_IO_ERROR : Z := -5.

Definition RR_TRANSPORT_ABI_VERSION : Z := 3.

(** A pointer and a length: the bytes, or a null pointer. *)
Inductive payload := Data (bytes : bstr) | Null (len : Z).

Definition plen (p : payload) : Z := match p with Data b => Z.of_nat (length b) | Null n => n end.

(** [!data && len] *)
Definition missing (p : payload) : bool := match p with Data _ => false | Null n => negb (n =? 0) end.

(** [rr_transport_driver_t], over the state of the driver. *)
Record driver_ops (D : Type) := Driver {
  abi_version : Z;
  capabilities : Z;
  connection_capabilities : option (D -> Z);
  send_message : option (D -> payload -> Z * D);
  send_binary_message : option (D -> payload -> Z * D);
  queued_bytes : option (D -> Z);
  send_datagram : option (D -> payload -> Z * D);
  open_stream : option (D -> Z * Z * D);
  send_stream : option (D -> Z -> payload -> bool -> Z * D);
  peer_spki_sha256 : option (D -> option bstr);
  poll : option (D -> Z -> Z * D);
  close : option (D -> D) }.

Arguments abi_version {D}.
Arguments capabilities {D}.
Arguments connection_capabilities {D}.
Arguments send_message {D}.
Arguments send_binary_message {D}.
Arguments queued_bytes {D}.
Arguments send_datagram {D}.
Arguments open_stream {D}.
Arguments send_stream {D}.
Arguments peer_spki_sha256 {D}.
Arguments poll {D}.
Arguments close {D}.

(** [rr_transport_t], with the calls of the callback. *)
Record transport (D : Type) := Transport {
  ops : driver_ops D; driver : D; callback : bool; state : transport_state; delivered : list (transport_event * payload) }.

Arguments Transport {D}.
Arguments ops {D}.
Arguments driver {D}.
Arguments callback {D}.
Arguments state {D}.
Arguments delivered {D}.

Section transport.
Context {D : Type}.

Definition set_state (t : transport D) (s : transport_state) : transport D := Transport (ops t) (driver t) (callback t) s (delivered t).
Definition set_driver (t : transport D) (d : D) : transport D := Transport (ops t) d (callback t) (state t) (delivered t).

(** [ok]: [calloc] succeeds. *)
Definition rr_transport_new (o : option (driver_ops D)) (d : D) (cb ok : bool) : option (transport D) :=
  match o with
  | None => None
  | Some o =>
      if negb (abi_version o =? RR_TRANSPORT_ABI_VERSION) then None
      else if ok then Some (Transport o d cb RR_TRANSPORT_CONNECTING []) else None
  end.

Definition rr_transport_capabilities (t : option (transport D)) : Z :=
  match t with
  | None => 0
  | Some t =>
      match connection_capabilities (ops t) with
      | Some f => Z.land (f (driver t)) (capabilities (ops t))
      | None => capabilities (ops t)
      end
  end.

Definition rr_transport_state (t : option (transport D)) : transport_state :=
  match t with Some t => state t | None => RR_TRANSPORT_CLOSED end.

Definition granted (t : transport D) (capability : Z) : bool := negb (Z.land (rr_transport_capabilities (Some t)) capability =? 0).

Definition check (t : option (transport D)) (capability : Z) (data : payload) : Z :=
  match t with
  | None => RR_TRANSPORT_INVALID
  | Some t =>
      if missing data then RR_TRANSPORT_INVALID
      else if negb (bool_decide (state t = RR_TRANSPORT_OPEN)) then RR_TRANSPORT_CLOSED_ERROR
      else if granted t capability then RR_TRANSPORT_OK else RR_TRANSPORT_UNSUPPORTED
  end.

(** The three calls that send a payload: the check, then the operation if present. *)
Definition send_with (op : driver_ops D -> option (D -> payload -> Z * D)) (capability : Z) (t : option (transport D)) (data : payload) :
    Z * option (transport D) :=
  let r := check t capability data in
  match t with
  | Some t' =>
      if negb (r =? 0) then (r, t)
      else match op (ops t') with
           | Some f => let '(r, d) := f (driver t') data in (r, Some (set_driver t' d))
           | None => (RR_TRANSPORT_UNSUPPORTED, t)
           end
  | None => (r, t)
  end.

Definition rr_transport_send_message := send_with send_message RR_TRANSPORT_RELIABLE_MESSAGES.
Definition rr_transport_send_binary_message := send_with send_binary_message RR_TRANSPORT_BINARY_MESSAGES.
Definition rr_transport_send_datagram := send_with send_datagram RR_TRANSPORT_DATAGRAMS.
Definition rr_transport_send_stream (t : option (transport D)) (id : Z) (data : payload) (fin : bool) : Z * option (transport D) :=
  send_with (fun o => f ← send_stream o; Some (fun d p => f d id p fin)) RR_TRANSPORT_ORDERED_STREAMS t data.

Definition rr_transport_queued_bytes (t : option (transport D)) : Z :=
  match t with
  | Some t => match queued_bytes (ops t) with Some f => f (driver t) | None => 0 end
  | None => 0
  end.

Definition rr_transport_poll (t : option (transport D)) (timeout_ms : Z) : Z * option (transport D) :=
  match t with
  | None => (RR_TRANSPORT_INVALID, t)
  | Some t' =>
      if timeout_ms <? 0 then (RR_TRANSPORT_INVALID, t)
      else if bool_decide (state t' = RR_TRANSPORT_CLOSED) then (RR_TRANSPORT_CLOSED_ERROR, t)
      else match poll (ops t') with
           | Some f => let '(r, d) := f (driver t') timeout_ms in (r, Some (set_driver t' d))
           | None => (RR_TRANSPORT_UNSUPPORTED, t)
           end
  end.

(** The status, and the number of the stream when the driver gives one. *)
Definition rr_transport_open_stream (t : option (transport D)) (id : bool) : Z * option Z * option (transport D) :=
  let r := check t RR_TRANSPORT_ORDERED_STREAMS (Null 0) in
  match t with
  | Some t' =>
      if negb (r =? 0) then (r, None, t)
      else if negb id then (RR_TRANSPORT_INVALID, None, t)
      else match open_stream (ops t') with
           | Some f => let '(r, n, d) := f (driver t') in (r, Some n, Some (set_driver t' d))
           | None => (RR_TRANSPORT_UNSUPPORTED, None, t)
           end
  | None => (r, None, t)
  end.

Definition rr_transport_peer_spki_sha256 (t : option (transport D)) (output : bool) : option bstr :=
  match t with
  | Some t =>
      if output && bool_decide (state t = RR_TRANSPORT_OPEN) && granted t RR_TRANSPORT_TLS_AUTHENTICATED && granted t RR_TRANSPORT_PEER_SPKI
      then match peer_spki_sha256 (ops t) with Some f => f (driver t) | None => None end
      else None
  | None => None
  end.

Definition deliver (t : transport D) (event : transport_event) (data : payload) : transport D :=
  if callback t then Transport (ops t) (driver t) (callback t) (state t) (delivered t ++ [(event, data)]) else t.

Definition rr_transport_emit (t : option (transport D)) (event : transport_event) (data : payload) : option (transport D) :=
  match t with
  | None => t
  | Some t' =>
      if bool_decide (state t' = RR_TRANSPORT_CLOSED) then t
      else
        match event with
        | RR_TRANSPORT_EVENT_OPEN =>
            if bool_decide (state t' = RR_TRANSPORT_CONNECTING) then Some (deliver (set_state t' RR_TRANSPORT_OPEN) event data) else t
        | RR_TRANSPORT_EVENT_CLOSE => Some (deliver (set_state t' RR_TRANSPORT_CLOSED) event data)
        | RR_TRANSPORT_EVENT_ERROR => Some (deliver t' event data)
        | _ => if bool_decide (state t' = RR_TRANSPORT_OPEN) then Some (deliver t' event data) else t
        end
  end.

Definition rr_transport_close (t : option (transport D)) : option (transport D) :=
  match t with
  | None => t
  | Some t' =>
      if bool_decide (state t' = RR_TRANSPORT_CLOSED) || bool_decide (state t' = RR_TRANSPORT_CLOSING) then t
      else
        let t' := set_state t' RR_TRANSPORT_CLOSING in
        match close (ops t') with
        | Some f => Some (set_driver t' (f (driver t')))
        | None => rr_transport_emit (Some t') RR_TRANSPORT_EVENT_CLOSE (Null 0)
        end
  end.

(** Nothing is left when the transport is freed. *)
Definition rr_transport_free (t : option (transport D)) : option (transport D) :=
  match t with
  | None => None
  | Some t' => if negb (bool_decide (state t' = RR_TRANSPORT_CLOSED)) then rr_transport_close t else None
  end.

Definition rr_transport_driver_context (t : option (transport D)) : option D :=
  match t with Some t => Some (driver t) | None => None end.

End transport.

(** ** The driver of mongoose *)

(** [struct mg_connection], what the driver uses of it. *)
Record connection := Connection {
  is_closing : bool; is_draining : bool; is_websocket : bool; is_tls : bool; is_client : bool; send : bstr }.

(** [mg_ws_send]: the payload goes in a frame of the opcode to the send buffer. *)
Class MgWs := { mg_ws_send : connection -> bstr -> Z -> connection }.

Definition WEBSOCKET_OP_TEXT : Z := 1.
Definition WEBSOCKET_OP_BINARY : Z := 2.
Definition SIZE_MAX : Z := 2 ^ 64 - 1.

(** [struct mongoose_transport]: the socket, until it is closed. *)
Abbreviation mongoose := (option connection).

Section mongoose.
Context `{MgWs}.

Definition mongoose_capabilities (m : mongoose) : Z :=
  let flags := Z.lor RR_TRANSPORT_RELIABLE_MESSAGES RR_TRANSPORT_BINARY_MESSAGES in
  match m with
  | Some c => if is_tls c && is_websocket c && negb (is_closing c) then Z.lor flags RR_TRANSPORT_TLS_ENCRYPTED else flags
  | None => flags
  end.

(** The header of a frame: two bytes, the extended length, the mask of a client. *)
Definition overhead (client : bool) (len : Z) : Z :=
  2 + (if len <? 126 then 0 else if len <=? 65535 then 2 else 8) + (if client then 4 else 0).

Definition send_frame (opcode : Z) (m : mongoose) (data : payload) : Z * mongoose :=
  match m with
  | None => (RR_TRANSPORT_CLOSED_ERROR, m)
  | Some c =>
      if is_closing c || is_draining c || negb (is_websocket c) then (RR_TRANSPORT_CLOSED_ERROR, m)
      else
        let len := plen data in
        if missing data || (SIZE_MAX - 14 <? len) then (RR_TRANSPORT_INVALID, m)
        else
          let over := overhead (is_client c) len in
          let before := Z.of_nat (length (send c)) in
          if SIZE_MAX - len - over <? before then (RR_TRANSPORT_BACKPRESSURE, m)
          else
            let c := mg_ws_send c (match data with Data b => b | Null _ => [] end) opcode in
            let after := Z.of_nat (length (send c)) in
            ((if (before <=? after) && (after - before =? len + over) then RR_TRANSPORT_OK else RR_TRANSPORT_IO_ERROR), Some c)
  end.

Definition queued (m : mongoose) : Z := match m with Some c => Z.of_nat (length (send c)) | None => 0 end.

Definition closing (m : mongoose) : mongoose :=
  match m with Some c => Some (Connection true (is_draining c) (is_websocket c) (is_tls c) (is_client c) (send c)) | None => None end.

Definition mongoose_ops : driver_ops mongoose :=
  Driver mongoose RR_TRANSPORT_ABI_VERSION
    (Z.lor (Z.lor RR_TRANSPORT_RELIABLE_MESSAGES RR_TRANSPORT_BINARY_MESSAGES) RR_TRANSPORT_TLS_ENCRYPTED)
    (Some mongoose_capabilities) (Some (send_frame WEBSOCKET_OP_TEXT)) (Some (send_frame WEBSOCKET_OP_BINARY)) (Some queued)
    None None None None None (Some closing).

(** [o]: the outcomes of the two allocations. *)
Definition rr_transport_mongoose_adopt (c : option connection) (cb : bool) (o : allocs) : option (transport mongoose) :=
  match c with
  | None => None
  | Some c =>
      let '(ok, o) := alloc o in
      if ok : bool then let '(ok, o) := alloc o in rr_transport_new (Some mongoose_ops) (Some c) cb ok else None
  end.

Definition rr_transport_mongoose_open (t : option (transport mongoose)) : option (transport mongoose) :=
  rr_transport_emit t RR_TRANSPORT_EVENT_OPEN (Null 0).

Definition rr_transport_mongoose_closed (t : option (transport mongoose)) : option (transport mongoose) :=
  match t with
  | None => None
  | Some t => rr_transport_emit (Some (set_driver t None)) RR_TRANSPORT_EVENT_CLOSE (Null 0)
  end.

Definition rr_transport_mongoose_release (t : option (transport mongoose)) : option (transport mongoose) :=
  if negb (bool_decide (rr_transport_state t = RR_TRANSPORT_CLOSED)) then t else rr_transport_free t.

End mongoose.

(** ** The order of the events *)

Inductive phase := Before | During | After.

(** What a callback may be called with next: errors and the end at any time, the
    opening once, all else only between the opening and the end; nothing after. *)
Definition next (p : phase) (e : transport_event) : option phase :=
  match p, e with
  | After, _ => None
  | _, RR_TRANSPORT_EVENT_CLOSE => Some After
  | _, RR_TRANSPORT_EVENT_ERROR => Some p
  | Before, RR_TRANSPORT_EVENT_OPEN => Some During
  | Before, _ => None
  | During, RR_TRANSPORT_EVENT_OPEN => None
  | During, _ => Some During
  end.

Fixpoint follow (p : phase) (l : list (transport_event * payload)) : option phase :=
  match l with
  | [] => Some p
  | (e, _) :: l => p ← next p e; follow p l
  end.

Lemma follow_snoc p l e d : follow p (l ++ [(e, d)]) = (q ← follow p l; next q e).
Proof. revert p. induction l as [| [e' d'] l IH]; intros p; cbn [app follow mbind option_bind]; [by destruct (next p e) |]. destruct (next p e'); [apply IH | done]. Qed.

(** The phase that goes with a state. *)
Definition matches (s : transport_state) (p : phase) : Prop :=
  match s with
  | RR_TRANSPORT_CONNECTING => p = Before
  | RR_TRANSPORT_OPEN => p = During
  | RR_TRANSPORT_CLOSING => p <> After
  | RR_TRANSPORT_CLOSED => p = After
  end.

Definition rank (s : transport_state) : nat :=
  match s with RR_TRANSPORT_CONNECTING => 0 | RR_TRANSPORT_OPEN => 1 | RR_TRANSPORT_CLOSING => 2 | RR_TRANSPORT_CLOSED => 3 end.

Section order.
Context {D : Type}.

Definition consistent (t : transport D) : Prop :=
  callback t = true /\ exists p, follow Before (delivered t) = Some p /\ matches (state t) p.

Lemma consistent_driver t d : consistent t -> consistent (set_driver t d).
Proof. done. Qed.

(** An event that its state lets through. *)
Lemma deliver_consistent t s e d p q :
  callback t = true -> follow Before (delivered t) = Some p -> next p e = Some q -> matches s q -> consistent (deliver (set_state t s) e d).
Proof.
  intros Hc Hf Hn Hm. unfold deliver, set_state. cbn [callback]. rewrite Hc. split; [done |]. exists q. cbn [delivered state ops driver].
  by rewrite follow_snoc, Hf.
Qed.

Lemma deliver_same (t : transport D) e d : deliver t e d = deliver (set_state t (state t)) e d.
Proof. by destruct t. Qed.

Lemma emit_consistent (t : transport D) e d t' :
  consistent t -> rr_transport_emit (Some t) e d = Some t' -> consistent t' /\ (rank (state t) <= rank (state t'))%nat.
Proof.
  intros (Hc & p & Hf & Hm). unfold rr_transport_emit. destruct (state t) eqn:Es; cbn [matches] in Hm.
  - subst p. destruct e; cbn; intros [= <-];
      try (split; [by split; [| exists Before; rewrite Es] | rewrite Es; cbn; lia]).
    + split; [by eapply deliver_consistent | unfold deliver; case_match; cbn; lia].
    + split; [by eapply deliver_consistent | unfold deliver; case_match; cbn; lia].
    + rewrite (deliver_same t). split; [rewrite Es; by eapply deliver_consistent | unfold deliver; case_match; cbn; rewrite ?Es; cbn; lia].
  - subst p. destruct e; cbn; intros [= <-];
      try (split; [by split; [| exists During; rewrite Es] | rewrite Es; cbn; lia]);
      try (split; [by eapply deliver_consistent | unfold deliver; case_match; cbn; lia]);
      (rewrite (deliver_same t); split; [rewrite Es; by eapply deliver_consistent | unfold deliver; case_match; cbn; rewrite ?Es; cbn; lia]).
  - destruct e; cbn; intros [= <-];
      try (split; [by split; [| exists p; rewrite Es] | rewrite Es; cbn; lia]).
    + split; [eapply deliver_consistent; [done | done | by destruct p | done] | unfold deliver; case_match; cbn; lia].
    + rewrite (deliver_same t). split; [rewrite Es; eapply deliver_consistent; [done | done | by destruct p | done] | unfold deliver; case_match; cbn; rewrite ?Es; cbn; lia].
  - cbn. intros [= <-]. split; [by split; [| exists p; rewrite Es] | rewrite Es; done].
Qed.

Lemma close_consistent (t : transport D) t' : consistent t -> rr_transport_close (Some t) = Some t' -> consistent t' /\ (rank (state t) <= rank (state t'))%nat.
Proof.
  intros Ht. unfold rr_transport_close. destruct (_ || _) eqn:E; [intros [= <-]; split; [done | lia] |].
  apply orb_false_iff in E as [E1 E2]. rewrite bool_decide_eq_false in E1, E2.
  assert (consistent (set_state t RR_TRANSPORT_CLOSING) /\ (rank (state t) <= 2)%nat) as [Hs Hr].
  { destruct Ht as (Hc & p & Hf & Hm). split; [| destruct (state t); cbn; done || lia]. split; [done |]. exists p. split; [done |].
    cbn [state set_state matches]. intros ->. by destruct (state t). }
  destruct (close (ops (set_state t RR_TRANSPORT_CLOSING))) as [f |].
  - intros [= <-]. split; [exact Hs | exact Hr].
  - intros He. destruct (emit_consistent _ _ _ _ Hs He) as [Ht' Hr']. split; [done |]. cbn [state set_state rank] in Hr'. lia.
Qed.

(** What is done to a transport: events of the driver, calls of the application and
    of its callback, in any order; and whatever the driver does by itself. *)
Inductive step : transport D -> transport D -> Prop :=
  | step_emit t e d t' : rr_transport_emit (Some t) e d = Some t' -> step t t'
  | step_close t t' : rr_transport_close (Some t) = Some t' -> step t t'
  | step_free t t' : rr_transport_free (Some t) = Some t' -> step t t'
  | step_send op cap t d r t' : send_with op cap (Some t) d = (r, Some t') -> step t t'
  | step_stream t id r n t' : rr_transport_open_stream (Some t) id = (r, n, Some t') -> step t t'
  | step_poll t timeout r t' : rr_transport_poll (Some t) timeout = (r, Some t') -> step t t'
  | step_driver t d : step t (set_driver t d).

Lemma step_consistent t t' : step t t' -> consistent t -> consistent t' /\ (rank (state t) <= rank (state t'))%nat.
Proof.
  intros Hs Ht. destruct Hs as [t e d t' H | t t' H | t t' H | op cap t d r t' H | t id r n t' H | t timeout r t' H | t d].
  - by apply (emit_consistent t e d).
  - by apply close_consistent.
  - unfold rr_transport_free in H. destruct (negb _); [by apply close_consistent | done].
  - unfold send_with in H. destruct (negb _); [by injection H as _ <- |]. destruct (op (ops t)); [| by injection H as _ <-].
    destruct (p (driver t) d) as [r' d']. by injection H as _ <-.
  - unfold rr_transport_open_stream in H. destruct (negb (_ =? _)); [by injection H as _ _ <- |]. destruct id; cbn [negb] in H; [| by injection H as _ _ <-].
    destruct (open_stream (ops t)); [| by injection H as _ _ <-]. destruct (p (driver t)) as [[r' n'] d']. by injection H as _ _ <-.
  - unfold rr_transport_poll in H. destruct (timeout <? 0); [by injection H as _ <- |]. destruct (bool_decide _); [by injection H as _ <- |].
    destruct (poll (ops t)); [| by injection H as _ <-]. destruct (p (driver t) timeout) as [r' d']. by injection H as _ <-.
  - done.
Qed.

(** C39: in every history of a transport with a callback, from its creation, the
    callback sees the opening at most once and before any data, data only between
    the opening and the end, the end at most once and last; it has seen the end
    exactly when the transport is closed, and the state only goes forward. *)
Theorem transport_events_ordered o d ok t0 t1 t2 :
  rr_transport_new (Some o) d true ok = Some t0 -> rtc step t0 t1 -> rtc step t1 t2 ->
  (rank (state t1) <= rank (state t2))%nat /\
  exists p, follow Before (delivered t2) = Some p /\ (p = After <-> state t2 = RR_TRANSPORT_CLOSED) /\
    (state t2 = RR_TRANSPORT_CONNECTING -> p = Before) /\ (state t2 = RR_TRANSPORT_OPEN -> p = During).
Proof.
  intros Hnew H1 H2. assert (consistent t0) as H0.
  { unfold rr_transport_new in Hnew. destruct (negb _); [done |]. destruct ok; [| done]. injection Hnew as <-. split; [done |]. by exists Before. }
  assert (forall a b, rtc step a b -> consistent a -> consistent b /\ (rank (state a) <= rank (state b))%nat) as Hrtc.
  { intros a b H. induction H as [| a b c Hab _ IH]; [done |]. intros Ha. destruct (step_consistent _ _ Hab Ha) as [Hb Hle].
    destruct (IH Hb). split; [done | lia]. }
  destruct (Hrtc _ _ H1 H0) as [Hc1 _]. destruct (Hrtc _ _ H2 Hc1) as [(_ & p & Hf & Hm) Hle]. split; [done |]. exists p. split; [done |].
  destruct (state t2); cbn [matches] in Hm; subst; split_and!; try done; by split.
Qed.

(** What reaches a driver: only valid data, only while open, only with the
    capability; otherwise the status says why and nothing changes. *)
Theorem send_gated op cap (t : transport D) data r t' :
  send_with op cap (Some t) data = (r, Some t') ->
  (exists f, op (ops t) = Some f /\ state t = RR_TRANSPORT_OPEN /\ granted t cap = true /\ missing data = false /\
     f (driver t) data = (r, driver t') /\ t' = set_driver t (driver t')) \/
  (t' = t /\ (r = RR_TRANSPORT_INVALID /\ missing data = true \/ r = RR_TRANSPORT_CLOSED_ERROR /\ state t <> RR_TRANSPORT_OPEN \/
     r = RR_TRANSPORT_UNSUPPORTED /\ (granted t cap = false \/ op (ops t) = None))).
Proof.
  unfold send_with, check. destruct (missing data) eqn:Em; [intros [= <- <-]; by right; split; [| left] |].
  destruct (decide (state t = RR_TRANSPORT_OPEN)) as [Es | Es]; [rewrite bool_decide_eq_true_2 by done | rewrite bool_decide_eq_false_2 by done; intros [= <- <-]; right; split; [done |]; right; by left].
  cbn [negb]. destruct (granted t cap) eqn:Eg; [| intros [= <- <-]; right; split; [done |]; right; right; split; [done | by left]]. cbn.
  destruct (op (ops t)) as [f |] eqn:Eo; [| intros [= <- <-]; right; split; [done |]; right; right; split; [done | by right]].
  destruct (f (driver t) data) as [r' d] eqn:Ef. intros [= <- <-]. left. exists f. cbn [driver set_driver]. done.
Qed.

End order.

(** ** WebSockets *)

(** What mongoose promises: the frame, with its header, after what is queued. *)
Class MgWsLaws `{MgWs} : Prop := {
  ws_appends c d op : exists frame,
    mg_ws_send c d op = Connection (is_closing c) (is_draining c) (is_websocket c) (is_tls c) (is_client c) (send c ++ frame) /\
    Z.of_nat (length frame) = Z.of_nat (length d) + overhead (is_client c) (Z.of_nat (length d)) }.

Section websocket.
Context `{MgWsLaws}.

Lemma overhead_range client len : 2 <= overhead client len <= 14.
Proof. unfold overhead. destruct (len <? 126), (len <=? 65535), client; lia. Qed.

(** A frame that the buffer can hold is queued whole; one that it cannot is refused
    before anything is queued. *)
Lemma send_frame_cases op c d :
  is_closing c = false -> is_draining c = false -> is_websocket c = true -> Z.of_nat (length d) <= SIZE_MAX - 14 ->
  let total := Z.of_nat (length (send c)) + Z.of_nat (length d) + overhead (is_client c) (Z.of_nat (length d)) in
  if SIZE_MAX <? total then send_frame op (Some c) (Data d) = (RR_TRANSPORT_BACKPRESSURE, Some c)
  else exists frame, send_frame op (Some c) (Data d) =
    (RR_TRANSPORT_OK, Some (Connection (is_closing c) (is_draining c) (is_websocket c) (is_tls c) (is_client c) (send c ++ frame))) /\
    Z.of_nat (length (send c ++ frame)) = total.
Proof.
  intros Hc Hd Hw Hlen total. unfold send_frame. rewrite Hc, Hd, Hw. cbn [negb orb missing plen].
  rewrite (proj2 (Z.ltb_ge (SIZE_MAX - 14) (Z.of_nat (length d)))) by done.
  set (overhead (is_client c) (Z.of_nat (length d))) as over in *. destruct (Z.ltb_spec SIZE_MAX total) as [Ht | Ht].
  - rewrite (proj2 (Z.ltb_lt (SIZE_MAX - Z.of_nat (length d) - over) (Z.of_nat (length (send c))))) by lia. done.
  - rewrite (proj2 (Z.ltb_ge (SIZE_MAX - Z.of_nat (length d) - over) (Z.of_nat (length (send c))))) by lia.
    destruct (ws_appends c d op) as (frame & -> & Hf). fold over in Hf. exists frame. cbn [send]. rewrite Hc, Hd, Hw, length_app, Nat2Z.inj_add.
    rewrite (proj2 (Z.leb_le _ _)) by lia. rewrite (proj2 (Z.eqb_eq _ _)) by lia. split; [done | lia].
Qed.

(** Over an upgraded connection a message of the application is queued as one
    whole frame, or refused with BACKPRESSURE and nothing queued when the buffer could
    not hold it; once the application has closed the transport the connection is
    marked for closing, and every message is refused; and once mongoose has closed
    the connection, the driver has let go of it. *)
Theorem websocket_session c d cb :
  is_closing c = false -> is_draining c = false -> is_websocket c = true -> Z.of_nat (length d) <= SIZE_MAX - 14 ->
  exists t, rr_transport_mongoose_open (rr_transport_mongoose_adopt (Some c) cb []) = Some t /\
  state t = RR_TRANSPORT_OPEN /\
  (let total := Z.of_nat (length (send c)) + Z.of_nat (length d) + overhead (is_client c) (Z.of_nat (length d)) in
   if SIZE_MAX <? total then rr_transport_send_message (Some t) (Data d) = (RR_TRANSPORT_BACKPRESSURE, Some t)
   else exists t' frame, rr_transport_send_message (Some t) (Data d) = (RR_TRANSPORT_OK, Some t') /\
     rr_transport_queued_bytes (Some t') = total /\
     driver t' = Some (Connection false false true (is_tls c) (is_client c) (send c ++ frame))) /\
  exists t', rr_transport_close (Some t) = Some t' /\ driver t' = closing (Some c) /\
    (forall p, missing p = false -> rr_transport_send_message (Some t') p = (RR_TRANSPORT_CLOSED_ERROR, Some t')) /\
    exists t'', rr_transport_mongoose_closed (Some t') = Some t'' /\ driver t'' = None /\ state t'' = RR_TRANSPORT_CLOSED /\
      rr_transport_mongoose_release (Some t'') = None.
Proof.
  intros Hc Hd Hw Hlen. exists (deliver (Transport mongoose_ops (Some c) cb RR_TRANSPORT_OPEN []) RR_TRANSPORT_EVENT_OPEN (Null 0)).
  split; [reflexivity |]. split; [by destruct cb |]. split.
  - pose proof (send_frame_cases WEBSOCKET_OP_TEXT c d Hc Hd Hw Hlen) as Hs. cbv zeta in *.
    assert (forall r m, send_frame WEBSOCKET_OP_TEXT (Some c) (Data d) = (r, m) ->
      rr_transport_send_message (Some (deliver (Transport mongoose_ops (Some c) cb RR_TRANSPORT_OPEN []) RR_TRANSPORT_EVENT_OPEN (Null 0))) (Data d) =
      (r, Some (set_driver (deliver (Transport mongoose_ops (Some c) cb RR_TRANSPORT_OPEN []) RR_TRANSPORT_EVENT_OPEN (Null 0)) m))) as Hmsg.
    { intros r m E. unfold rr_transport_send_message, send_with, check, granted, rr_transport_capabilities.
      destruct cb; cbn [deliver callback state ops driver missing negb connection_capabilities mongoose_ops capabilities send_message];
        rewrite bool_decide_eq_true_2 by done; cbn [negb]; unfold mongoose_capabilities;
        destruct (is_tls c && is_websocket c && negb (is_closing c)); cbn -[send_frame]; rewrite E; reflexivity. }
    destruct (SIZE_MAX <? _).
    + rewrite (Hmsg _ _ Hs). by destruct cb.
    + destruct Hs as (frame & Hs & Htot). eexists _, frame. split; [exact (Hmsg _ _ Hs) |]. split; [by destruct cb |].
      cbn [driver set_driver]. by rewrite Hc, Hd, Hw.
  - set (deliver _ _ _) as t. exists (set_driver (set_state t RR_TRANSPORT_CLOSING) (closing (Some c))).
    split; [unfold t; by destruct cb |]. split; [done |]. split.
    + intros p Hp. unfold rr_transport_send_message, send_with, check. by rewrite Hp.
    + exists (deliver (set_state (set_driver (set_driver (set_state t RR_TRANSPORT_CLOSING) (closing (Some c))) None) RR_TRANSPORT_CLOSED)
        RR_TRANSPORT_EVENT_CLOSE (Null 0)).
      split; [reflexivity |]. unfold t. by destruct cb.
Qed.

End websocket.

(** ** A frame writer to try it on: the header's size, zero bytes, no mask *)

#[export] Instance plain_ws : MgWs := {|
  mg_ws_send c d op := Connection (is_closing c) (is_draining c) (is_websocket c) (is_tls c) (is_client c)
    (send c ++ replicate (Z.to_nat (overhead (is_client c) (Z.of_nat (length d)))) NUL ++ d) |}.

#[export] Instance plain_ws_laws : MgWsLaws.
Proof.
  split. intros c d op. eexists. split; [reflexivity |]. rewrite length_app, length_replicate.
  pose proof (overhead_range (is_client c) (Z.of_nat (length d))). lia.
Qed.

Definition upgraded : connection := Connection false false true true false [].

Theorem websocket_session_witness :
  exists t, rr_transport_mongoose_open (rr_transport_mongoose_adopt (Some upgraded) true []) = Some t /\ state t = RR_TRANSPORT_OPEN.
Proof.
  destruct (websocket_session upgraded (B "hello") true) as (t & H1 & H2 & _);
    [reflexivity | reflexivity | reflexivity | apply Z.leb_le; reflexivity | exact (ex_intro _ t (conj H1 H2))].
Defined.

Theorem transport_events_ordered_witness :
  exists t0 t2, rr_transport_new (Some mongoose_ops) (Some upgraded) true true = Some t0 /\
  rr_transport_mongoose_closed (rr_transport_mongoose_open (Some t0)) = Some t2 /\
  follow Before (delivered t2) = Some After.
Proof.
  eexists _, _. split; [reflexivity |]. split; [reflexivity |].
  destruct (transport_events_ordered mongoose_ops (Some upgraded) true
    (Transport mongoose_ops (Some upgraded) true RR_TRANSPORT_CONNECTING [])
    (Transport mongoose_ops (Some upgraded) true RR_TRANSPORT_OPEN [(RR_TRANSPORT_EVENT_OPEN, Null 0)])
    (Transport mongoose_ops None true RR_TRANSPORT_CLOSED [(RR_TRANSPORT_EVENT_OPEN, Null 0); (RR_TRANSPORT_EVENT_CLOSE, Null 0)]))
    as (_ & p & Hp & Hclosed & _).
  - reflexivity.
  - eapply rtc_l; [| apply rtc_refl]. apply (step_emit _ RR_TRANSPORT_EVENT_OPEN (Null 0)). reflexivity.
  - eapply rtc_l; [apply (step_driver _ None) |]. eapply rtc_l; [| apply rtc_refl]. apply (step_emit _ RR_TRANSPORT_EVENT_CLOSE (Null 0)). reflexivity.
  - rewrite (proj2 Hclosed eq_refl) in Hp. exact Hp.
Defined.
