(* ===== verification/FileIo.v ===== *)
(** * Files and descriptors (util.file.c, io.c, io.socket.c)

    The tests on a path, the creation of a directory with those above it, and the
    descriptor that [rr_io_open] opens.  The file system is the class [FileSys]; the
    calls on sockets and devices are answered by lists, and record what is closed. *)

From S2P Require Import Prelude.

#[local] Open Scope Z_scope.

(** ** Paths *)

Inductive kind := Directory | Regular | Fifo | Link | Other.

#[export] Instance kind_dec : EqDecision kind.
Proof. solve_decision. Defined.

(** [stat], which follows links, and [mkdir], with the error if it fails. *)
Class FileSys (W : Type) := { stat : bstr -> W -> option kind; mkdir : bstr -> W -> option Z * W }.

Definition EEXIST : Z := 17.

Section paths.
Context {W : Type} `{FileSys W}.

Definition is_kind (k : kind) (path : bstr) (w : W) : bool := bool_decide (stat path w = Some k).

Definition file_exists (path : bstr) (w : W) : bool := match stat path w with Some _ => true | None => false end.
Definition is_dir : bstr -> W -> bool := is_kind Directory.
Definition is_link : bstr -> W -> bool := is_kind Link.
Definition is_fifo : bstr -> W -> bool := is_kind Fifo.
Definition is_file : bstr -> W -> bool := is_kind Regular.

Definition separator (c : ascii) : bool := bool_decide (c = "/"%char) || bool_decide (c = "\"%char).

(** One directory: made, or there already. *)
Definition make (work : bstr) (w : W) : bool * W :=
  if (length work =? 0)%nat || streq work (B ".") then (true, w)
  else
    match mkdir work w with
    | (None, w) => (true, w)
    | (Some e, w) => ((e =? EEXIST) && is_dir work w, w)
    end.

(** [work]: the path up to the character that is looked at. *)
Fixpoint mkdir_loop (work rest : bstr) (w : W) : bool * W :=
  match rest with
  | [] => make work w
  | c :: rest =>
      if separator c then
        let '(ok, w) := make work w in
        if ok : bool then mkdir_loop (work ++ [c]) rest w else (false, w)
      else mkdir_loop (work ++ [c]) rest w
  end.

(** [ok]: [strdup] succeeds. *)
Definition mkdir_p (path : option bstr) (ok : bool) (w : W) : bool * W :=
  match path with
  | Some (c :: path) => if ok then mkdir_loop [] (c :: path) w else (false, w)
  | _ => (false, w)
  end.

End paths.

(** ** Descriptors *)

Inductive io_type := INPUT_SOCKET | INPUT_DEVICE | INPUT_PIPE | INPUT_OTHER (n : Z).

(** [rr_io_context_t] *)
Record io_context := IoContext { io_kind : io_type; fd : Z }.

(** What the calls return: a new descriptor, whether the address is one and the
    connection is made; and the descriptors closed. *)
Record io := Io { opened : list Z; connects : list bool; closed : list Z }.

Definition open_fd (s : io) : Z * io :=
  match opened s with
  | [] => (-1, s)
  | x :: l => (x, Io l (connects s) (closed s))
  end.

Definition attempt (s : io) : bool * io :=
  match connects s with
  | [] => (true, s)
  | b :: l => (b, Io (opened s) l (closed s))
  end.

Definition close (x : Z) (s : io) : io := Io (opened s) (connects s) (closed s ++ [x]).

(** [address]: the path is an address that [inet_pton] takes. *)
Definition rr_io_open (ctx : option io_context) (type : io_type) (address : bool) (s : io) : Z * option io_context * io :=
  match ctx with
  | None => (-1, ctx, s)
  | Some c =>
      let c := IoContext type (fd c) in
      match type with
      | INPUT_SOCKET =>
          let '(x, s) := open_fd s in
          let c := IoContext type x in
          if x <? 0 then (-1, Some c, s)
          else if negb address then (-1, Some c, close x s)
          else
            let '(ok, s) := attempt s in
            if negb ok then (-1, Some c, close x s) else (0, Some c, s)
      | INPUT_DEVICE | INPUT_PIPE =>
          let '(x, s) := open_fd s in
          let c := IoContext type x in
          if x <? 0 then (-1, Some c, s) else (0, Some c, s)
      | INPUT_OTHER _ => (-1, Some c, s)
      end
  end.

Definition rr_io_close (ctx : option io_context) (s : io) : option io_context * io :=
  match ctx with
  | Some c => if 0 <=? fd c then (Some (IoContext (io_kind c) (-1)), close (fd c) s) else (ctx, s)
  | None => (ctx, s)
  end.

(** Reading and writing go to the descriptor if there is one; [None] is -1. *)
Definition rr_io_read (ctx : option io_context) (buffer : bool) : option Z :=
  match ctx with Some c => if (fd c <? 0) || negb buffer then None else Some (fd c) | None => None end.

Definition rr_io_write (ctx : option io_context) : option Z :=
  match ctx with Some c => if fd c <? 0 then None else Some (fd c) | None => None end.

Definition rr_io_init : bool := false.

(** * What they promise *)

(** ** Directories *)

(** The paths that must be directories in the end: what stands before each
    separator, and the whole. *)
Fixpoint parents (work rest : bstr) : list bstr :=
  match rest with
  | [] => [work]
  | c :: rest => if separator c then work :: parents (work ++ [c]) rest else parents (work ++ [c]) rest
  end.

Definition named (p : bstr) : Prop := p <> [] /\ p <> B ".".

(** A directory that was made is one, and none is unmade; a link is never the kind
    of what [stat] finds. *)
Class FileSysLaws (W : Type) `{FileSys W} : Prop := {
  stat_no_link p w : stat p w <> Some Link;
  mkdir_made p w w' : mkdir p w = (None, w') -> stat p w' = Some Directory;
  mkdir_keeps p q w : stat q w = Some Directory -> stat q (mkdir p w).2 = Some Directory;
  mkdir_exists p w : stat p w = Some Directory -> mkdir p w = (Some EEXIST, w) }.

Section laws.
Context {W : Type} `{FileSysLaws W}.

(** [is_link] asks [stat], which follows links. *)
Theorem is_link_never p w : is_link p w = false.
Proof. unfold is_link, is_kind. apply bool_decide_eq_false_2, stat_no_link. Qed.

Lemma make_spec work w :
  let '(ok, w') := make work w in
  (forall q, stat q w = Some Directory -> stat q w' = Some Directory) /\
  (ok = true -> named work -> stat work w' = Some Directory).
Proof.
  unfold make, named. destruct (Nat.eqb_spec (length work) 0) as [E | E]; [split; [done |]; intros _ [Hn _]; by destruct work |].
  destruct (streq work (B ".")) eqn:Es; [apply streq_true in Es; split; [done |]; by intros _ [_ Hn] |]. cbn [orb].
  pose proof (mkdir_keeps work) as Hk. destruct (mkdir work w) as [[e |] w'] eqn:Em.
  - split; [intros q Hq; specialize (Hk q w Hq); by rewrite Em in Hk |]. intros [_ Hd]%andb_true_iff _. unfold is_dir, is_kind in Hd. by apply bool_decide_eq_true in Hd.
  - split; [intros q Hq; specialize (Hk q w Hq); by rewrite Em in Hk |]. intros _ _. by apply mkdir_made in Em.
Qed.

Lemma mkdir_loop_spec work rest w :
  let '(ok, w') := mkdir_loop work rest w in
  (forall q, stat q w = Some Directory -> stat q w' = Some Directory) /\
  (ok = true -> Forall (fun p => named p -> stat p w' = Some Directory) (parents work rest)).
Proof.
  revert work w. induction rest as [| c rest IH]; intros work w; cbn [mkdir_loop parents].
  - pose proof (make_spec work w) as Hm. destruct (make work w) as [ok w']. destruct Hm as [Hk Hm]. split; [done |].
    intros Hok. apply Forall_singleton. auto.
  - destruct (separator c); [| apply IH]. pose proof (make_spec work w) as Hm. destruct (make work w) as [[] w1]; [| by destruct Hm].
    destruct Hm as [Hk Hm]. specialize (IH (work ++ [c]) w1). destruct (mkdir_loop (work ++ [c]) rest w1) as [ok w']. destruct IH as [Hk' IH].
    split; [auto |]. intros Hok. apply Forall_cons. split; [auto | by apply IH].
Qed.

(** When [mkdir_p] succeeds, the path and every path before one of its separators is
    a directory; no directory is lost, whether it succeeds or not. *)
Theorem mkdir_p_makes path ok w w' r :
  mkdir_p (Some path) ok w = (r, w') ->
  (forall q, stat q w = Some Directory -> stat q w' = Some Directory) /\
  (r = true -> path <> [] /\ Forall (fun p => named p -> stat p w' = Some Directory) (parents [] path)).
Proof.
  unfold mkdir_p. destruct path as [| c path]; [by intros [= <- <-] |]. destruct ok; [| by intros [= <- <-]].
  pose proof (mkdir_loop_spec [] (c :: path) w) as Hs. intros E. rewrite E in Hs. destruct Hs as [Hk Hs]. split; [done |]. intros Hr. split; [done | auto].
Qed.

(** Where the path exists, nothing is changed. *)
Theorem mkdir_p_exists path w :
  path <> [] -> Forall (fun p => named p -> stat p w = Some Directory) (parents [] path) -> mkdir_p (Some path) true w = (true, w).
Proof.
  intros Hne Hall. assert (forall work, (named work -> stat work w = Some Directory) -> make work w = (true, w)) as Hmake.
  { intros work Hw. unfold make. destruct (_ || _) eqn:E; [done |]. apply orb_false_iff in E as [E1 E2]. apply Nat.eqb_neq in E1. apply streq_false in E2.
    assert (stat work w = Some Directory) as Hs by (apply Hw; split; [by intros -> | done]). rewrite (mkdir_exists work w Hs).
    unfold is_dir, is_kind. by rewrite bool_decide_eq_true_2. }
  assert (forall rest work, Forall (fun p => named p -> stat p w = Some Directory) (parents work rest) -> mkdir_loop work rest w = (true, w)) as Hloop.
  { induction rest as [| c rest IH]; intros work; cbn [mkdir_loop parents].
    - intros Hs%Forall_inv. by apply Hmake.
    - destruct (separator c); [| apply IH]. intros [Hw Hs]%Forall_cons. rewrite (Hmake _ Hw). by apply IH. }
  unfold mkdir_p. destruct path; [done |]. by apply Hloop.
Qed.

End laws.

(** ** A tree to try it on: the directories that exist *)

#[export] Instance tree_fs : FileSys (gset bstr) := {|
  stat p w := if decide (p ∈ w) then Some Directory else None;
  mkdir p w := if decide (p ∈ w) then (Some EEXIST, w) else (None, {[p]} ∪ w) |}.

#[export] Instance tree_laws : FileSysLaws (gset bstr).
Proof.
  split; cbn.
  - intros p w. by case_decide.
  - intros p w w'. case_decide; [done |]. intros [= <-]. rewrite decide_True; [done | set_solver].
  - intros p q w Hq. destruct (decide (q ∈ w)) as [Hw |]; [| done]. destruct (decide (p ∈ w)); cbn; rewrite decide_True; done || set_solver.
  - intros p w Hp. by case_decide.
Qed.

Theorem mkdir_p_makes_witness :
  exists w', mkdir_p (Some (B "./a/b")) true ({[B "./a"]} : gset bstr) = (true, w') /\
  Forall (fun p => named p -> stat p w' = Some Directory) (parents [] (B "./a/b")).
Proof.
  exists (mkdir_p (Some (B "./a/b")) true ({[B "./a"]} : gset bstr)).2.
  assert (mkdir_p (Some (B "./a/b")) true ({[B "./a"]} : gset bstr) = (true, (mkdir_p (Some (B "./a/b")) true ({[B "./a"]} : gset bstr)).2)) as E by (vm_compute; reflexivity).
  split; [exact E |]. exact (proj2 (proj2 (mkdir_p_makes _ _ _ _ _ E) eq_refl)).
Defined.

(** ** A connection that fails *)

(** The descriptor of a connection that fails is closed and stays in the context:
    closing the context closes the number a second time, by then perhaps another's. *)
Theorem failed_open_closes_twice c x rest s0 :
  0 <= x ->
  let '(r, ctx, s) := rr_io_open (Some c) INPUT_SOCKET true (Io (x :: rest) [false] s0) in
  r = -1 /\ closed (rr_io_close ctx s).2 = s0 ++ [x; x].
Proof.
  intros Hx. cbn. rewrite (proj2 (Z.ltb_ge x 0)) by done. cbn. rewrite (proj2 (Z.leb_le 0 x)) by done. cbn. by rewrite <- app_assoc.
Qed.

Theorem failed_open_closes_twice_witness :
  let '(r, ctx, s) := rr_io_open (Some (IoContext INPUT_SOCKET (-1))) INPUT_SOCKET true (Io [7] [false] []) in
  r = -1 /\ closed (rr_io_close ctx s).2 = [7; 7].
Proof. apply (failed_open_closes_twice (IoContext INPUT_SOCKET (-1)) 7 [] []). apply Z.leb_le. reflexivity. Defined.
