(* ===== verification/Module.v ===== *)
(** * Loadable modules (module.c)

    The list of loaded modules, and what loading and unloading do with the dynamic
    linker, the class [Dl]: opening and closing an object, and the entry points an
    object may have, which run in the system's state.  An entry point that loads or
    unloads modules itself is not modelled. *)

From S2P Require Import Prelude.

#[local] Open Scope Z_scope.

Class Dl (W : Type) := {
  dlopen : bstr -> W -> option Z * W;
  dlclose : Z -> W -> bool * W;
  rr_module_init : Z -> option (W -> bool * W);
  rr_module_can_unload : Z -> option (W -> bool * W);
  rr_module_shutdown : Z -> option (W -> W);
  modexports : Z -> bool }.

(** [rr_module_t] *)
Record module := Mod { mod_path : bstr; mod_name : bstr; mod_events : bool; dlptr : Z }.

Definition PATH_MAX : nat := 4096.

(** [strstr(s, pattern)] finds something. *)
Fixpoint contains (pattern s : bstr) : bool :=
  bool_decide (take (length pattern) s = pattern) || match s with [] => false | _ :: s => contains pattern s end.

Definition concat_path (dir file : bstr) (suffix : option bstr) : bstr :=
  take (PATH_MAX - 1) (dir ++ B "/" ++ file ++ match suffix with Some s => B "." ++ s | None => [] end).

(** [cpath]: the value of path.modules. *)
Definition rr_find_module (cpath : option bstr) (name : bstr) : option bstr :=
  match cpath with
  | None => None
  | Some cpath => Some (if contains (B ".so") name then concat_path cpath name None else concat_path cpath name (Some (B "so")))
  end.

Definition rr_find_loaded_module (modules : list module) (name : option bstr) : option module :=
  match name with
  | None => None
  | Some name => match list_find (fun m => mod_name m = name) modules with Some (_, m) => Some m | None => None end
  end.

Section loader.
Context {W : Type} `{!Dl W}.

(** [ok]: [calloc] succeeds. *)
Definition rr_load_module (cpath name : option bstr) (ok : bool) (modules : list module) (w : W) : bool * list module * W :=
  match name with
  | None => (false, modules, w)
  | Some n =>
      match rr_find_loaded_module modules name with
      | Some _ => (true, modules, w)
      | None =>
          match rr_find_module cpath n with
          | None => (false, modules, w)
          | Some path =>
              match dlopen path w with
              | (None, w) => (false, modules, w)
              | (Some dp, w) =>
                  if negb ok then (false, modules, (dlclose dp w).2)
                  else
                    let '(good, w) := match rr_module_init dp with Some init => init w | None => (true, w) end in
                    if good : bool then (true, modules ++ [Mod path n (modexports dp) dp], w)
                    else (false, modules, (dlclose dp w).2)
              end
          end
      end
  end.

(** The modules before and after the first of a name. *)
Fixpoint unlink (modules : list module) (name : bstr) : option (list module * module * list module) :=
  match modules with
  | [] => None
  | m :: modules =>
      if streq (mod_name m) name then Some ([], m, modules)
      else '(a, x, b) ← unlink modules name; Some (m :: a, x, b)
  end.

Definition rr_unload_module (name : option bstr) (modules : list module) (w : W) : bool * list module * W :=
  match name with
  | None => (false, modules, w)
  | Some name =>
      match unlink modules name with
      | None => (false, modules, w)
      | Some (before, m, after) =>
          let '(can, w) := match rr_module_can_unload (dlptr m) with Some f => f w | None => (true, w) end in
          if negb can then (false, modules, w)
          else
            let w := match rr_module_shutdown (dlptr m) with Some f => f w | None => w end in
            let '(closed, w) := dlclose (dlptr m) w in
            (closed, before ++ after, w)
      end
  end.

End loader.

(** ** What they promise *)

(** How often an object is open; the entry points leave that alone. *)
Class DlLaws (W : Type) `{!Dl W} := {
  refs : W -> Z -> Z;
  open_refs path w h :
    refs (dlopen path w).2 h = refs w h + match (dlopen path w).1 with Some d => if h =? d then 1 else 0 | None => 0 end;
  close_refs d w h : refs (dlclose d w).2 h = refs w h - (if (dlclose d w).1 && (h =? d) then 1 else 0);
  init_refs d f w h : rr_module_init d = Some f -> refs (f w).2 h = refs w h;
  can_refs d f w h : rr_module_can_unload d = Some f -> refs (f w).2 h = refs w h;
  shutdown_refs d f w h : rr_module_shutdown d = Some f -> refs (f w) h = refs w h;
  (** An object that is open can be closed. *)
  close_open d w : 0 < refs w d -> (dlclose d w).1 = true }.

(** How many loaded modules hold an object. *)
Fixpoint held (modules : list module) (h : Z) : Z :=
  match modules with [] => 0 | m :: modules => (if h =? dlptr m then 1 else 0) + held modules h end.

Lemma held_app a b h : held (a ++ b) h = held a h + held b h.
Proof. induction a as [| m a IH]; cbn [app held]; [done |]. rewrite IH. lia. Qed.

Lemma held_nonneg a h : 0 <= held a h.
Proof. induction a as [| m a IH]; cbn [held]; [done |]. destruct (h =? dlptr m); lia. Qed.

Lemma unlink_spec modules name :
  match unlink modules name with
  | Some (a, m, b) => modules = a ++ m :: b /\ mod_name m = name
  | None => name ∉ map mod_name modules
  end.
Proof.
  induction modules as [| x modules IH]; cbn [unlink map]; [apply not_elem_of_nil |].
  destruct (streq (mod_name x) name) eqn:E; [apply streq_true in E; by split |]. apply streq_false in E.
  destruct (unlink modules name) as [[[a m] b] |]; cbn [mbind option_bind].
  - destruct IH as [-> Hm]. by split.
  - apply not_elem_of_cons. split; [congruence | done].
Qed.

Lemma find_loaded modules name :
  match rr_find_loaded_module modules (Some name) with
  | Some m => m ∈ modules /\ mod_name m = name
  | None => name ∉ map mod_name modules
  end.
Proof.
  unfold rr_find_loaded_module. destruct (list_find _ modules) as [[i m] |] eqn:E.
  - apply list_find_Some in E as (Hi & Hm & _). by apply list_elem_of_lookup_2 in Hi.
  - apply list_find_None in E. rewrite Forall_forall in E. intros (m & -> & Hm)%list_elem_of_fmap. by apply (E m Hm).
Qed.

Section laws.
Context {W : Type} `{DlLaws W}.

(** Names are distinct, and each object is open once for each module that holds it,
    above [w0]. *)
Definition accounted (w0 : W) (modules : list module) (w : W) : Prop :=
  NoDup (map mod_name modules) /\ forall h, refs w h = refs w0 h + held modules h.

Lemma load_accounted w0 cpath name ok modules w r modules' w' :
  rr_load_module cpath name ok modules w = (r, modules', w') -> (forall h, 0 <= refs w0 h) -> accounted w0 modules w ->
  accounted w0 modules' w' /\
  (r = true -> exists n m, name = Some n /\ m ∈ modules' /\ mod_name m = n) /\ (r = false -> modules' = modules).
Proof.
  intros Hl H0 [Hnd Hrefs]. unfold rr_load_module in Hl. destruct name as [n |]; [| by injection Hl as <- <- <-].
  pose proof (find_loaded modules n) as Hf. destruct (rr_find_loaded_module modules (Some n)) as [m |].
  { injection Hl as <- <- <-. split; [done |]. split; [| done]. intros _. by exists n, m. }
  destruct (rr_find_module cpath n) as [path |]; [| by injection Hl as <- <- <-].
  pose proof (open_refs path w) as Ho. destruct (dlopen path w) as [[dp |] w1]; cbn [fst snd] in Ho.
  2: { injection Hl as <- <- <-. split; [| done]. split; [done |]. intros h. rewrite Ho, Hrefs. lia. }
  assert (forall w2, (forall h, refs w2 h = refs w1 h) -> forall h, refs (dlclose dp w2).2 h = refs w0 h + held modules h) as Hclose.
  { intros w2 E h. rewrite close_refs, close_open.
    - rewrite E, Ho, Hrefs. cbn [andb]. lia.
    - rewrite E, Ho, Hrefs, Z.eqb_refl. pose proof (H0 dp). pose proof (held_nonneg modules dp). lia. }
  destruct ok; cbn [negb] in Hl; [| injection Hl as <- <- <-; split; [split; [done | by apply Hclose] | done]].
  assert (forall good w2, match rr_module_init dp with Some init => init w1 | None => (true, w1) end = (good, w2) -> forall h, refs w2 h = refs w1 h) as Hinit.
  { intros good w2. destruct (rr_module_init dp) as [f |] eqn:E; [| by intros [= _ <-]]. intros Hi h. pose proof (init_refs dp f w1 h E) as Hr. by rewrite Hi in Hr. }
  destruct (match rr_module_init dp with Some init => init w1 | None => (true, w1) end) as [good w2] eqn:Ei. specialize (Hinit _ _ eq_refl).
  destruct good; injection Hl as <- <- <-; [| by split; [split; [done | apply Hclose] |]].
  split; [split |].
  - rewrite map_app. apply NoDup_app. split; [done |]. split; [| by apply NoDup_singleton]. intros x Hx Hx2%list_elem_of_singleton. cbn in Hx2. by subst.
  - intros h. rewrite Hinit, Ho, Hrefs, held_app. cbn [held dlptr]. lia.
  - split; [| done]. intros _. eexists n, _. split; [done |]. split; [apply elem_of_app; right; by left | done].
Qed.

Lemma unload_accounted w0 name modules w r modules' w' :
  rr_unload_module name modules w = (r, modules', w') -> (forall h, 0 <= refs w0 h) -> accounted w0 modules w ->
  accounted w0 modules' w' /\
  (r = true -> exists n, name = Some n /\ n ∉ map mod_name modules' /\ (length modules' < length modules)%nat) /\ (r = false -> modules' = modules).
Proof.
  intros Hl H0 [Hnd Hrefs]. unfold rr_unload_module in Hl. destruct name as [n |]; [| by injection Hl as <- <- <-].
  pose proof (unlink_spec modules n) as Hu. destruct (unlink modules n) as [[[a m] b] |]; [| by injection Hl as <- <- <-]. destruct Hu as [-> Hname].
  assert (forall can w1, match rr_module_can_unload (dlptr m) with Some f => f w | None => (true, w) end = (can, w1) -> forall h, refs w1 h = refs w h) as Hcan.
  { intros can w1. destruct (rr_module_can_unload (dlptr m)) as [f |] eqn:E; [| by intros [= _ <-]]. intros Hi h. pose proof (can_refs _ f w h E) as Hr. by rewrite Hi in Hr. }
  destruct (match rr_module_can_unload (dlptr m) with Some f => f w | None => (true, w) end) as [can w1]. specialize (Hcan _ _ eq_refl).
  destruct can; cbn [negb] in Hl; [| injection Hl as <- <- <-; split; [split; [done | intros h; by rewrite Hcan] | done]].
  set (match rr_module_shutdown (dlptr m) with Some f => f w1 | None => w1 end) as w2 in Hl.
  assert (forall h, refs w2 h = refs w0 h + held (a ++ m :: b) h) as Hw2.
  { intros h. rewrite <- Hrefs, <- Hcan. unfold w2. destruct (rr_module_shutdown (dlptr m)) as [f |] eqn:E; [| done]. by apply (shutdown_refs (dlptr m)). }
  pose proof (close_refs (dlptr m) w2) as Hcl. rewrite close_open in Hcl.
  2: { rewrite Hw2, held_app. cbn [held]. rewrite Z.eqb_refl. pose proof (H0 (dlptr m)). pose proof (held_nonneg a (dlptr m)). pose proof (held_nonneg b (dlptr m)). lia. }
  assert ((dlclose (dlptr m) w2).1 = true) as Hok.
  { apply close_open. rewrite Hw2, held_app. cbn [held]. rewrite Z.eqb_refl. pose proof (H0 (dlptr m)). pose proof (held_nonneg a (dlptr m)). pose proof (held_nonneg b (dlptr m)). lia. }
  destruct (dlclose (dlptr m) w2) as [closed w3]. cbn [fst snd] in *. subst closed. injection Hl as <- <- <-.
  rewrite map_app in Hnd. cbn [map] in Hnd. apply NoDup_app in Hnd as (Ha & Hab & Hmb). apply NoDup_cons in Hmb as [Hm Hb].
  split; [split |].
  - rewrite map_app. apply NoDup_app. split; [done |]. split; [| done]. intros x Hx Hx2. apply (Hab x Hx). by right.
  - intros h. rewrite Hcl, Hw2, !held_app. cbn [held andb]. lia.
  - split; [| done]. intros _. exists n. split; [done |]. rewrite map_app, elem_of_app, !length_app. cbn [length]. split; [| lia].
    intros [Hin | Hin]; [apply (Hab n Hin); rewrite Hname; by left | by rewrite <- Hname in Hin].
Qed.

(** What is done with the list, with any names and outcomes. *)
Inductive change : list module * W -> list module * W -> Prop :=
  | change_load cpath name ok modules w r modules' w' :
      rr_load_module cpath name ok modules w = (r, modules', w') -> change (modules, w) (modules', w')
  | change_unload name modules w r modules' w' : rr_unload_module name modules w = (r, modules', w') -> change (modules, w) (modules', w').

(** In every history of loading and unloading, with failures at any point, no name is
    loaded twice, and the linker has each object open exactly as often as there are
    loaded modules that hold it: none is left open by a load that failed, and none is
    closed under a module that is loaded. *)
Theorem modules_accounted w0 modules w :
  (forall h, 0 <= refs w0 h) -> rtc change ([], w0) (modules, w) ->
  NoDup (map mod_name modules) /\ forall h, refs w h = refs w0 h + held modules h.
Proof.
  intros H0 Hrtc. enough (forall a b, rtc change a b -> accounted w0 a.1 a.2 -> accounted w0 b.1 b.2) as Hinv.
  { apply (Hinv _ _ Hrtc). split; [by apply NoDup_nil | intros h; cbn; lia]. }
  intros a b Hab. induction Hab as [| a b c Hab _ IH]; [done |]. intros Ha. apply IH. clear IH.
  destruct Hab as [cpath name ok ms v r ms' v' Hl | name ms v r ms' v' Hl].
  - by destruct (load_accounted w0 _ _ _ _ _ _ _ _ Hl H0 Ha).
  - by destruct (unload_accounted w0 _ _ _ _ _ _ Hl H0 Ha).
Qed.

End laws.

(** ** A linker to try it on: objects are their paths' lengths *)

#[export] Instance counting_dl : Dl (Z -> Z) := {|
  dlopen path w := (Some (Z.of_nat (length path)), fun h => w h + (if h =? Z.of_nat (length path) then 1 else 0));
  dlclose d w := (0 <? w d, fun h => w h - (if (0 <? w d) && (h =? d) then 1 else 0));
  rr_module_init d := if Z.even d then Some (fun w => (false, w)) else None;
  rr_module_can_unload _ := None;
  rr_module_shutdown _ := None;
  modexports _ := true |}.

#[export] Instance counting_laws : DlLaws (Z -> Z).
Proof.
  refine {| refs w := w |}; cbn; try done.
  - intros d f w h. destruct (Z.even d); [| done]. by intros [= <-].
  - intros d w Hw. by apply Z.ltb_lt.
Defined.

(** The first load fails in its init hook, the second succeeds. *)
Theorem modules_accounted_witness :
  let s1 := rr_load_module (Some (B "/lib")) (Some (B "ab.so")) true [] (fun _ => 0) in
  let s2 := rr_load_module (Some (B "/lib")) (Some (B "a.so")) true s1.1.2 s1.2 in
  NoDup (map mod_name s2.1.2) /\ refs s2.2 9 = 1.
Proof.
  intros s1 s2. destruct (modules_accounted (fun _ => 0) s2.1.2 s2.2) as [H1 H2].
  - intros h. exact (Z.le_refl 0).
  - eapply rtc_l; [apply (change_load (Some (B "/lib")) (Some (B "ab.so")) true _ _ s1.1.1 s1.1.2 s1.2); reflexivity |].
    eapply rtc_l; [| apply rtc_refl]. apply (change_load (Some (B "/lib")) (Some (B "a.so")) true _ _ s2.1.1 s2.1.2 s2.2). reflexivity.
  - split; [exact H1 |]. rewrite (H2 9). reflexivity.
Defined.

(** A name that has ".so" anywhere gets no suffix. *)
Example no_suffix : rr_find_module (Some (B "/lib")) (B "x.sound") = Some (B "/lib/x.sound").
Proof. reflexivity. Qed.
