(* ===== verification/Process.v ===== *)
(** * The process itself (daemon.c, privileges.c, posix.c)

    Going to the background with the pid file, giving up the means to gain
    privileges, and signals.  The first two are sequences of system calls; how each call ends is a field of
    the record of the calls. *)

From S2P Require Import Prelude CString.

#[local] Open Scope Z_scope.

(** ** [daemonize] *)

(** The side of the fork, if it succeeds. *)
Inductive side := Child | Parent.

Record calls := Calls {
  pid_file : option bstr;      (* path.pid-file *)
  pid_file_exists : bool;
  core_daemonize : bool;
  forked : option side;
  setsid : bool;
  opened : bool;
  locked : bool;
  getpid : Z }.

(** What has happened when the process ends, or goes on. *)
Record effects := Effects {
  session : bool;              (* in a session of its own, umask cleared *)
  created : bool;              (* the pid file is open, made if it was not there *)
  removed : bool;              (* the pid file was unlinked *)
  written : option bstr;       (* what is in the pid file *)
  stdio_closed : bool }.

Inductive outcome := Exits (status : Z) (e : effects) | Returns (r : Z) (e : effects).

Definition EXIT_FAILURE : Z := 1.
Definition nothing : effects := Effects false false false None false.

(** The array that the number is printed to. *)
Definition PID_BUF : nat := 10.

Definition daemonize (c : calls) : outcome :=
  match pid_file c with
  | None => Exits EXIT_FAILURE nothing
  | Some _ =>
      if pid_file_exists c then Exits EXIT_FAILURE nothing
      else
        let rest (e : effects) :=
          if negb (opened c) then Exits EXIT_FAILURE e
          else if negb (locked c) then Exits EXIT_FAILURE (Effects (session e) true true None false)
          else Returns 0 (Effects (session e) true false (Some (print_dec (getpid c))) (core_daemonize c)) in
        if core_daemonize c then
          match forked c with
          | None => Exits EXIT_FAILURE nothing
          | Some Parent => Exits 0 nothing
          | Some Child => if setsid c then rest (Effects true false false None false) else Exits EXIT_FAILURE nothing
          end
        else rest nothing
  end.

(** The process goes on only with its number in a locked pid file that was not there
    before, detached when it is configured so; and when it ends no pid file of its
    own is left. *)
Theorem daemonize_outcome c :
  match daemonize c with
  | Returns r e =>
      r = 0 /\ written e = Some (print_dec (getpid c)) /\ locked c = true /\ pid_file_exists c = false /\
      session e = core_daemonize c /\ stdio_closed e = core_daemonize c
  | Exits status e => written e = None /\ created e = removed e
  end.
Proof.
  unfold daemonize. destruct (pid_file c); [| done]. destruct (pid_file_exists c); [done |].
  destruct (core_daemonize c) eqn:E.
  - destruct (forked c) as [[] |]; [| done | done]. destruct (setsid c); [| done]. destruct (opened c); [| done]. by destruct (locked c).
  - destruct (opened c); [| done]. by destruct (locked c).
Qed.

(** The largest process number of Linux is below 2^22: the array has room for it and
    its terminator. *)
Theorem pid_fits c : 0 <= getpid c < 2 ^ 22 -> (length (print_dec (getpid c)) < PID_BUF)%nat.
Proof.
  intros Hp. unfold print_dec. rewrite (proj2 (Z.ltb_ge _ 0)) by lia. unfold print_nat.
  pose proof (print_digits_width (S (Z.to_nat (Z.log2 (getpid c)))) (getpid c) 7) as H. change (10 ^ Z.of_nat 7) with 10000000 in H.
  change (2 ^ 22) with 4194304 in Hp. unfold PID_BUF. lia.
Qed.

Theorem pid_fits_witness : (length (print_dec (getpid (Calls None false false None false false false 4194303))) < PID_BUF)%nat.
Proof. apply (pid_fits (Calls None false false None false false false 4194303)). split; [apply Z.leb_le | apply Z.ltb_lt]; reflexivity. Defined.

(** ** [ra_privileges_restrict_exec] *)

Definition EINVAL : Z := 22.

(** The results of the calls, with the error of one that fails. *)
Record privilege_calls := Privileges { no_new_privs : option Z; ambient_clear : option Z; capset : option Z }.

(** The result; whether each call was made. *)
Definition ra_privileges_restrict_exec (c : privilege_calls) : Z * (bool * bool * bool) :=
  match no_new_privs c with
  | Some _ => (-1, (true, false, false))
  | None =>
      match ambient_clear c with
      | Some e => if e =? EINVAL then (match capset c with Some _ => -1 | None => 0 end, (true, true, true)) else (-1, (true, true, false))
      | None => (match capset c with Some _ => -1 | None => 0 end, (true, true, true))
      end
  end.

(** Success means that no privilege can be gained and that none is left; a kernel
    without ambient capabilities is no failure. *)
Theorem restrict_exec_sound c :
  (ra_privileges_restrict_exec c).1 = 0 <->
  no_new_privs c = None /\ capset c = None /\ (ambient_clear c = None \/ ambient_clear c = Some EINVAL).
Proof.
  unfold ra_privileges_restrict_exec. destruct (no_new_privs c); [split; [done | by intros [? _]] |].
  destruct (ambient_clear c) as [e |].
  - destruct (Z.eqb_spec e EINVAL) as [-> | Hne]; cbn.
    + destruct (capset c); split; try done; try (by intros (_ & ? & _)). intros _. split; [done |]. split; [done | by right].
    + split; [done |]. intros (_ & _ & [? | [= ?]]); done.
  - cbn. destruct (capset c); split; try done; try (by intros (_ & ? & _)). intros _. split; [done |]. split; [done | by left].
Qed.

(** ** Signals *)

Definition SIGHUP : Z := 1.
Definition SIGINT : Z := 2.
Definition SIGUSR1 : Z := 10.
Definition SIGUSR2 : Z := 12.
Definition SIGTERM : Z := 15.

(** What the code is built for, and what a signal leads to. *)
Inductive build := Client | Server | Plain.
Inductive reaction := Logged | Ignored | ShutdownApp (signum : Z) | ShutdownRig (signum : Z) | ExitWith (status : Z).

Definition sighandler (b : build) (signum : Z) : reaction :=
  if signum =? SIGHUP then Logged
  else if (signum =? SIGUSR1) || (signum =? SIGUSR2) then Ignored
  else if (signum =? SIGINT) || (signum =? SIGTERM)
  then match b with Client => ShutdownApp signum | Server => ShutdownRig signum | Plain => ExitWith 1 end
  else Logged.

(** The signals the handler is set for, in order. *)
Definition init_signals : list Z := [SIGINT; SIGTERM; SIGHUP; SIGUSR1; SIGUSR2].

Definition host_init : bool * list Z := (false, init_signals).

Definition ends (r : reaction) : bool := match r with Logged | Ignored => false | _ => true end.

(** Of the signals that are caught, SIGINT and SIGTERM end the process and no other does. *)
Theorem signals_that_end b s : s ∈ init_signals -> ends (sighandler b s) = true <-> s = SIGINT \/ s = SIGTERM.
Proof.
  unfold init_signals. rewrite !elem_of_cons. intros [-> | [-> | [-> | [-> | [-> | []%elem_of_nil]]]]]; destruct b; cbn; split;
    first [by auto | by intros [|] | done].
Qed.
