(* ===== verification/Profile.v ===== *)
(** * The profiling build of the event bus (event-bus.c, [USE_PROFILING])

    What a build with [USE_PROFILING] adds: counters in every entry, updated when an
    event is emitted and when a queued callback has run, the summary for diagnostics,
    and the report that is logged at most every five minutes.  The counters are kept
    beside the bus, by the address of their entry; addresses are not used again, and
    an entry starts with zeros.  Readings of the clocks are arguments.

    Profiling changes no delivery; every listener that is called is counted; the
    summary adds up the entries; the report lists the events that were emitted by
    rank, and there is one ranking.  The theorems hold over every store that obeys
    its laws. *)

From S2P Require Import Prelude CString CFloat Dict DictTheory PtrStore EventBus Util.
From Stdlib Require Import Floats.SpecFloat.
From stdpp Require Import sorting.

#[local] Open Scope Z_scope.

(** The fields of [event_entry_t] in this build. *)
Record counters := Counters {
  emit_count : Z; payload_bytes : Z;
  inline_calls : Z; inline_us : Z; inline_max_us : Z;
  queued : Z; completed : Z; deferred_us : Z; deferred_max_us : Z; queue_wait_us : Z; queue_wait_max_us : Z }.

Definition no_counters : counters := Counters 0 0 0 0 0 0 0 0 0 0 0.

(** [event_profile_work_t] *)
Record event_profile_work := Work { w_calls : Z; w_us : Z; w_max_us : Z; w_queued : Z }.

(** [event_profile_row_t] *)
Record event_profile_row := Row { r_event : bstr; r_counts : counters }.

Record event_profile_summary_t := Summary {
  s_emits : Z; s_payload_bytes : Z; s_inline_calls : Z; s_inline_us : Z; s_max_inline_us : Z;
  s_queued : Z; s_completed : Z; s_deferred_us : Z; s_max_deferred_us : Z; s_queue_wait_us : Z;
  s_slowest_event : bstr }.

(** [event_store->used]: what the report takes as the number of entries. *)
Class PtrCount (D : Type) := { ps_used : D -> Z }.
Class PtrCountLaws (D : Type) `{!PtrStore D, !PtrStoreLaws D, !PtrCount D} : Prop := {
  ps_used_law n k (d : D) m : ps_ok n k d m -> ps_used d = Z.of_nat (size m)
}.

#[export] Instance dict_ptr_count : PtrCount dict := {| ps_used := used |}.
#[export] Instance dict_ptr_count_laws : PtrCountLaws dict.
Proof.
  constructor. intros n k d m H. pose proof (dict_map_size d (dp_wf _ _ _ _ H)) as Hs.
  rewrite (dp_map _ _ _ _ H), map_size_fmap in Hs. by rewrite Hs.
Qed.

(** ** Clocks and work *)

Definition event_profile_clock_us (ts : Z * Z) : Z := u64 (u64 ts.1 * 1000000 + ts.2 / 1000).

(** The next reading. *)
Definition reading (clock : list Z) : Z * list Z := (default 0 (head clock), tail clock).

(** The loop over the snapshot: whether each listener has a dispatcher. *)
Fixpoint work_loop (w : event_profile_work) (dispatched : list bool) (clock : list Z) : event_profile_work :=
  match dispatched with
  | [] => w
  | d :: dispatched =>
      let '(started, clock) := reading clock in
      if d : bool then work_loop (Work (w_calls w) (w_us w) (w_max_us w) (u64 (w_queued w + 1))) dispatched clock
      else
        let '(finished, clock) := reading clock in
        let elapsed := u64 (finished - started) in
        work_loop (Work (u64 (w_calls w + 1)) (u64 (w_us w + elapsed)) (Z.max (w_max_us w) elapsed) (w_queued w)) dispatched clock
  end.

Definition profile_work (dispatched : list bool) (clock : list Z) : event_profile_work := work_loop (Work 0 0 0 0) dispatched clock.

(** ** Reports *)

Definition SIZE_MAX : Z := ULONG_MAX.

(** [*text] with [*used] bytes, and [*capacity]. *)
Record report := Report { text : bstr; capacity : Z }.

(** The doubling loop; the capacity has 64 bits. *)
Fixpoint grow (fuel : nat) (required grown : Z) : option Z :=
  match fuel with
  | O => None
  | S fuel =>
      if grown <? required then
        if SIZE_MAX / 2 <? grown then Some required else grow fuel required (grown * 2)
      else Some grown
  end.

Definition profile_report_append (o : allocs) (r : report) (s : bstr) : option (bool * report * allocs) :=
  let used := Z.of_nat (length (text r)) in
  let needed := Z.of_nat (length s) in
  if (INT_MAX <? needed) || (SIZE_MAX - used - 1 <? needed) then Some (false, r, o)
  else
    let required := used + needed + 1 in
    if capacity r <? required then
      grown ← grow 64 required (if capacity r =? 0 then 512 else capacity r);
      let '(ok, o) := alloc o in
      if ok : bool then Some (true, Report (text r ++ s) grown, o) else Some (false, r, o)
    else Some (true, Report (text r ++ s) (capacity r), o).

Definition event_profile_compare (a b : event_profile_row) : Z :=
  if emit_count (r_counts a) <? emit_count (r_counts b) then 1
  else if emit_count (r_counts b) <? emit_count (r_counts a) then -1
  else strcmp (r_event a) (r_event b).

(** In the order of [qsort]. *)
Definition row_le (a b : event_profile_row) : Prop := event_profile_compare a b <= 0.
#[export] Instance row_le_dec a b : Decision (row_le a b) := decide (_ <= _).
Definition qsort (rows : list event_profile_row) : list event_profile_row := merge_sort row_le rows.

(** [(double) total / calls], or 0 *)
Definition average (total calls : Z) : spec_float :=
  if calls =? 0 then f64_of_Z 0 else SFdiv 53 1024 (f64_of_Z total) (f64_of_Z calls).

Definition row_text (r : event_profile_row) : bstr :=
  let c := r_counts r in
  chr 10 :: r_event r ++ B " n=" ++ print_nat (emit_count c) ++ B " bytes=" ++ print_nat (payload_bytes c) ++
  B " in=" ++ print_nat (inline_calls c) ++ B " avg=" ++ print_fixed 1 (average (inline_us c) (inline_calls c)) ++
  B "us max=" ++ print_nat (inline_max_us c) ++ B "us def=" ++ print_nat (completed c) ++ B "/" ++ print_nat (queued c) ++
  B " avg=" ++ print_fixed 1 (average (deferred_us c) (completed c)) ++ B "us max=" ++ print_nat (deferred_max_us c) ++
  B "us wait=" ++ print_fixed 1 (average (queue_wait_us c) (completed c)) ++ B "/" ++ print_fixed 0 (f64_of_Z (queue_wait_max_us c)) ++ B "us".

Definition report_header (uptime : bstr) : bstr := B "Event dispatch counts (cumulative, uptime=" ++ uptime ++ B "):".

(** [report_ok = report_ok && append(...)] for each row. *)
Fixpoint append_rows (o : allocs) (ok : bool) (r : report) (rows : list event_profile_row) : option (bool * report * allocs) :=
  match rows with
  | [] => Some (ok, r, o)
  | row :: rows =>
      if ok then '(ok, r, o) ← profile_report_append o r (row_text row); append_rows o ok r rows
      else append_rows o false r rows
  end.

Definition REPORT_ROWS : nat := 32.

(** The text that is logged, if the allocations succeed; [time_t2dhms] allocates too. *)
Definition profile_report (o : allocs) (elapsed : Z) (rows : list event_profile_row) : option (option bstr) :=
  let rows := if (1 <? length rows)%nat then qsort rows else rows in
  let '(ok, o) := alloc o in
  let uptime := if ok : bool then time_t2dhms elapsed else B "unknown" in
  '(ok, r, o) ← profile_report_append o (Report [] 0) (report_header uptime);
  '(ok, r, o) ← append_rows o ok r (take REPORT_ROWS rows);
  Some (if ok : bool then Some (text r) else None).

(** ** The bus *)

Section profile.
Context {D : Type} `{!PtrStore D, !PtrCount D}.

Record profile := Profile {
  p_bus : bus D;
  p_counts : gmap Z counters;
  event_profile_last_dump : Z;
  event_profile_started_ms : Z }.

Definition get_counts (p : profile) (addr : Z) : counters := default no_counters (p_counts p !! addr).
Definition set_counts (p : profile) (addr : Z) (c : counters) : profile :=
  Profile (p_bus p) (<[addr := c]> (p_counts p)) (event_profile_last_dump p) (event_profile_started_ms p).
Definition set_bus (p : profile) (b : bus D) : profile :=
  Profile b (p_counts p) (event_profile_last_dump p) (event_profile_started_ms p).

Definition profile_init (p : profile) (mono : Z) : profile :=
  match event_store (p_bus p) with
  | Some _ => p
  | None => Profile (event_init (p_bus p)) (p_counts p) 0 mono
  end.

(** Changing the counters of an event, if it has an entry. *)
Definition note (p : profile) (name : bstr) (f : counters -> counters) : option profile :=
  addr ← event_lookup_locked (p_bus p) name;
  Some (if addr =? 0 then p else set_counts p addr (f (get_counts p addr))).

Definition add_emit (c : counters) : counters :=
  Counters (u64 (emit_count c + 1)) (payload_bytes c) (inline_calls c) (inline_us c) (inline_max_us c) (queued c)
    (completed c) (deferred_us c) (deferred_max_us c) (queue_wait_us c) (queue_wait_max_us c).

Definition event_profile_note_inline (p : profile) (name : bstr) (bytes : Z) (w : event_profile_work) : option profile :=
  note p name (fun c =>
    Counters (emit_count c) (u64 (payload_bytes c + bytes)) (u64 (inline_calls c + w_calls w)) (u64 (inline_us c + w_us w))
      (Z.max (inline_max_us c) (w_max_us w)) (u64 (queued c + w_queued w))
      (completed c) (deferred_us c) (deferred_max_us c) (queue_wait_us c) (queue_wait_max_us c)).

Definition event_profile_note_deferred (p : profile) (name : bstr) (waited_us handled_us : Z) : option profile :=
  note p name (fun c =>
    Counters (emit_count c) (payload_bytes c) (inline_calls c) (inline_us c) (inline_max_us c) (queued c)
      (u64 (completed c + 1)) (u64 (deferred_us c + handled_us)) (Z.max (deferred_max_us c) handled_us)
      (u64 (queue_wait_us c + waited_us)) (Z.max (queue_wait_max_us c) waited_us)).

(** A queued callback that was queued, began and ended at these times. *)
Definition event_dispatch_run (p : profile) (event : bstr) (queued_us started finished : Z) : option profile :=
  event_profile_note_deferred p event (u64 (started - queued_us)) (u64 (finished - started)).

(** ** The summary *)

Definition add_summary (key : bstr) (c : counters) (s : event_profile_summary_t) : event_profile_summary_t :=
  let slower := s_max_inline_us s <? inline_max_us c in
  Summary (u64 (s_emits s + emit_count c)) (u64 (s_payload_bytes s + payload_bytes c))
    (u64 (s_inline_calls s + inline_calls c)) (u64 (s_inline_us s + inline_us c))
    (if slower then inline_max_us c else s_max_inline_us s)
    (u64 (s_queued s + queued c)) (u64 (s_completed s + completed c)) (u64 (s_deferred_us s + deferred_us c))
    (Z.max (s_max_deferred_us s) (deferred_max_us c)) (u64 (s_queue_wait_us s + queue_wait_us c))
    (if slower then take 95 key else s_slowest_event s).

Definition no_summary : event_profile_summary_t := Summary 0 0 0 0 0 0 0 0 0 0 [].

(** What is in the structure afterwards, and whether there is one: the result is
    false without. *)
Definition event_profile_summary (p : profile) (given : bool) : option (option event_profile_summary_t) :=
  if negb given then Some None
  else
    match event_store (p_bus p) with
    | None => Some (Some no_summary)
    | Some d =>
        (fun r => Some r.2) <$> ps_each d (fun key addr s => Some (true, if addr =? 0 then s else add_summary key (get_counts p addr) s)) no_summary
    end.

(** ** The report *)

(** Filling the array of [capacity] rows; [None] is a write behind its end. *)
Definition collect (p : profile) (room : Z) (key : bstr) (addr : Z) (rows : list event_profile_row) : option (bool * list event_profile_row) :=
  if addr =? 0 then Some (true, rows)
  else
    let c := get_counts p addr in
    if emit_count c =? 0 then Some (true, rows)
    else if Z.of_nat (length rows) <? room then Some (true, rows ++ [Row key c]) else None.

Definition collect_rows (p : profile) : option (list event_profile_row) :=
  match event_store (p_bus p) with
  | None => Some []
  | Some d => if ps_used d =? 0 then Some [] else snd <$> ps_each d (collect p (ps_used d)) []
  end.

Definition DUMP_INTERVAL : Z := 300.

(** What is logged: nothing when the last report is too recent, or without memory. *)
Definition event_profile_dump (o : allocs) (p : profile) (current mono : Z) : option (option bstr * profile) :=
  if negb (event_profile_last_dump p =? 0) && (current - event_profile_last_dump p <? DUMP_INTERVAL) then Some (None, p)
  else
    let p := Profile (p_bus p) (p_counts p) current (event_profile_started_ms p) in
    let elapsed := Z.quot (mono - event_profile_started_ms p) 1000 in
    rows ← collect_rows p;
    logged ← profile_report o elapsed rows;
    Some (logged, p).

(** ** Emitting *)

(** The count of an event that has an entry, then the report. *)
Definition count_emit (o : allocs) (p : profile) (event : bstr) (current mono : Z) : option (option bstr * profile) :=
  addr ← event_lookup_locked (p_bus p) event;
  if addr =? 0 then Some (None, p)
  else event_profile_dump o (set_counts p addr (add_emit (get_counts p addr))) current mono.

Definition dispatched_text (l : listener) : bool := negb (l_dispatch l =? 0).
Definition dispatched_binary (l : blistener) : bool := negb (b_dispatch l =? 0).

(** The deliveries, the report, the profile. *)
Definition event_emit (o : allocs) (p : profile) (event : option bstr) (cptr : Z) (data : option bstr) (current mono : Z) (clock : list Z)
  : option (list delivery * option bstr * profile) :=
  match event with
  | None => Some ([], None, p)
  | Some event =>
      snapshot ← event_snapshot_locked (p_bus p) event;
      '(logged, p) ← count_emit o p event current mono;
      let bytes := Z.of_nat (length (default [] data)) in
      match snapshot with
      | _ :: _ =>
          p ← event_profile_note_inline p event bytes (profile_work (map dispatched_text snapshot) clock);
          Some (flat_map (fun l => event_fire_listener l event cptr data) snapshot, logged, p)
      | [] =>
          snapshot ← event_snapshot_locked (p_bus p) NOMATCH;
          match snapshot with
          | _ :: _ =>
              p ← event_profile_note_inline p event bytes (profile_work (map dispatched_text snapshot) clock);
              Some (flat_map (fun l => event_fire_listener l event cptr data) snapshot, logged, p)
          | [] => Some ([], logged, p)
          end
      end
  end.

Definition event_emit_binary (o : allocs) (p : profile) (event : option bstr) (cptr : Z) (data : option bstr) (len : nat) (current mono : Z) (clock : list Z)
  : option (list delivery * option bstr * profile) :=
  match event with
  | None => Some ([], None, p)
  | Some event =>
      snapshot ← event_binary_snapshot_locked (p_bus p) event;
      '(logged, p) ← count_emit o p event current mono;
      p ← event_profile_note_inline p event (Z.of_nat len) (profile_work (map dispatched_binary snapshot) clock);
      Some (flat_map (fun l => event_fire_binary_listener l event cptr data len) snapshot, logged, p)
  end.

End profile.
Arguments profile : clear implicits.

(** ** The order of the rows *)

Lemma strcmp_antisym a b : strcmp b a = - strcmp a b.
Proof.
  revert b. induction a as [| c a IH]; intros [| d b]; cbn [strcmp]; try lia.
  rewrite (Z.eqb_sym (code d)). case_match; [apply IH | lia].
Qed.

Lemma nonul_cons c s : nonul (c :: s) -> 0 < code c /\ nonul s.
Proof.
  unfold nonul. intros H. split; [| by intros Hs; apply H; right].
  destruct (decide (code c = 0)) as [E | E]; [| pose proof (code_range c); lia].
  destruct H. rewrite (code_inj NUL c) by done. left.
Qed.

(** Strings without NUL that compare as equal are equal. *)
Lemma strcmp_eq a b : nonul a -> nonul b -> strcmp a b = 0 -> a = b.
Proof.
  revert b. induction a as [| c a IH]; intros [| d b]; cbn [strcmp]; intros Ha Hb H; [done | | |];
    repeat match goal with H : nonul (_ :: _) |- _ => apply nonul_cons in H as [? H] end; [lia.. |].
  destruct (Z.eqb_spec (code c) (code d)) as [E | E]; [| lia]. apply code_inj in E as ->. f_equal. by apply IH.
Qed.

Lemma strcmp_trans a b c : nonul a -> nonul b -> nonul c -> strcmp a b <= 0 -> strcmp b c <= 0 -> strcmp a c <= 0.
Proof.
  revert b c. induction a as [| x a IH]; intros [| y b] [| z c]; cbn [strcmp]; try done;
    intros Ha Hb Hc; repeat match goal with H : nonul (_ :: _) |- _ => apply nonul_cons in H as [? H] end; try lia.
  destruct (Z.eqb_spec (code x) (code y)) as [E | E], (Z.eqb_spec (code y) (code z)) as [F | F]; intros Hxy Hyz;
    destruct (Z.eqb_spec (code x) (code z)) as [G | G]; try lia. by apply (IH b c).
Qed.

Lemma compare_antisym a b : event_profile_compare b a = - event_profile_compare a b.
Proof.
  unfold event_profile_compare. rewrite (strcmp_antisym (r_event a)).
  repeat match goal with |- context [?x <? ?y] => destruct (Z.ltb_spec x y) end; lia.
Qed.

#[export] Instance row_le_total : Total row_le.
Proof. intros a b. unfold row_le. rewrite (compare_antisym a b). lia. Qed.

Lemma row_le_trans a b c :
  nonul (r_event a) -> nonul (r_event b) -> nonul (r_event c) -> row_le a b -> row_le b c -> row_le a c.
Proof.
  intros Ha Hb Hc. pose proof (strcmp_trans _ _ _ Ha Hb Hc). unfold row_le, event_profile_compare.
  repeat match goal with |- context [?x <? ?y] => destruct (Z.ltb_spec x y) end; lia || auto.
Qed.

Lemma row_le_event a b : nonul (r_event a) -> nonul (r_event b) -> row_le a b -> row_le b a -> r_event a = r_event b.
Proof.
  intros Ha Hb Hab Hba. apply strcmp_eq; [done.. |]. revert Hab Hba. unfold row_le. rewrite (compare_antisym a b).
  unfold event_profile_compare. repeat match goal with |- context [?x <? ?y] => destruct (Z.ltb_spec x y) end; lia.
Qed.

(** [Sorted_StronglySorted] for a relation that is transitive on the elements. *)
Lemma sorted_strongly {A} (R : A -> A -> Prop) (P : A -> Prop) l :
  (forall a b c, P a -> P b -> P c -> R a b -> R b c -> R a c) -> Forall P l -> Sorted R l -> StronglySorted R l.
Proof.
  intros HR. induction l as [| x l IH]; intros HP Hs; [constructor |].
  apply Forall_cons in HP as [Hx HP]. apply Sorted_inv in Hs as [Hs Hhd]. pose proof (IH HP Hs) as IHs. constructor; [done |].
  destruct l as [| y l]; [constructor |]. inversion Hhd as [| ? ? Hxy]; subst. apply Forall_cons in HP as [Hy HP].
  apply StronglySorted_inv in IHs as [_ Hall]. constructor; [done |].
  rewrite !Forall_forall in *. intros z Hz. eapply (HR x y z); auto.
Qed.

(** A ranking: the rows by falling count, and by name among equals. *)
Definition ranked (rows : list event_profile_row) : Prop := StronglySorted row_le rows.

Definition named (r : event_profile_row) : Prop := nonul (r_event r).

Lemma qsort_perm rows : qsort rows ≡ₚ rows.
Proof. apply merge_sort_Permutation. Qed.

Lemma qsort_ranked rows : Forall named rows -> ranked (qsort rows).
Proof.
  intros Hn. apply (sorted_strongly row_le named).
  - intros a b c. apply row_le_trans.
  - by rewrite qsort_perm.
  - apply Sorted_merge_sort, _.
Qed.

(** There is one ranking of rows with different names, whatever sorts them. *)
Lemma ranking_unique rows l :
  Forall named rows -> NoDup (map r_event rows) -> l ≡ₚ rows -> ranked l -> qsort rows = l.
Proof.
  intros Hn Hd Hl Hr. apply (StronglySorted_unique_strong row_le).
  - intros a b Ha Hb Hab Hba. rewrite qsort_perm in Ha. rewrite Hl in Hb. rewrite Forall_forall in Hn.
    assert (r_event a = r_event b) as E by (apply row_le_event; try done; by apply Hn).
    apply list_elem_of_lookup in Ha as [i Hi], Hb as [j Hj].
    assert (i = j) as ->; [| congruence]. eapply NoDup_lookup; [exact Hd | |]; rewrite list_lookup_fmap; [by rewrite Hi |]. rewrite Hj. cbn. by rewrite E.
  - by apply qsort_ranked.
  - done.
  - by rewrite qsort_perm.
Qed.

(** ** The report as text *)

Lemma grow_total fuel required grown :
  (0 < fuel)%nat -> 1 <= grown -> 2 ^ (64 - Z.of_nat fuel) <= grown -> required <= SIZE_MAX ->
  exists g, grow fuel required grown = Some g /\ required <= g.
Proof.
  revert grown. induction fuel as [| fuel IH]; intros grown Hf H1 Hg Hr; [lia |]. cbn [grow].
  destruct (Z.ltb_spec grown required) as [Hlt | Hge]; [| by eauto].
  destruct (Z.ltb_spec (SIZE_MAX / 2) grown) as [Hb | Hb]; [by exists required |].
  change (SIZE_MAX / 2) with (2 ^ 63 - 1) in Hb.
  assert (fuel <> 0%nat) as Hne by (intros ->; change (64 - Z.of_nat 1) with 63 in Hg; lia).
  apply IH; [lia | lia | | done].
  replace (64 - Z.of_nat fuel) with (Z.succ (64 - Z.of_nat (S fuel))) by lia.
  destruct (decide (Z.of_nat (S fuel) <= 64)) as [Hle | Hgt].
  - rewrite Z.pow_succ_r by lia. lia.
  - destruct (decide (Z.of_nat (S fuel) = 65)) as [E |]; [rewrite E; cbn; lia |]. rewrite Z.pow_neg_r by lia. lia.
Qed.

(** A block holds its text and the terminator. *)
Definition report_ok (r : report) : Prop :=
  (text r = [] /\ capacity r = 0) \/ Z.of_nat (length (text r)) < capacity r.

(** Appending returns; it writes the whole text inside the block, or nothing. *)
Lemma append_spec o r s :
  report_ok r -> Z.of_nat (length (text r)) <= SIZE_MAX ->
  exists ok r' o', profile_report_append o r s = Some (ok, r', o') /\ report_ok r' /\
    Z.of_nat (length (text r')) <= SIZE_MAX /\
    text r' = (if ok : bool then text r ++ s else text r) /\
    (o = [] -> Z.of_nat (length (text r)) + Z.of_nat (length s) <= INT_MAX -> ok = true /\ o' = []).
Proof.
  intros Hr Hl. unfold profile_report_append. set (n := Z.of_nat (length s)). set (u := Z.of_nat (length (text r))) in *.
  pose proof (eq_refl : INT_MAX = 2147483647) as HI. pose proof (eq_refl : SIZE_MAX = 18446744073709551615) as HS.
  destruct (Z.ltb_spec INT_MAX n) as [Hb | Hb]; cbn [orb].
  { exists false, r, o. repeat split; try done; lia. }
  destruct (Z.ltb_spec (SIZE_MAX - u - 1) n) as [Hc | Hc].
  { exists false, r, o. repeat split; try done; lia. }
  assert (0 <= n /\ 0 <= u) as [Hn0 Hu0] by lia.
  assert (Z.of_nat (length (text r ++ s)) = u + n) as Hlen by (rewrite length_app; lia).
  destruct (Z.ltb_spec (capacity r) (u + n + 1)) as [Hgrow | Hfit].
  - destruct (grow_total 64 (u + n + 1) (if capacity r =? 0 then 512 else capacity r)) as (g & -> & Hg).
    { lia. }
    { destruct (Z.eqb_spec (capacity r) 0); [lia |]. destruct Hr as [[_ ?] | ?]; lia. }
    { change (2 ^ (64 - Z.of_nat 64)) with 1. destruct (Z.eqb_spec (capacity r) 0); [lia |]. destruct Hr as [[_ ?] | ?]; lia. }
    { lia. }
    cbn [mbind option_bind]. destruct (alloc o) as [[] o'] eqn:Ha.
    + exists true, (Report (text r ++ s) g), o'. split; [done |]. split; [right; cbn; lia |]. split; [cbn; lia |]. split; [done |].
      intros -> _. by injection Ha as <-.
    + exists false, r, o'. split; [done |]. split; [done |]. split; [done |]. split; [done |]. by intros -> _.
  - exists true, (Report (text r ++ s) (capacity r)), o. split; [done |]. split; [right; cbn; lia |]. split; [cbn; lia |]. by split.
Qed.

Definition rows_text (rows : list event_profile_row) : bstr := concat (map row_text rows).

Lemma append_rows_spec o ok r rows :
  report_ok r -> Z.of_nat (length (text r)) <= SIZE_MAX ->
  exists ok' r' o', append_rows o ok r rows = Some (ok', r', o') /\
    (ok' = true -> ok = true /\ text r' = text r ++ rows_text rows) /\
    (ok = true -> o = [] -> Z.of_nat (length (text r)) + Z.of_nat (length (rows_text rows)) <= INT_MAX -> ok' = true).
Proof.
  revert o ok r. induction rows as [| row rows IH]; intros o ok r Hr Hl; cbn [append_rows].
  { exists ok, r, o. rewrite app_nil_r. done. }
  unfold rows_text. cbn [map concat]. fold (rows_text rows). destruct ok.
  - destruct (append_spec o r (row_text row) Hr Hl) as (ok1 & r1 & o1 & -> & Hr1 & Hl1 & Ht1 & Hok1). cbn [mbind option_bind].
    destruct (IH o1 ok1 r1 Hr1 Hl1) as (ok' & r' & o' & -> & Hs & Ho). exists ok', r', o'. split; [done |]. split.
    + intros H. destruct (Hs H) as [-> Ht']. split; [done |]. by rewrite Ht', Ht1, <- app_assoc.
    + intros _ Hnil Hlen. rewrite length_app in Hlen. destruct Hok1 as [-> ->]; [done | lia |].
      apply Ho; [done.. |]. rewrite Ht1, length_app. lia.
  - destruct (IH o false r Hr Hl) as (ok' & r' & o' & -> & Hs & Ho). exists ok', r', o'. split; [done |]. split; [| done].
    intros H. destruct (Hs H) as [[=] _].
Qed.

(** What the report says of a ranking. *)
Definition report_text (elapsed : Z) (rows : list event_profile_row) : bstr :=
  report_header (time_t2dhms elapsed) ++ rows_text (take REPORT_ROWS rows).

(** The report is complete or there is none; with memory there is one. *)
Lemma profile_report_spec o elapsed rows :
  exists logged, profile_report o elapsed rows = Some logged /\
    (o = [] -> forall l, Forall named rows -> NoDup (map r_event rows) -> l ≡ₚ rows -> ranked l ->
       Z.of_nat (length (report_text elapsed l)) <= INT_MAX -> logged = Some (report_text elapsed l)).
Proof.
  unfold profile_report. set (sorted := if (1 <? length rows)%nat then qsort rows else rows).
  destruct (alloc o) as [okt o1] eqn:Ha. set (up := if okt then time_t2dhms elapsed else B "unknown").
  destruct (append_spec o1 (Report [] 0) (report_header up)) as (ok2 & r2 & o2 & -> & Hr2 & Hl2 & Ht2 & Hok2); [by left | done |].
  cbn [mbind option_bind]. destruct (append_rows_spec o2 ok2 r2 (take REPORT_ROWS sorted) Hr2 Hl2) as (ok3 & r3 & o3 & -> & Hs3 & Ho3).
  cbn [mbind option_bind]. eexists. split; [done |]. intros -> l Hn Hd Hp Hrk Hlen. injection Ha as <- <-.
  assert (sorted = l) as E.
  { unfold sorted. destruct (Nat.ltb_spec 1 (length rows)) as [Hlt | Hle]; [by apply ranking_unique |].
    destruct rows as [| x [| y rows]]; [| | cbn in Hle; lia].
    - apply Permutation_nil_r in Hp as ->. done.
    - apply Permutation_singleton_r in Hp as ->. done. }
  unfold report_text in Hlen. rewrite length_app in Hlen. rewrite E in Hs3, Ho3.
  destruct Hok2 as [-> ->]; [done | cbn [text length]; subst up; lia |].
  assert (ok3 = true) as -> by (apply Ho3; [done.. |]; rewrite Ht2; cbn [text app]; subst up; lia).
  destruct (Hs3 eq_refl) as [_ ->]. by rewrite Ht2.
Qed.

(** ** The bus *)

Section bus.
Context {D : Type} `{!PtrStore D, !PtrStoreLaws D, !PtrCount D, !PtrCountLaws D}.
Implicit Types p : profile D.

(** The registry maps names to the addresses of entries. *)
Definition store_ok p (m : gmap bstr Z) : Prop :=
  match event_store (p_bus p) with
  | None => m = ∅
  | Some d => exists n k, ps_ok n k d m
  end.

Definition counted p (addr : Z) : counters := if addr =? 0 then no_counters else get_counts p addr.

Lemma lookup_ok p m s : store_ok p m -> event_lookup_locked (p_bus p) s = Some (default 0 (m !! s)).
Proof.
  unfold store_ok, event_lookup_locked. destruct (event_store (p_bus p)) as [d |]; [| by intros ->].
  intros (n & k & H). by eapply ps_get_law.
Qed.

Lemma store_ok_bus p p' m : p_bus p' = p_bus p -> store_ok p m -> store_ok p' m.
Proof. unfold store_ok. by intros ->. Qed.

(** *** The rows *)

Definition row_of p (ka : bstr * Z) : option event_profile_row :=
  if emit_count (counted p ka.2) =? 0 then None else Some (Row ka.1 (counted p ka.2)).

(** The events that were emitted. *)
Definition emitted p (m : gmap bstr Z) : list event_profile_row := omap (row_of p) (map_to_list m).

Lemma collect_one p room k a rows :
  Z.of_nat (length rows) < room -> collect p room k a rows = Some (true, rows ++ option_list (row_of p (k, a))).
Proof.
  intros Hr. unfold collect, row_of, counted. cbn [fst snd]. destruct (Z.eqb_spec a 0); [by rewrite app_nil_r |].
  destruct (Z.eqb_spec (emit_count (get_counts p a)) 0); [by rewrite app_nil_r |]. by rewrite (proj2 (Z.ltb_lt _ _) Hr).
Qed.

Lemma collect_all p room l rows :
  Z.of_nat (length rows + length l) <= room ->
  foldr (fun kp rest s => '(go, s) ← collect p room kp.1 kp.2 s; if go : bool then rest s else Some (false, s))
    (fun s => Some (true, s)) l rows = Some (true, rows ++ omap (row_of p) l).
Proof.
  revert rows. induction l as [| [k a] l IH]; intros rows Hl; cbn [foldr omap list_omap fst snd]; [by rewrite app_nil_r |].
  cbn [length] in Hl. rewrite collect_one by lia. cbn [mbind option_bind].
  destruct (row_of p (k, a)) as [r |] eqn:E; cbn [option_list].
  - rewrite IH; [by rewrite <- app_assoc |]. rewrite length_app. change (length (option_list (Some r))) with 1%nat. lia.
  - rewrite app_nil_r. apply IH. lia.
Qed.

Lemma collect_rows_spec p m : store_ok p m -> exists rows, collect_rows p = Some rows /\ rows ≡ₚ emitted p m.
Proof.
  unfold store_ok, collect_rows. destruct (event_store (p_bus p)) as [d |].
  - intros (n & k & H). rewrite (ps_used_law n k d m H).
    destruct (Z.eqb_spec (Z.of_nat (size m)) 0) as [E | E].
    { exists []. split; [done |]. assert (m = ∅) as -> by (apply map_size_empty_inv; lia). unfold emitted; by rewrite map_to_list_empty. }
    destruct (ps_each_law n k d m (collect p (Z.of_nat (size m))) [] H) as (l & Hnd & Hl & ->).
    assert (map_to_list m ≡ₚ l) as Hp by (rewrite <- Hl; by apply map_to_list_to_map).
    rewrite collect_all; [eexists; split; [done |]; unfold emitted; by rewrite Hp |].
    rewrite <- length_map_to_list, Hp. cbn [length]. lia.
  - intros ->. exists []. unfold emitted; by rewrite map_to_list_empty.
Qed.

(** *** The report *)

Definition due p (current : Z) : Prop := event_profile_last_dump p = 0 \/ DUMP_INTERVAL <= current - event_profile_last_dump p.

Lemma dump_total o p m current mono :
  store_ok p m ->
  exists logged p', event_profile_dump o p current mono = Some (logged, p') /\ p_bus p' = p_bus p /\ p_counts p' = p_counts p.
Proof.
  intros Hs. unfold event_profile_dump. destruct (negb _ && _); [by exists None, p |].
  match goal with |- context [collect_rows ?q] => destruct (collect_rows_spec q m) as (rows & -> & _); [by eapply store_ok_bus |] end.
  cbn [mbind option_bind].
  destruct (profile_report_spec o (Z.quot (mono - event_profile_started_ms p) 1000) rows) as (logged & Hr & _).
  cbn [event_profile_started_ms]. rewrite Hr. eexists _, _. done.
Qed.

Lemma row_of_event p ka r : row_of p ka = Some r -> r_event r = ka.1.
Proof. unfold row_of. case_match; [done |]. by intros [= <-]. Qed.

Lemma emitted_events p m : NoDup (map r_event (emitted p m)).
Proof.
  unfold emitted. pose proof (NoDup_fst_map_to_list m) as Hnd. induction (map_to_list m) as [| [k a] l IH]; [constructor |].
  cbn in Hnd. apply NoDup_cons in Hnd as [Hk Hnd]. cbn [omap list_omap]. pose proof (IH Hnd) as IHl.
  destruct (row_of p (k, a)) as [r |] eqn:Er; [| exact IHl]. cbn [map]. apply NoDup_cons. split; [| exact IHl].
  apply row_of_event in Er as ->. intros (r' & Er & Hr)%list_elem_of_fmap. apply Hk.
  apply list_elem_of_omap in Hr as (ka & Hin & Hrow). rewrite (row_of_event _ _ _ Hrow) in Er. cbn [fst] in Er. rewrite Er. by apply list_elem_of_fmap_2.
Qed.

Lemma emitted_named p m : (forall k a, m !! k = Some a -> nonul k) -> Forall named (emitted p m).
Proof.
  intros Hm. apply Forall_forall. intros r (ka & Hin & Hrow)%list_elem_of_omap. unfold named. rewrite (row_of_event _ _ _ Hrow).
  destruct ka as [k a]. by apply (Hm k a), elem_of_map_to_list.
Qed.

(** When a report is due and there is memory for it, exactly one text is logged: the uptime and the first 32 events
    of the ranking of all the emitted ones, and any ranking of them is that one; when none is due nothing happens. *)
Theorem report_ranks p m current mono rows :
  store_ok p m -> (forall k a, m !! k = Some a -> nonul k) ->
  rows ≡ₚ emitted p m -> ranked rows ->
  let elapsed := Z.quot (mono - event_profile_started_ms p) 1000 in
  Z.of_nat (length (report_text elapsed rows)) <= INT_MAX ->
  (due p current ->
     exists p', event_profile_dump [] p current mono = Some (Some (report_text elapsed rows), p') /\ event_profile_last_dump p' = current) /\
  (~ due p current -> event_profile_dump [] p current mono = Some (None, p)).
Proof.
  intros Hs Hn Hp Hr elapsed Hlen. unfold event_profile_dump, due. split.
  - intros Hd. replace (negb _ && _) with false; cycle 1.
    { destruct (Z.eqb_spec (event_profile_last_dump p) 0); cbn [negb andb]; [done |]. symmetry. apply Z.ltb_ge. lia. }
    set (q := Profile (p_bus p) (p_counts p) current (event_profile_started_ms p)).
    destruct (collect_rows_spec q m) as (rows0 & -> & Hrows); [by eapply store_ok_bus |]. cbn [mbind option_bind].
    change (emitted q m) with (emitted p m) in Hrows.
    change (event_profile_started_ms q) with (event_profile_started_ms p). fold elapsed.
    destruct (profile_report_spec [] elapsed rows0) as (logged & -> & Hlog). cbn [mbind option_bind].
    rewrite (Hlog eq_refl rows); [by eexists | | | by rewrite Hp | done | done].
    + rewrite Hrows. by apply emitted_named.
    + unfold map. rewrite Hrows. apply emitted_events.
  - intros Hd. replace (negb _ && _) with true; [done |].
    destruct (Z.eqb_spec (event_profile_last_dump p) 0); cbn [negb andb]; [lia |]. symmetry. apply Z.ltb_lt. lia.
Qed.

(** *** Emission *)

Lemma count_emit_spec o p m event current mono :
  store_ok p m ->
  exists logged p', count_emit o p event current mono = Some (logged, p') /\ p_bus p' = p_bus p /\
    p_counts p' = p_counts (if default 0 (m !! event) =? 0 then p
                            else set_counts p (default 0 (m !! event)) (add_emit (get_counts p (default 0 (m !! event))))).
Proof.
  intros Hs. unfold count_emit. rewrite (lookup_ok _ _ _ Hs). cbn [mbind option_bind].
  destruct (Z.eqb_spec (default 0 (m !! event)) 0); [by eexists _, _ |].
  match goal with |- context [event_profile_dump o ?q] => destruct (dump_total o q m current mono) as (logged & p' & -> & Hb & Hc); [by eapply store_ok_bus |] end.
  exists logged, p'. rewrite Hb, Hc. done.
Qed.

Lemma note_inline_spec p m event bytes w :
  store_ok p m ->
  exists p', event_profile_note_inline p event bytes w = Some p' /\ p_bus p' = p_bus p /\
    (forall addr, addr <> default 0 (m !! event) -> get_counts p' addr = get_counts p addr) /\
    (default 0 (m !! event) <> 0 ->
       let c := get_counts p (default 0 (m !! event)) in
       get_counts p' (default 0 (m !! event)) =
         Counters (emit_count c) (u64 (payload_bytes c + bytes)) (u64 (inline_calls c + w_calls w)) (u64 (inline_us c + w_us w))
           (Z.max (inline_max_us c) (w_max_us w)) (u64 (queued c + w_queued w))
           (completed c) (deferred_us c) (deferred_max_us c) (queue_wait_us c) (queue_wait_max_us c)).
Proof.
  intros Hs. unfold event_profile_note_inline, note. rewrite (lookup_ok _ _ _ Hs). cbn [mbind option_bind].
  destruct (Z.eqb_spec (default 0 (m !! event)) 0) as [E | E]; (eexists; split; [done |]; split; [done |]; split).
  - done.
  - by intros [].
  - intros addr Ha. unfold get_counts, set_counts. cbn [p_counts]. by rewrite lookup_insert_ne.
  - intros _. unfold get_counts at 1, set_counts. cbn [p_counts]. by rewrite lookup_insert_eq.
Qed.

(** The counting of a list of listeners, which returns. *)
Ltac note_inline Hs p' Hb :=
  match type of Hs with store_ok ?p ?m =>
    match goal with |- context [event_profile_note_inline p ?event ?b ?w] =>
      destruct (note_inline_spec p m event b w Hs) as (p' & -> & Hb & _) end end.

(** A profiling build makes the same deliveries, in the same order, as a plain one, whatever the clocks say and
    whether or not the report finds memory, and leaves the bus alone. *)
Theorem profiling_transparent o p m event cptr data len current mono clock :
  store_ok p m ->
  (exists ds logged p', event_emit o p event cptr data current mono clock = Some (ds, logged, p') /\
     EventBus.event_emit (p_bus p) event cptr data = Some ds /\ p_bus p' = p_bus p) /\
  (exists ds logged p', event_emit_binary o p event cptr data len current mono clock = Some (ds, logged, p') /\
     EventBus.event_emit_binary (p_bus p) event cptr data len = Some ds /\ p_bus p' = p_bus p).
Proof.
  intros Hs. unfold event_emit, EventBus.event_emit, event_emit_binary, EventBus.event_emit_binary.
  destruct event as [event |]; [| by split; eexists _, _, _].
  unfold event_snapshot_locked, event_binary_snapshot_locked. rewrite !(lookup_ok _ _ _ Hs). cbn [mbind option_bind].
  destruct (count_emit_spec o p m event current mono Hs) as (logged & p1 & -> & Hb1 & _). cbn [mbind option_bind].
  pose proof (store_ok_bus _ _ _ Hb1 Hs) as Hs1. rewrite !(lookup_ok _ _ _ Hs1). cbn [mbind option_bind]. rewrite !Hb1.
  split.
  - destruct (if default 0 (m !! event) =? 0 then [] else _) as [| l ls].
    + destruct (if default 0 (m !! NOMATCH) =? 0 then [] else _) as [| l ls]; [by eexists _, _, _ |].
      note_inline Hs1 p2 Hb2.
      eexists _, _, _. split; [done |]. split; [done | congruence].
    + note_inline Hs1 p2 Hb2.
      eexists _, _, _. split; [done |]. split; [done | congruence].
  - note_inline Hs1 p2 Hb2.
    eexists _, _, _. split; [done |]. split; [done | congruence].
Qed.

Lemma u64_add_l a b : u64 (u64 a + b) = u64 (a + b).
Proof. unfold u64. by rewrite Zplus_mod_idemp_l. Qed.

Lemma u64_add_r a b : u64 (a + u64 b) = u64 (a + b).
Proof. unfold u64. by rewrite Zplus_mod_idemp_r. Qed.

(** Every listener is either called or queued. *)
Lemma work_loop_counts ds clock w :
  u64 (w_calls (work_loop w ds clock) + w_queued (work_loop w ds clock)) = u64 (w_calls w + w_queued w + Z.of_nat (length ds)).
Proof.
  revert clock w. induction ds as [| d ds IH]; intros clock w; [cbn [work_loop length]; f_equal; lia |].
  cbn [work_loop length]. unfold reading. destruct d; rewrite IH; cbn [w_calls w_queued].
  - rewrite <- Z.add_assoc, (Z.add_comm (u64 _)), Z.add_assoc, u64_add_r. f_equal. lia.
  - rewrite <- Z.add_assoc, u64_add_l. f_equal. lia.
Qed.

(** An event with listeners is counted once, and each of its listeners once as called or as queued; the counters of
    every other entry stay. *)
Theorem emission_counted o p m event addr cptr data current mono clock :
  store_ok p m -> m !! event = Some addr -> addr <> 0 -> listeners (get_entry (p_bus p) addr) <> [] ->
  let c := get_counts p addr in
  exists ds logged p', event_emit o p (Some event) cptr data current mono clock = Some (ds, logged, p') /\
    (forall a, a <> addr -> get_counts p' a = get_counts p a) /\
    let c' := get_counts p' addr in
    emit_count c' = u64 (emit_count c + 1) /\
    payload_bytes c' = u64 (payload_bytes c + Z.of_nat (length (default [] data))) /\
    u64 (inline_calls c' + queued c') = u64 (inline_calls c + queued c + Z.of_nat (length (listeners (get_entry (p_bus p) addr)))).
Proof.
  intros Hs Hm Ha Hl c. unfold event_emit, event_snapshot_locked. rewrite (lookup_ok _ _ _ Hs), Hm. cbn [mbind option_bind default].
  destruct (count_emit_spec o p m event current mono Hs) as (logged & p1 & -> & Hb1 & Hc1). cbn [mbind option_bind].
  rewrite Hm in Hc1. cbn [default] in *. change (default 0 (Some addr)) with addr in *.
  change (id addr) with addr in *. rewrite (proj2 (Z.eqb_neq addr 0)) in Hc1 |- * by done. pose proof (store_ok_bus _ _ _ Hb1 Hs) as Hs1.
  set (ls := listeners (get_entry (p_bus p) addr)) in *. destruct ls as [| l0 ls0] eqn:Els; [done |]. cbv iota. rewrite <- Els in *. clear Els.
  set (w := profile_work (map dispatched_text ls) clock).
  destruct (note_inline_spec p1 m event (Z.of_nat (length (default [] data))) w Hs1) as (p2 & -> & _ & Hother & Hown).
  cbn [mbind option_bind]. rewrite Hm in Hother, Hown. change (default 0 (Some addr)) with addr in *.
  assert (forall a, get_counts p1 a = if decide (a = addr) then add_emit c else get_counts p a) as Hget.
  { intros a. unfold get_counts at 1. rewrite Hc1. unfold set_counts. cbn [p_counts]. case_decide as E.
    - rewrite E. by rewrite lookup_insert_eq.
    - by rewrite lookup_insert_ne. }
  eexists _, _, _. split; [done |]. split.
  - intros a Hne. rewrite Hother, Hget by done. by rewrite decide_False.
  - cbv zeta. rewrite Hown by done. rewrite Hget, decide_True by done. cbn [emit_count payload_bytes inline_calls queued add_emit].
    split; [done |]. split; [done |]. rewrite u64_add_l, u64_add_r.
    replace (inline_calls c + w_calls w + (queued c + w_queued w)) with (inline_calls c + queued c + (w_calls w + w_queued w)) by lia.
    rewrite <- u64_add_r. unfold w, profile_work. rewrite work_loop_counts, length_map. cbn [w_calls w_queued]. by rewrite u64_add_r, Z.add_0_l.
Qed.

(** *** The summary *)

(** A counter added up over the registry. *)
Definition total (f : counters -> Z) p (l : list (bstr * Z)) : Z := foldr (fun ka t => f (counted p ka.2) + t) 0 l.

Lemma total_perm f p l l' : l ≡ₚ l' -> total f p l = total f p l'.
Proof. induction 1; unfold total in *; cbn [foldr]; lia. Qed.

Definition add_entry p (s : event_profile_summary_t) (ka : bstr * Z) : event_profile_summary_t :=
  if ka.2 =? 0 then s else add_summary ka.1 (get_counts p ka.2) s.

Lemma summary_fold p l s :
  foldr (fun kp rest s => '(go, s) ← Some (true, if kp.2 =? 0 then s else add_summary kp.1 (get_counts p kp.2) s);
    if go : bool then rest s else Some (false, s)) (fun s => Some (true, s)) l s = Some (true, foldl (add_entry p) s l).
Proof. revert s. induction l as [| ka l IH]; intros s; [done |]. cbn [foldr foldl mbind option_bind]. apply IH. Qed.

(** A sum modulo 2^64 that every step adds a counter to. *)
Lemma sum_fold (g : event_profile_summary_t -> Z) (f : counters -> Z) p l s :
  f no_counters = 0 -> (forall k c s, g (add_summary k c s) = u64 (g s + f c)) ->
  u64 (g (foldl (add_entry p) s l)) = u64 (g s + total f p l).
Proof.
  intros Hf Hg. revert s. induction l as [| [k a] l IH]; intros s; [cbn; by rewrite Z.add_0_r |].
  cbn [foldl total foldr fst snd]. fold (total f p l). rewrite IH. unfold add_entry, counted. cbn [fst snd].
  case_match; [by rewrite Hf |]. rewrite Hg, u64_add_l, Z.add_assoc. done.
Qed.

Definition bounded64 (s : event_profile_summary_t) : Prop :=
  Forall (fun x => u64 x = x) [s_emits s; s_payload_bytes s; s_inline_calls s; s_inline_us s; s_queued s; s_completed s; s_deferred_us s; s_queue_wait_us s].

Lemma bounded_fold p l s : bounded64 s -> bounded64 (foldl (add_entry p) s l).
Proof.
  revert s. induction l as [| [k a] l IH]; intros s Hs; [done |]. cbn [foldl]. apply IH. unfold add_entry. case_match; [done |].
  unfold bounded64, add_summary. cbn. unfold u64. repeat constructor; by rewrite Zmod_mod.
Qed.

(** The slowest synchronous run, and whose it is. *)
Definition slowest p (l : list (bstr * Z)) (s : event_profile_summary_t) : Prop :=
  (forall k a, (k, a) ∈ l -> inline_max_us (counted p a) <= s_max_inline_us s) /\
  (forall k a, (k, a) ∈ l -> deferred_max_us (counted p a) <= s_max_deferred_us s) /\
  ((s_max_inline_us s = 0 /\ s_slowest_event s = []) \/
   exists k a, (k, a) ∈ l /\ s_max_inline_us s = inline_max_us (counted p a) /\ s_slowest_event s = take 95 k) /\
  0 <= s_max_inline_us s /\ 0 <= s_max_deferred_us s.

Lemma slowest_step p l s ka : slowest p l s -> slowest p (l ++ [ka]) (add_entry p s ka).
Proof.
  destruct ka as [k a]. intros (H1 & H2 & H3 & H4 & H5). unfold add_entry, slowest. cbn [fst snd].
  assert (Hin : forall k' a', (k', a') ∈ l ++ [(k, a)] -> (k', a') ∈ l \/ (k' = k /\ a' = a)).
  { intros k' a' [? | [= -> ->]%list_elem_of_singleton]%elem_of_app; [by left | by right]. }
  assert (Hold : forall k' a', (k', a') ∈ l -> (k', a') ∈ l ++ [(k, a)]) by (intros; apply elem_of_app; by left).
  assert (Hnew : (k, a) ∈ l ++ [(k, a)]) by (apply elem_of_app; right; by left).
  destruct (Z.eqb_spec a 0) as [-> | Ha].
  - split; [| split; [| split; [| done]]].
    + intros k' a' [? | [-> ->]]%Hin; [by eapply H1 | exact H4].
    + intros k' a' [? | [-> ->]]%Hin; [by eapply H2 | exact H5].
    + destruct H3 as [? | (k' & a' & ? & ?)]; [by left | right; exists k', a'; auto].
  - assert (counted p a = get_counts p a) as Hc by (unfold counted; by rewrite (proj2 (Z.eqb_neq a 0) Ha)).
    unfold add_summary. cbn [s_max_inline_us s_max_deferred_us s_slowest_event].
    destruct (Z.ltb_spec (s_max_inline_us s) (inline_max_us (get_counts p a))) as [Hl | Hl].
    + split; [| split; [| split; [| lia]]].
      * intros k' a' [Hk | [-> ->]]%Hin; [| by rewrite Hc]. pose proof (H1 _ _ Hk). lia.
      * intros k' a' [Hk | [-> ->]]%Hin; [| rewrite Hc; lia]. pose proof (H2 _ _ Hk). lia.
      * right. exists k, a. by rewrite Hc.
    + split; [| split; [| split; [| lia]]].
      * intros k' a' [Hk | [-> ->]]%Hin; [| by rewrite Hc]. pose proof (H1 _ _ Hk). lia.
      * intros k' a' [Hk | [-> ->]]%Hin; [| rewrite Hc; lia]. pose proof (H2 _ _ Hk). lia.
      * destruct H3 as [? | (k' & a' & ? & ?)]; [by left | right; exists k', a'; auto].
Qed.

Lemma slowest_fold p l0 l s : slowest p l0 s -> slowest p (l0 ++ l) (foldl (add_entry p) s l).
Proof.
  revert l0 s. induction l as [| ka l IH]; intros l0 s H; [by rewrite app_nil_r |].
  cbn [foldl]. replace (l0 ++ ka :: l) with ((l0 ++ [ka]) ++ l) by by rewrite <- app_assoc. by apply IH, slowest_step.
Qed.

(** The summary adds up every counter over all the entries, modulo 2^64, and names the event with the longest
    synchronous run. *)
Theorem summary_totals p m :
  store_ok p m ->
  exists s, event_profile_summary p true = Some (Some s) /\ slowest p (map_to_list m) s /\
    s_emits s = u64 (total emit_count p (map_to_list m)) /\ s_payload_bytes s = u64 (total payload_bytes p (map_to_list m)) /\
    s_inline_calls s = u64 (total inline_calls p (map_to_list m)) /\ s_inline_us s = u64 (total inline_us p (map_to_list m)) /\
    s_queued s = u64 (total queued p (map_to_list m)) /\ s_completed s = u64 (total completed p (map_to_list m)) /\
    s_deferred_us s = u64 (total deferred_us p (map_to_list m)) /\ s_queue_wait_us s = u64 (total queue_wait_us p (map_to_list m)).
Proof.
  intros Hs.
  assert (exists l, l ≡ₚ map_to_list m /\ event_profile_summary p true = Some (Some (foldl (add_entry p) no_summary l))) as (l & Hl & ->).
  { unfold store_ok, event_profile_summary in *. destruct (event_store (p_bus p)) as [d |].
    - destruct Hs as (n & k & H). match goal with |- context [ps_each d ?b ?i] => destruct (ps_each_law n k d m b i H) as (l & Hnd & Hl & ->) end.
      exists l. split; [rewrite <- Hl; symmetry; by apply map_to_list_to_map |]. by rewrite summary_fold.
    - subst m. exists []. by rewrite map_to_list_empty. }
  eexists. split; [done |]. split.
  - assert (slowest p ([] ++ l) (foldl (add_entry p) no_summary l)) as H.
    { apply slowest_fold. split; [by intros ? ? ?%not_elem_of_nil |]. split; [by intros ? ? ?%not_elem_of_nil |]. split; [by left | done]. }
    destruct H as (H1 & H2 & H3 & H4). unfold slowest. setoid_rewrite <- Hl. done.
  - pose proof (bounded_fold p l no_summary ltac:(repeat constructor)) as Hb.
    pose proof (fun f => total_perm f p _ _ Hl) as Ht. setoid_rewrite <- Ht.
    unfold bounded64 in Hb. rewrite !Forall_cons in Hb. destruct Hb as (<- & <- & <- & <- & <- & <- & <- & <- & _).
    repeat apply conj; match goal with |- u64 (?g _) = u64 (total ?f _ _) => by apply (sum_fold g f p l no_summary) end.
Qed.
End bus.

(** ** A profile with two events *)

Definition demo_map : gmap bstr Z := <[B "part" := 2]> (<[B "join" := 1]> ∅).

Definition demo_store : option dict :=
  '(_, d, o) ← (match dict_new [] with (Some d, o) => ps_add o d (B "join") 1 | _ => None end);
  '(_, d, _) ← ps_add o d (B "part") 2; Some d.

Lemma demo_store_ok : exists d, demo_store = Some d /\ ps_ok 98 5 d demo_map.
Proof.
  unfold demo_store. destruct (ps_new_law (D := dict) [] 100 eq_refl) as (r & o & Hn & Hok & Ho).
  destruct (Ho eq_refl) as [[d ->] ->]. change (dict_new []) with (ps_new (D := dict) []). rewrite Hn.
  destruct (ps_add_law (D := dict) 100 5 [] d ∅ (B "join") 1) as (rc & d1 & o1 & -> & H1 & Ho1); [by apply Hok | lia.. |].
  destruct (Ho1 eq_refl) as [-> ->]. destruct H1 as [[_ H1] | [[] _]]; [| done]. cbn [mbind option_bind].
  destruct (ps_add_law (D := dict) 99 5 [] d1 _ (B "part") 2 H1) as (rc & d2 & o2 & -> & H2 & Ho2); [lia.. |].
  destruct (Ho2 eq_refl) as [-> ->]. destruct H2 as [[_ H2] | [[] _]]; [| done]. by exists d2.
Qed.

Definition demo_join : counters := Counters 5 100 10 900 400 3 2 70 60 40 30.
Definition demo_part : counters := Counters 9 0 9 10 5 0 0 0 0 0 0.

Definition demo : profile dict :=
  Profile (Bus demo_store (<[1 := Entry [Listener 7 0 0 0 false; Listener 8 5 3 4 false] [] 2]> (<[2 := Entry [Listener 9 0 0 0 false] [] 1]> ∅)) 3 [] [] [] [])
    (<[1 := demo_join]> (<[2 := demo_part]> ∅)) 1000 0.

Lemma demo_ok : store_ok demo demo_map.
Proof. destruct demo_store_ok as (d & Hd & Hok). unfold store_ok. cbn [demo p_bus event_store]. rewrite Hd. by exists 98, 5. Qed.

Lemma demo_nonul k a : demo_map !! k = Some a -> nonul k.
Proof.
  unfold demo_map. rewrite !lookup_insert_Some, lookup_empty. intros [[<- _] | [_ [[<- _] | [_ ?]]]]; [| | done];
    apply (bool_decide_unpack _); vm_compute; exact I.
Qed.

Lemma report_ranks_witness :
  exists p', event_profile_dump [] demo 1300 60000 =
    Some (Some (report_text 60 [Row (B "part") demo_part; Row (B "join") demo_join]), p') /\ event_profile_last_dump p' = 1300.
Proof.
  refine (proj1 (report_ranks demo demo_map 1300 60000 [Row (B "part") demo_part; Row (B "join") demo_join] demo_ok demo_nonul _ _ _) _).
  - assert (emitted demo demo_map = [Row (B "part") demo_part; Row (B "join") demo_join] \/
            emitted demo demo_map = [Row (B "join") demo_join; Row (B "part") demo_part]) as [-> | ->]
      by (vm_compute; first [left; reflexivity | right; reflexivity]); [reflexivity | apply Permutation_swap].
  - repeat constructor; vm_compute; discriminate.
  - vm_compute. discriminate.
  - right. apply Z.leb_le. reflexivity.
Defined.

Lemma profiling_transparent_witness :
  exists logged p', event_emit [false] demo (Some (B "join")) 77 (Some (B "hi")) 1300 60000 [5; 9; 12] =
    Some ([Call (TextJob 7 (B "join") (Some (B "hi")) 77 0); Dispatch 3 (TextJob 8 (B "join") (Some (B "hi")) 77 5) 4], logged, p') /\ p_bus p' = p_bus demo.
Proof.
  destruct (profiling_transparent [false] demo demo_map (Some (B "join")) 77 (Some (B "hi")) 2 1300 60000 [5; 9; 12] demo_ok) as [(ds & logged & p' & He & Hb & Hp) _].
  exists logged, p'. split; [| exact Hp]. rewrite He. assert (EventBus.event_emit (p_bus demo) (Some (B "join")) 77 (Some (B "hi")) =
    Some [Call (TextJob 7 (B "join") (Some (B "hi")) 77 0); Dispatch 3 (TextJob 8 (B "join") (Some (B "hi")) 77 5) 4]) as E by (vm_compute; reflexivity).
  rewrite E in Hb. injection Hb as <-. reflexivity.
Defined.

Example report_example :
  report_text 60 [Row (B "join") demo_join] =
    B "Event dispatch counts (cumulative, uptime=1m):" ++ [chr 10] ++
    B "join n=5 bytes=100 in=10 avg=90.0us max=400us def=2/3 avg=35.0us max=60us wait=20.0/30us".
Proof. vm_compute. reflexivity. Qed.
