(* ===== verification/TuiTerm.v ===== *)
(** * The terminal: start-up, shutdown, redraws (tui.c, tui.keys.c, termkey.c)

    What [tui_init] and [tui_fini] do to the terminal, to standard input and to the
    handler of SIGWINCH; when a full redraw happens; and the text of the lines that are
    drawn on their own.  The host is the state that outlives the interface; how a call
    to it ends is a field of [env].  Of termkey only what it does to the attributes of
    the terminal is here. *)

From S2P Require Import Prelude CString Util TuiText TuiWindow TuiDraw TuiInput TuiKeys Serial.

#[local] Open Scope Z_scope.

(** ** The host *)

Inductive handler := SigDfl | Sigwinch | Other (n : Z).

(** [attrs]: the attributes of standard input, if it is a terminal; [settable]:
    [tcsetattr] works; [stdin_flags]: the result of F_GETFL. *)
Record host := Host { attrs : option termios; settable : bool; stdin_flags : option Z; winch : handler }.

(** How the calls of [tui_init] end. *)
Inductive termkey_result := Started | NoTermkey | NoDriver.

Record env := Env {
  ssh_tty : bool; use_color : bool; mouse : bool;
  size : option (Z * Z);             (* rows and columns, if standard output is a terminal *)
  signal_ok : bool; atexit_ok : bool;
  termkey : termkey_result }.

(** What is written: a text, or a full redraw. *)
Inductive emission := Text (s : bstr) | Screen.

Record term := Term {
  finalized : bool; atexit_registered : bool;
  cfg_tui_use_mouse : bool; tui_over_ssh : bool;
  status : bstr;
  redraw_pending : bool; redraw_defer_count : Z;
  sigwinch_installed : bool; previous_sigwinch : handler;
  orig_termios : option termios; raw_mode_enabled : bool;
  tk : option (option termios);       (* [restore_termios], if valid *)
  orig_stdin_flags : Z; stdin_watch : bool }.

Record session := Session { s_ui : ui; s_term : term; s_host : host; out : list emission }.

Definition set_ui (u : ui) (s : session) : session := Session u (s_term s) (s_host s) (out s).
Definition set_term (t : term) (s : session) : session := Session (s_ui s) t (s_host s) (out s).
Definition set_host (h : host) (s : session) : session := Session (s_ui s) (s_term s) h (out s).
Definition emit (e : emission) (s : session) : session := Session (s_ui s) (s_term s) (s_host s) (out s ++ [e]).

Definition set_attrs (t : termios) (h : host) : host :=
  match attrs h with
  | Some _ => if settable h then Host (Some t) true (stdin_flags h) (winch h) else h
  | None => h
  end.
Definition set_flags (f : Z) (h : host) : host :=
  match stdin_flags h with Some _ => Host (attrs h) (settable h) (Some f) (winch h) | None => h end.
Definition set_winch (w : handler) (h : host) : host := Host (attrs h) (settable h) (stdin_flags h) w.

(** ** Raw mode *)

Definition ISIG : Z := 1.
Definition ICANON : Z := 2.
Definition ECHO : Z := 8.
Definition IEXTEN : Z := 32768.
Definition INLCR : Z := 64.
Definition ICRNL : Z := 256.
Definition IXON : Z := 1024.
Definition OPOST : Z := 1.

(** One byte at a time, at once. *)
Definition unbuffered (cc : list Z) : list Z := <[VTIME := 0]> (<[VMIN := 1]> cc).

Definition raw_attrs (t : termios) : termios :=
  cfmakeraw (Termios (clear (c_iflag t) (Z.lor IXON ICRNL)) (clear (c_oflag t) OPOST) (c_cflag t)
    (clear (c_lflag t) (Z.lor ECHO (Z.lor ICANON (Z.lor IEXTEN ISIG)))) (unbuffered (c_cc t)) (c_ispeed t) (c_ospeed t)).

Definition set_raw (o : option termios) (raw : bool) (t : term) : term :=
  Term (finalized t) (atexit_registered t) (cfg_tui_use_mouse t) (tui_over_ssh t) (status t) (redraw_pending t) (redraw_defer_count t)
    (sigwinch_installed t) (previous_sigwinch t) o raw (tk t) (orig_stdin_flags t) (stdin_watch t).

Definition tui_raw_mode (enabled : bool) (s : session) : session :=
  let t := s_term s in
  if enabled then
    if raw_mode_enabled t then s
    else
      match attrs (s_host s) with
      | None => s
      | Some a => set_host (set_attrs (raw_attrs a) (s_host s)) (set_term (set_raw (Some a) (settable (s_host s)) t) s)
      end
  else
    match orig_termios t with
    | Some a => set_host (set_attrs a (s_host s)) (set_term (set_raw (Some a) false t) s)
    | None => s
    end.

(** ** The keys *)

(** [termkey_start] on standard input with TERMKEY_FLAG_CTRLC. *)
Definition termkey_attrs (t : termios) : termios :=
  Termios (clear (c_iflag t) (Z.lor IXON (Z.lor INLCR ICRNL))) (c_oflag t) (c_cflag t)
    (clear (clear (c_lflag t) (Z.lor ICANON (Z.lor ECHO IEXTEN))) ISIG) (unbuffered (c_cc t)) (c_ispeed t) (c_ospeed t).

Definition O_NONBLOCK : Z := 2048.

Definition set_keys (k : option (option termios)) (flags : Z) (watch : bool) (t : term) : term :=
  Term (finalized t) (atexit_registered t) (cfg_tui_use_mouse t) (tui_over_ssh t) (status t) (redraw_pending t) (redraw_defer_count t)
    (sigwinch_installed t) (previous_sigwinch t) (orig_termios t) (raw_mode_enabled t) k flags watch.

Definition started_host (h : host) : host := match attrs h with Some a => set_attrs (termkey_attrs a) h | None => h end.

Definition tui_keys_init (e : env) (s : session) : session :=
  let t := s_term s in
  let h := s_host s in
  match termkey e with
  | NoTermkey => set_term (set_keys None (orig_stdin_flags t) (stdin_watch t) t) s
  | NoDriver => set_host (started_host h) (set_term (set_keys None (orig_stdin_flags t) (stdin_watch t) t) s)
  | Started =>
      let k := Some (attrs h) in
      let h := started_host h in
      match stdin_flags h with
      | Some f => set_host (set_flags (Z.lor f O_NONBLOCK) h) (set_term (set_keys k f true t) s)
      | None => set_host h (set_term (set_keys k (-1) true t) s)
      end
  end.

(** [termkey_destroy] *)
Definition destroy (k : option (option termios)) (h : host) : host :=
  match k with Some (Some a) => set_attrs a h | _ => h end.

Definition tui_keys_fini (s : session) : session :=
  let t := s_term s in
  let h := destroy (tk t) (s_host s) in
  let h := if 0 <=? orig_stdin_flags t then set_flags (orig_stdin_flags t) h else h in
  set_ui (TuiKeys.tui_keys_fini (s_ui s)) (set_host h (set_term (set_keys None (-1) false t) s)).

(** ** Redraws *)

Definition set_screen_of (f : tui -> tui) (s : session) : session := set_ui (set_screen (f (screen (s_ui s))) (s_ui s)) s.

(** A terminal that does not tell its size keeps the one known. *)
Definition update_term_size (e : env) (s : session) : session :=
  match size e with
  | None => s
  | Some (rows, cols) =>
      set_screen_of (fun st => Tui (tui_windows st) (tui_active_win st) (next_addr st) (tui_is_enabled st) (cfg_tui_colors st) rows cols) s
  end.

Definition set_pending (p : bool) (count : Z) (t : term) : term :=
  Term (finalized t) (atexit_registered t) (cfg_tui_use_mouse t) (tui_over_ssh t) (status t) p count
    (sigwinch_installed t) (previous_sigwinch t) (orig_termios t) (raw_mode_enabled t) (tk t) (orig_stdin_flags t) (stdin_watch t).

Definition enabled (s : session) : bool := tui_is_enabled (screen (s_ui s)).

Definition redraw_screen (e : env) (s : session) : session :=
  if negb (enabled s) then s
  else
    let s := set_term (set_pending false (redraw_defer_count (s_term s)) (s_term s)) s in
    emit Screen (set_screen_of tui_redraw_screen (update_term_size e s)).

Definition tui_redraw_request (s : session) : session := set_term (set_pending true (redraw_defer_count (s_term s)) (s_term s)) s.

(** The handler only asks for a redraw. *)
Definition sigwinch_handler (s : session) : session := tui_redraw_request s.

Definition tui_redraw_if_pending (e : env) (s : session) : bool * session :=
  if negb (enabled s) || negb (redraw_pending (s_term s)) then (false, s) else (true, redraw_screen e s).

Definition tui_redraw_defer (s : session) : session :=
  set_term (set_pending (redraw_pending (s_term s)) (redraw_defer_count (s_term s) + 1) (s_term s)) s.

Definition tui_redraw_flush (e : env) (s : session) : session :=
  let count := if 0 <? redraw_defer_count (s_term s) then 0 else redraw_defer_count (s_term s) in
  (tui_redraw_if_pending e (set_term (set_pending (redraw_pending (s_term s)) count (s_term s)) s)).2.

(** The end of [tui_vprint] for the active window: a redraw is asked for, and happens unless deferred. *)
Definition printed (e : env) (s : session) : session :=
  let s := tui_redraw_request s in
  if redraw_defer_count (s_term s) =? 0 then (tui_redraw_if_pending e s).2 else s.

(** ** Lines that are drawn on their own *)

Definition save_cursor : bstr := [ESC; "["; "s"]%char.
Definition restore_cursor : bstr := [ESC; "["; "u"]%char.

(** [%-*s]: the width counts bytes. *)
Definition pad_right (width : Z) (s : bstr) : bstr := s ++ replicate (Z.to_nat width - length s) " "%char.

(** The clock with its IRC codes. *)
Definition clock_tagged (ssh : bool) (tm : Z * Z * Z) : bstr :=
  let '(hour, min, sec) := tm in
  colour "14[" ++ colour "10" ++ two hour ++ colour "14:" ++ colour "10" ++ two min ++
  (if ssh then [] else colour "14:" ++ colour "10" ++ two sec) ++ colour "14]" ++ [chr 15].

Definition clock_visible_len (ssh : bool) : Z := if ssh then 7 else 10.

Definition clock_text (colors ssh : bool) (rows cols : Z) (tm : Z * Z * Z) : option bstr :=
  let col := cols - clock_visible_len ssh in
  if 0 <? col then
    coloured ← tui_colorize_string colors true true (Some (clock_tagged ssh tm));
    Some (save_cursor ++ move_to (rows - 1) (col + 1) ++ coloured ++ reset_sgr ++ restore_cursor)
  else Some [].

(** [tui_active_window], which may make a window or correct the index. *)
Definition active_window (s : session) : option window * session :=
  let '(w, u) := active (s_ui s) in (w, set_ui u s).

(** [full_height]: the active window has a structured view of the whole height.
    [None] is a failed allocation. *)
Definition tui_redraw_clock (tm : Z * Z * Z) (full_height : bool) (s : session) : option session :=
  if negb (enabled s) then Some s
  else
    let s := (active_window s).2 in
    let st := screen (s_ui s) in
    if full_height then Some s
    else
      text ← clock_text (cfg_tui_colors st) (tui_over_ssh (s_term s)) (term_rows st) (term_cols st) tm;
      Some (emit (Text text) s).

Definition statusline_text (rows cols : Z) (line : bstr) : bstr :=
  save_cursor ++ move_to (rows - 1) 1 ++ pad_right cols line ++ restore_cursor.

(** [view]: it has a structured view. *)
Definition tui_redraw_statusline (e : env) (tm : Z * Z * Z) (view full_height : bool) (s : session) : option session :=
  if negb (enabled s) then Some s
  else
    let s := (active_window (update_term_size e s)).2 in
    if view && full_height then Some s
    else
      let st := screen (s_ui s) in
      tui_redraw_clock tm full_height (emit (Text (statusline_text (term_rows st) (term_cols st) (status (s_term s)))) s).

Definition topline_text (cols : Z) (line : option bstr) : bstr :=
  save_cursor ++ move_to 1 1 ++ " "%char :: tui_print_topline line (if 1 <? cols then cols - 1 else 0) ++ restore_cursor.

(** [renderer]: what the application's renderer makes of the window, if it is set. *)
Definition tui_redraw_topline (e : env) (renderer : option (window -> option bstr)) (s : session) : session :=
  if negb (enabled s) then s
  else
    let '(w, s) := active_window (update_term_size e s) in
    let st := screen (s_ui s) in
    match w with
    | None => s
    | Some w =>
        let line := match renderer with Some r => r w | None => None end in
        let line := match line with
          | Some _ => line
          | None => tui_colorize_string (cfg_tui_colors st) true true (Some (status_line w))
          end in
        emit (Text (topline_text (term_cols st) line)) s
    end.

Definition tui_window_update_topline (line : option bstr) (s : session) : session :=
  match line with
  | Some line => if enabled s then emit (Text (move_to 1 1 ++ [ESC; "["; "2"; "K"]%char ++ line)) s else s
  | None => s
  end.

(** ** Start and end *)

Definition mode (n : string) (c : ascii) : bstr := [ESC; "["; "?"]%char ++ B n ++ [c].
Arguments mode _%_string _%_char.

Definition mouse_text : bstr := mode "1000" "h" ++ mode "1002" "h" ++ mode "1006" "h".

Definition offline : bstr := colour "14[" ++ colour "04OFFLINE" ++ colour "14]" ++ [chr 15].

Definition init_term (e : env) (previous : handler) (line : bstr) (t : term) : term :=
  Term false (atexit_registered t || atexit_ok e) (mouse e) (tui_over_ssh t || ssh_tty e) line (redraw_pending t) (redraw_defer_count t)
    (signal_ok e) previous (orig_termios t) (raw_mode_enabled t) (tk t) (orig_stdin_flags t) (stdin_watch t).

Definition init_screen (e : env) (st : tui) : tui :=
  Tui (tui_windows st) (tui_active_win st) (next_addr st) true (use_color e) (term_rows st) (term_cols st).

(** [None] is a failed allocation. *)
Definition tui_init (e : env) (s : session) : option session :=
  let s := set_screen_of (init_screen e) (update_term_size e s) in
  let previous := winch (s_host s) in
  let s := if signal_ok e then set_host (set_winch Sigwinch (s_host s)) s else s in
  line ← tui_colorize_string (use_color e) true true (Some offline);
  let s := set_term (init_term e previous (take (STATUS_LEN - 1) line) (s_term s)) s in
  let s := set_screen_of tui_window_init s in
  let s := tui_keys_init e (tui_raw_mode true s) in
  let s := redraw_screen e (tui_window_update_topline (Some (B "Chikin r tasty")) s) in
  let s := if mouse e then emit (Text mouse_text) s else s in
  Some (emit (Text (move_to (term_rows (screen (s_ui s))) 1)) s).

Definition fini_text : bstr :=
  reset_sgr ++ mode "25" "h" ++ [ESC; "["; "0"; " "; "q"]%char ++ mode "1" "l" ++ [ESC; ">"]%char ++
  mode "1000" "l" ++ mode "1002" "l" ++ mode "1003" "l" ++ mode "1004" "l" ++ mode "1006" "l" ++ mode "2004" "l" ++
  mode "6" "l" ++ mode "7" "h" ++ [ESC; "["; "r"]%char ++ move_to 999 1 ++ [ESC; "["; "2"; "K"]%char ++ [chr 13; chr 10].

Definition fini_term (t : term) : term :=
  Term true (atexit_registered t) (cfg_tui_use_mouse t) (tui_over_ssh t) (status t) (redraw_pending t) (redraw_defer_count t)
    false (previous_sigwinch t) (orig_termios t) (raw_mode_enabled t) (tk t) (orig_stdin_flags t) (stdin_watch t).

Definition disable (st : tui) : tui :=
  Tui (tui_windows st) (tui_active_win st) (next_addr st) false (cfg_tui_colors st) (term_rows st) (term_cols st).

Definition tui_fini (s : session) : session :=
  let t := s_term s in
  if finalized t then s
  else
    let h := if sigwinch_installed t then set_winch (previous_sigwinch t) (s_host s) else s_host s in
    let s := set_screen_of disable (set_host h (set_term (fini_term t) s)) in
    let s := tui_raw_mode false (tui_keys_fini s) in
    set_screen_of tui_window_fini (emit (Text fini_text) s).
