(* ===== verification/TuiTermSpec.v ===== *)
(** * What start-up and shutdown promise (tui.c, tui.keys.c)

    Whenever the interface is shut down, the terminal, the flags of standard input and
    the handler of SIGWINCH are those from before it was started; while it runs the
    terminal is raw; redraws that are asked for while they are deferred are one. *)

From S2P Require Import Prelude CString ConfigText Util TuiText TuiTextSpec TuiWindow TuiDraw TuiInput TuiKeys Serial SerialSpec TuiTerm.

#[local] Open Scope Z_scope.

(** ** Runs *)

(** What may happen, in any order; the keys and the application change the interface
    in any way. *)
Inductive op :=
| Init (e : env) | Fini | Winch | Request | Defer | Flush (e : env) | Print (e : env)
| Redraw (e : env) | Topline (e : env) (r : option (window -> option bstr)) | Change (f : ui -> ui).

Definition step (o : op) (s : session) : option session :=
  match o with
  | Init e => tui_init e s
  | Fini => Some (tui_fini s)
  | Winch => Some (sigwinch_handler s)
  | Request => Some (tui_redraw_request s)
  | Defer => Some (tui_redraw_defer s)
  | Flush e => Some (tui_redraw_flush e s)
  | Print e => Some (printed e s)
  | Redraw e => Some (redraw_screen e s)
  | Topline e r => Some (tui_redraw_topline e r s)
  | Change f => Some (set_ui (f (s_ui s)) s)
  end.

Fixpoint run (ops : list op) (s : session) : option session :=
  match ops with
  | [] => Some s
  | o :: ops => s ← step o s; run ops s
  end.

(** It is not started while it runs: whether it runs at the end. *)
Fixpoint balanced (running : bool) (ops : list op) : bool :=
  match ops with
  | [] => true
  | Init _ :: ops => negb running && balanced true ops
  | Fini :: ops => balanced false ops
  | _ :: ops => balanced running ops
  end.

(** ** What does not touch the host *)

Definition same_modes (s s' : session) : Prop :=
  s_host s' = s_host s /\
  let t := s_term s in let t' := s_term s' in
  finalized t' = finalized t /\ sigwinch_installed t' = sigwinch_installed t /\ previous_sigwinch t' = previous_sigwinch t /\
  orig_termios t' = orig_termios t /\ raw_mode_enabled t' = raw_mode_enabled t /\ tk t' = tk t /\
  orig_stdin_flags t' = orig_stdin_flags t.

Lemma same_modes_refl s : same_modes s s.
Proof. done. Qed.

Lemma same_modes_trans a b c : same_modes a b -> same_modes b c -> same_modes a c.
Proof. unfold same_modes. intros (? & ? & ? & ? & ? & ? & ? & ?) (? & ? & ? & ? & ? & ? & ? & ?). repeat apply conj; congruence. Qed.

Lemma update_size_same e s : same_modes s (update_term_size e s).
Proof. unfold update_term_size. by destruct (size e) as [[] |]. Qed.

Lemma redraw_screen_same e s : same_modes s (redraw_screen e s).
Proof. unfold redraw_screen, update_term_size. destruct (enabled s); [| done]. by destruct (size e) as [[] |]. Qed.

Lemma if_pending_same e s : same_modes s (tui_redraw_if_pending e s).2.
Proof. unfold tui_redraw_if_pending. destruct (negb _ || negb _); [done | apply redraw_screen_same]. Qed.

Lemma pending_same p c s s' : same_modes (set_term (set_pending p c (s_term s)) s) s' -> same_modes s s'.
Proof. intros H. exact H. Qed.

Lemma topline_same e r s : same_modes s (tui_redraw_topline e r s).
Proof.
  unfold tui_redraw_topline, active_window. destruct (enabled s); cbn [negb]; [| apply same_modes_refl].
  destruct (active (s_ui (update_term_size e s))) as [[w |] u]; exact (update_size_same e s).
Qed.

Lemma step_same o s s' : (forall e, o <> Init e) -> o <> Fini -> step o s = Some s' -> same_modes s s'.
Proof.
  intros Hi Hf. destruct o as [e | | | | | e | e | e | e r | f]; [by destruct (Hi e) | by destruct Hf | ..]; cbn [step]; intros [= <-].
  - apply (pending_same true (redraw_defer_count (s_term s))), same_modes_refl.
  - apply (pending_same true (redraw_defer_count (s_term s))), same_modes_refl.
  - apply (pending_same (redraw_pending (s_term s)) (redraw_defer_count (s_term s) + 1)), same_modes_refl.
  - unfold tui_redraw_flush. eapply pending_same. apply if_pending_same.
  - unfold printed. case_match; [| eapply pending_same; apply same_modes_refl]. eapply pending_same. apply if_pending_same.
  - apply redraw_screen_same.
  - apply topline_same.
  - by repeat split.
Qed.

(** ** The invariant *)

(** While the interface runs the attributes may be others, if they can be set. *)
Definition attrs_alive (h0 h : host) : Prop :=
  match attrs h0 with
  | None => attrs h = None
  | Some a => if settable h0 then is_Some (attrs h) else attrs h = Some a
  end.

Definition flags_alive (f0 f : option Z) (orig : Z) : Prop :=
  match f0 with
  | None => f = None /\ orig = -1
  | Some f1 => (is_Some f /\ orig = f1) \/ (f = Some f1 /\ orig = -1)
  end.

Record modes_ok (running : bool) (h0 : host) (s : session) : Prop := {
  mo_settable : settable (s_host s) = settable h0;
  mo_attrs : if running then attrs_alive h0 (s_host s) else attrs (s_host s) = attrs h0;
  mo_orig : orig_termios (s_term s) = attrs h0 \/ (running = false /\ orig_termios (s_term s) = None);
  mo_flags : if running then flags_alive (stdin_flags h0) (stdin_flags (s_host s)) (orig_stdin_flags (s_term s))
             else stdin_flags (s_host s) = stdin_flags h0 /\ orig_stdin_flags (s_term s) = -1;
  mo_winch : if sigwinch_installed (s_term s) then running = true /\ previous_sigwinch (s_term s) = winch h0 else winch (s_host s) = winch h0;
  mo_stopped : running = false -> tk (s_term s) = None /\ raw_mode_enabled (s_term s) = false;
  mo_raw : orig_termios (s_term s) = None -> raw_mode_enabled (s_term s) = false;
  mo_running : running = true -> finalized (s_term s) = false
}.

Lemma modes_ok_same running h0 s s' : same_modes s s' -> modes_ok running h0 s -> modes_ok running h0 s'.
Proof.
  intros (Hh & H1 & H2 & H3 & H4 & H5 & H6 & H7) []. split; rewrite ?Hh, ?H1, ?H2, ?H3, ?H4, ?H5, ?H6, ?H7; done.
Qed.

(** What a host is apart from its attributes. *)
Lemma set_attrs_fields a h :
  settable (set_attrs a h) = settable h /\ stdin_flags (set_attrs a h) = stdin_flags h /\ winch (set_attrs a h) = winch h /\
  attrs (set_attrs a h) = (if settable h then (fun _ => a) <$> attrs h else attrs h).
Proof. unfold set_attrs. destruct (attrs h) eqn:E, (settable h) eqn:F; cbn; rewrite ?E, ?F; done. Qed.

Lemma set_flags_fields f h :
  settable (set_flags f h) = settable h /\ attrs (set_flags f h) = attrs h /\ winch (set_flags f h) = winch h /\
  stdin_flags (set_flags f h) = (fun _ => f) <$> stdin_flags h.
Proof. unfold set_flags. destruct (stdin_flags h) eqn:E; cbn; rewrite ?E; done. Qed.

Lemma set_attrs_alive h0 h a : settable h = settable h0 -> attrs_alive h0 h -> attrs_alive h0 (set_attrs a h).
Proof.
  intros Hs. unfold attrs_alive. destruct (set_attrs_fields a h) as (_ & _ & _ & ->). rewrite Hs.
  destruct (attrs h0), (settable h0); try done; intros H; try (by rewrite H). destruct H as [? ->]. by eexists.
Qed.

(** ** Starting *)

(** Up to raw mode: the handler is set, the rest is as before. *)
Record begun (h0 : host) (s : session) : Prop := {
  bg_settable : settable (s_host s) = settable h0;
  bg_flags : stdin_flags (s_host s) = stdin_flags h0 /\ orig_stdin_flags (s_term s) = -1;
  bg_winch : if sigwinch_installed (s_term s) then previous_sigwinch (s_term s) = winch h0 else winch (s_host s) = winch h0;
  bg_finalized : finalized (s_term s) = false
}.

Lemma raw_mode_on h0 s :
  begun h0 s -> attrs (s_host s) = attrs h0 -> raw_mode_enabled (s_term s) = false ->
  orig_termios (s_term s) = attrs h0 \/ orig_termios (s_term s) = None ->
  begun h0 (tui_raw_mode true s) /\ attrs_alive h0 (s_host (tui_raw_mode true s)) /\ orig_termios (s_term (tui_raw_mode true s)) = attrs h0 /\
  (forall a, attrs h0 = Some a -> settable h0 = true -> attrs (s_host (tui_raw_mode true s)) = Some (raw_attrs a)) /\
  (orig_termios (s_term (tui_raw_mode true s)) = None -> raw_mode_enabled (s_term (tui_raw_mode true s)) = false).
Proof.
  intros [B1 B2 B3 B4] Ha Hr Ho. unfold tui_raw_mode. rewrite Hr. destruct (attrs (s_host s)) as [a |] eqn:E.
  - destruct (set_attrs_fields (raw_attrs a) (s_host s)) as (F1 & F2 & F3 & F4). rewrite E, B1 in F4. cbn [fmap option_fmap option_map] in F4.
    split; [split; cbn; rewrite ?F1, ?F2, ?F3; done |]. split; [| split; [done | split; [| done]]].
    + unfold attrs_alive. rewrite <- Ha. cbn [s_host set_host]. rewrite F4. by destruct (settable h0).
    + intros a' Ha' Hs. cbn [s_host set_host]. rewrite F4, Hs. by rewrite Ha' in Ha; injection Ha as ->.
  - rewrite <- Ha. split; [done |]. split; [unfold attrs_alive; by rewrite <- Ha |]. split; [| done]. rewrite Ha. by destruct Ho as [-> | ->].
Qed.

Lemma started_host_fields h :
  settable (started_host h) = settable h /\ stdin_flags (started_host h) = stdin_flags h /\ winch (started_host h) = winch h.
Proof. unfold started_host. case_match; [| done]. destruct (set_attrs_fields (termkey_attrs t) h) as (? & ? & ? & _). done. Qed.

Lemma started_host_alive h0 h : settable h = settable h0 -> attrs_alive h0 h -> attrs_alive h0 (started_host h).
Proof. intros Hs H. unfold started_host. case_match; [by apply set_attrs_alive | done]. Qed.

(** What the keys do to the host. *)
Lemma keys_init_fields e s :
  let s' := tui_keys_init e s in
  settable (s_host s') = settable (s_host s) /\ winch (s_host s') = winch (s_host s) /\
  attrs (s_host s') = attrs (if termkey e is NoTermkey then s_host s else started_host (s_host s)) /\
  finalized (s_term s') = finalized (s_term s) /\ sigwinch_installed (s_term s') = sigwinch_installed (s_term s) /\
  previous_sigwinch (s_term s') = previous_sigwinch (s_term s) /\ orig_termios (s_term s') = orig_termios (s_term s) /\
  raw_mode_enabled (s_term s') = raw_mode_enabled (s_term s).
Proof.
  unfold tui_keys_init. destruct (started_host_fields (s_host s)) as (F1 & F2 & F3).
  destruct (termkey e); cbn; try done. destruct (stdin_flags (started_host (s_host s))) as [f |] eqn:E; cbn; [| done].
  destruct (set_flags_fields (Z.lor f O_NONBLOCK) (started_host (s_host s))) as (G1 & G2 & G3 & _). rewrite G1, G2, G3. done.
Qed.

Lemma keys_init_flags h0 e s :
  stdin_flags (s_host s) = stdin_flags h0 -> orig_stdin_flags (s_term s) = -1 ->
  flags_alive (stdin_flags h0) (stdin_flags (s_host (tui_keys_init e s))) (orig_stdin_flags (s_term (tui_keys_init e s))).
Proof.
  intros Hf Ho. destruct (started_host_fields (s_host s)) as (F1 & F2 & F3).
  unfold tui_keys_init, flags_alive. destruct (termkey e); cbn.
  - rewrite F2, Hf. destruct (stdin_flags h0) as [f |] eqn:E; cbn; [| by rewrite F2, Hf].
    destruct (set_flags_fields (Z.lor f O_NONBLOCK) (started_host (s_host s))) as (_ & _ & _ & G). rewrite G, F2, Hf. left. split; [by eexists | done].
  - rewrite Hf, Ho. destruct (stdin_flags h0); [by right | done].
  - rewrite F2, Hf, Ho. destruct (stdin_flags h0); [by right | done].
Qed.

(** The session when raw mode is set. *)
Definition before_raw (e : env) (line : bstr) (s : session) : session :=
  let s := set_screen_of (init_screen e) (update_term_size e s) in
  let previous := winch (s_host s) in
  let s := if signal_ok e then set_host (set_winch Sigwinch (s_host s)) s else s in
  set_screen_of tui_window_init (set_term (init_term e previous (take (STATUS_LEN - 1) line) (s_term s)) s).

Lemma before_raw_fields e line s :
  let s' := before_raw e line s in
  attrs (s_host s') = attrs (s_host s) /\ settable (s_host s') = settable (s_host s) /\ stdin_flags (s_host s') = stdin_flags (s_host s) /\
  winch (s_host s') = (if signal_ok e then Sigwinch else winch (s_host s)) /\
  sigwinch_installed (s_term s') = signal_ok e /\ previous_sigwinch (s_term s') = winch (s_host s) /\ finalized (s_term s') = false /\
  orig_termios (s_term s') = orig_termios (s_term s) /\ raw_mode_enabled (s_term s') = raw_mode_enabled (s_term s) /\
  orig_stdin_flags (s_term s') = orig_stdin_flags (s_term s).
Proof. unfold before_raw, update_term_size. destruct (size e) as [[rows cols] |], (signal_ok e) eqn:E; repeat split; exact E. Qed.

(** What is drawn after that leaves the host alone. *)
Lemma tui_init_parts e s :
  exists line s', tui_init e s = Some s' /\ same_modes (tui_keys_init e (tui_raw_mode true (before_raw e line s))) s'.
Proof.
  destruct (colorize_total (use_color e) offline) as [line Hl]; [vm_compute; discriminate |]. unfold tui_init. rewrite Hl. cbn [mbind option_bind].
  exists line. eexists. split; [reflexivity |]. fold (before_raw e line s). set (k := tui_keys_init e (tui_raw_mode true (before_raw e line s))).
  assert (same_modes k (redraw_screen e (tui_window_update_topline (Some (B "Chikin r tasty")) k))) as H.
  { eapply same_modes_trans; [| apply redraw_screen_same]. unfold tui_window_update_topline. case_match; by repeat split. }
  destruct (mouse e); exact H.
Qed.

Lemma tui_init_ok h0 e s : modes_ok false h0 s ->
  exists s', tui_init e s = Some s' /\ modes_ok true h0 s' /\
    (forall a, attrs h0 = Some a -> settable h0 = true ->
       attrs (s_host s') = Some (if termkey e is NoTermkey then raw_attrs a else termkey_attrs (raw_attrs a))).
Proof.
  intros [I1 I2 I3 [I4 I4'] I5 I6 _ _]. destruct (I6 eq_refl) as [_ Hraw].
  destruct (tui_init_parts e s) as (line & s' & -> & Hsame). exists s'. split; [done |].
  destruct (before_raw_fields e line s) as (P1 & P2 & P3 & P4 & P5 & P6 & P7 & P8 & P9 & P10).
  set (b := before_raw e line s) in *.
  assert (sigwinch_installed (s_term s) = false) as Hinst by (destruct (sigwinch_installed (s_term s)); [by destruct I5 | done]).
  rewrite Hinst in I5.
  assert (begun h0 b) as Hb.
  { split; [by rewrite P2 | by rewrite P3, P10 | | done]. rewrite P5, P4, P6, I5. by destruct (signal_ok e). }
  destruct (raw_mode_on h0 b Hb) as ([B1 [B2 B2'] B3 B4] & Halive & Horig & Hset & Hraw').
  { by rewrite P1. }
  { by rewrite P9. }
  { rewrite P8. destruct I3 as [-> | [_ ->]]; auto. }
  set (r := tui_raw_mode true b) in *. destruct (keys_init_fields e r) as (K1 & K2 & K3 & K4 & K5 & K6 & K7 & K8).
  set (k := tui_keys_init e r) in *. destruct Hsame as (S0 & S1 & S2 & S3 & S4 & S5 & S6 & S7).
  assert (attrs_alive h0 (s_host s')) as Hal.
  { unfold attrs_alive. rewrite S0, K3. destruct (termkey e); [apply started_host_alive | | apply started_host_alive]; done. }
  split.
  - split.
    + by rewrite S0, K1.
    + exact Hal.
    + left. by rewrite S4, K7.
    + rewrite S0, S7. by apply keys_init_flags.
    + rewrite S2, S3, K5, K6, S0, K2. destruct (sigwinch_installed (s_term r)); done.
    + done.
    + rewrite S4, S5, K7, K8. exact Hraw'.
    + intros _. by rewrite S1, K4.
  - intros a Ha Hst. rewrite S0, K3. pose proof (Hset a Ha Hst) as Hr.
    assert (attrs (started_host (s_host r)) = Some (termkey_attrs (raw_attrs a))) as Hstart.
    { unfold started_host. rewrite Hr. destruct (set_attrs_fields (termkey_attrs (raw_attrs a)) (s_host r)) as (_ & _ & _ & ->). by rewrite B1, Hst, Hr. }
    by destruct (termkey e).
Qed.

(** ** Ending *)

Lemma raw_mode_off s :
  let s' := tui_raw_mode false s in
  same_modes s s' \/
  (exists a, orig_termios (s_term s) = Some a /\ s_host s' = set_attrs a (s_host s) /\ orig_termios (s_term s') = Some a /\
     raw_mode_enabled (s_term s') = false /\ finalized (s_term s') = finalized (s_term s) /\ sigwinch_installed (s_term s') = sigwinch_installed (s_term s) /\
     tk (s_term s') = tk (s_term s) /\ orig_stdin_flags (s_term s') = orig_stdin_flags (s_term s)).
Proof.
  unfold tui_raw_mode. destruct (orig_termios (s_term s)) as [a |] eqn:E; [right | by left]. by exists a.
Qed.

Definition attrs_state (running : bool) (h0 h : host) : Prop := if running then attrs_alive h0 h else attrs h = attrs h0.

Definition flags_state (running : bool) (h0 h : host) (orig : Z) : Prop :=
  if running then flags_alive (stdin_flags h0) (stdin_flags h) orig else stdin_flags h = stdin_flags h0 /\ orig = -1.

Lemma attrs_state_eq running h0 h h' : attrs h' = attrs h -> attrs_state running h0 h -> attrs_state running h0 h'.
Proof. intros E. destruct running; cbn; [unfold attrs_alive |]; by rewrite E. Qed.

Lemma destroy_host_ok running h0 h k :
  settable h = settable h0 -> attrs_state running h0 h -> (running = false -> k = None) ->
  settable (destroy k h) = settable h /\ stdin_flags (destroy k h) = stdin_flags h /\ winch (destroy k h) = winch h /\
  attrs_state running h0 (destroy k h).
Proof.
  intros Hs Ha Hk. destruct k as [[a |] |]; [| done | done]. destruct running; [| by discriminate Hk]. cbn [destroy].
  destruct (set_attrs_fields a h) as (-> & -> & -> & _). repeat split. by apply set_attrs_alive.
Qed.

(** The flags of standard input go back to what they were. *)
Lemma flags_back running h0 h orig :
  match stdin_flags h0 with Some f => 0 <= f | None => True end -> flags_state running h0 h orig ->
  let h' := if 0 <=? orig then set_flags orig h else h in
  stdin_flags h' = stdin_flags h0 /\ settable h' = settable h /\ winch h' = winch h /\ attrs h' = attrs h.
Proof.
  intros H0 Hf h'. assert (stdin_flags h' = stdin_flags h0 /\ (h' = h \/ h' = set_flags orig h)) as [-> Hh].
  { unfold h'. destruct (set_flags_fields orig h) as (_ & _ & _ & F4). destruct (Z.leb_spec 0 orig) as [Hle | Hlt].
    - split; [| by right]. rewrite F4. destruct running; cbn in Hf; [| lia]. unfold flags_alive in Hf.
      destruct (stdin_flags h0) as [f |]; [| lia]. destruct Hf as [[[f' ->] ->] | [_ ?]]; [done | lia].
    - split; [| by left]. destruct running; cbn in Hf; [| by destruct Hf]. unfold flags_alive in Hf.
      destruct (stdin_flags h0) as [f |]; [| by destruct Hf]. destruct Hf as [[_ ?] | [? _]]; [lia | done]. }
  split; [done |]. destruct Hh as [-> | ->]; [done |]. by destruct (set_flags_fields orig h) as (-> & -> & -> & _).
Qed.

Lemma host_eq (h h' : host) : attrs h = attrs h' -> settable h = settable h' -> stdin_flags h = stdin_flags h' -> winch h = winch h' -> h = h'.
Proof. destruct h, h'; cbn. congruence. Qed.

(** Setting the attributes that were saved gives the host of the beginning. *)
Lemma attrs_back running h0 h orig :
  settable h = settable h0 -> stdin_flags h = stdin_flags h0 -> winch h = winch h0 -> attrs_state running h0 h ->
  orig = attrs h0 \/ (running = false /\ orig = None) ->
  match orig with Some a => set_attrs a h | None => h end = h0.
Proof.
  intros Hs Hf Hw Ha Ho. assert (orig = None -> attrs h = attrs h0) as Hnone.
  { intros ->. destruct Ho as [Ho | [-> _]]; [| done]. destruct running; [| done]. cbn in Ha. unfold attrs_alive in Ha. by rewrite <- Ho in *. }
  destruct orig as [a |]; [| apply host_eq; auto]. destruct Ho as [Ho | [_ ?]]; [| done].
  destruct (set_attrs_fields a h) as (F1 & F2 & F3 & F4). apply host_eq; [| congruence..]. rewrite F4, Hs.
  destruct running; cbn in Ha; [unfold attrs_alive in Ha |]; rewrite <- Ho in *.
  - destruct (settable h0); [by destruct Ha as [? ->] | done].
  - rewrite Ha. by destruct (settable h0).
Qed.

(** The shutdown of a session that is not finalized, as one change of the host. *)
Lemma tui_fini_host s :
  finalized (s_term s) = false ->
  let t := s_term s in
  let h := destroy (tk t) (if sigwinch_installed t then set_winch (previous_sigwinch t) (s_host s) else s_host s) in
  let h := if 0 <=? orig_stdin_flags t then set_flags (orig_stdin_flags t) h else h in
  s_host (tui_fini s) = match orig_termios t with Some a => set_attrs a h | None => h end /\
  let t' := s_term (tui_fini s) in
  tk t' = None /\ orig_stdin_flags t' = -1 /\ sigwinch_installed t' = false /\ orig_termios t' = orig_termios t /\
  (orig_termios t = None -> raw_mode_enabled t' = raw_mode_enabled t) /\ (orig_termios t <> None -> raw_mode_enabled t' = false).
Proof.
  intros Hfin. unfold tui_fini. rewrite Hfin. unfold tui_raw_mode.
  change (orig_termios (s_term (tui_keys_fini ?x))) with (orig_termios (s_term x)). cbn [s_term set_screen_of set_ui set_host set_term fini_term orig_termios].
  destruct (orig_termios (s_term s)) eqn:E; cbn; rewrite ?E; repeat split; done.
Qed.

Lemma tui_fini_ok running h0 s : match stdin_flags h0 with Some f => 0 <= f | None => True end ->
  modes_ok running h0 s -> s_host (tui_fini s) = h0 /\ modes_ok false h0 (tui_fini s).
Proof.
  intros H0 Hm. pose proof Hm as [I1 I2 I3 I4 I5 I6 I7 I8]. destruct (finalized (s_term s)) eqn:Hfin.
  { unfold tui_fini. rewrite Hfin. destruct running; [specialize (I8 eq_refl); congruence |]. split; [| done].
    destruct (sigwinch_installed (s_term s)); [by destruct I5 |]. destruct I4. by apply host_eq. }
  destruct (tui_fini_host s Hfin) as (Hh & T1 & T2 & T3 & T4 & T5 & T6).
  set (h := if sigwinch_installed (s_term s) then set_winch (previous_sigwinch (s_term s)) (s_host s) else s_host s) in *.
  assert (winch h = winch h0 /\ attrs h = attrs (s_host s) /\ settable h = settable h0 /\ stdin_flags h = stdin_flags (s_host s)) as (W1 & W2 & W3 & W4).
  { unfold h. destruct (sigwinch_installed (s_term s)); [| done]. by destruct I5 as [_ ->]. }
  destruct (destroy_host_ok running h0 h (tk (s_term s))) as (D1 & D2 & D3 & D4); [done | by apply (attrs_state_eq running h0 (s_host s)) | by apply I6 |].
  destruct (flags_back running h0 (destroy (tk (s_term s)) h) (orig_stdin_flags (s_term s)) H0) as (F1 & F2 & F3 & F4).
  { unfold flags_state. rewrite D2, W4. exact I4. }
  assert (s_host (tui_fini s) = h0) as Hend.
  { rewrite Hh. apply (attrs_back running); [congruence | congruence | congruence | by eapply attrs_state_eq | done]. }
  split; [exact Hend |]. split; rewrite ?Hend, ?T3, ?T4; try done.
  - destruct I3 as [-> | [_ ->]]; auto.
  - intros _. split; [done |]. destruct (orig_termios (s_term s)) eqn:Eo; [by apply T6 | rewrite T5 by done].
    by apply I7.
  - intros Eo. rewrite T5 by done. by apply I7.
Qed.

(** ** Sessions *)

(** Before anything has been started. *)
Definition fresh (h0 : host) (s : session) : Prop :=
  s_host s = h0 /\ let t := s_term s in
  sigwinch_installed t = false /\ orig_termios t = None /\ raw_mode_enabled t = false /\ tk t = None /\ orig_stdin_flags t = -1.

Lemma fresh_modes h0 s : fresh h0 s -> modes_ok false h0 s.
Proof. intros (Hh & H1 & H2 & H3 & H4 & H5). split; rewrite ?Hh, ?H1, ?H2, ?H3, ?H4, ?H5; auto; done. Qed.

Lemma run_ok h0 ops running s :
  match stdin_flags h0 with Some f => 0 <= f | None => True end -> balanced running ops = true -> modes_ok running h0 s ->
  exists s' running', run ops s = Some s' /\ modes_ok running' h0 s'.
Proof.
  intros H0. revert running s. induction ops as [| o ops IH]; intros running s Hb Hm; [by exists s, running |]. cbn [run].
  assert (Hrest : forall s', (forall e, o <> Init e) -> o <> Fini -> step o s = Some s' -> balanced running ops = true ->
    exists s'' running', (s' ← step o s; run ops s') = Some s'' /\ modes_ok running' h0 s'').
  { intros s' Hi Hf Hs Hb'. rewrite Hs. cbn [mbind option_bind]. apply (IH running s' Hb').
    eapply modes_ok_same; [by eapply step_same | done]. }
  destruct o; try (eapply Hrest; [done | done | reflexivity | exact Hb]).
  - cbn [balanced] in Hb. apply andb_prop in Hb as [Hr Hb]. destruct running; [done |].
    destruct (tui_init_ok h0 e s Hm) as (s1 & Hs1 & Hm1 & _). cbn [step]. rewrite Hs1. cbn [mbind option_bind]. by apply (IH true).
  - cbn [step mbind option_bind]. apply (IH false); [exact Hb |]. by apply (tui_fini_ok running).
Qed.

(** C20: whatever is done with the interface, provided it is not started a second time while it runs, every step returns,
    and the shutdown at the end, which the exit of the process runs, leaves the attributes of the terminal, the flags of
    standard input and the handler of SIGWINCH as they were before the first start, also when a step of the start failed. *)
Theorem terminal_restored h0 ops s :
  match stdin_flags h0 with Some f => 0 <= f | None => True end -> fresh h0 s -> balanced false ops = true ->
  exists s', run ops s = Some s' /\ s_host (tui_fini s') = h0.
Proof.
  intros H0 Hf Hb. destruct (run_ok h0 ops false s H0 Hb (fresh_modes _ _ Hf)) as (s' & running & Hr & Hm).
  exists s'. split; [exact Hr |]. by apply (tui_fini_ok running).
Qed.

Lemma clear_land a m k : Z.ldiff k m = 0 -> Z.land (clear a m) k = 0.
Proof. intros H. by rewrite land_clear, H, Z.land_0_r. Qed.

Lemma clear_stays_off a m k : Z.land a k = 0 -> Z.land (clear a m) k = 0.
Proof.
  intros H. apply Z.bits_inj'. intros n Hn. apply (f_equal (fun z => Z.testbit z n)) in H. revert H. unfold clear.
  rewrite !Z.land_spec, Z.ldiff_spec, Z.bits_0. destruct (Z.testbit a n), (Z.testbit m n), (Z.testbit k n); done.
Qed.

Lemma unbuffered_lookup cc : (VMIN < length cc)%nat -> unbuffered cc !! VMIN = Some 1 /\ unbuffered cc !! VTIME = Some 0 /\ length (unbuffered cc) = length cc.
Proof.
  intros H. unfold unbuffered. pose proof (eq_refl : (VTIME = 5)%nat). pose proof (eq_refl : (VMIN = 6)%nat).
  split; [rewrite list_lookup_insert_ne by lia; apply list_lookup_insert_eq; lia |].
  split; [apply list_lookup_insert_eq; rewrite length_insert; lia | by rewrite !length_insert].
Qed.

(** A start on a terminal whose attributes can be set reads its keys raw: no echo, no lines, no signals, byte by byte. *)
Theorem init_raw e s a :
  fresh (s_host s) s -> attrs (s_host s) = Some a -> settable (s_host s) = true -> (VMIN < length (c_cc a))%nat ->
  exists s' a', tui_init e s = Some s' /\ attrs (s_host s') = Some a' /\
    Z.land (c_lflag a') (Z.lor ECHO (Z.lor ICANON (Z.lor IEXTEN ISIG))) = 0 /\ Z.land (c_iflag a') (Z.lor IXON ICRNL) = 0 /\
    Z.land (c_oflag a') OPOST = 0 /\ c_cc a' !! VMIN = Some 1 /\ c_cc a' !! VTIME = Some 0.
Proof.
  intros Hf Ha Hs Hcc. destruct (tui_init_ok (s_host s) e s (fresh_modes _ _ Hf)) as (s' & Hi & _ & Hset).
  exists s'. eexists. split; [exact Hi |]. split; [by apply Hset |].
  destruct (unbuffered_lookup (c_cc a) Hcc) as (_ & _ & L1). destruct (unbuffered_lookup (unbuffered (c_cc a))) as (V1 & V2 & L2); [lia |].
  destruct (unbuffered_lookup (unbuffered (unbuffered (c_cc a)))) as (V3 & V4 & _); [lia |].
  destruct (termkey e); cbn; repeat split; try done; repeat first [by apply clear_land | apply clear_stays_off].
Qed.

(** ** Redraws *)

(** Requests, resizes and prints while redraws are deferred. *)
Definition deferred_op (o : op) : bool := match o with Winch | Request | Defer | Print _ => true | _ => false end.

Lemma deferred_run ops s :
  forallb deferred_op ops = true -> 0 < redraw_defer_count (s_term s) ->
  exists s', run ops s = Some s' /\ out s' = out s /\ s_ui s' = s_ui s /\ 0 < redraw_defer_count (s_term s') /\
    redraw_pending (s_term s') = redraw_pending (s_term s) || existsb (fun o => match o with Defer => false | _ => true end) ops.
Proof.
  revert s. induction ops as [| o ops IH]; intros s Ho Hc; cbn [run forallb existsb] in *.
  { exists s. by rewrite orb_false_r. }
  apply andb_prop in Ho as [Ho Hops].
  assert (exists s1, step o s = Some s1 /\ out s1 = out s /\ s_ui s1 = s_ui s /\ 0 < redraw_defer_count (s_term s1) /\
    redraw_pending (s_term s1) = redraw_pending (s_term s) || match o with Defer => false | _ => true end) as (s1 & -> & O1 & U1 & C1 & P1).
  { destruct o; try done; cbn [step]; eexists; (split; [reflexivity |]).
    - by rewrite orb_true_r.
    - by rewrite orb_true_r.
    - cbn. rewrite orb_false_r. repeat split; lia.
    - unfold printed. change (redraw_defer_count (s_term (tui_redraw_request s))) with (redraw_defer_count (s_term s)).
      rewrite (proj2 (Z.eqb_neq _ 0)) by lia. by rewrite orb_true_r. }
  cbn [mbind option_bind]. destruct (IH s1 Hops C1) as (s' & -> & O2 & U2 & C2 & P2). exists s'.
  split; [done |]. split; [congruence |]. split; [congruence |]. split; [done |]. by rewrite P2, P1, orb_assoc.
Qed.

Lemma run_ops_app ops ops' s : run (ops ++ ops') s = (s' ← run ops s; run ops' s').
Proof. revert s. induction ops as [| o ops IH]; intros s; [done |]. cbn [app run]. destruct (step o s); cbn; [apply IH | done]. Qed.

(** Whatever asks for a redraw while redraws are deferred, the flush draws the screen once. *)
Theorem flush_draws_once e ops s :
  forallb deferred_op ops = true -> enabled s = true -> redraw_pending (s_term s) = false -> 0 <= redraw_defer_count (s_term s) ->
  existsb (fun o => match o with Defer => false | _ => true end) ops = true ->
  exists s', run (Defer :: ops ++ [Flush e]) s = Some s' /\ out s' = out s ++ [Screen] /\ redraw_pending (s_term s') = false.
Proof.
  intros Ho He Hp Hc Hex. cbn [run step mbind option_bind]. rewrite run_ops_app.
  destruct (deferred_run ops (tui_redraw_defer s) Ho) as (s1 & -> & O1 & U1 & C1 & P1); [cbn; lia |].
  cbn [mbind option_bind run step]. eexists. split; [reflexivity |].
  unfold tui_redraw_flush, tui_redraw_if_pending.
  assert (enabled s1 = true) as He1 by (unfold enabled in *; rewrite U1; exact He).
  assert (redraw_pending (s_term s1) = true) as Hp1 by (rewrite P1, Hex; apply orb_true_r).
  set (s2 := set_term _ s1). assert (enabled s2 = true) as He2 by exact He1. rewrite He2.
  change (redraw_pending (s_term s2)) with (redraw_pending (s_term s1)). rewrite Hp1. cbn [negb orb snd].
  unfold redraw_screen. rewrite He2. cbn [negb]. unfold update_term_size. destruct (size e) as [[rows cols] |]; (split; [exact (f_equal (fun l => l ++ [Screen]) O1) | done]).
Qed.

(** ** The modes of the terminal *)

(** The private modes that a text sets ([h]) and resets ([l]), in order. *)
Fixpoint mode_changes (fuel : nat) (s : bstr) : list (bool * Z) :=
  match fuel with
  | O => []
  | S fuel =>
      match s with
      | [] => []
      | c :: s' =>
          if starts_with s ESC && starts_with s' "["%char && starts_with (tail s') "?"%char then
            let '(n, any, rest) := scan_digits 0 false (tail (tail s')) in
            match rest with
            | f :: rest =>
                if any && (starts_with [f] "h"%char || starts_with [f] "l"%char) then (starts_with [f] "h"%char, n) :: mode_changes fuel rest
                else mode_changes fuel s'
            | [] => []
            end
          else mode_changes fuel s'
      end
  end.

Definition modes_of (s : bstr) : list (bool * Z) := mode_changes (length s) s.

(** The modes that are on. *)
Definition apply_modes (on : gset Z) (changes : list (bool * Z)) : gset Z :=
  foldl (fun on c => if c.1 : bool then {[c.2]} ∪ on else on ∖ {[c.2]}) on changes.

(** Cursor and margins are on, and keys, origin, mouse, focus and paste modes are off, whichever were on. *)
Theorem fini_resets_modes on :
  let after := apply_modes on (modes_of fini_text) in
  25 ∈ after /\ 7 ∈ after /\ Forall (fun m => m ∉ after) [1; 6; 1000; 1002; 1003; 1004; 1006; 2004] /\
  Forall (fun c => c.1 = true -> c.2 ∉ after) (modes_of mouse_text).
Proof.
  assert (modes_of fini_text = [(true, 25); (false, 1); (false, 1000); (false, 1002); (false, 1003); (false, 1004); (false, 1006); (false, 2004); (false, 6); (true, 7)]) as -> by (vm_compute; reflexivity).
  assert (modes_of mouse_text = [(true, 1000); (true, 1002); (true, 1006)]) as -> by (vm_compute; reflexivity).
  cbn [apply_modes foldl fst snd]. repeat constructor; set_solver by lia.
Qed.

(** ** Examples *)

Definition cooked : termios := Termios 1280 5 191 35387 (replicate 32 1) 15 15.
Definition shell : host := Host (Some cooked) true (Some 2) SigDfl.
Definition start : session :=
  Session (Ui (Tui [] 0 1 false false 24 80) no_line true (History [] (-1)) no_hotkeys [])
    (Term false false false false [] false 0 false SigDfl None false None (-1) false) shell [].
Definition xterm : env := Env false true true (Some (30, 100)) true true Started.

Lemma terminal_restored_witness :
  exists s', run [Init xterm; Print xterm; Fini; Init (Env true false false None false false NoDriver); Winch; Flush xterm] start = Some s' /\
    s_host (tui_fini s') = shell /\ shell = Host (Some cooked) true (Some 2) SigDfl.
Proof.
  destruct (terminal_restored shell [Init xterm; Print xterm; Fini; Init (Env true false false None false false NoDriver); Winch; Flush xterm] start) as (s' & Hr & Hh);
    [apply Z.leb_le; reflexivity | by repeat split | reflexivity |]. exact (ex_intro _ s' (conj Hr (conj Hh eq_refl))).
Defined.

(** A second start without an end in between: the handler that is put back is the
    interface's own, and standard input stays as the interface needed it. *)
Example init_twice :
  (fun s => (winch (s_host (tui_fini s)), stdin_flags (s_host (tui_fini s)))) <$> run [Init xterm; Init xterm] start =
    Some (Sigwinch, Some (Z.lor 2 O_NONBLOCK)).
Proof. vm_compute. reflexivity. Qed.

(** The flush of an inner deferral ends the outer one. *)
Example nested_flush :
  (fun s => length (out s)) <$> run [Init xterm; Defer; Defer; Print xterm; Flush xterm; Print xterm] start =
  S <$> ((fun s => length (out s)) <$> run [Init xterm; Defer; Defer; Print xterm; Flush xterm] start).
Proof. vm_compute. reflexivity. Qed.

(** The padding of the status line counts the bytes of its colours, which take no column. *)
Example status_columns :
  (fun line => visible_length (pad_right 80 line)) <$> tui_colorize_string true true true (Some offline) = Some 61.
Proof. vm_compute. reflexivity. Qed.

Example clock_columns :
  visible_length <$> tui_colorize_string true true true (Some (clock_tagged false (7, 5, 59))) = Some 10 /\
  visible_length <$> tui_colorize_string true true true (Some (clock_tagged true (23, 5, 59))) = Some 7.
Proof. vm_compute. split; reflexivity. Qed.
