(* ===== verification/ChatTime.v ===== *)
(** * Time stamps (util.time.c)

    The stamp of a chat line with its cache of one second, and the stamp of a log
    line.  [localtime_r], which depends on the time zone, is a parameter; what
    [strftime] does with the formats of the code is written out. *)

From S2P Require Import Prelude CString Util.

#[local] Open Scope Z_scope.

(** The fields of [struct tm] that are used. *)
Record tm := Tm { tm_year : Z; tm_mon : Z; tm_mday : Z; tm_yday : Z; tm_hour : Z; tm_min : Z; tm_sec : Z }.

(** [None]: the time cannot be expressed. *)
Class LocalTime := { localtime_r : Z -> option tm }.

Definition hms (sep : bstr) (t : tm) : bstr := two (tm_hour t) ++ sep ++ two (tm_min t) ++ sep ++ two (tm_sec t).
Definition date (sep : bstr) (t : tm) : bstr := print_dec (tm_year t + 1900) ++ sep ++ two (tm_mon t + 1) ++ sep ++ two (tm_mday t).

(** The two formats. *)
Definition colons : bstr := colour "14:" ++ colour "10".
Definition today_stamp (t : tm) : bstr := colour "14[" ++ colour "10" ++ hms colons t ++ colour "14]" ++ [chr 15; " "%char].
Definition dated_stamp (t : tm) : bstr :=
  colour "14[" ++ colour "10" ++ date (B "-") t ++ colour "14 " ++ colour "10" ++ hms colons t ++ colour "14]" ++ [chr 15; " "%char].

Definition same_day (a b : tm) : bool := (tm_year a =? tm_year b) && (tm_yday a =? tm_yday b).

(** [chat_ts] and [chat_ts_updated]. *)
Record cache := Cache { chat_ts : bstr; chat_ts_updated : Z }.

Section stamps.
Context `{LocalTime}.

(** The stamp of a time when it is [now]; [None] where [localtime_r] fails, which
    leaves the fields unset. *)
Definition stamp (ts now : Z) : option bstr :=
  tmsg ← localtime_r ts;
  tcurr ← localtime_r now;
  Some (if same_day tmsg tcurr then today_stamp tmsg else dated_stamp tmsg).

Definition get_chat_ts (c : cache) (ts now : Z) : option (bstr * cache) :=
  let live := (ts =? 0) || (now <=? ts) in
  if live && (chat_ts_updated c =? now) then Some (chat_ts c, c)
  else
    let ts := if live then now else ts in
    s ← stamp ts now;
    Some (s, Cache s (if live then now else chat_ts_updated c)).

(** What is in [buf] afterwards, if it is there at all; the text has the length of
    the stamp or there is none. *)
Definition format_timestamp (t : Z) (buflen : nat) : option bstr :=
  if (buflen =? 0)%nat then None
  else
    match localtime_r t with
    | None => Some []
    | Some tm =>
        let s := B "[" ++ date (B "/") tm ++ B " " ++ hms (B ":") tm ++ B "]" in
        Some (if (length s <? buflen)%nat then s else [])
    end.

(** ** The cache *)

(** The cache holds the stamp of the second it was made in. *)
Definition cache_ok (c : cache) : Prop := stamp (chat_ts_updated c) (chat_ts_updated c) = Some (chat_ts c).

(** A live stamp is that of the present second, from a cache that only live stamps
    have been through since it was last brought up to date. *)
Theorem live_stamp c ts now :
  cache_ok c \/ chat_ts_updated c <> now -> ts = 0 \/ now <= ts -> is_Some (localtime_r now) ->
  exists s c', get_chat_ts c ts now = Some (s, c') /\ stamp now now = Some s /\ cache_ok c' /\ chat_ts_updated c' = now.
Proof.
  intros Hc Hl [t Ht]. unfold get_chat_ts. replace ((ts =? 0) || (now <=? ts)) with true; cycle 1.
  { symmetry. apply orb_true_iff. rewrite Z.eqb_eq, Z.leb_le. done. }
  assert (exists s, stamp now now = Some s) as [s Hs] by (unfold stamp; rewrite Ht; by eexists).
  cbn [andb]. destruct (Z.eqb_spec (chat_ts_updated c) now) as [E | E].
  - destruct Hc as [Hc | ?]; [| done]. exists (chat_ts c), c. split; [done |]. unfold cache_ok in *. rewrite E in *. done.
  - rewrite Hs. cbn [mbind option_bind]. exists s, (Cache s now). done.
Qed.

(** The stamp of an earlier time is made anew, and is all that changes. *)
Theorem old_stamp c ts now :
  ts <> 0 -> ts < now -> get_chat_ts c ts now = (fun s => (s, Cache s (chat_ts_updated c))) <$> stamp ts now.
Proof.
  intros H0 Hl. unfold get_chat_ts. rewrite (proj2 (Z.eqb_neq ts 0) H0), (proj2 (Z.leb_gt now ts) Hl). cbn [orb andb].
  by destruct (stamp ts now).
Qed.

(** A text that does not fit is no text. *)
Theorem format_timestamp_bound t buflen s : format_timestamp t buflen = Some s -> (length s < buflen)%nat.
Proof.
  unfold format_timestamp. destruct (Nat.eqb_spec buflen 0); [done |]. destruct (localtime_r t); [| intros [= <-]; cbn; lia].
  case_match; intros [= <-]; [by apply Nat.ltb_lt | cbn; lia].
Qed.
End stamps.

(** ** UTC *)

(** January 1970, enough for the examples. *)
#[export] Instance utc : LocalTime := {|
  localtime_r t := if (0 <=? t) && (t <? 2678400)
    then let day := t / 86400 in let s := t mod 86400 in Some (Tm 70 0 (day + 1) day (s / 3600) (s / 60 mod 60) (s mod 60))
    else None |}.

(** The stamp of an old line takes the place of the cached one, and the next live
    line of the same second is given it. *)
Theorem stale_stamp :
  exists c1 c2 s1 s2 s3, get_chat_ts (Cache [] 0) 0 100000 = Some (s1, c1) /\ get_chat_ts c1 86400 100000 = Some (s2, c2) /\
    get_chat_ts c2 0 100000 = Some (s3, c2) /\ s3 = s2 /\ s3 <> s1 /\ stamp 100000 100000 = Some s1.
Proof.
  eexists _, _, _, _, _. split; [vm_compute; reflexivity |]. split; [vm_compute; reflexivity |]. split; [vm_compute; reflexivity |].
  split; [reflexivity |]. split; [vm_compute; discriminate | vm_compute; reflexivity].
Qed.

Theorem live_stamp_witness : exists s c', get_chat_ts (Cache [] 0) 0 100000 = Some (s, c') /\ stamp 100000 100000 = Some s /\ cache_ok c' /\ chat_ts_updated c' = 100000.
Proof.
  apply (live_stamp (Cache [] 0) 0 100000); [right; discriminate | left; reflexivity | eexists; reflexivity].
Defined.
