(* ===== verification/TermKey.v ===== *)
(** * Decoded keys, their bytes and the input buffer (termkey.c, termkey.h)

    A key, the canonical forms of it, its UTF-8 text, and the buffer the bytes of the
    terminal are queued in.  The bytes are numbers from 0 to 255; [None] at the
    outermost level is an access outside an array or beyond the bytes that are there,
    the read of a variable that has not been set, or an overflow of a signed integer. *)

From S2P Require Import Prelude.

#[local] Open Scope Z_scope.

(** ** Keys *)

Inductive key_type := UNICODE | FUNCTION | KEYSYM | MOUSE | POSITION | MODEREPORT | DCS | OSC | UNKNOWN_CSI.

#[export] Instance key_type_eq_dec : EqDecision key_type.
Proof. solve_decision. Defined.

Inductive termkey_result := NONE | KEY | EOF | AGAIN | ERROR.

#[export] Instance termkey_result_eq_dec : EqDecision termkey_result.
Proof. solve_decision. Defined.

(** [TermKeySym] *)
Definition SYM_UNKNOWN : Z := -1.
Definition SYM_NONE : Z := 0.
Definition SYM_BACKSPACE : Z := 1.
Definition SYM_TAB : Z := 2.
Definition SYM_ENTER : Z := 3.
Definition SYM_ESCAPE : Z := 4.
Definition SYM_SPACE : Z := 5.
Definition SYM_DEL : Z := 6.
Definition SYM_UP : Z := 7.
Definition SYM_DOWN : Z := 8.
Definition SYM_LEFT : Z := 9.
Definition SYM_RIGHT : Z := 10.
Definition SYM_BEGIN : Z := 11.
Definition SYM_FIND : Z := 12.
Definition SYM_INSERT : Z := 13.
Definition SYM_DELETE : Z := 14.
Definition SYM_SELECT : Z := 15.
Definition SYM_PAGEUP : Z := 16.
Definition SYM_PAGEDOWN : Z := 17.
Definition SYM_HOME : Z := 18.
Definition SYM_END : Z := 19.
Definition SYM_CANCEL : Z := 20.
Definition SYM_CLEAR : Z := 21.
Definition SYM_CLOSE : Z := 22.
Definition SYM_COMMAND : Z := 23.
Definition SYM_COPY : Z := 24.
Definition SYM_EXIT : Z := 25.
Definition SYM_HELP : Z := 26.
Definition SYM_MARK : Z := 27.
Definition SYM_MESSAGE : Z := 28.
Definition SYM_MOVE : Z := 29.
Definition SYM_OPEN : Z := 30.
Definition SYM_OPTIONS : Z := 31.
Definition SYM_PRINT : Z := 32.
Definition SYM_REDO : Z := 33.
Definition SYM_REFERENCE : Z := 34.
Definition SYM_REFRESH : Z := 35.
Definition SYM_REPLACE : Z := 36.
Definition SYM_RESTART : Z := 37.
Definition SYM_RESUME : Z := 38.
Definition SYM_SAVE : Z := 39.
Definition SYM_SUSPEND : Z := 40.
Definition SYM_UNDO : Z := 41.
Definition SYM_KP0 : Z := 42.
Definition SYM_KP1 : Z := 43.
Definition SYM_KP2 : Z := 44.
Definition SYM_KP3 : Z := 45.
Definition SYM_KP4 : Z := 46.
Definition SYM_KP5 : Z := 47.
Definition SYM_KP6 : Z := 48.
Definition SYM_KP7 : Z := 49.
Definition SYM_KP8 : Z := 50.
Definition SYM_KP9 : Z := 51.
Definition SYM_KPENTER : Z := 52.
Definition SYM_KPPLUS : Z := 53.
Definition SYM_KPMINUS : Z := 54.
Definition SYM_KPMULT : Z := 55.
Definition SYM_KPDIV : Z := 56.
Definition SYM_KPCOMMA : Z := 57.
Definition SYM_KPPERIOD : Z := 58.
Definition SYM_KPEQUALS : Z := 59.

(** The union [code]: [kcode] is its code point, number or symbol, [mouse] its four
    bytes.  No key is read through another member than it was written. *)
Record key := Key { type : key_type; kcode : Z; mouse : list Z; modifiers : Z; utf8 : list Z }.

Definition set_type (t : key_type) (k : key) : key := Key t (kcode k) (mouse k) (modifiers k) (utf8 k).
Definition set_code (c : Z) (k : key) : key := Key (type k) c (mouse k) (modifiers k) (utf8 k).
Definition set_mouse (m : list Z) (k : key) : key := Key (type k) (kcode k) m (modifiers k) (utf8 k).
Definition set_modifiers (m : Z) (k : key) : key := Key (type k) (kcode k) (mouse k) m (utf8 k).
Definition set_utf8 (u : list Z) (k : key) : key := Key (type k) (kcode k) (mouse k) (modifiers k) u.

(** [key->code.sym] is 32 bits wide. *)
Definition sym (k : key) : Z := i32 (kcode k).

Definition KEYMOD_SHIFT : Z := 1.
Definition KEYMOD_ALT : Z := 2.
Definition KEYMOD_CTRL : Z := 4.
Definition add_modifiers (m : Z) (k : key) : key := set_modifiers (Z.lor (modifiers k) m) k.

(** [struct keyinfo] *)
Record keyinfo := Keyinfo { ki_type : key_type; ki_sym : Z; modifier_mask : Z; modifier_set : Z }.

(** A [char] as a number. *)
Definition schar (b : Z) : Z := swrap 8 b.
Definition byte (z : Z) : Z := z mod 256.

(** ** UTF-8 *)

Definition utf8_seqlen (codepoint : Z) : nat :=
  if codepoint <? 0x80 then 1
  else if codepoint <? 0x800 then 2
  else if codepoint <? 0x10000 then 3
  else if codepoint <? 0x200000 then 4
  else if codepoint <? 0x4000000 then 5
  else 6.

(** The bytes after the first, from the last one on. *)
Fixpoint utf8_tail (n : nat) (codepoint : Z) (tail : list Z) : Z * list Z :=
  match n with
  | O => (codepoint, tail)
  | S n => utf8_tail n (Z.shiftr codepoint 6) (Z.lor 0x80 (Z.land codepoint 0x3f) :: tail)
  end.

Definition utf8_lead (nbytes : nat) (codepoint : Z) : Z :=
  match nbytes with
  | 1%nat => Z.land codepoint 0x7f
  | 2%nat => Z.lor 0xc0 (Z.land codepoint 0x1f)
  | 3%nat => Z.lor 0xe0 (Z.land codepoint 0x0f)
  | 4%nat => Z.lor 0xf0 (Z.land codepoint 0x07)
  | 5%nat => Z.lor 0xf8 (Z.land codepoint 0x03)
  | _ => Z.lor 0xfc (Z.land codepoint 0x01)
  end.

Definition utf8_encode (codepoint : Z) : list Z :=
  let nbytes := utf8_seqlen codepoint in
  let '(rest, tail) := utf8_tail (nbytes - 1) codepoint [] in
  utf8_lead nbytes rest :: tail.

(** What was in the array behind the NUL stays. *)
Definition fill_utf8 (k : key) : key :=
  let bytes := utf8_encode (kcode k) in
  set_utf8 (bytes ++ 0 :: drop (S (length bytes)) (utf8 k)) k.

Definition UTF8_INVALID : Z := 0xFFFD.

(** With too few bytes, what has been put together of the code point. *)
Inductive utf8_parsed := Utf8Again (cp : Z) | Utf8Char (cp : Z) (nbytes : nat).

(** Checks of a whole sequence: overlong ones, surrogates, non-characters. *)
Definition utf8_checked (nbytes : nat) (cp : Z) : Z :=
  let cp := if (utf8_seqlen cp <? nbytes)%nat then UTF8_INVALID else cp in
  if (0xD800 <=? cp) && (cp <=? 0xDFFF) || (cp =? 0xFFFE) || (cp =? 0xFFFF) then UTF8_INVALID else cp.

(** The loop, with [n] bytes to go. *)
Fixpoint utf8_more (n : nat) (bytes : list Z) (len : nat) (cp : Z) (b nbytes : nat) : option utf8_parsed :=
  match n with
  | O => Some (Utf8Char (utf8_checked nbytes cp) nbytes)
  | S n =>
      if (len <=? b)%nat then Some (Utf8Again cp)
      else
        cb ← bytes !! b;
        if (cb <? 0x80) || (0xc0 <=? cb) then Some (Utf8Char UTF8_INVALID b)
        else utf8_more n bytes len (Z.lor (Z.shiftl cp 6) (Z.land cb 0x3f)) (S b) nbytes
  end.

(** [len] is not looked at before the second byte. *)
Definition parse_utf8 (bytes : list Z) (len : nat) : option utf8_parsed :=
  b0 ← bytes !! 0%nat;
  if b0 <? 0x80 then Some (Utf8Char b0 1)
  else if b0 <? 0xc0 then Some (Utf8Char UTF8_INVALID 1)
  else if b0 <? 0xe0 then utf8_more 1 bytes len (Z.land b0 0x1f) 1 2
  else if b0 <? 0xf0 then utf8_more 2 bytes len (Z.land b0 0x0f) 1 3
  else if b0 <? 0xf8 then utf8_more 3 bytes len (Z.land b0 0x07) 1 4
  else if b0 <? 0xfc then utf8_more 4 bytes len (Z.land b0 0x03) 1 5
  else if b0 <? 0xfe then utf8_more 5 bytes len (Z.land b0 0x01) 1 6
  else Some (Utf8Char UTF8_INVALID 1).

(** ** The decoder

    [buffer] holds [buffsize] bytes, of which [buffcount] from [buffstart] on wait to be
    decoded; [hightide] of them belong to an unknown sequence that has been
    reported. *)
Record termkey := Termkey {
  fd : Z;
  flags : Z;
  canonflags : Z;
  buffer : list Z;
  buffstart : nat;
  buffcount : nat;
  hightide : nat;
  waittime : Z;
  is_closed : bool;
  is_started : bool;
  keynames : list (option bstr);
  c0 : list keyinfo }.

Definition set_buffer (b : list Z) (start count : nat) (tk : termkey) : termkey :=
  Termkey (fd tk) (flags tk) (canonflags tk) b start count (hightide tk) (waittime tk) (is_closed tk) (is_started tk) (keynames tk) (c0 tk).
Definition set_hightide (h : nat) (tk : termkey) : termkey :=
  Termkey (fd tk) (flags tk) (canonflags tk) (buffer tk) (buffstart tk) (buffcount tk) h (waittime tk) (is_closed tk) (is_started tk) (keynames tk) (c0 tk).
Definition set_closed (tk : termkey) : termkey :=
  Termkey (fd tk) (flags tk) (canonflags tk) (buffer tk) (buffstart tk) (buffcount tk) (hightide tk) (waittime tk) true (is_started tk) (keynames tk) (c0 tk).
Definition set_started (s : bool) (tk : termkey) : termkey :=
  Termkey (fd tk) (flags tk) (canonflags tk) (buffer tk) (buffstart tk) (buffcount tk) (hightide tk) (waittime tk) (is_closed tk) s (keynames tk) (c0 tk).
Definition set_keynames (n : list (option bstr)) (tk : termkey) : termkey :=
  Termkey (fd tk) (flags tk) (canonflags tk) (buffer tk) (buffstart tk) (buffcount tk) (hightide tk) (waittime tk) (is_closed tk) (is_started tk) n (c0 tk).
Definition set_c0 (c : list keyinfo) (tk : termkey) : termkey :=
  Termkey (fd tk) (flags tk) (canonflags tk) (buffer tk) (buffstart tk) (buffcount tk) (hightide tk) (waittime tk) (is_closed tk) (is_started tk) (keynames tk) c.
Definition put_flags (f c : Z) (tk : termkey) : termkey :=
  Termkey (fd tk) f c (buffer tk) (buffstart tk) (buffcount tk) (hightide tk) (waittime tk) (is_closed tk) (is_started tk) (keynames tk) (c0 tk).

Definition buffsize (tk : termkey) : nat := length (buffer tk).

(** The bytes that are waiting, and one of them. *)
Definition window (tk : termkey) : list Z := take (buffcount tk) (drop (buffstart tk) (buffer tk)).
Definition charat (tk : termkey) (i : nat) : option Z := window tk !! i.

(** Looking [n] bytes further on, and coming back. *)
Definition ahead (n : nat) (tk : termkey) : termkey := set_buffer (buffer tk) (buffstart tk + n) (buffcount tk - n) tk.
Definition behind (n : nat) (tk : termkey) : termkey := set_buffer (buffer tk) (buffstart tk - n) (buffcount tk + n) tk.

Definition FLAG_NOINTERPRET : Z := 1.
Definition FLAG_CONVERTKP : Z := 2.
Definition FLAG_RAW : Z := 4.
Definition FLAG_UTF8 : Z := 8.
Definition FLAG_NOTERMIOS : Z := 16.
Definition FLAG_SPACESYMBOL : Z := 32.
Definition FLAG_CTRLC : Z := 64.
Definition FLAG_EINTR : Z := 128.
Definition FLAG_NOSTART : Z := 256.
Definition CANON_SPACESYMBOL : Z := 1.
Definition CANON_DELBS : Z := 2.

Definition flag (f bits : Z) : bool := negb (Z.land bits f =? 0).

(** ** Key names *)

(** The names of the symbols, in their order. *)
Definition keynames_table : list bstr :=
    [B "NONE"; B "Backspace"; B "Tab"; B "Enter"; B "Escape"; B "Space"; B "DEL"; B "Up"; B "Down"; B "Left";
   B "Right"; B "Begin"; B "Find"; B "Insert"; B "Delete"; B "Select"; B "PageUp"; B "PageDown"; B "Home"; B
   "End"; B "Cancel"; B "Clear"; B "Close"; B "Command"; B "Copy"; B "Exit"; B "Help"; B "Mark"; B "Message";
   B "Move"; B "Open"; B "Options"; B "Print"; B "Redo"; B "Reference"; B "Refresh"; B "Replace"; B "Restart";
   B "Resume"; B "Save"; B "Suspend"; B "Undo"; B "KP0"; B "KP1"; B "KP2"; B "KP3"; B "KP4"; B "KP5"; B "KP6";
   B "KP7"; B "KP8"; B "KP9"; B "KPEnter"; B "KPPlus"; B "KPMinus"; B "KPMult"; B "KPDiv"; B "KPComma"; B
   "KPPeriod"; B "KPEquals"].

(** [None] inside is the failure -1; a negative symbol would be written before the
    array. *)
Definition termkey_register_keyname (tk : termkey) (sym : Z) (name : bstr) : option (Z * termkey) :=
  let n := Z.of_nat (length (keynames tk)) in
  let sym := if sym =? 0 then n else sym in
  if sym <? 0 then None
  else
    let names := if n <=? sym then keynames tk ++ replicate (Z.to_nat (sym + 1 - n)) None else keynames tk in
    Some (sym, set_keynames (<[Z.to_nat sym := Some name]> names) tk).

Definition termkey_get_keyname (tk : termkey) (sym : Z) : option (option bstr) :=
  if sym =? SYM_UNKNOWN then Some (Some (B "UNKNOWN"))
  else if sym <? Z.of_nat (length (keynames tk)) then (if sym <? 0 then None else keynames tk !! Z.to_nat sym)
  else Some (Some (B "UNKNOWN")).

(** ** Construction *)

Definition termkey_alloc : termkey :=
  Termkey (-1) 0 0 (replicate 256 0) 0 0 0 50 false false (replicate 64 None) (replicate 32 (Keyinfo UNICODE SYM_NONE 0 0)).

Definition register_c0_full (tk : termkey) (sym set mask : Z) (ctrl : nat) : option termkey :=
  if (0x20 <=? ctrl)%nat then Some tk
  else i ← c0 tk !! ctrl; Some (set_c0 (<[ctrl := Keyinfo (ki_type i) sym mask set]> (c0 tk)) tk).

Definition register_c0 (tk : termkey) (sym : Z) (ctrl : nat) : option termkey := register_c0_full tk sym 0 0 ctrl.

Fixpoint register_keynames (tk : termkey) (sym : Z) (names : list bstr) : option termkey :=
  match names with
  | [] => Some tk
  | name :: names => '(_, tk) ← termkey_register_keyname tk sym name; register_keynames tk (sym + 1) names
  end.

(** All but the drivers. *)
Definition termkey_init (tk : termkey) : option termkey :=
  tk ← register_keynames (set_keynames (replicate (length (keynames tk)) None) tk) 0 keynames_table;
  tk ← register_c0 tk SYM_TAB 0x09;
  tk ← register_c0 tk SYM_ENTER 0x0d;
  register_c0 tk SYM_ESCAPE 0x1b.

Definition termkey_set_flags (newflags : Z) (tk : termkey) : termkey :=
  put_flags newflags (if flag newflags FLAG_SPACESYMBOL then Z.lor (canonflags tk) CANON_SPACESYMBOL else Z.land (canonflags tk) (Z.lnot CANON_SPACESYMBOL)) tk.

Definition termkey_set_canonflags (f : Z) (tk : termkey) : termkey :=
  put_flags (if flag f CANON_SPACESYMBOL then Z.lor (flags tk) FLAG_SPACESYMBOL else Z.land (flags tk) (Z.lnot FLAG_SPACESYMBOL)) f tk.

(** ** The buffer *)

Definition termkey_get_buffer_remaining (tk : termkey) : nat := buffsize tk - buffcount tk.

(** [fresh] is what the grown memory holds; bytes that wait are not looked at when it
    shrinks. *)
Definition termkey_set_buffer_size (size : nat) (fresh : list Z) (tk : termkey) : termkey :=
  set_buffer (take size (buffer tk ++ fresh)) (buffstart tk) (buffcount tk) tk.

Definition termkey_set_waittime (msec : Z) (tk : termkey) : termkey :=
  Termkey (fd tk) (flags tk) (canonflags tk) (buffer tk) (buffstart tk) (buffcount tk) (hightide tk) msec (is_closed tk) (is_started tk) (keynames tk) (c0 tk).

Definition eat_bytes (n : nat) (tk : termkey) : termkey :=
  if (buffcount tk <=? n)%nat then set_buffer (buffer tk) 0 0 tk
  else set_buffer (buffer tk) (buffstart tk + n) (buffcount tk - n) tk.

(** [memmove] and [memcpy] into the buffer. *)
Definition copy_in (at_ : nat) (bytes b : list Z) : list Z := take at_ b ++ bytes ++ drop (at_ + length bytes) b.

Definition to_front (tk : termkey) : termkey :=
  if (buffstart tk =? 0)%nat then tk else set_buffer (copy_in 0 (window tk) (buffer tk)) 0 (buffcount tk) tk.

(** [None] inside is the failure -1. *)
Definition termkey_push_bytes (tk : termkey) (bytes : list Z) : option nat * termkey :=
  let tk := to_front tk in
  if (buffsize tk <=? buffcount tk)%nat then (None, tk)
  else
    let len := Nat.min (length bytes) (buffsize tk - buffcount tk) in
    (Some len, set_buffer (copy_in (buffcount tk) (take len bytes) (buffer tk)) 0 (buffcount tk + len) tk).

(** What [read] answers: an interrupted call, nothing there, another error, the end,
    or at least one byte. *)
Inductive read_result := Interrupted | NoData | Failed | Closed | Data (bytes : list Z).

(** The answers of the calls, in order; [None] inside is that they are used up.  At
    most the bytes that fit are read. *)
Fixpoint read_retry (reads : list read_result) (tk : termkey) : option (termkey_result * termkey * list read_result) :=
  match reads with
  | [] => None
  | NoData :: reads => Some (NONE, tk, reads)
  | Interrupted :: reads => if flag (flags tk) FLAG_EINTR then Some (ERROR, tk, reads) else read_retry reads tk
  | Failed :: reads => Some (ERROR, tk, reads)
  | Closed :: reads => Some (NONE, set_closed tk, reads)
  | Data bytes :: reads =>
      let bytes := take (buffsize tk - buffcount tk) bytes in
      Some (AGAIN, set_buffer (copy_in (buffcount tk) bytes (buffer tk)) 0 (buffcount tk + length bytes) tk, reads)
  end.

Definition termkey_advisereadable (tk : termkey) (reads : list read_result) : option (termkey_result * termkey * list read_result) :=
  if fd tk =? -1 then Some (ERROR, tk, reads)
  else
    let tk := to_front tk in
    if (buffsize tk <=? buffcount tk)%nat then Some (ERROR, tk, reads)
    else read_retry reads tk.

(** ** Keys from code points *)

Definition termkey_canonicalise (tk : termkey) (k : key) : key :=
  let k :=
    if flag (canonflags tk) CANON_SPACESYMBOL then
      if bool_decide (type k = UNICODE) && (kcode k =? 0x20) then set_code SYM_SPACE (set_type KEYSYM k) else k
    else if bool_decide (type k = KEYSYM) && (sym k =? SYM_SPACE) then fill_utf8 (set_code 0x20 (set_type UNICODE k))
    else k in
  if flag (canonflags tk) CANON_DELBS then
    if bool_decide (type k = KEYSYM) && (sym k =? SYM_DEL) then set_code SYM_BACKSPACE k else k
  else k.

(** A control character; a negative code point would be looked up before the array. *)
Definition c0_key (tk : termkey) (codepoint : Z) (k : key) : option key :=
  let k := set_modifiers 0 (set_code 0 k) in
  k ← (if flag (flags tk) FLAG_NOINTERPRET then Some k
       else
         i ← (if codepoint <? 0 then None else c0 tk !! Z.to_nat codepoint);
         Some (if ki_sym i =? SYM_UNKNOWN then k else add_modifiers (modifier_set i) (set_code (ki_sym i) k)));
  Some
    (if sym k =? 0 then
       set_modifiers KEYMOD_CTRL
         (set_code (if (65 <=? codepoint + 0x40) && (codepoint + 0x40 <=? 90) then codepoint + 0x60 else codepoint + 0x40) (set_type UNICODE k))
     else set_type KEYSYM k).

Definition emit_codepoint (tk : termkey) (codepoint : Z) (k : key) : option key :=
  k ← (if codepoint =? 0 then Some (set_modifiers KEYMOD_CTRL (set_code SYM_SPACE (set_type KEYSYM k)))
       else if codepoint <? 0x20 then c0_key tk codepoint k
       else if (codepoint =? 0x7f) && negb (flag (flags tk) FLAG_NOINTERPRET)
       then Some (set_modifiers 0 (set_code SYM_DEL (set_type KEYSYM k)))
       else if (0x20 <=? codepoint) && (codepoint <? 0x80)
       then Some (set_modifiers 0 (set_code codepoint (set_type UNICODE k)))
       else if (0x80 <=? codepoint) && (codepoint <? 0xa0)
       then Some (set_modifiers (Z.lor KEYMOD_CTRL KEYMOD_ALT) (set_code (codepoint - 0x40) (set_type UNICODE k)))
       else Some (set_modifiers 0 (set_code codepoint (set_type UNICODE k))));
  let k := termkey_canonicalise tk k in
  Some (if bool_decide (type k = UNICODE) then fill_utf8 k else k).

(** A mouse report of three bytes. *)
Definition peekkey_mouse (tk : termkey) (k : key) : option (termkey_result * key * nat) :=
  if (buffcount tk <? 3)%nat then Some (AGAIN, k, 0%nat)
  else
    b0 ← charat tk 0; b1 ← charat tk 1; b2 ← charat tk 2;
    let button := byte (b0 - 0x20) in
    Some (KEY, set_modifiers (Z.shiftr (Z.land button 0x1c) 2)
                 (set_mouse [Z.land button (Z.lnot 0x1c); byte (b1 - 0x20); byte (b2 - 0x20); 0] (set_type MOUSE k)), 3%nat).

(** ** UTF-8 round trip *)

Lemma lor_shift a x k : 0 <= k -> 0 <= x < 2 ^ k -> Z.lor (Z.shiftl a k) x = a * 2 ^ k + x.
Proof.
  intros Hk Hx. assert (Z.land (Z.shiftl a k) x = 0) as H0.
  { apply Z.bits_inj'. intros n Hn. rewrite Z.land_spec, Z.bits_0. destruct (decide (n < k)).
    - by rewrite Z.shiftl_spec_low.
    - rewrite (proj1 (below_pow2 x k Hk ltac:(lia)) ltac:(lia) n) by lia. apply andb_false_r. }
  rewrite <- Z.lxor_lor, <- Z.add_nocarry_lxor, Z.shiftl_mul_pow2 by done. done.
Qed.

(** The byte that carries the lowest six bits, and taking them out of it. *)
#[local] Definition cont (z : Z) : Z := 0x80 + z mod 64.

Lemma cont_lor z : Z.lor 0x80 (Z.land z 0x3f) = cont z.
Proof.
  change 0x3f with (2 ^ 6 - 1). rewrite land_pow2 by lia. change 0x80 with (Z.shiftl 2 6).
  pose proof (Z.mod_pos_bound z 64). rewrite lor_shift; [done | lia |]. change (2 ^ 6) with 64. lia.
Qed.

Lemma cont_range z : 0x80 <= cont z < 0xc0.
Proof. unfold cont. pose proof (Z.mod_pos_bound z 64). lia. Qed.

Lemma push_cont acc cb : 0x80 <= cb < 0xc0 -> Z.lor (Z.shiftl acc 6) (Z.land cb 0x3f) = acc * 64 + (cb - 0x80).
Proof.
  intros H. change 0x3f with (2 ^ 6 - 1). rewrite land_pow2 by lia. change (2 ^ 6) with 64.
  assert (cb mod 64 = cb - 128) as -> by (symmetry; apply Z.mod_unique with 2; lia).
  rewrite lor_shift; [done | lia |]. change (2 ^ 6) with 64. lia.
Qed.

#[local] Fixpoint conts (n : nat) (z : Z) : list Z := match n with O => [] | S n => conts n (z / 64) ++ [cont z] end.

Lemma shiftr6 z : Z.shiftr z 6 = z / 64.
Proof. by rewrite Z.shiftr_div_pow2. Qed.

Lemma div_step n z : 0 <= n -> z / 64 / 64 ^ n = z / 64 ^ (n + 1).
Proof. intros Hn. rewrite Z.div_div by lia. f_equal. rewrite Z.pow_add_r; lia. Qed.

Lemma utf8_tail_conts n z tail : utf8_tail n z tail = (z / 64 ^ Z.of_nat n, conts n z ++ tail).
Proof.
  revert z tail. induction n as [| n IH]; intros z tail; cbn [utf8_tail conts]; [by rewrite Z.div_1_r |].
  rewrite IH, cont_lor, shiftr6, <- app_assoc. f_equal. rewrite div_step by lia. do 2 f_equal. lia.
Qed.

Lemma conts_cons n z : conts (S n) z = cont (z / 64 ^ Z.of_nat n) :: conts n z.
Proof.
  revert z. induction n as [| n IH]; intros z; [cbn; by rewrite Z.div_1_r |].
  change (conts (S (S n)) z) with (conts (S n) (z / 64) ++ [cont z]). rewrite IH, div_step by lia.
  change (conts (S n) z) with (conts n (z / 64) ++ [cont z]). cbn [app]. do 3 f_equal. lia.
Qed.

Lemma length_conts n z : length (conts n z) = n.
Proof. revert z. induction n as [| n IH]; intros z; cbn; [done |]. rewrite length_app, IH. cbn. lia. Qed.

Lemma utf8_encode_conts cp : utf8_encode cp =
  utf8_lead (utf8_seqlen cp) (cp / 64 ^ Z.of_nat (utf8_seqlen cp - 1)) :: conts (utf8_seqlen cp - 1) cp.
Proof. unfold utf8_encode. by rewrite utf8_tail_conts, app_nil_r. Qed.

Lemma more_conts n : forall pre rest z len nb, (length pre + n <= len)%nat ->
  utf8_more n (pre ++ conts n z ++ rest) len (z / 64 ^ Z.of_nat n) (length pre) nb = Some (Utf8Char (utf8_checked nb z) nb).
Proof.
  induction n as [| n IH]; intros pre rest z len nb Hlen; cbn [utf8_more]; [by rewrite Z.div_1_r |].
  replace (len <=? length pre)%nat with false by (symmetry; apply Nat.leb_gt; lia).
  rewrite conts_cons. cbn [app]. rewrite list_lookup_middle by done. cbn [mbind option_bind].
  pose proof (cont_range (z / 64 ^ Z.of_nat n)) as Hr. rewrite push_cont by done.
  replace ((cont _ <? 128) || (192 <=? cont _)) with false by lia.
  specialize (IH (pre ++ [cont (z / 64 ^ Z.of_nat n)]) rest z len nb). rewrite length_app, <- app_assoc in IH. cbn [length app] in IH.
  rewrite Nat.add_1_r in IH. rewrite <- IH by lia. do 2 f_equal. unfold cont.
  assert (z / 64 ^ Z.of_nat (S n) = z / 64 ^ Z.of_nat n / 64) as ->.
  { rewrite Z.div_div by lia. f_equal. rewrite Nat2Z.inj_succ, Z.pow_succ_r by lia. lia. }
  pose proof (Z.div_mod (z / 64 ^ Z.of_nat n) 64). lia.
Qed.

Lemma lead_value a k x : 0 <= k -> 0 <= x < 2 ^ k -> Z.lor (Z.shiftl a k) (Z.land x (2 ^ k - 1)) = a * 2 ^ k + x.
Proof. intros Hk Hx. rewrite land_pow2, Z.mod_small by done. by apply lor_shift. Qed.

Lemma lead_bits a k x : 0 <= k -> 0 <= x < 2 ^ k -> Z.land (a * 2 ^ k + x) (2 ^ k - 1) = x.
Proof. intros Hk Hx. rewrite land_pow2, Z.add_comm, Z.mod_add by lia. by apply Z.mod_small. Qed.

(** Deciding the comparisons of the goal by arithmetic. *)
#[local] Ltac settle_ltb :=
  repeat match goal with |- context [?a <? ?b] => first [replace (a <? b) with true by lia | replace (a <? b) with false by lia] end.

(** The first byte of [n] carries [7 - n] bits and says how many follow. *)
#[local] Definition lead_base (n : nat) : Z := 256 - 2 ^ (8 - Z.of_nat n).

Lemma lead_sum n x : (2 <= n <= 6)%nat -> 0 <= x < 2 ^ (7 - Z.of_nat n) -> utf8_lead n x = lead_base n + x.
Proof.
  intros Hn Hx. unfold lead_base.
  destruct n as [| [| [| [| [| [| [| n]]]]]]]; try lia; cbn [utf8_lead];
    [apply (lead_value 6 5) | apply (lead_value 14 4) | apply (lead_value 30 3) | apply (lead_value 62 2) | apply (lead_value 126 1)]; lia.
Qed.

Lemma parse_lead n x tail len : (2 <= n <= 6)%nat -> 0 <= x < 2 ^ (7 - Z.of_nat n) ->
  parse_utf8 (lead_base n + x :: tail) len = utf8_more (n - 1) (lead_base n + x :: tail) len x 1 n.
Proof.
  intros Hn Hx. unfold parse_utf8. cbn [lookup list_lookup mbind option_bind].
  destruct n as [| [| [| [| [| [| [| n]]]]]]]; try lia; cbn [Nat.sub].
  - change (lead_base 2) with 192. rewrite (lead_bits 6 5 x ltac:(lia) Hx : Z.land (192 + x) 31 = x). by settle_ltb.
  - change (lead_base 3) with 224. rewrite (lead_bits 14 4 x ltac:(lia) Hx : Z.land (224 + x) 15 = x). by settle_ltb.
  - change (lead_base 4) with 240. rewrite (lead_bits 30 3 x ltac:(lia) Hx : Z.land (240 + x) 7 = x). by settle_ltb.
  - change (lead_base 5) with 248. rewrite (lead_bits 62 2 x ltac:(lia) Hx : Z.land (248 + x) 3 = x). by settle_ltb.
  - change (lead_base 6) with 252. rewrite (lead_bits 126 1 x ltac:(lia) Hx : Z.land (252 + x) 1 = x). by settle_ltb.
Qed.

Lemma seqlen_bounds cp : 0 <= cp < 2 ^ 31 ->
  (utf8_seqlen cp = 1%nat /\ cp < 128) \/
  (2 <= utf8_seqlen cp <= 6)%nat /\ 0 <= cp / 64 ^ Z.of_nat (utf8_seqlen cp - 1) < 2 ^ (7 - Z.of_nat (utf8_seqlen cp)).
Proof.
  intros Hcp. unfold utf8_seqlen. repeat case_match; cbn [Nat.sub]; [by left; lia | right..]; (split; [lia |]);
    (split; [apply Z.div_pos; lia |]); apply Z.div_lt_upper_bound; lia.
Qed.

(** A code point that stands for a character. *)
Definition scalar (cp : Z) : bool :=
  (0 <=? cp) && (cp <? 2 ^ 31) && negb ((0xD800 <=? cp) && (cp <=? 0xDFFF) || (cp =? 0xFFFE) || (cp =? 0xFFFF)).

Lemma scalar_checked cp : scalar cp = true -> utf8_checked (utf8_seqlen cp) cp = cp.
Proof.
  unfold scalar, utf8_checked. intros [_ H]%andb_true_iff. rewrite Nat.ltb_irrefl. apply negb_true_iff in H. by rewrite H.
Qed.

Lemma more_inv n : forall bytes len acc b nb cp m, Forall (fun x => 0 <= x < 256) bytes ->
  utf8_more n bytes len acc b nb = Some (Utf8Char cp m) -> cp <> UTF8_INVALID ->
  exists z, z / 64 ^ Z.of_nat n = acc /\ cp = utf8_checked nb z /\ m = nb /\ take n (drop b bytes) = conts n z.
Proof.
  induction n as [| n IH]; intros bytes len acc b nb cp m Hb; cbn [utf8_more].
  - intros [= <- <-] _. exists acc. by rewrite Z.div_1_r.
  - case_match; [done |]. destruct (bytes !! b) as [cb |] eqn:E; cbn [mbind option_bind]; [| done].
    case_match eqn:Er; [intros [= <-]; done |]. intros Hm Hne. rewrite push_cont in Hm by lia.
    destruct (IH _ _ _ _ _ _ _ Hb Hm Hne) as (z & Hz & -> & -> & Ht).
    exists z. split_and!; [| done | done |].
    + rewrite Nat2Z.inj_succ, <- Z.add_1_r, Z.pow_add_r, <- Z.div_div, Hz by lia. change (64 ^ 1) with 64.
      rewrite Z.add_comm, Z.div_add by lia. rewrite Z.div_small; lia.
    + rewrite conts_cons, (drop_S _ _ _ E). cbn [take firstn]. rewrite <- Ht. f_equal. unfold cont. rewrite Hz.
      rewrite (Z.add_comm (acc * 64)), Z.mod_add, Z.mod_small by lia. lia.
Qed.

Lemma div64_split z n : z = z / 64 ^ Z.of_nat n * 64 ^ Z.of_nat n + z mod 64 ^ Z.of_nat n /\ 0 <= z mod 64 ^ Z.of_nat n < 64 ^ Z.of_nat n.
Proof. pose proof (Z.div_mod z (64 ^ Z.of_nat n)). pose proof (Z.mod_pos_bound z (64 ^ Z.of_nat n)). lia. Qed.

(** A sequence of [n] bytes has no code point that needs more. *)
Lemma seqlen_of_lead n z : (2 <= n <= 6)%nat -> 0 <= z / 64 ^ Z.of_nat (n - 1) < 2 ^ (7 - Z.of_nat n) -> (utf8_seqlen z <= n)%nat /\ 0 <= z < 2 ^ 31.
Proof.
  intros Hn Hx. destruct (div64_split z (n - 1)) as [Hz Hr]. revert Hx Hz Hr. generalize (z / 64 ^ Z.of_nat (n - 1)) (z mod 64 ^ Z.of_nat (n - 1)).
  intros x r Hx -> Hr. unfold utf8_seqlen.
  destruct n as [| [| [| [| [| [| [| n]]]]]]]; try lia; cbn [Nat.sub] in *;
    change (Z.of_nat 1) with 1 in *; change (Z.of_nat 2) with 2 in *; change (Z.of_nat 3) with 3 in *; change (Z.of_nat 4) with 4 in *;
    change (Z.of_nat 5) with 5 in *; change (Z.of_nat 6) with 6 in *; (split; [repeat case_match; lia | lia]).
Qed.

(** The whole sequence is read back, whatever follows it. *)
Lemma parse_encode cp rest len : scalar cp = true -> (length (utf8_encode cp) <= len)%nat ->
  parse_utf8 (utf8_encode cp ++ rest) len = Some (Utf8Char cp (length (utf8_encode cp))).
Proof.
  intros Hs. assert (0 <= cp < 2 ^ 31) as Hcp by (unfold scalar in Hs; lia). rewrite utf8_encode_conts. cbn [length]. rewrite length_conts. intros Hlen.
  destruct (seqlen_bounds cp Hcp) as [[E Hlt] | [Hn Hx]].
  - rewrite E. cbn [Nat.sub utf8_lead conts app]. rewrite Z.div_1_r. change 0x7f with (2 ^ 7 - 1). rewrite land_pow2, Z.mod_small by lia.
    unfold parse_utf8. cbn. by settle_ltb.
  - rewrite lead_sum by done. cbn [app]. rewrite parse_lead by done.
    pose proof (more_conts (utf8_seqlen cp - 1) [lead_base (utf8_seqlen cp) + cp / 64 ^ Z.of_nat (utf8_seqlen cp - 1)] rest cp len (utf8_seqlen cp)) as Hm.
    rewrite (scalar_checked cp Hs) in Hm. replace (S (utf8_seqlen cp - 1)) with (utf8_seqlen cp) by lia. apply Hm. done.
Qed.

Lemma encode_first cp : scalar cp = true -> exists b tail, utf8_encode cp = b :: tail.
Proof. intros _. rewrite utf8_encode_conts. by eexists _, _. Qed.

Lemma more_again n : forall pre z acc len nb, (length pre <= len < length pre + n)%nat ->
  exists part, utf8_more n (take len (pre ++ conts n z)) len acc (length pre) nb = Some (Utf8Again part).
Proof.
  induction n as [| n IH]; intros pre z acc len nb Hlen; [lia |]. cbn [utf8_more].
  destruct (Nat.leb_spec len (length pre)); [by eexists |].
  rewrite lookup_take_lt by lia. rewrite conts_cons, list_lookup_middle by done. cbn [mbind option_bind].
  pose proof (cont_range (z / 64 ^ Z.of_nat n)) as Hr. replace ((cont _ <? 128) || (192 <=? cont _)) with false by lia.
  specialize (IH (pre ++ [cont (z / 64 ^ Z.of_nat n)]) z (Z.lor (Z.shiftl acc 6) (Z.land (cont (z / 64 ^ Z.of_nat n)) 63)) len nb).
  rewrite length_app, <- app_assoc in IH. cbn [length app] in IH. rewrite Nat.add_1_r in IH. apply IH. lia.
Qed.

(** Part of a sequence waits for the rest. *)
Lemma parse_part cp len : scalar cp = true -> (1 <= len < length (utf8_encode cp))%nat ->
  exists part, parse_utf8 (take len (utf8_encode cp)) len = Some (Utf8Again part).
Proof.
  intros Hs. assert (0 <= cp < 2 ^ 31) as Hcp by (unfold scalar in Hs; lia). rewrite utf8_encode_conts. cbn [length]. rewrite length_conts. intros Hlen.
  destruct (seqlen_bounds cp Hcp) as [[E _] | [Hn Hx]]; [rewrite E in Hlen; cbn in Hlen; lia |]. rewrite lead_sum by done.
  destruct len as [| len]; [lia |]. cbn [take firstn]. rewrite parse_lead by done.
  apply (more_again (utf8_seqlen cp - 1) [lead_base (utf8_seqlen cp) + cp / 64 ^ Z.of_nat (utf8_seqlen cp - 1)] cp _ (S len)). cbn [length]. lia.
Qed.

(** What is read as a character is that character's sequence. *)
Lemma encode_parse bytes len cp n : Forall (fun x => 0 <= x < 256) bytes ->
  parse_utf8 bytes len = Some (Utf8Char cp n) -> cp <> UTF8_INVALID -> scalar cp = true /\ take n bytes = utf8_encode cp.
Proof.
  intros Hb Hp Hne. destruct bytes as [| b0 tail]; [done |].
  assert (forall k x, (2 <= k <= 6)%nat -> 0 <= x < 2 ^ (7 - Z.of_nat k) -> b0 = lead_base k + x -> scalar cp = true /\ take n (b0 :: tail) = utf8_encode cp) as Hlong.
  { intros k x Hk Hx ->. rewrite parse_lead in Hp by done. destruct (more_inv _ _ _ _ _ _ _ _ Hb Hp Hne) as (z & Hz & -> & -> & Ht).
    rewrite <- Hz in Hx. destruct (seqlen_of_lead k z Hk Hx) as [Hle Hr]. revert Hne. unfold utf8_checked.
    destruct (Nat.ltb_spec (utf8_seqlen z) k); [done |]. assert (utf8_seqlen z = k) as E by lia. case_match eqn:Es; [done |]. intros _.
    split; [unfold scalar; rewrite Es; lia |]. rewrite utf8_encode_conts, E, lead_sum by done. rewrite Hz.
    destruct k as [| k]; [lia |]. cbn [take firstn].
    rewrite Nat.sub_1_r in *. cbn [Nat.pred drop skipn] in *. f_equal. exact Ht. }
  pose proof (Forall_inv Hb) as Hb0. cbn in Hb0.
  destruct (decide (b0 < 0x80)); [| destruct (decide (b0 < 0xc0)); [| destruct (decide (b0 < 0xe0)); [| destruct (decide (b0 < 0xf0)); [|
    destruct (decide (b0 < 0xf8)); [| destruct (decide (b0 < 0xfc)); [| destruct (decide (b0 < 0xfe))]]]]]].
  - revert Hp. unfold parse_utf8. cbn [lookup list_lookup mbind option_bind]. settle_ltb. intros [= <- <-].
    split; [unfold scalar; lia |]. rewrite utf8_encode_conts. unfold utf8_seqlen. settle_ltb. cbn. rewrite Z.div_1_r.
    change 127 with (2 ^ 7 - 1). rewrite land_pow2, Z.mod_small by lia. by rewrite take_0.
  - revert Hp. unfold parse_utf8. cbn [lookup list_lookup mbind option_bind]. settle_ltb. intros [= <- <-]. done.
  - apply (Hlong 2%nat (b0 - 192)); [lia | cbn; lia | unfold lead_base; cbn; lia].
  - apply (Hlong 3%nat (b0 - 224)); [lia | cbn; lia | unfold lead_base; cbn; lia].
  - apply (Hlong 4%nat (b0 - 240)); [lia | cbn; lia | unfold lead_base; cbn; lia].
  - apply (Hlong 5%nat (b0 - 248)); [lia | cbn; lia | unfold lead_base; cbn; lia].
  - apply (Hlong 6%nat (b0 - 252)); [lia | cbn; lia | unfold lead_base; cbn; lia].
  - revert Hp. unfold parse_utf8. cbn [lookup list_lookup mbind option_bind]. settle_ltb. intros [= <- <-]. done.
Qed.

(** C25: encoding a code point and decoding it gives it back, whatever follows; a part of
    the sequence asks for more bytes; and what is decoded to a character other than the
    replacement is the one sequence of that character, so overlong forms, surrogates and
    broken sequences never become characters. *)
Theorem utf8_roundtrip cp bytes rest len n :
  (scalar cp = true -> (length (utf8_encode cp) <= len)%nat ->
     parse_utf8 (utf8_encode cp ++ rest) len = Some (Utf8Char cp (length (utf8_encode cp)))) /\
  (scalar cp = true -> (1 <= len < length (utf8_encode cp))%nat ->
     exists part, parse_utf8 (take len (utf8_encode cp)) len = Some (Utf8Again part)) /\
  (Forall (fun x => 0 <= x < 256) bytes -> parse_utf8 bytes len = Some (Utf8Char cp n) -> cp <> UTF8_INVALID ->
     scalar cp = true /\ take n bytes = utf8_encode cp).
Proof. split_and!; [apply parse_encode | apply parse_part | apply encode_parse]. Qed.

(** The Euro sign, part of it, and an overlong NUL. *)
Lemma utf8_roundtrip_witness :
  (parse_utf8 [0xe2; 0x82; 0xac; 65] 4 = Some (Utf8Char 0x20ac 3) /\ exists part, parse_utf8 [0xe2; 0x82] 2 = Some (Utf8Again part)) /\
  utf8_encode 0x20ac = [0xe2; 0x82; 0xac] /\ parse_utf8 [0xc0; 0x80] 2 = Some (Utf8Char UTF8_INVALID 2).
Proof.
  destruct (utf8_roundtrip 0x20ac [] [65] 4 0) as (H1 & _ & _). destruct (utf8_roundtrip 0x20ac [] [] 2 0) as (_ & H2 & _).
  split; [split; [apply H1; [reflexivity | apply Nat.leb_le; reflexivity] | apply H2; [reflexivity |]] | split; reflexivity].
  split; apply Nat.leb_le; reflexivity.
Defined.

(** ** The window of waiting bytes *)

Record buffer_ok (tk : termkey) : Prop := {
  in_buffer : (buffstart tk + buffcount tk <= buffsize tk)%nat;
  all_bytes : Forall (fun x => 0 <= x < 256) (buffer tk) }.

Lemma length_window tk : buffer_ok tk -> length (window tk) = buffcount tk.
Proof. intros [H _]. unfold window, buffsize in *. rewrite length_take, length_drop. lia. Qed.

Lemma window_bytes tk : buffer_ok tk -> Forall (fun x => 0 <= x < 256) (window tk).
Proof. intros [_ H]. unfold window. by apply Forall_take, Forall_drop. Qed.

Lemma window_ahead n tk : window (ahead n tk) = drop n (window tk).
Proof. unfold window, ahead. cbn. by rewrite skipn_firstn_comm, drop_drop. Qed.

Lemma ahead_ok n tk : (n <= buffcount tk)%nat -> buffer_ok tk -> buffer_ok (ahead n tk).
Proof. intros Hn [H1 H2]. constructor; [unfold ahead, buffsize in *; cbn; lia | done]. Qed.

Lemma window_eat n tk : buffer_ok tk -> window (eat_bytes n tk) = drop n (window tk).
Proof.
  intros Hok. unfold eat_bytes. destruct (Nat.leb_spec (buffcount tk) n).
  - rewrite drop_ge by (by rewrite length_window). done.
  - apply (window_ahead n tk).
Qed.

Lemma eat_ok n tk : buffer_ok tk -> buffer_ok (eat_bytes n tk).
Proof.
  intros Hok. unfold eat_bytes. case_match eqn:E; [destruct Hok; constructor; [unfold buffsize; cbn; lia | done] |].
  apply (ahead_ok n tk); [| done]. apply Nat.leb_gt in E. lia.
Qed.

Lemma length_copy_in at_ bytes b : (at_ + length bytes <= length b)%nat -> length (copy_in at_ bytes b) = length b.
Proof. intros H. unfold copy_in. rewrite !length_app, length_take, length_drop. lia. Qed.

Lemma copy_in_bytes at_ bytes b : Forall (fun x => 0 <= x < 256) bytes -> Forall (fun x => 0 <= x < 256) b -> Forall (fun x => 0 <= x < 256) (copy_in at_ bytes b).
Proof. intros H1 H2. unfold copy_in. rewrite !Forall_app. split_and!; [by apply Forall_take | done | by apply Forall_drop]. Qed.

Lemma window_front tk : buffer_ok tk -> window (to_front tk) = window tk /\ buffer_ok (to_front tk) /\ buffstart (to_front tk) = 0%nat.
Proof.
  intros Hok. unfold to_front. destruct (Nat.eqb_spec (buffstart tk) 0); [by split_and! |].
  pose proof (length_window tk Hok) as Hl. pose proof (window_bytes tk Hok) as Hb. destruct Hok as [H1 H2]. split_and!; [| constructor | done].
  - change (take (buffcount tk) (window tk ++ drop (0 + length (window tk)) (buffer tk)) = window tk). by apply take_app_length'.
  - unfold buffsize in *. cbn. rewrite length_copy_in; lia.
  - by apply copy_in_bytes.
Qed.

Lemma window_append tk bytes : buffer_ok tk -> buffstart tk = 0%nat -> (buffcount tk + length bytes <= buffsize tk)%nat ->
  Forall (fun x => 0 <= x < 256) bytes ->
  let tk' := set_buffer (copy_in (buffcount tk) bytes (buffer tk)) 0 (buffcount tk + length bytes) tk in
  window tk' = window tk ++ bytes /\ buffer_ok tk'.
Proof.
  intros Hok H0 Hl Hb tk'. unfold buffsize in Hl. split; [| constructor].
  - unfold window, tk'. cbn [buffcount buffstart buffer set_buffer]. rewrite H0, !drop_0. unfold copy_in.
    rewrite app_assoc, take_app_length'; [done |]. rewrite length_app, length_take. lia.
  - unfold buffsize, tk'. cbn. rewrite length_copy_in; lia.
  - apply copy_in_bytes; [done | apply Hok].
Qed.
