(* ===== verification/TermCsi.v ===== *)
(** * Control sequences (tui.driver-csi.c)

    The driver for sequences that start with CSI, SS3, DCS and OSC: its tables, the
    parser of the parameters, a handler per final byte, and what the sequences mean.
    [None] at the outermost level as in TermKey. *)

From S2P Require Import Prelude CString TermKey.

#[local] Open Scope Z_scope.

(** ** Tables

    The entries for the bytes 0x40 to 0x7f, the numbered function keys, and the handlers
    by their final bytes. *)

Inductive csi_handler := Handle_csi_ss3_full | Handle_csifunc | Handle_csi_u | Handle_csi_m | Handle_csi_R | Handle_csi_y.

Record tables := Tables {
  ss3s : list keyinfo;
  ss3_kpalts : list Z;
  csi_ss3s : list keyinfo;
  csifuncs : list keyinfo;
  csi_handlers : list (option csi_handler) }.

Definition NCSIFUNCS : nat := 35.

Definition no_key : keyinfo := Keyinfo UNICODE SYM_UNKNOWN 0 0.

Definition no_tables : tables :=
  Tables (replicate 64 no_key) (replicate 64 0) (replicate 64 no_key) (replicate NCSIFUNCS no_key) (replicate 64 None).

Definition slot (c : ascii) : nat := Z.to_nat (code c - 0x40).

Definition set_handler (c : ascii) (h : csi_handler) (t : tables) : tables :=
  Tables (ss3s t) (ss3_kpalts t) (csi_ss3s t) (csifuncs t) (<[slot c := Some h]> (csi_handlers t)).

Definition register_csi_ss3_full (ty : key_type) (sym set mask : Z) (cmd : ascii) (t : tables) : tables :=
  if (code cmd <? 0x40) || (0x80 <=? code cmd) then t
  else
    set_handler cmd Handle_csi_ss3_full
      (Tables (ss3s t) (ss3_kpalts t) (<[slot cmd := Keyinfo ty sym mask set]> (csi_ss3s t)) (csifuncs t) (csi_handlers t)).

Definition register_csi_ss3 (ty : key_type) (sym : Z) (cmd : ascii) : tables -> tables := register_csi_ss3_full ty sym 0 0 cmd.

Definition register_ss3kpalt (ty : key_type) (sym : Z) (cmd : ascii) (kpalt : Z) (t : tables) : tables :=
  if (code cmd <? 0x40) || (0x80 <=? code cmd) then t
  else
    Tables (<[slot cmd := Keyinfo ty sym 0 0]> (ss3s t)) (<[slot cmd := kpalt]> (ss3_kpalts t)) (csi_ss3s t) (csifuncs t) (csi_handlers t).

Definition register_csifunc (ty : key_type) (sym : Z) (number : nat) (t : tables) : tables :=
  if (NCSIFUNCS <=? number)%nat then t
  else set_handler "~" Handle_csifunc (Tables (ss3s t) (ss3_kpalts t) (csi_ss3s t) (<[number := Keyinfo ty sym 0 0]> (csifuncs t)) (csi_handlers t)).

Definition register_keys : tables :=
  foldl (fun t register => register t) no_tables
    [register_csi_ss3 KEYSYM SYM_UP "A"; register_csi_ss3 KEYSYM SYM_DOWN "B"; register_csi_ss3 KEYSYM SYM_RIGHT "C";
     register_csi_ss3 KEYSYM SYM_LEFT "D"; register_csi_ss3 KEYSYM SYM_BEGIN "E"; register_csi_ss3 KEYSYM SYM_END "F";
     register_csi_ss3 KEYSYM SYM_HOME "H"; register_csi_ss3 FUNCTION 1 "P"; register_csi_ss3 FUNCTION 2 "Q";
     register_csi_ss3 FUNCTION 3 "R"; register_csi_ss3 FUNCTION 4 "S";
     register_csi_ss3_full KEYSYM SYM_TAB KEYMOD_SHIFT KEYMOD_SHIFT "Z";
     register_ss3kpalt KEYSYM SYM_KPENTER "M" 0; register_ss3kpalt KEYSYM SYM_KPEQUALS "X" (code "=");
     register_ss3kpalt KEYSYM SYM_KPMULT "j" (code "*"); register_ss3kpalt KEYSYM SYM_KPPLUS "k" (code "+");
     register_ss3kpalt KEYSYM SYM_KPCOMMA "l" (code ","); register_ss3kpalt KEYSYM SYM_KPMINUS "m" (code "-");
     register_ss3kpalt KEYSYM SYM_KPPERIOD "n" (code "."); register_ss3kpalt KEYSYM SYM_KPDIV "o" (code "/");
     register_ss3kpalt KEYSYM SYM_KP0 "p" (code "0"); register_ss3kpalt KEYSYM SYM_KP1 "q" (code "1");
     register_ss3kpalt KEYSYM SYM_KP2 "r" (code "2"); register_ss3kpalt KEYSYM SYM_KP3 "s" (code "3");
     register_ss3kpalt KEYSYM SYM_KP4 "t" (code "4"); register_ss3kpalt KEYSYM SYM_KP5 "u" (code "5");
     register_ss3kpalt KEYSYM SYM_KP6 "v" (code "6"); register_ss3kpalt KEYSYM SYM_KP7 "w" (code "7");
     register_ss3kpalt KEYSYM SYM_KP8 "x" (code "8"); register_ss3kpalt KEYSYM SYM_KP9 "y" (code "9");
     register_csifunc KEYSYM SYM_FIND 1; register_csifunc KEYSYM SYM_INSERT 2; register_csifunc KEYSYM SYM_DELETE 3;
     register_csifunc KEYSYM SYM_SELECT 4; register_csifunc KEYSYM SYM_PAGEUP 5; register_csifunc KEYSYM SYM_PAGEDOWN 6;
     register_csifunc KEYSYM SYM_HOME 7; register_csifunc KEYSYM SYM_END 8;
     register_csifunc FUNCTION 1 11; register_csifunc FUNCTION 2 12; register_csifunc FUNCTION 3 13;
     register_csifunc FUNCTION 4 14; register_csifunc FUNCTION 5 15; register_csifunc FUNCTION 6 17;
     register_csifunc FUNCTION 7 18; register_csifunc FUNCTION 8 19; register_csifunc FUNCTION 9 20;
     register_csifunc FUNCTION 10 21; register_csifunc FUNCTION 11 23; register_csifunc FUNCTION 12 24;
     register_csifunc FUNCTION 13 25; register_csifunc FUNCTION 14 26; register_csifunc FUNCTION 15 28;
     register_csifunc FUNCTION 16 29; register_csifunc FUNCTION 17 31; register_csifunc FUNCTION 18 32;
     register_csifunc FUNCTION 19 33; register_csifunc FUNCTION 20 34;
     set_handler "u" Handle_csi_u; set_handler "M" Handle_csi_m; set_handler "m" Handle_csi_m;
     set_handler "R" Handle_csi_R; set_handler "y" Handle_csi_y].

(** ** Parameters

    The caller's array: an element that has not been set has no value. *)
Abbreviation params := (list (option Z)).

Definition arg (args : params) (i : nat) : option Z := mjoin (args !! i).

Definition set_arg (args : params) (i : nat) (v : Z) : option params :=
  if (i <? length args)%nat then Some (<[i := Some v]> args) else None.

(** The index of the final byte, [n] bytes being left. *)
Fixpoint find_final (n : nat) (tk : termkey) (i : nat) : option (option nat) :=
  match n with
  | O => Some None
  | S n => c ← charat tk i; if (0x40 <=? c) && (c <? 0x80) then Some (Some i) else find_final n tk (S i)
  end.

(** What is left after the loop: the array, [argi], [present], the command. *)
Record scan := Scan { sc_args : params; argi : nat; present : bool; command : Z }.

Definition scan_digit (c : Z) (s : scan) : option scan :=
  v ← (if present s then
         v ← arg (sc_args s) (argi s);
         if (LONG_MIN <=? v * 10) && (v * 10 + c <=? LONG_MAX) then Some (v * 10 + c - 48) else None
       else Some (c - 48));
  args ← set_arg (sc_args s) (argi s) v;
  Some (Scan args (argi s) true (command s)).

Definition scan_separator (s : scan) : option scan :=
  args ← (if present s then Some (sc_args s) else set_arg (sc_args s) (argi s) (-1));
  Some (Scan args (S (argi s)) false (command s)).

(** The loop from [p] on, [n] bytes before the final one. *)
Fixpoint scan_args (n : nat) (tk : termkey) (p : nat) (s : scan) : option scan :=
  match n with
  | O => Some s
  | S n =>
      c ← charat tk p;
      if (48 <=? c) && (c <=? 57) then s ← scan_digit c s; scan_args n tk (S p) s
      else if c =? 59 then s ← scan_separator s; if (16 <? argi s)%nat then Some s else scan_args n tk (S p) s
      else if (0x20 <=? c) && (c <=? 0x2f) then Some (Scan (sc_args s) (argi s) (present s) (Z.lor (command s) (Z.shiftl c 16)))
      else scan_args n tk (S p) s
  end.

Record parsed := Parsed { csi_len : nat; csi_args : params; nargs : nat; csi_command : Z }.

(** [None] inside: more bytes are needed. *)
Definition parse_csi (tk : termkey) (introlen : nat) (args : params) : option (option parsed) :=
  final ← find_final (buffcount tk - introlen) tk introlen;
  match final with
  | None => Some None
  | Some csi_end =>
      cmd ← charat tk csi_end;
      first ← charat tk introlen;
      let initial := (60 <=? first) && (first <=? 63) in
      let commandp := if initial then Z.lor cmd (Z.shiftl first 8) else cmd in
      let p := if initial then S introlen else introlen in
      s ← scan_args (csi_end - p) tk p (Scan args 0 false commandp);
      Some (Some (Parsed (S csi_end) (sc_args s) (if present s then S (argi s) else argi s) (command s)))
  end.

(** ** Handlers *)

Abbreviation handled := (option (termkey_result * key)).

Definition modifiers_arg (args : params) (n : nat) : option Z :=
  if (1 <? n)%nat then m ← arg args 1; Some (if m =? -1 then 0 else i32 (m - 1)) else Some 0.

(** An entry's effect on type, symbol and modifiers. *)
Definition apply_info (i : keyinfo) (k : key) : key :=
  set_modifiers (Z.lor (Z.land (modifiers k) (Z.lnot (modifier_mask i))) (modifier_set i)) (set_code (ki_sym i) (set_type (ki_type i) k)).

(** Reading a table at [cmd - 0x40]. *)
Definition entry (table : list keyinfo) (cmd : Z) : option keyinfo :=
  if cmd <? 0x40 then None else table !! Z.to_nat (cmd - 0x40).

(** The whole command is the index, initial and intermediate bytes included. *)
Definition handle_csi_ss3_full (k : key) (cmd : Z) (args : params) (n : nat) : handled :=
  m ← modifiers_arg args n;
  i ← entry (csi_ss3s register_keys) cmd;
  let k := apply_info i (set_modifiers m k) in
  Some (if sym k =? SYM_UNKNOWN then NONE else KEY, k).

Definition handle_csifunc (tk : termkey) (k : key) (args : params) (n : nat) : handled :=
  m ← modifiers_arg args n;
  let k := set_type KEYSYM (set_modifiers m k) in
  number ← arg args 0;
  k ← (if number =? 27 then
         cp ← arg args 2;
         k ← emit_codepoint tk cp k;
         Some (add_modifiers m k)
       else if (0 <=? number) && (number <? Z.of_nat NCSIFUNCS) then
         i ← csifuncs register_keys !! Z.to_nat number; Some (apply_info i k)
       else Some (set_code SYM_UNKNOWN k));
  Some (if sym k =? SYM_UNKNOWN then NONE else KEY, k).

Definition handle_csi_u (tk : termkey) (k : key) (cmd : Z) (args : params) (n : nat) : handled :=
  if cmd =? code "u" then
    m ← modifiers_arg args n;
    cp ← arg args 0;
    k ← emit_codepoint tk cp (set_type KEYSYM (set_modifiers m k));
    Some (KEY, add_modifiers m k)
  else Some (NONE, k).

(** The arguments are of type [int]; "line" and "col" as the function names them. *)
Definition termkey_key_set_linecol (k : key) (line col : Z) : key :=
  let line := if 0xfff <? line then 0xfff else line in
  let col := if 0x7ff <? col then 0x7ff else col in
  set_mouse [default 0 (mouse k !! 0%nat); Z.land line 0x0ff; Z.land col 0x0ff;
             Z.lor (Z.shiftr (Z.land line 0xf00) 8) (Z.shiftr (Z.land col 0x300) 4)] k.

(** Line and column, in this order. *)
Definition termkey_key_get_linecol (k : key) : option (Z * Z) :=
  m1 ← mouse k !! 1%nat; m2 ← mouse k !! 2%nat; m3 ← mouse k !! 3%nat;
  Some (Z.lor m2 (Z.shiftl (Z.land m3 0x70) 4), Z.lor m1 (Z.shiftl (Z.land m3 0x0f) 8)).

Definition mouse_report (k : key) (args : params) : option key :=
  a0 ← arg args 0; a1 ← arg args 1; a2 ← arg args 2;
  let button := byte a0 in
  Some (termkey_key_set_linecol
          (set_modifiers (Z.shiftr (Z.land button 0x1c) 2)
             (set_mouse (<[0%nat := Z.land button (Z.lnot 0x1c)]> (mouse k)) (set_type MOUSE k))) (i32 a1) (i32 a2)).

Definition handle_csi_m (k : key) (cmd : Z) (args : params) (n : nat) : handled :=
  let initial := Z.shiftr cmd 8 in
  let cmd := Z.land cmd 0xff in
  if negb ((cmd =? code "M") || (cmd =? code "m")) then Some (NONE, k)
  else if (initial =? 0) && (3 <=? n)%nat then k ← mouse_report k args; Some (KEY, k)
  else if (initial =? code "<") && (3 <=? n)%nat then
    k ← mouse_report k args;
    if cmd =? code "m" then m3 ← mouse k !! 3%nat; Some (KEY, set_mouse (<[3%nat := Z.lor m3 0x80]> (mouse k)) k)
    else Some (KEY, k)
  else Some (NONE, k).

Definition handle_csi_R (k : key) (cmd : Z) (args : params) (n : nat) : handled :=
  if cmd =? Z.lor (code "R") (Z.shiftl (code "?") 8) then
    if (n <? 2)%nat then Some (NONE, k)
    else a0 ← arg args 0; a1 ← arg args 1; Some (KEY, termkey_key_set_linecol (set_type POSITION k) (i32 a1) (i32 a0))
  else handle_csi_ss3_full k cmd args n.

Definition handle_csi_y (k : key) (cmd : Z) (args : params) (n : nat) : handled :=
  let report := Z.lor (code "y") (Z.shiftl (code "$") 16) in
  if (cmd =? report) || (cmd =? Z.lor report (Z.shiftl (code "?") 8)) then
    if (n <? 2)%nat then Some (NONE, k)
    else
      a0 ← arg args 0; a1 ← arg args 1;
      Some (KEY, set_mouse [byte (Z.shiftr cmd 8); byte (Z.shiftr a0 8); byte (Z.land a0 0xff); byte a1] (set_type MODEREPORT k))
  else Some (NONE, k).

Definition run_handler (h : csi_handler) (tk : termkey) (k : key) (cmd : Z) (args : params) (n : nat) : handled :=
  match h with
  | Handle_csi_ss3_full => handle_csi_ss3_full k cmd args n
  | Handle_csifunc => handle_csifunc tk k args n
  | Handle_csi_u => handle_csi_u tk k cmd args n
  | Handle_csi_m => handle_csi_m k cmd args n
  | Handle_csi_R => handle_csi_R k cmd args n
  | Handle_csi_y => handle_csi_y k cmd args n
  end.

(** ** What keys say *)

Inductive mouse_event := MOUSE_UNKNOWN | MOUSE_PRESS | MOUSE_DRAG | MOUSE_RELEASE.

(** Event, button, line and column. *)
Definition termkey_interpret_mouse (k : key) : option (termkey_result * option (mouse_event * Z * Z * Z)) :=
  if negb (bool_decide (type k = MOUSE)) then Some (NONE, None)
  else
    '(line, col) ← termkey_key_get_linecol k;
    m0 ← mouse k !! 0%nat; m3 ← mouse k !! 3%nat;
    let code := schar m0 in
    let drag := negb (Z.land code 0x20 =? 0) in
    let code := Z.land code (Z.lnot 0x3c) in
    let '(event, btn) :=
      if (code =? 0) || (code =? 1) || (code =? 2) then (if drag then MOUSE_DRAG else MOUSE_PRESS, code + 1)
      else if code =? 3 then (MOUSE_RELEASE, 0)
      else if (code =? 64) || (code =? 65) then (if drag then MOUSE_DRAG else MOUSE_PRESS, code + 4 - 64)
      else (MOUSE_UNKNOWN, 0) in
    Some (KEY, Some (if negb (Z.land m3 0x80 =? 0) then MOUSE_RELEASE else event, btn, line, col)).

Definition termkey_interpret_position (k : key) : option (termkey_result * option (Z * Z)) :=
  if negb (bool_decide (type k = POSITION)) then Some (NONE, None)
  else linecol ← termkey_key_get_linecol k; Some (KEY, Some linecol).

(** Initial byte, mode and value, from bytes that have a sign. *)
Definition termkey_interpret_modereport (k : key) : option (termkey_result * option (Z * Z * Z)) :=
  if negb (bool_decide (type k = MODEREPORT)) then Some (NONE, None)
  else
    m0 ← mouse k !! 0%nat; m1 ← mouse k !! 1%nat; m2 ← mouse k !! 2%nat; m3 ← mouse k !! 3%nat;
    Some (KEY, Some (schar m0, Z.lor (Z.shiftl (schar m1) 8) (schar m2), schar m3)).

(** The caller's array; how long it is is not asked. *)
Definition termkey_interpret_csi (tk : termkey) (k : key) (args : params) : option (termkey_result * option parsed) :=
  if (hightide tk =? 0)%nat then Some (NONE, None)
  else if negb (bool_decide (type k = UNKNOWN_CSI)) then Some (NONE, None)
  else p ← parse_csi tk 0 args; Some (match p with Some p => (KEY, Some p) | None => (AGAIN, None) end).

(** ** The driver *)

Record csi := Csi { saved_string_id : Z; saved_string : option (list Z) }.

Definition new_csi : csi := Csi 0 None.

Abbreviation peeked := (option (termkey_result * termkey * csi * key * nat)).

Definition no_args : params := replicate 16 None.

(** [emit_codepoint] of an introducer's second byte, with Alt. *)
Definition emit_alt (tk : termkey) (c : ascii) (k : key) : option key :=
  k ← emit_codepoint tk (code c) k; Some (add_modifiers KEYMOD_ALT k).

Definition peekkey_csi (tk : termkey) (d : csi) (introlen : nat) (k : key) (force : bool) (nbytes : nat) : peeked :=
  p ← parse_csi tk introlen no_args;
  match p with
  | None =>
      if negb force then Some (AGAIN, tk, d, k, nbytes)
      else k ← emit_alt tk "[" k; Some (KEY, tk, d, k, introlen)
  | Some p =>
      let cmd := csi_command p in
      if (cmd =? code "M") && (nargs p <? 3)%nat then
        '(r, k, n) ← peekkey_mouse (ahead (csi_len p) tk) k;
        Some (r, tk, d, k, if bool_decide (r = KEY) then (n + csi_len p)%nat else nbytes)
      else
        h ← csi_handlers register_keys !! Z.to_nat (Z.land cmd 0xff - 0x40);
        '(r, k) ← (match h with Some h => run_handler h tk k cmd (csi_args p) (nargs p) | None => Some (NONE, k) end);
        if bool_decide (r = NONE) then
          Some (KEY, set_hightide (csi_len p - introlen) tk, d, set_modifiers 0 (set_code (i32 cmd) (set_type UNKNOWN_CSI k)), introlen)
        else Some (r, tk, d, k, csi_len p)
  end.

Definition peekkey_ss3 (tk : termkey) (d : csi) (introlen : nat) (k : key) (force : bool) (nbytes : nat) : peeked :=
  if (buffcount tk <? introlen + 1)%nat then
    if negb force then Some (AGAIN, tk, d, k, nbytes)
    else k ← emit_alt tk "O" k; Some (KEY, tk, d, k, buffcount tk)
  else
    cmd ← charat tk introlen;
    if (cmd <? 0x40) || (0x80 <=? cmd) then Some (NONE, tk, d, k, nbytes)
    else
      i ← entry (csi_ss3s register_keys) cmd;
      alt ← ss3_kpalts register_keys !! Z.to_nat (cmd - 0x40);
      j ← entry (ss3s register_keys) cmd;
      let from i k := set_modifiers (modifier_set i) (set_code (ki_sym i) (set_type (ki_type i) k)) in
      let k := from i k in
      let k :=
        if sym k =? SYM_UNKNOWN then
          if flag (flags tk) FLAG_CONVERTKP && negb (alt =? 0)
          then set_utf8 (alt :: 0 :: drop 2 (utf8 k)) (set_modifiers 0 (set_code alt (set_type UNICODE k)))
          else from j k
        else k in
      if sym k =? SYM_UNKNOWN then Some (NONE, tk, d, k, nbytes) else Some (KEY, tk, d, k, (introlen + 1)%nat).

(** The index of the terminator: ST, or ESC and a backslash. *)
Fixpoint find_st (n : nat) (tk : termkey) (i : nat) : option (option nat) :=
  match n with
  | O => Some None
  | S n =>
      c ← charat tk i;
      if c =? 0x9c then Some (Some i)
      else
        st ← (if (c =? 0x1b) && (S i <? buffcount tk)%nat then c ← charat tk (S i); Some (c =? 0x5c) else Some false);
        if (st : bool) then Some (Some i) else find_st n tk (S i)
  end.

(** Up to a NUL; [strlcpy] looks for it beyond the bytes that it copies. *)
Fixpoint to_nul (s : list Z) : option (list Z) :=
  match s with
  | [] => None
  | c :: s => if c =? 0 then Some [] else r ← to_nul s; Some (c :: r)
  end.

Definition peekkey_ctrlstring (tk : termkey) (d : csi) (introlen : nat) (k : key) (nbytes : nat) : peeked :=
  st ← find_st (buffcount tk - introlen) tk introlen;
  match st with
  | None => Some (AGAIN, tk, d, k, nbytes)
  | Some str_end =>
      c ← charat tk str_end;
      before ← charat tk (introlen - 1);
      src ← to_nul (drop (buffstart tk + introlen) (buffer tk));
      let len := (str_end - introlen)%nat in
      let id := saved_string_id d + 1 in
      if INT_MAX <? id then None
      else
        Some (KEY, tk, Csi id (Some (take (len - 1) src)),
              set_modifiers 0 (set_code id (set_type (if Z.land before 0x1f =? 0x10 then DCS else OSC) k)),
              if c =? 0x1b then S (S str_end) else S str_end)
  end.

Definition csi_peekkey (tk : termkey) (d : csi) (k : key) (force : bool) (nbytes : nat) : peeked :=
  if (buffcount tk =? 0)%nat then Some (if is_closed tk then EOF else NONE, tk, d, k, nbytes)
  else
    b0 ← charat tk 0;
    if b0 =? 0x1b then
      if (buffcount tk <? 2)%nat then Some (NONE, tk, d, k, nbytes)
      else
        b1 ← charat tk 1;
        if b1 =? 0x4f then peekkey_ss3 tk d 2 k force nbytes
        else if (b1 =? 0x50) || (b1 =? 0x5d) then peekkey_ctrlstring tk d 2 k nbytes
        else if b1 =? 0x5b then peekkey_csi tk d 2 k force nbytes
        else Some (NONE, tk, d, k, nbytes)
    else if b0 =? 0x8f then peekkey_ss3 tk d 1 k force nbytes
    else if (b0 =? 0x90) || (b0 =? 0x9d) then peekkey_ctrlstring tk d 1 k nbytes
    else if b0 =? 0x9b then peekkey_csi tk d 1 k force nbytes
    else Some (NONE, tk, d, k, nbytes).

Definition termkey_interpret_string (d : csi) (k : key) : termkey_result * option (option (list Z)) :=
  if negb (bool_decide (type k = DCS)) && negb (bool_decide (type k = OSC)) then (NONE, None)
  else if negb (saved_string_id d =? kcode k) then (NONE, None)
  else (KEY, Some (saved_string d)).

(** ** Reading parameters back *)

(** How a control sequence is written: an initial byte, numbers between semicolons of
    which some may be left out, an intermediate byte, the final byte. *)
Definition param_text (p : option Z) : list Z := match p with None => [] | Some v => map code (print_dec v) end.

Fixpoint params_text (ps : list (option Z)) : list Z :=
  match ps with
  | [] => []
  | p :: ps => param_text p ++ match ps with [] => [] | _ => 59 :: params_text ps end
  end.

Definition csi_text (initial : option Z) (ps : list (option Z)) (inter : option Z) (cmd : Z) : list Z :=
  option_list initial ++ params_text ps ++ option_list inter ++ [cmd].

Definition full_command (initial inter : option Z) (cmd : Z) : Z :=
  let c := match initial with Some b => Z.lor cmd (Z.shiftl b 8) | None => cmd end in
  match inter with Some b => Z.lor c (Z.shiftl b 16) | None => c end.

(** The loop of [scan_args] over a list. *)
#[local] Fixpoint scan_list (l : list Z) (s : scan) : option scan :=
  match l with
  | [] => Some s
  | c :: l =>
      if (48 <=? c) && (c <=? 57) then s ← scan_digit c s; scan_list l s
      else if c =? 59 then s ← scan_separator s; if (16 <? argi s)%nat then Some s else scan_list l s
      else if (0x20 <=? c) && (c <=? 0x2f) then Some (Scan (sc_args s) (argi s) (present s) (Z.lor (command s) (Z.shiftl c 16)))
      else scan_list l s
  end.

Lemma charat_at tk pre c rest : window tk = pre ++ c :: rest -> charat tk (length pre) = Some c.
Proof. intros H. unfold charat. rewrite H. by apply list_lookup_middle. Qed.

Lemma scan_args_list l : forall tk pre rest s, window tk = pre ++ l ++ rest -> scan_args (length l) tk (length pre) s = scan_list l s.
Proof.
  induction l as [| c l IH]; intros tk pre rest s Hw; [done |]. cbn [length scan_args scan_list].
  rewrite (charat_at tk pre c (l ++ rest) Hw). cbn [mbind option_bind].
  assert (forall s, scan_args (length l) tk (S (length pre)) s = scan_list l s) as Hnext.
  { intros s'. specialize (IH tk (pre ++ [c]) rest s'). rewrite length_app, Nat.add_1_r in IH. apply IH. by rewrite Hw, <- app_assoc. }
  case_match; [destruct (scan_digit c s); cbn; [apply Hnext | done] |].
  case_match; [destruct (scan_separator s); cbn; [case_match; [done | apply Hnext] | done] |].
  case_match; [done | apply Hnext].
Qed.

Lemma find_final_list body : forall tk pre c rest n, window tk = pre ++ body ++ c :: rest -> (length body < n)%nat ->
  Forall (fun b => b < 0x40 \/ 0x80 <= b) body -> 0x40 <= c < 0x80 -> find_final n tk (length pre) = Some (Some (length pre + length body)%nat).
Proof.
  induction body as [| b body IH]; intros tk pre c rest n Hw Hn Hb Hc; destruct n as [| n]; cbn [length] in Hn; try lia; cbn [find_final].
  - rewrite (charat_at tk pre c rest Hw). cbn. replace ((64 <=? c) && (c <? 128)) with true by lia. do 2 f_equal. lia.
  - rewrite (charat_at tk pre b (body ++ c :: rest) Hw). cbn [mbind option_bind]. apply Forall_cons in Hb as [Hb1 Hb].
    replace ((64 <=? b) && (b <? 128)) with false by lia.
    specialize (IH tk (pre ++ [b]) c rest n). rewrite length_app, Nat.add_1_r in IH. cbn [length]. rewrite IH; [do 2 f_equal; lia | | lia | done..].
    by rewrite Hw, <- app_assoc.
Qed.

Lemma scan_digits_grow s : forall v any n any' t, 0 <= v -> scan_digits v any s = (n, any', t) -> v <= n.
Proof.
  induction s as [| c s IH]; intros v any n any' t Hv; cbn [scan_digits]; [intros [= <- _ _]; lia |].
  case_match eqn:E; [| intros [= <- _ _]; lia]. intros H%IH; unfold digit_val, isdigit in *; lia.
Qed.

(** A number is read digit by digit. *)
Lemma scan_number s : forall v n args i c l, Forall (fun d => isdigit d = true) s -> scan_digits v true s = (n, true, []) ->
  0 <= v -> n + 48 <= LONG_MAX -> args !! i = Some (Some v) ->
  scan_list (map code s ++ l) (Scan args i true c) = scan_list l (Scan (<[i := Some n]> args) i true c).
Proof.
  induction s as [| d s IH]; intros v n args i c l Hs Hd Hv Hn Hi; cbn [scan_digits] in Hd.
  - injection Hd as <-. cbn. by rewrite list_insert_id.
  - apply Forall_cons in Hs as [Hd1 Hs]. rewrite Hd1 in Hd. cbn [map app scan_list]. unfold isdigit in Hd1. rewrite Hd1.
    assert (10 * v + digit_val d <= n) as Hle by (eapply scan_digits_grow; [| exact Hd]; unfold digit_val; lia).
    unfold scan_digit, arg. cbn [present sc_args argi command]. rewrite Hi. cbn [mjoin option_join mbind option_bind].
    replace (_ && _) with true by (unfold digit_val, LONG_MIN in *; lia). cbn [mbind option_bind]. unfold set_arg.
    assert (i < length args)%nat as Hlt by (by eapply lookup_lt_Some). replace (i <? length args)%nat with true by (symmetry; by apply Nat.ltb_lt).
    cbn [mbind option_bind]. replace (v * 10 + code d - 48) with (10 * v + digit_val d) by (unfold digit_val; lia).
    rewrite (IH (10 * v + digit_val d) n); [by rewrite list_insert_insert_eq | done.. | unfold digit_val; lia | done | by apply list_lookup_insert_eq].
Qed.

Definition param_ok (p : option Z) : Prop := match p with Some v => 0 <= v <= LONG_MAX - 48 | None => True end.

Lemma scan_param v args i c l : 0 <= v <= LONG_MAX - 48 -> (i < length args)%nat ->
  scan_list (param_text (Some v) ++ l) (Scan args i false c) = scan_list l (Scan (<[i := Some v]> args) i true c).
Proof.
  intros Hv Hi. cbn [param_text]. unfold print_dec. replace (v <? 0) with false by lia.
  destruct (print_nat_spec v ltac:(lia)) as [Hd Hs]. destruct (print_nat_cons v ltac:(lia)) as (d & s & E & Hdd). rewrite E in *.
  apply Forall_cons in Hd as [_ Hd]. cbn [scan_digits] in Hs. rewrite Hdd in Hs. cbn [map app scan_list]. unfold isdigit in Hdd. rewrite Hdd.
  unfold scan_digit. cbn [present mbind option_bind sc_args argi command]. unfold set_arg.
  replace (i <? length args)%nat with true by (symmetry; by apply Nat.ltb_lt). cbn [mbind option_bind].
  rewrite (scan_number s (code d - 48) v); [by rewrite list_insert_insert_eq | done | | lia | lia | by apply list_lookup_insert_eq].
  replace (code d - 48) with (10 * 0 + digit_val d) by (unfold digit_val; lia). exact Hs.
Qed.

Lemma scan_sep args i c l (pr : bool) : (i < 16)%nat -> (if pr then True else (i < length args)%nat) ->
  scan_list (59 :: l) (Scan args i pr c) = scan_list l (Scan (if pr then args else <[i := Some (-1)]> args) (S i) false c).
Proof.
  intros Hi Hl. cbn [scan_list]. change ((48 <=? 59) && (59 <=? 57)) with false. change (59 =? 59) with true. cbn iota.
  unfold scan_separator. cbn [present sc_args argi command]. unfold set_arg. destruct pr; cbn [mbind option_bind].
  - cbn [argi]. by replace (16 <? S i)%nat with false by (symmetry; apply Nat.ltb_ge; lia).
  - replace (i <? length args)%nat with true by (symmetry; by apply Nat.ltb_lt). cbn [mbind option_bind argi].
    by replace (16 <? S i)%nat with false by (symmetry; apply Nat.ltb_ge; lia).
Qed.

(** Parameters from the [i]-th on, put into the array. *)
#[local] Fixpoint put_params (args : params) (i : nat) (ps : list (option Z)) : params :=
  match ps with [] => args | p :: ps => put_params (<[i := Some (default (-1) p)]> args) (S i) ps end.

Lemma length_put ps : forall args i, length (put_params args i ps) = length args.
Proof. induction ps as [| p ps IH]; intros; cbn; [done |]. by rewrite IH, length_insert. Qed.

Lemma put_before ps : forall args i j, (j < i)%nat -> put_params args i ps !! j = args !! j.
Proof. induction ps as [| p ps IH]; intros args i j Hj; cbn; [done |]. rewrite IH by lia. apply list_lookup_insert_ne. lia. Qed.

Lemma put_lookup ps : forall args i j, (i + length ps <= length args)%nat -> (j < length ps)%nat ->
  put_params args i ps !! (i + j)%nat = Some (default (-1) <$> ps !! j).
Proof.
  induction ps as [| p ps IH]; intros args i j Hl Hj; cbn [length] in *; [lia |]. cbn [put_params]. destruct j as [| j].
  - rewrite Nat.add_0_r, put_before by lia. rewrite list_lookup_insert_eq by lia. done.
  - rewrite Nat.add_succ_r, <- Nat.add_succ_l, IH; [done | rewrite length_insert; lia | lia].
Qed.

Lemma scan_step p args i c l : length args = 16%nat -> (i < 16)%nat -> param_ok p ->
  scan_list (param_text p ++ 59 :: l) (Scan args i false c) = scan_list l (Scan (<[i := Some (default (-1) p)]> args) (S i) false c).
Proof.
  intros Hl Hi Hp. destruct p as [v |].
  - rewrite scan_param; [| exact Hp | lia]. rewrite scan_sep; [done | lia | exact I].
  - cbn [param_text app]. rewrite scan_sep; [done | lia | lia].
Qed.

Lemma params_text_more p q ps : params_text (p :: q :: ps) = param_text p ++ 59 :: params_text (q :: ps).
Proof. done. Qed.

Lemma scan_params ps : forall args i c l, length args = 16%nat -> (i + length ps <= 16)%nat -> Forall param_ok ps ->
  (exists v, last ps = Some (Some v)) ->
  scan_list (params_text ps ++ l) (Scan args i false c) = scan_list l (Scan (put_params args i ps) (i + length ps - 1) true c).
Proof.
  induction ps as [| p ps IH]; intros args i c l Hl Hi Hok [v Hlast]; [done |]. apply Forall_cons in Hok as [Hp Hok].
  cbn [length] in Hi. destruct ps as [| q ps].
  - injection Hlast as ->. cbn [params_text]. rewrite app_nil_r, scan_param; [| exact Hp | lia]. cbn [put_params length].
    by replace (i + 1 - 1)%nat with i by lia.
  - rewrite params_text_more, <- app_assoc. cbn [app length] in *. rewrite scan_step, IH; try done; [| by rewrite length_insert | lia | by exists v | lia].
    cbn [put_params length]. do 2 f_equal. lia.
Qed.

(** The parameter after the sixteenth does not fit. *)
Lemma scan_overflow ps : forall args i c l, length args = 16%nat -> (i <= 16 < i + length ps)%nat -> Forall param_ok ps ->
  (exists v, last ps = Some (Some v)) -> scan_list (params_text ps ++ l) (Scan args i false c) = None.
Proof.
  induction ps as [| p ps IH]; intros args i c l Hl Hi Hok [v Hlast]; [done |]. apply Forall_cons in Hok as [Hp Hok]. cbn [length] in Hi.
  assert (forall v, set_arg args 16 v = None) as Hfull by (intros w; unfold set_arg; by rewrite Hl).
  destruct (decide (i = 16)%nat) as [-> | Hne].
  - destruct p as [w |].
    + unfold params_text, param_text. fold params_text. unfold print_dec. cbn in Hp. replace (w <? 0) with false by lia.
      destruct (print_nat_cons w ltac:(lia)) as (d & s & -> & Hd). unfold isdigit in Hd. cbn [map app scan_list]. rewrite Hd.
      unfold scan_digit. cbn [present mbind option_bind sc_args argi]. by rewrite Hfull.
    + destruct ps as [| q ps]; [done |]. rewrite params_text_more. cbn [param_text app scan_list].
      change ((48 <=? 59) && (59 <=? 57)) with false. change (59 =? 59) with true. cbn iota.
      unfold scan_separator. cbn [present sc_args argi]. by rewrite Hfull.
  - destruct ps as [| q ps]; [cbn in Hi; lia |]. rewrite params_text_more, <- app_assoc. cbn [app length] in *.
    rewrite scan_step, IH; try done; [by rewrite length_insert | lia | by exists v | lia].
Qed.

Lemma params_bytes ps : Forall param_ok ps -> Forall (fun b => 48 <= b <= 59) (params_text ps).
Proof.
  assert (forall p, param_ok p -> Forall (fun b => 48 <= b <= 59) (param_text p)) as Hone.
  { intros [v |] Hp; cbn in *; [| constructor]. unfold print_dec. replace (v <? 0) with false by lia.
    destruct (print_nat_spec v ltac:(lia)) as [Hd _]. apply Forall_forall. intros b (d & -> & Hin)%list_elem_of_fmap.
    rewrite Forall_forall in Hd. apply Hd in Hin. unfold isdigit in Hin. lia. }
  induction ps as [| p ps IH]; intros Hok; cbn [params_text]; [constructor |]. apply Forall_cons in Hok as [Hp Hok].
  apply Forall_app. split; [by apply Hone |]. destruct ps; [constructor |]. constructor; [lia | by apply IH].
Qed.

(** The whole of the parameters and the intermediate byte. *)
Lemma scan_all ps inter c : Forall param_ok ps -> (match inter with Some b => 0x20 <= b <= 0x2f | None => True end) ->
  (ps = [] \/ exists v, last ps = Some (Some v)) ->
  scan_list (params_text ps ++ option_list inter) (Scan no_args 0 false c) =
  if (length ps <=? 16)%nat
  then Some (Scan (put_params no_args 0 ps) (length ps - 1) (negb (length ps =? 0)%nat) (match inter with Some b => Z.lor c (Z.shiftl b 16) | None => c end))
  else None.
Proof.
  intros Hps Hint Hlast.
  assert (forall s, scan_list (option_list inter) s = Some (Scan (sc_args s) (argi s) (present s) (match inter with Some b => Z.lor (command s) (Z.shiftl b 16) | None => command s end))) as Hi.
  { intros [a i p m]. destruct inter as [b |]; cbn; [| done]. replace ((48 <=? b) && (b <=? 57)) with false by lia.
    replace (b =? 59) with false by lia. by replace ((32 <=? b) && (b <=? 47)) with true by lia. }
  destruct (Nat.leb_spec (length ps) 16) as [Hle | Hgt].
  - destruct Hlast as [-> | Hlast]; [cbn [params_text app]; by rewrite Hi |]. rewrite scan_params, Hi by (done || lia).
    destruct ps; [by destruct Hlast |]. done.
  - destruct Hlast as [-> | Hlast]; [cbn in Hgt; lia |]. apply scan_overflow; [done | lia | done..].
Qed.

(** A control sequence is read as it was written: its parameters, of which some but
    the last may be left out, its initial, intermediate and final bytes.  A sequence with
    more than sixteen parameters makes the parser write behind the caller's array. *)
Theorem csi_read_back tk pre initial ps inter cmd rest :
  window tk = pre ++ csi_text initial ps inter cmd ++ rest ->
  Forall param_ok ps -> (match initial with Some b => 60 <= b <= 63 | None => True end) ->
  (match inter with Some b => 0x20 <= b <= 0x2f | None => True end) -> 0x40 <= cmd < 0x80 ->
  (ps = [] \/ exists v, last ps = Some (Some v)) ->
  if (length ps <=? 16)%nat then
    exists args, parse_csi tk (length pre) no_args =
      Some (Some (Parsed (length pre + length (csi_text initial ps inter cmd)) args (length ps) (full_command initial inter cmd))) /\
      forall i p, ps !! i = Some p -> arg args i = Some (default (-1) p)
  else parse_csi tk (length pre) no_args = None.
Proof.
  intros Hw Hps Hini Hint Hcmd Hlast.
  set (body := option_list initial ++ params_text ps ++ option_list inter).
  assert (csi_text initial ps inter cmd = body ++ [cmd]) as Htext by (unfold csi_text, body; by rewrite !app_assoc).
  assert (Forall (fun b => b < 0x40 \/ 0x80 <= b) body) as Hbody.
  { unfold body. rewrite !Forall_app. split_and!; [destruct initial; repeat constructor; lia | | destruct inter; repeat constructor; lia].
    eapply Forall_impl; [by apply params_bytes | cbn; lia]. }
  assert (window tk = pre ++ body ++ cmd :: rest) as Hw' by (rewrite Hw, Htext, <- app_assoc; done).
  assert (length pre + length body < buffcount tk)%nat as Hlen.
  { assert (length (window tk) <= buffcount tk)%nat as Hle by (unfold window; rewrite length_take; lia).
    rewrite Hw', !length_app in Hle. cbn [length] in Hle. lia. }
  unfold parse_csi. rewrite (find_final_list body tk pre cmd rest) by (done || lia). cbn [mbind option_bind].
  assert (charat tk (length pre + length body) = Some cmd) as ->.
  { rewrite <- length_app. apply (charat_at tk (pre ++ body) cmd rest). by rewrite <- app_assoc. }
  cbn [mbind option_bind].
  assert (forall c pre', window tk = pre' ++ (params_text ps ++ option_list inter) ++ cmd :: rest ->
    scan_args (length (params_text ps ++ option_list inter)) tk (length pre') (Scan no_args 0 false c) =
    if (length ps <=? 16)%nat
    then Some (Scan (put_params no_args 0 ps) (length ps - 1) (negb (length ps =? 0)%nat) (match inter with Some b => Z.lor c (Z.shiftl b 16) | None => c end))
    else None) as Hscan by (intros c pre' H; rewrite (scan_args_list _ _ _ _ _ H); by apply scan_all).
  assert (exists f, charat tk (length pre) = Some f /\ ((60 <=? f) && (f <=? 63)) = bool_decide (is_Some initial) /\
    match initial with Some b => f = b | None => True end) as (f & Hfirst & Hflag & Hf).
  { destruct initial as [b |].
    - exists b. split.
      { apply (charat_at tk pre b (params_text ps ++ option_list inter ++ cmd :: rest)). rewrite Hw'. unfold body. cbn [option_list app]. by rewrite <- !app_assoc. }
       split; [| done]. rewrite bool_decide_eq_true_2 by done. lia.
    - rewrite bool_decide_eq_false_2 by (by intros []).
      assert (Forall (fun b => b < 60 \/ 63 < b) (body ++ [cmd])) as Hnot.
      { unfold body. cbn [option_list app]. rewrite !Forall_app. split_and!; [constructor | | destruct inter; repeat constructor; lia | constructor; [lia | constructor]].
        eapply Forall_impl; [by apply params_bytes | cbn; lia]. }
      destruct (body ++ [cmd]) as [| f l] eqn:E; [by destruct body |]. exists f. apply Forall_cons in Hnot as [Hnot _].
      split; [| split; [lia | done]]. apply (charat_at tk pre f (l ++ rest)). by rewrite Hw, Htext. }
  rewrite Hfirst. cbn [mbind option_bind]. rewrite Hflag, Htext, length_app. cbn [length]. unfold body, full_command.
  assert (forall c (n1 n2 : nat), n1 = n2 -> if (length ps <=? 16)%nat then
    exists args, Some (Some (Parsed n1 (put_params no_args 0 ps) (if negb (length ps =? 0)%nat then S (length ps - 1) else length ps - 1) c)) =
      Some (Some (Parsed n2 args (length ps) c)) /\ (forall i p, ps !! i = Some p -> arg args i = Some (default (-1) p)) else True) as Hend.
  { intros c n1 n2 ->. destruct (Nat.leb_spec (length ps) 16) as [Hle |]; [| done]. eexists. split; [do 3 f_equal; destruct (length ps); cbn; lia |].
    intros i p Hp. unfold arg. pose proof (lookup_lt_Some _ _ _ Hp).
    pose proof (put_lookup ps no_args 0 i) as Hput. cbn [Nat.add] in Hput. rewrite Hput by (done || (cbn; lia)). by rewrite Hp. }
  destruct initial as [b |]; [change (option_list (Some b)) with [b] | change (option_list None) with (@nil Z)]; cbn [app length].
  - subst f. rewrite bool_decide_eq_true_2 by done.
    replace (length pre + S (length (params_text ps ++ option_list inter)) - S (length pre))%nat with (length (params_text ps ++ option_list inter)) by lia.
    specialize (Hscan (Z.lor cmd (Z.shiftl b 8)) (pre ++ [b])).
    assert (length (pre ++ [b]) = S (length pre)) as El by (rewrite length_app; cbn; lia). rewrite El in Hscan.
    rewrite Hscan by (rewrite Hw'; unfold body; by rewrite <- !app_assoc).
    destruct (length ps <=? 16)%nat eqn:E; [| done]. cbn [mbind option_bind sc_args argi present command]. apply Hend. lia.
  - rewrite bool_decide_eq_false_2 by (by intros []).
    replace (length pre + length (params_text ps ++ option_list inter) - length pre)%nat with (length (params_text ps ++ option_list inter)) by lia.
    rewrite (Hscan cmd pre) by (rewrite Hw'; unfold body; done).
    destruct (length ps <=? 16)%nat eqn:E; [| done]. cbn [mbind option_bind sc_args argi present command]. apply Hend. lia.
Qed.

(** A decoder with these bytes in its buffer. *)
Definition holding (bytes : list Z) : termkey := set_buffer bytes 0 (length bytes) termkey_alloc.

Lemma csi_read_back_witness :
  let mode := csi_text (Some 63) [Some 1049; None; Some 2] (Some 36) 121 in
  let many := csi_text None (replicate 17 (Some 1)) None 109 in
  (exists args, parse_csi (holding ([27; 91] ++ mode)) 2 no_args = Some (Some (Parsed 12 args 3 (121 + 63 * 256 + 36 * 65536))) /\
    arg args 0 = Some 1049 /\ arg args 1 = Some (-1) /\ arg args 2 = Some 2) /\
  parse_csi (holding ([27; 91] ++ many)) 2 no_args = None.
Proof.
  cbn zeta. split.
  - destruct (csi_read_back (holding ([27; 91] ++ csi_text (Some 63) [Some 1049; None; Some 2] (Some 36) 121)) [27; 91] (Some 63) [Some 1049; None; Some 2] (Some 36) 121 [])
      as (args & E & H); [reflexivity | | lia | lia | lia | right; by exists 2 |].
    + repeat constructor; vm_compute; discriminate.
    + exists args. split; [exact E |]. split; [exact (H 0%nat (Some 1049) eq_refl) | split; [exact (H 1%nat None eq_refl) | exact (H 2%nat (Some 2) eq_refl)]].
  - apply (csi_read_back (holding ([27; 91] ++ csi_text None (replicate 17 (Some 1)) None 109)) [27; 91] None (replicate 17 (Some 1)) None 109 []).
    + reflexivity.
    + apply Forall_replicate. split; vm_compute; discriminate.
    + exact I.
    + exact I.
    + lia.
    + right. by exists 1.
Defined.

(** ** What reports say *)

Lemma low_or_high n : 0 <= n -> In n (map Z.of_nat (seq 0 12)) \/ 12 <= n.
Proof.
  intros Hn. destruct (Z.lt_ge_cases n 12) as [Hlt |]; [left | by right]. apply in_map_iff. exists (Z.to_nat n). split; [lia |].
  apply in_seq. lia.
Qed.

(** The bits below twelve one by one, and those above. *)
#[local] Ltac bit_split n :=
  let H := fresh in
  destruct (low_or_high n) as [H | H]; [lia | cbn in H; repeat (destruct H as [<- | H]); try (exfalso; exact H) |].

Lemma high_bits a k n : 0 <= a < 2 ^ k -> 0 <= k <= n -> Z.testbit a n = false.
Proof. intros Ha Hk. apply (proj1 (below_pow2 a k ltac:(lia) ltac:(lia))); lia. Qed.

(** Twelve bits of the one and ten of the other. *)
Lemma linecol_bits line col : 0 <= line < 4096 -> 0 <= col ->
  let m3 := Z.lor (Z.shiftr (Z.land line 0xf00) 8) (Z.shiftr (Z.land col 0x300) 4) in
  Z.lor (Z.land col 0x0ff) (Z.shiftl (Z.land m3 0x70) 4) = Z.land col 0x3ff /\
  Z.lor (Z.land line 0x0ff) (Z.shiftl (Z.land m3 0x0f) 8) = line.
Proof.
  intros Hl Hc m3. unfold m3.
  split; apply Z.bits_inj'; intros n Hn; repeat rewrite ?Z.lor_spec, ?Z.land_spec, ?Z.shiftl_spec by lia.
  - bit_split n; try (rewrite ?Z.shiftr_spec, ?Z.land_spec by lia; cbn; by rewrite ?andb_false_r, ?andb_true_r, ?orb_false_r).
    rewrite (high_bits 255 12), (high_bits 1023 12), !andb_false_r by lia. cbn [orb].
    destruct (Z.testbit 112 (n - 4)) eqn:E; [| by rewrite andb_false_r]. rewrite (high_bits 112 7) in E by lia. done.
  - bit_split n; try (rewrite ?Z.shiftr_spec, ?Z.land_spec by lia; cbn; by rewrite ?andb_false_r, ?andb_true_r, ?orb_false_r).
    rewrite (high_bits line 12), (high_bits 15 4), !andb_false_r by lia. done.
Qed.

Lemma schar_byte v : -128 <= v < 128 -> schar (byte v) = v.
Proof.
  intros Hv. unfold schar, byte, swrap. change (2 ^ (8 - 1)) with 128. change (2 ^ 8) with 256. rewrite Zplus_mod_idemp_l, Z.mod_small; lia.
Qed.

(** A byte below a sign. *)
Lemma lor_negative hi lo : 0 <= hi < 128 -> 128 <= lo < 256 -> Z.lor (Z.shiftl hi 8) (lo - 256) = lo - 256.
Proof.
  intros Hhi Hlo. replace (lo - 256) with (Z.lnot (255 - lo)) by (unfold Z.lnot; lia).
  apply Z.bits_inj'. intros n Hn. rewrite Z.lor_spec, Z.lnot_spec by done.
  destruct (decide (n < 8)); [by rewrite Z.shiftl_spec_low |]. rewrite (high_bits (255 - lo) 8) by lia. apply orb_true_r.
Qed.

(** Positions are told by reports up to column 4095 and line 1023; lines above that
    come out smaller by 1024, although they are stored up to 2047.  The mode of a mode
    report is told only if its low byte is below 128: else the sign of the byte replaces
    the rest of it, as for 2004, bracketed paste, which becomes -44. *)
Theorem report_values k x y initial mode value :
  0 <= x -> 0 <= y -> 0 <= mode < 2 ^ 15 -> 0 <= value < 128 ->
  termkey_key_get_linecol (termkey_key_set_linecol k x y) = Some (Z.min y 2047 mod 1024, Z.min x 4095) /\
  forall args, arg args 0 = Some mode -> arg args 1 = Some value ->
    exists k', handle_csi_y k (full_command (if initial : bool then Some (code "?") else None) (Some (code "$")) (code "y")) args 2 = Some (KEY, k') /\
      termkey_interpret_modereport k' =
        Some (KEY, Some (if initial then code "?" else 0, if mode mod 256 <? 128 then mode else mode mod 256 - 256, value)).
Proof.
  intros Hx Hy Hm Hv. split.
  - unfold termkey_key_set_linecol, termkey_key_get_linecol. cbn.
    destruct (linecol_bits (Z.min x 4095) (Z.min y 2047) ltac:(lia) ltac:(lia)) as [E1 E2]. cbn zeta in E1, E2.
    replace (if 4095 <? x then 4095 else x) with (Z.min x 4095) by (case_match; lia).
    replace (if 2047 <? y then 2047 else y) with (Z.min y 2047) by (case_match; lia).
    rewrite E1, E2. change 1023 with (2 ^ 10 - 1). by rewrite land_pow2.
  - intros args H0 H1. unfold handle_csi_y. rewrite H0, H1. cbn [mbind option_bind].
    pose proof (Z.div_mod mode 256 ltac:(lia)) as Hdm. pose proof (Z.mod_pos_bound mode 256 ltac:(lia)) as Hlo.
    assert (0 <= mode / 256 < 128) as Hhi by (split; [apply Z.div_pos; lia | apply Z.div_lt_upper_bound; lia]).
    assert (schar (byte (Z.shiftr mode 8)) = mode / 256) as Ehi by (rewrite Z.shiftr_div_pow2 by lia; apply schar_byte; change (2 ^ 8) with 256; lia).
    assert (schar (byte (Z.land mode 0xff)) = if mode mod 256 <? 128 then mode mod 256 else mode mod 256 - 256) as Elo.
    { change 0xff with (2 ^ 8 - 1). rewrite land_pow2 by lia. change (2 ^ 8) with 256. destruct (Z.ltb_spec (mode mod 256) 128).
      - apply schar_byte. lia.
      - rewrite <- (schar_byte (mode mod 256 - 256)) by lia. unfold byte. f_equal. rewrite Z.mod_mod by lia.
        replace (mode mod 256 - 256) with (mode mod 256 + (-1) * 256) by lia. by rewrite Z.mod_add, Z.mod_mod by lia. }
    assert (Z.lor (Z.shiftl (mode / 256) 8) (if mode mod 256 <? 128 then mode mod 256 else mode mod 256 - 256) =
      if mode mod 256 <? 128 then mode else mode mod 256 - 256) as Elor.
    { destruct (Z.ltb_spec (mode mod 256) 128); [| apply lor_negative; lia]. rewrite lor_shift by lia. change (2 ^ 8) with 256. lia. }
    assert (schar (byte value) = value) as Ev by (apply schar_byte; lia).
    destruct initial; (eexists; split; [reflexivity |]); unfold termkey_interpret_modereport; cbn [type set_mouse set_type mouse lookup list_lookup];
      rewrite bool_decide_eq_true_2 by done; cbn [negb mbind option_bind lookup list_lookup]; by rewrite Ehi, Elo, Elor, Ev.
Qed.

Lemma report_values_witness :
  termkey_key_get_linecol (termkey_key_set_linecol (Key UNICODE 0 [0; 0; 0; 0] 0 []) 5000 1100) = Some (76, 4095) /\
  exists k', handle_csi_y (Key UNICODE 0 [0; 0; 0; 0] 0 []) (full_command (Some (code "?")) (Some (code "$")) (code "y")) [Some 2004; Some 1] 2 = Some (KEY, k') /\
    termkey_interpret_modereport k' = Some (KEY, Some (63, -44, 1)).
Proof.
  destruct (report_values (Key UNICODE 0 [0; 0; 0; 0] 0 []) 5000 1100 true 2004 1) as [H1 H2]; [discriminate | discriminate | split; [discriminate | reflexivity] .. |].
  split; [exact H1 | exact (H2 [Some 2004; Some 1] eq_refl eq_refl)].
Defined.

(** ** Cursor and function keys *)

Lemma land_shifted b k : 8 <= k -> Z.land (Z.shiftl b k) 255 = 0.
Proof.
  intros Hk. change 255 with (2 ^ 8 - 1). rewrite land_pow2, Z.shiftl_mul_pow2 by lia. replace k with ((k - 8) + 8) by lia.
  rewrite Z.pow_add_r, Z.mul_assoc by lia. by apply Z.mod_mul.
Qed.

(** The final byte is the lowest of the command. *)
Lemma full_command_low initial inter c : 0 <= c < 256 -> Z.land (full_command initial inter c) 255 = c.
Proof.
  intros Hc. assert (Z.land c 255 = c) as E by (change 255 with (2 ^ 8 - 1); rewrite land_pow2, Z.mod_small; lia).
  destruct initial, inter; cbn [full_command]; rewrite ?Z.land_lor_distr_l, ?land_shifted, ?E, ?Z.lor_0_r by lia; done.
Qed.

(** What terminals send for the cursor keys and the first function keys, a letter, and
    for the others, a number before a tilde.  F3 is missing: its letter also reports the
    cursor's position. *)
Definition letter_keys : list (ascii * (key_type * Z)) :=
  [("A"%char, (KEYSYM, SYM_UP)); ("B"%char, (KEYSYM, SYM_DOWN)); ("C"%char, (KEYSYM, SYM_RIGHT)); ("D"%char, (KEYSYM, SYM_LEFT));
   ("E"%char, (KEYSYM, SYM_BEGIN)); ("F"%char, (KEYSYM, SYM_END)); ("H"%char, (KEYSYM, SYM_HOME)); ("P"%char, (FUNCTION, 1));
   ("Q"%char, (FUNCTION, 2)); ("S"%char, (FUNCTION, 4)); ("Z"%char, (KEYSYM, SYM_TAB))].

Definition number_keys : list (Z * (key_type * Z)) :=
  [(1, (KEYSYM, SYM_FIND)); (2, (KEYSYM, SYM_INSERT)); (3, (KEYSYM, SYM_DELETE)); (4, (KEYSYM, SYM_SELECT));
   (5, (KEYSYM, SYM_PAGEUP)); (6, (KEYSYM, SYM_PAGEDOWN)); (7, (KEYSYM, SYM_HOME)); (8, (KEYSYM, SYM_END))] ++
  zip [11; 12; 13; 14; 15; 17; 18; 19; 20; 21; 23; 24; 25; 26; 28; 29; 31; 32; 33; 34] (map (fun n => (FUNCTION, Z.of_nat n)) (seq 1 20)).

(** Shift-Tab has a letter of its own. *)
Definition own_modifiers (c : ascii) : Z := if bool_decide (c = "Z"%char) then KEYMOD_SHIFT else 0.

#[export] Instance csi_handler_eq_dec : EqDecision csi_handler.
Proof. solve_decision. Defined.
#[export] Instance keyinfo_eq_dec : EqDecision keyinfo.
Proof. solve_decision. Defined.

Lemma letter_entry c ty s : (c, (ty, s)) ∈ letter_keys ->
  csi_handlers register_keys !! slot c = Some (Some Handle_csi_ss3_full) /\
  csi_ss3s register_keys !! slot c = Some (Keyinfo ty s (own_modifiers c) (own_modifiers c)) /\
  0x40 <= code c < 0x80 /\ code c <> code "M" /\ i32 s <> SYM_UNKNOWN.
Proof.
  assert (Hall : forallb (fun '(c, (ty, s)) => bool_decide (csi_handlers register_keys !! slot c = Some (Some Handle_csi_ss3_full)) &&
    bool_decide (csi_ss3s register_keys !! slot c = Some (Keyinfo ty s (own_modifiers c) (own_modifiers c))) &&
    ((0x40 <=? code c) && (code c <? 0x80) && negb (code c =? code "M") && negb (i32 s =? SYM_UNKNOWN))) letter_keys = true) by (vm_compute; reflexivity).
  intros Hin. rewrite forallb_forall in Hall. apply list_elem_of_In in Hin. specialize (Hall _ Hin). cbn beta iota in Hall.
  rewrite !andb_true_iff, !bool_decide_eq_true, !negb_true_iff, !Z.eqb_neq in Hall. split_and!; [tauto | tauto | lia..].
Qed.

Lemma number_entry p ty s : (p, (ty, s)) ∈ number_keys ->
  csifuncs register_keys !! Z.to_nat p = Some (Keyinfo ty s 0 0) /\ 0 <= p < Z.of_nat NCSIFUNCS /\ p <> 27 /\ i32 s <> SYM_UNKNOWN.
Proof.
  assert (Hall : forallb (fun '(p, (ty, s)) => bool_decide (csifuncs register_keys !! Z.to_nat p = Some (Keyinfo ty s 0 0)) &&
    ((0 <=? p) && (p <? Z.of_nat NCSIFUNCS) && negb (p =? 27) && negb (i32 s =? SYM_UNKNOWN))) number_keys = true) by (vm_compute; reflexivity).
  intros Hin. rewrite forallb_forall in Hall. apply list_elem_of_In in Hin. specialize (Hall _ Hin). cbn beta iota in Hall.
  rewrite !andb_true_iff, !bool_decide_eq_true, !negb_true_iff, !Z.eqb_neq in Hall. split_and!; [tauto | lia..].
Qed.

(** The two parameters of such a sequence. *)
Lemma key_params tk pre initial p m c rest :
  window tk = pre ++ csi_text initial [Some p; Some (m + 1)] None (code c) ++ rest -> 0 <= p < 2 ^ 31 -> 0 <= m < 2 ^ 31 - 1 ->
  (match initial with Some b => 60 <= b <= 63 | None => True end) -> 0x40 <= code c < 0x80 ->
  exists args, parse_csi tk (length pre) no_args = Some (Some (Parsed
    (Nat.add (length pre) (length (csi_text initial [Some p; Some (m + 1)] None (code c)))) args 2 (full_command initial None (code c)))) /\
    arg args 0 = Some p /\ arg args 1 = Some (m + 1).
Proof.
  intros Hw Hp Hm Hini Hc.
  destruct (csi_read_back tk pre initial [Some p; Some (m + 1)] None (code c) rest Hw) as (args & E & Hargs);
    [repeat constructor; cbn; unfold LONG_MAX; lia | done | done | done | right; by exists (m + 1) |].
  exists args. split; [exact E |]. split; [exact (Hargs 0%nat (Some p) eq_refl) | exact (Hargs 1%nat (Some (m + 1)) eq_refl)].
Qed.

Lemma full_command_high b c : 60 <= b -> 0 <= c < 128 -> 64 <= full_command (Some b) None c - 64 /\ full_command (Some b) None c = b * 256 + c.
Proof. intros Hb Hc. cbn [full_command]. rewrite (Z.lor_comm c), lor_shift by lia. change (2 ^ 8) with 256. lia. Qed.

Lemma key_modifiers args m n : arg args 1 = Some (m + 1) -> 0 <= m < 2 ^ 31 - 1 -> (1 < n)%nat -> modifiers_arg args n = Some m.
Proof.
  intros Ha Hm Hn. unfold modifiers_arg. rewrite (proj2 (Nat.ltb_lt _ _)), Ha by done. cbn [mbind option_bind].
  replace (m + 1 =? -1) with false by lia. f_equal. unfold i32, swrap. rewrite Z.add_simpl_r.
  change (2 ^ (32 - 1)) with 2147483648. change (2 ^ 32) with 4294967296. rewrite Z.mod_small; lia.
Qed.

Lemma mask_and_set m a : Z.lor (Z.land m (Z.lnot a)) a = Z.lor m a.
Proof. apply Z.bits_inj'. intros j Hj. rewrite !Z.lor_spec, Z.land_spec, Z.lnot_spec by done. by destruct (Z.testbit m j), (Z.testbit a j). Qed.

(** C24: a cursor or function key pressed with modifiers, whose sequence has a one and
    the modifiers before its letter or its number and the modifiers before a tilde, is
    decoded to its symbol or number with exactly these modifiers (Shift-Tab has Shift
    too) and takes exactly the bytes of its sequence.  With an initial byte, as in
    reports of the terminal, a sequence with such a letter makes the driver read far
    outside its table. *)
Theorem cursor_keys_decode tk d pre m rest k force n ty s (Hm : 0 <= m < 2 ^ 31 - 1) :
  (forall c, (c, (ty, s)) ∈ letter_keys -> let text := csi_text None [Some 1; Some (m + 1)] None (code c) in
     window tk = pre ++ text ++ rest ->
     peekkey_csi tk d (length pre) k force n =
       Some (KEY, tk, d, Key ty s (mouse k) (if bool_decide (c = "Z"%char) then Z.lor m KEYMOD_SHIFT else m) (utf8 k), length pre + length text)%nat) /\
  (forall p, (p, (ty, s)) ∈ number_keys -> let text := csi_text None [Some p; Some (m + 1)] None (code "~") in
     window tk = pre ++ text ++ rest ->
     peekkey_csi tk d (length pre) k force n = Some (KEY, tk, d, Key ty s (mouse k) m (utf8 k), length pre + length text)%nat) /\
  (forall c b, (c, (ty, s)) ∈ letter_keys -> 60 <= b <= 63 ->
     window tk = pre ++ csi_text (Some b) [Some 1; Some (m + 1)] None (code c) ++ rest -> peekkey_csi tk d (length pre) k force n = None).
Proof.
  split_and!.
  - intros c Hin text Hw. destruct (letter_entry c ty s Hin) as (Hh & Hi & Hc & HM & Hs).
    destruct (key_params tk pre None 1 m c rest Hw ltac:(lia) Hm I Hc) as (args & E & _ & H1).
    unfold peekkey_csi. rewrite E. cbn [mbind option_bind csi_command nargs csi_len csi_args full_command].
    rewrite (proj2 (Z.eqb_neq _ _)) by done. cbn [andb]. rewrite (full_command_low None None (code c) (code_range c) : Z.land (code c) 255 = code c).
    unfold slot in Hh, Hi. rewrite Hh. cbn [mbind option_bind run_handler]. unfold handle_csi_ss3_full. rewrite (key_modifiers _ m) by (done || lia).
    unfold entry. replace (code c <? 64) with false by lia. cbn [mbind option_bind]. rewrite Hi. cbn [mbind option_bind]. unfold sym.
    cbn [apply_info kcode set_modifiers set_code set_type ki_sym]. rewrite (proj2 (Z.eqb_neq _ _)) by done. cbn [modifier_mask modifier_set ki_type].
    rewrite bool_decide_eq_false_2 by done. unfold apply_info. cbn [set_modifiers set_code set_type modifiers mouse utf8 type kcode ki_type ki_sym modifier_mask modifier_set].
    rewrite mask_and_set. unfold own_modifiers. destruct (bool_decide (c = "Z"%char)); [done | by rewrite Z.lor_0_r].
  - intros p Hin text Hw. destruct (number_entry p ty s Hin) as (Hi & Hp & H27 & Hs). assert (Hp' : 0 <= p < 2 ^ 31) by (unfold NCSIFUNCS in Hp; lia).
    destruct (key_params tk pre None p m "~" rest Hw Hp' Hm I ltac:(split; [discriminate | reflexivity])) as (args & E & H0 & H1).
    unfold peekkey_csi. rewrite E. cbn [mbind option_bind csi_command nargs csi_len csi_args full_command].
    change (code "~" =? code "M") with false. cbn [andb].
    replace (csi_handlers register_keys !! Z.to_nat (Z.land (code "~") 255 - 64)) with (Some (Some Handle_csifunc)) by (vm_compute; reflexivity).
    cbn [mbind option_bind run_handler]. unfold handle_csifunc. rewrite (key_modifiers _ m) by (done || lia). cbn [mbind option_bind]. rewrite H0. cbn [mbind option_bind].
    rewrite (proj2 (Z.eqb_neq p 27)) by done. replace ((0 <=? p) && (p <? Z.of_nat NCSIFUNCS)) with true by lia. rewrite Hi. cbn [mbind option_bind]. unfold sym.
    cbn [apply_info kcode set_modifiers set_code set_type ki_sym]. rewrite (proj2 (Z.eqb_neq (i32 s) _)) by done. cbn [modifier_mask modifier_set ki_type].
    rewrite bool_decide_eq_false_2 by done. unfold apply_info. cbn [set_modifiers set_code set_type modifiers mouse utf8 type kcode ki_type ki_sym modifier_mask modifier_set].
    by rewrite mask_and_set, Z.lor_0_r.
  - intros c b Hin Hb Hw. destruct (letter_entry c ty s Hin) as (Hh & Hi & Hc & HM & Hs).
    destruct (key_params tk pre (Some b) 1 m c rest Hw ltac:(lia) Hm Hb Hc) as (args & E & _ & H1).
    destruct (full_command_high b (code c)) as [Hhigh Hfull]; [lia.. |].
    unfold peekkey_csi. rewrite E. cbn [mbind option_bind csi_command nargs csi_len csi_args].
    rewrite (proj2 (Z.eqb_neq _ _)) by (rewrite Hfull; change (code "M") with 77; lia). cbn [andb]. rewrite (full_command_low (Some b) None) by apply code_range.
    unfold slot in Hh. rewrite Hh. cbn [mbind option_bind run_handler]. unfold handle_csi_ss3_full. rewrite (key_modifiers _ m) by (done || lia).
    unfold entry. rewrite (proj2 (Z.ltb_ge _ _)) by lia. replace (csi_ss3s register_keys !! _) with (@None keyinfo); [done |].
    symmetry. apply lookup_ge_None. change (length (csi_ss3s register_keys)) with 64%nat. lia.
Qed.

(** Shift-Ctrl-Up, Ctrl-F5, and the reply [CSI ? 1 ; 6 S]. *)
Lemma cursor_keys_decode_witness :
  let k := Key UNICODE 0 [0; 0; 0; 0] 0 [] in
  peekkey_csi (holding ([27; 91] ++ csi_text None [Some 1; Some 6] None 65)) new_csi 2 k false 0 =
    Some (KEY, holding ([27; 91] ++ csi_text None [Some 1; Some 6] None 65), new_csi, Key KEYSYM SYM_UP [0; 0; 0; 0] 5 [], 6%nat) /\
  peekkey_csi (holding ([27; 91] ++ csi_text None [Some 15; Some 5] None 126)) new_csi 2 k false 0 =
    Some (KEY, holding ([27; 91] ++ csi_text None [Some 15; Some 5] None 126), new_csi, Key FUNCTION 5 [0; 0; 0; 0] 4 [], 7%nat) /\
  peekkey_csi (holding ([27; 91] ++ csi_text (Some 63) [Some 1; Some 6] None 83)) new_csi 2 k false 0 = None.
Proof.
  cbn zeta. split; [| split].
  - apply (cursor_keys_decode (holding ([27; 91] ++ csi_text None [Some 1; Some 6] None 65)) new_csi [27; 91] 5 []
      (Key UNICODE 0 [0; 0; 0; 0] 0 []) false 0 KEYSYM SYM_UP) with (c := "A"%char); [split; [discriminate | reflexivity] | | reflexivity].
    apply (bool_decide_unpack _). vm_compute. exact I.
  - apply (cursor_keys_decode (holding ([27; 91] ++ csi_text None [Some 15; Some 5] None 126)) new_csi [27; 91] 4 []
      (Key UNICODE 0 [0; 0; 0; 0] 0 []) false 0 FUNCTION 5) with (p := 15); [split; [discriminate | reflexivity] | | reflexivity].
    apply (bool_decide_unpack _). vm_compute. exact I.
  - apply (cursor_keys_decode (holding ([27; 91] ++ csi_text (Some 63) [Some 1; Some 6] None 83)) new_csi [27; 91] 5 []
      (Key UNICODE 0 [0; 0; 0; 0] 0 []) false 0 FUNCTION 4) with (c := "S"%char) (b := 63); [split; [discriminate | reflexivity] | | split; discriminate | reflexivity].
    apply (bool_decide_unpack _). vm_compute. exact I.
Defined.
