(* ===== verification/TermName.v ===== *)
(** * The names of keys (termkey.c)

    A key printed to a caller's buffer and read back from text, in the formats of
    [TermKeyFormat], and the comparison of keys.  [None] at the outermost level as in
    TermKey. *)

From S2P Require Import Prelude CString TermKey TermCsi.

#[local] Open Scope Z_scope.

(** ** Formats *)

Definition FORMAT_LONGMOD : Z := 1.
Definition FORMAT_CARETCTRL : Z := 2.
Definition FORMAT_ALTISMETA : Z := 4.
Definition FORMAT_WRAPBRACKET : Z := 8.
Definition FORMAT_SPACEMOD : Z := 16.
Definition FORMAT_LOWERMOD : Z := 32.
Definition FORMAT_LOWERSPACE : Z := 64.
Definition FORMAT_MOUSE_POS : Z := 256.

Record modnames := Modnames { shift : bstr; alt : bstr; ctrl : bstr }.

Definition modnames_table : list modnames :=
  [Modnames (B "S") (B "A") (B "C"); Modnames (B "Shift") (B "Alt") (B "Ctrl");
   Modnames (B "S") (B "M") (B "C"); Modnames (B "Shift") (B "Meta") (B "Ctrl");
   Modnames (B "s") (B "a") (B "c"); Modnames (B "shift") (B "alt") (B "ctrl");
   Modnames (B "s") (B "m") (B "c"); Modnames (B "shift") (B "meta") (B "ctrl")].

Definition mods_index (format : Z) : nat :=
  ((if flag format FORMAT_LONGMOD then 1 else 0) + (if flag format FORMAT_ALTISMETA then 2 else 0) + (if flag format FORMAT_LOWERMOD then 4 else 0))%nat.

Definition mods_of (format : Z) : option modnames := modnames_table !! mods_index format.

Definition sep_of (format : Z) : ascii := if flag format FORMAT_SPACEMOD then " "%char else "-"%char.

Definition evnames : list bstr := [B "Unknown"; B "Press"; B "Drag"; B "Release"].

Definition event_number (e : mouse_event) : nat :=
  match e with MOUSE_UNKNOWN => 0 | MOUSE_PRESS => 1 | MOUSE_DRAG => 2 | MOUSE_RELEASE => 3 end.

(** ** Camel case *)

(** The first loop of [snprint_cameltospaces]: what is written to [size] bytes, what of
    the source is left, and whether the last letter was a small one. *)
Fixpoint camel_write (src : bstr) (prev_lower : bool) (size l : Z) (out : bstr) : bstr * bstr * bool :=
  match src with
  | [] => (out, [], prev_lower)
  | c :: rest =>
      if l <? size - 1 then
        if isupper c && prev_lower then
          if size - 1 <=? l + 1 then (out ++ [" "%char], src, prev_lower)
          else camel_write rest (islower c) size (l + 2) (out ++ [" "%char; tolower c])
        else camel_write rest (islower c) size (l + 1) (out ++ [tolower c])
      else (out, src, prev_lower)
  end.

(** The second loop: the bytes that did not fit. *)
Fixpoint camel_count (src : bstr) (prev_lower : bool) : Z :=
  match src with
  | [] => 0
  | c :: src => (if isupper c && prev_lower then 2 else 1) + camel_count src (islower c)
  end.

(** Text and the length that it has without the limit; [size - 1] of 0 is the largest
    number. *)
Definition snprint_cameltospaces (size : Z) (src : bstr) : bstr * Z :=
  let '(out, rest, prev) := camel_write src false (if size =? 0 then 2 ^ 64 else size) 0 [] in
  (out, Z.of_nat (length out) + camel_count rest prev).

(** [strpncmp_camel]: what is left of the text, and whether the last bytes compared were
    equal. *)
Fixpoint strpncmp_camel (n : nat) (str strcamel : bstr) (prev_lower : bool) : bstr * bool :=
  let same := match str, strcamel with [], [] => true | c :: _, d :: _ => bool_decide (c = d) | _, _ => false end in
  match n, strcamel with
  | O, _ => (str, same)
  | S _, [] => (str, same)
  | S n, d :: strcamel' =>
      let b := tolower d in
      if isupper d && prev_lower then
        match str with
        | c :: str' =>
            if bool_decide (c = " "%char) then
              match str' with
              | c' :: str'' =>
                  if bool_decide (c' = b) then strpncmp_camel n str'' strcamel' (islower d) else (str', bool_decide (c' = d))
              | [] => ([], false)
              end
            else (str, same)
        | [] => ([], same)
        end
      else
        match str with
        | c :: str' => if bool_decide (c = b) then strpncmp_camel n str' strcamel' (islower d) else (str, same)
        | [] => ([], same)
        end
  end.

(** ** Names *)

(** The first symbol from [sym] on whose name the text begins with, and the text behind
    it; without one the symbol is the number of names. *)
Fixpoint lookup_from (names : list (option bstr)) (sym : Z) (str : bstr) (lower : bool) : Z * option bstr :=
  match names with
  | [] => (sym, None)
  | None :: names => lookup_from names (sym + 1) str lower
  | Some name :: names =>
      if lower then
        let '(rest, same) := strpncmp_camel (length name) str name false in
        if (same : bool) then (sym, Some rest) else lookup_from names (sym + 1) str lower
      else if strneq str name (length name) then (sym, Some (drop (length name) str))
      else lookup_from names (sym + 1) str lower
  end.

Definition termkey_lookup_keyname_format (tk : termkey) (str : bstr) (format : Z) : Z * option bstr :=
  lookup_from (keynames tk) 0 str (flag format FORMAT_LOWERSPACE).

Definition termkey_lookup_keyname (tk : termkey) (str : bstr) : Z * option bstr := termkey_lookup_keyname_format tk str 0.

Definition termkey_keyname2sym (tk : termkey) (keyname : bstr) : Z :=
  match termkey_lookup_keyname tk keyname with (sym, Some []) => sym | _ => SYM_UNKNOWN end.

(** ** Printing *)

(** What one call writes: text, or a name with its capitals spaced out. *)
Inductive piece := Text (s : bstr) | Camel (name : bstr).

(** [snprintf] or [snprint_cameltospaces] at [pos] of the buffer, with what is left of its
    length; behind the end the length is negative, which is a huge one.  Also the length
    of the text. *)
Definition put_piece (p : piece) (buf : bstr) (pos : nat) : option (nat * bstr) :=
  let room := Z.of_nat (length buf) - Z.of_nat pos in
  if room <? 0 then None
  else
    match p with
    | Text s =>
        let l := length s in
        if room =? 0 then Some (l, buf)
        else
          let shown := take (Z.to_nat room - 1) s in
          Some (l, take pos buf ++ shown ++ NUL :: drop (pos + length shown + 1) buf)
    | Camel name =>
        if room =? 0 then None
        else
          let '(shown, l) := snprint_cameltospaces room name in
          Some (Z.to_nat l, take pos buf ++ shown ++ NUL :: drop (pos + length shown + 1) buf)
    end.

(** The calls in order; one that prints nothing is the last. *)
Fixpoint put_pieces (ps : list piece) (buf : bstr) (pos : nat) : option (nat * bstr) :=
  match ps with
  | [] => Some (pos, buf)
  | p :: ps =>
      '(l, buf) ← put_piece p buf pos;
      if (l =? 0)%nat then Some (pos, buf) else put_pieces ps buf (pos + l)
  end.

(** [key->utf8] up to its NUL. *)
Definition utf8_text (k : key) : bstr := map chr (default (utf8 k) (to_nul (utf8 k))).

(** The text of the key without modifiers; a symbol without a name has none. *)
Definition key_pieces (tk : termkey) (k : key) (format : Z) : option (list piece) :=
  match type k with
  | UNICODE => Some [Text (utf8_text (if bool_decide (head (utf8 k) = Some 0) then fill_utf8 k else k))]
  | KEYSYM =>
      name ← termkey_get_keyname tk (sym k);
      name ← name;
      Some [if flag format FORMAT_LOWERSPACE then Camel name else Text name]
  | FUNCTION => Some [Text ((if flag format FORMAT_LOWERSPACE then "f"%char else "F"%char) :: print_dec (i32 (kcode k)))]
  | MOUSE =>
      '(_, event) ← termkey_interpret_mouse k;
      '(ev, button, line, col) ← event;
      name ← evnames !! event_number ev;
      Some (Text (B "Mouse" ++ name ++ B "(" ++ print_dec button ++ B ")") ::
            (if flag format FORMAT_MOUSE_POS then [Text (B " @ (" ++ print_dec col ++ B "," ++ print_dec line ++ B ")")] else []))
  | POSITION => Some [Text (B "Position")]
  | MODEREPORT =>
      '(_, report) ← termkey_interpret_modereport k;
      '(initial, mode, value) ← report;
      Some [Text (B "Mode(" ++ (if initial =? 0 then [] else [chr initial]) ++ print_dec mode ++ B "=" ++ print_dec value ++ B ")")]
  | DCS => Some [Text (B "DCS")]
  | OSC => Some [Text (B "OSC")]
  | UNKNOWN_CSI => Some [Text (B "CSI " ++ [chr (Z.land (i32 (kcode k)) 0xff)])]
  end.

Definition has_mod (m : Z) (k : key) : bool := negb (Z.land (modifiers k) m =? 0).

Definition mod_pieces (mods : modnames) (sep : ascii) (k : key) : list piece :=
  (if has_mod KEYMOD_ALT k then [Text (alt mods ++ [sep])] else []) ++
  (if has_mod KEYMOD_CTRL k then [Text (ctrl mods ++ [sep])] else []) ++
  (if has_mod KEYMOD_SHIFT k then [Text (shift mods ++ [sep])] else []).

(** Ctrl with a letter or one of its neighbours, after a caret. *)
Definition caret_letter (k : key) (format : Z) : option ascii :=
  let c := kcode k in
  if flag format FORMAT_CARETCTRL && bool_decide (type k = UNICODE) && (modifiers k =? KEYMOD_CTRL) then
    if (97 <=? c) && (c <=? 122) then Some (chr (c - 0x20))
    else if (64 <=? c) && (c <? 65) || (90 <? c) && (c <=? 95) then Some (chr c)
    else None
  else None.

Definition wrapbracket (k : key) (format : Z) : bool :=
  flag format FORMAT_WRAPBRACKET && (negb (bool_decide (type k = UNICODE)) || negb (modifiers k =? 0)).

(** All that a key prints. *)
Definition strfkey_pieces (tk : termkey) (k : key) (format : Z) : option (list piece) :=
  let wrap := wrapbracket k format in
  match caret_letter k format with
  | Some c => Some [Text (if wrap then B "<^" ++ [c] ++ B ">" else B "^" ++ [c])]
  | None =>
      mods ← mods_of format;
      ps ← key_pieces tk k format;
      Some ((if wrap then [Text (B "<")] else []) ++ mod_pieces mods (sep_of format) k ++ ps ++ (if wrap then [Text (B ">")] else []))
  end.

(** The caller's key gets its bytes when it has none. *)
Definition strfkey_key (k : key) (format : Z) : key :=
  match caret_letter k format with
  | Some _ => k
  | None => if bool_decide (type k = UNICODE) && bool_decide (head (utf8 k) = Some 0) then fill_utf8 k else k
  end.

(** The length of the text, the buffer and the key. *)
Definition termkey_strfkey (tk : termkey) (buf : bstr) (k : key) (format : Z) : option (nat * bstr * key) :=
  ps ← strfkey_pieces tk k format;
  '(n, buf) ← put_pieces ps buf 0;
  Some (n, buf, strfkey_key k format).

Definition termkey_snprint_key : termkey -> bstr -> key -> Z -> option (nat * bstr * key) := termkey_strfkey.

(** ** Reading *)

(** The modifiers in front of the text, one after the other. *)
Fixpoint strip_mods (fuel : nat) (mods : modnames) (sep : ascii) (m : Z) (str : bstr) : Z * bstr :=
  match fuel with
  | O => (m, str)
  | S fuel =>
      match split_at str sep with
      | None => (m, str)
      | Some (name, rest) =>
          if streq name (alt mods) then strip_mods fuel mods sep (Z.lor m KEYMOD_ALT) rest
          else if streq name (ctrl mods) then strip_mods fuel mods sep (Z.lor m KEYMOD_CTRL) rest
          else if streq name (shift mods) then strip_mods fuel mods sep (Z.lor m KEYMOD_SHIFT) rest
          else (m, str)
      end
  end.

(** [%d] and [%u]. *)
Definition scan_d (s : bstr) : option (Z * bstr) :=
  let '(_, s1) := scan_sign (skip_space s) in
  let '(_, any, rest) := scan_digits 0 false s1 in
  if (any : bool) then Some (i32 (st_value (strtoll s)), rest) else None.

Definition scan_u (s : bstr) : option (Z * bstr) :=
  let '(_, s1) := scan_sign (skip_space s) in
  let '(_, any, rest) := scan_digits 0 false s1 in
  if (any : bool) then Some (u32 (st_value (strtoull s)), rest) else None.

Definition expect (c : ascii) (s : bstr) : option bstr :=
  match s with x :: s => if bool_decide (x = c) then Some s else None | [] => None end.

(** [%31[^(]] *)
Fixpoint scan_event (n : nat) (s : bstr) : bstr * bstr :=
  match n, s with
  | S n, c :: s' => if bool_decide (c = "("%char) then ([], s) else let '(name, rest) := scan_event n s' in (c :: name, rest)
  | _, _ => ([], s)
  end.

(** Event name and button, and the text behind the closing bracket if it is there. *)
Definition scan_mouse (str : bstr) : option (bstr * Z * option bstr) :=
  if negb (strneq str (B "Mouse") 5) then None
  else
    match scan_event 31 (drop 5 str) with
    | ([], _) => None
    | (name, rest) => rest ← expect "(" rest; '(button, rest) ← scan_d rest; Some (name, button, expect ")" rest)
    end.

(** Column and line, and the text behind them. *)
Definition scan_position (str : bstr) : option (Z * Z * option bstr) :=
  rest ← expect "@" (skip_space str);
  rest ← expect "(" (skip_space rest);
  '(col, rest) ← scan_u rest;
  rest ← expect "," rest;
  '(line, rest) ← scan_u rest;
  Some (col, line, expect ")" rest).

Fixpoint event_of (names : list bstr) (i : nat) (name : bstr) : nat :=
  match names with
  | [] => 0
  | n :: names => if streq n name then i else event_of names (S i) name
  end.

Definition mouse_code (name : bstr) (button : Z) : Z :=
  match event_of evnames 0 name with
  | 1%nat => button - 1
  | 2%nat => Z.lor (button - 1) 0x20
  | 3%nat => 3
  | _ => 128
  end.

(** [str] begins with the [n] bytes that were read for the event; when the position has no
    closing bracket their number is added again. *)
Definition parse_mouse (str : bstr) (k : key) (format : Z) (name : bstr) (button : Z) (rest : bstr) : option (option bstr * key) :=
  let k := set_type MOUSE k in
  let k := set_mouse (<[0%nat := byte (mouse_code name button)]> (mouse k)) k in
  let n := (length str - length rest)%nat in
  if flag format FORMAT_MOUSE_POS then
    match scan_position rest with
    | Some (col, line, after) =>
        let k := termkey_key_set_linecol k (i32 col) (i32 line) in
        match after with
        | Some after => Some (Some after, k)
        | None => if (length rest <? n)%nat then None else Some (Some (drop n rest), k)
        end
    | None => Some (Some rest, termkey_key_set_linecol k 0 0)
    end
  else Some (Some rest, termkey_key_set_linecol k 0 0).

(** The alternatives behind the modifiers.  Without text the NUL itself is a character,
    and the text that is left begins behind it. *)
Definition parse_name (tk : termkey) (str : bstr) (k : key) (format : Z) : option (option bstr * key) :=
  let '(sym, found) := termkey_lookup_keyname_format tk str format in
  let k := set_code sym k in
  match found with
  | Some rest => Some (Some rest, set_type KEYSYM k)
  | None =>
      match s ← expect "F" str; scan_d s with
      | Some (number, rest) => Some (Some rest, set_type FUNCTION (set_code number k))
      | None =>
          match scan_mouse str with
          | Some (name, button, rest) => rest ← rest; parse_mouse str k format name button rest
          | None =>
              p ← parse_utf8 (map code str ++ [0]) (length str);
              match p with
              | Utf8Char cp n => if (length str <? n)%nat then None else Some (Some (drop n str), fill_utf8 (set_type UNICODE (set_code cp k)))
              | Utf8Again cp => Some (None, set_code cp k)
              end
          end
      end
  end.

Definition strpkey_plain (tk : termkey) (str : bstr) (k : key) (format : Z) : option (option bstr * key) :=
  mods ← mods_of format;
  let '(m, str) := strip_mods (S (length str)) mods (sep_of format) 0 str in
  '(rest, k) ← parse_name tk str (set_modifiers m k) format;
  Some (match rest with Some rest => (Some rest, termkey_canonicalise tk k) | None => (None, k) end).

(** [None] inside is the failure NULL. *)
Definition termkey_strpkey (tk : termkey) (str : bstr) (k : key) (format : Z) : option (option bstr * key) :=
  let k := set_modifiers 0 k in
  match str with
  | c :: _ :: _ =>
      if flag format FORMAT_CARETCTRL && bool_decide (c = "^"%char) then
        '(rest, k) ← strpkey_plain tk (tail str) k (Z.land format (Z.lnot FORMAT_CARETCTRL));
        if negb (bool_decide (is_Some rest)) || negb (bool_decide (type k = UNICODE)) || (kcode k <? 64) || (95 <? kcode k) || negb (modifiers k =? 0)
        then Some (None, k)
        else
          let k := if (65 <=? kcode k) && (kcode k <=? 90) then set_code (kcode k + 0x20) k else k in
          Some (rest, fill_utf8 (set_modifiers KEYMOD_CTRL k))
      else strpkey_plain tk str k format
  | _ => strpkey_plain tk str k format
  end.

(** ** Comparing *)

Definition type_number (t : key_type) : Z :=
  match t with
  | UNICODE => 0 | FUNCTION => 1 | KEYSYM => 2 | MOUSE => 3 | POSITION => 4 | MODEREPORT => 5 | DCS => 6 | OSC => 7 | UNKNOWN_CSI => -1
  end.

(** [strncmp] of the four bytes, which a zero byte ends. *)
Fixpoint bytes_cmp (a b : list Z) : Z :=
  match a, b with
  | x :: a, y :: b => if x =? y then (if x =? 0 then 0 else bytes_cmp a b) else x - y
  | _, _ => 0
  end.

(** [apart] is the difference of the two pointers. *)
Definition termkey_keycmp (tk : termkey) (key1 key2 : key) (apart : Z) : option Z :=
  let k1 := termkey_canonicalise tk key1 in
  let k2 := termkey_canonicalise tk key2 in
  let by_modifiers := Some (modifiers k1 - modifiers k2) in
  if negb (bool_decide (type k1 = type k2)) then Some (type_number (type k1) - type_number (type k2))
  else
    match type k1 with
    | UNICODE => if kcode k1 =? kcode k2 then by_modifiers else Some (i32 (kcode k1 - kcode k2))
    | KEYSYM => if sym k1 =? sym k2 then by_modifiers else Some (sym k1 - sym k2)
    | FUNCTION | UNKNOWN_CSI => if i32 (kcode k1) =? i32 (kcode k2) then by_modifiers else Some (i32 (kcode k1) - i32 (kcode k2))
    | MOUSE => let c := bytes_cmp (mouse k1) (mouse k2) in if c =? 0 then by_modifiers else Some c
    | POSITION =>
        '(line1, col1) ← termkey_key_get_linecol k1;
        '(line2, col2) ← termkey_key_get_linecol k2;
        Some (if line1 =? line2 then col1 - col2 else line1 - line2)
    | DCS | OSC => Some apart
    | MODEREPORT =>
        '(_, r1) ← termkey_interpret_modereport k1; '(_, r2) ← termkey_interpret_modereport k2;
        '(initial1, mode1, value1) ← r1; '(initial2, mode2, value2) ← r2;
        Some (if initial1 =? initial2 then (if mode1 =? mode2 then value1 - value2 else mode1 - mode2) else initial1 - initial2)
    end.

(** ** Within the buffer *)

Lemma put_text s buf pos : (pos < length buf)%nat ->
  put_piece (Text s) buf pos =
    Some (length s, take pos buf ++ take (length buf - pos - 1) s ++ NUL :: drop (pos + length (take (length buf - pos - 1) s) + 1) buf).
Proof.
  intros Hp. unfold put_piece. replace (Z.of_nat (length buf) - Z.of_nat pos <? 0) with false by lia.
  replace (Z.of_nat (length buf) - Z.of_nat pos =? 0) with false by lia.
  by replace (Z.to_nat (Z.of_nat (length buf) - Z.of_nat pos) - 1)%nat with (length buf - pos - 1)%nat by lia.
Qed.

Lemma put_text_at_end s buf : put_piece (Text s) buf (length buf) = Some (length s, buf).
Proof. unfold put_piece. by rewrite Z.sub_diag. Qed.

(** A text never makes the buffer longer, and fails only when it begins behind it. *)
Lemma put_text_bounds s buf pos :
  (put_piece (Text s) buf pos = None /\ (length buf < pos)%nat) \/
  ((pos <= length buf)%nat /\ exists buf', put_piece (Text s) buf pos = Some (length s, buf') /\ length buf' = length buf).
Proof.
  destruct (lt_eq_lt_dec pos (length buf)) as [[Hp | ->] | Hp].
  - right. split; [lia |]. rewrite put_text by done. eexists. split; [done |].
    rewrite !length_app. cbn [length]. rewrite length_take, length_drop. pose proof (length_take s (length buf - pos - 1)) as Hl. lia.
  - right. split; [done |]. rewrite put_text_at_end. by eexists.
  - left. split; [| done]. unfold put_piece. by replace (Z.of_nat (length buf) - Z.of_nat pos <? 0) with true by lia.
Qed.

Lemma put_pieces_cons p ps buf pos :
  put_pieces (p :: ps) buf pos = ('(l, buf) ← put_piece p buf pos; if (l =? 0)%nat then Some (pos, buf) else put_pieces ps buf (pos + l)).
Proof. done. Qed.

(** Texts that fit come to stand one behind the other. *)
Lemma put_texts s ss : forall buf pos, Forall (fun t => t <> []) (s :: ss) -> (pos + length (concat (s :: ss)) < length buf)%nat ->
  put_pieces (map Text (s :: ss)) buf pos =
    Some (pos + length (concat (s :: ss)), take pos buf ++ concat (s :: ss) ++ NUL :: drop (pos + length (concat (s :: ss)) + 1) buf)%nat.
Proof.
  revert s. induction ss as [| s' ss IH]; intros s buf pos [Hs Hss]%Forall_cons Hfit; rewrite map_cons, put_pieces_cons; rewrite concat_cons, length_app in Hfit;
    rewrite put_text by lia; rewrite (take_ge s) by lia; cbn [mbind option_bind]; (rewrite (proj2 (Nat.eqb_neq _ _)) by (by destruct s)).
  - cbn [concat map put_pieces]. by rewrite app_nil_r.
  - set (buf1 := take pos buf ++ s ++ NUL :: drop (pos + length s + 1) buf).
    assert (length buf1 = length buf) as Hl1 by (unfold buf1; rewrite !length_app; cbn [length]; rewrite length_take, length_drop; lia).
    rewrite IH by (done || rewrite Hl1; lia).
    change (concat (s :: s' :: ss)) with (s ++ concat (s' :: ss)). set (t := concat (s' :: ss)) in *. rewrite (length_app s). f_equal. f_equal; [lia |].
    assert (take (pos + length s) buf1 = take pos buf ++ s) as ->.
    { unfold buf1. rewrite app_assoc. apply take_app_length'. rewrite length_app, length_take. lia. }
    rewrite <- !app_assoc. do 4 f_equal. unfold buf1. rewrite app_assoc, drop_app_ge by (rewrite length_app, length_take; lia).
    replace (pos + length s + length t + 1 - length (take pos buf ++ s))%nat with (S (length t)) by (rewrite length_app, length_take; lia).
    cbn [drop skipn]. rewrite drop_drop. f_equal. lia.
Qed.

(** The text of a key is written within the buffer exactly when all but its last piece
    fit into it; a longer one makes the length that is left wrap around. *)
Lemma put_texts_bounds last ss : forall buf pos, Forall (fun t => t <> []) ss -> last <> [] -> (pos <= length buf)%nat ->
  match put_pieces (map Text (ss ++ [last])) buf pos with
  | Some (n, buf') => n = (pos + length (concat ss) + length last)%nat /\ length buf' = length buf /\ (pos + length (concat ss) <= length buf)%nat
  | None => (length buf < pos + length (concat ss))%nat
  end.
Proof.
  induction ss as [| s ss IH]; intros buf pos Hss Hlast Hpos; cbn [app map put_pieces].
  - destruct (put_text_bounds last buf pos) as [[_ ?] | (_ & buf' & -> & Hl)]; [lia |]. cbn [mbind option_bind concat length].
    rewrite (proj2 (Nat.eqb_neq _ _)) by (by destruct last). split_and!; [lia | done | lia].
  - apply Forall_cons in Hss as [Hs Hss]. destruct (put_text_bounds s buf pos) as [[_ ?] | (_ & buf' & -> & Hl)]; [lia |].
    cbn [mbind option_bind concat]. rewrite (proj2 (Nat.eqb_neq _ _)) by (by destruct s). rewrite length_app.
    destruct (decide (pos + length s <= length buf))%nat as [Hle | Hgt].
    + specialize (IH buf' (pos + length s)%nat Hss Hlast ltac:(lia)). destruct (put_pieces _ _ _) as [[n b] |]; lia.
    + assert (exists p ps, map Text (ss ++ [last]) = Text p :: ps) as (p & ps & ->) by (destruct ss; cbn; eauto).
      cbn [put_pieces]. destruct (put_text_bounds p buf' (pos + length s)) as [[-> _] | [? _]]; cbn; lia.
Qed.

(** ** What is printed is read back *)

(** The names of a decoder that has been set up. *)
Definition std_names : list (option bstr) := match termkey_init termkey_alloc with Some t => keynames t | None => [] end.

Lemma split_at_name (name : bstr) (sep : ascii) (t : bstr) : sep ∉ name -> split_at (name ++ sep :: t) sep = Some (name, t).
Proof.
  induction name as [| c name IH]; intros Hn; cbn [app split_at]; [by rewrite bool_decide_eq_true_2 |].
  apply not_elem_of_cons in Hn as [Hc Hn]. rewrite bool_decide_eq_false_2 by congruence. by rewrite IH.
Qed.

#[local] Definition without (sep : ascii) (n : bstr) : bool := forallb (fun c => negb (bool_decide (c = sep))) n.

Lemma without_sep (n : bstr) (sep : ascii) : without sep n = true -> sep ∉ n.
Proof.
  intros Hw Hin. unfold without in Hw. rewrite forallb_forall in Hw. specialize (Hw sep (proj1 (list_elem_of_In _ _) Hin)).
  by rewrite bool_decide_eq_true_2 in Hw.
Qed.

(** Modifiers that can be told apart. *)
#[local] Definition good_mods (mods : modnames) (sep : ascii) : bool :=
  (without sep (alt mods) && without sep (ctrl mods) && without sep (shift mods)) &&
  (negb (streq [] (alt mods)) && negb (streq [] (ctrl mods)) && negb (streq [] (shift mods))) &&
  forallb (fun n => negb (streq (take 1 n) (B "^"))) [alt mods; ctrl mods; shift mods] &&
  (negb (streq (ctrl mods) (alt mods)) && negb (streq (shift mods) (alt mods)) && negb (streq (shift mods) (ctrl mods))).

Lemma mods_are_good format : exists mods, mods_of format = Some mods /\ good_mods mods (sep_of format) = true.
Proof.
  unfold mods_of, mods_index, sep_of.
  destruct (flag format FORMAT_LONGMOD), (flag format FORMAT_ALTISMETA), (flag format FORMAT_LOWERMOD), (flag format FORMAT_SPACEMOD);
    (eexists; split; [reflexivity | vm_compute; reflexivity]).
Qed.

(** Text that no modifier is in front of. *)
#[local] Definition bare (sep : ascii) (t : bstr) : Prop := split_at t sep = None \/ exists r, split_at t sep = Some ([], r).

Lemma strip_bare fuel mods sep m t : good_mods mods sep = true -> bare sep t -> strip_mods (S fuel) mods sep m t = (m, t).
Proof.
  unfold good_mods. rewrite !andb_true_iff, !negb_true_iff. intros [[[_ [[H1 H2] H3]] _] _] [Hb | [r Hb]]; cbn [strip_mods]; rewrite Hb; [done |].
  by rewrite H1, H2, H3.
Qed.

(** The bytes of the modifiers in their order. *)
#[local] Definition mod_text (mods : modnames) (sep : ascii) (k : key) : list bstr :=
  (if has_mod KEYMOD_ALT k then [alt mods ++ [sep]] else []) ++
  (if has_mod KEYMOD_CTRL k then [ctrl mods ++ [sep]] else []) ++
  (if has_mod KEYMOD_SHIFT k then [shift mods ++ [sep]] else []).

Lemma mod_pieces_text mods sep k : mod_pieces mods sep k = map Text (mod_text mods sep k).
Proof. unfold mod_pieces, mod_text. by destruct (has_mod KEYMOD_ALT k), (has_mod KEYMOD_CTRL k), (has_mod KEYMOD_SHIFT k). Qed.

(** One modifier in front of the text. *)
Lemma strip_one fuel mods sep m name t : sep ∉ name ->
  strip_mods (S fuel) mods sep m ((name ++ [sep]) ++ t) =
    if streq name (alt mods) then strip_mods fuel mods sep (Z.lor m KEYMOD_ALT) t
    else if streq name (ctrl mods) then strip_mods fuel mods sep (Z.lor m KEYMOD_CTRL) t
    else if streq name (shift mods) then strip_mods fuel mods sep (Z.lor m KEYMOD_SHIFT) t
    else (m, (name ++ [sep]) ++ t).
Proof. intros Hn. cbn [strip_mods]. rewrite <- app_assoc. cbn [app]. by rewrite split_at_name. Qed.

#[local] Definition mod_bits (k : key) : Z :=
  Z.lor (if has_mod KEYMOD_ALT k then KEYMOD_ALT else 0)
    (Z.lor (if has_mod KEYMOD_CTRL k then KEYMOD_CTRL else 0) (if has_mod KEYMOD_SHIFT k then KEYMOD_SHIFT else 0)).

Lemma bits_of_modifiers k : 0 <= modifiers k < 8 -> mod_bits k = modifiers k.
Proof.
  unfold mod_bits, has_mod. generalize (modifiers k). intros m Hm.
  assert (m ∈ [0; 1; 2; 3; 4; 5; 6; 7]) as Hin by (rewrite !elem_of_cons; lia). clear Hm.
  repeat (apply elem_of_cons in Hin as [-> | Hin]; [reflexivity |]). by apply elem_of_nil in Hin.
Qed.

(** All modifiers are taken off. *)
Lemma strip_text fuel mods sep k t : good_mods mods sep = true -> bare sep t ->
  strip_mods (4 + fuel) mods sep 0 (concat (mod_text mods sep k) ++ t) = (mod_bits k, t).
Proof.
  intros Hg Hb. pose proof Hg as Hg'. unfold good_mods in Hg'. rewrite !andb_true_iff, !negb_true_iff in Hg'.
  destruct Hg' as [[[[[Ha Hc] Hs] _] _] [[Hca Hsa] Hsc]]. apply without_sep in Ha, Hc, Hs.
  assert (forall x, streq x x = true) as Hr by apply streq_refl. unfold mod_text, mod_bits. change (4 + fuel)%nat with (S (S (S (S fuel)))).
  destruct (has_mod KEYMOD_ALT k), (has_mod KEYMOD_CTRL k), (has_mod KEYMOD_SHIFT k); cbn [app concat]; rewrite ?app_nil_r;
    repeat first [rewrite strip_bare by done | rewrite <- (app_assoc (_ ++ [sep])), strip_one by done | rewrite strip_one by done
                 | rewrite Hr | rewrite Hca | rewrite Hsa | rewrite Hsc]; done.
Qed.

Lemma split_at_shorter s sep : forall name rest, split_at s sep = Some (name, rest) -> (length rest < length s)%nat.
Proof.
  induction s as [| c s IH]; intros name rest; cbn [split_at length]; [done |]. case_match; [intros [= <- <-]; lia |].
  destruct (split_at s sep) as [[a b] |] eqn:E; cbn [mbind option_bind]; [| done]. intros [= <- <-]. specialize (IH _ _ eq_refl). lia.
Qed.

Lemma strip_fuel mods sep f : forall f' m s, (length s < f)%nat -> (length s < f')%nat -> strip_mods f mods sep m s = strip_mods f' mods sep m s.
Proof.
  induction f as [| f IH]; intros [| f'] m s Hf Hf'; [lia.. |]. cbn [strip_mods]. destruct (split_at s sep) as [[name rest] |] eqn:E; [| done].
  apply split_at_shorter in E. repeat case_match; try apply IH; (done || lia).
Qed.

(** No name of the list is in front of the text. *)
#[local] Definition name_ok (n : option bstr) : bool :=
  match n with
  | None => true
  | Some (a :: b :: _) => (code a <? 128) && negb (bool_decide (a = "F"%char) && isdigit b)
  | _ => false
  end.

#[local] Definition not_a_name (s : bstr) : Prop :=
  forall a b r, s = a :: b :: r -> 128 <= code a \/ a = "F"%char /\ isdigit b = true.

Lemma lookup_none names sym s : forallb name_ok names = true -> not_a_name s -> lookup_from names sym s false = (sym + Z.of_nat (length names), None).
Proof.
  intros Hn Hs. revert sym Hn. induction names as [| [n |] names IH]; intros sym; cbn [forallb lookup_from length];
    [intros _; f_equal; lia | | intros [_ Hn]%andb_true_iff; rewrite IH by done; f_equal; lia].
  intros [Hok Hn]%andb_true_iff. replace (strneq s n (length n)) with false; [rewrite IH by done; f_equal; lia |].
  symmetry. unfold strneq. apply streq_false. intros E. rewrite (take_ge n) in E by done. destruct n as [| a [| b n]]; [done.. |].
  destruct s as [| x [| y s]]; [done.. |]. cbn in E. injection E as -> -> _. cbn [name_ok] in Hok. apply andb_true_iff in Hok as [H1 H2].
  destruct (Hs a b s eq_refl) as [H | [-> Hd]]; [lia |]. rewrite Hd in H2. by rewrite bool_decide_eq_true_2 in H2.
Qed.

Lemma std_names_ok : forallb name_ok std_names = true.
Proof. vm_compute. reflexivity. Qed.

(** The name of a symbol is found as its own, and no separator is in it. *)
#[local] Definition finds_itself (names : list (option bstr)) (i : nat) : bool :=
  match nth i names None with
  | None => false
  | Some n =>
      negb (streq n []) && without " " n && without "-" n &&
      match lookup_from names 0 n false with (sym, Some []) => sym =? Z.of_nat i | _ => false end
  end.

Lemma name_found names i : finds_itself names i = true -> exists n, names !! i = Some (Some n) /\ n <> [] /\ without " " n = true /\ without "-" n = true /\
  lookup_from names 0 n false = (Z.of_nat i, Some []).
Proof.
  unfold finds_itself. rewrite nth_lookup. destruct (names !! i) as [[n |] |]; cbn; [| discriminate..].
  rewrite !andb_true_iff. intros [[[H1 H2] H3] H4]. exists n. destruct (lookup_from names 0 n false) as [sym [[|] |]]; [| discriminate..].
  apply Z.eqb_eq in H4 as ->. split_and!; [done | by intros -> | done..].
Qed.

Lemma names_find_themselves : forallb (finds_itself std_names) (seq 1 59) = true.
Proof. vm_compute. reflexivity. Qed.

#[local] Opaque std_names.

(** ** The three kinds of text *)

Lemma encode_low cp : 0 <= cp < 128 -> utf8_encode cp = [cp].
Proof.
  intros H. rewrite utf8_encode_conts. unfold utf8_seqlen. replace (cp <? 128) with true by lia. cbn. rewrite Z.div_1_r.
  change 127 with (2 ^ 7 - 1). by rewrite land_pow2, Z.mod_small by lia.
Qed.

Lemma conts_high n z : Forall (fun x => 128 <= x < 256) (TermKey.conts n z).
Proof.
  revert z. induction n as [| n IH]; intros z; [constructor |]. cbn [TermKey.conts]. apply Forall_app. split; [apply IH |].
  constructor; [| constructor]. unfold TermKey.cont. pose proof (Z.mod_pos_bound z 64). lia.
Qed.

Lemma encode_high cp : 128 <= cp < 2 ^ 31 -> Forall (fun x => 128 <= x < 256) (utf8_encode cp).
Proof.
  intros H. rewrite utf8_encode_conts. destruct (seqlen_bounds cp ltac:(lia)) as [[_ ?] | [Hn Hx]]; [lia |].
  rewrite lead_sum by done. constructor; [| apply conts_high]. unfold TermKey.lead_base.
  revert Hn Hx. generalize (cp / 64 ^ Z.of_nat (utf8_seqlen cp - 1)). intros x Hn Hx.
  destruct (utf8_seqlen cp) as [| [| [| [| [| [| [| n]]]]]]]; try lia; cbn in Hx |- *; lia.
Qed.

(** Characters below the separators of UTF-8 are one byte, the others high bytes only. *)
Lemma char_text cp : scalar cp = true -> 0 < cp -> exists c t, map chr (utf8_encode cp) = c :: t /\ map code (c :: t) = utf8_encode cp /\
  (t = [] /\ cp < 128 \/ Forall (fun c => 128 <= code c) (c :: t)).
Proof.
  intros Hs H0. assert (0 <= cp < 2 ^ 31) as Hr by (unfold scalar in Hs; lia).
  assert (Forall (fun x => 0 < x < 256) (utf8_encode cp)) as Hb.
  { destruct (decide (cp < 128)); [rewrite encode_low by lia; by repeat constructor; lia |]. eapply Forall_impl; [apply encode_high; lia |]. cbn. lia. }
  assert (map code (map chr (utf8_encode cp)) = utf8_encode cp) as Hc.
  { rewrite map_map. rewrite <- (map_id (utf8_encode cp)) at 2. apply map_ext_in. intros x Hx. rewrite Forall_forall in Hb.
    specialize (Hb x (proj2 (list_elem_of_In _ _) Hx)). cbn in Hb. rewrite code_chr, Z.mod_small; lia. }
  destruct (encode_first cp Hs) as (b & tail & E). exists (chr b), (map chr tail). rewrite E in *. split; [done |]. split; [done |].
  destruct (decide (cp < 128)) as [Hlt | Hge].
  - left. rewrite encode_low in E by lia. injection E as <- <-. done.
  - right. pose proof (encode_high cp ltac:(lia)) as Hh. rewrite E in Hh. change (chr b :: map chr tail) with (map chr (b :: tail)).
    rewrite <- Hc in Hh. rewrite Forall_map in Hh. eapply Forall_impl; [exact Hh |]. cbn. lia.
Qed.

(** What a key is, without its bytes. *)
Definition same_key (k k' : key) : Prop := type k' = type k /\ kcode k' = kcode k /\ modifiers k' = modifiers k.

Lemma canonicalise_same tk k k' : same_key k k' -> same_key (termkey_canonicalise tk k) (termkey_canonicalise tk k').
Proof.
  unfold same_key. intros (Ht & Hc & Hm). unfold termkey_canonicalise, sym.
  destruct (flag (canonflags tk) CANON_SPACESYMBOL), (flag (canonflags tk) CANON_DELBS); rewrite Ht, Hc;
    destruct (bool_decide (type k = UNICODE) && (kcode k =? 32)), (bool_decide (type k = KEYSYM) && (i32 (kcode k) =? SYM_SPACE));
    cbn [type kcode modifiers set_type set_code set_utf8 fill_utf8]; rewrite ?Ht, ?Hc; try case_match; cbn [type kcode modifiers set_type set_code set_utf8 fill_utf8]; by rewrite ?Ht, ?Hc, ?Hm.
Qed.

Lemma scan_d_print z : 0 <= z < 2 ^ 31 -> scan_d (print_nat z) = Some (z, []).
Proof.
  intros Hz. pose proof (scan_sign_print z) as Hp. pose proof (strtoll_print z) as Hs. unfold print_dec in Hp, Hs.
  replace (z <? 0) with false in Hp, Hs by lia. unfold scan_d. rewrite Hp, Z.abs_eq, (proj2 (print_nat_spec z ltac:(lia))) by lia.
  rewrite Hs by (unfold LLONG_MIN, LLONG_MAX; lia). cbn [st_value]. do 2 f_equal. unfold i32, swrap.
  change (2 ^ (32 - 1)) with 2147483648. change (2 ^ 32) with 4294967296. rewrite Z.mod_small; lia.
Qed.

Section Reading.

Context (tk : termkey) (format : Z).
Context (Hnames : keynames tk = std_names) (Hcamel : flag format FORMAT_LOWERSPACE = false).

Lemma parse_symbol s k : 1 <= s <= 59 -> exists n, termkey_get_keyname tk s = Some (Some n) /\ n <> [] /\ bare (sep_of format) n /\
  parse_name tk n k format = Some (Some [], set_type KEYSYM (set_code s k)).
Proof.
  intros Hs. pose proof names_find_themselves as Hall. rewrite forallb_forall in Hall. specialize (Hall (Z.to_nat s)).
  rewrite in_seq in Hall. apply name_found in Hall as (n & Hn & Hne & Hsp & Hmi & Hl); [| lia]. rewrite Z2Nat.id in Hl by lia. exists n. split_and!.
  - unfold termkey_get_keyname. rewrite Hnames, Hn. apply lookup_lt_Some in Hn. unfold SYM_UNKNOWN.
    replace (s =? -1) with false by lia. replace (s <? Z.of_nat (length std_names)) with true by lia. by replace (s <? 0) with false by lia.
  - done.
  - left. apply split_at_none, without_sep. unfold sep_of. by destruct (flag format FORMAT_SPACEMOD).
  - unfold parse_name, termkey_lookup_keyname_format. by rewrite Hcamel, Hnames, Hl.
Qed.

Lemma not_found s : not_a_name s -> exists i, termkey_lookup_keyname_format tk s format = (i, None).
Proof. intros Hs. unfold termkey_lookup_keyname_format. rewrite Hcamel, Hnames, lookup_none by (apply std_names_ok || done). eauto. Qed.

Lemma parse_function z k : 0 <= z < 2 ^ 31 -> bare (sep_of format) ("F"%char :: print_dec z) /\
  exists i, parse_name tk ("F"%char :: print_dec z) k format = Some (Some [], set_type FUNCTION (set_code z (set_code i k))).
Proof.
  intros Hz. unfold print_dec. replace (z <? 0) with false by lia. destruct (print_nat_spec z ltac:(lia)) as [Hd Hscan].
  destruct (print_nat_cons z ltac:(lia)) as (c & t & E & Hc). split.
  - left. apply split_at_none. intros [Hf | Hin]%elem_of_cons; [unfold sep_of in Hf; by destruct (flag format FORMAT_SPACEMOD) |].
    rewrite Forall_forall in Hd. specialize (Hd _ Hin). clear -Hd. unfold sep_of in Hd. by destruct (flag format FORMAT_SPACEMOD).
  - destruct (not_found ("F"%char :: print_nat z)) as [i Hi]; [rewrite E; intros a b r [= <- <- _]; right; split; [reflexivity | exact Hc] |].
    exists i. unfold parse_name. rewrite Hi. cbn [expect mbind option_bind]. rewrite bool_decide_eq_true_2 by done.
    cbn [mbind option_bind]. by rewrite scan_d_print by done.
Qed.

Lemma parse_char cp k : scalar cp = true -> 0 < cp -> let s := map chr (utf8_encode cp) in bare (sep_of format) s /\
  exists i, parse_name tk s k format = Some (Some [], fill_utf8 (set_type UNICODE (set_code cp (set_code i k)))).
Proof.
  intros Hs H0 s. destruct (char_text cp Hs H0) as (c & t & E & Hcode & Hkind). subst s. rewrite E.
  assert (code (sep_of format) < 128) as Hsep by (unfold sep_of; by destruct (flag format FORMAT_SPACEMOD)). split.
  - destruct Hkind as [[-> _] | Hall].
    + unfold bare. cbn [split_at mbind option_bind]. destruct (bool_decide (c = sep_of format)); eauto.
    + left. apply split_at_none. intros Hin. rewrite Forall_forall in Hall. specialize (Hall _ Hin). cbn in Hall. lia.
  - destruct (not_found (c :: t)) as [i Hi].
    { intros a b r [= <- ->]. destruct Hkind as [[? _] | Hall]; [discriminate |]. left. exact (Forall_inv Hall). }
    exists i. unfold parse_name. rewrite Hi.
    assert ((s ← expect "F" (c :: t); scan_d s) = None) as ->.
    { cbn [expect]. case_bool_decide as Hf; [| done]. subst c. destruct Hkind as [[-> _] | Hall]; [reflexivity |]. apply Forall_inv in Hall. exfalso. clear -Hall. by cbn in Hall. }
    assert (scan_mouse (c :: t) = None) as ->.
    { unfold scan_mouse. replace (strneq (c :: t) (B "Mouse") 5) with false; [done |]. symmetry. apply streq_false.
      destruct Hkind as [[-> _] | Hall]; [discriminate |]. apply Forall_inv in Hall. clear -Hall. intros [= -> _]. by cbn in Hall. }
    rewrite Hcode. pose proof (f_equal (@length _) Hcode) as Hl. rewrite length_map in Hl.
    rewrite parse_encode by (exact Hs || (rewrite Hl; apply le_n)). cbn [mbind option_bind]. rewrite <- Hl, Nat.ltb_irrefl. rewrite drop_all. reflexivity.
Qed.

End Reading.

(** ** The round trip *)

(** The keys that have a name: a character, a symbol of the table, or a function key. *)
Definition nameable (k : key) : Prop :=
  0 <= modifiers k < 8 /\
  match type k with
  | UNICODE => scalar (kcode k) = true /\ 0 < kcode k /\ (head (utf8 k) = Some 0 \/ exists rest, utf8 k = utf8_encode (kcode k) ++ 0 :: rest)
  | KEYSYM => 1 <= kcode k <= 59
  | FUNCTION => 0 <= kcode k < 2 ^ 31
  | _ => False
  end.

Lemma to_nul_app bytes rest : Forall (fun x => x <> 0) bytes -> to_nul (bytes ++ 0 :: rest) = Some bytes.
Proof.
  induction 1 as [| x bytes Hx Hb IH]; [done |]. cbn [app to_nul]. replace (x =? 0) with false by lia. by rewrite IH.
Qed.

Lemma char_nonzero cp : scalar cp = true -> 0 < cp -> Forall (fun x => x <> 0) (utf8_encode cp).
Proof.
  intros Hs H0. destruct (decide (cp < 128)); [rewrite encode_low by lia; by repeat constructor; lia |].
  eapply Forall_impl; [apply encode_high; unfold scalar in Hs; lia |]. cbn. lia.
Qed.

(** [^] with something behind it. *)
#[local] Definition careted (s : bstr) : bool := match s with c :: _ :: _ => bool_decide (c = "^"%char) | _ => false end.

Lemma char_not_careted cp : scalar cp = true -> 0 < cp -> careted (map chr (utf8_encode cp)) = false.
Proof.
  intros Hs H0. destruct (char_text cp Hs H0) as (c & t & -> & _ & [[-> _] | Hall]); [done |]. destruct t; [done |].
  apply bool_decide_eq_false_2. intros ->. apply Forall_inv in Hall. by cbn in Hall.
Qed.

Lemma name_not_careted n : (exists c, n !! 0%nat = Some c /\ c <> "^"%char) -> forall t, careted (n ++ t) = false.
Proof. intros (c & Hn & Hc) t. destruct n as [| x n]; [done |]. injection Hn as ->. cbn. case_match; [done |]. by apply bool_decide_eq_false_2. Qed.

Lemma names_without_caret : forallb (fun n => negb (streq (take 1 (default [] n)) (B "^"))) std_names = true.
Proof. vm_compute. reflexivity. Qed.

Lemma mods_not_careted mods sep k t : good_mods mods sep = true -> careted t = false -> careted (concat (mod_text mods sep k) ++ t) = false.
Proof.
  unfold good_mods. rewrite !andb_true_iff. intros [[[_ [[Ha Hc] Hs]] Hfirst] _] Ht. cbn [forallb] in Hfirst. rewrite !andb_true_iff, !negb_true_iff in *.
  destruct Hfirst as (Fa & Fc & Fs & _).
  assert (forall n r, streq [] n = false -> streq (take 1 n) (B "^") = false -> careted ((n ++ [sep]) ++ r) = false) as Hone.
  { intros [| c n] r Hn Hf; [done |]. apply name_not_careted. exists c. split; [done |]. intros ->. by cbn in Hf. }
  unfold mod_text. destruct (has_mod KEYMOD_ALT k), (has_mod KEYMOD_CTRL k), (has_mod KEYMOD_SHIFT k); cbn [app concat];
    rewrite <- ?(app_assoc (_ ++ [sep])); auto.
Qed.

Section RoundTrip.

Context (tk : termkey) (format : Z).
Context (Hnames : keynames tk = std_names) (Hcamel : flag format FORMAT_LOWERSPACE = false).

(** The text of the key without its modifiers, which is read as the same key. *)
Lemma nameable_text k : nameable k -> exists s, key_pieces tk k format = Some [Text s] /\ s <> [] /\ bare (sep_of format) s /\ careted s = false /\
  forall k0, exists k', parse_name tk s k0 format = Some (Some [], k') /\ type k' = type k /\ kcode k' = kcode k /\ modifiers k' = modifiers k0.
Proof.
  intros [_ Hk]. unfold key_pieces. destruct (type k) eqn:Et; try contradiction.
  - destruct Hk as (Hs & H0 & Hu). exists (map chr (utf8_encode (kcode k))). pose proof (char_nonzero _ Hs H0) as Hnz.
    assert (utf8_text (if bool_decide (head (utf8 k) = Some 0) then fill_utf8 k else k) = map chr (utf8_encode (kcode k))) as ->.
    { unfold utf8_text. case_bool_decide as Hh; [cbn [fill_utf8 set_utf8 utf8]; by rewrite to_nul_app |].
      destruct Hu as [? | [rest ->]]; [contradiction | by rewrite to_nul_app]. }
    split_and!; [reflexivity | | | by apply char_not_careted |].
    + destruct (encode_first _ Hs) as (b & tail & ->). discriminate.
    + apply (parse_char tk format Hnames Hcamel (kcode k) k Hs H0).
    + intros k0. destruct (parse_char tk format Hnames Hcamel (kcode k) k0 Hs H0) as [_ [i Hi]]. eexists. split; [exact Hi | split_and!; reflexivity].
  - assert (i32 (kcode k) = kcode k) as -> by (unfold i32, swrap; change (2 ^ (32 - 1)) with 2147483648; change (2 ^ 32) with 4294967296; rewrite Z.mod_small; lia).
    exists ("F"%char :: print_dec (kcode k)). rewrite Hcamel. split_and!; [reflexivity | discriminate | | |].
    + by apply (parse_function tk format Hnames Hcamel (kcode k) k).
    + destruct (print_dec_cons (kcode k)) as (c & t & ->). reflexivity.
    + intros k0. destruct (parse_function tk format Hnames Hcamel (kcode k) k0 Hk) as [_ [i Hi]]. eexists. split; [exact Hi | split_and!; reflexivity].
  - assert (sym k = kcode k) as -> by (unfold sym, i32, swrap; change (2 ^ (32 - 1)) with 2147483648; change (2 ^ 32) with 4294967296; rewrite Z.mod_small; lia).
    destruct (parse_symbol tk format Hnames Hcamel (kcode k) k Hk) as (n & Hn & Hne & Hb & _). exists n. rewrite Hn, Hcamel.
    split_and!; [reflexivity | exact Hne | exact Hb | |].
    + unfold termkey_get_keyname in Hn. rewrite Hnames in Hn. unfold SYM_UNKNOWN in Hn. replace (kcode k =? -1) with false in Hn by lia.
      pose proof names_without_caret as Hall. rewrite forallb_forall in Hall.
      destruct (kcode k <? Z.of_nat (length std_names)) eqn:El.
      * replace (kcode k <? 0) with false in Hn by lia. apply list_elem_of_lookup_2, list_elem_of_In, Hall in Hn. cbn in Hn.
        destruct n as [| c [|]]; [done | done |]. apply bool_decide_eq_false_2. intros ->. by cbn in Hn.
      * injection Hn as <-. reflexivity.
    + intros k0. destruct (parse_symbol tk format Hnames Hcamel (kcode k) k0 Hk) as (n' & Hn' & _ & _ & Hp). rewrite Hn in Hn'. injection Hn' as <-.
      eexists. split; [exact Hp | split_and!; reflexivity].
Qed.

(** Modifiers and text together. *)
Lemma strpkey_plain_text mods k s k0 : mods_of format = Some mods -> good_mods mods (sep_of format) = true -> nameable k -> bare (sep_of format) s ->
  (forall k0, exists k', parse_name tk s k0 format = Some (Some [], k') /\ type k' = type k /\ kcode k' = kcode k /\ modifiers k' = modifiers k0) ->
  exists k', strpkey_plain tk (concat (mod_text mods (sep_of format) k) ++ s) k0 format = Some (Some [], k') /\ same_key (termkey_canonicalise tk k) k'.
Proof.
  intros Hm Hg [Hr _] Hb Hparse. unfold strpkey_plain. rewrite Hm. cbn [mbind option_bind].
  set (str := concat _ ++ s). rewrite (strip_fuel _ _ (S (length str)) (4 + length str)) by lia. unfold str at 2. rewrite strip_text by done.
  rewrite bits_of_modifiers by done. destruct (Hparse (set_modifiers (modifiers k) k0)) as (k' & -> & Ht & Hc & Hmod). cbn [mbind option_bind].
  eexists. split; [done |]. apply canonicalise_same. by split_and!.
Qed.

End RoundTrip.

Lemma canonicalise_char tk k : type k = UNICODE -> kcode k <> 32 -> termkey_canonicalise tk k = k.
Proof.
  intros Ht Hc. unfold termkey_canonicalise. rewrite Ht. replace (kcode k =? 32) with false by lia. rewrite andb_false_r.
  change (bool_decide (UNICODE = KEYSYM)) with false. cbn [andb].
  destruct (flag (canonflags tk) CANON_SPACESYMBOL); rewrite Ht; change (bool_decide (UNICODE = KEYSYM)) with false; cbn [andb]; case_match; reflexivity.
Qed.

(** Ctrl with a caret. *)
Lemma caret_read tk format k c k0 : keynames tk = std_names -> flag format FORMAT_LOWERSPACE = false -> caret_letter k format = Some c ->
  exists k', termkey_strpkey tk (B "^" ++ [c]) k0 format = Some (Some [], k') /\ same_key (termkey_canonicalise tk k) k'.
Proof.
  unfold caret_letter. intros Hnames Hcamel. destruct (flag format FORMAT_CARETCTRL) eqn:Hf; [| discriminate]. cbn [andb].
  case_bool_decide as Ht; [| discriminate]. destruct (Z.eqb_spec (modifiers k) KEYMOD_CTRL) as [Hm |]; [| discriminate]. cbn [andb].
  intros Hc. assert (exists v, c = chr v /\ 64 <= v <= 95 /\ kcode k = (if (65 <=? v) && (v <=? 90) then v + 32 else v)) as (v & -> & Hv & Hk).
  { destruct ((97 <=? kcode k) && (kcode k <=? 122)) eqn:E1; [injection Hc as <-; exists (kcode k - 32); split_and!; [reflexivity | lia | lia | case_match; lia] |].
    destruct ((64 <=? kcode k) && (kcode k <? 65) || (90 <? kcode k) && (kcode k <=? 95)) eqn:E2; [| discriminate].
    injection Hc as <-; exists (kcode k); split_and!; [reflexivity | lia | lia | case_match; lia]. }
  set (format' := Z.land format (Z.lnot FORMAT_CARETCTRL)).
  assert (flag format' FORMAT_LOWERSPACE = false) as Hcamel'.
  { unfold flag, format' in *. rewrite Z.land_comm, <- Z.land_assoc. rewrite Z.land_comm in Hcamel. exact Hcamel. }
  destruct (mods_are_good format') as (mods & Hmods & Hgood). set (k1 := set_modifiers 0 k0).
  destruct (parse_char tk format' Hnames Hcamel' v (set_modifiers 0 (set_modifiers 0 k0))) as [Hbare [i Hp]]; [unfold scalar; lia | lia |].
  rewrite encode_low in Hbare, Hp by lia. cbn [map] in Hbare, Hp.
  assert (termkey_strpkey tk (B "^" ++ [chr v]) k0 format =
    Some (Some [], fill_utf8 (set_modifiers KEYMOD_CTRL (let k := fill_utf8 (set_type UNICODE (set_code v (set_code i k1))) in
      if (65 <=? kcode k) && (kcode k <=? 90) then set_code (kcode k + 0x20) k else k)))) as ->.
  { change (B "^" ++ [chr v]) with ["^"%char; chr v]. cbn [termkey_strpkey tail]. rewrite Hf. change (bool_decide ("^"%char = "^"%char)) with true. cbn [andb].
    fold format'. unfold strpkey_plain. rewrite Hmods. cbn [mbind option_bind]. rewrite strip_bare by assumption. rewrite Hp. cbn [mbind option_bind].
    rewrite canonicalise_char by (reflexivity || (cbn; lia)). cbn [type kcode modifiers set_type set_code set_modifiers set_utf8 fill_utf8].
    change (bool_decide (is_Some (Some []))) with true. change (bool_decide (UNICODE = UNICODE)) with true.
    replace (v <? 64) with false by lia. replace (95 <? v) with false by lia. cbn [negb orb Z.eqb]. reflexivity. }
  eexists. split; [reflexivity |]. rewrite canonicalise_char; [| done | rewrite Hk; case_match; lia]. unfold same_key. rewrite Ht, Hm, Hk.
  cbn [kcode fill_utf8 set_utf8 set_type set_code set_modifiers]. case_match; split_and!; reflexivity.
Qed.

(** The whole text that a key stands for. *)
Definition piece_text (p : piece) : bstr := match p with Text s => s | Camel name => (snprint_cameltospaces 0 name).1 end.

Definition printed (tk : termkey) (k : key) (format : Z) : option bstr :=
  ps ← strfkey_pieces tk k format; Some (concat (map piece_text ps)).

Lemma printed_texts tk k format s ss buf : strfkey_pieces tk k format = Some (map Text (s :: ss)) -> Forall (fun t => t <> []) (s :: ss) ->
  printed tk k format = Some (concat (s :: ss)) /\
  ((length (concat (s :: ss)) < length buf)%nat -> termkey_strfkey tk buf k format =
     Some (length (concat (s :: ss)), concat (s :: ss) ++ NUL :: drop (length (concat (s :: ss)) + 1) buf, strfkey_key k format)).
Proof.
  intros Hp Hne. unfold printed, termkey_strfkey. rewrite Hp. cbn [mbind option_bind]. split.
  - by rewrite map_map, map_id.
  - intros Hfit. by rewrite put_texts.
Qed.

#[local] Lemma both_and (P Q R : Prop) : P /\ Q -> R -> P /\ Q /\ R.
Proof. tauto. Qed.

(** C26: the text of a character, a symbol or a function key, with any modifiers and in
    every format but the two with brackets and small letters, is written whole to a buffer
    that is long enough, and read back to the end as the key in its canonical form. *)
Theorem key_name_roundtrip tk k format buf k0 :
  keynames tk = std_names -> nameable k -> flag format FORMAT_LOWERSPACE = false -> flag format FORMAT_WRAPBRACKET = false ->
  exists text, printed tk k format = Some text /\
    ((length text < length buf)%nat ->
       termkey_strfkey tk buf k format = Some (length text, text ++ NUL :: drop (length text + 1) buf, strfkey_key k format)) /\
    exists k', termkey_strpkey tk text k0 format = Some (Some [], k') /\ same_key (termkey_canonicalise tk k) k'.
Proof.
  intros Hnames Hk Hcamel Hwrap. assert (wrapbracket k format = false) as Hw by (unfold wrapbracket; by rewrite Hwrap).
  destruct (caret_letter k format) as [c |] eqn:Hc.
  - exists (B "^" ++ [c]). apply both_and; [| by apply caret_read].
    rewrite <- (app_nil_r (B "^" ++ [c])). apply (printed_texts tk k format (B "^" ++ [c]) [] buf); [unfold strfkey_pieces; by rewrite Hw, Hc | by repeat constructor].
  - destruct (mods_are_good format) as (mods & Hmods & Hgood). destruct (nameable_text tk format Hnames Hcamel k Hk) as (s & Hs & Hne & Hbare & Hca & Hparse).
    destruct (mod_text mods (sep_of format) k ++ [s]) as [| t ts] eqn:Et; [by apply app_eq_nil in Et as [_ ?] |].
    assert (concat (mod_text mods (sep_of format) k) ++ s = concat (t :: ts)) as Econ by (rewrite <- Et, concat_app; cbn [concat]; by rewrite app_nil_r).
    exists (concat (t :: ts)). apply both_and.
    + apply printed_texts.
      * unfold strfkey_pieces. rewrite Hw, Hc, Hmods. cbn [mbind option_bind]. rewrite Hs. cbn [mbind option_bind app].
        by rewrite mod_pieces_text, <- Et, map_app.
      * rewrite <- Et. apply Forall_app. split; [| by constructor]. unfold mod_text.
        destruct (has_mod KEYMOD_ALT k), (has_mod KEYMOD_CTRL k), (has_mod KEYMOD_SHIFT k); repeat constructor; by intros [_ ?]%app_eq_nil.
    + rewrite <- Econ. destruct (strpkey_plain_text tk format mods k s (set_modifiers 0 k0) Hmods Hgood Hk Hbare Hparse) as (k' & Hp & Hsame).
      exists k'. split; [| done]. rewrite <- Hp. unfold termkey_strpkey. pose proof (mods_not_careted mods (sep_of format) k s Hgood Hca) as Hcar.
      destruct (concat (mod_text mods (sep_of format) k) ++ s) as [| x [| y r]]; [done.. |]. cbn [careted] in Hcar. by rewrite Hcar, andb_false_r.
Qed.

(** Meta, control and the Euro sign. *)
Lemma key_name_roundtrip_witness :
  let tk := set_keynames std_names termkey_alloc in
  let k := Key UNICODE 0x20ac [] 6 [0xe2; 0x82; 0xac; 0; 0; 0; 0] in
  let text := B "Meta-Ctrl-" ++ map chr [0xe2; 0x82; 0xac] in
  termkey_strfkey tk (replicate 14 NUL) k 5 = Some (13%nat, text ++ [NUL], k) /\
  exists k', termkey_strpkey tk text (Key KEYSYM 3 [] 1 []) 5 = Some (Some [], k') /\ same_key k k'.
Proof.
  intros tk k text.
  destruct (key_name_roundtrip tk k 5 (replicate 14 NUL) (Key KEYSYM 3 [] 1 [])) as (t & Ht & Hp & Hr); [reflexivity | | reflexivity | reflexivity |].
  - split; [cbn; lia |]. cbn [type]. split_and!; [reflexivity | reflexivity |]. right. by exists [0; 0; 0].
  - assert (t = text) as ->; [| split; [apply Hp; cbn; lia | exact Hr]].
    assert (printed tk k 5 = Some text) as E by reflexivity. rewrite E in Ht. by injection Ht.
Defined.
