(* ===== verification/TermTrie.v ===== *)
(** * Key sequences of terminfo (tui.driver-ti.c)

    The driver that knows the sequences of the terminal's own description: a trie from
    byte sequences to keys, filled from the description and then compressed.  The
    description is a parameter.  [None] at the outermost level is a call of [abort] or an
    access outside an array. *)

From S2P Require Import Prelude CString TermKey.

#[local] Open Scope Z_scope.

(** ** Sequences to look for *)

Record func := mk_func { funcname : bstr; fn_sym : Z; mods : Z }.
#[local] Abbreviation Func name sym m := (mk_func (B name) sym m).

Definition funcs : list func :=
  [Func "backspace" SYM_BACKSPACE 0; Func "begin" SYM_BEGIN 0; Func "beg" SYM_BEGIN 0; Func "btab" SYM_TAB
   KEYMOD_SHIFT; Func "cancel" SYM_CANCEL 0; Func "clear" SYM_CLEAR 0; Func "close" SYM_CLOSE 0; Func "command"
   SYM_COMMAND 0; Func "copy" SYM_COPY 0; Func "dc" SYM_DELETE 0; Func "down" SYM_DOWN 0; Func "end" SYM_END 0;
   Func "enter" SYM_ENTER 0; Func "exit" SYM_EXIT 0; Func "find" SYM_FIND 0; Func "help" SYM_HELP 0; Func "home"
   SYM_HOME 0; Func "ic" SYM_INSERT 0; Func "left" SYM_LEFT 0; Func "mark" SYM_MARK 0; Func "message"
   SYM_MESSAGE 0; Func "move" SYM_MOVE 0; Func "next" SYM_PAGEDOWN 0; Func "npage" SYM_PAGEDOWN 0; Func "open"
   SYM_OPEN 0; Func "options" SYM_OPTIONS 0; Func "ppage" SYM_PAGEUP 0; Func "previous" SYM_PAGEUP 0; Func
   "print" SYM_PRINT 0; Func "redo" SYM_REDO 0; Func "reference" SYM_REFERENCE 0; Func "refresh" SYM_REFRESH 0;
   Func "replace" SYM_REPLACE 0; Func "restart" SYM_RESTART 0; Func "resume" SYM_RESUME 0; Func "right"
   SYM_RIGHT 0; Func "save" SYM_SAVE 0; Func "select" SYM_SELECT 0; Func "suspend" SYM_SUSPEND 0; Func "undo"
   SYM_UNDO 0; Func "up" SYM_UP 0].

(** ** The trie

    An array has a slot for each byte from [min] to [max]. *)
Inductive trie := TYPE_KEY (info : keyinfo) | TYPE_ARR (min max : Z) (arr : list (option trie)).

Definition new_node_key (ty : key_type) (sym modmask modset : Z) : trie := TYPE_KEY (Keyinfo ty sym modmask modset).
Definition new_node_arr (min max : Z) : trie := TYPE_ARR min max (replicate (Z.to_nat (max - min + 1)) None).

(** Looking below a key ends the process. *)
Definition lookup_next (n : trie) (b : Z) : option (option trie) :=
  match n with
  | TYPE_KEY _ => None
  | TYPE_ARR min max arr => if (b <? min) || (max <? b) then Some None else arr !! Z.to_nat (b - min)
  end.

(** A slot is set; outside the extent the process ends. *)
Definition set_child (n : trie) (b : Z) (child : trie) : option trie :=
  match n with
  | TYPE_KEY _ => None
  | TYPE_ARR min max arr => if (b <? min) || (max <? b) then None else Some (TYPE_ARR min max (<[Z.to_nat (b - min) := Some child]> arr))
  end.

(** The second loop of [insert_seq]: new nodes for the bytes that are left. *)
Fixpoint insert_new (p : trie) (seq : list Z) (node : trie) : option trie :=
  match seq with
  | [] => Some p
  | b :: seq =>
      match seq with
      | [] => set_child p b node
      | _ => next ← insert_new (new_node_arr 0 0xff) seq node; set_child p b next
      end
  end.

(** The first loop: down the nodes that are there.  When they take all of the sequence,
    nothing is put in. *)
Fixpoint insert_seq (p : trie) (seq : list Z) (node : trie) : option trie :=
  match seq with
  | [] => Some p
  | b :: rest =>
      next ← lookup_next p b;
      match next with
      | Some next => next ← insert_seq next rest node; set_child p b next
      | None => insert_new p seq node
      end
  end.

(** The first slot from [i] on that is used, of [n]. *)
Fixpoint first_used (arr : list (option trie)) (i : nat) : option nat :=
  match arr with
  | [] => None
  | Some _ :: _ => Some i
  | None :: arr => first_used arr (S i)
  end.

Fixpoint last_used (arr : list (option trie)) (i : nat) : option nat :=
  match arr with
  | [] => None
  | n :: arr => match last_used arr (S i) with Some j => Some j | None => match n with Some _ => Some i | None => None end end
  end.

(** The arrays have 256 slots, from 0 on; an array without children becomes the empty
    extent. *)
Fixpoint compress_trie (n : trie) : trie :=
  match n with
  | TYPE_KEY _ => n
  | TYPE_ARR _ _ arr =>
      match first_used arr 0, last_used arr 0 with
      | Some min, Some max =>
          TYPE_ARR (Z.of_nat min) (Z.of_nat max)
            (take (S max - min) (drop min (map (option_map compress_trie) arr)))
      | _, _ => new_node_arr 1 0
      end
  end.

(** ** Loading the description *)

(** Whether [setupterm] finds the description; [tigetstr] by name, or what the hook
    makes of it, with [None] for no string. *)
Class Terminfo := { setupterm_ok : bool; getstr : bstr -> option bstr; keypad_xmit : option bstr; keypad_local : option bstr }.

Section Load.

Context `{Terminfo}.

Definition try_load_terminfo_key (root : trie) (name : bstr) (info : keyinfo) : option (bool * trie) :=
  match getstr name with
  | None | Some [] => Some (false, root)
  | Some value =>
      root ← insert_seq root (map code value) (new_node_key (ki_type info) (ki_sym info) (modifier_mask info) (modifier_set info));
      Some (true, root)
  end.

Definition load_func (root : trie) (f : func) : option trie :=
  '(ok, root) ← try_load_terminfo_key root (B "key_" ++ funcname f) (Keyinfo KEYSYM (fn_sym f) (mods f) (mods f));
  if negb ok then Some root
  else
    let m := Z.lor (mods f) KEYMOD_SHIFT in
    '(_, root) ← try_load_terminfo_key root (B "key_s" ++ funcname f) (Keyinfo KEYSYM (fn_sym f) m m);
    Some root.

Fixpoint load_funcs (root : trie) (fs : list func) : option trie :=
  match fs with
  | [] => Some root
  | f :: fs => root ← load_func root f; load_funcs root fs
  end.

(** The keys F[i] on, at most [n] of them, up to the first that is not there. *)
Fixpoint load_fkeys (n : nat) (root : trie) (i : Z) : option trie :=
  match n with
  | O => Some root
  | S n =>
      '(ok, root) ← try_load_terminfo_key root (B "key_f" ++ print_dec i) (Keyinfo FUNCTION i 0 0);
      if (ok : bool) then load_fkeys n root (i + 1) else Some root
  end.

Record ti := Ti { root : option trie; start_string : option bstr; stop_string : option bstr }.

Definition new_ti : ti := Ti None None None.

Definition load_terminfo (d : ti) : option ti :=
  if negb setupterm_ok then Some d
  else
    r ← load_funcs (new_node_arr 0 0xff) funcs;
    r ← load_fkeys 254 r 1;
    '(_, r) ← try_load_terminfo_key r (B "key_mouse") (Keyinfo MOUSE 0 0 0);
    Some (Ti (Some (compress_trie r)) keypad_xmit keypad_local).

End Load.

(** ** Starting and stopping *)

(** The answers of [write]: how much was written, or -1; [None] is that they are used
    up.  Also what came out. *)
Fixpoint write_all (writes : list Z) (s out : bstr) : option (bool * bstr) :=
  match s with
  | [] => Some (true, out)
  | _ =>
      match writes with
      | [] => None
      | n :: writes => if n =? -1 then Some (false, out) else write_all writes (drop (Z.to_nat n) s) (out ++ take (Z.to_nat n) s)
      end
  end.

(** What [fstat] tells of the descriptor. *)
Inductive fd_kind := NoStat | Fifo | Tty.

Definition send_string (tk : termkey) (s : option bstr) (kind : fd_kind) (writes : list Z) : option (bool * bstr) :=
  match s with
  | None => Some (true, [])
  | Some s =>
      if fd tk =? -1 then Some (true, [])
      else match kind with NoStat => Some (false, []) | Fifo => Some (true, []) | Tty => write_all writes s [] end
  end.

Definition start_driver `{Terminfo} (tk : termkey) (d : ti) (kind : fd_kind) (writes : list Z) : option (bool * bstr * ti) :=
  d ← (match root d with None => load_terminfo d | Some _ => Some d end);
  '(ok, out) ← send_string tk (start_string d) kind writes;
  Some (ok, out, d).

Definition stop_driver (tk : termkey) (d : ti) (kind : fd_kind) (writes : list Z) : option (bool * bstr) :=
  send_string tk (stop_string d) kind writes.

(** ** The driver *)

Inductive walked := Found (pos : nat) (info : keyinfo) | Off | Partial.

Definition one_more (r : walked) : walked := match r with Found pos i => Found (S pos) i | _ => r end.

(** The loop, over the bytes that wait. *)
Fixpoint walk (p : trie) (bytes : list Z) : option walked :=
  match bytes with
  | [] => Some Partial
  | b :: bytes =>
      next ← lookup_next p b;
      match next with
      | None => Some Off
      | Some (TYPE_KEY info) => Some (Found 1 info)
      | Some next => r ← walk next bytes; Some (one_more r)
      end
  end.

Definition ti_peekkey (tk : termkey) (d : ti) (k : key) (force : bool) (nbytes : nat) : option (termkey_result * key * nat) :=
  if (buffcount tk =? 0)%nat then Some (if is_closed tk then EOF else NONE, k, nbytes)
  else
    p ← root d;
    r ← walk p (window tk);
    match r with
    | Found pos info =>
        if bool_decide (ki_type info = MOUSE) then
          '(r, k, n) ← peekkey_mouse (ahead pos tk) k;
          Some (r, k, if bool_decide (r = KEY) then (n + pos)%nat else nbytes)
        else Some (KEY, set_modifiers (modifier_set info) (set_code (ki_sym info) (set_type (ki_type info) k)), pos)
    | Partial => Some (if force then NONE else AGAIN, k, nbytes)
    | Off => Some (NONE, k, nbytes)
    end.

(** ** Specification: a list of sequences

    The first sequence that the bytes begin with; bytes that some sequence goes on
    from. *)
Abbreviation entry := (list Z * keyinfo)%type.

#[local] Definition prefixb (s t : list Z) : bool := bool_decide (s `prefix_of` t).

Definition classify (es : list entry) (w : list Z) : walked :=
  match List.find (fun e : entry => prefixb e.1 w) es with
  | Some e => Found (length e.1) e.2
  | None => if bool_decide (w = []) || existsb (fun e : entry => prefixb w e.1) es then Partial else Off
  end.

(** A sequence that goes on from another one ends the process; one that others begin
    with, or that is there, is left out. *)
Definition accept (es : list entry) (e : entry) : option (list entry) :=
  if existsb (fun x : entry => prefixb x.1 e.1 && negb (bool_decide (x.1 = e.1))) es then None
  else if existsb (fun x : entry => prefixb e.1 x.1) es then Some es
  else Some (es ++ [e]).

Fixpoint accept_all (es new : list entry) : option (list entry) :=
  match new with
  | [] => Some es
  | e :: new => es ← accept es e; accept_all es new
  end.

Fixpoint insert_all (t : trie) (new : list entry) : option trie :=
  match new with
  | [] => Some t
  | e :: new => t ← insert_seq t e.1 (TYPE_KEY e.2); insert_all t new
  end.

(** What is loaded, in order. *)
Section Loaded.

Context `{Terminfo}.

Definition loaded_key (name : bstr) (info : keyinfo) : list entry :=
  match getstr name with None | Some [] => [] | Some value => [(map code value, info)] end.

Definition loaded_func (f : func) : list entry :=
  match loaded_key (B "key_" ++ funcname f) (Keyinfo KEYSYM (fn_sym f) (mods f) (mods f)) with
  | [] => []
  | es => let m := Z.lor (mods f) KEYMOD_SHIFT in es ++ loaded_key (B "key_s" ++ funcname f) (Keyinfo KEYSYM (fn_sym f) m m)
  end.

Fixpoint loaded_fkeys (n : nat) (i : Z) : list entry :=
  match n with
  | O => []
  | S n =>
      match loaded_key (B "key_f" ++ print_dec i) (Keyinfo FUNCTION i 0 0) with
      | [] => []
      | es => es ++ loaded_fkeys n (i + 1)
      end
  end.

Definition loaded : list entry := concat (map loaded_func funcs) ++ loaded_fkeys 254 1 ++ loaded_key (B "key_mouse") (Keyinfo MOUSE 0 0 0).

End Loaded.

(** ** The trie is the list *)

#[local] Definition derive (b : Z) (es : list entry) : list entry :=
  omap (fun e : entry => match e.1 with [] => None | x :: s => if x =? b then Some (s, e.2) else None end) es.

Definition is_byte (b : Z) : Prop := 0 <= b < 256.

Inductive trie_of : trie -> list entry -> Prop :=
  | of_key i : trie_of (TYPE_KEY i) [([], i)]
  | of_arr arr es :
      length arr = 256%nat ->
      Forall (fun e : entry => e.1 <> []) es ->
      (forall b, arr !! b = Some None -> derive (Z.of_nat b) es = []) ->
      (forall b c, arr !! b = Some (Some c) -> derive (Z.of_nat b) es <> [] /\ trie_of c (derive (Z.of_nat b) es)) ->
      trie_of (TYPE_ARR 0 0xff arr) es.

Lemma derive_cons b x s i es : derive b ((x :: s, i) :: es) = if x =? b then (s, i) :: derive b es else derive b es.
Proof. unfold derive. cbn. by destruct (x =? b). Qed.

Lemma derive_app b es es' : derive b (es ++ es') = derive b es ++ derive b es'.
Proof. apply omap_app. Qed.

Lemma prefixb_cons x s y t : prefixb (x :: s) (y :: t) = (x =? y) && prefixb s t.
Proof.
  unfold prefixb. destruct (Z.eqb_spec x y) as [-> | Hne]; cbn.
  - apply bool_decide_ext. split; [apply prefix_cons_inv_2 | apply prefix_cons].
  - apply bool_decide_eq_false. intros H%prefix_cons_inv_1. done.
Qed.

Lemma prefixb_nil t : prefixb [] t = true.
Proof. apply bool_decide_eq_true, prefix_nil. Qed.

(** A question about sequences that begin with [b] is one about what follows it. *)
Lemma existsb_derive (p q : entry -> bool) b es : Forall (fun e : entry => e.1 <> []) es ->
  (forall x s i, p (x :: s, i) = (x =? b) && q (s, i)) -> existsb p es = existsb q (derive b es).
Proof.
  intros Hne H. induction es as [| [[| x s] i] es IH]; [done | by apply Forall_cons in Hne as [? _] |].
  apply Forall_cons in Hne as [_ Hne]. rewrite derive_cons. cbn. rewrite H, IH by done. by destruct (x =? b).
Qed.

Lemma find_derive (p q : entry -> bool) b es : Forall (fun e : entry => e.1 <> []) es ->
  (forall x s i, p (x :: s, i) = (x =? b) && q (s, i)) ->
  List.find p es = (fun e : entry => (b :: e.1, e.2)) <$> List.find q (derive b es).
Proof.
  intros Hne H. induction es as [| [[| x s] i] es IH]; [done | by apply Forall_cons in Hne as [? _] |].
  apply Forall_cons in Hne as [_ Hne]. rewrite derive_cons. cbn. rewrite H. destruct (Z.eqb_spec x b) as [-> | ?]; cbn; [| by apply IH].
  destruct (q (s, i)); [done | by apply IH].
Qed.

Lemma bool_decide_cons (x y : Z) s t : bool_decide (x :: s = y :: t) = (x =? y) && bool_decide (s = t).
Proof.
  destruct (Z.eqb_spec x y) as [-> | Hne]; cbn; [| apply bool_decide_eq_false; congruence].
  apply bool_decide_ext. split; congruence.
Qed.

(** Looking up a byte is going on with what follows it. *)
Lemma classify_cons b w es : Forall (fun e : entry => e.1 <> []) es ->
  classify es (b :: w) = if existsb (fun e : entry => prefixb [b] e.1) es then one_more (classify (derive b es) w) else Off.
Proof.
  intros Hne. unfold classify.
  rewrite (find_derive _ (fun e => prefixb e.1 w) b es Hne) by (intros; apply prefixb_cons).
  rewrite (existsb_derive (fun e => prefixb (b :: w) e.1) (fun e => prefixb w e.1) b es Hne) by (intros; cbn; by rewrite prefixb_cons, Z.eqb_sym).
  rewrite (existsb_derive (fun e => prefixb [b] e.1) (fun _ => true) b es Hne)
    by (intros; cbn; by rewrite prefixb_cons, prefixb_nil, Z.eqb_sym).
  destruct (derive b es) as [| e ds] eqn:E; [done |]. cbn [existsb]. cbn [orb].
  destruct (List.find _ _) as [[s i] |]; [done |]. cbn [fmap option_fmap option_map].
  replace (bool_decide (b :: w = [])) with false by (symmetry; by apply bool_decide_eq_false). cbn [orb].
  destruct (bool_decide_reflect (w = [])) as [-> | ?]; cbn; [| by case_match]. by rewrite prefixb_nil.
Qed.

#[local] Definition conflicts (e : entry) (x : entry) : bool := prefixb x.1 e.1 && negb (bool_decide (x.1 = e.1)).
#[local] Definition covers (e : entry) (x : entry) : bool := prefixb e.1 x.1.

Lemma conflicts_derive b s i es : Forall (fun e : entry => e.1 <> []) es -> existsb (conflicts (b :: s, i)) es = existsb (conflicts (s, i)) (derive b es).
Proof.
  intros Hne. apply existsb_derive; [done |]. intros x t j. unfold conflicts. cbn [fst snd].
  rewrite prefixb_cons, bool_decide_cons. by destruct (x =? b).
Qed.

Lemma covers_derive b s i es : Forall (fun e : entry => e.1 <> []) es -> existsb (covers (b :: s, i)) es = existsb (covers (s, i)) (derive b es).
Proof. intros Hne. apply existsb_derive; [done |]. intros x t j. unfold covers. cbn [fst snd]. by rewrite prefixb_cons, Z.eqb_sym. Qed.

Lemma derive_other b s i es x : x <> b -> derive x (es ++ [(b :: s, i)]) = derive x es.
Proof. intros Hx. rewrite derive_app, derive_cons. destruct (Z.eqb_spec b x); [congruence | apply app_nil_r]. Qed.

(** A sequence is accepted as what follows its first byte is by what follows that. *)
Lemma accept_derive b s i es : Forall (fun e : entry => e.1 <> []) es ->
  match accept (derive b es) (s, i) with
  | None => accept es (b :: s, i) = None
  | Some ds => exists es', accept es (b :: s, i) = Some es' /\ derive b es' = ds /\ (forall c, c <> b -> derive c es' = derive c es) /\
      Forall (fun e : entry => e.1 <> []) es'
  end.
Proof.
  intros Hne. unfold accept. fold (conflicts (s, i)) (covers (s, i)) (conflicts (b :: s, i)) (covers (b :: s, i)).
  rewrite conflicts_derive, covers_derive by done.
  destruct (existsb (conflicts (s, i)) (derive b es)); [done |].
  destruct (existsb (covers (s, i)) (derive b es)); eexists; split_and!; try done.
  - rewrite derive_app, derive_cons, Z.eqb_refl. done.
  - intros c Hc. by apply derive_other.
  - apply Forall_app. split; [done |]. by repeat constructor.
Qed.

Lemma accept_new b s i es : Forall (fun e : entry => e.1 <> []) es -> derive b es = [] -> accept es (b :: s, i) = Some (es ++ [(b :: s, i)]).
Proof.
  intros Hne Hd. unfold accept. fold (conflicts (b :: s, i)) (covers (b :: s, i)).
  by rewrite conflicts_derive, covers_derive, Hd by done.
Qed.

Lemma of_set arr es es' b child : trie_of (TYPE_ARR 0 0xff arr) es -> is_byte b -> derive b es' <> [] -> trie_of child (derive b es') ->
  (forall c, c <> b -> derive c es' = derive c es) -> Forall (fun e : entry => e.1 <> []) es' ->
  set_child (TYPE_ARR 0 0xff arr) b child = Some (TYPE_ARR 0 0xff (<[Z.to_nat b := Some child]> arr)) /\
  trie_of (TYPE_ARR 0 0xff (<[Z.to_nat b := Some child]> arr)) es'.
Proof.
  intros Hr Hb Hd Hc Ho Hne. inversion Hr as [| ? ? Hl _ Hnone Hsome]; subst. unfold is_byte in Hb. split.
  { unfold set_child. replace ((b <? 0) || (255 <? b)) with false by lia. by rewrite Z.sub_0_r. }
  constructor; [by rewrite length_insert | done | |].
  - intros j. destruct (decide (j = Z.to_nat b)) as [-> | Hj]; [rewrite list_lookup_insert_eq by lia; discriminate |].
    rewrite list_lookup_insert_ne by done. intros H. rewrite Ho by lia. by apply Hnone.
  - intros j c. destruct (decide (j = Z.to_nat b)) as [-> | Hj].
    + rewrite list_lookup_insert_eq by lia. intros [= <-]. by rewrite Z2Nat.id by lia.
    + rewrite list_lookup_insert_ne by done. intros H. rewrite Ho by lia. by apply Hsome.
Qed.

Lemma of_empty : trie_of (new_node_arr 0 0xff) [].
Proof.
  constructor; [done | done | done |]. intros b c H. apply lookup_replicate in H as [? _]. discriminate.
Qed.

Lemma insert_new_rep rest : forall b arr es i, trie_of (TYPE_ARR 0 0xff arr) es -> Forall is_byte (b :: rest) -> derive b es = [] ->
  exists t, insert_new (TYPE_ARR 0 0xff arr) (b :: rest) (TYPE_KEY i) = Some t /\ trie_of t (es ++ [(b :: rest, i)]).
Proof.
  induction rest as [| c rest IH]; intros b arr es i Hr Hb Hd; apply Forall_cons in Hb as [Hb Hs];
    inversion Hr as [| ? ? _ Hne _ _]; subst.
  - destruct (of_set arr es (es ++ [([b], i)]) b (TYPE_KEY i) Hr Hb) as [E R];
      [by rewrite derive_app, Hd, derive_cons, Z.eqb_refl | rewrite derive_app, Hd, derive_cons, Z.eqb_refl; constructor | apply derive_other | |].
    { apply Forall_app. split; [done | by repeat constructor]. }
    eexists. split; [exact E | exact R].
  - destruct (IH c (replicate 256 None) [] i of_empty Hs eq_refl) as (t & E & R).
    change (insert_new (TYPE_ARR 0 255 arr) (b :: c :: rest) (TYPE_KEY i))
      with (insert_new (new_node_arr 0 255) (c :: rest) (TYPE_KEY i) ≫= set_child (TYPE_ARR 0 255 arr) b).
    change (new_node_arr 0 255) with (TYPE_ARR 0 255 (replicate 256 None)). rewrite E.
    destruct (of_set arr es (es ++ [(b :: c :: rest, i)]) b t Hr Hb) as [E' R'];
      [by rewrite derive_app, Hd, derive_cons, Z.eqb_refl | by rewrite derive_app, Hd, derive_cons, Z.eqb_refl | apply derive_other | |].
    { apply Forall_app. split; [done | by repeat constructor]. }
    eexists. split; [exact E' | exact R'].
Qed.

Lemma lookup_full arr b : length arr = 256%nat -> is_byte b -> exists c, lookup_next (TYPE_ARR 0 0xff arr) b = Some c /\ arr !! Z.to_nat b = Some c.
Proof.
  intros Hl Hb. unfold is_byte in Hb. unfold lookup_next. replace ((b <? 0) || (255 <? b)) with false by lia. rewrite Z.sub_0_r.
  destruct (arr !! Z.to_nat b) as [c |] eqn:E; [by exists c |]. apply lookup_ge_None in E. lia.
Qed.

(** Inserting does what the list says, the failure included. *)
Lemma insert_seq_rep seq : forall t es i, trie_of t es -> Forall is_byte seq -> (seq <> [] \/ es <> []) ->
  match accept es (seq, i) with
  | None => insert_seq t seq (TYPE_KEY i) = None
  | Some es' => exists t', insert_seq t seq (TYPE_KEY i) = Some t' /\ trie_of t' es'
  end.
Proof.
  induction seq as [| b rest IH]; intros t es i Hr Hb Hok.
  - destruct Hok as [? | Hok]; [done |]. assert (accept es ([], i) = Some es) as ->.
    { unfold accept. replace (existsb _ es) with false.
      - destruct es as [| [s j] es]; [done |]. cbn. by rewrite prefixb_nil.
      - symmetry. apply not_true_iff_false. intros (x & _ & H)%existsb_exists. apply andb_true_iff in H as [H1 H2].
        apply bool_decide_eq_true, prefix_nil_inv in H1. by rewrite H1 in H2. }
    exists t. by split.
  - pose proof Hb as [Hb1 Hb2]%Forall_cons. destruct Hr as [j | arr es Hl Hne Hnone Hsome].
    + unfold accept. cbn. by rewrite prefixb_nil.
    + pose proof (accept_derive b rest i es Hne) as HA. destruct (lookup_full arr b Hl Hb1) as (c & Hc & Hc').
      assert (trie_of (TYPE_ARR 0 255 arr) es) as Hr by (by constructor).
      assert (Z.of_nat (Z.to_nat b) = b) as Hid by (unfold is_byte in Hb1; lia).
      cbn [insert_seq]. rewrite Hc. cbn [mbind option_bind]. destruct c as [c |].
      * destruct (Hsome _ _ Hc') as [Hd Hrep]. rewrite Hid in Hd, Hrep. specialize (IH c _ i Hrep Hb2 (or_intror Hd)).
        destruct (accept (derive b es) (rest, i)) as [ds |] eqn:EA.
        -- destruct IH as (t' & -> & R'), HA as (es' & -> & <- & Ho & Hne'). cbn [mbind option_bind].
           destruct (of_set arr es es' b t' Hr Hb1) as [E' R'']; [| done.. | by eexists].
           intros Hnil. rewrite Hnil in EA. unfold accept in EA. repeat case_match; try discriminate; injection EA as EA; by destruct (derive b es).
        -- by rewrite HA, IH.
      * specialize (Hnone _ Hc'). rewrite Hid in Hnone. rewrite accept_new by done.
        destruct (insert_new_rep rest b arr es i Hr Hb Hnone) as (t' & E & R). by exists t'.
Qed.

(** Walking the trie is looking through the list. *)
Lemma walk_rep w : forall arr es, trie_of (TYPE_ARR 0 0xff arr) es -> Forall is_byte w -> walk (TYPE_ARR 0 0xff arr) w = Some (classify es w).
Proof.
  induction w as [| b w IH]; intros arr es Hr Hw; inversion Hr as [| ? ? Hl Hne Hnone Hsome]; subst.
  - unfold classify. destruct (List.find _ es) as [[s i] |] eqn:F; [exfalso | done]. apply find_some in F as [Hin F].
    apply list_elem_of_In in Hin. rewrite Forall_forall in Hne. apply Hne in Hin. by apply bool_decide_eq_true, prefix_nil_inv in F.
  - apply Forall_cons in Hw as [Hb Hw]. destruct (lookup_full arr b Hl Hb) as (c & Hc & Hc').
    assert (Z.of_nat (Z.to_nat b) = b) as Hid by (unfold is_byte in Hb; lia).
    rewrite classify_cons, (existsb_derive _ (fun _ => true) b es Hne) by
      (try done; intros; cbn [fst]; by rewrite prefixb_cons, prefixb_nil, Z.eqb_sym).
    cbn [walk]. rewrite Hc. cbn [mbind option_bind]. destruct c as [c |].
    + destruct (Hsome _ _ Hc') as [Hd Hrep]. rewrite Hid in Hd, Hrep. destruct (derive b es) as [| e ds] eqn:E; [done |].
      cbn [existsb orb]. destruct c as [i | m n arr'].
      * inversion Hrep; subst. unfold classify. cbn. by rewrite prefixb_nil.
      * pose proof Hrep as Hr2. inversion Hr2; subst. by rewrite (IH _ _ Hrep Hw).
    + specialize (Hnone _ Hc'). rewrite Hid in Hnone. by rewrite Hnone.
Qed.

Lemma first_used_some arr i j : first_used arr i = Some j ->
  (i <= j < i + length arr)%nat /\ (forall n, (n < j - i)%nat -> arr !! n = Some None) /\ exists c, arr !! (j - i)%nat = Some (Some c).
Proof.
  revert i. induction arr as [| [c |] arr IH]; intros i; cbn [first_used]; [done | intros [= <-] |].
  - rewrite Nat.sub_diag. cbn. split; [lia |]. split; [lia | by eexists].
  - intros (H1 & H2 & H3)%IH. cbn [length]. replace (j - i)%nat with (S (j - S i)) by lia. split; [lia |]. split; [| done].
    intros [| n] Hn; [done |]. apply H2. lia.
Qed.

Lemma first_used_none arr i : first_used arr i = None -> forall n c, arr !! n = Some c -> c = None.
Proof.
  revert i. induction arr as [| [c |] arr IH]; intros i; cbn [first_used]; [done | done |].
  intros H [| n] c Hn; [by injection Hn as <- | by eapply IH].
Qed.

Lemma last_used_none arr i : last_used arr i = None -> forall n c, arr !! n = Some c -> c = None.
Proof.
  revert i. induction arr as [| x arr IH]; intros i; cbn [last_used]; [done |].
  destruct (last_used arr (S i)) eqn:E; [done |]. destruct x; [done |]. intros _ [| n] c Hn; [by injection Hn as <- | by eapply IH].
Qed.

Lemma last_used_some arr i j : last_used arr i = Some j ->
  (i <= j)%nat /\ (forall n c, (j - i < n)%nat -> arr !! n = Some c -> c = None) /\ exists c, arr !! (j - i)%nat = Some (Some c).
Proof.
  revert i. induction arr as [| x arr IH]; intros i; cbn [last_used]; [done |].
  destruct (last_used arr (S i)) eqn:E.
  - intros [= <-]. destruct (IH _ E) as (H1 & H2 & H3). replace (n - i)%nat with (S (n - S i)) by lia.
    split; [lia |]. split; [| done]. intros [| m] c Hm; [lia |]. apply H2. lia.
  - destruct x as [c |]; [| done]. intros [= <-]. rewrite Nat.sub_diag. split; [lia |]. split; [| by eexists].
    intros [| m] d Hm; [lia |]. by apply (last_used_none _ _ E).
Qed.

(** Compressing changes no lookup. *)
Lemma lookup_compress arr b : length arr = 256%nat -> is_byte b ->
  lookup_next (compress_trie (TYPE_ARR 0 0xff arr)) b = option_map (option_map compress_trie) (lookup_next (TYPE_ARR 0 0xff arr) b).
Proof.
  intros Hl Hb. destruct (lookup_full arr b Hl Hb) as (c & -> & Hc). cbn [option_map compress_trie]. unfold is_byte in Hb.
  destruct (first_used arr 0) as [min |] eqn:F, (last_used arr 0) as [max |] eqn:L.
  - apply first_used_some in F as (_ & F & m & Hm). apply last_used_some in L as (_ & L & m' & Hm').
    rewrite Nat.sub_0_r in *. cbn [lookup_next]. destruct ((b <? Z.of_nat min) || (Z.of_nat max <? b)) eqn:E.
    + f_equal. apply orb_true_iff in E as [E | E].
      * rewrite F in Hc by lia. injection Hc as <-. done.
      * assert (c = None) as -> by (apply (L (Z.to_nat b)); [lia | done]). done.
    + apply orb_false_iff in E as [E1 E2].
      rewrite lookup_take_lt by lia. rewrite lookup_drop. replace (min + Z.to_nat (b - Z.of_nat min))%nat with (Z.to_nat b) by lia.
      change (map (option_map compress_trie) arr) with (option_map compress_trie <$> arr). rewrite list_lookup_fmap, Hc. done.
  - apply first_used_some in F as (_ & _ & m & Hm). by pose proof (last_used_none _ _ L _ _ Hm).
  - rewrite (first_used_none _ _ F _ _ Hc). unfold new_node_arr, lookup_next. by replace ((b <? 1) || (0 <? b)) with true by lia.
  - rewrite (first_used_none _ _ F _ _ Hc). unfold new_node_arr, lookup_next. by replace ((b <? 1) || (0 <? b)) with true by lia.
Qed.

Lemma walk_compress w : forall arr es, trie_of (TYPE_ARR 0 0xff arr) es -> Forall is_byte w ->
  walk (compress_trie (TYPE_ARR 0 0xff arr)) w = walk (TYPE_ARR 0 0xff arr) w.
Proof.
  induction w as [| b w IH]; intros arr es Hr Hw; [done |]. inversion Hr as [| ? ? Hl Hne Hnone Hsome]; subst.
  apply Forall_cons in Hw as [Hb Hw]. cbn [walk]. rewrite lookup_compress by done.
  destruct (lookup_full arr b Hl Hb) as (c & -> & Hc). cbn [option_map mbind option_bind].
  destruct c as [[i | m n arr'] |]; [done | | done]. cbn [option_map]. destruct (Hsome _ _ Hc) as [_ Hrep].
  inversion Hrep; subst. specialize (IH _ _ Hrep Hw).
  destruct (compress_trie (TYPE_ARR 0 255 arr')) as [i | m n a] eqn:E.
  - exfalso. cbn [compress_trie] in E. by repeat case_match.
  - by rewrite IH.
Qed.

Lemma insert_all_rep new : forall t es, trie_of t es -> Forall (fun e : entry => e.1 <> [] /\ Forall is_byte e.1) new ->
  match accept_all es new with
  | None => insert_all t new = None
  | Some es' => exists t', insert_all t new = Some t' /\ trie_of t' es'
  end.
Proof.
  induction new as [| [s i] new IH]; intros t es Hr Hn; cbn; [by eexists |]. apply Forall_cons in Hn as [[H1 H2] Hn].
  pose proof (insert_seq_rep s t es i Hr H2 (or_introl H1)) as Hi.
  destruct (accept es (s, i)) as [es' |]; cbn; [| by rewrite Hi]. destruct Hi as (t' & -> & Hr'). cbn. by apply IH.
Qed.

Lemma insert_seq_arr m n arr seq node t : insert_seq (TYPE_ARR m n arr) seq node = Some t -> exists m n arr, t = TYPE_ARR m n arr.
Proof.
  assert (forall b c t, set_child (TYPE_ARR m n arr) b c = Some t -> exists m n arr, t = TYPE_ARR m n arr) as Hset.
  { intros b c t'. cbn. case_match; [done |]. intros [= <-]. by eexists _, _, _. }
  destruct seq as [| b rest]; cbn [insert_seq]; [intros [= <-]; by eexists _, _, _ |].
  destruct (lookup_next _ b) as [[c |] |]; cbn [mbind option_bind]; [| | done].
  - destruct (insert_seq c rest node); cbn [mbind option_bind]; [apply Hset | done].
  - cbn [insert_new]. destruct rest; [apply Hset |]. destruct (insert_new _ _ _); cbn [mbind option_bind]; [apply Hset | done].
Qed.

Lemma insert_all_arr new : forall m n arr t, insert_all (TYPE_ARR m n arr) new = Some t -> exists m n arr, t = TYPE_ARR m n arr.
Proof.
  induction new as [| e new IH]; intros m n arr t; cbn [insert_all]; [intros [= <-]; by eexists _, _, _ |].
  destruct (insert_seq _ _ _) as [t' |] eqn:E; cbn; [| done]. apply insert_seq_arr in E as (? & ? & ? & ->). apply IH.
Qed.

(** ** Loading inserts the list *)

Section Loading.

Context `{Terminfo}.

Lemma try_load_loaded r name i : try_load_terminfo_key r name i =
  match loaded_key name i with
  | [] => Some (false, r)
  | e :: _ => r ← insert_seq r e.1 (TYPE_KEY e.2); Some (true, r)
  end.
Proof. unfold try_load_terminfo_key, loaded_key. destruct i, (getstr name) as [[| c s] |]; done. Qed.

Lemma loaded_key_one name i : loaded_key name i = [] \/ exists e, loaded_key name i = [e].
Proof. unfold loaded_key. destruct (getstr name) as [[| c s] |]; eauto. Qed.

Lemma insert_all_app t es es' : insert_all t (es ++ es') = (t ← insert_all t es; insert_all t es').
Proof. revert t. induction es as [| e es IH]; intros t; cbn; [done |]. destruct (insert_seq t e.1 (TYPE_KEY e.2)); cbn; [apply IH | done]. Qed.

Lemma load_func_loaded r f : load_func r f = insert_all r (loaded_func f).
Proof.
  unfold load_func, loaded_func. rewrite try_load_loaded.
  destruct (loaded_key_one (B "key_" ++ funcname f) (Keyinfo KEYSYM (fn_sym f) (mods f) (mods f))) as [-> | [e ->]]; [done |].
  cbn. destruct (insert_seq r e.1 (TYPE_KEY e.2)) as [r' |]; cbn; [| done]. rewrite try_load_loaded.
  match goal with |- context [loaded_key ?n ?i] => destruct (loaded_key_one n i) as [-> | [e' ->]] end; [done |].
  cbn. by destruct (insert_seq r' e'.1 (TYPE_KEY e'.2)).
Qed.

Lemma load_funcs_loaded fs : forall r, load_funcs r fs = insert_all r (concat (map loaded_func fs)).
Proof.
  induction fs as [| f fs IH]; intros r; cbn [load_funcs map concat]; [done |]. rewrite insert_all_app, load_func_loaded.
  destruct (insert_all r (loaded_func f)); cbn; [apply IH | done].
Qed.

Lemma load_fkeys_loaded n : forall r i, load_fkeys n r i = insert_all r (loaded_fkeys n i).
Proof.
  induction n as [| n IH]; intros r i; cbn [load_fkeys loaded_fkeys]; [done |]. rewrite try_load_loaded.
  match goal with |- context [loaded_key ?n ?i] => destruct (loaded_key_one n i) as [-> | [e ->]] end; [done |].
  cbn. destruct (insert_seq r e.1 (TYPE_KEY e.2)); cbn; [apply IH | done].
Qed.

Lemma loaded_ok : Forall (fun e : entry => e.1 <> [] /\ Forall is_byte e.1) loaded.
Proof.
  assert (forall name i, Forall (fun e : entry => e.1 <> [] /\ Forall is_byte e.1) (loaded_key name i)) as Hkey.
  { intros name i. unfold loaded_key. destruct (getstr name) as [[| c s] |]; [constructor | | constructor].
    constructor; [| constructor]. split; [done |]. apply Forall_forall. intros b (x & -> & _)%list_elem_of_fmap. apply code_range. }
  unfold loaded. rewrite !Forall_app. split_and!; [| | apply Hkey].
  - apply Forall_concat, Forall_forall. intros es (f & -> & _)%list_elem_of_fmap. unfold loaded_func.
    case_match eqn:E; [constructor |]. apply Forall_app. split; [rewrite <- E |]; apply Hkey.
  - assert (forall n i, Forall (fun e : entry => e.1 <> [] /\ Forall is_byte e.1) (loaded_fkeys n i)) as HF; [| apply HF].
    intros n. induction n as [| n IH]; intros i; cbn [loaded_fkeys]; [constructor |].
    case_match eqn:E; [constructor |]. apply Forall_app. split; [rewrite <- E; apply Hkey | apply IH].
Qed.

Lemma load_terminfo_loaded : setupterm_ok = true ->
  load_terminfo new_ti = (t ← insert_all (new_node_arr 0 0xff) loaded; Some (Ti (Some (compress_trie t)) keypad_xmit keypad_local)).
Proof.
  intros Hs. unfold load_terminfo, loaded. rewrite Hs. cbn [negb]. rewrite load_funcs_loaded, !insert_all_app.
  destruct (insert_all _ (concat (map loaded_func funcs))) as [r |]; cbn [mbind option_bind]; [| done].
  rewrite load_fkeys_loaded, insert_all_app. destruct (insert_all r (loaded_fkeys 254 1)) as [r' |]; cbn [mbind option_bind]; [| done].
  rewrite try_load_loaded.
  match goal with |- context [loaded_key ?n ?i] => destruct (loaded_key_one n i) as [-> | [e ->]] end; [done |].
  cbn. by destruct (insert_seq r' e.1 (TYPE_KEY e.2)).
Qed.

Lemma load_is_list : setupterm_ok = true ->
  match accept_all [] loaded with
  | None => load_terminfo new_ti = None
  | Some es => exists t, load_terminfo new_ti = Some (Ti (Some t) keypad_xmit keypad_local) /\
      forall w, Forall is_byte w -> walk t w = Some (classify es w)
  end.
Proof.
  intros Hs. rewrite load_terminfo_loaded by done. pose proof (insert_all_rep loaded _ _ of_empty loaded_ok) as Hi.
  destruct (accept_all [] loaded) as [es |]; [| by rewrite Hi]. destruct Hi as (t & E & Hr). rewrite E. cbn [mbind option_bind].
  destruct (insert_all_arr _ _ _ _ _ E) as (m & n' & arr & ->). pose proof Hr as Hr'. inversion Hr'; subst.
  eexists. split; [reflexivity |]. intros w Hw. rewrite (walk_compress w arr es Hr Hw). by apply walk_rep.
Qed.

(** C22: what is loaded from the terminal's description behaves as a plain list of
    sequences: bytes are a key when they begin with a sequence of the list, need more when
    a sequence goes on from them, and are nothing else otherwise.  The list has the
    sequences in the order in which they are asked for, without those that are there
    already or that others go on from; a sequence that goes on from another ends the
    process.  When the description is not found, no list is there, and the first byte
    typed makes the driver read through a null pointer. *)
Theorem terminfo_is_list tk k force n :
  if setupterm_ok then
    match accept_all [] loaded with
    | None => load_terminfo new_ti = None
    | Some es => exists t, load_terminfo new_ti = Some (Ti (Some t) keypad_xmit keypad_local) /\
        forall w, Forall is_byte w -> walk t w = Some (classify es w)
    end
  else load_terminfo new_ti = Some new_ti /\ (buffcount tk <> 0%nat -> ti_peekkey tk new_ti k force n = None).
Proof.
  destruct setupterm_ok eqn:Hs.
  - by apply load_is_list.
  - split; [unfold load_terminfo; by rewrite Hs |]. intros Hn. unfold ti_peekkey.
    by replace (buffcount tk =? 0)%nat with false by (symmetry; by apply Nat.eqb_neq).
Qed.

End Loading.
