(* ===== verification/TermInput.v ===== *)
(** * From bytes to keys (termkey.c, tui.keys.c)

    The drivers and the plain keys tried in turn, keys taken out of the buffer, and the
    loop of the terminal interface that hands them on.  [None] at the outermost level as
    in TermKey, or a loop that does not end. *)

From S2P Require Import Prelude CString TuiText TuiWindow TuiDraw TuiInput TuiWindowSpec TuiInputSpec TuiKeys TuiKeysSpec TermKey TermCsi TermTrie.

#[local] Open Scope Z_scope.

(** ** Peeking *)

Record decoder := Decoder { tk : termkey; the_ti : ti; the_csi : csi }.

Definition set_tk (t : termkey) (d : decoder) : decoder := Decoder t (the_ti d) (the_csi d).
Definition set_csi (c : csi) (d : decoder) : decoder := Decoder (tk d) (the_ti d) c.
Definition count (d : decoder) : nat := buffcount (tk d).

Abbreviation peeked := (option (termkey_result * decoder * TermKey.key * nat)).

(** The bytes of a reported unknown sequence are passed. *)
Definition apply_hightide (t : termkey) : option termkey :=
  if (hightide t =? 0)%nat then Some t
  else if (buffcount t <? hightide t)%nat then None
  else Some (set_hightide 0 (ahead (hightide t) t)).

(** The data are moved down when they begin in the second half. *)
Definition slide (t : termkey) : termkey :=
  let halfsize := (buffsize t / 2)%nat in
  if (halfsize <? buffstart t)%nat
  then set_buffer (copy_in 0 (take halfsize (drop halfsize (buffer t))) (buffer t)) (buffstart t - halfsize) (buffcount t) t
  else t.

Definition raw_key (b0 : Z) (k : TermKey.key) : TermKey.key :=
  TermKey.set_utf8 (b0 :: 0 :: drop 2 (utf8 k)) (set_modifiers 0 (set_code b0 (set_type UNICODE k))).

(** [peek] is the full [peekkey]. *)
Definition peekkey_simple (peek : decoder -> TermKey.key -> bool -> nat -> peeked) (d : decoder) (k : TermKey.key) (force : bool) (nbytes : nat) : peeked :=
  if (count d =? 0)%nat then Some (if is_closed (tk d) then EOF else NONE, d, k, nbytes)
  else
    b0 ← charat (tk d) 0;
    if b0 =? 0x1b then
      if (count d =? 1)%nat then
        if negb force then Some (AGAIN, d, k, nbytes)
        else k ← emit_codepoint (tk d) b0 k; Some (KEY, d, k, 1%nat)
      else
        '(r, d, k, n) ← peek (set_tk (ahead 1 (tk d)) d) k force nbytes;
        let d := set_tk (behind 1 (tk d)) d in
        Some (if bool_decide (r = KEY) then (r, d, add_modifiers KEYMOD_ALT k, S n) else (r, d, k, n))
    else if b0 <? 0xa0 then k ← emit_codepoint (tk d) b0 k; Some (KEY, d, k, 1%nat)
    else if flag (flags (tk d)) FLAG_UTF8 then
      p ← parse_utf8 (window (tk d)) (count d);
      let '(r, cp, n) :=
        match p with
        | Utf8Char cp n => (KEY, cp, n)
        | Utf8Again cp => if force then (KEY, UTF8_INVALID, count d) else (AGAIN, cp, nbytes)
        end in
      k ← emit_codepoint (tk d) cp (set_modifiers 0 (set_type UNICODE k));
      Some (r, d, k, n)
    else Some (KEY, d, raw_key b0 k, 1%nat).

(** The two drivers in their order, then the plain keys.  Each turn of the recursion
    takes an ESC. *)
Fixpoint peekkey (fuel : nat) (d : decoder) (k : TermKey.key) (force : bool) (nbytes : nat) : peeked :=
  match fuel with
  | O => None
  | S fuel =>
      if negb (is_started (tk d)) then Some (ERROR, d, k, nbytes)
      else
        t ← apply_hightide (tk d);
        let d := set_tk t d in
        '(r1, k, n) ← ti_peekkey (tk d) (the_ti d) k force nbytes;
        match r1 with
        | KEY => Some (KEY, set_tk (slide (tk d)) d, k, n)
        | EOF | ERROR => Some (r1, d, k, n)
        | AGAIN | NONE =>
            '(r2, t, c, k, n) ← csi_peekkey (tk d) (the_csi d) k force n;
            let d := set_csi c (set_tk t d) in
            match r2 with
            | KEY => Some (KEY, set_tk (slide (tk d)) d, k, n)
            | EOF | ERROR => Some (r2, d, k, n)
            | AGAIN | NONE =>
                if negb force && (bool_decide (r1 = AGAIN) || bool_decide (r2 = AGAIN)) then Some (AGAIN, d, k, n)
                else peekkey_simple (peekkey fuel) d k force n
            end
        end
  end.

(** ** Taking keys *)

Definition peek (d : decoder) : TermKey.key -> bool -> nat -> peeked := peekkey (S (count d)) d.

Definition eat (n : nat) (d : decoder) : decoder := set_tk (eat_bytes n (tk d)) d.

Definition termkey_getkey (d : decoder) (k : TermKey.key) : option (termkey_result * decoder * TermKey.key) :=
  '(r, d, k, n) ← peek d k false 0;
  match r with
  | KEY => Some (r, eat n d, k)
  | AGAIN => '(_, d, k, _) ← peek d k true n; Some (r, d, k)
  | _ => Some (r, d, k)
  end.

Definition termkey_getkey_force (d : decoder) (k : TermKey.key) : option (termkey_result * decoder * TermKey.key) :=
  '(r, d, k, n) ← peek d k true 0;
  Some (r, if bool_decide (r = KEY) then eat n d else d, k).

(** ** Waiting for a key *)

(** What [poll] answers: bytes, a hang-up or an error of the descriptor; the time is up;
    a signal; another error. *)
Inductive poll_result := Ready | TimedOut | PollInterrupted | PollFailed.

(** A wait that is interrupted starts again, unless errors were asked for. *)
Fixpoint poll_retry (eintr : bool) (polls : list poll_result) : option (poll_result * list poll_result) :=
  match polls with
  | [] => None
  | PollInterrupted :: polls => if eintr then Some (PollFailed, polls) else poll_retry eintr polls
  | p :: polls => Some (p, polls)
  end.

Definition advise (d : decoder) (reads : list read_result) : option (termkey_result * decoder * list read_result) :=
  '(r, t, reads) ← termkey_advisereadable (tk d) reads; Some (r, set_tk t d, reads).

Fixpoint wait_loop (fuel : nat) (d : decoder) (k : TermKey.key) (reads : list read_result) (polls : list poll_result) :
  option (termkey_result * decoder * TermKey.key) :=
  match fuel with
  | O => None
  | S fuel =>
      '(r, d, k) ← termkey_getkey d k;
      match r with
      | KEY | EOF | ERROR => Some (r, d, k)
      | NONE =>
          '(r, d, reads) ← advise d reads;
          if bool_decide (r = ERROR) then Some (ERROR, d, k) else wait_loop fuel d k reads polls
      | AGAIN =>
          if is_closed (tk d) then termkey_getkey_force d k
          else
            '(p, polls) ← poll_retry (flag (flags (tk d)) FLAG_EINTR) polls;
            match p with
            | PollFailed | PollInterrupted => Some (ERROR, d, k)
            | TimedOut => termkey_getkey_force d k
            | Ready =>
                '(r, d, reads) ← advise d reads;
                match r with
                | ERROR => Some (ERROR, d, k)
                | NONE => termkey_getkey_force d k
                | _ => wait_loop fuel d k reads polls
                end
            end
      end
  end.

Definition termkey_waitkey (d : decoder) (k : TermKey.key) (reads : list read_result) (polls : list poll_result) :
  option (termkey_result * decoder * TermKey.key) :=
  if fd (tk d) =? -1 then Some (ERROR, d, k) else wait_loop (S (length reads + length polls)) d k reads polls.

(** ** Construction *)

(** [env_utf8]: whether the locale names UTF-8.  Of [termkey_start] what the attributes
    of the terminal do not show; [None] inside is a failed start. *)
Definition new_flags (newflags : Z) (env_utf8 : bool) : Z :=
  if Z.land newflags (Z.lor FLAG_RAW FLAG_UTF8) =? 0 then Z.lor newflags (if env_utf8 then FLAG_UTF8 else FLAG_RAW) else newflags.

Definition termkey_start `{Terminfo} (d : decoder) (kind : fd_kind) (writes : list Z) : option (bool * decoder) :=
  if is_started (tk d) then Some (true, d)
  else
    '(ok, _, i) ← start_driver (tk d) (the_ti d) kind writes;
    let d := Decoder (tk d) i (the_csi d) in
    Some (if (ok : bool) then (true, set_tk (set_started true (tk d)) d) else (false, d)).

Definition set_fd (f : Z) (t : termkey) : termkey :=
  Termkey f (flags t) (canonflags t) (buffer t) (buffstart t) (buffcount t) (hightide t) (waittime t) (is_closed t) (is_started t) (keynames t) (c0 t).

Definition termkey_new `{Terminfo} (f newflags : Z) (env_utf8 : bool) (kind : fd_kind) (writes : list Z) : option (option decoder) :=
  let newflags := new_flags newflags env_utf8 in
  t ← termkey_init (termkey_set_flags newflags (set_fd f termkey_alloc));
  let d := Decoder t new_ti new_csi in
  if flag newflags FLAG_NOSTART then Some (Some d)
  else '(ok, d) ← termkey_start d kind writes; Some (if (ok : bool) then Some d else None).

(** A decoder without a terminal. *)
Definition termkey_new_abstract `{Terminfo} (newflags : Z) : option (option decoder) :=
  t ← termkey_init (termkey_set_flags newflags termkey_alloc);
  let d := Decoder t new_ti new_csi in
  if flag newflags FLAG_NOSTART then Some (Some d)
  else '(ok, d) ← termkey_start d NoStat []; Some (if (ok : bool) then Some d else None).

(** What the driver writes; its own failure is not looked at. *)
Definition termkey_stop (d : decoder) (kind : fd_kind) (writes : list Z) : option (bstr * decoder) :=
  if negb (is_started (tk d)) then Some ([], d)
  else '(_, out) ← stop_driver (tk d) (the_ti d) kind writes; Some (out, set_tk (set_started false (tk d)) d).

(** The decoder of the terminal interface. *)
Definition tui_keys_init_decoder `{Terminfo} (env_utf8 : bool) (kind : fd_kind) (writes : list Z) : option (option decoder) :=
  d ← termkey_new 0 (Z.lor FLAG_CTRLC FLAG_RAW) env_utf8 kind writes;
  Some (option_map (fun d => set_tk (termkey_set_flags (Z.lor (flags (tk d)) FLAG_NOTERMIOS) (termkey_set_canonflags CANON_DELBS (tk d))) d) d).

(** ** The loop of the interface *)

Definition tui_type (t : TermKey.key_type) : TuiKeys.key_type :=
  match t with UNICODE => KUnicode | FUNCTION => KFunction | KEYSYM => KKeysym | MOUSE => KMouse | _ => KOther end.

Definition to_tui (k : TermKey.key) : TuiKeys.key := TuiKeys.Key (tui_type (TermKey.type k)) (kcode k) (TermKey.modifiers k).

(** The keys up to the point where no whole key waits.  An error would be handed on as a
    key, without end. *)
Fixpoint take_keys (fuel : nat) (d : decoder) (k : TermKey.key) : option (list TermKey.key * decoder) :=
  match fuel with
  | O => None
  | S fuel =>
      '(r, d, k) ← termkey_getkey d k;
      match r with
      | KEY => '(ks, d) ← take_keys fuel d k; Some (k :: ks, d)
      | ERROR => None
      | NONE | EOF | AGAIN => Some ([], d)
      end
  end.

Definition stdin_ev_cb `{App} (u : ui) (d : decoder) (k : TermKey.key) (reads : list read_result) : option (ui * decoder) :=
  '(_, d, _) ← advise d reads;
  '(ks, d) ← take_keys (S (count d)) d k;
  u ← handle_keys u (map to_tui ks);
  Some (u, d).

(** ** Keys come to an end *)

Lemma slide_window t : buffer_ok t -> (buffsize t = 2 * (buffsize t / 2))%nat ->
  window (slide t) = window t /\ buffer_ok (slide t) /\ buffcount (slide t) = buffcount t /\ buffsize (slide t) = buffsize t.
Proof.
  intros Hok He. unfold slide. destruct (Nat.ltb_spec (buffsize t / 2) (buffstart t)) as [Hlt |]; [| done].
  set (h := (buffsize t / 2)%nat) in *. pose proof Hok as [H1 H2]. unfold buffsize in *.
  assert (length (take h (drop h (buffer t))) = h) as Hh by (rewrite length_take, length_drop; lia).
  split_and!; [| constructor | done |].
  - unfold window. cbn [buffcount buffstart buffer set_buffer]. unfold copy_in. cbn [take firstn app].
    rewrite take_0, app_nil_l, drop_app_le, take_app_le by (rewrite ?length_drop; lia).
    replace (take h (drop h (buffer t))) with (take (buffstart t - h + (h - (buffstart t - h))) (drop h (buffer t))) by (f_equal; lia).
    rewrite <- take_drop_commute, take_take, drop_drop. f_equal; [lia |]. f_equal. lia.
  - unfold buffsize. cbn [buffer buffstart buffcount set_buffer]. rewrite length_copy_in; lia.
  - cbn. apply copy_in_bytes; [| done]. by apply Forall_take, Forall_drop.
  - cbn [buffer buffstart buffcount set_buffer]. rewrite length_copy_in; lia.
Qed.

Lemma walk_found p w n i : walk p w = Some (Found n i) -> (1 <= n)%nat /\ w <> [].
Proof.
  revert p n. induction w as [| b w IH]; intros p n; cbn [walk]; [done |]. destruct (lookup_next p b) as [[next |] |]; cbn [mbind option_bind]; [| done..].
  destruct next as [j | m m' arr]; [intros [= <- _]; by split; [lia |] |].
  destruct (walk _ w) as [[] |]; cbn; [| done..]. intros [= <- _]. by split; [lia |].
Qed.

(** A driver leaves the buffer alone, and says how much of it a key takes. *)
Lemma ti_takes t d k force n0 r k' n : ti_peekkey t d k force n0 = Some (r, k', n) -> r = KEY -> (1 <= n)%nat /\ (1 <= buffcount t)%nat.
Proof.
  unfold ti_peekkey. intros H ->. destruct (Nat.eqb_spec (buffcount t) 0); [by destruct (is_closed t) |].
  destruct (root d); cbn [mbind option_bind] in H; [| done]. destruct (walk _ _) as [w |] eqn:E; cbn [mbind option_bind] in H; [| done].
  destruct w as [pos i | |]; [| done | by destruct force]. apply walk_found in E as [Hpos _]. split; [| lia].
  destruct (bool_decide (ki_type i = MOUSE)); [| by injection H as _ <-].
  destruct (peekkey_mouse _ _) as [[[r' kk] nn] |]; cbn [mbind option_bind] in H; [| done]. injection H as -> _ <-.
  rewrite bool_decide_eq_true_2 by done. lia.
Qed.

#[local] Definition takes (t : termkey) (o : TermCsi.peeked) : Prop :=
  forall r t' d' k' n, o = Some (r, t', d', k', n) -> (exists h, t' = set_hightide h t) /\ (r = KEY -> (1 <= n)%nat).

Lemma takes_self t r d k n : (r = KEY -> (1 <= n)%nat) -> takes t (Some (r, t, d, k, n)).
Proof. intros H r' t' d' k' n' [= <- <- <- <- <-]. split; [exists (hightide t); by destruct t | done]. Qed.

Lemma takes_none t : takes t None.
Proof. done. Qed.

Lemma takes_bind {A} t (o : option A) f : (forall x, o = Some x -> takes t (f x)) -> takes t (o ≫= f).
Proof. intros H. destruct o; [by apply H | done]. Qed.

Lemma takes_hightide t h d k n : (1 <= n)%nat -> takes t (Some (KEY, set_hightide h t, d, k, n)).
Proof. intros Hn r' t' d' k' n' [= <- <- <- <- <-]. split; [by exists h | done]. Qed.

#[local] Hint Resolve takes_none : core.
#[local] Ltac taking := repeat first
  [ apply takes_none | apply takes_bind; intros | apply takes_hightide; lia | apply takes_self; first [discriminate | done | intros _; case_match; lia | intros _; lia]
  | progress (cbv zeta) | match goal with |- takes _ (match ?x with _ => _ end) => destruct x eqn:? end ].

Lemma ss3_takes t d intro k force n0 : (1 <= buffcount t)%nat -> takes t (peekkey_ss3 t d intro k force n0).
Proof. intros Hc. unfold peekkey_ss3. taking. Qed.

Lemma ctrlstring_takes t d intro k n0 : takes t (peekkey_ctrlstring t d intro k n0).
Proof. unfold peekkey_ctrlstring. taking. Qed.

Lemma find_final_from n : forall t i e, find_final n t i = Some (Some e) -> (i <= e)%nat.
Proof.
  induction n as [| n IH]; intros t i e; cbn [find_final]; [done |]. destruct (charat t i); cbn [mbind option_bind]; [| done].
  case_match; [intros [= <-]; lia |]. intros Hn%IH. lia.
Qed.

Lemma parse_csi_len t i a p : parse_csi t i a = Some (Some p) -> (i < csi_len p)%nat.
Proof.
  unfold parse_csi. destruct (find_final _ t i) as [[e |] |] eqn:E; cbn [mbind option_bind]; [| done..]. apply find_final_from in E.
  intros H. simplify_option_eq; cbn; lia.
Qed.

Lemma csi_takes t d intro k force n0 : (1 <= intro)%nat -> takes t (peekkey_csi t d intro k force n0).
Proof.
  intros Hi. unfold peekkey_csi. apply takes_bind. intros [p |] Hp; [apply parse_csi_len in Hp | taking]. taking.
  apply takes_self. intros ->. rewrite bool_decide_eq_true_2 by done. lia.
Qed.

Lemma csi_peek_takes t d k force n0 : takes t (csi_peekkey t d k force n0).
Proof.
  unfold csi_peekkey. case_match eqn:E; [apply takes_self; by destruct (is_closed t) |]. apply Nat.eqb_neq in E.
  repeat first [apply takes_self; discriminate | apply ss3_takes; lia | apply ctrlstring_takes | apply csi_takes; lia | apply takes_bind; intros | case_match].
Qed.

(** ** One peek *)

Lemma high_tide_count t t' : apply_hightide t = Some t' -> (buffcount t' <= buffcount t)%nat /\ is_started t' = is_started t.
Proof. unfold apply_hightide. repeat case_match; intros [= <-]; cbn; split; try done; lia. Qed.

Lemma slide_count t : buffcount (slide t) = buffcount t.
Proof. unfold slide. by case_match. Qed.

#[local] Definition peeks (d : decoder) (o : peeked) : Prop :=
  forall r d' k' n, o = Some (r, d', k', n) -> (count d' <= count d)%nat /\ (r = KEY -> (1 <= n)%nat /\ (1 <= count d)%nat).

Lemma peeks_bind {A} d (o : option A) f : (forall x, o = Some x -> peeks d (f x)) -> peeks d (o ≫= f).
Proof. intros H. destruct o; [by apply H | done]. Qed.

Lemma peeks_some d r d' k n : (count d' <= count d)%nat -> (r = KEY -> (1 <= n)%nat /\ (1 <= count d)%nat) -> peeks d (Some (r, d', k, n)).
Proof. intros H1 H2 r' d'' k' n' [= <- <- <- <-]. done. Qed.

Lemma utf8_takes bytes len cp n : parse_utf8 bytes len = Some (Utf8Char cp n) -> (1 <= n)%nat.
Proof.
  assert (forall m acc b nb, (1 <= b)%nat -> (1 <= nb)%nat -> utf8_more m bytes len acc b nb = Some (Utf8Char cp n) -> (1 <= n)%nat) as Hmore.
  { induction m as [| m IH]; intros acc b nb Hb Hnb; cbn [utf8_more]; [intros [= _ <-]; done |]. case_match; [done |].
    destruct (bytes !! b); cbn [mbind option_bind]; [| done]. case_match; [intros [= _ <-]; done |]. apply IH; lia. }
  unfold parse_utf8. destruct (bytes !! 0%nat); cbn [mbind option_bind]; [| done].
  repeat case_match; first [intros [= _ <-]; lia | apply Hmore; lia].
Qed.

Lemma simple_peeks P d k force n0 : (forall d k force n, peeks d (P d k force n)) -> peeks d (peekkey_simple P d k force n0).
Proof.
  intros HP. unfold peekkey_simple. destruct (Nat.eqb_spec (count d) 0) as [Hz | Hz]; [apply peeks_some; [done | by destruct (is_closed (tk d))] |].
  apply peeks_bind. intros b0 _. case_match.
  - destruct (Nat.eqb_spec (count d) 1) as [Ho | Ho].
    + destruct force; cbn [negb]; [apply peeks_bind; intros kk _ |]; (apply peeks_some; [done | first [discriminate | lia]]).
    + apply peeks_bind. intros [[[r d1] k1] n1] E. apply HP in E as [H1 H2]. unfold count in *. cbn [set_tk tk ahead set_buffer buffcount] in *.
      destruct (bool_decide_reflect (r = KEY)); apply peeks_some; unfold count; cbn [set_tk tk behind set_buffer buffcount]; intros; first [lia | congruence].
  - case_match; [apply peeks_bind; intros kk _; apply peeks_some; [done | lia] |].
    case_match; [| apply peeks_some; [done | lia]]. apply peeks_bind. intros p Hp. destruct p as [cp | cp m].
    + destruct force; (apply peeks_bind; intros kk _; apply peeks_some; [done | first [discriminate | lia]]).
    + apply utf8_takes in Hp. apply peeks_bind. intros kk _. by apply peeks_some; [| lia].
Qed.

Lemma csi_nonempty t d k force n0 t' d' k' n : csi_peekkey t d k force n0 = Some (KEY, t', d', k', n) -> (1 <= buffcount t)%nat.
Proof. unfold csi_peekkey. destruct (Nat.eqb_spec (buffcount t) 0); [by destruct (is_closed t) | lia]. Qed.

(** Keys take bytes, and nothing puts bytes in. *)
Lemma peek_takes fuel : forall d k force n0, peeks d (peekkey fuel d k force n0).
Proof.
  induction fuel as [| fuel IH]; intros d k force n0; cbn [peekkey]; [done |].
  case_match; [by apply peeks_some |].
  apply peeks_bind. intros t [Ht _]%high_tide_count. apply peeks_bind. intros [[r1 k1] n1] E1.
  pose proof (ti_takes _ _ _ _ _ _ _ _ E1) as H1. cbn [set_tk tk the_ti the_csi] in *.
  assert (peeks d (csi_peekkey t (the_csi d) k1 force n1 ≫= fun '(r2, t, c, k, n) =>
    let d := set_csi c (set_tk t d) in
    match r2 with
    | KEY => Some (KEY, set_tk (slide (tk d)) d, k, n)
    | EOF | ERROR => Some (r2, d, k, n)
    | AGAIN | NONE =>
        if negb force && (bool_decide (r1 = AGAIN) || bool_decide (r2 = AGAIN)) then Some (AGAIN, d, k, n)
        else peekkey_simple (peekkey fuel) d k force n
    end)) as Hcsi.
  { apply peeks_bind. intros [[[[r2 t2] c] k2] n2] E2. destruct (csi_peek_takes _ _ _ _ _ _ _ _ _ _ E2) as [[h ->] H2].
    assert (forall r n, (r = KEY -> (1 <= n)%nat /\ (1 <= buffcount t)%nat) -> forall d', count d' = buffcount t -> peeks d (Some (r, d', k2, n))) as Hsome.
    { intros r n Hr d' Hd'. unfold count in *. apply peeks_some; unfold count; [lia |]. intros E. specialize (Hr E). lia. }
    cbv zeta. assert (peeks d (peekkey_simple (peekkey fuel) (set_csi c (set_tk (set_hightide h t) d)) k2 force n2)) as Hs.
    { intros r d' k' n E. apply (simple_peeks _ _ _ _ _ IH) in E as [G1 G2]. unfold count in *. cbn in G1, G2. split; [lia |]. intros Er. specialize (G2 Er). lia. }
    destruct r2; repeat case_match; first [exact Hs | apply Hsome; [done | done] | idtac].
    apply Hsome; [| unfold count; cbn [set_tk set_csi tk]; by rewrite slide_count]. intros _. split; [by apply H2 | by eapply csi_nonempty]. }
  destruct r1; try exact Hcsi; apply peeks_some; unfold count; cbn [set_tk tk]; rewrite ?slide_count; try done; try lia.
  intros _. specialize (H1 eq_refl). lia.
Qed.

(** More fuel than bytes changes nothing. *)
Lemma simple_same P Q d k force n0 : (forall d', (count d' < count d)%nat -> forall k force n, P d' k force n = Q d' k force n) ->
  peekkey_simple P d k force n0 = peekkey_simple Q d k force n0.
Proof.
  intros H. unfold peekkey_simple. case_match eqn:E0; [done |]. apply Nat.eqb_neq in E0.
  destruct (charat (tk d) 0) as [b0 |]; cbn [mbind option_bind]; [| done]. case_match; [| done]. case_match; [done |].
  rewrite H; [done |]. unfold count in *. cbn. lia.
Qed.

Lemma peek_fuel f : forall f' d k force n, (count d < f)%nat -> (count d < f')%nat -> peekkey f d k force n = peekkey f' d k force n.
Proof.
  induction f as [| f IH]; intros f' d k force n H1 H2; [lia |]. destruct f' as [| f']; [lia |]. cbn [peekkey].
  case_match; [done |]. destruct (apply_hightide (tk d)) as [t |] eqn:Et; cbn [mbind option_bind]; [| done]. apply high_tide_count in Et as [Ht _].
  destruct (ti_peekkey _ _ _ _ _) as [[[r1 k1] n1] |]; cbn [mbind option_bind]; [| done].
  assert (forall k n c t2 h, t2 = set_hightide h t -> peekkey_simple (peekkey f) (set_csi c (set_tk t2 (set_tk t d))) k force n =
    peekkey_simple (peekkey f') (set_csi c (set_tk t2 (set_tk t d))) k force n) as Hs.
  { intros k2 n2 c t2 h ->. apply simple_same. unfold count in *. cbn. intros d' Hd' k3 force3 n3. apply IH; unfold count; lia. }
  cbn [set_tk tk the_ti the_csi].
  destruct (csi_peekkey t (the_csi d) k1 force n1) as [[[[[r2 t2] c] k2] n2] |] eqn:E2; cbn [mbind option_bind]; [| done].
  destruct (csi_peek_takes _ _ _ _ _ _ _ _ _ _ E2) as [[h ->] _].
  destruct r1, r2; try done; case_match; first [done | by eapply Hs].
Qed.

Lemma getkey_takes d k r d' k' : termkey_getkey d k = Some (r, d', k') ->
  (count d' <= count d)%nat /\ (r = KEY -> (count d' < count d)%nat).
Proof.
  unfold termkey_getkey, peek. destruct (peekkey _ d k false 0) as [[[[r1 d1] k1] n1] |] eqn:E; cbn [mbind option_bind]; [| done].
  apply peek_takes in E as [H1 H2]. assert (count (eat n1 d1) <= count d1 /\ (1 <= n1 -> 1 <= count d1 -> count (eat n1 d1) < count d1))%nat as [He1 He2].
  { unfold count, eat, eat_bytes. cbn [set_tk tk]. case_match eqn:El; cbn [set_buffer buffcount]; [lia |]. apply Nat.leb_gt in El. lia. }
  destruct r1; [intros [= <- <- <-] | intros [= <- <- <-] | intros [= <- <- <-] | | intros [= <- <- <-]]; try (split; [lia | discriminate]).
  - split; [lia |]. intros _. destruct (H2 eq_refl). destruct (decide (1 <= count d1)%nat); [lia |].
    unfold count in *. lia.
  - destruct (peekkey _ d1 k1 true n1) as [[[[r2 d2] k2] n2] |] eqn:E2; cbn [mbind option_bind]; [| done].
    intros [= <- <- <-]. apply peek_takes in E2 as [G1 _]. split; [lia | discriminate].
Qed.

(** The loop over the keys comes to an end: every key takes at least one byte, so
    with more turns than bytes are waiting it does what it does with any number of turns,
    and it decodes at most one key per byte. *)
Theorem keys_come_to_an_end fuel : forall d k, (count d < fuel)%nat ->
  take_keys fuel d k = take_keys (S (count d)) d k /\
  forall ks d', take_keys fuel d k = Some (ks, d') -> (length ks + count d' <= count d)%nat.
Proof.
  induction fuel as [fuel IH] using lt_wf_ind. intros d k Hf. destruct fuel as [| fuel]; [lia |].
  assert (forall fuel, take_keys (S fuel) d k = match termkey_getkey d k with
    | Some (KEY, d, k) => '(ks, d) ← take_keys fuel d k; Some (k :: ks, d)
    | Some (ERROR, _, _) => None
    | Some (_, d, _) => Some ([], d)
    | None => None end) as Hstep.
  { intros g. cbn [take_keys]. destruct (termkey_getkey d k) as [[[r d1] k1] |]; [by destruct r | done]. }
  rewrite !Hstep. destruct (termkey_getkey d k) as [[[r d1] k1] |] eqn:E; [| done]. apply getkey_takes in E as [H1 H2].
  destruct r; try (split; [done |]; intros ks d' [= <- <-]; cbn; lia). specialize (H2 eq_refl).
  destruct (IH fuel ltac:(lia) d1 k1 ltac:(lia)) as [E1 Hlen]. destruct (IH (count d) ltac:(lia) d1 k1 ltac:(lia)) as [E2 _].
  rewrite E1 in *. rewrite E2. split; [done |]. destruct (take_keys (S (count d1)) d1 k1) as [[ks d2] |] eqn:E; cbn [mbind option_bind]; [| done].
  intros ks' d' [= <- <-]. specialize (Hlen ks d2 eq_refl). cbn [length]. lia.
Qed.

(** ** A typed line *)

(** The decoder of the interface with the bytes [w] waiting; the sequences of the
    terminal's description, [es], begin with ESC. *)
Record waiting (es : list entry) (w : list Z) (d : decoder) : Prop := {
  w_started : is_started (tk d) = true;
  w_hightide : hightide (tk d) = 0%nat;
  w_window : window (tk d) = w;
  w_buffer : buffer_ok (tk d);
  w_fd : fd (tk d) <> -1;
  w_size : buffsize (tk d) = 256%nat;
  w_flags : flags (tk d) = 84;
  w_canon : canonflags (tk d) = CANON_DELBS;
  w_enter : c0 (tk d) !! 13%nat = Some (Keyinfo UNICODE SYM_ENTER 0 0);
  w_trie : exists t, root (the_ti d) = Some t /\ forall w, Forall is_byte w -> walk t w = Some (classify es w);
  w_esc : Forall (fun e : entry => exists s, e.1 = 0x1b :: s) es }.

Lemma no_sequence es b w : Forall (fun e : entry => exists s, e.1 = 0x1b :: s) es -> b <> 0x1b -> classify es (b :: w) = Off.
Proof.
  intros Hes Hb. unfold classify. rewrite Forall_forall in Hes.
  destruct (List.find _ es) as [e |] eqn:E.
  - exfalso. apply find_some in E as [Hin%list_elem_of_In Hp]. destruct (Hes _ Hin) as [s Hs]. rewrite Hs in Hp.
    apply bool_decide_eq_true, prefix_cons_inv_1 in Hp. congruence.
  - replace (existsb _ es) with false; [done |]. symmetry. apply not_true_iff_false. intros (e & Hin%list_elem_of_In & Hp)%existsb_exists.
    destruct (Hes _ Hin) as [s Hs]. rewrite Hs in Hp. apply bool_decide_eq_true, prefix_cons_inv_1 in Hp. congruence.
Qed.

(** Bytes that are a key on their own. *)
Definition plain_byte (b : Z) : Prop := 32 <= b < 127 \/ b = 13.

Definition byte_key (b : Z) : TuiKeys.key := if b =? 13 then enter_key else TuiKeys.Key KUnicode b 0.

Lemma emit_plain t b k : plain_byte b -> flags t = 84 -> canonflags t = CANON_DELBS -> c0 t !! 13%nat = Some (Keyinfo UNICODE SYM_ENTER 0 0) ->
  exists k', emit_codepoint t b k = Some k' /\ to_tui k' = byte_key b.
Proof.
  intros Hb Hf Hc He. unfold emit_codepoint, termkey_canonicalise, byte_key. rewrite Hc, Hf.
  change (flag CANON_DELBS CANON_SPACESYMBOL) with false. change (flag CANON_DELBS CANON_DELBS) with true.
  destruct Hb as [Hb | ->].
  - replace (b =? 0) with false by lia. replace (b <? 32) with false by lia. replace (b =? 127) with false by lia.
    replace ((32 <=? b) && (b <? 128)) with true by lia. cbn [andb mbind option_bind type set_modifiers set_code set_type kcode].
    replace (b =? 13) with false by lia. cbn. by eexists.
  - cbn [Z.eqb Z.ltb Z.compare]. unfold c0_key. rewrite Hf. change (flag 84 FLAG_NOINTERPRET) with false. change (Z.to_nat 13) with 13%nat. cbn [Z.ltb Z.compare].
    rewrite He. cbn. by eexists.
Qed.

Lemma with_own_tk d : set_tk (tk d) d = d.
Proof. by destruct d. Qed.

Lemma with_own_csi d : set_csi (the_csi d) d = d.
Proof. by destruct d. Qed.

Lemma waiting_count es w d : waiting es w d -> count d = length w.
Proof. intros H. unfold count. by rewrite <- (length_window _ (w_buffer _ _ _ H)), (w_window _ _ _ H). Qed.

Lemma waiting_eat es b w d : waiting es (b :: w) d -> waiting es w (eat 1 d).
Proof.
  intros H. assert (forall n t, fd (eat_bytes n t) = fd t /\ is_started (eat_bytes n t) = is_started t /\ hightide (eat_bytes n t) = hightide t /\
    buffer (eat_bytes n t) = buffer t /\ flags (eat_bytes n t) = flags t /\ canonflags (eat_bytes n t) = canonflags t /\ c0 (eat_bytes n t) = c0 t) as He.
  { intros n t. unfold eat_bytes. by case_match. }
  destruct (He 1%nat (tk d)) as (E1 & E2 & E3 & E4 & E5 & E6 & E7), H.
  constructor; unfold eat, buffsize in *; cbn [set_tk tk the_ti]; rewrite ?E1, ?E2, ?E3, ?E4, ?E5, ?E6, ?E7; try done.
  - rewrite window_eat by done. by rewrite w_window0.
  - by apply eat_ok.
Qed.

(** One such byte is one key. *)
Lemma getkey_plain es b w d k : waiting es (b :: w) d -> plain_byte b ->
  exists k', termkey_getkey d k = Some (KEY, eat 1 d, k') /\ to_tui k' = byte_key b.
Proof.
  intros H Hb. pose proof (waiting_count _ _ _ H) as Hc. cbn [length] in Hc.
  pose proof (window_bytes _ (w_buffer _ _ _ H)) as Hbytes. destruct H as [Hs Hh Hw Hok _ _ Hf Hcn He (t & Ht & Hwalk) Hes].
  destruct (emit_plain (tk d) b k Hb Hf Hcn He) as (k' & Hk' & Hto). exists k'. split; [| done].
  assert (charat (tk d) 0 = Some b) as Hch by (unfold charat; by rewrite Hw).
  assert (buffcount (tk d) =? 0 = false)%nat as Hc0 by (apply Nat.eqb_neq; unfold count in Hc; lia).
  unfold termkey_getkey, peek. cbn [peekkey]. rewrite Hs. cbn [negb]. unfold apply_hightide. rewrite Hh. cbn [Nat.eqb mbind option_bind].
  rewrite with_own_tk. unfold ti_peekkey. rewrite Hc0, Ht. cbn [mbind option_bind]. rewrite Hwalk, Hw, (no_sequence es b w Hes) by (try done; unfold plain_byte in Hb; lia).
  cbn [mbind option_bind]. unfold csi_peekkey. rewrite Hc0, Hch. cbn [mbind option_bind]. unfold plain_byte in Hb.
  replace (b =? 27) with false by lia. replace (b =? 143) with false by lia. replace ((b =? 144) || (b =? 157)) with false by lia.
  replace (b =? 155) with false by lia. cbn [mbind option_bind]. rewrite with_own_tk, with_own_csi.
  rewrite !bool_decide_eq_false_2 by done. cbn [negb andb orb]. unfold peekkey_simple, count. rewrite Hc0, Hch. cbn [mbind option_bind].
  replace (b =? 27) with false by lia. replace (b <? 160) with true by lia. rewrite Hk'. done.
Qed.

Lemma take_plain es bs : forall d k, waiting es bs d -> Forall plain_byte bs ->
  exists ks d', take_keys (S (count d)) d k = Some (ks, d') /\ map to_tui ks = map byte_key bs /\ waiting es [] d'.
Proof.
  induction bs as [| b bs IH]; intros d k Hd Hbs.
  - exists [], d. split_and!; [| done | done]. pose proof (waiting_count _ _ _ Hd) as Hc. cbn [length] in Hc.
    destruct Hd as [Hs Hh Hw Hok _ _ Hf Hcn He (t & Ht & Hwalk) Hes]. unfold count in *.
    cbn [take_keys]. unfold termkey_getkey, peek, count. cbn [peekkey]. rewrite Hs. cbn [negb]. unfold apply_hightide. rewrite Hh. cbn [Nat.eqb mbind option_bind].
    rewrite with_own_tk. unfold ti_peekkey, csi_peekkey, peekkey_simple, count. rewrite Hc. cbn [Nat.eqb mbind option_bind].
    destruct (is_closed (tk d)) eqn:Ecl; cbn [mbind option_bind]; [done |].
    rewrite !bool_decide_eq_false_2 by done. cbn [negb andb orb tk set_tk set_csi]. rewrite ?Hc, ?Ecl. cbn [Nat.eqb mbind option_bind]. by destruct d.
  - apply Forall_cons in Hbs as [Hb Hbs]. destruct (getkey_plain es b bs d k Hd Hb) as (k' & E & Hk').
    pose proof (waiting_eat _ _ _ _ Hd) as Hd'. destruct (IH (eat 1 d) k' Hd' Hbs) as (ks & d' & Etk & Hks & Hw').
    exists (k' :: ks), d'. cbn [map take_keys]. rewrite E, Hk', Hks. cbn [mbind option_bind].
    assert (take_keys (count d) (eat 1 d) k' = Some (ks, d')) as ->; [| done].
    rewrite <- Etk. pose proof (waiting_count _ _ _ Hd). pose proof (waiting_count _ _ _ Hd'). cbn [length] in *. do 2 f_equal. lia.
Qed.

(** The bytes of one read. *)
Lemma advise_waiting es d bytes : waiting es [] d -> bytes <> [] -> (length bytes <= 256)%nat -> Forall (fun x => 0 <= x < 256) bytes ->
  exists d', advise d [Data bytes] = Some (AGAIN, d', []) /\ waiting es bytes d'.
Proof.
  intros H Hne Hlen Hb. pose proof (waiting_count _ _ _ H) as Hc. cbn [length] in Hc. unfold count in Hc.
  destruct H as [Hs Hh Hw Hok Hfd Hsz Hf Hcn He Htr Hes]. unfold advise, termkey_advisereadable.
  replace (fd (tk d) =? -1) with false by (symmetry; by apply Z.eqb_neq). destruct (window_front _ Hok) as (W1 & W2 & W3).
  assert (buffcount (to_front (tk d)) = 0%nat /\ buffsize (to_front (tk d)) = 256%nat) as [C1 C2].
  { unfold to_front in *. case_match; [done |]. cbn. split; [done |]. unfold buffsize in *. cbn. rewrite length_copy_in; [done |]. rewrite (length_window _ Hok). lia. }
  rewrite C1, C2. cbn [Nat.leb read_retry]. rewrite C1, C2. rewrite take_ge by (cbn; lia). cbn [mbind option_bind].
  destruct (window_append (to_front (tk d)) bytes W2 W3 ltac:(lia) Hb) as [A1 A2]. cbn zeta in A1, A2. rewrite C1 in A1, A2. rewrite W1, Hw in A1.
  eexists. split; [reflexivity |]. assert (forall t : termkey, is_started (to_front t) = is_started t /\ hightide (to_front t) = hightide t /\ fd (to_front t) = fd t /\
    flags (to_front t) = flags t /\ canonflags (to_front t) = canonflags t /\ c0 (to_front t) = c0 t) as Hfr by (intros t; unfold to_front; by case_match).
  destruct (Hfr (tk d)) as (F1 & F2 & F3 & F4 & F5 & F6).
  constructor; cbn [set_tk tk the_ti set_buffer is_started hightide fd flags canonflags c0]; rewrite ?F1, ?F2, ?F3, ?F4, ?F5, ?F6; try done.
  unfold buffsize in *. cbn. rewrite length_copy_in; [done | cbn; lia].
Qed.

(** What start-up leaves. *)
Lemma init_waiting `{Terminfo} env kind writes es d :
  setupterm_ok = true -> accept_all [] loaded = Some es -> Forall (fun e : entry => exists s, e.1 = 0x1b :: s) es ->
  tui_keys_init_decoder env kind writes = Some (Some d) -> waiting es [] d.
Proof.
  intros Hs Hes Hesc. pose proof (load_is_list Hs) as Hl. rewrite Hes in Hl. destruct Hl as (t & Hl & Hw).
  unfold tui_keys_init_decoder, termkey_new. replace (new_flags _ env) with 68 by (by destruct env).
  destruct (termkey_init (termkey_set_flags 68 (set_fd 0 termkey_alloc))) as [t0 |] eqn:E0; cbn [mbind option_bind]; [| done].
  vm_compute in E0. injection E0 as <-.
  change (flag 68 FLAG_NOSTART) with false. cbn iota. unfold termkey_start. cbn [is_started tk]. unfold start_driver. cbn [root the_ti new_ti].
  rewrite Hl. cbn [mbind option_bind start_string]. destruct (send_string _ _ _ _) as [[ok out] |]; cbn [mbind option_bind]; [| done].
  destruct ok; cbn [mbind option_bind option_map]; [| done]. intros [= <-].
  constructor; try done; [| by exists t].
  constructor; [apply Nat.leb_le; reflexivity |]. change (Forall (fun x => 0 <= x < 256) (replicate 256 0)). apply Forall_replicate. lia.
Qed.

(** C21: a printable line and Enter, as the bytes that the terminal sends, reach the
    application as that line, whole, with the line in the history and the input left
    empty; nothing stays in the decoder, which is ready for the next line.  If the
    application closes the window for it, as a command may, the next access is to the
    freed window. *)
Theorem typed_bytes_submitted `{App} es u w f s d k (Hu : ui_ok u) (Hw : simple u w) (Hr : rep (input u) ([], [])) (Hne : s <> []) (Hp : Forall printable s)
    (Hlen : (length s <= 255)%nat) (Hb : tui_input_blocked_cb = None) (Hf : tui_readline_cb = Some f)
    (Hv : forall l, tui_ok (screen (f (add_to_history s (set_input l u)) s))) (Hd : waiting es [] d) :
  exists l d', rep l (s, []) /\ waiting es [] d' /\
    let v := f (add_to_history s (set_input l u)) s in
    stdin_ev_cb u d k [Data (map code s ++ [13])] = match alive v (w_addr w) with Some _ => Some (set_input no_line v, d') | None => None end.
Proof.
  destruct (typed_line_submitted u w f s Hu Hw Hr Hne Hp ltac:(lia) Hb Hf Hv) as (l & Hl & Hkeys).
  assert (Forall plain_byte (map code s ++ [13])) as Hplain.
  { apply Forall_app. split; [| by repeat constructor; right]. apply Forall_forall. intros b (c & -> & Hin)%list_elem_of_fmap.
    rewrite Forall_forall in Hp. apply Hp in Hin. unfold printable in Hin. left. lia. }
  destruct (advise_waiting es d (map code s ++ [13]) Hd) as (d1 & Ha & Hd1).
  { by destruct s. }
  { rewrite length_app, length_map. cbn. lia. }
  { eapply Forall_impl; [exact Hplain |]. unfold plain_byte. lia. }
  destruct (take_plain es _ d1 k Hd1 Hplain) as (ks & d' & Htk & Hks & Hd').
  exists l, d'. split_and!; [done | done |]. cbv zeta in Hkeys |- *. unfold stdin_ev_cb. rewrite Ha. cbn [mbind option_bind]. rewrite Htk.
  cbn [mbind option_bind]. rewrite Hks.
  assert (map byte_key (map code s ++ [13]) = map char_key s ++ [enter_key]) as ->.
  { rewrite map_app, map_map. f_equal. apply map_ext_in. intros c Hin%list_elem_of_In. rewrite Forall_forall in Hp. apply Hp in Hin.
    unfold printable in Hin. unfold byte_key. by replace (code c =? 13) with false by lia. }
  rewrite Hkeys. by destruct (alive _ _).
Qed.

(** A description with one sequence, for the Up key. *)
#[local] Instance one_sequence : Terminfo := {|
  setupterm_ok := true;
  getstr name := if streq name (B "key_up") then Some (chr 27 :: B "OA") else None;
  keypad_xmit := None;
  keypad_local := None |}.

Definition blank_key : TermKey.key := TermKey.Key UNICODE 0 [0; 0; 0; 0] 0 (replicate 7 0).

Definition started : decoder :=
  match tui_keys_init_decoder true Tty [] with Some (Some d) => d | _ => Decoder termkey_alloc new_ti new_csi end.

Lemma started_waiting : waiting [([27; 79; 65], Keyinfo KEYSYM SYM_UP 0 0)] [] started.
Proof.
  apply (init_waiting true Tty []); [reflexivity | vm_compute; reflexivity | repeat constructor; by eexists | vm_compute; reflexivity].
Qed.

Lemma typed_bytes_submitted_witness :
  exists u' d', @stdin_ev_cb (line_app print_line) (Ui one_window no_line true empty_history no_hotkeys []) started blank_key [Data [104; 105; 13]] = Some (u', d') /\
    input u' = no_line /\ map shown_lines (tui_windows (screen u')) = [[Some (B "hi")]].
Proof.
  destruct (@typed_bytes_submitted (line_app print_line) [([27; 79; 65], Keyinfo KEYSYM SYM_UP 0 0)] (Ui one_window no_line true empty_history no_hotkeys [])
    (new_window 1 (B "status")) print_line (B "hi") started blank_key) as (l & d' & _ & _ & H).
  - apply fresh_ok, two_ok.
  - split; [reflexivity | split; reflexivity].
  - apply no_line_rep.
  - discriminate.
  - repeat constructor; vm_compute; discriminate.
  - apply Nat.leb_le. reflexivity.
  - reflexivity.
  - reflexivity.
  - intros l. apply print_ok, two_ok.
  - apply started_waiting.
  - eexists _, d'. split; [etrans; [exact H | reflexivity] |]. split; vm_compute; reflexivity.
Defined.

(** ** Unknown sequences *)

(** The two introducers. *)
Lemma peek_intro t d k (pre more : list Z) : buffer_ok t -> pre = [0x1b; 0x5b] \/ pre = [0x9b] -> window t = pre ++ more ->
  (buffcount t =? 0)%nat = false /\ csi_peekkey t d k false 0 = peekkey_csi t d (length pre) k false 0.
Proof.
  intros Hok Hpre Hw. pose proof (length_window t Hok) as Hl. rewrite Hw, length_app in Hl.
  unfold csi_peekkey, charat. rewrite Hw. destruct Hpre as [-> | ->]; cbn [length] in Hl.
  - replace (buffcount t =? 0)%nat with false by (symmetry; apply Nat.eqb_neq; lia). cbn [app lookup list_lookup mbind option_bind].
    change (27 =? 27) with true. cbn iota. by replace (buffcount t <? 2)%nat with false by (symmetry; apply Nat.ltb_ge; lia).
  - by replace (buffcount t =? 0)%nat with false by (symmetry; apply Nat.eqb_neq; lia).
Qed.

(** A final byte without a handler. *)
Lemma unknown_peek t d (pre : list Z) len args n initial inter c : parse_csi t (length pre) no_args = Some (Some (Parsed len args n (full_command initial inter (code c)))) ->
  csi_handlers register_keys !! slot c = Some None ->
  forall k, peekkey_csi t d (length pre) k false 0 = Some (KEY, set_hightide (len - length pre) t, d,
    set_modifiers 0 (set_code (i32 (full_command initial inter (code c))) (set_type UNKNOWN_CSI k)), length pre).
Proof.
  intros Hp Hh k. unfold peekkey_csi. rewrite Hp. cbn [mbind option_bind csi_command nargs csi_len csi_args].
  assert (full_command initial inter (code c) =? code "M" = false) as ->.
  { apply Z.eqb_neq. intros E. pose proof (full_command_low initial inter (code c) (code_range c)) as Hlow. rewrite E in Hlow.
    change (Z.land (code "M") 255) with (code "M") in Hlow. apply code_inj in Hlow. subst c. vm_compute in Hh. discriminate. }
  cbn [andb]. rewrite full_command_low by apply code_range. unfold slot in Hh. rewrite Hh. cbn [mbind option_bind].
  by rewrite bool_decide_eq_true_2 by done.
Qed.

(** C23: a control sequence that the driver does not know is reported once and skipped
    whole: the key says its final, initial and intermediate bytes, its parameters can be
    asked for as they were written, and decoding goes on with the bytes behind it. *)
Theorem unknown_sequence_skipped d k t pre initial ps inter c rest
    (Hs : is_started (tk d) = true) (Hh : hightide (tk d) = 0%nat) (Hok : buffer_ok (tk d)) (He : (buffsize (tk d) = 2 * (buffsize (tk d) / 2))%nat)
    (Ht : root (the_ti d) = Some t) (Hoff : walk t (window (tk d)) = Some Off)
    (Hpre : pre = [0x1b; 0x5b] \/ pre = [0x9b]) (Hw : window (tk d) = pre ++ csi_text initial ps inter (code c) ++ rest)
    (Hps : Forall param_ok ps) (Hn : (length ps <= 16)%nat) (Hlast : ps = [] \/ exists v, last ps = Some (Some v))
    (Hini : match initial with Some b => 60 <= b <= 63 | None => True end) (Hint : match inter with Some b => 0x20 <= b <= 0x2f | None => True end)
    (Hc : 0x40 <= code c < 0x80) (Hunknown : csi_handlers register_keys !! slot c = Some None) :
  exists d' k' args, termkey_getkey d k = Some (KEY, d', k') /\ type k' = UNKNOWN_CSI /\ kcode k' = i32 (full_command initial inter (code c)) /\
    termkey_interpret_csi (tk d') k' no_args = Some (KEY, Some (Parsed (length (csi_text initial ps inter (code c))) args (length ps) (full_command initial inter (code c)))) /\
    (forall i p, ps !! i = Some p -> arg args i = Some (default (-1) p)) /\
    exists t', apply_hightide (tk d') = Some t' /\ window t' = rest /\ is_started t' = true /\ buffer_ok t'.
Proof.
  set (text := csi_text initial ps inter (code c)) in *.
  assert (1 <= length text)%nat as Htext by (unfold text, csi_text; rewrite !length_app; cbn; lia).
  pose proof (csi_read_back (tk d) pre initial ps inter (code c) rest Hw Hps Hini Hint Hc Hlast) as Hparse. fold text in Hparse.
  rewrite (proj2 (Nat.leb_le _ _) Hn) in Hparse. destruct Hparse as (args0 & Hparse & _).
  pose proof (unknown_peek (tk d) (the_csi d) pre (length pre + length text) args0 (length ps) initial inter c Hparse Hunknown) as Hpeek.
  replace (length pre + length text - length pre)%nat with (length text) in Hpeek by lia.
  destruct (peek_intro (tk d) (the_csi d) k pre (text ++ rest) Hok Hpre Hw) as [Hnz Hintro].
  set (t1 := set_hightide (length text) (tk d)).
  assert (buffer_ok t1 /\ window t1 = window (tk d) /\ buffsize t1 = buffsize (tk d)) as (Ok1 & W1 & S1) by (destruct Hok; by split_and!).
  destruct (slide_window t1 Ok1 ltac:(by rewrite S1)) as (W2 & Ok2 & _ & _).
  assert (forall t n, hightide (slide t) = hightide t /\ hightide (eat_bytes n t) = hightide t /\ is_started (slide t) = is_started t /\ is_started (eat_bytes n t) = is_started t) as Hkeep.
  { intros t0 n. unfold slide, eat_bytes. by repeat case_match. }
  set (t2 := eat_bytes (length pre) (slide t1)).
  assert (window t2 = text ++ rest) as W3 by (unfold t2; rewrite window_eat, W2, W1, Hw by done; by apply drop_app_length).
  assert (buffer_ok t2) as Ok3 by (by apply eat_ok).
  destruct (Hkeep t1 0%nat) as (K1 & _ & K3 & _). destruct (Hkeep (slide t1) (length pre)) as (_ & K2 & _ & K4).
  assert (hightide t2 = length text /\ is_started t2 = true) as [Hh2 Hs2] by (unfold t2; rewrite K2, K4, K1, K3; by split).
  pose proof (csi_read_back t2 [] initial ps inter (code c) rest W3 Hps Hini Hint Hc Hlast) as Hagain.
  rewrite (proj2 (Nat.leb_le _ _) Hn) in Hagain. destruct Hagain as (args & Hagain & Hargs).
  exists (set_tk t2 d), (set_modifiers 0 (set_code (i32 (full_command initial inter (code c))) (set_type UNKNOWN_CSI k))), args.
  split_and!; [| done | done | | done |].
  - unfold termkey_getkey, peek. cbn [peekkey]. rewrite Hs. cbn [negb]. unfold apply_hightide. rewrite Hh. cbn [Nat.eqb mbind option_bind].
    rewrite with_own_tk. unfold ti_peekkey. rewrite Hnz, Ht. cbn [mbind option_bind]. rewrite Hoff. cbn [mbind option_bind].
    rewrite Hintro, Hpeek. cbn [mbind option_bind set_tk set_csi tk the_csi the_ti]. done.
  - unfold termkey_interpret_csi. cbn [set_tk tk]. rewrite Hh2. replace (length text =? 0)%nat with false by (symmetry; apply Nat.eqb_neq; lia).
    rewrite bool_decide_eq_true_2 by done. cbn [negb length] in *. by rewrite Hagain.
  - unfold apply_hightide. cbn [set_tk tk]. rewrite Hh2. replace (length text =? 0)%nat with false by (symmetry; apply Nat.eqb_neq; lia).
    assert (buffcount t2 = length text + length rest)%nat as Hcount by (rewrite <- (length_window t2 Ok3), W3, length_app; done).
    replace (buffcount t2 <? length text)%nat with false by (symmetry; apply Nat.ltb_ge; lia).
    eexists. split; [reflexivity |]. split_and!; [| done |].
    + change (window (set_hightide 0 (ahead (length text) t2))) with (window (ahead (length text) t2)). rewrite window_ahead, W3. by apply drop_app_length.
    + destruct (ahead_ok (length text) t2 ltac:(lia) Ok3). by constructor.
Qed.

(** The terminal's answer to a question about its attributes, and two letters. *)
Definition attributes_then_letters : list Z := [27; 91] ++ csi_text (Some 63) [Some 62; Some 1] None 99 ++ [65; 66].

Definition asked : decoder := set_tk (set_buffer attributes_then_letters 0 10 (tk started)) started.

Lemma unknown_sequence_skipped_witness :
  exists d' k' args, termkey_getkey asked blank_key = Some (KEY, d', k') /\ type k' = UNKNOWN_CSI /\ kcode k' = 99 + 63 * 256 /\
    termkey_interpret_csi (tk d') k' no_args = Some (KEY, Some (Parsed 6 args 2 (99 + 63 * 256))) /\ arg args 0 = Some 62 /\ arg args 1 = Some 1 /\
    exists t', apply_hightide (tk d') = Some t' /\ window t' = [65; 66].
Proof.
  destruct (unknown_sequence_skipped asked blank_key (match root (the_ti started) with Some t => t | None => new_node_arr 1 0 end)
    [27; 91] (Some 63) [Some 62; Some 1] None "c" [65; 66])
    as (d' & k' & args & G & T & C & I & Hargs & t' & A & W & _).
  - vm_compute. reflexivity.
  - vm_compute. reflexivity.
  - constructor; [apply Nat.leb_le; vm_compute; reflexivity |].
    change (Forall (fun x => 0 <= x < 256) attributes_then_letters). repeat constructor; vm_compute; discriminate.
  - vm_compute. reflexivity.
  - vm_compute. reflexivity.
  - vm_compute. reflexivity.
  - by left.
  - vm_compute. reflexivity.
  - repeat constructor; vm_compute; discriminate.
  - apply Nat.leb_le. reflexivity.
  - right. by exists 1.
  - split; vm_compute; discriminate.
  - exact I.
  - split; [vm_compute; discriminate | reflexivity].
  - vm_compute. reflexivity.
  - exists d', k', args. split; [exact G |]. split; [exact T |]. split; [exact C |]. split; [exact I |].
    split; [exact (Hargs 0%nat (Some 62) eq_refl) |]. split; [exact (Hargs 1%nat (Some 1) eq_refl) |]. exists t'. by split.
Defined.

(** ** What typing outside ASCII gives *)

Definition keys_typed (bytes : list Z) : option (list (TermKey.key_type * Z * Z) * nat) :=
  '(_, d, _) ← advise started [Data bytes];
  '(ks, d) ← take_keys (S (count d)) d blank_key;
  Some (map (fun k => (TermKey.type k, kcode k, TermKey.modifiers k)) ks, count d).

(** The interface asks for raw bytes: the second byte of a letter in UTF-8 may then be a
    control character.  Sharp s ends in Ctrl-Alt-underscore, and the second byte of U with
    circumflex begins a control sequence that takes up what is typed next. *)
Lemma letters_misread :
  keys_typed [0xc3; 0x9f] = Some ([(UNICODE, 0xc3, 0); (UNICODE, 0x5f, 6)], 0%nat) /\
  keys_typed [0xc3; 0x9b; 49; 50] = Some ([(UNICODE, 0xc3, 0)], 3%nat).
Proof. split; vm_compute; reflexivity. Qed.

(** A terminal that sends Ctrl-H for Backspace types the letter. *)
Lemma ctrl_h_is_a_letter : keys_typed [8] = Some ([(UNICODE, 104, 4)], 0%nat).
Proof. vm_compute. reflexivity. Qed.

(** A function key of the terminal's description is an answer to be waited for while only
    ESC is there, and the key Esc alone is never handed on. *)
Lemma escape_waits : keys_typed [27] = Some ([], 1%nat).
Proof. vm_compute. reflexivity. Qed.
